(* ===== verification/_CoqProject ===== *)
-Q . S2P
Prelude.v
Bytes.v
Message.v
Frame.v
DemoCodec.v
FrameSpec.v
Paths.v
Ordered.v
Mounts.v
Launch.v
Process.v
Session.v
SessionSpec.v
Agent.v
AgentSpec.v
Trim.v
Hybrid.v
HostControl.v
HostControlSpec.v
HostSessionSpec.v
Ip.v
Allowlist.v
Nft.v
Resolver.v
ResolverSpec.v
Workspace.v
Spec.v
SpecSpec.v
Credentials.v
Generations.v
Diagnostic.v
Toml.v
Artifact.v
Manifest.v
ManifestSpec.v
Grammar.v
GrammarSpec.v
Lifecycle.v
Stop.v
AgentSource.v
Volumes.v
VolumesText.v
Start.v
StartSpec.v
Roots.v
Destroy.v
DestroySpec.v
Registry.v
Binding.v
Retention.v
Json.v
Lock.v
Merged.v
Netns.v
Policy.v
Supervisor.v
SupervisorSpec.v
TeardownSpec.v
ProvisionSpec.v
Cmdline.v
Handoff.v
Launcher.v
HandoffSpec.v
Console.v
Reclaim.v
NixText.v
Inputs.v
Flake.v
FlakeSpec.v
Materialize.v
MaterializeSpec.v
Doctor.v
DoctorSpec.v
Exec.v
Attach.v
Update.v
Evaluate.v
Render.v
Status.v
Main.v
