(* ===== verification/Prelude.v ===== *)
(** * vivarium: a verification library for the microVM sandbox tool

    vivarium runs a project's processes in a microVM.  The command line ([src/src/cli], [src/src/main.rs]) resolves a
    project's manifest ([src/src/config]), generates and builds a flake from it, and hands a launch specification to a
    supervisor ([src/src/launch], [src/src/bin/vivarium-supervisor.rs]), which confines and starts the VM with its share
    daemons and its network ([src/src/net]).  Inside the VM an agent ([src/src/bin/vivarium-guest-agent]) serves a framed
    protocol ([src/src/protocol]) over vsock.  [viv doctor] ([src/src/doctor]) judges the host.  This library models the
    parts that decide something, and what they promise to one another.

    ** The parts, and the files that model them

    Every component has a file of definitions.  Its theorems are the second half of that file or, where they are many, a
    [...Spec] file beside it.

    Ground: [Prelude] (Rust's [Result] as a monad [let?], the state-and-error monad [sem] with [let!] and [;;], step
    relations with traces, the tactics [inv_ok] and [inv_sok] that split a successful run, generic list lemmas); [Bytes],
    [Paths], [Ip], [Ordered] (the Standard Library of Rust as far as the source uses it: bytes and decimal numbers, paths
    by components, addresses, ordered strings); [Json] and [Toml] (the values of serde_json and of the toml crate, whose
    parsers are arguments); [Diagnostic] (exit codes, failure objects and their renderings).

    The protocol and the guest:
    - [Message], [Frame] / [FrameSpec], [DemoCodec] ([protocol/]): messages, bounds, and the length-prefixed frames over a
      byte stream that may end or fail anywhere.  serde_json is the class [WireCodec] with its laws [WireLaws].
    - [Process], [Session] / [SessionSpec] ([process.rs], [session.rs] of the agent): what a request spawns, and the
      session loops as functions of a schedule (the branches [select!] finds ready, with the bytes each read took).
    - [Agent] / [AgentSpec] ([control.rs], [boot.rs]): the control connection, the accept loop with the session counter.
    - [Trim] ([run_trim], [nix/fstrim-run.sh]): every interleaving of the agent and the root-owned unit.
    - [Cmdline] ([nix/mount-bind.sh]): what the bind unit reads off the kernel command line.
    - [Credentials] ([credentials.rs] of the agent and the launcher): the pool of parked streams and the host's workers.

    The host end of it: [Hybrid], [HostControl] / [HostControlSpec], [HostSessionSpec] ([protocol/hybrid.rs],
    [launch/control.rs]): the CONNECT exchange, the calls, the session loop, and both ends together.  [Exec]
    ([cli/session.rs]): a command in the guest.

    A launch:
    - [Mounts], [Workspace], [AgentSource], [Spec] / [SpecSpec], [Launch] ([launch/]): declared sources, the workspace set,
      credential sources, the launch record with its whole validator.
    - [Policy] ([launch/policy.rs], [launch/systemd.rs]), [Netns] ([net/netns.rs], [net/tap.rs]): every
      rendered command with the re-read that refuses one that lost a leg, and the unit.
    - [Supervisor] / [SupervisorSpec], [TeardownSpec], [ProvisionSpec] ([launch/supervisor.rs]): the bring-up, the watch,
      the shutdown ladder, the sweep, the images of volumes.
    - [Handoff], [Launcher] / [HandoffSpec] ([vivarium-supervisor.rs], [main.rs], [launch/secure_fs.rs],
      [launch/readiness.rs]): the two processes of a launch and the report between them.
    - [Console] ([launch/console.rs]) and [Attach] ([cli/attach.rs]): the capture with its rotation, and its follower.
    - [Allowlist], [Nft], [Resolver] / [ResolverSpec] ([net/]): the allowlist grammar, the nftables objects with a packet
      semantics of the rules used, the DNS gate with its serve loop.  [IpNetOps] and [Dns] are classes.

    The command line:
    - [Grammar] / [GrammarSpec] ([cli/grammar.rs]): the lift of the global flags and every verb.
    - [Lifecycle], [Stop], [Start] / [StartSpec] ([cli/lifecycle.rs], [cli/fleet.rs]): the state of a VM, bringing it down,
      bringing it up.  [Reclaim] ([cli/trim.rs]): memory asked back.
    - [Volumes], [VolumesText] ([config/volumes.rs], [cli/volume.rs]), [Generations], [Retention]
      ([config/generations.rs], [cli/generations.rs]), [Roots], [Destroy] / [DestroySpec] ([config/roots.rs],
      [cli/destroy.rs], [cli/prompt.rs]): what a project keeps, and how it is taken away.
    - [Doctor] / [DoctorSpec] ([doctor/], [cli/doctor.rs]): the probe catalog with its two readers.
    - [Status] ([cli/lifecycle.rs], [cli/fleet.rs]): the report of one project and of the fleet.  [Render] ([cli/render.rs],
      [ui/]): the face, the tables, and the record and the text of every result.

    The configuration:
    - [Artifact], [Manifest] / [ManifestSpec] ([config/artifact.rs], [config/manifest.rs], [config/error.rs]), [Registry],
      [Binding] ([config/registry.rs], [config/resolve.rs], [cli/mod.rs]): the manifest grammar over the
      parsed document, the derived index, and whose a directory is.
    - [NixText], [Inputs], [Flake] / [FlakeSpec], [Materialize] / [MaterializeSpec] ([config/flake.rs], [config/input.rs],
      [config/base.rs], [config/materialize.rs], [config/atomic.rs]): the generated flake, and its publication.
    - [Lock] ([config/lock.rs]), [Update] ([cli/update.rs]): what is read of a lockfile, and the verb that moves a pin.
    - [Main] ([main.rs], [cli/mod.rs]): the process around the verbs - what is answered before anything can fail, the arm
      of each invocation, the two streams and the exit.
    - [Merged] ([config/merged.rs]), [Evaluate] ([cli/mod.rs], [config/evaluate.rs]): what an evaluation
      report means, and the one road from a manifest to it that the readers and a start share.

    ** Conventions

    Definitions keep the source's names; a trailing underscore is there where Rocq or a sibling has the name already.  A
    byte string is a [list byte], an integer a [Z] with its width written where it matters ([u64_checked_add],
    [u64_wrap], [saturating_add]).  Text is UTF-8.  A shared or mutable object is a record passed through; concurrent code
    is a step relation over it or a function of a schedule.  What the operating system, Nix, a peer or a crate answers is
    an argument: a reader's bytes and how it ends, a failure for each step, a [..._world] record that is the same during
    one run.  Effects on the host are a log, or a state with its past.  A file system is keyed as the code walks it: by
    path components in [Destroy] and [Handoff], by sibling path to a tree in [Materialize] and [Update], by names that lead
    to inodes in [Console] and [Attach], where each operation meets the disk as it is then.

    ** What the theorems show

    - End to end: the child reads what the host was given ([stdin_reaches_the_child]); the host reports what the agent sent
      ([host_reports_the_guest], [session_exit_contract]); what crosses into the guest ([guest_sees_what_crosses]); a
      launch answers what its supervisor reports ([launch_answer_is_the_supervisors]); its parameters reach the guest
      ([launch_parameters_reach_the_guest]); the attached console shows what was written
      ([follower_forwards_what_is_written]).
    - Safety: nothing unpermitted leaves the gate; the guest runs behind its filter; a share daemon serves a checked root;
      a session never disturbs a live VM; a removal waits for a dead VM and takes what was planned; pruning takes
      orphans only; doctor changes nothing; an update that is refused wrote nothing; a generation retains the checked lock
      it was evaluated under, as long as no other command publishes the tree in between.
    - The process: no invocation falls through to an empty success ([no_verb_is_skipped]), and no run leaves a frame open
      on the terminal ([no_frame_is_left_open]).
    - Invariants: the credential pool, the resolver's tasks, the profile, the console log, the published tree and the pin
      at every moment of a publication and of an update.
    - Termination and liveness: the shutdown ladder, the pool's readiness.
    - Agreement of views: the fleet says what a status says ([fleet_says_what_status_says]), a record loses nothing
      ([status_record_is_faithful]), color changes no text ([color_changes_no_text]), the readers of a merge and a launch see
      one answer ([readers_and_launch_agree]).
    - Exactness and round trips: the scanners, codecs, grammars and rendered texts accept or say exactly what their
      theorems characterise.
    - Defects, stated as theorems: among them a read dropped by [select!] desynchronises a session, a manifest with an
      extension is never prepared, a rotation hides bytes from a follower, a generation's number comes back, a
      shadowed volume is recorded as declared, a chunk subscribers were sent is on no disk, a living VM whose unit cannot
      be asked reads as crashed.

    ** Fuel and bounds

    [Agent.serve] needs two rounds ([serve_two_rounds]).  The scanners ([expand_fuel], [token_fuel], [chunks_fuel],
    [words_fuel], the trims) are given the length of their input, which each round shortens; [NixText.read] the number of
    tokens; [Lock.walk_fuel] the number of edges, which [walk_is_reachability] proves enough; [Merged.references_fuel] the
    length of the text.  The waits have the source's own bounds ([await_fuel], [STARTUP_POLLS], [CONNECT_RETRIES], 64 reads
    of an acknowledgement, [MAX_TEMP_ATTEMPTS], eight probe directories); [dec] has twenty digits, enough for a u64.  A
    loop over a schedule has the schedule's length, and one that does not end leaves the loop running: the theorems speak
    of both.  A poll of the follower is structural over its observations; [follower_forwards_what_is_written] says how
    many are enough.

    ** Not modelled

    What the [console] crate makes of a style, serde_json's printer, Nix itself and the programs a launch starts are
    parameters or answers; spinners and the theme of a prompt ([ui/watch.rs], [ui/theme.rs]) are calls of crates.  In
    [Main] a verb is a field of the surface, not the definition of its own part.  A [tokio] file of [Console] answers for
    a write at the next operation, and its disk is the one where what was taken has come to rest.  In [Supervisor] the
    helper that asks the VMM, the reap of a killed child and the drain tasks return; in [Evaluate] another command may
    publish the shared tree before each step that touches it, and at no finer grain.  Of a finding of [viv doctor] what
    it quotes is kept, not its sentences.  Cancellation of tasks beyond what a schedule says, the byte relay of a
    credential stream, file modes left by a umask, and timers beyond "passed or not" are outside the models.
*)
From Stdlib Require Export ZArith Lia Strings.String Strings.Byte.
From stdpp Require Export base tactics list list_numbers option countable gmap.

#[global] Open Scope Z_scope.
#[global] Set Default Goal Selector "!".

(* ------------------------------------------------------------------ *)
(** ** Fallible code: Rust's [Result] *)

Inductive result (A E : Type) : Type :=
| Ok (a : A)
| Err (e : E).
Arguments Ok {A E} a.
Arguments Err {A E} e.

Declare Scope viv_scope.
Delimit Scope viv_scope with viv.
#[global] Open Scope viv_scope.

Definition rbind {A B E} (m : result A E) (k : A -> result B E) : result B E :=
  match m with Ok a => k a | Err e => Err e end.

(** Rust's [?]: continue on [Ok], return the error otherwise. *)
Notation "'let?' x := m 'in' k" := (rbind m (fun x => k))
  (at level 10, x pattern, m at level 100, k at level 200) : viv_scope.
(** [?] in a function returning [Option]. *)
Notation "'let*' x := m 'in' k" := (option_bind _ _ (fun x => k) m)
  (at level 10, x pattern, m at level 100, k at level 200) : viv_scope.

Definition map_err {A E F} (f : E -> F) (m : result A E) : result A F :=
  match m with Ok a => Ok a | Err e => Err (f e) end.
Definition ok_or {A E} (o : option A) (e : E) : result A E :=
  match o with Some a => Ok a | None => Err e end.
Definition ok {A E} (m : result A E) : option A :=
  match m with Ok a => Some a | Err _ => None end.
Definition is_ok {A E} (m : result A E) : bool :=
  match m with Ok _ => true | Err _ => false end.

(** [if c { return Err(e) }] in front of the rest of a function. *)
Definition guard_err {E} (c : bool) (e : E) : result unit E :=
  if c then Err e else Ok tt.

(** A [for] loop whose body may return early. *)
Fixpoint for_each {A E} (f : A -> result unit E) (l : list A) : result unit E :=
  match l with
  | [] => Ok tt
  | x :: l' => let? _ := f x in for_each f l'
  end.

(** [iter().map(f).collect::<Result<Vec<_>, _>>()]: the first error wins. *)
Fixpoint collect_results {A B E} (f : A -> result B E) (l : list A) : result (list B) E :=
  match l with
  | [] => Ok []
  | x :: l' =>
      let? y := f x in
      let? ys := collect_results f l' in
      Ok (y :: ys)
  end.

(** A [for] loop that threads a mutable value and may return early. *)
Fixpoint fold_err {A S E} (f : S -> A -> result S E) (l : list A) (s : S) : result S E :=
  match l with
  | [] => Ok s
  | x :: l' => let? s' := f s x in fold_err f l' s'
  end.

Lemma rbind_ok {A B E} (m : result A E) (k : A -> result B E) b :
  rbind m k = Ok b <-> exists a, m = Ok a /\ k a = Ok b.
Proof. destruct m; simpl; naive_solver. Qed.

Lemma rbind_assoc {A B C E} (m : result A E) (f : A -> result B E) (g : B -> result C E) :
  rbind (rbind m f) g = rbind m (fun a => rbind (f a) g).
Proof. by destruct m. Qed.

Lemma guard_err_ok {E} c (e : E) u : guard_err c e = Ok u <-> c = false.
Proof. destruct c, u; simpl; naive_solver. Qed.

Lemma map_err_ok {A E F} (f : E -> F) (m : result A E) a : map_err f m = Ok a <-> m = Ok a.
Proof. destruct m; simpl; naive_solver. Qed.

Lemma ok_or_ok {A E} (o : option A) (e : E) a : ok_or o e = Ok a <-> o = Some a.
Proof. destruct o; simpl; naive_solver. Qed.

Lemma for_each_ok {A E} (f : A -> result unit E) l u :
  for_each f l = Ok u <-> Forall (fun x => f x = Ok tt) l.
Proof.
  destruct u. induction l as [|x l IH]; simpl; [by split|].
  rewrite Forall_cons, <- IH. destruct (f x) as [[]|]; naive_solver.
Qed.

Lemma collect_results_ok {A B E} (f : A -> result B E) l ys :
  collect_results f l = Ok ys <-> Forall2 (fun x y => f x = Ok y) l ys.
Proof.
  revert ys. induction l as [|x l IH]; intros ys; simpl.
  - split; [intros [= <-]; constructor|by inversion 1].
  - rewrite rbind_ok. setoid_rewrite rbind_ok. split.
    + intros (y & Hy & zs & Hzs%IH & [= <-]). by constructor.
    + inversion 1; subst. eexists; split; [done|]. eexists; split; [by apply IH|done].
Qed.

Lemma collect_results_map {A B C E} (f : B -> result C E) (g : A -> B) (h : A -> C) l :
  Forall (fun a => f (g a) = Ok (h a)) l -> collect_results f (map g l) = Ok (map h l).
Proof. induction 1 as [|a l Ha Hl IH]; [done|]. cbn. by rewrite Ha; cbn; rewrite IH. Qed.
(** Reading back what was written, element by element. *)
Lemma collect_results_written {A B E} (f : B -> result A E) (g : A -> B) l :
  Forall (fun a => f (g a) = Ok a) l -> collect_results f (map g l) = Ok l.
Proof. intros H. rewrite <- (map_id l) at 2. by apply collect_results_map. Qed.

(** The hint database [viv]: how a successful run of monadic code splits. *)
Create HintDb viv.
Create Rewrite HintDb viv.
#[export] Hint Rewrite @rbind_ok @guard_err_ok @map_err_ok @ok_or_ok @for_each_ok
  @collect_results_ok : viv.

(** Split every successful bind in the context into its steps. *)
Ltac inv_ok :=
  repeat match goal with
  | H : rbind _ _ = Ok _ |- _ => apply rbind_ok in H; destruct H as (? & ? & H)
  | H : guard_err _ _ = Ok _ |- _ => apply guard_err_ok in H
  | H : map_err _ _ = Ok _ |- _ => apply map_err_ok in H
  | H : ok_or _ _ = Ok _ |- _ => apply ok_or_ok in H
  | H : for_each _ _ = Ok _ |- _ => apply for_each_ok in H
  | H : Ok _ = Ok _ |- _ => injection H as H; subst
  | H : Err _ = Ok _ |- _ => discriminate H
  | H : Ok _ = Err _ |- _ => discriminate H
  end.

(* ------------------------------------------------------------------ *)
(** ** Fallible code that changes a state: a state-and-error monad *)

Definition sem (S E A : Type) : Type := S -> result A E * S.
Definition sret {S E A} (a : A) : sem S E A := fun s => (Ok a, s).
Definition sfail {S E A} (e : E) : sem S E A := fun s => (Err e, s).
Definition slift {S E A} (m : result A E) : sem S E A := fun s => (m, s).
Definition sbind {S E A B} (m : sem S E A) (k : A -> sem S E B) : sem S E B := fun s =>
  match m s with
  | (Ok a, s') => k a s'
  | (Err e, s') => (Err e, s')
  end.
Definition smap_err {S E F A} (f : E -> F) (m : sem S E A) : sem S F A := fun s =>
  let '(r, s') := m s in (map_err f r, s').

Notation "'let!' x := m 'in' k" := (sbind m (fun x => k))
  (at level 10, x pattern, m at level 100, k at level 200) : viv_scope.
Notation "m ;; k" := (sbind m (fun _ => k))
  (at level 100, k at level 200, right associativity) : viv_scope.

Lemma sbind_ok {S E A B} (m : sem S E A) (k : A -> sem S E B) s b s' :
  sbind m k s = (Ok b, s') <-> exists a s1, m s = (Ok a, s1) /\ k a s1 = (Ok b, s').
Proof. unfold sbind. destruct (m s) as [[a|e] s1]; naive_solver. Qed.

Lemma smap_err_ok {S E F A} (f : E -> F) (m : sem S E A) s a s' :
  smap_err f m s = (Ok a, s') <-> m s = (Ok a, s').
Proof. unfold smap_err. destruct (m s) as [[]]; simpl; naive_solver. Qed.

Lemma sbind_run {S E A B} (m : sem S E A) (k : A -> sem S E B) s a s1 :
  m s = (Ok a, s1) -> sbind m k s = k a s1.
Proof. unfold sbind. by intros ->. Qed.

Lemma sbind_run_err {S E A B} (m : sem S E A) (k : A -> sem S E B) s e s1 :
  m s = (Err e, s1) -> sbind m k s = (Err e, s1).
Proof. unfold sbind. by intros ->. Qed.

(** Split every successful stateful bind in the context into its steps. *)
Ltac inv_sok :=
  repeat match goal with
  | H : sbind _ _ _ = (Ok _, _) |- _ => apply sbind_ok in H; destruct H as (? & ? & ? & H)
  | H : smap_err _ _ _ = (Ok _, _) |- _ => apply smap_err_ok in H
  | H : sret _ _ = (Ok _, _) |- _ => injection H as H; subst
  | H : sfail _ _ = (Ok _, _) |- _ => discriminate H
  | H : slift ?m _ = (Ok _, _) |- _ => unfold slift in H; simplify_eq
  end.

(* ------------------------------------------------------------------ *)
(** ** Lists *)

Lemma NoDup_snoc_fresh {K} (l : list K) k : NoDup l -> k ∉ l -> NoDup (l ++ [k]).
Proof.
  intros Hl Hk. apply NoDup_app. split_and!; [done| |apply NoDup_singleton].
  intros x Hx ->%list_elem_of_singleton. done.
Qed.

(** Replacing one element changes a count by what that element and its successor count. *)
Lemma length_filter_insert {A} (P : A -> Prop) `{!forall x, Decision (P x)} (l : list A) i x y :
  l !! i = Some x ->
  (length (filter P (<[i := y]> l)) + (if decide (P x) then 1 else 0) =
   length (filter P l) + (if decide (P y) then 1 else 0))%nat.
Proof.
  intros Hl. pose proof (lookup_lt_Some _ _ _ Hl) as Hlt. rewrite <- (take_drop_middle l i x Hl) at 2.
  rewrite insert_take_drop by done. rewrite !filter_app, !filter_cons, !length_app.
  repeat case_decide; cbn [length]; lia.
Qed.

(* ------------------------------------------------------------------ *)
(** ** Step relations *)

(** Reflexive-transitive closure with the trace of labels. *)
Section steps.
Context {S L : Type} (step : S -> L -> S -> Prop).

Inductive steps : S -> list L -> S -> Prop :=
| steps_nil s : steps s [] s
| steps_cons s1 l s2 ls s3 : step s1 l s2 -> steps s2 ls s3 -> steps s1 (l :: ls) s3.

Lemma steps_app s1 l1 s2 l2 s3 : steps s1 l1 s2 -> steps s2 l2 s3 -> steps s1 (l1 ++ l2) s3.
Proof. induction 1; simpl; eauto using steps. Qed.

Lemma steps_one s1 l s2 : step s1 l s2 -> steps s1 [l] s2.
Proof. eauto using steps. Qed.

(** Rule induction for a state invariant. *)
Lemma steps_invariant (I : S -> Prop) :
  (forall s l s', I s -> step s l s' -> I s') ->
  forall s ls s', I s -> steps s ls s' -> I s'.
Proof. intros Hstep s ls s' Hs Hss. induction Hss; eauto. Qed.
End steps.
#[export] Hint Constructors steps : viv.
