(* ===== verification/Bytes.v ===== *)
(** * Bytes: the parts of Rust's [u8], [str] and integer library the source uses.

    A [u8] is [Byte.byte]; a [Vec<u8>], a [&str] (its UTF-8 bytes) and a [Path] (its
    [OsStr] bytes) are all [list byte].  [bz] is the value of a byte in [0, 256). *)
From S2P Require Import Prelude.

Abbreviation bytes := (list byte).

(** A Rust string literal. *)
Definition bs (s : string) : bytes := list_byte_of_string s.
Arguments bs s%_string_scope.

(* ------------------------------------------------------------------ *)
(** ** One byte *)

#[export] Instance byte_eq_dec : EqDecision byte := Byte.byte_eq_dec.

Definition bz (b : byte) : Z := Z.of_N (Byte.to_N b).
Definition zb (z : Z) : byte :=
  match Byte.of_N (Z.to_N (z mod 256)) with Some b => b | None => x00 end.

#[export, refine] Instance byte_countable : Countable byte :=
  inj_countable Byte.to_N Byte.of_N _.
Proof. exact Byte.of_to_N. Defined.

Lemma bz_range b : 0 <= bz b < 256.
Proof. unfold bz. pose proof (Byte.to_N_bounded b). lia. Qed.

Lemma zb_bz b : zb (bz b) = b.
Proof.
  unfold zb. rewrite Z.mod_small by apply bz_range. unfold bz.
  by rewrite N2Z.id, Byte.of_to_N.
Qed.

Lemma bz_zb z : 0 <= z < 256 -> bz (zb z) = z.
Proof.
  intros Hz. unfold zb, bz. rewrite Z.mod_small by lia.
  destruct (Byte.of_N (Z.to_N z)) as [b|] eqn:E.
  - apply Byte.to_of_N in E. lia.
  - apply Byte.of_N_None_iff in E. lia.
Qed.

Lemma bz_inj a b : bz a = bz b -> a = b.
Proof. intros H. by rewrite <- (zb_bz a), <- (zb_bz b), H. Qed.

(** [u8::is_ascii_digit] and its siblings. *)
Definition is_ascii_digit (b : byte) : bool := (48 <=? bz b) && (bz b <=? 57).
Definition is_ascii_lowercase (b : byte) : bool := (97 <=? bz b) && (bz b <=? 122).
Definition is_ascii_uppercase (b : byte) : bool := (65 <=? bz b) && (bz b <=? 90).
Definition is_ascii_alphabetic (b : byte) : bool := is_ascii_lowercase b || is_ascii_uppercase b.
Definition is_ascii_alphanumeric (b : byte) : bool := is_ascii_alphabetic b || is_ascii_digit b.
Definition is_ascii_hexdigit (b : byte) : bool :=
  is_ascii_digit b || ((97 <=? bz b) && (bz b <=? 102)) || ((65 <=? bz b) && (bz b <=? 70)).
(** [u8::is_ascii_whitespace]: space, tab, line feed, form feed, carriage return. *)
Definition is_ascii_whitespace (b : byte) : bool :=
  (bz b =? 32) || (bz b =? 9) || (bz b =? 10) || (bz b =? 12) || (bz b =? 13).
Definition to_ascii_lower (b : byte) : byte :=
  if is_ascii_uppercase b then zb (bz b + 32) else b.

Lemma to_ascii_lower_cases b :
  (is_ascii_uppercase b = true /\ to_ascii_lower b = zb (bz b + 32) /\ bz (to_ascii_lower b) = bz b + 32)
  \/ (is_ascii_uppercase b = false /\ to_ascii_lower b = b).
Proof.
  unfold to_ascii_lower. destruct (is_ascii_uppercase b) eqn:E; [left|by right].
  split_and!; [done..|]. unfold is_ascii_uppercase in E. apply bz_zb. lia.
Qed.

Lemma to_ascii_lower_not_upper b : is_ascii_uppercase (to_ascii_lower b) = false.
Proof.
  destruct (to_ascii_lower_cases b) as [(E & _ & E2) | [E ->]]; [|done].
  unfold is_ascii_uppercase in *. lia.
Qed.

Lemma to_ascii_lower_idem b : to_ascii_lower (to_ascii_lower b) = to_ascii_lower b.
Proof. unfold to_ascii_lower at 1. by rewrite to_ascii_lower_not_upper. Qed.

Lemma to_ascii_lower_dot b : to_ascii_lower b = "."%byte <-> b = "."%byte.
Proof.
  split; [|by intros ->].
  destruct (to_ascii_lower_cases b) as [(E & _ & E2) | [E ->]]; [|done].
  intros H. rewrite H in E2. change (bz "."%byte) with 46 in E2.
  unfold is_ascii_uppercase in E. lia.
Qed.

(* ------------------------------------------------------------------ *)
(** ** Strings: [strip_prefix], [strip_suffix], [split], [lines], [trim] *)

Fixpoint strip_prefix (p s : bytes) : option bytes :=
  match p, s with
  | [], _ => Some s
  | a :: p', b :: s' => if decide (a = b) then strip_prefix p' s' else None
  | _ :: _, [] => None
  end.
Definition strip_suffix (p s : bytes) : option bytes :=
  option_map (@rev byte) (strip_prefix (rev p) (rev s)).
Definition starts_with (p s : bytes) : bool := bool_decide (is_Some (strip_prefix p s)).

Definition bytes_eqb (a b : bytes) : bool := bool_decide (a = b).
Definition contains (c : byte) (s : bytes) : bool := existsb (fun b => bool_decide (b = c)) s.

Lemma bytes_eqb_true a b : bytes_eqb a b = true <-> a = b.
Proof. apply bool_decide_eq_true. Qed.

Lemma strip_prefix_Some p s r : strip_prefix p s = Some r <-> s = p ++ r.
Proof.
  revert s. induction p as [|a p IH]; intros [|b s]; simpl; try naive_solver.
  case_decide; subst.
  - rewrite IH. naive_solver.
  - naive_solver.
Qed.

Lemma strip_prefix_app p r : strip_prefix p (p ++ r) = Some r.
Proof. by apply strip_prefix_Some. Qed.

Lemma strip_suffix_Some p s r : strip_suffix p s = Some r <-> s = r ++ p.
Proof.
  unfold strip_suffix, option_map. split.
  - destruct (strip_prefix _ _) as [x|] eqn:E; [|done]. intros [= <-].
    apply strip_prefix_Some in E. rewrite <- (rev_involutive s), E, rev_app_distr.
    by rewrite rev_involutive.
  - intros ->. by rewrite rev_app_distr, strip_prefix_app, rev_involutive.
Qed.

Lemma starts_with_true p s : starts_with p s = true <-> exists r, s = p ++ r.
Proof.
  unfold starts_with, is_Some. rewrite bool_decide_eq_true. by setoid_rewrite strip_prefix_Some.
Qed.

Lemma contains_true c s : contains c s = true <-> c ∈ s.
Proof.
  unfold contains. rewrite existsb_exists, list_elem_of_In. setoid_rewrite bool_decide_eq_true.
  naive_solver.
Qed.

Lemma contains_false c s : contains c s = false <-> c ∉ s.
Proof. rewrite <- contains_true. by destruct (contains c s). Qed.

(** [s.split(c)]: always at least one piece. *)
Fixpoint split_on (c : byte) (s : bytes) : list bytes :=
  match s with
  | [] => [[]]
  | b :: s' =>
      if decide (b = c) then [] :: split_on c s'
      else match split_on c s' with
           | [] => [[b]]
           | p :: ps => (b :: p) :: ps
           end
  end.

Fixpoint join_with (c : byte) (ps : list bytes) : bytes :=
  match ps with
  | [] => []
  | [p] => p
  | p :: ps' => p ++ c :: join_with c ps'
  end.

Lemma split_on_ne c s : split_on c s <> [].
Proof. destruct s as [|b s]; simpl; [done|]. repeat case_match; done. Qed.

Lemma join_split c s : join_with c (split_on c s) = s.
Proof.
  induction s as [|b s IH]; [done|]. simpl.
  pose proof (split_on_ne c s). destruct (split_on c s) as [|p ps] eqn:E; [done|].
  case_decide as Hd; [subst b|]; destruct ps; simpl in *; by rewrite <- IH.
Qed.

Lemma split_on_no_sep c s : Forall (fun p => c ∉ p) (split_on c s).
Proof.
  induction s as [|b s IH]; simpl; [repeat constructor; set_solver|].
  case_decide; [by constructor; [set_solver|]|].
  destruct (split_on c s) as [|p ps]; inversion IH; subst; repeat constructor; set_solver.
Qed.

Lemma split_on_app_cons c a s : c ∉ a -> split_on c (a ++ c :: s) = a :: split_on c s.
Proof.
  induction a as [|x a IH]; intros Hn; simpl; [by rewrite decide_True|].
  rewrite decide_False by set_solver. rewrite IH by set_solver. done.
Qed.

Lemma split_on_single c a : c ∉ a -> split_on c a = [a].
Proof.
  induction a as [|x a IH]; intros Hn; simpl; [done|].
  rewrite decide_False by set_solver. rewrite IH by set_solver. done.
Qed.

Lemma split_join c ps :
  ps <> [] -> Forall (fun p => c ∉ p) ps -> split_on c (join_with c ps) = ps.
Proof.
  induction ps as [|p ps IH]; intros Hne Hf; [done|].
  inversion Hf; subst. destruct ps as [|q ps]; [by apply split_on_single|].
  simpl join_with. rewrite split_on_app_cons by done. f_equal. by apply IH.
Qed.

(* ------------------------------------------------------------------ *)
(** ** Lists of bytes cut into pieces: [slice::chunks] *)

Fixpoint chunks_fuel (fuel : nat) (n : nat) (l : bytes) : list bytes :=
  match fuel, l with
  | _, [] => []
  | O, _ => []
  | S fuel', _ => take n l :: chunks_fuel fuel' n (drop n l)
  end.
(** [l.chunks(n)], [n > 0]; [length l] steps are enough (see [chunks_concat]). *)
Definition chunks (n : nat) (l : bytes) : list bytes := chunks_fuel (length l) n l.

Lemma chunks_fuel_concat fuel n l :
  (0 < n)%nat -> (length l <= fuel)%nat -> concat (chunks_fuel fuel n l) = l.
Proof.
  intros Hn. revert l. induction fuel as [|fuel IH]; intros l Hl.
  - by destruct l; [|simpl in Hl; lia].
  - destruct l as [|b l]; [done|]. cbn [chunks_fuel concat]. rewrite IH.
    + apply take_drop.
    + rewrite length_drop. simpl in *. lia.
Qed.

Lemma chunks_concat n l : (0 < n)%nat -> concat (chunks n l) = l.
Proof. intros. by apply chunks_fuel_concat. Qed.

Lemma chunks_bound n l :
  (0 < n)%nat -> Forall (fun p => (0 < length p <= n)%nat) (chunks n l).
Proof.
  intros Hn. unfold chunks. generalize (length l) at 1. intros fuel. revert l.
  induction fuel as [|fuel IH]; intros [|b l]; cbn [chunks_fuel]; try constructor; [|apply IH].
  rewrite length_take. simpl. lia.
Qed.

(* ------------------------------------------------------------------ *)
(** ** [u32::to_be_bytes] and [u32::from_be_bytes] *)

Definition u32_max : Z := 4294967295.
Definition u32_to_be_bytes (z : Z) : bytes :=
  [zb (Z.shiftr z 24); zb (Z.shiftr z 16); zb (Z.shiftr z 8); zb z].
Definition u32_from_be_bytes (a b c d : byte) : Z :=
  Z.lor (Z.shiftl (bz a) 24) (Z.lor (Z.shiftl (bz b) 16) (Z.lor (Z.shiftl (bz c) 8) (bz d))).

Lemma bz_zb_mod z : bz (zb z) = z mod 256.
Proof.
  assert (zb z = zb (z mod 256)) as -> by (unfold zb; by rewrite Z.mod_mod by lia).
  apply bz_zb, Z.mod_pos_bound. lia.
Qed.

(** Disjoint bits: an or with a shifted value is an addition. *)
Lemma lor_shiftl_add a b n : 0 <= n -> 0 <= b < 2 ^ n -> Z.lor (Z.shiftl a n) b = a * 2 ^ n + b.
Proof.
  intros Hn Hb. rewrite <- Z.shiftl_mul_pow2 by done. symmetry. apply Z.add_nocarry_lor.
  apply Z.bits_inj'. intros i Hi. rewrite Z.land_spec, Z.bits_0.
  destruct (decide (i < n)).
  - by rewrite Z.shiftl_spec_low by done.
  - rewrite <- (Z.mod_small b (2 ^ n)) by done.
    rewrite Z.mod_pow2_bits_high by lia. by rewrite andb_false_r.
Qed.

Lemma u32_from_be_bytes_sum a b c d :
  u32_from_be_bytes a b c d = bz a * 2 ^ 24 + (bz b * 2 ^ 16 + (bz c * 2 ^ 8 + bz d)).
Proof.
  pose proof (bz_range a). pose proof (bz_range b). pose proof (bz_range c).
  pose proof (bz_range d). unfold u32_from_be_bytes.
  rewrite (lor_shiftl_add (bz c) (bz d)) by lia.
  rewrite (lor_shiftl_add (bz b)) by lia. by rewrite (lor_shiftl_add (bz a)) by lia.
Qed.

Lemma u32_from_be_bytes_range a b c d : 0 <= u32_from_be_bytes a b c d <= u32_max.
Proof.
  rewrite u32_from_be_bytes_sum. pose proof (bz_range a). pose proof (bz_range b).
  pose proof (bz_range c). pose proof (bz_range d). unfold u32_max. lia.
Qed.

Lemma u32_be_round_trip z :
  0 <= z <= u32_max ->
  u32_from_be_bytes (zb (Z.shiftr z 24)) (zb (Z.shiftr z 16)) (zb (Z.shiftr z 8)) (zb z) = z.
Proof.
  unfold u32_max. intros Hz.
  rewrite u32_from_be_bytes_sum, !bz_zb_mod, !Z.shiftr_div_pow2 by lia.
  change (2 ^ 24) with 16777216. change (2 ^ 16) with 65536. change (2 ^ 8) with 256.
  Z.to_euclidean_division_equations. lia.
Qed.

(* ------------------------------------------------------------------ *)
(** ** Unsigned decimals: [to_string] and [parse::<u32>()], [parse::<u64>()] *)

Definition u64_max : Z := 18446744073709551615.
Definition digit (z : Z) : byte := zb (48 + z).
Definition digit_value (b : byte) : Z := bz b - 48.

(** Most significant digit first; 20 digits hold every [u64]. *)
Fixpoint dec_digits (fuel : nat) (z : Z) (acc : bytes) : bytes :=
  match fuel with
  | O => acc
  | S fuel' =>
      let acc' := digit (z mod 10) :: acc in
      if z / 10 =? 0 then acc' else dec_digits fuel' (z / 10) acc'
  end.
Definition dec (z : Z) : bytes := dec_digits 20 z [].

Definition dec_value (s : bytes) : Z := fold_left (fun a b => a * 10 + digit_value b) s 0.

(** [str::parse] for an unsigned type with the given maximum: an optional [+], at least one
    digit, nothing else, no overflow. *)
Definition parse_uint (max : Z) (s : bytes) : option Z :=
  let s := match s with b :: s' => if decide (b = "+"%byte) then s' else s | [] => s end in
  if (length s =? 0)%nat || negb (forallb is_ascii_digit s) || (dec_value s >? max)
  then None else Some (dec_value s).

Lemma digit_spec z : 0 <= z < 10 -> is_ascii_digit (digit z) = true /\ digit_value (digit z) = z.
Proof. intros. unfold is_ascii_digit, digit_value, digit. rewrite bz_zb by lia. lia. Qed.

Lemma dec_value_app a b :
  dec_value (a ++ b) = dec_value a * 10 ^ Z.of_nat (length b) + dec_value b.
Proof.
  unfold dec_value. rewrite fold_left_app. generalize (fold_left (fun a b => a * 10 + digit_value b) a 0).
  induction b as [|c b IH]; intros z; cbn [fold_left length]; [simpl; lia|].
  rewrite IH, (IH (0 * 10 + digit_value c)).
  rewrite Nat2Z.inj_succ, Z.pow_succ_r by lia. ring.
Qed.

Lemma dec_value_cons c s :
  dec_value (c :: s) = digit_value c * 10 ^ Z.of_nat (length s) + dec_value s.
Proof. change (c :: s) with ([c] ++ s). rewrite dec_value_app. unfold dec_value at 1. simpl. ring. Qed.

Lemma dec_digits_spec fuel z acc :
  0 <= z < 10 ^ Z.of_nat fuel -> forallb is_ascii_digit acc = true ->
  forallb is_ascii_digit (dec_digits fuel z acc) = true /\
  dec_value (dec_digits fuel z acc) = z * 10 ^ Z.of_nat (length acc) + dec_value acc /\
  ((0 < fuel)%nat -> (length acc < length (dec_digits fuel z acc))%nat).
Proof.
  revert z acc. induction fuel as [|fuel IH]; intros z acc Hz Ha.
  - simpl in *. assert (z = 0) as -> by lia. split_and!; [done|lia|lia].
  - cbn [dec_digits]. rewrite Nat2Z.inj_succ, Z.pow_succ_r in Hz by lia.
    assert (0 <= z mod 10 < 10) as Hm by (apply Z.mod_pos_bound; lia).
    destruct (digit_spec _ Hm) as [D1 D2].
    assert (forallb is_ascii_digit (digit (z mod 10) :: acc) = true) as Ha'
      by (simpl; by rewrite D1).
    assert (dec_value (digit (z mod 10) :: acc)
      = z mod 10 * 10 ^ Z.of_nat (length acc) + dec_value acc) as Hv
      by (by rewrite dec_value_cons, D2).
    pose proof (Z.div_mod z 10 ltac:(lia)) as Hdm.
    destruct (Z.eqb_spec (z / 10) 0) as [H0|H0].
    + split_and!; [done| |simpl; lia]. rewrite Hv. f_equal. f_equal. lia.
    + destruct (IH (z / 10) (digit (z mod 10) :: acc)) as (I1 & I2 & I3);
        [split; [apply Z.div_pos; lia|apply Z.div_lt_upper_bound; lia]|done|].
      split_and!; [done| |].
      * rewrite I2, Hv. cbn [length]. rewrite Nat2Z.inj_succ, Z.pow_succ_r by lia.
        rewrite Hdm at 3. ring.
      * intros _. destruct fuel as [|fuel]; [simpl; lia|].
        specialize (I3 ltac:(lia)). simpl in *. lia.
Qed.

Lemma dec_spec z :
  0 <= z < 10 ^ 20 ->
  forallb is_ascii_digit (dec z) = true /\ dec_value (dec z) = z /\ dec z <> [].
Proof.
  intros Hz. destruct (dec_digits_spec 20 z [] Hz eq_refl) as (H1 & H2 & H3). unfold dec.
  split_and!; [done| |].
  - rewrite H2. simpl. unfold dec_value. simpl. lia.
  - intros E. rewrite E in H3. simpl in H3. lia.
Qed.

Lemma digits_no_plus s b : forallb is_ascii_digit s = true -> head s = Some b -> b <> "+"%byte.
Proof. destruct s as [|c s]; [done|]. intros [H _]%andb_true_iff [= ->] ->. done. Qed.

(** Printing and parsing an unsigned decimal. *)
Lemma parse_uint_dec max z : 0 <= z <= max -> max < 10 ^ 20 -> parse_uint max (dec z) = Some z.
Proof.
  intros Hz Hm. destruct (dec_spec z ltac:(lia)) as (H1 & H2 & H3).
  unfold parse_uint. destruct (dec z) as [|c s] eqn:E; [done|].
  rewrite decide_False by (by eapply (digits_no_plus (c :: s))).
  rewrite H1, H2. cbn [length Nat.eqb negb orb].
  destruct (Z.gtb_spec z max); [lia|done].
Qed.

Lemma parse_uint_bound max s z : parse_uint max s = Some z -> 0 <= z <= max.
Proof.
  unfold parse_uint. set (t := match s with b :: s' => _ | [] => _ end). intros H.
  destruct (_ || _) eqn:E; [done|]. injection H as <-.
  apply orb_false_iff in E as [[_ E]%orb_false_iff Hm]. apply negb_false_iff in E.
  split; [|lia]. clear Hm. generalize t, E. clear.
  induction t as [|c t IH]; intros Ht; [done|]. rewrite dec_value_cons.
  apply andb_true_iff in Ht as [Hc Ht]. specialize (IH Ht).
  unfold is_ascii_digit in Hc. unfold digit_value. nia.
Qed.

(** [str::parse] for a signed type: an optional sign, at least one digit, nothing else, within the bounds. *)
Definition parse_int (min max : Z) (s : bytes) : option Z :=
  let '(negative, digits) :=
    match s with
    | b :: s' => if bool_decide (b = "-"%byte) then (true, s') else if bool_decide (b = "+"%byte) then (false, s') else (false, s)
    | [] => (false, s)
    end in
  if (length digits =? 0)%nat || negb (forallb is_ascii_digit digits) then None else
  let v := if negative : bool then - dec_value digits else dec_value digits in
  if (v <? min) || (max <? v) then None else Some v.

Lemma parse_int_bound min max s z : parse_int min max s = Some z -> min <= z <= max.
Proof.
  unfold parse_int. destruct (match s with [] => _ | _ :: _ => _ end) as [negative digits].
  repeat case_match; intros; simplify_eq; lia.
Qed.

Definition i64_min : Z := -9223372036854775808.
Definition i64_max : Z := 9223372036854775807.
(** [{}] of a signed integer. *)
Definition dec_int (z : Z) : bytes := if z <? 0 then "-"%byte :: dec (- z) else dec z.

Lemma digit_not_sign b : is_ascii_digit b = true -> b <> "-"%byte /\ b <> "+"%byte.
Proof. intros H. split; intros ->; discriminate H. Qed.

Lemma parse_int_dec min max z :
  min <= z <= max -> - 10 ^ 20 < min -> max < 10 ^ 20 -> parse_int min max (dec_int z) = Some z.
Proof.
  intros Hz Hmin Hmax. unfold dec_int, parse_int. destruct (Z.ltb_spec z 0) as [Hn|Hn].
  - destruct (dec_spec (- z) ltac:(lia)) as (H1 & H2 & H3). rewrite bool_decide_true by done.
    rewrite H1, H2. destruct (dec (- z)); [done|]. cbn [length Nat.eqb negb orb].
    replace (- - z) with z by lia. destruct (Z.ltb_spec z min), (Z.ltb_spec max z); [lia..|done].
  - destruct (dec_spec z ltac:(lia)) as (H1 & H2 & H3). destruct (dec z) as [|b l] eqn:E; [done|].
    pose proof H1 as [Hb _]%andb_true_iff. destruct (digit_not_sign b Hb).
    rewrite !bool_decide_false by done. rewrite H1, H2. cbn [length Nat.eqb negb orb].
    destruct (Z.ltb_spec z min), (Z.ltb_spec max z); [lia..|done].
Qed.

(** [str::from_utf8]: the well-formed byte sequences of the Unicode standard, table 3-7. *)
Definition in_range (lo hi : Z) (b : byte) : bool := (lo <=? bz b) && (bz b <=? hi).
Definition continues (b : byte) : bool := in_range 128 191 b.
Definition three_bytes (a b c : byte) : bool :=
  continues c &&
  (bool_decide (a = xe0) && in_range 160 191 b || in_range 225 236 a && continues b ||
   bool_decide (a = xed) && in_range 128 159 b || in_range 238 239 a && continues b).
Definition four_bytes (a b c d : byte) : bool :=
  continues c && continues d &&
  (bool_decide (a = xf0) && in_range 144 191 b || in_range 241 243 a && continues b ||
   bool_decide (a = xf4) && in_range 128 143 b).
Fixpoint utf8_valid (s : bytes) : bool :=
  match s with
  | [] => true
  | a :: s1 =>
      if bz a <? 128 then utf8_valid s1 else
      match s1 with
      | [] => false
      | b :: s2 =>
          if in_range 194 223 a && continues b then utf8_valid s2 else
          match s2 with
          | [] => false
          | c :: s3 =>
              if three_bytes a b c then utf8_valid s3 else
              match s3 with
              | [] => false
              | d :: s4 => four_bytes a b c d && utf8_valid s4
              end
          end
      end
  end.
(** [OsStr::to_str]. *)
Definition to_str (s : bytes) : option bytes := if utf8_valid s then Some s else None.

Lemma utf8_valid_ascii s : forallb (fun b => bz b <? 128) s = true -> utf8_valid s = true.
Proof. induction s as [|b s IH]; [done|]. cbn [forallb utf8_valid]. intros [-> H]%andb_true_iff. by apply IH. Qed.

(* ------------------------------------------------------------------ *)
(** ** [lines], [trim], [split_ascii_whitespace] *)

(** [str::lines]: pieces between line feeds, a trailing carriage return dropped, no empty
    last piece. *)
Definition drop_cr (l : bytes) : bytes := default l (strip_suffix [x0d] l).
Definition lines (s : bytes) : list bytes :=
  let ps := split_on x0a s in
  map drop_cr (match last ps with Some [] => removelast ps | _ => ps end).

(** The UTF-8 encodings of the characters with the White_Space property. *)
Definition whitespace_chars : list bytes :=
  [[x09]; [x0a]; [x0b]; [x0c]; [x0d]; [x20]; [xc2; x85]; [xc2; xa0]; [xe1; x9a; x80];
   [xe2; x80; x80]; [xe2; x80; x81]; [xe2; x80; x82]; [xe2; x80; x83]; [xe2; x80; x84];
   [xe2; x80; x85]; [xe2; x80; x86]; [xe2; x80; x87]; [xe2; x80; x88]; [xe2; x80; x89];
   [xe2; x80; x8a]; [xe2; x80; xa8]; [xe2; x80; xa9]; [xe2; x80; xaf]; [xe2; x81; x9f];
   [xe3; x80; x80]].

Fixpoint strip_any (strip : bytes -> bytes -> option bytes) (ps : list bytes) (s : bytes)
    : option bytes :=
  match ps with
  | [] => None
  | p :: ps' => match strip p s with Some r => Some r | None => strip_any strip ps' s end
  end.
(** Each round removes at least one byte, so [length s] rounds are enough. *)
Fixpoint trim_with (strip : bytes -> bytes -> option bytes) (fuel : nat) (s : bytes) : bytes :=
  match fuel with
  | O => s
  | S fuel' => match strip_any strip whitespace_chars s with
               | Some r => trim_with strip fuel' r
               | None => s
               end
  end.
Definition trim (s : bytes) : bytes :=
  let s := trim_with strip_prefix (length s) s in trim_with strip_suffix (length s) s.

Fixpoint split_ws (s : bytes) : list bytes :=
  match s with
  | [] => [[]]
  | b :: s' =>
      if is_ascii_whitespace b then [] :: split_ws s'
      else match split_ws s' with [] => [[b]] | p :: ps => (b :: p) :: ps end
  end.
(** [str::split_ascii_whitespace]: no empty pieces. *)
Definition split_ascii_whitespace (s : bytes) : list bytes :=
  filter (fun p => p <> []) (split_ws s).
