(* ===== verification/Message.v ===== *)
(** * Message: the wire vocabulary (src/src/protocol/message.rs).

    The closed constants, the credential channel names, the payload types of the control
    frames and the two frame enums, with the boot-identity check both ends make. *)
From S2P Require Import Prelude Bytes.

Definition SCHEMA_VERSION : Z := 1.
Definition VSOCK_CID : Z := 3.
Definition CONTROL_PORT : Z := 52000.
Definition CREDENTIAL_PORT : Z := 52001.
Definition CREDENTIAL_POOL_SIZE : Z := 4.
Definition STREAM_PAYLOAD_MAX : Z := 64 * 1024.
Definition CONTROL_PAYLOAD_MAX : Z := 1024 * 1024.
Definition CREDENTIAL_PARKED_ACK : byte := x00.

Definition TAG_CLIENT_HELLO : byte := x01.
Definition TAG_AGENT_HELLO : byte := x02.
Definition TAG_PING : byte := x03.
Definition TAG_PONG : byte := x04.
Definition TAG_START : byte := x05.
Definition TAG_STDIN : byte := x06.
Definition TAG_STDIN_END : byte := x07.
Definition TAG_RESIZE : byte := x08.
Definition TAG_SIGNAL : byte := x09.
Definition TAG_STDOUT : byte := x0a.
Definition TAG_STDERR : byte := x0b.
Definition TAG_EXIT : byte := x0c.
Definition TAG_ERROR : byte := x0d.
Definition TAG_SESSIONS_QUERY : byte := x0e.
Definition TAG_SESSION_COUNT : byte := x0f.
Definition TAG_SHUTDOWN_REQUEST : byte := x10.
Definition TAG_SHUTDOWN_ACK : byte := x11.
Definition TAG_MEMORY_QUERY : byte := x12.
Definition TAG_MEMORY_REPORT : byte := x13.
Definition TAG_TRIM_REQUEST : byte := x14.
Definition TAG_TRIM_ACK : byte := x15.

Inductive ProtocolValueError :=
| PVE_CredentialId
| PVE_BootIdentity.

(* ------------------------------------------------------------------ *)
(** ** Credential channels *)

Inductive CredentialId := Ssh | Gpg.
#[export] Instance CredentialId_eq_dec : EqDecision CredentialId.
Proof. solve_decision. Defined.

Definition setup_byte (c : CredentialId) : byte :=
  match c with Ssh => x01 | Gpg => x02 end.
Definition guest_socket (c : CredentialId) : bytes :=
  match c with
  | Ssh => bs "/run/vivarium/ssh-agent.sock"
  | Gpg => bs "/run/vivarium/gpg-agent.sock"
  end.
Definition credential_name (c : CredentialId) : bytes :=
  match c with Ssh => bs "ssh" | Gpg => bs "gpg" end.
Definition from_setup_byte (b : byte) : result CredentialId ProtocolValueError :=
  match b with
  | x01 => Ok Ssh
  | x02 => Ok Gpg
  | _ => Err PVE_CredentialId
  end.
Definition credential_from_str (value : bytes) : result CredentialId ProtocolValueError :=
  if bytes_eqb value (bs "ssh") then Ok Ssh
  else if bytes_eqb value (bs "gpg") then Ok Gpg
  else Err PVE_CredentialId.

(* ------------------------------------------------------------------ *)
(** ** Payloads *)

Record Hello := mk_Hello { schema_version : Z; boot_identity : bytes }.
Inductive SessionMode := Exec | Shell.
Record EnvironmentVariable := mk_EnvironmentVariable { ev_name : bytes; ev_value : bytes }.
Record StartRequest := mk_StartRequest {
  mode : SessionMode;
  argv : list bytes;
  environment : list EnvironmentVariable;
  cwd : bytes;
  pty : bool }.
Record TerminalSize := mk_TerminalSize { rows : Z; columns : Z }.
Record SignalRequest := mk_SignalRequest { signal : Z }.
Record ExitStatus := mk_ExitStatus { status : Z }.
Record ProtocolErrorMessage := mk_ProtocolErrorMessage { code : bytes }.
Record SessionCount := mk_SessionCount { sessions : Z }.
Record MemoryReport := mk_MemoryReport { total_bytes : Z; available_bytes : Z }.
Record TrimRequest := mk_TrimRequest { mountpoints : list bytes }.

Inductive ClientFrame :=
| C_Hello (h : Hello)
| C_Ping
| C_Start (r : StartRequest)
| C_Stdin (payload : bytes)
| C_StdinEnd
| C_Resize (s : TerminalSize)
| C_Signal (s : SignalRequest)
| C_Sessions
| C_Shutdown
| C_Memory
| C_Trim (r : TrimRequest).

Inductive AgentFrame :=
| A_Hello (h : Hello)
| A_Pong
| A_Stdout (payload : bytes)
| A_Stderr (payload : bytes)
| A_Exit (s : ExitStatus)
| A_Error (e : ProtocolErrorMessage)
| A_Sessions (c : SessionCount)
| A_ShutdownAck
| A_Memory (r : MemoryReport)
| A_TrimAck.

#[export] Instance SessionMode_eq_dec : EqDecision SessionMode.
Proof. solve_decision. Defined.
#[export] Instance Hello_eq_dec : EqDecision Hello.
Proof. solve_decision. Defined.
#[export] Instance EnvironmentVariable_eq_dec : EqDecision EnvironmentVariable.
Proof. solve_decision. Defined.
#[export] Instance StartRequest_eq_dec : EqDecision StartRequest.
Proof. solve_decision. Defined.

(* ------------------------------------------------------------------ *)
(** ** The boot identity *)

(** [(b'a'..=b'f').contains(byte)] or a digit. *)
Definition is_identity_hex (b : byte) : bool :=
  is_ascii_digit b || ((97 <=? bz b) && (bz b <=? 102)).
Definition dash_positions : list nat := [8; 13; 18; 23]%nat.

Definition validate_boot_identity (value : bytes) : result unit ProtocolValueError :=
  if negb (length value =? 36)%nat
     || negb (forallb (fun index => bool_decide (value !! index = Some "-"%byte)) dash_positions)
     || existsb (fun '(index, byte) =>
          negb (existsb (Nat.eqb index) dash_positions || is_identity_hex byte))
          (imap pair value)
  then Err PVE_BootIdentity
  else Ok tt.

(** The UUID shape as a grammar: five groups of lowercase hex digits joined by dashes. *)
Definition hex_group (n : nat) (g : bytes) : Prop :=
  length g = n /\ Forall (fun b => is_identity_hex b = true) g.
Definition uuid_shape (value : bytes) : Prop :=
  exists g1 g2 g3 g4 g5,
    hex_group 8 g1 /\ hex_group 4 g2 /\ hex_group 4 g3 /\ hex_group 4 g4 /\ hex_group 12 g5 /\
    value = join_with "-" [g1; g2; g3; g4; g5].

(* ------------------------------------------------------------------ *)
(** ** Lemmas *)

Lemma from_setup_byte_ok b c : from_setup_byte b = Ok c <-> b = setup_byte c.
Proof. split; [by destruct b; intros [= <-]|by intros ->; destruct c]. Qed.

Lemma credential_from_str_ok v c : credential_from_str v = Ok c <-> v = credential_name c.
Proof.
  unfold credential_from_str. split.
  - repeat case_match; intros [= <-]; by apply bytes_eqb_true.
  - intros ->. by destruct c.
Qed.

Lemma validate_boot_identity_ok v u :
  validate_boot_identity v = Ok u <->
  length v = 36%nat /\
  (forall i, i ∈ dash_positions -> v !! i = Some "-"%byte) /\
  (forall i b, v !! i = Some b -> i ∉ dash_positions -> is_identity_hex b = true).
Proof.
  destruct u. unfold validate_boot_identity.
  destruct (Nat.eqb_spec (length v) 36) as [Hl|Hl]; cbn [negb orb];
    [|naive_solver].
  match goal with |- context [forallb ?f dash_positions] =>
    destruct (forallb f dash_positions) eqn:Hd end; cbn [negb orb].
  2: { split; [done|]. intros (_ & H & _). exfalso. apply not_true_iff_false in Hd. apply Hd.
       apply forallb_forall. intros i Hi. apply bool_decide_eq_true, H, list_elem_of_In, Hi. }
  assert (forall i, i ∈ dash_positions -> v !! i = Some "-"%byte) as Hdash.
  { intros i Hi%list_elem_of_In. rewrite forallb_forall in Hd.
    apply Hd in Hi. by apply bool_decide_eq_true in Hi. }
  assert (forall i, existsb (Nat.eqb i) dash_positions = true <-> i ∈ dash_positions) as Hin.
  { intros i. rewrite existsb_exists, list_elem_of_In.
    split; [intros (j & ? & ->%Nat.eqb_eq); done|intros; exists i; by rewrite Nat.eqb_refl]. }
  match goal with |- context [existsb ?f (imap pair v)] =>
    destruct (existsb f (imap pair v)) eqn:He end.
  - split; [done|]. intros (_ & _ & H). exfalso.
    apply existsb_exists in He as ([i b] & Hib & Hneg).
    apply list_elem_of_In, elem_of_lookup_imap in Hib as (i' & b' & [= <- <-] & Hib).
    apply negb_true_iff, orb_false_iff in Hneg as [Hn1 Hn2].
    assert (is_identity_hex b = true) as Hx; [|congruence].
    apply (H i b Hib). rewrite <- Hin. congruence.
  - split; [intros _|done]. split; [exact Hl|]. split; [exact Hdash|]. intros i b Hib Hni.
    apply not_true_iff_false in He.
    destruct (is_identity_hex b) eqn:Hx; [done|]. exfalso. apply He, existsb_exists.
    exists (i, b). split.
    + apply list_elem_of_In, elem_of_lookup_imap. eauto.
    + rewrite Hx, orb_false_r. apply negb_true_iff, not_true_iff_false. intros E%Hin. done.
Qed.

(** A slice that holds no dash position is a hex group. *)
Lemma slice_hex_group v k n :
  (forall i b, v !! i = Some b -> i ∉ dash_positions -> is_identity_hex b = true) ->
  (k + n <= length v)%nat -> (forall i, (k <= i < k + n)%nat -> i ∉ dash_positions) ->
  hex_group n (take n (drop k v)).
Proof.
  intros Hx Hl Hk. split; [rewrite length_take, length_drop; lia|].
  apply Forall_lookup. intros i b. rewrite lookup_take_Some, lookup_drop. intros [Hb Hi].
  apply (Hx _ _ Hb), Hk. lia.
Qed.

Lemma lookup_app_cons {A} (l r : list A) x i :
  (l ++ x :: r) !! i =
  if (i <? length l)%nat then l !! i
  else if (i =? length l)%nat then Some x else r !! (i - S (length l))%nat.
Proof.
  destruct (Nat.ltb_spec i (length l)); [by apply lookup_app_l|].
  rewrite lookup_app_r by done. destruct (Nat.eqb_spec i (length l)) as [->|].
  - by rewrite Nat.sub_diag.
  - by replace (i - length l)%nat with (S (i - S (length l))) by lia.
Qed.

Lemma uuid_shape_positions v :
  uuid_shape v <->
  length v = 36%nat /\
  (forall i, i ∈ dash_positions -> v !! i = Some "-"%byte) /\
  (forall i b, v !! i = Some b -> i ∉ dash_positions -> is_identity_hex b = true).
Proof.
  split.
  - intros (g1 & g2 & g3 & g4 & g5 & [L1 H1] & [L2 H2] & [L3 H3] & [L4 H4] & [L5 H5] & ->).
    cbn [join_with]. split; [repeat (rewrite length_app; cbn [length]); lia|].
    assert (forall i, i ∈ dash_positions <-> i = 8%nat \/ i = 13%nat \/ i = 18%nat \/ i = 23%nat)
      as Hdash by (intros i; unfold dash_positions; rewrite !elem_of_cons, elem_of_nil; tauto).
    setoid_rewrite Hdash.
    split.
    + intros i Hi. rewrite !lookup_app_cons, L1, L2, L3, L4.
      by destruct Hi as [->|[->|[->| ->]]].
    + intros i c Hc Hi. rewrite !lookup_app_cons, L1, L2, L3, L4 in Hc.
      repeat case_match; simplify_eq;
        repeat match goal with H : (_ =? _)%nat = true |- _ => apply Nat.eqb_eq in H end;
        first [ by (eapply Forall_lookup_1 in Hc; [|eassumption]) | lia].
  - intros (Hl & Hd & Hx).
    assert (forall k n, drop k v = take n (drop k v) ++ drop (k + n) v) as Hcut
      by (intros k n; by rewrite <- drop_drop, take_drop).
    assert (forall k, k ∈ dash_positions -> drop k v = "-"%byte :: drop (S k) v) as Hdrop
      by (intros k Hk; apply drop_S, Hd, Hk).
    assert (forall i, i ∈ dash_positions <-> i = 8%nat \/ i = 13%nat \/ i = 18%nat \/ i = 23%nat)
      as Hdash by (intros i; unfold dash_positions; rewrite !elem_of_cons, elem_of_nil; tauto).
    setoid_rewrite Hdash in Hdrop.
    exists (take 8 (drop 0 v)), (take 4 (drop 9 v)), (take 4 (drop 14 v)), (take 4 (drop 19 v)),
      (take 12 (drop 24 v)).
    split_and!; try (apply slice_hex_group; [done|lia|setoid_rewrite Hdash; lia]).
    pose proof (Hcut 0%nat 8%nat) as E1. pose proof (Hcut 9%nat 4%nat) as E2.
    pose proof (Hcut 14%nat 4%nat) as E3. pose proof (Hcut 19%nat 4%nat) as E4.
    cbn [Nat.add] in E1, E2, E3, E4.
    rewrite (Hdrop 8%nat) in E1 by lia. rewrite (Hdrop 13%nat) in E2 by lia.
    rewrite (Hdrop 18%nat) in E3 by lia. rewrite (Hdrop 23%nat) in E4 by lia.
    cbn [join_with]. rewrite (take_ge (drop 24 v)) by (rewrite length_drop; lia).
    by rewrite <- E4, <- E3, <- E2, <- E1.
Qed.

(** The agent's identity check accepts exactly the lowercase UUID shape. *)
Theorem validate_boot_identity_uuid v :
  validate_boot_identity v = Ok tt <-> uuid_shape v.
Proof. by rewrite validate_boot_identity_ok, uuid_shape_positions. Qed.
