(* ===== verification/Frame.v ===== *)
(** * Frame: the bounded frame codec (src/src/protocol/frame.rs).

    A reader is the bytes still in the stream and what follows them (the end of the stream
    or an I/O error); a writer is the bytes written and the room the peer leaves.  The JSON
    payload codec is serde_json, a parameter: [WireCodec], whose law is that decoding undoes
    encoding. *)
From S2P Require Import Prelude Bytes Message.

Inductive io_error := UnexpectedEof | OtherIo.

Inductive FrameError :=
| Eof | Truncated | InvalidLength | Oversized | UnknownTag | WrongDirection
| MalformedControl | Io (source : io_error).

Definition FrameError_read (error : io_error) : FrameError :=
  match error with UnexpectedEof => Truncated | OtherIo => Io error end.

(* ------------------------------------------------------------------ *)
(** ** Streams: [AsyncRead] and [AsyncWrite] *)

Record reader := mk_reader { rd_bytes : bytes; rd_end : option io_error }.

(** [read(&mut buf[..1])]: no byte at the end of the stream. *)
Definition read_one : sem reader io_error (option byte) := fun r =>
  match rd_bytes r, rd_end r with
  | b :: rest, e => (Ok (Some b), mk_reader rest e)
  | [], None => (Ok None, r)
  | [], Some e => (Err e, r)
  end.

(** [read_exact(&mut [0; n])]: the stream is used up when it is too short. *)
Definition read_exact (n : Z) : sem reader io_error bytes := fun r =>
  if n <=? Z.of_nat (length (rd_bytes r))
  then (Ok (take (Z.to_nat n) (rd_bytes r)),
        mk_reader (drop (Z.to_nat n) (rd_bytes r)) (rd_end r))
  else (Err (default UnexpectedEof (rd_end r)), mk_reader [] (rd_end r)).

Record writer := mk_writer { wr_bytes : bytes; wr_room : option Z; wr_flush_ok : bool }.

(** [write_all]: what fits is written, then the peer's error is reported. *)
Definition write_all (data : bytes) : sem writer io_error unit := fun w =>
  match wr_room w with
  | None => (Ok tt, mk_writer (wr_bytes w ++ data) None (wr_flush_ok w))
  | Some n =>
      if Z.of_nat (length data) <=? n
      then (Ok tt, mk_writer (wr_bytes w ++ data) (Some (n - Z.of_nat (length data)))
                             (wr_flush_ok w))
      else (Err OtherIo, mk_writer (wr_bytes w ++ take (Z.to_nat n) data) (Some 0)
                                   (wr_flush_ok w))
  end.
Definition flush : sem writer io_error unit := fun w =>
  (if wr_flush_ok w then Ok tt else Err OtherIo, w).

(* ------------------------------------------------------------------ *)
(** ** Raw frames *)

Definition is_stream_tag (tag : byte) : bool :=
  bool_decide (tag = TAG_STDIN) || bool_decide (tag = TAG_STDOUT) || bool_decide (tag = TAG_STDERR).

(** [u32::from_be_bytes(prefix)]. *)
Definition be_length (prefix : bytes) : Z :=
  match prefix with [a; b; c; d] => u32_from_be_bytes a b c d | _ => 0 end.

Definition read_raw : sem reader FrameError (byte * bytes) :=
  let! first := smap_err Io read_one in
  match first with
  | None => sfail Eof
  | Some p0 =>
      let! prefix := smap_err FrameError_read (read_exact 3) in
      let length := be_length (p0 :: prefix) in
      if length =? 0 then sfail InvalidLength
      else if length >? CONTROL_PAYLOAD_MAX + 1 then sfail Oversized
      else
        let! tag := smap_err FrameError_read (read_exact 1) in
        let tag := default x00 (head tag) in
        let payload_len := length - 1 in
        if is_stream_tag tag && (payload_len >? STREAM_PAYLOAD_MAX) then sfail Oversized
        else
          let! payload := smap_err FrameError_read (read_exact payload_len) in
          sret (tag, payload)
  end.

Definition write_raw (tag : byte) (payload : bytes) : sem writer FrameError unit :=
  let max := if is_stream_tag tag then STREAM_PAYLOAD_MAX else CONTROL_PAYLOAD_MAX in
  if Z.of_nat (length payload) >? max then sfail Oversized
  else
    let length := Z.of_nat (length payload) + 1 in
    if length >? u32_max then sfail Oversized
    else
      smap_err Io (write_all (u32_to_be_bytes length)) ;;
      smap_err Io (write_all [tag]) ;;
      smap_err Io (write_all payload) ;;
      smap_err Io flush.

(** The wire form of one raw frame and the bound its tag puts on the payload. *)
Definition max_payload (tag : byte) : Z :=
  if is_stream_tag tag then STREAM_PAYLOAD_MAX else CONTROL_PAYLOAD_MAX.
Definition framed (tag : byte) (payload : bytes) : bytes :=
  u32_to_be_bytes (Z.of_nat (length payload) + 1) ++ tag :: payload.
Definition fits (tag : byte) (payload : bytes) : Prop :=
  Z.of_nat (length payload) <= max_payload tag.

(* ------------------------------------------------------------------ *)
(** ** Typed frames *)

(** serde_json for one payload type: [to_vec] and [from_slice]. *)
Class JsonCodec (A : Type) := { to_vec : A -> option bytes; from_slice : bytes -> option A }.

(** What the codec relies on: decoding gives back what was encoded. *)
Class JsonLaw (A : Type) {C : JsonCodec A} :=
  json_round_trip : forall v b, to_vec v = Some b -> from_slice b = Some v.

Class WireCodec := {
  wc_hello :: JsonCodec Hello;
  wc_start :: JsonCodec StartRequest;
  wc_size :: JsonCodec TerminalSize;
  wc_signal :: JsonCodec SignalRequest;
  wc_exit :: JsonCodec ExitStatus;
  wc_error :: JsonCodec ProtocolErrorMessage;
  wc_sessions :: JsonCodec SessionCount;
  wc_memory :: JsonCodec MemoryReport;
  wc_trim :: JsonCodec TrimRequest }.

Class WireLaws (W : WireCodec) := {
  wl_hello :: JsonLaw Hello;
  wl_start :: JsonLaw StartRequest;
  wl_size :: JsonLaw TerminalSize;
  wl_signal :: JsonLaw SignalRequest;
  wl_exit :: JsonLaw ExitStatus;
  wl_error :: JsonLaw ProtocolErrorMessage;
  wl_sessions :: JsonLaw SessionCount;
  wl_memory :: JsonLaw MemoryReport;
  wl_trim :: JsonLaw TrimRequest }.

Section codec.
Context {W : WireCodec}.

Definition json {A} {C : JsonCodec A} (value : A) : result bytes FrameError :=
  ok_or (to_vec value) MalformedControl.
Definition from_json {A} {C : JsonCodec A} (payload : bytes) : result A FrameError :=
  ok_or (from_slice payload) MalformedControl.

Definition tagged (tag : byte) (payload : result bytes FrameError) :
    result (byte * bytes) FrameError :=
  let? p := payload in Ok (tag, p).

Definition encode_client (frame : ClientFrame) : result (byte * bytes) FrameError :=
  match frame with
  | C_Hello value => tagged TAG_CLIENT_HELLO (json value)
  | C_Ping => Ok (TAG_PING, [])
  | C_Start value => tagged TAG_START (json value)
  | C_Stdin value => Ok (TAG_STDIN, value)
  | C_StdinEnd => Ok (TAG_STDIN_END, [])
  | C_Resize value => tagged TAG_RESIZE (json value)
  | C_Signal value => tagged TAG_SIGNAL (json value)
  | C_Sessions => Ok (TAG_SESSIONS_QUERY, [])
  | C_Shutdown => Ok (TAG_SHUTDOWN_REQUEST, [])
  | C_Memory => Ok (TAG_MEMORY_QUERY, [])
  | C_Trim value => tagged TAG_TRIM_REQUEST (json value)
  end.

Definition encode_agent (frame : AgentFrame) : result (byte * bytes) FrameError :=
  match frame with
  | A_Hello value => tagged TAG_AGENT_HELLO (json value)
  | A_Pong => Ok (TAG_PONG, [])
  | A_Stdout value => Ok (TAG_STDOUT, value)
  | A_Stderr value => Ok (TAG_STDERR, value)
  | A_Exit value => tagged TAG_EXIT (json value)
  | A_Error value => tagged TAG_ERROR (json value)
  | A_Sessions value => tagged TAG_SESSION_COUNT (json value)
  | A_ShutdownAck => Ok (TAG_SHUTDOWN_ACK, [])
  | A_Memory value => tagged TAG_MEMORY_REPORT (json value)
  | A_TrimAck => Ok (TAG_TRIM_ACK, [])
  end.

Definition write_client_frame (frame : ClientFrame) : sem writer FrameError unit :=
  let! (tag, payload) := slift (encode_client frame) in write_raw tag payload.
Definition write_agent_frame (frame : AgentFrame) : sem writer FrameError unit :=
  let! (tag, payload) := slift (encode_agent frame) in write_raw tag payload.

Definition is_empty (payload : bytes) : bool := (length payload =? 0)%nat.

(** The [match tag] of [read_client_frame]: guarded arms fall through, so an empty-payload
    tag with a payload reaches the [MalformedControl] arm. *)
Definition decode_client (tag : byte) (payload : bytes) : result ClientFrame FrameError :=
  match tag with
  | x01 => let? v := from_json payload in Ok (C_Hello v)
  | x03 => if is_empty payload then Ok C_Ping else Err MalformedControl
  | x05 => let? v := from_json payload in Ok (C_Start v)
  | x06 => Ok (C_Stdin payload)
  | x07 => if is_empty payload then Ok C_StdinEnd else Err MalformedControl
  | x08 => let? v := from_json payload in Ok (C_Resize v)
  | x09 => let? v := from_json payload in Ok (C_Signal v)
  | x0e => if is_empty payload then Ok C_Sessions else Err MalformedControl
  | x10 => if is_empty payload then Ok C_Shutdown else Err MalformedControl
  | x12 => if is_empty payload then Ok C_Memory else Err MalformedControl
  | x14 => let? v := from_json payload in Ok (C_Trim v)
  | x02 | x04 | x0a | x0b | x0c | x0d | x0f | x11 | x13 | x15 => Err WrongDirection
  | _ => Err UnknownTag
  end.

Definition decode_agent (tag : byte) (payload : bytes) : result AgentFrame FrameError :=
  match tag with
  | x02 => let? v := from_json payload in Ok (A_Hello v)
  | x04 => if is_empty payload then Ok A_Pong else Err MalformedControl
  | x0a => Ok (A_Stdout payload)
  | x0b => Ok (A_Stderr payload)
  | x0c => let? v := from_json payload in Ok (A_Exit v)
  | x0d => let? v := from_json payload in Ok (A_Error v)
  | x0f => let? v := from_json payload in Ok (A_Sessions v)
  | x11 => if is_empty payload then Ok A_ShutdownAck else Err MalformedControl
  | x13 => let? v := from_json payload in Ok (A_Memory v)
  | x15 => if is_empty payload then Ok A_TrimAck else Err MalformedControl
  | x01 | x03 | x05 | x06 | x07 | x08 | x09 | x0e | x10 | x12 | x14 => Err WrongDirection
  | _ => Err UnknownTag
  end.

Definition read_client_frame : sem reader FrameError ClientFrame :=
  let! (tag, payload) := read_raw in slift (decode_client tag payload).
Definition read_agent_frame : sem reader FrameError AgentFrame :=
  let! (tag, payload) := read_raw in slift (decode_agent tag payload).

End codec.

(* ------------------------------------------------------------------ *)
(** ** Lemmas: streams *)

Lemma read_exact_app data rest e :
  read_exact (Z.of_nat (length data)) (mk_reader (data ++ rest) e) = (Ok data, mk_reader rest e).
Proof.
  unfold read_exact. simpl rd_bytes. rewrite length_app. rewrite (proj2 (Z.leb_le _ _)) by lia.
  by rewrite Nat2Z.id, take_app_length, drop_app_length.
Qed.

Lemma read_exact_ok n r data r' :
  0 <= n -> read_exact n r = (Ok data, r') ->
  rd_bytes r = data ++ rd_bytes r' /\ Z.of_nat (length data) = n /\ rd_end r' = rd_end r.
Proof.
  intros Hn. unfold read_exact. destruct (Z.leb_spec n (Z.of_nat (length (rd_bytes r)))); [|done].
  intros [= <- <-]. simpl. split_and!; [by rewrite take_drop| |done].
  rewrite length_take. lia.
Qed.

Lemma read_exact_short n data e :
  Z.of_nat (length data) < n ->
  read_exact n (mk_reader data e) = (Err (default UnexpectedEof e), mk_reader [] e).
Proof. intros. unfold read_exact. simpl. by rewrite (proj2 (Z.leb_gt _ _)) by lia. Qed.

Lemma write_all_ok data w w' :
  write_all data w = (Ok tt, w') ->
  wr_bytes w' = wr_bytes w ++ data /\ wr_flush_ok w' = wr_flush_ok w.
Proof. unfold write_all. repeat case_match; naive_solver. Qed.

Lemma write_all_unbounded data bs0 f :
  write_all data (mk_writer bs0 None f) = (Ok tt, mk_writer (bs0 ++ data) None f).
Proof. done. Qed.

(* ------------------------------------------------------------------ *)
(** ** Lemmas: raw frames *)

Lemma max_payload_bound tag : 0 < max_payload tag <= CONTROL_PAYLOAD_MAX.
Proof.
  unfold max_payload, STREAM_PAYLOAD_MAX, CONTROL_PAYLOAD_MAX. destruct (is_stream_tag tag); lia.
Qed.

Lemma be_length_to_be_bytes z : 0 <= z <= u32_max -> be_length (u32_to_be_bytes z) = z.
Proof. apply u32_be_round_trip. Qed.

Lemma fits_length_range tag payload :
  fits tag payload -> 0 < Z.of_nat (length payload) + 1 <= CONTROL_PAYLOAD_MAX + 1.
Proof. unfold fits. pose proof (max_payload_bound tag). lia. Qed.

Lemma u32_to_be_bytes_be_length a b c d :
  u32_to_be_bytes (be_length [a; b; c; d]) = [a; b; c; d].
Proof.
  unfold u32_to_be_bytes, be_length. rewrite u32_from_be_bytes_sum.
  pose proof (bz_range a). pose proof (bz_range b). pose proof (bz_range c).
  pose proof (bz_range d).
  repeat (apply f_equal2; [apply bz_inj; rewrite bz_zb_mod, ?Z.shiftr_div_pow2 by lia|]); [..|done];
    change (2 ^ 24) with 16777216; change (2 ^ 16) with 65536; change (2 ^ 8) with 256;
    Z.to_euclidean_division_equations; lia.
Qed.

(** What a reader sees after the prefix of one frame, in terms of the announced length. *)
Lemma read_raw_unfold p0 rest e :
  read_raw (mk_reader (p0 :: rest) e) =
  (let! prefix := smap_err FrameError_read (read_exact 3) in
   let length := be_length (p0 :: prefix) in
   if length =? 0 then sfail InvalidLength
   else if length >? CONTROL_PAYLOAD_MAX + 1 then sfail Oversized
   else
     let! tag := smap_err FrameError_read (read_exact 1) in
     let tag := default x00 (head tag) in
     if is_stream_tag tag && (length - 1 >? STREAM_PAYLOAD_MAX) then sfail Oversized
     else
       let! payload := smap_err FrameError_read (read_exact (length - 1)) in
       sret (tag, payload)) (mk_reader rest e).
Proof. done. Qed.

Lemma smap_read_exact_app {F} (f : io_error -> F) n data rest e :
  n = Z.of_nat (length data) ->
  smap_err f (read_exact n) (mk_reader (data ++ rest) e) = (Ok data, mk_reader rest e).
Proof. intros ->. unfold smap_err. by rewrite read_exact_app. Qed.

Lemma smap_read_exact_short {F} (f : io_error -> F) n data e :
  Z.of_nat (length data) < n ->
  smap_err f (read_exact n) (mk_reader data e)
  = (Err (f (default UnexpectedEof e)), mk_reader [] e).
Proof. intros. unfold smap_err. by rewrite read_exact_short. Qed.

(** Reading the four length bytes of a frame of length [len]. *)
Lemma read_raw_length len rest e :
  0 < len <= u32_max ->
  read_raw (mk_reader (u32_to_be_bytes len ++ rest) e) =
  (if len >? CONTROL_PAYLOAD_MAX + 1 then sfail Oversized
   else
     let! tag := smap_err FrameError_read (read_exact 1) in
     let tag := default x00 (head tag) in
     if is_stream_tag tag && (len - 1 >? STREAM_PAYLOAD_MAX) then sfail Oversized
     else
       let! payload := smap_err FrameError_read (read_exact (len - 1)) in
       sret (tag, payload)) (mk_reader rest e).
Proof.
  intros Hl. unfold u32_to_be_bytes. cbn [app]. rewrite read_raw_unfold.
  rewrite (sbind_run _ _ _ _ _ (smap_read_exact_app _ 3
    [zb (len ≫ 16); zb (len ≫ 8); zb len] rest e eq_refl)).
  cbv zeta. change (zb (len ≫ 24) :: _) with (u32_to_be_bytes len).
  rewrite be_length_to_be_bytes by lia. by rewrite (proj2 (Z.eqb_neq _ _)) by lia.
Qed.

Lemma read_raw_framed tag payload rest e :
  fits tag payload ->
  read_raw (mk_reader (framed tag payload ++ rest) e) = (Ok (tag, payload), mk_reader rest e).
Proof.
  intros Hfits. pose proof (fits_length_range _ _ Hfits) as Hl.
  unfold framed. rewrite <- app_assoc. cbn [app]. unfold CONTROL_PAYLOAD_MAX in Hl.
  rewrite read_raw_length by (unfold u32_max; lia).
  assert (Z.of_nat (length payload) + 1 >? CONTROL_PAYLOAD_MAX + 1 = false) as ->
    by (unfold CONTROL_PAYLOAD_MAX; lia).
  rewrite (sbind_run _ _ _ _ _
    (smap_read_exact_app _ 1 [tag] (payload ++ rest) e eq_refl)).
  cbv beta zeta. cbn [head from_option id].
  assert (is_stream_tag tag && (Z.of_nat (length payload) + 1 - 1 >? STREAM_PAYLOAD_MAX) = false)
    as -> by (unfold fits, max_payload in Hfits; destruct (is_stream_tag tag); cbn [andb]; lia).
  rewrite (sbind_run _ _ _ payload (mk_reader rest e)); [done|].
  apply smap_read_exact_app. lia.
Qed.

(** Every successful read takes exactly one frame, within its bound, off the stream. *)
Lemma read_raw_inv r tag payload r' :
  read_raw r = (Ok (tag, payload), r') ->
  rd_bytes r = framed tag payload ++ rd_bytes r' /\ fits tag payload /\ rd_end r' = rd_end r.
Proof.
  destruct r as [[|p0 rest] e].
  - unfold read_raw, read_one, sbind, smap_err. simpl. by destruct e.
  - rewrite read_raw_unfold. intros H. apply sbind_ok in H as (prefix & r1 & H1 & H).
    apply smap_err_ok, read_exact_ok in H1 as (E1 & L1 & Q1); [|lia].
    destruct prefix as [|p1 [|p2 [|p3 [|]]]]; try (simpl in L1; lia).
    cbv zeta in H. set (len := be_length [p0; p1; p2; p3]) in *.
    pose proof (u32_from_be_bytes_range p0 p1 p2 p3) as Hr. fold (be_length [p0;p1;p2;p3]) in Hr.
    fold len in Hr.
    destruct (Z.eqb_spec len 0); [done|].
    destruct (len >? CONTROL_PAYLOAD_MAX + 1) eqn:Hbig; [done|].
    apply sbind_ok in H as (tg & r2 & H2 & H).
    apply smap_err_ok, read_exact_ok in H2 as (E2 & L2 & Q2); [|lia].
    destruct tg as [|t [|]]; try (simpl in L2; lia). cbn [head from_option id] in H.
    destruct (is_stream_tag t && _) eqn:Hstream; [done|].
    apply sbind_ok in H as (pl & r3 & H3 & H). unfold sret in H. simplify_eq.
    apply smap_err_ok, read_exact_ok in H3 as (E3 & L3 & Q3); [|lia].
    assert (Z.of_nat (length payload) + 1 = len) as Hlen by lia.
    split_and!; [| |by rewrite Q3, Q2, Q1].
    + unfold framed. rewrite Hlen. unfold len. rewrite u32_to_be_bytes_be_length.
      simpl in *. by rewrite E1, E2, E3.
    + unfold fits, max_payload. destruct (is_stream_tag tag); simpl in Hstream; lia.
Qed.

Lemma write_raw_ok tag payload w w' :
  write_raw tag payload w = (Ok tt, w') ->
  fits tag payload /\ wr_bytes w' = wr_bytes w ++ framed tag payload.
Proof.
  unfold write_raw. fold (max_payload tag).
  destruct (Z.gtb_spec (Z.of_nat (length payload)) (max_payload tag)); [done|].
  destruct (Z.gtb_spec (Z.of_nat (length payload) + 1) u32_max); [done|].
  intros Hw. inv_sok.
  repeat match goal with
  | H : write_all _ _ = (Ok ?u, _) |- _ => destruct u; apply write_all_ok in H as [? ?]
  end.
  assert (w' = x4) as -> by (unfold flush in *; case_match; naive_solver).
  split; [done|]. unfold framed.
  repeat match goal with H : wr_bytes _ = _ |- _ => rewrite H; clear H end.
  by rewrite <- !app_assoc.
Qed.

Lemma write_raw_oversized tag payload w :
  ~ fits tag payload -> write_raw tag payload w = (Err Oversized, w).
Proof.
  unfold fits, write_raw. fold (max_payload tag). intros H.
  by destruct (Z.gtb_spec (Z.of_nat (length payload)) (max_payload tag)); [|lia].
Qed.

Lemma write_raw_unbounded tag payload b :
  fits tag payload ->
  write_raw tag payload (mk_writer b None true)
  = (Ok tt, mk_writer (b ++ framed tag payload) None true).
Proof.
  intros H. pose proof (fits_length_range _ _ H) as Hl. unfold CONTROL_PAYLOAD_MAX in Hl.
  unfold write_raw. fold (max_payload tag).
  destruct (Z.gtb_spec (Z.of_nat (length payload)) (max_payload tag)); [unfold fits in H; lia|].
  destruct (Z.gtb_spec (Z.of_nat (length payload) + 1) u32_max); [unfold u32_max in *; lia|].
  unfold sbind, smap_err, framed. simpl. by rewrite <- !app_assoc.
Qed.

(* ------------------------------------------------------------------ *)
(** ** Lemmas: typed frames *)

Section typed.
Context {W : WireCodec} {L : WireLaws W}.

Lemma from_json_json {A} {C : JsonCodec A} {J : JsonLaw A} (v : A) p :
  json v = Ok p -> from_json p = Ok v.
Proof.
  unfold json, from_json. rewrite ok_or_ok. intros H. by rewrite (json_round_trip v p H).
Qed.

#[local] Existing Instances wl_hello wl_start wl_size wl_signal wl_exit wl_error
  wl_sessions wl_memory wl_trim.

Lemma tagged_ok t p tag payload : tagged t p = Ok (tag, payload) <-> tag = t /\ p = Ok payload.
Proof. unfold tagged. destruct p; simpl; naive_solver. Qed.

(** One frame survives the tag and payload encoding. *)
Ltac codec_case :=
  repeat match goal with
  | H : tagged _ _ = Ok _ |- _ => apply tagged_ok in H as [-> H]
  | H : Ok _ = Ok _ |- _ => injection H as <- <-
  end;
  try match goal with H : json _ = Ok _ |- _ => apply from_json_json in H end.

Lemma decode_encode_client f tag payload :
  encode_client f = Ok (tag, payload) -> decode_client tag payload = Ok f.
Proof. destruct f; simpl; intros H; codec_case; simpl; first [done|by rewrite H]. Qed.

Lemma decode_encode_agent f tag payload :
  encode_agent f = Ok (tag, payload) -> decode_agent tag payload = Ok f.
Proof. destruct f; simpl; intros H; codec_case; simpl; first [done|by rewrite H]. Qed.

Lemma decode_client_of_agent f tag payload :
  encode_agent f = Ok (tag, payload) -> decode_client tag payload = Err WrongDirection.
Proof. destruct f; simpl; intros H; codec_case; done. Qed.

Lemma decode_agent_of_client f tag payload :
  encode_client f = Ok (tag, payload) -> decode_agent tag payload = Err WrongDirection.
Proof. destruct f; simpl; intros H; codec_case; done. Qed.

Lemma write_client_frame_ok f w w' :
  write_client_frame f w = (Ok tt, w') ->
  exists tag payload, encode_client f = Ok (tag, payload) /\ fits tag payload /\
    wr_bytes w' = wr_bytes w ++ framed tag payload.
Proof.
  unfold write_client_frame. intros H. apply sbind_ok in H as ([tag payload] & w1 & H1 & H).
  unfold slift in H1. injection H1 as H1 <-. apply write_raw_ok in H as [??]. eauto.
Qed.

Lemma write_agent_frame_ok f w w' :
  write_agent_frame f w = (Ok tt, w') ->
  exists tag payload, encode_agent f = Ok (tag, payload) /\ fits tag payload /\
    wr_bytes w' = wr_bytes w ++ framed tag payload.
Proof.
  unfold write_agent_frame. intros H. apply sbind_ok in H as ([tag payload] & w1 & H1 & H).
  unfold slift in H1. injection H1 as H1 <-. apply write_raw_ok in H as [??]. eauto.
Qed.

Lemma read_client_framed tag payload rest e :
  fits tag payload ->
  read_client_frame (mk_reader (framed tag payload ++ rest) e)
  = (decode_client tag payload, mk_reader rest e).
Proof.
  intros H. unfold read_client_frame.
  by rewrite (sbind_run _ _ _ _ _ (read_raw_framed _ _ _ _ H)).
Qed.

Lemma read_agent_framed tag payload rest e :
  fits tag payload ->
  read_agent_frame (mk_reader (framed tag payload ++ rest) e)
  = (decode_agent tag payload, mk_reader rest e).
Proof.
  intros H. unfold read_agent_frame.
  by rewrite (sbind_run _ _ _ _ _ (read_raw_framed _ _ _ _ H)).
Qed.

Lemma write_client_stream f w w' rest e :
  write_client_frame f w = (Ok tt, w') ->
  exists enc, wr_bytes w' = wr_bytes w ++ enc /\
    read_client_frame (mk_reader (enc ++ rest) e) = (Ok f, mk_reader rest e).
Proof.
  intros (tag & payload & He & Hf & ->)%write_client_frame_ok.
  eexists; split; [done|]. by rewrite read_client_framed, (decode_encode_client f).
Qed.

Lemma write_agent_stream f w w' rest e :
  write_agent_frame f w = (Ok tt, w') ->
  exists enc, wr_bytes w' = wr_bytes w ++ enc /\
    read_agent_frame (mk_reader (enc ++ rest) e) = (Ok f, mk_reader rest e).
Proof.
  intros (tag & payload & He & Hf & ->)%write_agent_frame_ok.
  eexists; split; [done|]. by rewrite read_agent_framed, (decode_encode_agent f).
Qed.
End typed.
