(* ===== verification/DemoCodec.v ===== *)
(** * DemoCodec: a concrete payload codec, for evaluating the model on closed inputs.

    Any countable payload type has a lossless byte form; it stands in for serde_json when
    a theorem is applied at a closed input, and satisfies the one law the model uses. *)
From S2P Require Import Prelude Bytes Message Frame.

Fixpoint pos_to_bytes (p : positive) : bytes :=
  match p with xH => [] | xO q => x00 :: pos_to_bytes q | xI q => x01 :: pos_to_bytes q end.
Fixpoint bytes_to_pos (b : bytes) : option positive :=
  match b with
  | [] => Some xH
  | x00 :: b' => xO <$> bytes_to_pos b'
  | x01 :: b' => xI <$> bytes_to_pos b'
  | _ => None
  end.

Lemma bytes_to_pos_to_bytes p : bytes_to_pos (pos_to_bytes p) = Some p.
Proof. induction p as [p IH|p IH|]; simpl; by rewrite ?IH. Qed.

Definition countable_codec {A} `{Countable A} : JsonCodec A :=
  {| to_vec v := Some (pos_to_bytes (encode v));
     from_slice b := let* p := bytes_to_pos b in decode p |}.

Lemma countable_law {A} `{Countable A} : @JsonLaw A countable_codec.
Proof.
  intros v b [= <-]. cbn [from_slice countable_codec]. rewrite bytes_to_pos_to_bytes.
  simpl. by rewrite decode_encode.
Qed.

Section countable_payloads.
#[local] Ltac by_fields := intros []; done.
#[local] Instance size_dec : EqDecision TerminalSize.
Proof. solve_decision. Defined.
#[local] Instance signal_dec : EqDecision SignalRequest.
Proof. solve_decision. Defined.
#[local] Instance exit_dec : EqDecision ExitStatus.
Proof. solve_decision. Defined.
#[local] Instance error_dec : EqDecision ProtocolErrorMessage.
Proof. solve_decision. Defined.
#[local] Instance count_dec : EqDecision SessionCount.
Proof. solve_decision. Defined.
#[local] Instance memory_dec : EqDecision MemoryReport.
Proof. solve_decision. Defined.
#[local] Instance trim_dec : EqDecision TrimRequest.
Proof. solve_decision. Defined.
#[local, refine] Instance hello_countable : Countable Hello :=
  inj_countable' (fun h => (schema_version h, boot_identity h)) (fun '(a, b) => mk_Hello a b) _.
Proof. by_fields. Defined.
#[local, refine] Instance mode_countable : Countable SessionMode :=
  inj_countable' (fun m => match m with Exec => true | Shell => false end)
    (fun b => if b : bool then Exec else Shell) _.
Proof. by_fields. Defined.
#[local, refine] Instance variable_countable : Countable EnvironmentVariable :=
  inj_countable' (fun v => (ev_name v, ev_value v)) (fun '(a, b) => mk_EnvironmentVariable a b) _.
Proof. by_fields. Defined.
#[local, refine] Instance start_countable : Countable StartRequest :=
  inj_countable' (fun r => (mode r, argv r, environment r, cwd r, pty r))
    (fun '(a, b, c, d, e) => mk_StartRequest a b c d e) _.
Proof. by_fields. Defined.
#[local, refine] Instance size_countable : Countable TerminalSize :=
  inj_countable' (fun s => (rows s, columns s)) (fun '(a, b) => mk_TerminalSize a b) _.
Proof. by_fields. Defined.
#[local, refine] Instance signal_countable : Countable SignalRequest :=
  inj_countable' signal mk_SignalRequest _.
Proof. by_fields. Defined.
#[local, refine] Instance exit_countable : Countable ExitStatus :=
  inj_countable' status mk_ExitStatus _.
Proof. by_fields. Defined.
#[local, refine] Instance error_countable : Countable ProtocolErrorMessage :=
  inj_countable' code mk_ProtocolErrorMessage _.
Proof. by_fields. Defined.
#[local, refine] Instance count_countable : Countable SessionCount :=
  inj_countable' sessions mk_SessionCount _.
Proof. by_fields. Defined.
#[local, refine] Instance memory_countable : Countable MemoryReport :=
  inj_countable' (fun r => (total_bytes r, available_bytes r)) (fun '(a, b) => mk_MemoryReport a b) _.
Proof. by_fields. Defined.
#[local, refine] Instance trim_countable : Countable TrimRequest :=
  inj_countable' mountpoints mk_TrimRequest _.
Proof. by_fields. Defined.

Definition demo_codec : WireCodec :=
  {| wc_hello := countable_codec; wc_start := countable_codec; wc_size := countable_codec;
     wc_signal := countable_codec; wc_exit := countable_codec; wc_error := countable_codec;
     wc_sessions := countable_codec; wc_memory := countable_codec; wc_trim := countable_codec |}.

Lemma demo_laws : WireLaws demo_codec.
Proof. split; apply countable_law. Qed.
End countable_payloads.
