(* ===== verification/FrameSpec.v ===== *)
(** * FrameSpec: what the frame codec promises.

    Round trips in both directions, direction separation, the exact set of byte streams the
    reader accepts, and the classification of short and oversized input. *)
From S2P Require Import Prelude Bytes Message Frame DemoCodec.

Section properties.
Context {W : WireCodec} {L : WireLaws W}.

(** A client frame that was written is read back unchanged from whatever stream follows
    it, the reader stops exactly at its end, and the agent-direction reader refuses it. *)
Theorem client_frame_round_trip f w w' rest e :
  write_client_frame f w = (Ok tt, w') ->
  exists enc, wr_bytes w' = wr_bytes w ++ enc /\
    read_client_frame (mk_reader (enc ++ rest) e) = (Ok f, mk_reader rest e) /\
    read_agent_frame (mk_reader (enc ++ rest) e) = (Err WrongDirection, mk_reader rest e).
Proof.
  intros (tag & payload & He & Hf & ->)%write_client_frame_ok.
  eexists; split; [done|]. rewrite read_client_framed, read_agent_framed by done.
  by rewrite (decode_encode_client f), (decode_agent_of_client f).
Qed.

(** The same for the agent direction. *)
Theorem agent_frame_round_trip f w w' rest e :
  write_agent_frame f w = (Ok tt, w') ->
  exists enc, wr_bytes w' = wr_bytes w ++ enc /\
    read_agent_frame (mk_reader (enc ++ rest) e) = (Ok f, mk_reader rest e) /\
    read_client_frame (mk_reader (enc ++ rest) e) = (Err WrongDirection, mk_reader rest e).
Proof.
  intros (tag & payload & He & Hf & ->)%write_agent_frame_ok.
  eexists; split; [done|]. rewrite read_client_framed, read_agent_framed by done.
  by rewrite (decode_encode_agent f), (decode_client_of_agent f).
Qed.
End properties.

(** The raw reader succeeds exactly on the streams that begin with one frame whose payload
    is within its tag's bound, and takes that frame and nothing more. *)
Theorem read_raw_accepts_exactly r tag payload r' :
  read_raw r = (Ok (tag, payload), r') <->
  rd_bytes r = framed tag payload ++ rd_bytes r' /\ fits tag payload /\ rd_end r' = rd_end r.
Proof.
  split; [apply read_raw_inv|]. destruct r as [b e], r' as [b' e']. simpl.
  intros (-> & Hf & ->). by apply read_raw_framed.
Qed.

(** A length above the bound is refused before any payload byte is read: after four bytes
    when no frame may be that long, after the tag when only stream payloads may not. *)
Theorem oversized_refused_before_payload len tag body e :
  max_payload tag + 1 < len <= u32_max ->
  read_raw (mk_reader (u32_to_be_bytes len ++ tag :: body) e) =
  (Err Oversized, mk_reader (if len >? CONTROL_PAYLOAD_MAX + 1 then tag :: body else body) e).
Proof.
  intros Hl. pose proof (max_payload_bound tag). rewrite read_raw_length by lia.
  destruct (len >? CONTROL_PAYLOAD_MAX + 1) eqn:Hc; [done|].
  rewrite (sbind_run _ _ _ _ _ (smap_read_exact_app _ 1 [tag] body e eq_refl)).
  cbv beta zeta. cbn [head from_option id].
  assert (is_stream_tag tag && (len - 1 >? STREAM_PAYLOAD_MAX) = true) as ->; [|done].
  unfold max_payload in *. destruct (is_stream_tag tag); cbn [andb]; lia.
Qed.

(** A stream that ends inside a frame reads as [Truncated] wherever it is cut, and as
    [Eof] only when it ends between frames; an I/O fault at the cut reads as [Io]. *)
Theorem truncated_frame_classified tag payload p q e :
  fits tag payload -> framed tag payload = p ++ q -> q <> [] ->
  read_raw (mk_reader p e) =
  (Err (match p, e with
        | [], None => Eof
        | [], Some err => Io err
        | _, _ => FrameError_read (default UnexpectedEof e)
        end), mk_reader [] e).
Proof.
  intros Hf Hp Hq. pose proof (fits_length_range _ _ Hf) as Hl.
  destruct p as [|p0 p]; [by destruct e|].
  unfold framed in Hp. set (len := Z.of_nat (length payload) + 1) in *.
  unfold CONTROL_PAYLOAD_MAX in Hl.
  destruct (decide (length (p0 :: p) < 4)%nat) as [Hs|Hs].
  - rewrite read_raw_unfold. rewrite (sbind_run_err _ _ _ _ _ (smap_read_exact_short _ 3 p e
      ltac:(simpl in Hs; lia))). by destruct e.
  - assert (exists p', p0 :: p = u32_to_be_bytes len ++ p' /\ tag :: payload = p' ++ q)
      as (p' & Ep & Eq).
    { destruct (app_eq_inv _ _ _ _ Hp) as [(k & E1 & E2)|(k & E1 & E2)]; [|eauto].
      apply (f_equal length) in E1 as El. rewrite length_app in El.
      change (length (u32_to_be_bytes len)) with 4%nat in El. simpl in Hs, El.
      exists []. rewrite app_nil_r. destruct k; [|simpl in El; lia].
      rewrite app_nil_r in E1. by rewrite E1. }
    rewrite Ep, read_raw_length by (unfold u32_max; lia).
    assert (len >? CONTROL_PAYLOAD_MAX + 1 = false) as -> by (unfold CONTROL_PAYLOAD_MAX; lia).
    destruct p' as [|t p'].
    + rewrite (sbind_run_err _ _ _ _ _ (smap_read_exact_short _ 1 [] e ltac:(simpl; lia))).
      by destruct e.
    + injection Eq as <- Eq.
      rewrite (sbind_run _ _ _ _ _ (smap_read_exact_app _ 1 [tag] p' e eq_refl)).
      cbv beta zeta. cbn [head from_option id].
      assert (is_stream_tag tag && (len - 1 >? STREAM_PAYLOAD_MAX) = false) as ->
        by (unfold fits, max_payload in Hf; destruct (is_stream_tag tag); cbn [andb]; lia).
      apply (f_equal length) in Eq. rewrite length_app in Eq. destruct q; [done|].
      rewrite (sbind_run_err _ _ _ _ _ (smap_read_exact_short _ (len - 1) p' e
        ltac:(simpl in Eq; lia))). by destruct e.
Qed.

(* ------------------------------------------------------------------ *)
(** ** Witnesses *)

Definition demo_identity : bytes := bs "01234567-89ab-cdef-0123-456789abcdef".
Definition demo_hello : Hello := mk_Hello 1 demo_identity.

Lemma client_frame_round_trip_witness :
  exists enc,
    enc = wr_bytes (snd (@write_client_frame demo_codec (C_Hello demo_hello) (mk_writer [] None true))) /\
    @read_client_frame demo_codec (mk_reader (enc ++ [x41]) None)
    = (Ok (C_Hello demo_hello), mk_reader [x41] None).
Proof.
  destruct (@client_frame_round_trip demo_codec demo_laws (C_Hello demo_hello)
    (mk_writer [] None true)
    (snd (@write_client_frame demo_codec (C_Hello demo_hello) (mk_writer [] None true)))
    [x41] None) as (enc & E & R & _).
  - vm_compute. reflexivity.
  - exists enc. split; [by rewrite E|exact R].
Defined.

Lemma agent_frame_round_trip_witness :
  exists enc,
    enc = wr_bytes (snd (@write_agent_frame demo_codec (A_Exit (mk_ExitStatus 42)) (mk_writer [] (Some 100) true))) /\
    @read_agent_frame demo_codec (mk_reader (enc ++ [x41]) None)
    = (Ok (A_Exit (mk_ExitStatus 42)), mk_reader [x41] None).
Proof.
  destruct (@agent_frame_round_trip demo_codec demo_laws (A_Exit (mk_ExitStatus 42))
    (mk_writer [] (Some 100) true)
    (snd (@write_agent_frame demo_codec (A_Exit (mk_ExitStatus 42)) (mk_writer [] (Some 100) true)))
    [x41] None) as (enc & E & R & _).
  - vm_compute. reflexivity.
  - exists enc. split; [by rewrite E|exact R].
Defined.

Lemma oversized_refused_before_payload_witness :
  read_raw (mk_reader (u32_to_be_bytes 65538 ++ TAG_STDIN :: [x41]) None)
  = (Err Oversized, mk_reader [x41] None).
Proof.
  apply (oversized_refused_before_payload 65538 TAG_STDIN [x41] None).
  vm_compute. split; [reflexivity|discriminate].
Defined.

Lemma truncated_frame_classified_witness :
  read_raw (mk_reader [x00; x00; x00; x03; x06; x41] None) = (Err Truncated, mk_reader [] None).
Proof.
  apply (truncated_frame_classified TAG_STDIN [x41; x42] [x00; x00; x00; x03; x06; x41] [x42] None).
  - vm_compute. discriminate.
  - vm_compute. reflexivity.
  - discriminate.
Defined.
