(* ===== verification/Paths.v ===== *)
(** * Paths: std::path::Path on Unix, as far as the source uses it.

    A path is its bytes.  Comparison, [starts_with], [parent] and [file_name] work on
    components, so ["/a//b/."] and ["/a/b"] are the same path. *)
From S2P Require Import Prelude Bytes.

Inductive Component :=
| RootDir
| CurDir
| ParentDir
| Normal (name : bytes).
#[export] Instance Component_eq_dec : EqDecision Component.
Proof. solve_decision. Defined.

Definition dot : bytes := bs ".".
Definition dotdot : bytes := bs "..".
Definition slash : byte := "/"%byte.

Definition is_absolute (p : bytes) : bool :=
  match p with b :: _ => bool_decide (b = slash) | [] => false end.

(** One piece between slashes; empty pieces and [.] are skipped. *)
Definition piece_component (piece : bytes) : option Component :=
  if bool_decide (piece = []) || bool_decide (piece = dot) then None
  else if bool_decide (piece = dotdot) then Some ParentDir
  else Some (Normal piece).

(** [Path::components]: a leading [.] of a relative path is kept. *)
Definition components (p : bytes) : list Component :=
  let pieces := split_on slash p in
  (if is_absolute p then [RootDir]
   else match pieces with piece :: _ => if bool_decide (piece = dot) then [CurDir] else [] | [] => [] end)
  ++ omap piece_component pieces.

(** [Path == Path]. *)
Definition path_eqb (a b : bytes) : bool := bool_decide (components a = components b).

(** [path.starts_with(base)]: whole components. *)
Fixpoint components_start_with (base path : list Component) : bool :=
  match base, path with
  | [], _ => true
  | a :: base', b :: path' => bool_decide (a = b) && components_start_with base' path'
  | _ :: _, [] => false
  end.
Definition path_starts_with (path base : bytes) : bool :=
  components_start_with (components base) (components path).

(** [Path::parent], as the components of the parent. *)
Definition parent (p : bytes) : option (list Component) :=
  match last (components p) with
  | Some RootDir | None => None
  | Some _ => Some (removelast (components p))
  end.

(** [Path::file_name]. *)
Definition file_name (p : bytes) : option bytes :=
  match last (components p) with Some (Normal name) => Some name | _ => None end.

(** [Path::join]. *)
Definition join (p q : bytes) : bytes :=
  if is_absolute q then q
  else match last p with
       | None => q
       | Some b => if decide (b = slash) then p ++ q else p ++ slash :: q
       end.

(* ------------------------------------------------------------------ *)
(** ** Lemmas *)

Lemma components_start_with_prefix base path :
  components_start_with base path = true <-> base `prefix_of` path.
Proof.
  revert path. induction base as [|a base IH]; intros [|b path]; simpl.
  - split; [intros _; apply prefix_nil|done].
  - split; [intros _; apply prefix_nil|done].
  - split; [done|by intros ?%prefix_nil_not].
  - rewrite andb_true_iff, bool_decide_eq_true, IH. split.
    + intros [-> H]. by apply prefix_cons.
    + intros H. split; [by eapply prefix_cons_inv_1|by eapply prefix_cons_inv_2].
Qed.

Lemma path_starts_with_prefix path base :
  path_starts_with path base = true <-> components base `prefix_of` components path.
Proof. apply components_start_with_prefix. Qed.

Lemma path_starts_with_refl p : path_starts_with p p = true.
Proof. by apply path_starts_with_prefix. Qed.

Lemma path_starts_with_trans a b c :
  path_starts_with a b = true -> path_starts_with b c = true -> path_starts_with a c = true.
Proof. rewrite !path_starts_with_prefix. intros H1 H2. by etrans. Qed.

Lemma path_eqb_starts_with a b : path_eqb a b = true -> path_starts_with a b = true.
Proof. unfold path_eqb. rewrite bool_decide_eq_true, path_starts_with_prefix. by intros ->. Qed.

Lemma parent_inv p q : parent p = Some q -> exists c, components p = q ++ [c] /\ c <> RootDir.
Proof.
  unfold parent. destruct (last (components p)) as [c|] eqn:E; [|done].
  intros H. exists c. assert (c <> RootDir) by (by intros ->).
  split; [|done]. destruct c; simplify_eq;
    apply last_Some in E as [l ->]; by rewrite removelast_last.
Qed.

(** A plain name is one component. *)
Definition plain_name (name : bytes) : Prop :=
  name <> [] /\ name <> dot /\ name <> dotdot /\ slash ∉ name.

Lemma piece_component_plain name : plain_name name -> piece_component name = Some (Normal name).
Proof. intros (? & ? & ? & _). unfold piece_component. by rewrite !bool_decide_eq_false_2. Qed.

Lemma is_absolute_plain name : plain_name name -> is_absolute name = false.
Proof.
  intros (? & _ & _ & Hs). destruct name as [|b name]; [done|].
  apply bool_decide_eq_false. intros ->. apply Hs. left.
Qed.

Lemma split_on_last c p leaf : c ∉ leaf -> split_on c (p ++ c :: leaf) = split_on c p ++ [leaf].
Proof.
  intros Hc. induction p as [|b p IH]; cbn.
  - rewrite decide_True by done. by rewrite (split_on_single c leaf).
  - rewrite IH. destruct (decide (b = c)); [done|]. by destruct (split_on c p) eqn:E; [destruct (split_on_ne c p)|].
Qed.
Lemma is_absolute_join a b : is_absolute a = true -> is_absolute (join a b) = true.
Proof.
  intros Ha. unfold join. destruct (is_absolute b) eqn:Eb; [done|]. destruct a as [|x a]; [done|].
  destruct (last (x :: a)) as [y|] eqn:El; [|by apply last_None in El]. by destruct (decide (y = slash)).
Qed.
(** A plain name under an absolute path adds one component. *)
Lemma components_join a n : is_absolute a = true -> plain_name n -> components (join a n) = components a ++ [Normal n].
Proof.
  intros Ha Hn. pose proof (is_absolute_join a n Ha) as Hj. unfold join in Hj |- *. rewrite (is_absolute_plain n Hn) in Hj |- *.
  destruct (last a) as [y|] eqn:El; [|by apply last_None in El as ->].
  assert (Hs : slash ∉ n) by by destruct Hn as (_ & _ & _ & ?).
  assert (Hc : forall l, omap piece_component (split_on slash l ++ [n]) = omap piece_component (split_on slash l) ++ [Normal n]).
  { intros l. rewrite omap_app. cbn [omap list_omap]. by rewrite piece_component_plain. }
  destruct (decide (y = slash)) as [->|Hy].
  - apply last_Some in El as [p ->]. unfold components. rewrite Hj, Ha, <- (app_assoc p). cbn [app].
    rewrite (split_on_last _ _ _ Hs), (split_on_last _ p [] (not_elem_of_nil _)), Hc, !omap_app. cbn. by rewrite app_nil_r.
  - unfold components. rewrite Hj, Ha. by rewrite (split_on_last _ _ _ Hs), Hc.
Qed.
