(* ===== verification/Ordered.v ===== *)
(** * Ordered byte strings: [Ord] on [String] and the sets and sorts built on it

    [BTreeSet<String>] is its elements in ascending order without repetition; [Vec::sort] is an insertion sort, which is
    stable. *)
From S2P Require Import Prelude Bytes.

Fixpoint ord_cmp (a b : bytes) : comparison :=
  match a, b with
  | [], [] => Eq
  | [], _ => Lt
  | _, [] => Gt
  | x :: a, y :: b => match Z.compare (bz x) (bz y) with Eq => ord_cmp a b | c => c end
  end.
Definition ord_leb (a b : bytes) : bool := match ord_cmp a b with Gt => false | _ => true end.

Lemma ord_cmp_eq a b : ord_cmp a b = Eq <-> a = b.
Proof.
  revert b. induction a as [|x a IH]; intros [|y b]; simpl; try done.
  destruct (Z.compare_spec (bz x) (bz y)) as [E|E|E].
  - apply bz_inj in E as ->. rewrite IH. naive_solver.
  - split; [done|]. intros [= -> ->]. lia.
  - split; [done|]. intros [= -> ->]. lia.
Qed.
Lemma ord_cmp_antisym a b : ord_cmp b a = CompOpp (ord_cmp a b).
Proof.
  revert b. induction a as [|x a IH]; intros [|y b]; simpl; try done.
  rewrite (Z.compare_antisym (bz x) (bz y)). destruct (Z.compare (bz x) (bz y)); simpl; auto.
Qed.
Lemma ord_cmp_trans a b c : ord_cmp a b = Lt -> ord_cmp b c = Lt -> ord_cmp a c = Lt.
Proof.
  revert b c. induction a as [|x a IH]; intros [|y b] [|z c]; simpl; try done.
  destruct (Z.compare_spec (bz x) (bz y)), (Z.compare_spec (bz y) (bz z)), (Z.compare_spec (bz x) (bz z));
    try done; try lia; eauto.
Qed.
Lemma ord_leb_total a b : ord_leb a b = true \/ ord_leb b a = true.
Proof. unfold ord_leb. rewrite (ord_cmp_antisym a b). destruct (ord_cmp a b); auto. Qed.
Lemma ord_leb_antisym a b : ord_leb a b = true -> ord_leb b a = true -> a = b.
Proof.
  unfold ord_leb. rewrite (ord_cmp_antisym a b). destruct (ord_cmp a b) eqn:E; try done. by apply ord_cmp_eq in E.
Qed.
Lemma ord_leb_trans a b c : ord_leb a b = true -> ord_leb b c = true -> ord_leb a c = true.
Proof.
  unfold ord_leb. destruct (ord_cmp a b) eqn:E1; try done; destruct (ord_cmp b c) eqn:E2; try done; intros _ _.
  - apply ord_cmp_eq in E1 as ->. by rewrite E2.
  - apply ord_cmp_eq in E1 as ->. by rewrite E2.
  - apply ord_cmp_eq in E2 as ->. by rewrite E1.
  - by rewrite (ord_cmp_trans _ _ _ E1 E2).
Qed.

(** [BTreeSet::insert] and [BTreeMap::insert]. *)
Fixpoint set_insert (x : bytes) (l : list bytes) : list bytes :=
  match l with
  | [] => [x]
  | y :: l' => match ord_cmp x y with Lt => x :: l | Eq => l | Gt => y :: set_insert x l' end
  end.
Definition set_extend (xs l : list bytes) : list bytes := fold_left (fun l x => set_insert x l) xs l.
Fixpoint map_insert {A} (k : bytes) (v : A) (l : list (bytes * A)) : list (bytes * A) :=
  match l with
  | [] => [(k, v)]
  | (k', v') :: l' =>
      match ord_cmp k k' with Lt => (k, v) :: l | Eq => (k, v) :: l' | Gt => (k', v') :: map_insert k v l' end
  end.
(** [Vec::sort], ascending. *)
Fixpoint sort_insert (x : bytes) (l : list bytes) : list bytes :=
  match l with [] => [x] | y :: l' => if ord_leb x y then x :: l else y :: sort_insert x l' end.
Definition sort_bytes (l : list bytes) : list bytes := fold_right sort_insert [] l.

Lemma set_insert_elem x y l : y ∈ set_insert x l <-> y = x \/ y ∈ l.
Proof.
  induction l as [|z l IH]; simpl; [rewrite list_elem_of_singleton; set_solver|].
  destruct (ord_cmp x z) eqn:E; rewrite ?elem_of_cons, ?IH; [apply ord_cmp_eq in E; naive_solver|naive_solver..].
Qed.
Lemma set_extend_elem xs l y : y ∈ set_extend xs l <-> y ∈ xs \/ y ∈ l.
Proof.
  revert l. induction xs as [|x xs IH]; intros l; simpl; [set_solver|].
  unfold set_extend in IH. rewrite IH, set_insert_elem, elem_of_cons. naive_solver.
Qed.
Lemma sort_insert_elem x y l : y ∈ sort_insert x l <-> y = x \/ y ∈ l.
Proof.
  induction l as [|z l IH]; simpl; [rewrite list_elem_of_singleton; set_solver|].
  destruct (ord_leb x z); rewrite ?elem_of_cons, ?IH; naive_solver.
Qed.
Lemma sort_bytes_elem y l : y ∈ sort_bytes l <-> y ∈ l.
Proof. induction l as [|x l IH]; simpl; [done|]. by rewrite sort_insert_elem, elem_of_cons, IH. Qed.

Lemma map_insert_lookup {A} k (v : A) l k' v' :
  (k', v') ∈ map_insert k v l -> (k', v') = (k, v) \/ (k', v') ∈ l.
Proof.
  induction l as [|[k0 v0] l IH]; simpl; [rewrite list_elem_of_singleton; auto|].
  destruct (ord_cmp k k0); rewrite ?elem_of_cons; naive_solver.
Qed.

(** A set's elements are strictly ascending, so they are without repetition. *)
Inductive ascending : list bytes -> Prop :=
| asc_nil : ascending []
| asc_one x : ascending [x]
| asc_cons x y l : ord_cmp x y = Lt -> ascending (y :: l) -> ascending (x :: y :: l).
#[export] Hint Constructors ascending : viv.

Lemma ascending_tail x l : ascending (x :: l) -> ascending l.
Proof. inversion 1; auto with viv. Qed.
Lemma ascending_above x l y : ascending (x :: l) -> y ∈ l -> ord_cmp x y = Lt.
Proof.
  revert x. induction l as [|z l IH]; intros x H Hy; [by apply elem_of_nil in Hy|]. inversion H; subst.
  apply elem_of_cons in Hy as [->|Hy]; [done|]. eapply ord_cmp_trans; eauto.
Qed.
Lemma ascending_NoDup l : ascending l -> NoDup l.
Proof.
  induction l as [|x l IH]; intros H; [constructor|]. constructor; [|by eapply IH, ascending_tail].
  intros Hx. pose proof (ascending_above _ _ _ H Hx) as E. assert (ord_cmp x x = Eq) by (by apply ord_cmp_eq). congruence.
Qed.
Lemma map_insert_keys {A} k (v : A) l : map fst (map_insert k v l) = set_insert k (map fst l).
Proof.
  induction l as [|[k' v'] l IH]; simpl; [done|]. destruct (ord_cmp k k') eqn:E; simpl; [|done|by rewrite IH].
  by apply ord_cmp_eq in E as ->.
Qed.
Lemma set_insert_ascending x l : ascending l -> ascending (set_insert x l).
Proof.
  induction l as [|y l IH]; intros H; simpl; [auto with viv|]. destruct (ord_cmp x y) eqn:E; [done|auto with viv|].
  assert (Hy : ord_cmp y x = Lt) by (rewrite ord_cmp_antisym, E; done).
  specialize (IH (ascending_tail _ _ H)). destruct l as [|z l]; simpl in *; [auto with viv|].
  destruct (ord_cmp x z) eqn:E2; [done|auto with viv|]. inversion H; subst. auto with viv.
Qed.
Lemma set_extend_ascending xs l : ascending l -> ascending (set_extend xs l).
Proof. revert l. induction xs as [|x xs IH]; intros l H; simpl; [done|]. apply IH. by apply set_insert_ascending. Qed.
