(* ===== verification/Mounts.v ===== *)
(** * Mounts: declared mount sources (src/src/launch/mounts.rs) and the guest's decoder of the
    entry they carry (src/nix/mount-bind.sh). *)
From S2P Require Import Prelude Bytes Paths Message.

(** spec.rs [MountPlanKind]. *)
Inductive MountPlanKind := Dir | File | Tree.
#[export] Instance MountPlanKind_eq_dec : EqDecision MountPlanKind.
Proof. solve_decision. Defined.

Record ResolvedMount := mk_ResolvedMount {
  rm_tag : bytes;
  rm_kind : MountPlanKind;
  rm_share_source : bytes;
  rm_entry : option bytes }.

Inductive MountSourceDefect :=
| UnsetVariable (variable : bytes)
| NotAbsolute (expanded : bytes)
| Missing (expanded : bytes)
| Unreadable (expanded error : bytes)
| NotMountable (expanded : bytes)
| SessionDirectory (expanded : bytes).

(* ------------------------------------------------------------------ *)
(** ** The built contract *)

(** [BuiltShare], [BuiltContract]; reading and decoding the artifact is serde_json's. *)
Record BuiltShare := mk_BuiltShare { bt_tag : bytes; bt_origin : bytes; bt_source_token : bytes }.
Record BuiltContract := mk_BuiltContract { share_launch : list BuiltShare; credential_ids : list CredentialId }.
Definition contract_path (store_path : bytes) : bytes :=
  join (join (join store_path (bs "share")) (bs "vivarium")) (bs "launch-arguments.json").
Section contract.
Context {E : Type} (read : bytes -> result bytes E) (from_slice : bytes -> result BuiltContract E).
Definition read_contract (store_path : bytes) : result BuiltContract E :=
  let? raw := read (contract_path store_path) in from_slice raw.
Definition declared_shares (store_path : bytes) : result (list BuiltShare) E :=
  let? contract := read_contract store_path in
  Ok (List.filter (fun share => bytes_eqb (bt_origin share) (bs "declared")) (share_launch contract)).
Definition declared_credentials (store_path : bytes) : result (list CredentialId) E :=
  let? contract := read_contract store_path in Ok (credential_ids contract).
End contract.

(* ------------------------------------------------------------------ *)
(** ** [expand_source] *)

(** [rest.find("${")], as what is before and what is after it. *)
Fixpoint find_open (s : bytes) : option (bytes * bytes) :=
  match s with
  | [] => None
  | a :: s' =>
      match strip_prefix (bs "${") s with
      | Some rest => Some ([], rest)
      | None => let* (before, after) := find_open s' in Some (a :: before, after)
      end
  end.
(** [s.find(c)], the same way. *)
Fixpoint find_byte (c : byte) (s : bytes) : option (bytes * bytes) :=
  match s with
  | [] => None
  | b :: s' => if bool_decide (b = c) then Some ([], s')
               else let* (before, after) := find_byte c s' in Some (b :: before, after)
  end.

Definition variable_byte (b : byte) : bool := is_ascii_alphanumeric b || bool_decide (b = "_"%byte).
Definition is_variable (v : bytes) : bool := negb (length v =? 0)%nat && forallb variable_byte v.

(** Each round leaves a shorter rest, so [length declared] rounds are enough
    ([expand_fuel_enough]). *)
Fixpoint expand_fuel (fuel : nat) (lookup : bytes -> option bytes) (rest : bytes)
    : result bytes MountSourceDefect :=
  match find_open rest, fuel with
  | None, _ => Ok rest
  | Some _, O => Ok rest
  | Some (before, after), S fuel' =>
      match find_byte "}" after with
      | None => Ok rest
      | Some (variable, rest') =>
          if is_variable variable then
            match lookup variable with
            | Some value => let? tail := expand_fuel fuel' lookup rest' in Ok (before ++ value ++ tail)
            | None => Err (UnsetVariable variable)
            end
          else
            let? tail := expand_fuel fuel' lookup rest' in
            Ok (before ++ bs "${" ++ variable ++ bs "}" ++ tail)
      end
  end.
Definition expand_source (declared : bytes) (lookup : bytes -> option bytes) : result bytes MountSourceDefect :=
  expand_fuel (length declared) lookup declared.

(* ------------------------------------------------------------------ *)
(** ** [encode_entry] *)

Definition hex_upper (v : Z) : byte := if v <? 10 then zb (48 + v) else zb (55 + v).
Definition unreserved (b : byte) : bool := is_ascii_alphanumeric b || contains b (bs "-._~").
Definition encode_byte (b : byte) : bytes :=
  if unreserved b then [b] else ["%"%byte; hex_upper (Z.shiftr (bz b) 4); hex_upper (bz b mod 16)].
Definition encode_entry (name : bytes) : bytes := flat_map encode_byte name.

(** mount-bind.sh: the allowlist, then the decode, then the two refusals. *)
Definition is_hex_upper (b : byte) : bool := is_ascii_digit b || ((65 <=? bz b) && (bz b <=? 70)).
Definition hex_value (b : byte) : Z := if is_ascii_digit b then bz b - 48 else bz b - 55.
Fixpoint decode_bytes (s : bytes) : option bytes :=
  match s with
  | [] => Some []
  | b :: s' =>
      if bool_decide (b = "%"%byte) then
        match s' with
        | h :: l :: s'' =>
            if is_hex_upper h && is_hex_upper l
            then let* rest := decode_bytes s'' in Some (zb (hex_value h * 16 + hex_value l) :: rest)
            else None
        | _ => None
        end
      else if unreserved b then let* rest := decode_bytes s' in Some (b :: rest) else None
  end.
Definition guest_decode_entry (encoded : bytes) : option bytes :=
  match encoded with
  | [] => None
  | _ =>
      let* entry := decode_bytes encoded in
      if bytes_eqb entry dot || bytes_eqb entry dotdot || contains slash entry then None else Some entry
  end.

(* ------------------------------------------------------------------ *)
(** ** [classify_source] *)

(** What the host's filesystem answers. *)
Inductive fs_error := NotFound | OtherFs (message : bytes).
Inductive file_kind := IsDir | IsFile | IsOther.

Definition overlaps (path root : bytes) : bool := path_starts_with path root || path_starts_with root path.

Section classify.
Context (canonicalize : bytes -> result bytes fs_error) (metadata : bytes -> result file_kind fs_error).

Definition fs_defect (expanded : bytes) (e : fs_error) : MountSourceDefect :=
  match e with NotFound => Missing expanded | OtherFs message => Unreadable expanded message end.

Definition classify_source (tag expanded : bytes) (session_roots : list bytes)
    : result ResolvedMount MountSourceDefect :=
  let? _ := guard_err (negb (is_absolute expanded)) (NotAbsolute expanded) in
  let? _ := guard_err (existsb (overlaps expanded) session_roots) (SessionDirectory expanded) in
  let? resolved := map_err (fs_defect expanded) (canonicalize expanded) in
  let? _ := guard_err (existsb (overlaps resolved) session_roots) (SessionDirectory resolved) in
  let? kind := map_err (fs_defect resolved) (metadata resolved) in
  match kind with
  | IsDir => Ok (mk_ResolvedMount tag Dir resolved None)
  | IsOther => Err (NotMountable resolved)
  | IsFile =>
      let? name := ok_or (file_name resolved) (NotMountable resolved) in
      Ok (mk_ResolvedMount tag File resolved (Some (encode_entry name)))
  end.
End classify.

(* ------------------------------------------------------------------ *)
(** ** Lemmas *)

Lemma find_open_Some s before after :
  find_open s = Some (before, after) -> s = before ++ bs "${" ++ after.
Proof.
  revert before. induction s as [|a s IH]; intros before; [done|]. cbn [find_open].
  destruct (strip_prefix (bs "${") (a :: s)) as [rest|] eqn:E.
  - intros [= <- <-]. by apply strip_prefix_Some in E.
  - destruct (find_open s) as [[x y]|]; [|done]. cbn [option_bind].
    intros [= <- <-]. cbn [app]. f_equal. by apply IH.
Qed.

Lemma find_byte_Some c s before after :
  find_byte c s = Some (before, after) <-> s = before ++ c :: after /\ c ∉ before.
Proof.
  revert before. induction s as [|b s IH]; intros before; cbn [find_byte].
  - split; [done|]. intros [H _]. by destruct before.
  - destruct (bool_decide_reflect (b = c)) as [->|Hb].
    + split; [intros [= <- <-]; split; [done|apply not_elem_of_nil]|].
      intros [H Hn]. destruct before as [|x before]; [by injection H as ->|].
      injection H as -> _. exfalso. apply Hn. left.
    + destruct (find_byte c s) as [[x y]|]; cbn [option_bind].
      * split.
        -- intros [= <- <-]. destruct (proj1 (IH x) eq_refl) as [-> Hn].
           split; [done|]. by intros [?|?]%elem_of_cons.
        -- intros [H Hn]. destruct before as [|z before]; [by injection H|].
           injection H as -> H. assert (Some (x, y) = Some (before, after)) as [= -> ->]; [|done].
           apply IH. split; [done|]. intros Hin. apply Hn. by right.
      * split; [done|]. intros [H Hn]. destruct before as [|z before]; [by injection H|].
        injection H as -> H. assert (None = Some (before, after)) as [=].
        apply IH. split; [done|]. intros Hin. apply Hn. by right.
Qed.

Lemma find_byte_None c s : find_byte c s = None <-> c ∉ s.
Proof.
  induction s as [|b s IH]; cbn [find_byte]; [split; [intros _; apply not_elem_of_nil|done]|].
  rewrite not_elem_of_cons, <- IH. destruct (bool_decide_reflect (b = c)) as [->|Hb]; [naive_solver|].
  destruct (find_byte c s) as [[]|]; cbn [option_bind]; naive_solver.
Qed.

(** One more round changes nothing once there are as many as bytes. *)
Lemma expand_fuel_enough fuel fuel' lookup s :
  (length s <= fuel)%nat -> (length s <= fuel')%nat -> expand_fuel fuel lookup s = expand_fuel fuel' lookup s.
Proof.
  revert fuel' s. induction fuel as [|fuel IH]; intros fuel' s Hf Hf'.
  - destruct s; [|simpl in Hf; lia]. by destruct fuel'.
  - destruct (find_open s) as [[before after]|] eqn:E.
    + pose proof (find_open_Some _ _ _ E) as Hs.
      assert (length after < length s)%nat by (rewrite Hs, !length_app; simpl; lia).
      destruct fuel' as [|fuel']; [lia|]. cbn [expand_fuel]. rewrite E.
      destruct (find_byte "}" after) as [[v rest]|] eqn:Eb; [|done].
      apply find_byte_Some in Eb as [Ha _]. assert (length rest < length after)%nat by (rewrite Ha, length_app; simpl; lia).
      by rewrite (IH fuel' rest) by lia.
    + destruct fuel'; cbn [expand_fuel]; by rewrite E.
Qed.

Lemma hex_upper_digit v : 0 <= v < 16 -> is_hex_upper (hex_upper v) = true /\ hex_value (hex_upper v) = v.
Proof.
  intros Hv. unfold hex_upper, is_hex_upper, hex_value, is_ascii_digit.
  destruct (Z.ltb_spec v 10); rewrite !bz_zb by lia; split; lia || (repeat case_match; lia).
Qed.

Lemma percent_not_unreserved : unreserved "%" = false.
Proof. vm_compute. reflexivity. Qed.

Lemma decode_encode_bytes name : decode_bytes (encode_entry name) = Some name.
Proof.
  induction name as [|b name IH]; [done|]. unfold encode_entry in *. cbn [flat_map]. unfold encode_byte at 1.
  destruct (unreserved b) eqn:Eu; cbn [app decode_bytes].
  - rewrite bool_decide_false; [|intros ->; by rewrite percent_not_unreserved in Eu]. by rewrite Eu, IH.
  - pose proof (bz_range b) as Hb. rewrite bool_decide_true by done.
    rewrite Z.shiftr_div_pow2 by lia. change (2 ^ 4) with 16.
    assert (0 <= bz b / 16 < 16) as H1 by (split; [apply Z.div_pos; lia|apply Z.div_lt_upper_bound; lia]).
    pose proof (Z.mod_pos_bound (bz b) 16 ltac:(lia)) as H2.
    destruct (hex_upper_digit _ H1) as [-> ->]. destruct (hex_upper_digit _ H2) as [-> ->].
    cbn [andb]. rewrite IH. cbn [option_bind]. f_equal. f_equal.
    replace (bz b / 16 * 16 + bz b mod 16) with (bz b) by (pose proof (Z.div_mod (bz b) 16); lia).
    apply zb_bz.
Qed.

(** * Mounts: what a declared mount source becomes. *)

(** ** References *)

(** A declared source, cut into literal text and references. *)
Inductive segment := Lit (text : bytes) | Ref (variable : bytes).
Definition segment_text (s : segment) : bytes :=
  match s with Lit text => text | Ref v => bs "${" ++ v ++ bs "}" end.
Definition segment_ok (s : segment) : Prop :=
  match s with Lit text => "$"%byte ∉ text | Ref v => is_variable v = true end.
Definition segment_value (lookup : bytes -> option bytes) (s : segment) : result bytes MountSourceDefect :=
  match s with Lit text => Ok text | Ref v => ok_or (lookup v) (UnsetVariable v) end.

Lemma find_open_lit text rest :
  "$"%byte ∉ text -> find_open (text ++ rest) = option_map (fun '(a, b) => (text ++ a, b)) (find_open rest).
Proof.
  induction text as [|b text IH]; intros Hn; [cbn [app]; by destruct (find_open rest) as [[]|]|].
  apply not_elem_of_cons in Hn as [Hb Hn]. cbn [app find_open].
  destruct (strip_prefix (bs "${") (b :: text ++ rest)) as [r|] eqn:E.
  - apply strip_prefix_Some in E. injection E as E _. by destruct Hb.
  - rewrite IH by done. by destruct (find_open rest) as [[]|].
Qed.

Lemma find_open_ref rest : find_open (bs "${" ++ rest) = Some ([], rest).
Proof. cbn. by destruct rest. Qed.

Lemma variable_no_brace v : is_variable v = true -> "}"%byte ∉ v.
Proof.
  intros [_ Hv]%andb_true_iff Hin. rewrite forallb_forall in Hv. by apply list_elem_of_In, Hv in Hin.
Qed.

Lemma find_byte_app c a b : c ∉ a -> find_byte c (a ++ c :: b) = Some (a, b).
Proof. intros. by apply find_byte_Some. Qed.

Lemma expand_segments fuel lookup segs :
  Forall segment_ok segs -> (length (concat (map segment_text segs)) <= fuel)%nat ->
  expand_fuel fuel lookup (concat (map segment_text segs)) =
  (let? parts := collect_results (segment_value lookup) segs in Ok (concat parts)).
Proof.
  revert fuel. induction segs as [|s segs IH]; intros fuel Hok Hf; [by destruct fuel|].
  apply Forall_cons in Hok as [Hs Hok]. cbn [map concat collect_results]. destruct s as [text|v].
  - cbn [segment_text segment_value rbind]. cbn [segment_ok] in Hs. cbn [map concat segment_text] in Hf.
    rewrite length_app in Hf. set (rest := concat (map segment_text segs)) in *.
    specialize (IH fuel Hok ltac:(lia)).
    assert (expand_fuel fuel lookup (text ++ rest) =
      let? tail := expand_fuel fuel lookup rest in Ok (text ++ tail)) as ->.
    { destruct fuel as [|fuel]; cbn [expand_fuel]; rewrite find_open_lit by done;
        destruct (find_open rest) as [[before after]|]; cbn [option_map]; try done.
      destruct (find_byte "}" after) as [[v rest']|]; [|done].
      destruct (is_variable v); [destruct (lookup v) as [value|]; [|done]|];
        destruct (expand_fuel fuel lookup rest'); cbn [rbind]; try done; by rewrite <- app_assoc. }
    rewrite IH. by destruct (collect_results _ segs).
  - cbn [segment_text segment_value segment_ok] in *. cbn [map concat segment_text] in Hf.
    set (rest := concat (map segment_text segs)) in *.
    assert ((bs "${" ++ v ++ bs "}") ++ rest = bs "${" ++ v ++ "}"%byte :: rest) as E by (by rewrite <- !app_assoc).
    rewrite E in *. rewrite !length_app in Hf. cbn [length] in Hf.
    destruct fuel as [|fuel]; [lia|]. cbn [expand_fuel]. rewrite find_open_ref, find_byte_app
      by (by apply variable_no_brace). rewrite Hs.
    destruct (lookup v) as [value|]; [|done]. cbn [ok_or rbind app].
    rewrite IH by (done || lia). by destruct (collect_results _ segs).
Qed.

(** Expansion replaces exactly the braced references: literal text is kept, each
    [${NAME}] becomes its host value, and the first unset one refuses the source by name. *)
Theorem expand_source_references lookup segs :
  Forall segment_ok segs ->
  expand_source (concat (map segment_text segs)) lookup =
  (let? parts := collect_results (segment_value lookup) segs in Ok (concat parts)).
Proof. intros Hok. by apply expand_segments. Qed.

(* ------------------------------------------------------------------ *)
(** ** The entry of a file mount *)

Lemma encode_entry_nonempty name : name <> [] -> encode_entry name <> [].
Proof.
  destruct name as [|b name]; [done|]. intros _. unfold encode_entry. cbn [flat_map]. unfold encode_byte.
  by destruct (unreserved b).
Qed.

Lemma entry_decodes name :
  plain_name name -> guest_decode_entry (encode_entry name) = Some name.
Proof.
  intros (Hne & Hdot & Hdotdot & Hslash). unfold guest_decode_entry.
  destruct (encode_entry name) as [|b e] eqn:E; [by apply encode_entry_nonempty in E|]. rewrite <- E.
  rewrite decode_encode_bytes. cbn [option_bind].
  assert (bytes_eqb name dot = false) as -> by (by apply bool_decide_eq_false).
  assert (bytes_eqb name dotdot = false) as -> by (by apply bool_decide_eq_false).
  apply contains_false in Hslash as ->. done.
Qed.

(** The entry a file mount carries survives its way to the guest: for every file name the
    guest's allowlist accepts the encoded form and decodes it to the same bytes. *)
Theorem entry_round_trip name :
  plain_name name -> guest_decode_entry (encode_entry name) = Some name.
Proof. apply entry_decodes. Qed.

(* ------------------------------------------------------------------ *)
(** ** Classification *)

Lemma file_name_plain p name : file_name p = Some name -> plain_name name.
Proof.
  unfold file_name. destruct (last (components p)) as [c|] eqn:E; [|done]. destruct c as [| | |n]; try done.
  intros [= ->]. apply last_Some in E as [l E].
  assert (Normal name ∈ components p) as Hin by (rewrite E; apply elem_of_app; right; by apply list_elem_of_singleton).
  unfold components in Hin. apply elem_of_app in Hin as [Hin|Hin].
  - destruct (is_absolute p); [apply list_elem_of_singleton in Hin; done|].
    destruct (split_on slash p) as [|q ps]; [by apply not_elem_of_nil in Hin|].
    destruct (bool_decide (q = dot)); [apply list_elem_of_singleton in Hin; done|by apply not_elem_of_nil in Hin].
  - apply list_elem_of_omap in Hin as (q & Hq & Hpc). unfold piece_component in Hpc.
    destruct (bool_decide_reflect (q = [])); [done|]. destruct (bool_decide_reflect (q = dot)); [done|].
    destruct (bool_decide_reflect (q = dotdot)); [done|]. injection Hpc as <-. split_and!; try done.
    pose proof (split_on_no_sep slash p) as Hf. by rewrite Forall_forall in Hf; apply Hf.
Qed.

Lemma no_overlap path roots :
  existsb (overlaps path) roots = false <->
  Forall (fun root => path_starts_with path root = false /\ path_starts_with root path = false) roots.
Proof.
  induction roots as [|r roots IH]; cbn [existsb]; [by split|].
  rewrite Forall_cons, <- IH, orb_false_iff. unfold overlaps at 1. by rewrite orb_false_iff.
Qed.

(** What is served is what was checked: an accepted source is the host's own resolution of
    an absolute path, a directory served whole or a regular file under the encoded form of its
    own name, and neither the declared spelling nor the resolved path touches a session
    directory, in either direction. *)
Theorem classify_source_sound canonicalize metadata tag expanded roots m :
  classify_source canonicalize metadata tag expanded roots = Ok m ->
  is_absolute expanded = true /\ canonicalize expanded = Ok (rm_share_source m) /\ rm_tag m = tag /\
  Forall (fun p => Forall (fun root => path_starts_with p root = false /\ path_starts_with root p = false) roots)
    [expanded; rm_share_source m] /\
  match rm_kind m with
  | Dir => metadata (rm_share_source m) = Ok IsDir /\ rm_entry m = None
  | File => metadata (rm_share_source m) = Ok IsFile /\ exists name entry,
      file_name (rm_share_source m) = Some name /\ rm_entry m = Some entry /\ guest_decode_entry entry = Some name
  | Tree => False
  end.
Proof.
  unfold classify_source. intros H. inv_ok.
  match goal with Hc : canonicalize expanded = Ok ?r |- _ => rename r into resolved; rename Hc into Hcan end.
  match goal with Hm : metadata resolved = Ok ?k |- _ => rename k into kind; rename Hm into Hmeta end.
  match goal with Ha : negb _ = false |- _ => apply negb_false_iff in Ha; rename Ha into Habs end.
  repeat match goal with Ho : existsb _ _ = false |- _ => apply no_overlap in Ho end.
  destruct kind; inv_ok; cbn [rm_share_source rm_tag rm_kind rm_entry]; split_and!; try done;
    try by repeat constructor.
  match goal with Hn : file_name resolved = Some ?n |- _ => exists n, (encode_entry n); split_and!; try done;
    by apply entry_decodes, (file_name_plain resolved) end.
Qed.

(* ------------------------------------------------------------------ *)
(** ** Witnesses *)

Definition demo_env (name : bytes) : option bytes :=
  if bytes_eqb name (bs "HOME") then Some (bs "/home/u") else None.
Lemma expand_source_references_witness :
  expand_source (bs "${HOME}/work") demo_env = Ok (bs "/home/u/work").
Proof.
  refine (eq_trans (expand_source_references demo_env [Ref (bs "HOME"); Lit (bs "/work")] _) _).
  - constructor; [reflexivity|]. constructor; [|constructor].
    change ("$"%byte ∉ bs "/work"). apply contains_false. vm_compute. reflexivity.
  - vm_compute. reflexivity.
Defined.

Lemma entry_round_trip_witness : guest_decode_entry (bs "a%20b%25.txt") = Some (bs "a b%.txt").
Proof.
  apply (entry_round_trip (bs "a b%.txt")). split_and!; try discriminate.
  apply contains_false. vm_compute. reflexivity.
Defined.

Definition demo_canonicalize (p : bytes) : result bytes fs_error :=
  if bytes_eqb p (bs "/data/link") then Ok (bs "/data/real file") else Err NotFound.
Definition demo_metadata (p : bytes) : result file_kind fs_error := Ok IsFile.
Lemma classify_source_sound_witness :
  classify_source demo_canonicalize demo_metadata (bs "mnt0") (bs "/data/link") [bs "/tmp"]
  = Ok (mk_ResolvedMount (bs "mnt0") File (bs "/data/real file") (Some (bs "real%20file"))) /\
  demo_canonicalize (bs "/data/link") = Ok (bs "/data/real file").
Proof.
  split; [vm_compute; reflexivity|].
  exact (proj1 (proj2 (classify_source_sound demo_canonicalize demo_metadata (bs "mnt0") (bs "/data/link") [bs "/tmp"]
    (mk_ResolvedMount (bs "mnt0") File (bs "/data/real file") (Some (bs "real%20file"))) ltac:(vm_compute; reflexivity)))).
Defined.
