(* ===== verification/Launch.v ===== *)
(** * Launch: what the launch files share ([src/src/launch/error.rs], [src/src/launch/command.rs]). *)
From S2P Require Import Prelude Bytes Mounts.

(** [LaunchError].  The source of an I/O fault is what the file system or the process table answered. *)
Inductive LaunchError :=
| InvalidSpec (what : bytes)
| SchemaSkew (record current : Z)
| InvalidRuntimePath (what : bytes)
| Policy (what : bytes)
| Io (operation : bytes) (source : fs_error)
| Readiness (what : bytes)
| ChildExit (kind : bytes) (status : option Z)
| Cancelled
| UnknownRuntimeArtifact (path : bytes)
| Task.

(** [CommandSpec]: a program and its arguments, never a shell line. *)
Record CommandSpec := mk_CommandSpec { program : bytes; args : list bytes }.
Definition rendered (c : CommandSpec) : list bytes := program c :: args c.
#[export] Instance CommandSpec_eq_dec : EqDecision CommandSpec.
Proof. solve_decision. Defined.
