(* ===== verification/Process.v ===== *)
(** * Process: the guest process (src/src/bin/vivarium-guest-agent/process.rs).

    Which program a session request names, the environment it gets, the signals it may be
    sent and the status byte its end is reported with.  Spawning itself is the kernel's. *)
From S2P Require Import Prelude Bytes Paths Message Frame.

Inductive ProcessError := InvalidRequest | P_Io | P_Pty | P_Signal.

(** (program, arguments, arg0) *)
Definition program_spec : Type := (bytes * list bytes * option bytes)%type.

(** [resolve_program]; [passwd] is what reading /etc/passwd answers, [uid] is [getuid]. *)
Definition resolve_program (passwd : result bytes io_error) (uid : Z) (request : StartRequest)
    : result program_spec ProcessError :=
  match mode request with
  | Exec =>
      match argv request with
      | [] => Err InvalidRequest
      | program :: arguments =>
          if is_empty program then Err InvalidRequest else Ok (program, arguments, None)
      end
  | Shell =>
      let? passwd := map_err (fun _ => P_Io) passwd in
      let prefix := bs "vivarium:x:" ++ dec uid ++ bs ":" in
      let? line := ok_or (find (starts_with prefix) (split_on x0a passwd)) InvalidRequest in
      let? shell := ok_or (split_on ":" line !! 6%nat) InvalidRequest in
      let? _ := guard_err (is_empty shell) InvalidRequest in
      let? name := ok_or (file_name shell) InvalidRequest in
      Ok (shell, [], Some ("-"%byte :: name))
  end.

(** [apply_environment]: the cleared environment, the request's variables in order, and the
    agent socket when the ssh channel is declared; with the working directory. *)
Definition apply_environment (request : StartRequest) (credentials : list CredentialId)
    : gmap bytes bytes * bytes :=
  let env := fold_left (fun env v => <[ev_name v := ev_value v]> env) (environment request) ∅ in
  (if bool_decide (Ssh ∈ credentials) then <[bs "SSH_AUTH_SOCK" := guest_socket Ssh]> env else env,
   cwd request).

(** [std::process::ExitStatus] as its two accessors answer it. *)
Record WaitStatus := mk_WaitStatus { ws_signal : option Z; ws_code : option Z }.

Definition u16_max : Z := 65535.
Definition u16_try_from (z : Z) : option Z := if (0 <=? z) && (z <=? u16_max) then Some z else None.
Definition u16_saturating_add (a b : Z) : Z := Z.min u16_max (a + b).
Definition u8_try_from (z : Z) : option Z := if (0 <=? z) && (z <=? 255) then Some z else None.

(** [normalized_status]: the guest's own code, or 128 + the killing signal. *)
Definition normalized_status (status : WaitStatus) : Z :=
  match ws_signal status with
  | None => match ws_code status with None => 255 | Some code => code mod 256 end
  | Some signal =>
      default 255 (u8_try_from (Z.min (u16_saturating_add 128 (default u16_max (u16_try_from signal))) 255))
  end.

(** The signal names of rustix and [kill(2)] on the process group. *)
Section signals.
Context (from_named_raw : Z -> option Z) (kill_process_group : Z -> result unit io_error).

(** [signal_group]: the delivered signal is recorded only when one was sent. *)
Definition signal_group (raw : Z) : result Z ProcessError :=
  let? signal := ok_or (from_named_raw raw) P_Signal in
  let? _ := map_err (fun _ => P_Io) (kill_process_group signal) in
  Ok signal.
End signals.

Definition SIGTERM : Z := 15.
Definition SIGKILL : Z := 9.

(* ------------------------------------------------------------------ *)
(** ** Lemmas *)

Lemma normalized_status_code c :
  normalized_status (mk_WaitStatus None (Some c)) = c mod 256.
Proof. done. Qed.

Lemma normalized_status_range s : 0 <= normalized_status s <= 255.
Proof.
  unfold normalized_status. destruct (ws_signal s) as [g|].
  - unfold u8_try_from. case_match; simpl; lia.
  - destruct (ws_code s) as [c|]; [|lia]. pose proof (Z.mod_pos_bound c 256). lia.
Qed.

(** The environment a later declaration of the same name wins in. *)
Lemma fold_insert_lookup (l : list EnvironmentVariable) (m : gmap bytes bytes) n :
  fold_left (fun env v => <[ev_name v := ev_value v]> env) l m !! n =
  match last (filter (fun v => ev_name v = n) l) with Some v => Some (ev_value v) | None => m !! n end.
Proof.
  revert m. induction l as [|v l IH]; intros m; [done|]. simpl fold_left. rewrite IH.
  rewrite filter_cons. destruct (decide (ev_name v = n)) as [<-|Hn].
  - rewrite last_cons. destruct (last _); [done|]. by rewrite lookup_insert_eq.
  - destruct (last _); [done|]. by rewrite lookup_insert_ne.
Qed.

(* ------------------------------------------------------------------ *)
(** ** Properties *)

(** The reported status is a byte; a guest killed by a signal reports 128 plus the signal,
    saturating at 255 (also for a signal number no [u16] holds), an exit code reports its low
    byte, and a status that is neither reports 255. *)
Theorem normalized_status_spec s :
  0 <= normalized_status s <= 255 /\
  normalized_status s =
    match ws_signal s, ws_code s with
    | Some g, _ => if (0 <=? g) && (g <=? 127) then 128 + g else 255
    | None, Some c => c mod 256
    | None, None => 255
    end.
Proof.
  split; [apply normalized_status_range|]. unfold normalized_status.
  destruct (ws_signal s) as [g|]; [|done].
  unfold u8_try_from, u16_saturating_add, u16_try_from, u16_max.
  destruct ((0 <=? g) && (g <=? 65535)) eqn:E; cbn [from_option id];
    destruct ((0 <=? g) && (g <=? 127)) eqn:E2; case_match; cbn [from_option id]; lia.
Qed.

(** A session's process sees exactly the request's variables (the last one of a repeated
    name) and, when the ssh channel is declared, the guest agent socket, which no request
    variable can displace. *)
Theorem apply_environment_spec request credentials n :
  fst (apply_environment request credentials) !! n =
  if bool_decide (Ssh ∈ credentials) && bytes_eqb n (bs "SSH_AUTH_SOCK")
  then Some (guest_socket Ssh)
  else ev_value <$> last (filter (fun v => ev_name v = n) (environment request)).
Proof.
  unfold apply_environment. simpl fst. case_bool_decide; cbn [andb].
  - rewrite lookup_insert. unfold bytes_eqb. destruct (decide (bs "SSH_AUTH_SOCK" = n)) as [<-|Hn].
    + by rewrite bool_decide_eq_true_2.
    + rewrite bool_decide_eq_false_2 by congruence. rewrite fold_insert_lookup.
      by destruct (last _).
  - rewrite fold_insert_lookup. by destruct (last _).
Qed.
