(* ===== verification/Session.v ===== *)
(** * Session: one guest session (src/src/bin/vivarium-guest-agent/session.rs).

    The [select!] loops are run against a schedule: which branch wins, and what the kernel
    answers to it.  [tokio::select!] drops the futures of the branches that lose, and
    [read_client_frame] is one of them, so an event of another branch says how many bytes of
    an unfinished frame its dropped read had already taken off the stream ([lost]). *)
From S2P Require Import Prelude Bytes Message Frame Process.

Definition SPAWN : bytes := bs "spawn".
(** The 16 KiB buffer every pipe read is made into. *)
Definition PIPE_BUFFER : nat := 16 * 1024.

Section session.
Context {W : WireCodec} (from_named_raw : Z -> option Z).

(** The connection toward the host: the bytes, and the frames they are. *)
Record conn := mk_conn { c_out : writer; c_log : list AgentFrame }.
Definition send (f : AgentFrame) : sem conn FrameError unit := fun c =>
  let '(r, w) := write_agent_frame f (c_out c) in
  (r, mk_conn w (match r with Ok _ => c_log c ++ [f] | Err _ => c_log c end)).

(** What the kernel answers to the call a frame leads to, and whether the process group
    ends within [DISCONNECT_GRACE] of its SIGTERM. *)
Record os_answer := mk_os { os_io : result unit io_error; os_term_in_time : bool }.

Inductive control (S : Type) :=
| Continue (s : S)
| Return (r : result unit FrameError) (s : S).
Arguments Continue {S} s.
Arguments Return {S} r s.

(** [process_error]. *)
Definition process_error (_ : ProcessError) : FrameError := Io OtherIo.

(** Continue the loop after a send, or leave it with the send's error. *)
Definition after_send {S} (m : result unit FrameError * conn) (k : conn -> S) : control S :=
  match m with (Ok _, c) => Continue (k c) | (Err e, c) => Return (Err e) (k c) end.

(** [end_session]: the signals the process group is sent. *)
Definition end_session (os : os_answer) : list Z :=
  if os_term_in_time os then [SIGTERM] else [SIGTERM; SIGKILL].

(** A pipe of the child: what it holds and will hold, and how it ends.  A ready read takes
    at least one byte and at most a buffer. *)
Definition read_pipe (k : nat) : sem reader io_error bytes := fun p =>
  match rd_bytes p with
  | [] => match rd_end p with None => (Ok [], p) | Some e => (Err e, p) end
  | b => let n := Nat.max 1 (Nat.min k PIPE_BUFFER) in
         (Ok (take n b), mk_reader (drop n b) (rd_end p))
  end.

(** The bytes a dropped frame read may have taken: never a whole frame. *)
Definition partial_read (lost : nat) (r : reader) : bool :=
  (lost <=? length (rd_bytes r))%nat &&
  match fst (read_client_frame (mk_reader (take lost (rd_bytes r)) None)) with
  | Err Truncated => true
  | Err Eof => true
  | _ => false
  end.
Definition lose (lost : nat) (r : reader) : reader := mk_reader (drop lost (rd_bytes r)) (rd_end r).

(* ------------------------------------------------------------------ *)
(** ** [run_non_pty] *)

Record nonpty := mk_nonpty {
  np_in : reader;          (* the client's half of the connection *)
  np_conn : conn;
  np_out : reader;         (* the child's standard output pipe *)
  np_err : reader;
  np_stdin : bool;         (* process.stdin is Some *)
  np_written : bytes;      (* what was written into it *)
  np_out_open : bool;
  np_err_open : bool;
  np_input_ended : bool;
  np_signals : list Z }.

Inductive event :=
| FrameReady (os : os_answer)
| StdoutReady (lost k : nat)
| StderrReady (lost k : nat)
| ChildExited (lost : nat) (r : result WaitStatus io_error) (drain : list (bool * nat)).

Definition event_ok (e : event) (s : nonpty) : bool :=
  match e with
  | FrameReady _ => true
  | StdoutReady lost _ => np_out_open s && partial_read lost (np_in s)
  | StderrReady lost _ => np_err_open s && partial_read lost (np_in s)
  | ChildExited lost _ _ => partial_read lost (np_in s)
  end.

Definition with_in (i : reader) (s : nonpty) : nonpty :=
  mk_nonpty i (np_conn s) (np_out s) (np_err s) (np_stdin s) (np_written s) (np_out_open s)
    (np_err_open s) (np_input_ended s) (np_signals s).
Definition with_stdin (open : bool) (written : bytes) (ended : bool) (s : nonpty) : nonpty :=
  mk_nonpty (np_in s) (np_conn s) (np_out s) (np_err s) open written (np_out_open s)
    (np_err_open s) ended (np_signals s).
Definition with_signals (g : list Z) (s : nonpty) : nonpty :=
  mk_nonpty (np_in s) (np_conn s) (np_out s) (np_err s) (np_stdin s) (np_written s) (np_out_open s)
    (np_err_open s) (np_input_ended s) (np_signals s ++ g).
Definition with_out (c : conn) (p : reader) (open : bool) (s : nonpty) : nonpty :=
  mk_nonpty (np_in s) c p (np_err s) (np_stdin s) (np_written s) open (np_err_open s)
    (np_input_ended s) (np_signals s).
Definition with_err (c : conn) (p : reader) (open : bool) (s : nonpty) : nonpty :=
  mk_nonpty (np_in s) c (np_out s) p (np_stdin s) (np_written s) (np_out_open s) open
    (np_input_ended s) (np_signals s).

(** The [read_client_frame] branch. *)
Definition on_client_frame (os : os_answer) (s : nonpty) : control nonpty :=
  let '(r, i) := read_client_frame (np_in s) in
  let s := with_in i s in
  match r with
  | Ok (C_Stdin data) =>
      if np_input_ended s then Return (Err MalformedControl) s
      else if np_stdin s then
        match os_io os with
        | Ok _ => Continue (with_stdin true (np_written s ++ data) false s)
        | Err e => Return (Err (Io e)) s
        end
      else Continue s
  | Ok C_StdinEnd =>
      if np_input_ended s then Return (Err MalformedControl) s
      else Continue (with_stdin false (np_written s) true s)
  | Ok (C_Signal request) =>
      match signal_group from_named_raw (fun _ => os_io os) (signal request) with
      | Ok g => Continue (with_signals [g] s)
      | Err e => Return (Err (process_error e)) s
      end
  | Ok _ => Return (Err MalformedControl) s
  | Err Eof | Err Truncated =>
      Return (Err Eof) (with_signals (end_session os)
        (with_stdin false (np_written s) (np_input_ended s) s))
  | Err error => Return (Err error) s
  end.

(** The two pipe branches. *)
Definition on_stdout (k : nat) (s : nonpty) : control nonpty :=
  match read_pipe k (np_out s) with
  | (Err e, p) => Return (Err (Io e)) (with_out (np_conn s) p (np_out_open s) s)
  | (Ok [], p) => Continue (with_out (np_conn s) p false s)
  | (Ok data, p) => after_send (send (A_Stdout data) (np_conn s)) (fun c => with_out c p true s)
  end.
Definition on_stderr (k : nat) (s : nonpty) : control nonpty :=
  match read_pipe k (np_err s) with
  | (Err e, p) => Return (Err (Io e)) (with_err (np_conn s) p (np_err_open s) s)
  | (Ok [], p) => Continue (with_err (np_conn s) p false s)
  | (Ok data, p) => after_send (send (A_Stderr data) (np_conn s)) (fun c => with_err c p true s)
  end.

(** [drain_pipes]: the reads that win before the deadline; the list ends when the deadline
    passes, and the loop ends when both pipes are closed.  A closed pipe is not read. *)
Fixpoint drain_pipes (reads : list (bool * nat)) (s : nonpty) : control nonpty :=
  match reads with
  | [] => Continue s
  | (is_stdout, k) :: reads' =>
      if np_out_open s || np_err_open s then
        let step :=
          if is_stdout then if np_out_open s then on_stdout k s else Continue s
          else if np_err_open s then on_stderr k s else Continue s in
        match step with
        | Continue s' => drain_pipes reads' s'
        | r => r
        end
      else Continue s
  end.

(** The [child.wait()] branch: drain, then the single [Exit]. *)
Definition on_exit (r : result WaitStatus io_error) (reads : list (bool * nat)) (s : nonpty)
    : control nonpty :=
  match r with
  | Err e => Return (Err (Io e)) s
  | Ok st =>
      match drain_pipes reads s with
      | Continue s =>
          let '(res, c) := send (A_Exit (mk_ExitStatus (normalized_status st))) (np_conn s) in
          Return res (with_out c (np_out s) (np_out_open s) s)
      | r => r
      end
  end.

Definition handle_event (e : event) (s : nonpty) : control nonpty :=
  match e with
  | FrameReady os => on_client_frame os s
  | StdoutReady lost k => on_stdout k (with_in (lose lost (np_in s)) s)
  | StderrReady lost k => on_stderr k (with_in (lose lost (np_in s)) s)
  | ChildExited lost r reads => on_exit r reads (with_in (lose lost (np_in s)) s)
  end.

(** The loop over a schedule; [None] for a schedule [select!] cannot follow. *)
Fixpoint run_non_pty (events : list event) (s : nonpty) : option (control nonpty) :=
  match events with
  | [] => Some (Continue s)
  | e :: events' =>
      if event_ok e s then
        match handle_event e s with
        | Continue s' => run_non_pty events' s'
        | r => Some r
        end
      else None
  end.

(** The state the loop starts in, right after the spawn. *)
Definition nonpty_start (i : reader) (c : conn) (out err : reader) : nonpty :=
  mk_nonpty i c out err true [] true true false [].

(* ------------------------------------------------------------------ *)
(** ** [run_pty] *)

(** The terminal's master side: what it holds and will hold, and how its reads end.  [EIO]
    (raw error 5) is what a terminal whose other side closed answers. *)
Inductive tty_end := TtyEof | TtyEio | TtyError (e : io_error).
Record terminal := mk_terminal { tm_bytes : bytes; tm_end : tty_end }.
Inductive tty_read := Got (data : bytes) | Closed | Failed (e : io_error).
Definition read_terminal (k : nat) (t : terminal) : tty_read * terminal :=
  match tm_bytes t with
  | [] => (match tm_end t with TtyEof | TtyEio => Closed | TtyError e => Failed e end, t)
  | b => let n := Nat.max 1 (Nat.min k PIPE_BUFFER) in
         (Got (take n b), mk_terminal (drop n b) (tm_end t))
  end.

Record pty_session := mk_pty {
  pt_in : reader;
  pt_conn : conn;
  pt_reader : terminal;
  pt_writer : bool;                 (* process.writer is Some *)
  pt_written : bytes;
  pt_size : option TerminalSize;    (* the size the terminal was last given *)
  pt_input_ended : bool;
  pt_output_open : bool;
  pt_signals : list Z }.

Inductive pty_event :=
| PtyFrame (os : os_answer)
| PtyOutput (lost k : nat)
| PtyExited (lost : nat) (r : result WaitStatus io_error) (drain : list nat).

Definition pty_event_ok (e : pty_event) (s : pty_session) : bool :=
  match e with
  | PtyFrame _ => true
  | PtyOutput lost _ => pt_output_open s && partial_read lost (pt_in s)
  | PtyExited lost _ _ => partial_read lost (pt_in s)
  end.

Definition pty_with_in (i : reader) (s : pty_session) : pty_session :=
  mk_pty i (pt_conn s) (pt_reader s) (pt_writer s) (pt_written s) (pt_size s) (pt_input_ended s)
    (pt_output_open s) (pt_signals s).
Definition pty_with_writer (open : bool) (written : bytes) (ended : bool) (s : pty_session) : pty_session :=
  mk_pty (pt_in s) (pt_conn s) (pt_reader s) open written (pt_size s) ended
    (pt_output_open s) (pt_signals s).
Definition pty_with_size (size : TerminalSize) (s : pty_session) : pty_session :=
  mk_pty (pt_in s) (pt_conn s) (pt_reader s) (pt_writer s) (pt_written s) (Some size)
    (pt_input_ended s) (pt_output_open s) (pt_signals s).
Definition pty_with_signals (g : list Z) (s : pty_session) : pty_session :=
  mk_pty (pt_in s) (pt_conn s) (pt_reader s) (pt_writer s) (pt_written s) (pt_size s)
    (pt_input_ended s) (pt_output_open s) (pt_signals s ++ g).
Definition pty_with_output (c : conn) (t : terminal) (open : bool) (s : pty_session) : pty_session :=
  mk_pty (pt_in s) c t (pt_writer s) (pt_written s) (pt_size s) (pt_input_ended s) open (pt_signals s).

(** [resize] on the terminal's writer; the ioctl's answer is the kernel's. *)
Definition resize (os : os_answer) (size : TerminalSize) (s : pty_session) : control pty_session :=
  if pt_writer s then
    match os_io os with
    | Ok _ => Continue (pty_with_size size s)
    | Err _ => Return (Err (process_error P_Pty)) s
    end
  else Continue s.

Definition on_pty_frame (os : os_answer) (s : pty_session) : control pty_session :=
  let '(r, i) := read_client_frame (pt_in s) in
  let s := pty_with_in i s in
  match r with
  | Ok (C_Stdin data) =>
      if pt_input_ended s then Return (Err MalformedControl) s
      else if pt_writer s then
        match os_io os with
        | Ok _ => Continue (pty_with_writer true (pt_written s ++ data) false s)
        | Err e => Return (Err (Io e)) s
        end
      else Continue s
  | Ok C_StdinEnd =>
      if pt_input_ended s then Return (Err MalformedControl) s
      else Continue (pty_with_writer false (pt_written s) true s)
  | Ok (C_Resize size) => resize os size s
  | Ok (C_Signal request) =>
      match signal_group from_named_raw (fun _ => os_io os) (signal request) with
      | Ok g => Continue (pty_with_signals [g] s)
      | Err e => Return (Err (process_error e)) s
      end
  | Ok _ => Return (Err MalformedControl) s
  | Err Eof | Err Truncated =>
      Return (Err Eof) (pty_with_signals (end_session os)
        (pty_with_writer false (pt_written s) (pt_input_ended s) s))
  | Err error => Return (Err error) s
  end.

Definition on_output (k : nat) (s : pty_session) : control pty_session :=
  match read_terminal k (pt_reader s) with
  | (Closed, t) => Continue (pty_with_output (pt_conn s) t false s)
  | (Got data, t) =>
      after_send (send (A_Stdout data) (pt_conn s)) (fun c => pty_with_output c t (pt_output_open s) s)
  | (Failed e, t) => Return (Err (Io e)) (pty_with_output (pt_conn s) t (pt_output_open s) s)
  end.

(** [drain_terminal]: the reads that win before the deadline. *)
Fixpoint drain_terminal (reads : list nat) (s : pty_session) : control pty_session :=
  match reads with
  | [] => Continue s
  | k :: reads' =>
      match read_terminal k (pt_reader s) with
      | (Closed, t) => Continue (pty_with_output (pt_conn s) t (pt_output_open s) s)
      | (Failed e, t) => Return (Err (Io e)) (pty_with_output (pt_conn s) t (pt_output_open s) s)
      | (Got data, t) =>
          match send (A_Stdout data) (pt_conn s) with
          | (Ok _, c) => drain_terminal reads' (pty_with_output c t (pt_output_open s) s)
          | (Err e, c) => Return (Err e) (pty_with_output c t (pt_output_open s) s)
          end
      end
  end.

Definition on_pty_exit (r : result WaitStatus io_error) (reads : list nat) (s : pty_session) : control pty_session :=
  match r with
  | Err e => Return (Err (Io e)) s
  | Ok st =>
      match (if pt_output_open s then drain_terminal reads s else Continue s) with
      | Continue s =>
          let '(res, c) := send (A_Exit (mk_ExitStatus (normalized_status st))) (pt_conn s) in
          Return res (pty_with_output c (pt_reader s) (pt_output_open s) s)
      | r => r
      end
  end.

Definition handle_pty_event (e : pty_event) (s : pty_session) : control pty_session :=
  match e with
  | PtyFrame os => on_pty_frame os s
  | PtyOutput lost k => on_output k (pty_with_in (lose lost (pt_in s)) s)
  | PtyExited lost r reads => on_pty_exit r reads (pty_with_in (lose lost (pt_in s)) s)
  end.

Fixpoint pty_loop (events : list pty_event) (s : pty_session) : option (control pty_session) :=
  match events with
  | [] => Some (Continue s)
  | e :: events' =>
      if pty_event_ok e s then
        match handle_pty_event e s with
        | Continue s' => pty_loop events' s'
        | r => Some r
        end
      else None
  end.

(** The state right after [spawn_pty], which already gave the terminal the initial size. *)
Definition pty_start (i : reader) (c : conn) (t : terminal) (initial_size : option TerminalSize) : pty_session :=
  mk_pty i c t true [] initial_size false true [].

(** [run_pty]: the size is set once more, then the loop. *)
Definition run_pty (initial_size : option TerminalSize) (os : os_answer) (events : list pty_event)
    (s : pty_session) : option (control pty_session) :=
  match initial_size with
  | Some size =>
      match resize os size s with
      | Continue s' => pty_loop events s'
      | r => Some r
      end
  | None => pty_loop events s
  end.

(* ------------------------------------------------------------------ *)
(** ** [run] *)

(** [spawn_failed]: one [Error], and the session's own failure. *)
Definition spawn_failed : sem conn FrameError unit :=
  send (A_Error (mk_ProtocolErrorMessage SPAWN)) ;;
  sfail (process_error InvalidRequest).

(** What a spawn gives and the schedule its session then follows. *)
Inductive spawned :=
| SpawnedPty (t : terminal) (os : os_answer) (events : list pty_event)
| SpawnedNonPty (out err : reader) (events : list event).

(** [run]: spawn, then the loop of the request's kind.  [spawn pty] is what spawning such a
    process answers.  The connection and the client's half are handed back; [None] when the
    session did not end on the given schedule. *)
Definition run (spawn : bool -> result spawned ProcessError) (request : StartRequest)
    (initial_size : option TerminalSize) (i : reader) (c : conn)
    : option (result unit FrameError * reader * conn) :=
  match spawn (pty request) with
  | Err _ => let '(r, c) := spawn_failed c in Some (r, i, c)
  | Ok (SpawnedPty t os events) =>
      match run_pty initial_size os events (pty_start i c t initial_size) with
      | Some (Return r s) => Some (r, pt_in s, pt_conn s)
      | _ => None
      end
  | Ok (SpawnedNonPty out err events) =>
      match run_non_pty events (nonpty_start i c out err) with
      | Some (Return r s) => Some (r, np_in s, np_conn s)
      | _ => None
      end
  end.
End session.
