(* ===== verification/SessionSpec.v ===== *)
(** * SessionSpec: what a session without a terminal promises. *)
From S2P Require Import Prelude Bytes Message Frame DemoCodec Process Session.

Arguments Continue {S} s.
Arguments Return {S} r s.

Section spec.
Context {W : WireCodec} (from_named_raw : Z -> option Z).

Definition is_stream (f : AgentFrame) : Prop :=
  match f with A_Stdout _ | A_Stderr _ => True | _ => False end.
Definition stdout_of (l : list AgentFrame) : bytes :=
  concat (omap (fun f => match f with A_Stdout d => Some d | _ => None end) l).
Definition stderr_of (l : list AgentFrame) : bytes :=
  concat (omap (fun f => match f with A_Stderr d => Some d | _ => None end) l).

Lemma stdout_of_app a b : stdout_of (a ++ b) = stdout_of a ++ stdout_of b.
Proof. unfold stdout_of. by rewrite omap_app, concat_app. Qed.
Lemma stderr_of_app a b : stderr_of (a ++ b) = stderr_of a ++ stderr_of b.
Proof. unfold stderr_of. by rewrite omap_app, concat_app. Qed.

Lemma send_log f c r c' :
  send f c = (r, c') -> c_log c' = match r with Ok _ => c_log c ++ [f] | Err _ => c_log c end.
Proof. unfold send. destruct (write_agent_frame f (c_out c)) as [x w]. by intros [= <- <-]. Qed.

Lemma read_pipe_ok k p data p' :
  read_pipe k p = (Ok data, p') ->
  rd_bytes p = data ++ rd_bytes p' /\ (data = [] -> rd_bytes p' = []) /\
  (length data <= PIPE_BUFFER)%nat.
Proof.
  unfold read_pipe. destruct (rd_bytes p) as [|b l] eqn:E.
  - destruct (rd_end p); [done|]. intros [= <- <-]. rewrite E. simpl. split_and!; [done..|lia].
  - cbv zeta. set (n := Nat.max 1 (Nat.min k PIPE_BUFFER)).
    assert (1 <= n <= PIPE_BUFFER)%nat by (unfold n, PIPE_BUFFER; lia).
    intros H0. injection H0 as <- <-. cbn [rd_bytes]. split_and!.
    + by rewrite take_drop.
    + destruct n; [lia|done].
    + rewrite length_take. lia.
Qed.

(** What holds of the loop state between events, relative to where it started: the log only
    grows by stream frames, and what was forwarded plus what the pipes still hold is what
    the pipes held. *)
Record session_inv (log0 : list AgentFrame) (out0 err0 : bytes) (s : nonpty) : Prop := {
  inv_log : exists outs, c_log (np_conn s) = log0 ++ outs /\ Forall is_stream outs /\
    stdout_of outs ++ rd_bytes (np_out s) = out0 /\ stderr_of outs ++ rd_bytes (np_err s) = err0;
  inv_out_closed : np_out_open s = false -> rd_bytes (np_out s) = [];
  inv_err_closed : np_err_open s = false -> rd_bytes (np_err s) = [] }.

Definition streams_only (log0 : list AgentFrame) (s : nonpty) : Prop :=
  exists outs, c_log (np_conn s) = log0 ++ outs /\ Forall is_stream outs.

Definition keeps (log0 : list AgentFrame) (out0 err0 : bytes) (c : control nonpty) : Prop :=
  match c with
  | Continue s => session_inv log0 out0 err0 s
  | Return (Ok _) _ => False
  | Return (Err _) s => streams_only log0 s
  end.

Lemma inv_streams_only log0 out0 err0 s : session_inv log0 out0 err0 s -> streams_only log0 s.
Proof. intros [(outs & ? & ? & _) _ _]. by exists outs. Qed.

(** A change of the input half leaves the invariant alone. *)
Lemma inv_input log0 out0 err0 s s' :
  np_conn s' = np_conn s -> np_out s' = np_out s -> np_err s' = np_err s ->
  np_out_open s' = np_out_open s -> np_err_open s' = np_err_open s ->
  session_inv log0 out0 err0 s -> session_inv log0 out0 err0 s'.
Proof. intros E1 E2 E3 E4 E5 [H1 H2 H3]. split; rewrite ?E1, ?E2, ?E3, ?E4, ?E5; done. Qed.

Lemma on_client_frame_keeps log0 out0 err0 os s :
  session_inv log0 out0 err0 s ->
  keeps log0 out0 err0 (on_client_frame from_named_raw os s).
Proof.
  intros H. unfold on_client_frame. destruct (read_client_frame (np_in s)) as [r i].
  repeat case_match; simpl; try (eapply inv_streams_only);
    (eapply inv_input; [..|exact H]; done).
Qed.

Lemma on_stdout_keeps log0 out0 err0 k s :
  session_inv log0 out0 err0 s -> keeps log0 out0 err0 (on_stdout k s).
Proof.
  intros [(outs & Hlog & Hs & Ho & He) H2 H3]. unfold on_stdout.
  destruct (read_pipe k (np_out s)) as [[data|e] p] eqn:Hr; [|by exists outs].
  apply read_pipe_ok in Hr as (Hd & Hz & _). destruct data as [|b data].
  - specialize (Hz eq_refl). simpl. split; [|done|done]. exists outs. simpl in *.
    rewrite Hz in *. rewrite Hd in Ho. done.
  - destruct (send _ (np_conn s)) as [[u|e] c] eqn:Hsend; apply send_log in Hsend;
      cbn [after_send keeps].
    + split; [|done|done]. exists (outs ++ [A_Stdout (b :: data)]). cbn [np_conn np_out np_err with_out].
      rewrite Hsend, Hlog, stdout_of_app, stderr_of_app. split_and!.
      * by rewrite app_assoc.
      * apply Forall_app. split; [done|by repeat constructor].
      * rewrite <- app_assoc. rewrite <- Ho, Hd. unfold stdout_of at 2. simpl. by rewrite app_nil_r.
      * rewrite <- He. unfold stderr_of at 2. simpl. by rewrite app_nil_r.
    + exists outs. cbn. by rewrite Hsend.
Qed.

Lemma on_stderr_keeps log0 out0 err0 k s :
  session_inv log0 out0 err0 s -> keeps log0 out0 err0 (on_stderr k s).
Proof.
  intros [(outs & Hlog & Hs & Ho & He) H2 H3]. unfold on_stderr.
  destruct (read_pipe k (np_err s)) as [[data|e] p] eqn:Hr; [|by exists outs].
  apply read_pipe_ok in Hr as (Hd & Hz & _). destruct data as [|b data].
  - specialize (Hz eq_refl). simpl. split; [|done|done]. exists outs. simpl in *.
    rewrite Hz in *. rewrite Hd in He. done.
  - destruct (send _ (np_conn s)) as [[u|e] c] eqn:Hsend; apply send_log in Hsend;
      cbn [after_send keeps].
    + split; [|done|done]. exists (outs ++ [A_Stderr (b :: data)]). cbn [np_conn np_out np_err with_err].
      rewrite Hsend, Hlog, stdout_of_app, stderr_of_app. split_and!.
      * by rewrite app_assoc.
      * apply Forall_app. split; [done|by repeat constructor].
      * rewrite <- Ho. unfold stdout_of at 2. simpl. by rewrite app_nil_r.
      * rewrite <- app_assoc. rewrite <- He, Hd. unfold stderr_of at 2. simpl. by rewrite app_nil_r.
    + exists outs. cbn. by rewrite Hsend.
Qed.

Lemma drain_pipes_keeps log0 out0 err0 reads s :
  session_inv log0 out0 err0 s -> keeps log0 out0 err0 (drain_pipes reads s).
Proof.
  revert s. induction reads as [|[is_stdout k] reads IH]; intros s H; [done|].
  cbn [drain_pipes]. destruct (np_out_open s || np_err_open s); [|done]. cbv zeta.
  set (c := if is_stdout then _ else _).
  assert (keeps log0 out0 err0 c) as Hc.
  { unfold c. destruct is_stdout, (np_out_open s), (np_err_open s);
      first [by apply on_stdout_keeps|by apply on_stderr_keeps|done]. }
  destruct c as [s'|r s']; [by apply IH|done].
Qed.

(** What a finished loop leaves behind. *)
Definition finished (log0 : list AgentFrame) (out0 err0 : bytes) (r : result unit FrameError)
    (s : nonpty) : Prop :=
  match r with
  | Ok _ =>
      exists outs st, c_log (np_conn s) = log0 ++ outs ++ [A_Exit (mk_ExitStatus (normalized_status st))] /\
        Forall is_stream outs /\
        stdout_of outs ++ rd_bytes (np_out s) = out0 /\ stderr_of outs ++ rd_bytes (np_err s) = err0 /\
        (np_out_open s = false -> rd_bytes (np_out s) = []) /\
        (np_err_open s = false -> rd_bytes (np_err s) = [])
  | Err _ => streams_only log0 s
  end.

Lemma on_exit_finishes log0 out0 err0 r reads s :
  session_inv log0 out0 err0 s ->
  exists res s', on_exit r reads s = Return res s' /\ finished log0 out0 err0 res s'.
Proof.
  intros H. unfold on_exit. destruct r as [st|e].
  2: { eexists _, _. split; [done|]. by eapply inv_streams_only. }
  pose proof (drain_pipes_keeps _ _ _ reads _ H) as Hd.
  destruct (drain_pipes reads s) as [s1|r s1].
  - destruct Hd as [(outs & Hlog & Hs & Ho & He) H2 H3].
    destruct (send _ (np_conn s1)) as [[u|e] c] eqn:Hsend; apply send_log in Hsend;
      eexists _, _; (split; [done|]); cbn [finished].
    + exists outs, st. cbn [np_conn with_out]. rewrite Hsend, Hlog, <- app_assoc. done.
    + exists outs. cbn [np_conn with_out]. by rewrite Hsend.
  - destruct r; [done|]. eexists _, _. by split.
Qed.

Lemma handle_event_keeps log0 out0 err0 e s :
  session_inv log0 out0 err0 s ->
  match handle_event from_named_raw e s with
  | Continue s' => session_inv log0 out0 err0 s'
  | Return r s' => finished log0 out0 err0 r s'
  end.
Proof.
  intros H. assert (forall i, session_inv log0 out0 err0 (with_in i s)) as Hi
    by (intros i; by eapply inv_input; [..|exact H]).
  assert (forall c, keeps log0 out0 err0 c -> match c with
    | Continue s' => session_inv log0 out0 err0 s' | Return r s' => finished log0 out0 err0 r s' end)
    as Hk by (intros [?|[] ?]; done).
  destruct e; cbn [handle_event].
  - apply Hk, on_client_frame_keeps, H.
  - apply Hk, on_stdout_keeps, Hi.
  - apply Hk, on_stderr_keeps, Hi.
  - destruct (on_exit_finishes log0 out0 err0 r drain _ (Hi (lose lost (np_in s))))
      as (res & s' & -> & Hf). done.
Qed.

Lemma run_keeps log0 out0 err0 events s :
  session_inv log0 out0 err0 s ->
  match run_non_pty from_named_raw events s with
  | Some (Continue s') => session_inv log0 out0 err0 s'
  | Some (Return r s') => finished log0 out0 err0 r s'
  | None => True
  end.
Proof.
  revert s. induction events as [|e events IH]; intros s H; [done|]. cbn [run_non_pty].
  destruct (event_ok e s); [|done]. pose proof (handle_event_keeps _ _ _ e _ H) as Hh.
  destruct (handle_event from_named_raw e s); [by apply IH|done].
Qed.

Lemma start_inv i c out err :
  session_inv (c_log c) (rd_bytes out) (rd_bytes err) (nonpty_start i c out err).
Proof. split; [|done|done]. exists []. rewrite app_nil_r. repeat split; by constructor. Qed.

(** However the branches interleave, a session that ends well has sent only stream frames
    and then exactly one [Exit], last, with the normalized status; each stream's frames
    concatenate to what the pipe gave, in order and without loss, and a pipe that was seen
    to close was forwarded whole.  A session that fails never sends an [Exit]. *)
Theorem session_streams_then_one_exit events i c out err r s :
  run_non_pty from_named_raw events (nonpty_start i c out err) = Some (Return r s) ->
  finished (c_log c) (rd_bytes out) (rd_bytes err) r s.
Proof.
  intros H. pose proof (run_keeps _ _ _ events _ (start_inv i c out err)) as Hr.
  by rewrite H in Hr.
Qed.

(* ------------------------------------------------------------------ *)
(** ** Input *)

(** The bytes a client puts on the connection by writing the given frames in order. *)
Fixpoint client_bytes (fs : list ClientFrame) (b : bytes) : Prop :=
  match fs with
  | [] => b = []
  | f :: fs' => exists tag payload b', encode_client f = Ok (tag, payload) /\ fits tag payload /\
      b = framed tag payload ++ b' /\ client_bytes fs' b'
  end.
Definition stdin_of (fs : list ClientFrame) : bytes :=
  concat (omap (fun f => match f with C_Stdin d => Some d | _ => None end) fs).

Definition lossless (e : event) : Prop :=
  match e with
  | FrameReady _ => True
  | StdoutReady lost _ | StderrReady lost _ | ChildExited lost _ _ => lost = 0%nat
  end.

Definition input_view (s : nonpty) := (np_in s, np_stdin s, np_written s, np_input_ended s).
Definition result_state (c : control nonpty) : nonpty :=
  match c with Continue s | Return _ s => s end.

Lemma on_stdout_view k s : input_view (result_state (on_stdout k s)) = input_view s.
Proof.
  unfold on_stdout. destruct (read_pipe k (np_out s)) as [[[|]|] p]; [done| |done].
  by destruct (send _ (np_conn s)) as [[] c].
Qed.
Lemma on_stderr_view k s : input_view (result_state (on_stderr k s)) = input_view s.
Proof.
  unfold on_stderr. destruct (read_pipe k (np_err s)) as [[[|]|] p]; [done| |done].
  by destruct (send _ (np_conn s)) as [[] c].
Qed.
Lemma drain_pipes_view reads s : input_view (result_state (drain_pipes reads s)) = input_view s.
Proof.
  revert s. induction reads as [|[is_stdout k] reads IH]; intros s; [done|]. cbn [drain_pipes].
  destruct (np_out_open s || np_err_open s); [|done]. cbv zeta. set (c := if is_stdout then _ else _).
  assert (input_view (result_state c) = input_view s) as Hc.
  { unfold c. destruct is_stdout, (np_out_open s), (np_err_open s);
      first [apply on_stdout_view|apply on_stderr_view|done]. }
  destruct c; [by rewrite IH|done].
Qed.
Lemma on_exit_view r reads s : input_view (result_state (on_exit r reads s)) = input_view s.
Proof.
  unfold on_exit. destruct r as [st|]; [|done]. pose proof (drain_pipes_view reads s) as H.
  destruct (drain_pipes reads s) as [s1|]; [|done]. by destruct (send _ (np_conn s1)).
Qed.

Lemma lose_0 r : lose 0 r = r.
Proof. by destruct r. Qed.

Definition input_inv {L : WireLaws W} (fs : list ClientFrame) (s : nonpty) : Prop :=
  exists consumed todo, fs = consumed ++ todo /\ client_bytes todo (rd_bytes (np_in s)) /\
    np_written s = stdin_of consumed /\ np_stdin s = negb (np_input_ended s) /\
    (np_input_ended s = true <-> C_StdinEnd ∈ consumed).

Lemma input_inv_view {L : WireLaws W} fs s s' :
  input_view s' = input_view s -> input_inv fs s -> input_inv fs s'.
Proof. unfold input_view, input_inv. intros [= -> -> -> ->]. done. Qed.

Lemma stdin_of_app a b : stdin_of (a ++ b) = stdin_of a ++ stdin_of b.
Proof. unfold stdin_of. by rewrite omap_app, concat_app. Qed.

Lemma stdin_of_snoc fs f : (forall d, f <> C_Stdin d) -> stdin_of (fs ++ [f]) = stdin_of fs.
Proof.
  intros H. rewrite stdin_of_app. destruct f; try apply app_nil_r. by destruct (H payload).
Qed.

Lemma on_client_frame_input {L : WireLaws W} fs os s s' :
  input_inv fs s -> on_client_frame from_named_raw os s = Continue s' -> input_inv fs s'.
Proof.
  intros (consumed & todo & -> & Hb & Hw & Hs & He). unfold on_client_frame.
  destruct (np_in s) as [b e]. simpl in Hb. destruct todo as [|f todo].
  - simpl in Hb. subst b. by destruct e.
  - destruct Hb as (tag & payload & b' & Henc & Hfit & -> & Hb).
    rewrite read_client_framed, (decode_encode_client f) by done.
    assert (forall s1, np_in s1 = mk_reader b' e -> np_written s1 = stdin_of (consumed ++ [f]) ->
      np_stdin s1 = negb (np_input_ended s1) ->
      (np_input_ended s1 = true <-> C_StdinEnd ∈ consumed ++ [f]) ->
      input_inv (consumed ++ f :: todo) s1) as Hk.
    { intros s1 E1 E2 E3 E4. exists (consumed ++ [f]), todo. rewrite E1, <- app_assoc. done. }
    assert (f <> C_StdinEnd -> (np_input_ended s = true <-> C_StdinEnd ∈ consumed ++ [f])) as Hne
      by (intros; rewrite elem_of_app, list_elem_of_singleton; naive_solver).
    assert (forall d, np_written s ++ d = stdin_of (consumed ++ [C_Stdin d])) as Hstdin
      by (intros d; by rewrite stdin_of_app, Hw; unfold stdin_of; simpl; rewrite app_nil_r).
    destruct f; simpl; repeat case_match; intros [= <-]; apply Hk; cbn; try done;
      try (by apply Hne); try congruence;
      try (by rewrite Hw; symmetry; apply stdin_of_snoc).
    rewrite elem_of_app, list_elem_of_singleton. naive_solver.
Qed.

Lemma handle_event_input {L : WireLaws W} fs e s :
  lossless e -> input_inv fs s ->
  match handle_event from_named_raw e s with
  | Continue s' | Return (Ok _) s' => input_inv fs s'
  | Return (Err _) _ => True
  end.
Proof.
  intros Hl H.
  assert (forall c, input_view (result_state c) = input_view s ->
    match c with Continue s' | Return (Ok _) s' => input_inv fs s' | Return (Err _) _ => True end) as Hv
    by (intros [s'|[] s'] Hs; [..|done]; eapply input_inv_view; done).
  assert (with_in (lose 0 (np_in s)) s = s) as Hid by (rewrite lose_0; by destruct s).
  destruct e as [os|lost k|lost k|lost r reads]; cbn [handle_event]; [|simpl in Hl; subst lost; rewrite Hid..].
  - destruct (on_client_frame from_named_raw os s) as [s'|[]] eqn:E; [|exfalso|done].
    + by eapply on_client_frame_input.
    + unfold on_client_frame in E. destruct (read_client_frame (np_in s)). by repeat case_match.
  - apply Hv, on_stdout_view.
  - apply Hv, on_stderr_view.
  - apply Hv, on_exit_view.
Qed.

Lemma stdin_delivered {L : WireLaws W} fs b e events c out err s :
  client_bytes fs b -> Forall lossless events ->
  run_non_pty from_named_raw events (nonpty_start (mk_reader b e) c out err) = Some (Continue s) \/
  run_non_pty from_named_raw events (nonpty_start (mk_reader b e) c out err) = Some (Return (Ok tt) s) ->
  input_inv fs s.
Proof.
  intros Hb Hl Hrun.
  assert (input_inv fs (nonpty_start (mk_reader b e) c out err)) as Hi
    by (exists [], fs; split_and!; try done; by rewrite elem_of_nil).
  revert Hi Hrun. generalize (nonpty_start (mk_reader b e) c out err).
  induction events as [|ev events IH]; intros s0 Hi Hrun; cbn [run_non_pty] in Hrun.
  - destruct Hrun; by simplify_eq.
  - inversion Hl; subst. pose proof (handle_event_input fs ev s0 ltac:(done) Hi) as Hh.
    destruct (event_ok ev s0); [|by destruct Hrun].
    destruct (handle_event from_named_raw ev s0) as [s1|r s1]; [by apply (IH ltac:(done) s1)|].
    destruct Hrun; by simplify_eq.
Qed.

(** When no branch drops a read that had taken bytes, the child's standard input is
    exactly the client's [Stdin] payloads in order: a running or cleanly finished session has
    consumed a prefix of the client's frames, written their payloads, and closed the input
    exactly when a [StdinEnd] is among them. *)
Theorem stdin_is_delivered_in_order {L : WireLaws W} fs b e events c out err s :
  client_bytes fs b -> Forall lossless events ->
  run_non_pty from_named_raw events (nonpty_start (mk_reader b e) c out err) = Some (Continue s) \/
  run_non_pty from_named_raw events (nonpty_start (mk_reader b e) c out err) = Some (Return (Ok tt) s) ->
  input_inv fs s.
Proof. apply stdin_delivered. Qed.

(** When a frame ends the loop, the session's process group is signalled exactly when the
    client's stream ended: SIGTERM, then SIGKILL when the group outlives the grace period,
    with the standard input closed and [Eof] as the result.  Any other end of the loop, an
    I/O fault of the stream included, signals nothing. *)
Theorem group_is_ended_on_disconnect os s r s' :
  on_client_frame from_named_raw os s = Return r s' ->
  match fst (read_client_frame (np_in s)) with
  | Err Eof | Err Truncated =>
      r = Err Eof /\ np_stdin s' = false /\
      np_signals s' = np_signals s ++ (if os_term_in_time os then [SIGTERM] else [SIGTERM; SIGKILL])
  | Err e => r = Err e /\ np_signals s' = np_signals s
  | Ok _ => (exists e, r = Err e) /\ np_signals s' = np_signals s
  end.
Proof.
  unfold on_client_frame, end_session. destruct (read_client_frame (np_in s)) as [r0 i]. simpl.
  repeat case_match; intros [= <- <-]; repeat split; simpl; first [done | congruence | eauto].
Qed.

(** The dropped read is real: [select!] may take the four length bytes of a client's
    [Stdin] frame, let the stdout branch win, and lose them.  The same two well-formed client
    frames that a lossless schedule delivers then end the session as [Oversized], with the
    input never delivered. *)
Theorem dropped_read_desynchronises :
  let c := mk_conn (mk_writer [] None true) [] in
  let start b := nonpty_start (mk_reader b None) c (mk_reader [x41] None) (mk_reader [] None) in
  let answer := mk_os (Ok tt) true in
  exists b, client_bytes [C_Stdin (bs "ab"); C_StdinEnd] b /\
    (exists s, run_non_pty from_named_raw [FrameReady answer; FrameReady answer] (start b)
               = Some (Continue s) /\ np_written s = bs "ab") /\
    (exists s, run_non_pty from_named_raw [StdoutReady 4 1; FrameReady answer] (start b)
               = Some (Return (Err Oversized) s) /\ np_written s = []).
Proof.
  cbv zeta. exists (framed TAG_STDIN (bs "ab") ++ framed TAG_STDIN_END []). split; [|split].
  - exists TAG_STDIN, (bs "ab"), (framed TAG_STDIN_END []). split; [done|].
    split; [vm_compute; discriminate|]. split; [done|].
    exists TAG_STDIN_END, [], []. split; [done|]. split; [vm_compute; discriminate|]. done.
  - eexists. split; [vm_compute; reflexivity|done].
  - eexists. split; [vm_compute; reflexivity|done].
Qed.

(* ------------------------------------------------------------------ *)
(** ** Sessions on a terminal *)

Lemma read_terminal_got k t data t' :
  read_terminal k t = (Got data, t') ->
  tm_bytes t = data ++ tm_bytes t' /\ tm_end t' = tm_end t /\ data <> [].
Proof.
  unfold read_terminal. destruct (tm_bytes t) as [|b l] eqn:E; [by destruct (tm_end t)|].
  cbv zeta. set (n := Nat.max 1 (Nat.min k PIPE_BUFFER)).
  assert (1 <= n)%nat by (unfold n; lia).
  intros H0. injection H0 as <- <-. cbn [tm_bytes tm_end]. split_and!; [by rewrite take_drop|done|].
  destruct n; [lia|done].
Qed.
Lemma read_terminal_closed k t t' :
  read_terminal k t = (Closed, t') -> t' = t /\ tm_bytes t = [].
Proof.
  unfold read_terminal. destruct (tm_bytes t) as [|b l]; [|done].
  destruct (tm_end t); intros [= <-]; done.
Qed.

Record pty_inv (log0 : list AgentFrame) (out0 : bytes) (s : pty_session) : Prop := {
  pinv_log : exists outs, c_log (pt_conn s) = log0 ++ map A_Stdout outs /\
    concat outs ++ tm_bytes (pt_reader s) = out0;
  pinv_closed : pt_output_open s = false -> tm_bytes (pt_reader s) = [] }.

Definition pty_streams_only (log0 : list AgentFrame) (s : pty_session) : Prop :=
  exists outs, c_log (pt_conn s) = log0 ++ map A_Stdout outs.

Definition pty_keeps (log0 : list AgentFrame) (out0 : bytes) (c : control pty_session) : Prop :=
  match c with
  | Continue s => pty_inv log0 out0 s
  | Return (Ok _) _ => False
  | Return (Err _) s => pty_streams_only log0 s
  end.

Lemma pty_inv_streams log0 out0 s : pty_inv log0 out0 s -> pty_streams_only log0 s.
Proof. intros [(outs & ? & _) _]. by exists outs. Qed.

Lemma pty_inv_input log0 out0 s s' :
  pt_conn s' = pt_conn s -> pt_reader s' = pt_reader s -> pt_output_open s' = pt_output_open s ->
  pty_inv log0 out0 s -> pty_inv log0 out0 s'.
Proof. intros E1 E2 E3 [H1 H2]. split; rewrite ?E1, ?E2, ?E3; done. Qed.

Lemma resize_keeps log0 out0 os size s :
  pty_inv log0 out0 s -> pty_keeps log0 out0 (resize os size s).
Proof.
  intros H. unfold resize. repeat case_match; simpl; try (eapply pty_inv_streams);
    (eapply pty_inv_input; [..|exact H]; done).
Qed.

Lemma on_pty_frame_keeps log0 out0 os s :
  pty_inv log0 out0 s -> pty_keeps log0 out0 (on_pty_frame from_named_raw os s).
Proof.
  intros H. unfold on_pty_frame. destruct (read_client_frame (pt_in s)) as [r i].
  assert (pty_inv log0 out0 (pty_with_in i s)) as Hi by (eapply pty_inv_input; [..|exact H]; done).
  destruct r as [[]|[]]; try (by apply resize_keeps);
    repeat case_match; simpl; try (eapply pty_inv_streams);
    (eapply pty_inv_input; [..|exact Hi]; done).
Qed.

(** A sent chunk of terminal output keeps the account. *)
Lemma sent_output log0 out0 data c t open s :
  pty_inv log0 out0 s -> c_log c = c_log (pt_conn s) ++ [A_Stdout data] ->
  tm_bytes (pt_reader s) = data ++ tm_bytes t -> data <> [] -> open = pt_output_open s ->
  pty_inv log0 out0 (pty_with_output c t open s).
Proof.
  intros [(outs & Hlog & Hout) Hc] Hs Hd Hne ->. split.
  - exists (outs ++ [data]). cbn [pt_conn pt_reader pty_with_output].
    rewrite Hs, Hlog, map_app, concat_app, <- !app_assoc. simpl. rewrite app_nil_r.
    split; [done|]. by rewrite <- Hout, Hd.
  - cbn. intros Hf%Hc. rewrite Hd in Hf. by destruct data.
Qed.

Lemma on_output_keeps log0 out0 k s :
  pty_inv log0 out0 s -> pty_keeps log0 out0 (on_output k s).
Proof.
  intros H. pose proof (pty_inv_streams _ _ _ H) as Hs. unfold on_output.
  destruct (read_terminal k (pt_reader s)) as [[data| |e] t] eqn:Hr; [| |done].
  - apply read_terminal_got in Hr as (Hd & _ & Hne).
    destruct (send _ (pt_conn s)) as [[u|e] c] eqn:Hsend; apply send_log in Hsend;
      cbn [after_send pty_keeps]; [by eapply sent_output|].
    destruct Hs as [outs Hlog]. exists outs. cbn. by rewrite Hsend.
  - apply read_terminal_closed in Hr as [-> Hz]. destruct H as [Hl _]. by split.
Qed.

Lemma drain_terminal_keeps log0 out0 reads s :
  pty_inv log0 out0 s -> pty_keeps log0 out0 (drain_terminal reads s).
Proof.
  revert s. induction reads as [|k reads IH]; intros s H; [done|]. cbn [drain_terminal].
  pose proof (pty_inv_streams _ _ _ H) as Hs.
  destruct (read_terminal k (pt_reader s)) as [[data| |e] t] eqn:Hr; [| |done].
  - apply read_terminal_got in Hr as (Hd & _ & Hne).
    destruct (send _ (pt_conn s)) as [[u|e] c] eqn:Hsend; apply send_log in Hsend.
    + apply IH. by eapply sent_output.
    + destruct Hs as [outs Hlog]. exists outs. cbn. by rewrite Hsend.
  - apply read_terminal_closed in Hr as [-> Hz]. destruct H as [Hl Hc]. by split.
Qed.

Definition pty_finished (log0 : list AgentFrame) (out0 : bytes) (r : result unit FrameError)
    (s : pty_session) : Prop :=
  match r with
  | Ok _ => exists outs st,
      c_log (pt_conn s) = log0 ++ map A_Stdout outs ++ [A_Exit (mk_ExitStatus (normalized_status st))] /\
      concat outs ++ tm_bytes (pt_reader s) = out0 /\
      (pt_output_open s = false -> tm_bytes (pt_reader s) = [])
  | Err _ => pty_streams_only log0 s
  end.

Lemma pty_exit_finishes log0 out0 r reads s :
  pty_inv log0 out0 s ->
  exists res s', on_pty_exit r reads s = Return res s' /\ pty_finished log0 out0 res s'.
Proof.
  intros H. unfold on_pty_exit. destruct r as [st|e].
  2: { eexists _, _. split; [done|]. by eapply pty_inv_streams. }
  assert (pty_keeps log0 out0 (if pt_output_open s then drain_terminal reads s else Continue s)) as Hd
    by (destruct (pt_output_open s); [by apply drain_terminal_keeps|done]).
  destruct (if pt_output_open s then _ else _) as [s1|r s1].
  - destruct Hd as [(outs & Hlog & Ho) Hc].
    destruct (send _ (pt_conn s1)) as [[u|e] c] eqn:Hsend; apply send_log in Hsend;
      eexists _, _; (split; [done|]); cbn [pty_finished].
    + exists outs, st. cbn [pt_conn pty_with_output]. rewrite Hsend, Hlog, <- app_assoc. done.
    + exists outs. cbn [pt_conn pty_with_output]. by rewrite Hsend.
  - destruct r; [done|]. eexists _, _. by split.
Qed.

Lemma pty_loop_finishes log0 out0 events s r s' :
  pty_inv log0 out0 s -> pty_loop from_named_raw events s = Some (Return r s') ->
  pty_finished log0 out0 r s'.
Proof.
  revert s. induction events as [|e events IH]; intros s H; [done|]. cbn [pty_loop].
  destruct (pty_event_ok e s); [|done].
  assert (forall i, pty_inv log0 out0 (pty_with_in i s)) as Hi
    by (intros i; by eapply pty_inv_input; [..|exact H]).
  assert (forall c, pty_keeps log0 out0 c ->
    match c with Continue s1 => pty_loop from_named_raw events s1 | Return r1 s1 => Some (Return r1 s1) end = Some (Return r s') ->
    pty_finished log0 out0 r s') as Hk.
  { intros [s1|[] s1] Hc; [by apply IH|done|]. by intros [= <- <-]. }
  destruct e as [os|lost k|lost st reads]; cbn [handle_pty_event].
  - apply Hk, on_pty_frame_keeps, H.
  - apply Hk, on_output_keeps, Hi.
  - destruct (pty_exit_finishes log0 out0 st reads _ (Hi (lose lost (pt_in s))))
      as (res & s1 & -> & Hf). by intros [= <- <-].
Qed.

Lemma run_pty_finishes initial_size os events i c t r s :
  run_pty from_named_raw initial_size os events (pty_start i c t initial_size) = Some (Return r s) ->
  pty_finished (c_log c) (tm_bytes t) r s.
Proof.
  assert (pty_inv (c_log c) (tm_bytes t) (pty_start i c t initial_size)) as Hi
    by (split; [exists []; by rewrite app_nil_r|done]).
  unfold run_pty. destruct initial_size as [size|]; [|by apply pty_loop_finishes].
  pose proof (resize_keeps _ _ os size _ Hi) as Hr.
  destruct (resize os size _) as [s1|r1 s1]; [by apply pty_loop_finishes|].
  intros [= <- <-]. by destruct r1.
Qed.

(** A terminal session that ends well has sent only [Stdout] frames and then exactly one
    [Exit], last; their payloads are what the terminal gave, in order and without loss, and
    everything it had when it was seen to close ([EIO] or end of file).  A terminal session
    that fails never sends an [Exit]. *)
Theorem pty_streams_then_one_exit initial_size os events i c t r s :
  run_pty from_named_raw initial_size os events (pty_start i c t initial_size) = Some (Return r s) ->
  pty_finished (c_log c) (tm_bytes t) r s.
Proof. apply run_pty_finishes. Qed.

(** What a session adds to the connection, seen from the outside. *)
Inductive session_report : result unit FrameError -> list AgentFrame -> Prop :=
| report_exit outs st : Forall is_stream outs -> session_report (Ok tt) (outs ++ [A_Exit st])
| report_lost e outs : Forall is_stream outs -> session_report (Err e) outs
| report_spawn e : session_report (Err e) [A_Error (mk_ProtocolErrorMessage SPAWN)].

Lemma map_stdout_stream outs : Forall is_stream (map A_Stdout outs).
Proof. induction outs; by constructor. Qed.

Lemma run_report spawn request initial_size i c r i' c' :
  run from_named_raw spawn request initial_size i c = Some (r, i', c') ->
  exists added, c_log c' = c_log c ++ added /\ session_report r added.
Proof.
  unfold run. destruct (spawn (pty request)) as [[t os events|out err events]|e].
  - destruct (run_pty _ _ _ _ _) as [[|r0 s]|] eqn:E; [done| |done]. intros [= <- <- <-].
    apply run_pty_finishes in E. destruct r0 as [[]|].
    + destruct E as (outs & st & -> & _). eexists. split; [done|]. constructor. apply map_stdout_stream.
    + destruct E as [outs ->]. eexists. split; [done|]. constructor. apply map_stdout_stream.
  - pose proof (run_keeps _ _ _ events _ (start_inv i c out err)) as Hk.
    destruct (run_non_pty _ _ _) as [[|r0 s]|]; [done| |done]. intros [= <- <- <-]. destruct r0 as [[]|].
    + destruct Hk as (outs & st & -> & Hs & _). eexists. split; [done|]. by constructor.
    + destruct Hk as (outs & -> & Hs). eexists. split; [done|]. by constructor.
  - unfold spawn_failed, sbind. destruct (send _ c) as [[[]|e1] c1] eqn:Hs; apply send_log in Hs;
      simpl; intros [= <- <- <-]; rewrite Hs.
    + eexists. split; [done|]. apply report_spawn.
    + exists []. rewrite app_nil_r. split; [done|]. by constructor.
Qed.

(** Whatever the request's kind and however spawning and the schedule go, what a session
    adds to its connection is stream frames and one last [Exit] when it succeeds, stream
    frames only when it is lost, or the single [spawn] error when nothing was started. *)
Theorem run_reports spawn request initial_size i c r i' c' :
  run from_named_raw spawn request initial_size i c = Some (r, i', c') ->
  exists added, c_log c' = c_log c ++ added /\ session_report r added.
Proof. apply run_report. Qed.
End spec.

(* ------------------------------------------------------------------ *)
(** ** Witnesses *)

Definition demo_named (z : Z) : option Z := if (1 <=? z) && (z <=? 31) then Some z else None.
Definition demo_start : nonpty :=
  nonpty_start (mk_reader (framed TAG_STDIN (bs "ab") ++ framed TAG_STDIN_END []) None)
    (mk_conn (mk_writer [] None true) []) (mk_reader (bs "out") None) (mk_reader (bs "err") None).
Definition demo_events : list event :=
  [StdoutReady 0 2; FrameReady (mk_os (Ok tt) true); FrameReady (mk_os (Ok tt) true);
   ChildExited 0 (Ok (mk_WaitStatus None (Some 7))) [(false, 9%nat); (true, 9%nat); (true, 1%nat); (false, 1%nat)]].
Definition demo_end : control nonpty :=
  default (Continue demo_start) (@run_non_pty demo_codec demo_named demo_events demo_start).

Lemma session_streams_then_one_exit_witness :
  finished [] (bs "out") (bs "err") (Ok tt) (result_state demo_end) /\
  c_log (np_conn (result_state demo_end))
  = [A_Stdout (bs "ou"); A_Stderr (bs "err"); A_Stdout (bs "t"); A_Exit (mk_ExitStatus 7)].
Proof.
  split; [|vm_compute; reflexivity].
  apply (@session_streams_then_one_exit demo_codec demo_named demo_events
    (np_in demo_start) (np_conn demo_start) (np_out demo_start) (np_err demo_start) (Ok tt)).
  vm_compute. reflexivity.
Defined.

Lemma stdin_is_delivered_in_order_witness :
  @input_inv demo_codec demo_laws [C_Stdin (bs "ab"); C_StdinEnd] (result_state demo_end) /\
  np_written (result_state demo_end) = bs "ab".
Proof.
  split; [|vm_compute; reflexivity].
  apply (@stdin_is_delivered_in_order demo_codec demo_named demo_laws
    [C_Stdin (bs "ab"); C_StdinEnd] (rd_bytes (np_in demo_start)) None demo_events
    (np_conn demo_start) (np_out demo_start) (np_err demo_start)).
  - exists TAG_STDIN, (bs "ab"), (framed TAG_STDIN_END []). split; [reflexivity|].
    split; [vm_compute; discriminate|]. split; [reflexivity|].
    exists TAG_STDIN_END, [], []. split; [reflexivity|]. split; [vm_compute; discriminate|].
    split; reflexivity.
  - repeat constructor.
  - right. vm_compute. reflexivity.
Defined.

Lemma group_is_ended_on_disconnect_witness :
  let s := nonpty_start (mk_reader [] None) (mk_conn (mk_writer [] None true) [])
             (mk_reader [] None) (mk_reader [] None) in
  exists s', @on_client_frame demo_codec demo_named (mk_os (Ok tt) false) s = Return (Err Eof) s' /\
    np_signals s' = [15; 9].
Proof.
  cbv zeta. eexists. split; [vm_compute; reflexivity|].
  exact (proj2 (proj2 (@group_is_ended_on_disconnect demo_codec demo_named (mk_os (Ok tt) false)
    (nonpty_start (mk_reader [] None) (mk_conn (mk_writer [] None true) [])
       (mk_reader [] None) (mk_reader [] None)) (Err Eof) _ eq_refl))).
Defined.

Definition demo_pty_events : list pty_event :=
  [PtyFrame (mk_os (Ok tt) true); PtyOutput 0 3; PtyExited 0 (Ok (mk_WaitStatus (Some 15) None)) [9%nat; 9%nat]].
Definition demo_pty_request : StartRequest := mk_StartRequest Exec [bs "sh"] [] (bs "/") true.

Lemma pty_streams_then_one_exit_witness :
  exists s, @pty_finished (c_log (np_conn demo_start)) (bs "tty") (Ok tt) s /\
    c_log (pt_conn s) = [A_Stdout (bs "tty"); A_Exit (mk_ExitStatus 143)].
Proof.
  eexists. split.
  - apply (@pty_streams_then_one_exit demo_codec demo_named (Some (mk_TerminalSize 24 80)) (mk_os (Ok tt) true)
      demo_pty_events (np_in demo_start) (np_conn demo_start) (mk_terminal (bs "tty") TtyEio) (Ok tt)).
    vm_compute. reflexivity.
  - vm_compute. reflexivity.
Defined.

Lemma run_reports_witness :
  exists added, c_log (mk_conn (mk_writer [] None true) added) = added /\
    session_report (Ok tt) added /\ added = [A_Stdout (bs "tty"); A_Exit (mk_ExitStatus 143)].
Proof.
  eexists. split; [reflexivity|]. edestruct (@run_reports demo_codec demo_named
    (fun _ => Ok (SpawnedPty (mk_terminal (bs "tty") TtyEio) (mk_os (Ok tt) true) demo_pty_events))
    demo_pty_request (Some (mk_TerminalSize 24 80)) (np_in demo_start) (np_conn demo_start) (Ok tt))
    as (added & Ha & Hr).
  - vm_compute. reflexivity.
  - cbn [c_log np_conn demo_start nonpty_start app] in Ha. subst added. split; [exact Hr|reflexivity].
Defined.
