(* ===== verification/Agent.v ===== *)
(** * Agent: the guest agent's control connection
    (src/src/bin/vivarium-guest-agent/control.rs and boot.rs).

    One connection: the greeting, then one request, answered and ended, or a [Start] that
    turns it into a session.  The accept loop around it: which peers get a connection and the
    one counter the connections share, as a step relation over interleaved connections. *)
From S2P Require Import Prelude Bytes Message Frame Process Session.

(* ------------------------------------------------------------------ *)
(** ** boot.rs *)

Inductive BootError := Boot_Missing | Boot_Duplicate | Boot_Invalid.
Definition KEY : bytes := bs "vivarium.boot_identity=".

Definition parse_boot_identity (cmdline : bytes) : result bytes BootError :=
  let values := omap (strip_prefix KEY) (split_ascii_whitespace cmdline) in
  match values with
  | [] => Err Boot_Missing
  | value :: rest =>
      let? _ := guard_err (match rest with [] => false | _ => true end) Boot_Duplicate in
      let? _ := map_err (fun _ => Boot_Invalid) (validate_boot_identity value) in
      Ok value
  end.

(* ------------------------------------------------------------------ *)
(** ** [parse_meminfo] *)

Definition u64_checked_mul (a b : Z) : option Z := if a * b <=? u64_max then Some (a * b) else None.

(** The [field] closure: the first line that gives a figure; one that does not parse is passed over. *)
Definition meminfo_line (name line : bytes) : option Z :=
  let* rest := strip_prefix name line in
  let* figure := strip_suffix (bs "kB") (trim rest) in
  parse_uint u64_max (trim figure).
Fixpoint find_map {A B} (f : A -> option B) (l : list A) : option B :=
  match l with [] => None | x :: l' => match f x with Some y => Some y | None => find_map f l' end end.
Definition meminfo_field (text name : bytes) : option Z := find_map (meminfo_line name) (lines text).

Definition parse_meminfo (text : bytes) : option MemoryReport :=
  let* total := meminfo_field text (bs "MemTotal:") in
  let* total_bytes := u64_checked_mul total 1024 in
  let* available := meminfo_field text (bs "MemAvailable:") in
  let* available_bytes := u64_checked_mul available 1024 in
  Some (mk_MemoryReport total_bytes available_bytes).

(* ------------------------------------------------------------------ *)
(** ** [handle] *)

Definition u64_wrap (z : Z) : Z := z mod 2 ^ 64.

Section agent.
Context {W : WireCodec} (from_named_raw : Z -> option Z).

(** What the connection's requests meet: writing the poweroff trigger, reading
    /proc/meminfo as text, [run_trim], and spawning. *)
Record world := mk_world {
  w_trigger : result unit io_error;
  w_meminfo : result bytes io_error;
  w_trim : TrimRequest -> result unit unit;
  w_spawn : StartRequest -> bool -> result spawned ProcessError }.

(** The connection, the shared counter and the poweroff trigger. *)
Record agent := mk_agent {
  ag_in : reader;
  ag_conn : conn;
  ag_sessions : Z;
  ag_power : bool }.

Definition with_reader (i : reader) (a : agent) : agent :=
  mk_agent i (ag_conn a) (ag_sessions a) (ag_power a).
Definition with_conn (c : conn) (a : agent) : agent :=
  mk_agent (ag_in a) c (ag_sessions a) (ag_power a).
Definition fetch_add (n : Z) (a : agent) : agent :=
  mk_agent (ag_in a) (ag_conn a) (u64_wrap (ag_sessions a + n)) (ag_power a).
Definition touch_poweroff (a : agent) : agent :=
  mk_agent (ag_in a) (ag_conn a) (ag_sessions a) true.

(** [Pending]: the session has not ended on the schedule it was given. *)
Inductive outcome := Done (r : result unit unit) (a : agent) | Pending | OutOfFuel.

(** [safe_error]: the write's own failure is dropped. *)
Definition safe_error (a : agent) (code : bytes) : agent :=
  with_conn (snd (send (A_Error (mk_ProtocolErrorMessage code)) (ag_conn a))) a.
Definition refuse (a : agent) (code : bytes) : outcome := Done (Err tt) (safe_error a code).

(** Write the answer and end the connection. *)
Definition answer (f : AgentFrame) (a : agent) : outcome :=
  let '(r, c) := send f (ag_conn a) in
  Done (map_err (fun _ => tt) r) (with_conn c a).

(** The loop after the greeting.  Only a first [Resize] goes round, so two rounds are
    enough ([serve_two_rounds]). *)
Fixpoint serve (fuel : nat) (w : world) (initial_size : option TerminalSize) (a : agent) : outcome :=
  match fuel with
  | O => OutOfFuel
  | S fuel' =>
      let '(frame, i) := read_client_frame (ag_in a) in
      let a := with_reader i a in
      match frame with
      | Ok C_Ping => answer A_Pong a
      | Ok C_Sessions => answer (A_Sessions (mk_SessionCount (ag_sessions a))) a
      | Ok C_Shutdown =>
          match w_trigger w with
          | Err _ => refuse a (bs "shutdown")
          | Ok _ => answer A_ShutdownAck (touch_poweroff a)
          end
      | Ok C_Memory =>
          match (let* text := ok (w_meminfo w) in parse_meminfo text) with
          | None => refuse a (bs "meminfo")
          | Some report => answer (A_Memory report) a
          end
      | Ok (C_Trim request) =>
          match w_trim w request with
          | Err _ => refuse a (bs "trim")
          | Ok _ => answer A_TrimAck a
          end
      | Ok (C_Start request) =>
          let a := fetch_add 1 a in
          match run from_named_raw (w_spawn w request) request initial_size (ag_in a) (ag_conn a) with
          | None => Pending
          | Some (r, i, c) =>
              Done (map_err (fun _ => tt) r) (fetch_add (-1) (with_conn c (with_reader i a)))
          end
      | Ok (C_Resize size) =>
          match initial_size with
          | None => serve fuel' w (Some size) a
          | Some _ => refuse a (bs "state")
          end
      | Ok _ => refuse a (bs "state")
      | Err _ => refuse a (bs "framing")
      end
  end.

Definition handle (fuel : nat) (expected_identity : bytes) (w : world) (a : agent) : outcome :=
  let '(frame, i) := read_client_frame (ag_in a) in
  let a := with_reader i a in
  match frame with
  | Ok (C_Hello hello) =>
      if (schema_version hello =? SCHEMA_VERSION) && bytes_eqb (boot_identity hello) expected_identity then
        match send (A_Hello (mk_Hello SCHEMA_VERSION (boot_identity hello))) (ag_conn a) with
        | (Err _, c) => Done (Err tt) (with_conn c a)
        | (Ok _, c) => serve fuel w None (with_conn c a)
        end
      else refuse a (bs "authorization")
  | Ok _ => refuse a (bs "authorization")
  | Err _ => refuse a (bs "framing")
  end.
End agent.

(* ------------------------------------------------------------------ *)
(** ** [accept_loop] *)

(** [VMADDR_CID_HOST]. *)
Definition VMADDR_CID_HOST : Z := 2.

Inductive conn_phase := Serving | InSession | Closed_.
#[export] Instance conn_phase_eq_dec : EqDecision conn_phase.
Proof. solve_decision. Defined.

(** The connections the loop has spawned a task for, each with its peer, and the counter. *)
Record acceptor := mk_acceptor {
  ac_conns : list (Z * conn_phase);
  ac_sessions : Z }.
Definition acceptor_start : acceptor := mk_acceptor [] 0.

Inductive accept_event :=
| Accepted (cid : Z)            (* the listener accepted a peer *)
| Started (id : nat)            (* fetch_add at an accepted Start *)
| Reported (id : nat) (n : Z)   (* a Sessions query was answered with n; the task ends *)
| Ended (id : nat).             (* the task ended; SessionLive is dropped if there is one *)

Definition set_phase (id : nat) (cid : Z) (p : conn_phase) (l : list (Z * conn_phase)) :=
  <[id := (cid, p)]> l.

Inductive accept_step : acceptor -> accept_event -> acceptor -> Prop :=
| step_ignored s cid :
    cid <> VMADDR_CID_HOST -> accept_step s (Accepted cid) s
| step_accepted s cid :
    cid = VMADDR_CID_HOST ->
    accept_step s (Accepted cid) (mk_acceptor (ac_conns s ++ [(cid, Serving)]) (ac_sessions s))
| step_started s id cid :
    ac_conns s !! id = Some (cid, Serving) ->
    accept_step s (Started id)
      (mk_acceptor (set_phase id cid InSession (ac_conns s)) (u64_wrap (ac_sessions s + 1)))
| step_reported s id cid :
    ac_conns s !! id = Some (cid, Serving) ->
    accept_step s (Reported id (ac_sessions s))
      (mk_acceptor (set_phase id cid Closed_ (ac_conns s)) (ac_sessions s))
| step_ended_serving s id cid :
    ac_conns s !! id = Some (cid, Serving) ->
    accept_step s (Ended id) (mk_acceptor (set_phase id cid Closed_ (ac_conns s)) (ac_sessions s))
| step_ended_session s id cid :
    ac_conns s !! id = Some (cid, InSession) ->
    accept_step s (Ended id)
      (mk_acceptor (set_phase id cid Closed_ (ac_conns s)) (u64_wrap (ac_sessions s - 1))).

(** The connections that are in a session. *)
Definition in_session (c : Z * conn_phase) : Prop := c.2 = InSession.
#[export] Instance in_session_dec c : Decision (in_session c) := conn_phase_eq_dec _ _.
Definition live (s : acceptor) : Z :=
  Z.of_nat (length (filter in_session (ac_conns s))).
