(* ===== verification/AgentSpec.v ===== *)
(** * AgentSpec: what a control connection to the guest agent promises. *)
From S2P Require Import Prelude Bytes Message Frame DemoCodec FrameSpec Process Session SessionSpec Agent.

Section spec.
Context {W : WireCodec} (from_named_raw : Z -> option Z).

Definition refusals : list bytes :=
  [bs "shutdown"; bs "meminfo"; bs "trim"; bs "state"; bs "framing"].

(** What one request may be answered with: the result, whether the poweroff trigger was
    touched, and the frames. *)
Inductive request_report (w : world) (live : Z) : result unit unit -> bool -> list AgentFrame -> Prop :=
| rr_pong : request_report w live (Ok tt) false [A_Pong]
| rr_sessions : request_report w live (Ok tt) false [A_Sessions (mk_SessionCount live)]
| rr_shutdown : w_trigger w = Ok tt -> request_report w live (Ok tt) true [A_ShutdownAck]
| rr_memory text report :
    w_meminfo w = Ok text -> parse_meminfo text = Some report ->
    request_report w live (Ok tt) false [A_Memory report]
| rr_trim request : w_trim w request = Ok tt -> request_report w live (Ok tt) false [A_TrimAck]
| rr_session r frames :
    session_report r frames -> request_report w live (map_err (fun _ => tt) r) false frames
| rr_refused code :
    code ∈ refusals ->
    request_report w live (Err tt) false [A_Error (mk_ProtocolErrorMessage code)]
| rr_unsent touched :
    (touched = true -> w_trigger w = Ok tt) -> request_report w live (Err tt) touched [].

(** The same for a whole connection; [greeting] is what reading the first frame gave. *)
Inductive connection_report (expected : bytes) (greeting : result ClientFrame FrameError)
    (w : world) (live : Z) : result unit unit -> bool -> list AgentFrame -> Prop :=
| cr_greeted r touched frames :
    greeting = Ok (C_Hello (mk_Hello SCHEMA_VERSION expected)) ->
    request_report w live r touched frames ->
    connection_report expected greeting w live r touched (A_Hello (mk_Hello SCHEMA_VERSION expected) :: frames)
| cr_refused code :
    greeting <> Ok (C_Hello (mk_Hello SCHEMA_VERSION expected)) ->
    code = (if is_ok greeting then bs "authorization" else bs "framing") ->
    connection_report expected greeting w live (Err tt) false [A_Error (mk_ProtocolErrorMessage code)]
| cr_unsent : connection_report expected greeting w live (Err tt) false [].

Definition reports (P : result unit unit -> bool -> list AgentFrame -> Prop) (a : agent) (o : outcome) : Prop :=
  match o with
  | Done r a' => exists added touched, c_log (ag_conn a') = c_log (ag_conn a) ++ added /\
      ag_power a' = ag_power a || touched /\ P r touched added
  | Pending | OutOfFuel => True
  end.

Lemma safe_error_log a code :
  ag_power (safe_error a code) = ag_power a /\
  (c_log (ag_conn (safe_error a code)) = c_log (ag_conn a) ++ [A_Error (mk_ProtocolErrorMessage code)] \/
   c_log (ag_conn (safe_error a code)) = c_log (ag_conn a)).
Proof.
  split; [done|]. unfold safe_error.
  destruct (send _ (ag_conn a)) as [[u|e] c] eqn:E; apply send_log in E; simpl; rewrite E; auto.
Qed.

Lemma answer_reports (P : _ -> _ -> _ -> Prop) touched f a0 a :
  c_log (ag_conn a) = c_log (ag_conn a0) -> ag_power a = ag_power a0 || touched ->
  P (Ok tt) touched [f] -> P (Err tt) touched [] -> reports P a0 (answer f a).
Proof.
  intros Hl Hp H1 H2. unfold answer. destruct (send f (ag_conn a)) as [[[]|e] c] eqn:E; apply send_log in E.
  - exists [f], touched. simpl. by rewrite E, Hl.
  - exists [], touched. simpl. by rewrite E, Hl, app_nil_r.
Qed.

Lemma refuse_reports (P : _ -> _ -> _ -> Prop) code a0 a :
  c_log (ag_conn a) = c_log (ag_conn a0) -> ag_power a = ag_power a0 ->
  P (Err tt) false [A_Error (mk_ProtocolErrorMessage code)] -> P (Err tt) false [] ->
  reports P a0 (refuse a code).
Proof.
  intros Hl Hp H1 H2. unfold refuse. destruct (safe_error_log a code) as [Hs [Hlog|Hlog]].
  - exists [A_Error (mk_ProtocolErrorMessage code)], false. rewrite Hlog, Hs, Hl, Hp, orb_false_r. done.
  - exists [], false. rewrite Hlog, Hs, Hl, Hp, orb_false_r, app_nil_r. done.
Qed.

Lemma serve_reports fuel w size a0 a :
  c_log (ag_conn a) = c_log (ag_conn a0) -> ag_power a = ag_power a0 ->
  reports (request_report w (ag_sessions a)) a0 (serve from_named_raw fuel w size a).
Proof.
  revert size a. induction fuel as [|fuel IH]; intros size a Hl Hp; [done|]. cbn [serve].
  destruct (read_client_frame (ag_in a)) as [frame i].
  assert (ag_power (with_reader i a) = ag_power a0 || false) as Hp' by (by rewrite orb_false_r).
  assert (forall code, code ∈ refusals -> reports (request_report w (ag_sessions a)) a0
    (refuse (with_reader i a) code)) as Href
    by (intros code Hc; apply refuse_reports; [done..|by constructor|by constructor]).
  assert (forall f, request_report w (ag_sessions a) (Ok tt) false [f] ->
    reports (request_report w (ag_sessions a)) a0 (answer f (with_reader i a))) as Hans
    by (intros f Hf; eapply (answer_reports _ false); [done..|by constructor]).
  unfold refusals in Href.
  destruct frame as [[]|e]; try (apply Href; rewrite !elem_of_cons; tauto).
  - apply Hans. constructor.
  - change (ag_in (with_reader i a)) with i. cbn [fetch_add ag_in ag_conn with_reader].
    destruct (run _ _ _ _ _ _) as [[[res i'] c]|] eqn:E; [|done].
    apply run_report in E as (added & Hadd & Hr). exists added, false.
    split_and!; [cbn; by rewrite Hadd, Hl|exact Hp'|by apply rr_session].
  - destruct size; [apply Href; rewrite !elem_of_cons; tauto|]. by apply (IH _ (with_reader i a)).
  - apply Hans. constructor.
  - destruct (w_trigger w) as [[]|] eqn:E; [|apply Href; rewrite !elem_of_cons; tauto].
    apply (answer_reports _ true); simpl; [done|by rewrite orb_true_r|by constructor|by constructor].
  - destruct (w_meminfo w) as [text|] eqn:E; simpl; [|apply Href; rewrite !elem_of_cons; tauto].
    destruct (parse_meminfo text) as [report|] eqn:E2; [|apply Href; rewrite !elem_of_cons; tauto].
    apply Hans. by eapply rr_memory.
  - destruct (w_trim w _) as [[]|] eqn:E; [|apply Href; rewrite !elem_of_cons; tauto].
    apply Hans. by eapply rr_trim.
Qed.

(** A control connection follows the protocol.  Without the expected schema version and
    boot identity in a first [Hello] it is answered with one [authorization] or [framing]
    error and nothing happens.  A greeted connection is answered once: the poweroff trigger
    is touched only for a [Shutdown] and before its acknowledgement, the memory report is the
    kernel's, a trim is acknowledged only when it completed, and a session reports as
    [session_report] says. *)
Theorem handle_follows_protocol fuel expected w a :
  reports (connection_report expected (fst (read_client_frame (ag_in a))) w (ag_sessions a)) a
    (handle from_named_raw fuel expected w a).
Proof.
  unfold handle. destruct (read_client_frame (ag_in a)) as [frame i]. cbn [fst].
  assert (forall frame, frame <> Ok (C_Hello (mk_Hello SCHEMA_VERSION expected)) ->
    reports (connection_report expected frame w (ag_sessions a)) a
      (refuse (with_reader i a) (if is_ok frame then bs "authorization" else bs "framing"))) as Href
    by (intros; apply refuse_reports; [done..|by constructor|by constructor]).
  destruct frame as [f|e]; [|by apply (Href (Err e))].
  destruct f as [[v b]| | | | | | | | | |]; try (by apply (Href (Ok _))).
  cbn [schema_version boot_identity].
  destruct (Z.eqb_spec v SCHEMA_VERSION) as [->|Hv]; cbn [andb].
  2: { apply (Href (Ok _)). intros [= Hv' _]. done. }
  destruct (bytes_eqb b expected) eqn:Hb.
  2: { apply (Href (Ok _)). intros [= Hb']. apply not_true_iff_false in Hb. apply Hb, bytes_eqb_true, Hb'. }
  apply bytes_eqb_true in Hb as ->.
  destruct (send _ _) as [[[]|e] c] eqn:E; apply send_log in E.
  2: { exists [], false. cbn. rewrite E, app_nil_r, orb_false_r. repeat split. constructor. }
  pose proof (serve_reports fuel w None (with_conn c (with_reader i a)) (with_conn c (with_reader i a))
    eq_refl eq_refl) as Hs.
  destruct (serve _ _ _ _ _) as [r a'| |]; [|done..].
  destruct Hs as (added & touched & Hl & Hp & Hr). exists (A_Hello (mk_Hello SCHEMA_VERSION expected) :: added), touched.
  split_and!; [|exact Hp|by constructor].
  rewrite Hl. cbn [ag_conn with_conn]. rewrite E, <- app_assoc. done.
Qed.

(* ------------------------------------------------------------------ *)
(** ** Termination and the counter *)

Lemma serve_in_fuel fuel w (size : option TerminalSize) a :
  (match size with Some _ => 1 | None => 2 end <= fuel)%nat -> serve from_named_raw fuel w size a <> OutOfFuel.
Proof.
  revert size a. induction fuel as [|fuel IH]; intros size a Hf; [destruct size; lia|]. cbn [serve].
  destruct (read_client_frame (ag_in a)) as [frame i].
  destruct frame as [[]|]; unfold answer, refuse; repeat case_match; try discriminate.
  apply IH. simpl. lia.
Qed.

(** The connection loop ends: it goes round at most once, for a first [Resize]. *)
Theorem serve_two_rounds expected w a : handle from_named_raw 2 expected w a <> OutOfFuel.
Proof.
  unfold handle, refuse. repeat case_match; try discriminate. by apply serve_in_fuel.
Qed.

Lemma u64_wrap_back n : 0 <= n < 2 ^ 64 -> u64_wrap (u64_wrap (n + 1) + -1) = n.
Proof.
  intros Hn. unfold u64_wrap. rewrite Zplus_mod_idemp_l. rewrite Z.mod_small; lia.
Qed.

Lemma serve_counter fuel w size a r a' :
  0 <= ag_sessions a < 2 ^ 64 ->
  serve from_named_raw fuel w size a = Done r a' -> ag_sessions a' = ag_sessions a.
Proof.
  revert size a. induction fuel as [|fuel IH]; intros size a Hn; [done|]. cbn [serve].
  destruct (read_client_frame (ag_in a)) as [frame i].
  destruct frame as [[]|]; unfold answer, refuse; repeat case_match; intros [= <- <-] || intros Hdone;
    try done.
  - cbn. by apply u64_wrap_back.
  - by apply IH in Hdone.
Qed.

(** A connection gives back what it added to the live-session counter, however it ends. *)
Theorem handle_gives_the_count_back fuel expected w a r a' :
  0 <= ag_sessions a < 2 ^ 64 ->
  handle from_named_raw fuel expected w a = Done r a' -> ag_sessions a' = ag_sessions a.
Proof.
  intros Hn. unfold handle, refuse. repeat case_match; intros Hdone; try (by injection Hdone as <- <-).
  by apply serve_counter in Hdone.
Qed.
End spec.

(* ------------------------------------------------------------------ *)
(** ** The accept loop *)

Definition counted (s : acceptor) : Prop :=
  ac_sessions s = u64_wrap (live s) /\ Forall (fun c => c.1 = VMADDR_CID_HOST) (ac_conns s).

Lemma live_app l r : length (filter in_session (l ++ r)) = (length (filter in_session l) + length (filter in_session r))%nat.
Proof. by rewrite filter_app, length_app. Qed.

(** Moving one connection to another phase changes the number in a session by what that
    connection counts. *)
Lemma live_set_phase l id cid p q :
  l !! id = Some (cid, p) ->
  Z.of_nat (length (filter in_session (set_phase id cid q l))) =
  Z.of_nat (length (filter in_session l)) - (if decide (p = InSession) then 1 else 0)
    + (if decide (q = InSession) then 1 else 0).
Proof.
  intros Hl. unfold set_phase. pose proof (lookup_lt_Some _ _ _ Hl) as Hlt.
  pose proof (live_app (take id l) ((cid, p) :: drop (S id) l)) as El.
  rewrite (take_drop_middle l id _ Hl) in El. rewrite El, insert_take_drop, live_app by done.
  rewrite !filter_cons. unfold in_session. simpl. repeat case_decide; simpl; first [congruence | lia].
Qed.

Lemma set_phase_host l id cid p q :
  l !! id = Some (cid, p) -> Forall (fun c => c.1 = VMADDR_CID_HOST) l ->
  Forall (fun c => c.1 = VMADDR_CID_HOST) (set_phase id cid q l).
Proof.
  intros Hl Hf. apply Forall_insert; [done|]. by apply (Forall_lookup_1 _ _ _ _ Hf Hl).
Qed.

Lemma accept_step_counted s e s' : counted s -> accept_step s e s' -> counted s'.
Proof.
  intros [Hn Hf] Hstep. unfold counted, live in *.
  destruct Hstep as [s cid Hc|s cid ->|s id cid Hid|s id cid Hid|s id cid Hid|s id cid Hid];
    cbn [ac_conns ac_sessions] in *;
    try (split; [|by eapply set_phase_host];
         rewrite Hn, (live_set_phase _ _ _ _ _ Hid); unfold u64_wrap;
         rewrite ?Zplus_mod_idemp_l, ?Zminus_mod_idemp_l; f_equal;
         repeat case_decide; first [congruence | lia]).
  - done.
  - split; [|apply Forall_app; split; [done|by repeat constructor]].
    rewrite live_app. simpl. by rewrite Nat.add_0_r.
Qed.

(** However connections interleave, the shared counter is the number of connections in a
    session (as a u64), only host peers ever get a connection, and a [Sessions] query is
    answered with the number of sessions live at that moment, its own connection not among
    them. *)
Theorem sessions_are_counted ls s :
  steps accept_step acceptor_start ls s ->
  counted s /\
  forall id n s', accept_step s (Reported id n) s' ->
    n = u64_wrap (live s) /\ live s' = live s.
Proof.
  intros Hs. assert (counted s) as Hc.
  { apply (steps_invariant _ counted accept_step_counted acceptor_start ls s); [|done]. split; [done|constructor]. }
  split; [done|]. intros id n s' Hstep. inversion Hstep as [| | |? ? cid Hid| |]; subst.
  split; [apply Hc|]. unfold live. cbn [ac_conns].
  rewrite (live_set_phase _ _ _ _ _ Hid). simpl. lia.
Qed.

Definition demo_accepts : list accept_event :=
  [Accepted 3; Accepted 2; Started 0; Accepted 2; Started 1; Ended 0].
Definition demo_acceptor : acceptor := mk_acceptor [(2, Closed_); (2, InSession)] 1.

Lemma demo_accepts_run : steps accept_step acceptor_start demo_accepts demo_acceptor.
Proof.
  eapply steps_cons; [by apply step_ignored|].
  eapply steps_cons; [by apply step_accepted|].
  eapply steps_cons; [by apply (step_started _ 0 2)|].
  eapply steps_cons; [by apply step_accepted|].
  eapply steps_cons; [by apply (step_started _ 1 2)|].
  eapply steps_cons; [by apply (step_ended_session _ 0 2)|].
  apply steps_nil.
Qed.

Lemma sessions_are_counted_witness : counted demo_acceptor.
Proof. exact (proj1 (sessions_are_counted demo_accepts demo_acceptor demo_accepts_run)). Defined.

(* ------------------------------------------------------------------ *)
(** ** The boot identity *)

(** The kernel command line that separates its tokens by single spaces. *)
Definition token (t : bytes) : Prop := t <> [] /\ Forall (fun b => is_ascii_whitespace b = false) t.

Lemma split_ws_token t s :
  Forall (fun b => is_ascii_whitespace b = false) t -> split_ws (t ++ " "%byte :: s) = t :: split_ws s.
Proof.
  induction t as [|b t IH]; intros Ht; [done|]. apply Forall_cons in Ht as [Hb Ht].
  simpl. rewrite Hb, (IH Ht). done.
Qed.

Lemma split_ws_single t : Forall (fun b => is_ascii_whitespace b = false) t -> split_ws t = [t].
Proof.
  induction t as [|b t IH]; intros Ht; [done|]. apply Forall_cons in Ht as [Hb Ht].
  simpl. by rewrite Hb, (IH Ht).
Qed.

Lemma split_ascii_whitespace_join ts :
  Forall token ts -> split_ascii_whitespace (join_with " " ts) = ts.
Proof.
  unfold split_ascii_whitespace.
  induction ts as [|t ts IH]; intros Ht; [done|]. apply Forall_cons in Ht as [[Hne Ht] Hts].
  destruct ts as [|t' ts].
  - simpl. rewrite split_ws_single by done. by rewrite filter_cons_True.
  - change (join_with " " (t :: t' :: ts)) with (t ++ " "%byte :: join_with " " (t' :: ts)).
    rewrite split_ws_token by done. rewrite filter_cons_True by done. by rewrite IH.
Qed.

(** The boot identity of a kernel command line is the value of its one
    [vivarium.boot_identity=] token when that value is a lowercase UUID; no such token, two of
    them, or another value are told apart. *)
Theorem parse_boot_identity_spec ts :
  Forall token ts ->
  match omap (strip_prefix KEY) ts with
  | [] => parse_boot_identity (join_with " " ts) = Err Boot_Missing
  | [v] => (uuid_shape v /\ parse_boot_identity (join_with " " ts) = Ok v) \/
           (~ uuid_shape v /\ parse_boot_identity (join_with " " ts) = Err Boot_Invalid)
  | _ => parse_boot_identity (join_with " " ts) = Err Boot_Duplicate
  end.
Proof.
  intros Ht. unfold parse_boot_identity. rewrite split_ascii_whitespace_join by done.
  destruct (omap _ ts) as [|v [|v' vs]]; [done| |done]. simpl.
  rewrite uuid_shape_positions, <- (validate_boot_identity_ok v tt).
  destruct (validate_boot_identity v) as [[]|e]; simpl; [left|right]; done.
Qed.

Definition demo_cmdline : list bytes := [bs "quiet"; KEY ++ demo_identity; bs "panic=-1"].
Lemma parse_boot_identity_spec_witness :
  Forall token demo_cmdline /\ parse_boot_identity (join_with " " demo_cmdline) = Ok demo_identity.
Proof.
  assert (Forall token demo_cmdline) as Ht.
  { repeat (constructor; [split; [discriminate|vm_compute; repeat constructor]|]). constructor. }
  split; [exact Ht|]. pose proof (parse_boot_identity_spec demo_cmdline Ht) as H.
  destruct H as [[_ H]|[_ H]]; [exact H|]. exfalso. vm_compute in H. discriminate H.
Defined.

(** What the gate of the counter needs at a concrete connection: a greeted ping. *)
Definition demo_agent : agent :=
  mk_agent (mk_reader (framed TAG_CLIENT_HELLO (default [] (@to_vec _ (@wc_hello demo_codec) demo_hello)) ++ framed TAG_PING []) None)
    (mk_conn (mk_writer [] None true) []) 3 false.
Definition demo_world : world :=
  mk_world (Ok tt) (Err OtherIo) (fun _ => Err tt) (fun _ _ => Err InvalidRequest).
Definition demo_ended : agent :=
  match @handle demo_codec (fun _ => None) 2 demo_identity demo_world demo_agent with Done _ a => a | _ => demo_agent end.

Lemma handle_gives_the_count_back_witness :
  ag_sessions demo_ended = 3 /\ c_log (ag_conn demo_ended) = [A_Hello demo_hello; A_Pong].
Proof.
  split; [|vm_compute; reflexivity].
  apply (@handle_gives_the_count_back demo_codec (fun _ => None) 2 demo_identity demo_world demo_agent (Ok tt)).
  - vm_compute. split; [discriminate|reflexivity].
  - vm_compute. reflexivity.
Defined.
