(* ===== verification/Trim.v ===== *)
(** * Trim: the completion promise of a guest trim
    (src/src/bin/vivarium-guest-agent/control.rs [run_trim], src/nix/fstrim-run.sh).

    The agent and root's fstrim unit meet only in files of /run/vivarium: the request the
    agent renames into place, the aside copy the unit works from, the marker it leaves.  The
    handlers, the unit and the clock interleave as a step relation; [trim_serial] is the one
    holder. *)
From S2P Require Import Prelude Bytes Message.

(** The refusal in front of [run_trim]. *)
Definition trim_refused (mountpoints : list bytes) : bool :=
  match mountpoints with [] => true | _ => false end ||
  existsb (fun mount => bool_decide (mount = []) || contains x0a mount) mountpoints.

(** [format!("# {}-{}", pid, sequence)]. *)
Definition token_of (pid sequence : Z) : bytes := bs "# " ++ dec pid ++ bs "-" ++ dec sequence.

(** The request file: the token line, then one line per mountpoint. *)
Definition trim_body (token : bytes) (mountpoints : list bytes) : bytes :=
  fold_left (fun body mount => (body ++ mount) ++ [x0a]) mountpoints (token ++ [x0a]).

(** [marker.lines().next() == Some(token)]. *)
Definition marker_is_own (token marker : bytes) : bool := bool_decide (head (lines marker) = Some token).

(** The unit's [while IFS= read -r mount] lines, and the ones its [case] passes over. *)
Definition unit_lines (body : bytes) : list bytes := removelast (split_on x0a body).
Definition unit_skips (mount : bytes) : bool :=
  bool_decide (mount = []) || starts_with (bs "#") mount.

Section trim.
Context (pid : Z).

(** One boot: the files, the unit's remaining lines, the counter, the holder of the lock with
    its request, and what happened: the requests issued, the fstrims run (each with the
    request it ran for), the acknowledgements. *)
Record trim_state := mk_trim {
  tr_request : option bytes;
  tr_active : option bytes;
  tr_done : option bytes;
  tr_unit : option (list bytes);
  tr_sequence : Z;
  tr_holder : option (bytes * list bytes);
  tr_issued : list (bytes * list bytes);
  tr_trimmed : list (bytes * bytes);
  tr_acked : list (bytes * list bytes) }.
Definition trim_start : trim_state := mk_trim None None None None 0 None [] [] [].

Inductive trim_event :=
| TrimRequested (mountpoints : list bytes)  (* lock taken, stale marker removed, request in place *)
| TrimUnwritten (mountpoints : list bytes)  (* the same with a failed write or rename *)
| UnitTakes | UnitTrims | UnitMarks
| TrimPolled (readable : bool)              (* the marker renamed away and read *)
| TrimTimedOut.

Definition issue (written : bool) (mountpoints : list bytes) (s : trim_state) : trim_state :=
  let token := token_of pid (tr_sequence s) in
  mk_trim (if written then Some (trim_body token mountpoints) else tr_request s)
    (tr_active s) None (tr_unit s) ((tr_sequence s + 1) mod 2 ^ 64)
    (if written then Some (token, mountpoints) else None)
    (tr_issued s ++ [(token, mountpoints)]) (tr_trimmed s) (tr_acked s).
Definition release (s : trim_state) : trim_state :=
  mk_trim (tr_request s) (tr_active s) (tr_done s) (tr_unit s) (tr_sequence s) None
    (tr_issued s) (tr_trimmed s) (tr_acked s).
Definition consume (s : trim_state) : trim_state :=
  mk_trim (tr_request s) (tr_active s) None (tr_unit s) (tr_sequence s) (tr_holder s)
    (tr_issued s) (tr_trimmed s) (tr_acked s).
Definition acknowledge (token : bytes) (mountpoints : list bytes) (s : trim_state) : trim_state :=
  mk_trim (tr_request s) (tr_active s) (tr_done s) (tr_unit s) (tr_sequence s) None
    (tr_issued s) (tr_trimmed s) (tr_acked s ++ [(token, mountpoints)]).
Definition unit_takes (body : bytes) (s : trim_state) : trim_state :=
  mk_trim None (Some body) (tr_done s) (Some (unit_lines body)) (tr_sequence s) (tr_holder s)
    (tr_issued s) (tr_trimmed s) (tr_acked s).
Definition unit_trims (body mount : bytes) (rest : list bytes) (s : trim_state) : trim_state :=
  mk_trim (tr_request s) (tr_active s) (tr_done s) (Some rest) (tr_sequence s) (tr_holder s)
    (tr_issued s) (tr_trimmed s ++ if unit_skips mount then [] else [(body, mount)]) (tr_acked s).
Definition unit_marks (body : bytes) (s : trim_state) : trim_state :=
  mk_trim (tr_request s) None (Some body) None (tr_sequence s) (tr_holder s)
    (tr_issued s) (tr_trimmed s) (tr_acked s).

(** One look at the marker by the holder. *)
Definition polled (readable : bool) (s : trim_state) : option trim_state :=
  match tr_holder s, tr_done s with
  | Some (token, mountpoints), Some content =>
      let marker := if readable then content else [] in
      if marker_is_own token marker then Some (acknowledge token mountpoints (consume s))
      else Some (consume s)
  | Some _, None => Some s
  | None, _ => None
  end.

Inductive trim_step : trim_state -> trim_event -> trim_state -> Prop :=
| trim_requested s mountpoints :
    tr_holder s = None -> trim_refused mountpoints = false ->
    trim_step s (TrimRequested mountpoints) (issue true mountpoints s)
| trim_unwritten s mountpoints :
    tr_holder s = None -> trim_refused mountpoints = false ->
    trim_step s (TrimUnwritten mountpoints) (issue false mountpoints s)
| trim_unit_takes s body :
    tr_unit s = None -> tr_request s = Some body ->
    trim_step s UnitTakes (unit_takes body s)
| trim_unit_trims s body mount rest :
    tr_active s = Some body -> tr_unit s = Some (mount :: rest) ->
    trim_step s UnitTrims (unit_trims body mount rest s)
| trim_unit_marks s body :
    tr_active s = Some body -> tr_unit s = Some [] ->
    trim_step s UnitMarks (unit_marks body s)
| trim_polled s readable s' :
    polled readable s = Some s' -> trim_step s (TrimPolled readable) s'
| trim_timed_out s request :
    tr_holder s = Some request -> trim_step s TrimTimedOut (release s).

(* ------------------------------------------------------------------ *)
(** ** What holds of every boot *)

(** The unit ran fstrim for this request on every line that is a mountpoint to it. *)
Definition completed (s : trim_state) (body : bytes) : Prop :=
  Forall (fun mount => unit_skips mount = true \/ (body, mount) ∈ tr_trimmed s) (unit_lines body).
Definition issued_body (s : trim_state) (body : bytes) : Prop :=
  exists token ms, (token, ms) ∈ tr_issued s /\ body = trim_body token ms.

Record trim_inv (s : trim_state) : Prop := {
  ti_issued : forall i token ms, tr_issued s !! i = Some (token, ms) ->
    token = token_of pid (Z.of_nat i mod 2 ^ 64) /\ trim_refused ms = false;
  ti_sequence : tr_sequence s = Z.of_nat (length (tr_issued s)) mod 2 ^ 64;
  ti_request : forall b, tr_request s = Some b -> issued_body s b;
  ti_active : forall b, tr_active s = Some b -> issued_body s b /\
    forall rest, tr_unit s = Some rest -> exists processed, unit_lines b = processed ++ rest /\
      Forall (fun mount => unit_skips mount = true \/ (b, mount) ∈ tr_trimmed s) processed;
  ti_done : forall b, tr_done s = Some b -> issued_body s b /\ completed s b;
  ti_holder : forall h, tr_holder s = Some h -> h ∈ tr_issued s;
  ti_acked : forall token ms, (token, ms) ∈ tr_acked s -> (token, ms) ∈ tr_issued s /\
    exists b, issued_body s b /\ completed s b /\ marker_is_own token b = true }.

Lemma token_free c n :
  is_ascii_digit c = false -> contains c (bs "# -") = false ->
  0 <= pid <= u32_max -> 0 <= n <= u64_max -> c ∉ token_of pid n.
Proof.
  unfold u32_max, u64_max. intros Hc Hs Hp Hn Hin. unfold token_of in Hin.
  assert (forall z, 0 <= z < 10 ^ 20 -> c ∉ dec z) as Hd.
  { intros z Hz Hz'. destruct (dec_spec z Hz) as [Hf _].
    rewrite forallb_forall in Hf. apply list_elem_of_In, Hf in Hz'. congruence. }
  assert (pid < 10 ^ 20 /\ n < 10 ^ 20) as [? ?] by lia.
  apply contains_false in Hs. apply Hs.
  repeat (apply elem_of_app in Hin as [Hin|Hin]);
    try (exfalso; apply (Hd pid); [lia|done]); try (exfalso; apply (Hd n); [lia|done]);
    change (bs "# -") with (bs "# " ++ bs "-"); apply elem_of_app; auto.
Qed.

Lemma token_cr n : 0 <= pid <= u32_max -> 0 <= n <= u64_max -> drop_cr (token_of pid n) = token_of pid n.
Proof.
  intros Hp Hn. unfold drop_cr. destruct (strip_suffix _ _) as [r|] eqn:E; [|done].
  apply strip_suffix_Some in E. exfalso. apply (token_free x0d n); [done..|].
  rewrite E. apply elem_of_app. right. by apply list_elem_of_singleton.
Qed.

Lemma token_inj a b : 0 <= a <= u64_max -> 0 <= b <= u64_max -> token_of pid a = token_of pid b -> a = b.
Proof.
  intros Ha Hb H. unfold token_of in H. repeat apply app_inv_head in H.
  assert (parse_uint u64_max (dec a) = parse_uint u64_max (dec b)) as E by (by rewrite H).
  rewrite !parse_uint_dec in E by (unfold u64_max in *; lia). by simplify_eq.
Qed.

Lemma trim_body_lines token ms : trim_body token ms = join_with x0a (token :: ms ++ [[]]).
Proof.
  unfold trim_body. revert token. induction ms as [|m ms IH]; intros token; [done|].
  cbn [fold_left]. transitivity (trim_body (token ++ [x0a] ++ m) ms).
  - unfold trim_body. by rewrite <- !app_assoc.
  - unfold trim_body. rewrite IH. cbn [app]. destruct ms; simpl; by rewrite <- ?app_assoc.
Qed.

Lemma trim_refused_false ms :
  trim_refused ms = false <-> ms <> [] /\ Forall (fun m => m <> [] /\ x0a ∉ m) ms.
Proof.
  unfold trim_refused. rewrite orb_false_iff, Forall_forall.
  rewrite <- (not_true_iff_false (existsb _ ms)), existsb_exists.
  split.
  - intros [Hm He]. split; [by destruct ms|]. intros m Hin.
    split.
    + intros ->. apply He. exists []. split; [by apply list_elem_of_In|done].
    + intros Hn%contains_true. apply He. exists m. split; [by apply list_elem_of_In|].
      by rewrite Hn, orb_true_r.
  - intros [Hne Hall]. split; [by destruct ms|]. intros (m & Hin & Hc).
    apply list_elem_of_In, Hall in Hin as [H1 H2].
    apply orb_true_iff in Hc as [Hc%bool_decide_eq_true|Hc%contains_true]; done.
Qed.

(** The body's lines are the token and the mountpoints again, to the unit and to the agent. *)
Lemma unit_lines_body token ms :
  x0a ∉ token -> Forall (fun m => x0a ∉ m) ms -> unit_lines (trim_body token ms) = token :: ms.
Proof.
  intros Ht Hms. unfold unit_lines. rewrite trim_body_lines, split_join; [|done|].
  - by rewrite app_comm_cons, removelast_last.
  - constructor; [done|]. apply Forall_app. split; [done|]. repeat constructor. apply not_elem_of_nil.
Qed.

Lemma first_line_body token ms :
  x0a ∉ token -> Forall (fun m => x0a ∉ m) ms -> drop_cr token = token ->
  head (lines (trim_body token ms)) = Some token.
Proof.
  intros Ht Hms Hcr. unfold lines. rewrite trim_body_lines, split_join; [|done|].
  - rewrite app_comm_cons, last_snoc. rewrite removelast_last. simpl. by rewrite Hcr.
  - constructor; [done|]. apply Forall_app. split; [done|]. repeat constructor. apply not_elem_of_nil.
Qed.

(** What later steps only add to. *)
Definition extends (s s' : trim_state) : Prop :=
  (forall x, x ∈ tr_issued s -> x ∈ tr_issued s') /\ (forall x, x ∈ tr_trimmed s -> x ∈ tr_trimmed s').

Lemma issued_body_extends s s' b : extends s s' -> issued_body s b -> issued_body s' b.
Proof. intros [Hi _] (t & ms & Hin & ->). exists t, ms. auto. Qed.
Lemma trimmed_extends s s' b l :
  extends s s' -> Forall (fun m => unit_skips m = true \/ (b, m) ∈ tr_trimmed s) l ->
  Forall (fun m => unit_skips m = true \/ (b, m) ∈ tr_trimmed s') l.
Proof. intros [_ Ht] H. eapply Forall_impl; [exact H|]. intros m [?|?]; auto. Qed.
Lemma completed_extends s s' b : extends s s' -> completed s b -> completed s' b.
Proof. intros He. by apply trimmed_extends. Qed.
#[local] Hint Resolve issued_body_extends completed_extends trimmed_extends : viv.

Lemma acked_extends s s' :
  extends s s' -> tr_acked s' = tr_acked s -> trim_inv s ->
  forall token ms, (token, ms) ∈ tr_acked s' -> (token, ms) ∈ tr_issued s' /\
    exists b, issued_body s' b /\ completed s' b /\ marker_is_own token b = true.
Proof.
  intros He Ha Hinv token ms. rewrite Ha. intros Hin.
  destruct (ti_acked _ Hinv _ _ Hin) as (Hi & b & Hb & Hc & Hm).
  split; [by apply He|]. exists b. eauto with viv.
Qed.

(** Moves that only touch the lock or throw a marker away. *)
Lemma trim_inv_drop s s' :
  trim_inv s -> tr_request s' = tr_request s -> tr_active s' = tr_active s ->
  tr_unit s' = tr_unit s -> tr_sequence s' = tr_sequence s -> tr_issued s' = tr_issued s ->
  tr_trimmed s' = tr_trimmed s -> tr_done s' = None \/ tr_done s' = tr_done s ->
  tr_holder s' = None \/ tr_holder s' = tr_holder s ->
  (forall token ms, (token, ms) ∈ tr_acked s' -> (token, ms) ∈ tr_issued s /\
    exists b, issued_body s b /\ completed s b /\ marker_is_own token b = true) ->
  trim_inv s'.
Proof.
  intros Hinv Er Ea Eu Es Ei Et Ed Eh Hack.
  assert (extends s s') as He by (split; rewrite ?Ei, ?Et; done).
  split; rewrite ?Er, ?Ea, ?Eu, ?Es, ?Ei.
  - apply Hinv.
  - apply Hinv.
  - intros b Hb%(ti_request _ Hinv). eauto with viv.
  - intros b Hb. destruct (ti_active _ Hinv _ Hb) as [Hi Hr]. split; [eauto with viv|].
    intros rest (pr & Hp & Hf)%Hr. exists pr. eauto with viv.
  - intros b Hb. destruct Ed as [Ed|Ed]; rewrite Ed in Hb; [done|].
    destruct (ti_done _ Hinv _ Hb). eauto with viv.
  - intros h Hh. destruct Eh as [Eh|Eh]; rewrite Eh in Hh; [done|]. by apply (ti_holder _ Hinv).
  - intros token ms (Hin & b & Hb & Hc & Hm)%Hack. split; [done|]. exists b. eauto with viv.
Qed.

Lemma issue_inv written ms s :
  trim_inv s -> tr_holder s = None -> trim_refused ms = false -> trim_inv (issue written ms s).
Proof.
  intros Hinv Hh Href. assert (extends s (issue written ms s)) as He
    by (split; intros x Hx; simpl; [apply elem_of_app; by left|done]).
  split; cbn [issue tr_request tr_active tr_done tr_unit tr_sequence tr_holder tr_issued tr_trimmed tr_acked].
  - intros i token ms' [Hi|[Hlen Hi]]%lookup_app_Some; [by apply (ti_issued _ Hinv)|].
    apply list_lookup_singleton_Some in Hi as [Hi [= <- <-]]. split; [|done].
    rewrite (ti_sequence _ Hinv). by replace i with (length (tr_issued s)) by lia.
  - rewrite (ti_sequence _ Hinv), length_app. simpl. rewrite Zplus_mod_idemp_l. f_equal. lia.
  - intros b Hb. destruct written; [|eauto using ti_request with viv].
    injection Hb as <-. eexists _, _. split; [|done]. cbn. apply elem_of_app. right. by apply list_elem_of_singleton.
  - intros b Hb. destruct (ti_active _ Hinv _ Hb) as [Hi Hr]. split; [eauto with viv|].
    intros rest (pr & Hp & Hf)%Hr. exists pr. eauto with viv.
  - done.
  - intros h. destruct written; [|done]. intros [= <-]. apply elem_of_app. right. by apply list_elem_of_singleton.
  - by apply (acked_extends _ _ He eq_refl Hinv).
Qed.

Lemma unit_takes_inv body s :
  trim_inv s -> tr_request s = Some body -> trim_inv (unit_takes body s).
Proof.
  intros Hinv Hr. assert (extends s (unit_takes body s)) as He by done.
  split; cbn [unit_takes tr_request tr_active tr_done tr_unit tr_sequence tr_holder tr_issued tr_trimmed tr_acked];
    try apply Hinv; try done.
  intros b [= <-]. split; [by apply (issued_body_extends s), (ti_request _ Hinv)|].
  intros rest [= <-]. by exists [].
Qed.

Lemma unit_trims_inv body mount rest s :
  trim_inv s -> tr_active s = Some body -> tr_unit s = Some (mount :: rest) ->
  trim_inv (unit_trims body mount rest s).
Proof.
  intros Hinv Ha Hu. set (s' := unit_trims body mount rest s). assert (extends s s') as He
    by (split; intros x Hx; simpl; [done|apply elem_of_app; by left]).
  destruct (ti_active _ Hinv _ Ha) as [Hi Hr]. destruct (Hr _ Hu) as (pr & Hp & Hf).
  split; cbn [s' unit_trims tr_request tr_active tr_done tr_unit tr_sequence tr_holder tr_issued tr_acked];
    try apply Hinv.
  - rewrite Ha. intros b [= <-]. split; [eauto with viv|]. intros rest' [= <-].
    exists (pr ++ [mount]). rewrite Hp, <- app_assoc. split; [done|].
    apply Forall_app. split; [eauto with viv|]. apply Forall_singleton.
    destruct (unit_skips mount) eqn:E; [by left|]. right. unfold s', unit_trims. cbn [tr_trimmed]. rewrite E.
    apply elem_of_app. right. by apply list_elem_of_singleton.
  - intros b Hb. destruct (ti_done _ Hinv _ Hb). eauto with viv.
  - by apply (acked_extends _ _ He eq_refl Hinv).
Qed.

Lemma unit_marks_inv body s :
  trim_inv s -> tr_active s = Some body -> tr_unit s = Some [] -> trim_inv (unit_marks body s).
Proof.
  intros Hinv Ha Hu. destruct (ti_active _ Hinv _ Ha) as [Hi Hr].
  destruct (Hr _ Hu) as (pr & Hp & Hf). rewrite app_nil_r in Hp.
  split; cbn [unit_marks tr_request tr_active tr_done tr_unit tr_sequence tr_holder tr_issued tr_trimmed tr_acked];
    try apply Hinv; try done.
  intros b [= <-]. split; [done|]. unfold completed. by rewrite Hp.
Qed.

Lemma polled_inv readable s s' : trim_inv s -> polled readable s = Some s' -> trim_inv s'.
Proof.
  intros Hinv. unfold polled. destruct (tr_holder s) as [[token ms]|] eqn:Hh; [|done].
  destruct (tr_done s) as [content|] eqn:Hd; [|by intros [= <-]]. cbv zeta.
  pose proof (ti_holder _ Hinv _ Hh) as Hin.
  destruct (ti_done _ Hinv _ Hd) as [Hi Hc].
  destruct (marker_is_own token _) eqn:Hm; intros [= <-];
    apply (trim_inv_drop s); try done; simpl; auto; try apply Hinv.
  intros token' ms' [Hin'|Hin']%elem_of_app; [by apply (ti_acked _ Hinv)|].
  apply list_elem_of_singleton in Hin' as [= -> ->]. split; [done|].
  exists content. split_and!; [done..|]. by destruct readable.
Qed.

Lemma trim_step_inv s e s' : trim_inv s -> trim_step s e s' -> trim_inv s'.
Proof.
  intros Hinv Hstep. destruct Hstep as [s ms|s ms|s body|s body m rest|s body|s rd s'|s rq].
  - by apply issue_inv.
  - by apply issue_inv.
  - by apply unit_takes_inv.
  - by apply unit_trims_inv.
  - by apply unit_marks_inv.
  - by eapply polled_inv.
  - apply (trim_inv_drop s); try done; simpl; auto. apply Hinv.
Qed.

Lemma trim_start_inv : trim_inv trim_start.
Proof. split; try done. intros token ms Hin%not_elem_of_nil. done. Qed.

Lemma issued_token s token ms :
  trim_inv s -> 0 <= pid <= u32_max -> (token, ms) ∈ tr_issued s ->
  x0a ∉ token /\ drop_cr token = token /\ ms <> [] /\ Forall (fun m => m <> [] /\ x0a ∉ m) ms.
Proof.
  intros Hinv Hp [i Hi]%list_elem_of_lookup. apply (ti_issued _ Hinv) in Hi as [-> Href].
  assert (0 <= Z.of_nat i mod 2 ^ 64 <= u64_max) by (unfold u64_max; pose proof (Z.mod_pos_bound (Z.of_nat i) (2 ^ 64)); lia).
  apply trim_refused_false in Href as [? ?]. split_and!; [by apply token_free|by apply token_cr|done..].
Qed.

Lemma issued_once s token ms ms' :
  trim_inv s -> Z.of_nat (length (tr_issued s)) <= 2 ^ 64 ->
  (token, ms) ∈ tr_issued s -> (token, ms') ∈ tr_issued s -> ms = ms'.
Proof.
  intros Hinv Hlen [i Hi]%list_elem_of_lookup [j Hj]%list_elem_of_lookup.
  pose proof (lookup_lt_Some _ _ _ Hi). pose proof (lookup_lt_Some _ _ _ Hj).
  destruct (ti_issued _ Hinv _ _ _ Hi) as [Ei _]. destruct (ti_issued _ Hinv _ _ _ Hj) as [Ej _].
  rewrite Ei in Ej. rewrite !Z.mod_small in Ej by lia.
  apply token_inj in Ej; [|unfold u64_max; lia..].
  assert (i = j) as -> by lia. congruence.
Qed.

Lemma unfinished_not_acked s b token :
  trim_inv s -> 0 <= pid <= u32_max -> issued_body s b -> marker_is_own token b = true ->
  exists ms, (token, ms) ∈ tr_issued s /\ b = trim_body token ms.
Proof.
  intros Hinv Hp (t & ms & Hin & ->) Hm%bool_decide_eq_true.
  destruct (issued_token _ _ _ Hinv Hp Hin) as (Hn & Hcr & _ & Hf).
  rewrite first_line_body in Hm; [|done| |done].
  - injection Hm as <-. by exists ms.
  - eapply Forall_impl; [exact Hf|]. by intros ? [_ ?].
Qed.

(** A trim acknowledgement promises completion, for the request it answers: however
    handlers, timeouts and the root unit interleave, when a request is acknowledged the unit
    has run fstrim for that very request on every mountpoint it named, save the ones the
    unit's own line format passes over (a leading [#], which the agent does not refuse).
    Tokens are unique up to 2^64 requests in a boot. *)
Theorem trim_ack_means_completed ls s token ms :
  0 <= pid <= u32_max -> steps trim_step trim_start ls s ->
  Z.of_nat (length (tr_issued s)) <= 2 ^ 64 ->
  (token, ms) ∈ tr_acked s ->
  Forall (fun mount => starts_with (bs "#") mount = false ->
                       (trim_body token ms, mount) ∈ tr_trimmed s) ms.
Proof.
  intros Hp Hs Hlen Hack.
  pose proof (steps_invariant _ trim_inv trim_step_inv _ _ _ trim_start_inv Hs) as Hinv.
  destruct (ti_acked _ Hinv _ _ Hack) as (Hin & b & Hb & Hc & Hm).
  destruct (unfinished_not_acked _ _ _ Hinv Hp Hb Hm) as (ms' & Hin' & ->).
  rewrite <- (issued_once _ _ _ _ Hinv Hlen Hin Hin') in Hc.
  destruct (issued_token _ _ _ Hinv Hp Hin) as (Hn & _ & _ & Hf).
  unfold completed in Hc. rewrite unit_lines_body in Hc; [|done|by eapply Forall_impl; [exact Hf|]; intros ? [_ ?]].
  apply Forall_cons in Hc as [_ Hc]. rewrite Forall_forall in Hc, Hf |- *.
  intros m Hmin Hsharp. destruct (Hc m Hmin) as [Hskip|]; [|done].
  unfold unit_skips in Hskip. rewrite Hsharp, orb_false_r in Hskip.
  apply bool_decide_eq_true in Hskip. by destruct (Hf m Hmin).
Qed.
End trim.

(* ------------------------------------------------------------------ *)
(** ** A boot: one request times out, its late marker is thrown away, the next is served *)

Definition demo_pid : Z := 7.
Definition demo_token : bytes := token_of demo_pid 1.
Definition demo_mounts : list bytes := [bs "/nix"; bs "/home/u"].
Definition demo_late : bytes := trim_body (token_of demo_pid 0) [bs "/old"].
Definition demo_body : bytes := trim_body demo_token demo_mounts.
Definition demo_boot : list trim_event :=
  [TrimRequested [bs "/old"]; UnitTakes; TrimTimedOut; TrimRequested demo_mounts; UnitTrims; UnitTrims;
   UnitMarks; TrimPolled true; UnitTakes; UnitTrims; UnitTrims; UnitTrims; UnitMarks; TrimPolled true].

(** One step as a function, for running a schedule. *)
Definition trim_exec (pid : Z) (e : trim_event) (s : trim_state) : option trim_state :=
  match e with
  | TrimRequested ms => if trim_refused ms then None else
      match tr_holder s with None => Some (issue pid true ms s) | _ => None end
  | TrimUnwritten ms => if trim_refused ms then None else
      match tr_holder s with None => Some (issue pid false ms s) | _ => None end
  | UnitTakes => match tr_unit s, tr_request s with None, Some b => Some (unit_takes b s) | _, _ => None end
  | UnitTrims => match tr_active s, tr_unit s with Some b, Some (m :: r) => Some (unit_trims b m r s) | _, _ => None end
  | UnitMarks => match tr_active s, tr_unit s with Some b, Some [] => Some (unit_marks b s) | _, _ => None end
  | TrimPolled rd => polled rd s
  | TrimTimedOut => match tr_holder s with Some _ => Some (release s) | None => None end
  end.
Fixpoint trim_run (pid : Z) (es : list trim_event) (s : trim_state) : option trim_state :=
  match es with [] => Some s | e :: es' => let* s' := trim_exec pid e s in trim_run pid es' s' end.

Lemma trim_exec_step pid e s s' : trim_exec pid e s = Some s' -> trim_step pid s e s'.
Proof.
  destruct e; simpl; repeat case_match; intros [= <-] || intros Hp; try by constructor.
  by econstructor.
Qed.
Lemma trim_run_steps pid es s s' : trim_run pid es s = Some s' -> steps (trim_step pid) s es s'.
Proof.
  revert s. induction es as [|e es IH]; intros s; simpl; [intros [= <-]; constructor|].
  destruct (trim_exec pid e s) as [s1|] eqn:E; [|done]. intros H.
  econstructor; [by apply trim_exec_step|by apply IH].
Qed.

Definition demo_trim_end : trim_state := default trim_start (trim_run demo_pid demo_boot trim_start).
Lemma demo_boot_steps : steps (trim_step demo_pid) trim_start demo_boot demo_trim_end.
Proof. apply trim_run_steps. vm_compute. reflexivity. Qed.

Lemma trim_ack_means_completed_witness :
  tr_acked demo_trim_end = [(demo_token, demo_mounts)] /\
  Forall (fun mount => starts_with (bs "#") mount = false ->
                       (demo_body, mount) ∈ tr_trimmed demo_trim_end) demo_mounts.
Proof.
  split; [vm_compute; reflexivity|].
  apply (trim_ack_means_completed demo_pid demo_boot demo_trim_end demo_token demo_mounts).
  - vm_compute. split; discriminate.
  - exact demo_boot_steps.
  - vm_compute. discriminate.
  - rewrite list_elem_of_lookup. exists 0%nat. vm_compute. reflexivity.
Defined.
