(* ===== verification/Hybrid.v ===== *)
(** * Hybrid: opening a hybrid-vsock stream (src/src/protocol/hybrid.rs).

    A channel is one stream's two directions.  A silent peer's reads block once its bytes
    are used up; a read under a deadline then times out, one without a deadline never
    returns ([Blocks]). *)
From S2P Require Import Prelude Bytes Message Frame.

Definition ACK_MAX : nat := 64.
Inductive HybridError := Hybrid_Timeout | Hybrid_Io (e : io_error) | InvalidAcknowledgement.

(** Why an exchange stopped: with an error of its own, or blocked in a read. *)
Inductive stop (E : Type) := Failed (e : E) | Blocks.
Arguments Failed {E} e.
Arguments Blocks {E}.

Record chan := mk_chan {
  ch_in : reader;
  ch_silent : bool;
  ch_out : writer;
  ch_sent : list ClientFrame }.
Definition chan_in (i : reader) (c : chan) : chan := mk_chan i (ch_silent c) (ch_out c) (ch_sent c).

(** [tokio::time::timeout]: [late] when the deadline passes although nothing blocks. *)
Definition timeout {E A} (late : bool) (e : E) (m : sem chan (stop E) A) : sem chan (stop E) A := fun c =>
  if late then (Err (Failed e), c)
  else match m c with (Err Blocks, c') => (Err (Failed e), c') | r => r end.

Definition send_raw {E} (f : io_error -> E) (data : bytes) : sem chan (stop E) unit := fun c =>
  let '(r, w) := write_all data (ch_out c) in
  (map_err (fun e => Failed (f e)) r, mk_chan (ch_in c) (ch_silent c) w (ch_sent c)).

(** [read_u8]. *)
Definition read_u8 : sem chan (stop HybridError) byte := fun c =>
  match read_one (ch_in c) with
  | (Ok (Some b), i) => (Ok b, chan_in i c)
  | (Ok None, i) => (Err (if ch_silent c then Blocks else Failed (Hybrid_Io UnexpectedEof)), chan_in i c)
  | (Err e, i) => (Err (Failed (Hybrid_Io e)), chan_in i c)
  end.

(** The acknowledgement's bytes, one at a time: at most [ACK_MAX] reads. *)
Fixpoint ack_line (fuel : nat) (line : bytes) : sem chan (stop HybridError) bytes :=
  match fuel with
  | O => sfail (Failed InvalidAcknowledgement)
  | S fuel' =>
      let! b := read_u8 in
      if decide (b = x0a) then sret (line ++ [b]) else ack_line fuel' (line ++ [b])
  end.

(** A line that is not UTF-8 fails the digits below, with the same error as [from_utf8]. *)
Definition ack_accepted (line : bytes) : option Z :=
  let* value := strip_prefix (bs "OK ") line in
  let* value := strip_suffix [x0a] value in
  let* n := parse_uint u32_max value in
  if 0 <? n then Some n else None.

Definition open_stream (guest_port : Z) : sem chan (stop HybridError) unit :=
  send_raw Hybrid_Io (bs "CONNECT " ++ dec guest_port ++ [x0a]) ;;
  let! line := ack_line ACK_MAX [] in
  match ack_accepted line with
  | Some _ => sret tt
  | None => sfail (Failed InvalidAcknowledgement)
  end.

(** [connect]; [socket] is what [UnixStream::connect] answers. *)
Definition connect (late : bool) (socket : result chan io_error) (guest_port : Z)
    : result chan (stop HybridError) :=
  match socket with
  | Err e => Err (Failed (if late then Hybrid_Timeout else Hybrid_Io e))
  | Ok c =>
      match timeout late Hybrid_Timeout (open_stream guest_port) c with
      | (Ok _, c') => Ok c'
      | (Err e, _) => Err e
      end
  end.

(* ------------------------------------------------------------------ *)
(** ** Lemmas *)

#[local] Arguments bs : simpl never.
#[local] Arguments dec : simpl never.

Lemma read_u8_ok c b c' :
  read_u8 c = (Ok b, c') <->
  exists rest, rd_bytes (ch_in c) = b :: rest /\ c' = chan_in (mk_reader rest (rd_end (ch_in c))) c.
Proof.
  unfold read_u8, read_one. destruct (ch_in c) as [[|x l] e]; simpl; [by destruct e; naive_solver|].
  split; [intros [= <- <-]; eauto|by intros (rest & [= <- <-] & ->)].
Qed.

Lemma ack_line_ok fuel line c got c' :
  ack_line fuel line c = (Ok got, c') ->
  exists ack, got = line ++ ack ++ [x0a] /\ x0a ∉ ack /\ (length ack < fuel)%nat /\
    rd_bytes (ch_in c) = ack ++ x0a :: rd_bytes (ch_in c') /\
    rd_end (ch_in c') = rd_end (ch_in c) /\ ch_silent c' = ch_silent c /\
    ch_out c' = ch_out c /\ ch_sent c' = ch_sent c.
Proof.
  revert line c. induction fuel as [|fuel IH]; intros line c H; cbn [ack_line] in H; [done|].
  apply sbind_ok in H as (b & c1 & Hr & H). apply read_u8_ok in Hr as (rest & Hb & ->).
  case_decide as Hd.
  - subst b. injection H as <- <-. exists []. rewrite Hb. simpl.
    split_and!; [done|apply not_elem_of_nil|lia|done..].
  - apply IH in H as (ack & -> & Hn & Hl & Hbytes & He & Hs & Ho & Hf). exists (b :: ack).
    rewrite Hb. cbn in Hbytes. rewrite Hbytes, <- app_assoc. simpl.
    split_and!; try done; [|lia]. intros [?|?]%elem_of_cons; [by subst|done].
Qed.

Lemma ack_line_run fuel line ack rest e silent w sent :
  x0a ∉ ack -> (length ack < fuel)%nat ->
  ack_line fuel line (mk_chan (mk_reader (ack ++ x0a :: rest) e) silent w sent)
  = (Ok (line ++ ack ++ [x0a]), mk_chan (mk_reader rest e) silent w sent).
Proof.
  revert line ack. induction fuel as [|fuel IH]; intros line ack Hn Hl; [lia|]. cbn [ack_line].
  destruct ack as [|b ack]; [done|]. apply not_elem_of_cons in Hn as [Hb Hn].
  erewrite sbind_run by (apply read_u8_ok; by eexists).
  rewrite decide_False by done. unfold chan_in. cbn in Hl |- *. rewrite (IH (line ++ [b])) by (done || lia).
  by rewrite <- app_assoc.
Qed.

Lemma ack_accepted_ok line n :
  ack_accepted line = Some n <->
  exists digits, line = bs "OK " ++ digits ++ [x0a] /\ parse_uint u32_max digits = Some n /\ 0 < n.
Proof.
  unfold ack_accepted. destruct (strip_prefix (bs "OK ") line) as [v|] eqn:E1; cbn [option_bind].
  - apply strip_prefix_Some in E1 as ->. destruct (strip_suffix [x0a] v) as [d|] eqn:E2; cbn [option_bind].
    + apply strip_suffix_Some in E2 as ->.
      destruct (parse_uint u32_max d) as [m|] eqn:E3; cbn [option_bind].
      * destruct (Z.ltb_spec 0 m); split.
        -- intros [= <-]. eauto.
        -- intros (d' & Hd & Hp & Hlt). apply app_inv_head, app_inv_tail in Hd as <-. congruence.
        -- done.
        -- intros (d' & Hd & Hp & Hlt). apply app_inv_head, app_inv_tail in Hd as <-. simplify_eq. lia.
      * split; [done|]. intros (d' & Hd & Hp & _). apply app_inv_head, app_inv_tail in Hd as <-. congruence.
    + split; [done|]. intros (d' & Hd & _). apply app_inv_head in Hd. subst v.
      assert (strip_suffix [x0a] (d' ++ [x0a]) = Some d') as Hs by (by apply strip_suffix_Some). congruence.
  - split; [done|]. intros (d' & -> & _). by rewrite strip_prefix_app in E1.
Qed.

(** The digits of a number hold nothing but digits, after an optional sign. *)
Lemma parse_uint_chars max s n c :
  parse_uint max s = Some n -> c ∈ s -> c = "+"%byte \/ is_ascii_digit c = true.
Proof.
  unfold parse_uint. set (t := match s with b :: s' => _ | [] => _ end).
  destruct (forallb is_ascii_digit t) eqn:Hf; [|by rewrite orb_true_r]. intros _ Hin.
  assert (c ∈ t -> is_ascii_digit c = true) as Ht
    by (rewrite list_elem_of_In; intros Hc; rewrite forallb_forall in Hf; by apply Hf).
  destruct s as [|b s]; [by apply not_elem_of_nil in Hin|]. simpl in t.
  destruct (decide (b = "+"%byte)) as [->|]; [|by auto].
  apply elem_of_cons in Hin as [->|Hin]; auto.
Qed.

Lemma ack_no_newline digits n :
  parse_uint u32_max digits = Some n -> x0a ∉ bs "OK " ++ digits.
Proof.
  intros Hp [Hin|Hin]%elem_of_app.
  - by apply contains_true in Hin.
  - by destruct (parse_uint_chars _ _ _ _ Hp Hin).
Qed.

Lemma open_stream_ok port c c' :
  open_stream port c = (Ok tt, c') <->
  exists digits n rest w,
    rd_bytes (ch_in c) = bs "OK " ++ digits ++ x0a :: rest /\
    parse_uint u32_max digits = Some n /\ 0 < n /\ (length digits + 4 <= ACK_MAX)%nat /\
    write_all (bs "CONNECT " ++ dec port ++ [x0a]) (ch_out c) = (Ok tt, w) /\
    c' = mk_chan (mk_reader rest (rd_end (ch_in c))) (ch_silent c) w (ch_sent c).
Proof.
  unfold open_stream. split.
  - intros H. apply sbind_ok in H as ([] & c1 & Hw & H).
    apply sbind_ok in H as (line & c2 & Ha & H).
    unfold send_raw in Hw. destruct (write_all _ _) as [[[]|] w] eqn:Ew; [|done]. injection Hw as <-.
    apply ack_line_ok in Ha as (ack & -> & Hn & Hl & Hb & He & Hs & Ho & Hf).
    destruct (ack_accepted _) as [n|] eqn:Ha; [|done]. injection H as <-.
    apply ack_accepted_ok in Ha as (digits & Hack & Hp & Hpos).
    assert (ack = bs "OK " ++ digits) as ->
      by (apply (app_inv_tail [x0a]); rewrite <- app_assoc; exact Hack).
    exists digits, n, (rd_bytes (ch_in c2)), w. cbn [ch_in] in Hb.
    rewrite <- app_assoc in Hb. split_and!; try done.
    + unfold ACK_MAX in *. rewrite length_app in Hl. simpl in Hl. lia.
    + destruct c2 as [[] ? ? ?]. simpl in *. congruence.
  - intros (digits & n & rest & w & Hb & Hp & Hpos & Hl & Hw & ->).
    destruct c as [[b e] silent out sent]. cbn [ch_in rd_bytes ch_out rd_end ch_silent ch_sent] in *. subst b.
    erewrite sbind_run by (unfold send_raw; cbn [ch_out]; rewrite Hw; reflexivity).
    cbn [ch_in ch_silent ch_sent]. rewrite app_assoc.
    erewrite sbind_run by (apply ack_line_run; [by eapply ack_no_newline|
      rewrite length_app; unfold ACK_MAX in *; change (length (bs "OK ")) with 3%nat; lia]).
    cbn [app]. destruct (ack_accepted _) as [m|] eqn:Ha; [done|].
    exfalso. assert (ack_accepted (bs "OK " ++ digits ++ [x0a]) = Some n) as E
      by (apply ack_accepted_ok; eauto).
    rewrite <- app_assoc in Ha. congruence.
Qed.
