(* ===== verification/HostControl.v ===== *)
(** * HostControl: the host end of the control plane (src/src/launch/control.rs).

    Each call opens its own channel through [Hybrid.connect] and returns its answer with the
    channel it left behind, whose log says what was sent.  A session's [select!] loop runs
    against a schedule; its frames come from the [read_frames] task, so no branch ever drops
    a half-read frame. *)
From S2P Require Import Prelude Bytes Message Frame Hybrid Launch.

Section host.
Context {W : WireCodec}.

(** [write_client_frame] on the channel. *)
Definition send_frame {E} (e : E) (f : ClientFrame) : sem chan (stop E) unit := fun c =>
  let '(r, w) := write_client_frame f (ch_out c) in
  (map_err (fun _ => Failed e) r,
   mk_chan (ch_in c) (ch_silent c) w (match r with Ok _ => ch_sent c ++ [f] | Err _ => ch_sent c end)).

(** [read_agent_frame] on the channel: a silent peer's unfinished frame never comes. *)
Definition needs_more (e : FrameError) : bool := match e with Eof | Truncated => true | _ => false end.
Definition recv_frame {E} (e : E) : sem chan (stop E) AgentFrame := fun c =>
  let '(r, i) := read_agent_frame (ch_in c) in
  (match r with
   | Ok f => Ok f
   | Err err => Err (if ch_silent c && needs_more err then Blocks else Failed e)
   end, chan_in i c).

(** [BootMetadata]: the field the calls use. *)
Record BootMetadata := mk_BootMetadata { bm_boot_identity : bytes }.
Definition client_hello (m : BootMetadata) : ClientFrame :=
  C_Hello (mk_Hello SCHEMA_VERSION (bm_boot_identity m)).
Definition same_boot (m : BootMetadata) (h : Hello) : bool :=
  (schema_version h =? SCHEMA_VERSION) && bytes_eqb (boot_identity h) (bm_boot_identity m).

(** A call's result and the channel it used, if it got one. *)
Definition call (E A : Type) : Type := (result A (stop E) * option chan)%type.
Definition on_connection {E A} (late : bool) (socket : result chan io_error) (e : stop HybridError -> stop E)
    (m : sem chan (stop E) A) : call E A :=
  match connect late socket CONTROL_PORT with
  | Err h => (Err (e h), None)
  | Ok c => let '(r, c') := m c in (r, Some c')
  end.

(* ------------------------------------------------------------------ *)
(** ** Readiness *)

Inductive HandshakeError := Identity | Retry.

Definition handshake_exchange (m : BootMetadata) : sem chan (stop HandshakeError) unit :=
  send_frame Retry (client_hello m) ;;
  let! greeting := recv_frame Retry in
  match greeting with
  | A_Hello hello =>
      if same_boot m hello then
        send_frame Retry C_Ping ;;
        let! answer := recv_frame Retry in
        match answer with A_Pong => sret tt | _ => sfail (Failed Retry) end
      else sfail (Failed Identity)
  | _ => sfail (Failed Retry)
  end.
(** The deadline bounds [hybrid::connect] only. *)
Definition handshake (late : bool) (socket : result chan io_error) (m : BootMetadata)
    : call HandshakeError unit :=
  on_connection late socket (fun _ => Failed Retry) (handshake_exchange m).

(** The loop over the attempts the deadline leaves time for; no attempt left is the deadline. *)
Fixpoint wait_for_agent (attempts : list (bool * result chan io_error)) (m : BootMetadata)
    : result unit (stop LaunchError) :=
  match attempts with
  | [] => Err (Failed (Readiness (bs "guest agent")))
  | (late, socket) :: attempts' =>
      match fst (handshake late socket m) with
      | Ok _ => Ok tt
      | Err (Failed Identity) => Err (Failed (Readiness (bs "current guest identity")))
      | Err (Failed Retry) => wait_for_agent attempts' m
      | Err Blocks => Err Blocks
      end
  end.

(* ------------------------------------------------------------------ *)
(** ** The query connections *)

(** [session_count] and [request_shutdown]: every non-answer is [None], a blocked read too,
    because [tokio::time::timeout] covers the whole exchange. *)
Definition session_exchange (m : BootMetadata) : sem chan (stop unit) Z :=
  send_frame tt (client_hello m) ;;
  let! greeting := recv_frame tt in
  match greeting with
  | A_Hello hello =>
      if same_boot m hello then
        send_frame tt C_Sessions ;;
        let! answer := recv_frame tt in
        match answer with A_Sessions count => sret (sessions count) | _ => sfail (Failed tt) end
      else sfail (Failed tt)
  | _ => sfail (Failed tt)
  end.
Definition session_count (late : bool) (socket : result chan io_error) (m : BootMetadata) : option Z :=
  ok (fst (on_connection late socket (fun _ => Failed tt) (timeout late tt (session_exchange m)))).

Definition shutdown_exchange (m : BootMetadata) : sem chan (stop unit) unit :=
  send_frame tt (client_hello m) ;;
  let! greeting := recv_frame tt in
  match greeting with
  | A_Hello hello =>
      if same_boot m hello then
        send_frame tt C_Shutdown ;;
        let! answer := recv_frame tt in
        match answer with A_ShutdownAck => sret tt | _ => sfail (Failed tt) end
      else sfail (Failed tt)
  | _ => sfail (Failed tt)
  end.
Definition request_shutdown (late : bool) (socket : result chan io_error) (m : BootMetadata) : bool :=
  is_ok (fst (on_connection late socket (fun _ => Failed tt) (timeout late tt (shutdown_exchange m)))).

Inductive ControlCallError := Unreachable | Protocol.

Definition reclaim_exchange (m : BootMetadata) (request : ClientFrame)
    : sem chan (stop ControlCallError) AgentFrame :=
  send_frame Unreachable (client_hello m) ;;
  let! greeting := recv_frame Unreachable in
  match greeting with
  | A_Hello hello =>
      if same_boot m hello then
        send_frame Protocol request ;;
        let! answer := recv_frame Protocol in
        match answer with
        | A_Error message =>
            if bytes_eqb (code message) (bs "framing") then sfail (Failed Unreachable) else sret (A_Error message)
        | frame => sret frame
        end
      else sfail (Failed Unreachable)
  | _ => sfail (Failed Unreachable)
  end.
Definition reclaim_call (late : bool) (socket : result chan io_error) (m : BootMetadata)
    (request : ClientFrame) : call ControlCallError AgentFrame :=
  on_connection late socket (fun _ => Failed Unreachable)
    (timeout late Unreachable (reclaim_exchange m request)).

Definition memory_report (late : bool) (socket : result chan io_error) (m : BootMetadata)
    : result MemoryReport (stop ControlCallError) :=
  let? frame := fst (reclaim_call late socket m C_Memory) in
  match frame with A_Memory report => Ok report | _ => Err (Failed Protocol) end.

Definition request_trim (late : bool) (socket : result chan io_error) (m : BootMetadata)
    (mountpoints : list bytes) : result unit (stop ControlCallError) :=
  let? frame := fst (reclaim_call late socket m (C_Trim (mk_TrimRequest mountpoints))) in
  match frame with A_TrimAck => Ok tt | _ => Err (Failed Protocol) end.

(* ------------------------------------------------------------------ *)
(** ** Sessions *)

Inductive SessionOutcome := Exited (n : Z) | Refused (reason : bytes) | Lost (expected : bytes).
Inductive SessionError := NotListening | S_Identity | Transport (step : bytes).

Definition greet (m : BootMetadata) : sem chan (stop SessionError) unit :=
  send_frame (Transport (bs "greet the guest agent")) (client_hello m) ;;
  let! greeting := recv_frame (Transport (bs "read the guest agent's greeting")) in
  match greeting with
  | A_Hello hello => if same_boot m hello then sret tt else sfail (Failed S_Identity)
  | A_Error _ => sfail (Failed S_Identity)
  | _ => sfail (Failed (Transport (bs "read the guest agent's greeting")))
  end.

(** What [run] does before the pump starts. *)
Definition open_session (m : BootMetadata) (start : StartRequest) (initial_size : option TerminalSize)
    : sem chan (stop SessionError) unit :=
  greet m ;;
  match initial_size with
  | Some size => send_frame (Transport (bs "send the terminal size")) (C_Resize size)
  | None => sret tt
  end ;;
  send_frame (Transport (bs "start the guest process")) (C_Start start).

(** The loop's state: the channel, whose reader is the pump's, the two receivers while they
    are [Some], and the host's own streams. *)
Record host_session := mk_host_session {
  hs_chan : chan;
  hs_input : bool;
  hs_resize : bool;
  hs_stdout : writer;
  hs_stderr : writer }.

(** A branch that is ready: the next frame the pump read (or its end), a chunk of input (or
    its end), a terminal size (or the end of them). *)
Inductive host_event :=
| AgentArrives
| InputArrives (chunk : option bytes)
| ResizeArrives (size : option TerminalSize).

Definition host_event_ok (e : host_event) (s : host_session) : bool :=
  match e with
  | AgentArrives =>
      match fst (read_agent_frame (ch_in (hs_chan s))) with
      | Err e => negb (ch_silent (hs_chan s) && needs_more e)
      | Ok _ => true
      end
  | InputArrives _ => hs_input s
  | ResizeArrives _ => hs_resize s
  end.

Inductive progress := Running (s : host_session) | Finished (r : result SessionOutcome SessionError) (s : host_session).

Definition hs_with_chan (c : chan) (s : host_session) : host_session :=
  mk_host_session c (hs_input s) (hs_resize s) (hs_stdout s) (hs_stderr s).
Definition hs_with_input (input : bool) (s : host_session) : host_session :=
  mk_host_session (hs_chan s) input (hs_resize s) (hs_stdout s) (hs_stderr s).
Definition hs_with_resize (resize : bool) (s : host_session) : host_session :=
  mk_host_session (hs_chan s) (hs_input s) resize (hs_stdout s) (hs_stderr s).
Definition hs_with_stdout (w : writer) (s : host_session) : host_session :=
  mk_host_session (hs_chan s) (hs_input s) (hs_resize s) w (hs_stderr s).
Definition hs_with_stderr (w : writer) (s : host_session) : host_session :=
  mk_host_session (hs_chan s) (hs_input s) (hs_resize s) (hs_stdout s) w.

(** [write_out]: [write_all], then [flush]. *)
Definition write_out (data : bytes) : sem writer SessionError unit :=
  smap_err (fun _ => Transport (bs "write guest output")) (write_all data) ;;
  smap_err (fun _ => Transport (bs "write guest output")) flush.

(** [send_input]: the pieces in order, until one is refused. *)
Fixpoint send_pieces (pieces : list bytes) : sem chan (stop unit) unit :=
  match pieces with
  | [] => sret tt
  | piece :: pieces' => send_frame tt (C_Stdin piece) ;; send_pieces pieces'
  end.
Definition send_input (data : bytes) : sem chan (stop unit) unit :=
  send_pieces (chunks (Z.to_nat STREAM_PAYLOAD_MAX) data).

Definition on_agent_frame (s : host_session) : progress :=
  let '(r, i) := read_agent_frame (ch_in (hs_chan s)) in
  let s := hs_with_chan (chan_in i (hs_chan s)) s in
  match r with
  | Ok (A_Stdout data) =>
      match write_out data (hs_stdout s) with
      | (Ok _, w) => Running (hs_with_stdout w s)
      | (Err e, w) => Finished (Err e) (hs_with_stdout w s)
      end
  | Ok (A_Stderr data) =>
      match write_out data (hs_stderr s) with
      | (Ok _, w) => Running (hs_with_stderr w s)
      | (Err e, w) => Finished (Err e) (hs_with_stderr w s)
      end
  | Ok (A_Exit st) => Finished (Ok (Exited (status st))) s
  | Ok (A_Error e) => Finished (Ok (Refused (code e))) s
  | Ok _ => Finished (Ok (Lost (bs "a session frame"))) s
  | Err _ => Finished (Ok (Lost (bs "the guest's exit status"))) s
  end.

Definition on_input (chunk : option bytes) (s : host_session) : host_session :=
  match chunk with
  | Some data =>
      let '(r, c) := send_input data (hs_chan s) in
      hs_with_input (is_ok r) (hs_with_chan c s)
  | None =>
      let '(_, c) := send_frame tt C_StdinEnd (hs_chan s) in
      hs_with_input false (hs_with_chan c s)
  end.

Definition on_resize (size : option TerminalSize) (s : host_session) : host_session :=
  match size with
  | Some size =>
      let '(r, c) := send_frame tt (C_Resize size) (hs_chan s) in
      hs_with_resize (is_ok r) (hs_with_chan c s)
  | None => hs_with_resize false s
  end.

Definition host_step (e : host_event) (s : host_session) : progress :=
  match e with
  | AgentArrives => on_agent_frame s
  | InputArrives chunk => Running (on_input chunk s)
  | ResizeArrives size => Running (on_resize size s)
  end.

Fixpoint session_loop (events : list host_event) (s : host_session) : option progress :=
  match events with
  | [] => Some (Running s)
  | e :: events' =>
      if host_event_ok e s then
        match host_step e s with
        | Running s' => session_loop events' s'
        | Finished r s' => Some (Finished r s')
        end
      else None
  end.

(** Right after [Start]: with no input to forward its end is sent at once, and a failed send
    is ignored. *)
Definition session_state (c : chan) (input resize : bool) (out err : writer) : host_session :=
  let c := if input then c else snd (send_frame tt C_StdinEnd c) in
  mk_host_session c input resize out err.

(** [Session::run]; the first field of the answer is [None] while the session runs. *)
Definition session_run (late : bool) (socket : result chan io_error) (m : BootMetadata)
    (start : StartRequest) (initial_size : option TerminalSize) (input resize : bool)
    (out err : writer) (events : list host_event)
    : option (result SessionOutcome (stop SessionError) * option chan) :=
  match on_connection late socket (fun _ => Failed NotListening) (open_session m start initial_size) with
  | (Err e, c) => Some (Err e, c)
  | (Ok _, None) => None
  | (Ok _, Some c) =>
      match session_loop events (session_state c input resize out err) with
      | Some (Finished r s) => Some (map_err Failed r, Some (hs_chan s))
      | _ => None
      end
  end.
End host.
