(* ===== verification/HostControlSpec.v ===== *)
(** * HostControlSpec: what the host end of the control plane promises. *)
From S2P Require Import Prelude Bytes Message Frame DemoCodec FrameSpec Process Session SessionSpec Agent Hybrid HostControl.

Section spec.
Context {W : WireCodec}.

(** ** Opening a stream *)

(** Opening a hybrid stream consumes exactly the VMM's acknowledgement,
    [OK <port>] on one line of at most 64 bytes with a positive u32, and leaves every byte
    after it to the protocol; what was written is the one CONNECT line. *)
Theorem connect_consumes_the_acknowledgement c port c' :
  connect false (Ok c) port = Ok c' <->
  exists digits n rest w,
    rd_bytes (ch_in c) = bs "OK " ++ digits ++ x0a :: rest /\
    parse_uint u32_max digits = Some n /\ 0 < n /\ (length digits + 4 <= ACK_MAX)%nat /\
    write_all (bs "CONNECT " ++ dec port ++ [x0a]) (ch_out c) = (Ok tt, w) /\
    c' = mk_chan (mk_reader rest (rd_end (ch_in c))) (ch_silent c) w (ch_sent c).
Proof.
  rewrite <- open_stream_ok. unfold connect, timeout.
  destruct (open_stream port c) as [[[]|[e|]] c1]; naive_solver.
Qed.

(* ------------------------------------------------------------------ *)
(** ** The opening every call shares *)

Lemma send_frame_run {E} (e : E) f c r c' :
  send_frame e f c = (r, c') ->
  ch_in c' = ch_in c /\ ch_silent c' = ch_silent c /\
  ch_sent c' = ch_sent c ++ (if is_ok r then [f] else []) /\ r <> Err Blocks.
Proof.
  unfold send_frame. destruct (write_client_frame f (ch_out c)) as [[[]|x] w]; intros [= <- <-]; simpl;
    rewrite ?app_nil_r; done.
Qed.
Lemma recv_frame_run {E} (e : E) c r c' :
  recv_frame e c = (r, c') ->
  ch_sent c' = ch_sent c /\ ch_out c' = ch_out c /\ ch_silent c' = ch_silent c /\
  ch_in c' = snd (read_agent_frame (ch_in c)) /\
  match r with
  | Ok f => fst (read_agent_frame (ch_in c)) = Ok f
  | Err Blocks => ch_silent c = true
  | Err (Failed x) => x = e
  end.
Proof.
  unfold recv_frame. destruct (read_agent_frame (ch_in c)) as [[f|x] i]; intros [= <- <-]; simpl; [done|].
  destruct (ch_silent c); simpl; [|done]. by destruct (needs_more x).
Qed.

(** The agent's first frame is this boot's greeting. *)
Definition greeted (m : BootMetadata) (c : chan) : bool :=
  match fst (read_agent_frame (ch_in c)) with Ok (A_Hello h) => same_boot m h | _ => false end.

(** An opening: the host's [Hello], then the agent's, then the rest. *)
Definition opens {E A} (e e' : E) (m : BootMetadata) (k : AgentFrame -> sem chan (stop E) A) :
    sem chan (stop E) A :=
  send_frame e (client_hello m) ;; let! greeting := recv_frame e' in k greeting.

Definition only_hello {E A} (m : BootMetadata) (c : chan) (x : result A (stop E) * chan) : Prop :=
  is_ok (fst x) = false /\ (ch_sent (snd x) = ch_sent c \/ ch_sent (snd x) = ch_sent c ++ [client_hello m]).

Lemma opens_ungreeted {E A} (e e' : E) m (k : AgentFrame -> sem chan (stop E) A) c :
  (forall g, match g with A_Hello h => same_boot m h = false | _ => True end ->
     exists x, k g = sfail x) ->
  greeted m c = false -> only_hello m c (opens e e' m k c).
Proof.
  intros Hk Hg. unfold opens, sbind at 1. destruct (send_frame e (client_hello m) c) as [r1 c1] eqn:E1.
  apply send_frame_run in E1 as (Hi & _ & Hs & _).
  destruct r1 as [u|x]; [|split; [done|]; left; cbn [is_ok] in Hs; rewrite app_nil_r in Hs; exact Hs].
  unfold sbind. destruct (recv_frame e' c1) as [r2 c2] eqn:E2.
  apply recv_frame_run in E2 as (Hs2 & _ & _ & _ & Hr). simpl in Hs.
  destruct r2 as [g|x]; [|split; [done|]; right; by rewrite <- Hs].
  destruct (Hk g) as [x ->].
  - rewrite Hi in Hr. unfold greeted in Hg. rewrite Hr in Hg. by destruct g.
  - split; [done|]. right. by rewrite <- Hs.
Qed.

Lemma opens_greeted {E A} (e e' : E) m (k : AgentFrame -> sem chan (stop E) A) c a c' :
  opens e e' m k c = (Ok a, c') ->
  exists g c1, k g c1 = (Ok a, c') /\ fst (read_agent_frame (ch_in c)) = Ok g /\
    ch_in c1 = snd (read_agent_frame (ch_in c)) /\ ch_silent c1 = ch_silent c /\
    ch_sent c1 = ch_sent c ++ [client_hello m].
Proof.
  intros H. apply sbind_ok in H as ([] & c0 & H1 & H). apply sbind_ok in H as (g & c1 & H2 & H).
  apply send_frame_run in H1 as (Hi & Hl & Hs & _). apply recv_frame_run in H2 as (Hs2 & _ & Hl2 & Hi2 & Hr).
  exists g, c1. rewrite <- Hi, Hi2, Hl2, Hl, Hs2, Hs. done.
Qed.

Ltac ungreeted_frame :=
  let g := fresh in let Hg := fresh in
  intros g Hg; destruct g; try (eexists; reflexivity); rewrite Hg; eexists; reflexivity.

(** Whatever the host wants, an agent that does not answer the greeting with this boot's
    schema version and identity is told nothing but the greeting: no call succeeds with it and
    no request, [Shutdown], [Trim] or [Start] is ever sent to it. *)
Theorem only_this_boot_is_asked m c request start initial_size :
  greeted m c = false ->
  only_hello m c (handshake_exchange m c) /\
  only_hello m c (session_exchange m c) /\
  only_hello m c (shutdown_exchange m c) /\
  only_hello m c (reclaim_exchange m request c) /\
  only_hello m c (open_session m start initial_size c).
Proof.
  intros Hg. split_and!.
  1-4: apply (opens_ungreeted _ _ m _ c); [ungreeted_frame|done].
  assert (only_hello m c (greet m c)) as H by (apply (opens_ungreeted _ _ m _ c); [ungreeted_frame|done]).
  unfold open_session, sbind at 1. destruct (greet m c) as [[u|x] c1]; [by destruct H|exact H].
Qed.

(* ------------------------------------------------------------------ *)
(** ** Deadlines and the two-way error split *)

Lemma timeout_ends {E A} late (e : E) (m : sem chan (stop E) A) c : fst (timeout late e m c) <> Err Blocks.
Proof. unfold timeout. destruct late; [done|]. by destruct (m c) as [[|[]]]. Qed.

Lemma on_connection_ends {E A} late socket (e : stop HybridError -> stop E) late' (x : E) (m : sem chan (stop E) A) :
  (forall h, e h <> Blocks) -> fst (on_connection late socket e (timeout late' x m)) <> Err Blocks.
Proof.
  intros He. unfold on_connection. destruct (connect late socket CONTROL_PORT) as [c|h].
  - pose proof (timeout_ends late' x m c). by destruct (timeout late' x m c).
  - simpl. intros [= H]. by apply (He h).
Qed.

(** The reclaim exchange fails as [Protocol] only past a live authorized handshake. *)
Lemma reclaim_protocol m request c c' :
  reclaim_exchange m request c = (Err (Failed Protocol), c') -> greeted m c = true.
Proof.
  intros H. destruct (greeted m c) eqn:Hg; [done|]. exfalso.
  unfold reclaim_exchange, sbind at 1 in H.
  destruct (send_frame _ _ c) as [r1 c1] eqn:E1. unfold send_frame in E1.
  destruct (write_client_frame _ _) as [[]]; injection E1 as <- <-; [|done].
  unfold sbind at 1 in H. destruct (recv_frame _ _) as [r2 c2] eqn:E2.
  apply recv_frame_run in E2 as (_ & _ & _ & _ & Hr). cbn [ch_in] in Hr.
  destruct r2 as [g|[x|]]; [|by simplify_eq|done].
  unfold greeted in Hg. rewrite Hr in Hg. destruct g; try done. by rewrite Hg in H.
Qed.

(** A reclaim call always ends, and its two errors mean what they say.  A [Protocol] fault
    is reported only after the agent proved to be this boot's; everything before that, a
    deadline, and an agent too old for the request are [Unreachable].  An answer is the
    frame the agent sent after its greeting. *)
Theorem reclaim_call_splits_errors late c m request c1 :
  connect late (Ok c) CONTROL_PORT = Ok c1 ->
  match fst (reclaim_call late (Ok c) m request) with
  | Ok frame => greeted m c1 = true /\
      fst (read_agent_frame (snd (read_agent_frame (ch_in c1)))) = Ok frame /\
      frame <> A_Error (mk_ProtocolErrorMessage (bs "framing"))
  | Err (Failed Protocol) => greeted m c1 = true
  | Err (Failed Unreachable) => True
  | Err Blocks => False
  end.
Proof.
  intros Hc. unfold reclaim_call, on_connection. rewrite Hc. unfold timeout.
  destruct late; [done|]. destruct (reclaim_exchange m request c1) as [[f|[[]|]] c'] eqn:E; try done.
  2: { by apply reclaim_protocol in E. }
  apply (opens_greeted Unreachable Unreachable m) in E as (g & c2 & Hk & Hg & Hi & _ & _).
  destruct g as [h| | | | | | | | |]; try done. destruct (same_boot m h) eqn:Hs; [|done].
  apply sbind_ok in Hk as (u & c3 & H1 & Hk). apply sbind_ok in Hk as (a & c4 & H2 & Hk).
  apply send_frame_run in H1 as (Hi3 & _ & _ & _). apply recv_frame_run in H2 as (_ & _ & _ & _ & Hr).
  cbn [fst]. split; [unfold greeted; by rewrite Hg|]. rewrite <- Hi, <- Hi3.
  destruct a as [| | | | |msg| | | |]; try (injection Hk as <- <-; done).
  destruct (bytes_eqb (code msg) (bs "framing")) eqn:Hm; [done|]. injection Hk as <- <-.
  split; [done|]. intros [= ->]. done.
Qed.

(** The calls under one deadline never block, but the readiness wait does: its deadline
    covers opening the stream only, so an agent that accepts the connection and then says
    nothing holds [wait_for_agent] for good, whatever deadline it was given. *)
Theorem readiness_wait_can_block m w' :
  write_client_frame (client_hello m) (mk_writer (bs "CONNECT 52000" ++ [x0a]) None true) = (Ok tt, w') ->
  (forall late socket request, fst (reclaim_call late socket m request) <> Err Blocks) /\
  exists attempt, forall rest, wait_for_agent ((false, Ok attempt) :: rest) m = Err Blocks.
Proof.
  intros Ew. split; [intros; by apply on_connection_ends|].
  exists (mk_chan (mk_reader (bs "OK 1" ++ [x0a]) None) true (mk_writer [] None true) []).
  intros rest. cbn [wait_for_agent]. unfold handshake, on_connection.
  assert (connect false (Ok (mk_chan (mk_reader (bs "OK 1" ++ [x0a]) None) true (mk_writer [] None true) []))
    CONTROL_PORT = Ok (mk_chan (mk_reader [] None) true (mk_writer (bs "CONNECT 52000" ++ [x0a]) None true) []))
    as -> by (vm_compute; reflexivity).
  unfold handshake_exchange. unfold sbind at 1, send_frame at 1. cbn [ch_out]. rewrite Ew. reflexivity.
Qed.
End spec.
