(* ===== verification/HostSessionSpec.v ===== *)
(** * HostSessionSpec: what a session on the host promises, and both ends together. *)
From S2P Require Import Prelude Bytes Message Frame DemoCodec FrameSpec Process Session SessionSpec Agent Hybrid HostControl HostControlSpec.

Section spec.
Context {W : WireCodec}.

(* ------------------------------------------------------------------ *)
(** ** Output *)

(** The frames a stream gives, one read after the other. *)
Inductive arrives : reader -> list AgentFrame -> reader -> Prop :=
| arrives_nil r : arrives r [] r
| arrives_cons r f r1 fs r2 :
    read_agent_frame r = (Ok f, r1) -> arrives r1 fs r2 -> arrives r (f :: fs) r2.

Lemma arrives_snoc r fs r1 f r2 :
  arrives r fs r1 -> read_agent_frame r1 = (Ok f, r2) -> arrives r (fs ++ [f]) r2.
Proof. induction 1; intros; simpl; eauto using arrives. Qed.

(** What was read so far is stream frames, and all of it was written out. *)
Definition forwarded (r0 : reader) (out0 err0 : bytes) (outs : list AgentFrame) (s : host_session) (r : reader)
    : Prop :=
  arrives r0 outs r /\ Forall is_stream outs /\
  wr_bytes (hs_stdout s) = out0 ++ stdout_of outs /\ wr_bytes (hs_stderr s) = err0 ++ stderr_of outs.

(** How a session may end, [last] being what the agent's stream gave next. *)
Inductive session_end : result AgentFrame FrameError -> result SessionOutcome SessionError -> Prop :=
| end_exit st : session_end (Ok (A_Exit st)) (Ok (Exited (status st)))
| end_refused m : session_end (Ok (A_Error m)) (Ok (Refused (code m)))
| end_out_of_place f :
    ~ is_stream f -> (forall st, f <> A_Exit st) -> (forall m, f <> A_Error m) ->
    session_end (Ok f) (Ok (Lost (bs "a session frame")))
| end_lost e : session_end (Err e) (Ok (Lost (bs "the guest's exit status")))
| end_host_stream f : is_stream f -> session_end (Ok f) (Err (Transport (bs "write guest output"))).

Lemma write_out_ok data w u w' : write_out data w = (Ok u, w') -> wr_bytes w' = wr_bytes w ++ data.
Proof.
  unfold write_out. intros H. inv_sok.
  match goal with H1 : write_all _ _ = (Ok ?x, _) |- _ => destruct x; apply write_all_ok in H1 as [Hw _] end.
  unfold flush in H. by destruct (wr_flush_ok _); simplify_eq.
Qed.
Lemma write_out_err data w e w' :
  write_out data w = (Err e, w') -> e = Transport (bs "write guest output").
Proof.
  unfold write_out, sbind, smap_err, flush. destruct (write_all data w) as [[[]|x] w1]; simpl.
  - destruct (wr_flush_ok w1); by intros [= <- <-].
  - by intros [= <- <-].
Qed.

Lemma on_agent_frame_forwards r0 out0 err0 outs s :
  forwarded r0 out0 err0 outs s (ch_in (hs_chan s)) ->
  match on_agent_frame s with
  | Running s' => exists outs', forwarded r0 out0 err0 outs' s' (ch_in (hs_chan s'))
  | Finished (Err e) s' => session_end (fst (read_agent_frame (ch_in (hs_chan s)))) (Err e)
  | Finished (Ok o) s' => forwarded r0 out0 err0 outs s' (ch_in (hs_chan s)) /\
      session_end (fst (read_agent_frame (ch_in (hs_chan s)))) (Ok o)
  end.
Proof.
  intros (Ha & Hs & Ho & He). unfold on_agent_frame.
  destruct (read_agent_frame (ch_in (hs_chan s))) as [[f|e] i] eqn:Hr; cbn [fst].
  2: { split; [done|constructor]. }
  assert (is_stream f -> forall s' data, hs_chan s' = chan_in i (hs_chan s) ->
    stdout_of [f] ++ stderr_of [f] = data ->
    wr_bytes (hs_stdout s') = wr_bytes (hs_stdout s) ++ stdout_of [f] ->
    wr_bytes (hs_stderr s') = wr_bytes (hs_stderr s) ++ stderr_of [f] ->
    exists outs', forwarded r0 out0 err0 outs' s' (ch_in (hs_chan s'))) as Hk.
  { intros Hf s' data Hc _ H1 H2. exists (outs ++ [f]). rewrite Hc. split_and!.
    - by eapply arrives_snoc.
    - apply Forall_app. split; [done|by apply Forall_singleton].
    - by rewrite H1, Ho, stdout_of_app, <- app_assoc.
    - by rewrite H2, He, stderr_of_app, <- app_assoc. }
  assert (forall o, session_end (Ok f) (Ok o) ->
    forwarded r0 out0 err0 outs (hs_with_chan (chan_in i (hs_chan s)) s) (ch_in (hs_chan s)) /\
    session_end (Ok f) (Ok o)) as Hend by done.
  destruct f as [h| |data|data|st|msg|n| |rep|].
  3-4: destruct (write_out data _) as [[u|x] w] eqn:Ew;
    [apply write_out_ok in Ew; eapply Hk; unfold stdout_of, stderr_of; simpl; rewrite ?app_nil_r; done
    |apply write_out_err in Ew as ->; by apply end_host_stream].
  3-4: apply Hend; constructor.
  all: apply Hend, end_out_of_place; first [by intros [] | discriminate].
Qed.

Lemma send_frame_in {E} (e : E) f c : ch_in (snd (send_frame e f c)) = ch_in c.
Proof. unfold send_frame. by destruct (write_client_frame f (ch_out c)) as [[] w]. Qed.
Lemma send_pieces_in pieces c : ch_in (snd (send_pieces pieces c)) = ch_in c.
Proof.
  revert c. induction pieces as [|p ps IH]; intros c; [done|]. cbn [send_pieces]. unfold sbind.
  pose proof (send_frame_in tt (C_Stdin p) c) as H.
  destruct (send_frame tt (C_Stdin p) c) as [[u|x] c1]; [|done]. by rewrite IH.
Qed.

Definition output_view (s : host_session) := (ch_in (hs_chan s), hs_stdout s, hs_stderr s).
Lemma on_input_view chunk s : output_view (on_input chunk s) = output_view s.
Proof.
  unfold on_input. destruct chunk as [data|].
  - pose proof (send_pieces_in (chunks (Z.to_nat STREAM_PAYLOAD_MAX) data) (hs_chan s)) as H.
    unfold send_input. destruct (send_pieces _ _) as [r c]. unfold output_view. simpl in *. by rewrite H.
  - pose proof (send_frame_in tt C_StdinEnd (hs_chan s)) as H.
    destruct (send_frame tt C_StdinEnd _) as [r c]. unfold output_view. simpl in *. by rewrite H.
Qed.
Lemma on_resize_view size s : output_view (on_resize size s) = output_view s.
Proof.
  unfold on_resize. destruct size as [size|]; [|done].
  pose proof (send_frame_in tt (C_Resize size) (hs_chan s)) as H.
  destruct (send_frame tt (C_Resize size) _) as [r c]. unfold output_view. simpl in *. by rewrite H.
Qed.

Lemma forwarded_view r0 out0 err0 outs s s' :
  output_view s' = output_view s -> forwarded r0 out0 err0 outs s (ch_in (hs_chan s)) ->
  forwarded r0 out0 err0 outs s' (ch_in (hs_chan s')).
Proof. unfold output_view, forwarded. intros [= -> -> ->]. done. Qed.

Lemma session_loop_forwards events r0 out0 err0 outs s0 r s :
  forwarded r0 out0 err0 outs s0 (ch_in (hs_chan s0)) -> session_loop events s0 = Some (Finished r s) ->
  exists outs r1, session_end (fst (read_agent_frame r1)) r /\
    match r with
    | Ok _ => forwarded r0 out0 err0 outs s r1
    | Err _ => arrives r0 outs r1 /\ Forall is_stream outs
    end.
Proof.
  revert outs s0. induction events as [|e events IH]; intros outs s0 H0 H; cbn [session_loop] in H; [done|].
  destruct (host_event_ok e s0); [|done]. destruct e as [|chunk|size]; cbn [host_step] in H.
  - pose proof (on_agent_frame_forwards _ _ _ _ _ H0) as Hf.
    destruct (on_agent_frame s0) as [s1|r1 s1].
    + destruct Hf as [outs' Hf]. by eapply IH.
    + injection H as <- <-. exists outs, (ch_in (hs_chan s0)).
      destruct r1 as [o|x]; [by destruct Hf|]. split; [done|]. by destruct H0 as (? & ? & _).
  - eapply IH; [|exact H]. eapply forwarded_view; [apply on_input_view|done].
  - eapply IH; [|exact H]. eapply forwarded_view; [apply on_resize_view|done].
Qed.
Lemma session_state_forwards c input resize out err :
  forwarded (ch_in c) (wr_bytes out) (wr_bytes err) [] (session_state c input resize out err) (ch_in (hs_chan (session_state c input resize out err))).
Proof.
  unfold forwarded, session_state. cbn [hs_chan hs_stdout hs_stderr]. change (stdout_of []) with (@nil byte).
  change (stderr_of []) with (@nil byte). rewrite !app_nil_r. split_and!; [|by constructor|done..].
  destruct input; [constructor|]. rewrite send_frame_in. constructor.
Qed.

(** The host reports the guest, whatever the schedule: a session's outcome is read off the
    agent's first frame that is not output, the exit status unchanged and a refusal by its
    code; all output before it was written to the host's own streams, in order and nothing
    else.  The one error is the host's own stream failing, which may happen with the guest
    running. *)
Theorem host_reports_the_guest events c input resize out err r s :
  session_loop events (session_state c input resize out err) = Some (Finished r s) ->
  exists outs r1, session_end (fst (read_agent_frame r1)) r /\
    match r with
    | Ok _ => forwarded (ch_in c) (wr_bytes out) (wr_bytes err) outs s r1
    | Err _ => arrives (ch_in c) outs r1 /\ Forall is_stream outs
    end.
Proof. apply (session_loop_forwards events _ _ _ []), session_state_forwards. Qed.

(* ------------------------------------------------------------------ *)
(** ** Input *)

(** The order the agent accepts: nothing of the input follows its end. *)
Definition is_input (f : ClientFrame) : bool :=
  match f with C_Stdin _ | C_StdinEnd => true | _ => false end.
Definition closes (f : ClientFrame) : bool := match f with C_StdinEnd => true | _ => false end.
Fixpoint input_ok (fs : list ClientFrame) : bool :=
  match fs with
  | [] => true
  | f :: fs' => (if closes f then negb (existsb is_input fs') else true) && input_ok fs'
  end.

Lemma input_ok_snoc fs f :
  input_ok (fs ++ [f]) = input_ok fs && (negb (existsb closes fs) || negb (is_input f)).
Proof.
  induction fs as [|g fs IH]; simpl; [by destruct f|]. rewrite IH, existsb_app. simpl. rewrite orb_false_r.
  destruct (closes g), (is_input f), (input_ok fs), (existsb is_input fs), (existsb closes fs); done.
Qed.

Lemma client_bytes_snoc fs b f tag payload :
  client_bytes fs b -> encode_client f = Ok (tag, payload) -> fits tag payload ->
  client_bytes (fs ++ [f]) (b ++ framed tag payload).
Proof.
  revert b. induction fs as [|g fs IH]; intros b Hb He Hf; cbn [client_bytes app] in *.
  - subst b. exists tag, payload, []. rewrite app_nil_r. done.
  - destruct Hb as (t & p & b' & H1 & H2 & -> & H3). exists t, p, (b' ++ framed tag payload).
    rewrite <- app_assoc. split_and!; [done..|]. by apply IH.
Qed.

(** What a connection that never fills has been sent, on top of what it held. *)
Definition sent_on (b0 : bytes) (l0 fs : list ClientFrame) (c : chan) : Prop :=
  ch_sent c = l0 ++ fs /\ exists b, client_bytes fs b /\ ch_out c = mk_writer (b0 ++ b) None true.

Lemma send_frame_on {E} (e : E) f b0 l0 fs c r c' :
  sent_on b0 l0 fs c -> send_frame e f c = (r, c') ->
  sent_on b0 l0 (fs ++ if is_ok r then [f] else []) c'.
Proof.
  intros (Hs & b & Hb & Ho). unfold send_frame, write_client_frame, sbind, slift. rewrite Ho.
  destruct (encode_client f) as [[tag payload]|x] eqn:He.
  - destruct (Z.le_decidable (Z.of_nat (length payload)) (max_payload tag)) as [Hf|Hf].
    + rewrite write_raw_unbounded by done. intros [= <- <-]. simpl. split; [by rewrite Hs, app_assoc|].
      exists (b ++ framed tag payload). rewrite app_assoc. split; [by apply client_bytes_snoc|done].
    + rewrite write_raw_oversized by done. intros [= <- <-]. simpl. rewrite app_nil_r.
      split; [done|]. by exists b.
  - intros [= <- <-]. simpl. rewrite app_nil_r. split; [done|]. by exists b.
Qed.

Lemma send_input_frame_ok {E} (e : E) f b0 l0 fs c :
  sent_on b0 l0 fs c -> f = C_StdinEnd \/ (exists p, f = C_Stdin p /\ Z.of_nat (length p) <= STREAM_PAYLOAD_MAX) ->
  is_ok (fst (send_frame e f c)) = true.
Proof.
  intros (Hs & b & Hb & Ho) Hf. unfold send_frame, write_client_frame, sbind, slift. rewrite Ho.
  destruct Hf as [->|(p & -> & Hp)]; cbn [encode_client];
    rewrite write_raw_unbounded by (unfold fits, max_payload; simpl; first [done|lia]); done.
Qed.

Lemma send_pieces_on pieces b0 l0 fs c :
  sent_on b0 l0 fs c -> Forall (fun p => Z.of_nat (length p) <= STREAM_PAYLOAD_MAX) pieces ->
  exists c', send_pieces pieces c = (Ok tt, c') /\ sent_on b0 l0 (fs ++ map C_Stdin pieces) c'.
Proof.
  revert fs c. induction pieces as [|p ps IH]; intros fs c Hon Hf; cbn [send_pieces map].
  - exists c. by rewrite app_nil_r.
  - apply Forall_cons in Hf as [Hp Hf]. unfold sbind.
    pose proof (send_input_frame_ok tt (C_Stdin p) _ _ _ _ Hon ltac:(eauto)) as Hok.
    destruct (send_frame tt (C_Stdin p) c) as [[[]|x] c1] eqn:E; [|done].
    apply (send_frame_on _ _ _ _ _ _ _ _ Hon) in E. cbn [is_ok] in E.
    destruct (IH _ _ E Hf) as (c' & -> & Hc'). exists c'. split; [done|]. by rewrite <- app_assoc in Hc'.
Qed.

(** What the host has been given so far, and what it made of it. *)
Definition chunk_of (e : host_event) : bytes :=
  match e with InputArrives (Some data) => data | _ => [] end.

Record input_sent (b0 : bytes) (l0 : list ClientFrame) (given : bytes) (s : host_session)
    (fs : list ClientFrame) : Prop := {
  is_on : sent_on b0 l0 fs (hs_chan s);
  is_data : stdin_of fs = given;
  is_order : input_ok fs = true;
  is_closed : existsb closes fs = negb (hs_input s) }.

Lemma stdin_of_pieces ps : stdin_of (map C_Stdin ps) = concat ps.
Proof.
  unfold stdin_of. f_equal. induction ps as [|p ps IH]; [done|]. by apply (f_equal (cons p)).
Qed.

Lemma input_ok_pieces fs ps :
  input_ok fs = true -> existsb closes fs = false ->
  input_ok (fs ++ map C_Stdin ps) = true /\ existsb closes (fs ++ map C_Stdin ps) = false.
Proof.
  revert fs. induction ps as [|p ps IH]; intros fs H1 H2; simpl; [by rewrite app_nil_r|].
  change (C_Stdin p :: map C_Stdin ps) with ([C_Stdin p] ++ map C_Stdin ps). rewrite app_assoc.
  apply IH; [by rewrite input_ok_snoc, H1, H2|]. by rewrite existsb_app, H2.
Qed.

Lemma chunks_fit data : Forall (fun p => Z.of_nat (length p) <= STREAM_PAYLOAD_MAX)
  (chunks (Z.to_nat STREAM_PAYLOAD_MAX) data).
Proof.
  eapply Forall_impl; [apply chunks_bound|].
  - unfold STREAM_PAYLOAD_MAX. lia.
  - intros p [_ Hp]. unfold STREAM_PAYLOAD_MAX in *. lia.
Qed.

Lemma on_input_sent b0 l0 given chunk s fs :
  input_sent b0 l0 given s fs -> hs_input s = true ->
  exists fs', input_sent b0 l0 (given ++ default [] chunk) (on_input chunk s) fs'.
Proof.
  intros [Hon Hd Ho Hc] Hin. rewrite Hin in Hc. unfold on_input. destruct chunk as [data|]; cbn [default from_option id].
  - destruct (send_pieces_on _ _ _ _ _ Hon (chunks_fit data)) as (c' & Hs & Hon').
    unfold send_input. rewrite Hs. cbn [is_ok]. eexists. split; [exact Hon'|..].
    + rewrite stdin_of_app, stdin_of_pieces, Hd, chunks_concat; [done|]. unfold STREAM_PAYLOAD_MAX. lia.
    + by apply input_ok_pieces.
    + by apply input_ok_pieces.
  - pose proof (send_input_frame_ok tt C_StdinEnd _ _ _ _ Hon ltac:(by left)) as Hok.
    destruct (send_frame tt C_StdinEnd (hs_chan s)) as [r c] eqn:E.
    apply (send_frame_on _ _ _ _ _ _ _ _ Hon) in E. cbn [fst] in Hok. rewrite Hok in E.
    exists (fs ++ [C_StdinEnd]). split; cbn [hs_chan hs_input hs_with_input hs_with_chan]; [exact E|..].
    + by rewrite stdin_of_app, Hd.
    + by rewrite input_ok_snoc, Ho, Hc.
    + by rewrite existsb_app, Hc.
Qed.

Lemma host_step_sent b0 l0 given e s s' fs :
  input_sent b0 l0 given s fs -> host_event_ok e s = true -> host_step e s = Running s' ->
  exists fs', input_sent b0 l0 (given ++ chunk_of e) s' fs'.
Proof.
  intros Hi Hok. destruct e as [|chunk|size]; cbn [host_step chunk_of].
  - rewrite app_nil_r. unfold on_agent_frame. destruct (read_agent_frame _) as [r i].
    intros Hs. exists fs. destruct Hi as [Hon Hd Ho Hc].
    repeat case_match; simplify_eq; by split.
  - intros [= <-]. destruct (on_input_sent _ _ _ chunk _ _ Hi Hok) as [fs' Hfs]. exists fs'.
    by destruct chunk.
  - intros [= <-]. rewrite app_nil_r. destruct size as [size|]; [|by exists fs; destruct Hi; split].
    cbn [on_resize]. destruct (send_frame tt (C_Resize size) (hs_chan s)) as [r c] eqn:E.
    destruct Hi as [Hon Hd Ho Hc]. apply (send_frame_on _ _ _ _ _ _ _ _ Hon) in E.
    eexists. split; [exact E|..]; destruct (is_ok r); rewrite ?app_nil_r; try done.
    + by rewrite stdin_of_app, Hd, app_nil_r.
    + by rewrite input_ok_snoc, Ho, orb_true_r.
    + by rewrite existsb_app, Hc, orb_false_r.
Qed.

Lemma session_loop_sent b0 l0 given events s s' fs :
  input_sent b0 l0 given s fs -> session_loop events s = Some (Running s') ->
  exists fs', input_sent b0 l0 (given ++ concat (map chunk_of events)) s' fs'.
Proof.
  revert given s fs. induction events as [|e events IH]; intros given s fs Hi H; cbn [session_loop] in H.
  - injection H as <-. exists fs. by rewrite app_nil_r.
  - destruct (host_event_ok e s) eqn:Hok; [|done]. destruct (host_step e s) as [s1|] eqn:Hs; [|done].
    destruct (host_step_sent _ _ _ _ _ _ _ Hi Hok Hs) as [fs1 Hi1].
    destruct (IH _ _ _ Hi1 H) as [fs' Hf]. exists fs'. cbn [map concat]. by rewrite app_assoc.
Qed.

Lemma session_state_sent c b0 input resize out err :
  ch_out c = mk_writer b0 None true ->
  exists fs, input_sent b0 (ch_sent c) [] (session_state c input resize out err) fs.
Proof.
  intros Hc. assert (sent_on b0 (ch_sent c) [] c) as Hon.
  { split; [by rewrite app_nil_r|]. exists []. by rewrite app_nil_r. }
  unfold session_state. destruct input.
  - by exists [].
  - pose proof (send_input_frame_ok tt C_StdinEnd _ _ _ _ Hon ltac:(by left)) as Hok.
    destruct (send_frame tt C_StdinEnd c) as [r c'] eqn:E.
    apply (send_frame_on _ _ _ _ _ _ _ _ Hon) in E. cbn [fst] in Hok. rewrite Hok in E.
    by exists [C_StdinEnd].
Qed.

Lemma input_ok_app consumed todo :
  input_ok (consumed ++ todo) = true -> existsb closes consumed = true -> stdin_of todo = [].
Proof.
  induction consumed as [|f fs IH]; [done|]. simpl. intros [Hf Hok]%andb_true_iff Hc.
  destruct (closes f); [|by apply IH]. apply negb_true_iff in Hf.
  rewrite existsb_app in Hf. apply orb_false_iff in Hf as [_ Hf]. clear -Hf.
  induction todo as [|g todo IH]; [done|]. simpl in Hf. apply orb_false_iff in Hf as [Hg Hf].
  destruct g; try done; by apply IH.
Qed.

(** C7: Standard input end to end.  The host splits what it is given into frames the encoder
    accepts and sends its end once and last; read by the guest's session without a dropped
    read, the child's input is a prefix of exactly those bytes, in order, and all of them when
    the guest closes it. *)
Theorem stdin_reaches_the_child {L : WireLaws W} from_named_raw events guest_events c b0 input resize
    out err s cin cout cerr n :
  ch_out c = mk_writer b0 None true ->
  session_loop events (session_state c input resize out err) = Some (Running s) ->
  Forall lossless guest_events ->
  forall b, wr_bytes (ch_out (hs_chan s)) = b0 ++ b ->
  run_non_pty from_named_raw guest_events (nonpty_start (mk_reader b None) cin cout cerr) = Some (Continue n) ->
  np_written n `prefix_of` concat (map chunk_of events) /\
  (np_input_ended n = true -> np_written n = concat (map chunk_of events)).
Proof.
  intros Hc Hrun Hl b Hb Hguest.
  destruct (session_state_sent c b0 input resize out err Hc) as [fs0 H0].
  destruct (session_loop_sent _ _ _ _ _ _ _ H0 Hrun) as [fs [(_ & b' & Hcb & Ho) Hd Hok _]].
  rewrite Ho in Hb. apply app_inv_head in Hb as ->. cbn [app] in Hd.
  destruct (stdin_delivered from_named_raw fs b None guest_events cin cout cerr n Hcb Hl (or_introl Hguest))
    as (consumed & todo & -> & _ & Hw & _ & He).
  rewrite stdin_of_app in Hd. rewrite <- Hd, Hw. split; [by exists (stdin_of todo)|].
  intros Hend. rewrite (input_ok_app consumed todo Hok); [by rewrite app_nil_r|].
  apply existsb_exists. exists C_StdinEnd. split; [|done]. by apply list_elem_of_In, He.
Qed.

(* ------------------------------------------------------------------ *)
(** ** A query, both ends *)

Lemma send_agent_run f tag payload b log :
  encode_agent f = Ok (tag, payload) -> fits tag payload ->
  send f (mk_conn (mk_writer b None true) log)
  = (Ok tt, mk_conn (mk_writer (b ++ framed tag payload) None true) (log ++ [f])).
Proof.
  intros He Hf. unfold send, write_agent_frame, sbind, slift. cbn [c_out c_log]. rewrite He.
  by rewrite write_raw_unbounded.
Qed.

Lemma send_client_run {E} (e : E) f tag payload i silent b sent :
  encode_client f = Ok (tag, payload) -> fits tag payload ->
  send_frame e f (mk_chan i silent (mk_writer b None true) sent)
  = (Ok tt, mk_chan i silent (mk_writer (b ++ framed tag payload) None true) (sent ++ [f])).
Proof.
  intros He Hf. unfold send_frame, write_client_frame, sbind, slift. cbn [ch_out ch_in ch_silent ch_sent].
  rewrite He. by rewrite write_raw_unbounded.
Qed.

Lemma recv_agent_run {L : WireLaws W} {E} (e : E) f tag payload rest en silent w sent :
  encode_agent f = Ok (tag, payload) -> fits tag payload ->
  recv_frame e (mk_chan (mk_reader (framed tag payload ++ rest) en) silent w sent)
  = (Ok f, mk_chan (mk_reader rest en) silent w sent).
Proof.
  intros He Hf. unfold recv_frame. cbn [ch_in]. rewrite read_agent_framed by done.
  by rewrite (decode_encode_agent f).
Qed.

(** Asked over the wire, the count the host reports is the agent's own: the bytes of
    [session_count] read by [handle] are answered with bytes that [session_count] reads back
    as the counter, and the agent's connection ends well. *)
Theorem session_count_end_to_end {L : WireLaws W} from_named_raw w m n hello count :
  to_vec (mk_Hello SCHEMA_VERSION (bm_boot_identity m)) = Some hello -> fits TAG_CLIENT_HELLO hello ->
  to_vec (mk_SessionCount n) = Some count -> fits TAG_SESSION_COUNT count ->
  let asked := framed TAG_CLIENT_HELLO hello ++ framed TAG_SESSIONS_QUERY [] in
  let answered := framed TAG_AGENT_HELLO hello ++ framed TAG_SESSION_COUNT count in
  (exists a, handle from_named_raw 2 (bm_boot_identity m) w
      (mk_agent (mk_reader asked None) (mk_conn (mk_writer [] None true) []) n false) = Done (Ok tt) a /\
    wr_bytes (c_out (ag_conn a)) = answered) /\
  (exists c, session_exchange m (mk_chan (mk_reader answered None) false (mk_writer [] None true) []) = (Ok n, c) /\
    wr_bytes (ch_out c) = asked).
Proof.
  intros Hh Hfh Hc Hfc asked answered. unfold asked, answered.
  assert (forall t, tagged t (json (mk_Hello SCHEMA_VERSION (bm_boot_identity m))) = Ok (t, hello)) as Hj
    by (intros t; unfold json; by rewrite Hh).
  assert (encode_agent (A_Sessions (mk_SessionCount n)) = Ok (TAG_SESSION_COUNT, count)) as Hjc
    by (cbn [encode_agent]; unfold json; by rewrite Hc).
  assert (fits TAG_SESSIONS_QUERY []) as Hq by done.
  assert (same_boot m (mk_Hello SCHEMA_VERSION (bm_boot_identity m)) = true) as Hsame
    by (unfold same_boot; cbn; by apply bytes_eqb_true).
  split.
  - unfold handle. cbn [ag_in]. rewrite read_client_framed by done.
    rewrite (decode_encode_client (client_hello m)) by apply Hj.
    cbn [client_hello schema_version boot_identity]. unfold same_boot in Hsame. cbn [schema_version boot_identity] in Hsame.
    rewrite Hsame. cbn [ag_conn with_reader]. erewrite send_agent_run by (apply Hj || done). cbn [serve].
    cbn [ag_in with_conn with_reader]. rewrite <- (app_nil_r (framed TAG_SESSIONS_QUERY [])), read_client_framed by done.
    change (decode_client TAG_SESSIONS_QUERY []) with (Ok C_Sessions : result ClientFrame FrameError).
    cbv beta iota. unfold answer. cbn [ag_conn with_reader with_conn ag_sessions].
    erewrite send_agent_run by done. eexists. split; [done|]. done.
  - unfold session_exchange. unfold sbind at 1. rewrite (send_client_run _ _ TAG_CLIENT_HELLO hello) by (apply Hj || done).
    unfold sbind at 1. rewrite (recv_agent_run _ (A_Hello (mk_Hello SCHEMA_VERSION (bm_boot_identity m))) TAG_AGENT_HELLO hello) by (apply Hj || done). rewrite Hsame.
    unfold sbind at 1. rewrite (send_client_run _ _ TAG_SESSIONS_QUERY []) by done.
    unfold sbind. rewrite <- (app_nil_r (framed TAG_SESSION_COUNT count)). rewrite (recv_agent_run _ (A_Sessions (mk_SessionCount n)) TAG_SESSION_COUNT count) by done.
    eexists. split; [done|]. done.
Qed.
End spec.

(* ------------------------------------------------------------------ *)
(** ** Witnesses *)

Definition demo_boot_metadata : BootMetadata := mk_BootMetadata demo_identity.
Definition demo_greeting : bytes := framed TAG_AGENT_HELLO (default [] (@to_vec _ (@wc_hello demo_codec) demo_hello)).
Definition demo_chan (answer : bytes) : chan :=
  mk_chan (mk_reader (demo_greeting ++ answer) None) false (mk_writer [] None true) [].
Definition demo_other : chan :=
  mk_chan (mk_reader (framed TAG_PONG []) None) false (mk_writer [] None true) [].
Definition demo_request : StartRequest := mk_StartRequest Exec [bs "sh"] [] (bs "/") false.

Lemma only_this_boot_is_asked_witness :
  greeted (W := demo_codec) demo_boot_metadata demo_other = false /\
  only_hello demo_boot_metadata demo_other
    (@open_session demo_codec demo_boot_metadata demo_request None demo_other).
Proof.
  split; [vm_compute; reflexivity|].
  exact (proj2 (proj2 (proj2 (proj2 (@only_this_boot_is_asked demo_codec demo_boot_metadata demo_other C_Memory
    demo_request None ltac:(vm_compute; reflexivity)))))).
Defined.

Definition demo_dialled : chan :=
  mk_chan (mk_reader (bs "OK 1" ++ x0a :: demo_greeting ++ framed TAG_TRIM_ACK []) None) false (mk_writer [] None true) [].
Definition demo_connected : chan :=
  mk_chan (mk_reader (demo_greeting ++ framed TAG_TRIM_ACK []) None) false
    (mk_writer (bs "CONNECT 52000" ++ [x0a]) None true) [].
Lemma reclaim_call_splits_errors_witness :
  greeted (W := demo_codec) demo_boot_metadata demo_connected = true /\
  @reclaim_call demo_codec false (Ok demo_dialled) demo_boot_metadata C_Memory
  = (Ok A_TrimAck, snd (@reclaim_call demo_codec false (Ok demo_dialled) demo_boot_metadata C_Memory)).
Proof.
  split; [|vm_compute; reflexivity].
  pose proof (@reclaim_call_splits_errors demo_codec false demo_dialled demo_boot_metadata C_Memory demo_connected
    ltac:(vm_compute; reflexivity)) as H.
  vm_compute in H |- *. exact (proj1 H).
Defined.

Lemma readiness_wait_can_block_witness :
  exists attempt, @wait_for_agent demo_codec [(false, Ok attempt)] demo_boot_metadata = Err Blocks.
Proof.
  destruct (@readiness_wait_can_block demo_codec demo_boot_metadata
    (snd (@write_client_frame demo_codec (client_hello demo_boot_metadata)
       (mk_writer (bs "CONNECT 52000" ++ [x0a]) None true))) ltac:(vm_compute; reflexivity)) as [_ [a Ha]].
  exists a. apply Ha.
Defined.

Definition demo_agent_says : chan :=
  mk_chan (mk_reader (framed TAG_STDOUT (bs "hi") ++ framed TAG_EXIT (default [] (@to_vec _ (@wc_exit demo_codec) (mk_ExitStatus 3)))) None)
    false (mk_writer [] None true) [].
Definition demo_host_end : host_session :=
  match @session_loop demo_codec [AgentArrives; InputArrives (Some (bs "ls")); AgentArrives]
    (@session_state demo_codec demo_agent_says true false (mk_writer [] None true) (mk_writer [] None true)) with
  | Some (Finished _ s) => s
  | _ => @session_state demo_codec demo_agent_says true false (mk_writer [] None true) (mk_writer [] None true)
  end.
Lemma host_reports_the_guest_witness :
  (exists outs r1, session_end (fst (@read_agent_frame demo_codec r1)) (Ok (Exited 3)) /\
    forwarded (W := demo_codec) (ch_in demo_agent_says) [] [] outs demo_host_end r1) /\
  wr_bytes (hs_stdout demo_host_end) = bs "hi".
Proof.
  split; [|vm_compute; reflexivity].
  exact (@host_reports_the_guest demo_codec [AgentArrives; InputArrives (Some (bs "ls")); AgentArrives]
    demo_agent_says true false (mk_writer [] None true) (mk_writer [] None true) (Ok (Exited 3)) demo_host_end
    ltac:(vm_compute; reflexivity)).
Defined.

Definition demo_typing : list host_event := [InputArrives (Some (bs "ls")); InputArrives None].
Definition demo_typed : host_session :=
  match @session_loop demo_codec demo_typing
    (@session_state demo_codec (demo_chan []) true false (mk_writer [] None true) (mk_writer [] None true)) with
  | Some (Running s) => s
  | _ => demo_host_end
  end.
Definition demo_child : nonpty :=
  match @run_non_pty demo_codec demo_named [FrameReady (mk_os (Ok tt) true); FrameReady (mk_os (Ok tt) true)]
    (nonpty_start (mk_reader (wr_bytes (ch_out (hs_chan demo_typed))) None) (mk_conn (mk_writer [] None true) [])
      (mk_reader [] None) (mk_reader [] None)) with
  | Some (Continue s) => s
  | _ => demo_start
  end.
Lemma stdin_reaches_the_child_witness : np_written demo_child = bs "ls".
Proof.
  apply (proj2 (@stdin_reaches_the_child demo_codec demo_laws demo_named demo_typing
    [FrameReady (mk_os (Ok tt) true); FrameReady (mk_os (Ok tt) true)] (demo_chan []) [] true false
    (mk_writer [] None true) (mk_writer [] None true) demo_typed (mk_conn (mk_writer [] None true) [])
    (mk_reader [] None) (mk_reader [] None) demo_child ltac:(reflexivity) ltac:(vm_compute; reflexivity)
    ltac:(repeat constructor) (wr_bytes (ch_out (hs_chan demo_typed))) ltac:(reflexivity) ltac:(vm_compute; reflexivity))).
  vm_compute. reflexivity.
Defined.

Lemma session_count_end_to_end_witness :
  exists c, @session_exchange demo_codec demo_boot_metadata
    (demo_chan (framed TAG_SESSION_COUNT (default [] (@to_vec _ (@wc_sessions demo_codec) (mk_SessionCount 2))))) = (Ok 2, c).
Proof.
  destruct (@session_count_end_to_end demo_codec demo_laws demo_named
    (mk_world (Ok tt) (Err OtherIo) (fun _ => Err tt) (fun _ _ => Err InvalidRequest)) demo_boot_metadata 2
    (default [] (@to_vec _ (@wc_hello demo_codec) demo_hello))
    (default [] (@to_vec _ (@wc_sessions demo_codec) (mk_SessionCount 2)))) as [_ (c & Hc & _)].
  - vm_compute. reflexivity.
  - vm_compute. discriminate.
  - vm_compute. reflexivity.
  - vm_compute. discriminate.
  - exists c. exact Hc.
Defined.
