(* ===== verification/Ip.v ===== *)
(** * Ip: [std::net::IpAddr] as the source uses it: parsing, printing, families. *)
From S2P Require Import Prelude Bytes.

(** An IPv4 address is 32 bits, an IPv6 address 128. *)
Inductive IpAddr := V4 (a : Z) | V6 (a : Z).
#[export] Instance IpAddr_eq_dec : EqDecision IpAddr.
Proof. solve_decision. Defined.
#[export] Instance IpAddr_countable : Countable IpAddr.
Proof.
  apply (inj_countable' (fun a => match a with V4 a => inl a | V6 a => inr a end)
    (fun s => match s with inl a => V4 a | inr a => V6 a end)).
  by intros [].
Defined.

(* ------------------------------------------------------------------ *)
(** ** Parsing *)

Definition to_digit (radix : Z) (b : byte) : option Z :=
  let v := if is_ascii_digit b then Some (bz b - 48)
           else if (97 <=? bz b) && (bz b <=? 102) then Some (bz b - 87)
           else if (65 <=? bz b) && (bz b <=? 70) then Some (bz b - 55) else None in
  let* v := v in if v <? radix then Some v else None.

Fixpoint span_digits (radix : Z) (s : bytes) : list Z * bytes :=
  match s with
  | b :: s' =>
      match to_digit radix b with
      | Some v => let '(vs, rest) := span_digits radix s' in (v :: vs, rest)
      | None => ([], s)
      end
  | [] => ([], [])
  end.

(** [read_number]. *)
Definition read_number (radix max : Z) (max_digits : nat) (allow_zero_prefix : bool) (s : bytes)
    : option (Z * bytes) :=
  let '(vs, rest) := span_digits radix s in
  let value := fold_left (fun a v => a * radix + v) vs 0 in
  if (length vs =? 0)%nat || (max_digits <? length vs)%nat || (max <? value) ||
     (negb allow_zero_prefix && bool_decide (head vs = Some 0) && (1 <? length vs)%nat)
  then None else Some (value, rest).

(** [read_separator]: the separator stands before every part but the first. *)
Definition read_separator {A} (sep : byte) (index : nat) (f : bytes -> option (A * bytes)) (s : bytes)
    : option (A * bytes) :=
  match index with
  | O => f s
  | S _ => match s with b :: s' => if decide (b = sep) then f s' else None | [] => None end
  end.

Definition read_octet := read_number 10 255 3 false.
Definition read_ipv4_addr (s : bytes) : option (Z * bytes) :=
  let* (a, s) := read_separator "." 0 read_octet s in
  let* (b, s) := read_separator "." 1 read_octet s in
  let* (c, s) := read_separator "." 2 read_octet s in
  let* (d, s) := read_separator "." 3 read_octet s in
  Some (((a * 256 + b) * 256 + c) * 256 + d, s).

(** [read_groups] from group [i] on, [left] groups before the limit. *)
Fixpoint read_groups (left i : nat) (s : bytes) : list Z * bool * bytes :=
  match left with
  | O => ([], false, s)
  | S left' =>
      match (if (0 <? left')%nat then read_separator ":" i read_ipv4_addr s else None) with
      | Some (v4, s') => ([Z.shiftr v4 16; v4 mod 65536], true, s')
      | None =>
          match read_separator ":" i (read_number 16 65535 4 true) s with
          | Some (g, s') => let '(gs, ipv4, rest) := read_groups left' (S i) s' in (g :: gs, ipv4, rest)
          | None => ([], false, s)
          end
      end
  end.

Definition of_groups (gs : list Z) : Z := fold_left (fun a g => a * 65536 + g) gs 0.

Definition read_ipv6_addr (s : bytes) : option (Z * bytes) :=
  let '(front, front_ipv4, s) := read_groups 8 0 s in
  if (length front =? 8)%nat then Some (of_groups front, s)
  else if front_ipv4 then None
  else
    let* s := strip_prefix (bs "::") s in
    let '(back, _, s) := read_groups (8 - (length front + 1)) 0 s in
    Some (of_groups (front ++ replicate (8 - length front - length back) 0 ++ back), s).

(** [IpAddr::from_str]: either family, and nothing left over. *)
Definition ip_from_str (s : bytes) : option IpAddr :=
  match read_ipv4_addr s with
  | Some (a, []) => Some (V4 a)
  | Some _ => None
  | None => match read_ipv6_addr s with Some (a, []) => Some (V6 a) | _ => None end
  end.

(* ------------------------------------------------------------------ *)
(** ** Printing *)

Definition groups_of (a : Z) : list Z :=
  map (fun i => Z.shiftr a (16 * i) mod 65536) [7; 6; 5; 4; 3; 2; 1; 0].
Definition hex_digit (v : Z) : byte := if v <? 10 then zb (48 + v) else zb (87 + v).
(** [{:x}] of a u16. *)
Definition hex (v : Z) : bytes :=
  let ds := map (fun i => Z.shiftr v (4 * i) mod 16) [3; 2; 1; 0] in
  let fix strip ds := match ds with 0 :: ((_ :: _) as rest) => strip rest | _ => ds end in
  map hex_digit (strip ds).
Definition v4_to_string (a : Z) : bytes :=
  join_with "." (map (fun i => dec (Z.shiftr a (8 * i) mod 256)) [3; 2; 1; 0]).

(** The first longest run of zero groups: (start, length). *)
Fixpoint zero_run (gs : list Z) : nat :=
  match gs with 0 :: gs' => S (zero_run gs') | _ => O end.
Fixpoint longest_run (i : nat) (gs : list Z) (best : nat * nat) : nat * nat :=
  match gs with
  | [] => best
  | _ :: gs' =>
      let here := zero_run gs in
      longest_run (S i) gs' (if (best.2 <? here)%nat then (i, here) else best)
  end.
Definition groups_to_string (gs : list Z) : bytes := join_with ":" (map hex gs).
Definition v6_to_string (a : Z) : bytes :=
  if Z.shiftr a 32 =? 65535 then bs "::ffff:" ++ v4_to_string (a mod 2 ^ 32)
  else
    let gs := groups_of a in
    let '(start, len) := longest_run 0 gs (0%nat, 0%nat) in
    if (1 <? len)%nat
    then groups_to_string (take start gs) ++ bs "::" ++ groups_to_string (drop (start + len) gs)
    else groups_to_string gs.
Definition ip_to_string (addr : IpAddr) : bytes :=
  match addr with V4 a => v4_to_string a | V6 a => v6_to_string a end.

Example ip_v4 : ip_from_str (bs "192.0.2.10") = Some (V4 3221225994).
Proof. reflexivity. Qed.
Example ip_v4_octal : ip_from_str (bs "192.0.02.10") = None.
Proof. reflexivity. Qed.
Example ip_v6 : option_map ip_to_string (ip_from_str (bs "2001:DB8:0:0:1::1")) = Some (bs "2001:db8::1:0:0:1").
Proof. vm_compute. reflexivity. Qed.
Example ip_v6_mapped : option_map ip_to_string (ip_from_str (bs "::ffff:1.2.3.4")) = Some (bs "::ffff:1.2.3.4").
Proof. vm_compute. reflexivity. Qed.
