(* ===== verification/Allowlist.v ===== *)
(** * Allowlist: the [egress.allow] grammar and its matcher (src/src/net/allowlist.rs).

    [IpNet] is the ipnet crate's: a type, its [FromStr] and its [contains]. *)
From S2P Require Import Prelude Bytes Ip.

(** The ipnet crate's block type. *)
Class IpNetOps (Net : Type) := {
  net_from_str : bytes -> option Net;
  net_addr : Net -> IpAddr;
  net_prefix_len : Net -> Z;
  net_contains : Net -> IpAddr -> bool }.

(** [normalize_name]. *)
Definition label_byte (c : byte) : bool :=
  is_ascii_alphanumeric c || bool_decide (c = "-"%byte) || bool_decide (c = "_"%byte).
Definition label_ok (label : bytes) : bool :=
  negb (length label =? 0)%nat && (length label <=? 63)%nat &&
  negb (bool_decide (head label = Some "-"%byte)) && negb (bool_decide (last label = Some "-"%byte)) &&
  forallb label_byte label.
Definition normalize_name (name : bytes) : option bytes :=
  let name := default name (strip_suffix (bs ".") name) in
  if (length name =? 0)%nat || (253 <? length name)%nat then None
  else
    let lowered := map to_ascii_lower name in
    if forallb label_ok (split_on "." lowered) then Some lowered else None.

Section allowlist.
Context {Net : Type} {N : IpNetOps Net}.

Inductive AllowEntry :=
| Exact (name : bytes)
| OneLabel (suffix : bytes)
| ManyLabels (suffix : bytes)
| Addr (addr : IpAddr)
| Block (net : Net).

Inductive AllowlistError := InvalidEntry (entry : bytes).

Definition entry_parse (entry : bytes) : result AllowEntry AllowlistError :=
  match net_from_str entry with
  | Some net => Ok (Block net)
  | None =>
  match ip_from_str entry with
  | Some addr => Ok (Addr addr)
  | None =>
  match strip_prefix (bs "**.") entry with
  | Some suffix => let? suffix := ok_or (normalize_name suffix) (InvalidEntry entry) in Ok (ManyLabels suffix)
  | None =>
  match strip_prefix (bs "*.") entry with
  | Some suffix => let? suffix := ok_or (normalize_name suffix) (InvalidEntry entry) in Ok (OneLabel suffix)
  | None => let? name := ok_or (normalize_name entry) (InvalidEntry entry) in Ok (Exact name)
  end end end end.

Record Allowlist := mk_Allowlist { entries : list AllowEntry }.
Definition allowlist_parse (raw : list bytes) : result Allowlist AllowlistError :=
  let? es := collect_results entry_parse raw in Ok (mk_Allowlist es).

(** [name.strip_suffix(suffix)?.strip_suffix('.')]. *)
Definition before_suffix (suffix name : bytes) : option bytes :=
  let* front := strip_suffix suffix name in strip_suffix (bs ".") front.

Definition entry_matches_name (name : bytes) (entry : AllowEntry) : bool :=
  match entry with
  | Exact exact => bytes_eqb name exact
  | OneLabel suffix =>
      match before_suffix suffix name with
      | Some label => negb (length label =? 0)%nat && negb (contains "." label)
      | None => false
      end
  | ManyLabels suffix =>
      match before_suffix suffix name with Some labels => negb (length labels =? 0)%nat | None => false end
  | Addr _ | Block _ => false
  end.
Definition matches_name (a : Allowlist) (name : bytes) : bool :=
  match normalize_name name with
  | None => false
  | Some name => existsb (entry_matches_name name) (entries a)
  end.

Definition entry_matches_addr (addr : IpAddr) (entry : AllowEntry) : bool :=
  match entry with
  | Addr allowed => bool_decide (allowed = addr)
  | Block net => net_contains net addr
  | _ => false
  end.
Definition matches_addr (a : Allowlist) (addr : IpAddr) : bool :=
  existsb (entry_matches_addr addr) (entries a).

Definition is_literal (entry : AllowEntry) : bool :=
  match entry with Addr _ | Block _ => true | _ => false end.
Definition literal_destinations (a : Allowlist) : list AllowEntry := List.filter is_literal (entries a).

(* ------------------------------------------------------------------ *)
(** ** What the grammar says, in labels *)

Definition labels (name : bytes) : list bytes := split_on "." name.

(** The entry's meaning on the labels of a name. *)
Definition grants (entry : AllowEntry) (name : list bytes) : Prop :=
  match entry with
  | Exact exact => name = labels exact
  | OneLabel suffix => exists label, name = label :: labels suffix
  | ManyLabels suffix => exists front, front <> [] /\ name = front ++ labels suffix
  | Addr _ | Block _ => False
  end.

(** Case and one trailing dot do not matter to a name. *)
Definition canonical (name : bytes) : bytes := map to_ascii_lower (default name (strip_suffix (bs ".") name)).

Lemma strip_suffix_snoc (c : byte) s : strip_suffix [c] (s ++ [c]) = Some s.
Proof. by apply strip_suffix_Some. Qed.

Lemma normalize_name_Some name n :
  normalize_name name = Some n <->
  n = canonical name /\ (0 < length n <= 253)%nat /\ Forall (fun l => label_ok l = true) (labels n).
Proof.
  unfold normalize_name, canonical. set (s := default name _).
  assert (length (map to_ascii_lower s) = length s) as Hl by apply length_map.
  destruct ((length s =? 0)%nat || (253 <? length s)%nat) eqn:E.
  - rewrite orb_true_iff, Nat.eqb_eq, Nat.ltb_lt in E. split; [done|].
    intros (-> & Hlen & _). fold s in Hlen. rewrite Hl in Hlen. lia.
  - rewrite orb_false_iff, Nat.eqb_neq, Nat.ltb_ge in E. unfold labels.
    destruct (forallb label_ok _) eqn:Ef.
    + split; [intros [= <-]|by intros (-> & _)]. split_and!; [done|lia|lia|].
      rewrite forallb_forall in Ef. apply Forall_forall. intros l Hin. by apply Ef, list_elem_of_In.
    + split; [done|]. intros (-> & _ & Hf). exfalso. apply not_true_iff_false in Ef. apply Ef.
      apply forallb_forall. rewrite Forall_forall in Hf. intros l Hin. by apply Hf, list_elem_of_In.
Qed.

Lemma label_ok_ne l : label_ok l = true -> l <> [].
Proof. by intros H ->. Qed.

Lemma before_suffix_Some suffix name front :
  before_suffix suffix name = Some front <-> name = front ++ "."%byte :: suffix.
Proof.
  unfold before_suffix. change (bs ".") with ["."%byte]. split.
  - destruct (strip_suffix suffix name) as [f|] eqn:E; [|done]. cbn [option_bind].
    apply strip_suffix_Some in E as ->. intros H%strip_suffix_Some. subst f. by rewrite <- app_assoc.
  - intros ->. change (front ++ "."%byte :: suffix) with (front ++ ["."%byte] ++ suffix). rewrite app_assoc.
    assert (strip_suffix suffix ((front ++ ["."%byte]) ++ suffix) = Some (front ++ ["."%byte])) as ->
      by (by apply strip_suffix_Some). cbn [option_bind]. apply strip_suffix_snoc.
Qed.

(** Cutting at the last dot of the front part: labels concatenate. *)
Lemma labels_app front suffix : labels (front ++ "."%byte :: suffix) = labels front ++ labels suffix.
Proof.
  unfold labels. rewrite <- (join_split "." front) at 1.
  pose proof (split_on_no_sep "." front) as Hf. pose proof (split_on_ne "." front) as Hne.
  generalize dependent (split_on "." front). intros ps Hf Hne.
  induction ps as [|p ps IH]; [done|]. apply Forall_cons in Hf as [Hp Hf].
  destruct ps as [|q ps].
  - simpl. by rewrite split_on_app_cons.
  - change (join_with "." (p :: q :: ps)) with (p ++ "."%byte :: join_with "." (q :: ps)).
    rewrite <- app_assoc. cbn [app]. rewrite split_on_app_cons by done. by rewrite IH.
Qed.

Lemma labels_inj a b : labels a = labels b -> a = b.
Proof. unfold labels. intros H. by rewrite <- (join_split "." a), H, join_split. Qed.

Lemma labels_join ls : ls <> [] -> Forall (fun l => "."%byte ∉ l) ls -> labels (join_with "." ls) = ls.
Proof. apply split_join. Qed.

Lemma labels_no_dot name : Forall (fun l => "."%byte ∉ l) (labels name).
Proof. apply split_on_no_sep. Qed.

Lemma entry_matches_name_grants name entry :
  Forall (fun l => l <> []) (labels name) ->
  entry_matches_name name entry = true <-> grants entry (labels name).
Proof.
  intros Hne. destruct entry as [exact|suffix|suffix|a|n]; cbn [entry_matches_name grants]; try done.
  - rewrite bytes_eqb_true. split; [by intros ->|apply labels_inj].
  - destruct (before_suffix suffix name) as [front|] eqn:E.
    + apply before_suffix_Some in E as ->. rewrite labels_app in *.
      rewrite andb_true_iff, !negb_true_iff, Nat.eqb_neq, contains_false. split.
      * intros [_ Hdot]. exists front. unfold labels at 1. by rewrite split_on_single.
      * intros [label Hl].
        assert (labels front = [label]) as Hf.
        { apply (app_inv_tail (labels suffix)). exact Hl. }
        rewrite <- (join_split "." front). unfold labels in Hf. rewrite Hf. simpl.
        pose proof (labels_no_dot front) as Hd. unfold labels in Hd, Hne. rewrite Hf in Hd, Hne.
        apply Forall_cons in Hd as [? _]. apply Forall_cons in Hne as [Hlab _].
        split; [by destruct label|done].
    + split; [done|]. intros [label Hl]. exfalso.
      assert (name = label ++ "."%byte :: suffix) as ->.
      { apply labels_inj. rewrite labels_app, Hl. unfold labels at 2. rewrite split_on_single; [done|].
        pose proof (labels_no_dot name) as Hd. rewrite Hl in Hd. by apply Forall_cons in Hd as [? _]. }
      assert (before_suffix suffix (label ++ "."%byte :: suffix) = Some label) by (by apply before_suffix_Some).
      congruence.
  - destruct (before_suffix suffix name) as [front|] eqn:E.
    + apply before_suffix_Some in E as ->. rewrite labels_app in *.
      rewrite negb_true_iff, Nat.eqb_neq. split.
      * intros _. exists (labels front). split; [apply split_on_ne|done].
      * intros _ Hz. destruct front; [|done]. apply Forall_app in Hne as [Hne _].
        by apply Forall_cons in Hne as [? _].
    + split; [done|]. intros (ls & Hls & Hl). exfalso.
      assert (name = join_with "." ls ++ "."%byte :: suffix) as ->.
      { apply labels_inj. rewrite labels_app, labels_join; [done|done|].
        pose proof (labels_no_dot name) as Hd. rewrite Hl in Hd. by apply Forall_app in Hd as [? _]. }
      assert (before_suffix suffix (join_with "." ls ++ "."%byte :: suffix) = Some (join_with "." ls))
        by (by apply before_suffix_Some). congruence.
Qed.
End allowlist.
Arguments AllowEntry Net : clear implicits.
Arguments Allowlist Net : clear implicits.

(** * Allowlist: what the allowlist grants. *)

Section spec.
Context {Net : Type} {N : IpNetOps Net}.
Implicit Types (a : Allowlist Net) (e : AllowEntry Net).

Lemma labels_nonempty n : Forall (fun l => label_ok l = true) (labels n) -> Forall (fun l => l <> []) (labels n).
Proof. intros H. eapply Forall_impl; [exact H|]. apply label_ok_ne. Qed.

(** A queried name is permitted exactly when it is a well-formed DNS name some entry
    grants label by label: an exact entry that name alone, [*.] one more label in front of
    the suffix, [**.] one or more.  A suffix of characters is never enough. *)
Theorem matches_name_spec a name :
  matches_name a name = true <->
  exists n e, normalize_name name = Some n /\ e ∈ entries a /\ grants e (labels n).
Proof.
  unfold matches_name. destruct (normalize_name name) as [n|] eqn:E; [|split; [done|naive_solver]].
  pose proof E as (_ & _ & Hok)%normalize_name_Some. apply labels_nonempty in Hok.
  rewrite existsb_exists. split.
  - intros (e & Hin%list_elem_of_In & He%entry_matches_name_grants); [|done]. eauto.
  - intros (n' & e & [= <-] & Hin & He). exists e.
    split; [by apply list_elem_of_In|by apply entry_matches_name_grants].
Qed.

(* ------------------------------------------------------------------ *)
(** ** Normal forms *)

Lemma lower_fixed s : Forall (fun l => label_ok l = true) (labels s) -> s = map to_ascii_lower s ->
  forall c, c ∈ s -> label_byte c = true \/ c = "."%byte.
Proof.
  intros Hok _ c Hc. rewrite <- (join_split "." s) in Hc. unfold labels in Hok.
  induction (split_on "." s) as [|p ps IH]; [by apply not_elem_of_nil in Hc|].
  apply Forall_cons in Hok as [Hp Hok].
  assert (c ∈ p -> label_byte c = true) as Hb.
  { intros Hin. unfold label_ok in Hp. rewrite !andb_true_iff in Hp. destruct Hp as [_ Hp].
    rewrite forallb_forall in Hp. by apply Hp, list_elem_of_In. }
  destruct ps as [|q ps]; [by left; apply Hb|].
  change (join_with "." (p :: q :: ps)) with (p ++ "."%byte :: join_with "." (q :: ps)) in Hc.
  apply elem_of_app in Hc as [?|[?|?]%elem_of_cons]; [left; by apply Hb|by right|by apply IH].
Qed.

Lemma last_label_dot s : last s = Some "."%byte -> exists ls, labels s = ls ++ [[]].
Proof.
  intros Hl. destruct (last_Some s "."%byte) as [Hs _]. destruct (Hs Hl) as [s' ->].
  exists (labels s'). apply labels_app.
Qed.

Lemma normal_no_final_dot n :
  Forall (fun l => label_ok l = true) (labels n) -> strip_suffix (bs ".") n = None.
Proof.
  intros Hok. destruct (strip_suffix (bs ".") n) as [r|] eqn:E; [|done].
  apply strip_suffix_Some in E as ->. exfalso. change (bs ".") with ["."%byte] in Hok.
  rewrite labels_app in Hok. apply Forall_app in Hok as [_ Hok]. by apply Forall_cons in Hok as [? _].
Qed.

Lemma lower_lower s : map to_ascii_lower (map to_ascii_lower s) = map to_ascii_lower s.
Proof. rewrite map_map. apply map_ext, to_ascii_lower_idem. Qed.

Lemma normalize_same name name' n :
  normalize_name name = Some n ->
  map to_ascii_lower name' = n \/ map to_ascii_lower name' = n ++ bs "." ->
  normalize_name name' = Some n.
Proof.
  intros (_ & Hlen & Hok)%normalize_name_Some Hn. apply normalize_name_Some. split; [|done].
  unfold canonical. destruct Hn as [Hn|Hn].
  - destruct (strip_suffix (bs ".") name') as [r|] eqn:E; [|done]. exfalso.
    apply strip_suffix_Some in E as ->. rewrite map_app in Hn.
    pose proof (normal_no_final_dot n Hok) as Hd. rewrite <- Hn in Hd. change (map to_ascii_lower (bs ".")) with (bs ".") in Hd.
    assert (strip_suffix (bs ".") (map to_ascii_lower r ++ bs ".") = Some (map to_ascii_lower r))
      by (by apply strip_suffix_Some). congruence.
  - assert (exists r, name' = r ++ bs "." /\ map to_ascii_lower r = n) as (r & -> & Hr).
    { change (bs ".") with ["."%byte] in *. apply map_eq_app in Hn as (r & d & -> & Hr & Hd).
      destruct d as [|c [|]]; try done. injection Hd as Hc. apply to_ascii_lower_dot in Hc as ->. eauto. }
    assert (strip_suffix (bs ".") (r ++ bs ".") = Some r) as -> by (by apply strip_suffix_Some). done.
Qed.

(** Matching is over DNS's case-insensitive space: every spelling of a name that differs in
    letter case, or by one trailing dot, gets the same answer. *)
Theorem matching_ignores_case_and_final_dot a name name' n :
  normalize_name name = Some n ->
  map to_ascii_lower name' = n \/ map to_ascii_lower name' = n ++ bs "." ->
  matches_name a name' = matches_name a name.
Proof. intros H H'. unfold matches_name. by rewrite H, (normalize_same name name' n). Qed.

(* ------------------------------------------------------------------ *)
(** ** Parsing *)

(** What a name part may hold. *)
Definition name_byte (c : byte) : bool := label_byte c || bool_decide (c = "."%byte).

Lemma label_byte_lower c : label_byte (to_ascii_lower c) = true -> label_byte c = true.
Proof.
  destruct (to_ascii_lower_cases c) as [(Hu & _ & _)|[_ ->]]; [|done]. intros _.
  unfold label_byte, is_ascii_alphanumeric, is_ascii_alphabetic. by rewrite Hu, orb_true_r.
Qed.

Lemma normalize_bytes name n : normalize_name name = Some n -> Forall (fun c => name_byte c = true) name.
Proof.
  intros (-> & _ & Hok)%normalize_name_Some. unfold canonical in Hok.
  set (s := default name (strip_suffix (bs ".") name)) in *.
  assert (Forall (fun c => name_byte c = true) s) as Hs.
  { apply Forall_forall. intros c Hc. unfold name_byte.
    destruct (lower_fixed _ Hok (eq_sym (lower_lower s)) (to_ascii_lower c)) as [Hb|Hb].
    - apply list_elem_of_In, in_map, list_elem_of_In, Hc.
    - by rewrite (label_byte_lower c).
    - apply to_ascii_lower_dot in Hb as ->. by rewrite orb_true_r. }
  unfold s in Hs. destruct (strip_suffix (bs ".") name) as [r|] eqn:E; [|done]. simpl in Hs.
  apply strip_suffix_Some in E as ->. apply Forall_app. split; [done|by repeat constructor].
Qed.

(** A well-formed entry: a name in normal form. *)
Definition entry_wf (entry : AllowEntry Net) : Prop :=
  match entry with
  | Exact n | OneLabel n | ManyLabels n =>
      n = map to_ascii_lower n /\ (0 < length n <= 253)%nat /\ Forall (fun l => label_ok l = true) (labels n)
  | Addr _ | Block _ => True
  end.

Lemma normalize_wf name n : normalize_name name = Some n ->
  n = map to_ascii_lower n /\ (0 < length n <= 253)%nat /\ Forall (fun l => label_ok l = true) (labels n).
Proof. intros (-> & Hl & Hok)%normalize_name_Some. unfold canonical at 1 2. by rewrite lower_lower. Qed.

(** Parsing an entry: a block or address first, then the two wildcards, then a name.  What
    is accepted is well formed; what is refused is refused under its own text; and a name
    entry holds nothing but label bytes and dots behind its wildcard, so a scheme, a path or
    a port never parses. *)
Theorem entry_parse_spec entry :
  match entry_parse entry with
  | Ok e => entry_wf e /\
      match e with
      | Block net => net_from_str entry = Some net
      | Addr addr => net_from_str entry = None /\ ip_from_str entry = Some addr
      | ManyLabels _ => exists rest, entry = bs "**." ++ rest /\ Forall (fun c => name_byte c = true) rest
      | OneLabel _ => exists rest, entry = bs "*." ++ rest /\ Forall (fun c => name_byte c = true) rest
      | Exact _ => Forall (fun c => name_byte c = true) entry
      end
  | Err (InvalidEntry shown) => shown = entry
  end.
Proof.
  unfold entry_parse. destruct (net_from_str entry) as [net|] eqn:E1; [done|].
  destruct (ip_from_str entry) as [addr|] eqn:E2; [done|].
  destruct (strip_prefix (bs "**.") entry) as [rest|] eqn:E3.
  { apply strip_prefix_Some in E3. destruct (normalize_name rest) as [n|] eqn:En; [|done].
    split; [by eapply normalize_wf|]. exists rest. split; [done|by eapply normalize_bytes]. }
  destruct (strip_prefix (bs "*.") entry) as [rest|] eqn:E4.
  { apply strip_prefix_Some in E4. destruct (normalize_name rest) as [n|] eqn:En; [|done].
    split; [by eapply normalize_wf|]. exists rest. split; [done|by eapply normalize_bytes]. }
  destruct (normalize_name entry) as [n|] eqn:En; [|done].
  split; [by eapply normalize_wf|by eapply normalize_bytes].
Qed.
End spec.

(* ------------------------------------------------------------------ *)
(** ** Witness *)

(** An IPv4-only block type. *)
#[export] Instance demo_net : IpNetOps (Z * Z) := {
  net_from_str s :=
    match split_on "/" s with
    | [a; p] => let* addr := ip_from_str a in let* p := parse_uint 32 p in
                match addr with V4 a => Some (a, p) | V6 _ => None end
    | _ => None
    end;
  net_addr n := V4 n.1;
  net_prefix_len n := n.2;
  net_contains n a := match a with V4 a => Z.shiftr a (32 - n.2) =? Z.shiftr n.1 (32 - n.2) | V6 _ => false end }.

Definition demo_list : Allowlist (Z * Z) :=
  match allowlist_parse (map bs ["**.Example.com"%string; "*.crates.io"%string; "10.0.0.0/8"%string]) with
  | Ok a => a
  | Err _ => mk_Allowlist []
  end.

Example demo_list_deep : matches_name demo_list (bs "a.b.EXAMPLE.com.") = true.
Proof. vm_compute. reflexivity. Qed.
Example demo_list_substring : matches_name demo_list (bs "evil-example.com") = false.
Proof. vm_compute. reflexivity. Qed.
Example demo_list_two_labels : matches_name demo_list (bs "a.b.crates.io") = false.
Proof. vm_compute. reflexivity. Qed.

Lemma matching_ignores_case_and_final_dot_witness :
  matches_name demo_list (bs "Static.Crates.IO.") = matches_name demo_list (bs "static.crates.io") /\
  matches_name demo_list (bs "static.crates.io") = true.
Proof.
  split; [|vm_compute; reflexivity].
  apply (matching_ignores_case_and_final_dot demo_list (bs "static.crates.io") (bs "Static.Crates.IO.")
    (bs "static.crates.io")); [vm_compute; reflexivity|right; vm_compute; reflexivity].
Defined.
