(* ===== verification/Nft.v ===== *)
(** * Nft: the egress ruleset and its element additions (src/src/net/nft.rs).

    The libnftables schema is the nftables crate's; the constructors here are the ones the
    source builds.  Running [nft] is the kernel's. *)
From S2P Require Import Prelude Bytes Ip Allowlist.

Definition TABLE : bytes := bs "vivarium".
Definition SET_V4 : bytes := bs "allow4".
Definition SET_V6 : bytes := bs "allow6".
Definition SET_V4_LIT : bytes := bs "allow4net".
Definition SET_V6_LIT : bytes := bs "allow6net".
Definition CHAIN : bytes := bs "egress".

(** ** The schema, as far as the source uses it *)

Inductive Expression :=
| E_String (value : bytes)
| E_List (values : list Expression)
| E_PayloadField (protocol field : bytes)
| E_MetaL4proto
| E_CT (key : bytes)
| E_Prefix (addr : Expression) (len : Z)
| E_Elem (val : Expression) (timeout : option Z).
Inductive Operator := OP_IN | OP_EQ.
Inductive RejectType := TCPReset | ICMPX.
Inductive RejectCode := AdminProhibited.
Inductive Statement :=
| St_Match (lhs : Expression) (op : Operator) (rhs : Expression)
| St_Accept
| St_Reject (type : option RejectType) (expr : option RejectCode).
Inductive SetType := Ipv4Addr | Ipv6Addr.
Inductive SetFlag := Timeout | Interval.
Inductive NfChainPolicy := PolicyDrop | PolicyAccept.
Inductive NfListObject :=
| Obj_Table (name : bytes)
| Obj_Set (table name : bytes) (type : SetType) (flag : SetFlag)
| Obj_Chain (table name : bytes) (policy : NfChainPolicy)  (* a filter chain on the forward hook *)
| Obj_Rule (table chain : bytes) (expr : list Statement)
| Obj_Element (table set : bytes) (elem : list Expression).
(** [NfObject::CmdObject(NfCmd::Add(_))], the one command the source renders. *)
Inductive NfObject := Add (object : NfListObject).
Definition Nftables : Type := list NfObject.

Definition add (object : NfListObject) : NfObject := Add object.
Definition rule (expr : list Statement) : NfListObject := Obj_Rule TABLE CHAIN expr.
Definition match_eq (lhs rhs : Expression) : Statement := St_Match lhs OP_EQ rhs.
Definition payload (protocol field : bytes) : Expression := E_PayloadField protocol field.
Definition meta_l4proto : Expression := E_MetaL4proto.
Definition ct_state : Expression := E_CT (bs "state").
Definition string_expr (value : bytes) : Expression := E_String value.
Definition timed_set (name : bytes) (set_type : SetType) : NfListObject := Obj_Set TABLE name set_type Timeout.
Definition interval_set (name : bytes) (set_type : SetType) : NfListObject := Obj_Set TABLE name set_type Interval.

(** [base_ruleset]. *)
Definition base_ruleset : Nftables :=
  [ add (Obj_Table TABLE);
    add (timed_set SET_V4 Ipv4Addr);
    add (timed_set SET_V6 Ipv6Addr);
    add (interval_set SET_V4_LIT Ipv4Addr);
    add (interval_set SET_V6_LIT Ipv6Addr);
    add (Obj_Chain TABLE CHAIN PolicyDrop);
    add (rule [St_Match ct_state OP_IN (E_List [string_expr (bs "established"); string_expr (bs "related")]); St_Accept]);
    add (rule [match_eq meta_l4proto (string_expr (bs "tcp"));
               match_eq (payload (bs "ip") (bs "daddr")) (string_expr ("@"%byte :: SET_V4)); St_Accept]);
    add (rule [match_eq meta_l4proto (string_expr (bs "tcp"));
               match_eq (payload (bs "ip6") (bs "daddr")) (string_expr ("@"%byte :: SET_V6)); St_Accept]);
    add (rule [match_eq meta_l4proto (string_expr (bs "tcp"));
               match_eq (payload (bs "ip") (bs "daddr")) (string_expr ("@"%byte :: SET_V4_LIT)); St_Accept]);
    add (rule [match_eq meta_l4proto (string_expr (bs "tcp"));
               match_eq (payload (bs "ip6") (bs "daddr")) (string_expr ("@"%byte :: SET_V6_LIT)); St_Accept]);
    add (rule [match_eq meta_l4proto (string_expr (bs "tcp")); St_Reject (Some TCPReset) None]);
    add (rule [St_Reject (Some ICMPX) (Some AdminProhibited)]) ].

(** resolver.rs [TimedAddress]. *)
Record TimedAddress := mk_TimedAddress { ta_addr : IpAddr; ttl_seconds : Z }.

Definition family_set (addr : IpAddr) : bytes := match addr with V4 _ => SET_V4 | V6 _ => SET_V6 end.
Definition timed_elements (additions : list TimedAddress) : Nftables :=
  map (fun addition =>
    add (Obj_Element TABLE (family_set (ta_addr addition))
      [E_Elem (string_expr (ip_to_string (ta_addr addition))) (Some (ttl_seconds addition))])) additions.
Definition timed_element (addr : IpAddr) (ttl : Z) : Nftables := timed_elements [mk_TimedAddress addr ttl].

Definition family_literal_set (addr : IpAddr) : bytes :=
  match addr with V4 _ => SET_V4_LIT | V6 _ => SET_V6_LIT end.

Section literal.
Context {Net : Type} {N : IpNetOps Net}.
Definition literal_element (entry : AllowEntry Net) : option NfObject :=
  let* (set, value) :=
    match entry with
    | Addr addr => Some (family_literal_set addr  , string_expr (ip_to_string addr))
    | Block net => Some (family_literal_set (net_addr net),
                         E_Prefix (string_expr (ip_to_string (net_addr net))) (net_prefix_len net))
    | _ => None
    end in
  Some (add (Obj_Element TABLE set [value])).
Definition literal_elements (entries : list (AllowEntry Net)) : Nftables := omap literal_element entries.
End literal.

(* ------------------------------------------------------------------ *)
(** ** The application seam *)

Inductive NftApplyError := Render | Spawn | Feed | Rejected.

(** What one apply meets: serde_json's rendering, and the process. *)
Record nft_process := mk_nft_process {
  np_render : Nftables -> bool;
  np_spawn : bool;
  np_stdin_piped : bool;
  np_fed : bool;
  np_waited : bool;
  np_success : bool;
  np_applied : bool }.      (* what became of a batch that was fed whole to an [nft] whose end was not seen *)

(** [NftRunner::apply].  [nft -f] reads its whole input before it commits it as one transaction: a cut payload and a
    non-zero exit leave the kernel as it was. *)
Definition runner_apply (p : nft_process) (ruleset : Nftables) : result unit NftApplyError :=
  let? _ := guard_err (negb (np_render p ruleset)) Render in
  let? _ := guard_err (negb (np_spawn p)) Spawn in
  let? _ := guard_err (negb (np_stdin_piped p)) Feed in
  let? _ := guard_err (negb (np_fed p)) Feed in
  let? _ := guard_err (negb (np_waited p)) Feed in
  guard_err (negb (np_success p)) Rejected.

(** The payload was fed whole, and the wait for the exit failed. *)
Definition unseen (p : nft_process) (ruleset : Nftables) : bool :=
  np_render p ruleset && np_spawn p && np_stdin_piped p && np_fed p && negb (np_waited p).
(** [NftProgrammer::install] on the elements the kernel holds. *)
Definition nft_install (p : nft_process) (additions : list TimedAddress) (kernel : Nftables)
    : result unit NftApplyError * Nftables :=
  match additions with
  | [] => (Ok tt, kernel)
  | _ =>
      match runner_apply p (timed_elements additions) with
      | Ok _ => (Ok tt, kernel ++ timed_elements additions)
      | Err e => (Err e, if unseen p (timed_elements additions) && np_applied p then kernel ++ timed_elements additions else kernel)
      end
  end.

(* ------------------------------------------------------------------ *)
(** ** What nftables documents of such a ruleset *)

(** A forwarded packet: its conntrack state, its transport protocol, its destination. *)
Record packet := mk_packet { pk_state : bytes; pk_l4proto : bytes; pk_dst : IpAddr }.
Inductive verdict := Accepted | Reset | Prohibited | Dropped.

Section semantics.
(** Which addresses a named set holds. *)
Context (member : bytes -> IpAddr -> bool).

Definition protocol_of (addr : IpAddr) : bytes := match addr with V4 _ => bs "ip" | V6 _ => bs "ip6" end.

(** A match holds, or does not apply to the packet. *)
Definition match_holds (lhs rhs : Expression) (p : packet) : bool :=
  match lhs, rhs with
  | E_CT key, E_List states =>
      bytes_eqb key (bs "state") &&
      existsb (fun s => match s with E_String v => bytes_eqb v (pk_state p) | _ => false end) states
  | E_MetaL4proto, E_String v => bytes_eqb v (pk_l4proto p)
  | E_PayloadField protocol field, E_String v =>
      bytes_eqb protocol (protocol_of (pk_dst p)) && bytes_eqb field (bs "daddr") &&
      match v with b :: name => bool_decide (b = "@"%byte) && member name (pk_dst p) | [] => false end
  | _, _ => false
  end.

(** A rule's statements in order, until one does not match or gives a verdict. *)
Fixpoint rule_verdict (expr : list Statement) (p : packet) : option verdict :=
  match expr with
  | [] => None
  | St_Match lhs _ rhs :: rest => if match_holds lhs rhs p then rule_verdict rest p else None
  | St_Accept :: _ => Some Accepted
  | St_Reject (Some TCPReset) _ :: _ => Some Reset
  | St_Reject _ _ :: _ => Some Prohibited
  end.

(** The chain's rules in order, then its policy. *)
Fixpoint chain_verdict (ruleset : Nftables) (policy : verdict) (p : packet) : verdict :=
  match ruleset with
  | [] => policy
  | Add (Obj_Rule _ _ expr) :: rest =>
      match rule_verdict expr p with Some v => v | None => chain_verdict rest policy p end
  | _ :: rest => chain_verdict rest policy p
  end.
End semantics.

(** * Nft: what the ruleset decides. *)

Lemma ruleset_decides member p :
  chain_verdict member base_ruleset Dropped p =
  if bytes_eqb (pk_state p) (bs "established") || bytes_eqb (pk_state p) (bs "related") then Accepted
  else if bytes_eqb (pk_l4proto p) (bs "tcp") then
    if member (family_set (pk_dst p)) (pk_dst p) || member (family_literal_set (pk_dst p)) (pk_dst p)
    then Accepted else Reset
  else Prohibited.
Proof.
  destruct p as [state proto dst]. cbn [pk_state pk_l4proto pk_dst].
  assert (forall a b, bytes_eqb a b = bytes_eqb b a) as Hsym
    by (intros a b; unfold bytes_eqb; apply bool_decide_ext; done).
  rewrite (Hsym state (bs "established")), (Hsym state (bs "related")), (Hsym proto (bs "tcp")).
  unfold base_ruleset. cbn [chain_verdict add rule rule_verdict].
  cbn [match_holds ct_state string_expr existsb pk_state]. 
  change (bytes_eqb (bs "state") (bs "state")) with true. rewrite orb_false_r. cbn [andb].
  destruct (bytes_eqb (bs "established") state || bytes_eqb (bs "related") state); [done|].
  unfold match_eq, meta_l4proto, payload, string_expr. cbn [rule_verdict match_holds pk_l4proto pk_dst].
  destruct (bytes_eqb (bs "tcp") proto); [|done].
  destruct dst as [a|a]; cbn [protocol_of family_set family_literal_set].
  - change (bytes_eqb (bs "ip") (bs "ip")) with true. change (bytes_eqb (bs "ip6") (bs "ip")) with false.
    change (bytes_eqb (bs "daddr") (bs "daddr")) with true. cbn [andb].
    rewrite bool_decide_true by done. cbn [andb].
    destruct (member SET_V4 (V4 a)), (member SET_V4_LIT (V4 a)); done.
  - change (bytes_eqb (bs "ip") (bs "ip6")) with false. change (bytes_eqb (bs "ip6") (bs "ip6")) with true.
    change (bytes_eqb (bs "daddr") (bs "daddr")) with true. cbn [andb].
    rewrite bool_decide_true by done. cbn [andb].
    destruct (member SET_V6 (V6 a)), (member SET_V6_LIT (V6 a)); done.
Qed.

(** Default deny: of forwarded packets, replies to admitted flows pass, TCP passes exactly
    into the two sets of its destination's family, any other TCP is reset and everything else
    is prohibited.  No packet falls through to the chain's policy. *)
Theorem base_ruleset_decides member p :
  chain_verdict member base_ruleset Dropped p =
  if bytes_eqb (pk_state p) (bs "established") || bytes_eqb (pk_state p) (bs "related") then Accepted
  else if bytes_eqb (pk_l4proto p) (bs "tcp") then
    if member (family_set (pk_dst p)) (pk_dst p) || member (family_literal_set (pk_dst p)) (pk_dst p)
    then Accepted else Reset
  else Prohibited.
Proof. apply ruleset_decides. Qed.

(** The sets a ruleset declares, with their element type and flag. *)
Definition declared (ruleset : Nftables) : list (bytes * SetType * SetFlag) :=
  omap (fun o => match o with Add (Obj_Set _ name t f) => Some (name, t, f) | _ => None end) ruleset.
Definition family_type (addr : IpAddr) : SetType := match addr with V4 _ => Ipv4Addr | V6 _ => Ipv6Addr end.

(** The element additions fit the declared sets: a timed address enters, with its TTL as
    the timeout, the one set of its family declared with timeouts; a literal destination
    enters the interval set of its family; names contribute nothing. *)
Theorem elements_fit_declared_sets {Net} {N : IpNetOps Net} additions (entries : list (AllowEntry Net)) :
  Forall2 (fun addition o => exists set, (set, family_type (ta_addr addition), Timeout) ∈ declared base_ruleset /\
      o = Add (Obj_Element TABLE set [E_Elem (E_String (ip_to_string (ta_addr addition))) (Some (ttl_seconds addition))]))
    additions (timed_elements additions) /\
  Forall2 (fun entry o => exists addr set value, (set, family_type addr, Interval) ∈ declared base_ruleset /\
      o = Add (Obj_Element TABLE set [value]) /\
      match entry with
      | Addr a => addr = a /\ value = E_String (ip_to_string a)
      | Block net => addr = net_addr net /\ value = E_Prefix (E_String (ip_to_string addr)) (net_prefix_len net)
      | _ => False
      end)
    (List.filter is_literal entries) (literal_elements entries).
Proof.
  assert (forall addr, (family_set addr, family_type addr, Timeout) ∈ declared base_ruleset) as Ht
    by (intros []; apply list_elem_of_In; simpl; auto).
  assert (forall addr, (family_literal_set addr, family_type addr, Interval) ∈ declared base_ruleset) as Hi
    by (intros []; apply list_elem_of_In; simpl; auto).
  split.
  - unfold timed_elements. induction additions as [|x l IH]; cbn [map]; constructor; [|done]. eauto.
  - unfold literal_elements. induction entries as [|x l IH]; [constructor|].
    destruct x; cbn [List.filter is_literal omap list_omap literal_element option_bind]; try done;
      constructor; try done; eexists _, _, _; eauto.
Qed.

(* ------------------------------------------------------------------ *)
(** ** From an installed batch to a connection *)

(** An address is in a timed set when the kernel holds an element for it. *)
Definition element_for (set : bytes) (addr : IpAddr) (o : NfObject) : bool :=
  match o with
  | Add (Obj_Element table name [E_Elem (E_String v) _]) =>
      bytes_eqb table TABLE && bytes_eqb name set && bytes_eqb v (ip_to_string addr)
  | _ => false
  end.
Definition held (kernel : Nftables) (set : bytes) (addr : IpAddr) : bool := existsb (element_for set addr) kernel.

(** C14: An installation that returned is enforceable: every address of the batch, whatever its
    family, is accepted for TCP by the base ruleset on what the kernel then holds.  A failed
    installation changes nothing in the kernel, except that one whose [nft] was fed the whole batch and could not be waited
    for may have installed all of it; and an empty one needs no [nft]. *)
Theorem install_is_enforceable p additions kernel :
  match nft_install p additions kernel with
  | (Ok _, kernel') => Forall (fun x =>
      chain_verdict (held kernel') base_ruleset Dropped (mk_packet (bs "new") (bs "tcp") (ta_addr x)) = Accepted)
      additions
  | (Err e, kernel') => additions <> [] /\
      (kernel' = kernel \/ kernel' = kernel ++ timed_elements additions /\ e = Feed /\ np_fed p = true /\ np_waited p = false)
  end.
Proof.
  assert (forall k x, x ∈ additions ->
    held (k ++ timed_elements additions) (family_set (ta_addr x)) (ta_addr x) = true) as Hh.
  { intros k x Hx. unfold held. rewrite existsb_app. apply orb_true_iff. right. apply existsb_exists.
    exists (Add (Obj_Element TABLE (family_set (ta_addr x)) [E_Elem (E_String (ip_to_string (ta_addr x))) (Some (ttl_seconds x))])).
    split; [|simpl; by rewrite !(proj2 (bytes_eqb_true _ _) eq_refl)].
    unfold timed_elements. apply in_map_iff. exists x. split; [done|by apply list_elem_of_In]. }
  unfold nft_install. destruct additions as [|x l]; [constructor|].
  destruct (runner_apply p (timed_elements (x :: l))) eqn:E.
  2:{ split; [done|]. destruct (unseen p (timed_elements (x :: l))) eqn:Eu; [|by left]. cbn [andb]. destruct (np_applied p); [right|by left].
      unfold unseen in Eu. rewrite !andb_true_iff, negb_true_iff in Eu. destruct Eu as ((((H1 & H2) & H3) & H4) & H5).
      unfold runner_apply in E. rewrite H1, H2, H3, H4, H5 in E. injection E as <-. done. }
  apply Forall_forall. intros y Hy. rewrite ruleset_decides. cbn [pk_state pk_l4proto pk_dst].
  change (bytes_eqb (bs "new") (bs "established") || bytes_eqb (bs "new") (bs "related")) with false.
  change (bytes_eqb (bs "tcp") (bs "tcp")) with true. cbv iota. by rewrite (Hh kernel y Hy).
Qed.
