(* ===== verification/Resolver.v ===== *)
(** * Resolver: the gating resolver (src/src/net/resolver.rs).

    DNS messages are hickory's: a class of the readings and constructions the source makes
    ([Dns]), with what the source relies on as its laws ([DnsLaws]).  A gated query runs on
    the event log of what left the resolver: forwards and installations. *)
From S2P Require Import Prelude Bytes Ip Allowlist Nft.

Definition MAX_DATAGRAM : Z := 65535.
Definition MAX_IN_FLIGHT : nat := 64.

Inductive MessageType := Mt_Query | Mt_Response.
Inductive OpCode := Op_Query | Op_Other (n : Z).
Inductive ResponseCode := NoError | FormErr | ServFail | NXDomain | NotImp | R_Refused | Rc_Other (n : Z).
Inductive RecordType := T_A | T_AAAA | T_Other (n : Z).
#[export] Instance ResponseCode_eq_dec : EqDecision ResponseCode. Proof. solve_decision. Defined.
#[export] Instance OpCode_eq_dec : EqDecision OpCode. Proof. solve_decision. Defined.
#[export] Instance MessageType_eq_dec : EqDecision MessageType. Proof. solve_decision. Defined.
#[export] Instance RecordType_eq_dec : EqDecision RecordType. Proof. solve_decision. Defined.

(** A question's [name().to_ascii()] and type; a record's data, as far as it is an address. *)
Record question := mk_question { q_name : bytes; q_type : RecordType }.
Inductive RData := RD_A (a : Z) | RD_AAAA (a : Z) | RD_Other.
Record dns_record := mk_record { rr_data : RData; rr_ttl : Z }.

(** hickory_proto's [Message]: its parser, the fields read, and the two ways one is built. *)
Class Dns := {
  message : Type;
  from_vec : bytes -> option message;
  to_vec : message -> option bytes;
  message_type : message -> MessageType;
  op_code : message -> OpCode;
  message_id : message -> Z;
  response_code : message -> ResponseCode;
  recursion_desired : message -> bool;
  queries : message -> list question;
  answers : message -> list dns_record;
  error_msg : Z -> OpCode -> ResponseCode -> message;
  add_queries : message -> message -> message;      (* the second one's questions *)
  with_recursion_desired : bool -> message -> message }.

(** A built message is read back with the code, the id and the questions it was given. *)
Class DnsLaws (D : Dns) := {
  error_msg_code : forall i o c, response_code (error_msg i o c) = c;
  error_msg_id : forall i o c, message_id (error_msg i o c) = i;
  error_msg_queries : forall i o c, queries (error_msg i o c) = [];
  add_queries_queries : forall m q, queries (add_queries m q) = queries m ++ queries q;
  add_queries_code : forall m q, response_code (add_queries m q) = response_code m;
  add_queries_id : forall m q, message_id (add_queries m q) = message_id m;
  with_rd_code : forall b m, response_code (with_recursion_desired b m) = response_code m;
  with_rd_id : forall b m, message_id (with_recursion_desired b m) = message_id m;
  with_rd_queries : forall b m, queries (with_recursion_desired b m) = queries m;
  from_to_vec : forall m b, to_vec m = Some b -> exists m', from_vec b = Some m' /\
    response_code m' = response_code m /\ message_id m' = message_id m /\ queries m' = queries m }.

Inductive GateError := MalformedQuery | Upstream | Encode.

Section resolver.
Context {D : Dns}.

(** [reply]. *)
Definition reply (query : message) (code : ResponseCode) : result bytes GateError :=
  let response := error_msg (message_id query) (op_code query) code in
  let response := add_queries response query in
  let response := with_recursion_desired (recursion_desired query) response in
  ok_or (to_vec response) Encode.

(** The addresses of a response, each with its record's TTL. *)
Definition timed_address (record : dns_record) : option TimedAddress :=
  match rr_data record with
  | RD_A a => Some (mk_TimedAddress (V4 a) (rr_ttl record))
  | RD_AAAA a => Some (mk_TimedAddress (V6 a) (rr_ttl record))
  | RD_Other => None
  end.
Definition additions_of (response : message) : list TimedAddress := omap timed_address (answers response).

(** What a gated query did toward the outside, in order. *)
Inductive gate_event := Forwarded (b : bytes) | Installed (l : list TimedAddress) | NotInstalled (l : list TimedAddress).

(** The three stretches of [gate_query] between its awaits: before the forward, before the
    installation, and after it. *)
Inductive gate_step (A : Type) := Answer (r : result bytes GateError) | Go (a : A).
Arguments Answer {A} r.
Arguments Go {A} a.

Definition gate_start (query_bytes : bytes) (matches : bytes -> bool) (withhold_aaaa : bool) : gate_step message :=
  match from_vec query_bytes with
  | None => Answer (Err MalformedQuery)
  | Some query =>
      if negb (bool_decide (message_type query = Mt_Query)) then Answer (Err MalformedQuery)
      else if negb (bool_decide (op_code query = Op_Query)) then Answer (reply query NotImp)
      else if (1 <? length (queries query))%nat then Answer (reply query FormErr)
      else
        match queries query with
        | [] => Answer (reply query NotImp)
        | question :: _ =>
            if negb (matches (q_name question)) then Answer (reply query R_Refused)
            else if withhold_aaaa && bool_decide (q_type question = T_AAAA) then Answer (reply query NoError)
            else Go query
        end
  end.

Definition gate_response (query : message) (upstream : result bytes GateError)
    : gate_step (bytes * list TimedAddress) :=
  match upstream with
  | Err e => Answer (Err e)
  | Ok response_bytes =>
      match from_vec response_bytes with
      | None => Answer (Err Upstream)
      | Some response =>
          if negb (bool_decide (response_code response = NoError)) then
            if bool_decide (response_code response = R_Refused) then Answer (reply query ServFail)
            else Answer (Ok response_bytes)
          else Go (response_bytes, additions_of response)
      end
  end.

Definition gate_release (query : message) (response_bytes : bytes) (installed : bool) : result bytes GateError :=
  if installed then Ok response_bytes
  else
    let servfail := add_queries (error_msg (message_id query) (op_code query) ServFail) query in
    ok_or (to_vec servfail) Encode.

(** [gate_query]: [forward] is one upstream exchange, [install] the programmer's answer. *)
Definition gate_query (query_bytes : bytes) (matches : bytes -> bool) (withhold_aaaa : bool)
    (forward : bytes -> result bytes GateError) (install : list TimedAddress -> bool)
    : result bytes GateError * list gate_event :=
  match gate_start query_bytes matches withhold_aaaa with
  | Answer r => (r, [])
  | Go query =>
      match gate_response query (forward query_bytes) with
      | Answer r => (r, [Forwarded query_bytes])
      | Go (response_bytes, additions) =>
          let installed := install additions in
          (gate_release query response_bytes installed,
           [Forwarded query_bytes; if installed then Installed additions else NotInstalled additions])
      end
  end.

(** [servfail_for]. *)
Definition servfail_for (query_bytes : bytes) : option bytes :=
  let* query := from_vec query_bytes in
  if negb (bool_decide (message_type query = Mt_Query)) then None else ok (reply query ServFail).

(** [serve]'s [match outcome]: what goes back on the wire, if anything. *)
Definition wire_answer (query_bytes : bytes) (outcome : result bytes GateError) : option bytes :=
  match outcome with
  | Ok b => Some b
  | Err Upstream => servfail_for query_bytes
  | Err MalformedQuery | Err Encode => None
  end.

(* ------------------------------------------------------------------ *)
(** ** [exchange_upstream] *)

(** Bind, connect, send, and the one datagram that comes in time. *)
Record upstream_socket := mk_upstream_socket {
  us_bind : bool; us_connect : bool; us_send : bool; us_recv : option (result bytes unit) }.
Definition exchange_upstream (u : upstream_socket) : result bytes GateError :=
  let? _ := guard_err (negb (us_bind u)) Upstream in
  let? _ := guard_err (negb (us_connect u)) Upstream in
  let? _ := guard_err (negb (us_send u)) Upstream in
  match us_recv u with
  | None => Err Upstream
  | Some (Err _) => Err Upstream
  | Some (Ok datagram) => Ok (take (Z.to_nat MAX_DATAGRAM) datagram)
  end.

(* ------------------------------------------------------------------ *)
(** ** [serve]: the tasks and the one programmer *)

(** A task between its awaits. *)
Inductive phase :=
| Received
| AtUpstream (query : message)
| AwaitsInstall (query : message) (response_bytes : bytes) (additions : list TimedAddress)
| Finished_.
Record task := mk_task { t_query : bytes; t_phase : phase }.

(** The loop: the tasks ever spawned, the batches the kernel holds, the answers sent. *)
Record server := mk_server {
  sv_tasks : list task;
  sv_kernel : list (list TimedAddress);
  sv_forwarded : list bytes;
  sv_sent : list (bytes * bytes) }.       (* (query, answer) *)
Definition server_start : server := mk_server [] [] [] [].

Definition in_flight (t : task) : bool := match t_phase t with Finished_ => false | _ => true end.
Definition permits_taken (s : server) : nat := length (List.filter in_flight (sv_tasks s)).

Definition set_task (i : nat) (t : task) (s : server) : server :=
  mk_server (<[i := t]> (sv_tasks s)) (sv_kernel s) (sv_forwarded s) (sv_sent s).
Definition finish (i : nat) (q : bytes) (outcome : result bytes GateError) (s : server) : server :=
  let s := set_task i (mk_task q Finished_) s in
  match wire_answer q outcome with
  | Some b => mk_server (sv_tasks s) (sv_kernel s) (sv_forwarded s) (sv_sent s ++ [(q, b)])
  | None => s
  end.

Section serve.
Context (matches : bytes -> bool) (withhold_aaaa : bool).

Inductive serve_event :=
| Datagram (q : bytes)                              (* a permit, then recv_from *)
| TaskStarts (i : nat)
| UpstreamAnswers (i : nat) (r : result bytes GateError)
| InstallEnds (i : nat) (installed : bool).         (* the lock is held for the one call *)

Inductive serve_step : server -> serve_event -> server -> Prop :=
| serve_receives s q :
    (permits_taken s < MAX_IN_FLIGHT)%nat -> Z.of_nat (length q) <= MAX_DATAGRAM ->
    serve_step s (Datagram q)
      (mk_server (sv_tasks s ++ [mk_task q Received]) (sv_kernel s) (sv_forwarded s) (sv_sent s))
| serve_local s i q r :
    sv_tasks s !! i = Some (mk_task q Received) -> gate_start q matches withhold_aaaa = Answer r ->
    serve_step s (TaskStarts i) (finish i q r s)
| serve_forwards s i q query :
    sv_tasks s !! i = Some (mk_task q Received) -> gate_start q matches withhold_aaaa = Go query ->
    serve_step s (TaskStarts i)
      (mk_server (<[i := mk_task q (AtUpstream query)]> (sv_tasks s)) (sv_kernel s)
         (sv_forwarded s ++ [q]) (sv_sent s))
| serve_passes s i q query up r :
    sv_tasks s !! i = Some (mk_task q (AtUpstream query)) -> gate_response query up = Answer r ->
    serve_step s (UpstreamAnswers i up) (finish i q r s)
| serve_awaits s i q query up b adds :
    sv_tasks s !! i = Some (mk_task q (AtUpstream query)) -> gate_response query up = Go (b, adds) ->
    serve_step s (UpstreamAnswers i up) (set_task i (mk_task q (AwaitsInstall query b adds)) s)
| serve_installed s i q query b adds (installed : bool) :
    sv_tasks s !! i = Some (mk_task q (AwaitsInstall query b adds)) ->
    serve_step s (InstallEnds i installed)
      (finish i q (gate_release query b installed)
         (mk_server (sv_tasks s) (if installed then sv_kernel s ++ [adds] else sv_kernel s)
            (sv_forwarded s) (sv_sent s))).
End serve.
End resolver.
Arguments Answer {A} r.
Arguments Go {A} a.
