(* ===== verification/ResolverSpec.v ===== *)
(** * ResolverSpec: what the gate lets out and what it lets back in. *)
From S2P Require Import Prelude Bytes Message Frame DemoCodec Ip Allowlist Nft Resolver.

Section spec.
Context {D : Dns}.

(** A query the upstream may see. *)
Definition permitted (query_bytes : bytes) (matches : bytes -> bool) (withhold_aaaa : bool) (query : message) : Prop :=
  from_vec query_bytes = Some query /\ message_type query = Mt_Query /\ op_code query = Op_Query /\
  exists q, queries query = [q] /\ matches (q_name q) = true /\ (withhold_aaaa = true -> q_type q <> T_AAAA).

Lemma gate_start_go query_bytes matches withhold query :
  gate_start query_bytes matches withhold = Go query <-> permitted query_bytes matches withhold query.
Proof.
  unfold gate_start, permitted. destruct (from_vec query_bytes) as [m|]; [|naive_solver].
  destruct (bool_decide_reflect (message_type m = Mt_Query)) as [Ht|Ht]; cbn [negb]; [|naive_solver].
  destruct (bool_decide_reflect (op_code m = Op_Query)) as [Ho|Ho]; cbn [negb]; [|naive_solver].
  destruct (queries m) as [|q [|q' qs]] eqn:Eq; cbn [length Nat.ltb Nat.leb].
  - split; [done|]. intros ([= <-] & _ & _ & x & Hx & _). congruence.
  - destruct (matches (q_name q)) eqn:Em; cbn [negb].
    + destruct withhold; cbn [andb].
      * destruct (bool_decide_reflect (q_type q = T_AAAA)) as [Ha|Ha].
        -- split; [done|]. intros ([= <-] & _ & _ & x & Hx & _ & Hn). rewrite Eq in Hx. injection Hx as <-. by destruct Hn.
        -- split; [intros [= <-]; rewrite Eq; eauto 10|by intros ([= <-] & _)].
      * split; [intros [= <-]; rewrite Eq; by eauto 10|by intros ([= <-] & _)].
    + split; [done|]. intros ([= <-] & _ & _ & x & Hx & Hm & _). rewrite Eq in Hx. injection Hx as <-. congruence.
  - split; [done|]. intros ([= <-] & _ & _ & x & Hx & _). rewrite Eq in Hx. congruence.
Qed.

(** Nothing unpermitted leaves the resolver: upstream sees a query exactly when it is one
    well-formed QUERY with one question, for a name the allowlist grants, of a family that is
    not withheld, and then sees that query's own bytes once. *)
Theorem gate_forwards_only_permitted query_bytes matches withhold forward install :
  let log := snd (gate_query query_bytes matches withhold forward install) in
  ((exists query, permitted query_bytes matches withhold query) <-> Forwarded query_bytes ∈ log) /\
  forall b, Forwarded b ∈ log -> b = query_bytes.
Proof.
  cbv zeta. unfold gate_query. destruct (gate_start query_bytes matches withhold) as [r|query] eqn:E.
  - split; [|intros b Hb; by apply not_elem_of_nil in Hb].
    split; [|intros Hb; by apply not_elem_of_nil in Hb]. intros [query Hq%gate_start_go]. congruence.
  - apply gate_start_go in E. destruct (gate_response query (forward query_bytes)) as [r|[b adds]]; cbn [snd].
    + split; [split; [intros _; by apply list_elem_of_singleton|eauto]|].
      intros b Hb. apply list_elem_of_singleton in Hb. congruence.
    + split; [split; [intros _; by left|eauto]|]. intros b' [Hb|Hb]%elem_of_cons; [congruence|].
      apply list_elem_of_singleton in Hb. by destruct (install adds).
Qed.

(** An answer made here for the query: an error code under its id, opcode and questions. *)
Definition local_answer (query_bytes b : bytes) : Prop :=
  exists query code, from_vec query_bytes = Some query /\
    (reply query code = Ok b \/ to_vec (add_queries (error_msg (message_id query) (op_code query) code) query) = Some b).

(** An answer of the upstream, released as it came. *)
Definition upstream_answer (held : list TimedAddress -> Prop) (b : bytes) : Prop :=
  exists response, from_vec b = Some response /\ response_code response <> R_Refused /\
    (response_code response = NoError -> held (additions_of response)).

Lemma gate_start_answer query_bytes matches withhold b :
  gate_start query_bytes matches withhold = Answer (Ok b) -> local_answer query_bytes b.
Proof.
  unfold gate_start. destruct (from_vec query_bytes) as [m|] eqn:E; [|done].
  repeat case_match; intros [= Hr]; (eexists m, _; split; [done|]; left; exact Hr).
Qed.

Lemma gate_response_answer (held : list TimedAddress -> Prop) query_bytes query up b :
  from_vec query_bytes = Some query -> gate_response query up = Answer (Ok b) ->
  local_answer query_bytes b \/ upstream_answer held b.
Proof.
  intros Hq. unfold gate_response. destruct up as [rb|e]; [|done].
  destruct (from_vec rb) as [response|] eqn:Er; [|done].
  destruct (bool_decide_reflect (response_code response = NoError)) as [Hn|Hn]; cbn [negb]; [done|].
  destruct (bool_decide_reflect (response_code response = R_Refused)) as [Hr|Hr].
  - intros [= H]. left. eexists query, _. split; [done|]. by left.
  - intros [= <-]. right. exists response. split_and!; try done.
Qed.

Lemma gate_response_go query up b adds :
  gate_response query up = Go (b, adds) ->
  up = Ok b /\ exists response, from_vec b = Some response /\ response_code response = NoError /\
    adds = additions_of response.
Proof.
  unfold gate_response. destruct up as [rb|e]; [|done].
  destruct (from_vec rb) as [response|] eqn:Er; [|done].
  destruct (bool_decide_reflect (response_code response = NoError)) as [Hn|Hn]; cbn [negb].
  - intros [= <- <-]. eauto.
  - by destruct (bool_decide (response_code response = R_Refused)).
Qed.

Lemma gate_release_answer (held : list TimedAddress -> Prop) query_bytes query b0 response (installed : bool) b :
  from_vec query_bytes = Some query -> from_vec b0 = Some response -> response_code response = NoError ->
  (installed = true -> held (additions_of response)) ->
  gate_release query b0 installed = Ok b ->
  local_answer query_bytes b \/ upstream_answer held b.
Proof.
  intros Hq Hr Hn Hi. unfold gate_release. destruct installed.
  - intros [= <-]. right. exists response. split_and!; [done|congruence|auto].
  - intros Hb%ok_or_ok. left. eexists query, _. split; [done|]. right. exact Hb.
Qed.

(** The ordering is the gate: what a query is answered with is made here, or is the
    upstream's own bytes; and upstream bytes that carry addresses are released only with all
    of their addresses installed, as the last thing before the release. *)
Theorem released_addresses_are_installed query_bytes matches withhold forward install b log :
  gate_query query_bytes matches withhold forward install = (Ok b, log) ->
  local_answer query_bytes b \/
  upstream_answer (fun adds => log = [Forwarded query_bytes; Installed adds]) b.
Proof.
  unfold gate_query. destruct (gate_start query_bytes matches withhold) as [r|query] eqn:E.
  - intros [= -> <-]. left. by eapply gate_start_answer.
  - apply gate_start_go in E as (Hq & _). destruct (gate_response query (forward query_bytes)) as [r|[rb adds]] eqn:Er.
    + intros [= -> <-]. by eapply gate_response_answer.
    + apply gate_response_go in Er as (_ & response & Hr & Hn & ->). intros [= Hrel <-].
      eapply gate_release_answer; [done..| |exact Hrel]. by intros ->.
Qed.

(* ------------------------------------------------------------------ *)
(** ** What REFUSED means *)

Context {L : DnsLaws D}.

Lemma reply_read_back query code b :
  reply query code = Ok b ->
  exists m, from_vec b = Some m /\ response_code m = code /\ message_id m = message_id query /\
    queries m = queries query.
Proof.
  unfold reply. intros H%ok_or_ok. apply from_to_vec in H as (m & Hm & Hc & Hi & Hq).
  exists m. rewrite Hc, Hi, Hq, with_rd_code, with_rd_id, with_rd_queries, add_queries_code, add_queries_id,
    add_queries_queries, error_msg_code, error_msg_id, error_msg_queries. done.
Qed.

Lemma servfail_read_back query b :
  to_vec (add_queries (error_msg (message_id query) (op_code query) ServFail) query) = Some b ->
  exists m, from_vec b = Some m /\ response_code m = ServFail.
Proof.
  intros H. apply from_to_vec in H as (m & Hm & Hc & _). exists m. by rewrite Hc, add_queries_code, error_msg_code.
Qed.

(** A query for exactly one name, which the allowlist denies. *)
Definition denied (query_bytes : bytes) (matches : bytes -> bool) : Prop :=
  exists query q, from_vec query_bytes = Some query /\ message_type query = Mt_Query /\ op_code query = Op_Query /\
    queries query = [q] /\ matches (q_name q) = false.

Lemma gate_start_refused query_bytes matches withhold b m :
  gate_start query_bytes matches withhold = Answer (Ok b) -> from_vec b = Some m ->
  response_code m = R_Refused -> denied query_bytes matches.
Proof.
  unfold gate_start. destruct (from_vec query_bytes) as [query|] eqn:Eq; [|done].
  destruct (bool_decide_reflect (message_type query = Mt_Query)) as [Ht|]; cbn [negb]; [|done].
  intros Ha Hb Hc.
  assert (forall code, Answer (A := message) (reply query code) = Answer (Ok b) -> code = R_Refused) as Hcode.
  { intros code [= Hr]. apply reply_read_back in Hr as (m' & Hm & Hc' & _). congruence. }
  destruct (bool_decide_reflect (op_code query = Op_Query)) as [Ho|]; cbn [negb] in Ha;
    [|by apply Hcode in Ha].
  destruct (queries query) as [|q [|q' qs]] eqn:Eqs; cbn [length Nat.ltb Nat.leb] in Ha;
    [by apply Hcode in Ha| |by apply Hcode in Ha].
  destruct (matches (q_name q)) eqn:Em; cbn [negb] in Ha; [|by exists query, q].
  destruct (withhold && bool_decide (q_type q = T_AAAA)); [by apply Hcode in Ha|done].
Qed.

Lemma gate_response_not_refused query up b m :
  gate_response query up = Answer (Ok b) -> from_vec b = Some m -> response_code m <> R_Refused.
Proof.
  unfold gate_response. destruct up as [rb|e]; [|done].
  destruct (from_vec rb) as [response|] eqn:Er; [|done].
  destruct (bool_decide_reflect (response_code response = NoError)) as [Hn|Hn]; cbn [negb]; [done|].
  destruct (bool_decide_reflect (response_code response = R_Refused)) as [Hr|Hr].
  - intros [= H] Hb. apply reply_read_back in H as (m' & Hm & Hc & _). congruence.
  - intros [= <-] Hb. congruence.
Qed.

(** REFUSED means policy, unambiguously: an answer that reads as REFUSED was made for a
    query with one denied name, whatever the upstream said, and that name never left the
    resolver; and a denied name, its AAAA included, is answered REFUSED whenever the answer
    can be encoded. *)
Theorem refused_means_policy query_bytes matches withhold forward install b log m :
  gate_query query_bytes matches withhold forward install = (Ok b, log) -> from_vec b = Some m ->
  (response_code m = R_Refused <-> denied query_bytes matches) /\
  (denied query_bytes matches -> log = []).
Proof.
  intros Hg Hb.
  assert (denied query_bytes matches -> log = [] /\ response_code m = R_Refused) as Hd.
  { intros (query & q & Hq & Ht & Ho & Hqs & Hm). unfold gate_query, gate_start in Hg.
    rewrite Hq, Hqs, Hm, Ht, Ho in Hg. rewrite !bool_decide_true in Hg by done. cbn in Hg. injection Hg as Hr <-.
    apply reply_read_back in Hr as (m' & Hm' & Hc & _). split; congruence. }
  split; [|intros H; by apply Hd in H as [? _]]. split; [|intros H; by apply Hd in H as [_ ?]]. intros Hc.
  unfold gate_query in Hg. destruct (gate_start query_bytes matches withhold) as [r|query] eqn:E.
  - injection Hg as -> <-. by eapply gate_start_refused.
  - exfalso. destruct (gate_response query (forward query_bytes)) as [r|[rb adds]] eqn:Er.
    + injection Hg as -> <-. by eapply gate_response_not_refused.
    + apply gate_response_go in Er as (_ & response & Hr & Hn & ->). injection Hg as Hrel <-.
      unfold gate_release in Hrel. destruct (install _); [simplify_eq; congruence|].
      apply ok_or_ok, servfail_read_back in Hrel as (m' & Hm' & Hc'). congruence.
Qed.
End spec.

(* ------------------------------------------------------------------ *)
(** ** The serve loop *)

Section serve.
Context {D : Dns} (matches : bytes -> bool) (withhold : bool).

(** What a task in a phase was let through with. *)
Definition task_ok (t : task) : Prop :=
  match t_phase t with
  | AtUpstream query => permitted (t_query t) matches withhold query
  | AwaitsInstall query b adds => permitted (t_query t) matches withhold query /\
      exists response, from_vec b = Some response /\ response_code response = NoError /\ adds = additions_of response
  | Received | Finished_ => True
  end.

Record server_inv (s : server) : Prop := {
  sv_permits : (permits_taken s <= MAX_IN_FLIGHT)%nat;
  sv_tasks_ok : Forall task_ok (sv_tasks s);
  sv_forwarded_ok : Forall (fun b => exists query, permitted b matches withhold query) (sv_forwarded s);
  sv_sent_ok : Forall (fun '(q, b) =>
    local_answer q b \/ upstream_answer (fun adds => adds ∈ sv_kernel s) b) (sv_sent s) }.

Lemma permits_insert l i t t' :
  l !! i = Some t -> in_flight t = true ->
  (length (List.filter in_flight (<[i := t']> l)) <= length (List.filter in_flight l))%nat.
Proof.
  revert i. induction l as [|x l IH]; intros [|i] Hl Hf; try done; simpl in *.
  - injection Hl as ->. rewrite Hf. destruct (in_flight t'); simpl; lia.
  - specialize (IH i Hl Hf). destruct (in_flight x); simpl; lia.
Qed.

Lemma upstream_answer_mono (P Q : list TimedAddress -> Prop) b :
  (forall x, P x -> Q x) -> upstream_answer P b -> upstream_answer Q b.
Proof. intros H (r & ? & ? & ?). exists r. auto. Qed.

(** Ending a task: what it sends was justified, on what the kernel then holds. *)
Lemma finish_inv s kernel i q ph r :
  server_inv s -> sv_tasks s !! i = Some (mk_task q ph) -> in_flight (mk_task q ph) = true ->
  (forall x, x ∈ sv_kernel s -> x ∈ kernel) ->
  (forall b, wire_answer q r = Some b -> local_answer q b \/ upstream_answer (fun adds => adds ∈ kernel) b) ->
  server_inv (finish i q r (mk_server (sv_tasks s) kernel (sv_forwarded s) (sv_sent s))).
Proof.
  intros [Hp Ht Hf Hs] Hl Hfl Hk Hb. unfold finish, set_task. cbn [sv_tasks sv_kernel sv_forwarded sv_sent].
  assert (Forall (fun '(q, b) => local_answer q b \/ upstream_answer (fun adds => adds ∈ kernel) b) (sv_sent s)) as Hs'.
  { eapply Forall_impl; [exact Hs|]. intros [q' b'] [?|H]; [by left|]. right. eapply upstream_answer_mono; [exact Hk|exact H]. }
  assert (length (List.filter in_flight (<[i:=mk_task q Finished_]> (sv_tasks s))) <= MAX_IN_FLIGHT)%nat as Hp'
    by (etrans; [by eapply permits_insert|exact Hp]).
  assert (Forall task_ok (<[i:=mk_task q Finished_]> (sv_tasks s))) as Ht' by (by apply Forall_insert).
  destruct (wire_answer q r) as [b|] eqn:E; split; try done; cbn [sv_sent sv_kernel].
  apply Forall_app. split; [done|]. apply Forall_singleton. by apply Hb.
Qed.

Lemma wire_local q r (held : list TimedAddress -> Prop) b :
  (forall b, r = Ok b -> local_answer q b \/ upstream_answer held b) ->
  wire_answer q r = Some b -> local_answer q b \/ upstream_answer held b.
Proof.
  intros Hr. destruct r as [b'|[]]; cbn [wire_answer]; try done; [intros [= <-]; by apply Hr|].
  unfold servfail_for. destruct (from_vec q) as [query|] eqn:E; [|done]. cbn [option_bind].
  destruct (negb _); [done|]. destruct (reply query ServFail) as [b''|] eqn:Er; [|done].
  intros [= <-]. left. exists query, ServFail. split; [done|]. by left.
Qed.

Lemma serve_step_inv s e s' : server_inv s -> serve_step matches withhold s e s' -> server_inv s'.
Proof.
  intros Hi Hstep. pose proof Hi as [Hp Ht Hf Hs].
  destruct Hstep as [s q Hroom _|s i q r Hl Ha|s i q query Hl Ha|s i q query up r Hl Ha|s i q query up b adds Hl Ha
    |s i q query b adds installed Hl].
  - split; try done; cbn [sv_tasks].
    + unfold permits_taken in *. cbn [sv_tasks]. rewrite List.filter_app, length_app. simpl. lia.
    + apply Forall_app. split; [done|]. by apply Forall_singleton.
  - destruct s as [tasks kernel fwd sent].
    apply (finish_inv (mk_server tasks kernel fwd sent) kernel i q Received); try done.
    intros b. apply wire_local. intros b' ->. left. by eapply gate_start_answer.
  - apply gate_start_go in Ha. split; try done; cbn [sv_tasks sv_forwarded].
    + unfold permits_taken in *. cbn [sv_tasks]. etrans; [by eapply permits_insert|done].
    + by apply Forall_insert.
    + apply Forall_app. split; [done|]. apply Forall_singleton. by exists query.
  - pose proof (Forall_lookup_1 _ _ _ _ Ht Hl) as (Hq & _). cbn [t_query] in Hq.
    destruct s as [tasks kernel fwd sent].
    apply (finish_inv (mk_server tasks kernel fwd sent) kernel i q (AtUpstream query)); try done.
    intros b. apply wire_local. intros b' ->. by eapply gate_response_answer.
  - pose proof (Forall_lookup_1 _ _ _ _ Ht Hl) as Hq. apply gate_response_go in Ha as [_ Hr].
    split; try done; unfold set_task; cbn [sv_tasks].
    + unfold permits_taken in *. cbn [sv_tasks]. etrans; [by eapply permits_insert|done].
    + by apply Forall_insert.
  - pose proof (Forall_lookup_1 _ _ _ _ Ht Hl) as [(Hq & _) (response & Hr & Hn & ->)]. cbn [t_query] in Hq.
    apply (finish_inv s _ i q (AwaitsInstall query b (additions_of response))); try done.
    + intros x Hx. destruct installed; [apply elem_of_app; by left|done].
    + intros b'. apply wire_local. intros b'' Hrel. eapply gate_release_answer; [done..| |exact Hrel].
      intros ->. apply elem_of_app. right. by apply list_elem_of_singleton.
Qed.

(** C13: Concurrency does not loosen the gate: however the tasks of [serve] interleave over the
    one programmer, no more than [MAX_IN_FLIGHT] queries are in flight, upstream has only seen
    permitted queries, and every answer ever sent was made here or is an upstream answer whose
    addresses the kernel holds. *)
Theorem serve_is_gated ls s :
  steps (serve_step matches withhold) server_start ls s -> server_inv s.
Proof.
  intros Hs. apply (steps_invariant _ server_inv serve_step_inv server_start ls s); [|done].
  split; [unfold permits_taken, MAX_IN_FLIGHT; simpl; lia|constructor..].
Qed.
End serve.

(* ------------------------------------------------------------------ *)
(** ** Witnesses *)

(** A concrete message type: (is a query, opcode, id, code, recursion, questions, answers). *)
Definition demo_message : Type :=
  (bool * option Z * Z * (Z * Z) * bool * list (bytes * Z) * list (option (bool * Z) * Z))%type.
Definition demo_code (c : ResponseCode) : Z * Z :=
  match c with
  | NoError => (0, 0) | FormErr => (0, 1) | ServFail => (0, 2) | NXDomain => (0, 3) | NotImp => (0, 4)
  | R_Refused => (0, 5) | Rc_Other n => (1, n)
  end.
Definition demo_response_code (c : Z * Z) : ResponseCode :=
  match c with
  | (0, 0) => NoError | (0, 1) => FormErr | (0, 2) => ServFail | (0, 3) => NXDomain | (0, 4) => NotImp
  | (0, 5) => R_Refused | (_, n) => Rc_Other n
  end.
Definition demo_question (q : bytes * Z) : question :=
  mk_question q.1 (if q.2 =? 1 then T_A else if q.2 =? 28 then T_AAAA else T_Other q.2).
Definition demo_answer (r : option (bool * Z) * Z) : dns_record :=
  mk_record (match r.1 with Some (true, a) => RD_A a | Some (false, a) => RD_AAAA a | None => RD_Other end) r.2.

#[export] Instance demo_dns : Dns := {
  message := demo_message;
  from_vec b := let* p := DemoCodec.bytes_to_pos b in decode p;
  to_vec m := Some (DemoCodec.pos_to_bytes (encode m));
  message_type m := let '(q, _, _, _, _, _, _) := m in if q : bool then Mt_Query else Mt_Response;
  op_code m := let '(_, o, _, _, _, _, _) := m in match o with None => Op_Query | Some n => Op_Other n end;
  message_id m := let '(_, _, i, _, _, _, _) := m in i;
  response_code m := let '(_, _, _, c, _, _, _) := m in demo_response_code c;
  recursion_desired m := let '(_, _, _, _, r, _, _) := m in r;
  queries m := let '(_, _, _, _, _, qs, _) := m in map demo_question qs;
  answers m := let '(_, _, _, _, _, _, l) := m in map demo_answer l;
  error_msg i o c := (false, match o with Op_Query => None | Op_Other n => Some n end, i, demo_code c, false, [], []);
  add_queries m q :=
    let '(a, b, c, d, e, qs, l) := m in let '(_, _, _, _, _, qs', _) := q in (a, b, c, d, e, qs ++ qs', l);
  with_recursion_desired r m := let '(a, b, c, d, _, qs, l) := m in (a, b, c, d, r, qs, l) }.

#[export] Instance demo_dns_laws : DnsLaws demo_dns.
Proof.
  split.
  - by intros i o [].
  - done.
  - done.
  - intros [[[[[[a b] c] d] e] qs] l] [[[[[[a' b'] c'] d'] e'] qs'] l']. apply map_app.
  - by intros [[[[[[a b] c] d] e] qs] l] [[[[[[a' b'] c'] d'] e'] qs'] l'].
  - by intros [[[[[[a b] c] d] e] qs] l] [[[[[[a' b'] c'] d'] e'] qs'] l'].
  - by intros r [[[[[[a b] c] d] e] qs] l].
  - by intros r [[[[[[a b] c] d] e] qs] l].
  - by intros r [[[[[[a b] c] d] e] qs] l].
  - intros m b [= <-]. exists m. split; [|done]. cbn [from_vec demo_dns].
    rewrite DemoCodec.bytes_to_pos_to_bytes. simpl. apply decode_encode.
Qed.

Definition demo_bytes (m : demo_message) : bytes := DemoCodec.pos_to_bytes (encode m).
Definition demo_query (name : bytes) : bytes := demo_bytes (true, None, 7, (0, 0), true, [(name, 1)], []).
Definition demo_reply (code : Z) : bytes :=
  demo_bytes (false, None, 7, (0, code), true, [(bs "a.io.", 1)], [(Some (true, 1), 60)]).
Definition demo_matches (name : bytes) : bool := bytes_eqb name (bs "a.io.").

Lemma released_addresses_are_installed_witness :
  upstream_answer (D := demo_dns) (fun adds =>
    [Forwarded (demo_query (bs "a.io.")); Installed [mk_TimedAddress (V4 1) 60]]
    = [Forwarded (demo_query (bs "a.io.")); Installed adds]) (demo_reply 0) \/
  local_answer (D := demo_dns) (demo_query (bs "a.io.")) (demo_reply 0).
Proof.
  destruct (@released_addresses_are_installed demo_dns (demo_query (bs "a.io.")) demo_matches true
    (fun _ => Ok (demo_reply 0)) (fun _ => true) (demo_reply 0)
    [Forwarded (demo_query (bs "a.io.")); Installed [mk_TimedAddress (V4 1) 60]]) as [H|H].
  - vm_compute. reflexivity.
  - right. exact H.
  - left. exact H.
Defined.

Definition demo_refusal : bytes :=
  demo_bytes (false, None, 7, (0, 5), true, [(bs "b.io.", 1)], []).
Lemma refused_means_policy_witness : denied (D := demo_dns) (demo_query (bs "b.io.")) demo_matches.
Proof.
  apply (proj1 (proj1 (@refused_means_policy demo_dns demo_dns_laws (demo_query (bs "b.io.")) demo_matches true
    (fun _ => Ok (demo_reply 5)) (fun _ => true) demo_refusal []
    (false, None, 7, (0, 5), true, [(bs "b.io.", 1)], []) ltac:(vm_compute; reflexivity) ltac:(vm_compute; reflexivity)))).
  reflexivity.
Defined.

(** One permitted query, from the datagram to the answer. *)
Definition demo_parsed : demo_message := (true, None, 7, (0, 0), true, [(bs "a.io.", 1)], []).
Definition demo_served : server (D := demo_dns) :=
  mk_server [mk_task (demo_query (bs "a.io.")) Finished_] [[mk_TimedAddress (V4 1) 60]] [demo_query (bs "a.io.")]
    [(demo_query (bs "a.io."), demo_reply 0)].
Definition demo_serving : list serve_event :=
  [Datagram (demo_query (bs "a.io.")); TaskStarts 0; UpstreamAnswers 0 (Ok (demo_reply 0)); InstallEnds 0 true].

Lemma demo_serving_steps : steps (serve_step (D := demo_dns) demo_matches true) server_start demo_serving demo_served.
Proof.
  eapply steps_cons; [apply serve_receives; [vm_compute; lia|vm_compute; discriminate]|].
  eapply steps_cons; [apply (@serve_forwards demo_dns _ _ _ 0%nat (demo_query (bs "a.io.")) demo_parsed); [reflexivity|vm_compute; reflexivity]|].
  eapply steps_cons; [apply (@serve_awaits demo_dns _ _ _ 0%nat (demo_query (bs "a.io.")) demo_parsed (Ok (demo_reply 0)) (demo_reply 0)
    [mk_TimedAddress (V4 1) 60]); [reflexivity|vm_compute; reflexivity]|].
  eapply steps_cons; [apply (@serve_installed demo_dns _ _ _ 0%nat (demo_query (bs "a.io.")) demo_parsed (demo_reply 0)
    [mk_TimedAddress (V4 1) 60] true); reflexivity|].
  apply steps_nil.
Qed.

Lemma serve_is_gated_witness : server_inv (D := demo_dns) demo_matches true demo_served.
Proof. exact (@serve_is_gated demo_dns demo_matches true demo_serving demo_served demo_serving_steps). Defined.
