(* ===== verification/Workspace.v ===== *)
(** * Workspace: what a declared workspace may be (src/src/launch/workspace.rs). *)
From stdpp Require Import sorting.
From S2P Require Import Prelude Bytes Paths Message Mounts.

Definition GUEST_OWNED_PATHS : list bytes :=
  [ bs "/nix"; bs "/proc"; bs "/sys"; bs "/dev"; bs "/etc"; bs "/boot"; bs "/usr"; bs "/bin"; bs "/sbin";
    bs "/lib"; bs "/lib64"; bs "/root"; bs "/tmp"; bs "/var/lib"; bs "/var/log"; bs "/var/tmp"; bs "/var/empty";
    bs "/run/vivarium"; bs "/run/vivarium-mounts"; bs "/run/user"; bs "/run/current-system";
    bs "/run/booted-system"; bs "/run/wrappers"; bs "/run/systemd"; bs "/run/udev"; bs "/run/dbus";
    bs "/run/lock"; bs "/run/log"; bs "/run/keys"; bs "/run/credentials"; bs "/run/binfmt"; bs "/run/nscd";
    bs "/run/opengl-driver"; bs "/home/vivarium" ].

Definition guest_owned_collision (path : bytes) : option bytes :=
  if negb (is_absolute path) then Some (bs "workspace path must be absolute to be mounted into the guest")
  else match parent path with
  | None => Some (bs "the filesystem root cannot be mounted into the guest")
  | Some _ =>
      if existsb (overlaps path) GUEST_OWNED_PATHS
      then Some (bs "workspace path collides with a path the guest owns") else None
  end.

(** [nested_pair]: the first equal or nested pair, in declaration order. *)
Fixpoint nested_with (left : bytes) (rest : list bytes) : option (bytes * bytes) :=
  match rest with
  | [] => None
  | r :: rest' => if overlaps left r then Some (left, r) else nested_with left rest'
  end.
Fixpoint nested_pair (paths : list bytes) : option (bytes * bytes) :=
  match paths with
  | [] => None
  | p :: rest => match nested_with p rest with Some found => Some found | None => nested_pair rest end
  end.

Inductive WorkspaceDefectKind :=
| W_UnsetVariable (variable : bytes)
| W_NotAbsolute (expanded : bytes)
| W_Missing (expanded : bytes)
| W_Unreadable (expanded error : bytes)
| W_NotDirectory (expanded : bytes)
| W_GuestOwned (expanded reason : bytes)
| W_Nested (lhs rhs : bytes).
Record WorkspaceDefect := mk_WorkspaceDefect { declared_as : bytes; defect_kind : WorkspaceDefectKind }.

(** [PathBuf]'s order: the components', a root before [..] before a name, names by bytes. *)
Fixpoint bytes_leb (a b : bytes) : bool :=
  match a, b with
  | [], _ => true
  | _ :: _, [] => false
  | x :: a', y :: b' => if bz x <? bz y then true else if bz y <? bz x then false else bytes_leb a' b'
  end.
Definition component_rank (c : Component) : Z :=
  match c with RootDir => 0 | CurDir => 1 | ParentDir => 2 | Normal _ => 3 end.
Definition component_name (c : Component) : bytes := match c with Normal n => n | _ => [] end.
Definition component_leb (a b : Component) : bool :=
  if component_rank a <? component_rank b then true
  else if component_rank b <? component_rank a then false
  else bytes_leb (component_name a) (component_name b).
Fixpoint components_leb (a b : list Component) : bool :=
  match a, b with
  | [], _ => true
  | _ :: _, [] => false
  | x :: a', y :: b' => if bool_decide (x = y) then components_leb a' b' else component_leb x y
  end.
Definition path_leb (a b : bytes) : bool := components_leb (components a) (components b).

(** [canonicalize_set]: a stable sort, then the dedup of equal neighbours. *)
Fixpoint insert_path (p : bytes) (l : list bytes) : list bytes :=
  match l with
  | [] => [p]
  | q :: l' => if path_leb q p then q :: insert_path p l' else p :: l
  end.
Definition sort_paths (l : list bytes) : list bytes := fold_left (fun acc p => insert_path p acc) l [].
Fixpoint dedup (l : list bytes) : list bytes :=
  match l with
  | p :: (q :: _) as l' => match dedup l' with
                           | q' :: rest => if path_eqb p q' then p :: rest else p :: q' :: rest
                           | [] => [p]
                           end
  | _ => l
  end.
Definition canonicalize_set (paths : list bytes) : list bytes := dedup (sort_paths paths).

(* ------------------------------------------------------------------ *)
(** ** [resolve] *)

Section resolve.
Context (metadata : bytes -> result file_kind fs_error) (canonicalize : bytes -> result bytes fs_error).

(** [error.to_string()]. *)
Definition fs_message (e : fs_error) : bytes :=
  match e with NotFound => bs "No such file or directory (os error 2)" | OtherFs message => message end.

(** One row, up to the push. *)
Definition resolve_row (lookup : bytes -> option bytes) (source : bytes) : result bytes WorkspaceDefectKind :=
  let? path := map_err (fun e => match e with
      | UnsetVariable variable => W_UnsetVariable variable
      | NotAbsolute p | Missing p | NotMountable p | SessionDirectory p | Unreadable p _ => W_NotAbsolute p
      end) (expand_source source lookup) in
  let? _ := guard_err (negb (is_absolute path)) (W_NotAbsolute path) in
  let? kind := map_err (fun e => match e with
      | NotFound => W_Missing path
      | OtherFs message => W_Unreadable path message
      end) (metadata path) in
  let? _ := guard_err (match kind with IsDir => false | _ => true end) (W_NotDirectory path) in
  let? path' := map_err (fun e => W_Unreadable path (fs_message e)) (canonicalize path) in
  match guest_owned_collision path' with
  | Some reason => Err (W_GuestOwned path' reason)
  | None => Ok path'
  end.

Definition resolve (declared : list bytes) (lookup : bytes -> option bytes)
    : result (list bytes) WorkspaceDefect :=
  let? resolved := collect_results (fun source =>
    map_err (mk_WorkspaceDefect source) (resolve_row lookup source)) declared in
  match nested_pair resolved with
  | Some (lhs, rhs) => Err (mk_WorkspaceDefect (default [] (last declared)) (W_Nested lhs rhs))
  | None => Ok (canonicalize_set resolved)
  end.
End resolve.

(* ------------------------------------------------------------------ *)
(** ** Lemmas *)

Lemma nested_with_None left rest :
  nested_with left rest = None <-> Forall (fun r => overlaps left r = false) rest.
Proof.
  induction rest as [|r rest IH]; cbn [nested_with]; [by split|].
  rewrite Forall_cons, <- IH. destruct (overlaps left r); naive_solver.
Qed.

(** No two rows of the list overlap. *)
Fixpoint disjoint_paths (paths : list bytes) : Prop :=
  match paths with
  | [] => True
  | p :: rest => Forall (fun r => overlaps p r = false) rest /\ disjoint_paths rest
  end.

Lemma nested_pair_None paths : nested_pair paths = None <-> disjoint_paths paths.
Proof.
  induction paths as [|p rest IH]; cbn [nested_pair disjoint_paths]; [by split|].
  rewrite <- IH, <- nested_with_None. destruct (nested_with p rest); naive_solver.
Qed.

Lemma nested_with_Some left rest a b :
  nested_with left rest = Some (a, b) -> a = left /\ b ∈ rest /\ overlaps a b = true.
Proof.
  induction rest as [|r rest IH]; cbn [nested_with]; [done|]. destruct (overlaps left r) eqn:E.
  - intros [= <- <-]. split_and!; [done|left|done].
  - intros (? & ? & ?)%IH. split_and!; [done|by right|done].
Qed.

Lemma nested_pair_Some paths a b :
  nested_pair paths = Some (a, b) ->
  exists i j, (i < j)%nat /\ paths !! i = Some a /\ paths !! j = Some b /\ overlaps a b = true.
Proof.
  induction paths as [|p rest IH]; cbn [nested_pair]; [done|].
  destruct (nested_with p rest) as [[x y]|] eqn:E.
  - intros [= <- <-]. apply nested_with_Some in E as (-> & Hin & Ho). apply list_elem_of_lookup in Hin as [j Hj].
    exists 0%nat, (S j). split_and!; [lia|done..].
  - intros (i & j & Hij & Hi & Hj & Ho)%IH. exists (S i), (S j). split_and!; [lia|done..].
Qed.

Lemma overlaps_refl p : overlaps p p = true.
Proof. unfold overlaps. by rewrite path_starts_with_refl. Qed.
Lemma overlaps_sym a b : overlaps a b = overlaps b a.
Proof. unfold overlaps. apply orb_comm. Qed.

Lemma insert_path_perm p l : insert_path p l ≡ₚ p :: l.
Proof.
  induction l as [|q l IH]; cbn [insert_path]; [done|]. destruct (path_leb q p); [|done].
  rewrite IH. constructor.
Qed.
Lemma sort_paths_perm l : sort_paths l ≡ₚ l.
Proof.
  unfold sort_paths. assert (forall acc, fold_left (fun acc p => insert_path p acc) l acc ≡ₚ acc ++ l) as H.
  { induction l as [|p l IH]; intros acc; cbn [fold_left]; [by rewrite app_nil_r|].
    rewrite IH, insert_path_perm. by rewrite <- Permutation_middle. }
  by rewrite H.
Qed.

(** *** The order *)

Lemma bytes_leb_total a b : bytes_leb a b = true \/ bytes_leb b a = true.
Proof.
  revert b. induction a as [|x a IH]; intros [|y b]; cbn [bytes_leb]; [by left|by left|by right|].
  destruct (Z.ltb_spec (bz x) (bz y)), (Z.ltb_spec (bz y) (bz x)); try lia; auto.
Qed.
Lemma bytes_leb_trans a b c : bytes_leb a b = true -> bytes_leb b c = true -> bytes_leb a c = true.
Proof.
  revert b c. induction a as [|x a IH]; intros [|y b] [|z c]; cbn [bytes_leb]; try done.
  destruct (Z.ltb_spec (bz x) (bz y)), (Z.ltb_spec (bz y) (bz x)), (Z.ltb_spec (bz y) (bz z)),
    (Z.ltb_spec (bz z) (bz y)), (Z.ltb_spec (bz x) (bz z)), (Z.ltb_spec (bz z) (bz x)); try lia; try done; eauto.
Qed.
Lemma bytes_leb_antisym a b : bytes_leb a b = true -> bytes_leb b a = true -> a = b.
Proof.
  revert b. induction a as [|x a IH]; intros [|y b]; cbn [bytes_leb]; try done.
  destruct (Z.ltb_spec (bz x) (bz y)), (Z.ltb_spec (bz y) (bz x)); try lia; try done.
  intros. f_equal; [apply bz_inj; lia|auto].
Qed.

Lemma component_leb_total a b : component_leb a b = true \/ component_leb b a = true.
Proof.
  unfold component_leb. destruct (Z.ltb_spec (component_rank a) (component_rank b)),
    (Z.ltb_spec (component_rank b) (component_rank a)); try lia; auto using bytes_leb_total.
Qed.
Lemma component_leb_trans a b c :
  component_leb a b = true -> component_leb b c = true -> component_leb a c = true.
Proof.
  unfold component_leb.
  destruct (Z.ltb_spec (component_rank a) (component_rank b)), (Z.ltb_spec (component_rank b) (component_rank a)),
    (Z.ltb_spec (component_rank b) (component_rank c)), (Z.ltb_spec (component_rank c) (component_rank b)),
    (Z.ltb_spec (component_rank a) (component_rank c)), (Z.ltb_spec (component_rank c) (component_rank a));
    try lia; try done; eauto using bytes_leb_trans.
Qed.
Lemma component_leb_antisym a b : component_leb a b = true -> component_leb b a = true -> a = b.
Proof.
  unfold component_leb.
  destruct (Z.ltb_spec (component_rank a) (component_rank b)), (Z.ltb_spec (component_rank b) (component_rank a));
    try lia; try done.
  intros Hab Hba. pose proof (bytes_leb_antisym _ _ Hab Hba) as Hn.
  destruct a, b; cbn [component_rank component_name] in *; try lia; congruence.
Qed.

Lemma components_leb_antisym a b : components_leb a b = true -> components_leb b a = true -> a = b.
Proof.
  revert b. induction a as [|x a IH]; intros [|y b]; cbn [components_leb]; try done.
  destruct (decide (x = y)) as [->|Hn].
  - rewrite !bool_decide_true by done. intros. f_equal. auto.
  - rewrite !bool_decide_false by congruence. intros. by destruct Hn; apply component_leb_antisym.
Qed.
Lemma components_leb_total a b : components_leb a b = true \/ components_leb b a = true.
Proof.
  revert b. induction a as [|x a IH]; intros [|y b]; cbn [components_leb]; [by left|by left|by right|].
  destruct (decide (x = y)) as [->|Hn].
  - rewrite !bool_decide_true by done. auto.
  - rewrite !bool_decide_false by congruence. apply component_leb_total.
Qed.
Lemma components_leb_trans a b c :
  components_leb a b = true -> components_leb b c = true -> components_leb a c = true.
Proof.
  revert b c. induction a as [|x a IH]; intros [|y b] [|z c]; cbn [components_leb]; try done.
  destruct (decide (x = y)) as [->|Hxy].
  - rewrite (bool_decide_true (y = y)) by done. case_bool_decide; eauto.
  - rewrite (bool_decide_false (x = y)) by done. destruct (decide (y = z)) as [->|Hyz].
    + rewrite (bool_decide_true (z = z)) by done. by rewrite bool_decide_false.
    + rewrite (bool_decide_false (y = z)) by done. intros H1 H2.
      rewrite bool_decide_false; [by eapply component_leb_trans|].
      intros ->. apply Hxy. by apply component_leb_antisym.
Qed.

Definition path_le (a b : bytes) : Prop := path_leb a b = true.
#[export] Instance path_le_trans : Transitive path_le.
Proof. intros a b c. apply components_leb_trans. Qed.
#[export] Instance path_le_total : Total path_le.
Proof. intros a b. apply components_leb_total. Qed.
Lemma path_le_antisym a b : path_le a b -> path_le b a -> path_eqb a b = true.
Proof. intros Hab Hba. apply bool_decide_true. by apply components_leb_antisym. Qed.

Lemma insert_path_sorted p l : StronglySorted path_le l -> StronglySorted path_le (insert_path p l).
Proof.
  induction 1 as [|q l Hl IH Hq]; cbn [insert_path]; [by repeat constructor|].
  destruct (path_leb q p) eqn:E; constructor; try done.
  - rewrite insert_path_perm. by constructor.
  - by constructor.
  - assert (path_le p q) as Hpq by (destruct (total path_le p q) as [H|H]; [done|]; unfold path_le in H; congruence).
    constructor; [done|]. eapply Forall_impl; [exact Hq|]. intros r Hr. by etrans.
Qed.
Lemma sort_paths_sorted l : StronglySorted path_le (sort_paths l).
Proof.
  unfold sort_paths. assert (StronglySorted path_le []) as H by constructor. revert H. generalize (@nil bytes).
  induction l as [|p l IH]; intros acc H; cbn [fold_left]; [done|]. by apply IH, insert_path_sorted.
Qed.

(** *** Disjoint sets *)

Lemma path_eqb_overlaps a b : path_eqb a b = true -> overlaps a b = true.
Proof. intros H%path_eqb_starts_with. unfold overlaps. by rewrite H. Qed.

Lemma disjoint_paths_dedup l : disjoint_paths l -> dedup l = l.
Proof.
  induction l as [|p l IH]; [done|]. intros [Hp Hl]. specialize (IH Hl). destruct l as [|q l]; [done|].
  change (dedup (p :: q :: l)) with
    (match dedup (q :: l) with q' :: rest => if path_eqb p q' then p :: rest else p :: q' :: rest | [] => [p] end).
  rewrite IH. apply Forall_cons in Hp as [Hq _]. destruct (path_eqb p q) eqn:E; [|done].
  apply path_eqb_overlaps in E. congruence.
Qed.
Lemma disjoint_paths_perm l k : l ≡ₚ k -> disjoint_paths l -> disjoint_paths k.
Proof.
  induction 1 as [|p l k Hlk IH|p q l|l m k _ IH1 _ IH2]; [done| | |by auto].
  - intros [Hp Hl]. split; [|by apply IH]. by rewrite <- Hlk.
  - intros [Hq [Hp Hl]]. apply Forall_cons in Hq as [Hqp Hq].
    split; [|by split]. constructor; [by rewrite overlaps_sym|done].
Qed.
Lemma disjoint_paths_lookup l i j a b :
  disjoint_paths l -> (i < j)%nat -> l !! i = Some a -> l !! j = Some b -> overlaps a b = false.
Proof.
  revert i j. induction l as [|p l IH]; intros i j; [done|]. intros [Hp Hl] Hij Hi Hj.
  destruct j as [|j]; [lia|]. destruct i as [|i]; [|by apply (IH i j); (done || lia)].
  injection Hi as ->. exact (proj1 (Forall_lookup _ _) Hp j b Hj).
Qed.
Lemma disjoint_paths_unique l a b :
  disjoint_paths l -> a ∈ l -> b ∈ l -> path_eqb a b = true -> a = b.
Proof.
  intros Hd [i Hi]%list_elem_of_lookup [j Hj]%list_elem_of_lookup Heq. apply path_eqb_overlaps in Heq.
  destruct (lt_eq_lt_dec i j) as [[Hij| ->]|Hij]; [|congruence|];
    [pose proof (disjoint_paths_lookup _ _ _ _ _ Hd Hij Hi Hj)
    |pose proof (disjoint_paths_lookup _ _ _ _ _ Hd Hij Hj Hi) as H; rewrite overlaps_sym in H]; congruence.
Qed.

Lemma canonicalize_set_disjoint l : disjoint_paths l -> canonicalize_set l = sort_paths l.
Proof. intros H. apply disjoint_paths_dedup. eapply disjoint_paths_perm; [|done]. symmetry. apply sort_paths_perm. Qed.

(** The set form of a disjoint set does not depend on the order it was listed in. *)
Lemma canonicalize_set_perm l k :
  disjoint_paths l -> l ≡ₚ k -> canonicalize_set l = canonicalize_set k.
Proof.
  intros Hl Hlk. rewrite !canonicalize_set_disjoint by (done || by eapply disjoint_paths_perm).
  eapply (StronglySorted_unique_strong path_le); [|apply sort_paths_sorted..|by rewrite !sort_paths_perm].
  intros a b Ha Hb Hab Hba. rewrite sort_paths_perm in Ha, Hb. rewrite <- Hlk in Hb.
  eapply disjoint_paths_unique; [done..|]. by apply path_le_antisym.
Qed.

(** * Workspace: what [workspace::resolve] promises.

    A resolved set holds canonical directories outside the guest's own trees, no two of them equal or nested, in one
    order that does not depend on the manifest's; a refusal names the first defect in declaration order. *)

Section resolve.
Context (metadata : bytes -> result file_kind fs_error) (canonicalize : bytes -> result bytes fs_error).
Context (lookup : bytes -> option bytes).

(** A row the sandbox may mount: [path] is the canonical directory [source] names. *)
Definition mountable (source path : bytes) : Prop :=
  exists expanded, expand_source source lookup = Ok expanded /\ is_absolute expanded = true /\
    metadata expanded = Ok IsDir /\ canonicalize expanded = Ok path /\
    is_absolute path = true /\ parent path <> None /\
    Forall (fun owned => path_starts_with path owned = false /\ path_starts_with owned path = false) GUEST_OWNED_PATHS.

Lemma guest_owned_collision_None path :
  guest_owned_collision path = None <->
  is_absolute path = true /\ parent path <> None /\
  Forall (fun owned => path_starts_with path owned = false /\ path_starts_with owned path = false) GUEST_OWNED_PATHS.
Proof.
  unfold guest_owned_collision. destruct (is_absolute path); cbn [negb]; [|naive_solver].
  destruct (parent path) as [q|]; [|naive_solver].
  destruct (existsb (overlaps path) GUEST_OWNED_PATHS) eqn:E.
  - split; [done|]. intros (_ & _ & Hall). exfalso. apply existsb_exists in E as (owned & Hin & Ho).
    apply list_elem_of_In in Hin. rewrite Forall_forall in Hall. destruct (Hall _ Hin) as [H1 H2].
    unfold overlaps in Ho. by rewrite H1, H2 in Ho.
  - split; [|done]. intros _. split_and!; [done..|]. apply Forall_forall. intros owned Hin.
    apply orb_false_iff. change (overlaps path owned = false).
    destruct (overlaps path owned) eqn:Ho; [|done]. rewrite <- E. symmetry. apply existsb_exists.
    exists owned. split; [by apply list_elem_of_In|done].
Qed.

Lemma resolve_row_ok source path :
  resolve_row metadata canonicalize lookup source = Ok path <-> mountable source path.
Proof.
  unfold resolve_row, mountable. rewrite rbind_ok. setoid_rewrite map_err_ok. split.
  - intros (expanded & Hx & H). inv_ok. exists expanded.
    match goal with Ha : negb _ = false |- _ => apply negb_false_iff in Ha end.
    destruct (guest_owned_collision _) eqn:Hg in H; [done|]. inv_ok.
    apply guest_owned_collision_None in Hg as (? & ? & ?).
    match goal with Hm : metadata expanded = Ok ?k |- _ => destruct k; try done end.
  - intros (expanded & Hx & Ha & Hm & Hc & Hg). exists expanded. split; [done|].
    rewrite Ha, Hm. cbn [negb guard_err rbind map_err]. rewrite Hc. cbn [rbind map_err].
    by rewrite (proj2 (guest_owned_collision_None path)).
Qed.

Lemma resolve_ok declared paths :
  resolve metadata canonicalize declared lookup = Ok paths <->
  exists rows, Forall2 mountable declared rows /\ disjoint_paths rows /\ paths = canonicalize_set rows.
Proof.
  unfold resolve. rewrite rbind_ok. setoid_rewrite collect_results_ok. split.
  - intros (rows & Hrows & H). exists rows. destruct (nested_pair rows) as [[]|] eqn:E; inv_ok.
    split_and!; [|by apply nested_pair_None|done]. eapply Forall2_impl; [exact Hrows|]. intros ? ? Hrow. by apply map_err_ok, resolve_row_ok in Hrow.
  - intros (rows & Hrows & Hd & ->). exists rows. split.
    + eapply Forall2_impl; [exact Hrows|]. intros ? ? Hrow. by apply map_err_ok, resolve_row_ok.
    + by rewrite (proj2 (nested_pair_None rows) Hd).
Qed.
End resolve.

(** What [resolve] returns is a set of rows, one for each declared source, each the canonical path of an existing
    directory that neither contains nor is contained in a tree the guest owns; no two of them are equal or nested; and
    they come sorted, none dropped by the deduplication. *)
Theorem resolve_sound metadata canonicalize declared lookup paths :
  resolve metadata canonicalize declared lookup = Ok paths ->
  exists rows, Forall2 (mountable metadata canonicalize lookup) declared rows /\ paths ≡ₚ rows /\
    disjoint_paths paths /\ StronglySorted path_le paths.
Proof.
  intros (rows & Hrows & Hd & ->)%resolve_ok. exists rows. rewrite canonicalize_set_disjoint by done.
  split_and!; [done|apply sort_paths_perm| |apply sort_paths_sorted].
  eapply disjoint_paths_perm; [|exact Hd]. symmetry. apply sort_paths_perm.
Qed.

(** The resolved set depends on which sources the manifest declares and not on the order it lists them in, which is
    what makes comparing it with the set a boot record holds sound. *)
Theorem resolve_ignores_order metadata canonicalize declared declared' lookup paths :
  resolve metadata canonicalize declared lookup = Ok paths -> declared ≡ₚ declared' ->
  resolve metadata canonicalize declared' lookup = Ok paths.
Proof.
  intros (rows & Hrows & Hd & ->)%resolve_ok Hp. apply resolve_ok.
  destruct (Permutation_Forall2 Hp Hrows) as (rows' & Hperm & Hrows').
  exists rows'. split_and!; [done|eapply disjoint_paths_perm; [|exact Hd]; done|].
  by apply canonicalize_set_perm.
Qed.

Lemma collect_results_err {A B E} (f : A -> result B E) l e :
  collect_results f l = Err e ->
  exists before x after, l = before ++ x :: after /\ Forall (fun y => exists v, f y = Ok v) before /\ f x = Err e.
Proof.
  induction l as [|x l IH]; cbn [collect_results]; [done|]. destruct (f x) as [v|e'] eqn:Hx; cbn [rbind].
  - destruct (collect_results f l) as [vs|e'']; cbn [rbind]; [done|]. intros [= ->].
    destruct (IH eq_refl) as (before & y & after & -> & Hb & Hy). exists (x :: before), y, after.
    split_and!; [done| |done]. constructor; [by exists v|done].
  - intros [= ->]. by exists [], x, l.
Qed.

(** A refusal is the first defect in declaration order: either a row that is not mountable, every row before it
    being so, named by the spelling that declared it; or, all rows being mountable, two rows that are equal or nested,
    and then the spelling named is the last declared one, whichever two rows overlap. *)
Theorem resolve_names_the_first_defect metadata canonicalize declared lookup d :
  resolve metadata canonicalize declared lookup = Err d ->
  (exists before after, declared = before ++ declared_as d :: after /\
     Forall (fun source => exists path, mountable metadata canonicalize lookup source path) before /\
     resolve_row metadata canonicalize lookup (declared_as d) = Err (defect_kind d)) \/
  (exists rows i j a b, Forall2 (mountable metadata canonicalize lookup) declared rows /\ (i < j)%nat /\
     rows !! i = Some a /\ rows !! j = Some b /\ overlaps a b = true /\
     last declared = Some (declared_as d) /\ defect_kind d = W_Nested a b).
Proof.
  unfold resolve. destruct (collect_results _ declared) as [rows|e] eqn:Hc; cbn [rbind].
  - destruct (nested_pair rows) as [[a b]|] eqn:Hn; [|done]. intros [= <-]. right.
    apply nested_pair_Some in Hn as (i & j & Hij & Hi & Hj & Ho). exists rows, i, j, a, b.
    apply collect_results_ok in Hc. cbn [declared_as defect_kind].
    assert (Forall2 (mountable metadata canonicalize lookup) declared rows) as Hrows.
    { eapply Forall2_impl; [exact Hc|]. intros ? ? Hrow. by apply map_err_ok, resolve_row_ok in Hrow. }
    split_and!; try done. destruct (last declared) eqn:Hl; [done|]. apply last_None in Hl. subst.
    by apply Forall2_nil_inv_l in Hrows as ->.
  - intros [= <-]. left. apply collect_results_err in Hc as (before & x & after & -> & Hb & Hx).
    destruct (resolve_row _ _ _ x) eqn:Hr in Hx; [done|]. injection Hx as <-.
    exists before, after. cbn [declared_as defect_kind]. split_and!; [done| |done].
    eapply Forall_impl; [exact Hb|]. intros y [v Hy]. exists v. by apply map_err_ok, resolve_row_ok in Hy.
Qed.

(* ------------------------------------------------------------------ *)
(** ** Witnesses *)

Definition ws_env (name : bytes) : option bytes :=
  if bytes_eqb name (bs "HOME") then Some (bs "/home/u") else None.
Definition ws_metadata (p : bytes) : result file_kind fs_error :=
  if bytes_eqb p (bs "/home/u/gone") then Err NotFound else Ok IsDir.
Definition ws_canonicalize (p : bytes) : result bytes fs_error :=
  if bytes_eqb p (bs "/link") then Ok (bs "/srv/b") else Ok p.
Definition ws_rows : list bytes := [bs "/link"; bs "${HOME}/a"; bs "/nixos-projects"].

(** Canonical, sorted by components; [/nixos-projects] is not under [/nix]. *)
Example resolve_demo : resolve ws_metadata ws_canonicalize ws_rows ws_env
  = Ok [bs "/home/u/a"; bs "/nixos-projects"; bs "/srv/b"].
Proof. vm_compute. reflexivity. Qed.

Lemma resolve_sound_witness : disjoint_paths [bs "/home/u/a"; bs "/nixos-projects"; bs "/srv/b"].
Proof.
  destruct (resolve_sound ws_metadata ws_canonicalize ws_rows ws_env
    [bs "/home/u/a"; bs "/nixos-projects"; bs "/srv/b"] ltac:(vm_compute; reflexivity)) as (rows & _ & _ & H & _).
  exact H.
Defined.

Lemma resolve_ignores_order_witness :
  resolve ws_metadata ws_canonicalize [bs "/nixos-projects"; bs "${HOME}/a"; bs "/link"] ws_env
  = Ok [bs "/home/u/a"; bs "/nixos-projects"; bs "/srv/b"].
Proof.
  apply (resolve_ignores_order ws_metadata ws_canonicalize ws_rows); [vm_compute; reflexivity|].
  unfold ws_rows. apply (Permutation_rev [bs "/link"; bs "${HOME}/a"; bs "/nixos-projects"]).
Defined.

(** The nested pair is the first and the second row; the third, disjoint from both, is the one blamed. *)
Definition ws_nested : list bytes := [bs "/srv"; bs "/srv/b"; bs "/data"].
Lemma resolve_names_the_first_defect_witness :
  resolve ws_metadata ws_canonicalize ws_nested ws_env
    = Err (mk_WorkspaceDefect (bs "/data") (W_Nested (bs "/srv") (bs "/srv/b"))) /\
  exists rows, Forall2 (mountable ws_metadata ws_canonicalize ws_env) ws_nested rows.
Proof.
  split; [vm_compute; reflexivity|].
  destruct (resolve_names_the_first_defect ws_metadata ws_canonicalize ws_nested ws_env
    (mk_WorkspaceDefect (bs "/data") (W_Nested (bs "/srv") (bs "/srv/b"))) ltac:(vm_compute; reflexivity))
    as [(before & after & _ & _ & H)|(rows & i & j & a & b & H & _)].
  - vm_compute in H. discriminate H.
  - exists rows. exact H.
Defined.
