(* ===== verification/Spec.v ===== *)
(** * Spec: the launch contract and its validator (src/src/launch/spec.rs).

    Paths compare by components, as [PathBuf]'s equality and hash do, so the validator's [HashSet]s are lists of the
    paths inserted so far.  [serde_json], the filesystem and [vm_create]'s JSON value are parameters.  Every string of
    a record that came through [serde_json] is UTF-8, where [to_string_lossy] is the identity. *)
From S2P Require Import Prelude Bytes Paths Message Mounts Launch Workspace Ip Allowlist.

Definition LAUNCH_SCHEMA_VERSION : Z := 12.
Definition VIRTIOFSD_RLIMIT_NOFILE : Z := 524288.

(* ------------------------------------------------------------------ *)
(** ** The descriptor budget *)

Record DescriptorBudget := mk_DescriptorBudget { limit : Z; worker_pool_size : Z }.
Definition PINNED_FIXED_RESERVE : Z := 609.
Definition effective_worker_count (b : DescriptorBudget) : Z :=
  if worker_pool_size b =? 0 then 1 else worker_pool_size b.
Definition u64_checked_add (a b : Z) : option Z := if a + b <=? u64_max then Some (a + b) else None.
Definition u64_checked_sub (a b : Z) : option Z := if b <=? a then Some (a - b) else None.
Definition guest_allowance (b : DescriptorBudget) : result Z LaunchError :=
  let? reserve := ok_or (u64_checked_add PINNED_FIXED_RESERVE (effective_worker_count b))
                        (InvalidSpec (bs "descriptor reserve overflow")) in
  ok_or (let* allowance := u64_checked_sub (limit b) reserve in if 0 <? allowance then Some allowance else None)
        (InvalidSpec (bs "descriptor limit does not exceed reserve")).
Definition default_budget : DescriptorBudget := mk_DescriptorBudget VIRTIOFSD_RLIMIT_NOFILE 0.

(* ------------------------------------------------------------------ *)
(** ** The record *)

Record BackendPrograms := mk_BackendPrograms {
  cloud_hypervisor : bytes; ch_remote : bytes; virtiofsd : bytes; setpriv : bytes; truncate : bytes;
  mkfs_ext4 : bytes; systemd_run : bytes; supervisor : bytes; unshare : bytes; nsenter : bytes; ip : bytes;
  nft : bytes; pasta : bytes; sleep : bytes }.
Inductive LaunchEgressMode := Open | AllowlistMode.
Record EgressSpec := mk_EgressSpec { mode : LaunchEgressMode; allow : list bytes }.
Record NetworkSpec := mk_NetworkSpec {
  tap_name : bytes; gateway_address : IpAddr; prefix_length : Z; guest_address : IpAddr;
  dns_forward_address : IpAddr; guest_mac : bytes; resolver_port : Z }.
Definition gateway_cidr (n : NetworkSpec) : bytes :=
  ip_to_string (gateway_address n) ++ bs "/" ++ dec (prefix_length n).
Record RuntimePaths := mk_RuntimePaths {
  root : bytes; launch_spec : bytes; lock : bytes; ready_socket : bytes; api_socket : bytes;
  console_socket : bytes; console_log : bytes; control_socket : bytes; vm_pid : bytes; boot_json : bytes;
  vm_create_json : bytes }.
Record CredentialSpec := mk_CredentialSpec { cred_id : CredentialId; host_socket : bytes }.
Record SocketLegs := mk_SocketLegs { api : bytes; console : bytes; credentials : list CredentialSpec }.
Record MountPlan := mk_MountPlan { plan_kind : MountPlanKind; plan_entry : option bytes; target : bytes }.
Record ShareSpec := mk_ShareSpec {
  tag : bytes; source : bytes; mount_point : bytes; socket : bytes; cache : bytes; read_only : bool;
  mount_plan : option MountPlan; extra_args : list bytes }.
Record VolumeSpec := mk_VolumeSpec {
  label : bytes; path : bytes; size_mib : Z; image_type : bytes; inode_ratio : option Z }.
Record ResourceSpec := mk_ResourceSpec { vcpus : Z; memory_mib : Z; cpu_weight : Z }.
Record IdentityTranslation := mk_IdentityTranslation {
  guest_uid : Z; guest_gid : Z; host_uid : Z; host_gid : Z; overflow_uid : Z; overflow_gid : Z; id_max : Z }.
Record GuestSession := mk_GuestSession { user : bytes; home : bytes; shell : bytes; session_path : bytes }.

Record LaunchSpec {Value : Type} := mk_LaunchSpec {
  spec_version : Z;
  sandbox_id : bytes;
  spec_target : bytes;
  runtime_paths : RuntimePaths;
  backend_programs : BackendPrograms;
  socket_legs : SocketLegs;
  resources : ResourceSpec;
  descriptor_budget : DescriptorBudget;
  identity_translation : IdentityTranslation;
  guest_session : GuestSession;
  egress : EgressSpec;
  network : NetworkSpec;
  shares : list ShareSpec;
  volumes : list VolumeSpec;
  vm_create : Value;
  landlock_available : bool;
  console_log_enabled : bool }.
Arguments LaunchSpec : clear implicits.

Definition is_staged (share : ShareSpec) : bool :=
  match mount_plan share with Some plan => bool_decide (plan_kind plan = File) | None => false end.
Definition is_tree (share : ShareSpec) : bool :=
  match mount_plan share with Some plan => bool_decide (plan_kind plan = Tree) | None => false end.
Definition stage_dir (share : ShareSpec) (runtime_root : bytes) : option bytes :=
  if is_staged share then Some (join runtime_root (tag share ++ bs ".stage")) else None.
Definition workspace_shares {Value} (spec : LaunchSpec Value) : list ShareSpec :=
  List.filter is_tree (shares spec).

(* ------------------------------------------------------------------ *)
(** ** The helpers *)

Definition is_mac_address (mac : bytes) : bool :=
  (length mac =? 17)%nat &&
  forallb (fun octet =>
    match octet with
    | a :: b :: rest =>
        is_ascii_hexdigit a && is_ascii_hexdigit b &&
        match rest with [] => true | c :: _ => bool_decide (c = ":"%byte) end
    | _ => false
    end) (chunks 3 mac).

Definition token_byte (b : byte) : bool := is_ascii_uppercase b || is_ascii_digit b || bool_decide (b = "_"%byte).
(** The loop: [rest] is what is left from the last [@] that closed nothing. *)
Fixpoint token_fuel (fuel : nat) (rest : bytes) : bool :=
  match fuel with
  | O => false
  | S fuel =>
      match find_byte "@" rest with
      | None => false
      | Some (_, after) =>
          match find_byte "@" after with
          | None => false
          | Some (name, rest') =>
              if (0 <? length name)%nat && forallb token_byte name then true
              else token_fuel fuel ("@"%byte :: rest')
          end
      end
  end.
Definition contains_unresolved_token (rendered : bytes) : bool := token_fuel (S (length rendered)) rendered.

Definition require_absolute_resolved (p : bytes) : result unit LaunchError :=
  let? _ := guard_err (negb (is_absolute p) || existsb (fun part => bool_decide (part = ParentDir)) (components p))
                      (InvalidRuntimePath (bs "path must be absolute and normalized")) in
  guard_err (contains_unresolved_token p) (InvalidRuntimePath (bs "unresolved token")).

Definition is_mount_tag (tag : bytes) : bool :=
  match strip_prefix (bs "mnt") tag with
  | Some index => negb (length index =? 0)%nat && forallb is_ascii_digit index
  | None => false
  end.

Definition require_exact_child (p root : bytes) : result unit LaunchError :=
  let? _ := require_absolute_resolved p in
  guard_err (bool_decide (parent p <> Some (components root)))
            (InvalidRuntimePath (bs "runtime artifact must be an exact child")).

(** The [while] loop of [is_encoded_entry]. *)
Fixpoint encoded_bytes (s : bytes) : bool :=
  match s with
  | [] => true
  | b :: s' =>
      if bool_decide (b = "%"%byte) then
        match s' with h :: l :: s'' => is_hex_upper h && is_hex_upper l && encoded_bytes s'' | _ => false end
      else unreserved b && encoded_bytes s'
  end.
Definition is_encoded_entry (entry : bytes) : bool :=
  if (length entry =? 0)%nat || bytes_eqb entry dot || bytes_eqb entry dotdot then false else encoded_bytes entry.

Definition reject_session_source (source runtime_root : bytes) : result unit LaunchError :=
  for_each (fun forbidden => guard_err (overlaps source forbidden) (InvalidSpec (bs "share source violates N24")))
    [bs "/tmp"; bs "/var/tmp"; runtime_root].

(** [HashSet::insert]. *)
Definition insert_new {A} (eqb : A -> A -> bool) (what : bytes) (x : A) (seen : list A) : result (list A) LaunchError :=
  if existsb (eqb x) seen then Err (InvalidSpec what) else Ok (seen ++ [x]).
Definition insert_socket : bytes -> list bytes -> result (list bytes) LaunchError :=
  insert_new path_eqb (bs "duplicate socket path").

(* ------------------------------------------------------------------ *)
(** ** [validate] *)

Inductive link_kind := IsSocket | IsSymlink | IsOtherLink.

(** The stages of [validate] that look at nothing but the record. *)
Section record.
Context {Net : Type} {N : IpNetOps Net} {Value : Type} (spec : LaunchSpec Value).

Definition validate_version : result unit LaunchError :=
  guard_err (negb (spec_version spec =? LAUNCH_SCHEMA_VERSION)) (SchemaSkew (spec_version spec) LAUNCH_SCHEMA_VERSION).
Definition is_nil {A} (l : list A) : bool := match l with [] => true | _ => false end.
Definition validate_required : result unit LaunchError :=
  guard_err (is_nil (sandbox_id spec) || is_nil (spec_target spec) || is_nil (shares spec))
            (InvalidSpec (bs "sandbox id, target, and shares are required")).

Definition store_programs : list bytes :=
  let p := backend_programs spec in
  [ cloud_hypervisor p; ch_remote p; virtiofsd p; setpriv p; truncate p; mkfs_ext4 p; systemd_run p;
    unshare p; nsenter p; ip p; nft p; pasta p; sleep p ].
Definition validate_programs : result unit LaunchError :=
  let? _ := for_each (fun program =>
    let? _ := require_absolute_resolved program in
    guard_err (negb (path_starts_with program (bs "/nix/store")))
              (InvalidSpec (bs "backend programs must be store paths"))) store_programs in
  require_absolute_resolved (supervisor (backend_programs spec)).

Definition is_ipv4 (a : IpAddr) : bool := match a with V4 _ => true | V6 _ => false end.
Definition validate_network : result unit LaunchError :=
  let n := network spec in
  let? _ := guard_err (match allowlist_parse (allow (egress spec)) with Ok _ => false | Err _ => true end)
                      (InvalidSpec (bs "egress allowlist entry is malformed")) in
  let? _ := guard_err (is_nil (tap_name n) || (15 <? length (tap_name n))%nat ||
                       negb (forallb (fun b => is_ascii_alphanumeric b || bool_decide (b = "-"%byte)) (tap_name n)))
                      (InvalidSpec (bs "tap name must be a short alphanumeric-and-dash identifier")) in
  let? _ := guard_err ((prefix_length n =? 0) || (30 <? prefix_length n))
                      (InvalidSpec (bs "network prefix must leave room for a gateway and a guest")) in
  let? _ := guard_err (negb (Bool.eqb (is_ipv4 (gateway_address n)) (is_ipv4 (guest_address n))))
                      (InvalidSpec (bs "gateway and guest addresses must share a family")) in
  let? _ := guard_err (resolver_port n =? 0) (InvalidSpec (bs "resolver port must be non-zero")) in
  guard_err (negb (is_mac_address (guest_mac n))) (InvalidSpec (bs "guest MAC must be six colon-separated hex octets")).

Definition runtime_files : list bytes :=
  let r := runtime_paths spec in
  [ launch_spec r; lock r; ready_socket r; api_socket r; console_socket r; console_log r; control_socket r;
    vm_pid r; boot_json r; vm_create_json r ].
Definition validate_runtime : result unit LaunchError :=
  let r := runtime_paths spec in
  let? _ := require_absolute_resolved (root r) in
  for_each (fun p => require_exact_child p (root r)) runtime_files.

Definition validate_session : result unit LaunchError :=
  let s := guest_session spec in
  let? _ := guard_err (is_nil (user s) || is_nil (session_path s))
                      (InvalidSpec (bs "guest session user and path are required")) in
  let? _ := require_absolute_resolved (home s) in
  require_absolute_resolved (shell s).

(** The legs, and the [sockets] set they start. *)
Definition validate_legs : result (list bytes) LaunchError :=
  let legs := socket_legs spec in
  let r := runtime_paths spec in
  let? _ := guard_err (negb (path_eqb (api legs) (api_socket r)) || negb (path_eqb (console legs) (console_socket r)))
                      (InvalidSpec (bs "socket legs must name exact runtime sockets")) in
  fold_err (fun sockets socket => insert_socket socket sockets) [api legs; console legs; control_socket r] [].

Definition validate_workspaces : result unit LaunchError :=
  guard_err (match nested_pair (map source (workspace_shares spec)) with Some _ => true | None => false end)
            (InvalidSpec (bs "workspace paths overlap")).

Definition validate_volume (seen : list bytes * list bytes) (volume : VolumeSpec)
    : result (list bytes * list bytes) LaunchError :=
  let '(labels, images) := seen in
  let? _ := require_absolute_resolved (path volume) in
  let? _ := guard_err (is_nil (label volume)) (InvalidSpec (bs "volume label is empty")) in
  let? labels := insert_new bytes_eqb (bs "duplicate volume label") (label volume) labels in
  let? images := insert_new path_eqb (bs "duplicate volume image path") (path volume) images in
  Ok (labels, images).
Definition validate_volumes : result unit LaunchError :=
  let? _ := fold_err validate_volume (volumes spec) ([], []) in Ok tt.
End record.

(** The stages that inspect the filesystem. *)
Section filesystem.
Context (symlink_metadata : bytes -> result link_kind fs_error) (metadata : bytes -> result file_kind fs_error).

Definition validate_credential (seen : list CredentialId * list bytes) (credential : CredentialSpec)
    : result (list CredentialId * list bytes) LaunchError :=
  let '(ids, sockets) := seen in
  let? ids := insert_new (fun a b => bool_decide (a = b)) (bs "duplicate credential id") (cred_id credential) ids in
  let? _ := require_absolute_resolved (host_socket credential) in
  let? kind := map_err (Io (bs "inspect credential socket")) (symlink_metadata (host_socket credential)) in
  let? _ := guard_err (match kind with IsSocket => false | _ => true end)
                      (InvalidSpec (bs "credential must name the exact socket object")) in
  let? sockets := insert_socket (host_socket credential) sockets in
  Ok (ids, sockets).

(** One share's plan against its source. *)
Definition validate_source (share : ShareSpec) : result unit LaunchError :=
  let? kind := map_err (Io (bs "inspect share source")) (metadata (source share)) in
  if is_staged share
  then guard_err (match kind with IsFile => false | _ => true end)
                 (InvalidSpec (bs "a file mount plan's share source is not a regular file"))
  else guard_err (match kind with IsDir => false | _ => true end) (InvalidSpec (bs "share source is not a directory")).
Definition validate_target (share : ShareSpec) : result unit LaunchError :=
  match mount_plan share with
  | None => Ok tt
  | Some plan =>
      let? _ := require_absolute_resolved (target plan) in
      guard_err (bool_decide (plan_kind plan = Tree) && negb (path_eqb (target plan) (source share)))
                (InvalidSpec (bs "a workspace plan must bind the share at its own source"))
  end.
Definition validate_entry (share : ShareSpec) : result unit LaunchError :=
  match mount_plan share with
  | None => Ok tt
  | Some plan =>
      match plan_kind plan, plan_entry plan with
      | (Dir | Tree), None => Ok tt
      | (Dir | Tree), Some _ => Err (InvalidSpec (bs "a directory mount plan carries no entry"))
      | File, entry =>
          let? _ := guard_err (negb (match entry with Some e => is_encoded_entry e | None => false end))
                              (InvalidSpec (bs "a file mount plan needs a well-formed encoded entry")) in
          guard_err (bool_decide (option_map encode_entry (file_name (source share)) <> entry))
                    (InvalidSpec (bs "a file mount plan's entry does not name its source"))
      end
  end.

Definition share_caches : list bytes := [bs "auto"; bs "always"; bs "metadata"; bs "never"].
Definition fixed_arguments : list bytes :=
  [ bs "--socket-path"; bs "--shared-dir"; bs "--sandbox"; bs "--seccomp"; bs "--rlimit-nofile";
    bs "--thread-pool-size"; bs "--inode-file-handles" ].
Definition overrides_policy (arg : bytes) : bool :=
  existsb (fun fixed => bytes_eqb arg fixed || starts_with (fixed ++ bs "=") arg) fixed_arguments.

Definition validate_share (root : bytes) (seen : list bytes * list bytes) (share : ShareSpec)
    : result (list bytes * list bytes) LaunchError :=
  let '(tags, sockets) := seen in
  let? tags := insert_new bytes_eqb (bs "duplicate share tag") (tag share) tags in
  let? _ := guard_err (negb (bytes_eqb (tag share) (bs "store")) && negb (is_mount_tag (tag share)))
                      (InvalidSpec (bs "share tag is outside the build families")) in
  let? _ := require_absolute_resolved (source share) in
  let? _ := require_absolute_resolved (mount_point share) in
  let? _ := require_exact_child (socket share) root in
  let? _ := match stage_dir share root with Some stage => require_exact_child stage root | None => Ok tt end in
  let? sockets := insert_socket (socket share) sockets in
  let? _ := reject_session_source (source share) root in
  let? _ := match guest_owned_collision (source share) with
            | Some reason => guard_err (is_tree share) (InvalidSpec reason)
            | None => Ok tt
            end in
  let? _ := validate_source share in
  let? _ := validate_target share in
  let? _ := validate_entry share in
  let? _ := guard_err (negb (existsb (bytes_eqb (cache share)) share_caches))
                      (InvalidSpec (bs "unsupported share cache")) in
  let? _ := guard_err (existsb overrides_policy (extra_args share))
                      (InvalidSpec (bs "extra share argument overrides mandatory policy")) in
  Ok (tags, sockets).

Definition validate {Net} {N : IpNetOps Net} {Value} (spec : LaunchSpec Value) : result unit LaunchError :=
  let? _ := validate_version spec in
  let? _ := validate_required spec in
  let? _ := guest_allowance (descriptor_budget spec) in
  let? _ := validate_programs spec in
  let? _ := validate_network spec in
  let? _ := validate_runtime spec in
  let? _ := validate_session spec in
  let? sockets := validate_legs spec in
  let? seen := fold_err validate_credential (credentials (socket_legs spec)) ([], sockets) in
  let? _ := fold_err (validate_share (root (runtime_paths spec))) (shares spec) ([], snd seen) in
  let? _ := validate_workspaces spec in
  validate_volumes spec.

(** [from_json]; [version_of] and [decode] are [serde_json::from_slice] at [VersionEnvelope] and at [LaunchSpec]. *)
Definition from_json {Net} {N : IpNetOps Net} {Value} (version_of : bytes -> option Z)
    (decode : bytes -> option (LaunchSpec Value)) (raw : bytes) : result (LaunchSpec Value) LaunchError :=
  let? _ := match version_of raw with
            | Some record => guard_err (negb (record =? LAUNCH_SCHEMA_VERSION)) (SchemaSkew record LAUNCH_SCHEMA_VERSION)
            | None => Ok tt
            end in
  let? spec := ok_or (decode raw) (InvalidSpec (bs "JSON does not match launch schema")) in
  let? _ := validate spec in
  Ok spec.
End filesystem.
