(* ===== verification/SpecSpec.v ===== *)
(** * SpecSpec: what a validated launch specification is.

    The helpers' exact meaning (the descriptor allowance, the token scan, the entry shape), then what
    [validate] guarantees of a record it accepts: distinct endpoints inside the runtime directory, shares the guest can
    place, disjoint workspaces, unambiguous volumes. *)
From S2P Require Import Prelude Bytes Paths Message Mounts Launch Workspace Ip Allowlist Spec.

#[local] Arguments bs : simpl never.

(* ------------------------------------------------------------------ *)
(** ** The descriptor allowance *)

Lemma guest_allowance_ok b n :
  0 <= worker_pool_size b -> limit b <= u64_max ->
  guest_allowance b = Ok n <-> n = limit b - 609 - Z.max 1 (worker_pool_size b) /\ 0 < n.
Proof.
  intros Hw Hl. unfold guest_allowance, effective_worker_count, u64_checked_add, u64_checked_sub, PINNED_FIXED_RESERVE.
  assert ((if worker_pool_size b =? 0 then 1 else worker_pool_size b) = Z.max 1 (worker_pool_size b)) as ->
    by (destruct (Z.eqb_spec (worker_pool_size b) 0); lia).
  destruct (Z.leb_spec (609 + Z.max 1 (worker_pool_size b)) u64_max); cbn [ok_or rbind].
  - destruct (Z.leb_spec (609 + Z.max 1 (worker_pool_size b)) (limit b)); cbn [option_bind ok_or].
    + destruct (Z.ltb_spec 0 (limit b - (609 + Z.max 1 (worker_pool_size b)))); cbn [ok_or].
      * split; [intros [= <-]; lia|]. intros [-> _]. f_equal. lia.
      * split; [done|lia].
    + split; [done|lia].
  - split; [done|]. lia.
Qed.

(** The descriptors left to the guest are the limit less the daemon's fixed reserve and its workers, a pool of zero
    costing one, computed without overflow at every 64-bit budget; a budget that leaves none is refused. *)
Theorem guest_allowance_spec b n :
  0 <= worker_pool_size b -> limit b <= u64_max ->
  guest_allowance b = Ok n <-> n = limit b - 609 - Z.max 1 (worker_pool_size b) /\ 0 < n.
Proof. apply guest_allowance_ok. Qed.

(* ------------------------------------------------------------------ *)
(** ** The token scan *)

Lemma at_not_token_byte : token_byte "@" = false.
Proof. vm_compute. reflexivity. Qed.
Lemma token_no_at name : forallb token_byte name = true -> "@"%byte ∉ name.
Proof.
  intros H Hin. rewrite forallb_forall in H. apply list_elem_of_In, H in Hin. by rewrite at_not_token_byte in Hin.
Qed.

(** A sentinel [@NAME@] somewhere in the text. *)
Definition has_token (s : bytes) : Prop :=
  exists before name after, s = before ++ "@"%byte :: name ++ "@"%byte :: after /\ name <> [] /\
    forallb token_byte name = true.

Lemma has_token_skip before s : "@"%byte ∉ before -> has_token (before ++ s) <-> has_token s.
Proof.
  intros Hn. split; intros (a & name & after & H & Hne & Hb).
  - exists (drop (length before) a), name, after. split_and!; [|done..].
    assert (length before <= length a)%nat as Hlen.
    { destruct (le_lt_dec (length before) (length a)) as [|Hlt]; [done|]. exfalso. apply Hn.
      apply (list_elem_of_lookup_2 _ (length a)). rewrite <- (lookup_app_l before s) by done. rewrite H.
      by rewrite lookup_app_r, Nat.sub_diag by done. }
    apply (f_equal (drop (length before))) in H. rewrite drop_app_length in H.
    by rewrite drop_app_le in H by done.
  - exists (before ++ a), name, after. split_and!; [by rewrite H, <- app_assoc|done..].
Qed.

Lemma token_fuel_spec fuel s : (length s < fuel)%nat -> token_fuel fuel s = true <-> has_token s.
Proof.
  revert s. induction fuel as [|fuel IH]; intros s Hf; [lia|]. cbn [token_fuel].
  destruct (find_byte "@" s) as [[before after]|] eqn:E1.
  2:{ split; [done|]. intros (a & name & after & -> & _). exfalso.
      assert ("@"%byte ∈ a ++ "@"%byte :: name ++ "@"%byte :: after) as Hin by (apply elem_of_app; right; left).
      apply find_byte_None in E1. done. }
  apply find_byte_Some in E1 as [-> Hb]. rewrite has_token_skip by done.
  destruct (find_byte "@" after) as [[name rest]|] eqn:E2.
  2:{ split; [done|]. apply find_byte_None in E2. intros (a & name & rest & H & _). exfalso. apply E2.
      destruct a as [|x a]; injection H as H; subst; apply elem_of_app; right; [left|].
      right. apply elem_of_app. right. left. }
  apply find_byte_Some in E2 as [-> Hname].
  destruct ((0 <? length name)%nat && forallb token_byte name) eqn:Et.
  - split; [intros _|done]. apply andb_true_iff in Et as [Hl Ht]. exists [], name, rest.
    split_and!; [done| |done]. intros ->. done.
  - rewrite IH by (rewrite length_app in Hf; cbn [length] in Hf; rewrite length_app in Hf; cbn [length] in *; lia).
    rewrite <- (has_token_skip name ("@"%byte :: rest)) by done. split.
    + intros (a & n & r & H & ? & ?). exists ("@"%byte :: a), n, r. split_and!; [by rewrite H|done..].
    + intros (a & n & r & H & Hne & Ht). destruct a as [|x a].
      * injection H as H. exfalso.
        assert (find_byte "@" (n ++ "@"%byte :: r) = Some (n, r)) as H1
          by (apply find_byte_Some; split; [done|by apply token_no_at]).
        rewrite <- H in H1. assert (find_byte "@" (name ++ "@"%byte :: rest) = Some (name, rest)) as H2
          by (by apply find_byte_Some). rewrite H1 in H2. injection H2 as -> ->.
        rewrite Ht, andb_true_r in Et. apply Nat.ltb_ge in Et. destruct name; [done|cbn in Et; lia].
      * injection H as _ H. by exists a, n, r.
Qed.

Lemma contains_unresolved_token_iff s : contains_unresolved_token s = true <-> has_token s.
Proof. apply token_fuel_spec. lia. Qed.

(** A rendered path is refused for an unresolved token exactly when some [@NAME@] with a non-empty name of
    upper-case letters, digits and underscores occurs in it, wherever the other [@]s of the path stand. *)
Theorem contains_unresolved_token_spec s : contains_unresolved_token s = true <-> has_token s.
Proof. apply contains_unresolved_token_iff. Qed.

(* ------------------------------------------------------------------ *)
(** ** The sets the loops keep *)

Lemma insert_new_ok {A} (eqb : A -> A -> bool) what x seen seen' :
  insert_new eqb what x seen = Ok seen' -> seen' = seen ++ [x] /\ Forall (fun y => eqb x y = false) seen.
Proof.
  unfold insert_new. destruct (existsb (eqb x) seen) eqn:E; [done|]. intros [= <-]. split; [done|].
  apply Forall_forall. intros y Hy. destruct (eqb x y) eqn:Exy; [|done]. rewrite <- E. symmetry.
  apply existsb_exists. exists y. split; [by apply list_elem_of_In|done].
Qed.

(** A set keyed by [key]: bytes by themselves, paths by their components. *)
Lemma insert_fresh {A K} (key : A -> K) (eqb : A -> A -> bool) what x seen seen' :
  (forall a b, key a = key b -> eqb a b = true) -> insert_new eqb what x seen = Ok seen' ->
  seen' = seen ++ [x] /\ key x ∉ map key seen.
Proof.
  intros Heq [-> Hf]%insert_new_ok. split; [done|]. intros Hin. apply list_elem_of_fmap in Hin as (y & Hk & Hy).
  rewrite Forall_forall in Hf. specialize (Hf y Hy). by rewrite (Heq _ _ Hk) in Hf.
Qed.
Lemma path_key a b : components a = components b -> path_eqb a b = true.
Proof. intros H. by apply bool_decide_true. Qed.
Lemma bytes_key (a b : bytes) : id a = id b -> bytes_eqb a b = true.
Proof. intros H. by apply bytes_eqb_true. Qed.

(** A loop that grows two sets and checks each element. *)
Lemma fold_two_sets {X A B KA KB} (ka : A -> KA) (kb : B -> KB) (f : X -> A) (g : X -> B) (P : X -> Prop)
    (step : list A * list B -> X -> result (list A * list B) LaunchError) :
  (forall a b x s, step (a, b) x = Ok s ->
     s = (a ++ [f x], b ++ [g x]) /\ ka (f x) ∉ map ka a /\ kb (g x) ∉ map kb b /\ P x) ->
  forall l a b s, fold_err step l (a, b) = Ok s ->
    s = (a ++ map f l, b ++ map g l) /\ Forall P l /\
    (NoDup (map ka a) -> NoDup (map ka (a ++ map f l))) /\ (NoDup (map kb b) -> NoDup (map kb (b ++ map g l))).
Proof.
  intros Hstep l. induction l as [|x l IH]; intros a b s; cbn [fold_err map].
  - intros [= <-]. rewrite !app_nil_r. split_and!; [done|constructor|done|done].
  - rewrite rbind_ok. intros (s1 & Hs & Hrest). apply Hstep in Hs as (-> & Ha & Hb & HP).
    apply IH in Hrest as (-> & Hall & Hna & Hnb). rewrite <- !app_assoc in *. cbn [app] in *.
    split_and!; [done|by constructor| |].
    + intros H. apply Hna. rewrite map_app. by apply NoDup_snoc_fresh.
    + intros H. apply Hnb. rewrite map_app. by apply NoDup_snoc_fresh.
Qed.

(* ------------------------------------------------------------------ *)
(** ** What each stage leaves true *)

(** An absolute path with no [..] and no sentinel. *)
Definition resolved_path (p : bytes) : Prop :=
  is_absolute p = true /\ ParentDir ∉ components p /\ ~ has_token p.

Lemma require_absolute_resolved_ok p u : require_absolute_resolved p = Ok u <-> resolved_path p.
Proof.
  assert (existsb (fun part => bool_decide (part = ParentDir)) (components p) = false <-> ParentDir ∉ components p) as Hex.
  { rewrite <- not_true_iff_false, existsb_exists. split.
    - intros Hn Hin. apply Hn. exists ParentDir. split; [by apply list_elem_of_In|by apply bool_decide_true].
    - intros Hn (q & Hq & ->%bool_decide_eq_true). by apply list_elem_of_In in Hq. }
  assert (contains_unresolved_token p = false <-> ~ has_token p) as Htok
    by (by rewrite <- contains_unresolved_token_iff, not_true_iff_false).
  unfold require_absolute_resolved, resolved_path. rewrite <- Hex, <- Htok. rewrite rbind_ok. split.
  - intros (? & Hg & Ht). inv_ok. apply orb_false_iff in Hg as [Hg ?]. by apply negb_false_iff in Hg.
  - intros (Ha & He & Ht). exists tt. rewrite Ha, He, Ht. by destruct u.
Qed.

Lemma components_absolute p c l :
  is_absolute p = true -> components p = RootDir :: l -> c ∈ l -> c = ParentDir \/ exists n, c = Normal n.
Proof.
  intros Ha Hc Hin. unfold components in Hc. rewrite Ha in Hc. injection Hc as Hc. rewrite <- Hc in Hin.
  apply list_elem_of_omap in Hin as (piece & _ & Hp). unfold piece_component in Hp.
  repeat case_match; simplify_eq; eauto.
Qed.

(** [p] is a name directly under [root]. *)
Definition child_of (root p : bytes) : Prop := exists name, components p = components root ++ [Normal name].

Lemma require_exact_child_ok root p u :
  require_exact_child p root = Ok u -> resolved_path p /\ child_of root p.
Proof.
  unfold require_exact_child. intros H. inv_ok. apply bool_decide_eq_false in H. apply dec_stable in H.
  match goal with Hr : require_absolute_resolved p = Ok _ |- _ => apply require_absolute_resolved_ok in Hr; rename Hr into Hres end.
  split; [done|]. destruct Hres as (Ha & Hpd & _). apply parent_inv in H as (c & Hc & Hroot).
  assert (exists l, components p = RootDir :: l) as [l Hl] by (unfold components; rewrite Ha; by eexists).
  assert (c ∈ l) as Hin.
  { destruct (components root) as [|r rest]; [rewrite Hl in Hc; injection Hc as <- ->; done|].
    rewrite Hl in Hc. injection Hc as _ ->. apply elem_of_app. right. left. }
  destruct (components_absolute p c l Ha Hl Hin) as [->|[n ->]].
  - exfalso. apply Hpd. rewrite Hl. by right.
  - by exists n.
Qed.

Section validate.
Context (symlink_metadata : bytes -> result link_kind fs_error) (metadata : bytes -> result file_kind fs_error).
Context {Net : Type} {N : IpNetOps Net} {Value : Type}.
Implicit Types spec : LaunchSpec Value.

Lemma validate_legs_ok spec sockets :
  validate_legs spec = Ok sockets ->
  sockets = [api (socket_legs spec); console (socket_legs spec); control_socket (runtime_paths spec)] /\
  NoDup (map components sockets) /\
  components (api (socket_legs spec)) = components (api_socket (runtime_paths spec)) /\
  components (console (socket_legs spec)) = components (console_socket (runtime_paths spec)).
Proof.
  unfold validate_legs. cbn [fold_err]. intros H. inv_ok.
  repeat match goal with Hi : insert_socket _ _ = Ok _ |- _ =>
    apply (insert_fresh components) in Hi as [-> ?]; [|apply path_key] end.
  match goal with Hn : negb _ || negb _ = false |- _ =>
    apply orb_false_iff in Hn as [Ha%negb_false_iff%bool_decide_eq_true Hb%negb_false_iff%bool_decide_eq_true] end.
  split_and!; try done. cbn [app map] in *. rewrite !not_elem_of_cons in *. destruct_and!.
  repeat (apply NoDup_cons; split; [rewrite ?not_elem_of_cons; split_and?; auto using not_elem_of_nil|]).
  apply NoDup_nil_2.
Qed.

(** A credential names an existing socket object. *)
Definition credential_ok (c : CredentialSpec) : Prop :=
  resolved_path (host_socket c) /\ symlink_metadata (host_socket c) = Ok IsSocket.
Lemma validate_credential_ok ids sockets c s :
  validate_credential symlink_metadata (ids, sockets) c = Ok s ->
  s = (ids ++ [cred_id c], sockets ++ [host_socket c]) /\ id (cred_id c) ∉ map id ids /\
  components (host_socket c) ∉ map components sockets /\ credential_ok c.
Proof.
  unfold validate_credential. intros H. inv_ok.
  match goal with Hi : insert_socket _ _ = Ok _ |- _ =>
    apply (insert_fresh components) in Hi as [-> ?]; [|apply path_key] end.
  match goal with Hi : insert_new _ _ _ _ = Ok _ |- _ =>
    apply (insert_fresh id) in Hi as [-> ?]; [|intros a b Hab; by apply bool_decide_true] end.
  match goal with Hk : symlink_metadata _ = Ok ?k |- _ => destruct k; try done end.
  split_and!; try done. split; [by eapply require_absolute_resolved_ok|done].
Qed.

(** Where a share may come from. *)
Definition share_tag_ok (t : bytes) : Prop :=
  t = bs "store" \/ exists digits, t = bs "mnt" ++ digits /\ digits <> [] /\ forallb is_ascii_digit digits = true.
Definition outside_session (root p : bytes) : Prop :=
  Forall (fun d => path_starts_with p d = false /\ path_starts_with d p = false) [bs "/tmp"; bs "/var/tmp"; root].
(** What a share's plan and the host's filesystem agree on. *)
Definition plan_ok (root : bytes) (s : ShareSpec) : Prop :=
  match mount_plan s with
  | None => metadata (source s) = Ok IsDir
  | Some plan => resolved_path (target plan) /\
      match plan_kind plan with
      | Dir => metadata (source s) = Ok IsDir /\ plan_entry plan = None
      | Tree => metadata (source s) = Ok IsDir /\ plan_entry plan = None /\
          components (target plan) = components (source s) /\ guest_owned_collision (source s) = None
      | File => metadata (source s) = Ok IsFile /\ child_of root (join root (tag s ++ bs ".stage")) /\
          exists name entry, file_name (source s) = Some name /\ plan_entry plan = Some entry /\
            guest_decode_entry entry = Some name
      end
  end.
Definition share_ok (root : bytes) (s : ShareSpec) : Prop :=
  share_tag_ok (tag s) /\ resolved_path (source s) /\ resolved_path (mount_point s) /\ child_of root (socket s) /\
  outside_session root (source s) /\ plan_ok root s /\
  Forall (fun arg => Forall (fun fixed => arg <> fixed /\ starts_with (fixed ++ bs "=") arg = false) fixed_arguments)
    (extra_args s).

Lemma is_mount_tag_ok t : is_mount_tag t = true -> share_tag_ok t.
Proof.
  unfold is_mount_tag. destruct (strip_prefix (bs "mnt") t) as [digits|] eqn:E; [|done].
  intros [Hl Hd]%andb_true_iff. right. exists digits. apply strip_prefix_Some in E. split_and!; [done| |done].
  by intros ->.
Qed.

Lemma validate_entry_ok s plan :
  mount_plan s = Some plan -> validate_entry s = Ok tt ->
  match plan_kind plan with
  | Dir | Tree => plan_entry plan = None
  | File => exists name entry, file_name (source s) = Some name /\ plan_entry plan = Some entry /\
      guest_decode_entry entry = Some name
  end.
Proof.
  unfold validate_entry. intros ->. destruct (plan_kind plan) eqn:Ek, (plan_entry plan) as [entry|]; try done; intros H; inv_ok.
  - apply bool_decide_eq_false in H. apply dec_stable in H. destruct (file_name (source s)) as [name|] eqn:En; [|done].
    exists name, entry. split_and!; [done..|]. injection H as <-. by apply entry_decodes, (file_name_plain (source s)).
Qed.

Lemma extra_args_ok args :
  existsb overrides_policy args = false ->
  Forall (fun arg => Forall (fun fixed => arg <> fixed /\ starts_with (fixed ++ bs "=") arg = false) fixed_arguments) args.
Proof.
  induction args as [|arg args IH]; cbn [existsb]; [constructor|]. intros [Ha Hr]%orb_false_iff.
  constructor; [|by apply IH]. unfold overrides_policy in Ha. revert Ha. generalize fixed_arguments.
  intros l. induction l as [|f l IHl]; cbn [existsb]; [constructor|]. intros [[Heq Hs]%orb_false_iff Hl]%orb_false_iff.
  constructor; [|by apply IHl]. split; [|done]. intros ->. rewrite (proj2 (bytes_eqb_true f f) eq_refl) in Heq. done.
Qed.

Ltac to_res := repeat match goal with
  | H : require_absolute_resolved _ = Ok _ |- _ => apply require_absolute_resolved_ok in H
  | H : require_exact_child _ _ = Ok _ |- _ => apply require_exact_child_ok in H as [_ H]
  end.

Lemma reject_session_source_ok p root u : reject_session_source p root = Ok u -> outside_session root p.
Proof.
  unfold reject_session_source, outside_session. intros H%for_each_ok. eapply Forall_impl; [exact H|].
  intros d Hd%guard_err_ok. by apply orb_false_iff in Hd.
Qed.

Lemma validate_plan_ok root s u1 u2 u3 u4 u5 :
  match stage_dir s root with Some stage => require_exact_child stage root | None => Ok tt end = Ok u1 ->
  match guest_owned_collision (source s) with
  | Some reason => guard_err (is_tree s) (InvalidSpec reason) | None => Ok tt end = Ok u2 ->
  validate_source metadata s = Ok u3 -> validate_target s = Ok u4 -> validate_entry s = Ok u5 -> plan_ok root s.
Proof.
  unfold stage_dir, validate_source, validate_target, plan_ok, is_staged, is_tree. destruct u5.
  destruct (mount_plan s) as [plan|] eqn:Ep.
  - intros Hst Hown Hsrc Htgt Hent. apply (validate_entry_ok s plan Ep) in Hent. inv_ok. to_res.
    split; [done|]. destruct (plan_kind plan) eqn:Ek; change (bool_decide (File = File)) with true in *;
      change (bool_decide (Tree = File)) with false in *; change (bool_decide (Dir = File)) with false in *;
      change (bool_decide (Tree = Tree)) with true in *; cbv iota in *; inv_ok;
      match goal with Hk : metadata _ = Ok ?k |- _ => destruct k; try done end; to_res.
    + done.
    + apply negb_false_iff, bool_decide_eq_true in Htgt. split_and!; try done.
      destruct (guest_owned_collision (source s)); [|done]. inv_ok. done.
  - intros _ _ Hsrc _ _. inv_ok. cbn in Hsrc.
    match goal with Hk : metadata _ = Ok ?k |- _ => destruct k; try done end.
Qed.

Lemma validate_share_ok root tags sockets s r :
  validate_share metadata root (tags, sockets) s = Ok r ->
  r = (tags ++ [tag s], sockets ++ [socket s]) /\ id (tag s) ∉ map id tags /\
  components (socket s) ∉ map components sockets /\ share_ok root s.
Proof.
  unfold validate_share. intros H. inv_ok.
  match goal with Hi : insert_socket _ _ = Ok _ |- _ =>
    apply (insert_fresh components) in Hi as [-> ?]; [|apply path_key] end.
  match goal with Hi : insert_new _ _ _ _ = Ok _ |- _ =>
    apply (insert_fresh id) in Hi as [-> ?]; [|apply bytes_key] end.
  split_and!; try done. unfold share_ok. to_res. split_and!; try done.
  - match goal with Ht : negb _ && negb _ = false |- _ => apply andb_false_iff in Ht as [Ht|Ht]; apply negb_false_iff in Ht end.
    + left. by apply bytes_eqb_true.
    + by apply is_mount_tag_ok.
  - by eapply reject_session_source_ok.
  - by eapply validate_plan_ok.
  - by apply extra_args_ok.
Qed.

Lemma validate_volume_ok labels images v r :
  validate_volume (labels, images) v = Ok r ->
  r = (labels ++ [label v], images ++ [path v]) /\ id (label v) ∉ map id labels /\
  components (path v) ∉ map components images /\ (resolved_path (path v) /\ label v <> []).
Proof.
  unfold validate_volume. intros H. inv_ok.
  match goal with Hi : insert_new path_eqb _ _ _ = Ok _ |- _ =>
    apply (insert_fresh components) in Hi as [-> ?]; [|apply path_key] end.
  match goal with Hi : insert_new bytes_eqb _ _ _ = Ok _ |- _ =>
    apply (insert_fresh id) in Hi as [-> ?]; [|apply bytes_key] end.
  to_res. split_and!; try done. by destruct (label v).
Qed.

(** Every socket path a launch binds or connects to. *)
Definition endpoints spec : list bytes :=
  ([api (socket_legs spec); console (socket_legs spec); control_socket (runtime_paths spec)] ++
   map host_socket (credentials (socket_legs spec))) ++ map socket (shares spec).

Record validated spec : Prop := {
  v_version : spec_version spec = LAUNCH_SCHEMA_VERSION;
  v_allowance : exists n, guest_allowance (descriptor_budget spec) = Ok n;
  v_runtime : Forall (child_of (root (runtime_paths spec))) (runtime_files spec);
  v_legs : components (api (socket_legs spec)) = components (api_socket (runtime_paths spec)) /\
           components (console (socket_legs spec)) = components (console_socket (runtime_paths spec));
  v_endpoints : NoDup (map components (endpoints spec));
  v_credentials : NoDup (map cred_id (credentials (socket_legs spec))) /\
                  Forall credential_ok (credentials (socket_legs spec));
  v_tags : NoDup (map tag (shares spec));
  v_shares : Forall (share_ok (root (runtime_paths spec))) (shares spec);
  v_workspaces : disjoint_paths (map source (workspace_shares spec));
  v_volumes : NoDup (map label (volumes spec)) /\ NoDup (map components (map path (volumes spec)));
  v_programs : Forall (fun p => resolved_path p /\ path_starts_with p (bs "/nix/store") = true) (store_programs spec);
}.

Lemma validate_validated spec u : validate symlink_metadata metadata spec = Ok u -> validated spec.
Proof.
  unfold validate. intros H. inv_ok.
  match goal with Hl : validate_legs spec = Ok _ |- _ => apply validate_legs_ok in Hl as (-> & Hlegs & Hapi & Hcon) end.
  match goal with Hc : fold_err (validate_credential _) _ _ = Ok _ |- _ =>
    apply (fold_two_sets id components cred_id host_socket credential_ok _ validate_credential_ok) in Hc
      as (-> & Hcreds & Hids & Hsocks) end.
  match goal with Hs : fold_err (validate_share _ _) _ _ = Ok _ |- _ =>
    apply (fold_two_sets id components tag socket _ _ (validate_share_ok _)) in Hs as (_ & Hshares & Htags & Hends) end.
  unfold validate_volumes in H. inv_ok.
  match goal with Hv : fold_err validate_volume _ _ = Ok _ |- _ =>
    apply (fold_two_sets id components label path _ _ validate_volume_ok) in Hv as (_ & _ & Hlabels & Himages) end.
  unfold validate_version, validate_runtime, validate_workspaces, validate_programs in *. inv_ok.
  cbn [app map snd] in *. rewrite ?map_id in *.
  constructor; try done.
  - by apply Z.eqb_eq, negb_false_iff.
  - by eexists.
  - match goal with Hr : Forall _ (runtime_files spec) |- _ => eapply Forall_impl; [exact Hr|] end.
    intros p Hp. by apply require_exact_child_ok in Hp as [_ Hp].
  - by apply Hends, Hsocks.
  - split; [|done]. apply Hids, NoDup_nil_2.
  - apply Htags, NoDup_nil_2.
  - apply nested_pair_None. by destruct (nested_pair _) as [[]|].
  - split; [apply Hlabels|apply Himages]; apply NoDup_nil_2.
  - match goal with Hr : Forall _ (store_programs spec) |- _ => eapply Forall_impl; [exact Hr|] end.
    cbv beta. intros p Hp. inv_ok. to_res. split; [done|]. by apply negb_false_iff.
Qed.
End validate.

(* ------------------------------------------------------------------ *)
(** ** The properties *)

(** In a specification the validator accepts, no two of the sockets a launch binds or connects to are the same path,
    however spelled: the API and console legs, the control socket, every credential's host socket and every share's;
    the legs are the runtime directory's own sockets; and every runtime file and share socket is a single name directly
    under the runtime root. *)
Theorem validate_endpoints symlink_metadata metadata {Net} {N : IpNetOps Net} {Value} (spec : LaunchSpec Value) :
  validate symlink_metadata metadata spec = Ok tt ->
  NoDup (map components (endpoints spec)) /\
  components (api (socket_legs spec)) = components (api_socket (runtime_paths spec)) /\
  components (console (socket_legs spec)) = components (console_socket (runtime_paths spec)) /\
  Forall (child_of (root (runtime_paths spec))) (runtime_files spec ++ map socket (shares spec)).
Proof.
  intros H%validate_validated. destruct H as [_ _ Hrt [Ha Hc] Hends _ _ Hsh _ _ _]. split_and!; try done.
  apply Forall_app. split; [done|]. apply Forall_map. eapply Forall_impl; [exact Hsh|]. intros s (_ & _ & _ & Hs & _). done.
Qed.

(** Every share of an accepted specification can be placed: its tag is unique and of the build's families; its
    source is a resolved path that neither holds nor lies in [/tmp], [/var/tmp] or the runtime directory, and is a
    directory, or under a file plan a regular file whose entry the guest decodes to that file's own name, staged under
    the runtime root; and no extra argument overrides the daemon's mandatory policy. *)
Theorem validate_shares symlink_metadata metadata {Net} {N : IpNetOps Net} {Value} (spec : LaunchSpec Value) :
  validate symlink_metadata metadata spec = Ok tt ->
  NoDup (map tag (shares spec)) /\ Forall (share_ok metadata (root (runtime_paths spec))) (shares spec).
Proof. intros H%validate_validated. by destruct H. Qed.

Lemma workspace_mirrors metadata root s :
  share_ok metadata root s -> is_tree s = true ->
  metadata (source s) = Ok IsDir /\ guest_owned_collision (source s) = None /\
  exists plan, mount_plan s = Some plan /\ components (target plan) = components (source s).
Proof.
  intros (_ & _ & _ & _ & _ & Hp & _). unfold plan_ok, is_tree in *. destruct (mount_plan s) as [plan|]; [|done].
  intros Hk%bool_decide_eq_true. rewrite Hk in Hp. destruct Hp as (_ & ? & _ & ? & ?). by split_and!; eauto.
Qed.

(** The workspaces of an accepted specification are existing directories bound at their own host paths, none of them
    a path the guest owns, and no two of them equal or nested. *)
Theorem validate_workspaces_mirror symlink_metadata metadata {Net} {N : IpNetOps Net} {Value} (spec : LaunchSpec Value) :
  validate symlink_metadata metadata spec = Ok tt ->
  disjoint_paths (map source (workspace_shares spec)) /\
  Forall (fun s => metadata (source s) = Ok IsDir /\ guest_owned_collision (source s) = None /\
    exists plan, mount_plan s = Some plan /\ components (target plan) = components (source s)) (workspace_shares spec).
Proof.
  intros H%validate_validated. destruct H as [_ _ _ _ _ _ _ Hsh Hw _ _]. split; [done|].
  apply Forall_forall. intros s Hin. apply list_elem_of_In, filter_In in Hin as [Hin Ht].
  apply list_elem_of_In in Hin. rewrite Forall_forall in Hsh. eapply workspace_mirrors; [by apply Hsh|done].
Qed.

(** No two volumes of an accepted specification share a label, which is what the guest mounts by, or an image path. *)
Theorem validate_volumes_unambiguous symlink_metadata metadata {Net} {N : IpNetOps Net} {Value} (spec : LaunchSpec Value) :
  validate symlink_metadata metadata spec = Ok tt ->
  NoDup (map label (volumes spec)) /\ NoDup (map components (map path (volumes spec))).
Proof. intros H%validate_validated. by destruct H. Qed.

(** A handoff whose version can be read and is not this one is reported as skew with both numbers, whatever else it
    holds; and a specification that comes back is of this version and validated. *)
Theorem from_json_checks_the_version symlink_metadata metadata {Net} {N : IpNetOps Net} {Value}
    (version_of : bytes -> option Z) (decode : bytes -> option (LaunchSpec Value)) raw :
  (forall v, version_of raw = Some v -> v <> LAUNCH_SCHEMA_VERSION ->
     from_json symlink_metadata metadata version_of decode raw = Err (SchemaSkew v LAUNCH_SCHEMA_VERSION)) /\
  (forall spec, from_json symlink_metadata metadata version_of decode raw = Ok spec ->
     decode raw = Some spec /\ spec_version spec = LAUNCH_SCHEMA_VERSION /\ validated symlink_metadata metadata spec).
Proof.
  split.
  - intros v Hv Hne. unfold from_json. rewrite Hv. apply Z.eqb_neq in Hne. by rewrite Hne.
  - intros spec H. unfold from_json in H. inv_ok.
    match goal with Hv : validate _ _ _ = Ok _ |- _ => apply validate_validated in Hv as Hval end.
    split_and!; [done| |done]. by destruct Hval.
Qed.

(* ------------------------------------------------------------------ *)
(** ** Witnesses *)

Definition demo_root : bytes := bs "/run/user/1000/vivarium/p/t".
Definition demo_child (name : string) : bytes := join demo_root (bs name).
Definition demo_program (name : string) : bytes := join (bs "/nix/store/a/bin") (bs name).
Definition demo_share (t : string) (src : bytes) (plan : option MountPlan) : ShareSpec :=
  mk_ShareSpec (bs t) src (bs "/run/vivarium-mounts/m") (demo_child t) (bs "auto") false plan [].
Definition demo_paths (lock : bytes) : RuntimePaths :=
  mk_RuntimePaths demo_root (demo_child "launch.json") lock (demo_child "ready.sock") (demo_child "api.sock")
    (demo_child "console.sock") (demo_child "console.log") (demo_child "control.sock") (demo_child "vm.pid")
    (demo_child "boot.json") (demo_child "vm-create.json").
Definition demo_spec (lock : bytes) : LaunchSpec unit := {|
  spec_version := 12; sandbox_id := bs "p"; spec_target := bs "t"; runtime_paths := demo_paths lock;
  backend_programs := mk_BackendPrograms (demo_program "cloud-hypervisor") (demo_program "ch-remote")
    (demo_program "virtiofsd") (demo_program "setpriv") (demo_program "truncate") (demo_program "mkfs.ext4")
    (demo_program "systemd-run") (bs "/usr/bin/vivarium-supervisor") (demo_program "unshare") (demo_program "nsenter")
    (demo_program "ip") (demo_program "nft") (demo_program "pasta") (demo_program "sleep");
  socket_legs := mk_SocketLegs (demo_child "api.sock") (demo_child "console.sock")
    [mk_CredentialSpec Ssh (bs "/run/user/1000/ssh-agent")];
  resources := mk_ResourceSpec 2 2048 100; descriptor_budget := default_budget;
  identity_translation := mk_IdentityTranslation 1000 1000 1000 1000 65534 65534 65535;
  guest_session := mk_GuestSession (bs "vivarium") (bs "/home/vivarium") (bs "/bin/sh") (bs "/bin");
  egress := mk_EgressSpec AllowlistMode [bs "*.example.com"];
  network := mk_NetworkSpec (bs "viv0") (V4 3232235777) 24 (V4 3232235778) (V4 167772161)
    (bs "02:56:49:56:41:00") 53;
  shares := [ demo_share "store" (bs "/nix/store") None;
              demo_share "mnt0" (bs "/srv/pkg@1.0") (Some (mk_MountPlan Tree None (bs "/srv/pkg@1.0/")));
              demo_share "mnt1" (bs "/data/a b") (Some (mk_MountPlan File (Some (bs "a%20b")) (bs "/etc/ab"))) ];
  volumes := [mk_VolumeSpec (bs "home") (bs "/var/lib/v/home.img") 1024 (bs "raw") None];
  vm_create := tt; landlock_available := true; console_log_enabled := true |}.
Definition demo_links (p : bytes) : result link_kind fs_error := Ok IsSocket.
Definition demo_files (p : bytes) : result file_kind fs_error :=
  if bytes_eqb p (bs "/data/a b") then Ok IsFile else Ok IsDir.
Definition demo_valid := demo_spec (demo_child "lock").

Lemma demo_validates : validate demo_links demo_files demo_valid = Ok tt.
Proof. vm_compute. reflexivity. Qed.

Lemma guest_allowance_spec_witness : guest_allowance default_budget = Ok 523678.
Proof. apply (guest_allowance_spec default_budget 523678); vm_compute; [discriminate|discriminate|auto]. Defined.

Lemma validate_endpoints_witness : NoDup (map components (endpoints demo_valid)).
Proof. exact (proj1 (validate_endpoints demo_links demo_files demo_valid demo_validates)). Defined.
Lemma validate_shares_witness : NoDup (map tag (shares demo_valid)).
Proof. exact (proj1 (validate_shares demo_links demo_files demo_valid demo_validates)). Defined.
Lemma validate_workspaces_mirror_witness : disjoint_paths [bs "/srv/pkg@1.0"].
Proof.
  exact (proj1 (validate_workspaces_mirror demo_links demo_files demo_valid demo_validates)).
Defined.
Lemma validate_volumes_unambiguous_witness : NoDup [bs "home"].
Proof.
  exact (proj1 (validate_volumes_unambiguous demo_links demo_files demo_valid demo_validates)).
Defined.
Definition demo_version (raw : bytes) : option Z := match raw with [] => None | b :: _ => Some (bz b) end.
Lemma from_json_checks_the_version_witness :
  from_json demo_links demo_files demo_version (fun _ => Some demo_valid) [x0b] = Err (SchemaSkew 11 12).
Proof.
  apply (from_json_checks_the_version demo_links demo_files demo_version (fun _ => Some demo_valid) [x0b]);
    [reflexivity|discriminate].
Defined.

(** The runtime files are not held distinct from one another: a record whose lock is its boot record validates. *)
Theorem runtime_files_may_coincide :
  exists spec : LaunchSpec unit, validate demo_links demo_files spec = Ok tt /\
    lock (runtime_paths spec) = boot_json (runtime_paths spec).
Proof. exists (demo_spec (demo_child "boot.json")). split; [vm_compute|]; reflexivity. Qed.
