(* ===== verification/Credentials.v ===== *)
(** * Credentials: the parked credential pool, both ends
    (src/src/bin/vivarium-guest-agent/credentials.rs, src/src/launch/credentials.rs).

    In the guest, every host-opened connection is a task that names its credential, waits for one of the channel's
    permits, acknowledges and parks; [serve_local] takes parked streams in order, one per local client.  On the host,
    each of a credential's workers keeps one such stream established.  Events are what the runtime and the peers do
    next; the runs are those before the cancellation, which ends both sides. *)
From S2P Require Import Prelude Bytes Message Frame Hybrid Agent.

(* ------------------------------------------------------------------ *)
(** ** The guest's arguments *)

Inductive ArgumentError := UnsupportedArgument | MissingId | InvalidId | DuplicateId.
Fixpoint parse_credentials_from (seen : list CredentialId) (arguments : list bytes)
    : result (list CredentialId) ArgumentError :=
  match arguments with
  | [] => Ok seen
  | argument :: rest =>
      let? _ := guard_err (negb (bytes_eqb argument (bs "--credential"))) UnsupportedArgument in
      match rest with
      | [] => Err MissingId
      | value :: rest =>
          let? id := map_err (fun _ => InvalidId) (credential_from_str value) in
          let? _ := guard_err (bool_decide (id ∈ seen)) DuplicateId in
          parse_credentials_from (seen ++ [id]) rest
      end
  end.
Definition parse_credentials : list bytes -> result (list CredentialId) ArgumentError := parse_credentials_from [].

(* ------------------------------------------------------------------ *)
(** ** The guest: [run] and [serve_local] *)

Inductive slot :=
| Reading                               (* waiting for the setup byte *)
| Reserving (id : CredentialId)         (* waiting for a permit of the id's channel *)
| Acking (id : CredentialId)            (* holding one, writing the acknowledgement *)
| Parked (id : CredentialId)            (* in the channel *)
| Held (id : CredentialId)              (* taken by [serve_local], no client yet *)
| Relaying (id : CredentialId) (client : nat)
| Dropped.
#[export] Instance slot_eq_dec : EqDecision slot.
Proof. solve_decision. Defined.

(** A host-opened connection: its peer, the setup byte it was read, whether it was acknowledged. *)
Record stream := mk_stream { st_cid : Z; st_setup : option byte; st_acked : bool; st_slot : slot }.
Record pool := mk_pool {
  streams : list stream;
  queue : CredentialId -> list nat;       (* the channels, oldest first *)
  clients : nat;                          (* local clients accepted so far *)
  relays : list (CredentialId * nat * nat)  (* every client served: its credential, stream and number *) }.
Definition pool_start : pool := mk_pool [] (fun _ => []) 0 [].

Inductive pool_event :=
| HostAccepted (cid : Z)                (* the vsock listener accepted a peer *)
| SetupRead (i : nat) (r : option byte) (* [read_u8], [None] on an error *)
| PermitReserved (i : nat)
| AckWritten (i : nat) (ok : bool)
| StreamTaken (id : CredentialId)       (* [parked.recv()] *)
| ClientAccepted (i : nat) (ok : bool)  (* the local listener's [accept], for the held stream *)
| RelayEnded (i : nat).

Definition id_eqb (a b : CredentialId) : bool := bool_decide (a = b).
Definition with_queue (id : CredentialId) (q : list nat) (f : CredentialId -> list nat) : CredentialId -> list nat :=
  fun id' => if id_eqb id' id then q else f id'.
Definition set_stream (i : nat) (st : stream) (s : pool) : pool :=
  mk_pool (<[i := st]> (streams s)) (queue s) (clients s) (relays s).
Definition move (i : nat) (st : stream) (p : slot) (s : pool) : pool :=
  set_stream i (mk_stream (st_cid st) (st_setup st) (st_acked st) p) s.

(** Streams of the list in the given slot. *)
Definition in_slot (p : slot) (l : list stream) : nat := length (filter (fun st => st_slot st = p) l).
(** Permits of an id's channel in use: reserved ones and messages not yet received. *)
Definition permits_used (id : CredentialId) (s : pool) : nat :=
  (in_slot (Acking id) (streams s) + length (queue s id))%nat.

Section guest.
Context (declared : CredentialId -> bool).

(** [senders.get(id)] of the byte read. *)
Definition sender_of (r : option byte) : option CredentialId :=
  let* b := r in let* id := ok (from_setup_byte b) in if declared id then Some id else None.

Definition pool_next (s : pool) (e : pool_event) : option pool :=
  match e with
  | HostAccepted cid =>
      Some (if cid =? VMADDR_CID_HOST
            then mk_pool (streams s ++ [mk_stream cid None false Reading]) (queue s) (clients s) (relays s)
            else s)
  | SetupRead i r =>
      let* st := streams s !! i in
      match st_slot st with
      | Reading =>
          let slot := match sender_of r with Some id => Reserving id | None => Dropped end in
          Some (set_stream i (mk_stream (st_cid st) r (st_acked st) slot) s)
      | _ => None
      end
  | PermitReserved i =>
      let* st := streams s !! i in
      match st_slot st with
      | Reserving id =>
          if Z.of_nat (permits_used id s) <? CREDENTIAL_POOL_SIZE then Some (move i st (Acking id) s) else None
      | _ => None
      end
  | AckWritten i written =>
      let* st := streams s !! i in
      match st_slot st with
      | Acking id =>
          Some (if (written : bool)
                then mk_pool (<[i := mk_stream (st_cid st) (st_setup st) true (Parked id)]> (streams s))
                       (with_queue id (queue s id ++ [i]) (queue s)) (clients s) (relays s)
                else move i st Dropped s)
      | _ => None
      end
  | StreamTaken id =>
      match in_slot (Held id) (streams s), queue s id with
      | O, i :: rest =>
          let* st := streams s !! i in
          let s' := move i st (Held id) s in
          Some (mk_pool (streams s') (with_queue id rest (queue s)) (clients s) (relays s))
      | _, _ => None
      end
  | ClientAccepted i accepted =>
      let* st := streams s !! i in
      match st_slot st with
      | Held id =>
          let s' := move i st (if (accepted : bool) then Relaying id (clients s) else Dropped) s in
          Some (if (accepted : bool)
                then mk_pool (streams s') (queue s) (S (clients s)) (relays s ++ [(id, i, clients s)])
                else s')
      | _ => None
      end
  | RelayEnded i =>
      let* st := streams s !! i in
      match st_slot st with Relaying _ _ => Some (move i st Dropped s) | _ => None end
  end.
Definition pool_step (s : pool) (e : pool_event) (s' : pool) : Prop := pool_next s e = Some s'.
Fixpoint pool_run (events : list pool_event) (s : pool) : option pool :=
  match events with [] => Some s | e :: events => let* s' := pool_next s e in pool_run events s' end.
End guest.

(* ------------------------------------------------------------------ *)
(** ** The host: [establish], [worker] and [start] *)

(** [socket] is what connecting to the control socket answers, [host] what connecting to the agent socket does.  The
    read of the acknowledgement has no deadline of its own. *)
Definition establish (late : bool) (socket : result chan io_error) (id : CredentialId) (host : result unit io_error)
    : result chan (stop unit) :=
  let drop_error (e : stop HybridError) := match e with Failed _ => Failed tt | Blocks => Blocks end in
  let? guest := map_err drop_error (connect late socket CREDENTIAL_PORT) in
  match (send_raw (fun _ => tt) [setup_byte id] ;; smap_err drop_error read_u8) guest with
  | (Err e, _) => Err e
  | (Ok ack, guest) =>
      let? _ := guard_err (negb (bool_decide (ack = CREDENTIAL_PARKED_ACK))) (Failed tt) in
      let? _ := map_err (fun _ => Failed tt) host in
      Ok guest
  end.

Inductive worker_phase := Establishing | Relay | Retrying | WorkerEnded.
(** [wk_established] counts the streams this worker has established. *)
Record worker := mk_worker { wk_phase : worker_phase; wk_announced : bool; wk_established : nat }.
Definition worker_start : worker := mk_worker Establishing false 0.

Inductive worker_event :=
| Established (r : result unit unit)   (* [establish] returned *)
| RelayOver                            (* [copy_bidirectional] returned *)
| RetryElapsed.                        (* [RETRY_INTERVAL] passed *)
(** One turn of a worker; whether it sent on [ready].  The receiver outlives the wait in [start]. *)
Definition worker_next (w : worker) (e : worker_event) : option (worker * bool) :=
  match wk_phase w, e with
  | Establishing, Established (Ok _) =>
      Some (mk_worker Relay true (S (wk_established w)), negb (wk_announced w))
  | Establishing, Established (Err _) => Some (mk_worker Retrying (wk_announced w) (wk_established w), false)
  | Relay, RelayOver => Some (mk_worker Establishing (wk_announced w) (wk_established w), false)
  | Retrying, RetryElapsed => Some (mk_worker Establishing (wk_announced w) (wk_established w), false)
  | _, _ => None
  end.

(** The pool [start] spawns, and the messages sent on [ready]. *)
Definition worker_count (credentials : nat) : nat := (credentials * Z.to_nat CREDENTIAL_POOL_SIZE)%nat.
Record launch_pool := mk_launch_pool { workers : list worker; announced : nat }.
Definition start_pool (credentials : nat) : launch_pool :=
  mk_launch_pool (replicate (worker_count credentials) worker_start) 0.
Definition launch_next (s : launch_pool) (e : nat * worker_event) : option launch_pool :=
  let* w := workers s !! fst e in
  let* (w', sent) := worker_next w (snd e) in
  Some (mk_launch_pool (<[fst e := w']> (workers s)) (announced s + if (sent : bool) then 1 else 0)).
Definition launch_step (s : launch_pool) (e : nat * worker_event) (s' : launch_pool) : Prop :=
  launch_next s e = Some s'.
(** [start] returns the handles once it has received [count] messages. *)
Definition start_ready (credentials : nat) (s : launch_pool) : bool := (worker_count credentials <=? announced s)%nat.

(** * Credentials: the pool is bounded, and a parked stream serves one client.

    The invariant of the guest's pool, what [establish] consumes of the stream it hands to the relay, and that [start]
    returns only after every worker has had a stream established. *)

#[local] Arguments bs : simpl never.
#[local] Arguments dec : simpl never.

(* ------------------------------------------------------------------ *)
(** ** Counting slots *)

Lemma in_slot_app p l r : in_slot p (l ++ r) = (in_slot p l + in_slot p r)%nat.
Proof. unfold in_slot. by rewrite filter_app, length_app. Qed.
Lemma in_slot_cons p st l :
  in_slot p (st :: l) = ((if decide (st_slot st = p) then 1 else 0) + in_slot p l)%nat.
Proof. unfold in_slot. rewrite filter_cons. by case_decide. Qed.
Lemma in_slot_insert p l i st st' :
  l !! i = Some st ->
  (in_slot p (<[i := st']> l) + (if decide (st_slot st = p) then 1 else 0) =
   in_slot p l + (if decide (st_slot st' = p) then 1 else 0))%nat.
Proof. intros Hl. exact (length_filter_insert (fun st => st_slot st = p) l i st st' Hl). Qed.
Lemma in_slot_zero p l i st : in_slot p l = 0%nat -> l !! i = Some st -> st_slot st <> p.
Proof.
  intros Hz Hl Hp. pose proof (in_slot_insert p l i st st Hl) as H.
  pose proof (take_drop_middle l i st Hl) as E. rewrite <- E, in_slot_app, in_slot_cons, decide_True in Hz by done. lia.
Qed.

(* ------------------------------------------------------------------ *)
(** ** The guest's invariant *)

Definition slot_id (p : slot) : option CredentialId :=
  match p with Reserving id | Acking id | Parked id | Held id | Relaying id _ => Some id | Reading | Dropped => None end.
Definition slot_acked (p : slot) : bool :=
  match p with Parked _ | Held _ | Relaying _ _ => true | _ => false end.

Section guest.
Context (declared : CredentialId -> bool).

(** Host-opened; in a slot of the credential its byte named; acknowledged before it is parked. *)
Definition stream_ok (st : stream) : Prop :=
  st_cid st = VMADDR_CID_HOST /\
  (forall id, slot_id (st_slot st) = Some id -> declared id = true /\ st_setup st = Some (setup_byte id)) /\
  (slot_acked (st_slot st) = true -> st_acked st = true).
(** A client's stream was acknowledged for its credential, and is the client's or gone. *)
Definition relay_ok (s : pool) (r : CredentialId * nat * nat) : Prop :=
  let '(id, i, c) := r in
  (c < clients s)%nat /\ declared id = true /\
  exists st, streams s !! i = Some st /\ st_cid st = VMADDR_CID_HOST /\ st_setup st = Some (setup_byte id) /\
    st_acked st = true /\ (st_slot st = Relaying id c \/ st_slot st = Dropped).

Record pool_inv (s : pool) : Prop := {
  pi_streams : Forall stream_ok (streams s);
  pi_queue : forall id i, i ∈ queue s id <-> exists st, streams s !! i = Some st /\ st_slot st = Parked id;
  pi_nodup : forall id, NoDup (queue s id);
  pi_permits : forall id, Z.of_nat (permits_used id s) <= CREDENTIAL_POOL_SIZE;
  pi_held : forall id, (in_slot (Held id) (streams s) <= 1)%nat;
  pi_relays : Forall (relay_ok s) (relays s);
  pi_relay_streams : NoDup (map (fun r => r.1.2) (relays s));
  pi_relay_clients : NoDup (map snd (relays s)) }.

(** A change of one stream that keeps it out of the queue, and out of its permits. *)
Lemma move_inv s i st st' :
  pool_inv s -> streams s !! i = Some st -> stream_ok st' ->
  (forall id, st_slot st <> Parked id) -> (forall id, st_slot st' <> Parked id) ->
  (forall id, Z.of_nat (permits_used id (set_stream i st' s)) <= CREDENTIAL_POOL_SIZE) ->
  (forall id, st_slot st' <> Held id) ->
  (forall id c, (id, i, c) ∈ relays s -> st_slot st' = Dropped /\ st_cid st' = st_cid st /\
     st_setup st' = st_setup st /\ st_acked st' = st_acked st) ->
  pool_inv (set_stream i st' s).
Proof.
  intros Hinv Hl Hok Hnp Hnp' Hperm Hnh Hrel. destruct Hinv as [Hs Hq Hnd Hp Hh Hr Hrs Hrc].
  constructor; try done; cbn [set_stream streams queue relays clients].
  - by apply Forall_insert.
  - intros id j. rewrite Hq. destruct (decide (i = j)) as [->|Hij].
    + rewrite list_lookup_insert_eq by (by eapply lookup_lt_Some). rewrite Hl. naive_solver.
    + by rewrite list_lookup_insert_ne.
  - intros id. pose proof (in_slot_insert (Held id) _ _ _ st' Hl) as H. specialize (Hh id).
    rewrite (decide_False (P := st_slot st' = Held id)) in H by done. case_decide; lia.
  - apply Forall_forall. intros [[id j] c] Hin. rewrite Forall_forall in Hr.
    destruct (Hr _ Hin) as (Hc & Hd & st0 & Hl0 & ? & ? & ? & ?). split_and!; [done..|].
    destruct (decide (i = j)) as [->|Hij]; [|exists st0; cbn [set_stream streams]; by rewrite list_lookup_insert_ne].
    rewrite Hl in Hl0. injection Hl0 as <-. destruct (Hrel id c Hin) as (? & ? & ? & ?).
    exists st'. cbn [set_stream streams]. rewrite list_lookup_insert_eq by (by eapply lookup_lt_Some). split_and!; [done|congruence..|by right].
Qed.

Lemma permits_set_stream id i st st' s :
  streams s !! i = Some st ->
  (permits_used id (set_stream i st' s) + (if decide (st_slot st = Acking id) then 1 else 0) =
   permits_used id s + (if decide (st_slot st' = Acking id) then 1 else 0))%nat.
Proof.
  intros Hl. unfold permits_used. cbn [set_stream streams queue].
  pose proof (in_slot_insert (Acking id) _ _ _ st' Hl). lia.
Qed.

Lemma accepted_inv s :
  pool_inv s ->
  pool_inv (mk_pool (streams s ++ [mk_stream VMADDR_CID_HOST None false Reading]) (queue s) (clients s) (relays s)).
Proof.
  intros [Hs Hq Hnd Hp Hh Hr Hrs Hrc]. constructor; try done; cbn [streams queue relays clients].
  - apply Forall_app. split; [done|]. constructor; [done|constructor].
  - intros id j. rewrite Hq. split; intros (st & Hl & Hst); exists st; (split; [|done]).
    + by apply lookup_app_l_Some.
    + apply lookup_app_Some in Hl as [Hl|[_ Hl]]; [done|]. apply list_lookup_singleton_Some in Hl as [_ <-]. done.
  - intros id. specialize (Hp id). unfold permits_used in *. cbn [streams queue]. 
    rewrite in_slot_app, in_slot_cons, decide_False by done. unfold in_slot at 2. rewrite filter_nil. cbn [length]. lia.
  - intros id. specialize (Hh id).
    rewrite in_slot_app, in_slot_cons, decide_False by done. unfold in_slot at 2. rewrite filter_nil. cbn [length]. lia.
  - eapply Forall_impl; [exact Hr|]. intros [[id j] c] (Hc & Hd & st & Hl & ?). split_and!; [done..|].
    exists st. split; [by apply lookup_app_l_Some|done].
Qed.

Lemma not_relayed s i st id c :
  pool_inv s -> streams s !! i = Some st -> (id, i, c) ∈ relays s ->
  st_slot st = Relaying id c \/ st_slot st = Dropped.
Proof.
  intros Hinv Hl Hin. pose proof (pi_relays _ Hinv) as Hr. rewrite Forall_forall in Hr.
  destruct (Hr _ Hin) as (_ & _ & st0 & Hl0 & _ & _ & _ & H). congruence.
Qed.

(** The transitions that only change one stream's slot. *)
Lemma quiet_inv s i st st' :
  pool_inv s -> streams s !! i = Some st -> stream_ok st' ->
  (forall id, st_slot st <> Parked id) -> st_slot st <> Dropped ->
  (slot_acked (st_slot st') = false \/ st_slot st' = Dropped) ->
  (forall id c, st_slot st = Relaying id c -> st' = mk_stream (st_cid st) (st_setup st) (st_acked st) Dropped) ->
  (forall id, st_slot st' = Acking id -> (Z.of_nat (permits_used id s) < CREDENTIAL_POOL_SIZE)) ->
  pool_inv (set_stream i st' s).
Proof.
  intros Hinv Hl Hok Hnp Hnd Hst' Hrel Hack.
  apply (move_inv s i st st'); try done.
  - intros id E. rewrite E in Hst'. by destruct Hst'.
  - intros id. pose proof (permits_set_stream id i st st' s Hl) as Hp. pose proof (pi_permits _ Hinv id) as Hb.
    specialize (Hack id).
    destruct (decide (st_slot st' = Acking id)) as [E|E]; [specialize (Hack E)|]; case_decide; lia.
  - intros id E. rewrite E in Hst'. by destruct Hst'.
  - intros id c Hin. destruct (not_relayed s i st id c Hinv Hl Hin) as [E|E]; [|done].
    by rewrite (Hrel id c E).
Qed.

Lemma with_queue_eq id q f : with_queue id q f id = q.
Proof. unfold with_queue, id_eqb. by rewrite bool_decide_true. Qed.
Lemma with_queue_ne id id' q f : id' <> id -> with_queue id q f id' = f id'.
Proof. intros. unfold with_queue, id_eqb. by rewrite bool_decide_false. Qed.

(** Relays stay as they are while the changed stream is not one of theirs. *)
Lemma relays_kept s i st st' queue' :
  pool_inv s -> streams s !! i = Some st -> slot_acked (st_slot st') = true \/ st_slot st' = Dropped ->
  (forall id c, st_slot st <> Relaying id c) -> st_slot st <> Dropped ->
  Forall (relay_ok (mk_pool (<[i := st']> (streams s)) queue' (clients s) (relays s))) (relays s).
Proof.
  intros Hinv Hl _ Hnr Hnd. apply Forall_forall. intros [[id j] c] Hin.
  assert (i <> j) as Hij.
  { intros ->. destruct (not_relayed s j st id c Hinv Hl Hin); [by eapply Hnr|done]. }
  pose proof (pi_relays _ Hinv) as Hr. rewrite Forall_forall in Hr.
  destruct (Hr _ Hin) as (? & ? & st0 & Hl0 & ?). split_and!; [done..|].
  exists st0. cbn [streams]. by rewrite list_lookup_insert_ne.
Qed.

Lemma park_inv s i st id :
  pool_inv s -> streams s !! i = Some st -> st_slot st = Acking id ->
  pool_inv (mk_pool (<[i := mk_stream (st_cid st) (st_setup st) true (Parked id)]> (streams s))
              (with_queue id (queue s id ++ [i]) (queue s)) (clients s) (relays s)).
Proof.
  intros Hinv Hl Hst. pose proof Hinv as [Hs Hq Hnd Hp Hh Hr Hrs Hrc].
  pose proof (Forall_lookup_1 _ _ _ _ Hs Hl) as (Hcid & Hid & _). rewrite Hst in Hid.
  assert (Hi : i ∉ queue s id) by (rewrite Hq; intros (st0 & Hl0 & Hp0); congruence).
  constructor; try done; cbn [streams queue relays clients].
  - apply Forall_insert; [done|]. split_and!; [done| |done]. cbn. intros ? [= <-]. by apply Hid.
  - intros id' j. destruct (decide (id' = id)) as [->|Hne].
    + rewrite with_queue_eq, elem_of_app, list_elem_of_singleton, Hq. destruct (decide (i = j)) as [->|Hij].
      * rewrite list_lookup_insert_eq by (by eapply lookup_lt_Some). split; [intros _; by eexists|by right].
      * rewrite list_lookup_insert_ne by done. split; [intros [?|?]; [done|congruence]|by left].
    + rewrite with_queue_ne, Hq by done. destruct (decide (i = j)) as [->|Hij].
      * rewrite list_lookup_insert_eq by (by eapply lookup_lt_Some). rewrite Hl. split; intros (st0 & [= <-] & Hp0); cbn in Hp0; congruence.
      * by rewrite list_lookup_insert_ne.
  - intros id'. destruct (decide (id' = id)) as [->|Hne]; [|by rewrite with_queue_ne].
    rewrite with_queue_eq. by apply NoDup_snoc_fresh.
  - intros id'. specialize (Hp id'). unfold permits_used in *. cbn [streams queue].
    pose proof (in_slot_insert (Acking id') _ _ _ (mk_stream (st_cid st) (st_setup st) true (Parked id)) Hl) as H.
    rewrite Hst in H. rewrite (decide_False (P := st_slot (mk_stream _ _ _ _) = _)) in H by done.
    destruct (decide (id' = id)) as [->|Hne].
    + rewrite with_queue_eq, length_app. rewrite decide_True in H by done. cbn [length]. lia.
    + rewrite with_queue_ne by done. rewrite decide_False in H by congruence. lia.
  - intros id'. specialize (Hh id').
    pose proof (in_slot_insert (Held id') _ _ _ (mk_stream (st_cid st) (st_setup st) true (Parked id)) Hl) as H.
    rewrite (decide_False (P := st_slot (mk_stream _ _ _ _) = _)) in H by done. lia.
  - by apply relays_kept with (st := st); [..|by left| |]; rewrite ?Hst.
Qed.

Lemma take_inv s i st id rest :
  pool_inv s -> queue s id = i :: rest -> in_slot (Held id) (streams s) = 0%nat -> streams s !! i = Some st ->
  pool_inv (mk_pool (<[i := mk_stream (st_cid st) (st_setup st) (st_acked st) (Held id)]> (streams s))
              (with_queue id rest (queue s)) (clients s) (relays s)).
Proof.
  intros Hinv Hqi Hz Hl. pose proof Hinv as [Hs Hq Hnd Hp Hh Hr Hrs Hrc].
  assert (Hst : st_slot st = Parked id).
  { destruct (proj1 (Hq id i)) as (st0 & Hl0 & Hp0); [rewrite Hqi; left|congruence]. }
  pose proof (Forall_lookup_1 _ _ _ _ Hs Hl) as (Hcid & Hid & Hack). rewrite Hst in Hid, Hack.
  pose proof (Hnd id) as Hn. rewrite Hqi in Hn. apply NoDup_cons in Hn as [Hi Hn].
  constructor; try done; cbn [streams queue relays clients].
  - apply Forall_insert; [done|]. split_and!; [done|by cbn|by cbn; intros _; apply Hack].
  - intros id' j. destruct (decide (i = j)) as [->|Hij].
    + rewrite list_lookup_insert_eq by (by eapply lookup_lt_Some). destruct (decide (id' = id)) as [->|Hne].
      * rewrite with_queue_eq. split; [done|intros (st0 & [= <-] & Hp0); done].
      * rewrite with_queue_ne, Hq, Hl by done. split; intros (st0 & [= <-] & Hp0); cbn in Hp0; congruence.
    + rewrite list_lookup_insert_ne by done. destruct (decide (id' = id)) as [->|Hne].
      * rewrite with_queue_eq, <- Hq, Hqi, elem_of_cons. split; [by right|intros [?|?]; [congruence|done]].
      * by rewrite with_queue_ne.
  - intros id'. destruct (decide (id' = id)) as [->|Hne]; [by rewrite with_queue_eq|by rewrite with_queue_ne].
  - intros id'. specialize (Hp id'). unfold permits_used in *. cbn [streams queue].
    pose proof (in_slot_insert (Acking id') _ _ _ (mk_stream (st_cid st) (st_setup st) (st_acked st) (Held id)) Hl) as H.
    rewrite (decide_False (P := st_slot (mk_stream _ _ _ _) = _)) in H by done.
    destruct (decide (id' = id)) as [->|Hne].
    + rewrite with_queue_eq. rewrite Hqi in Hp. cbn [length] in Hp. lia.
    + rewrite with_queue_ne by done. lia.
  - intros id'. specialize (Hh id').
    pose proof (in_slot_insert (Held id') _ _ _ (mk_stream (st_cid st) (st_setup st) (st_acked st) (Held id)) Hl) as H.
    cbn [st_slot] in H. destruct (decide (id' = id)) as [->|Hne]; [repeat case_decide; lia|].
    rewrite (decide_False (P := Held id = Held id')) in H by congruence. lia.
  - by apply relays_kept with (st := st); [..|by left| |]; rewrite ?Hst.
Qed.

Lemma serve_inv s i st id :
  pool_inv s -> streams s !! i = Some st -> st_slot st = Held id ->
  pool_inv (mk_pool (<[i := mk_stream (st_cid st) (st_setup st) (st_acked st) (Relaying id (clients s))]> (streams s))
              (queue s) (S (clients s)) (relays s ++ [(id, i, clients s)])).
Proof.
  intros Hinv Hl Hst. pose proof Hinv as [Hs Hq Hnd Hp Hh Hr Hrs Hrc].
  set (st' := mk_stream (st_cid st) (st_setup st) (st_acked st) (Relaying id (clients s))).
  pose proof (Forall_lookup_1 _ _ _ _ Hs Hl) as (Hcid & Hid & Hack). rewrite Hst in Hid, Hack.
  assert (Hkept : Forall (relay_ok (mk_pool (<[i := st']> (streams s)) (queue s) (clients s) (relays s))) (relays s))
    by (by apply relays_kept with (st := st); [..|by left| |]; rewrite ?Hst).
  constructor; try done; cbn [streams queue relays clients].
  - apply Forall_insert; [done|]. split_and!; [done|by cbn|by cbn; intros _; apply Hack].
  - intros id' j. rewrite Hq. destruct (decide (i = j)) as [->|Hij]; [|by rewrite list_lookup_insert_ne].
    rewrite list_lookup_insert_eq, Hl by (by eapply lookup_lt_Some).
    split; intros (st0 & [= <-] & Hp0); cbn in Hp0; congruence.
  - intros id'. specialize (Hp id'). unfold permits_used in *. cbn [streams queue].
    pose proof (in_slot_insert (Acking id') _ _ _ st' Hl) as H. rewrite (decide_False (P := st_slot st' = _)) in H by done. lia.
  - intros id'. specialize (Hh id').
    pose proof (in_slot_insert (Held id') _ _ _ st' Hl) as H. rewrite (decide_False (P := st_slot st' = _)) in H by done. lia.
  - apply Forall_app. split.
    + eapply Forall_impl; [exact Hkept|]. intros [[id' j] c] (Hc & ? & Hx). cbn [clients] in Hc.
      split_and!; [cbn [clients]; lia|done|exact Hx].
    + constructor; [|constructor]. split_and!; [cbn [clients]; lia|by apply Hid|].
      exists st'. cbn [streams]. rewrite list_lookup_insert_eq by (by eapply lookup_lt_Some).
      split_and!; [done|done|by apply Hid|by apply Hack|by left].
  - rewrite map_app. apply NoDup_snoc_fresh; [done|]. intros Hin. apply list_elem_of_fmap in Hin as ([[id' j] c] & Hj & Hin).
    cbn in Hj. subst j. destruct (not_relayed s i st id' c Hinv Hl Hin); congruence.
  - rewrite map_app. apply NoDup_snoc_fresh; [done|]. intros Hin. apply list_elem_of_fmap in Hin as ([[id' j] c] & Hj & Hin).
    cbn in Hj. subst c. rewrite Forall_forall in Hr. destruct (Hr _ Hin) as (Hc & _). lia.
Qed.

Lemma sender_of_ok r id : sender_of declared r = Some id -> declared id = true /\ r = Some (setup_byte id).
Proof.
  unfold sender_of. destruct r as [b|]; [|done]. cbn [option_bind].
  destruct (from_setup_byte b) as [id'|] eqn:E; [|done]. cbn [ok option_bind].
  destruct (declared id') eqn:Ed; [|done]. intros [= <-]. apply from_setup_byte_ok in E as ->. done.
Qed.

Lemma pool_start_inv : pool_inv pool_start.
Proof.
  constructor; cbn [pool_start streams queue relays clients map]; intros; try constructor; try done.
  - by intros ?%not_elem_of_nil.
  - by intros (st & Hl & _).
Qed.

Lemma pool_step_inv s e s' : pool_inv s -> pool_step declared s e s' -> pool_inv s'.
Proof.
  intros Hinv Hstep. unfold pool_step, pool_next in Hstep.
  destruct e as [cid|i r|i|i written|id|i accepted|i].
  - injection Hstep as <-. destruct (Z.eqb_spec cid VMADDR_CID_HOST) as [->|]; [by apply accepted_inv|done].
  - destruct (streams s !! i) as [st|] eqn:Hl; [|done]. cbn in Hstep. destruct (st_slot st) eqn:Hst; try done.
    injection Hstep as <-. pose proof (Forall_lookup_1 _ _ _ _ (pi_streams _ Hinv) Hl) as (Hcid & _ & _).
    destruct (sender_of declared r) as [id|] eqn:Es; apply quiet_inv with (st := st); rewrite ?Hst; try done; try by left.
    apply sender_of_ok in Es as [Hd ->]. split_and!; [done| |done]. cbn. by intros ? [= <-].
  - destruct (streams s !! i) as [st|] eqn:Hl; [|done]. cbn in Hstep. destruct (st_slot st) eqn:Hst; try done.
    destruct (Z.ltb_spec (Z.of_nat (permits_used id s)) CREDENTIAL_POOL_SIZE) as [Hlt|]; [|done]. injection Hstep as <-.
    pose proof (Forall_lookup_1 _ _ _ _ (pi_streams _ Hinv) Hl) as (Hcid & Hid & _). rewrite Hst in Hid.
    apply quiet_inv with (st := st); rewrite ?Hst; try done; [by left|]. intros ? [= <-]. done.
  - destruct (streams s !! i) as [st|] eqn:Hl; [|done]. cbn in Hstep. destruct (st_slot st) eqn:Hst; try done.
    injection Hstep as <-. destruct written; [by apply park_inv|].
    pose proof (Forall_lookup_1 _ _ _ _ (pi_streams _ Hinv) Hl) as (Hcid & _ & _).
    apply quiet_inv with (st := st); rewrite ?Hst; try done. by right.
  - destruct (in_slot (Held id) (streams s)) eqn:Hz; [|done]. destruct (queue s id) as [|i rest] eqn:Hq; [done|].
    destruct (streams s !! i) as [st|] eqn:Hl; [|done]. injection Hstep as <-. by apply take_inv.
  - destruct (streams s !! i) as [st|] eqn:Hl; [|done]. cbn in Hstep. destruct (st_slot st) eqn:Hst; try done.
    injection Hstep as <-. destruct accepted; [by apply serve_inv|].
    pose proof (Forall_lookup_1 _ _ _ _ (pi_streams _ Hinv) Hl) as (Hcid & _ & _).
    apply quiet_inv with (st := st); rewrite ?Hst; try done. by right.
  - destruct (streams s !! i) as [st|] eqn:Hl; [|done]. cbn in Hstep. destruct (st_slot st) eqn:Hst; try done.
    injection Hstep as <-. pose proof (Forall_lookup_1 _ _ _ _ (pi_streams _ Hinv) Hl) as (Hcid & _ & _).
    apply quiet_inv with (st := st); rewrite ?Hst; try done. by right.
Qed.

Lemma pool_reachable_inv events s : steps (pool_step declared) pool_start events s -> pool_inv s.
Proof. apply (steps_invariant _ pool_inv pool_step_inv). apply pool_start_inv. Qed.
End guest.

(** However connections, permits, acknowledgements and clients interleave, at most four streams of a credential are
    reserved or parked at a time; every local client is served exactly one stream and no stream serves two; and the
    stream a client of a credential's socket gets was opened by the host, named that declared credential in its setup
    byte and was acknowledged before it was parked. *)
Theorem parked_stream_serves_one_client declared events s :
  steps (pool_step declared) pool_start events s ->
  (forall id, Z.of_nat (permits_used id s) <= CREDENTIAL_POOL_SIZE) /\
  NoDup (map (fun r => r.1.2) (relays s)) /\ NoDup (map snd (relays s)) /\
  (forall id i c, (id, i, c) ∈ relays s -> declared id = true /\
     exists st, streams s !! i = Some st /\ st_cid st = VMADDR_CID_HOST /\ st_setup st = Some (setup_byte id) /\
       st_acked st = true).
Proof.
  intros Hs. apply pool_reachable_inv in Hs as [_ _ _ Hp _ Hr Hrs Hrc]. split_and!; try done.
  intros id i c Hin. rewrite Forall_forall in Hr. destruct (Hr _ Hin) as (_ & ? & st & ? & ? & ? & ? & _). eauto 10.
Qed.

(* ------------------------------------------------------------------ *)
(** ** The host *)

Lemma connect_ok c c' :
  connect false (Ok c) CREDENTIAL_PORT = Ok c' <->
  exists digits n rest w,
    rd_bytes (ch_in c) = bs "OK " ++ digits ++ x0a :: rest /\
    parse_uint u32_max digits = Some n /\ 0 < n /\ (length digits + 4 <= ACK_MAX)%nat /\
    write_all (bs "CONNECT " ++ dec CREDENTIAL_PORT ++ [x0a]) (ch_out c) = (Ok tt, w) /\
    c' = mk_chan (mk_reader rest (rd_end (ch_in c))) (ch_silent c) w (ch_sent c).
Proof.
  rewrite <- open_stream_ok. unfold connect, timeout.
  destruct (open_stream CREDENTIAL_PORT c) as [[[]|[e|]] c1]; split; intros H; simplify_eq; done.
Qed.

Lemma establish_ok socket id c' :
  establish false socket id (Ok tt) = Ok c' <->
  exists c1 rest w', connect false socket CREDENTIAL_PORT = Ok c1 /\ rd_bytes (ch_in c1) = CREDENTIAL_PARKED_ACK :: rest /\
    write_all [setup_byte id] (ch_out c1) = (Ok tt, w') /\
    c' = mk_chan (mk_reader rest (rd_end (ch_in c1))) (ch_silent c1) w' (ch_sent c1).
Proof.
  unfold establish. destruct (connect false socket CREDENTIAL_PORT) as [c1|e]; cbn [map_err rbind];
    [|split; [done|by intros (? & ? & ? & ? & _)]].
  destruct c1 as [[data e] silent out sent]. unfold sbind, send_raw, smap_err, read_u8, read_one.
  cbn [ch_in rd_bytes rd_end ch_silent ch_out ch_sent].
  destruct (write_all [setup_byte id] out) as [[[]|e'] w'] eqn:Hw; cbn [map_err ch_in rd_bytes rd_end ch_silent].
  - destruct data as [|b rest].
    + split; [destruct e, silent; done|]. intros (c1 & rest & w2 & [= <-] & Hb & _). done.
    + cbn [map_err rbind guard_err]. destruct (bool_decide_reflect (b = CREDENTIAL_PARKED_ACK)) as [->|Hne]; cbn.
      * split; [intros [= <-]|intros (c1 & rest' & w2 & [= <-] & Hb & Hw2 & ->)].
        -- eexists _, rest, w'. by split_and!.
        -- unfold chan_in. cbn [ch_in rd_bytes ch_out ch_silent ch_sent rd_end] in *. congruence.
      * split; [done|]. intros (c1 & rest' & w2 & [= <-] & Hb & _). cbn in Hb. congruence.
  - split; [done|]. intros (c1 & rest & w2 & [= <-] & _ & Hw2 & _). cbn [ch_out] in Hw2. congruence.
Qed.

(** A stream the host establishes carries the one setup byte of its credential after the CONNECT line, was
    acknowledged with the parked byte and nothing else, and every byte the guest sent after that acknowledgement is
    left to the relay; with the agent socket reachable, such a stream is always established. *)
Theorem establish_hands_over_the_rest id c c' :
  establish false (Ok c) id (Ok tt) = Ok c' <->
  exists digits n rest w w',
    rd_bytes (ch_in c) = bs "OK " ++ digits ++ x0a :: CREDENTIAL_PARKED_ACK :: rest /\
    parse_uint u32_max digits = Some n /\ 0 < n /\ (length digits + 4 <= ACK_MAX)%nat /\
    write_all (bs "CONNECT " ++ dec CREDENTIAL_PORT ++ [x0a]) (ch_out c) = (Ok tt, w) /\
    write_all [setup_byte id] w = (Ok tt, w') /\
    c' = mk_chan (mk_reader rest (rd_end (ch_in c))) (ch_silent c) w' (ch_sent c).
Proof.
  rewrite establish_ok. split.
  - intros (c1 & rest & w' & Hc & Hin & Hw' & ->). apply connect_ok in Hc as (digits & n & rest' & w & Hb & Hp & Hpos & Hl & Hw & ->).
    cbn [ch_in rd_bytes ch_out rd_end ch_silent ch_sent] in *. subst rest'. by exists digits, n, rest, w, w'.
  - intros (digits & n & rest & w & w' & Hb & Hp & Hpos & Hl & Hw & Hw' & ->).
    exists (mk_chan (mk_reader (CREDENTIAL_PARKED_ACK :: rest) (rd_end (ch_in c))) (ch_silent c) w (ch_sent c)), rest, w'.
    split_and!; [|done..]. apply connect_ok. by exists digits, n, (CREDENTIAL_PARKED_ACK :: rest), w.
Qed.

Definition ready_inv (n : nat) (s : launch_pool) : Prop :=
  length (workers s) = n /\
  announced s = length (filter (fun w => wk_announced w = true) (workers s)) /\
  Forall (fun w => wk_announced w = true -> (0 < wk_established w)%nat) (workers s).

Lemma worker_next_spec w e w' sent :
  worker_next w e = Some (w', sent) ->
  (wk_announced w = true -> (0 < wk_established w)%nat) ->
  (wk_announced w' = true -> (0 < wk_established w')%nat) /\
  (if sent then wk_announced w = false /\ wk_announced w' = true else wk_announced w' = wk_announced w).
Proof.
  unfold worker_next. destruct w as [p a n]. cbn [wk_phase wk_announced wk_established].
  destruct p, e as [[]| |]; try done; intros [= <- <-] Hw; cbn [wk_announced wk_established]; try done.
  split; [intros _; lia|by destruct a].
Qed.

Lemma launch_step_inv n s e s' : ready_inv n s -> launch_step s e s' -> ready_inv n s'.
Proof.
  intros (Hlen & Ha & Hw) Hstep. unfold launch_step, launch_next in Hstep.
  destruct (workers s !! fst e) as [w|] eqn:Hl; [|done]. cbn [option_bind] in Hstep.
  destruct (worker_next w (snd e)) as [[w' sent]|] eqn:En; [|done]. injection Hstep as <-.
  pose proof (Forall_lookup_1 _ _ _ _ Hw Hl) as Hwi. destruct (worker_next_spec _ _ _ _ En Hwi) as [Hw' Hsent].
  unfold ready_inv. cbn [workers announced]. rewrite length_insert. split_and!; [done| |by apply Forall_insert].
  pose proof (length_filter_insert (fun w => wk_announced w = true) _ _ _ w' Hl) as Hc.
  cbv beta in Hc. destruct sent; [destruct Hsent|]; repeat case_decide; try congruence; lia.
Qed.

Lemma all_announced (ws : list worker) :
  (length ws <= length (filter (fun w => wk_announced w = true) ws))%nat -> Forall (fun w => wk_announced w = true) ws.
Proof.
  induction ws as [|w ws IH]; [constructor|]. rewrite filter_cons. intros H.
  pose proof (length_filter (fun w => wk_announced w = true) ws) as Hle.
  case_decide; cbn [length] in H; [constructor; [done|apply IH; lia]|lia].
Qed.

(** C40: [start] returns only when the whole pool stands: once as many readiness messages have arrived as there are
    workers, four for each credential, every one of them has had a stream established and acknowledged, because a worker
    announces itself at most once however often its stream ends and is replaced. *)
Theorem ready_means_every_worker_parked n events s :
  steps launch_step (start_pool n) events s -> start_ready n s = true ->
  length (workers s) = (4 * n)%nat /\ Forall (fun w => (0 < wk_established w)%nat) (workers s).
Proof.
  intros Hs Hr. assert (ready_inv (worker_count n) s) as (Hlen & Ha & Hw).
  { apply (steps_invariant _ _ (launch_step_inv (worker_count n)) (start_pool n) events); [|done].
    split_and!; [apply length_replicate| |by apply Forall_replicate].
    cbn [start_pool workers announced]. by induction (worker_count n). }
  apply Nat.leb_le in Hr. split; [rewrite Hlen; unfold worker_count; change (Z.to_nat CREDENTIAL_POOL_SIZE) with 4%nat; lia|].
  assert (Forall (fun w => wk_announced w = true) (workers s)) as Hall by (apply all_announced; lia).
  apply Forall_forall. intros w Hin. rewrite Forall_forall in Hw, Hall. by apply Hw, Hall.
Qed.

(** The arguments that name these credentials. *)
Definition arguments_of (ids : list CredentialId) : list bytes :=
  flat_map (fun id => [bs "--credential"; credential_name id]) ids.

Lemma parse_from_spec n seen args ids :
  (length args <= n)%nat -> NoDup seen ->
  parse_credentials_from seen args = Ok ids <-> exists new, ids = seen ++ new /\ args = arguments_of new /\ NoDup ids.
Proof.
  revert seen args. induction n as [|n IH]; intros seen args Hlen Hn.
  all: destruct args as [|a args]; [split; [intros [= <-]; exists []; by rewrite app_nil_r|
         intros ([|id new] & -> & [=] & _); by rewrite app_nil_r]|cbn in Hlen; try lia].
  cbn [parse_credentials_from]. destruct (bytes_eqb a (bs "--credential")) eqn:Ea; cbn [negb guard_err rbind].
  2:{ split; [done|]. intros ([|id new] & _ & [=] & _). subst a. done. }
  apply bytes_eqb_true in Ea as ->. destruct args as [|v args].
  { split; [done|]. by intros ([|id new] & _ & [=] & _). }
  destruct (credential_from_str v) as [id|e] eqn:Ev; cbn [map_err rbind].
  2:{ split; [done|]. intros ([|id new] & _ & [=] & _). subst v.
      assert (credential_from_str (credential_name id) = Ok id) by (by apply credential_from_str_ok). congruence. }
  apply credential_from_str_ok in Ev as ->. destruct (bool_decide_reflect (id ∈ seen)) as [Hin|Hin]; cbn [guard_err rbind].
  - split; [done|]. intros ([|id' new] & -> & [= Hid _] & Hnd). exfalso.
    assert (id' = id) as -> by (destruct id, id'; done). apply NoDup_app in Hnd as (_ & Hd & _). by apply (Hd id Hin), list_elem_of_here.
  - rewrite IH by (cbn in Hlen; lia || by apply NoDup_snoc_fresh). split.
    + intros (new & -> & -> & Hnd). exists (id :: new). by rewrite <- app_assoc in *.
    + intros ([|id' new] & -> & [= Hid ->] & Hnd). assert (id' = id) as -> by (destruct id, id'; done).
      exists new. by rewrite <- app_assoc.
Qed.

(** The agent's arguments are accepted exactly when they are [--credential] pairs naming distinct credentials, and
    then give those, in order. *)
Theorem parse_credentials_spec args ids :
  parse_credentials args = Ok ids <-> args = arguments_of ids /\ NoDup ids.
Proof.
  unfold parse_credentials. rewrite (parse_from_spec (length args)) by (done || constructor). cbn [app].
  split; [intros (new & -> & ? & ?); done|]. intros [? ?]. by exists ids.
Qed.

(* ------------------------------------------------------------------ *)
(** ** Witnesses *)

Definition demo_declared (id : CredentialId) : bool := id_eqb id Ssh.
(** Two host streams park, a guest-local peer is ignored, and two clients come. *)
Definition demo_pool_events : list pool_event :=
  [ HostAccepted 2; HostAccepted 3; HostAccepted 2; SetupRead 0 (Some x01); SetupRead 1 (Some x01); PermitReserved 1;
    PermitReserved 0; AckWritten 1 true; StreamTaken Ssh; AckWritten 0 true; ClientAccepted 1 true; RelayEnded 1;
    StreamTaken Ssh; ClientAccepted 0 true ].
Definition demo_pool : pool := default pool_start (pool_run demo_declared demo_pool_events pool_start).

Lemma pool_run_steps declared events s s' : pool_run declared events s = Some s' -> steps (pool_step declared) s events s'.
Proof.
  revert s. induction events as [|e events IH]; intros s; cbn [pool_run]; [intros [= <-]; constructor|].
  destruct (pool_next declared s e) as [s1|] eqn:E; cbn [option_bind]; [|done]. intros H. econstructor; [exact E|by apply IH].
Qed.
Lemma demo_pool_steps : steps (pool_step demo_declared) pool_start demo_pool_events demo_pool.
Proof.
  apply pool_run_steps. unfold demo_pool.
  destruct (pool_run demo_declared demo_pool_events pool_start) eqn:E; [done|vm_compute in E; done].
Qed.

Lemma parked_stream_serves_one_client_witness :
  relays demo_pool = [(Ssh, 1%nat, 0%nat); (Ssh, 0%nat, 1%nat)] /\ NoDup (map snd (relays demo_pool)).
Proof.
  split; [vm_compute; reflexivity|].
  exact (proj1 (proj2 (proj2 (parked_stream_serves_one_client demo_declared demo_pool_events demo_pool demo_pool_steps)))).
Defined.

Definition demo_launch_events : list (nat * worker_event) :=
  [ (0, Established (Ok tt)); (1, Established (Err tt)); (2, Established (Ok tt)); (0, RelayOver); (1, RetryElapsed);
    (0, Established (Ok tt)); (3, Established (Ok tt)); (1, Established (Ok tt)) ]%nat.
Definition launch_run (events : list (nat * worker_event)) (s : launch_pool) : option launch_pool :=
  fold_left (fun s e => option_bind _ _ (fun s => launch_next s e) s) events (Some s).
Definition demo_launch : launch_pool := mk_launch_pool
  [mk_worker Relay true 2; mk_worker Relay true 1; mk_worker Relay true 1; mk_worker Relay true 1] 4.

Lemma demo_launch_steps : steps launch_step (start_pool 1) demo_launch_events demo_launch.
Proof. repeat (econstructor; [reflexivity|]). constructor. Qed.

Lemma ready_means_every_worker_parked_witness : Forall (fun w => (0 < wk_established w)%nat) (workers demo_launch).
Proof.
  exact (proj2 (ready_means_every_worker_parked 1 demo_launch_events demo_launch demo_launch_steps eq_refl)).
Defined.
