(* ===== verification/Generations.v ===== *)
(** * Generations: the profile of retained builds (src/src/config/generations.rs).

    A profile is the two directories' entries by name and the [current] symlink's target.  Every filesystem operation
    that can fail is asked of the run's [world]; the registration of the garbage-collector root, the digest and
    serde_json are parameters. *)
From stdpp Require Import sorting.
From S2P Require Import Prelude Bytes Paths.

Record GenerationRecord := mk_GenerationRecord {
  store_path_of : bytes; lock_digest : bytes; manifest : bytes; backend : bytes; built_at : bytes }.
Record Generation := mk_Generation {
  number : Z; gen_store_path : option bytes; gen_record : option GenerationRecord; gen_current : bool }.

(** The profile's root: [generations/], [metadata/] and [current]. *)
Record profile := mk_profile {
  links : gmap bytes bytes;      (* name to symlink target *)
  metadata : gmap bytes bytes;   (* name to content *)
  current : option bytes }.      (* target *)
Definition profile_start : profile := mk_profile ∅ ∅ None.

Definition GENERATIONS_DIR : bytes := bs "generations".
Definition link (n : Z) : bytes := dec n.
Definition metadata_name (n : Z) : bytes := dec n ++ bs ".json".
Definition lock_snapshot (n : Z) : bytes := dec n ++ bs ".lock".

(* ------------------------------------------------------------------ *)
(** ** The scan *)

(** [numbers]: the union, ascending, without duplicates ([BTreeSet<u64>]); a directory that cannot be read is empty. *)
Definition metadata_number (name : bytes) : option Z :=
  let* stem := strip_suffix (bs ".json") name in parse_uint u64_max stem.
Definition collect (readable : bool) (parse : bytes -> option Z) (directory : gmap bytes bytes) : list Z :=
  if readable then omap parse (map_to_list directory).*1 else [].
Fixpoint insert_number (n : Z) (l : list Z) : list Z :=
  match l with
  | [] => [n]
  | m :: l' => if n <? m then n :: l else if n =? m then l else m :: insert_number n l'
  end.
Definition numbers (links_readable metadata_readable : bool) (p : profile) : list Z :=
  fold_right insert_number []
    (collect links_readable (parse_uint u64_max) (links p) ++ collect metadata_readable metadata_number (metadata p)).

(** [highest + 1] on u64, as a release build computes it. *)
Definition next_number (links_readable metadata_readable : bool) (p : profile) : Z :=
  match last (numbers links_readable metadata_readable p) with Some highest => (highest + 1) mod (u64_max + 1) | None => 1 end.

Definition current_number (p : profile) : option Z :=
  let* target := current p in
  let* name := file_name target in
  parse_uint u64_max name.

Section readers.
Context (exists_ : bytes -> bool) (from_slice : bytes -> option GenerationRecord).
Definition list_generations (links_readable metadata_readable : bool) (p : profile) : list Generation :=
  map (fun n => mk_Generation n (links p !! link n)
                  (let* raw := metadata p !! metadata_name n in from_slice raw)
                  (bool_decide (current_number p = Some n)))
    (numbers links_readable metadata_readable p).
Definition store_path (p : profile) (n : Z) : option bytes :=
  let* target := links p !! link n in if exists_ target then Some target else None.
Definition current_store_path (p : profile) : option bytes :=
  let* n := current_number p in store_path p n.
End readers.

(* ------------------------------------------------------------------ *)
(** ** The writers *)

Inductive RegistryError :=
| GenerationDirectory | GenerationStage | GenerationWrite | GenerationPublish | GenerationDigest
| GenerationRecord_ | GenerationRoot | GenerationCurrent | GenerationUnlink.

(** How a staged file or symlink fares: before the rename, or at the flush after it, when it is already in place. *)
Inductive publication := Published | FailedBefore (e : RegistryError) | FailedAfter (e : RegistryError).
Definition published {S} (outcome : publication) (place : S -> S) : sem S RegistryError unit := fun s =>
  match outcome with
  | Published => (Ok tt, place s)
  | FailedBefore e => (Err e, s)
  | FailedAfter e => (Err e, place s)
  end.
(** Whether the registration took, and if not, whether it left the symlink behind. *)
Inductive registration := Registered | NotRegistered (left_behind : bool).

Record world := mk_world {
  w_directories : bool;          (* create_dir_all *)
  w_links_readable : bool;
  w_metadata_readable : bool;
  w_lock : publication;
  w_digest : bytes -> option bytes;
  w_record : publication;
  w_register : registration;
  w_current : publication }.

Definition set_links (f : gmap bytes bytes -> gmap bytes bytes) (p : profile) : profile :=
  mk_profile (f (links p)) (metadata p) (current p).
Definition set_metadata (f : gmap bytes bytes -> gmap bytes bytes) (p : profile) : profile :=
  mk_profile (links p) (f (metadata p)) (current p).

Definition publish (outcome : publication) (name content : bytes) : sem profile RegistryError unit :=
  published outcome (set_metadata <[name := content]>).
Definition current_target (n : Z) : bytes := join GENERATIONS_DIR (dec n).
Definition set_current (outcome : publication) (n : Z) : sem profile RegistryError unit :=
  published outcome (fun p => mk_profile (links p) (metadata p) (Some (current_target n))).
(** [let _ = fs::remove_file(..)]. *)
Definition discard (name : bytes) : sem profile RegistryError unit := fun p => (Ok tt, set_metadata (delete name) p).

Definition register_root (r : registration) (n : Z) (target : bytes) : sem profile RegistryError unit := fun p =>
  match r with
  | Registered => (Ok tt, set_links <[link n := target]> p)
  | NotRegistered true => (Err GenerationRoot, set_links <[link n := target]> p)
  | NotRegistered false => (Err GenerationRoot, p)
  end.

Section append.
Context (to_vec_pretty : GenerationRecord -> option bytes).
Definition with_digest (record : GenerationRecord) (digest : bytes) : GenerationRecord :=
  mk_GenerationRecord (store_path_of record) digest (manifest record) (backend record) (built_at record).

(** The root, or the half that landed taken back. *)
Definition root_step (w : world) (n : Z) (target : bytes) : sem profile RegistryError unit := fun p =>
  match register_root (w_register w) n target p with
  | (Ok _, p) => (Ok tt, p)
  | (Err e, p) => (discard (metadata_name n) ;; discard (lock_snapshot n) ;; sfail e) p
  end.

Definition append (w : world) (record : GenerationRecord) (lock : bytes) : sem profile RegistryError Z := fun p =>
  if negb (w_directories w) then (Err GenerationDirectory, p) else
  let n := next_number (w_links_readable w) (w_metadata_readable w) p in
  (publish (w_lock w) (lock_snapshot n) lock ;;
   match w_digest w lock with
   | None => discard (lock_snapshot n) ;; sfail GenerationDigest
   | Some digest =>
       let record := with_digest record digest in
       let! rendered := slift (ok_or (to_vec_pretty record) GenerationRecord_) in
       publish (w_record w) (metadata_name n) rendered ;;
       root_step w n (store_path_of record) ;;
       set_current (w_current w) n ;;
       sret n
   end) p.
End append.

(** [unlink]: what each removal meets; absence is [Ok]. *)
Definition remove (removable : bool) (present : bool) : result unit RegistryError :=
  if present && negb removable then Err GenerationUnlink else Ok tt.
Definition unlink (link_removable record_removable lock_removable : bool) (n : Z) : sem profile RegistryError unit := fun p =>
  match remove link_removable (bool_decide (is_Some (links p !! link n))) with
  | Err e => (Err e, p)
  | Ok _ =>
      let p := set_links (delete (link n)) p in
      match remove record_removable (bool_decide (is_Some (metadata p !! metadata_name n))) with
      | Err e => (Err e, p)
      | Ok _ =>
          let p := set_metadata (delete (metadata_name n)) p in
          match remove lock_removable (bool_decide (is_Some (metadata p !! lock_snapshot n))) with
          | Err e => (Err e, p)
          | Ok _ => (Ok tt, set_metadata (delete (lock_snapshot n)) p)
          end
      end
  end.

(* ------------------------------------------------------------------ *)
(** ** Instants *)

(** Rust's [/] and [%] on i64 truncate. *)
Definition civil_from_days (z : Z) : Z * Z * Z :=
  let z := z + 719468 in
  let era := Z.quot (if 0 <=? z then z else z - 146096) 146097 in
  let doe := z - era * 146097 in
  let yoe := Z.quot (doe - Z.quot doe 1460 + Z.quot doe 36524 - Z.quot doe 146096) 365 in
  let year := yoe + era * 400 in
  let doy := doe - (365 * yoe + Z.quot yoe 4 - Z.quot yoe 100) in
  let mp := Z.quot (5 * doy + 2) 153 in
  let day := doy - Z.quot (153 * mp + 2) 5 + 1 in
  let month := if mp <? 10 then mp + 3 else mp - 9 in
  (if month <=? 2 then year + 1 else year, month, day).
Definition days_from_civil (year month day : Z) : Z :=
  let year := if month <=? 2 then year - 1 else year in
  let era := Z.quot (if 0 <=? year then year else year - 399) 400 in
  let yoe := year - era * 400 in
  let doy := Z.quot (153 * (if 2 <? month then month - 3 else month + 9) + 2) 5 + day - 1 in
  let doe := yoe * 365 + Z.quot yoe 4 - Z.quot yoe 100 + doy in
  era * 146097 + doe - 719468.

(** [{value:0width}] of a non-negative number. *)
Definition padded (width : nat) (v : Z) : bytes :=
  let digits := dec v in replicate (width - length digits) "0"%byte ++ digits.
Definition rfc3339_utc (epoch_seconds : Z) : bytes :=
  let days := if epoch_seconds / 86400 <=? 9223372036854775807 then epoch_seconds / 86400 else 0 in
  let seconds := epoch_seconds mod 86400 in
  let '(year, month, day) := civil_from_days days in
  padded 4 year ++ bs "-" ++ padded 2 month ++ bs "-" ++ padded 2 day ++ bs "T" ++
  padded 2 (seconds / 3600) ++ bs ":" ++ padded 2 (seconds mod 3600 / 60) ++ bs ":" ++ padded 2 (seconds mod 60) ++ bs "Z".

Definition byte_at (i : nat) (s : bytes) (b : byte) : bool := bool_decide (s !! i = Some b).
Definition digits_at (i len : nat) (s : bytes) : option Z :=
  let piece := take len (drop i s) in if forallb is_ascii_digit piece then Some (dec_value piece) else None.
Definition parse_rfc3339_utc (text : bytes) : option Z :=
  if negb ((length text =? 20)%nat && byte_at 4 text "-" && byte_at 7 text "-" && byte_at 10 text "T" &&
           byte_at 13 text ":" && byte_at 16 text ":" && byte_at 19 text "Z") then None else
  let* year := digits_at 0 4 text in let* month := digits_at 5 2 text in let* day := digits_at 8 2 text in
  let* hour := digits_at 11 2 text in let* minute := digits_at 14 2 text in let* second := digits_at 17 2 text in
  if negb ((1 <=? month) && (month <=? 12)) || negb ((1 <=? day) && (day <=? 31)) then None else
  if (23 <? hour) || (59 <? minute) || (59 <? second) then None else
  let days := days_from_civil year month day in
  if bool_decide (civil_from_days days <> (year, month, day)) then None else
  let total := days * 86400 + hour * 3600 + minute * 60 + second in
  if 0 <=? total then Some total else None.

(** * Generations: history is only appended to, and instants round-trip.

    What an append keeps and what it records, when a number comes back, and that the timestamp reader accepts exactly
    what the writer writes. *)


#[local] Arguments bs : simpl never.
#[local] Arguments dec : simpl never.

(* ------------------------------------------------------------------ *)
(** ** The calendar *)

Lemma yoe_bounds doe :
  0 <= doe < 146097 -> 0 <= (doe - doe / 1460 + doe / 36524 - doe / 146096) / 365 <= 399.
Proof. intros. Z.to_euclidean_division_equations. lia. Qed.
Lemma doy_bounds doe :
  0 <= doe < 146097 ->
  let yoe := (doe - doe / 1460 + doe / 36524 - doe / 146096) / 365 in
  0 <= doe - (365 * yoe + yoe / 4 - yoe / 100) <= 365.
Proof. intros. subst yoe. Z.to_euclidean_division_equations. lia. Qed.

(** The divisions of a non-negative day are the Euclidean ones. *)
Lemma civil_from_days_div z :
  0 <= z ->
  let z' := z + 719468 in
  let era := z' / 146097 in
  let doe := z' mod 146097 in
  let yoe := (doe - doe / 1460 + doe / 36524 - doe / 146096) / 365 in
  let doy := doe - (365 * yoe + yoe / 4 - yoe / 100) in
  let mp := (5 * doy + 2) / 153 in
  let month := if mp <? 10 then mp + 3 else mp - 9 in
  civil_from_days z = (if month <=? 2 then yoe + era * 400 + 1 else yoe + era * 400, month, doy - (153 * mp + 2) / 5 + 1).
Proof.
  intros Hz z' era doe yoe doy mp month. unfold civil_from_days. fold z'.
  assert (Hz' : (0 <=? z') = true) by (unfold z'; lia). rewrite Hz'.
  rewrite (Z.quot_div_nonneg z') by (unfold z'; lia).
  replace (z' - z' / 146097 * 146097) with doe by (unfold doe; pose proof (Z.div_mod z' 146097); lia).
  assert (Hdoe : 0 <= doe < 146097) by (apply Z.mod_pos_bound; lia).
  rewrite !(Z.quot_div_nonneg doe) by lia.
  assert (Hn : 0 <= doe - doe / 1460 + doe / 36524 - doe / 146096) by (Z.to_euclidean_division_equations; lia).
  rewrite (Z.quot_div_nonneg (doe - _ + _ - _)) by lia. fold yoe.
  pose proof (yoe_bounds doe Hdoe) as Hyoe. pose proof (doy_bounds doe Hdoe) as Hdoy. cbv zeta in Hdoy. fold yoe in Hyoe, Hdoy.
  rewrite !(Z.quot_div_nonneg yoe) by lia. fold doy in Hdoy |- *.
  rewrite !(Z.quot_div_nonneg (5 * doy + 2)) by lia. fold mp.
  assert (Hmp : 0 <= mp) by (apply Z.div_pos; lia).
  by rewrite !(Z.quot_div_nonneg (153 * mp + 2)) by lia.
Qed.

Lemma civil_spec z :
  0 <= z ->
  let '(year, month, day) := civil_from_days z in
  0 <= year /\ 1 <= month <= 12 /\ 1 <= day <= 31 /\ days_from_civil year month day = z /\
  (z < 2932897 -> year <= 9999).
Proof.
  intros Hz. rewrite (civil_from_days_div z Hz). set (z' := z + 719468). set (era := z' / 146097).
  set (doe := z' mod 146097). set (yoe := (doe - doe / 1460 + doe / 36524 - doe / 146096) / 365).
  set (doy := doe - (365 * yoe + yoe / 4 - yoe / 100)). set (mp := (5 * doy + 2) / 153).
  assert (Hdoe : 0 <= doe < 146097) by (apply Z.mod_pos_bound; lia).
  pose proof (yoe_bounds doe Hdoe) as Hyoe. pose proof (doy_bounds doe Hdoe) as Hdoy. cbv zeta in Hdoy. fold yoe in Hyoe, Hdoy.
  fold doy in Hdoy.
  assert (Hera : 4 <= era) by (unfold era, z'; apply Z.div_le_lower_bound; lia).
  assert (Hmp : 0 <= mp <= 11) by (unfold mp; Z.to_euclidean_division_equations; lia).
  assert (Hday : 0 <= doy - (153 * mp + 2) / 5 <= 30) by (unfold mp; Z.to_euclidean_division_equations; lia).
  assert (Hz' : z' = era * 146097 + doe) by (unfold era, doe; pose proof (Z.div_mod z' 146097); lia).
  assert (Hlate : z < 2932897 -> yoe + era * 400 <= 9999 /\ (yoe + era * 400 = 9999 -> mp <= 9)).
  { intros Hlt. assert (Hera' : era <= 24) by (unfold z' in Hz'; lia). split; [lia|]. intros Hy.
    assert (yoe = 399) as Hyoe399 by lia. assert (era = 24) as Hera24 by lia.
    assert (doy <= 305) by (unfold doy; rewrite Hyoe399; unfold z' in Hz'; change (399 / 4) with 99; change (399 / 100) with 3; lia).
    unfold mp. apply Z.lt_succ_r, Z.div_lt_upper_bound; lia. }
  set (month := if mp <? 10 then mp + 3 else mp - 9).
  assert (Hmonth : (mp < 10 /\ month = mp + 3) \/ (10 <= mp /\ month = mp - 9))
    by (unfold month; destruct (Z.ltb_spec mp 10); lia).
  assert (Hmarch : (if 2 <? month then month - 3 else month + 9) = mp) by (destruct (Z.ltb_spec 2 month); lia).
  assert (Hyear : (if month <=? 2 then (if month <=? 2 then yoe + era * 400 + 1 else yoe + era * 400) - 1
                   else if month <=? 2 then yoe + era * 400 + 1 else yoe + era * 400) = yoe + era * 400)
    by (destruct (month <=? 2); lia).
  split_and!; [destruct (month <=? 2); lia|lia|lia|lia|lia| |destruct (Z.leb_spec month 2); lia].
  unfold days_from_civil. rewrite Hmarch, Hyear. assert ((0 <=? yoe + era * 400) = true) as -> by lia.
  rewrite (Z.quot_div_nonneg (yoe + era * 400)), (Z.quot_div_nonneg (153 * mp + 2)) by lia.
  assert ((yoe + era * 400) / 400 = era) as -> by (rewrite Z.div_add, (Z.div_small yoe 400) by lia; lia).
  replace (yoe + era * 400 - era * 400) with yoe by lia.
  rewrite !(Z.quot_div_nonneg yoe) by lia. unfold doy, z' in *. lia.
Qed.

(* ------------------------------------------------------------------ *)
(** ** Padded numbers *)

Lemma dec_value_zeros k s : dec_value (replicate k "0"%byte ++ s) = dec_value s.
Proof. unfold dec_value. induction k as [|k IH]; [done|]. cbn [replicate app fold_left]. exact IH. Qed.
Lemma zeros_digits k : forallb is_ascii_digit (replicate k "0"%byte) = true.
Proof. induction k; [done|]. cbn [replicate forallb]. by rewrite IHk. Qed.

Lemma digit_value_range b : is_ascii_digit b = true -> 0 <= digit_value b < 10.
Proof. unfold is_ascii_digit, digit_value. intros [H1 H2]%andb_true_iff. lia. Qed.
Lemma dec_value_bound s : forallb is_ascii_digit s = true -> 0 <= dec_value s < 10 ^ Z.of_nat (length s).
Proof.
  induction s as [|c s IH]; [by intros _|]. cbn [forallb length]. intros [Hc%digit_value_range Hs%IH]%andb_true_iff.
  rewrite dec_value_cons, Nat2Z.inj_succ, Z.pow_succ_r by lia. nia.
Qed.
Lemma digits_unique s s' :
  forallb is_ascii_digit s = true -> forallb is_ascii_digit s' = true -> length s = length s' ->
  dec_value s = dec_value s' -> s = s'.
Proof.
  revert s'. induction s as [|c s IH]; intros [|c' s']; cbn [forallb length]; try done.
  intros [Hc Hs]%andb_true_iff [Hc' Hs']%andb_true_iff [= Hlen]. rewrite !dec_value_cons, Hlen. intros Hv.
  pose proof (digit_value_range _ Hc). pose proof (digit_value_range _ Hc').
  pose proof (dec_value_bound _ Hs) as Hb. pose proof (dec_value_bound _ Hs') as Hb'. rewrite Hlen in Hb.
  assert (digit_value c = digit_value c') as Hd by nia.
  assert (c = c') as -> by (apply bz_inj; unfold digit_value in Hd; lia). f_equal. apply IH; [done..|]. nia.
Qed.

Lemma dec_digits_length fuel k z acc :
  0 <= z < 10 ^ Z.of_nat k -> (1 <= k)%nat -> (length (dec_digits fuel z acc) <= k + length acc)%nat.
Proof.
  revert k z acc. induction fuel as [|fuel IH]; intros k z acc Hz Hk; cbn [dec_digits]; [lia|].
  destruct (Z.eqb_spec (z / 10) 0) as [H0|H0]; [cbn [length]; lia|].
  destruct k as [|[|k]]; [lia|change (10 ^ Z.of_nat 1) with 10 in Hz; by rewrite Z.div_small in H0 by lia|].
  specialize (IH (S k) (z / 10) (digit (z mod 10) :: acc)). cbn [length] in IH.
  assert (length (dec_digits fuel (z / 10) (digit (z mod 10) :: acc)) <= S k + S (length acc))%nat; [|lia].
  apply IH; [|lia]. rewrite (Nat2Z.inj_succ (S k)), Z.pow_succ_r in Hz by lia.
  split; [apply Z.div_pos; lia|apply Z.div_lt_upper_bound; lia].
Qed.

(** A padded number is the digit string of its width with its value. *)
Lemma padded_spec w v s :
  (1 <= w <= 20)%nat -> 0 <= v < 10 ^ Z.of_nat w ->
  s = padded w v <-> forallb is_ascii_digit s = true /\ length s = w /\ dec_value s = v.
Proof.
  intros Hw Hv.
  assert (10 ^ Z.of_nat w <= 10 ^ 20) by (apply Z.pow_le_mono_r; lia).
  destruct (dec_spec v ltac:(lia)) as (Hd & Hval & _).
  pose proof (dec_digits_length 20 w v [] ltac:(lia) ltac:(lia)) as Hlen. fold (dec v) in Hlen. cbn [length] in Hlen.
  assert (Hp : forallb is_ascii_digit (padded w v) = true /\ length (padded w v) = w /\ dec_value (padded w v) = v).
  { unfold padded. rewrite forallb_app, zeros_digits, Hd, length_app, length_replicate, dec_value_zeros.
    split_and!; [done|lia|done]. }
  split; [by intros ->|]. intros (H1 & H2 & H3). destruct Hp as (P1 & P2 & P3). apply digits_unique; congruence.
Qed.

(* ------------------------------------------------------------------ *)
(** ** Timestamps *)

Definition last_instant : Z := 253402300800.   (* 10000-01-01T00:00:00Z *)

Lemma days_bound y m d :
  0 <= y <= 9999 -> 1 <= m <= 12 -> 1 <= d <= 31 -> days_from_civil y m d < 2932897.
Proof.
  intros Hy Hm Hd. unfold days_from_civil.
  set (y' := if m <=? 2 then y - 1 else y). set (mp := if 2 <? m then m - 3 else m + 9).
  assert (H : -1 <= y' /\ y' <= 9999 /\ 0 <= mp /\ ((y' <= 9998 /\ mp <= 11) \/ mp <= 9))
    by (unfold y', mp; destruct (Z.leb_spec m 2), (Z.ltb_spec 2 m); lia).
  destruct H as (H1 & H2 & H3 & H4). clearbody y' mp.
  destruct (Z.leb_spec 0 y').
  - rewrite (Z.quot_div_nonneg y'), (Z.quot_div_nonneg (153 * mp + 2)) by lia.
    assert (Hyoe : 0 <= y' - y' / 400 * 400 < 400) by (Z.to_euclidean_division_equations; lia).
    rewrite !(Z.quot_div_nonneg (y' - y' / 400 * 400)) by lia. Z.to_euclidean_division_equations. lia.
  - assert (y' = -1) as -> by lia. change (Z.quot (-1 - 399) 400) with (-1). change (-1 - -1 * 400) with 399.
    change (Z.quot 399 4) with 99. change (Z.quot 399 100) with 3.
    rewrite (Z.quot_div_nonneg (153 * mp + 2)) by lia. Z.to_euclidean_division_equations. lia.
Qed.

(** The pieces a parsed timestamp is made of. *)
Definition stamp (y m d h mi s : bytes) : bytes :=
  y ++ bs "-" ++ m ++ bs "-" ++ d ++ bs "T" ++ h ++ bs ":" ++ mi ++ bs ":" ++ s ++ bs "Z".
Definition digits_of (w : nat) (p : bytes) : Prop := length p = w /\ forallb is_ascii_digit p = true.
(** The checks after the shape. *)
Definition instant (year month day hour minute second : Z) : option Z :=
  if negb ((1 <=? month) && (month <=? 12)) || negb ((1 <=? day) && (day <=? 31)) then None else
  if (23 <? hour) || (59 <? minute) || (59 <? second) then None else
  let days := days_from_civil year month day in
  if bool_decide (civil_from_days days <> (year, month, day)) then None else
  let total := days * 86400 + hour * 3600 + minute * 60 + second in
  if 0 <=? total then Some total else None.

Lemma parse_stamp y m d h mi s :
  digits_of 4 y -> digits_of 2 m -> digits_of 2 d -> digits_of 2 h -> digits_of 2 mi -> digits_of 2 s ->
  parse_rfc3339_utc (stamp y m d h mi s) =
  instant (dec_value y) (dec_value m) (dec_value d) (dec_value h) (dec_value mi) (dec_value s).
Proof.
  intros [Ly Dy] [Lm Dm] [Ld Dd] [Lh Dh] [Li Di] [Ls Ds].
  destruct y as [|y0 [|y1 [|y2 [|y3 [|]]]]]; try done. destruct m as [|m0 [|m1 [|]]]; try done.
  destruct d as [|d0 [|d1 [|]]]; try done. destruct h as [|h0 [|h1 [|]]]; try done.
  destruct mi as [|i0 [|i1 [|]]]; try done. destruct s as [|s0 [|s1 [|]]]; try done.
  unfold parse_rfc3339_utc. change (stamp _ _ _ _ _ _) with
    [y0; y1; y2; y3; "-"; m0; m1; "-"; d0; d1; "T"; h0; h1; ":"; i0; i1; ":"; s0; s1; "Z"]%byte.
  unfold digits_at. cbn [take drop]. rewrite Dy, Dm, Dd, Dh, Di, Ds. reflexivity.
Qed.

Lemma parse_shape text t :
  parse_rfc3339_utc text = Some t ->
  exists y m d h mi s, text = stamp y m d h mi s /\
    digits_of 4 y /\ digits_of 2 m /\ digits_of 2 d /\ digits_of 2 h /\ digits_of 2 mi /\ digits_of 2 s.
Proof.
  unfold parse_rfc3339_utc. destruct (length text =? 20)%nat eqn:El; [|done]. apply Nat.eqb_eq in El.
  do 20 (destruct text as [|? text]; [done|]). destruct text; [|done]. clear El.
  unfold byte_at, digits_at. cbn [lookup list_lookup take drop].
  repeat match goal with |- context [bool_decide (Some ?x = Some ?y)] =>
    destruct (bool_decide_reflect (Some x = Some y)) as [[= ->]|]; [|done] end. cbn [andb negb].
  repeat match goal with |- context [if forallb is_ascii_digit ?l then _ else _] =>
    destruct (forallb is_ascii_digit l) eqn:?; [|done] end. cbn [option_bind]. intros _.
  eexists [_; _; _; _], [_; _], [_; _], [_; _], [_; _], [_; _]. split; [reflexivity|]. by split_and!.
Qed.

Lemma rfc3339_stamp t y m d :
  0 <= t < last_instant -> civil_from_days (t / 86400) = (y, m, d) ->
  rfc3339_utc t = stamp (padded 4 y) (padded 2 m) (padded 2 d) (padded 2 (t mod 86400 / 3600))
                    (padded 2 (t mod 86400 mod 3600 / 60)) (padded 2 (t mod 86400 mod 60)).
Proof.
  intros Ht Hc. unfold rfc3339_utc, last_instant in *.
  assert ((t / 86400 <=? 9223372036854775807) = true) as -> by (Z.to_euclidean_division_equations; lia). by rewrite Hc.
Qed.

(** The time of day of an instant, taken apart and put together. *)
Lemma time_of_day s :
  0 <= s < 86400 ->
  0 <= s / 3600 <= 23 /\ 0 <= s mod 3600 / 60 <= 59 /\ 0 <= s mod 60 <= 59 /\
  s / 3600 * 3600 + s mod 3600 / 60 * 60 + s mod 60 = s.
Proof. intros. Z.to_euclidean_division_equations. lia. Qed.
Lemma time_parts h mi s :
  0 <= h <= 23 -> 0 <= mi <= 59 -> 0 <= s <= 59 ->
  (h * 3600 + mi * 60 + s) / 3600 = h /\ (h * 3600 + mi * 60 + s) mod 3600 / 60 = mi /\ (h * 3600 + mi * 60 + s) mod 60 = s.
Proof. intros. Z.to_euclidean_division_equations. lia. Qed.

Lemma padded_digits w v : (1 <= w <= 20)%nat -> 0 <= v < 10 ^ Z.of_nat w -> digits_of w (padded w v) /\ dec_value (padded w v) = v.
Proof. intros Hw Hv. destruct (proj1 (padded_spec w v (padded w v) Hw Hv) eq_refl) as (? & ? & ?). done. Qed.

Lemma rfc3339_parses t : 0 <= t < last_instant -> parse_rfc3339_utc (rfc3339_utc t) = Some t.
Proof.
  intros Ht. unfold last_instant in Ht.
  assert (Hdays : 0 <= t / 86400 < 2932897) by (Z.to_euclidean_division_equations; lia).
  pose proof (civil_spec (t / 86400) ltac:(lia)) as Hc.
  destruct (civil_from_days (t / 86400)) as [[y m] d] eqn:E. destruct Hc as (Hy & Hm & Hd & Hback & Hlate).
  specialize (Hlate ltac:(lia)). rewrite (rfc3339_stamp t y m d) by done.
  pose proof (time_of_day (t mod 86400) ltac:(apply Z.mod_pos_bound; lia)) as (Hh & Hi & Hs & Hsum).
  destruct (padded_digits 4 y) as [Py Vy]; [lia|cbn; lia|]. destruct (padded_digits 2 m) as [Pm Vm]; [lia|cbn; lia|].
  destruct (padded_digits 2 d) as [Pd Vd]; [lia|cbn; lia|].
  destruct (padded_digits 2 (t mod 86400 / 3600)) as [Ph Vh]; [lia|cbn; lia|].
  destruct (padded_digits 2 (t mod 86400 mod 3600 / 60)) as [Pi Vi]; [lia|cbn; lia|].
  destruct (padded_digits 2 (t mod 86400 mod 60)) as [Ps Vs]; [lia|cbn; lia|].
  rewrite (parse_stamp _ _ _ _ _ _ Py Pm Pd Ph Pi Ps). rewrite Vy, Vm, Vd, Vh, Vi, Vs. unfold instant.
  assert ((1 <=? m) && (m <=? 12) = true) as -> by lia. assert ((1 <=? d) && (d <=? 31) = true) as -> by lia.
  assert ((23 <? t mod 86400 / 3600) || (59 <? t mod 86400 mod 3600 / 60) || (59 <? t mod 86400 mod 60) = false) as -> by lia.
  cbn [negb orb]. rewrite Hback, E. rewrite bool_decide_false by (intros H; by apply H).
  assert (t / 86400 * 86400 + t mod 86400 / 3600 * 3600 + t mod 86400 mod 3600 / 60 * 60 + t mod 86400 mod 60 = t) as ->
    by (pose proof (Z.div_mod t 86400); lia).
  by assert ((0 <=? t) = true) as -> by lia.
Qed.

Lemma parse_exact text t : parse_rfc3339_utc text = Some t -> 0 <= t < last_instant /\ text = rfc3339_utc t.
Proof.
  intros H. destruct (parse_shape _ _ H) as (y & m & d & h & mi & s & -> & Hy & Hm & Hd & Hh & Hi & Hs).
  rewrite parse_stamp in H by done. unfold instant in H.
  pose proof (dec_value_bound y (proj2 Hy)) as By. rewrite (proj1 Hy) in By. change (10 ^ Z.of_nat 4) with 10000 in By.
  assert (Hn : forall p, digits_of 2 p -> 0 <= dec_value p < 100)
    by (intros p [Lp Dp]; pose proof (dec_value_bound p Dp) as Hb; by rewrite Lp in Hb).
  pose proof (Hn _ Hh). pose proof (Hn _ Hi). pose proof (Hn _ Hs). pose proof (Hn _ Hm). pose proof (Hn _ Hd).
  destruct (negb _ || negb _) eqn:E1 in H; [done|]. destruct (_ || _) eqn:E2 in H; [done|].
  set (days := days_from_civil (dec_value y) (dec_value m) (dec_value d)) in *.
  destruct (bool_decide_reflect (civil_from_days days <> (dec_value y, dec_value m, dec_value d))) as [|E3]; [done|].
  apply dec_stable in E3. destruct (Z.leb_spec 0 (days * 86400 + dec_value h * 3600 + dec_value mi * 60 + dec_value s)) as [Hpos|]; [|done].
  injection H as <-. set (tod := dec_value h * 3600 + dec_value mi * 60 + dec_value s).
  assert (Htod : 0 <= tod < 86400) by (unfold tod; lia).
  pose proof (days_bound (dec_value y) (dec_value m) (dec_value d) ltac:(lia) ltac:(lia) ltac:(lia)) as Hb. fold days in Hb.
  assert (Hd0 : 0 <= days) by (unfold tod in *; lia).
  replace (days * 86400 + _ + _ + _) with (days * 86400 + tod) by (unfold tod; lia).
  assert (Ht : 0 <= days * 86400 + tod < last_instant) by (unfold last_instant; lia). split; [done|].
  assert (Hdiv : (days * 86400 + tod) / 86400 = days) by (Z.to_euclidean_division_equations; lia).
  assert (Hmod : (days * 86400 + tod) mod 86400 = tod) by (Z.to_euclidean_division_equations; lia).
  rewrite (rfc3339_stamp _ _ _ _ Ht ltac:(rewrite Hdiv; exact E3)), Hmod.
  destruct (time_parts (dec_value h) (dec_value mi) (dec_value s) ltac:(lia) ltac:(lia) ltac:(lia)) as (T1 & T2 & T3).
  fold tod in T1, T2, T3. rewrite T1, T2, T3.
  assert (Hp : forall w p, digits_of w p -> (1 <= w <= 20)%nat -> p = padded w (dec_value p)).
  { intros w p [Lp Dp] Hw. apply padded_spec; [done| |done]. rewrite <- Lp. by apply dec_value_bound. }
  unfold stamp. f_equal; [by apply Hp; [|lia]|]. repeat (f_equal; try (by apply Hp; [|lia])).
Qed.

(** The timestamp reader accepts exactly what the writer writes: a text reads as an instant exactly when it is that
    instant's rendering, for every instant before the year 10000, where the rendering outgrows its twenty bytes. *)
Theorem timestamps_round_trip text t :
  parse_rfc3339_utc text = Some t <-> 0 <= t < last_instant /\ text = rfc3339_utc t.
Proof. split; [apply parse_exact|]. intros [Ht ->]. by apply rfc3339_parses. Qed.

(* ------------------------------------------------------------------ *)
(** ** The scan *)

Lemma insert_number_elem n m l : m ∈ insert_number n l <-> m = n \/ m ∈ l.
Proof.
  induction l as [|k l IH]; cbn [insert_number]; [rewrite list_elem_of_singleton; split; [by left|intros [?|?%not_elem_of_nil]; done]|].
  destruct (Z.ltb_spec n k); [by rewrite elem_of_cons|]. destruct (Z.eqb_spec n k) as [->|].
  - split; [by right|]. intros [->|?]; [left|done].
  - rewrite !elem_of_cons, IH. tauto.
Qed.
Lemma insert_number_sorted n l : StronglySorted Z.lt l -> StronglySorted Z.lt (insert_number n l).
Proof.
  induction 1 as [|k l Hl IH Hk]; cbn [insert_number]; [by repeat constructor|].
  destruct (Z.ltb_spec n k).
  - constructor; [by constructor|]. constructor; [done|]. eapply Forall_impl; [exact Hk|]. intros; lia.
  - destruct (Z.eqb_spec n k) as [->|]; [by constructor|]. constructor; [done|].
    apply Forall_forall. intros m [->|Hm]%insert_number_elem; [lia|]. rewrite Forall_forall in Hk. by apply Hk.
Qed.
Lemma numbers_sorted lr mr p : StronglySorted Z.lt (numbers lr mr p).
Proof. unfold numbers. generalize (collect lr (parse_uint u64_max) (links p) ++ collect mr metadata_number (metadata p)).
  intros l. induction l; cbn [fold_right]; [constructor|by apply insert_number_sorted]. Qed.
Lemma fold_insert_elem m l : m ∈ fold_right insert_number [] l <-> m ∈ l.
Proof. induction l as [|n l IH]; cbn [fold_right]; [done|]. by rewrite insert_number_elem, IH, elem_of_cons. Qed.

Lemma collect_elem readable parse d n :
  n ∈ collect readable parse d <-> readable = true /\ exists name content, d !! name = Some content /\ parse name = Some n.
Proof.
  unfold collect. destruct readable; [|split; [intros ?%not_elem_of_nil; done|by intros [? _]]].
  rewrite list_elem_of_omap. split.
  - intros (name & Hin & Hp). split; [done|]. apply list_elem_of_fmap in Hin as ([k v] & -> & Hin).
    apply elem_of_map_to_list in Hin. eauto.
  - intros (_ & name & content & Hl & Hp). exists name. split; [|done]. apply list_elem_of_fmap.
    exists (name, content). split; [done|]. by apply elem_of_map_to_list.
Qed.
Lemma numbers_elem lr mr p n :
  n ∈ numbers lr mr p <->
  (lr = true /\ exists name target, links p !! name = Some target /\ parse_uint u64_max name = Some n) \/
  (mr = true /\ exists name content, metadata p !! name = Some content /\ metadata_number name = Some n).
Proof. unfold numbers. by rewrite fold_insert_elem, elem_of_app, !collect_elem. Qed.

Lemma sorted_last l n : StronglySorted Z.lt l -> last l = Some n -> forall m, m ∈ l -> m <= n.
Proof.
  induction 1 as [|k l Hl IH Hk]; [done|]. intros Hlast m [->|Hm]%elem_of_cons.
  - destruct l as [|k' l]; [injection Hlast as ->; lia|]. apply last_Some_elem_of in Hlast as Hin.
    rewrite Forall_forall in Hk. apply elem_of_cons in Hin as [->|Hin]; [lia|]. specialize (Hk n Hin). lia.
  - destruct l as [|k' l]; [by apply not_elem_of_nil in Hm|]. by apply IH.
Qed.

(** No number in use is the last one a u64 holds. *)
Definition has_room (p : profile) : Prop := forall n, n ∈ numbers true true p -> n < u64_max.

Lemma next_number_fresh p :
  has_room p ->
  let n := next_number true true p in
  0 <= n <= u64_max /\ (forall m, m ∈ numbers true true p -> m < n) /\
  links p !! link n = None /\ metadata p !! metadata_name n = None.
Proof.
  intros Hroom n.
  assert (Hbound : forall m, m ∈ numbers true true p -> 0 <= m <= u64_max).
  { intros m [(_ & name & ? & _ & Hp)|(_ & name & ? & _ & Hp)]%numbers_elem; [by eapply parse_uint_bound|].
    unfold metadata_number in Hp. destruct (strip_suffix _ name); [|done]. by eapply parse_uint_bound. }
  assert (Hn : 0 <= n <= u64_max /\ forall m, m ∈ numbers true true p -> m < n).
  { unfold n, next_number. destruct (last (numbers true true p)) as [h|] eqn:El.
    - pose proof (last_Some_elem_of _ _ El) as Hin. pose proof (Hroom h Hin). pose proof (Hbound h Hin).
      rewrite Z.mod_small by lia. split; [lia|]. intros m Hm.
      pose proof (sorted_last _ _ (numbers_sorted true true p) El m Hm). lia.
    - apply last_None in El. rewrite El. split; [unfold u64_max; lia|]. intros m ?%not_elem_of_nil. done. }
  destruct Hn as [Hr Hlt]. split_and!; [lia|lia|done| |].
  - destruct (links p !! link n) as [t|] eqn:E; [|done]. exfalso. assert (n ∈ numbers true true p) as Hin%Hlt; [|lia].
    apply numbers_elem. left. split; [done|]. exists (link n), t. split; [done|]. apply parse_uint_dec; [lia|done].
  - destruct (metadata p !! metadata_name n) as [c|] eqn:E; [|done]. exfalso. assert (n ∈ numbers true true p) as Hin%Hlt; [|lia].
    apply numbers_elem. right. split; [done|]. exists (metadata_name n), c. split; [done|]. unfold metadata_number, metadata_name.
    rewrite (proj2 (strip_suffix_Some _ _ (dec n))) by done. cbn [option_bind]. apply parse_uint_dec; [lia|done].
Qed.

(* ------------------------------------------------------------------ *)
(** ** Appending *)

(** [p'] differs from [p] in generation [n] and [current] only. *)
Definition only (n : Z) (p p' : profile) : Prop :=
  (forall name, name <> link n -> links p' !! name = links p !! name) /\
  (forall name, name <> metadata_name n -> name <> lock_snapshot n -> metadata p' !! name = metadata p !! name).
Lemma only_refl n p : only n p p.
Proof. by split. Qed.
Lemma only_trans n p q r : only n p q -> only n q r -> only n p r.
Proof. intros [A1 A2] [B1 B2]. split; intros; [rewrite B1, A1|rewrite B2, A2]; done. Qed.

Definition keeps {A} (n : Z) (m : sem profile RegistryError A) : Prop := forall p r p', m p = (r, p') -> only n p p'.
Lemma keeps_bind {A B} n (m : sem profile RegistryError A) (k : A -> sem profile RegistryError B) :
  keeps n m -> (forall a, keeps n (k a)) -> keeps n (sbind m k).
Proof.
  intros Hm Hk p r p'. unfold sbind. destruct (m p) as [[a|e] q] eqn:E; [|intros [= _ <-]; by apply (Hm _ _ _ E)].
  intros H. eapply only_trans; [by apply (Hm _ _ _ E)|by eapply Hk].
Qed.
Lemma keeps_pure {A} n (r : result A RegistryError) : keeps n (fun p => (r, p)).
Proof. intros p r' p' [= _ <-]. apply only_refl. Qed.
Lemma keeps_publish n outcome name content :
  name = metadata_name n \/ name = lock_snapshot n -> keeps n (publish outcome name content).
Proof.
  intros Hn p r p'. unfold publish, published.
  destruct outcome; intros [= _ <-]; try apply only_refl;
    (split; [done|]; intros key H1 H2; cbn [set_metadata metadata]; apply lookup_insert_ne; destruct Hn; congruence).
Qed.
Lemma keeps_discard n name : name = metadata_name n \/ name = lock_snapshot n -> keeps n (discard name).
Proof.
  intros Hn p r p' [= _ <-]. split; [done|]. intros key H1 H2. cbn [set_metadata metadata].
  apply lookup_delete_ne. destruct Hn; congruence.
Qed.
Lemma keeps_register n reg target : keeps n (register_root reg n target).
Proof.
  intros p r p'. unfold register_root. destruct reg as [|[]]; intros [= _ <-]; try apply only_refl;
    (split; [|done]; intros key H1; cbn [set_links links]; by apply lookup_insert_ne).
Qed.
Lemma keeps_current n outcome m : keeps n (set_current outcome m).
Proof. intros p r p'. unfold set_current, published. destruct outcome; intros [= _ <-]; by split. Qed.
Lemma keeps_root n w target : keeps n (root_step w n target).
Proof.
  intros p r p'. unfold root_step. destruct (register_root (w_register w) n target p) as [[a|e] q] eqn:E.
  - intros [= _ <-]. by eapply keeps_register.
  - intros H. eapply only_trans; [by eapply keeps_register|]. revert H.
    apply keeps_bind; [apply keeps_discard; by left|]. intros _.
    apply keeps_bind; [apply keeps_discard; by right|]. intros _. apply keeps_pure.
Qed.

Lemma append_only to_vec w record lock p r p' :
  append to_vec w record lock p = (r, p') -> only (next_number (w_links_readable w) (w_metadata_readable w) p) p p'.
Proof.
  unfold append. destruct (w_directories w); cbn [negb]; [|intros [= _ <-]; apply only_refl].
  set (n := next_number _ _ p). clearbody n. revert r p'. apply keeps_bind; [apply keeps_publish; by right|]. intros _.
  destruct (w_digest w lock) as [digest|].
  - apply keeps_bind; [apply keeps_pure|]. intros rendered. apply keeps_bind; [apply keeps_publish; by left|]. intros _.
    apply keeps_bind; [apply keeps_root|]. intros _. apply keeps_bind; [apply keeps_current|]. intros _. apply keeps_pure.
  - apply keeps_bind; [apply keeps_discard; by right|]. intros _. apply keeps_pure.
Qed.

(** An append never rewrites history, whichever of its steps fails: the number it takes is one no link and no record
    of the profile carries, and every link and record there was is unchanged after it. *)
Theorem append_keeps_history to_vec w record lock p r p' :
  w_links_readable w = true -> w_metadata_readable w = true -> has_room p ->
  append to_vec w record lock p = (r, p') ->
  let n := next_number true true p in
  (forall m, m ∈ numbers true true p -> m < n) /\ links p !! link n = None /\ metadata p !! metadata_name n = None /\
  (forall name target, links p !! name = Some target -> links p' !! name = Some target) /\
  (forall name content, metadata p !! name = Some content -> name <> lock_snapshot n -> metadata p' !! name = Some content).
Proof.
  intros Hl Hm Hroom H n. apply append_only in H. rewrite Hl, Hm in H. fold n in H. destruct H as [H1 H2].
  destruct (next_number_fresh p Hroom) as (_ & Hlt & Hnl & Hnm). fold n in Hlt, Hnl, Hnm.
  split_and!; [done..| |].
  - intros name target E. rewrite H1; [done|]. intros ->. congruence.
  - intros name content E Hne. rewrite H2; [done| |done]. intros ->. congruence.
Qed.

Lemma dec_no_slash n : 0 <= n <= u64_max -> slash ∉ dec n.
Proof.
  intros Hn Hin. destruct (dec_spec n) as (Hd & _ & _); [unfold u64_max in *; lia|].
  rewrite forallb_forall in Hd. apply list_elem_of_In in Hin. by apply Hd in Hin.
Qed.
Lemma dec_plain n : 0 <= n <= u64_max -> plain_name (dec n).
Proof.
  intros Hn. destruct (dec_spec n) as (Hd & Hv & Hne); [unfold u64_max in *; lia|].
  split_and!; [done| | |by apply dec_no_slash]; intros E; by rewrite E in Hd.
Qed.
Lemma current_target_file_name n : 0 <= n <= u64_max -> file_name (current_target n) = Some (dec n).
Proof.
  intros Hn. pose proof (dec_plain n Hn) as Hp. unfold current_target, join. rewrite (is_absolute_plain _ Hp).
  change (last GENERATIONS_DIR) with (Some "s"%byte). cbv iota. rewrite decide_False by done.
  unfold file_name, components. change (is_absolute (GENERATIONS_DIR ++ slash :: dec n)) with false. cbv iota.
  rewrite split_on_app_cons by (apply contains_false; vm_compute; reflexivity).
  rewrite split_on_single by (by apply dec_no_slash). change (bool_decide (GENERATIONS_DIR = dot)) with false.
  cbv iota. cbn [omap list_omap app]. change (piece_component GENERATIONS_DIR) with (Some (Normal GENERATIONS_DIR)).
  rewrite (piece_component_plain _ Hp). reflexivity.
Qed.
Lemma json_not_lock stem m : stem ++ bs ".json" <> lock_snapshot m.
Proof.
  unfold lock_snapshot. intros E. apply (f_equal last) in E.
  change (bs ".json") with (bs ".jso" ++ ["n"%byte]) in E. change (bs ".lock") with (bs ".loc" ++ ["k"%byte]) in E.
  rewrite !app_assoc, !last_snoc in E. done.
Qed.
Lemma metadata_not_lock n m : metadata_name n <> lock_snapshot m.
Proof. apply json_not_lock. Qed.

(** An append that succeeds has recorded the build whole: the link carries the store path, the retained lockfile the
    very bytes it was given, the record that store path with the digest of those bytes, and [current] the new number. *)
Theorem append_records_the_build to_vec w record lock p n p' :
  0 <= next_number (w_links_readable w) (w_metadata_readable w) p <= u64_max ->
  append to_vec w record lock p = (Ok n, p') ->
  n = next_number (w_links_readable w) (w_metadata_readable w) p /\
  links p' !! link n = Some (store_path_of record) /\ metadata p' !! lock_snapshot n = Some lock /\
  current_number p' = Some n /\
  exists digest rendered, w_digest w lock = Some digest /\ to_vec (with_digest record digest) = Some rendered /\
    metadata p' !! metadata_name n = Some rendered.
Proof.
  unfold append. destruct (w_directories w); cbn [negb]; [|done]. set (k := next_number _ _ p). clearbody k. intros Hk H.
  inv_sok. destruct (w_digest w lock) as [digest|]; [|inv_sok; done]. inv_sok.
  match goal with Hr : ok_or _ _ = Ok _ |- _ => apply ok_or_ok in Hr end.
  unfold publish, published, root_step, register_root, set_current, sbind, discard, sfail in *.
  destruct (w_lock w), (w_record w), (w_register w) as [|[]], (w_current w); simplify_eq;
    match goal with Hc : published _ _ _ = _ |- _ => cbv [published] in Hc; simplify_eq | _ => idtac end.
  cbn [set_links set_metadata links metadata current]. split_and!; [done|by rewrite lookup_insert_eq| | |].
  - rewrite lookup_insert_ne by apply metadata_not_lock. by rewrite lookup_insert_eq.
  - unfold current_number. cbn [current option_bind]. rewrite current_target_file_name by done. cbn [option_bind].
    apply parse_uint_dec; [done|unfold u64_max; lia].
  - eexists _, _. split_and!; [done..|by rewrite lookup_insert_eq].
Qed.

(** A failed registration that left no symlink leaves the profile as it was, so the number it had taken is the next
    one again. *)
Theorem failed_registration_frees_the_number to_vec w record lock p p' :
  w_links_readable w = true -> w_metadata_readable w = true -> has_room p ->
  metadata p !! lock_snapshot (next_number true true p) = None -> w_register w = NotRegistered false ->
  append to_vec w record lock p = (Err GenerationRoot, p') -> w_digest w lock <> None -> w_lock w = Published ->
  w_record w = Published -> (forall rec, to_vec rec <> None) -> w_directories w = true ->
  p' = p /\ next_number true true p' = next_number true true p.
Proof.
  intros Hlr Hmr Hroom Hlock Hreg H Hdig Hpl Hpr Hto Hdir.
  destruct (next_number_fresh p Hroom) as (_ & _ & _ & Hmeta).
  assert (p' = p) as ->; [|done]. revert H. unfold append. rewrite Hdir, Hlr, Hmr. cbn [negb].
  set (n := next_number true true p) in *. clearbody n.
  destruct (w_digest w lock) as [digest|]; [|done]. specialize (Hto (with_digest record digest)).
  destruct (to_vec (with_digest record digest)) as [rendered|] eqn:Er; [|done].
  unfold publish, published, root_step, register_root, discard, sfail, slift, sbind. rewrite Hpl, Hreg, Hpr.
  cbn [ok_or]. intros [= <-]. unfold set_metadata. cbn [links metadata current]. destruct p as [l m c]. cbn [links metadata current] in *.
  f_equal. apply map_eq. intros key.
  destruct (decide (key = lock_snapshot n)) as [->|Hk1]; [by rewrite lookup_delete_eq|]. rewrite lookup_delete_ne by done.
  destruct (decide (key = metadata_name n)) as [->|Hk2]; [by rewrite lookup_delete_eq|].
  by rewrite lookup_delete_ne, !lookup_insert_ne by done.
Qed.


Lemma unlink_effect a b c n p r p' :
  unlink a b c n p = (r, p') ->
  only n p p' /\ current p' = current p /\
  (r = Ok tt -> links p' !! link n = None /\ metadata p' !! metadata_name n = None /\ metadata p' !! lock_snapshot n = None) /\
  (is_Some (links p' !! link n) -> p' = p).
Proof.
  unfold unlink, set_links, set_metadata. destruct (remove a _) as [u1|]; cbn [links metadata current].
  - destruct (remove b _) as [u2|]; cbn [links metadata current].
    + destruct (remove c _) as [u3|]; intros [= <- <-]; cbn [links metadata current]; split_and!; try done;
        try (rewrite lookup_delete_eq; by intros []).
      * split; intros; cbn; by rewrite !lookup_delete_ne.
      * intros _. rewrite !lookup_delete_eq, lookup_delete_ne, lookup_delete_eq; [done|].
        intros E. symmetry in E. by apply metadata_not_lock in E.
      * split; intros; cbn; by rewrite lookup_delete_ne.
    + intros [= <- <-]; cbn [links metadata current]; split_and!; try done; try (rewrite lookup_delete_eq; by intros []).
      split; intros; cbn; [by rewrite lookup_delete_ne|done].
  - intros [= <- <-]. split_and!; try done. 
Qed.

(** Unlinking removes a generation's link, record and lockfile and nothing else, keeping [current]; the link goes
    first, so while it is still there nothing has been removed. *)
Theorem unlink_spec a b c n p r p' :
  unlink a b c n p = (r, p') ->
  only n p p' /\ current p' = current p /\
  (r = Ok tt -> links p' !! link n = None /\ metadata p' !! metadata_name n = None /\ metadata p' !! lock_snapshot n = None) /\
  (is_Some (links p' !! link n) -> p' = p).
Proof. apply unlink_effect. Qed.

(* ------------------------------------------------------------------ *)
(** ** Witnesses *)

Definition demo_record (path : string) : GenerationRecord :=
  mk_GenerationRecord (bs path) [] (bs "demo") (bs "cloud-hypervisor") (rfc3339_utc 1767225600).
Definition demo_vec (r : GenerationRecord) : option bytes := Some (store_path_of r ++ lock_digest r).
Definition demo_digest (lock : bytes) : option bytes := Some (take 3 lock).
Definition demo_world (readable : bool) (reg : registration) : world :=
  mk_world true readable readable Published demo_digest Published reg Published.
Definition demo_profile : profile :=
  mk_profile {[ bs "2" := bs "/nix/store/b" ]} {[ bs "2.json" := bs "old"; bs "3.json" := bs "crashed" ]} None.

Lemma demo_has_room : has_room demo_profile.
Proof.
  assert (numbers true true demo_profile = [2; 3]) as E by (vm_compute; reflexivity).
  unfold has_room. rewrite E. clear E. intros n Hn. unfold u64_max.
  apply elem_of_cons in Hn as [Hn|Hn]; [lia|]. apply list_elem_of_singleton in Hn. lia.
Qed.

(** The number is past the crashed half too, and the old record stays. *)
Lemma append_keeps_history_witness :
  next_number true true demo_profile = 4 /\
  metadata (snd (append demo_vec (demo_world true Registered) (demo_record "/nix/store/c") (bs "lock") demo_profile))
    !! bs "3.json" = Some (bs "crashed").
Proof.
  split; [vm_compute; reflexivity|].
  pose proof (append_keeps_history demo_vec (demo_world true Registered) (demo_record "/nix/store/c") (bs "lock") demo_profile
    _ _ eq_refl eq_refl demo_has_room (surjective_pairing _)) as (_ & _ & _ & _ & H).
  apply H; [vm_compute; reflexivity|vm_compute; discriminate].
Defined.

Lemma append_records_the_build_witness :
  let p' := snd (append demo_vec (demo_world true Registered) (demo_record "/nix/store/c") (bs "lock") demo_profile) in
  links p' !! bs "4" = Some (bs "/nix/store/c").
Proof.
  cbv zeta.
  assert (fst (append demo_vec (demo_world true Registered) (demo_record "/nix/store/c") (bs "lock") demo_profile) = Ok 4)
    as Hr by (vm_compute; reflexivity).
  refine (proj1 (proj2 (append_records_the_build demo_vec (demo_world true Registered) (demo_record "/nix/store/c")
    (bs "lock") demo_profile 4 _ _ _))); [split; vm_compute; discriminate|].
  rewrite <- Hr. apply surjective_pairing.
Defined.

Lemma failed_registration_frees_the_number_witness :
  snd (append demo_vec (demo_world true (NotRegistered false)) (demo_record "/nix/store/c") (bs "lock") demo_profile)
  = demo_profile.
Proof.
  assert (fst (append demo_vec (demo_world true (NotRegistered false)) (demo_record "/nix/store/c") (bs "lock") demo_profile)
    = Err GenerationRoot) as Hr by (vm_compute; reflexivity).
  refine (proj1 (failed_registration_frees_the_number demo_vec (demo_world true (NotRegistered false))
    (demo_record "/nix/store/c") (bs "lock") demo_profile _ eq_refl eq_refl demo_has_room _ eq_refl _ _ eq_refl eq_refl _ eq_refl));
    [vm_compute; reflexivity| |discriminate|discriminate].
  rewrite <- Hr. apply surjective_pairing.
Defined.

Lemma unlink_spec_witness : links (snd (unlink true true true 2 demo_profile)) !! bs "2" = None.
Proof.
  exact (proj1 (proj1 (proj2 (proj2 (unlink_spec true true true 2 demo_profile _ _ (surjective_pairing _)))) ltac:(vm_compute; reflexivity))).
Defined.

Definition first_profile : profile :=
  mk_profile {[ bs "1" := bs "/nix/store/a" ]} {[ bs "1.json" := bs "first" ]} None.
Lemma first_numbers : numbers true true first_profile = [1].
Proof. vm_compute. reflexivity. Qed.

(** The number comes from a scan that reads an unreadable directory as empty, so an append during such a fault takes
    a number in use and replaces its record. *)
Theorem unreadable_scan_rewrites_history :
  exists p p' n old new,
    append demo_vec (demo_world false Registered) (demo_record "/nix/store/c") (bs "lock") p = (Ok n, p') /\
    n ∈ numbers true true p /\ metadata p !! metadata_name n = Some old /\ metadata p' !! metadata_name n = Some new /\
    old <> new.
Proof.
  exists first_profile. eexists _, 1, (bs "first"), _. rewrite first_numbers.
  split_and!; [vm_compute; reflexivity|left|vm_compute; reflexivity|vm_compute; reflexivity|vm_compute; discriminate].
Qed.

(** Generation numbers come back: once the newest generation is unlinked, the next append's number is no greater
    than the one that was in use. *)
Theorem pruned_number_comes_back a b c n p p' :
  last (numbers true true p) = Some n -> 1 <= n < u64_max ->
  (forall name, is_Some (links p !! name) \/ is_Some (metadata p !! (name ++ bs ".json")) ->
     parse_uint u64_max name = Some n -> name = link n) ->
  unlink a b c n p = (Ok tt, p') -> next_number true true p' <= n.
Proof.
  intros Hlast Hn Hcanon H. destruct (unlink_effect _ _ _ _ _ _ _ H) as ([Hl Hm] & _ & Hgone & _).
  destruct (Hgone eq_refl) as (G1 & G2 & _).
  assert (Hlt : forall m, m ∈ numbers true true p' -> 0 <= m < n).
  { intros m Hin. assert (Hp : m <> n /\ m ∈ numbers true true p /\ 0 <= m <= u64_max).
    { rewrite numbers_elem. apply numbers_elem in Hin as [(_ & name & t & Hk & Hp)|(_ & name & t & Hk & Hp)].
      - pose proof (parse_uint_bound _ _ _ Hp) as Hb.
        assert (name <> link n) as Hne by (intros ->; congruence). rewrite Hl in Hk by done.
        split_and!; [intros ->; apply Hne; by apply Hcanon; [left|]|left; eauto|lia..].
      - pose proof Hp as Hp'. unfold metadata_number in Hp'. destruct (strip_suffix (bs ".json") name) as [stem|] eqn:Es; [|done].
        apply strip_suffix_Some in Es as ->. cbn [option_bind] in Hp'.
        pose proof (parse_uint_bound _ _ _ Hp') as Hb.
        assert (Hne : stem ++ bs ".json" <> metadata_name n) by (intros E; rewrite E in Hk; congruence).
        rewrite Hm in Hk; [|done|intros E; by apply (json_not_lock stem n)].
        split_and!; [|right; split; [done|]; by eexists _, t|lia..].
        intros ->. apply Hne. unfold metadata_name. f_equal. by apply Hcanon; [right|]. }
    destruct Hp as (Hne & Hin' & Hb). pose proof (sorted_last _ _ (numbers_sorted true true p) Hlast m Hin'). lia. }
  unfold next_number. destruct (last (numbers true true p')) as [h|] eqn:El; [|lia].
  apply last_Some_elem_of in El. specialize (Hlt h El). rewrite Z.mod_small by lia. lia.
Qed.

Definition two_generations : profile :=
  mk_profile {[ bs "1" := bs "/nix/store/a"; bs "2" := bs "/nix/store/b" ]} ∅ (Some (bs "generations/1")).
Lemma pruned_number_comes_back_witness : next_number true true (snd (unlink true true true 2 two_generations)) <= 2.
Proof.
  refine (pruned_number_comes_back true true true 2 two_generations _ _ _ _ _).
  - vm_compute. reflexivity.
  - split; vm_compute; [discriminate|reflexivity].
  - intros name [[t Ht]|[t Ht]] Hp; unfold two_generations in Ht; cbn [links metadata] in Ht; [|by rewrite lookup_empty in Ht].
    apply lookup_insert_Some in Ht as [[<- _]|[_ Ht]]; [vm_compute in Hp; discriminate|].
    apply lookup_singleton_Some in Ht as [<- _]. reflexivity.
  - vm_compute. reflexivity.
Defined.
