(* ===== verification/Diagnostic.v ===== *)
(** * Diagnostics and exit codes ([src/src/exit.rs], [src/src/diagnostic.rs])

    The closed exit taxonomy, the diagnostic with its slots, the position of a byte offset in a source text, and the
    two renderings of a failure: the human skeleton and the JSON object of [--json].  Text is a list of UTF-8 bytes. *)
From S2P Require Import Prelude Bytes.

Inductive ExitKind :=
| Success | Usage | DataErr | Unavailable | Software | IoErr | TempFail | NoPerm | Config | DoctorStrict
| GuestStatus (status : Z).
#[global] Instance ExitKind_eq_dec : EqDecision ExitKind.
Proof. solve_decision. Defined.

Definition code (k : ExitKind) : Z :=
  match k with
  | Success => 0 | DoctorStrict => 1 | Usage => 64 | DataErr => 65 | Unavailable => 69 | Software => 70
  | IoErr => 74 | TempFail => 75 | NoPerm => 77 | Config => 78
  | GuestStatus status => status
  end.

Inductive Namespace := N_Manifest | N_State | N_Merge | N_Lock | N_Host | N_Vm | N_Guest | N_Store | N_Internal.
#[global] Instance Namespace_eq_dec : EqDecision Namespace.
Proof. solve_decision. Defined.
Definition namespace_str (n : Namespace) : bytes :=
  match n with
  | N_Manifest => bs "manifest" | N_State => bs "state" | N_Merge => bs "merge" | N_Lock => bs "lock"
  | N_Host => bs "host" | N_Vm => bs "vm" | N_Guest => bs "guest" | N_Store => bs "store" | N_Internal => bs "internal"
  end.

Record DiagnosticId := mk_DiagnosticId { namespace : Namespace; condition : bytes }.
#[global] Instance DiagnosticId_eq_dec : EqDecision DiagnosticId.
Proof. solve_decision. Defined.
Definition is_well_formed (i : DiagnosticId) : bool :=
  negb (bool_decide (condition i = [])) &&
  forallb (fun b => is_ascii_lowercase b || is_ascii_digit b || bool_decide (b = "-"%byte)) (condition i).
Definition id_display (i : DiagnosticId) : bytes := namespace_str (namespace i) ++ bs "." ++ condition i.

Inductive Locus :=
| Position (path : bytes) (line column : Z)
| File (path : bytes)
| Named (name : bytes).
#[global] Instance Locus_eq_dec : EqDecision Locus.
Proof. solve_decision. Defined.

(** A byte that begins a character of UTF-8 text; the others continue one. *)
Definition starts_char (b : byte) : bool := negb ((128 <=? bz b) && (bz b <? 192)).
Definition position_step (at_ : Z * Z) (b : byte) : Z * Z :=
  let '(line, column) := at_ in
  if bool_decide (b = x0a) then (line + 1, 1)
  else if starts_char b then (line, column + 1) else (line, column).
Definition in_source (path source : bytes) (offset : nat) : Locus :=
  let '(line, column) := fold_left position_step (take (Nat.min offset (length source)) source) (1, 1) in
  Position path line column.
Definition locus_path (l : Locus) : option bytes :=
  match l with Position path _ _ | File path => Some path | Named _ => None end.
Definition locus_display (l : Locus) : bytes :=
  match l with
  | Position path line column => path ++ bs ":" ++ dec line ++ bs ":" ++ dec column
  | File path => path
  | Named name => name
  end.

Record Diagnostic := mk_Diagnostic {
  id : DiagnosticId; what : bytes; locus : Locus; why : bytes; accepted : list bytes; hint : option bytes }.
Definition new (i : DiagnosticId) (w : bytes) (l : Locus) (y : bytes) : Diagnostic := mk_Diagnostic i w l y [] None.
Definition with_accepted (a : list bytes) (d : Diagnostic) : Diagnostic :=
  mk_Diagnostic (id d) (what d) (locus d) (why d) a (hint d).
Definition with_hint (h : bytes) (d : Diagnostic) : Diagnostic :=
  mk_Diagnostic (id d) (what d) (locus d) (why d) (accepted d) (Some h).

(** [{:04x}] of a control character. *)
Definition hex_digit (z : Z) : byte := if z <? 10 then zb (48 + z) else zb (87 + z).
Definition quote : byte := x22.
Definition backslash : byte := "\"%byte.
Definition escape_char (b : byte) : bytes :=
  if bool_decide (b = quote) then [backslash; quote]
  else if bool_decide (b = backslash) then [backslash; backslash]
  else if bool_decide (b = x0a) then bs "\n"
  else if bool_decide (b = x0d) then bs "\r"
  else if bool_decide (b = x09) then bs "\t"
  else if bz b <? 32 then bs "\u00" ++ [hex_digit (bz b / 16); hex_digit (bz b mod 16)]
  else [b].
Definition json_string (value : bytes) : bytes := quote :: concat (map escape_char value) ++ [quote].

Definition field (name : bytes) (value : bytes) : bytes := json_string name ++ bs ":" ++ value.
Definition object (fields : list bytes) : bytes := bs "{" ++ join_with ","%byte fields ++ bs "}".
Definition locus_json (l : Locus) : bytes :=
  match l with
  | Position path line column =>
      object [field (bs "file") (json_string path); field (bs "line") (dec line); field (bs "col") (dec column)]
  | File path => object [field (bs "file") (json_string path)]
  | Named name => object [field (bs "locus") (json_string name)]
  end.
Definition to_json (d : Diagnostic) (c : Z) : bytes :=
  object ([field (bs "id") (json_string (id_display (id d))); field (bs "code") (dec c);
           field (bs "what") (json_string (what d)); field (bs "where") (locus_json (locus d));
           field (bs "why") (json_string (why d))] ++
          (if bool_decide (accepted d = []) then []
           else [field (bs "accepted") (bs "[" ++ join_with ","%byte (map json_string (accepted d)) ++ bs "]")]) ++
          match hint d with Some h => [field (bs "hint") (json_string h)] | None => [] end).

(** The human skeleton.  A palette decorates a slot; [plain] leaves it alone. *)
Record Palette := mk_Palette { p_error : bytes -> bytes; p_id : bytes -> bytes; p_what : bytes -> bytes;
  p_locus : bytes -> bytes; p_label : bytes -> bytes; p_hint : bytes -> bytes }.
Definition plain : Palette := mk_Palette (fun s => s) (fun s => s) (fun s => s) (fun s => s) (fun s => s) (fun s => s).
Fixpoint join_comma (l : list bytes) : bytes :=
  match l with [] => [] | [x] => x | x :: l' => x ++ bs ", " ++ join_comma l' end.
Definition newline : bytes := [x0a].
Definition render (p : Palette) (d : Diagnostic) : bytes :=
  p_error p (bs "error") ++ p_id p (bs "[" ++ id_display (id d) ++ bs "]") ++ bs ": " ++ p_what p (what d) ++ newline ++
  bs "  " ++ p_locus p (bs "--> " ++ locus_display (locus d)) ++ newline ++
  bs "  " ++ p_label p (bs "why:") ++ bs " " ++ why d ++
  (if bool_decide (accepted d = []) then []
   else newline ++ bs "  " ++ p_label p (bs "accepted here:") ++ bs " " ++ join_comma (accepted d)) ++
  match hint d with
  | None => []
  | Some h =>
      match lines h with
      | [] => []
      | first :: rest =>
          newline ++ bs "  " ++ p_label p (bs "hint:") ++ bs " " ++ p_hint p first ++
          concat (map (fun line => newline ++ bs "        " ++ p_hint p line) rest)
      end
  end.

(* ------------------------------------------------------------------ *)
(** ** What a JSON reader makes of it *)

Definition hex_value (b : byte) : option Z :=
  if is_ascii_digit b then Some (bz b - 48)
  else if (97 <=? bz b) && (bz b <=? 102) then Some (bz b - 87)
  else if (65 <=? bz b) && (bz b <=? 70) then Some (bz b - 55) else None.
(** One element of a JSON string (RFC 8259, section 7), for code points below 128 in the [\u] form. *)
Definition read_escape (s : bytes) : option (byte * bytes) :=
  match s with
  | c :: s =>
      if bool_decide (c = quote) then Some (quote, s)
      else if bool_decide (c = backslash) then Some (backslash, s)
      else if bool_decide (c = "/"%byte) then Some ("/"%byte, s)
      else if bool_decide (c = "n"%byte) then Some (x0a, s)
      else if bool_decide (c = "r"%byte) then Some (x0d, s)
      else if bool_decide (c = "t"%byte) then Some (x09, s)
      else if bool_decide (c = "b"%byte) then Some (x08, s)
      else if bool_decide (c = "f"%byte) then Some (x0c, s)
      else if bool_decide (c = "u"%byte) then
        match s with
        | a :: b :: h :: l :: s =>
            let* a := hex_value a in let* b := hex_value b in let* h := hex_value h in let* l := hex_value l in
            let point := ((a * 16 + b) * 16 + h) * 16 + l in
            if point <? 128 then Some (zb point, s) else None
        | _ => None
        end
      else None
  | [] => None
  end.
Fixpoint read_chars (fuel : nat) (s : bytes) : option (bytes * bytes) :=
  match fuel, s with
  | S fuel, c :: s =>
      if bool_decide (c = quote) then Some ([], s)
      else if bz c <? 32 then None
      else
        let* (c, s) := (if bool_decide (c = backslash) then read_escape s else Some (c, s)) in
        let* (v, s) := read_chars fuel s in Some (c :: v, s)
  | _, _ => None
  end.
Definition read_json_string (s : bytes) : option (bytes * bytes) :=
  match s with
  | c :: s => if bool_decide (c = quote) then read_chars (S (length s)) s else None
  | [] => None
  end.

(** * Diagnostic: a failure object reads back, and positions count lines and characters. *)

#[local] Arguments bs : simpl never.
#[local] Arguments dec : simpl never.

Lemma read_chars_escape fuel b rest :
  read_chars (S fuel) (escape_char b ++ rest) = (let* (v, s) := read_chars fuel rest in Some (b :: v, s)).
Proof. destruct b; reflexivity. Qed.

Lemma read_chars_escaped fuel v rest :
  (length v < fuel)%nat -> read_chars fuel (concat (map escape_char v) ++ quote :: rest) = Some (v, rest).
Proof.
  revert fuel. induction v as [|b v IH]; intros [|fuel] Hf; simpl in Hf; try lia; [done|].
  cbn [map concat]. rewrite <- app_assoc, read_chars_escape, IH by lia. done.
Qed.

Lemma escape_char_length b : (1 <= length (escape_char b))%nat.
Proof. destruct b; vm_compute; lia. Qed.
Lemma escaped_length v : (length v <= length (concat (map escape_char v)))%nat.
Proof.
  induction v as [|b v IH]; [done|]. cbn [map concat]. rewrite length_app. pose proof (escape_char_length b). simpl. lia.
Qed.

(** Whatever bytes a slot of a diagnostic holds, the JSON string written for it is read back as exactly those bytes,
    with nothing of what follows it consumed. *)
Theorem json_string_round_trip v rest : read_json_string (json_string v ++ rest) = Some (v, rest).
Proof.
  unfold json_string, read_json_string. cbn [app]. rewrite bool_decide_true by done.
  rewrite <- app_assoc. apply read_chars_escaped. rewrite length_app. simpl. pose proof (escaped_length v). lia.
Qed.

Definition printable (b : byte) : Prop := 32 <= bz b.
Definition one_line (s : bytes) : Prop := Forall printable s.

Lemma one_line_app a b : one_line (a ++ b) <-> one_line a /\ one_line b.
Proof. apply Forall_app. Qed.
Lemma one_line_join c l : printable c -> Forall one_line l -> one_line (join_with c l).
Proof.
  intros Hc. induction 1 as [|x l Hx Hl IH]; [by constructor|]. destruct l as [|y l]; [done|].
  cbn [join_with]. apply one_line_app. split; [done|]. by constructor.
Qed.
Lemma one_line_escape b : one_line (escape_char b).
Proof. unfold one_line, printable. destruct b; cbv [escape_char]; repeat constructor; vm_compute; discriminate. Qed.
Lemma one_line_json_string v : one_line (json_string v).
Proof.
  unfold json_string. constructor; [vm_compute; discriminate|]. apply one_line_app.
  split; [|repeat constructor; vm_compute; discriminate].
  induction v as [|b v IH]; [constructor|]. cbn [map concat]. apply one_line_app. split; [apply one_line_escape|done].
Qed.
Lemma one_line_digits s : forallb is_ascii_digit s = true -> one_line s.
Proof.
  intros H. apply Forall_forall. intros b Hb. apply forallb_forall with (x := b) in H; [|by apply list_elem_of_In].
  unfold is_ascii_digit in H. unfold printable. lia.
Qed.
Lemma one_line_field name v : one_line v -> one_line (field name v).
Proof.
  intros. unfold field. rewrite !one_line_app. split_and!; [apply one_line_json_string| |done].
  repeat constructor; vm_compute; discriminate.
Qed.
Lemma one_line_object l : Forall one_line l -> one_line (object l).
Proof.
  intros. unfold object. rewrite !one_line_app.
  split_and!; [|apply one_line_join; [vm_compute; discriminate|done]|]; repeat constructor; vm_compute; discriminate.
Qed.
Lemma one_line_dec z : 0 <= z < 10 ^ 20 -> one_line (dec z).
Proof. intros. apply one_line_digits. by apply dec_spec. Qed.
#[export] Hint Resolve one_line_json_string one_line_field one_line_object one_line_dec : viv.

(** The bounds a position and a code have: they are machine integers. *)
Definition locus_bounded (l : Locus) : Prop :=
  match l with Position _ line column => 0 <= line <= u64_max /\ 0 <= column <= u64_max | _ => True end.

Ltac each_field :=
  repeat match goal with
  | |- Forall one_line [] => apply Forall_nil_2
  | |- Forall one_line (_ :: _) => apply Forall_cons_2
  end; try apply one_line_field.

Lemma one_line_locus l : locus_bounded l -> one_line (locus_json l).
Proof.
  destruct l; simpl; unfold u64_max; intros; apply one_line_object; each_field; auto with viv; apply one_line_dec; lia.
Qed.

(** The failure object of [--json] is one line whatever its slots hold: no byte of it is a control character. *)
Theorem to_json_is_one_line (d : Diagnostic) (c : Z) :
  0 <= c <= 255 -> locus_bounded (locus d) -> one_line (to_json d c).
Proof.
  intros Hc Hl. unfold to_json. apply one_line_object. apply Forall_app. split.
  - each_field; auto using one_line_locus with viv. apply one_line_dec. lia.
  - apply Forall_app. split.
    + case_bool_decide; [constructor|]. each_field. rewrite !one_line_app.
      split_and!; [repeat constructor; vm_compute; discriminate| |repeat constructor; vm_compute; discriminate].
      apply one_line_join; [vm_compute; discriminate|]. apply Forall_map, Forall_true. intros. apply one_line_json_string.
    + destruct (hint d); each_field; auto with viv.
Qed.

Lemma to_json_is_one_line_witness :
  one_line (to_json (new (mk_DiagnosticId N_Vm (bs "stop-failed")) [x0a; x22] (Position (bs "/m") 3 4) []) 69).
Proof. apply to_json_is_one_line; [lia|vm_compute; split; split; discriminate]. Defined.

(* ------------------------------------------------------------------ *)
(** ** Positions *)

Definition newlines (s : bytes) : Z := Z.of_nat (length (filter (fun b => b = x0a) s)).
Definition chars (s : bytes) : Z := Z.of_nat (length (filter (fun b => starts_char b = true) s)).

Lemma chars_cons b s : chars (b :: s) = (if starts_char b then 1 else 0) + chars s.
Proof.
  unfold chars. rewrite filter_cons. destruct (starts_char b); case_decide; try done. cbn [length]. lia.
Qed.

Lemma position_fold_line s line column :
  x0a ∉ s -> fold_left position_step s (line, column) = (line, column + chars s).
Proof.
  revert column. induction s as [|b s IH]; intros column Hs; [unfold chars; simpl; f_equal; lia|].
  apply not_elem_of_cons in Hs as [Hb Hs]. cbn [fold_left position_step]. rewrite bool_decide_false by congruence.
  rewrite chars_cons. destruct (starts_char b); rewrite IH by done; f_equal; lia.
Qed.

Lemma newlines_app a b : newlines (a ++ b) = newlines a + newlines b.
Proof. unfold newlines. rewrite filter_app, length_app. lia. Qed.
Lemma newlines_free s : x0a ∉ s -> newlines s = 0.
Proof.
  intros Hs. unfold newlines. induction s as [|b s IH]; [done|]. apply not_elem_of_cons in Hs as [Hb Hs].
  rewrite filter_cons. case_decide; [congruence|]. by apply IH.
Qed.

Lemma position_fold_lines s line column :
  fst (fold_left position_step s (line, column)) = line + newlines s.
Proof.
  revert line column. induction s as [|b s IH]; intros line column; [unfold newlines; simpl; lia|].
  cbn [fold_left position_step]. change (b :: s) with ([b] ++ s). rewrite newlines_app.
  unfold newlines at 1. rewrite filter_cons. destruct (decide (b = x0a)) as [->|Hb].
  - rewrite bool_decide_true, IH by done. simpl. lia.
  - rewrite bool_decide_false by done. destruct (starts_char b); rewrite IH; simpl; lia.
Qed.

(** The position of an offset is one-based: its line is one more than the line feeds before it, and its column one
    more than the characters between the last of them and the offset, an offset past the end reading as the end. *)
Theorem in_source_spec path source offset before line_start :
  take offset source = before ++ line_start -> x0a ∉ line_start ->
  (before = [] \/ last before = Some x0a) ->
  in_source path source offset = Position path (1 + newlines before) (1 + chars line_start).
Proof.
  intros Hs Hl Hb. unfold in_source.
  assert (Ht : take (Nat.min offset (length source)) source = before ++ line_start)
    by (by rewrite <- take_take, firstn_all).
  rewrite Ht, fold_left_app.
  assert (Hfold : fold_left position_step before (1, 1) = (1 + newlines before, 1)).
  { destruct Hb as [->|Hlast]; [done|]. apply last_Some in Hlast as [pre ->]. rewrite fold_left_app.
    pose proof (position_fold_lines pre 1 1) as Hp. destruct (fold_left position_step pre (1, 1)) as [l c]. simpl in Hp |- *.
    subst l. rewrite newlines_app. f_equal. change (newlines [x0a]) with 1. lia. }
  rewrite Hfold, position_fold_line by done. done.
Qed.

Lemma in_source_spec_witness :
  in_source (bs "/m") (bs "a" ++ [x0a] ++ bs "bc = 1") 4 = Position (bs "/m") 2 3.
Proof.
  apply (in_source_spec _ _ _ (bs "a" ++ [x0a]) (bs "bc")); [reflexivity| |right; reflexivity].
  intros H. vm_compute in H. repeat (apply elem_of_cons in H as [H|H]; [discriminate|]). by apply elem_of_nil in H.
Defined.

(** The exit code of a failure is the one its category carries, a byte in every case. *)
Lemma code_is_a_byte k : (forall s, k = GuestStatus s -> 0 <= s <= 255) -> 0 <= code k <= 255.
Proof. destruct k; simpl; intros H; try lia. by apply H. Qed.
