(* ===== verification/Toml.v ===== *)
(** * TOML documents with spans, as [toml::de] hands them over

    The parser is the [toml] crate's, a parameter of the readers: it answers the root table, or the offset of a syntax
    fault and its message.  A [Spanned] value is the value with the offset of its first byte; a table is its entries in
    the order its map iterates (by key), so document order is recovered from the offsets.  The accessors are those that
    [config/manifest.rs] and [config/input.rs] each define for themselves, over the error they raise. *)
From S2P Require Import Prelude Bytes.

Inductive DeValue :=
| DString (s : bytes)
| DInteger (digits : bytes) (radix : Z)
| DFloat
| DBoolean (b : bool)
| DDatetime
| DArray (items : list (nat * DeValue))
| DTable (fields : list (nat * bytes * (nat * DeValue))).
Definition spanned : Type := (nat * DeValue)%type.
Definition field_ : Type := (nat * bytes * spanned)%type.
Definition detable : Type := list field_.
Definition key_start (f : field_) : nat := fst (fst f).
Definition key_name (f : field_) : bytes := snd (fst f).
Definition start (v : spanned) : nat := fst v.

(** A syntax fault: where, when the parser knows, and its message. *)
Record syntax_error := mk_syntax_error { se_span : option nat; se_message : bytes }.
Definition toml_parser : Type := bytes -> result detable syntax_error.

Definition entry (t : detable) (key : string) : option spanned :=
  option_map snd (List.find (fun f => bytes_eqb (key_name f) (bs key)) t).

(** [i64::from_str_radix]: an optional sign, at least one digit, no overflow. *)
Definition radix_value (b : byte) : Z :=
  if is_ascii_digit b then bz b - 48
  else if is_ascii_lowercase b then bz b - 87 else if is_ascii_uppercase b then bz b - 55 else 99.
Definition i64_from_str_radix (s : bytes) (radix : Z) : option Z :=
  let '(negative, digits) :=
    match s with
    | b :: s' => if bool_decide (b = "-"%byte) then (true, s') else if bool_decide (b = "+"%byte) then (false, s') else (false, s)
    | [] => (false, s)
    end in
  if (length digits =? 0)%nat || negb (forallb (fun b => radix_value b <? radix) digits) then None else
  let magnitude := fold_left (fun a b => a * radix + radix_value b) digits 0 in
  let v := if negative : bool then - magnitude else magnitude in
  if (v <? i64_min) || (i64_max <? v) then None else Some v.

Lemma i64_from_str_radix_bound s radix z : i64_from_str_radix s radix = Some z -> i64_min <= z <= i64_max.
Proof.
  unfold i64_from_str_radix. destruct (match s with [] => _ | _ :: _ => _ end) as [negative digits].
  repeat case_match; intros; simplify_eq; lia.
Qed.

Lemma radix_value_digit b : is_ascii_digit b = true -> radix_value b = digit_value b /\ radix_value b < 10.
Proof. intros H. unfold radix_value, digit_value. rewrite H. unfold is_ascii_digit in H. lia. Qed.

Lemma decimal_fold digits a :
  forallb is_ascii_digit digits = true ->
  fold_left (fun a b => a * 10 + radix_value b) digits a = fold_left (fun a b => a * 10 + digit_value b) digits a.
Proof.
  revert a. induction digits as [|d digits IH]; intros a H; [done|].
  simpl in *. apply andb_true_iff in H as [Hd H]. destruct (radix_value_digit d Hd) as [-> _]. by apply IH.
Qed.

(** A decimal that was printed is read back. *)
Lemma i64_from_dec z : 0 <= z <= i64_max -> i64_from_str_radix (dec z) 10 = Some z.
Proof.
  intros Hz. unfold i64_max in Hz. destruct (dec_spec z ltac:(lia)) as (H1 & H2 & H3).
  unfold i64_from_str_radix. destruct (dec z) as [|b l] eqn:E; [done|].
  pose proof H1 as [Hb _]%andb_true_iff. destruct (digit_not_sign b Hb). rewrite !bool_decide_false by done.
  assert (forallb (fun b => radix_value b <? 10) (b :: l) = true) as ->.
  { apply forallb_forall. intros c Hc. pose proof (proj1 (forallb_forall _ _) H1 c Hc) as Hd.
    destruct (radix_value_digit c Hd). lia. }
  rewrite decimal_fold by done. fold (dec_value (b :: l)). rewrite H2. cbn [length Nat.eqb negb orb].
  unfold i64_min, i64_max. destruct (Z.ltb_spec z (-9223372036854775808)), (Z.ltb_spec 9223372036854775807 z); [lia..|done].
Qed.
