(* ===== verification/Artifact.v ===== *)
(** * Artifacts of the config library ([src/src/config/artifact.rs])

    A name resolves to one of two files under the library of its kind.  The file system is what [try_exists] and the
    listing of the library answer. *)
From S2P Require Import Prelude Bytes Paths Ordered Diagnostic.

Inductive ArtifactKind := Image | Piece | ManifestKind.
#[global] Instance ArtifactKind_eq_dec : EqDecision ArtifactKind.
Proof. solve_decision. Defined.
Definition library (k : ArtifactKind) : bytes :=
  match k with Image => bs "images" | Piece => bs "pieces" | ManifestKind => bs "manifests" end.
Definition extension (k : ArtifactKind) : bytes :=
  match k with Image | Piece => bs "nix" | ManifestKind => bs "toml" end.
Inductive ArtifactForm := Flat | Directory.
#[global] Instance ArtifactForm_eq_dec : EqDecision ArtifactForm.
Proof. solve_decision. Defined.
Record ResolvedArtifact := mk_ResolvedArtifact {
  ra_kind : ArtifactKind; ra_name : bytes; ra_form : ArtifactForm; ra_path : bytes }.

(** [ResolutionError], whole; the runtime directory's half is raised by [config/roots.rs]. *)
Inductive ResolutionError :=
| MissingHome (variable : bytes)
| MissingRuntimeDirectory
| RelativeRuntimeDirectory (path : bytes)
| InspectRuntimeDirectory (path : bytes)
| RuntimePathNotDirectory (path : bytes)
| RuntimeDirectoryWrongOwner (path : bytes) (expected_uid actual_uid : Z)
| RuntimeDirectoryAccessibleByOthers (path : bytes) (mode : Z)
| InvalidArtifactName (name : bytes)
| InspectArtifact (path : bytes)
| ArtifactNotFound (kind : ArtifactKind) (name flat directory : bytes)
| ArtifactAmbiguous (kind : ArtifactKind) (name flat directory : bytes).
Definition resolution_code (e : ResolutionError) : ExitKind :=
  match e with
  | MissingHome _ | InvalidArtifactName _ | ArtifactNotFound _ _ _ _ | ArtifactAmbiguous _ _ _ _ => Config
  | InspectArtifact _ => IoErr
  | _ => NoPerm
  end.

Definition valid_edge (b : byte) : bool := is_ascii_lowercase b || is_ascii_digit b.
Definition valid_artifact_name (name : bytes) : bool :=
  negb (bool_decide (name = [])) &&
  forallb (fun b => bz b <? 128) name &&
  match head name with Some b => valid_edge b | None => false end &&
  match last name with Some b => valid_edge b | None => false end &&
  forallb (fun b => valid_edge b || bool_decide (b = "-"%byte)) name.

Definition flat_path (config_root : bytes) (k : ArtifactKind) (name : bytes) : bytes :=
  join (join config_root (library k)) (name ++ bs "." ++ extension k).
Definition directory_path (config_root : bytes) (k : ArtifactKind) (name : bytes) : bytes :=
  join (join (join config_root (library k)) name) (bs "default." ++ extension k).

Section artifact.
(** [Path::try_exists]. *)
Context (try_exists : bytes -> option bool).
Definition probe (path : bytes) : result bool ResolutionError := ok_or (try_exists path) (InspectArtifact path).
Definition resolve_artifact (config_root : bytes) (kind : ArtifactKind) (name : bytes) : result ResolvedArtifact ResolutionError :=
  if negb (valid_artifact_name name) then Err (InvalidArtifactName name)
  else
    let flat := flat_path config_root kind name in
    let directory := directory_path config_root kind name in
    let? flat_exists := probe flat in
    let? directory_exists := probe directory in
    match flat_exists, directory_exists with
    | true, false => Ok (mk_ResolvedArtifact kind name Flat flat)
    | false, true => Ok (mk_ResolvedArtifact kind name Directory directory)
    | false, false => Err (ArtifactNotFound kind name flat directory)
    | true, true => Err (ArtifactAmbiguous kind name flat directory)
    end.
End artifact.

(** One entry of a library: its name when it is UTF-8 text, whether it is a directory when its type can be read, and
    whether [default.<ext>] inside it is a file. *)
Record library_entry := mk_library_entry { le_name : bytes; le_is_dir : option bool; le_default_is_file : bool }.
Inductive library_listing := NoLibrary | LibraryError | Entries (l : list (option library_entry)).
Definition member_of (kind : ArtifactKind) (e : option library_entry) : option bytes :=
  let* e := e in
  if negb (utf8_valid (le_name e)) then None else
  let* is_dir := le_is_dir e in
  if is_dir : bool then (if le_default_is_file e then Some (le_name e) else None)
  else strip_suffix (bs "." ++ extension kind) (le_name e).
(** [dedup] of a sorted vector. *)
Fixpoint dedup (l : list bytes) : list bytes :=
  match l with
  | [] => []
  | x :: l' => match l' with y :: _ => if bytes_eqb x y then dedup l' else x :: dedup l' | [] => [x] end
  end.
Definition artifact_names (config_root : bytes) (kind : ArtifactKind) (l : library_listing) : result (list bytes) ResolutionError :=
  match l with
  | NoLibrary => Ok []
  | LibraryError => Err (InspectArtifact (join config_root (library kind)))
  | Entries es => Ok (dedup (sort_bytes (omap (member_of kind) es)))
  end.

(* ------------------------------------------------------------------ *)
(** ** Lemmas *)

Lemma valid_name_ascii name : valid_artifact_name name = true -> forallb (fun b => bz b <? 128) name = true.
Proof. unfold valid_artifact_name. rewrite !andb_true_iff. tauto. Qed.

Lemma valid_edge_plain b : valid_edge b || bool_decide (b = "-"%byte) = true -> b <> "."%byte /\ b <> slash.
Proof. intros H. split; intros ->; discriminate H. Qed.

(** A valid name is one plain component: it cannot leave its library. *)
Lemma valid_name_plain name : valid_artifact_name name = true -> plain_name name.
Proof.
  unfold valid_artifact_name. rewrite !andb_true_iff, negb_true_iff, bool_decide_eq_false.
  intros ((((Hne & _) & Hh) & _) & Hall).
  assert (Hplain : forall b, b ∈ name -> b <> "."%byte /\ b <> slash).
  { intros b Hb. apply valid_edge_plain. rewrite forallb_forall in Hall. apply Hall. by apply list_elem_of_In. }
  split_and!; [done|..].
  - intros ->. destruct (Hplain "."%byte); [left|done].
  - intros ->. destruct (Hplain "."%byte); [left|done].
  - intros Hs. by destruct (Hplain slash Hs).
Qed.

Lemma dedup_elem x l : x ∈ dedup l <-> x ∈ l.
Proof.
  induction l as [|y l IH]; [done|]. destruct l as [|z l]; [done|].
  cbn [dedup]. destruct (bytes_eqb y z) eqn:E; [apply bytes_eqb_true in E as ->|]; rewrite ?IH, ?elem_of_cons in *; naive_solver.
Qed.

(** The path of a name in one of the two forms. *)
Definition form_path (config_root : bytes) (kind : ArtifactKind) (name : bytes) (form : ArtifactForm) : bytes :=
  match form with Flat => flat_path config_root kind name | Directory => directory_path config_root kind name end.
Definition other_form (form : ArtifactForm) : ArtifactForm := match form with Flat => Directory | Directory => Flat end.
(** A name resolves to the one form that exists, and only while the other does not. *)
Lemma resolve_artifact_ok try_exists config_root kind name sel :
  resolve_artifact try_exists config_root kind name = Ok sel <->
  valid_artifact_name name = true /\
  (let path := form_path config_root kind name in
   sel = mk_ResolvedArtifact kind name (ra_form sel) (path (ra_form sel)) /\
   try_exists (path (ra_form sel)) = Some true /\ try_exists (path (other_form (ra_form sel))) = Some false).
Proof.
  unfold resolve_artifact, probe. cbn zeta. destruct (valid_artifact_name name); cbn [negb]; [|naive_solver].
  destruct (try_exists (flat_path config_root kind name)) as [f|] eqn:Ef; cbn [ok_or rbind].
  2:{ split; [done|]. destruct sel as [? ? [] ?]; cbn [form_path other_form ra_form]; naive_solver congruence. }
  destruct (try_exists (directory_path config_root kind name)) as [d|] eqn:Ed; cbn [ok_or rbind].
  2:{ split; [done|]. destruct sel as [? ? [] ?]; cbn [form_path other_form ra_form]; naive_solver congruence. }
  split.
  - destruct f, d; intros [= <-]; cbn [form_path other_form ra_form]; by rewrite Ef, Ed.
  - destruct sel as [? ? [] ?]; cbn [form_path other_form ra_form]; rewrite Ef, Ed;
      intros (_ & Hs & [= ->] & [= ->]); by rewrite <- Hs.
Qed.
