(* ===== verification/Manifest.v ===== *)
(** * The manifest grammar ([src/src/config/manifest.rs], [ManifestError] of [src/src/config/error.rs])

    The document is walked as a spanned tree: a sweep for unknown keys over the whole of it, then the typed walk.  Every
    failure names itself and its position. *)
From S2P Require Import Prelude Bytes Paths Ordered Ip Allowlist Diagnostic Toml Artifact.

Definition ROOT_KEYS : list string :=
  ["image"; "pieces"; "extends"; "resources"; "egress"; "env"; "workspaces"; "mounts"; "volumes"; "volume"]%string.
Definition RESOURCE_KEYS : list string := ["mem_mib"; "vcpu"]%string.
Definition EGRESS_KEYS : list string := ["mode"; "allow"]%string.
Definition MOUNT_KEYS : list string := ["source"; "target"; "readonly"]%string.
Definition WORKSPACE_KEYS : list string := ["source"]%string.
Definition VOLUME_KEYS : list string := ["name"; "mount"; "size_gib"]%string.
Definition DEFAULT_VOLUME_KEYS : list string := ["size_gib"; "persist"]%string.
Definition EGRESS_MODES : list string := ["open"; "allowlist"]%string.
Definition RESERVED_VOLUME_NAMES : list string := ["default"; "store"]%string.
Definition MINIMUM_MEM_MIB : Z := 256.
Definition listed (name : bytes) (l : list string) : bool := existsb (fun k => bytes_eqb name (bs k)) l.

Record ManifestOrigin := mk_ManifestOrigin { o_name : bytes; o_path : bytes; o_form : ArtifactForm }.

Record Resources := mk_Resources { mem_mib : option Z; vcpu : option Z }.
Inductive EgressMode := Open | AllowlistMode.
Record Egress := mk_Egress { mode : option EgressMode; allow : list bytes }.
Record Mount := mk_Mount { mt_source : bytes; mt_target : bytes; mt_readonly : bool }.
Record Volume := mk_Volume { v_name : bytes; v_mount : bytes; v_size_gib : option Z }.
Record DefaultVolume := mk_DefaultVolume { dv_size_gib : option Z; persist : list bytes }.
Record Manifest := mk_Manifest {
  image : bytes;
  pieces : list bytes;
  extends : option bytes;
  resources : option Resources;
  egress : option Egress;
  env : list (bytes * bytes);       (* a [BTreeMap]: ascending names *)
  mounts : list Mount;
  workspaces : list bytes;          (* [Workspace]: its source *)
  volumes : list Volume;
  volume : option DefaultVolume }.

(** [ManifestErrorKind], with the literal texts the source gives it. *)
Inductive ManifestErrorKind :=
| Syntax (detail : bytes)
| UnknownKey (key : bytes) (accepted : list string)
| MissingKey (key : string)
| WrongType (key : bytes) (expected found : string)
| InvalidValue (key : bytes) (expected : string) (accepted : list string)
| ExtendsRequiresDirectoryForm.
Record ManifestError := mk_ManifestError { me_kind : ManifestErrorKind; me_manifest : bytes; me_locus : Locus }.
Definition new_error (kind : ManifestErrorKind) (manifest path source : bytes) (offset : option nat) : ManifestError :=
  mk_ManifestError kind manifest
    match offset with Some offset => in_source path source offset | None => Diagnostic.File path end.
Definition manifest_exit_code (e : ManifestError) : ExitKind := Config.

Definition condition_of (k : ManifestErrorKind) : string :=
  match k with
  | Syntax _ => "syntax" | UnknownKey _ _ => "unknown-key" | MissingKey _ => "missing-key"
  | WrongType _ _ _ => "wrong-type" | InvalidValue _ _ _ => "invalid-value" | ExtendsRequiresDirectoryForm => "extends-form"
  end%string.
Definition ticked (b : bytes) : bytes := bs "`" ++ b ++ bs "`".
Definition what_of (k : ManifestErrorKind) (manifest : bytes) : bytes :=
  match k with
  | Syntax _ => bs "manifest " ++ ticked manifest ++ bs " is not valid TOML"
  | UnknownKey key _ => bs "unknown key " ++ ticked key ++ bs " in manifest " ++ ticked manifest
  | MissingKey key => bs "missing required key " ++ ticked (bs key) ++ bs " in manifest " ++ ticked manifest
  | WrongType key _ _ => bs "wrong type for key " ++ ticked key ++ bs " in manifest " ++ ticked manifest
  | InvalidValue key _ _ => bs "invalid value for key " ++ ticked key ++ bs " in manifest " ++ ticked manifest
  | ExtendsRequiresDirectoryForm => ticked (bs "extends") ++ bs " is not available in the flat manifest " ++ ticked manifest
  end.
(** [version] is the crate's own. *)
Definition why_of (version : bytes) (k : ManifestErrorKind) : bytes :=
  match k with
  | Syntax detail => detail
  | UnknownKey _ _ => bs "not part of the manifest grammar viv " ++ version ++ bs " understands"
  | MissingKey _ => bs "the manifest grammar requires it"
  | WrongType _ expected found => bs "expected " ++ bs expected ++ bs ", found " ++ bs found
  | InvalidValue _ expected _ => bs "expected " ++ bs expected
  | ExtendsRequiresDirectoryForm => bs "a relative module has nowhere to sit beside a single-file manifest"
  end.
Definition accepted_of (k : ManifestErrorKind) : list string :=
  match k with UnknownKey _ accepted | InvalidValue _ _ accepted => accepted | _ => [] end.
Definition hint_of (k : ManifestErrorKind) : option bytes :=
  match k with
  | UnknownKey _ _ =>
      Some (bs "remove the key, or upgrade vivarium " ++ [xe2; x80; x94] ++ bs " a manifest written for a newer" ++ newline ++
            bs "vivarium reports its new keys exactly this way")
  | ExtendsRequiresDirectoryForm =>
      Some (bs "move the manifest into its own directory as `default.toml` and put the" ++ newline ++ bs "module beside it")
  | _ => None
  end.
Definition manifest_diagnostic (version : bytes) (e : ManifestError) : Diagnostic :=
  let k := me_kind e in
  let d := with_accepted (map bs (accepted_of k))
             (new (mk_DiagnosticId N_Manifest (bs (condition_of k))) (what_of k (me_manifest e)) (me_locus e) (why_of version k)) in
  match hint_of k with Some hint => with_hint hint d | None => d end.

Definition type_name (v : DeValue) : string :=
  match v with
  | DString _ => "a string" | DInteger _ _ => "an integer" | DFloat => "a float" | DBoolean _ => "a boolean"
  | DDatetime => "a datetime" | DArray _ => "an array" | DTable _ => "a table"
  end%string.

Definition valid_environment_name (name : bytes) : bool :=
  match name with
  | [] => false
  | first :: rest =>
      (is_ascii_alphabetic first || bool_decide (first = "_"%byte)) &&
      forallb (fun b => is_ascii_alphanumeric b || bool_decide (b = "_"%byte)) rest
  end.

(* ------------------------------------------------------------------ *)
(** ** The sweep for unknown keys *)

(** A key outside the accepted set of its table: its offset, its name, that set. *)
Definition unknown_key : Type := (nat * bytes * list string)%type.
Definition nested_keys (name : bytes) : option (list string) :=
  if bytes_eqb name (bs "resources") then Some RESOURCE_KEYS
  else if bytes_eqb name (bs "egress") then Some EGRESS_KEYS
  else if bytes_eqb name (bs "workspaces") then Some WORKSPACE_KEYS
  else if bytes_eqb name (bs "mounts") then Some MOUNT_KEYS
  else if bytes_eqb name (bs "volumes") then Some VOLUME_KEYS
  else if bytes_eqb name (bs "volume") then Some DEFAULT_VOLUME_KEYS
  else None.
(** [collect_unknown_keys] of a table value. *)
Fixpoint collect_unknown_keys (v : DeValue) (accepted : list string) : list unknown_key :=
  match v with
  | DTable fields =>
      (fix go (fields : list field_) : list unknown_key :=
         match fields with
         | [] => []
         | (at_, name, (_, value)) :: fields =>
             (if negb (listed name accepted) then [(at_, name, accepted)]
              else match nested_keys name with
                   | None => []
                   | Some nested =>
                       match value with
                       | DTable _ => collect_unknown_keys value nested
                       | DArray elements =>
                           (fix each (elements : list spanned) : list unknown_key :=
                              match elements with
                              | [] => []
                              | (_, element) :: elements =>
                                  match element with
                                  | DTable _ => collect_unknown_keys element nested ++ each elements
                                  | _ => each elements
                                  end
                              end) elements
                       | _ => []
                       end
                   end) ++ go fields
         end) fields
  | _ => []
  end.
(** [sort_by_key(offset)] and the first of it: the first of the least offset. *)
Fixpoint earliest (found : list unknown_key) : option unknown_key :=
  match found with
  | [] => None
  | k :: found =>
      match earliest found with
      | Some k' => if (fst (fst k') <? fst (fst k))%nat then Some k' else Some k
      | None => Some k
      end
  end.
Definition first_unknown_key (root : detable) : option unknown_key := earliest (collect_unknown_keys (DTable root) ROOT_KEYS).

(* ------------------------------------------------------------------ *)
(** ** The typed walk ([Reader]) *)

Section reader.
Context {Net : Type} {N : IpNetOps Net} (source : bytes) (origin : ManifestOrigin).

Definition error {A} (offset : option nat) (kind : ManifestErrorKind) : result A ManifestError :=
  Err (new_error kind (o_name origin) (o_path origin) source offset).
Definition wrong_type {A} (v : spanned) (key : bytes) (expected : string) : result A ManifestError :=
  error (Some (start v)) (WrongType key expected (type_name (snd v))).
Definition invalid {A} (v : spanned) (key : bytes) (expected : string) (accepted : list string) : result A ManifestError :=
  error (Some (start v)) (InvalidValue key expected accepted).

Definition string_ (v : spanned) (key : string) : result bytes ManifestError :=
  match snd v with DString text => Ok text | _ => wrong_type v (bs key) "a string" end.
Definition boolean (v : spanned) (key : string) : result bool ManifestError :=
  match snd v with DBoolean flag => Ok flag | _ => wrong_type v (bs key) "a boolean" end.
Definition integer (v : spanned) (key : string) : result Z ManifestError :=
  match snd v with
  | DInteger digits radix =>
      match i64_from_str_radix digits radix with
      | Some n => Ok n
      | None => invalid v (bs key) "an integer that fits in 64 bits" []
      end
  | _ => wrong_type v (bs key) "an integer"
  end.
Definition array (v : spanned) (key : string) : result (list spanned) ManifestError :=
  match snd v with DArray elements => Ok elements | _ => wrong_type v (bs key) "an array" end.
Definition table (v : spanned) (key : string) : result detable ManifestError :=
  match snd v with DTable fields => Ok fields | _ => wrong_type v (bs key) "a table" end.
Definition name (v : spanned) (key : string) : result bytes ManifestError :=
  let? text := string_ v key in
  if valid_artifact_name text then Ok text else invalid v (bs key) "a kebab-case name" [].
Definition bounded (t : detable) (key member : string) (minimum : Z) : result (option Z) ManifestError :=
  match entry t member with
  | None => Ok None
  | Some v =>
      let? number := integer v key in
      if (0 <=? number) && (number <=? u32_max) && (minimum <=? number) then Ok (Some number)
      else invalid v (bs key) (if minimum =? MINIMUM_MEM_MIB then "an integer of at least 256"%string else "an integer of at least 1"%string) []
  end.
Definition required_path (t : detable) (parent : spanned) (key member : string) : result bytes ManifestError :=
  match entry t member with
  | None => error (Some (start parent)) (MissingKey member)
  | Some v =>
      let? path := string_ v key in
      if bool_decide (path = []) then invalid v (bs key) "a non-empty path" [] else Ok path
  end.

(** [Path::extension] is [nix]. *)
Definition is_nix_module (path : bytes) : bool :=
  match file_name path with
  | Some leaf => match strip_suffix (bs ".nix") leaf with Some stem => negb (bool_decide (stem = [])) | None => false end
  | None => false
  end.
Definition read_extends (v : spanned) : result bytes ManifestError :=
  if bool_decide (o_form origin = Flat) then error (Some (start v)) ExtendsRequiresDirectoryForm
  else
    let? path := string_ v "extends" in
    if is_absolute path || negb (is_nix_module path) then invalid v (bs "extends") "a relative path to a `.nix` module" []
    else Ok path.
Definition read_resources (root : detable) : result (option Resources) ManifestError :=
  match entry root "resources" with
  | None => Ok None
  | Some v =>
      let? t := table v "resources" in
      let? mem := bounded t "resources.mem_mib" "mem_mib" MINIMUM_MEM_MIB in
      let? cpu := bounded t "resources.vcpu" "vcpu" 1 in
      Ok (Some (mk_Resources mem cpu))
  end.
Definition read_mode (v : spanned) : result EgressMode ManifestError :=
  let? text := string_ v "egress.mode" in
  if bytes_eqb text (bs "open") then Ok Open
  else if bytes_eqb text (bs "allowlist") then Ok AllowlistMode
  else invalid v (bs "egress.mode") "one of the two egress modes" EGRESS_MODES.
Definition read_pattern (v : spanned) : result bytes ManifestError :=
  let? pattern := string_ v "egress.allow" in
  if is_ok (entry_parse pattern) then Ok pattern
  else invalid v (bs "egress.allow") "a name, wildcard name, address, or CIDR block" [].
Definition read_egress (root : detable) : result (option Egress) ManifestError :=
  match entry root "egress" with
  | None => Ok None
  | Some v =>
      let? t := table v "egress" in
      let? mode := match entry t "mode" with Some v => let? m := read_mode v in Ok (Some m) | None => Ok None end in
      let? allow := match entry t "allow" with
                    | Some v => let? elements := array v "egress.allow" in collect_results read_pattern elements
                    | None => Ok []
                    end in
      Ok (Some (mk_Egress mode allow))
  end.
Definition env_step (acc : list (bytes * bytes)) (f : field_) : result (list (bytes * bytes)) ManifestError :=
  if negb (valid_environment_name (key_name f)) then
    error (Some (key_start f)) (InvalidValue (bs "env." ++ key_name f) "a name matching `^[A-Za-z_][A-Za-z0-9_]*$`" [])
  else let? value := string_ (snd f) "env" in Ok (map_insert (key_name f) value acc).
Definition read_env (root : detable) : result (list (bytes * bytes)) ManifestError :=
  match entry root "env" with
  | None => Ok []
  | Some v => let? t := table v "env" in fold_err env_step t []
  end.
Definition read_mount (element : spanned) : result Mount ManifestError :=
  let? t := table element "mounts" in
  let? source := required_path t element "mounts.source" "source" in
  let? target := required_path t element "mounts.target" "target" in
  let? readonly := match entry t "readonly" with Some flag => boolean flag "mounts.readonly" | None => Ok false end in
  Ok (mk_Mount source target readonly).
Definition read_mounts (root : detable) : result (list Mount) ManifestError :=
  match entry root "mounts" with
  | None => Ok []
  | Some v => let? elements := array v "mounts" in collect_results read_mount elements
  end.
Definition read_workspace (element : spanned) : result bytes ManifestError :=
  let? t := table element "workspaces" in required_path t element "workspaces.source" "source".
Definition read_workspaces (root : detable) : result (list bytes) ManifestError :=
  match entry root "workspaces" with
  | None => Ok []
  | Some v => let? elements := array v "workspaces" in collect_results read_workspace elements
  end.
Definition read_volume (element : spanned) : result Volume ManifestError :=
  let? t := table element "volumes" in
  match entry t "name" with
  | None => error (Some (start element)) (MissingKey "name")
  | Some name_entry =>
      let? n := name name_entry "volumes.name" in
      if listed n RESERVED_VOLUME_NAMES
      then invalid name_entry (bs "volumes.name") "a name other than the reserved home and store volumes" []
      else
        match entry t "mount" with
        | None => error (Some (start element)) (MissingKey "mount")
        | Some mount_entry =>
            let? mount := string_ mount_entry "volumes.mount" in
            if negb (is_absolute mount) then invalid mount_entry (bs "volumes.mount") "an absolute guest path" []
            else let? size := bounded t "volumes.size_gib" "size_gib" 1 in Ok (mk_Volume n mount size)
        end
  end.
Definition read_volumes (root : detable) : result (list Volume) ManifestError :=
  match entry root "volumes" with
  | None => Ok []
  | Some v => let? elements := array v "volumes" in collect_results read_volume elements
  end.
Definition read_persist (element : spanned) : result bytes ManifestError :=
  let? path := string_ element "volume.persist" in
  if is_absolute path then Ok path else invalid element (bs "volume.persist") "an absolute guest path" [].
Definition read_default_volume (root : detable) : result (option DefaultVolume) ManifestError :=
  match entry root "volume" with
  | None => Ok None
  | Some v =>
      let? t := table v "volume" in
      let? persist := match entry t "persist" with
                      | Some v => let? elements := array v "volume.persist" in collect_results read_persist elements
                      | None => Ok []
                      end in
      let? size := bounded t "volume.size_gib" "size_gib" 1 in
      Ok (Some (mk_DefaultVolume size persist))
  end.
Definition read_pieces (root : detable) : result (list bytes) ManifestError :=
  match entry root "pieces" with
  | None => Ok []
  | Some v => let? elements := array v "pieces" in collect_results (fun element => name element "pieces") elements
  end.
Definition read_manifest (root : detable) : result Manifest ManifestError :=
  let? image := match entry root "image" with Some v => name v "image" | None => error None (MissingKey "image") end in
  let? pieces := read_pieces root in
  let? extends := match entry root "extends" with Some v => let? path := read_extends v in Ok (Some path) | None => Ok None end in
  let? resources := read_resources root in
  let? egress := read_egress root in
  let? env := read_env root in
  let? workspaces := read_workspaces root in
  let? mounts := read_mounts root in
  let? volumes := read_volumes root in
  let? volume := read_default_volume root in
  Ok (mk_Manifest image pieces extends resources egress env mounts workspaces volumes volume).

Definition parse_manifest (toml : toml_parser) : result Manifest ManifestError :=
  match toml source with
  | Err fault => error (se_span fault) (Syntax (se_message fault))
  | Ok root =>
      match first_unknown_key root with
      | Some (offset, key, accepted) => error (Some offset) (UnknownKey key accepted)
      | None => read_manifest root
      end
  end.
End reader.
