(* ===== verification/ManifestSpec.v ===== *)
(** * What the manifest parser promises

    An accepted manifest is well formed; every well-formed manifest has a document that is accepted as it; an unknown
    key anywhere is found, and the earliest one is named; every failure is located in its own file. *)
From S2P Require Import Prelude Bytes Paths Ordered Ip Allowlist Diagnostic Toml Artifact Manifest.

(* ------------------------------------------------------------------ *)
(** ** Well-formed manifests *)

Definition within (lo : Z) (n : option Z) : Prop := forall z, n = Some z -> lo <= z <= u32_max.
Definition env_keys (e : list (bytes * bytes)) : list bytes := map fst e.

Section wf.
Context {Net : Type} {N : IpNetOps Net}.

Record volume_wf (v : Volume) : Prop := {
  vw_name : valid_artifact_name (v_name v) = true;
  vw_free : listed (v_name v) RESERVED_VOLUME_NAMES = false;
  vw_mount : is_absolute (v_mount v) = true;
  vw_size : within 1 (v_size_gib v) }.
(** A mount's target is only ever required not to be empty here: [~] is the guest home, and whether it is absolute is what
    the guest image's own assertions ask. *)
Record mount_wf (m : Mount) : Prop := { mw_source : mt_source m <> []; mw_target : mt_target m <> [] }.
Record manifest_wf (form : ArtifactForm) (m : Manifest) : Prop := {
  wf_image : valid_artifact_name (image m) = true;
  wf_pieces : Forall (fun p => valid_artifact_name p = true) (pieces m);
  wf_extends : forall path, extends m = Some path -> form = Directory /\ is_absolute path = false /\ is_nix_module path = true;
  wf_resources : forall r, resources m = Some r -> within MINIMUM_MEM_MIB (mem_mib r) /\ within 1 (vcpu r);
  wf_egress : forall e, egress m = Some e -> Forall (fun p => is_ok (entry_parse p) = true) (allow e);
  wf_env : Forall (fun n => valid_environment_name n = true) (env_keys (env m)) /\ ascending (env_keys (env m));
  wf_mounts : Forall mount_wf (mounts m);
  wf_workspaces : Forall (fun s => s <> []) (workspaces m);
  wf_volumes : Forall volume_wf (volumes m);
  wf_volume : forall v, volume m = Some v -> within 1 (dv_size_gib v) /\ Forall (fun p => is_absolute p = true) (persist v) }.

Context (source : bytes) (origin : ManifestOrigin).

Lemma name_ok v key n : name source origin v key = Ok n -> valid_artifact_name n = true.
Proof.
  unfold name. intros H. apply rbind_ok in H as (text & _ & H).
  destruct (valid_artifact_name text) eqn:E; [by simplify_eq|done].
Qed.
Lemma bounded_ok t key member minimum n : bounded source origin t key member minimum = Ok n -> within minimum n.
Proof.
  unfold bounded. destruct (entry t member) as [v|]; [|intros [= <-]; by intros z].
  intros H. apply rbind_ok in H as (number & _ & H). destruct (_ && _) eqn:E; [|done].
  injection H as <-. intros z [= <-]. lia.
Qed.
Lemma required_path_ok t parent key member p : required_path source origin t parent key member = Ok p -> p <> [].
Proof.
  unfold required_path. destruct (entry t member) as [v|]; [|done]. intros H.
  apply rbind_ok in H as (path & _ & H). case_bool_decide; [done|]. by simplify_eq.
Qed.
Lemma read_extends_ok v path :
  read_extends source origin v = Ok path -> o_form origin = Directory /\ is_absolute path = false /\ is_nix_module path = true.
Proof.
  unfold read_extends. case_bool_decide as Hf; [done|]. intros H. apply rbind_ok in H as (text & _ & H).
  destruct (_ || _) eqn:E; [done|]. injection H as <-. apply orb_false_iff in E as [? ?%negb_false_iff].
  split_and!; [|done..]. by destruct (o_form origin).
Qed.

Lemma collect_Forall {A B E} (f : A -> result B E) (P : B -> Prop) l ys :
  (forall x y, f x = Ok y -> P y) -> collect_results f l = Ok ys -> Forall P ys.
Proof. intros Hf H%collect_results_ok. induction H; constructor; eauto. Qed.

Lemma read_pattern_ok v p : read_pattern source origin v = Ok p -> is_ok (entry_parse p) = true.
Proof. unfold read_pattern. intros H. apply rbind_ok in H as (text & _ & H). destruct (is_ok _) eqn:E; by simplify_eq. Qed.
Lemma read_mount_ok v m : read_mount source origin v = Ok m -> mount_wf m.
Proof.
  unfold read_mount. intros H. inv_ok. split; simpl; by eapply required_path_ok.
Qed.
Lemma read_workspace_ok v w : read_workspace source origin v = Ok w -> w <> [].
Proof. unfold read_workspace. intros H. inv_ok. by eapply required_path_ok. Qed.
Lemma read_volume_ok v x : read_volume source origin v = Ok x -> volume_wf x.
Proof.
  unfold read_volume. intros H. inv_ok.
  destruct (entry _ "name") as [ne|]; [|done]. inv_ok. destruct (listed _ _) eqn:El; [done|].
  destruct (entry _ "mount") as [me|]; [|done]. inv_ok. destruct (negb _) eqn:Ea; [done|]. inv_ok.
  apply negb_false_iff in Ea. constructor; simpl; [by eapply name_ok|done..|by eapply bounded_ok].
Qed.
Lemma read_persist_ok v p : read_persist source origin v = Ok p -> is_absolute p = true.
Proof. unfold read_persist. intros H. inv_ok. destruct (is_absolute _) eqn:E; by simplify_eq. Qed.

Lemma env_steps_ok t acc e :
  fold_err (env_step source origin) t acc = Ok e ->
  Forall (fun n => valid_environment_name n = true) (env_keys acc) -> ascending (env_keys acc) ->
  Forall (fun n => valid_environment_name n = true) (env_keys e) /\ ascending (env_keys e).
Proof.
  revert acc. induction t as [|f t IH]; intros acc H Hv Ha; simpl in H; [by simplify_eq|].
  apply rbind_ok in H as (acc' & Hs & H). unfold env_step in Hs. destruct (valid_environment_name _) eqn:E; [|done].
  simpl in Hs. inv_ok. eapply IH; [done|..]; unfold env_keys; rewrite map_insert_keys.
  - apply Forall_forall. intros n [->|Hn]%set_insert_elem; [done|]. by apply (proj1 (Forall_forall _ _) Hv).
  - by apply set_insert_ascending.
Qed.

Ltac optional H := let e := fresh "entry" in
  match type of H with match ?x with _ => _ end = _ => destruct x as [e|]; [|by simplify_eq] end.

Lemma read_manifest_wf root m : read_manifest source origin root = Ok m -> manifest_wf (o_form origin) m.
Proof.
  unfold read_manifest. intros H. apply rbind_ok in H as (i & Hi & H). apply rbind_ok in H as (ps & Hp & H).
  apply rbind_ok in H as (ex & Hx & H). apply rbind_ok in H as (re & Hr & H). apply rbind_ok in H as (eg & He & H).
  apply rbind_ok in H as (en & Hn & H). apply rbind_ok in H as (ws & Hw & H). apply rbind_ok in H as (ms & Hm & H).
  apply rbind_ok in H as (vs & Hv & H). apply rbind_ok in H as (vo & Ho & H). injection H as <-. constructor; simpl.
  - destruct (entry root "image") as [v|]; [|done]. by eapply name_ok.
  - unfold read_pieces in Hp. optional Hp. inv_ok. eapply collect_Forall; [|done]. intros ? ?. apply name_ok.
  - intros path ->. optional Hx. inv_ok. by apply read_extends_ok in H.
  - intros r ->. unfold read_resources in Hr. optional Hr. inv_ok. split; by eapply bounded_ok.
  - intros e ->. unfold read_egress in He. optional He. apply rbind_ok in He as (t & _ & He).
    apply rbind_ok in He as (mo & _ & He). apply rbind_ok in He as (al & Hal & He). injection He as <-. simpl.
    optional Hal. inv_ok. eapply collect_Forall; [|done]. intros ? ?. apply read_pattern_ok.
  - unfold read_env in Hn. destruct (entry root "env"); [|by simplify_eq; repeat constructor].
    apply rbind_ok in Hn as (t & _ & Hn). eapply env_steps_ok; [done|constructor|constructor].
  - unfold read_mounts in Hm. optional Hm. inv_ok. eapply collect_Forall; [|done]. intros ? ?. apply read_mount_ok.
  - unfold read_workspaces in Hw. optional Hw. inv_ok. eapply collect_Forall; [|done]. intros ? ?. apply read_workspace_ok.
  - unfold read_volumes in Hv. optional Hv. inv_ok. eapply collect_Forall; [|done]. intros ? ?. apply read_volume_ok.
  - intros v ->. unfold read_default_volume in Ho. optional Ho. apply rbind_ok in Ho as (t & _ & Ho).
    apply rbind_ok in Ho as (pe & Hpe & Ho). inv_ok. simpl. split; [by eapply bounded_ok|].
    optional Hpe. inv_ok. eapply collect_Forall; [|done]. intros ? ?. apply read_persist_ok.
Qed.
End wf.

(* ------------------------------------------------------------------ *)
(** ** The sweep *)

(** An unknown key of a table: one that is not accepted there, or one inside a table, or a row of an array of tables,
    behind a key the grammar knows. *)
Inductive stray : DeValue -> list string -> unknown_key -> Prop :=
| stray_here fields accepted f :
    f ∈ fields -> listed (key_name f) accepted = false -> stray (DTable fields) accepted (key_start f, key_name f, accepted)
| stray_table fields accepted f nested inner k :
    f ∈ fields -> listed (key_name f) accepted = true -> nested_keys (key_name f) = Some nested ->
    snd (snd f) = DTable inner -> stray (DTable inner) nested k -> stray (DTable fields) accepted k
| stray_row fields accepted f nested elements at_ inner k :
    f ∈ fields -> listed (key_name f) accepted = true -> nested_keys (key_name f) = Some nested ->
    snd (snd f) = DArray elements -> (at_, DTable inner) ∈ elements -> stray (DTable inner) nested k ->
    stray (DTable fields) accepted k.

(** What one entry of a table contributes. *)
Definition row_keys (nested : list string) (e : spanned) : list unknown_key :=
  match snd e with DTable _ => collect_unknown_keys (snd e) nested | _ => [] end.
Definition entry_keys (accepted : list string) (f : field_) : list unknown_key :=
  if negb (listed (key_name f) accepted) then [(key_start f, key_name f, accepted)]
  else match nested_keys (key_name f) with
       | None => []
       | Some nested =>
           match snd (snd f) with
           | DTable _ => collect_unknown_keys (snd (snd f)) nested
           | DArray elements => concat (map (row_keys nested) elements)
           | _ => []
           end
       end.
Lemma collect_table fields accepted :
  collect_unknown_keys (DTable fields) accepted = concat (map (entry_keys accepted) fields).
Proof.
  induction fields as [|[[at_ n] [at' v]] fields IH]; [done|].
  cbn [map concat]. rewrite <- IH. cbn [collect_unknown_keys]. f_equal.
  unfold entry_keys. cbn [key_name key_start fst snd]. destruct (negb _); [done|].
  destruct (nested_keys n) as [nested|]; [|done]. destruct v as [| | | | |elements|]; try done. clear IH.
  induction elements as [|[at'' e] elements IH]; [done|]. cbn [map concat]. rewrite <- IH.
  by destruct e.
Qed.

Section devalue_ind.
Context (P : DeValue -> Prop).
Context (Hstring : forall s, P (DString s)) (Hinteger : forall d r, P (DInteger d r)) (Hfloat : P DFloat)
  (Hboolean : forall b, P (DBoolean b)) (Hdate : P DDatetime).
Context (Harray : forall l, Forall (fun e => P (snd e)) l -> P (DArray l))
  (Htable : forall fs, Forall (fun f => P (snd (snd f))) fs -> P (DTable fs)).
Fixpoint devalue_nested_ind (v : DeValue) : P v :=
  match v with
  | DString s => Hstring s
  | DInteger d r => Hinteger d r
  | DFloat => Hfloat
  | DBoolean b => Hboolean b
  | DDatetime => Hdate
  | DArray l => Harray l ((fix go (l : list spanned) : Forall (fun e => P (snd e)) l :=
      match l with [] => Forall_nil_2 _ | e :: l => Forall_cons_2 _ _ _ (devalue_nested_ind (snd e)) (go l) end) l)
  | DTable fs => Htable fs ((fix go (fs : list field_) : Forall (fun f => P (snd (snd f))) fs :=
      match fs with [] => Forall_nil_2 _ | f :: fs => Forall_cons_2 _ _ _ (devalue_nested_ind (snd (snd f))) (go fs) end) fs)
  end.
End devalue_ind.

Lemma concat_map_elem {A B} (f : A -> list B) l y : y ∈ concat (map f l) <-> exists x, x ∈ l /\ y ∈ f x.
Proof.
  induction l as [|x l IH]; simpl; [split; [by intros ?%elem_of_nil|by intros (? & ?%elem_of_nil & _)]|].
  rewrite elem_of_app, IH. setoid_rewrite elem_of_cons. naive_solver.
Qed.

Lemma stray_collected v accepted k : stray v accepted k -> k ∈ collect_unknown_keys v accepted.
Proof.
  induction 1 as [fields accepted f Hf Hl|fields accepted f nested inner k Hf Hl Hn Hv _ IH
                 |fields accepted f nested elements at_ inner k Hf Hl Hn Hv He _ IH];
    rewrite collect_table; apply concat_map_elem; exists f; (split; [done|]); unfold entry_keys; rewrite Hl; cbn [negb].
  - by left.
  - by rewrite Hn, Hv.
  - rewrite Hn, Hv. apply concat_map_elem. by exists (at_, DTable inner).
Qed.

(** A value, or a row of it when it is an array, satisfies the sweep's specification. *)
Lemma collected_stray v :
  (forall accepted k, k ∈ collect_unknown_keys v accepted -> stray v accepted k) /\
  (forall elements, v = DArray elements -> Forall (fun e => forall accepted k, k ∈ collect_unknown_keys (snd e) accepted -> stray (snd e) accepted k) elements).
Proof.
  induction v as [| | | | |l IH|fs IH] using devalue_nested_ind; try by (split; [by intros ? ? ?%elem_of_nil|done]).
  - split; [by intros ? ? ?%elem_of_nil|]. intros elements [= <-]. eapply Forall_impl; [done|]. by intros e [? _].
  - split; [|done]. intros accepted k. rewrite collect_table. intros (f & Hf & Hk)%concat_map_elem.
    pose proof (proj1 (Forall_forall _ _) IH f Hf) as [IHt IHa]. unfold entry_keys in Hk.
    destruct (listed (key_name f) accepted) eqn:El; cbn [negb] in Hk.
    + destruct (nested_keys (key_name f)) as [nested|] eqn:En; [|by apply elem_of_nil in Hk].
      destruct (snd (snd f)) as [| | | | |elements|inner] eqn:Ev; try by apply elem_of_nil in Hk.
      * apply concat_map_elem in Hk as ([at_ e] & He & Hk). unfold row_keys in Hk. cbn [snd] in Hk.
        destruct e as [| | | | | |inner]; try by apply elem_of_nil in Hk.
        eapply stray_row; eauto. pose proof (proj1 (Forall_forall _ _) (IHa _ Ev) _ He) as H. by apply H.
      * eapply stray_table; [done..|]. rewrite <- Ev in Hk |- *. by apply IHt.
    + apply list_elem_of_singleton in Hk as ->. by apply stray_here.
Qed.

Lemma collect_spec v accepted k : k ∈ collect_unknown_keys v accepted <-> stray v accepted k.
Proof. split; [apply collected_stray|apply stray_collected]. Qed.

Lemma earliest_spec found :
  match earliest found with
  | None => found = []
  | Some k => k ∈ found /\ forall k', k' ∈ found -> (fst (fst k) <= fst (fst k'))%nat
  end.
Proof.
  induction found as [|k found IH]; simpl; [done|]. destruct (earliest found) as [k'|].
  - destruct IH as [Hk' Hle]. destruct (Nat.ltb_spec (fst (fst k')) (fst (fst k))).
    + split; [by right|]. intros k'' [->|?]%elem_of_cons; [lia|auto].
    + split; [by left|]. intros k'' [->|?]%elem_of_cons; [lia|]. specialize (Hle k'' H0). lia.
  - subst. split; [by left|]. intros k' [->|[]%elem_of_nil]%elem_of_cons. done.
Qed.

Lemma stray_not_accepted v accepted k : stray v accepted k -> listed (snd (fst k)) (snd k) = false.
Proof. by induction 1. Qed.

(* ------------------------------------------------------------------ *)
(** ** Failures *)

Section faults.
Context {Net : Type} {N : IpNetOps Net} (source : bytes) (origin : ManifestOrigin).

(** A failure of the typed walk: this manifest, its own file, a position in it unless the image is missing. *)
Record typed_fault (e : ManifestError) : Prop := {
  tf_manifest : me_manifest e = o_name origin;
  tf_path : locus_path (me_locus e) = Some (o_path origin);
  tf_known : forall key accepted, me_kind e <> UnknownKey key accepted;
  tf_syntax : forall detail, me_kind e <> Syntax detail;
  tf_position : (exists offset, me_locus e = in_source (o_path origin) source offset) \/ (me_locus e = Diagnostic.File (o_path origin) /\ me_kind e = MissingKey "image") }.
Definition faults {A} (r : result A ManifestError) : Prop := forall e, r = Err e -> typed_fault e.

Lemma in_source_path path offset : locus_path (in_source path source offset) = Some path.
Proof. unfold in_source. by destruct (fold_left _ _ _). Qed.
Lemma faults_ok {A} (a : A) : faults (Ok a).
Proof. by intros e. Qed.
Lemma faults_error {A} offset kind :
  (forall key accepted, kind <> UnknownKey key accepted) -> (forall detail, kind <> Syntax detail) ->
  @faults A (error source origin (Some offset) kind).
Proof. intros Hk Hs e [= <-]. constructor; simpl; eauto. apply in_source_path. Qed.
Lemma faults_bind {A B} (m : result A ManifestError) (k : A -> result B ManifestError) :
  faults m -> (forall a, faults (k a)) -> faults (rbind m k).
Proof. intros Hm Hk e. destruct m as [a|e']; simpl; [apply Hk|]. intros [= <-]. by apply Hm. Qed.
Lemma faults_collect {A B} (f : A -> result B ManifestError) l : (forall x, faults (f x)) -> faults (collect_results f l).
Proof.
  intros Hf. induction l as [|x l IH]; simpl; [apply faults_ok|].
  apply faults_bind; [apply Hf|]. intros y. apply faults_bind; [done|]. intros ys. apply faults_ok.
Qed.
Lemma faults_fold {A S} (f : S -> A -> result S ManifestError) l s : (forall s x, faults (f s x)) -> faults (fold_err f l s).
Proof. intros Hf. revert s. induction l as [|x l IH]; intros s; simpl; [apply faults_ok|]. by apply faults_bind. Qed.

(** Walk through a reader: binds, branches, and a failure at each leaf. *)
Ltac faults_tac :=
  repeat first
    [ apply faults_ok
    | apply faults_error; done
    | apply faults_bind; [|intros ?]
    | apply faults_collect; intros ?
    | apply faults_fold; intros ? ?
    | progress cbv beta iota zeta
    | match goal with |- faults (match ?x with _ => _ end) => destruct x eqn:? end
    | progress unfold invalid, wrong_type ].

Lemma faults_string v key : faults (string_ source origin v key).
Proof. unfold string_. faults_tac. Qed.
Lemma faults_array v key : faults (array source origin v key).
Proof. unfold array. faults_tac. Qed.
Lemma faults_table v key : faults (table source origin v key).
Proof. unfold table. faults_tac. Qed.
Lemma faults_name v key : faults (name source origin v key).
Proof. unfold name. faults_tac; apply faults_string. Qed.
Lemma faults_bounded t key member minimum : faults (bounded source origin t key member minimum).
Proof. unfold bounded, integer. faults_tac. Qed.
Lemma faults_required t parent key member : faults (required_path source origin t parent key member).
Proof. unfold required_path. faults_tac; apply faults_string. Qed.
#[local] Hint Resolve faults_string faults_array faults_table faults_name faults_bounded faults_required : viv.

Lemma faults_read_manifest root : faults (read_manifest source origin root).
Proof.
  unfold read_manifest. apply faults_bind; [|intros i].
  { destruct (entry root "image"); [auto with viv|]. intros e [= <-]. constructor; simpl; auto; done. }
  unfold read_pieces, read_extends, read_resources, read_egress, read_mode, read_pattern, read_env, env_step, read_workspaces, read_workspace,
    read_mounts, read_mount, boolean, read_volumes, read_volume, read_default_volume, read_persist.
  faults_tac; auto with viv.
Qed.
End faults.

(* ------------------------------------------------------------------ *)
(** ** The document of a manifest *)

(** A table whose fields are present or not, written without spans. *)
Definition fields (l : list (string * option DeValue)) : detable :=
  omap (fun f => match snd f with Some v => Some ((0%nat, bs (fst f)), (0%nat, v)) | None => None end) l.
Fixpoint look (l : list (string * option DeValue)) (key : string) : option spanned :=
  match l with
  | [] => None
  | (k, o) :: l => if String.eqb k key then match o with Some v => Some (0%nat, v) | None => look l key end else look l key
  end.
Definition strings (l : list bytes) : DeValue := DArray (map (fun s => (0%nat, DString s)) l).
Definition int_ (z : Z) : DeValue := DInteger (dec z) 10.
Definition mount_fields (m : Mount) : list (string * option DeValue) :=
  [("source", Some (DString (mt_source m))); ("target", Some (DString (mt_target m))); ("readonly", Some (DBoolean (mt_readonly m)))]%string.
Definition volume_fields (v : Volume) : list (string * option DeValue) :=
  [("name", Some (DString (v_name v))); ("mount", Some (DString (v_mount v))); ("size_gib", option_map int_ (v_size_gib v))]%string.
Definition resources_fields (r : Resources) : list (string * option DeValue) :=
  [("mem_mib", option_map int_ (mem_mib r)); ("vcpu", option_map int_ (vcpu r))]%string.
Definition mode_text (m : EgressMode) : bytes := match m with Open => bs "open" | AllowlistMode => bs "allowlist" end.
Definition egress_fields (e : Egress) : list (string * option DeValue) :=
  [("mode", option_map (fun m => DString (mode_text m)) (mode e)); ("allow", Some (strings (allow e)))]%string.
Definition default_volume_fields (v : DefaultVolume) : list (string * option DeValue) :=
  [("size_gib", option_map int_ (dv_size_gib v)); ("persist", Some (strings (persist v)))]%string.
Definition rows {A} (f : A -> list (string * option DeValue)) (l : list A) : DeValue :=
  DArray (map (fun x => (0%nat, DTable (fields (f x)))) l).
Definition variables (e : list (bytes * bytes)) : DeValue :=
  DTable (map (fun f => ((0%nat, fst f), (0%nat, DString (snd f)))) e).
Definition root_fields (m : Manifest) : list (string * option DeValue) :=
  [("image", Some (DString (image m)));
   ("pieces", Some (strings (pieces m)));
   ("extends", option_map DString (extends m));
   ("resources", option_map (fun r => DTable (fields (resources_fields r))) (resources m));
   ("egress", option_map (fun e => DTable (fields (egress_fields e))) (egress m));
   ("env", Some (variables (env m)));
   ("workspaces", Some (rows (fun s => [("source", Some (DString s))]%string) (workspaces m)));
   ("mounts", Some (rows mount_fields (mounts m)));
   ("volumes", Some (rows volume_fields (volumes m)));
   ("volume", option_map (fun v => DTable (fields (default_volume_fields v))) (volume m))]%string.
(** The document a manifest can be written as. *)
Definition document (m : Manifest) : detable := fields (root_fields m).

Lemma bs_inj s t : bs s = bs t -> s = t.
Proof. unfold bs. intros H%(f_equal string_of_list_byte). by rewrite !string_of_list_byte_of_string in H. Qed.
Lemma bs_eqb s t : bytes_eqb (bs s) (bs t) = String.eqb s t.
Proof.
  destruct (String.eqb_spec s t) as [->|Hn]; [by apply bytes_eqb_true|].
  apply bool_decide_eq_false. intros H. by apply Hn, bs_inj.
Qed.
Lemma entry_fields l key : entry (fields l) key = look l key.
Proof.
  unfold entry, fields. induction l as [|[k [v|]] l IH]; [done|..]; simpl; rewrite <- IH.
  - unfold key_name. cbn [fst snd]. rewrite bs_eqb. by destruct (String.eqb k key).
  - by destruct (String.eqb k key).
Qed.

Lemma fields_cons k v l : fields ((k, Some v) :: l) = ((0%nat, bs k), (0%nat, v)) :: fields l.
Proof. done. Qed.

(** Nothing in such a table is unknown when its keys are accepted and what they hold is clean. *)
Definition clean_value (nested : list string) (v : DeValue) : Prop :=
  match v with
  | DTable _ => collect_unknown_keys v nested = []
  | DArray elements => Forall (fun e => row_keys nested e = []) elements
  | _ => True
  end.
Lemma fields_clean l accepted :
  Forall (fun f => listed (bs (fst f)) accepted = true /\
            forall nested v, nested_keys (bs (fst f)) = Some nested -> snd f = Some v -> clean_value nested v) l ->
  collect_unknown_keys (DTable (fields l)) accepted = [].
Proof.
  rewrite collect_table. induction 1 as [|[k [v|]] l [Hk Hv] Hl IH]; [done|..|exact IH].
  rewrite fields_cons. cbn [map concat]. rewrite IH, app_nil_r.
  unfold entry_keys. cbn [key_name fst snd] in *. rewrite Hk. cbn [negb]. destruct (nested_keys (bs k)) as [nested|]; [|done].
  specialize (Hv _ _ eq_refl eq_refl). destruct v as [| | | | |es|]; try done. simpl in Hv.
  induction Hv as [|e es He _ IH']; [done|]. cbn [map concat]. by rewrite He, IH'.
Qed.

Lemma strings_clean nested l : clean_value nested (strings l).
Proof. simpl. apply Forall_forall. intros e (s & -> & _)%list_elem_of_fmap. done. Qed.
Lemma rows_clean {A} nested (f : A -> list (string * option DeValue)) l :
  (forall x, collect_unknown_keys (DTable (fields (f x))) nested = []) -> clean_value nested (rows f l).
Proof. intros Hf. simpl. apply Forall_forall. intros e (x & -> & _)%list_elem_of_fmap. apply Hf. Qed.

#[local] Opaque fields.
(** Every field is accepted and is no table the sweep goes into. *)
Ltac clean_leaf :=
  apply fields_clean; repeat (apply Forall_cons_2 || apply Forall_nil_2);
  (split; [reflexivity|intros ? ? [=]]).
Lemma document_clean m : first_unknown_key (document m) = None.
Proof.
  unfold first_unknown_key, document. rewrite fields_clean; [done|].
  repeat (apply Forall_cons_2 || apply Forall_nil_2); (split; [reflexivity|]); intros nested v Hn Hv; vm_compute in Hn;
    simplify_eq; cbn [snd] in Hv; try (injection Hv as <-; first [apply strings_clean | apply rows_clean; intros x; clean_leaf]).
  - destruct (resources m); [injection Hv as <-|done]. clean_leaf.
  - destruct (egress m); [injection Hv as <-|done]. clean_leaf.
  - destruct (volume m); [injection Hv as <-|done]. clean_leaf.
Qed.

Section document.
Context {Net : Type} {N : IpNetOps Net} (source : bytes) (origin : ManifestOrigin).

Lemma name_document key n : valid_artifact_name n = true -> name source origin (0%nat, DString n) key = Ok n.
Proof. intros H. unfold name. simpl. by rewrite H. Qed.
Lemma bounded_document l key member minimum o :
  look l member = option_map (fun z => (0%nat, int_ z)) o -> 0 <= minimum -> within minimum o ->
  bounded source origin (fields l) key member minimum = Ok o.
Proof.
  intros Hl Hm Ho. unfold bounded. rewrite entry_fields, Hl. destruct o as [z|]; [|done].
  specialize (Ho z eq_refl). unfold u32_max in *. simpl. unfold integer. cbn [snd int_].
  rewrite i64_from_dec by (unfold i64_max; lia). simpl.
  destruct (Z.leb_spec 0 z), (Z.leb_spec z 4294967295), (Z.leb_spec minimum z); [done|lia..].
Qed.
Lemma required_document l parent key member p :
  look l member = Some (0%nat, DString p) -> p <> [] -> required_path source origin (fields l) parent key member = Ok p.
Proof. intros Hl Hp. unfold required_path. rewrite entry_fields, Hl. simpl. by rewrite bool_decide_false. Qed.

Lemma read_resources_document m : manifest_wf (o_form origin) m -> read_resources source origin (document m) = Ok (resources m).
Proof.
  intros Hw. unfold read_resources, document. rewrite entry_fields. cbn. destruct (resources m) as [r|] eqn:Er; [|done].
  destruct (wf_resources _ _ Hw r Er). simpl.
  rewrite (bounded_document _ _ _ _ (mem_mib r)); [|by cbn; destruct (mem_mib r)|done|done]. simpl.
  rewrite (bounded_document _ _ _ _ (vcpu r)); [|by cbn; destruct (vcpu r)|done|done]. by destruct r.
Qed.
Lemma read_egress_document m : manifest_wf (o_form origin) m -> read_egress source origin (document m) = Ok (egress m).
Proof.
  intros Hw. unfold read_egress, document. rewrite entry_fields. cbn. destruct (egress m) as [e|] eqn:Ee; [|done].
  pose proof (wf_egress _ _ Hw e Ee) as Ha. simpl. rewrite !entry_fields. destruct e as [mo al]. simpl in *.
  assert (Hal : collect_results (read_pattern source origin) (map (fun s => (0%nat, DString s)) al) = Ok al).
  { apply collect_results_written. eapply Forall_impl; [exact Ha|]. intros p Hp. unfold read_pattern. simpl. by rewrite Hp. }
  destruct mo as [[]|]; cbn; by rewrite Hal.
Qed.

Lemma map_insert_last {A} k (v : A) l : ascending (map fst l ++ [k]) -> map_insert k v l = l ++ [(k, v)].
Proof.
  induction l as [|[k' v'] l IH]; intros H; [done|]. cbn [map app fst] in H. cbn [map_insert].
  assert (Hlt : ord_cmp k' k = Lt) by (apply (ascending_above _ _ _ H), elem_of_app; right; left).
  rewrite ord_cmp_antisym, Hlt. simpl. rewrite IH; [done|by eapply ascending_tail].
Qed.
Lemma ascending_app_left l k : ascending (l ++ k) -> ascending l.
Proof.
  induction l as [|x l IH]; intros H; [constructor|]. destruct l as [|y l]; [constructor|].
  inversion H; subst. constructor; [done|by apply IH].
Qed.
Lemma read_variables acc e :
  Forall (fun n => valid_environment_name n = true) (env_keys e) -> ascending (env_keys (acc ++ e)) ->
  fold_err (env_step source origin) (map (fun f => ((0%nat, fst f), (0%nat, DString (snd f)))) e) acc = Ok (acc ++ e).
Proof.
  unfold env_keys. revert acc. induction e as [|[k v] e IH]; intros acc Hv Ha; [simpl; by rewrite app_nil_r|].
  cbn [map fst] in Hv. apply Forall_cons in Hv as [Hk Hv]. cbn [map fold_err]. unfold env_step at 1.
  unfold key_name. cbn [fst snd]. rewrite Hk. cbn [negb string_ snd rbind].
  rewrite map_app in Ha. cbn [map fst] in Ha. rewrite map_insert_last; last first.
  { apply (ascending_app_left _ (map fst e)). by rewrite <- app_assoc. }
  rewrite IH; [by rewrite <- app_assoc|done|by rewrite <- app_assoc, map_app].
Qed.
Lemma read_env_document m : manifest_wf (o_form origin) m -> read_env source origin (document m) = Ok (env m).
Proof.
  intros Hw. destruct (wf_env _ _ Hw). unfold read_env, document. rewrite entry_fields. cbn.
  by rewrite read_variables.
Qed.

Lemma read_rows {A} (f : spanned -> result A ManifestError) (g : A -> list (string * option DeValue)) l :
  Forall (fun x => f (0%nat, DTable (fields (g x))) = Ok x) l ->
  collect_results f (map (fun x => (0%nat, DTable (fields (g x)))) l) = Ok l.
Proof. apply collect_results_written. Qed.
Lemma read_mounts_document m : manifest_wf (o_form origin) m -> read_mounts source origin (document m) = Ok (mounts m).
Proof.
  intros Hw. unfold read_mounts, document. rewrite entry_fields. cbn. apply read_rows.
  eapply Forall_impl; [exact (wf_mounts _ _ Hw)|]. intros x [Hs Ht]. unfold read_mount. cbn [table snd rbind].
  erewrite required_document by done. cbn [rbind]. erewrite required_document by done. cbn [rbind].
  rewrite entry_fields. cbn. by destruct x.
Qed.
Lemma read_workspaces_document m : manifest_wf (o_form origin) m -> read_workspaces source origin (document m) = Ok (workspaces m).
Proof.
  intros Hw. unfold read_workspaces, document. rewrite entry_fields. cbn.
  apply (read_rows (read_workspace source origin) (fun s => [("source"%string, Some (DString s))])).
  eapply Forall_impl; [exact (wf_workspaces _ _ Hw)|]. intros x Hx. unfold read_workspace. cbn [table snd rbind].
  by apply required_document.
Qed.
Lemma read_volume_document v : volume_wf v -> read_volume source origin (0%nat, DTable (fields (volume_fields v))) = Ok v.
Proof.
  intros [Hn Hf Hm Hs]. unfold read_volume. cbn [table snd rbind]. rewrite !entry_fields. cbn -[name bounded listed is_absolute].
  rewrite name_document by done. cbn [rbind]. rewrite Hf, Hm. cbn [negb].
  rewrite (bounded_document _ _ _ _ (v_size_gib v)); [|by cbn; destruct (v_size_gib v)|done|done]. by destruct v.
Qed.
Lemma read_volumes_document m : manifest_wf (o_form origin) m -> read_volumes source origin (document m) = Ok (volumes m).
Proof.
  intros Hw. unfold read_volumes, document. rewrite entry_fields. cbn. apply read_rows.
  eapply Forall_impl; [exact (wf_volumes _ _ Hw)|]. apply read_volume_document.
Qed.
Lemma read_default_volume_document m :
  manifest_wf (o_form origin) m -> read_default_volume source origin (document m) = Ok (volume m).
Proof.
  intros Hw. unfold read_default_volume, document. rewrite entry_fields. cbn. destruct (volume m) as [v|] eqn:Ev; [|done].
  destruct (wf_volume _ _ Hw v Ev) as [Hs Hp]. cbn [table snd rbind option_map]. rewrite entry_fields. cbn.
  assert (Hpe : collect_results (read_persist source origin) (map (fun s => (0%nat, DString s)) (persist v)) = Ok (persist v)).
  { apply collect_results_written. eapply Forall_impl; [exact Hp|]. intros p Ha. unfold read_persist. simpl. by rewrite Ha. }
  rewrite Hpe. cbn -[bounded]. rewrite (bounded_document _ _ _ _ (dv_size_gib v)); [by destruct v|by cbn; destruct (dv_size_gib v)|done|done].
Qed.
Lemma read_document m : manifest_wf (o_form origin) m -> read_manifest source origin (document m) = Ok m.
Proof.
  intros Hw. unfold read_manifest.
  assert (Hi : name source origin (0%nat, DString (image m)) "image" = Ok (image m)) by apply name_document, (wf_image _ _ Hw).
  assert (Hp : read_pieces source origin (document m) = Ok (pieces m)).
  { unfold read_pieces, document. rewrite entry_fields. cbn. apply collect_results_written.
    eapply Forall_impl; [exact (wf_pieces _ _ Hw)|]. intros p. apply name_document. }
  assert (Hx : (match entry (document m) "extends" with Some v => let? path := read_extends source origin v in Ok (Some path) | None => Ok None end) = Ok (extends m)).
  { unfold document. rewrite entry_fields. cbn. destruct (extends m) as [path|] eqn:Ee; [|done].
    destruct (wf_extends _ _ Hw path Ee) as (Hf & Ha & Hn). cbn -[read_extends]. unfold read_extends.
    rewrite bool_decide_false by (by rewrite Hf). cbn [string_ snd rbind]. by rewrite Ha, Hn. }
  replace (entry (document m) "image") with (Some (0%nat, DString (image m))) by (unfold document; by rewrite entry_fields).
  rewrite Hi, Hp, Hx. cbn [rbind].
  rewrite read_resources_document, read_egress_document, read_env_document, read_workspaces_document, read_mounts_document,
    read_volumes_document, read_default_volume_document by done. cbn [rbind]. by destruct m.
Qed.
End document.

(* ------------------------------------------------------------------ *)
(** ** Theorems *)

Section theorems.
Context {Net : Type} {N : IpNetOps Net}.

(** C19: A manifest that is accepted is well formed, whatever the document was: its image, pieces and volumes have
    artifact names, no volume takes a reserved name, every ceiling is within its bounds and 32 bits, every egress
    pattern parses, every variable has a name a shell accepts and they are in order without repetition, a mount names a
    source and a target and a workspace its tree, the mountpoints of volumes and the persisted paths are absolute, and a
    module is named only beside a directory form.  And nothing of it was lost: any text the TOML parser reads as its own
    document is accepted again, as exactly that manifest. *)
Theorem accepted_manifest_is_well_formed (source : bytes) (origin : ManifestOrigin) (toml : toml_parser) (m : Manifest)
    (Hok : parse_manifest source origin toml = Ok m) :
  manifest_wf (o_form origin) m /\
  forall source' (toml' : toml_parser), toml' source' = Ok (document m) -> parse_manifest source' origin toml' = Ok m.
Proof.
  assert (Hwf : manifest_wf (o_form origin) m).
  { unfold parse_manifest in Hok. destruct (toml source) as [root|fault]; [|done].
    destruct (first_unknown_key root) as [[[offset key] accepted]|]; [done|]. by apply read_manifest_wf in Hok. }
  split; [exact Hwf|]. intros source' toml' Htoml. unfold parse_manifest. rewrite Htoml, document_clean. by apply read_document.
Qed.

(** Every well-formed manifest can be written: any text the TOML parser reads as the document of a manifest is
    accepted, as exactly that manifest. *)
Theorem well_formed_manifest_is_accepted (source : bytes) (origin : ManifestOrigin) (toml : toml_parser) (m : Manifest)
    (Hwf : manifest_wf (o_form origin) m) (Htoml : toml source = Ok (document m)) :
  parse_manifest source origin toml = Ok m.
Proof. unfold parse_manifest. rewrite Htoml, document_clean. by apply read_document. Qed.

(** The unknown-key sweep. A document is refused as having an unknown key exactly when some table of it - the
    root, or one behind a key the grammar knows - holds a key that is not accepted there, whatever else is wrong with
    it; the failure names such a key with the set that would have been accepted in its place, the position of one no
    other such key precedes, and the exit code 78. *)
Theorem unknown_key_is_named (source : bytes) (origin : ManifestOrigin) (toml : toml_parser) (root : detable)
    (Htoml : toml source = Ok root) :
  ((exists k, stray (DTable root) ROOT_KEYS k) <->
   exists e key accepted, parse_manifest source origin toml = Err e /\ me_kind e = UnknownKey key accepted) /\
  (forall e key accepted, parse_manifest source origin toml = Err e -> me_kind e = UnknownKey key accepted ->
     exists offset, stray (DTable root) ROOT_KEYS (offset, key, accepted) /\ listed key accepted = false /\
       (forall k, stray (DTable root) ROOT_KEYS k -> (offset <= fst (fst k))%nat) /\
       me_locus e = in_source (o_path origin) source offset /\ code (manifest_exit_code e) = 78).
Proof.
  unfold parse_manifest. rewrite Htoml. unfold first_unknown_key.
  pose proof (earliest_spec (collect_unknown_keys (DTable root) ROOT_KEYS)) as Hfirst.
  destruct (earliest _) as [[[offset key] accepted]|].
  - destruct Hfirst as [Hin%collect_spec Hle]. split.
    + split; [|eauto]. intros _. do 3 eexists. split; [done|]. done.
    + intros e key' accepted' [= <-] [= <- <-]. exists offset. split_and!; [done|by apply (stray_not_accepted _ _ _ Hin)| |done..].
      intros k Hk%collect_spec. by apply (Hle k).
  - split.
    + split.
      * intros [k Hk%collect_spec]. rewrite Hfirst in Hk. by apply elem_of_nil in Hk.
      * intros (e & key & accepted & He & Hk). exfalso. by eapply tf_known; [apply (faults_read_manifest _ _ _ _ He)|].
    + intros e key accepted He Hk. exfalso. by eapply tf_known; [apply (faults_read_manifest _ _ _ _ He)|].
Qed.

(** Every refusal says where it happened: it names the manifest that was asked for and a position in that
    manifest's own text, unless the required image is missing or the TOML parser gave no position; and its diagnostic
    is in the manifest namespace under one of the six published conditions. *)
Theorem manifest_refusal_is_located (version source : bytes) (origin : ManifestOrigin) (toml : toml_parser) (e : ManifestError)
    (Herr : parse_manifest source origin toml = Err e) :
  me_manifest e = o_name origin /\ locus_path (me_locus e) = Some (o_path origin) /\
  ((exists offset, me_locus e = in_source (o_path origin) source offset) \/
   (me_locus e = Diagnostic.File (o_path origin) /\ (me_kind e = MissingKey "image" \/ exists detail, me_kind e = Syntax detail))) /\
  (let d := manifest_diagnostic version e in
   namespace (id d) = N_Manifest /\ is_well_formed (id d) = true /\ locus d = me_locus e /\
   condition (id d) ∈ map bs ["syntax"; "unknown-key"; "missing-key"; "wrong-type"; "invalid-value"; "extends-form"]%string).
Proof.
  assert (Hd : let d := manifest_diagnostic version e in
    namespace (id d) = N_Manifest /\ is_well_formed (id d) = true /\ locus d = me_locus e /\
    condition (id d) ∈ map bs ["syntax"; "unknown-key"; "missing-key"; "wrong-type"; "invalid-value"; "extends-form"]%string).
  { destruct e as [k m l]. destruct k; simpl; (split_and!; [done|vm_compute; done|done|set_solver]). }
  destruct Hd as (D1 & D2 & D3 & D4). unfold parse_manifest in Herr. destruct (toml source) as [root|fault].
  - destruct (first_unknown_key root) as [[[offset key] accepted]|].
    + injection Herr as <-. split_and!; [done|apply in_source_path|simpl; eauto|done..].
    + destruct (faults_read_manifest _ _ _ _ Herr) as [Hm Hp _ _ Hpos]. split_and!; try done.
      destruct Hpos as [?|[? ?]]; auto.
  - injection Herr as <-. split_and!; [done| | |done..]; simpl; destruct (se_span fault); eauto using in_source_path.
Qed.
End theorems.

(* ------------------------------------------------------------------ *)
(** ** Witnesses *)

Definition demo_manifest : Manifest :=
  mk_Manifest (bs "rust") [bs "git"; bs "node-20"] (Some (bs "extra.nix")) (Some (mk_Resources (Some 4096) None))
    (Some (mk_Egress (Some AllowlistMode) [bs "*.crates.io"; bs "10.0.0.0/8"])) [(bs "EDITOR", bs "vi"); (bs "_X1", [])]
    [mk_Mount (bs "${HOME}/cache") (bs "~/cache") true] [bs "/srv/work"] [mk_Volume (bs "db") (bs "/var/db") (Some 20)]
    (Some (mk_DefaultVolume None [bs "/home/vivarium/.cargo"])).
Definition demo_origin : ManifestOrigin := mk_ManifestOrigin (bs "work") (bs "/lib/manifests/work/default.toml") Directory.
Lemma demo_manifest_wf : manifest_wf (Net := Z * Z) Directory demo_manifest.
Proof.
  constructor.
  - vm_compute. reflexivity.
  - repeat (apply Forall_cons_2; [vm_compute; reflexivity|]). apply Forall_nil_2.
  - intros path [= <-]. split_and!; vm_compute; reflexivity.
  - intros r [= <-]. split; intros z [= <-]. by vm_compute.
  - intros e [= <-]. repeat (apply Forall_cons_2; [vm_compute; reflexivity|]). apply Forall_nil_2.
  - split; [repeat (apply Forall_cons_2; [vm_compute; reflexivity|]); apply Forall_nil_2|].
    constructor; [vm_compute; reflexivity|constructor].
  - apply Forall_cons_2; [by split|apply Forall_nil_2].
  - apply Forall_cons_2; [done|apply Forall_nil_2].
  - apply Forall_cons_2; [|apply Forall_nil_2]. split; [vm_compute; reflexivity..|]. intros z [= <-]. by vm_compute.
  - intros v [= <-]. split; [by intros z|]. apply Forall_cons_2; [vm_compute; reflexivity|apply Forall_nil_2].
Qed.
(** A parser that reads every text as the given document. *)
Definition reads (root : detable) : toml_parser := fun _ => Ok root.

Lemma well_formed_manifest_is_accepted_witness :
  parse_manifest (Net := Z * Z) [] demo_origin (reads (document demo_manifest)) = Ok demo_manifest.
Proof. apply (well_formed_manifest_is_accepted (Net := Z * Z)); [exact demo_manifest_wf|reflexivity]. Defined.
Lemma accepted_manifest_is_well_formed_witness : manifest_wf (Net := Z * Z) Directory demo_manifest.
Proof.
  apply (accepted_manifest_is_well_formed (Net := Z * Z) [] demo_origin (reads (document demo_manifest)) demo_manifest). vm_compute. reflexivity.
Defined.

(** A misspelt key inside the second mount, and one at the root behind it. *)
Definition demo_document : detable :=
  [((0%nat, bs "image"), (8%nat, DString (bs "rust")));
   ((90%nat, bs "imgae"), (98%nat, DString (bs "rust")));
   ((20%nat, bs "mounts"), (20%nat, DArray [(30%nat, DTable [((40%nat, bs "sorce"), (48%nat, DString (bs "/x")))])]))].
Lemma unknown_key_is_named_witness :
  exists e, parse_manifest (Net := Z * Z) [] demo_origin (reads demo_document) = Err e /\ me_kind e = UnknownKey (bs "sorce") MOUNT_KEYS /\ exists k, stray (DTable demo_document) ROOT_KEYS k.
Proof.
  destruct (unknown_key_is_named (Net := Z * Z) [] demo_origin (reads demo_document) demo_document eq_refl) as [H _].
  eexists. split; [vm_compute; reflexivity|]. split; [reflexivity|]. apply H. do 3 eexists. split; vm_compute; reflexivity.
Defined.
Lemma manifest_refusal_is_located_witness :
  exists e, parse_manifest (Net := Z * Z) (bs "image") demo_origin (fun _ => Err (mk_syntax_error None (bs "eof"))) = Err e /\ locus_path (me_locus e) = Some (o_path demo_origin).
Proof.
  eexists. split; [reflexivity|].
  by apply (manifest_refusal_is_located (Net := Z * Z) (bs "0.1.0") (bs "image") demo_origin (fun _ => Err (mk_syntax_error None (bs "eof")))).
Defined.
