(* ===== verification/Grammar.v ===== *)
(** * The command grammar ([src/src/cli/grammar.rs])

    [argv] in, one invocation or one usage error out.  An argument is its bytes; [to_str] is there exactly when they
    are UTF-8.  A usage error keeps which message it is and what the message interpolates; its text does not matter to
    any caller. *)
From S2P Require Import Prelude Bytes Paths.

Inductive Verbosity := Quiet | Normal | Verbose | Debug | Trace.
Inductive Output := Human | Json.
#[global] Instance Output_eq_dec : EqDecision Output.
Proof. solve_decision. Defined.
Definition is_json (o : Output) : bool := match o with Json => true | Human => false end.

Record GuestCommand := mk_Session { argv : list bytes; pty : bool; env : list (bytes * option bytes) }.

Inductive Invocation :=
| Config (manifest : option bytes) (output : Output)
| ConfigEval (output : Output)
| ConfigSources (output : Output)
| ManifestList (output : Output)
| ManifestShow (name : bytes) (output : Output)
| Start (rebuild no_rebuild : bool) (generation : option Z) (attach : bool) (output : Output)
| Status (global : bool) (output : Output)
| Stop (all force : bool) (timeout : option Z) (output : Output)
| Exec (s : GuestCommand)
| Shell (s : GuestCommand)
| StartSpec (spec : bytes)
| Update (inputs : list bytes) (output : Output)
| VolumeList (output : Output)
| VolumePrune (dry_run yes : bool) (output : Output)
| VolumeTrim (name : option bytes) (output : Output)
| MemoryTrim (to : option Z) (output : Output)
| Trim (output : Output)
| Destroy (keep_volumes yes : bool) (output : Output)
| GenerationsList (output : Output)
| GenerationsPrune (keep older_than_seconds : option Z) (output : Output)
| GenerationsActivate (number : Z) (output : Output)
| GenerationsRollback (output : Output)
| Gc (output : Output)
| Doctor (strict list_ online : bool) (output : Output)
| Help (verb : option bytes)
| Version.

Record Parsed := mk_Parsed { invocation : Invocation; verbosity : Verbosity }.
Record Streams := mk_Streams { stdin_is_tty : bool; stdout_is_tty : bool; stderr_is_tty : bool }.

(** Which usage line an error shows. *)
Inductive usage :=
| TOP_USAGE | CONFIG_USAGE | CONFIG_EVAL_USAGE | CONFIG_SOURCES_USAGE | MANIFEST_USAGE | START_USAGE | STATUS_USAGE
| SHELL_USAGE | EXEC_USAGE | STOP_USAGE | TRIM_USAGE | MEMORY_USAGE | VOLUME_USAGE | VOLUME_LIST_USAGE
| VOLUME_TRIM_USAGE | VOLUME_PRUNE_USAGE | DESTROY_USAGE | GENERATIONS_USAGE | GENERATIONS_LIST_USAGE
| GENERATIONS_ACTIVATE_USAGE | GENERATIONS_ROLLBACK_USAGE | GENERATIONS_PRUNE_USAGE | GC_USAGE | UPDATE_USAGE
| DOCTOR_USAGE.
Inductive message :=
| NoCommand | UnknownCommand (verb : bytes) | UnknownOption (token : bytes) | NeedsValue (flag : bytes)
| NeedsUtf8Value (flag : bytes) | NeedsSubcommand | UnknownSubcommand (sub : bytes) | OneManifestName | NeedsManifestName
| SpecNeedsPath | SpecOneAbsolutePath | ExpectsNumber (flag raw : bytes) | RebuildContradiction | GenerationConflict
| AttachHasNoJson | TtyContradiction | TtyWithoutTerminal | NeedsSeparator | NeedsGuestCommand
| NameBeforeEquals | NeedsVariableName | TimeoutBelow (raw : bytes) | ForceTimeoutConflict | ToAboveZero
| NeedsConsent | NeedsGenerationNumber | RetentionContradiction | NeedsRetention | MalformedDuration (raw : bytes).
Record UsageError := mk_UsageError { msg : message; shown : usage }.
Definition usage_error {A} (m : message) (u : usage) : result A UsageError := Err (mk_UsageError m u).

(** [token.to_str() == Some(literal)]: the literals are ASCII. *)
Definition tok (t : bytes) (literal : string) : bool := bytes_eqb t (bs literal).
Definition tok_any (t : bytes) (ls : list string) : bool := existsb (tok t) ls.
Definition unknown {A} (token : bytes) (u : usage) : result A UsageError := usage_error (UnknownOption token) u.
(** [Some(text) if !text.starts_with('-')]. *)
Definition positional (t : bytes) : bool := utf8_valid t && negb (starts_with (bs "-") t).

(** [value]: the token after a flag and what is left behind it. *)
Definition value_of (next : bytes) (flag : string) (u : usage) : result bytes UsageError :=
  ok_or (to_str next) (mk_UsageError (NeedsUtf8Value (bs flag)) u).
Definition parsed_number (n : option Z) (flag : string) (raw : bytes) (u : usage) : result Z UsageError :=
  ok_or n (mk_UsageError (ExpectsNumber (bs flag) raw) u).

Fixpoint flags_only (rest : list bytes) (u : usage) (output : Output) : result Output UsageError :=
  match rest with
  | [] => Ok output
  | t :: rest => if tok t "--json" then flags_only rest u Json else unknown t u
  end.

Fixpoint doctor (rest : list bytes) (strict list_ online : bool) (output : Output) : result Invocation UsageError :=
  match rest with
  | [] => Ok (Doctor strict list_ online output)
  | t :: rest =>
      if tok t "--strict" then doctor rest true list_ online output
      else if tok t "--list" then doctor rest strict true online output
      else if tok t "--online" then doctor rest strict list_ true output
      else if tok t "--json" then doctor rest strict list_ online Json
      else unknown t DOCTOR_USAGE
  end.

Fixpoint config_flags (rest : list bytes) (manifest : option bytes) (output : Output) : result Invocation UsageError :=
  match rest with
  | [] => Ok (Config manifest output)
  | t :: rest =>
      if tok t "--manifest" then
        match rest with
        | [] => usage_error (NeedsValue (bs "--manifest")) CONFIG_USAGE
        | next :: rest => let? v := value_of next "--manifest" CONFIG_USAGE in config_flags rest (Some v) output
        end
      else if tok t "--json" then config_flags rest manifest Json
      else unknown t CONFIG_USAGE
  end.
Definition config (rest : list bytes) : result Invocation UsageError :=
  match rest with
  | first :: rest' =>
      if tok first "eval" then let? o := flags_only rest' CONFIG_EVAL_USAGE Human in Ok (ConfigEval o)
      else if tok first "sources" then let? o := flags_only rest' CONFIG_SOURCES_USAGE Human in Ok (ConfigSources o)
      else config_flags rest None Human
  | [] => config_flags rest None Human
  end.

Fixpoint manifest_show (rest : list bytes) (name : option bytes) (output : Output) : result Invocation UsageError :=
  match rest with
  | [] =>
      match name with
      | None => usage_error NeedsManifestName MANIFEST_USAGE
      | Some name => Ok (ManifestShow name output)
      end
  | t :: rest =>
      if tok t "--json" then manifest_show rest name Json
      else if positional t then
        match name with
        | Some _ => usage_error OneManifestName MANIFEST_USAGE
        | None => manifest_show rest (Some t) output
        end
      else unknown t MANIFEST_USAGE
  end.
Definition manifest (rest : list bytes) : result Invocation UsageError :=
  match rest with
  | [] => usage_error NeedsSubcommand MANIFEST_USAGE
  | sub :: rest =>
      if tok sub "list" then let? o := flags_only rest MANIFEST_USAGE Human in Ok (ManifestList o)
      else if tok sub "show" then manifest_show rest None Human
      else usage_error (UnknownSubcommand sub) MANIFEST_USAGE
  end.

Record start_flags := mk_start_flags { f_rebuild : bool; f_no_rebuild : bool; f_generation : option Z; f_attach : bool; f_output : Output }.
Fixpoint start_loop (rest : list bytes) (f : start_flags) : result start_flags UsageError :=
  let '(mk_start_flags rebuild no_rebuild generation attach output) := f in
  match rest with
  | [] => Ok f
  | t :: rest =>
      if tok t "--rebuild" then start_loop rest (mk_start_flags true no_rebuild generation attach output)
      else if tok t "--no-rebuild" then start_loop rest (mk_start_flags rebuild true generation attach output)
      else if tok t "--generation" then
        match rest with
        | [] => usage_error (NeedsValue (bs "--generation")) START_USAGE
        | next :: rest =>
            let? raw := value_of next "--generation" START_USAGE in
            let? n := parsed_number (parse_uint u64_max raw) "--generation" raw START_USAGE in
            start_loop rest (mk_start_flags rebuild no_rebuild (Some n) attach output)
        end
      else if tok t "--attach" then start_loop rest (mk_start_flags rebuild no_rebuild generation true output)
      else if tok t "--json" then start_loop rest (mk_start_flags rebuild no_rebuild generation attach Json)
      else unknown t START_USAGE
  end.
Definition start_checked (f : start_flags) : result Invocation UsageError :=
  let '(mk_start_flags rebuild no_rebuild generation attach output) := f in
  let? _ := guard_err (rebuild && no_rebuild) (mk_UsageError RebuildContradiction START_USAGE) in
  let? _ := guard_err (bool_decide (is_Some generation) && (rebuild || no_rebuild)) (mk_UsageError GenerationConflict START_USAGE) in
  let? _ := guard_err (attach && is_json output) (mk_UsageError AttachHasNoJson START_USAGE) in
  Ok (Start rebuild no_rebuild generation attach output).
Definition start (rest : list bytes) : result Invocation UsageError :=
  match rest with
  | t :: rest' =>
      if tok t "--spec" then
        match rest' with
        | [] => usage_error SpecNeedsPath START_USAGE
        | spec :: more =>
            if negb (length more =? 0)%nat || negb (is_absolute spec) then usage_error SpecOneAbsolutePath START_USAGE
            else Ok (StartSpec spec)
        end
      else let? f := start_loop rest (mk_start_flags false false None false Human) in start_checked f
  | [] => let? f := start_loop rest (mk_start_flags false false None false Human) in start_checked f
  end.

Fixpoint status (rest : list bytes) (global : bool) (output : Output) : result Invocation UsageError :=
  match rest with
  | [] => Ok (Status global output)
  | t :: rest =>
      if tok_any t ["-g"; "--global"]%string then status rest true output
      else if tok t "--json" then status rest global Json
      else unknown t STATUS_USAGE
  end.
Definition shell (rest : list bytes) : result Invocation UsageError :=
  match rest with
  | t :: _ => unknown t SHELL_USAGE
  | [] => Ok (Shell (mk_Session [] true []))
  end.

(** The bytes before the first [=] and those behind it. *)
Fixpoint split_equals (s : bytes) : option (bytes * bytes) :=
  match s with
  | [] => None
  | b :: s => if bool_decide (b = "="%byte) then Some ([], s)
              else match split_equals s with Some (k, v) => Some (b :: k, v) | None => None end
  end.
Definition env_assignment (token : bytes) : result (bytes * option bytes) UsageError :=
  match split_equals token with
  | Some ([], _) => usage_error NameBeforeEquals EXEC_USAGE
  | Some (k, v) => Ok (k, Some v)
  | None => if bool_decide (token = []) then usage_error NeedsVariableName EXEC_USAGE else Ok (token, None)
  end.
Record exec_scan := mk_exec_scan { x_tty : bool; x_no_tty : bool; x_env : list (bytes * option bytes); x_argv : option (list bytes) }.
Fixpoint exec_loop (rest : list bytes) (tty no_tty : bool) (e : list (bytes * option bytes)) : result exec_scan UsageError :=
  match rest with
  | [] => Ok (mk_exec_scan tty no_tty e None)
  | t :: rest =>
      if tok t "--" then Ok (mk_exec_scan tty no_tty e (Some rest))
      else if tok_any t ["-t"; "--tty"]%string then exec_loop rest true no_tty e
      else if tok_any t ["-T"; "--no-tty"]%string then exec_loop rest tty true e
      else if tok t "--env" then
        match rest with
        | [] => usage_error (NeedsValue (bs "--env")) EXEC_USAGE
        | assignment :: rest => let? a := env_assignment assignment in exec_loop rest tty no_tty (e ++ [a])
        end
      else unknown t EXEC_USAGE
  end.
Definition exec (rest : list bytes) (streams : Streams) : result Invocation UsageError :=
  let? x := exec_loop rest false false [] in
  let? _ := guard_err (x_tty x && x_no_tty x) (mk_UsageError TtyContradiction EXEC_USAGE) in
  let? _ := guard_err (x_tty x && negb (stdin_is_tty streams)) (mk_UsageError TtyWithoutTerminal EXEC_USAGE) in
  let? argv := ok_or (x_argv x) (mk_UsageError NeedsSeparator EXEC_USAGE) in
  let? _ := guard_err (bool_decide (argv = [])) (mk_UsageError NeedsGuestCommand EXEC_USAGE) in
  Ok (Exec (mk_Session argv (x_tty x) (x_env x))).

Record stop_flags := mk_stop_flags { t_all : bool; t_force : bool; t_timeout : option Z; t_output : Output }.
Fixpoint stop_loop (rest : list bytes) (f : stop_flags) : result stop_flags UsageError :=
  let '(mk_stop_flags all force timeout output) := f in
  match rest with
  | [] => Ok f
  | t :: rest =>
      if tok t "--force" then stop_loop rest (mk_stop_flags all true timeout output)
      else if tok t "--all" then stop_loop rest (mk_stop_flags true force timeout output)
      else if tok_any t ["-t"; "--timeout"]%string then
        match rest with
        | [] => usage_error (NeedsValue (bs "--timeout")) STOP_USAGE
        | next :: rest =>
            let? raw := value_of next "--timeout" STOP_USAGE in
            let? seconds := parsed_number (parse_int i64_min i64_max raw) "--timeout" raw STOP_USAGE in
            let? _ := guard_err (seconds <? -1) (mk_UsageError (TimeoutBelow raw) STOP_USAGE) in
            stop_loop rest (mk_stop_flags all force (Some seconds) output)
        end
      else if tok t "--json" then stop_loop rest (mk_stop_flags all force timeout Json)
      else unknown t STOP_USAGE
  end.
Definition stop (rest : list bytes) : result Invocation UsageError :=
  let? f := stop_loop rest (mk_stop_flags false false None Human) in
  let? _ := guard_err (t_force f && match t_timeout f with Some seconds => negb (seconds =? 0) | None => false end)
                      (mk_UsageError ForceTimeoutConflict STOP_USAGE) in
  Ok (Stop (t_all f) (t_force f) (t_timeout f) (t_output f)).

Definition trim_ (rest : list bytes) : result Invocation UsageError :=
  let? o := flags_only rest TRIM_USAGE Human in Ok (Trim o).

Fixpoint memory_trim (rest : list bytes) (to : option Z) (output : Output) : result Invocation UsageError :=
  match rest with
  | [] => Ok (MemoryTrim to output)
  | t :: rest =>
      if tok t "--to" then
        match rest with
        | [] => usage_error (NeedsValue (bs "--to")) MEMORY_USAGE
        | next :: rest =>
            let? raw := value_of next "--to" MEMORY_USAGE in
            let? n := parsed_number (parse_uint u64_max raw) "--to" raw MEMORY_USAGE in
            let? _ := guard_err (n =? 0) (mk_UsageError ToAboveZero MEMORY_USAGE) in
            memory_trim rest (Some n) output
        end
      else if tok t "--json" then memory_trim rest to Json
      else unknown t MEMORY_USAGE
  end.
Definition memory (rest : list bytes) : result Invocation UsageError :=
  match rest with
  | [] => usage_error NeedsSubcommand MEMORY_USAGE
  | sub :: rest => if tok sub "trim" then memory_trim rest None Human else usage_error (UnknownSubcommand sub) MEMORY_USAGE
  end.

Fixpoint volume_trim (rest : list bytes) (name : option bytes) (output : Output) : result Invocation UsageError :=
  match rest with
  | [] => Ok (VolumeTrim name output)
  | t :: rest =>
      if tok t "--json" then volume_trim rest name Json
      else if negb (bool_decide (is_Some name)) && positional t then volume_trim rest (Some t) output
      else unknown t VOLUME_TRIM_USAGE
  end.
Fixpoint volume_prune (rest : list bytes) (streams : Streams) (dry_run yes : bool) (output : Output) : result Invocation UsageError :=
  match rest with
  | [] =>
      if negb dry_run && negb yes && negb (stdin_is_tty streams) then usage_error NeedsConsent VOLUME_PRUNE_USAGE
      else Ok (VolumePrune dry_run yes output)
  | t :: rest =>
      if tok_any t ["--dry-run"; "-n"]%string then volume_prune rest streams true yes output
      else if tok_any t ["--yes"; "-f"]%string then volume_prune rest streams dry_run true output
      else if tok t "--json" then volume_prune rest streams dry_run yes Json
      else unknown t VOLUME_PRUNE_USAGE
  end.
Definition volume (rest : list bytes) (streams : Streams) : result Invocation UsageError :=
  match rest with
  | [] => usage_error NeedsSubcommand VOLUME_USAGE
  | sub :: rest =>
      if tok sub "list" then let? o := flags_only rest VOLUME_LIST_USAGE Human in Ok (VolumeList o)
      else if tok sub "trim" then volume_trim rest None Human
      else if tok sub "prune" then volume_prune rest streams false false Human
      else usage_error (UnknownSubcommand sub) VOLUME_USAGE
  end.

Fixpoint destroy (rest : list bytes) (streams : Streams) (yes keep_volumes : bool) (output : Output) : result Invocation UsageError :=
  match rest with
  | [] =>
      if negb yes && negb (stdin_is_tty streams) then usage_error NeedsConsent DESTROY_USAGE
      else Ok (Destroy keep_volumes yes output)
  | t :: rest =>
      if tok_any t ["--yes"; "-f"]%string then destroy rest streams true keep_volumes output
      else if tok t "--keep-volumes" then destroy rest streams yes true output
      else if tok t "--json" then destroy rest streams yes keep_volumes Json
      else unknown t DESTROY_USAGE
  end.
Definition gc (rest : list bytes) : result Invocation UsageError :=
  let? o := flags_only rest GC_USAGE Human in Ok (Gc o).
Fixpoint update (rest : list bytes) (inputs : list bytes) (output : Output) : result Invocation UsageError :=
  match rest with
  | [] => Ok (Update inputs output)
  | t :: rest =>
      if tok t "--json" then update rest inputs Json
      else if positional t then update rest (if bool_decide (t ∈ inputs) then inputs else inputs ++ [t]) output
      else unknown t UPDATE_USAGE
  end.

(** [raw.split_at(raw.len() - 1)] of an ASCII text. *)
Definition unit_scale (u : option byte) : option Z :=
  match u with
  | Some b => if bool_decide (b = "d"%byte) then Some 86400 else if bool_decide (b = "h"%byte) then Some 3600
              else if bool_decide (b = "m"%byte) then Some 60 else if bool_decide (b = "s"%byte) then Some 1 else None
  | None => None
  end.
Definition u64_checked_mul (a b : Z) : option Z := if a * b <=? u64_max then Some (a * b) else None.
Definition duration_seconds (raw : bytes) : result Z UsageError :=
  let malformed := mk_UsageError (MalformedDuration raw) GENERATIONS_PRUNE_USAGE in
  let? _ := guard_err (negb (forallb (fun b => bz b <? 128) raw) || (length raw <? 2)%nat) malformed in
  let? scale := ok_or (unit_scale (last raw)) malformed in
  let digits := removelast raw in
  let? _ := guard_err (negb (forallb is_ascii_digit digits)) malformed in
  let? count := ok_or (parse_uint u64_max digits) malformed in
  ok_or (u64_checked_mul count scale) malformed.

Fixpoint generations_activate (rest : list bytes) (number : option Z) (output : Output) : result Invocation UsageError :=
  match rest with
  | [] =>
      match number with
      | None => usage_error NeedsGenerationNumber GENERATIONS_ACTIVATE_USAGE
      | Some n => Ok (GenerationsActivate n output)
      end
  | t :: rest =>
      if tok t "--json" then generations_activate rest number Json
      else if negb (bool_decide (is_Some number)) && positional t then
        let? n := parsed_number (parse_uint u64_max t) "activate" t GENERATIONS_ACTIVATE_USAGE in
        generations_activate rest (Some n) output
      else unknown t GENERATIONS_ACTIVATE_USAGE
  end.
Fixpoint generations_prune (rest : list bytes) (keep older : option Z) (output : Output) : result Invocation UsageError :=
  match rest with
  | [] =>
      match keep, older with
      | Some _, Some _ => usage_error RetentionContradiction GENERATIONS_PRUNE_USAGE
      | None, None => usage_error NeedsRetention GENERATIONS_PRUNE_USAGE
      | _, _ => Ok (GenerationsPrune keep older output)
      end
  | t :: rest =>
      if tok t "--keep" then
        match rest with
        | [] => usage_error (NeedsValue (bs "--keep")) GENERATIONS_PRUNE_USAGE
        | next :: rest =>
            let? raw := value_of next "--keep" GENERATIONS_PRUNE_USAGE in
            let? n := parsed_number (parse_uint u64_max raw) "--keep" raw GENERATIONS_PRUNE_USAGE in
            generations_prune rest (Some n) older output
        end
      else if tok t "--older-than" then
        match rest with
        | [] => usage_error (NeedsValue (bs "--older-than")) GENERATIONS_PRUNE_USAGE
        | next :: rest =>
            let? raw := value_of next "--older-than" GENERATIONS_PRUNE_USAGE in
            let? n := duration_seconds raw in
            generations_prune rest keep (Some n) output
        end
      else if tok t "--json" then generations_prune rest keep older Json
      else unknown t GENERATIONS_PRUNE_USAGE
  end.
Definition generations (rest : list bytes) : result Invocation UsageError :=
  match rest with
  | [] => usage_error NeedsSubcommand GENERATIONS_USAGE
  | sub :: rest =>
      if tok sub "list" then let? o := flags_only rest GENERATIONS_LIST_USAGE Human in Ok (GenerationsList o)
      else if tok sub "activate" then generations_activate rest None Human
      else if tok sub "rollback" then let? o := flags_only rest GENERATIONS_ROLLBACK_USAGE Human in Ok (GenerationsRollback o)
      else if tok sub "prune" then generations_prune rest None None Human
      else usage_error (UnknownSubcommand sub) GENERATIONS_USAGE
  end.

(* ------------------------------------------------------------------ *)
(** ** The global flags and the dispatch *)

Definition takes_value (verb : option bytes) (flag : bytes) : bool :=
  match verb with
  | Some v =>
      if tok v "config" then tok flag "--manifest"
      else if tok v "start" then tok_any flag ["--spec"; "--generation"]%string
      else if tok v "exec" then tok flag "--env"
      else if tok v "stop" then tok_any flag ["-t"; "--timeout"]%string
      else if tok v "generations" then tok_any flag ["--keep"; "--older-than"]%string
      else if tok v "memory" then tok flag "--to"
      else false
  | None => false
  end.

(** [level] is an [i8]; the largest value it takes is 6. *)
Record Globals := mk_Globals { tokens : list bytes; level : Z; help : bool; version : bool; verb : option bytes }.
Definition bump (level added : Z) : Z := if level <? 0 then added else Z.min (level + added) 3.
Definition set_level (l : Z) (g : Globals) : Globals := mk_Globals (tokens g) l (help g) (version g) (verb g).
Definition keep_tokens (ts : list bytes) (v : option bytes) (g : Globals) : Globals :=
  mk_Globals (tokens g ++ ts) (level g) (help g) (version g) v.
Fixpoint lift (args : list bytes) (g : Globals) : Globals :=
  match args with
  | [] => g
  | token :: rest =>
      if tok token "--" then keep_tokens (token :: rest) (verb g) g
      else if tok_any token ["-q"; "--quiet"]%string then lift rest (set_level (-1) g)
      else if tok_any token ["-v"; "--verbose"]%string then lift rest (set_level (bump (level g) 1) g)
      else if tok token "-vv" then lift rest (set_level (bump (level g) 2) g)
      else if tok token "-vvv" then lift rest (set_level (bump (level g) 3) g)
      else if tok_any token ["-h"; "--help"]%string then lift rest (mk_Globals (tokens g) (level g) true (version g) (verb g))
      else if tok token "--version" then lift rest (mk_Globals (tokens g) (level g) (help g) true (verb g))
      else
        let v := match verb g with Some v => Some v | None => to_str token end in
        let value_next := match to_str token with Some flag => takes_value v flag | None => false end in
        match value_next, rest with
        | true, value :: rest' => lift rest' (keep_tokens [token; value] v g)
        | _, _ => lift rest (keep_tokens [token] v g)
        end
  end.
Definition verbosity_of (level : Z) : Verbosity :=
  if level <? 0 then Quiet else if level =? 0 then Normal else if level =? 1 then Verbose
  else if level =? 2 then Debug else Trace.
Definition lift_globals (args : list bytes) : Globals := lift args (mk_Globals [] 0 false false None).

Definition dispatch (verb : bytes) (rest : list bytes) (streams : Streams) : result Invocation UsageError :=
  if tok verb "config" then config rest
  else if tok verb "manifest" then manifest rest
  else if tok verb "start" then start rest
  else if tok verb "status" then status rest false Human
  else if tok verb "shell" then shell rest
  else if tok verb "exec" then exec rest streams
  else if tok verb "stop" then stop rest
  else if tok verb "trim" then trim_ rest
  else if tok verb "memory" then memory rest
  else if tok verb "volume" then volume rest streams
  else if tok verb "generations" then generations rest
  else if tok verb "destroy" then destroy rest streams false false Human
  else if tok verb "gc" then gc rest
  else if tok verb "update" then update rest [] Human
  else if tok verb "doctor" then doctor rest false false false Human
  else usage_error (UnknownCommand verb) TOP_USAGE.

(** [args] is the command line with the program's own name first. *)
Definition parse (args : list bytes) (streams : Streams) : result Parsed UsageError :=
  let g := lift_globals (drop 1 args) in
  let v := verbosity_of (level g) in
  if help g then Ok (mk_Parsed (Help (verb g)) v)
  else if version g then Ok (mk_Parsed Version v)
  else
    match tokens g with
    | [] => usage_error NoCommand TOP_USAGE
    | verb :: rest => let? i := dispatch verb rest streams in Ok (mk_Parsed i v)
    end.
