(* ===== verification/GrammarSpec.v ===== *)
(** * Grammar: the command lines [parse] accepts, and what it makes of them.

    [wf] is the contract of an invocation, [unparse] a canonical spelling of it.  Every accepted line yields a
    well-formed invocation, and every well-formed invocation is what its spelling parses to. *)
From S2P Require Import Prelude Bytes Paths Grammar.

#[local] Arguments bs : simpl never.
#[local] Arguments dec : simpl never.
#[local] Arguments dec_int : simpl never.
#[local] Arguments tok : simpl never.
#[local] Arguments tok_any : simpl never.
#[local] Arguments starts_with : simpl never.

(* ------------------------------------------------------------------ *)
(** ** The contract of an invocation *)

Definition u64 (n : Z) : Prop := 0 <= n <= u64_max.
Definition on_some {A} (P : A -> Prop) (o : option A) : Prop := match o with Some a => P a | None => True end.
Definition wf_variable (a : bytes * option bytes) : Prop := fst a <> [] /\ "="%byte ∉ fst a.
Definition one_of {A B} (a : option A) (b : option B) : Prop :=
  match a, b with Some _, None | None, Some _ => True | _, _ => False end.

(** The flags lifted wherever they stand before the first [--]. *)
Definition verbosity_flag (t : bytes) : bool :=
  tok_any t ["-q"; "--quiet"; "-v"; "--verbose"; "-vv"; "-vvv"]%string.
Definition lifted (t : bytes) : bool := verbosity_flag t || tok_any t ["-h"; "--help"; "--version"]%string.

Definition wf (streams : Streams) (i : Invocation) : Prop :=
  match i with
  | Config manifest _ => on_some (fun m => utf8_valid m = true) manifest
  | ManifestShow name _ => positional name = true
  | Start rebuild no_rebuild generation attach output =>
      rebuild && no_rebuild = false /\ (is_Some generation -> rebuild || no_rebuild = false) /\
      on_some u64 generation /\ (attach = true -> output = Human)
  | Stop _ force timeout _ =>
      on_some (fun s => -1 <= s <= i64_max) timeout /\ (force = true -> timeout = None \/ timeout = Some 0)
  | Exec s => argv s <> [] /\ (pty s = true -> stdin_is_tty streams = true) /\ Forall wf_variable (env s)
  | Shell s => s = mk_Session [] true []
  | StartSpec spec => is_absolute spec = true
  | Update inputs _ => NoDup inputs /\ Forall (fun t => positional t = true) inputs
  | VolumePrune dry_run yes _ => dry_run || yes || stdin_is_tty streams = true
  | VolumeTrim name _ => on_some (fun t => positional t = true) name
  | MemoryTrim to _ => on_some (fun n => 0 < n <= u64_max) to
  | Destroy _ yes _ => yes || stdin_is_tty streams = true
  | GenerationsPrune keep older _ => one_of keep older /\ on_some u64 keep /\ on_some u64 older
  | GenerationsActivate n _ => u64 n
  | Help verb => on_some (fun t => utf8_valid t = true /\ lifted t = false /\ tok t "--" = false) verb
  | _ => True
  end.

(* ------------------------------------------------------------------ *)
(** ** Accepted lines are well formed *)

(** Split one step of a parser that succeeded. *)
Ltac parser_step :=
  match goal with
  | H : (if ?b then _ else _) = Ok _ |- _ => destruct b eqn:?
  | H : match ?l with [] => _ | _ :: _ => _ end = Ok _ |- _ => destruct l eqn:?
  | H : match ?o with Some _ => _ | None => _ end = Ok _ |- _ => destruct o eqn:?
  | H : usage_error _ _ = Ok _ |- _ => discriminate H
  | H : unknown _ _ = Ok _ |- _ => discriminate H
  | _ => progress inv_ok
  end.

Lemma value_of_ok next flag u v : value_of next flag u = Ok v -> v = next /\ utf8_valid v = true.
Proof. unfold value_of, to_str. destruct (utf8_valid next) eqn:?; intros; inv_ok; naive_solver. Qed.
Lemma parsed_number_ok n flag raw u v : parsed_number n flag raw u = Ok v -> n = Some v.
Proof. unfold parsed_number. intros. by inv_ok. Qed.

(** A parser consumes one token, or a flag and its value. *)
Lemma tokens_ind (P : list bytes -> Prop) :
  P [] -> (forall t rest, P rest -> (forall v rest', rest = v :: rest' -> P rest') -> P (t :: rest)) ->
  forall rest, P rest.
Proof.
  intros H0 H1 rest. enough (P rest /\ (forall v rest', rest = v :: rest' -> P rest')) by tauto.
  induction rest as [|t rest [IH1 IH2]]; [by split|]. split; [by apply H1|]. by intros ? ? [= _ <-].
Qed.

Section wf.
Context (streams : Streams).

Lemma config_flags_wf rest m o i :
  config_flags rest m o = Ok i -> on_some (fun m => utf8_valid m = true) m -> wf streams i.
Proof.
  revert m o. induction rest as [|t rest IH IH2] using tokens_ind; intros m o H Hm; simpl in H; [by inv_ok|].
  repeat parser_step; eauto. apply value_of_ok in H0 as [-> ?]. eauto.
Qed.
Lemma config_wf rest i : config rest = Ok i -> wf streams i.
Proof. unfold config. intros. repeat parser_step; simpl; eauto using config_flags_wf; eapply config_flags_wf; eauto; done. Qed.

Lemma manifest_show_wf rest name o i :
  manifest_show rest name o = Ok i -> on_some (fun t => positional t = true) name -> wf streams i.
Proof.
  revert name o. induction rest as [|t rest IH]; intros name o H Hn; simpl in H; repeat parser_step; simpl; eauto.
Qed.
Lemma manifest_wf rest i : manifest rest = Ok i -> wf streams i.
Proof. unfold manifest. intros. repeat parser_step; simpl; eauto. by eapply manifest_show_wf. Qed.

Lemma start_loop_wf rest f f' : start_loop rest f = Ok f' -> on_some u64 (f_generation f) -> on_some u64 (f_generation f').
Proof.
  revert f. induction rest as [|t rest IH IH2] using tokens_ind; intros [a b g c o] H Hg; simpl in H; [by inv_ok|].
  repeat parser_step; simpl in Hg; eauto.
  apply parsed_number_ok in H1. eapply IH2; [done..|]. simpl. by apply parse_uint_bound in H1.
Qed.
Lemma start_checked_wf f i : start_checked f = Ok i -> on_some u64 (f_generation f) -> wf streams i.
Proof.
  destruct f as [a b g c o]. unfold start_checked. intros. repeat parser_step. simpl in *.
  destruct a, b, c, o; simpl in *; try done; destruct g; split_and!; try done; by intros [].
Qed.
Lemma start_wf rest i : start rest = Ok i -> wf streams i.
Proof.
  unfold start. intros. repeat parser_step; try (eapply start_checked_wf; [done|]; by eapply start_loop_wf).
  simpl. apply orb_false_iff in Heqb0 as [_ ?%negb_false_iff]. done.
Qed.

Lemma status_wf rest g o i : status rest g o = Ok i -> wf streams i.
Proof. revert g o. induction rest; intros; simpl in *; repeat parser_step; simpl; eauto. Qed.
Lemma shell_wf rest i : shell rest = Ok i -> wf streams i.
Proof. unfold shell. intros. by repeat parser_step. Qed.

Lemma split_equals_Some s k v : split_equals s = Some (k, v) <-> s = k ++ "="%byte :: v /\ "="%byte ∉ k.
Proof.
  revert k v. induction s as [|b s IH]; intros k v; simpl.
  - split; [done|]. by intros [?%app_cons_not_nil ?].
  - case_bool_decide as Hb.
    + subst b. split.
      * intros [= <- <-]. split; [done|]. apply not_elem_of_nil.
      * intros [E Hk]. destruct k as [|c k]; simplify_eq/=; [done|]. set_solver.
    + destruct (split_equals s) as [[k' v']|] eqn:E.
      * destruct (proj1 (IH k' v') eq_refl) as [-> Hk']. split.
        -- intros [= <- <-]. split; [done|]. apply not_elem_of_cons. split; [congruence|done].
        -- intros [Hs Hk]. destruct k as [|c k]; [by injection Hs as -> _|]. injection Hs as <- Hs. apply not_elem_of_cons in Hk as [_ Hk].
           pose proof (proj2 (IH k v) (conj Hs Hk)). by simplify_eq.
      * split; [done|]. intros [Hs Hk]. destruct k as [|c k]; [by injection Hs as -> _|]. injection Hs as <- Hs. apply not_elem_of_cons in Hk as [_ Hk].
        discriminate (proj2 (IH k v) (conj Hs Hk)).
Qed.
Lemma split_equals_None s : split_equals s = None <-> "="%byte ∉ s.
Proof.
  induction s as [|b s IH]; simpl; [split; [intros _; apply not_elem_of_nil|done]|].
  rewrite not_elem_of_cons, <- IH. case_bool_decide; [naive_solver|]. destruct (split_equals s) as [[]|]; naive_solver.
Qed.

(** [--env] takes [KEY] and [KEY=VAL] for a non-empty [KEY], splitting at the first [=]. *)
Lemma env_assignment_ok token a :
  env_assignment token = Ok a <->
  wf_variable a /\ token = match snd a with Some v => fst a ++ "="%byte :: v | None => fst a end.
Proof.
  unfold env_assignment, wf_variable. destruct (split_equals token) as [[k v]|] eqn:E.
  - apply split_equals_Some in E as [-> Hk]. destruct k as [|c k].
    + split; [done|]. destruct a as [k' [v'|]]; simpl; intros [[H1 H2] H3].
      * destruct k'; simplify_eq/=. set_solver.
      * subst k'. set_solver.
    + split; [intros [= <-]; naive_solver|]. destruct a as [k' [v'|]]; simpl; intros [[H1 H2] H3].
      * assert (split_equals ((c :: k) ++ "="%byte :: v) = Some (k', v')) as Hs by (apply split_equals_Some; naive_solver).
        assert (split_equals ((c :: k) ++ "="%byte :: v) = Some (c :: k, v)) as Hs' by (by apply split_equals_Some).
        rewrite Hs' in Hs. congruence.
      * subst k'. set_solver.
  - apply split_equals_None in E. case_bool_decide as Hn.
    + subst. split; [done|]. destruct a as [[|? ?] [?|]]; simpl; naive_solver.
    + split; [intros [= <-]; naive_solver|]. destruct a as [k' [v'|]]; simpl; intros [[H1 H2] H3]; subst; [set_solver|done].
Qed.

Lemma exec_loop_wf rest a b e x : exec_loop rest a b e = Ok x -> Forall wf_variable e -> Forall wf_variable (x_env x).
Proof.
  revert a b e. induction rest as [|t rest IH IH2] using tokens_ind; intros a b e H He; simpl in H; [by inv_ok|].
  repeat parser_step; simpl; eauto.
  apply env_assignment_ok in H0 as [Hw _]. eapply IH2; [done..|]. apply Forall_app; split; [done|by apply Forall_singleton].
Qed.
Lemma exec_wf rest i : exec rest streams = Ok i -> wf streams i.
Proof.
  unfold exec. intros. repeat parser_step. simpl.
  split_and!; [by eapply bool_decide_eq_false| |by eapply exec_loop_wf]. by destruct (x_tty _), (stdin_is_tty streams).
Qed.

Lemma stop_loop_wf rest f f' :
  stop_loop rest f = Ok f' -> on_some (fun s => -1 <= s <= i64_max) (t_timeout f) -> on_some (fun s => -1 <= s <= i64_max) (t_timeout f').
Proof.
  revert f. induction rest as [|t rest IH IH2] using tokens_ind; intros [a b g o] H Hg; simpl in H; [by inv_ok|].
  repeat parser_step; simpl in Hg; eauto.
  apply parsed_number_ok in H1. eapply IH2; [done..|]. simpl. apply parse_int_bound in H1. lia.
Qed.
Lemma stop_wf rest i : stop rest = Ok i -> wf streams i.
Proof.
  unfold stop. intros. repeat parser_step. simpl. split; [by eapply stop_loop_wf|]. intros E.
  match goal with H : _ && _ = false |- _ => rename H into Hf end. rewrite E in Hf. simpl in Hf.
  destruct (t_timeout x) as [s|]; [|by left]. apply negb_false_iff, Z.eqb_eq in Hf. subst. by right.
Qed.

Lemma memory_trim_wf rest to o i :
  memory_trim rest to o = Ok i -> on_some (fun n => 0 < n <= u64_max) to -> wf streams i.
Proof.
  revert to o. induction rest as [|t rest IH IH2] using tokens_ind; intros to o H Hm; simpl in H; [by inv_ok|].
  repeat parser_step; eauto.
  apply parsed_number_ok in H1. apply parse_uint_bound in H1. eapply IH2; [done..|]. simpl. lia.
Qed.
Lemma memory_wf rest i : memory rest = Ok i -> wf streams i.
Proof. unfold memory. intros. repeat parser_step. by eapply memory_trim_wf. Qed.

Lemma volume_trim_wf rest name o i :
  volume_trim rest name o = Ok i -> on_some (fun t => positional t = true) name -> wf streams i.
Proof.
  revert name o. induction rest as [|t rest IH]; intros name o H Hn; simpl in H; repeat parser_step; simpl; eauto.
  eapply IH; [done|]. simpl. by apply andb_true_iff in Heqb0 as [_ ?].
Qed.
Lemma volume_prune_wf rest d y o i : volume_prune rest streams d y o = Ok i -> wf streams i.
Proof.
  revert d y o. induction rest as [|t rest IH]; intros d y o H; simpl in H; repeat parser_step; simpl; eauto.
  by destruct d, y, (stdin_is_tty streams).
Qed.
Lemma volume_wf rest i : volume rest streams = Ok i -> wf streams i.
Proof. unfold volume. intros. repeat parser_step; simpl; eauto using volume_prune_wf. by eapply volume_trim_wf. Qed.

Lemma destroy_wf rest y k o i : destroy rest streams y k o = Ok i -> wf streams i.
Proof.
  revert y k o. induction rest as [|t rest IH]; intros y k o H; simpl in H; repeat parser_step; simpl; eauto.
  by destruct y, (stdin_is_tty streams).
Qed.
Lemma update_wf rest inputs o i :
  update rest inputs o = Ok i -> NoDup inputs -> Forall (fun t => positional t = true) inputs -> wf streams i.
Proof.
  revert inputs o. induction rest as [|t rest IH]; intros inputs o H Hn Hf; simpl in H; repeat parser_step; simpl; eauto.
  eapply IH; [done|..]; case_bool_decide; try done; [by apply NoDup_snoc_fresh|]. apply Forall_app; split; [done|by apply Forall_singleton].
Qed.
Lemma doctor_wf rest a b c o i : doctor rest a b c o = Ok i -> wf streams i.
Proof. revert a b c o. induction rest; intros; simpl in *; repeat parser_step; simpl; eauto. Qed.
End wf.

(** ** Durations *)

Lemma unit_scale_Some u s : unit_scale u = Some s -> 0 < s.
Proof. unfold unit_scale. intros. repeat case_match; simplify_eq; lia. Qed.

(** C6: [--older-than] accepts exactly a decimal count and one of the four units; its window is their product, and a
    product past 64 bits is refused rather than wrapped. *)
Theorem duration_seconds_spec raw n :
  duration_seconds raw = Ok n <->
  exists digits u scale, raw = digits ++ [u] /\ digits <> [] /\ forallb is_ascii_digit digits = true /\
    unit_scale (Some u) = Some scale /\ n = dec_value digits * scale /\ 0 <= n <= u64_max.
Proof.
  split.
  - unfold duration_seconds. intros. repeat parser_step.
    match goal with H : _ || _ = false |- _ => apply orb_false_iff in H as [_ Hl] end.
    destruct (last raw) as [u|] eqn:E; [|done]. apply last_Some in E as [digits ->].
    rewrite removelast_last in *. exists digits, u, x0.
    match goal with H : parse_uint _ _ = Some _ |- _ => pose proof (parse_uint_bound _ _ _ H); revert H end.
    match goal with H : unit_scale _ = Some _ |- _ => pose proof (unit_scale_Some _ _ H) end.
    match goal with H : u64_checked_mul _ _ = Some _ |- _ => revert H end.
    match goal with H : negb _ = false |- _ => apply negb_false_iff in H; rename H into Hd end.
    unfold u64_checked_mul. destruct (Z.leb_spec (x2 * x0) u64_max); intros [= <-] Hp.
    assert (Hne : digits <> []) by (intros ->; discriminate Hl).
    assert (x2 = dec_value digits) as ->.
    { unfold parse_uint in Hp. destruct digits as [|b ds]; [done|].
      pose proof Hd as [Hb _]%andb_true_iff. destruct (digit_not_sign b Hb). rewrite decide_False in Hp by done.
      repeat case_match; simplify_eq. done. }
    split_and!; try done; nia.
  - intros (digits & u & scale & -> & Hne & Hd & Hu & -> & Hn). unfold duration_seconds.
    assert (Hascii : forallb (fun b => bz b <? 128) (digits ++ [u]) = true).
    { rewrite forallb_app. apply andb_true_iff. split.
      - apply forallb_forall. intros b Hb. apply forallb_forall with (x := b) in Hd; [|done]. unfold is_ascii_digit in Hd. lia.
      - destruct u; try discriminate Hu; reflexivity. }
    rewrite Hascii. destruct digits as [|b ds]; [done|]. rewrite length_app. cbn [length negb orb].
    rewrite (proj2 (Nat.ltb_ge _ 2)) by lia. cbn [guard_err rbind]. rewrite last_snoc, Hu. cbn [ok_or rbind].
    rewrite removelast_last, Hd. cbn [negb guard_err rbind].
    pose proof (unit_scale_Some _ _ Hu). pose proof Hd as [Hb _]%andb_true_iff. destruct (digit_not_sign b Hb).
    assert (Hp : parse_uint u64_max (b :: ds) = Some (dec_value (b :: ds))).
    { unfold parse_uint. rewrite decide_False by done. rewrite Hd. cbn [length Nat.eqb negb orb].
      destruct (Z.gtb_spec (dec_value (b :: ds)) u64_max); [nia|done]. }
    rewrite Hp. cbn [ok_or rbind]. unfold u64_checked_mul. rewrite (proj2 (Z.leb_le _ _)) by lia. done.
Qed.

Section wf_generations.
Context (streams : Streams).
Lemma generations_activate_wf rest n o i :
  generations_activate rest n o = Ok i -> on_some u64 n -> wf streams i.
Proof.
  revert n o. induction rest as [|t rest IH]; intros n o H Hn; simpl in H; repeat parser_step; simpl; eauto.
  eapply IH; [done|]. simpl. match goal with H : parsed_number _ _ _ _ = _ |- _ => apply parsed_number_ok in H end.
  by eapply parse_uint_bound.
Qed.
Lemma generations_prune_wf rest k a o i :
  generations_prune rest k a o = Ok i -> on_some u64 k -> on_some u64 a -> wf streams i.
Proof.
  revert k a o. induction rest as [|t rest IH IH2] using tokens_ind; intros k a o H Hk Ha; simpl in H.
  { destruct k, a; inv_ok; try done; simpl; split_and!; done. }
  repeat parser_step; eauto.
  - match goal with H : parsed_number _ _ _ _ = _ |- _ => apply parsed_number_ok in H; apply parse_uint_bound in H end.
    eapply IH2; [done..| |done]. done.
  - match goal with H : duration_seconds _ = _ |- _ => apply duration_seconds_spec in H as (? & ? & ? & ? & ? & ? & ? & ? & ?) end.
    eapply IH2; [done..|]. done.
Qed.
Lemma generations_wf rest i : generations rest = Ok i -> wf streams i.
Proof.
  unfold generations. intros. repeat parser_step; simpl; eauto; [by eapply generations_activate_wf|by eapply generations_prune_wf].
Qed.

Lemma dispatch_wf verb rest i : dispatch verb rest streams = Ok i -> wf streams i.
Proof.
  unfold dispatch, trim_, gc. intros H.
  repeat (parser_step; try solve [eauto using config_wf, manifest_wf, start_wf, status_wf, shell_wf, exec_wf, stop_wf,
    memory_wf, volume_wf, generations_wf, destroy_wf, doctor_wf|exact I]).
  eapply update_wf; [done|apply NoDup_nil_2|by apply Forall_nil].
Qed.
End wf_generations.

(* ------------------------------------------------------------------ *)
(** ** The global flags *)

Lemma tok_true t literal : tok t literal = true <-> t = bs literal.
Proof. apply bytes_eqb_true. Qed.
Lemma tok_any_true t ls : tok_any t ls = true <-> exists l, l ∈ ls /\ t = bs l.
Proof.
  unfold tok_any. rewrite existsb_exists. setoid_rewrite tok_true. setoid_rewrite <- list_elem_of_In. naive_solver.
Qed.

Definition verb_after (v : option bytes) (t : bytes) : option bytes := match v with Some v => Some v | None => to_str t end.
Definition value_next (v : option bytes) (t : bytes) : bool :=
  match to_str t with Some flag => takes_value (verb_after v t) flag | None => false end.

(** One step of [lift], by the three kinds of token it tells apart. *)
Lemma lift_separator t rest g : tok t "--" = true -> lift (t :: rest) g = keep_tokens (t :: rest) (verb g) g.
Proof. intros H. cbn [lift]. by rewrite H. Qed.
Lemma lift_lifted t g : tok t "--" = false -> lifted t = true ->
  exists g', (forall rest, lift (t :: rest) g = lift rest g') /\ tokens g' = tokens g /\ verb g' = verb g /\
    (verbosity_flag t = true -> exists l, g' = set_level l g).
Proof.
  intros Hs H. apply orb_true_iff in H. cbn [lift]. rewrite Hs.
  assert (Hv : verbosity_flag t = true -> t ∈ [bs "-q"; bs "--quiet"; bs "-v"; bs "--verbose"; bs "-vv"; bs "-vvv"])
    by (intros (l & Hl & ->)%tok_any_true; set_solver).
  destruct H as [H|(l & Hl & ->)%tok_any_true].
  - apply Hv in H. rewrite !elem_of_cons in H.
    destruct_or? H; try (subst t); try (by apply elem_of_nil in H); vm_compute (tok_any _ _); vm_compute (tok _ _);
      cbv iota; eexists; split_and!; try reflexivity; eauto.
  - rewrite !elem_of_cons in Hl. destruct_or? Hl; try subst l; try (by apply elem_of_nil in Hl);
      vm_compute (tok_any _ _); vm_compute (tok _ _); cbv iota; eexists; split_and!; try reflexivity; discriminate.
Qed.
Lemma lift_kept t rest g : tok t "--" = false -> lifted t = false ->
  lift (t :: rest) g =
    match value_next (verb g) t, rest with
    | true, value :: rest' => lift rest' (keep_tokens [t; value] (verb_after (verb g) t) g)
    | _, _ => lift rest (keep_tokens [t] (verb_after (verb g) t) g)
    end.
Proof.
  intros Hs H. unfold lifted, verbosity_flag in H. apply orb_false_iff in H as [H1 H2].
  unfold tok_any in H1, H2. cbn [existsb] in H1, H2. cbn [lift]. rewrite Hs. unfold tok_any. cbn [existsb].
  repeat match goal with H : _ || _ = false |- _ => apply orb_false_iff in H as [? ?] end.
  repeat match goal with H : tok _ _ = false |- _ => rewrite H; clear H end. cbn [orb].
  unfold value_next, verb_after. reflexivity.
Qed.

(** What the lift keeps, and the verb it has seen where the arguments end with nothing pending. *)
Fixpoint kept (v : option bytes) (args : list bytes) : list bytes :=
  match args with
  | [] => []
  | t :: rest =>
      if tok t "--" then t :: rest
      else if lifted t then kept v rest
      else match value_next v t, rest with
           | true, value :: rest' => t :: value :: kept (verb_after v t) rest'
           | _, _ => t :: kept (verb_after v t) rest
           end
  end.
Fixpoint opens (v : option bytes) (args : list bytes) : option (option bytes) :=
  match args with
  | [] => Some v
  | t :: rest =>
      if tok t "--" then None
      else if lifted t then opens v rest
      else match value_next v t, rest with
           | true, value :: rest' => opens (verb_after v t) rest'
           | true, [] => None
           | false, _ => opens (verb_after v t) rest
           end
  end.

Lemma lift_tokens args g : tokens (lift args g) = tokens g ++ kept (verb g) args.
Proof.
  revert g. induction args as [|t rest IH IH2] using tokens_ind; intros g; [simpl; by rewrite app_nil_r|].
  cbn [kept]. destruct (tok t "--") eqn:Hs; [by rewrite lift_separator|].
  destruct (lifted t) eqn:Hl.
  - destruct (lift_lifted t g Hs Hl) as (g' & -> & <- & <- & _). apply IH.
  - rewrite lift_kept by done. destruct (value_next (verb g) t), rest as [|value rest']; try rewrite IH;
      rewrite ?IH2 with (v := value) by done; cbn [keep_tokens tokens verb]; by rewrite <- app_assoc.
Qed.

Lemma lift_app a b g v :
  opens (verb g) a = Some v -> lift (a ++ b) g = lift b (lift a g) /\ verb (lift a g) = v.
Proof.
  revert g. induction a as [|t rest IH IH2] using tokens_ind; intros g H; simpl in H; [by simplify_eq|].
  destruct (tok t "--") eqn:Hs; [done|]. cbn [app]. destruct (lifted t) eqn:Hl.
  - destruct (lift_lifted t g Hs Hl) as (g' & E & _ & Hv & _). rewrite !E. apply IH. by rewrite Hv.
  - rewrite !lift_kept by done. destruct (value_next (verb g) t), rest as [|value rest']; try done; cbn [app];
      [by apply IH2 with (v := value)|destruct b; by apply IH|by apply IH].
Qed.

(** Two states that differ in nothing but the level. *)
Definition but_level (g1 g2 : Globals) : Prop :=
  tokens g1 = tokens g2 /\ help g1 = help g2 /\ version g1 = version g2 /\ verb g1 = verb g2.
Lemma lift_but_level args g1 g2 : but_level g1 g2 -> but_level (lift args g1) (lift args g2).
Proof.
  revert g1 g2. induction args as [|t rest IH IH2] using tokens_ind; intros g1 g2 H; [done|].
  pose proof H as (Ht & Hh & Hv & Hb). destruct (tok t "--") eqn:Hs.
  { rewrite !lift_separator by done. unfold but_level, keep_tokens; cbn. by rewrite Ht, Hh, Hv, Hb. }
  destruct (lifted t) eqn:Hl.
  - cbn [lift]. rewrite Hs, Hb.
    repeat (case_match; [apply IH || (eapply IH2; [reflexivity|]); unfold but_level; cbn; by rewrite ?Ht, ?Hh, ?Hv, ?Hb|]).
    repeat case_match; (apply IH || (eapply IH2; [reflexivity|])); unfold but_level; cbn; by rewrite ?Ht, ?Hh, ?Hv, ?Hb.
  - rewrite !lift_kept, Hb by done.
    destruct (value_next (verb g2) t), rest as [|value rest'];
      (eapply IH2; [reflexivity|]) || apply IH; unfold but_level; cbn; by rewrite ?Ht, ?Hh, ?Hv, ?Hb.
Qed.

(** A verbosity flag means the same wherever it stands among the arguments of the tool: put anywhere before the first
    [--] where no flag waits for its value, it changes the verbosity of the invocation and nothing else. *)
Theorem verbosity_is_placement_free prog a flag b v streams :
  opens None a = Some v -> verbosity_flag flag = true ->
  exists vb,
    parse (prog :: a ++ flag :: b) streams =
      (let? p := parse (prog :: a ++ b) streams in Ok (mk_Parsed (invocation p) vb)).
Proof.
  intros Ho Hf. unfold parse, lift_globals. cbn [drop]. rewrite !drop_0.
  set (g0 := mk_Globals [] 0 false false None).
  destruct (lift_app a b g0 v Ho) as [-> Hv]. destruct (lift_app a (flag :: b) g0 v Ho) as [-> _].
  set (g := lift a g0) in *.
  assert (Hs : tok flag "--" = false).
  { apply tok_any_true in Hf as (l & Hl & ->). rewrite !elem_of_cons in Hl.
    destruct_or? Hl; try subst l; [reflexivity..|by apply elem_of_nil in Hl]. }
  destruct (lift_lifted flag g Hs) as (g' & E & _ & _ & Hg); [unfold lifted; by rewrite Hf|].
  rewrite E. destruct (Hg Hf) as [l ->].
  destruct (lift_but_level b (set_level l g) g) as (-> & -> & -> & ->); [done|].
  exists (verbosity_of (level (lift b (set_level l g)))).
  destruct (help _); [done|]. destruct (version _); [done|]. destruct (tokens _) as [|verb rest]; [done|].
  by destruct (dispatch verb rest streams).
Qed.

Lemma verbosity_is_placement_free_witness :
  exists vb,
    parse (bs "viv" :: [bs "exec"; bs "--env"; bs "A=1"] ++ bs "-vv" :: [bs "--"; bs "-q"]) (mk_Streams false false false) =
      Ok (mk_Parsed (Exec (mk_Session [bs "-q"] false [(bs "A", Some (bs "1"))])) vb).
Proof.
  destruct (verbosity_is_placement_free (bs "viv") [bs "exec"; bs "--env"; bs "A=1"] (bs "-vv") [bs "--"; bs "-q"]
              (Some (bs "exec")) (mk_Streams false false false)) as [l ->]; [reflexivity|reflexivity|].
  exists l. reflexivity.
Defined.

(* ------------------------------------------------------------------ *)
(** ** The whole line *)

Definition verb_plain (v : option bytes) : Prop :=
  on_some (fun t => utf8_valid t = true /\ lifted t = false /\ tok t "--" = false) v.

Lemma lift_verb_plain args g : verb_plain (verb g) -> verb_plain (verb (lift args g)).
Proof.
  revert g. induction args as [|t rest IH IH2] using tokens_ind; intros g H; [done|].
  destruct (tok t "--") eqn:Hs; [by rewrite lift_separator|]. destruct (lifted t) eqn:Hl.
  - destruct (lift_lifted t g Hs Hl) as (g' & -> & _ & Hv & _). apply IH. by rewrite Hv.
  - rewrite lift_kept by done.
    assert (verb_plain (verb_after (verb g) t)).
    { unfold verb_after, to_str. destruct (verb g); [done|]. by destruct (utf8_valid t) eqn:?. }
    destruct (value_next (verb g) t), rest as [|value rest'];
      (eapply IH2; [reflexivity|done]) || by apply IH.
Qed.

(** Every command line that is accepted yields a well-formed invocation: no flags that contradict each other, every
    number in its type and its domain, consent where it is needed, a guest command that is there. *)
Theorem parse_wf args streams p : parse args streams = Ok p -> wf streams (invocation p).
Proof.
  unfold parse. intros H. destruct (help _).
  { inv_ok. simpl. by apply (lift_verb_plain (drop 1 args)). }
  destruct (version _); [by inv_ok|]. destruct (tokens _); [done|]. inv_ok. by eapply dispatch_wf.
Qed.

Lemma parse_wf_witness :
  wf (mk_Streams false false false) (Stop false true (Some 0) Json).
Proof.
  apply (parse_wf [bs "viv"; bs "stop"; bs "--force"; bs "-t"; bs "0"; bs "--json"] (mk_Streams false false false)
           (mk_Parsed (Stop false true (Some 0) Json) Normal)). vm_compute. reflexivity.
Defined.

(** The separator [exec] finds among the kept tokens is the one in the line. *)
Lemma exec_loop_kept args a b e x argv :
  exec_loop (kept (Some (bs "exec")) args) a b e = Ok x -> x_argv x = Some argv ->
  exists pre, args = pre ++ bs "--" :: argv.
Proof.
  revert a b e. induction args as [|t rest IH IH2] using tokens_ind; intros a b e H Hx.
  { cbn in H. inv_ok. discriminate Hx. }
  cbn [kept] in H. destruct (tok t "--") eqn:Hs.
  { cbn [exec_loop] in H. rewrite Hs in H. inv_ok. cbn in Hx. injection Hx as ->. apply tok_true in Hs as ->. by exists []. }
  assert (Hmore : forall a b e rest', exec_loop (kept (Some (bs "exec")) rest') a b e = Ok x ->
            (rest' = rest \/ exists v, rest = v :: rest') ->
            exists pre, t :: rest = pre ++ bs "--" :: argv).
  { intros a' b' e' rest' Hr [->|[v ->]].
    - destruct (IH _ _ _ Hr Hx) as [pre ->]. by exists (t :: pre).
    - destruct (IH2 v rest' eq_refl _ _ _ Hr Hx) as [pre ->]. by exists (t :: v :: pre). }
  destruct (lifted t) eqn:Hl; [eapply Hmore; [done|by left]|].
  unfold value_next in H. cbn [verb_after] in H.
  destruct (tok t "--env") eqn:He.
  - apply tok_true in He as ->. change (to_str (bs "--env")) with (Some (bs "--env")) in H.
    cbv iota beta in H. change (takes_value (Some (bs "exec")) (bs "--env")) with true in H. destruct rest as [|value rest']; [discriminate H|].
    cbn [exec_loop] in H. change (tok (bs "--env") "--") with false in H.
    change (tok_any (bs "--env") ["-t"; "--tty"]%string) with false in H.
    change (tok_any (bs "--env") ["-T"; "--no-tty"]%string) with false in H. change (tok (bs "--env") "--env") with true in H.
    cbv iota in H. inv_ok. eapply Hmore; [done|by right; exists value].
  - assert (Hv : match to_str t with Some flag => takes_value (Some (bs "exec")) flag | None => false end = false).
    { unfold to_str. destruct (utf8_valid t); [|done]. exact He. }
    rewrite Hv in H. cbn [exec_loop] in H. rewrite Hs, He in H.
    assert (exists a' b', exec_loop (kept (Some (bs "exec")) rest) a' b' e = Ok x) as (a' & b' & Hr).
    { destruct rest; repeat parser_step; eauto. }
    eapply Hmore; [done|by left].
Qed.

Lemma kept_verb args v rest :
  kept None args = v :: rest -> utf8_valid v = true -> tok v "--" = false ->
  (forall f, takes_value (Some v) f = true -> f <> v) ->
  exists pre args', args = pre ++ v :: args' /\ rest = kept (Some v) args'.
Proof.
  intros H Hu Hs Hv. induction args as [|t args IH]; [done|]. cbn [kept] in H.
  destruct (tok t "--") eqn:Ht; [injection H as -> _; congruence|].
  destruct (lifted t); [destruct (IH H) as (pre & args' & -> & ->); by exists (t :: pre), args'|].
  assert (t = v) as -> by (repeat case_match; congruence).
  unfold value_next, verb_after, to_str in H. rewrite Hu in H. destruct (takes_value (Some v) v) eqn:E; [by apply Hv in E|].
  exists [], args. by injection H as <-.
Qed.

(** Which verb an invocation belongs to. *)
Definition verb_of (i : Invocation) : string :=
  match i with
  | Config _ _ | ConfigEval _ | ConfigSources _ => "config" | ManifestList _ | ManifestShow _ _ => "manifest"
  | Start _ _ _ _ _ | StartSpec _ => "start" | Status _ _ => "status" | Stop _ _ _ _ => "stop" | Exec _ => "exec"
  | Shell _ => "shell" | Update _ _ => "update" | VolumeList _ | VolumePrune _ _ _ | VolumeTrim _ _ => "volume"
  | MemoryTrim _ _ => "memory" | Grammar.Trim _ => "trim" | Destroy _ _ _ => "destroy"
  | GenerationsList _ | GenerationsPrune _ _ _ | GenerationsActivate _ _ | GenerationsRollback _ => "generations"
  | Gc _ => "gc" | Doctor _ _ _ _ => "doctor" | Help _ => "--help" | Version => "--version"
  end.
Ltac parser_verb rest :=
  induction rest as [|t rest IH IH2] using tokens_ind; intros; simpl in *; repeat parser_step; eauto.

Section verbs.
Context (i : Invocation).
Lemma config_flags_verb rest : forall m o, config_flags rest m o = Ok i -> verb_of i = "config"%string.
Proof. parser_verb rest. Qed.
Lemma manifest_show_verb rest : forall n o, manifest_show rest n o = Ok i -> verb_of i = "manifest"%string.
Proof. parser_verb rest. Qed.
Lemma status_verb rest : forall g o, status rest g o = Ok i -> verb_of i = "status"%string.
Proof. parser_verb rest. Qed.
Lemma memory_trim_verb rest : forall n o, memory_trim rest n o = Ok i -> verb_of i = "memory"%string.
Proof. parser_verb rest. Qed.
Lemma volume_trim_verb rest : forall n o, volume_trim rest n o = Ok i -> verb_of i = "volume"%string.
Proof. parser_verb rest. Qed.
Lemma volume_prune_verb rest st : forall d y o, volume_prune rest st d y o = Ok i -> verb_of i = "volume"%string.
Proof. parser_verb rest. Qed.
Lemma destroy_verb rest st : forall y k o, destroy rest st y k o = Ok i -> verb_of i = "destroy"%string.
Proof. parser_verb rest. Qed.
Lemma update_verb rest : forall l o, update rest l o = Ok i -> verb_of i = "update"%string.
Proof. parser_verb rest. Qed.
Lemma doctor_verb rest : forall a b c o, doctor rest a b c o = Ok i -> verb_of i = "doctor"%string.
Proof. parser_verb rest. Qed.
Lemma generations_activate_verb rest : forall n o, generations_activate rest n o = Ok i -> verb_of i = "generations"%string.
Proof. parser_verb rest. Qed.
Lemma generations_prune_verb rest : forall k a o, generations_prune rest k a o = Ok i -> verb_of i = "generations"%string.
Proof. parser_verb rest. Qed.
Lemma start_checked_verb f : start_checked f = Ok i -> verb_of i = "start"%string.
Proof. destruct f. unfold start_checked. intros. by inv_ok. Qed.
End verbs.

Lemma dispatch_verb verb rest st i : dispatch verb rest st = Ok i -> verb = bs (verb_of i).
Proof.
  unfold dispatch. intros H. apply tok_true.
  repeat match goal with H : (if tok verb ?l then _ else _) = Ok _ |- _ =>
    destruct (tok verb l) eqn:?; [enough (verb_of i = l) as -> by done|] end; [..|discriminate H].
  all: unfold config, manifest, start, shell, exec, stop, trim_, memory, volume, generations, gc in H.
  all: repeat (parser_step; try solve [eauto using config_flags_verb, manifest_show_verb, status_verb, memory_trim_verb,
    volume_trim_verb, volume_prune_verb, destroy_verb, update_verb, doctor_verb, generations_activate_verb,
    generations_prune_verb, start_checked_verb]).
  all: eauto using status_verb, destroy_verb, update_verb, doctor_verb.
Qed.

(** What the guest runs is the rest of the line behind a [--], byte for byte: flags, empty and ill-encoded arguments
    and further separators included. *)
Theorem exec_argv_is_verbatim prog args streams p s :
  parse (prog :: args) streams = Ok p -> invocation p = Exec s ->
  exists pre, args = pre ++ bs "--" :: argv s.
Proof.
  unfold parse. cbn [drop]. rewrite drop_0. intros H Hi. destruct (help _); [inv_ok; discriminate Hi|].
  destruct (version _); [inv_ok; discriminate Hi|]. unfold lift_globals in H. rewrite lift_tokens in H.
  cbn [tokens verb app] in H. destruct (kept None args) as [|v rest] eqn:E; [discriminate H|].
  inv_ok. cbn in Hi. subst x.
  match goal with H : dispatch _ _ _ = _ |- _ => rename H into He end.
  pose proof (dispatch_verb _ _ _ _ He) as ->. change (exec rest streams = Ok (Exec s)) in He.
  destruct (kept_verb args (bs "exec") rest E eq_refl eq_refl) as (pre & args' & -> & ->).
  { intros f Hf ->. discriminate Hf. }
  unfold exec in He. inv_ok. destruct (exec_loop_kept args' _ _ _ _ _ ltac:(eassumption) ltac:(eassumption)) as [pre' ->].
  exists (pre ++ bs "exec" :: pre'). by rewrite <- app_assoc.
Qed.

Lemma exec_argv_is_verbatim_witness :
  exists pre, [bs "-v"; bs "exec"; bs "--env"; bs "--"; bs "-T"; bs "--"; bs "ls"; bs "--help"; bs "--"; [xff]] =
    pre ++ bs "--" :: [bs "ls"; bs "--help"; bs "--"; [xff]].
Proof.
  apply (exec_argv_is_verbatim (bs "viv") _ (mk_Streams false false false)
    (mk_Parsed (Exec (mk_Session [bs "ls"; bs "--help"; bs "--"; [xff]] false [(bs "--", None)])) Verbose)
    (mk_Session [bs "ls"; bs "--help"; bs "--"; [xff]] false [(bs "--", None)])); vm_compute; reflexivity.
Defined.

(* ------------------------------------------------------------------ *)
(** ** A canonical spelling *)

Definition flag (b : bool) (s : string) : list bytes := if b then [bs s] else [].
Definition with_value (s : string) (v : option bytes) : list bytes := match v with Some v => [bs s; v] | None => [] end.
Definition json (o : Output) : list bytes := flag (is_json o) "--json".
Definition print_variable (a : bytes * option bytes) : list bytes :=
  [bs "--env"; match snd a with Some v => fst a ++ "="%byte :: v | None => fst a end].
Definition unparse (i : Invocation) : list bytes :=
  match i with
  | Config m o => bs "config" :: with_value "--manifest" m ++ json o
  | ConfigEval o => bs "config" :: bs "eval" :: json o
  | ConfigSources o => bs "config" :: bs "sources" :: json o
  | ManifestList o => bs "manifest" :: bs "list" :: json o
  | ManifestShow n o => bs "manifest" :: bs "show" :: n :: json o
  | Start r n g a o =>
      bs "start" :: flag r "--rebuild" ++ flag n "--no-rebuild" ++ with_value "--generation" (option_map dec g) ++
      flag a "--attach" ++ json o
  | StartSpec p => [bs "start"; bs "--spec"; p]
  | Status g o => bs "status" :: flag g "--global" ++ json o
  | Stop a f t o => bs "stop" :: flag a "--all" ++ flag f "--force" ++ with_value "--timeout" (option_map dec_int t) ++ json o
  | Exec s => bs "exec" :: flag (pty s) "-t" ++ concat (map print_variable (env s)) ++ bs "--" :: argv s
  | Shell _ => [bs "shell"]
  | Update l o => bs "update" :: l ++ json o
  | VolumeList o => bs "volume" :: bs "list" :: json o
  | VolumePrune d y o => bs "volume" :: bs "prune" :: flag d "--dry-run" ++ flag y "--yes" ++ json o
  | VolumeTrim n o => bs "volume" :: bs "trim" :: (match n with Some n => [n] | None => [] end) ++ json o
  | MemoryTrim n o => bs "memory" :: bs "trim" :: with_value "--to" (option_map dec n) ++ json o
  | Grammar.Trim o => bs "trim" :: json o
  | Destroy k y o => bs "destroy" :: flag k "--keep-volumes" ++ flag y "--yes" ++ json o
  | GenerationsList o => bs "generations" :: bs "list" :: json o
  | GenerationsPrune k a o =>
      bs "generations" :: bs "prune" :: with_value "--keep" (option_map dec k) ++
      with_value "--older-than" (option_map (fun n => dec n ++ bs "s") a) ++ json o
  | GenerationsActivate n o => bs "generations" :: bs "activate" :: dec n :: json o
  | GenerationsRollback o => bs "generations" :: bs "rollback" :: json o
  | Gc o => bs "gc" :: json o
  | Doctor s l n o => bs "doctor" :: flag s "--strict" ++ flag l "--list" ++ flag n "--online" ++ json o
  | Help v => match v with Some v => [v] | None => [] end ++ [bs "--help"]
  | Version => [bs "--version"]
  end.

(** Evaluate the comparisons with closed tokens, wherever they stand. *)
Ltac eval_tokens :=
  repeat match goal with
  | |- context [tok (bs ?a) ?b] => let r := eval vm_compute in (tok (bs a) b) in change (tok (bs a) b) with r
  | |- context [tok_any (bs ?a) ?b] => let r := eval vm_compute in (tok_any (bs a) b) in change (tok_any (bs a) b) with r
  | |- context [lifted (bs ?a)] => let r := eval vm_compute in (lifted (bs a)) in change (lifted (bs a)) with r
  | |- context [positional (bs ?a)] => let r := eval vm_compute in (positional (bs a)) in change (positional (bs a)) with r
  | |- context [to_str (bs ?a)] => change (to_str (bs a)) with (Some (bs a))
  | |- context [takes_value (Some (bs ?a)) (bs ?b)] =>
      let r := eval vm_compute in (takes_value (Some (bs a)) (bs b)) in change (takes_value (Some (bs a)) (bs b)) with r
  end.

Lemma positional_tok t l : positional t = true -> starts_with (bs "-") (bs l) = true -> tok t l = false.
Proof.
  intros Ht Hl. destruct (tok t l) eqn:E; [|done]. apply tok_true in E as ->. unfold positional in Ht. rewrite Hl in Ht.
  by rewrite andb_false_r in Ht.
Qed.
Lemma positional_tok_any t ls :
  positional t = true -> forallb (fun l => starts_with (bs "-") (bs l)) ls = true -> tok_any t ls = false.
Proof.
  intros Ht. induction ls as [|l ls IH]; [done|]. cbn [forallb]. intros [H1 H2]%andb_true_iff.
  unfold tok_any in *. cbn [existsb]. by rewrite positional_tok, IH.
Qed.
Lemma positional_lifted t : positional t = true -> lifted t = false.
Proof. intros. unfold lifted, verbosity_flag. by rewrite !positional_tok_any. Qed.
Lemma positional_value v t : positional t = true -> value_next v t = false.
Proof.
  intros Ht. unfold value_next. destruct (to_str t) as [f|] eqn:E; [|done]. unfold to_str in E.
  destruct (utf8_valid t); [|done]. injection E as <-. unfold takes_value. destruct (verb_after v t); [|done].
  repeat case_match; first [by apply positional_tok|by apply positional_tok_any|done].
Qed.
Lemma positional_to_str t : positional t = true -> to_str t = Some t.
Proof. unfold positional, to_str. by intros [-> _]%andb_true_iff. Qed.

Lemma digits_positional s : forallb is_ascii_digit s = true -> s <> [] -> positional s = true.
Proof.
  intros Hs Hn. unfold positional. apply andb_true_iff. split.
  - apply utf8_valid_ascii, forallb_forall. intros b Hb. apply forallb_forall with (x := b) in Hs; [|done].
    unfold is_ascii_digit in Hs. lia.
  - apply negb_true_iff. destruct (starts_with (bs "-") s) eqn:E; [|done]. apply starts_with_true in E as [r ->].
    discriminate Hs.
Qed.
Lemma dec_positional n : u64 n -> positional (dec n) = true.
Proof. unfold u64, u64_max. intros. destruct (dec_spec n ltac:(lia)) as (? & _ & ?). by apply digits_positional. Qed.
Lemma dec_to_str n : u64 n -> to_str (dec n) = Some (dec n).
Proof. intros. by apply positional_to_str, dec_positional. Qed.
Lemma dec_int_to_str z : - 10 ^ 20 < z < 10 ^ 20 -> to_str (dec_int z) = Some (dec_int z).
Proof.
  intros. unfold dec_int, to_str. rewrite utf8_valid_ascii; [done|].
  assert (H10 : forall n, 0 <= n < 10 ^ 20 -> forallb (fun b => bz b <? 128) (dec n) = true).
  { intros n Hn. destruct (dec_spec n Hn) as (Hd & _ & _). apply forallb_forall. intros b Hb.
    apply forallb_forall with (x := b) in Hd; [|done]. unfold is_ascii_digit in Hd. lia. }
  destruct (Z.ltb_spec z 0); [|by apply H10; lia]. cbn [forallb]. by rewrite H10 by lia.
Qed.
Lemma seconds_to_str n : u64 n -> to_str (dec n ++ bs "s") = Some (dec n ++ bs "s").
Proof.
  intros Hn. unfold u64, u64_max in Hn. destruct (dec_spec n ltac:(lia)) as (Hd & _ & Hne). apply positional_to_str.
  unfold positional. apply andb_true_iff. split.
  - apply utf8_valid_ascii. rewrite forallb_app. apply andb_true_iff. split; [|done]. apply forallb_forall. intros b Hb.
    apply forallb_forall with (x := b) in Hd; [|done]. unfold is_ascii_digit in Hd. lia.
  - apply negb_true_iff. destruct (starts_with (bs "-") _) eqn:E; [|done]. apply starts_with_true in E as [r E].
    destruct (dec n) as [|b s]; [done|]. injection E as -> _. discriminate Hd.
Qed.
Lemma duration_seconds_print n : u64 n -> duration_seconds (dec n ++ bs "s") = Ok n.
Proof.
  intros Hn. apply duration_seconds_spec. pose proof Hn as Hn'. unfold u64, u64_max in Hn'.
  destruct (dec_spec n ltac:(lia)) as (Hd & Hv & Hne).
  exists (dec n), "s"%byte, 1. split_and!; try done; [by rewrite Hv, Z.mul_1_r|apply Hn..].
Qed.

(** Nothing in the line is lifted out of it. *)
Fixpoint clean (v : option bytes) (args : list bytes) : bool :=
  match args with
  | [] => true
  | t :: rest =>
      if tok t "--" then true
      else negb (lifted t) &&
        match value_next v t, rest with
        | true, _ :: rest' => clean (verb_after v t) rest'
        | _, _ => clean (verb_after v t) rest
        end
  end.
Lemma clean_lift args g :
  clean (verb g) args = true ->
  tokens (lift args g) = tokens g ++ args /\ level (lift args g) = level g /\
  help (lift args g) = help g /\ version (lift args g) = version g.
Proof.
  revert g. induction args as [|t rest IH IH2] using tokens_ind; intros g H; [by rewrite app_nil_r|].
  cbn [clean] in H. destruct (tok t "--") eqn:Hs; [by rewrite lift_separator|].
  apply andb_true_iff in H as [Hl%negb_true_iff H]. rewrite lift_kept by done.
  set (g1 := keep_tokens [t] (verb_after (verb g) t) g).
  assert (Hg : clean (verb g1) rest = true ->
    tokens (lift rest g1) = tokens g ++ t :: rest /\ level (lift rest g1) = level g /\
    help (lift rest g1) = help g /\ version (lift rest g1) = version g).
  { intros Hc. destruct (IH g1 Hc) as (-> & -> & -> & ->). cbn. by rewrite <- app_assoc. }
  destruct (value_next (verb g) t), rest as [|value rest']; [by apply Hg| |by apply Hg..].
  destruct (IH2 value rest' eq_refl (keep_tokens [t; value] (verb_after (verb g) t) g) H) as (-> & -> & -> & ->).
  cbn. by rewrite <- app_assoc.
Qed.
Lemma parse_clean prog v rest streams :
  clean None (v :: rest) = true ->
  parse (prog :: v :: rest) streams = (let? i := dispatch v rest streams in Ok (mk_Parsed i Normal)).
Proof.
  intros H. unfold parse, lift_globals. cbn [drop].
  destruct (clean_lift (v :: rest) (mk_Globals [] 0 false false None) H) as (E1 & E2 & E3 & E4).
  change (drop 0 (v :: rest)) with (v :: rest). by rewrite E1, E2, E3, E4.
Qed.

Ltac eval_more :=
  repeat match goal with
  | |- context [value_next (Some (bs ?a)) (bs ?b)] =>
      let r := eval vm_compute in (value_next (Some (bs a)) (bs b)) in change (value_next (Some (bs a)) (bs b)) with r
  | |- context [value_next None (bs ?b)] => change (value_next None (bs b)) with false
  | |- context [verb_after None (bs ?b)] => change (verb_after None (bs b)) with (Some (bs b))
  | |- context [verb_after (Some ?b) _] => change (verb_after (Some b) _) with (Some b)
  end.
Ltac eval_line :=
  repeat (progress (cbn [unparse flag with_value app json is_json option_map clean negb andb orb guard_err rbind ok_or
    concat map print_variable fst snd fmap]; eval_tokens; eval_more; cbv iota)).

Lemma clean_variables l argv : clean (Some (bs "exec")) (concat (map print_variable l) ++ bs "--" :: argv) = true.
Proof. induction l as [|a l IH]; eval_line; [done|]. exact IH. Qed.
Lemma clean_inputs l o : Forall (fun t => positional t = true) l -> clean (Some (bs "update")) (l ++ json o) = true.
Proof.
  induction 1 as [|t l Ht Hl IH]; [by destruct o|]. cbn [app clean].
  rewrite positional_tok, positional_lifted, positional_value by done. cbn [negb andb]. exact IH.
Qed.

Lemma unparse_clean i streams :
  wf streams i -> (forall v, i <> Help v) -> i <> Version -> clean None (unparse i) = true.
Proof.
  intros Hw Hh Hv.
  destruct i; cbn [unparse]; try (by destruct output); try done; cbn [wf] in Hw.
  - destruct manifest, output; eval_line; done.
  - destruct output; eval_line; rewrite positional_tok, positional_lifted, positional_value by done; eval_line; done.
  - destruct rebuild, no_rebuild, generation, attach, output; eval_line; done.
  - destruct global, output; eval_line; done.
  - destruct all, force, timeout, output; eval_line; done.
  - destruct s as [a [] e]; eval_line; apply clean_variables.
  - destruct Hw as [_ Hw]. eval_line. by apply clean_inputs.
  - destruct dry_run, yes, output; eval_line; done.
  - destruct name, output; eval_line; simpl in Hw; rewrite ?positional_tok, ?positional_lifted, ?positional_value by done; eval_line; done.
  - destruct to, output; eval_line; done.
  - destruct keep_volumes, yes, output; eval_line; done.
  - destruct keep, older_than_seconds, output; eval_line; done.
  - apply dec_positional in Hw. destruct output; eval_line;
      rewrite ?positional_tok, ?positional_lifted, ?positional_value by done; eval_line; done.
  - destruct strict, list_, online, output; eval_line; done.
  - by destruct (Hh verb).
Qed.

Lemma flags_only_json o u : flags_only (json o) u Human = Ok o.
Proof. by destruct o; eval_line. Qed.
Lemma exec_loop_variables l a argv e b :
  Forall wf_variable l ->
  exec_loop (concat (map print_variable l) ++ bs "--" :: argv) a b e = Ok (mk_exec_scan a b (e ++ l) (Some argv)).
Proof.
  intros Hl. revert e. induction Hl as [|x l Hx Hl IH]; intros e.
  - cbn [map concat app exec_loop]. eval_line. by rewrite app_nil_r.
  - eval_line. cbn [exec_loop]. eval_line.
    rewrite (proj2 (env_assignment_ok (match snd x with Some v => fst x ++ "="%byte :: v | None => fst x end) x)) by done.
    cbn [rbind]. fold (map print_variable l). rewrite IH. by rewrite <- app_assoc.
Qed.
Lemma update_inputs l o acc :
  Forall (fun t => positional t = true) l -> NoDup (acc ++ l) -> update (l ++ json o) acc Human = Ok (Update (acc ++ l) o).
Proof.
  intros Hl. revert acc. induction Hl as [|t l Ht Hl IH]; intros acc Hn.
  - destruct o; eval_line; cbn [update]; eval_line; by rewrite app_nil_r.
  - cbn [app update]. rewrite positional_tok, Ht by done. rewrite bool_decide_false.
    + rewrite IH; by rewrite <- app_assoc.
    + apply NoDup_app in Hn as (_ & Hn & _). intros Hin. apply (Hn t Hin). by left.
Qed.

Ltac numbers :=
  unfold value_of, parsed_number;
  repeat first [rewrite dec_to_str by done | rewrite parse_uint_dec by (unfold on_some, u64, u64_max in *; lia)
               | rewrite seconds_to_str by done | rewrite duration_seconds_print by done];
  cbn [ok_or rbind guard_err].

Lemma dispatch_unparse i streams v rest :
  wf streams i -> unparse i = v :: rest -> (forall v, i <> Help v) -> i <> Version -> dispatch v rest streams = Ok i.
Proof.
  intros Hw Hu Hh Hv.
  destruct i; cbn [unparse] in Hu; try done; try (injection Hu as <- <-); cbn [wf] in Hw; unfold dispatch; eval_line.
  - unfold config. destruct manifest as [m|], output; eval_line; cbn [config_flags]; eval_line; try done;
      cbn in Hw; unfold value_of, to_str; rewrite Hw; done.
  - unfold config. eval_line. by rewrite flags_only_json.
  - unfold config. eval_line. by rewrite flags_only_json.
  - unfold manifest. eval_line. by rewrite flags_only_json.
  - unfold manifest. eval_line. cbn [manifest_show]. rewrite positional_tok, Hw by done.
    destruct output; eval_line; cbn [manifest_show]; eval_line; done.
  - destruct Hw as (H1 & H2 & H3 & H4).
    destruct rebuild, no_rebuild; try discriminate H1;
      destruct generation as [g|]; try (discriminate (H2 ltac:(done)));
      destruct attach; try rewrite H4 by done; try destruct output; unfold start;
      repeat (progress (eval_line; cbn [start_loop f_generation]; numbers)); reflexivity.
  - unfold status. destruct global, output; repeat (progress (eval_line; cbn [Grammar.status])); done.
  - destruct Hw as [H1 H2]. unfold stop.
    destruct force; [destruct (H2 eq_refl) as [-> | ->]|destruct timeout as [s|]];
      destruct all, output; repeat (progress (eval_line; cbn [stop_loop]; numbers));
      rewrite ?dec_int_to_str by (cbn in H1; unfold i64_max in *; lia); cbn [ok_or rbind];
      rewrite ?parse_int_dec by (cbn in H1; unfold i64_min, i64_max in *; lia); cbn [ok_or rbind guard_err];
      repeat rewrite (proj2 (Z.ltb_ge _ _)) by (cbn in H1; lia);
      repeat (progress (eval_line; cbn [stop_loop t_force t_timeout t_all t_output])); reflexivity.
  - destruct s as [a p e]; cbn in Hw. destruct Hw as (H1 & H2 & H3). unfold exec.
    destruct p; cbn [pty env argv]; eval_line; cbn [exec_loop]; eval_line; rewrite exec_loop_variables by done; cbn [rbind x_tty x_no_tty x_env x_argv andb guard_err];
      try rewrite H2 by done; cbn [negb guard_err rbind ok_or]; rewrite bool_decide_false by done; reflexivity.
  - by subst.
  - unfold start. eval_line. rewrite Hw. done.
  - destruct Hw as [H1 H2]. by apply update_inputs.
  - unfold volume. eval_line. by rewrite flags_only_json.
  - unfold volume. eval_line.
    destruct dry_run, yes, output; repeat (progress (eval_line; cbn [volume_prune])); try done; cbn in Hw; by rewrite Hw.
  - unfold volume. eval_line. destruct name as [n|]; cbn in Hw; cbn [app volume_trim].
    + rewrite positional_tok, Hw by done. destruct output; repeat (progress (eval_line; cbn [volume_trim])); done.
    + destruct output; repeat (progress (eval_line; cbn [volume_trim])); done.
  - unfold memory. eval_line. destruct to as [n|]; cbn in Hw; destruct output;
      repeat (progress (eval_line; cbn [memory_trim]));
      unfold value_of, parsed_number; rewrite ?dec_to_str by (unfold u64; lia); cbn [ok_or rbind];
      rewrite ?parse_uint_dec by (unfold u64_max in *; lia); cbn [ok_or rbind];
      try (rewrite (proj2 (Z.eqb_neq n 0)) by lia); repeat (progress (eval_line; cbn [memory_trim])); done.
  - unfold trim_. by rewrite flags_only_json.
  - destruct keep_volumes, yes, output; repeat (progress (eval_line; cbn [destroy])); try done; cbn in Hw; by rewrite Hw.
  - unfold generations. eval_line. by rewrite flags_only_json.
  - destruct Hw as (H1 & H2 & H3). unfold generations. eval_line.
    destruct keep as [k|], older_than_seconds as [a|]; try done; destruct output;
      repeat (progress (eval_line; cbn [generations_prune on_some] in *; numbers)); done.
  - unfold generations. eval_line. cbn [generations_activate]. rewrite positional_tok, dec_positional by (done || by apply dec_positional).
    numbers. destruct output; repeat (progress (eval_line; cbn [generations_activate])); done.
  - unfold generations. eval_line. by rewrite flags_only_json.
  - unfold gc. by rewrite flags_only_json.
  - destruct strict, list_, online, output; repeat (progress (eval_line; cbn [doctor])); done.
  - by destruct (Hh verb).
Qed.

(** C8: Every well-formed invocation can be asked for, and its canonical spelling is read as exactly that invocation. *)
Theorem parse_unparse prog i streams :
  wf streams i -> parse (prog :: unparse i) streams = Ok (mk_Parsed i Normal).
Proof.
  intros Hw.
  assert (Hdec : (exists v, i = Help v) \/ i = Version \/ ((forall v, i <> Help v) /\ i <> Version))
    by (destruct i; eauto; right; right; split; by intros).
  destruct Hdec as [[[v|] ->]|[->|[Hh Hv]]].
  - destruct Hw as (Hu & Hl & Hs). unfold parse, lift_globals. cbn [unparse app drop]. rewrite ?drop_0.
    rewrite lift_kept by done. assert (Hn : value_next (verb (mk_Globals [] 0 false false None)) v = false).
    { cbn [verb]. unfold value_next, verb_after, to_str. rewrite Hu. unfold takes_value.
      repeat case_match; simplify_eq; try done;
        repeat match goal with
        | H : tok _ _ = true |- _ => apply tok_true in H; subst
        | |- _ => done
        end; vm_compute; reflexivity. }
    rewrite Hn. cbn [keep_tokens tokens level help version verb app]. unfold verb_after, to_str. rewrite Hu. reflexivity.
  - reflexivity.
  - reflexivity.
  - destruct (unparse i) as [|v rest] eqn:E.
    + exfalso. destruct i; cbn [unparse] in E; try discriminate E; by eapply Hh.
    + rewrite parse_clean; [by erewrite dispatch_unparse|]. rewrite <- E. by eapply unparse_clean.
Qed.

Lemma parse_unparse_witness :
  parse (bs "viv" :: unparse (Stop true false (Some (-1)) Json)) (mk_Streams false false false) =
    Ok (mk_Parsed (Stop true false (Some (-1)) Json) Normal).
Proof. apply parse_unparse. vm_compute. split; [split; discriminate|discriminate]. Defined.
