(* ===== verification/Lifecycle.v ===== *)
(** * What a project's VM is doing ([src/src/cli/lifecycle.rs], the readers; [src/src/cli/fleet.rs])

    The lifecycle states and the discriminator that reads them off the runtime records and the service manager, the
    presence judgment in front of every destructive step, the boot record, admission, the resource ceilings and the
    fleet.  What [systemctl] and the kernel answer is an argument. *)
From S2P Require Import Prelude Bytes Paths Spec Diagnostic.

(** A failure as far as a caller can branch on it: the id it publishes and its exit category. *)
Record Failure := mk_Failure { failure_id : DiagnosticId; failure_code : ExitKind }.
Definition diagnosed (n : Namespace) (condition : string) (c : ExitKind) : Failure :=
  mk_Failure (mk_DiagnosticId n (bs condition)) c.

(** ** States *)

Inductive State := Absent | Built | Starting | Running | Stopping | StFailed.
#[global] Instance State_eq_dec : EqDecision State.
Proof. solve_decision. Defined.
Definition state_str (s : State) : bytes :=
  match s with
  | Absent => bs "absent" | Built => bs "built" | Starting => bs "starting" | Running => bs "running"
  | Stopping => bs "stopping" | StFailed => bs "failed"
  end.
Inductive StopRung := RungAgent | PowerSignal | HardPoweroff.
#[global] Instance StopRung_eq_dec : EqDecision StopRung.
Proof. solve_decision. Defined.
Definition rung_str (r : StopRung) : bytes :=
  match r with RungAgent => bs "agent" | PowerSignal => bs "power-signal" | HardPoweroff => bs "hard-poweroff" end.
Inductive Presence := Live | Dead | Indeterminate.
#[global] Instance Presence_eq_dec : EqDecision Presence.
Proof. solve_decision. Defined.

(** ** What the host is asked *)

(** [fs::read]: not there, not readable, or its bytes. *)
Inductive file := Missing | Unreadable | Content (b : bytes).
Definition exists_ (f : file) : bool := match f with Missing => false | _ => true end.
(** [fs::read_to_string(..).ok()]. *)
Definition read_text (f : file) : option bytes := match f with Content b => to_str b | _ => None end.
(** [systemctl --user show]: it could not be run, or its success and its standard output. *)
Inductive show := NotRun | Ran (success : bool) (stdout : bytes).
(** [test_kill_process]. *)
Inductive kill_answer := K_Ok | K_Perm | K_Srch | K_Other.

Definition i32_min : Z := -2147483648.
Definition i32_max : Z := 2147483647.
Definition recorded_pid_liveness (vm_pid : file) (test_kill : Z -> kill_answer) : option bool :=
  let* raw := read_text vm_pid in
  let* pid := parse_int i32_min i32_max (trim raw) in
  if 0 <? pid then
    match test_kill pid with
    | K_Ok | K_Perm => Some true
    | K_Srch => Some false
    | K_Other => None
    end
  else None.
Definition vm_is_alive (vm_pid : file) (test_kill : Z -> kill_answer) : bool :=
  bool_decide (recorded_pid_liveness vm_pid test_kill = Some true).

Definition one_of_states (s : bytes) (l : list string) : bool := existsb (fun x => bytes_eqb s (bs x)) l.
Definition ownership_of (state : bytes) : option bool :=
  if one_of_states state ["active"; "reloading"; "refreshing"; "activating"; "deactivating"]%string then Some true
  else if one_of_states state ["inactive"; "failed"]%string then Some false else None.
Definition unit_owns_a_vm (a : show) : option bool :=
  match a with
  | NotRun => None
  | Ran success stdout => if success then ownership_of (trim stdout) else None
  end.
Definition unit_active_state (a : show) : option bytes :=
  match a with
  | NotRun => None
  | Ran _ stdout => let value := trim stdout in if bool_decide (value = []) then None else Some value
  end.

Definition presence_of (pid_alive unit_owns : option bool) : Presence :=
  match pid_alive, unit_owns with
  | Some false, _ | _, Some false => Dead
  | _, Some true => Live
  | _, None => Indeterminate
  end.
Definition vm_presence (vm_pid : file) (test_kill : Z -> kill_answer) (a : show) : Presence :=
  let pid := recorded_pid_liveness vm_pid test_kill in
  if bool_decide (pid = Some false) then Dead else presence_of pid (unit_owns_a_vm a).

Definition unit_is (unit_ : option bytes) (l : list string) : bool :=
  match unit_ with Some s => one_of_states s l | None => false end.
Definition classify (has_records has_build alive : bool) (unit_ : option bytes) : State :=
  if negb has_records then
    if unit_is unit_ ["activating"]%string then Starting
    else if unit_is unit_ ["deactivating"]%string then Stopping
    else if has_build then Built else Absent
  else if alive then
    if unit_is unit_ ["deactivating"]%string then Stopping
    else if unit_is unit_ ["activating"]%string then Starting
    else if unit_is unit_ ["active"; "reloading"; "refreshing"]%string then Running
    else StFailed
  else
    if unit_is unit_ ["activating"]%string then Starting
    else if unit_is unit_ ["deactivating"]%string then Stopping
    else StFailed.
Definition discriminate (boot_json vm_pid : file) (has_build : bool) (test_kill : Z -> kill_answer) (a : show) : State :=
  classify (exists_ boot_json || exists_ vm_pid) has_build (vm_is_alive vm_pid test_kill) (unit_active_state a).
(** [matches!(state, Absent | Built)]: nothing is up. *)
Definition resting (s : State) : bool := match s with Absent | Built => true | _ => false end.

(** ** The boot record *)

Record BootMetadata := mk_BootMetadata {
  bm_schema_version : Z; bm_boot_identity : bytes; bm_sandbox_id : bytes; bm_target : bytes; bm_backend : bytes;
  bm_workspace_paths : list bytes }.
Inductive BootRecord := R_Absent | R_Unreadable | Skewed (theirs : Z) | Ready (boot : BootMetadata).
(** serde_json at [VersionEnvelope] and at [BootMetadata]. *)
Definition read_boot_record (envelope : bytes -> option Z) (decode : bytes -> option BootMetadata) (boot_json : file) : BootRecord :=
  match boot_json with
  | Missing => R_Absent
  | Unreadable => R_Unreadable
  | Content raw =>
      match envelope raw with
      | None => R_Unreadable
      | Some theirs =>
          if theirs =? LAUNCH_SCHEMA_VERSION
          then match decode raw with Some boot => Ready boot | None => R_Unreadable end
          else Skewed theirs
      end
  end.

(** ** Where a target's files are *)

Definition DEFAULT_TARGET : bytes := bs "default".
Record Runtime := mk_Runtime { directory : bytes; unit_ : bytes }.
Definition for_report (runtime_root sandbox_id target : bytes) : Runtime :=
  mk_Runtime (join (join runtime_root sandbox_id) target)
    (bs "vivarium-" ++ sandbox_id ++ bs "-" ++ target ++ bs ".service").
Definition control_socket (r : Runtime) : bytes := join (directory r) (bs "control.sock").
Definition lock_path (r : Runtime) : bytes := join (directory r) (bs "lock").
Definition locate (runtime_root sandbox_id target : bytes) : result Runtime Failure :=
  let runtime := for_report runtime_root sandbox_id target in
  if (108 <=? length (control_socket runtime))%nat then Err (diagnosed N_Host "runtime-socket-path-too-long" Config)
  else Ok runtime.

(** ** Readings *)

Definition parse_memory_current (value : bytes) : option Z :=
  let value := trim value in
  if bool_decide (value = []) || bytes_eqb value (bs "[not set]") then None
  else let* parsed := parse_uint u64_max value in if parsed =? u64_max then None else Some parsed.
Definition unit_memory_line (acc : option Z * option bytes) (line : bytes) : option Z * option bytes :=
  let '(memory, cgroup) := acc in
  match strip_prefix (bs "MemoryCurrent=") line with
  | Some value => (parse_memory_current value, cgroup)
  | None =>
      match strip_prefix (bs "ControlGroup=") line with
      | Some value => let value := trim value in (memory, if bool_decide (value = []) then cgroup else Some value)
      | None => (memory, cgroup)
      end
  end.
Definition parse_unit_memory_show (shown : bytes) : option Z * option bytes :=
  fold_left unit_memory_line (lines shown) (None, None).
Definition unit_memory_and_cgroup (a : show) : option Z * option bytes :=
  match a with Ran true stdout => parse_unit_memory_show stdout | _ => (None, None) end.

(** [str::split_whitespace], by the White_Space characters of [Bytes]; each round shortens the text. *)
Fixpoint words_fuel (fuel : nat) (word s : bytes) : list bytes :=
  match fuel, s with
  | O, _ | _, [] => if bool_decide (word = []) then [] else [rev word]
  | S fuel, b :: s' =>
      match strip_any strip_prefix whitespace_chars s with
      | Some rest => (if bool_decide (word = []) then [] else [rev word]) ++ words_fuel fuel [] rest
      | None => words_fuel fuel (b :: word) s'
      end
  end.
Definition split_whitespace (s : bytes) : list bytes := words_fuel (length s) [] s.
(** [doctor/host.rs]: a kibibyte field; [kib * 1024] is a [u64] product. *)
Definition meminfo_bytes (meminfo : bytes) (field : bytes) : option Z :=
  let* line := List.find (starts_with field) (lines meminfo) in
  let* kib := split_whitespace line !! 1%nat in
  let* kib := parse_uint u64_max kib in
  Some (kib * 1024 mod 2 ^ 64).
Definition total_memory_bytes (meminfo : bytes) : option Z := meminfo_bytes meminfo (bs "MemTotal:").
Definition available_memory_bytes (meminfo : bytes) : option Z := meminfo_bytes meminfo (bs "MemAvailable:").

(** ** Ceilings *)

Record Resources := mk_Resources { mem_mib : Z; vcpu : Z }.
(** The declared table: both figures are [u32]s and may be left out. *)
Record DeclaredResources := mk_DeclaredResources { d_mem_mib : option Z; d_vcpu : option Z }.
Definition clamp (lo hi x : Z) : Z := if x <? lo then lo else if hi <? x then hi else x.
Definition host_mem_mib (meminfo : option bytes) : Z :=
  match (let* text := meminfo in let* total := total_memory_bytes text in Some (total / (1024 * 1024))) with
  | None => 4 * 1024
  | Some total_mib => clamp (4 * 1024) (16 * 1024) (total_mib / 2 / 1024 * 1024)
  end.
(** [available_parallelism], a positive [usize] when there is one. *)
Definition host_vcpu (parallelism : option Z) : Z :=
  match parallelism with None => 1 | Some count => Z.min (if count <=? u64_max then count else 8) 8 end.
Definition effective_resources (declared : option DeclaredResources) (meminfo : option bytes) (parallelism : option Z) : Resources :=
  mk_Resources
    (match (let* d := declared in d_mem_mib d) with Some m => m | None => host_mem_mib meminfo end)
    (match (let* d := declared in d_vcpu d) with Some v => v | None => host_vcpu parallelism end).

(** ** Admission *)

Definition MEMORY_RESERVE_BYTES : Z := 1024 * 1024 * 1024.
Inductive Admission := Refuse | Warn | Proceed.
#[global] Instance Admission_eq_dec : EqDecision Admission.
Proof. solve_decision. Defined.
Definition admit_ (available fleet_used : option Z) : Admission :=
  match available with
  | None => Proceed
  | Some available =>
      if available <? MEMORY_RESERVE_BYTES then Refuse
      else match fleet_used with
           | Some used => if available - MEMORY_RESERVE_BYTES <? used then Warn else Proceed
           | None => Proceed
           end
  end.

(** ** The fleet *)

Definition saturating_add (a b : Z) : Z := Z.min (a + b) u64_max.
Definition saturating_mul (a b : Z) : Z := Z.min (a * b) u64_max.
Record FleetUse := mk_FleetUse { running_ : Z; measured : Z; complete : bool; measured_bytes : option Z }.
Definition fleet_sum (running measured sum : Z) (complete : bool) : option Z :=
  if running =? 0 then if complete then Some 0 else None
  else if 0 <? measured then Some sum else None.

(** A directory entry of the walk: unreadable itself, of unknown type, not a directory, or a directory with its name
    and what reading it gives. *)
Inductive entry (A : Type) := E_Unreadable | E_NoType | E_NotDir | E_Dir (name : bytes) (inner : A).
Arguments E_Unreadable {A}. Arguments E_NoType {A}. Arguments E_NotDir {A}. Arguments E_Dir {A} name inner.
Inductive listing (A : Type) := L_NotFound | L_Failed | L_Entries (l : list (entry A)).
Arguments L_NotFound {A}. Arguments L_Failed {A}. Arguments L_Entries {A} l.
Definition member : Type := (bytes * bytes)%type.
Definition insert_member (m : member) (l : list member) : list member := if bool_decide (m ∈ l) then l else l ++ [m].
Definition target_step (sandbox_id : bytes) (acc : list member * bool) (e : entry unit) : list member * bool :=
  let '(members, whole) := acc in
  match e with
  | E_Unreadable | E_NoType => (members, false)
  | E_NotDir => (members, whole)
  | E_Dir name _ =>
      match to_str name with Some target => (insert_member (sandbox_id, target) members, whole) | None => (members, whole) end
  end.
Definition sandbox_step (acc : list member * bool) (e : entry (listing unit)) : list member * bool :=
  let '(members, whole) := acc in
  match e with
  | E_Unreadable | E_NoType => (members, false)
  | E_NotDir => (members, whole)
  | E_Dir name inner =>
      match to_str name with
      | None => (members, whole)
      | Some sandbox_id =>
          match inner with
          | L_Entries targets => fold_left (target_step sandbox_id) targets (members, whole)
          | L_NotFound | L_Failed => (members, false)
          end
      end
  end.
Definition runtime_members (root : listing (listing unit)) : list member * bool :=
  match root with
  | L_Entries sandboxes => fold_left sandbox_step sandboxes ([], true)
  | L_NotFound => ([], true)
  | L_Failed => ([], false)
  end.

(** The loop of [measured_use] over the members, each with the state the discriminator gives and its memory figure. *)
Definition measure_step (state_of : member -> State) (memory_of : member -> option Z)
    (acc : Z * Z * Z) (m : member) : Z * Z * Z :=
  let '(running, measured, sum) := acc in
  match state_of m with
  | Running | Stopping =>
      match memory_of m with
      | Some bytes => (running + 1, measured + 1, saturating_add sum bytes)
      | None => (running + 1, measured, sum)
      end
  | _ => (running, measured, sum)
  end.
Definition measured_use (indexed : list bytes) (root : listing (listing unit)) (state_of : member -> State)
    (memory_of : member -> option Z) : FleetUse :=
  let '(found, whole) := runtime_members root in
  let members := fold_left (fun l m => insert_member m l) (map (fun n => (n, DEFAULT_TARGET)) indexed ++ found) [] in
  let '(running, measured, sum) := fold_left (measure_step state_of memory_of) members (0, 0, 0) in
  mk_FleetUse running measured whole (fleet_sum running measured sum whole).

Definition near_ceiling (used ceiling_mib : option Z) : bool :=
  match used, ceiling_mib with
  | Some used, Some mib =>
      let ceiling := saturating_mul mib (1024 * 1024) in
      (0 <? ceiling) && (saturating_mul ceiling 9 <=? saturating_mul used 10)
  | _, _ => false
  end.

(** [admission]: a failure before anything is created, a warning, or nothing. *)
Definition admission (available : option Z) (fleet : option FleetUse) : result bool Failure :=
  if bool_decide (admit_ available None = Refuse) then Err (diagnosed N_Host "memory-reserve" Diagnostic.Unavailable)
  else
    match fleet with
    | Some f => Ok (bool_decide (admit_ available (measured_bytes f) = Warn))
    | None => Ok false
    end.

(** * Lifecycle: what the readers of a VM's state may conclude

    The presence judgment, the states the discriminator gives, the boot record's versions, the bounds of the ceilings
    and of the readings, admission, and the fleet's figure. *)

(* ------------------------------------------------------------------ *)
(** ** Presence *)

(** A VM is judged dead only on positive evidence. The judgment is [Dead] exactly when the recorded pid is known
    to name no process, or the manager names the unit inactive or failed; [Live] exactly when the manager names it in
    an owning state and the pid is not known to be gone; and every other reading - no answer, an unknown word, no
    record - is [Indeterminate]. In particular a living or unknown pid never makes a VM [Live] by itself. *)
Theorem presence_needs_evidence (vm_pid : file) (test_kill : Z -> kill_answer) (a : show) :
  (vm_presence vm_pid test_kill a = Dead <->
     recorded_pid_liveness vm_pid test_kill = Some false \/ unit_owns_a_vm a = Some false) /\
  (vm_presence vm_pid test_kill a = Live <->
     recorded_pid_liveness vm_pid test_kill <> Some false /\ unit_owns_a_vm a = Some true) /\
  (vm_presence vm_pid test_kill a = Indeterminate <->
     recorded_pid_liveness vm_pid test_kill <> Some false /\ unit_owns_a_vm a = None).
Proof.
  unfold vm_presence. case_bool_decide as E; [rewrite E; naive_solver|].
  destruct (recorded_pid_liveness vm_pid test_kill) as [[]|], (unit_owns_a_vm a) as [[]|]; cbn; naive_solver.
Qed.

(** A pid record is evidence of death only when it holds a positive decimal that the kernel says names no process. *)
Lemma pid_known_dead vm_pid test_kill :
  recorded_pid_liveness vm_pid test_kill = Some false <->
  exists raw pid, read_text vm_pid = Some raw /\ parse_int i32_min i32_max (trim raw) = Some pid /\ 0 < pid /\ test_kill pid = K_Srch.
Proof.
  unfold recorded_pid_liveness. split.
  - destruct (read_text vm_pid) as [raw|]; [|done]. cbn. destruct (parse_int _ _ _) as [pid|] eqn:E; [|done]. cbn.
    destruct (Z.ltb_spec 0 pid); [|done]. destruct (test_kill pid) eqn:Ek; try done. intros _. by exists raw, pid.
  - intros (raw & pid & -> & Hp & Hpos & Hk). cbn. rewrite Hp. cbn. destruct (Z.ltb_spec 0 pid); [|lia]. by rewrite Hk.
Qed.

(* ------------------------------------------------------------------ *)
(** ** The discriminator *)

Definition transitional (u : option bytes) : bool := unit_is u ["activating"; "deactivating"]%string.
Definition settled_running (u : option bytes) : bool := unit_is u ["active"; "reloading"; "refreshing"]%string.
Lemma unit_is_cons u s l : unit_is u (s :: l) = unit_is u [s] || unit_is u l.
Proof. destruct u as [w|]; [|done]. unfold unit_is, one_of_states. cbn. by rewrite orb_false_r. Qed.
(** The states a status can report. [Running] needs records, a living recorded process and a unit in a settled
    running state; a unit in transition wins over every resting reading, with or without records; with no record the
    answer depends on the unit's transition and the build alone, so [absent] and [built] (what every destructive verb
    takes for "nothing is up") mean that no record exists and the unit is not in transition; and records whose process
    is gone, with a unit at rest, are [failed]. *)
Theorem classify_spec (has_records has_build alive : bool) (u : option bytes) :
  (classify has_records has_build alive u = Running <-> has_records && alive && settled_running u && negb (transitional u) = true) /\
  (resting (classify has_records has_build alive u) = true <-> has_records = false /\ transitional u = false) /\
  (classify has_records has_build alive u = Absent -> has_build = false) /\
  (classify has_records has_build alive u = Built -> has_build = true) /\
  (transitional u = true -> classify has_records has_build alive u = Starting \/ classify has_records has_build alive u = Stopping) /\
  (has_records = true -> alive = false -> transitional u = false -> classify has_records has_build alive u = StFailed).
Proof.
  unfold transitional, settled_running, classify. rewrite (unit_is_cons u "activating" ["deactivating"]%string).
  destruct (unit_is u ["activating"]%string) eqn:Ea, (unit_is u ["deactivating"]%string) eqn:Ed,
    (unit_is u ["active"; "reloading"; "refreshing"]%string), has_records, has_build, alive; cbn; naive_solver.
Qed.

(* ------------------------------------------------------------------ *)
(** ** The boot record *)

(** A boot record is trusted only at this version. A record is [Ready] only when its envelope names exactly the
    launch contract's version and the whole record decodes; a record whose envelope names another version is [Skewed]
    with that version whatever its body holds, so a record written by another release is never taken for a corrupt
    one; a record without a readable envelope is [Unreadable]; and only a missing file is [Absent]. *)
Theorem boot_record_versions (envelope : bytes -> option Z) (decode : bytes -> option BootMetadata) (f : file) :
  (forall boot, read_boot_record envelope decode f = Ready boot <->
     exists raw, f = Content raw /\ envelope raw = Some LAUNCH_SCHEMA_VERSION /\ decode raw = Some boot) /\
  (forall v, read_boot_record envelope decode f = Skewed v <->
     exists raw, f = Content raw /\ envelope raw = Some v /\ v <> LAUNCH_SCHEMA_VERSION) /\
  (read_boot_record envelope decode f = R_Absent <-> f = Missing).
Proof.
  unfold read_boot_record. destruct f as [| |raw]; [naive_solver..|].
  destruct (envelope raw) as [v|] eqn:Ee; [|naive_solver].
  destruct (Z.eqb_spec v LAUNCH_SCHEMA_VERSION) as [->|Hne]; [destruct (decode raw) eqn:Ed|]; naive_solver.
Qed.

(* ------------------------------------------------------------------ *)
(** ** Bounds *)

Lemma clamp_bounds lo hi x : lo <= hi -> lo <= clamp lo hi x <= hi.
Proof. intros H. unfold clamp. destruct (Z.ltb_spec x lo), (Z.ltb_spec hi x); lia. Qed.
Lemma clamp_idem lo hi x : lo <= x <= hi -> clamp lo hi x = x.
Proof. intros H. unfold clamp. destruct (Z.ltb_spec x lo), (Z.ltb_spec hi x); lia. Qed.
Lemma meminfo_bytes_u64 text field total : meminfo_bytes text field = Some total -> 0 <= total <= u64_max.
Proof.
  unfold meminfo_bytes. destruct (List.find _ _) as [line|]; [|done]. cbn. destruct (_ !! 1%nat) as [w|]; [|done]. cbn.
  destruct (parse_uint u64_max w) as [kib|]; [|done]. cbn -[Z.mul Z.modulo]. intros [= <-].
  pose proof (Z.mod_pos_bound (kib * 1024) (2 ^ 64) ltac:(lia)). unfold u64_max. lia.
Qed.

(** A ceiling read off the host: half of the memory in whole GiB, inside the clamp. *)
Lemma host_mem_mib_cases meminfo :
  host_mem_mib meminfo = 4096 \/
  exists text total, meminfo = Some text /\ total_memory_bytes text = Some total /\ 0 <= total /\
    host_mem_mib meminfo = clamp 4096 16384 (total / 1048576 / 2 / 1024 * 1024).
Proof.
  unfold host_mem_mib. destruct meminfo as [text|]; [|by left]. cbn [option_bind].
  destruct (total_memory_bytes text) as [total|] eqn:E; [|by left]. cbn [option_bind]. right.
  exists text, total. split; [done|]. split; [done|]. split; [|done]. by eapply meminfo_bytes_u64.
Qed.
Lemma clamp_gib x : clamp 4096 16384 (x * 1024) mod 1024 = 0.
Proof. unfold clamp. destruct (Z.ltb_spec (x * 1024) 4096); [done|]. destruct (Z.ltb_spec 16384 (x * 1024)); [done|]. by apply Z.mod_mul. Qed.
Lemma half_of_total total : 0 <= total -> 4096 < clamp 4096 16384 (total / 1048576 / 2 / 1024 * 1024) ->
  2 * (clamp 4096 16384 (total / 1048576 / 2 / 1024 * 1024) * 1024 * 1024) <= total.
Proof.
  intros H0. set (x := total / 1048576 / 2 / 1024 * 1024).
  assert (Hx : 2 * (x * 1048576) <= total).
  { unfold x. pose proof (Z.mul_div_le total 1048576 ltac:(lia)). pose proof (Z.mul_div_le (total / 1048576) 2 ltac:(lia)).
    pose proof (Z.mul_div_le (total / 1048576 / 2) 1024 ltac:(lia)). lia. }
  unfold clamp. destruct (Z.ltb_spec x 4096); [lia|]. destruct (Z.ltb_spec 16384 x); lia.
Qed.

Lemma host_vcpu_bounds parallelism :
  match parallelism with Some n => 1 <= n | None => True end -> 1 <= host_vcpu parallelism <= 8.
Proof. unfold host_vcpu. destruct parallelism as [n|]; [|lia]. intros H. destruct (n <=? u64_max); lia. Qed.
Lemma effective_mem declared meminfo parallelism :
  let r := effective_resources declared meminfo parallelism in
  mem_mib r = host_mem_mib meminfo \/ exists d, declared = Some d /\ d_mem_mib d = Some (mem_mib r).
Proof. cbn. destruct declared as [d|]; [|by left]. cbn. destruct (d_mem_mib d) eqn:E; [right; by exists d|by left]. Qed.
Lemma effective_vcpu declared meminfo parallelism :
  let r := effective_resources declared meminfo parallelism in
  vcpu r = host_vcpu parallelism \/ exists d, declared = Some d /\ d_vcpu d = Some (vcpu r).
Proof. cbn. destruct declared as [d|]; [|by left]. cbn. destruct (d_vcpu d) eqn:E; [right; by exists d|by left]. Qed.

(** The ceilings resolved from the host stay inside their clamps. Whatever [/proc/meminfo] says, and if it cannot
    be read, the memory ceiling is between 4 and 16 GiB, in whole GiB, and fits 32 bits; where it is above the floor it
    is at most half of what the host reports; and the processor ceiling is between 1 and 8 for every number of
    processors the system can name. A declared figure replaces the resolved one as it stands. *)
Theorem host_ceilings_bounded (declared : option DeclaredResources) (meminfo : option bytes) (parallelism : option Z)
    (Hp : match parallelism with Some n => 1 <= n | None => True end) :
  4096 <= host_mem_mib meminfo <= 16384 /\ host_mem_mib meminfo mod 1024 = 0 /\
  (forall text total, meminfo = Some text -> total_memory_bytes text = Some total ->
     4096 < host_mem_mib meminfo -> 2 * (host_mem_mib meminfo * 1024 * 1024) <= total) /\
  1 <= host_vcpu parallelism <= 8 /\
  (let r := effective_resources declared meminfo parallelism in
   (mem_mib r = host_mem_mib meminfo \/ exists d, declared = Some d /\ d_mem_mib d = Some (mem_mib r)) /\
   (vcpu r = host_vcpu parallelism \/ exists d, declared = Some d /\ d_vcpu d = Some (vcpu r))).
Proof.
  split_and!.
  - destruct (host_mem_mib_cases meminfo) as [->|(? & ? & _ & _ & _ & ->)]; [lia|]. by apply clamp_bounds.
  - destruct (host_mem_mib_cases meminfo) as [->|(? & ? & _ & _ & _ & ->)]; [lia|]. by apply clamp_bounds.
  - destruct (host_mem_mib_cases meminfo) as [->|(? & ? & _ & _ & _ & ->)]; [done|]. apply clamp_gib.
  - intros text' total'. destruct (host_mem_mib_cases meminfo) as [->|(text & total & -> & Ht & H0 & ->)]; [lia|].
    intros [= <-]. rewrite Ht. intros [= <-]. by apply half_of_total.
  - by apply host_vcpu_bounds.
  - by apply host_vcpu_bounds.
  - split; [apply effective_mem|apply effective_vcpu].
Qed.
Lemma host_ceilings_bounded_witness :
  4096 <= host_mem_mib (Some (bs "MemTotal:       33554432 kB")) <= 16384 /\ host_mem_mib (Some (bs "MemTotal:       33554432 kB")) = 16384.
Proof. split; [by apply (host_ceilings_bounded None (Some (bs "MemTotal:       33554432 kB")) (Some 12))|reflexivity]. Defined.

(* ------------------------------------------------------------------ *)
(** ** Admission *)

(** A start is refused on the host's own figure alone. It is refused exactly when the available memory is known
    and below the reserve of one gibibyte, always as [memory-reserve]; the fleet's use can only turn an admission into
    a warning, exactly when it exceeds what is available above the reserve; an unknown figure admits in silence; and
    more available memory never turns an admission into a refusal, nor silence into a warning. *)
Theorem admission_spec (available : option Z) (fleet : option FleetUse) :
  (admission available fleet = Err (diagnosed N_Host "memory-reserve" Diagnostic.Unavailable) <->
     exists a, available = Some a /\ a < MEMORY_RESERVE_BYTES) /\
  (admission available fleet = Ok true <->
     exists a f used, available = Some a /\ fleet = Some f /\ measured_bytes f = Some used /\
       MEMORY_RESERVE_BYTES <= a /\ a - MEMORY_RESERVE_BYTES < used) /\
  (forall f, admission available fleet = Err f -> f = diagnosed N_Host "memory-reserve" Diagnostic.Unavailable) /\
  (forall a a', available = Some a -> a <= a' ->
     (is_ok (admission available fleet) = true -> is_ok (admission (Some a') fleet) = true) /\
     (admission available fleet = Ok false -> admission (Some a') fleet = Ok false)).
Proof.
  assert (Hone : forall a, admission (Some a) fleet =
    if a <? MEMORY_RESERVE_BYTES then Err (diagnosed N_Host "memory-reserve" Diagnostic.Unavailable)
    else Ok (match fleet with Some f => match measured_bytes f with Some used => a - MEMORY_RESERVE_BYTES <? used | None => false end | None => false end)).
  { intros a. unfold admission, admit_. destruct (a <? MEMORY_RESERVE_BYTES); [done|]. rewrite bool_decide_false by done.
    destruct fleet as [f|]; [|done]. destruct (measured_bytes f) as [used|]; [|done]. by destruct (a - MEMORY_RESERVE_BYTES <? used). }
  assert (Hnone : admission None fleet = Ok false) by (by destruct fleet).
  split_and!.
  - destruct available as [a|]; [rewrite Hone|by rewrite Hnone; naive_solver].
    destruct (Z.ltb_spec a MEMORY_RESERVE_BYTES); [naive_solver|]. split; [done|]. intros (? & [= <-] & ?). lia.
  - destruct available as [a|]; [rewrite Hone|by rewrite Hnone; naive_solver].
    destruct (Z.ltb_spec a MEMORY_RESERVE_BYTES).
    { split; [done|]. intros (? & ? & ? & [= <-] & _ & _ & ? & _). lia. }
    destruct fleet as [f|]; [|naive_solver]. destruct (measured_bytes f) as [used|] eqn:Ef; [|naive_solver].
    split.
    + intros [= Hlt%Z.ltb_lt]. by exists a, f, used.
    + intros (? & ? & ? & [= <-] & [= <-] & Hu & _ & Hlt). rewrite Ef in Hu. injection Hu as <-. by apply Z.ltb_lt in Hlt as ->.
  - intros f. destruct available as [a|]; [rewrite Hone|by rewrite Hnone]. destruct (a <? _); [by intros [= <-]|done].
  - intros a a' -> Hle. rewrite !Hone. destruct (Z.ltb_spec a MEMORY_RESERVE_BYTES); [done|].
    destruct (Z.ltb_spec a' MEMORY_RESERVE_BYTES); [lia|]. split; [done|].
    destruct fleet as [f|]; [|done]. destruct (measured_bytes f) as [used|]; [|done].
    intros [= ?%Z.ltb_ge]. do 2 f_equal. apply Z.ltb_ge. lia.
Qed.

(* ------------------------------------------------------------------ *)
(** ** The fleet *)

Definition occupies (state_of : member -> State) (m : member) : bool :=
  match state_of m with Running | Stopping => true | _ => false end.
Definition figures (state_of : member -> State) (memory_of : member -> option Z) (ms : list member) : list Z :=
  omap memory_of (List.filter (occupies state_of) ms).
Definition total (l : list Z) : Z := fold_right Z.add 0 l.
Definition members_of (indexed : list bytes) (root : listing (listing unit)) : list member :=
  fold_left (fun l m => insert_member m l) (map (fun n => (n, DEFAULT_TARGET)) indexed ++ fst (runtime_members root)) [].

Lemma insert_members_spec ms l : NoDup l ->
  NoDup (fold_left (fun l m => insert_member m l) ms l) /\
  forall m, m ∈ fold_left (fun l m => insert_member m l) ms l <-> m ∈ l \/ m ∈ ms.
Proof.
  revert l. induction ms as [|x ms IH]; intros l Hl; cbn [fold_left]; [split; [done|set_solver]|].
  destruct (IH (insert_member x l)) as [H1 H2].
  - unfold insert_member. case_bool_decide; [done|]. by apply NoDup_snoc_fresh.
  - split; [done|]. intros m. rewrite H2, elem_of_cons. unfold insert_member.
    case_bool_decide; [|rewrite elem_of_app, list_elem_of_singleton]; naive_solver.
Qed.
Lemma total_nonneg l : Forall (fun z => 0 <= z) l -> 0 <= total l.
Proof. unfold total. induction 1; cbn [fold_right]; lia. Qed.
Lemma omap_length {A B} (f : A -> option B) (l : list A) : (length (omap f l) <= length l)%nat.
Proof. induction l as [|x l IH]; [done|]. change (omap f (x :: l)) with (match f x with Some y => y :: omap f l | None => omap f l end). destruct (f x); cbn [length]; lia. Qed.
Lemma figures_cons state_of memory_of m ms :
  figures state_of memory_of (m :: ms) =
  (if occupies state_of m then match memory_of m with Some z => [z] | None => [] end else []) ++ figures state_of memory_of ms.
Proof. unfold figures. cbn [List.filter]. destruct (occupies state_of m); [|done]. cbn. by destruct (memory_of m). Qed.
Lemma measure_step_eq state_of memory_of r n s m :
  measure_step state_of memory_of (r, n, s) m =
  if occupies state_of m
  then match memory_of m with Some z => (r + 1, n + 1, saturating_add s z) | None => (r + 1, n, s) end else (r, n, s).
Proof. unfold measure_step, occupies. by destruct (state_of m). Qed.
Lemma saturating_add_min s z : 0 <= s -> 0 <= z -> saturating_add (Z.min s u64_max) z = Z.min (s + z) u64_max.
Proof. unfold saturating_add, u64_max. lia. Qed.
Lemma measure_fold state_of memory_of ms r n s :
  0 <= s -> Forall (fun z => 0 <= z) (figures state_of memory_of ms) ->
  fold_left (measure_step state_of memory_of) ms (r, n, Z.min s u64_max) =
    (r + Z.of_nat (length (List.filter (occupies state_of) ms)),
     n + Z.of_nat (length (figures state_of memory_of ms)),
     Z.min (s + total (figures state_of memory_of ms)) u64_max).
Proof.
  revert r n s. induction ms as [|m ms IH]; intros r n s Hs Hf; cbn [fold_left].
  - unfold figures. cbn. by rewrite !Z.add_0_r.
  - rewrite measure_step_eq. rewrite figures_cons in *. cbn [List.filter]. destruct (occupies state_of m); [|by apply IH].
    destruct (memory_of m) as [z|]; cbn [app] in *.
    + apply Forall_cons in Hf as [Hz Hf]. rewrite saturating_add_min, IH by (done || lia). cbn [length].
      unfold total. cbn [fold_right]. rewrite !Nat2Z.inj_succ. f_equal; [f_equal|]; lia.
    + rewrite IH by (done || lia). cbn [length]. rewrite !Nat2Z.inj_succ. do 2 f_equal; lia.
Qed.

(** The fleet's figure is what its members add up to. The members are the indexed sandboxes and those found in the
    runtime directory, each counted once; [running] counts exactly those in a state that holds memory and [measured]
    those of them whose scope could be read; the sum is the exact total of their figures, saturated at 64 bits; and no
    figure is given when nothing readable was found, unless the walk was complete and nothing runs, which is zero. *)
Theorem fleet_figure (indexed : list bytes) (root : listing (listing unit)) (state_of : member -> State) (memory_of : member -> option Z)
    (Hmem : forall m z, memory_of m = Some z -> 0 <= z) :
  let ms := members_of indexed root in
  let u := measured_use indexed root state_of memory_of in
  NoDup ms /\
  (forall m, m ∈ ms <-> m ∈ map (fun n => (n, DEFAULT_TARGET)) indexed \/ m ∈ fst (runtime_members root)) /\
  running_ u = Z.of_nat (length (List.filter (occupies state_of) ms)) /\
  measured u = Z.of_nat (length (figures state_of memory_of ms)) /\ measured u <= running_ u /\
  (forall s, measured_bytes u = Some s -> s = Z.min (total (figures state_of memory_of ms)) u64_max) /\
  (measured_bytes u = None <-> (running_ u = 0 /\ snd (runtime_members root) = false) \/ (0 < running_ u /\ measured u = 0)).
Proof.
  cbv zeta. unfold measured_use, members_of. destruct (runtime_members root) as [found whole]. cbn [fst snd].
  set (ms := fold_left (fun l m => insert_member m l) (map (fun n => (n, DEFAULT_TARGET)) indexed ++ found) []).
  destruct (insert_members_spec (map (fun n => (n, DEFAULT_TARGET)) indexed ++ found) [] ltac:(apply NoDup_nil_2)) as [Hnd Hin].
  fold ms in Hnd, Hin.
  assert (Hf : Forall (fun z => 0 <= z) (figures state_of memory_of ms)).
  { apply Forall_forall. intros z Hz. unfold figures in Hz. apply list_elem_of_omap in Hz as (m & _ & Hm). by eapply Hmem. }
  pose proof (measure_fold state_of memory_of ms 0 0 0 ltac:(lia) Hf) as E.
  change (Z.min 0 u64_max) with 0 in E. rewrite E. cbn [running_ measured measured_bytes].
  assert (Hle : (length (figures state_of memory_of ms) <= length (List.filter (occupies state_of) ms))%nat).
  { apply omap_length. }
  split; [done|]. split; [intros m; rewrite Hin, elem_of_app; set_solver|]. split; [lia|]. split; [lia|]. split; [lia|].
  unfold fleet_sum. rewrite !Z.add_0_l. split.
  - intros s. destruct (Z.eqb_spec (Z.of_nat (length (List.filter (occupies state_of) ms))) 0) as [H0|H0].
    + assert (figures state_of memory_of ms = []) as -> by (apply nil_length_inv; lia). destruct whole; [by intros [= <-]|done].
    + destruct (_ <? _); [by intros [= <-]|done].
  - destruct (Z.eqb_spec (Z.of_nat (length (List.filter (occupies state_of) ms))) 0) as [H0|H0].
    + destruct whole; split; [done|lia || (intros [[_ ?]|[? _]]; [done|lia])|by left|done].
    + destruct (Z.ltb_spec 0 (Z.of_nat (length (figures state_of memory_of ms)))); split; [done|lia|right; lia|done].
Qed.
Definition sample_root : listing (listing unit) := L_Entries [E_Dir (bs "box") (L_Entries [E_Dir (bs "default") tt; E_Dir (bs "two") tt]); E_NotDir].
Lemma fleet_figure_witness :
  running_ (measured_use [bs "box"] sample_root (fun _ => Running) (fun _ => Some 7)) = 2 /\
  measured_use [bs "box"] sample_root (fun _ => Running) (fun _ => Some 7) = mk_FleetUse 2 2 true (Some 14).
Proof.
  split; [|reflexivity].
  destruct (fleet_figure [bs "box"] sample_root (fun _ => Running) (fun _ => Some 7)) as (_ & _ & H & _); [by intros _ z [= <-]|].
  rewrite H. reflexivity.
Defined.
