(* ===== verification/Stop.v ===== *)
(** * Bringing a VM down ([src/src/cli/lifecycle.rs], from [stop] to [grace_seconds])

    The ladder of a stop: the agent is asked, the manager is told, the group is killed.  Every poll of the manager is a
    round of a schedule: what [systemctl show] answered, and whether the deadline had passed when the round asked the
    clock.  A schedule that ends while the loop would go on leaves the stop waiting ([Blocks]).  Commands given are
    effects, kept in order. *)
From S2P Require Import Prelude Bytes Paths Hybrid Diagnostic Lifecycle.

Inductive effect :=
| AskShutdown | StopJob | KillGroup | RemoveRecord (name : bytes)
| TakeLock | Evaluate | BuildRunner | RecordGeneration (number : Z) | WriteVolumes | WriteRunningBuild (store_path : bytes)
| FollowConsole | RenderSpec (program : bytes) (argv : list bytes) | BootHandoff (spec : bytes).
#[global] Instance effect_eq_dec : EqDecision effect.
Proof. solve_decision. Defined.

(** Code that gives commands, and ends, fails or waits. *)
Definition cmd (A : Type) : Type := sem (list effect) (stop Failure) A.
Definition emit (e : effect) : cmd unit := fun log => (Ok tt, log ++ [e]).
Definition refuse {A} (f : Failure) : cmd A := sfail (Failed f).
Definition waits {A} : cmd A := sfail Blocks.
Definition of_result {A} (r : result A Failure) : cmd A := slift (map_err Failed r).

Definition POWER_SIGNAL_WINDOW_SECONDS : Z := 10.
Definition grace_seconds (force : bool) (timeout : option Z) : option Z :=
  if force then Some 0
  else match timeout with
       | Some seconds => if seconds <? 0 then None else Some seconds
       | None => Some 10
       end.

(** [None | Some("inactive" | "failed")]: the unit's lifetime reads as over. *)
Definition gone (a : show) : bool :=
  match unit_active_state a with
  | None => true
  | Some state => one_of_states state ["inactive"; "failed"]%string
  end.

(** The polling loop: the rounds left when it ended. *)
Definition round : Type := (show * bool)%type.
Inductive polled := Gone (rest : list round) | Expired (rest : list round) | StillPolling.
Fixpoint poll (bounded : bool) (rounds : list round) : polled :=
  match rounds with
  | [] => StillPolling
  | (a, passed) :: rounds =>
      if gone a then Gone rounds
      else if bounded && passed then Expired rounds
      else poll bounded rounds
  end.

(** What the manager's [stop] job met: it could not be run, it was refused with this standard error, or accepted. *)
Inductive stop_job := Job_NotRun | Job_Refused (stderr : bytes) | Job_Accepted.
Fixpoint is_infix (needle hay : bytes) : bool :=
  starts_with needle hay || match hay with [] => false | _ :: hay => is_infix needle hay end.

(** The rest of [stop_unit]: the reaping looks at the manager fifty times at most. *)
Definition reaped (looks : list show) : bool := existsb gone (take 50 looks).
Record unit_world := mk_unit_world {
  u_job : stop_job;
  u_rounds : list round;
  u_killed : bool;          (* [systemctl kill] ran and succeeded *)
  u_looks : list show }.
Definition stop_unit (force : bool) (timeout : option Z) (w : unit_world) : cmd (option StopRung) :=
  let bounded := bool_decide (is_Some (grace_seconds force timeout)) in
  emit StopJob ;;
  match u_job w with
  | Job_NotRun => refuse (diagnosed N_Host "systemctl-unavailable" Diagnostic.Unavailable)
  | Job_Refused stderr =>
      if is_infix (bs "not loaded") stderr || is_infix (bs "not found") stderr then sret None
      else refuse (diagnosed N_Vm "stop-failed" Diagnostic.Unavailable)
  | Job_Accepted =>
      match poll bounded (u_rounds w) with
      | StillPolling => waits
      | Gone _ => sret (Some PowerSignal)
      | Expired _ =>
          emit KillGroup ;;
          if u_killed w && reaped (u_looks w) then sret (Some HardPoweroff)
          else refuse (diagnosed N_Vm "stop-unconfirmed" Diagnostic.Unavailable)
      end
  end.

Record ladder_world := mk_ladder_world {
  l_record : BootRecord;
  l_ask_left : bool;              (* the ask's budget, what remains of the deadline included, is not zero *)
  l_acknowledged : BootMetadata -> bool;  (* [request_shutdown] *)
  l_rounds : list round;
  l_unit : unit_world }.
Definition stop_ladder (force : bool) (timeout : option Z) (w : ladder_world) : cmd (option StopRung) :=
  let grace := grace_seconds force timeout in
  match l_record w with
  | Ready metadata =>
      if negb (bool_decide (grace = Some 0)) && l_ask_left w then
        emit AskShutdown ;;
        if l_acknowledged w metadata then
          match poll (bool_decide (is_Some grace)) (l_rounds w) with
          | StillPolling => waits
          | Gone _ => sret (Some RungAgent)
          | Expired _ =>
              let! rung := stop_unit false (Some POWER_SIGNAL_WINDOW_SECONDS) (l_unit w) in
              sret (Some (default RungAgent rung))
          end
        else stop_unit force timeout (l_unit w)
      else stop_unit force timeout (l_unit w)
  | _ => stop_unit force timeout (l_unit w)
  end.

(** [confirm_teardown]: the runtime directory's entries, by their paths; an entry that cannot be read is [None]. *)
Inductive dir_listing := D_NotFound | D_Failed | D_Entries (paths : list (option bytes)).
Fixpoint count_residue (lock : bytes) (paths : list (option bytes)) (counted : Z) : result Z Failure :=
  match paths with
  | [] => Ok counted
  | None :: _ => Err (diagnosed N_Vm "teardown-unconfirmed" Diagnostic.Unavailable)
  | Some path :: paths => count_residue lock paths (if path_eqb path lock then counted else counted + 1)
  end.
Definition confirm_teardown (r : Runtime) (dir : dir_listing) : result unit Failure :=
  let? residue :=
    match dir with
    | D_Entries paths => count_residue (lock_path r) paths 0
    | D_NotFound => Ok 0
    | D_Failed => Err (diagnosed N_Vm "teardown-unconfirmed" Diagnostic.Unavailable)
    end in
  guard_err (0 <? residue) (diagnosed N_Vm "teardown-incomplete" Diagnostic.Unavailable).

Definition stop_one (r : Runtime) (force : bool) (timeout : option Z) (w : ladder_world) (dir : dir_listing)
    : cmd (option StopRung) :=
  let! rung := stop_ladder force timeout w in
  of_result (confirm_teardown r dir) ;;
  sret rung.

(** [stop]: the state the discriminator gives before and after. *)
Record target_world := mk_target_world {
  t_name : bytes;
  t_runtime : Runtime;
  t_before : State;
  t_ladder : ladder_world;
  t_dir : dir_listing;
  t_after : State }.
Definition stop_verb (force : bool) (timeout : option Z) (t : target_world) : cmd (State * option StopRung) :=
  if resting (t_before t) then sret (t_before t, None)
  else
    let! rung := stop_one (t_runtime t) force timeout (t_ladder t) (t_dir t) in
    sret (t_after t, rung).

(** [stop --all]: every target that is up is tried; a failure is remembered and the sweep goes on. *)
Definition record_failure (first : option Failure) (f : Failure) : option Failure :=
  match first with Some g => Some g | None => Some f end.
Record sweep := mk_sweep { s_rows : list (bytes * State * option StopRung); s_first : option Failure; s_log : list (bytes * list effect) }.
Fixpoint stop_sweep (force : bool) (timeout : option Z) (targets : list target_world) (s : sweep) : option sweep :=
  match targets with
  | [] => Some s
  | t :: targets =>
      if resting (t_before t) then stop_sweep force timeout targets s
      else
        match stop_one (t_runtime t) force timeout (t_ladder t) (t_dir t) [] with
        | (Ok rung, log) =>
            stop_sweep force timeout targets
              (mk_sweep (s_rows s ++ [(t_name t, t_after t, rung)]) (s_first s) (s_log s ++ [(t_name t, log)]))
        | (Err (Failed f), log) =>
            stop_sweep force timeout targets
              (mk_sweep (s_rows s) (record_failure (s_first s) f) (s_log s ++ [(t_name t, log)]))
        | (Err Blocks, _) => None
        end
  end.
Definition stop_all (force : bool) (timeout : option Z) (targets : list target_world)
    : option (result (list (bytes * State * option StopRung)) Failure) :=
  match stop_sweep force timeout targets (mk_sweep [] None []) with
  | None => None
  | Some s => Some (match s_first s with Some f => Err f | None => Ok (s_rows s) end)
  end.

(** * Stop: what a stop does and what it may claim

    The shape of the ladder (its commands, each at most once and in order), what the reported rung says, when a stop
    ends, what a confirmed stop has seen, and the sweep over every sandbox. *)

(** ** Helpers *)

(** A run of code that gives commands: what it appended to the log. *)
Definition gives {A} (m : cmd A) (P : list effect -> result A (stop Failure) -> Prop) : Prop :=
  forall log, exists cmds r, m log = (r, log ++ cmds) /\ P cmds r.

Lemma gives_ret {A} (a : A) (P : list effect -> result A (stop Failure) -> Prop) : P [] (Ok a) -> gives (sret a) P.
Proof. intros H log. exists [], (Ok a). by rewrite app_nil_r. Qed.
Lemma gives_fail {A} e (P : list effect -> result A (stop Failure) -> Prop) : P [] (Err e) -> gives (sfail e) P.
Proof. intros H log. exists [], (Err e). by rewrite app_nil_r. Qed.
Lemma gives_lift {A} r (P : list effect -> result A (stop Failure) -> Prop) : P [] r -> gives (slift r) P.
Proof. intros H log. exists [], r. by rewrite app_nil_r. Qed.
Lemma gives_emit {A} e (m : cmd A) (P : list effect -> result A (stop Failure) -> Prop) :
  gives m (fun cmds r => P (e :: cmds) r) -> gives (emit e ;; m) P.
Proof.
  intros H log. destruct (H (log ++ [e])) as (cmds & r & E & Hp). exists (e :: cmds), r. split; [|done].
  unfold sbind, emit. rewrite E. by rewrite <- app_assoc.
Qed.
Lemma gives_bind {A B} (m : cmd A) (k : A -> cmd B) (Q : list effect -> result A (stop Failure) -> Prop) (P : list effect -> result B (stop Failure) -> Prop) :
  gives m Q ->
  (forall a cmds, Q cmds (Ok a) -> gives (k a) (fun cmds' r => P (cmds ++ cmds') r)) ->
  (forall e cmds, Q cmds (Err e) -> P cmds (Err e)) ->
  gives (sbind m k) P.
Proof.
  intros Hm Hk He log. destruct (Hm log) as (cmds & [a|e] & E & Hq).
  - destruct (Hk a cmds Hq (log ++ cmds)) as (cmds' & r & E' & Hp). exists (cmds ++ cmds'), r.
    unfold sbind. rewrite E, E', <- app_assoc. by split.
  - exists cmds, (Err e). unfold sbind. rewrite E. split; [done|auto].
Qed.
Lemma gives_impl {A} (m : cmd A) (P Q : list effect -> result A (stop Failure) -> Prop) :
  gives m P -> (forall cmds r, P cmds r -> Q cmds r) -> gives m Q.
Proof. intros H HI log. destruct (H log) as (cmds & r & E & Hp). exists cmds, r. auto. Qed.
Ltac gives_step :=
  first [apply gives_emit | apply gives_ret | apply gives_fail | apply gives_lift].

(** Some look of a schedule found the unit gone. *)
Definition seen_gone (rounds : list round) : Prop := exists a p, (a, p) ∈ rounds /\ gone a = true.
Lemma poll_gone bounded rounds rest : poll bounded rounds = Gone rest -> seen_gone rounds.
Proof.
  induction rounds as [|[a p] rounds IH]; [done|]. cbn [poll]. destruct (gone a) eqn:Ea.
  - intros _. exists a, p. split; [by left|done].
  - destruct (bounded && p); [done|]. intros H. destruct (IH H) as (b & q & Hin & Hb). exists b, q. split; [by right|done].
Qed.
Lemma poll_expired bounded rounds rest :
  poll bounded rounds = Expired rest -> bounded = true /\ exists a, (a, true) ∈ rounds /\ gone a = false.
Proof.
  induction rounds as [|[a p] rounds IH]; [done|]. cbn [poll]. destruct (gone a) eqn:Ea; [done|].
  destruct bounded, p; cbn [andb]; try (intros _; split; [done|]; exists a; split; [by left|done]).
  all: intros H; destruct (IH H) as (Hb & b & Hin & Hg); split; [done|]; exists b; split; [by right|done].
Qed.
Lemma poll_ends rounds : Exists (fun r => snd r = true) rounds -> poll true rounds <> StillPolling.
Proof.
  induction rounds as [|[a p] rounds IH]; [by intros ?%Exists_nil|]. intros H. cbn [poll]. destruct (gone a); [done|].
  destruct p; [done|]. cbn [andb]. apply IH. apply Exists_cons in H as [H|H]; [done|exact H].
Qed.

(* ------------------------------------------------------------------ *)
(** ** The two halves of the ladder, as contracts *)

(** A look at the manager behind the kill, among the fifty the code takes. *)
Definition looked_gone (looks : list show) : Prop := exists a, a ∈ take 50 looks /\ gone a = true.
Definition already_gone (j : stop_job) : Prop :=
  exists stderr, j = Job_Refused stderr /\ is_infix (bs "not loaded") stderr || is_infix (bs "not found") stderr = true.
(** What [stop_unit] did, by what it returns. *)
Definition unit_post (bounded : bool) (w : unit_world) (cmds : list effect) (r : result (option StopRung) (stop Failure)) : Prop :=
  match r with
  | Ok None => cmds = [StopJob] /\ already_gone (u_job w)
  | Ok (Some PowerSignal) => cmds = [StopJob] /\ u_job w = Job_Accepted /\ seen_gone (u_rounds w)
  | Ok (Some HardPoweroff) => cmds = [StopJob; KillGroup] /\ bounded = true /\ u_killed w = true /\ looked_gone (u_looks w)
  | Ok (Some RungAgent) => False
  | Err Blocks => cmds = [StopJob] /\ u_job w = Job_Accepted /\ poll bounded (u_rounds w) = StillPolling
  | Err (Failed f) => failure_code f = Diagnostic.Unavailable /\ (cmds = [StopJob] \/ cmds = [StopJob; KillGroup] /\ bounded = true)
  end.
Definition bounded_stop (force : bool) (timeout : option Z) : bool := bool_decide (is_Some (grace_seconds force timeout)).
Lemma stop_unit_post force timeout w : gives (stop_unit force timeout w) (unit_post (bounded_stop force timeout) w).
Proof.
  unfold stop_unit. apply gives_emit. fold (bounded_stop force timeout). set (b := bounded_stop _ _). clearbody b. destruct (u_job w) as [|stderr|] eqn:Ej.
  - apply gives_fail. split; [done|by left].
  - destruct (_ || _) eqn:E; gives_step; [split; [done|]; by exists stderr|split; [done|by left]].
  - destruct (poll b (u_rounds w)) eqn:Ep.
    + apply gives_ret. split; [done|]. split; [done|]. by eapply poll_gone.
    + apply poll_expired in Ep as [-> _]. gives_step. destruct (u_killed w && reaped (u_looks w)) eqn:E; gives_step.
      * apply andb_true_iff in E as [Ek E%existsb_exists]. destruct E as (a & Ha%list_elem_of_In & Hg).
        split; [done|]. split; [done|]. split; [done|]. by exists a.
      * split; [done|]. right. by split.
    + gives_step. done.
Qed.

Definition ladder_post (force : bool) (timeout : option Z) (w : ladder_world) (cmds : list effect)
    (r : result (option StopRung) (stop Failure)) : Prop :=
  sublist cmds [AskShutdown; StopJob; KillGroup] /\
  (AskShutdown ∈ cmds -> grace_seconds force timeout <> Some 0 /\ exists boot, l_record w = Ready boot) /\
  match r with
  | Ok (Some RungAgent) =>
      AskShutdown ∈ cmds /\ KillGroup ∉ cmds /\ (exists boot, l_record w = Ready boot /\ l_acknowledged w boot = true) /\
      (seen_gone (l_rounds w) \/ already_gone (u_job (l_unit w)))
  | Ok (Some PowerSignal) => StopJob ∈ cmds /\ KillGroup ∉ cmds /\ seen_gone (u_rounds (l_unit w))
  | Ok (Some HardPoweroff) => KillGroup ∈ cmds /\ u_killed (l_unit w) = true /\ looked_gone (u_looks (l_unit w))
  | Ok None => KillGroup ∉ cmds /\ already_gone (u_job (l_unit w))
  | Err (Failed f) => failure_code f = Diagnostic.Unavailable
  | Err Blocks => KillGroup ∉ cmds
  end.
Ltac sublist_tac := repeat first [apply sublist_nil_l | apply sublist_skip | apply sublist_cons | reflexivity].
(** What the unit half leaves, behind an ask or without one. *)
Lemma ladder_after_unit force timeout w bounded pre cmds r :
  pre = [] \/ pre = [AskShutdown] /\ grace_seconds force timeout <> Some 0 /\ (exists boot, l_record w = Ready boot) ->
  unit_post bounded (l_unit w) cmds r -> ladder_post force timeout w (pre ++ cmds) r.
Proof.
  intros Hpre H. unfold ladder_post.
  assert (Hc : cmds = [StopJob] \/ cmds = [StopJob; KillGroup]).
  { destruct r as [[[]|]|[f|]]; cbn in H; tauto. }
  split.
  { destruct Hpre as [->|[-> _]], Hc as [-> | ->]; cbn; sublist_tac. }
  split.
  { intros Hin. destruct Hpre as [->|(-> & Hg & Hb)]; [|by split]. exfalso.
    destruct Hc as [-> | ->]; cbn in Hin; revert Hin; apply (bool_decide_unpack _); reflexivity. }
  assert (Hnk : forall cmds', cmds' = [StopJob] -> KillGroup ∉ pre ++ cmds').
  { intros ? ->. destruct Hpre as [->|[-> _]]; apply (bool_decide_unpack _); reflexivity. }
  destruct r as [[[]|]|[f|]]; cbn in H.
  - done.
  - destruct H as (-> & _ & H). split; [|split; [by apply Hnk|done]]. apply elem_of_app. right. by left.
  - destruct H as (-> & _ & Hk & H). split; [|by split]. apply elem_of_app. right. right. by left.
  - destruct H as [-> H]. split; [by apply Hnk|done].
  - by destruct H.
  - destruct H as (-> & _). by apply Hnk.
Qed.

(** The ladder keeps its contract. *)
Lemma stop_ladder_post force timeout w : gives (stop_ladder force timeout w) (ladder_post force timeout w).
Proof.
  assert (Hu : gives (stop_unit force timeout (l_unit w)) (ladder_post force timeout w)).
  { eapply gives_impl; [apply stop_unit_post|]. intros cmds r H. eapply (ladder_after_unit _ _ _ _ []); [by left|exact H]. }
  unfold stop_ladder. destruct (l_record w) as [| | |boot] eqn:El; try exact Hu.
  case_bool_decide as Hg; [exact Hu|]. cbn [negb andb]. destruct (l_ask_left w); [|exact Hu].
  assert (Hpre : [AskShutdown] = [] \/ [AskShutdown] = [AskShutdown] /\ grace_seconds force timeout <> Some 0 /\ (exists b, l_record w = Ready b)).
  { right. split; [done|]. split; [done|]. by exists boot. }
  apply gives_emit. destruct (l_acknowledged w boot) eqn:Ea.
  2: { eapply gives_impl; [apply stop_unit_post|]. intros cmds r H. by eapply (ladder_after_unit _ _ _ _ [AskShutdown]). }
  assert (Hask : AskShutdown ∈ [AskShutdown] /\ KillGroup ∉ [AskShutdown] /\ sublist [AskShutdown] [AskShutdown; StopJob; KillGroup]).
  { split; [by left|]. split; [|sublist_tac]. apply (bool_decide_unpack _). reflexivity. }
  destruct Hask as (Hin & Hnk & Hsub).
  assert (Hself : AskShutdown ∈ [AskShutdown] -> grace_seconds force timeout <> Some 0 /\ (exists b, l_record w = Ready b)).
  { intros _. split; [done|]. by exists boot. }
  destruct (poll _ (l_rounds w)) eqn:Ep.
  - apply gives_ret. split_and!; try done; [by exists boot|]. left. by eapply poll_gone.
  - eapply gives_bind; [apply stop_unit_post| |].
    + intros rung cmds H. apply gives_ret. rewrite app_nil_r.
      destruct rung as [rung|]; [by eapply (ladder_after_unit _ _ _ _ [AskShutdown])|]. cbn [default].
      pose proof (ladder_after_unit force timeout w _ [AskShutdown] cmds _ Hpre H) as (Hs & Ha & Hk & Hgone).
      split; [done|]. split; [done|]. split; [by left|]. split; [done|]. split; [by exists boot|]. by right.
    + intros e cmds H. by eapply (ladder_after_unit _ _ _ _ [AskShutdown]).
  - apply gives_fail. by split_and!.
Qed.

Lemma count_residue_fails lock paths n f : count_residue lock paths n = Err f -> failure_code f = Diagnostic.Unavailable.
Proof. revert n. induction paths as [|[p|] paths IH]; intros n; [done|apply IH|by intros [= <-]]. Qed.
Lemma confirm_teardown_fails r dir f : confirm_teardown r dir = Err f -> failure_code f = Diagnostic.Unavailable.
Proof.
  unfold confirm_teardown. destruct dir as [| |paths]; cbn; [by intros [= <-]..|].
  destruct (count_residue _ paths 0) as [n|g] eqn:E; cbn.
  - unfold guard_err. destruct (0 <? n); [by intros [= <-]|done].
  - intros [= <-]. by eapply count_residue_fails.
Qed.
Definition only_the_lock (r : Runtime) (paths : list (option bytes)) : Prop :=
  Forall (fun p => exists path, p = Some path /\ path_eqb path (lock_path r) = true) paths.
Lemma count_residue_spec lock paths n m :
  count_residue lock paths n = Ok m ->
  n <= m /\ (m = n <-> Forall (fun p => exists path, p = Some path /\ path_eqb path lock = true) paths).
Proof.
  revert n. induction paths as [|[p|] paths IH]; intros n; cbn [count_residue].
  - intros [= <-]. split; [lia|]. split; [intros _; by apply Forall_nil|done].
  - intros H. destruct (IH _ H) as [Hle Hiff]. rewrite Forall_cons. destruct (path_eqb p lock) eqn:E.
    + split; [lia|]. rewrite Hiff. split; [intros; split; [by exists p|done]|by intros [_ ?]].
    + split; [lia|]. split; [lia|]. intros [(q & [= <-] & Hq) _]. congruence.
  - done.
Qed.
Lemma confirm_teardown_spec r dir :
  confirm_teardown r dir = Ok tt <-> dir = D_NotFound \/ exists paths, dir = D_Entries paths /\ only_the_lock r paths.
Proof.
  unfold confirm_teardown. destruct dir as [| |paths]; cbn.
  - split; [by left|done].
  - split; [done|]. by intros [?|(? & ? & _)].
  - destruct (count_residue _ paths 0) as [n|g] eqn:E; cbn.
    + destruct (count_residue_spec _ _ _ _ E) as [Hle Hiff]. rewrite guard_err_ok. split.
      * intros H. right. exists paths. split; [done|]. apply Hiff. lia.
      * intros [?|(? & [= <-] & H)]; [done|]. apply Hiff in H. lia.
    + split; [done|]. intros [?|(? & [= <-] & H)]; [done|]. exfalso. clear -E H.
      revert E. generalize 0. induction H as [|p paths (path & -> & Hp) _ IH]; intros n; cbn; [done|]. apply IH.
Qed.

(** ** The properties *)

(** A stop climbs its ladder and reports the rung it stood on. For every stop, whatever the agent, the manager and
    the directory answer: the commands given are a subsequence of ask, stop job, kill, in that order and each at most
    once; the agent is asked only of a VM with a readable boot record of this version, and never under [--force] or
    [--timeout 0]; [agent] is reported only of an ask that was acknowledged and was not followed by a kill,
    [power-signal] only when the manager was told and nothing was killed, [hard-poweroff] only when the kill was given
    and a later look read the unit as gone; and every failure carries the unavailable code. *)
Theorem stop_ladder_contract (force : bool) (timeout : option Z) (r : Runtime) (w : ladder_world) (dir : dir_listing) (log : list effect) :
  exists cmds, snd (stop_one r force timeout w dir log) = log ++ cmds /\
  sublist cmds [AskShutdown; StopJob; KillGroup] /\
  (AskShutdown ∈ cmds -> force = false /\ timeout <> Some 0 /\ exists boot, l_record w = Ready boot) /\
  match fst (stop_one r force timeout w dir log) with
  | Ok (Some RungAgent) => AskShutdown ∈ cmds /\ KillGroup ∉ cmds /\ exists boot, l_record w = Ready boot /\ l_acknowledged w boot = true
  | Ok (Some PowerSignal) => StopJob ∈ cmds /\ KillGroup ∉ cmds /\ seen_gone (u_rounds (l_unit w))
  | Ok (Some HardPoweroff) => KillGroup ∈ cmds /\ looked_gone (u_looks (l_unit w))
  | Ok None => KillGroup ∉ cmds /\ already_gone (u_job (l_unit w))
  | Err (Failed f) => failure_code f = Diagnostic.Unavailable
  | Err Blocks => KillGroup ∉ cmds
  end.
Proof.
  unfold stop_one. destruct (stop_ladder_post force timeout w log) as (cmds & res & E & Hs & Ha & Hr).
  assert (Hask : AskShutdown ∈ cmds -> force = false /\ timeout <> Some 0 /\ exists boot, l_record w = Ready boot).
  { intros Hin. destruct (Ha Hin) as [Hg Hb]. unfold grace_seconds in Hg. destruct force; [done|]. split; [done|]. split; [|done]. by intros ->. }
  exists cmds. destruct res as [rung|e]; rewrite (sbind_run _ _ _ _ _ E) || rewrite (sbind_run_err _ _ _ _ _ E).
  - unfold of_result, sbind, slift. destruct (confirm_teardown r dir) as [u|f] eqn:Ec; cbn.
    + split_and!; [done..|]. destruct rung as [[]|]; tauto.
    + split_and!; [done..|]. by eapply confirm_teardown_fails.
  - cbn. split_and!; [done..|]. destruct e; done.
Qed.

(** A stop is reported done only after its post-condition was seen: when [stop_one] succeeds the runtime directory
    is gone or could be listed and held nothing but the startup lock, and with an unbounded wait aside the sweep's
    judgement is the same one. A directory that cannot be read is never taken for an empty one. *)
Theorem stop_confirms_teardown (force : bool) (timeout : option Z) (r : Runtime) (w : ladder_world) (dir : dir_listing) (log : list effect) (rung : option StopRung)
    (Hok : fst (stop_one r force timeout w dir log) = Ok rung) :
  fst (stop_ladder force timeout w log) = Ok rung /\
  (dir = D_NotFound \/ exists paths, dir = D_Entries paths /\ only_the_lock r paths).
Proof.
  unfold stop_one, of_result, sbind, slift in Hok.
  destruct (stop_ladder force timeout w log) as [[a|e] log']; [|done].
  destruct (confirm_teardown r dir) as [[]|f] eqn:E; cbn in Hok; [|done]. split; [done|]. by apply confirm_teardown_spec.
Qed.

(** A bounded stop ends. When the grace is bounded and each of the two polling loops meets a round whose look at
    the clock finds the deadline passed, the ladder returns: a rung, an absence or a failure, never an endless wait. *)
Theorem bounded_stop_ends (force : bool) (timeout : option Z) (w : ladder_world) (log : list effect)
    (Hgrace : grace_seconds force timeout <> None)
    (Hask : Exists (fun r => snd r = true) (l_rounds w))
    (Hunit : Exists (fun r => snd r = true) (u_rounds (l_unit w))) :
  fst (stop_ladder force timeout w log) <> Err Blocks.
Proof.
  assert (Hb : bool_decide (is_Some (grace_seconds force timeout)) = true).
  { apply bool_decide_eq_true. destruct (grace_seconds force timeout); [by eexists|done]. }
  assert (Hu : forall f t log, bounded_stop f t = true -> fst (stop_unit f t (l_unit w) log) <> Err Blocks).
  { intros f t lg Hb' E. destruct (stop_unit_post f t (l_unit w) lg) as (cmds & r & Er & Hp). rewrite Er in E. cbn in E. subst r.
    destruct Hp as (_ & _ & Hp). rewrite Hb' in Hp. by apply (poll_ends _ Hunit). }
  unfold stop_ladder. rewrite Hb. destruct (l_record w); try (by apply Hu).
  destruct (_ && _); [|by apply Hu]. unfold sbind at 1, emit. destruct (l_acknowledged w boot); [|by apply Hu].
  destruct (poll true (l_rounds w)) eqn:Ep; [done| |by apply poll_ends in Ep].
  unfold sbind. destruct (stop_unit false _ (l_unit w) _) as [[a|e] l'] eqn:Eu; cbn; [done|].
  intros [= ->]. apply (Hu false (Some POWER_SIGNAL_WINDOW_SECONDS) (log ++ [AskShutdown])); [done|by rewrite Eu].
Qed.

(** C0: [--timeout -1] never pulls the power. With a negative timeout and no [--force], no run of the ladder gives the
    kill, however long the guest takes; it ends only when the unit reads as gone, or on a refusal. *)
Theorem unbounded_stop_never_kills (timeout : Z) (w : ladder_world) (log : list effect) (Ht : timeout < 0) :
  exists cmds, snd (stop_ladder false (Some timeout) w log) = log ++ cmds /\ KillGroup ∉ cmds /\
  (fst (stop_ladder false (Some timeout) w log) = Ok (Some HardPoweroff) -> False).
Proof.
  assert (Hg : grace_seconds false (Some timeout) = None) by (cbn; by destruct (Z.ltb_spec timeout 0); [|lia]).
  assert (Hu : gives (stop_unit false (Some timeout) (l_unit w)) (fun cmds r => cmds = [StopJob] /\ r <> Ok (Some HardPoweroff))).
  { eapply gives_impl; [apply stop_unit_post|]. unfold bounded_stop. rewrite Hg. intros cmds [[[]|]|[f|]] H; cbn in H.
    - done.
    - by destruct H as (-> & _).
    - by destruct H as (_ & ? & _).
    - by destruct H as (-> & _).
    - destruct H as (_ & [-> |[_ ?]]); [by split|done].
    - by destruct H as (-> & _). }
  assert (Hl : gives (stop_ladder false (Some timeout) w) (fun cmds r => sublist cmds [AskShutdown; StopJob] /\ r <> Ok (Some HardPoweroff))).
  { assert (Hu' : gives (stop_unit false (Some timeout) (l_unit w)) (fun cmds r => sublist cmds [AskShutdown; StopJob] /\ r <> Ok (Some HardPoweroff))).
    { eapply gives_impl; [exact Hu|]. intros cmds r [-> Hr]. split; [sublist_tac|done]. }
    unfold stop_ladder. rewrite Hg. cbn [bool_decide]. destruct (l_record w) as [| | |boot]; try exact Hu'.
    destruct (_ && _); [|exact Hu']. apply gives_emit. destruct (l_acknowledged w boot).
    - destruct (poll _ (l_rounds w)) eqn:Ep.
      + apply gives_ret. split; [sublist_tac|done].
      + by apply poll_expired in Ep as [? _].
      + apply gives_fail. split; [sublist_tac|done].
    - eapply gives_impl; [exact Hu|]. intros cmds r [-> Hr]. split; [sublist_tac|done]. }
  destruct (Hl log) as (cmds & r & E & Hs & Hr). exists cmds. rewrite E. split; [done|]. split; [|by intros [= ->]].
  intros Hin. pose proof (elem_of_submseteq _ _ _ Hin (sublist_submseteq _ _ Hs)) as Hk.
  revert Hk. apply (bool_decide_unpack _). reflexivity.
Qed.

(** A manager that cannot be asked is read as a stopped unit. Once the stop job was accepted, a look at the unit
    that fails outright (the command cannot be run, or it fails and prints nothing) ends the wait, and the ladder
    reports [power-signal] without having learned anything; the presence judgment calls the same answer undecided. *)
Theorem stop_trusts_a_silent_manager (force : bool) (timeout : option Z) (w : unit_world) (a : show) (passed : bool) (rest : list round) (log : list effect)
    (Hjob : u_job w = Job_Accepted) (Hrounds : u_rounds w = (a, passed) :: rest)
    (Hsilent : a = NotRun \/ exists success, a = Ran success []) :
  stop_unit force timeout w log = (Ok (Some PowerSignal), log ++ [StopJob]) /\
  forall pid, pid <> Some false -> presence_of pid (unit_owns_a_vm a) = Indeterminate.
Proof.
  assert (Hg : gone a = true) by (destruct Hsilent as [->|[? ->]]; reflexivity).
  split.
  - unfold stop_unit, sbind, emit. rewrite Hjob, Hrounds. cbn [poll]. rewrite Hg. done.
  - intros pid Hp. assert (Hn : unit_owns_a_vm a = None) by (destruct Hsilent as [->|[[] ->]]; reflexivity).
    rewrite Hn. by destruct pid as [[]|].
Qed.

(** ** The sweep *)

Definition up (t : target_world) : bool := negb (resting (t_before t)).
Definition attempt (force : bool) (timeout : option Z) (t : target_world) : result (option StopRung) (stop Failure) :=
  fst (stop_one (t_runtime t) force timeout (t_ladder t) (t_dir t) []).
Definition row_of (force : bool) (timeout : option Z) (t : target_world) : option (bytes * State * option StopRung) :=
  match attempt force timeout t with Ok rung => Some (t_name t, t_after t, rung) | Err _ => None end.
Definition failure_of (force : bool) (timeout : option Z) (t : target_world) : option Failure :=
  match attempt force timeout t with Err (Failed f) => Some f | _ => None end.
Lemma stop_sweep_spec force timeout targets s s' :
  stop_sweep force timeout targets s = Some s' ->
  s_rows s' = s_rows s ++ omap (row_of force timeout) (List.filter up targets) /\
  s_first s' = match s_first s with Some f => Some f | None => head (omap (failure_of force timeout) (List.filter up targets)) end /\
  map fst (s_log s') = map fst (s_log s) ++ map t_name (List.filter up targets).
Proof.
  revert s. induction targets as [|t targets IH]; intros s; cbn [stop_sweep List.filter].
  - intros [= <-]. cbn. rewrite !app_nil_r. by destruct (s_first s).
  - assert (Hup : up t = negb (resting (t_before t))) by done. rewrite !Hup.
    destruct (resting (t_before t)) eqn:Er; cbn [negb]; [apply IH|].
    destruct (stop_one _ _ _ _ _ []) as [res log] eqn:E.
    assert (Hatt : attempt force timeout t = res) by (unfold attempt; by rewrite E).
    destruct res as [rung|[f|]]; [| |done]; intros H; apply IH in H as (H1 & H2 & H3); cbn in *;
      unfold row_of at 1, failure_of at 1; rewrite Hatt, H1, H2, H3, ?map_app, <- ?app_assoc; cbn; [done|].
    by destruct (s_first s).
Qed.

(** C0: [stop --all] tries every sandbox that is up. When the sweep ends, the targets it tried are exactly those the
    discriminator did not find at rest, in the order of the index, whatever failed before them; the verb's result is
    the first failure, and a success carries one row for each target tried. *)
Theorem stop_all_tries_every_target (force : bool) (timeout : option Z) (targets : list target_world) (s : sweep)
    (Hend : stop_sweep force timeout targets (mk_sweep [] None []) = Some s) :
  map fst (s_log s) = map t_name (List.filter up targets) /\
  stop_all force timeout targets =
    Some (match omap (failure_of force timeout) (List.filter up targets) with
          | f :: _ => Err f
          | [] => Ok (omap (row_of force timeout) (List.filter up targets))
          end) /\
  (s_first s = None -> length (s_rows s) = length (List.filter up targets)).
Proof.
  destruct (stop_sweep_spec _ _ _ _ _ Hend) as (Hrows & Hfirst & Hlog). cbn in Hrows, Hfirst, Hlog.
  split; [done|]. split.
  - unfold stop_all. rewrite Hend, Hfirst, Hrows. by destruct (omap (failure_of force timeout) _).
  - intros Hn. rewrite Hrows. rewrite Hn in Hfirst.
    assert (Hall : Forall (fun t => is_Some (row_of force timeout t)) (List.filter up targets)).
    { assert (Hblock : Forall (fun t => attempt force timeout t <> Err Blocks) (List.filter up targets)).
      { clear -Hend. revert Hend. generalize (mk_sweep [] None []). induction targets as [|t targets IH]; intros s0; cbn [stop_sweep List.filter]; [by intros _|].
        assert (Hup : up t = negb (resting (t_before t))) by done. rewrite !Hup.
        destruct (resting (t_before t)); cbn [negb]; [apply IH|].
        destruct (stop_one _ _ _ _ _ []) as [res log] eqn:E.
        assert (Ha : attempt force timeout t = res) by (unfold attempt; by rewrite E).
        destruct res as [rung|[f|]]; [| |done]; intros H; (apply Forall_cons; split; [by rewrite Ha|by eapply IH]). }
      clear -Hfirst Hblock. induction Hblock as [|t ts Ht Hts IH]; [by apply Forall_nil|]. cbn in Hfirst.
      unfold failure_of at 1 in Hfirst. unfold row_of. apply Forall_cons.
      destruct (attempt force timeout t) as [rung|[f|]]; [|done|done]. split; [by eexists|by apply IH]. }
    clear -Hall. induction Hall as [|t ts [row Hr] Hts IH]; [done|]. cbn. rewrite Hr. cbn. by rewrite IH.
Qed.

(* ------------------------------------------------------------------ *)
(** ** Witnesses *)

Definition calm : unit_world := mk_unit_world Job_Accepted [(Ran true (bs "deactivating"), false); (Ran true (bs "inactive"), true)] true [].
Definition boot_sample : BootMetadata := mk_BootMetadata 1 (bs "id") (bs "box") (bs "default") (bs "qemu") [].
Definition ladder_sample : ladder_world :=
  mk_ladder_world (Ready boot_sample) true (fun _ => true) [(Ran true (bs "active"), false); (Ran true (bs "active"), true)] calm.
Definition runtime_sample : Runtime := for_report (bs "/run/v") (bs "box") (bs "default").
Lemma stop_confirms_teardown_witness :
  fst (stop_one runtime_sample false None ladder_sample D_NotFound []) = Ok (Some PowerSignal) /\
  fst (stop_ladder false None ladder_sample []) = Ok (Some PowerSignal).
Proof. split; [reflexivity|]. by apply (stop_confirms_teardown false None runtime_sample ladder_sample D_NotFound [] (Some PowerSignal)). Defined.
Lemma bounded_stop_ends_witness : fst (stop_ladder false (Some 5) ladder_sample []) <> Err Blocks.
Proof.
  apply (bounded_stop_ends false (Some 5) ladder_sample []); [done|..]; apply Exists_cons_tl, Exists_cons_hd; done.
Defined.
Lemma unbounded_stop_never_kills_witness :
  exists cmds, snd (stop_ladder false (Some (-1)) ladder_sample []) = [] ++ cmds /\ KillGroup ∉ cmds.
Proof. destruct (unbounded_stop_never_kills (-1) ladder_sample [] ltac:(lia)) as (cmds & H1 & H2 & _). by exists cmds. Defined.
Lemma stop_trusts_a_silent_manager_witness :
  stop_unit true None (mk_unit_world Job_Accepted [(NotRun, true)] false []) [] = (Ok (Some PowerSignal), [StopJob]).
Proof. by apply (stop_trusts_a_silent_manager true None (mk_unit_world Job_Accepted [(NotRun, true)] false []) NotRun true [] []); [..|left]. Defined.
Definition sweep_targets : list target_world :=
  [mk_target_world (bs "a") runtime_sample Running (mk_ladder_world R_Absent true (fun _ => false) [] (mk_unit_world Job_NotRun [] false [])) D_NotFound Running;
   mk_target_world (bs "b") runtime_sample Built ladder_sample D_NotFound Built;
   mk_target_world (bs "c") runtime_sample StFailed ladder_sample D_NotFound Built].
Lemma stop_all_tries_every_target_witness :
  match stop_sweep false None sweep_targets (mk_sweep [] None []) with
  | Some s => map fst (s_log s) = [bs "a"; bs "c"]
  | None => False
  end.
Proof.
  destruct (stop_sweep false None sweep_targets (mk_sweep [] None [])) as [s|] eqn:E; [|vm_compute in E; discriminate E].
  destruct (stop_all_tries_every_target false None sweep_targets s E) as [H _]. rewrite H. reflexivity.
Defined.
