(* ===== verification/AgentSource.v ===== *)
(** * AgentSource: where a declared credential channel's host socket is (src/src/launch/agent_source.rs).

    The environment, [gpgconf], [symlink_metadata] and [canonicalize] are arguments. *)
From S2P Require Import Prelude Bytes Paths Message.

Inductive AgentSourceDefect :=
| AS_Unset (consulted : bytes)
| AS_Missing (path : bytes)
| AS_NotSocket (path : bytes)
| AS_NotOwned (path : bytes) (owner uid : Z).
Record ResolvedAgentSource := mk_ResolvedAgentSource { as_id : CredentialId; as_host_socket : bytes }.

(** What a program run to its end gave: its success and its standard output, or that it could not be run. *)
Inductive run_answer := CouldNotRun | Exited (success : bool) (stdout : bytes).
(** [symlink_metadata]: whether the object itself is a socket, and its owner. *)
Record lstat := mk_lstat { is_socket : bool; owner : Z }.

Section agent_source.
Context (lookup : bytes -> option bytes) (gpgconf : run_answer)
  (symlink_metadata : bytes -> option lstat) (canonicalize : list Component -> option bytes) (current_dir : option bytes).

Definition gpg_extra_socket : result bytes AgentSourceDefect :=
  let unset := AS_Unset (bs "gpgconf --list-dirs agent-extra-socket") in
  match gpgconf with
  | Exited true stdout => let path := trim stdout in if bool_decide (path = []) then Err unset else Ok path
  | _ => Err unset
  end.
Definition resolve_source (id : CredentialId) : result bytes AgentSourceDefect :=
  match id with
  | Ssh =>
      match lookup (bs "SSH_AUTH_SOCK") with
      | Some value => if bool_decide (value = []) then Err (AS_Unset (bs "$SSH_AUTH_SOCK")) else Ok value
      | None => Err (AS_Unset (bs "$SSH_AUTH_SOCK"))
      end
  | Gpg => gpg_extra_socket
  end.
Definition check_socket (path : bytes) (uid : Z) : result unit AgentSourceDefect :=
  let? metadata := ok_or (symlink_metadata path) (AS_Missing path) in
  let? _ := guard_err (negb (is_socket metadata)) (AS_NotSocket path) in
  guard_err (negb (owner metadata =? uid)) (AS_NotOwned path (owner metadata) uid).
Definition resolve_directory (joined : bytes) : result bytes AgentSourceDefect :=
  let? name := ok_or (file_name joined) (AS_NotSocket joined) in
  let parent := default [RootDir] (parent joined) in
  let? directory := ok_or (canonicalize parent) (AS_Missing joined) in
  Ok (join directory name).
Definition resolve_and_check (id : CredentialId) (uid : Z) : result ResolvedAgentSource AgentSourceDefect :=
  let? host_socket := resolve_source id in
  let? host_socket :=
    (if is_absolute host_socket then Ok host_socket
     else let? invoked_in := ok_or current_dir (AS_Missing host_socket) in Ok (join invoked_in host_socket)) in
  let? _ := check_socket host_socket uid in
  let? host_socket := resolve_directory host_socket in
  let? _ := check_socket host_socket uid in
  Ok (mk_ResolvedAgentSource id host_socket).

(** Whatever is resolved passed the check at both of its spellings. *)
Lemma resolve_and_check_ok id uid r :
  resolve_and_check id uid = Ok r -> as_id r = id /\ check_socket (as_host_socket r) uid = Ok tt.
Proof. unfold resolve_and_check. intros H. inv_ok. destruct x3. by split. Qed.
End agent_source.
