(* ===== verification/Volumes.v ===== *)
(** * What the last start knew about volumes, and the two verbs that read it
      ([src/src/config/volumes.rs], [src/src/cli/volume.rs])

    The record of a project's volumes with its text form, which volumes a current layer declares, the enumeration both
    verbs share, and pruning.  The TOML parser is an argument: a document's bytes to its root table. *)
From S2P Require Import Prelude Bytes Paths Ordered Diagnostic Lifecycle.

(** ** The record *)

Record DeclaredVolume := mk_DeclaredVolume {
  v_name : bytes; v_mount : bytes; v_declared_by : bytes; v_kind : bytes; v_size_gib : option Z }.
Record Composition := mk_Composition { image : bytes; pieces : list bytes; extends : option bytes }.
#[global] Instance Composition_eq_dec : EqDecision Composition.
Proof. solve_decision. Defined.
Record VolumeRecord := mk_VolumeRecord { composition : Composition; volumes : list DeclaredVolume }.
Definition default_record : VolumeRecord := mk_VolumeRecord (mk_Composition [] [] None) [].

(** The part of a manifest these readers look at. *)
Record ManifestVolume := mk_ManifestVolume { mv_name : bytes; mv_mount : bytes; mv_size_gib : option Z }.
Record Manifest := mk_Manifest { m_image : bytes; m_pieces : list bytes; m_extends : option bytes; m_volumes : list ManifestVolume }.
Definition composition_of (m : Manifest) : Composition := mk_Composition (m_image m) (m_pieces m) (m_extends m).

Definition live (r : VolumeRecord) (m : Manifest) : list bytes :=
  let fresh := set_extend (map mv_name (m_volumes m)) [] in
  if bool_decide (composition r = composition_of m)
  then set_extend (map v_name (List.filter (fun v => negb (bytes_eqb (v_kind v) (bs "manifest"))) (volumes r))) fresh
  else fresh.
Definition find_volume (r : VolumeRecord) (name : bytes) : option DeclaredVolume :=
  List.find (fun v => bytes_eqb (v_name v) name) (volumes r).

(** ** Its text *)

(** [toml]'s values; an integer keeps its digits and its radix. *)
Inductive DeValue :=
| TString (s : bytes)
| TInteger (digits : bytes) (radix : Z)
| TOther                       (* a float, a boolean, a date *)
| TArray (items : list DeValue)
| TTable (fields : list (bytes * DeValue)).
Definition table : Type := list (bytes * DeValue).
Definition get (t : table) (key : bytes) : option DeValue :=
  match List.find (fun f => bytes_eqb (fst f) key) t with Some f => Some (snd f) | None => None end.

(** [u32::from_str_radix]. *)
Definition radix_digit (b : byte) : Z :=
  if is_ascii_digit b then bz b - 48
  else if is_ascii_lowercase b then bz b - 87 else if is_ascii_uppercase b then bz b - 55 else 99.
Definition u32_from_str_radix (s : bytes) (radix : Z) : option Z :=
  let digits := match s with b :: s' => if bool_decide (b = "+"%byte) then s' else s | [] => s end in
  if (length digits =? 0)%nat || negb (forallb (fun b => radix_digit b <? radix) digits) then None
  else let v := fold_left (fun a b => a * radix + radix_digit b) digits 0 in
       if v <=? u32_max then Some v else None.

Inductive RecordError := SyntaxError | WrongType (key : bytes) | NotATable | MissingKey | ReadError.
Definition string_at (t : table) (key : string) : result (option bytes) RecordError :=
  match get t (bs key) with
  | None => Ok None
  | Some (TString text) => Ok (Some text)
  | Some _ => Err (WrongType (bs key))
  end.
Definition item_string (key : string) (v : DeValue) : result bytes RecordError :=
  match v with TString text => Ok text | _ => Err (WrongType (bs key)) end.
Definition strings_at (t : table) (key : string) : result (list bytes) RecordError :=
  match get t (bs key) with
  | None => Ok []
  | Some (TArray items) => collect_results (item_string key) items
  | Some _ => Err (WrongType (bs key))
  end.
Definition size_at (t : table) : result (option Z) RecordError :=
  match get t (bs "size_gib") with
  | None => Ok None
  | Some (TInteger digits radix) => let? n := ok_or (u32_from_str_radix digits radix) (WrongType (bs "size_gib")) in Ok (Some n)
  | Some _ => Err (WrongType (bs "size_gib"))
  end.
Definition parse_entry (v : DeValue) : result DeclaredVolume RecordError :=
  match v with
  | TTable t =>
      let? name := string_at t "name" in
      let? mount := string_at t "mount" in
      let? declared_by := string_at t "declared_by" in
      let? kind := string_at t "kind" in
      match name, mount, declared_by, kind with
      | Some name, Some mount, Some declared_by, Some kind =>
          let? size := size_at t in
          Ok (mk_DeclaredVolume name mount declared_by kind size)
      | _, _, _, _ => Err MissingKey
      end
  | _ => Err NotATable
  end.
Definition parse_root (root : table) : result VolumeRecord RecordError :=
  let? image := string_at root "image" in
  let? pieces := strings_at root "pieces" in
  let? extends := string_at root "extends" in
  let? volumes :=
    match get root (bs "volumes") with
    | Some (TArray entries) => collect_results parse_entry entries
    | _ => Ok []
    end in
  Ok (mk_VolumeRecord
        (mk_Composition (default [] image) pieces
           (match extends with Some e => if bool_decide (e = []) then None else Some e | None => None end))
        volumes).
Definition parse_record (toml : bytes -> option table) (source : bytes) : result VolumeRecord RecordError :=
  if bool_decide (trim source = []) then Ok default_record
  else let? root := ok_or (toml source) SyntaxError in parse_root root.
Definition read_record (toml : bytes -> option table) (f : file) : result VolumeRecord RecordError :=
  match f with
  | Missing => Ok default_record
  | Unreadable => Err ReadError
  | Content raw => if utf8_valid raw then parse_record toml raw else Err ReadError
  end.

Definition escape_byte (b : byte) : bytes :=
  if bool_decide (b = quote) then [backslash; quote]
  else if bool_decide (b = backslash) then [backslash; backslash]
  else if bool_decide (b = x0a) then [backslash; "n"%byte] else [b].
Definition escape (value : bytes) : bytes := quote :: concat (map escape_byte value) ++ [quote].
Definition assignment (key : string) (value : bytes) : bytes := bs key ++ bs " = " ++ value ++ newline.
Fixpoint render_pieces (first : bool) (l : list bytes) : bytes :=
  match l with
  | [] => []
  | piece :: l => (if first then [] else bs ",") ++ bs " " ++ escape piece ++ render_pieces false l
  end.
Definition render_volume (v : DeclaredVolume) : bytes :=
  newline ++ bs "[[volumes]]" ++ newline ++
  assignment "name" (escape (v_name v)) ++ assignment "mount" (escape (v_mount v)) ++
  assignment "declared_by" (escape (v_declared_by v)) ++ assignment "kind" (escape (v_kind v)) ++
  match v_size_gib v with Some size => assignment "size_gib" (dec size) | None => [] end.
Definition render_record (r : VolumeRecord) : bytes :=
  let c := composition r in
  assignment "image" (escape (image c)) ++
  bs "pieces = [" ++ render_pieces true (pieces c) ++ (if bool_decide (pieces c = []) then bs "]" else bs " ]") ++ newline ++
  match extends c with Some e => assignment "extends" (escape e) | None => [] end ++
  concat (map render_volume (volumes r)).

(** ** The rows *)

Definition DEFAULT_VOLUME : bytes := bs "default".
Definition STORE_VOLUME : bytes := bs "store".
Definition DEFAULT_VOLUME_MOUNT : bytes := bs "/home/vivarium".
Definition STORE_VOLUME_MOUNT : bytes := bs "/nix/.rw-store".
Definition IMAGE_SUFFIX : bytes := bs ".img".

Inductive Origin := Undeclared | Declared (layer : option bytes) | Orphan.
Record Row := mk_Row {
  r_name : bytes; r_mount : option bytes; r_origin : Origin; r_image : option bytes; r_allocated : Z; r_virtual : option Z }.
Definition is_orphan (r : Row) : bool := match r_origin r with Orphan => true | _ => false end.
Definition declared_by (r : Row) : option bytes := match r_origin r with Declared layer => layer | _ => None end.
Definition gib_to_bytes (gib : Z) : Z := gib * 1024 * 1024 * 1024.

Inductive io_kind := NotFoundKind | PermissionDenied | OtherKind.
Definition channel_code (k : io_kind) : ExitKind := match k with PermissionDenied => NoPerm | _ => IoErr end.
Definition stat_failure (k : io_kind) : Failure := diagnosed N_State "volume-unreadable" (channel_code k).
Definition read_failure (k : io_kind) : Failure := diagnosed N_State "volume-directory-unreadable" (channel_code k).
Definition removal_failure (k : io_kind) : Failure := diagnosed N_State "volume-removal" (channel_code k).

(** [read_dir] of the volume directory: its entries with whether each is a regular file, or an entry that fails. *)
Definition is_image (path : bytes) : bool :=
  match file_name path with
  | Some leaf => match strip_suffix IMAGE_SUFFIX leaf with Some stem => negb (bool_decide (stem = [])) | None => false end
  | None => false
  end.
Definition entry_of (e : result (bytes * bool) io_kind) : result (bytes * bool) Failure := map_err read_failure e.
Definition images_in (dir : result (list (result (bytes * bool) io_kind)) io_kind) : result (list bytes) Failure :=
  match dir with
  | Err NotFoundKind => Ok []
  | Err k => Err (read_failure k)
  | Ok entries =>
      let? entries := collect_results entry_of entries in
      Ok (sort_bytes (map fst (List.filter (fun e => is_image (fst e) && snd e) entries)))
  end.

Definition reserved_row (name mount : bytes) : Row := mk_Row name (Some mount) Undeclared None 0 None.
Definition or_else {A} (a b : option A) : option A := match a with Some _ => a | None => b end.
Definition declared_row (record : VolumeRecord) (m : Manifest) (manifest_layer name : bytes) : Row :=
  let declaration := find_volume record name in
  let leaf := List.find (fun v => bytes_eqb (mv_name v) name) (m_volumes m) in
  mk_Row name
    (or_else (option_map v_mount declaration) (option_map mv_mount leaf))
    (Declared (or_else (option_map v_declared_by declaration) (option_map (fun _ => manifest_layer) leaf)))
    None 0
    (option_map gib_to_bytes (or_else (let* v := declaration in v_size_gib v) (let* v := leaf in mv_size_gib v))).
Definition declared_step (record : VolumeRecord) (m : Manifest) (manifest_layer : bytes) (rows : list Row) (name : bytes) : list Row :=
  if existsb (fun r => bytes_eqb (r_name r) name) rows then rows else rows ++ [declared_row record m manifest_layer name].
(** [rows.iter_mut().find(..)]: the first row of that name is filled in. *)
Fixpoint fill (rows : list Row) (name image : bytes) (allocated virtual : Z) : option (list Row) :=
  match rows with
  | [] => None
  | r :: rows =>
      if bytes_eqb (r_name r) name
      then Some (mk_Row (r_name r) (r_mount r) (r_origin r) (Some image) allocated (Some virtual) :: rows)
      else match fill rows name image allocated virtual with Some rows => Some (r :: rows) | None => None end
  end.
Definition image_name (image : bytes) : option bytes :=
  let* leaf := file_name image in let* leaf := to_str leaf in strip_suffix IMAGE_SUFFIX leaf.
(** [stat] of an image: its 512-byte blocks and its length. *)
Definition stats : Type := bytes -> result (Z * Z) io_kind.
Definition image_step (record : VolumeRecord) (stat : stats) (rows : list Row) (image : bytes)
    : result (list Row) Failure :=
  match image_name image with
  | None => Ok rows
  | Some name =>
      let? (blocks, len) := map_err stat_failure (stat image) in
      match fill rows name image (blocks * 512) len with
      | Some rows => Ok rows
      | None => Ok (rows ++ [mk_Row name (option_map v_mount (find_volume record name)) Orphan (Some image) (blocks * 512) (Some len)])
      end
  end.
Definition volume_dir : Type := result (list (result (bytes * bool) io_kind)) io_kind.
Definition enumerate (dir : volume_dir) (stat : stats) (record : VolumeRecord) (m : Manifest) (manifest_layer : bytes)
    : result (list Row) Failure :=
  let rows := [reserved_row DEFAULT_VOLUME DEFAULT_VOLUME_MOUNT; reserved_row STORE_VOLUME STORE_VOLUME_MOUNT] in
  let rows := fold_left (declared_step record m manifest_layer) (live record m) rows in
  let? images := images_in dir in
  fold_err (image_step record stat) images rows.

Definition total_step (stat : stats) (acc : Z * Z) (image : bytes) : result (Z * Z) Failure :=
  let? (blocks, len) := map_err stat_failure (stat image) in Ok (fst acc + blocks * 512, snd acc + len).
Definition disk_totals (dir : volume_dir) (stat : stats) : result (Z * Z) Failure :=
  let? images := images_in dir in fold_err (total_step stat) images (0, 0).

(** ** [volume prune] *)

(** What one run meets: the survey it starts with, the lock, the state read under it, the answer to its question, and
    each removal. *)
Record prune_world := mk_prune_world {
  p_survey : result (list Row) Failure;
  p_lock : result unit Failure;
  p_state : State;
  p_confirmed : result bool Failure;
  p_remove : bytes -> result unit io_kind }.
Record pruned := mk_pruned { p_rows : list Row; p_reclaimed : Z }.
(** The removals, in order; the state is the images removed so far. *)
Fixpoint remove_images (remove : bytes -> result unit io_kind) (rows : list Row) (reclaimed : Z) : sem (list bytes) Failure Z :=
  match rows with
  | [] => sret reclaimed
  | row :: rows =>
      match r_image row with
      | None => remove_images remove rows reclaimed
      | Some image => fun removed =>
          match remove image with
          | Err k => (Err (removal_failure k), removed)
          | Ok _ => remove_images remove rows (reclaimed + r_allocated row) (removed ++ [image])
          end
      end
  end.
Definition prune (dry_run yes : bool) (w : prune_world) : sem (list bytes) Failure pruned :=
  let! rows := slift (p_survey w) in
  let! _ := slift (p_lock w) in
  if negb (resting (p_state w)) then sfail (diagnosed N_Vm "volume-in-use" TempFail)
  else
    let candidates := List.filter is_orphan rows in
    if bool_decide (length candidates = 0%nat) || dry_run then
      sret (mk_pruned candidates (if dry_run then fold_left Z.add (map r_allocated candidates) 0 else 0))
    else
      let! confirmed := (if yes then sret true else slift (p_confirmed w)) in
      if negb confirmed then sret (mk_pruned [] 0)
      else let! reclaimed := remove_images (p_remove w) candidates 0 in sret (mk_pruned candidates reclaimed).

(** ** [volume trim] *)

Record TrimRow := mk_TrimRow { tr_name : bytes; before : Z; after : Z }.
Definition unknown_volume : Failure := diagnosed N_State "volume-unknown" Config.
Definition orphan_volume : Failure := diagnosed N_State "volume-orphaned" Config.
Definition select_rows (rows : list Row) (name : option bytes) : result (list Row) Failure :=
  match name with
  | Some name =>
      match List.find (fun r => bytes_eqb (r_name r) name) rows with
      | None => Err unknown_volume
      | Some row => if is_orphan row then Err orphan_volume else Ok [row]
      end
  | None => Ok (List.filter (fun r => negb (is_orphan r)) rows)
  end.
Definition allocated_now (stat : stats) (row : Row) : result Z Failure :=
  match r_image row with
  | None => Ok 0
  | Some image => let? (blocks, _) := map_err stat_failure (stat image) in Ok (blocks * 512)
  end.
(** The lock and the running guest are one admission; the request to the guest goes out with its mountpoints, and the
    second reading is taken behind it. *)
Definition measure (stat : stats) (row : Row) : result Z Failure := allocated_now stat row.
Definition after_row (stat : stats) (rb : Row * Z) : result TrimRow Failure :=
  let? a := allocated_now stat (fst rb) in Ok (mk_TrimRow (r_name (fst rb)) (snd rb) a).
Definition trim_rows (rows : list Row) (name : option bytes) (admitted : result unit Failure)
    (stat_before stat_after : stats) (request : list bytes -> result unit Failure)
    : result (list TrimRow) Failure :=
  let? selected := select_rows rows name in
  if forallb (fun r => negb (bool_decide (is_Some (r_image r)))) rows then Ok []
  else
    let? _ := admitted in
    let? befores := collect_results (measure stat_before) selected in
    let mountpoints := omap (fun r => if bool_decide (is_Some (r_image r)) then r_mount r else None) selected in
    let? _ := (if bool_decide (length mountpoints = 0%nat) then Ok tt else request mountpoints) in
    collect_results (after_row stat_after) (zip selected befores).
Definition reclaimed (t : TrimRow) : Z := Z.max 0 (before t - after t).

(** * Volumes: only what no layer declares is removed, and the record reads back. *)

#[local] Arguments bs : simpl never.
#[local] Arguments dec : simpl never.

(* ------------------------------------------------------------------ *)
(** ** The rows *)

Definition names (rows : list Row) : list bytes := map r_name rows.
Definition reserved (n : bytes) : Prop := n = DEFAULT_VOLUME \/ n = STORE_VOLUME.

Lemma existsb_name n rows : existsb (fun r => bytes_eqb (r_name r) n) rows = true <-> n ∈ names rows.
Proof.
  unfold names. rewrite existsb_exists. split.
  - intros (r & Hr & E%bytes_eqb_true). subst. apply list_elem_of_fmap. exists r. split; [done|]. by apply list_elem_of_In.
  - intros (r & -> & Hr)%list_elem_of_fmap. exists r. split; [by apply list_elem_of_In|]. by apply bytes_eqb_true.
Qed.

(** A row is right for the record and the manifest: what it says of its own origin is so. *)
Definition row_ok (L : list bytes) (r : Row) : Prop :=
  match r_origin r with
  | Undeclared => reserved (r_name r)
  | Declared _ => r_name r ∈ L
  | Orphan => r_name r ∉ L /\ ~ reserved (r_name r) /\ exists image, r_image r = Some image /\ image_name image = Some (r_name r)
  end.
Record rows_ok (L : list bytes) (rows : list Row) : Prop := {
  ok_nodup : NoDup (names rows);
  ok_reserved : DEFAULT_VOLUME ∈ names rows /\ STORE_VOLUME ∈ names rows;
  ok_rows : Forall (row_ok L) rows;
  ok_images : Forall (fun r => forall image, r_image r = Some image -> image_name image = Some (r_name r)) rows }.

Section enumerate.
Context (record : VolumeRecord) (m : Manifest) (layer : bytes) (stat : stats).
Let L : list bytes := live record m.

Lemma declared_step_names rows n : names (declared_step record m layer rows n) = if bool_decide (n ∈ names rows) then names rows else names rows ++ [n].
Proof.
  unfold declared_step. destruct (existsb _ rows) eqn:E.
  - apply existsb_name in E. by rewrite bool_decide_true.
  - rewrite bool_decide_false; [by unfold names; rewrite map_app|]. intros H%existsb_name. congruence.
Qed.
Lemma declared_step_ok rows n : n ∈ L -> rows_ok L rows -> rows_ok L (declared_step record m layer rows n).
Proof.
  intros Hn [H1 H2 H3 H4]. split; rewrite ?declared_step_names; try (case_bool_decide; [done|]).
  - by apply NoDup_snoc_fresh.
  - rewrite !elem_of_app. naive_solver.
  - unfold declared_step. destruct (existsb _ rows); [done|]. apply Forall_app; split; [done|]. by apply Forall_singleton.
  - unfold declared_step. destruct (existsb _ rows); [done|]. apply Forall_app; split; [done|]. by apply Forall_singleton.
Qed.
Lemma declared_steps ns rows :
  (forall n, n ∈ ns -> n ∈ L) -> rows_ok L rows ->
  rows_ok L (fold_left (declared_step record m layer) ns rows) /\
  (forall n, n ∈ names (fold_left (declared_step record m layer) ns rows) <-> n ∈ ns \/ n ∈ names rows).
Proof.
  revert rows. induction ns as [|n ns IH]; intros rows Hns H; cbn [fold_left]; [split; [done|]; set_solver|].
  destruct (IH (declared_step record m layer rows n)) as [I1 I2]; [set_solver|apply declared_step_ok; [set_solver|done]|].
  split; [done|]. intros k. rewrite I2, declared_step_names. case_bool_decide; set_solver.
Qed.

Lemma fill_Some rows n image a v rows' :
  fill rows n image a v = Some rows' ->
  names rows' = names rows /\ n ∈ names rows /\
  forall P : Row -> Prop, Forall P rows -> (forall r, P r -> r_name r = n -> P (mk_Row (r_name r) (r_mount r) (r_origin r) (Some image) a (Some v))) -> Forall P rows'.
Proof.
  revert rows'. induction rows as [|r rows IH]; intros rows' H; simpl in H; [done|].
  destruct (bytes_eqb (r_name r) n) eqn:E.
  - injection H as <-. apply bytes_eqb_true in E. split_and!; [done|cbn; rewrite E; by left|]. intros P [Hr HP]%Forall_cons Hf. constructor; auto.
  - destruct (fill rows n image a v) as [rows1|] eqn:E2; [|done]. injection H as <-. destruct (IH _ eq_refl) as (I1 & I2 & I3).
    split_and!; [by unfold names in *; cbn [map]; rewrite I1|by right|]. intros P [Hr HP]%Forall_cons Hf. constructor; auto.
Qed.
Lemma fill_None rows n image a v : fill rows n image a v = None <-> n ∉ names rows.
Proof.
  induction rows as [|r rows IH]; simpl; [split; [intros _; apply not_elem_of_nil|done]|].
  rewrite not_elem_of_cons, <- IH. destruct (bytes_eqb (r_name r) n) eqn:E.
  - apply bytes_eqb_true in E. split; [done|]. naive_solver.
  - destruct (fill rows n image a v); [naive_solver|]. split; [|done]. split; [|done]. intros ->.
    rewrite (proj2 (bytes_eqb_true _ _) eq_refl) in E. done.
Qed.

Lemma image_step_ok rows image rows' :
  (forall n, n ∈ L -> n ∈ names rows) -> rows_ok L rows -> image_step record stat rows image = Ok rows' ->
  rows_ok L rows' /\ (forall n, n ∈ L -> n ∈ names rows').
Proof.
  intros HL [H1 [H2 H2'] H3 H4] H. unfold image_step in H. destruct (image_name image) as [n|] eqn:En; [|inv_ok; by repeat split].
  inv_ok. destruct x as [blocks len]. destruct (fill rows n image (blocks * 512) len) as [rows1|] eqn:E; inv_ok.
  - destruct (fill_Some _ _ _ _ _ _ E) as (F1 & F2 & F3). split; [|by rewrite F1]. split; rewrite ?F1; [done|done| |].
    + apply F3; [done|]. intros r Hr <-. unfold row_ok in *. destruct (r_origin r); try done. destruct Hr as (? & ? & _).
      split_and!; try done. by exists image.
    + apply F3; [done|]. intros r _ <- image' [= <-]. done.
  - apply fill_None in E. unfold names in *. split.
    + split; unfold names; rewrite ?map_app; cbn [map r_name].
      * by apply NoDup_snoc_fresh.
      * split; apply elem_of_app; by left.
      * apply Forall_app; split; [done|]. apply Forall_singleton. unfold row_ok. cbn. split_and!.
        -- intros Hn. by apply E, HL.
        -- intros [-> | ->]; done.
        -- by exists image.
      * apply Forall_app; split; [done|]. apply Forall_singleton. cbn. by intros image' [= <-].
    + intros k Hk. unfold names. rewrite map_app. apply elem_of_app. left. by apply HL.
Qed.

Lemma image_steps_ok images rows rows' :
  (forall n, n ∈ L -> n ∈ names rows) -> rows_ok L rows -> fold_err (image_step record stat) images rows = Ok rows' ->
  rows_ok L rows' /\ (forall n, n ∈ L -> n ∈ names rows').
Proof.
  revert rows. induction images as [|i images IH]; intros rows HL Hr H; cbn [fold_err] in H; [by inv_ok|].
  inv_ok. destruct (image_step_ok _ _ _ HL Hr ltac:(eassumption)). by eapply IH.
Qed.

(** The enumeration [list] and [prune] share: every volume once, the reserved pair and everything a current layer
    declares among them; a row is an orphan only if its name is neither reserved nor declared, and then it has an
    image of that name. *)
Theorem enumerate_classifies dir rows :
  enumerate dir stat record m layer = Ok rows -> rows_ok L rows /\ (forall n, n ∈ L -> n ∈ names rows).
Proof.
  unfold enumerate. intros H. inv_ok. destruct (declared_steps L [reserved_row DEFAULT_VOLUME DEFAULT_VOLUME_MOUNT; reserved_row STORE_VOLUME STORE_VOLUME_MOUNT]) as [D1 D2].
  - done.
  - split.
    + apply NoDup_cons. split; [|apply NoDup_singleton]. intros E%list_elem_of_singleton. discriminate E.
    + split; [by left|right; by left].
    + apply Forall_cons_2; [by left|]. apply Forall_singleton. by right.
    + by apply Forall_cons_2; [|apply Forall_singleton].
  - eapply image_steps_ok; [|exact D1|done]. intros n Hn. apply D2. by left.
Qed.
End enumerate.

Lemma enumerate_classifies_witness :
  rows_ok (live default_record (mk_Manifest [] [] None []))
    [reserved_row DEFAULT_VOLUME DEFAULT_VOLUME_MOUNT; reserved_row STORE_VOLUME STORE_VOLUME_MOUNT;
     mk_Row (bs "old") None Orphan (Some (bs "/v/old.img")) 1024 (Some 4096)].
Proof.
  apply (enumerate_classifies default_record (mk_Manifest [] [] None []) (bs "m") (fun _ => Ok (2, 4096))
           (Ok [Ok (bs "/v/old.img", true); Ok (bs "/v/note.txt", true)])). vm_compute. reflexivity.
Defined.

(* ------------------------------------------------------------------ *)
(** ** Pruning *)

Lemma remove_images_removed remove rows n done_ r done' :
  remove_images remove rows n done_ = (r, done') ->
  exists more, done' = done_ ++ more /\ Forall (fun i => exists row, row ∈ rows /\ r_image row = Some i) more.
Proof.
  revert n done_. induction rows as [|row rows IH]; intros n done_ H; cbn [remove_images] in H.
  { injection H as <- <-. exists []. split; [by rewrite app_nil_r|constructor]. }
  assert (Hmore : forall more, Forall (fun i => exists row, row ∈ rows /\ r_image row = Some i) more ->
            Forall (fun i => exists row', row' ∈ row :: rows /\ r_image row' = Some i) more).
  { intros more Hm. eapply Forall_impl; [exact Hm|]. intros i (row' & ? & ?). exists row'. split; [by right|done]. }
  destruct (r_image row) as [i|] eqn:Ei.
  - destruct (remove i) as [u|k].
    + destruct (IH _ _ H) as (more & -> & Hm). exists (i :: more). rewrite <- app_assoc. split; [done|].
      constructor; [exists row; split; [by left|done]|by apply Hmore].
    + injection H as <- <-. exists []. split; [by rewrite app_nil_r|constructor].
  - destruct (IH _ _ H) as (more & -> & Hm). exists more. split; [done|by apply Hmore].
Qed.



(** *** Two ways the record can mislead the prune *)

(** A record whose [volumes] key holds anything but an array reads as one that remembers no volume at all, with its
    composition intact: the wrong type is not refused, although every other key of the file refuses it. *)
Theorem volumes_of_wrong_type_read_as_none root v :
  get root (bs "volumes") = Some v -> (forall l, v <> TArray l) ->
  forall r, parse_root root = Ok r -> volumes r = [].
Proof.
  intros Hv Hl r H. unfold parse_root in H. inv_ok. rewrite Hv in *. cbn. destruct v; inv_ok; try done. by destruct (Hl items).
Qed.

(** A piece's volume [cache] with an image on disk, a record written for the manifest as it stands, and the record
    damaged in the one key. *)
Definition piece_manifest : Manifest := mk_Manifest (bs "base") [bs "rust"] None [].
Definition record_root (v : DeValue) : table :=
  [(bs "image", TString (bs "base")); (bs "pieces", TArray [TString (bs "rust")]); (bs "volumes", v)].
Definition cache_entry : DeValue :=
  TTable [(bs "name", TString (bs "cache")); (bs "mount", TString (bs "/cache")); (bs "declared_by", TString (bs "rust"));
          (bs "kind", TString (bs "piece"))].
Definition prune_under (root : table) : result pruned Failure * list bytes :=
  match parse_root root with
  | Err _ => (Err (diagnosed N_State "malformed" Config), [])
  | Ok record =>
      prune false true
        (mk_prune_world (enumerate (Ok [Ok (bs "/v/cache.img", true)]) (fun _ => Ok (8, 4096)) record piece_manifest (bs "m"))
           (Ok tt) Built (Ok false) (fun _ => Ok tt)) []
  end.
Theorem wrong_type_prunes_a_declared_volume :
  snd (prune_under (record_root (TArray [cache_entry]))) = [] /\
  snd (prune_under (record_root cache_entry)) = [bs "/v/cache.img"].
Proof. split; vm_compute; reflexivity. Qed.

(** The survey is taken before the lock.  Whatever became declared in between, by a start that ran and stopped, is
    removed all the same: the lock and the state read under it say nothing about the rows. *)
Theorem survey_before_the_lock old_record new_record :
  old_record = default_record ->
  new_record = mk_VolumeRecord (composition_of piece_manifest)
                 [mk_DeclaredVolume (bs "cache") (bs "/cache") (bs "rust") (bs "piece") None] ->
  let dir := Ok [Ok (bs "/v/cache.img", true)] in
  let stat _ := Ok (8, 4096) in
  snd (prune false true (mk_prune_world (enumerate dir stat old_record piece_manifest (bs "m")) (Ok tt) Built (Ok false)
         (fun _ => Ok tt)) []) = [bs "/v/cache.img"] /\
  snd (prune false true (mk_prune_world (enumerate dir stat new_record piece_manifest (bs "m")) (Ok tt) Built (Ok false)
         (fun _ => Ok tt)) []) = [].
Proof. intros -> ->. split; vm_compute; reflexivity. Qed.
Lemma survey_before_the_lock_witness :
  snd (prune false true (mk_prune_world (enumerate (Ok [Ok (bs "/v/cache.img", true)]) (fun _ => Ok (8, 4096)) default_record
         piece_manifest (bs "m")) (Ok tt) Built (Ok false) (fun _ => Ok tt)) []) = [bs "/v/cache.img"].
Proof. exact (proj1 (survey_before_the_lock default_record _ eq_refl eq_refl)). Defined.

(* ------------------------------------------------------------------ *)
(** ** Trimming *)

(** The guest is asked to trim exactly the mountpoints of the selected volumes that have an image, and never an
    orphan's; nothing is asked before the lock and the running guest are there. *)
Theorem trim_asks_for_attached_volumes rows name admitted sb sa request out :
  trim_rows rows name admitted sb sa request = Ok out ->
  out = [] \/
  (admitted = Ok tt /\
   exists selected, select_rows rows name = Ok selected /\ Forall (fun r => r ∈ rows /\ is_orphan r = false) selected /\
     map tr_name out = map r_name selected /\
     let asked := omap (fun r => if bool_decide (is_Some (r_image r)) then r_mount r else None) selected in
     asked = [] \/ request asked = Ok tt).
Proof.
  unfold trim_rows. intros H. inv_ok. destruct (forallb _ rows); [inv_ok; by left|]. right. inv_ok.
  match goal with H : admitted = Ok ?u |- _ => destruct u end.
  split; [done|]. exists x. split; [done|]. split_and!.
  - destruct name as [n|]; cbn [select_rows] in *.
    + destruct (List.find _ rows) as [row|] eqn:Ef; [|done]. destruct (is_orphan row) eqn:Eo; [done|]. simplify_eq.
      apply Forall_singleton. split; [|done]. apply find_some in Ef as [Hf _]. by apply list_elem_of_In.
    + simplify_eq. apply Forall_forall. intros r Hr%list_elem_of_In. apply filter_In in Hr as [Hr Ho].
      split; [by apply list_elem_of_In|by apply negb_true_iff].
  - match goal with H : collect_results _ _ = Ok x1 |- _ => apply collect_results_ok in H; rename H into Hb end.
    apply collect_results_ok in H. clear - H Hb. revert out H. induction Hb as [|r b rs bs0 _ _ IH]; intros out H.
    + by inversion H.
    + cbn [zip_with zip] in H. inversion H as [|? o ? os Ho Hos]; subst. cbn [map]. f_equal; [|by apply IH].
      unfold after_row in Ho. inv_ok. done.
  - cbn zeta. destruct (bool_decide _) eqn:Eb.
    + left. apply bool_decide_eq_true in Eb. by apply length_zero_iff_nil.
    + right. match goal with H : request _ = Ok ?u |- _ => by destruct u end.
Qed.
Lemma trim_asks_for_attached_volumes_witness :
  forall out, trim_rows [mk_Row (bs "cache") (Some (bs "/cache")) (Declared None) (Some (bs "/v/cache.img")) 0 None] None (Ok tt)
    (fun _ => Ok (8, 0)) (fun _ => Ok (2, 0)) (fun l => if bool_decide (l = [bs "/cache"]) then Ok tt else Err unknown_volume) = Ok out ->
  map reclaimed out = [3072].
Proof.
  intros out H. destruct (trim_asks_for_attached_volumes _ _ _ _ _ _ _ H) as [->|_]; vm_compute in H; by injection H as <-.
Defined.
