(* ===== verification/VolumesText.v ===== *)
(** * VolumesText: the volume record reads back as it was written.

    [read_toml] reads the fragment of TOML the renderer writes (bare keys, basic strings, arrays of them, decimal
    integers, one array of tables); the parser in use is any function that agrees with it where it succeeds. *)
From S2P Require Import Prelude Bytes Diagnostic Lifecycle Volumes.

#[local] Arguments bs : simpl never.
#[local] Arguments dec : simpl never.

(** ** The fragment *)

(** What may stand unescaped in a basic string: no control character but the tab. *)
Definition basic_char (b : byte) : bool :=
  negb (bool_decide (b = quote)) && negb (bool_decide (b = backslash)) && ((32 <=? bz b) || bool_decide (b = x09)) &&
  negb (bool_decide (b = x7f)).
Fixpoint read_basic (fuel : nat) (s : bytes) : option (bytes * bytes) :=
  match fuel, s with
  | S fuel, b :: s =>
      if bool_decide (b = quote) then Some ([], s)
      else if bool_decide (b = backslash) then
        match s with
        | c :: s =>
            let* c := (if bool_decide (c = quote) then Some quote else if bool_decide (c = backslash) then Some backslash
                       else if bool_decide (c = "n"%byte) then Some x0a else None) in
            let* (v, s) := read_basic fuel s in Some (c :: v, s)
        | [] => None
        end
      else if basic_char b then let* (v, s) := read_basic fuel s in Some (b :: v, s) else None
  | _, _ => None
  end.
Definition read_string (s : bytes) : option (bytes * bytes) :=
  let* s := strip_prefix [quote] s in read_basic (S (length s)) s.
(** The rest of an array behind an element, or behind its opening bracket. *)
Fixpoint read_items (fuel : nat) (s : bytes) : option (list DeValue) :=
  match fuel with
  | O => None
  | S fuel =>
      if bytes_eqb s (bs " ]") then Some []
      else
        let* s := strip_prefix (bs ", ") s in
        let* (v, s) := read_string s in
        let* vs := read_items fuel s in Some (TString v :: vs)
  end.
Definition read_array (s : bytes) : option DeValue :=
  if bytes_eqb s (bs "]") then Some (TArray [])
  else
    let* s := strip_prefix (bs " ") s in
    let* (v, s) := read_string s in
    let* vs := read_items (S (length s)) s in Some (TArray (TString v :: vs)).
Definition read_value (s : bytes) : option DeValue :=
  match read_string s with
  | Some (v, []) => Some (TString v)
  | Some _ => None
  | None =>
      match strip_prefix (bs "[") s with
      | Some s => read_array s
      | None => if forallb is_ascii_digit s && negb (bool_decide (s = [])) then Some (TInteger s 10) else None
      end
  end.
Definition key_byte (b : byte) : bool := is_ascii_alphanumeric b || bool_decide (b = "_"%byte) || bool_decide (b = "-"%byte).
Fixpoint read_key (s : bytes) : bytes * bytes :=
  match s with
  | b :: s' => if key_byte b then let '(k, r) := read_key s' in (b :: k, r) else ([], s)
  | [] => ([], [])
  end.
Definition read_assignment (s : bytes) : option (bytes * DeValue) :=
  let '(k, s) := read_key s in
  if bool_decide (k = []) then None
  else let* s := strip_prefix (bs " = ") s in let* v := read_value s in Some (k, v).

Definition add_field (t : table) (f : bytes * DeValue) : option table :=
  match get t (fst f) with Some _ => None | None => Some (t ++ [f]) end.
Fixpoint read_fields (lines : list bytes) (t : table) : option (table * list bytes) :=
  match lines with
  | [] => Some (t, [])
  | l :: rest =>
      if bytes_eqb l (bs "[[volumes]]") then Some (t, lines)
      else if bool_decide (l = []) then read_fields rest t
      else let* f := read_assignment l in let* t := add_field t f in read_fields rest t
  end.
Fixpoint read_tables (fuel : nat) (lines : list bytes) : option (list DeValue) :=
  match fuel, lines with
  | _, [] => Some []
  | S fuel, _ :: rest =>
      let* (t, rest) := read_fields rest [] in
      let* ts := read_tables fuel rest in Some (TTable t :: ts)
  | O, _ => None
  end.
Definition read_toml (source : bytes) : option table :=
  let* (root, rest) := read_fields (lines source) [] in
  match rest with
  | [] => Some root
  | _ => let* ts := read_tables (length rest) rest in add_field root (bs "volumes", TArray ts)
  end.

(** ** The lines of a rendered record *)

Definition assignment_line (key : string) (value : bytes) : bytes := bs key ++ bs " = " ++ value.
Definition pieces_value (l : list bytes) : bytes := bs "[" ++ render_pieces true l ++ (if bool_decide (l = []) then bs "]" else bs " ]").
Definition volume_lines (v : DeclaredVolume) : list bytes :=
  [assignment_line "name" (escape (v_name v)); assignment_line "mount" (escape (v_mount v));
   assignment_line "declared_by" (escape (v_declared_by v)); assignment_line "kind" (escape (v_kind v))] ++
  match v_size_gib v with Some size => [assignment_line "size_gib" (dec size)] | None => [] end.
Definition record_lines (r : VolumeRecord) : list bytes :=
  let c := composition r in
  [assignment_line "image" (escape (image c)); assignment_line "pieces" (pieces_value (pieces c))] ++
  match extends c with Some e => [assignment_line "extends" (escape e)] | None => [] end ++
  concat (map (fun v => [] :: bs "[[volumes]]" :: volume_lines v) (volumes r)).
Definition unlines (ls : list bytes) : bytes := concat (map (fun l => l ++ newline) ls).

Lemma unlines_app a b : unlines (a ++ b) = unlines a ++ unlines b.
Proof. unfold unlines. by rewrite map_app, concat_app. Qed.
Lemma assignment_unlines key v : assignment key v = unlines [assignment_line key v].
Proof. unfold assignment, unlines, assignment_line. cbn. by rewrite app_nil_r, <- !app_assoc. Qed.

Lemma render_volume_unlines v : render_volume v = unlines ([] :: bs "[[volumes]]" :: volume_lines v).
Proof.
  unfold render_volume, volume_lines. rewrite !assignment_unlines.
  change ([] :: bs "[[volumes]]" :: ?l) with ([[]; bs "[[volumes]]"] ++ l).
  rewrite !unlines_app. change (unlines [[]; bs "[[volumes]]"]) with (newline ++ bs "[[volumes]]" ++ newline).
  change (unlines [?a; ?b; ?c; ?d]) with (unlines ([a] ++ [b] ++ [c] ++ [d])). rewrite !unlines_app, <- !app_assoc.
  destruct (v_size_gib v); [by rewrite assignment_unlines|done].
Qed.
Lemma render_record_unlines r : render_record r = unlines (record_lines r).
Proof.
  unfold render_record, record_lines. rewrite !assignment_unlines, !unlines_app.
  change (unlines [?a; ?b]) with (unlines ([a] ++ [b])). rewrite unlines_app, <- !app_assoc. f_equal.
  assert (Hp : unlines [assignment_line "pieces" (pieces_value (pieces (composition r)))] =
    bs "pieces = [" ++ render_pieces true (pieces (composition r)) ++
    (if bool_decide (pieces (composition r) = []) then bs "]" else bs " ]") ++ newline).
  { unfold unlines, assignment_line, pieces_value. cbn [map concat]. rewrite app_nil_r, <- !app_assoc.
    change (bs "pieces = [") with (bs "pieces" ++ bs " = " ++ bs "["). by rewrite <- !app_assoc. }
  rewrite Hp, <- !app_assoc. do 4 f_equal. f_equal.
  - destruct (extends _); [by rewrite assignment_unlines|done].
  - induction (volumes r) as [|v vs IH]; [done|]. cbn [map concat]. by rewrite unlines_app, IH, render_volume_unlines.
Qed.

(* ------------------------------------------------------------------ *)
(** ** Reading the lines back *)

(** No control character but the tab and the line feed: what TOML can hold and the renderer escapes rightly. *)
Definition text_byte (b : byte) : bool := ((32 <=? bz b) || bool_decide (b = x09) || bool_decide (b = x0a)) && negb (bool_decide (b = x7f)).
Definition text (v : bytes) : Prop := forallb text_byte v = true.

Lemma split_unlines ls : Forall (fun l => x0a ∉ l) ls -> split_on x0a (unlines ls) = ls ++ [[]].
Proof.
  induction 1 as [|l ls Hl Hls IH]; [done|]. unfold unlines in *. cbn [map concat]. unfold newline at 1.
  rewrite <- app_assoc. cbn [app]. by rewrite split_on_app_cons, IH.
Qed.
Definition good_line (l : bytes) : Prop := x0a ∉ l /\ last l <> Some x0d.
Lemma drop_cr_good l : last l <> Some x0d -> drop_cr l = l.
Proof.
  intros H. unfold drop_cr. destruct (strip_suffix [x0d] l) eqn:E; [|done]. apply strip_suffix_Some in E as ->.
  by rewrite last_snoc in H.
Qed.
Lemma lines_unlines ls : Forall good_line ls -> lines (unlines ls) = ls.
Proof.
  intros H. unfold lines. rewrite split_unlines by (eapply Forall_impl; [exact H|]; by intros l [? _]).
  rewrite last_snoc, removelast_last. induction H as [|l ls [_ Hl] _ IH]; [done|]. cbn [map]. by rewrite drop_cr_good, IH.
Qed.

Lemma escape_byte_free b c : c ∈ escape_byte b -> text_byte b = true -> c <> x0a /\ c <> x0d.
Proof.
  intros Hc Hb. destruct b; try discriminate Hb; cbv [escape_byte] in Hc;
    repeat (apply elem_of_cons in Hc as [->|Hc]; [split; discriminate|]); by apply elem_of_nil in Hc.
Qed.
Lemma escape_free v c : text v -> c ∈ escape v -> c <> x0a /\ c <> x0d.
Proof.
  intros Hv Hc. unfold escape in Hc. apply elem_of_cons in Hc as [->|Hc]; [by split|].
  apply elem_of_app in Hc as [Hc|Hc%list_elem_of_singleton]; [|by subst; split].
  apply list_elem_of_In, in_concat in Hc as (l & Hl & Hc). apply in_map_iff in Hl as (b & <- & Hb).
  unfold text in Hv. rewrite forallb_forall in Hv. eapply escape_byte_free; [by apply list_elem_of_In|auto].
Qed.
(** A text without line feeds and carriage returns is a good line. *)
Definition line_free (s : bytes) : Prop := forall c, c ∈ s -> c <> x0a /\ c <> x0d.
Lemma line_free_good s : line_free s -> good_line s.
Proof.
  intros H. split; [intros Hin; by apply H in Hin as [? _]|]. intros E. apply last_Some in E as [s' ->].
  destruct (H x0d) as [_ ?]; [|done]. apply elem_of_app. right. by left.
Qed.
Lemma line_free_app a b : line_free a -> line_free b -> line_free (a ++ b).
Proof. intros Ha Hb c [Hc|Hc]%elem_of_app; auto. Qed.
Lemma line_free_escape v : text v -> line_free (escape v).
Proof. intros Hv c Hc. by eapply escape_free. Qed.
Lemma line_free_digits s : forallb is_ascii_digit s = true -> line_free s.
Proof.
  intros H c Hc%list_elem_of_In. rewrite forallb_forall in H. specialize (H c Hc).
  split; intros ->; discriminate H.
Qed.
(** A closed text, by evaluation. *)
Lemma line_free_bool s : forallb (fun c => negb (bool_decide (c = x0a)) && negb (bool_decide (c = x0d))) s = true -> line_free s.
Proof.
  rewrite forallb_forall. intros H c Hc%list_elem_of_In. specialize (H c Hc). apply andb_true_iff in H as [H1 H2].
  apply negb_true_iff, bool_decide_eq_false in H1, H2. done.
Qed.
Ltac line_free_tac :=
  repeat first [apply line_free_app | apply line_free_escape; assumption | apply line_free_bool; vm_compute; reflexivity].

Lemma read_basic_escape fuel b rest :
  text_byte b = true -> read_basic (S fuel) (escape_byte b ++ rest) = (let* (v, s) := read_basic fuel rest in Some (b :: v, s)).
Proof. destruct b; try discriminate; reflexivity. Qed.
Lemma read_basic_escaped fuel v rest :
  text v -> (length v < fuel)%nat -> read_basic fuel (concat (map escape_byte v) ++ quote :: rest) = Some (v, rest).
Proof.
  unfold text. revert fuel. induction v as [|b v IH]; intros [|fuel] Hv Hf; simpl in Hf; try lia; [done|].
  apply andb_true_iff in Hv as [Hb Hv]. cbn [map concat]. rewrite <- app_assoc, read_basic_escape by done.
  rewrite IH by (done || lia). done.
Qed.
Lemma escape_byte_length b : (1 <= length (escape_byte b))%nat.
Proof. unfold escape_byte. repeat case_bool_decide; simpl; lia. Qed.
Lemma escape_bytes_length v : (length v <= length (concat (map escape_byte v)))%nat.
Proof.
  induction v as [|b v IH]; [done|]. cbn [map concat]. rewrite length_app. pose proof (escape_byte_length b). simpl. lia.
Qed.
Lemma read_string_escape v rest : text v -> read_string (escape v ++ rest) = Some (v, rest).
Proof.
  intros Hv. unfold read_string, escape.
  change ((quote :: ?a) ++ rest) with ([quote] ++ a ++ rest).
  rewrite strip_prefix_app. cbn [option_bind]. rewrite <- app_assoc. apply read_basic_escaped; [done|].
  rewrite length_app. simpl. pose proof (escape_bytes_length v). lia.
Qed.

Lemma read_items_pieces l fuel :
  Forall text l -> (length l < fuel)%nat ->
  read_items fuel (render_pieces false l ++ bs " ]") = Some (map TString l).
Proof.
  intros Hl. revert fuel. induction Hl as [|v l Hv Hl IH]; intros [|fuel] Hf; simpl in Hf; try lia; [done|].
  cbn [render_pieces read_items]. rewrite <- !app_assoc.
  assert (Hne : bytes_eqb (bs "," ++ bs " " ++ escape v ++ render_pieces false l ++ bs " ]") (bs " ]") = false)
    by (apply bool_decide_eq_false; discriminate).
  rewrite Hne. change (bs "," ++ bs " " ++ ?s) with (bs ", " ++ s). rewrite strip_prefix_app. cbn [option_bind].
  rewrite read_string_escape by done. cbn [option_bind]. rewrite IH by lia. done.
Qed.
Lemma pieces_length l s : (length l <= length (render_pieces false l ++ s))%nat.
Proof.
  induction l as [|v l IH]; [simpl; lia|]. cbn [render_pieces]. rewrite !length_app in *. simpl. change (length (bs ",")) with 1%nat. lia.
Qed.
Lemma read_value_pieces l : Forall text l -> read_value (pieces_value l) = Some (TArray (map TString l)).
Proof.
  intros Hl. unfold read_value, pieces_value.
  assert (Hq : forall s, read_string (bs "[" ++ s) = None) by done.
  rewrite Hq, (strip_prefix_app (bs "[")). unfold read_array. destruct Hl as [|v l Hv Hl]; [done|].
  rewrite bool_decide_false by done. cbn [render_pieces app].
  change (bs " " ++ ?s) with (bs " " ++ s). rewrite <- !app_assoc. 
  assert (Hne : forall s, bytes_eqb (bs " " ++ s) (bs "]") = false) by (intros; apply bool_decide_eq_false; discriminate).
  rewrite Hne, strip_prefix_app. cbn [option_bind]. rewrite read_string_escape by done. cbn [option_bind].
  rewrite read_items_pieces; [done|done|]. pose proof (pieces_length l (bs " ]")). lia.
Qed.
Lemma read_value_escape v : text v -> read_value (escape v) = Some (TString v).
Proof. intros Hv. unfold read_value. rewrite <- (app_nil_r (escape v)), read_string_escape by done. done. Qed.
Lemma read_value_dec n : 0 <= n < 10 ^ 20 -> read_value (dec n) = Some (TInteger (dec n) 10).
Proof.
  intros Hn. destruct (dec_spec n Hn) as (Hd & _ & Hne). unfold read_value. destruct (dec n) as [|b s] eqn:E; [done|].
  pose proof Hd as [Hb _]%andb_true_iff.
  assert (Hq : read_string (b :: s) = None).
  { destruct b; try discriminate Hb; reflexivity. }
  assert (Hp : strip_prefix (bs "[") (b :: s) = None).
  { destruct b; try discriminate Hb; reflexivity. }
  rewrite Hq, Hp, Hd, bool_decide_false by done. done.
Qed.

Lemma read_key_spec k rest :
  forallb key_byte k = true -> (match rest with b :: _ => key_byte b | [] => false end) = false -> read_key (k ++ rest) = (k, rest).
Proof.
  induction k as [|b k IH]; cbn [forallb app].
  - intros _ Hr. destruct rest as [|b rest]; [done|]. cbn [read_key]. by rewrite Hr.
  - intros [Hb Hk]%andb_true_iff Hr. cbn [read_key]. by rewrite Hb, IH.
Qed.
Lemma read_assignment_line key v value :
  forallb key_byte (bs key) && negb (bool_decide (bs key = [])) = true -> read_value v = Some value ->
  read_assignment (assignment_line key v) = Some (bs key, value).
Proof.
  intros [Hk Hne]%andb_true_iff Hv. unfold read_assignment, assignment_line. rewrite read_key_spec by done.
  apply negb_true_iff in Hne. rewrite Hne. rewrite strip_prefix_app. cbn [option_bind]. by rewrite Hv.
Qed.

(** ** The fields and the tables *)

(** Bare-key assignments as they are written, with the values they are read back as. *)
Definition field_line (f : string * bytes * DeValue) : bytes := assignment_line (fst (fst f)) (snd (fst f)).
Definition field_of (f : string * bytes * DeValue) : bytes * DeValue := (bs (fst (fst f)), snd f).
Definition field_ok (f : string * bytes * DeValue) : Prop :=
  forallb key_byte (bs (fst (fst f))) && negb (bool_decide (bs (fst (fst f)) = [])) = true /\ read_value (snd (fst f)) = Some (snd f).

Lemma field_line_fresh f : field_ok f -> bytes_eqb (field_line f) (bs "[[volumes]]") = false /\ field_line f <> [].
Proof.
  intros [[Hk Hne]%andb_true_iff _]. apply negb_true_iff, bool_decide_eq_false in Hne.
  unfold field_line, assignment_line. destruct (bs (fst (fst f))) as [|b k]; [done|].
  split; [|done]. apply bool_decide_eq_false. cbn in Hk. apply andb_true_iff in Hk as [Hb _]. by intros [= -> _].
Qed.
(** The end of a block: the end of the text, a header, or an empty line in front of one. *)
Lemma read_fields_spec fs t rest t' rest' :
  Forall field_ok fs -> NoDup (map fst (t ++ map field_of fs)) ->
  read_fields rest (t ++ map field_of fs) = Some (t', rest') ->
  read_fields (map field_line fs ++ rest) t = Some (t', rest').
Proof.
  intros Hfs. revert t. induction Hfs as [|f fs Hf Hfs IH]; intros t Hnd Hr; [by rewrite app_nil_r in Hr|].
  cbn [map app read_fields]. destruct (field_line_fresh f Hf) as [-> Hne]. rewrite bool_decide_false by done.
  destruct Hf as [Hk Hv]. assert (E : read_assignment (field_line f) = Some (field_of f)) by (by apply read_assignment_line).
  rewrite E. cbn [option_bind].
  cbn [map] in Hnd, Hr.
  assert (Hg : get t (fst (field_of f)) = None).
  { unfold get. destruct (List.find _ t) as [g|] eqn:Eg; [|done]. apply List.find_some in Eg as [Hin Heq%bool_decide_eq_true].
    rewrite map_app in Hnd. apply NoDup_app in Hnd as (_ & Hd & _). exfalso. apply (Hd (fst g)).
    - apply list_elem_of_In, in_map, Hin.
    - rewrite Heq. cbn. by left. }
  unfold add_field. rewrite Hg. cbn [option_bind]. rewrite (cons_middle (field_of f)), app_assoc in Hnd, Hr. by apply IH.
Qed.

Definition size_field (size : Z) : string * bytes * DeValue := ("size_gib"%string, dec size, TInteger (dec size) 10).
Definition text_field (key : string) (value : bytes) : string * bytes * DeValue := (key, escape value, TString value).
Definition volume_fields (v : DeclaredVolume) : list (string * bytes * DeValue) :=
  [text_field "name" (v_name v); text_field "mount" (v_mount v);
   text_field "declared_by" (v_declared_by v); text_field "kind" (v_kind v)] ++
  match v_size_gib v with Some size => [size_field size] | None => [] end.
Definition root_fields (c : Composition) : list (string * bytes * DeValue) :=
  [text_field "image" (image c); ("pieces"%string, pieces_value (pieces c), TArray (map TString (pieces c)))] ++
  match extends c with Some e => [text_field "extends" e] | None => [] end.
Definition block (v : DeclaredVolume) : list bytes := [] :: bs "[[volumes]]" :: map field_line (volume_fields v).
Definition blocks (vs : list DeclaredVolume) : list bytes := concat (map block vs).

Lemma record_lines_blocks r : record_lines r = map field_line (root_fields (composition r)) ++ blocks (volumes r).
Proof.
  assert (E : map (fun v => [] :: bs "[[volumes]]" :: volume_lines v) (volumes r) = map block (volumes r)).
  { apply map_ext. intros v. unfold block, volume_fields, volume_lines. by destruct (v_size_gib v). }
  unfold record_lines, root_fields, blocks. rewrite E. by destruct (extends _).
Qed.

(** What a record holds when it comes from an evaluated configuration: texts, sizes that fit, and no empty image
    behind [extends]. *)
Record volume_storable (v : DeclaredVolume) : Prop := {
  vs_name : text (v_name v); vs_mount : text (v_mount v); vs_by : text (v_declared_by v); vs_kind : text (v_kind v);
  vs_size : match v_size_gib v with Some n => 0 <= n <= u32_max | None => True end }.
Record storable (r : VolumeRecord) : Prop := {
  st_image : text (image (composition r)); st_pieces : Forall text (pieces (composition r));
  st_extends : match extends (composition r) with Some e => text e /\ e <> [] | None => True end;
  st_volumes : Forall volume_storable (volumes r) }.

Lemma text_field_ok key v :
  forallb key_byte (bs key) && negb (bool_decide (bs key = [])) = true -> text v -> field_ok (text_field key v).
Proof. intros Hk Hv. split; [done|]. by apply read_value_escape. Qed.
Lemma volume_fields_ok v : volume_storable v -> Forall field_ok (volume_fields v).
Proof.
  intros [Hn Hm Hb Hk Hs]. apply Forall_app. split.
  - repeat apply Forall_cons_2; [by apply text_field_ok..|by apply Forall_nil].
  - destruct (v_size_gib v) as [n|]; [|by apply Forall_nil]. apply Forall_singleton. split; [done|].
    apply read_value_dec. unfold u32_max in Hs. lia.
Qed.
Lemma root_fields_ok r : storable r -> Forall field_ok (root_fields (composition r)).
Proof.
  intros [Hi Hp He _]. apply Forall_app. split.
  - apply Forall_cons_2; [by apply text_field_ok|]. apply Forall_singleton. split; [done|]. by apply read_value_pieces.
  - destruct (extends _) as [e|]; [|by apply Forall_nil]. destruct He as [He _]. apply Forall_singleton. by apply text_field_ok.
Qed.
Lemma volume_keys_NoDup v : NoDup (map fst (map field_of (volume_fields v))).
Proof. unfold volume_fields. destruct (v_size_gib v); apply (bool_decide_unpack _); vm_compute; exact I. Qed.
Lemma root_keys_NoDup c : NoDup (map fst (map field_of (root_fields c))).
Proof. unfold root_fields. destruct (extends c); apply (bool_decide_unpack _); vm_compute; exact I. Qed.

Lemma read_fields_blocks vs t : read_fields (blocks vs) t = Some (t, drop 1 (blocks vs)).
Proof. destruct vs; [done|]. reflexivity. Qed.
Lemma read_tables_blocks vs fuel :
  Forall volume_storable vs -> (length vs <= fuel)%nat ->
  read_tables fuel (drop 1 (blocks vs)) = Some (map (fun v => TTable (map field_of (volume_fields v))) vs).
Proof.
  intros Hvs. revert fuel. induction Hvs as [|v vs Hv Hvs IH]; intros fuel Hf; [by destruct fuel|].
  destruct fuel as [|fuel]; [simpl in Hf; lia|].
  change (drop 1 (blocks (v :: vs))) with (bs "[[volumes]]" :: map field_line (volume_fields v) ++ blocks vs).
  cbn [read_tables]. rewrite (read_fields_spec _ _ _ (map field_of (volume_fields v)) (drop 1 (blocks vs))).
  - cbn [option_bind]. rewrite IH by (simpl in Hf; lia). done.
  - by apply volume_fields_ok.
  - apply volume_keys_NoDup.
  - apply read_fields_blocks.
Qed.
Lemma blocks_length vs : (length vs <= length (drop 1 (blocks vs)))%nat.
Proof.
  assert (H : (2 * length vs <= length (blocks vs))%nat).
  { induction vs as [|v vs IH]; [done|]. unfold blocks in *. cbn [map concat]. rewrite length_app. simpl in *. lia. }
  rewrite length_drop. destruct vs; simpl in *; lia.
Qed.

Lemma field_line_good f : line_free (snd (fst f)) -> line_free (bs (fst (fst f))) -> good_line (field_line f).
Proof. intros Hv Hk. apply line_free_good. unfold field_line, assignment_line. line_free_tac; done. Qed.
Lemma text_field_good key v : line_free (bs key) -> text v -> good_line (field_line (text_field key v)).
Proof. intros Hk Hv. apply field_line_good; [by apply line_free_escape|done]. Qed.
Lemma pieces_free first l : Forall text l -> line_free (render_pieces first l).
Proof.
  intros Hl. revert first. induction Hl as [|v l Hv Hl IH]; intros first; cbn [render_pieces]; [by apply line_free_bool|].
  destruct first; line_free_tac; apply IH.
Qed.
Lemma block_good v : volume_storable v -> Forall good_line (block v).
Proof.
  intros [Hn Hm Hb Hk Hs]. unfold block.
  apply Forall_cons_2; [by apply line_free_good, line_free_bool|].
  apply Forall_cons_2; [by apply line_free_good, line_free_bool|]. unfold volume_fields. rewrite map_app. apply Forall_app. split.
  - cbn [map]. repeat apply Forall_cons_2; [apply text_field_good; [by apply line_free_bool|done]..|by apply Forall_nil].
  - destruct (v_size_gib v) as [n|]; [|by apply Forall_nil]. apply Forall_singleton, field_line_good; [|by apply line_free_bool].
    apply line_free_digits, dec_spec. unfold u32_max in Hs. lia.
Qed.
Lemma record_lines_good r : storable r -> Forall good_line (record_lines r).
Proof.
  intros [Hi Hp He Hv]. rewrite record_lines_blocks. apply Forall_app. split.
  - unfold root_fields. rewrite map_app. apply Forall_app. split.
    + cbn [map]. apply Forall_cons_2; [apply text_field_good; [by apply line_free_bool|done]|].
      apply Forall_singleton, field_line_good; [|by apply line_free_bool]. unfold pieces_value.
      case_bool_decide; line_free_tac; by apply pieces_free.
    + destruct (extends _) as [e|]; [|by apply Forall_nil]. destruct He as [He _].
      apply Forall_singleton, text_field_good; [by apply line_free_bool|done].
  - unfold blocks. induction Hv as [|v vs Hv Hvs IH]; [by apply Forall_nil|].
    cbn [map concat]. apply Forall_app. split; [by apply block_good|done].
Qed.

Definition volume_table (v : DeclaredVolume) : table := map field_of (volume_fields v).
Definition record_table (r : VolumeRecord) : table :=
  map field_of (root_fields (composition r)) ++
  match volumes r with [] => [] | vs => [(bs "volumes", TArray (map (fun v => TTable (volume_table v)) vs))] end.
Lemma read_toml_record r : storable r -> read_toml (render_record r) = Some (record_table r).
Proof.
  intros H. unfold read_toml. rewrite render_record_unlines, lines_unlines by (by apply record_lines_good).
  rewrite record_lines_blocks.
  rewrite (read_fields_spec _ _ _ (map field_of (root_fields (composition r))) (drop 1 (blocks (volumes r)))).
  - cbn [option_bind]. unfold record_table. destruct (volumes r) as [|v vs] eqn:E; [by rewrite app_nil_r|].
    rewrite <- E. pose proof (st_volumes r H) as Hv.
    assert (Hne : drop 1 (blocks (volumes r)) <> []) by (by rewrite E).
    destruct (drop 1 (blocks (volumes r))) as [|l ls] eqn:El; [done|]. rewrite <- El.
    rewrite read_tables_blocks by (done || apply blocks_length). cbn [option_bind].
    unfold add_field. assert (Hg : get (map field_of (root_fields (composition r))) (bs "volumes") = None).
    { unfold root_fields. by destruct (extends _). }
    cbn [fst]. rewrite Hg. cbn [option_bind]. done.
  - by apply root_fields_ok.
  - apply root_keys_NoDup.
  - apply read_fields_blocks.
Qed.

(** ** Back to the record *)

Lemma fold_left_ext_in {A B} (f g : A -> B -> A) l a : (forall a b, b ∈ l -> f a b = g a b) -> fold_left f l a = fold_left g l a.
Proof.
  revert a. induction l as [|b l IH]; intros a H; [done|]. cbn [fold_left]. rewrite H by left. apply IH. intros. apply H. by right.
Qed.
Lemma u32_from_str_radix_dec n : 0 <= n <= u32_max -> u32_from_str_radix (dec n) 10 = Some n.
Proof.
  intros Hn. destruct (dec_spec n) as (Hd & Hv & Hne); [unfold u32_max in Hn; lia|].
  unfold u32_from_str_radix. destruct (dec n) as [|b s] eqn:E; [done|].
  rewrite bool_decide_false by (intros ->; discriminate Hd).
  assert (H1 : forallb (fun b => radix_digit b <? 10) (b :: s) = true).
  { apply forallb_forall. intros c Hc. rewrite forallb_forall in Hd. specialize (Hd c Hc).
    unfold radix_digit. rewrite Hd. unfold is_ascii_digit in Hd. lia. }
  rewrite H1. cbn [length Nat.eqb negb orb].
  assert (H2 : fold_left (fun a b => a * 10 + radix_digit b) (b :: s) 0 = n).
  { rewrite <- Hv. unfold dec_value. apply fold_left_ext_in. intros a c Hc%list_elem_of_In.
    rewrite forallb_forall in Hd. specialize (Hd c Hc). unfold radix_digit, digit_value. rewrite Hd. done. }
  rewrite H2. destruct (Z.leb_spec n u32_max); [done|lia].
Qed.

Lemma parse_entry_table v : volume_storable v -> parse_entry (TTable (volume_table v)) = Ok v.
Proof.
  intros [_ _ _ _ Hs]. destruct v as [n m b k [s|]]; [|reflexivity]. cbn in Hs.
  set (t := volume_table _). unfold parse_entry.
  change (string_at t "name") with (@Ok (option bytes) RecordError (Some n)). change (string_at t "mount") with (@Ok (option bytes) RecordError (Some m)).
  change (string_at t "declared_by") with (@Ok (option bytes) RecordError (Some b)). change (string_at t "kind") with (@Ok (option bytes) RecordError (Some k)).
  cbn [rbind]. unfold size_at. change (get t (bs "size_gib")) with (Some (TInteger (dec s) 10)).
  cbv beta iota. by rewrite u32_from_str_radix_dec.
Qed.
Lemma parse_root_table r : storable r -> parse_root (record_table r) = Ok r.
Proof.
  intros H. pose proof (st_extends r H) as He. pose proof (st_volumes r H) as Hv. destruct r as [[i p e] vs]. cbn in He, Hv.
  assert (Hp : collect_results (item_string "pieces") (map TString p) = Ok p).
  { rewrite <- (map_id p) at 2. apply collect_results_map. by apply Forall_true. }
  assert (Hvs : collect_results parse_entry (map (fun v => TTable (volume_table v)) vs) = Ok vs).
  { rewrite <- (map_id vs) at 2. apply collect_results_map. eapply Forall_impl; [exact Hv|]. intros v. apply parse_entry_table. }
  set (t := record_table _).
  assert (Ei : string_at t "image" = Ok (Some i)) by (by destruct e).
  assert (Ee : string_at t "extends" = Ok e) by (by destruct e, vs).
  assert (Ep : strings_at t "pieces" = collect_results (item_string "pieces") (map TString p)) by (by destruct e).
  assert (Ev : get t (bs "volumes") = match vs with [] => None | _ => Some (TArray (map (fun v => TTable (volume_table v)) vs)) end)
    by (by destruct e, vs).
  unfold parse_root. rewrite Ei. cbn [rbind]. rewrite Ep, Hp. cbn [rbind]. rewrite Ee. cbn [rbind]. rewrite Ev.
  assert (Em : match e with Some e => if bool_decide (e = []) then None else Some e | None => None end = e).
  { destruct e as [e|]; [|done]. destruct He as [_ He]. by rewrite bool_decide_false. }
  rewrite Em. destruct vs as [|v vs]; [done|]. rewrite Hvs. done.
Qed.

Lemma trim_front b s : strip_any strip_prefix whitespace_chars (b :: s) = None -> trim (b :: s) = trim_with strip_suffix (length (b :: s)) (b :: s).
Proof. intros H. unfold trim. cbn [trim_with length]. by rewrite H. Qed.
Lemma strip_any_suffix_head b s ws r :
  Forall (fun w => head w <> Some b) ws -> strip_any strip_suffix ws (b :: s) = Some r -> exists r', r = b :: r'.
Proof.
  induction 1 as [|w ws Hw Hws IH]; cbn [strip_any]; [done|].
  destruct (strip_suffix w (b :: s)) as [r'|] eqn:E; [|done]. intros [= <-]. apply strip_suffix_Some in E.
  destruct r' as [|b' r']; [cbn in E; by rewrite <- E in Hw|]. injection E as <- _. by eexists.
Qed.
Lemma trim_with_suffix_head fuel b s :
  Forall (fun w => head w <> Some b) whitespace_chars -> exists s', trim_with strip_suffix fuel (b :: s) = b :: s'.
Proof.
  intros Hb. revert s. induction fuel as [|fuel IH]; intros s; [by eexists|]. cbn [trim_with].
  destruct (strip_any strip_suffix whitespace_chars (b :: s)) as [r|] eqn:E; [|by eexists].
  apply strip_any_suffix_head in E as [r' ->]; [apply IH|done].
Qed.
Lemma trim_record r : trim (render_record r) <> [].
Proof.
  assert (Hh : exists s, render_record r = "i"%byte :: s) by (by eexists). destruct Hh as [s ->].
  rewrite trim_front by done. destruct (trim_with_suffix_head (length ("i"%byte :: s)) "i"%byte s) as [s' ->]; [|done].
  apply (bool_decide_unpack _). vm_compute. exact I.
Qed.

(** The volume record survives the disk: whatever TOML parser is in use, if it reads the fragment the renderer
    writes the way TOML is documented, then a record of an evaluated configuration (texts without control characters
    other than tab and line feed, sizes within 32 bits, no empty image behind [extends]) is read back unchanged from
    the text it was written as. So composition equality, the mounts and the declaring layers that decide which volumes
    are live, and which are orphans, are those of the evaluation that wrote the record. *)
Theorem record_round_trip (toml : bytes -> option table) (r : VolumeRecord)
    (Htoml : forall s t, read_toml s = Some t -> toml s = Some t) (Hr : storable r) :
  parse_record toml (render_record r) = Ok r.
Proof.
  unfold parse_record. rewrite bool_decide_false by apply trim_record.
  rewrite (Htoml _ _ (read_toml_record r Hr)). cbn [ok_or rbind]. by apply parse_root_table.
Qed.

Definition sample_record : VolumeRecord :=
  mk_VolumeRecord (mk_Composition (bs "dev") [bs "rust"; bs "a\b"] (Some (bs "base")))
    [mk_DeclaredVolume (bs "cache") (bs "/c") (bs "layer") (bs "image") (Some 8);
     mk_DeclaredVolume (bs "work") (bs "/w") (bs "m") (bs "manifest") None].
Lemma record_round_trip_witness : parse_record read_toml (render_record sample_record) = Ok sample_record.
Proof.
  apply (record_round_trip read_toml sample_record); [by intros|].
  constructor; [reflexivity|repeat (apply Forall_cons_2 || apply Forall_nil); try reflexivity|by split|].
  apply Forall_cons_2; [by constructor|]. apply Forall_singleton. by constructor.
Defined.
