(* ===== verification/Start.v ===== *)
(** * Bringing a VM up ([src/src/cli/lifecycle.rs], from [Runtime::locate] to [execute_runner])

    [start] and the sessions' [ensure_running]: admission, the target lock, the sources of a build (evaluation, the
    last one, a named generation), the reuse of a running VM and the repair of stale records, and the launch.  The
    host a start changes is a record (the profile, [running-build], the volume record, the commands given); what the
    rest of the system answers is the run's world.  Standard output read as text is UTF-8. *)
From S2P Require Import Prelude Bytes Paths Message Hybrid Mounts Launch AgentSource Spec Diagnostic Volumes Generations Lifecycle Stop.

Record Resolved := mk_Resolved {
  rs_name : bytes; rs_workspaces : list bytes; rs_resources : option DeclaredResources; rs_manifest : Volumes.Manifest }.
Record Evaluated := mk_Evaluated {
  ev_lock_snapshot : bytes; ev_resources : option DeclaredResources; ev_volumes : list DeclaredVolume }.

Record host := mk_host {
  h_profile : profile;
  h_running_build : file;
  h_volumes : file;
  h_log : list effect }.
Definition act (A : Type) : Type := sem host (Hybrid.stop Failure) A.
Definition log_effect (e : effect) (h : host) : host := mk_host (h_profile h) (h_running_build h) (h_volumes h) (h_log h ++ [e]).
Definition do_ (e : effect) : act unit := fun h => (Ok tt, log_effect e h).
Definition fails {A} (f : Failure) : act A := sfail (Failed f).
Definition answer {A} (r : result A Failure) : act A := slift (map_err Failed r).
Definition need {A} (o : option A) (f : Failure) : act A := answer (ok_or o f).
(** A ladder of [Stop] runs on the host's log. *)
Definition run_cmd {A} (c : cmd A) : act A := fun h =>
  let '(r, log) := c (h_log h) in (r, mk_host (h_profile h) (h_running_build h) (h_volumes h) log).

(** ** Failures *)

(** [registry_failure] of what [Generations] raises; creating the directories alone tells a denial apart. *)
Definition registry_condition (e : RegistryError) : string :=
  match e with
  | GenerationDirectory => "generation-directory" | GenerationStage => "generation-stage" | GenerationWrite => "generation-write"
  | GenerationPublish => "generation-publish" | GenerationDigest => "generation-digest" | GenerationRecord_ => "generation-record"
  | GenerationRoot => "generation-root" | GenerationCurrent => "generation-current" | GenerationUnlink => "generation-unlink"
  end.
Definition registry_failure (denied : bool) (e : RegistryError) : Failure :=
  diagnosed N_State (registry_condition e) (match e with GenerationDirectory => if denied then NoPerm else IoErr | _ => IoErr end).
Definition mount_source_id (defect : MountSourceDefect) : string :=
  match defect with
  | UnsetVariable _ => "mount-source-unset-variable"
  | NotAbsolute _ => "mount-source-not-absolute"
  | Mounts.Missing _ => "mount-source-missing"
  | Mounts.Unreadable _ _ => "mount-source-unreadable"
  | NotMountable _ => "mount-source-not-mountable"
  | SessionDirectory _ => "mount-source-session-directory"
  end.
Definition mount_source_failure (defect : MountSourceDefect) : Failure := diagnosed N_Host (mount_source_id defect) Config.
Definition agent_source_id (defect : AgentSourceDefect) : string :=
  match defect with
  | AS_Unset _ => "agent-source-unset" | AS_Missing _ => "agent-source-missing"
  | AS_NotSocket _ => "agent-source-not-socket" | AS_NotOwned _ _ _ => "agent-source-not-owned"
  end.
Definition agent_source_failure (defect : AgentSourceDefect) : Failure := diagnosed N_Host (agent_source_id defect) Config.
Definition launch_contract_unreadable : Failure := diagnosed N_Vm "launch-contract-unreadable" Config.

(** ** The target lock *)

Inductive try_lock := LockTaken | LockHeld | LockError.
Record lock_world := mk_lock_world { lk_directory : bool; lk_open : bool; lk_try : try_lock }.
Definition lock_answer (w : lock_world) : result unit Failure :=
  if negb (lk_directory w) then Err (diagnosed N_Vm "runtime-directory-unusable" IoErr)
  else if negb (lk_open w) then Err (diagnosed N_Vm "lock-unusable" IoErr)
  else match lk_try w with
       | LockTaken => Ok tt
       | LockHeld => Err (diagnosed N_Vm "startup-contended" TempFail)
       | LockError => Err (diagnosed N_Vm "lock-unusable" IoErr)
       end.
Definition acquire (w : lock_world) : act unit :=
  match lock_answer w with Ok _ => do_ TakeLock | Err f => fails f end.

(** ** Build records *)

(** [read_build_record]: the recorded output, if it still exists. *)
Definition read_build_record (exists_in_store : bytes -> bool) (f : file) : option bytes :=
  let* recorded := read_text f in
  let trimmed := trim recorded in
  if negb (bool_decide (trimmed = [])) && exists_in_store trimmed then Some trimmed else None.
(** [write_build_record]: the directory, then the file. *)
Definition write_build_record (writable : bool) (store_path : bytes) : act unit :=
  if writable then fun h =>
    (Ok tt, mk_host (h_profile h) (Content (store_path ++ newline)) (h_volumes h) (h_log h ++ [WriteRunningBuild store_path]))
  else fails (diagnosed N_State "build-record" IoErr).

(** [build_runner]: the last line [nix build] printed. *)
Definition build_runner (a : run_answer) : act bytes :=
  do_ BuildRunner ;;
  match a with
  | CouldNotRun => fails (diagnosed N_Store "nix-unavailable" Software)
  | Exited false _ => fails (diagnosed N_Store "build-failed" Software)
  | Exited true stdout =>
      let path := trim (default [] (last (lines stdout))) in
      if bool_decide (path = []) then fails (diagnosed N_Store "build-empty" Software) else sret path
  end.

(** [require_current_contract]: the schema number the build publishes. *)
Definition u32_parse (s : bytes) : option Z := parse_uint u32_max s.
Definition require_current_contract (published : file) : result unit Failure :=
  let skew := diagnosed N_Vm "launch-contract-skew" Config in
  match read_text published with
  | Some raw =>
      match u32_parse (trim raw) with
      | Some theirs => if theirs =? LAUNCH_SCHEMA_VERSION then Ok tt else Err skew
      | None => Err skew
      end
  | None => Err skew
  end.

(** [retained_boot]: the target of one generation's link, and whether it exists. *)
Definition retained_boot (exists_in_store : bytes -> bool) (p : profile) (number : Z) (running : bool) : result bytes Failure :=
  if running then Err (diagnosed N_Vm "generation-swap" TempFail)
  else match links p !! link number with
       | None => Err (diagnosed N_State "no-build" DataErr)
       | Some target => if exists_in_store target then Ok target else Err (diagnosed N_State "no-build" DataErr)
       end.

(* ------------------------------------------------------------------ *)
(** ** The sources of a build *)

Section start.
Context (exists_in_store : bytes -> bool) (to_vec_pretty : GenerationRecord -> option bytes).

(** [last_build]. *)
Definition last_build (p : profile) : option bytes := current_store_path exists_in_store p.
Definition running_build (h : host) : option bytes := read_build_record exists_in_store (h_running_build h).

Inductive volume_publication := VP_Published | VP_Before (f : Failure) | VP_After (f : Failure).
Definition place_volumes (r : VolumeRecord) (h : host) : host :=
  mk_host (h_profile h) (h_running_build h) (Content (render_record r)) (h_log h ++ [WriteVolumes]).
(** [volumes::write]: a staged rename, whose flush can fail behind it. *)
Definition write_volumes (outcome : volume_publication) (r : VolumeRecord) : act unit := fun h =>
  match outcome with
  | VP_Published => (Ok tt, place_volumes r h)
  | VP_Before f => (Err (Failed f), h)
  | VP_After f => (Err (Failed f), place_volumes r h)
  end.

Definition BACKEND : bytes := bs "cloud-hypervisor".
Record build_world := mk_build_world {
  b_evaluate : result Evaluated Failure;
  b_build : run_answer;
  b_now : Z;
  b_denied : bool;
  b_append : Generations.world;
  b_volumes : volume_publication }.
(** The result is a generation, unless the current one already pins it. *)
Definition record_generation (w : build_world) (sandbox_id built lock : bytes) : act unit := fun h =>
  if bool_decide (last_build (h_profile h) = Some built) then (Ok tt, h)
  else
    let record := mk_GenerationRecord built [] sandbox_id BACKEND (rfc3339_utc (b_now w)) in
    match append to_vec_pretty (b_append w) record lock (h_profile h) with
    | (Ok number, p) => (Ok tt, mk_host p (h_running_build h) (h_volumes h) (h_log h ++ [RecordGeneration number]))
    | (Err e, p) => (Err (Failed (registry_failure (b_denied w) e)), mk_host p (h_running_build h) (h_volumes h) (h_log h))
    end.
Definition evaluate_and_build (w : build_world) (resolved : Resolved) : act (bytes * option DeclaredResources) :=
  let composition := composition_of (rs_manifest resolved) in
  do_ Evaluate ;;
  let! evaluated := answer (b_evaluate w) in
  let! built := build_runner (b_build w) in
  record_generation w (rs_name resolved) built (ev_lock_snapshot evaluated) ;;
  write_volumes (b_volumes w) (mk_VolumeRecord composition (ev_volumes evaluated)) ;;
  sret (built, ev_resources evaluated).

(* ------------------------------------------------------------------ *)
(** ** The launch *)

Record runner_world := mk_runner_world {
  rw_published_schema : bytes -> file;
  rw_record_writable : bool;
  rw_read : bytes -> result bytes unit;
  rw_from_slice : bytes -> result BuiltContract unit;
  rw_lookup : bytes -> option bytes;
  rw_runtime_dir : option bytes;
  rw_canonicalize : bytes -> result bytes fs_error;
  rw_metadata : bytes -> result file_kind fs_error;
  rw_gpgconf : run_answer;
  rw_symlink_metadata : bytes -> option lstat;
  rw_canonicalize_dir : list Component -> option bytes;
  rw_current_dir : option bytes;
  rw_uid : Z;
  rw_gid : Z;
  rw_volume_directory : bool;
  rw_exe : option (bytes * bytes);   (* [current_exe]: its directory and its leaf *)
  rw_supervisor_is_file : bool;
  rw_runner : run_answer;
  rw_handoff : run_answer }.

Definition session_roots (w : runner_world) : list bytes :=
  map (fun root => match rw_canonicalize w root with Ok resolved => resolved | Err _ => root end)
    ([bs "/tmp"; bs "/var/tmp"] ++ match rw_runtime_dir w with Some dir => [dir] | None => [] end).
Definition resolve_mount (w : runner_world) (share : BuiltShare) : result ResolvedMount Failure :=
  let? expanded := map_err mount_source_failure (expand_source (bt_source_token share) (rw_lookup w)) in
  map_err mount_source_failure
    (classify_source (rw_canonicalize w) (rw_metadata w) (bt_tag share) expanded (session_roots w)).
Definition resolve_declared_mounts (w : runner_world) (store_path : bytes) : result (list ResolvedMount) Failure :=
  let? declared := map_err (fun _ => launch_contract_unreadable) (declared_shares (rw_read w) (rw_from_slice w) store_path) in
  collect_results (resolve_mount w) declared.
Definition resolve_agent (w : runner_world) (id : CredentialId) : result ResolvedAgentSource Failure :=
  map_err agent_source_failure
    (resolve_and_check (rw_lookup w) (rw_gpgconf w) (rw_symlink_metadata w) (rw_canonicalize_dir w) (rw_current_dir w) id (rw_uid w)).
Definition resolve_declared_agent_sockets (w : runner_world) (ids : list CredentialId) : result (list ResolvedAgentSource) Failure :=
  collect_results (resolve_agent w) ids.

Definition volume_directory (state sandbox_id target : bytes) : bytes :=
  join (join (join (join state (bs "projects")) sandbox_id) target) (bs "volumes").
Definition installation_programs (w : runner_world) : result (bytes * bytes) Failure :=
  let missing := diagnosed N_Host "supervisor-missing" Diagnostic.Unavailable in
  let? (directory, leaf) := ok_or (rw_exe w) missing in
  if rw_supervisor_is_file w then Ok (join directory leaf, join directory (bs "vivarium-supervisor")) else Err missing.

Definition mount_kind (workspace_paths : list bytes) (m : ResolvedMount) : bytes :=
  match rm_kind m with
  | Mounts.Dir => if existsb (path_eqb (rm_share_source m)) workspace_paths then bs "tree" else bs "dir"
  | Mounts.Tree => bs "dir"
  | Mounts.File => bs "file"
  end.
Definition mount_arguments (workspace_paths : list bytes) (m : ResolvedMount) : list bytes :=
  [bs "--mount"; rm_tag m; mount_kind workspace_paths m; rm_share_source m; default (bs "-") (rm_entry m)].
Definition agent_arguments (a : ResolvedAgentSource) : list bytes :=
  [match as_id a with Ssh => bs "--ssh-agent-socket" | Gpg => bs "--gpg-agent-socket" end; as_host_socket a].
Definition runner_argv (runtime : Runtime) (volumes supervisor sandbox_id : bytes) (uid gid : Z) (r : Resources)
    (workspace_paths : list bytes) (mounts : list ResolvedMount) (agents : list ResolvedAgentSource) : list bytes :=
  [bs "--runtime-dir"; directory runtime; bs "--volume-dir"; volumes; bs "--supervisor"; supervisor;
   bs "--uid"; dec uid; bs "--gid"; dec gid; bs "--memory-mib"; dec (mem_mib r); bs "--vcpu"; dec (vcpu r);
   bs "--sandbox-id"; sandbox_id; bs "--target"; DEFAULT_TARGET] ++
  flat_map (mount_arguments workspace_paths) mounts ++ flat_map agent_arguments agents.

(** [boot_rendered_spec]. *)
Definition boot_rendered_spec (w : runner_world) (runtime : Runtime) : act unit :=
  do_ (BootHandoff (join (directory runtime) (bs "launch.json"))) ;;
  match rw_handoff w with
  | CouldNotRun => fails (diagnosed N_Vm "launcher-unavailable" Software)
  | Exited true _ => sret tt
  | Exited false _ => fails (diagnosed N_Vm "start-failed" Diagnostic.Unavailable)
  end.
Definition execute_runner (w : runner_world) (state : bytes) (store_path : bytes) (runtime : Runtime) (sandbox_id : bytes)
    (resources : Resources) (workspace_paths : list bytes) : act unit :=
  let! mounts := answer (resolve_declared_mounts w store_path) in
  let! ids := answer (map_err (fun _ => launch_contract_unreadable) (declared_credentials (rw_read w) (rw_from_slice w) store_path)) in
  let! agents := answer (resolve_declared_agent_sockets w ids) in
  let volumes := volume_directory state sandbox_id DEFAULT_TARGET in
  answer (guard_err (negb (rw_volume_directory w)) (diagnosed N_State "volume-directory" IoErr)) ;;
  let! (_, supervisor) := answer (installation_programs w) in
  do_ (RenderSpec (join (join store_path (bs "bin")) (bs "vivarium-base-image"))
         (runner_argv runtime volumes supervisor sandbox_id (rw_uid w) (rw_gid w) resources workspace_paths mounts agents)) ;;
  match rw_runner w with
  | CouldNotRun => fails (diagnosed N_Vm "launcher-unavailable" Software)
  | Exited false _ => fails (diagnosed N_Vm "spec-render-failed" Software)
  | Exited true _ => boot_rendered_spec w runtime
  end.
Definition launch (w : runner_world) (state sandbox_id : bytes) (runtime : Runtime) (store_path : bytes) (resources : Resources)
    (workspace_paths : list bytes) : act unit :=
  answer (require_current_contract (rw_published_schema w store_path)) ;;
  write_build_record (rw_record_writable w) store_path ;;
  execute_runner w state store_path runtime sandbox_id resources workspace_paths.

(* ------------------------------------------------------------------ *)
(** ** [perform_start] *)

Record start_world := mk_start_world {
  sw_resolved : result Resolved Failure;       (* [resolve_manifest_for_launch] *)
  sw_preflight : result bytes Failure;         (* the runtime root *)
  sw_available : option Z;
  sw_fleet : option FleetUse;
  sw_lock : lock_world;
  sw_boot_json : file; sw_vm_pid : file; sw_test_kill : Z -> kill_answer; sw_unit : show;
  sw_build : build_world;
  sw_stop : unit_world;
  sw_state : bytes;                            (* the state root *)
  sw_meminfo : option bytes; sw_parallelism : option Z;
  sw_runner : runner_world }.
Inductive StartOutcome := AlreadyRunning (stale : bool) | Booted (resources : Resources).

(** The build to boot, with the merged resources when one was evaluated; [inl] is the short-circuit of
    [--no-rebuild]. *)
Definition select_build (w : start_world) (resolved : Resolved) (no_rebuild : bool) (generation : option Z) (running : bool)
    : act (StartOutcome + (bytes * option DeclaredResources)) := fun h =>
  match generation with
  | Some number =>
      (let! store_path := answer (retained_boot exists_in_store (h_profile h) number running) in
       sret (inr (store_path, None))) h
  | None =>
      if no_rebuild then
        if running then (Ok (inl (AlreadyRunning false)), h)
        else
          (let! store_path := need (last_build (h_profile h)) (diagnosed N_State "no-build" DataErr) in
           sret (inr (store_path, None))) h
      else (let! built := evaluate_and_build (sw_build w) resolved in sret (inr built)) h
  end.
Definition stale_build (h : host) (store_path : bytes) : bool :=
  match running_build h with Some launched => negb (bytes_eqb launched store_path) | None => false end.
(** What follows the choice of a build. *)
Definition ensure_booted (w : start_world) (resolved : Resolved) (runtime : Runtime) (rebuild follow running : bool)
    (store_path : bytes) (merged : option DeclaredResources) : act StartOutcome := fun h =>
  if running && negb rebuild then (Ok (AlreadyRunning (stale_build h store_path)), h)
  else
    ((if rebuild then run_cmd (let! _ := stop_unit false None (sw_stop w) in sret tt) else sret tt) ;;
     (if follow then do_ FollowConsole else sret tt) ;;
     let resources := effective_resources (or_else merged (rs_resources resolved)) (sw_meminfo w) (sw_parallelism w) in
     launch (sw_runner w) (sw_state w) (rs_name resolved) runtime store_path resources (rs_workspaces resolved) ;;
     sret (Booted resources)) h.
Definition is_running (w : start_world) (h : host) : bool :=
  bool_decide (discriminate (sw_boot_json w) (sw_vm_pid w) (bool_decide (is_Some (last_build (h_profile h))))
                 (sw_test_kill w) (sw_unit w) = Running).
Definition perform_start (rebuild no_rebuild : bool) (generation : option Z) (follow : bool) (w : start_world) : act StartOutcome :=
  let! resolved := answer (sw_resolved w) in
  let! runtime_root := answer (sw_preflight w) in
  let! _ := answer (admission (sw_available w) (sw_fleet w)) in
  let! runtime := answer (locate runtime_root (rs_name resolved) DEFAULT_TARGET) in
  acquire (sw_lock w) ;;
  fun h =>
    let running := is_running w h in
    (let! chosen := select_build w resolved no_rebuild generation running in
     match chosen with
     | inl outcome => sret outcome
     | inr (store_path, merged) => ensure_booted w resolved runtime rebuild follow running store_path merged
     end) h.

(* ------------------------------------------------------------------ *)
(** ** [ensure_running] *)

(** [launch_spec_record] at the two decoders. *)
Definition launch_spec_record {Spec} (envelope : bytes -> option Z) (decode : bytes -> option Spec) (f : file) : result Spec Failure :=
  let unreadable := diagnosed N_Vm "launch-record-unreadable" Diagnostic.Unavailable in
  match f with
  | Content raw =>
      let strict := ok_or (decode raw) unreadable in
      match envelope raw with
      | Some theirs => if theirs =? LAUNCH_SCHEMA_VERSION then strict else Err (diagnosed N_Vm "launch-record-skew" Config)
      | None => strict
      end
  | Lifecycle.Missing | Lifecycle.Unreadable => Err unreadable
  end.

Inductive removal := Removed | NotThere | RemovalFailed.
Record session_world := mk_session_world {
  ss_resolved : result Resolved Failure;
  ss_runtime_root : result bytes Failure;
  ss_lock : lock_world;
  ss_socket : bool;                            (* the control socket exists *)
  ss_record : BootRecord;                      (* [read_boot_record] *)
  ss_vm_pid : file; ss_test_kill : Z -> kill_answer; ss_unit : show;
  ss_ping : bool; ss_wait : bool;              (* the handshake within [PING_TIMEOUT], and [AGENT_TIMEOUT] *)
  ss_stop : unit_world;
  ss_remove_boot : removal; ss_remove_pid : removal;
  ss_preflight : result bytes Failure;
  ss_build : build_world;
  ss_state : bytes;
  ss_meminfo : option bytes; ss_parallelism : option Z;
  ss_runner : runner_world;
  ss_record_after : BootRecord;                (* the record the launch left *)
  ss_session : result GuestSession Failure;    (* [launch_spec_record(..)?.guest_session] *)
  ss_project : bytes }.
Record Prepared := mk_Prepared { pr_control_socket : bytes; pr_boot : BootMetadata; pr_workspace_cwd : bytes; pr_session : GuestSession }.

Definition undecided : Failure := diagnosed N_Vm "vm-presence-undecided" Diagnostic.Unavailable.
Definition foreign : Failure := diagnosed N_Vm "foreign-boot-record" Diagnostic.Unavailable.
Definition unreachable : Failure := diagnosed N_Vm "agent-unreachable" Diagnostic.Unavailable.
Definition boot_record_skew : Failure := diagnosed N_Vm "boot-record-skew" Config.
Definition boot_record_unreadable : Failure := diagnosed N_Vm "boot-record-unreadable" Diagnostic.Unavailable.

Definition remove_record (name : bytes) (r : removal) : act unit :=
  match r with
  | Removed => do_ (RemoveRecord name)
  | NotThere => sret tt
  | RemovalFailed => fails (diagnosed N_Vm "stale-record" IoErr)
  end.
Definition stale (w : session_world) : act unit :=
  run_cmd (let! _ := stop_unit true None (ss_stop w) in sret tt) ;;
  remove_record (bs "boot.json") (ss_remove_boot w) ;;
  remove_record (bs "vm.pid") (ss_remove_pid w).

Definition presence (w : session_world) : Presence := vm_presence (ss_vm_pid w) (ss_test_kill w) (ss_unit w).
(** [match vm_presence(..)]: repair for a dead VM, the given refusal for a live one. *)
Definition repair_or (w : session_world) (live : Failure) : act (option BootMetadata) :=
  match presence w with
  | Dead => stale w ;; sret None
  | Live => fails live
  | Indeterminate => fails undecided
  end.
Definition paths_eqb (a b : list bytes) : bool := bool_decide (map components a = map components b).
Definition reusable (w : session_world) (sandbox_id : bytes) (workspace_paths : list bytes) : act (option BootMetadata) :=
  if negb (ss_socket w) then
    match presence w with
    | Dead => sret None
    | Live => fails unreachable
    | Indeterminate => fails undecided
    end
  else
    match ss_record w with
    | Skewed _ => repair_or w boot_record_skew
    | R_Absent | R_Unreadable => repair_or w unreachable
    | Ready boot =>
        if negb (bytes_eqb (bm_sandbox_id boot) sandbox_id) || negb (bytes_eqb (bm_target boot) DEFAULT_TARGET) then fails foreign
        else if negb (paths_eqb (bm_workspace_paths boot) workspace_paths) || negb (bytes_eqb (bm_backend boot) BACKEND)
        then repair_or w foreign
        else if ss_ping w then sret (Some boot)
        else
          match presence w with
          | Dead => stale w ;; sret None
          | Indeterminate => fails undecided
          | Live => if ss_wait w then sret (Some boot) else fails unreachable
          end
    end.
Definition prepared (w : session_world) (runtime : Runtime) (boot : BootMetadata) : act Prepared :=
  let! session := answer (ss_session w) in
  if existsb (path_starts_with (ss_project w)) (bm_workspace_paths boot)
  then sret (mk_Prepared (control_socket runtime) boot (ss_project w) session)
  else fails (diagnosed N_Vm "launch-record-unreadable" Diagnostic.Unavailable).
Definition cold_start (w : session_world) (resolved : Resolved) (runtime : Runtime) : act BootMetadata :=
  let! _ := answer (ss_preflight w) in
  let! (store_path, merged) := evaluate_and_build (ss_build w) resolved in
  launch (ss_runner w) (ss_state w) (rs_name resolved) runtime store_path
    (effective_resources merged (ss_meminfo w) (ss_parallelism w)) (rs_workspaces resolved) ;;
  match ss_record_after w with
  | Ready boot => sret boot
  | Skewed _ => fails boot_record_skew
  | R_Absent | R_Unreadable => fails boot_record_unreadable
  end.
Definition ensure_running (w : session_world) : act Prepared :=
  let! resolved := answer (ss_resolved w) in
  let! runtime_root := answer (ss_runtime_root w) in
  let! runtime := answer (locate runtime_root (rs_name resolved) DEFAULT_TARGET) in
  acquire (ss_lock w) ;;
  let! reused := reusable w (rs_name resolved) (rs_workspaces resolved) in
  let! boot := (match reused with Some boot => sret boot | None => cold_start w resolved runtime end) in
  prepared w runtime boot.
End start.
