(* ===== verification/StartSpec.v ===== *)
(** * StartSpec: what starting a VM may touch

    A session or a start never disturbs a VM it cannot show to be dead or was not told to replace; a refusal before
    the lock touches nothing; [--no-rebuild] and [--generation] evaluate nothing; what a boot leaves recorded; and two
    places where the code falls short of its own comments. *)
From S2P Require Import Prelude Bytes Paths Message Hybrid Mounts Launch AgentSource Spec Diagnostic Volumes Generations Lifecycle Stop Start.

(* ------------------------------------------------------------------ *)
(** ** Frames: which commands a run gives, and which records it leaves alone *)

Record keeps_frame := mk_keeps { k_profile : bool; k_running : bool; k_volumes : bool }.
Definition within (p : effect -> bool) (k : keeps_frame) (h h' : host) : Prop :=
  (exists cmds, h_log h' = h_log h ++ cmds /\ forallb p cmds = true) /\
  (k_profile k = true -> h_profile h' = h_profile h) /\
  (k_running k = true -> h_running_build h' = h_running_build h) /\
  (k_volumes k = true -> h_volumes h' = h_volumes h).
Definition frame {A} (p : effect -> bool) (k : keeps_frame) (m : act A) : Prop := forall h, within p k h (snd (m h)).

Lemma within_refl p k h : within p k h h.
Proof. split; [exists []; by rewrite app_nil_r|done]. Qed.
Lemma within_trans p k a b c : within p k a b -> within p k b c -> within p k a c.
Proof.
  intros ((l1 & E1 & P1) & H1 & H2 & H3) ((l2 & E2 & P2) & H4 & H5 & H6). split.
  - exists (l1 ++ l2). rewrite E2, E1, app_assoc, forallb_app, P1. by split.
  - split_and!; intros Hk; [rewrite H4, H1|rewrite H5, H2|rewrite H6, H3]; done.
Qed.
Section frames.
Context (p : effect -> bool) (k : keeps_frame).
Lemma frame_ret {A} (a : A) : frame p k (sret a).
Proof. intros h. apply within_refl. Qed.
Lemma frame_lift {A} (r : result A (Hybrid.stop Failure)) : frame p k (slift r).
Proof. intros h. apply within_refl. Qed.
Lemma frame_answer {A} (r : result A Failure) : frame p k (answer r).
Proof. intros h. apply within_refl. Qed.
Lemma frame_need {A} (o : option A) f : frame p k (need o f).
Proof. intros h. apply within_refl. Qed.
Lemma frame_fails {A} f : frame p k (@fails A f).
Proof. intros h. apply within_refl. Qed.
Lemma frame_bind {A B} (m : act A) (c : A -> act B) : frame p k m -> (forall a, frame p k (c a)) -> frame p k (sbind m c).
Proof.
  intros Hm Hc h. unfold sbind. specialize (Hm h). destruct (m h) as [[a|e] h1]; [|exact Hm].
  eapply within_trans; [exact Hm|apply Hc].
Qed.
Lemma frame_do e : p e = true -> frame p k (do_ e).
Proof. intros He h. split; [exists [e]; cbn; by rewrite He|done]. Qed.
Lemma frame_cmd {A} (c : cmd A) (Q : list effect -> result A (Hybrid.stop Failure) -> Prop) :
  gives c Q -> (forall cmds r, Q cmds r -> forallb p cmds = true) -> frame p k (run_cmd c).
Proof.
  intros Hg HQ h. unfold run_cmd. destruct (Hg (h_log h)) as (cmds & r & E & Hq). rewrite E.
  split; [exists cmds; split; [done|by eapply HQ]|done].
Qed.
Lemma frame_let {A} (f : host -> act A) : (forall x, frame p k (f x)) -> frame p k (fun h => f h h).
Proof. intros H h. apply H. Qed.
Lemma frame_if {A} (b : bool) (m n : act A) : frame p k m -> frame p k n -> frame p k (if b then m else n).
Proof. by destruct b. Qed.
End frames.
Create HintDb frame.
#[export] Hint Resolve frame_ret frame_lift frame_fails frame_answer frame_need : frame.
Ltac frame_tac := repeat first
  [ apply frame_bind; [|intros ?] | apply frame_do; reflexivity | apply frame_if
  | match goal with |- frame _ _ (match ?x with _ => _ end) => destruct x end
  | solve [auto with frame] ].

(** The commands of each stage. *)
Definition evaluates (e : effect) : bool := match e with Evaluate | BuildRunner | RecordGeneration _ | WriteVolumes => true | _ => false end.
Definition boots (e : effect) : bool := match e with WriteRunningBuild _ | RenderSpec _ _ | BootHandoff _ | FollowConsole => true | _ => false end.
Definition stops (e : effect) : bool := match e with AskShutdown | StopJob | KillGroup | RemoveRecord _ => true | _ => false end.

Lemma frame_acquire p k w : p TakeLock = true -> frame p k (acquire w).
Proof. intros Hp. unfold acquire. frame_tac. by apply frame_do. Qed.
Lemma frame_stop_unit p k force timeout w : p StopJob = true -> p KillGroup = true -> frame p k (run_cmd (let! _ := stop_unit force timeout w in sret tt)).
Proof.
  intros H1 H2. eapply (frame_cmd _ _ _ (fun cmds _ => forallb p cmds = true)); [|done].
  assert (Hc : forall b cmds r, unit_post b w cmds r -> forallb p cmds = true).
  { intros b cmds r H. assert (Hc : cmds = [StopJob] \/ cmds = [StopJob; KillGroup]) by (destruct r as [[[]|]|[f|]]; cbn in H; tauto).
    destruct Hc as [-> | ->]; cbn; by rewrite ?H1, ?H2. }
  eapply gives_bind; [apply stop_unit_post| |].
  - intros a cmds H. apply gives_ret. rewrite app_nil_r. by eapply Hc.
  - intros e cmds H. by eapply Hc.
Qed.

Section stages.
Context (exists_in_store : bytes -> bool) (to_vec_pretty : GenerationRecord -> option bytes).
Lemma frame_evaluate_and_build p w resolved :
  (forall e, evaluates e = true -> p e = true) -> frame p (mk_keeps false true false) (evaluate_and_build exists_in_store to_vec_pretty w resolved).
Proof.
  intros Hp. unfold evaluate_and_build, build_runner. frame_tac.
  all: try (apply frame_do; by apply Hp).
  - intros h. unfold record_generation. case_bool_decide; [apply within_refl|].
    destruct (append _ _ _ _ _) as [[n|e] q]; (split; [|done]); cbn.
    + exists [RecordGeneration n]. split; [done|]. cbn. by rewrite Hp.
    + exists []. by rewrite app_nil_r.
  - intros h. unfold write_volumes, place_volumes. destruct (b_volumes w); (split; [|done]); cbn.
    all: first [exists [WriteVolumes]; split; [done|]; cbn; by rewrite Hp | exists []; by rewrite app_nil_r].
Qed.
Lemma frame_write_build_record p k writable store_path :
  (forall e, boots e = true -> p e = true) -> k_running k = false -> frame p k (write_build_record writable store_path).
Proof.
  intros Hp Hk. unfold write_build_record. destruct writable; [|auto with frame]. intros h. cbn.
  split; [|split; [done|split; [by rewrite Hk|done]]]. exists [WriteRunningBuild store_path]. split; [done|]. cbn. by rewrite Hp.
Qed.
Lemma frame_execute_runner p k w state store_path runtime sandbox_id resources paths :
  (forall e, boots e = true -> p e = true) -> frame p k (execute_runner w state store_path runtime sandbox_id resources paths).
Proof. intros Hp. unfold execute_runner, boot_rendered_spec. frame_tac; apply frame_do; by apply Hp. Qed.
Lemma frame_launch p k w state store_path runtime sandbox_id resources paths :
  (forall e, boots e = true -> p e = true) -> k_running k = false -> frame p k (launch w state sandbox_id runtime store_path resources paths).
Proof.
  intros Hp Hk. unfold launch. apply frame_bind; [auto with frame|intros _].
  apply frame_bind; [by apply frame_write_build_record|intros _]. by apply frame_execute_runner.
Qed.
End stages.

(* ------------------------------------------------------------------ *)
(** ** Sessions *)

Lemma sbind_lift {S E A B} (r : result A E) (k : A -> sem S E B) s :
  sbind (fun s => (r, s)) k s = match r with Ok a => k a s | Err e => (Err e, s) end.
Proof. by destruct r. Qed.
Lemma sbind_do {B} e (k : unit -> act B) h : sbind (do_ e) k h = k tt (log_effect e h).
Proof. done. Qed.
Lemma acquire_cases w h : (exists f, acquire w h = (Err (Failed f), h)) \/ acquire w h = (Ok tt, log_effect TakeLock h).
Proof.
  unfold acquire. destruct (lock_answer w) as [[]|f]; [by right|left; by exists f].
Qed.
(** When a VM is reused: the record in force is this version's and names this sandbox, target, workspace set and
    backend, and its own agent answered - at once, or while the VM is known to be alive. *)
Definition may_reuse (w : session_world) (sandbox_id : bytes) (workspaces : list bytes) (boot : BootMetadata) : Prop :=
  ss_socket w = true /\ ss_record w = Ready boot /\ bm_sandbox_id boot = sandbox_id /\ bm_target boot = DEFAULT_TARGET /\
  map components (bm_workspace_paths boot) = map components workspaces /\ bm_backend boot = BACKEND /\
  (ss_ping w = true \/ presence w = Live /\ ss_wait w = true).
Definition answers {A} (m : act A) (P : result A (Hybrid.stop Failure) -> Prop) : Prop := forall h, P (fst (m h)) /\ snd (m h) = h.
(** What [reusable] decides without touching the host. *)
Lemma reusable_alive w n ws :
  presence w <> Dead -> answers (reusable w n ws) (fun r => r <> Ok None /\ forall boot, r = Ok (Some boot) <-> may_reuse w n ws boot).
Proof.
  intros Hd h. unfold reusable, repair_or, may_reuse.
  destruct (ss_socket w); cbn [negb]; [|destruct (presence w); cbn; [naive_solver|done|naive_solver]].
  destruct (ss_record w) as [| |v|boot] eqn:Er; try (destruct (presence w); cbn; [naive_solver|done|naive_solver]).
  destruct (bytes_eqb (bm_sandbox_id boot) n) eqn:E1, (bytes_eqb (bm_target boot) DEFAULT_TARGET) eqn:E2; cbn [negb orb];
    rewrite ?bytes_eqb_true in *; try (apply bool_decide_eq_false in E1); try (apply bool_decide_eq_false in E2);
    try (cbn; naive_solver).
  destruct (paths_eqb (bm_workspace_paths boot) ws) eqn:E3, (bytes_eqb (bm_backend boot) BACKEND) eqn:E4; cbn [negb orb];
    rewrite ?bytes_eqb_true in *; unfold paths_eqb in E3; first [apply bool_decide_eq_false in E3 | apply bool_decide_eq_true in E3];
    try (apply bool_decide_eq_false in E4);
    try (destruct (presence w); cbn; [naive_solver|done|naive_solver]).
  destruct (ss_ping w); [cbn; naive_solver|]. destruct (presence w); [|done|cbn; naive_solver].
  destruct (ss_wait w); cbn; naive_solver.
Qed.

(** C9: A session never disturbs a VM it cannot show to be dead. Unless the presence judgment is [Dead] - which needs
    positive evidence - the whole routine behind [viv exec] and [viv shell] gives no command but the taking of the
    target lock: nothing is stopped, killed, removed, evaluated, built, recorded or booted, whatever the records, the
    socket and the agent say; and it opens a session only on a VM that may be reused. *)
Theorem session_never_disturbs_a_live_vm (exists_in_store : bytes -> bool) (to_vec : GenerationRecord -> option bytes)
    (w : session_world) (h : host) (Halive : presence w <> Dead) :
  (snd (ensure_running exists_in_store to_vec w h) = h \/ snd (ensure_running exists_in_store to_vec w h) = log_effect TakeLock h) /\
  (forall p, fst (ensure_running exists_in_store to_vec w h) = Ok p ->
     exists resolved, ss_resolved w = Ok resolved /\ may_reuse w (rs_name resolved) (rs_workspaces resolved) (pr_boot p) /\
       pr_workspace_cwd p = ss_project w /\
       existsb (path_starts_with (ss_project w)) (bm_workspace_paths (pr_boot p)) = true).
Proof.
  enough (Hrun : exists r h', ensure_running exists_in_store to_vec w h = (r, h') /\ (h' = h \/ h' = log_effect TakeLock h) /\
    (forall p, r = Ok p -> exists resolved, ss_resolved w = Ok resolved /\ may_reuse w (rs_name resolved) (rs_workspaces resolved) (pr_boot p) /\
       pr_workspace_cwd p = ss_project w /\ existsb (path_starts_with (ss_project w)) (bm_workspace_paths (pr_boot p)) = true)).
  { destruct Hrun as (r & h' & -> & H1 & H2). by split. }
  unfold ensure_running, answer, slift. rewrite sbind_lift. destruct (ss_resolved w) as [resolved|f]; cbn [map_err]; [|by do 2 eexists; split; [|split; [left|]]].
  rewrite sbind_lift. destruct (ss_runtime_root w) as [root|f]; cbn [map_err]; [|by do 2 eexists; split; [|split; [left|]]].
  rewrite sbind_lift. destruct (locate _ _ _) as [runtime|f]; cbn [map_err]; [|by do 2 eexists; split; [|split; [left|]]].
  destruct (acquire_cases (ss_lock w) h) as [[e E]|E]; [rewrite (sbind_run_err _ _ _ _ _ E)|rewrite (sbind_run _ _ _ _ _ E)]; [by do 2 eexists; split; [|split; [left|]]|].
  destruct (reusable_alive w (rs_name resolved) (rs_workspaces resolved) Halive (log_effect TakeLock h)) as [[Hn Hiff] Hh].
  destruct (reusable _ _ _ _) as [r h1] eqn:Er; cbn [fst snd] in *; subst h1.
  destruct r as [[boot|]|e]; [rewrite (sbind_run _ _ _ _ _ Er)|done|rewrite (sbind_run_err _ _ _ _ _ Er); by do 2 eexists; split; [|split; [right|]]].
  assert (Hm : may_reuse w (rs_name resolved) (rs_workspaces resolved) boot) by (by apply Hiff).
  rewrite (sbind_run _ _ _ boot (log_effect TakeLock h)) by done. unfold prepared, answer, slift. rewrite sbind_lift.
  destruct (ss_session w) as [session|f]; cbn [map_err]; [|by do 2 eexists; split; [|split; [right|]]].
  destruct (existsb _ _) eqn:Ee; [|by do 2 eexists; split; [|split; [right|]]].
  do 2 eexists. split; [done|]. split; [by right|]. intros p [= <-]. exists resolved. by split_and!.
Qed.

(* ------------------------------------------------------------------ *)
(** ** Starts *)

Section starts.
Context (exists_in_store : bytes -> bool) (to_vec : GenerationRecord -> option bytes).

(** What is left of a start once the lock is held; the preamble gives no command. *)
Definition held (rebuild no_rebuild : bool) (generation : option Z) (follow : bool) (w : start_world) (resolved : Resolved) (runtime : Runtime) : act StartOutcome :=
  fun h =>
    (let! chosen := select_build exists_in_store to_vec w resolved no_rebuild generation (is_running exists_in_store w h) in
     match chosen with
     | inl outcome => sret outcome
     | inr (store_path, merged) => ensure_booted exists_in_store w resolved runtime rebuild follow (is_running exists_in_store w h) store_path merged
     end) h.
Lemma perform_start_cases rebuild no_rebuild generation follow w h :
  (exists f, perform_start exists_in_store to_vec rebuild no_rebuild generation follow w h = (Err (Failed f), h)) \/
  exists resolved root runtime b, sw_resolved w = Ok resolved /\ sw_preflight w = Ok root /\ admission (sw_available w) (sw_fleet w) = Ok b /\
    locate root (rs_name resolved) DEFAULT_TARGET = Ok runtime /\
    perform_start exists_in_store to_vec rebuild no_rebuild generation follow w h =
      held rebuild no_rebuild generation follow w resolved runtime (log_effect TakeLock h).
Proof.
  unfold perform_start, answer, slift.
  rewrite sbind_lift. destruct (sw_resolved w) as [resolved|f]; [|by left; eexists]. cbn [map_err].
  rewrite sbind_lift. destruct (sw_preflight w) as [root|f]; [|by left; eexists]. cbn [map_err].
  rewrite sbind_lift. destruct (admission _ _) as [b|f]; [|by left; eexists]. cbn [map_err].
  rewrite sbind_lift. destruct (locate _ _ _) as [runtime|f] eqn:El; [|by left; eexists]. cbn [map_err].
  destruct (acquire_cases (sw_lock w) h) as [[f E]|E]; [rewrite (sbind_run_err _ _ _ _ _ E); by left; eexists|].
  rewrite (sbind_run _ _ _ _ _ E). right. by exists resolved, root, runtime, b.
Qed.

(** A start leaves a running VM alone. When the discriminator finds the VM running and [--rebuild] was not given,
    no run of the verb - on any of its sources, whatever fails - stops, kills, renders or boots anything, and the record
    of the build the VM was launched from is unchanged; and if the verb succeeds it says the VM is already running,
    and calls it stale only against a recorded build. *)
Theorem start_preserves_a_running_vm (no_rebuild : bool) (generation : option Z) (follow : bool) (w : start_world) (h : host)
    (Hrunning : is_running exists_in_store w h = true) :
  let '(r, h') := perform_start exists_in_store to_vec false no_rebuild generation follow w h in
  h_running_build h' = h_running_build h /\
  (exists cmds, h_log h' = h_log h ++ cmds /\ forallb (fun e => negb (boots e) && negb (stops e)) cmds = true) /\
  (forall outcome, r = Ok outcome -> exists s, outcome = AlreadyRunning s /\
     (s = true -> exists launched, running_build exists_in_store h = Some launched)).
Proof.
  destruct (perform_start_cases false no_rebuild generation follow w h) as [[f ->]|(resolved & root & runtime & b & _ & _ & _ & _ & ->)].
  { split; [done|]. split; [exists []; by rewrite app_nil_r|done]. }
  set (p := fun e => negb (boots e) && negb (stops e)).
  assert (Hw : within p (mk_keeps false true false) h (log_effect TakeLock h)) by (split; [by exists [TakeLock]|done]).
  assert (Hr : is_running exists_in_store w (log_effect TakeLock h) = true) by done.
  unfold held. rewrite Hr.
  assert (Hsel : frame p (mk_keeps false true false) (select_build exists_in_store to_vec w resolved no_rebuild generation true)).
  { unfold select_build. intros h0. destruct generation as [n|]; [apply frame_bind; [auto with frame|intros; auto with frame]|].
    destruct no_rebuild; [apply within_refl|]. apply frame_bind; [|auto with frame].
    apply frame_evaluate_and_build. by intros []. }
  destruct (select_build exists_in_store to_vec w resolved no_rebuild generation true (log_effect TakeLock h)) as [[chosen|e] h1] eqn:Es;
    pose proof (Hsel (log_effect TakeLock h)) as Hs; rewrite Es in Hs; cbn [snd] in Hs; pose proof (within_trans _ _ _ _ _ Hw Hs) as (Hlog & _ & Hrun & _).
  2: { rewrite (sbind_run_err _ _ _ _ _ Es). split; [by apply Hrun|]. by split. }
  rewrite (sbind_run _ _ _ _ _ Es). destruct chosen as [outcome|[store_path merged]].
  - cbn. split; [by apply Hrun|]. split; [done|]. intros ? [= <-]. unfold select_build in Es.
    destruct generation as [n|].
    { unfold answer, slift in Es. rewrite sbind_lift in Es. by destruct (retained_boot _ _ _ _). }
    destruct no_rebuild; [injection Es as <- _; by exists false|].
    unfold sbind in Es. by destruct (evaluate_and_build _ _ _ _ _) as [[?|?] ?].
  - cbn. split; [by apply Hrun|]. split; [done|]. intros ? [= <-]. eexists. split; [done|].
    intros Hs'. unfold stale_build in Hs'. assert (Hb : running_build exists_in_store h1 = running_build exists_in_store h).
    { unfold running_build. by rewrite Hrun. }
    rewrite Hb in Hs'. destruct (running_build exists_in_store h) as [l|]; [by exists l|done].
Qed.

(** A start that is refused early leaves nothing behind, and a start that evaluates nothing changes no record of
    an evaluation. An unresolved project, an unmet preflight or a refused admission returns its own failure with the
    host untouched, the target lock included; and under [--no-rebuild] or [--generation] no run, successful or not,
    evaluates, builds or appends a generation, and the profile and the volume record (which decides which volumes are
    live) are what they were. *)
Theorem start_without_evaluation (rebuild no_rebuild : bool) (generation : option Z) (follow : bool) (w : start_world) (h : host)
    (Hsource : no_rebuild = true \/ generation <> None) :
  let '(r, h') := perform_start exists_in_store to_vec rebuild no_rebuild generation follow w h in
  (forall f, sw_resolved w = Err f \/ (is_ok (sw_resolved w) = true /\ sw_preflight w = Err f) \/
       (is_ok (sw_resolved w) = true /\ is_ok (sw_preflight w) = true /\ admission (sw_available w) (sw_fleet w) = Err f) ->
     r = Err (Failed f) /\ h' = h) /\
  h_profile h' = h_profile h /\ h_volumes h' = h_volumes h /\
  (exists cmds, h_log h' = h_log h ++ cmds /\ forallb (fun e => negb (evaluates e)) cmds = true).
Proof.
  set (p := fun e => negb (evaluates e)). set (k := mk_keeps true false true).
  assert (Hearly : forall f, sw_resolved w = Err f \/ (is_ok (sw_resolved w) = true /\ sw_preflight w = Err f) \/
       (is_ok (sw_resolved w) = true /\ is_ok (sw_preflight w) = true /\ admission (sw_available w) (sw_fleet w) = Err f) ->
     perform_start exists_in_store to_vec rebuild no_rebuild generation follow w h = (Err (Failed f), h)).
  { intros f Hf. unfold perform_start, answer, slift. rewrite sbind_lift.
    destruct (sw_resolved w); [|by destruct Hf as [[= ->]|[[? _]|[? _]]]]. cbn [map_err]. rewrite sbind_lift.
    destruct (sw_preflight w); [|by destruct Hf as [?|[[_ [= ->]]|(_ & ? & _)]]]. cbn [map_err]. rewrite sbind_lift.
    destruct (admission _ _); [|by destruct Hf as [?|[[_ ?]|(_ & _ & [= ->])]]].
    exfalso. by destruct Hf as [?|[[_ ?]|(_ & _ & ?)]]. }
  enough (Hin : within p k h (snd (perform_start exists_in_store to_vec rebuild no_rebuild generation follow w h))).
  { destruct (perform_start _ _ _ _ _ _ _ _) as [r h']. destruct Hin as (Hlog & Hp & _ & Hv). cbn [snd] in *.
    split; [|split; [by apply Hp|split; [by apply Hv|done]]]. intros f Hf. by injection (Hearly f Hf) as -> ->. }
  destruct (perform_start_cases rebuild no_rebuild generation follow w h) as [[f ->]|(resolved & root & runtime & b & _ & _ & _ & _ & ->)]; [apply within_refl|].
  assert (Hw : within p k h (log_effect TakeLock h)) by (split; [by exists [TakeLock]|done]).
  eapply within_trans; [exact Hw|]. unfold held. generalize (is_running exists_in_store w (log_effect TakeLock h)) as running. intros running.
  assert (Hsel : frame p k (select_build exists_in_store to_vec w resolved no_rebuild generation running)).
  { intros h0. unfold select_build. destruct generation as [n|]; [apply frame_bind; [auto with frame|intros; auto with frame]|].
    destruct Hsource as [-> |]; [|done]. destruct running; [apply within_refl|]. apply frame_bind; [auto with frame|intros; auto with frame]. }
  refine (frame_bind p k _ _ Hsel _ _). intros [outcome|[store_path merged]]; [auto with frame|].
  intros h0. unfold ensure_booted. destruct (running && negb rebuild); [apply within_refl|].
  apply frame_bind; [destruct rebuild; [by apply frame_stop_unit|auto with frame]|intros _].
  apply frame_bind; [destruct follow; [by apply frame_do|auto with frame]|intros _].
  apply frame_bind; [|auto with frame]. apply frame_launch; [by intros []|done].
Qed.

(** A launch that succeeded: the contract it was checked against, and the record it left. *)
Lemma launch_ok w state sandbox_id runtime store_path resources paths h u h' :
  launch w state sandbox_id runtime store_path resources paths h = (Ok u, h') ->
  (exists raw, read_text (rw_published_schema w store_path) = Some raw /\ u32_parse (trim raw) = Some LAUNCH_SCHEMA_VERSION) /\
  h_running_build h' = Content (store_path ++ newline) /\ h_profile h' = h_profile h /\ h_volumes h' = h_volumes h /\
  exists argv, h_log h' = h_log h ++ [WriteRunningBuild store_path;
    RenderSpec (join (join store_path (bs "bin")) (bs "vivarium-base-image")) argv; BootHandoff (join (directory runtime) (bs "launch.json"))].
Proof.
  unfold launch, answer, slift. rewrite sbind_lift. destruct (require_current_contract _) as [u0|] eqn:Ec; [|done]. cbn [map_err].
  unfold write_build_record. destruct (rw_record_writable w); [|done]. intros H.
  rewrite (sbind_run _ _ _ tt (mk_host (h_profile h) (Content (store_path ++ newline)) (h_volumes h) (h_log h ++ [WriteRunningBuild store_path]))) in H by done.
  unfold execute_runner, answer, slift in H.
  rewrite sbind_lift in H. destruct (resolve_declared_mounts w store_path) as [mounts|]; [|done]. cbn [map_err] in H.
  rewrite sbind_lift in H. destruct (declared_credentials _ _ _) as [ids|]; [|done]. cbn [map_err] in H.
  rewrite sbind_lift in H. destruct (resolve_declared_agent_sockets w ids) as [agents|]; [|done]. cbn [map_err] in H.
  rewrite sbind_lift in H. destruct (guard_err _ _) as [|]; [|done]. cbn [map_err] in H.
  rewrite sbind_lift in H. destruct (installation_programs w) as [[viv supervisor]|]; [|done]. cbn [map_err] in H.
  rewrite sbind_do in H. destruct (rw_runner w) as [|[] ?]; try done.
  unfold boot_rendered_spec in H. rewrite sbind_do in H. destruct (rw_handoff w) as [|[] ?]; try done.
  injection H as _ <-. split.
  - unfold require_current_contract in Ec. destruct (read_text _) as [raw|]; [|done]. exists raw. split; [done|].
    destruct (u32_parse (trim raw)) as [theirs|]; [|done]. destruct (Z.eqb_spec theirs LAUNCH_SCHEMA_VERSION); [by subst|done].
  - cbn. split_and!; [done..|]. eexists. by rewrite <- !app_assoc.
Qed.

(** What an evaluating source built, and the volume record it left. *)
Lemma evaluate_and_build_ok w resolved h built merged h' :
  evaluate_and_build exists_in_store to_vec w resolved h = (Ok (built, merged), h') ->
  exists ev stdout, b_evaluate w = Ok ev /\ b_build w = Exited true stdout /\ built = trim (default [] (last (lines stdout))) /\ built <> [] /\
    merged = ev_resources ev /\
    h_volumes h' = Content (render_record (mk_VolumeRecord (composition_of (rs_manifest resolved)) (ev_volumes ev))) /\
    h_running_build h' = h_running_build h /\
    exists gens, h_log h' = h_log h ++ [Evaluate; BuildRunner] ++ gens ++ [WriteVolumes] /\ (gens = [] \/ exists n, gens = [RecordGeneration n]).
Proof.
  unfold evaluate_and_build, answer, slift. rewrite sbind_do, sbind_lift. destruct (b_evaluate w) as [ev|] eqn:Eev; [|done]. cbn [map_err].
  unfold build_runner at 1. intros H. apply sbind_ok in H as (built' & h1 & Hb & H). rewrite sbind_do in Hb.
  destruct (b_build w) as [|[] stdout] eqn:Eb; try done. case_bool_decide as Hne; [done|]. injection Hb as <- <-.
  apply sbind_ok in H as (u & h2 & Hg & H). apply sbind_ok in H as (u' & h3 & Hw & H). injection H as <- <- <-.
  unfold write_volumes in Hw. destruct (b_volumes w); try done. injection Hw as _ <-.
  assert (Hrec : h_running_build h2 = h_running_build h /\ exists gens, h_log h2 = h_log h ++ [Evaluate; BuildRunner] ++ gens /\ (gens = [] \/ exists n, gens = [RecordGeneration n])).
  { unfold record_generation in Hg. case_bool_decide.
    - injection Hg as _ <-. cbn. split; [done|]. exists []. split; [by rewrite <- !app_assoc|by left].
    - destruct (append _ _ _ _ _) as [[n|e] q]; [|done]. injection Hg as _ <-. cbn. split; [done|]. exists [RecordGeneration n].
      split; [by rewrite <- !app_assoc|right; by exists n]. }
  destruct Hrec as (Hr & gens & Hl & Hgens). exists ev, stdout. split_and!; try done.
  exists gens. split; [|done]. cbn. by rewrite Hl, <- !app_assoc.
Qed.

(** Where the build that is booted came from. *)
Definition selected (no_rebuild : bool) (generation : option Z) (w : start_world) (resolved : Resolved) (h h' : host) (store_path : bytes) : Prop :=
  match generation with
  | Some number => links (h_profile h) !! link number = Some store_path /\ exists_in_store store_path = true
  | None =>
      if no_rebuild then last_build exists_in_store (h_profile h) = Some store_path
      else exists ev stdout, b_evaluate (sw_build w) = Ok ev /\ b_build (sw_build w) = Exited true stdout /\
             store_path = trim (default [] (last (lines stdout))) /\ store_path <> [] /\
             h_volumes h' = Content (render_record (mk_VolumeRecord (composition_of (rs_manifest resolved)) (ev_volumes ev)))
  end.

(** What the selection chooses, when it answers: nothing to boot over a running VM, or the build the source names. *)
Lemma select_build_ok no_rebuild generation w resolved h chosen h1 :
  select_build exists_in_store to_vec w resolved no_rebuild generation (is_running exists_in_store w h) h = (Ok chosen, h1) ->
  (exists stale, chosen = inl (AlreadyRunning stale)) \/
  exists store_path merged pre, chosen = inr (store_path, merged) /\
    (forall h', h_volumes h' = h_volumes h1 -> selected no_rebuild generation w resolved h h' store_path) /\
    (is_running exists_in_store w h = true -> generation = None) /\ h_log h1 = h_log h ++ pre.
Proof.
  unfold select_build. destruct generation as [n|].
  - unfold answer, slift. rewrite sbind_lift. unfold retained_boot. destruct (is_running _ w h) eqn:Er; [done|].
    destruct (links (h_profile h) !! link n) as [target|] eqn:El; [|done]. destruct (exists_in_store target) eqn:Ex; [|done].
    intros [= <- <-]. right. exists target, None, []. rewrite app_nil_r. by split_and!.
  - destruct no_rebuild; [destruct (is_running _ w h) eqn:Er|].
    + intros [= <- <-]. left. by eexists.
    + unfold need, answer, slift. rewrite sbind_lift. destruct (last_build _ _) as [l|] eqn:El; [|done].
      intros [= <- <-]. right. exists l, None, []. rewrite app_nil_r. by split_and!.
    + intros ([built m] & h2 & Hb & Hsel)%sbind_ok. injection Hsel as <- <-.
      apply evaluate_and_build_ok in Hb as (ev & stdout & H1 & H2 & H3 & H4 & H5 & H6 & _ & gens & H7 & _).
      right. exists built, m. eexists. split; [done|]. split; [|split; [done|exact H7]].
      intros h' Hv. exists ev, stdout. split_and!; try done. by rewrite Hv.
Qed.
(** What a boot went through: the stop a rebuild asks for, the console, the launch. *)
Lemma ensure_booted_ok w resolved runtime rebuild follow running store_path merged h r h' :
  ensure_booted exists_in_store w resolved runtime rebuild follow running store_path merged h = (Ok (Booted r), h') ->
  (running = true -> rebuild = true) /\ h_volumes h' = h_volumes h /\ h_running_build h' = Content (store_path ++ newline) /\
  (exists raw, read_text (rw_published_schema (sw_runner w) store_path) = Some raw /\ u32_parse (trim raw) = Some LAUNCH_SCHEMA_VERSION) /\
  exists cmds argv, (rebuild = true -> StopJob ∈ cmds) /\
    h_log h' = h_log h ++ cmds ++ [WriteRunningBuild store_path; RenderSpec (join (join store_path (bs "bin")) (bs "vivarium-base-image")) argv;
      BootHandoff (join (directory runtime) (bs "launch.json"))].
Proof.
  unfold ensure_booted. destruct (running && negb rebuild) eqn:Erun; [done|].
  intros (u1 & h2 & Hstop & (u2 & h3 & Hfollow & (u3 & h4 & Hlaunch & Hok)%sbind_ok)%sbind_ok)%sbind_ok. injection Hok as _ <-.
  apply launch_ok in Hlaunch as (Hraw & Hrb & Hp & Hv & argv & Hl).
  assert (Hst : h_volumes h2 = h_volumes h /\ exists cmds, h_log h2 = h_log h ++ cmds /\ (rebuild = true -> StopJob ∈ cmds)).
  { destruct rebuild; [|injection Hstop as _ <-; split; [done|]; exists []; by rewrite app_nil_r].
    unfold run_cmd in Hstop. destruct (sbind _ _ (h_log h)) as [r0 log] eqn:Es. injection Hstop as -> <-. split; [done|]. cbn.
    apply sbind_ok in Es as (rung & log1 & Eu & Es). injection Es as _ <-.
    destruct (stop_unit_post false None (sw_stop w) (h_log h)) as (cmds & r1 & Eu' & Hpost). rewrite Eu in Eu'. injection Eu' as <- ->.
    exists cmds. split; [done|]. intros _. cbn in Hpost. destruct rung as [[]|]; destruct Hpost as [-> _] || done; by left. }
  destruct Hst as (Hv2 & cmds & Hl2 & Hstopjob).
  assert (Hfo : h_volumes h3 = h_volumes h2 /\ exists fcmds, h_log h3 = h_log h2 ++ fcmds).
  { destruct follow; injection Hfollow as _ <-; (split; [done|]); [by exists [FollowConsole]|exists []; by rewrite app_nil_r]. }
  destruct Hfo as (Hv3 & fcmds & Hl3).
  split_and!; [by destruct running, rebuild|congruence|done|done|]. exists (cmds ++ fcmds), argv. split.
  - intros Hr. apply elem_of_app. left. by apply Hstopjob.
  - rewrite Hl, Hl3, Hl2. by rewrite <- !app_assoc.
Qed.

(** C10: What a start that boots has done. Whenever [start] reports a boot: the host was admitted and the lock taken
    first; the booted output is the one the source names - the link of the named generation, the current build, or what
    this run evaluated and built, with the volume record of that very evaluation published; it publishes exactly this
    binary's launch contract; [running-build] names it; a VM that was running was only replaced under [--rebuild], with
    the stop given before the boot; and the last commands are the record, the rendering by the build's own program and
    the handoff. *)
Theorem start_boots_what_was_selected (rebuild no_rebuild : bool) (generation : option Z) (follow : bool) (w : start_world) (h h' : host) (r : Resources)
    (Hok : perform_start exists_in_store to_vec rebuild no_rebuild generation follow w h = (Ok (Booted r), h')) :
  exists resolved root runtime store_path raw argv pre,
    sw_resolved w = Ok resolved /\ sw_preflight w = Ok root /\ is_ok (admission (sw_available w) (sw_fleet w)) = true /\
    locate root (rs_name resolved) DEFAULT_TARGET = Ok runtime /\
    selected no_rebuild generation w resolved h h' store_path /\
    read_text (rw_published_schema (sw_runner w) store_path) = Some raw /\ u32_parse (trim raw) = Some LAUNCH_SCHEMA_VERSION /\
    h_running_build h' = Content (store_path ++ newline) /\
    (is_running exists_in_store w h = true -> rebuild = true /\ generation = None) /\ (rebuild = true -> StopJob ∈ pre) /\
    h_log h' = h_log h ++ [TakeLock] ++ pre ++
      [WriteRunningBuild store_path; RenderSpec (join (join store_path (bs "bin")) (bs "vivarium-base-image")) argv;
       BootHandoff (join (directory runtime) (bs "launch.json"))].
Proof.
  destruct (perform_start_cases rebuild no_rebuild generation follow w h) as [[f E]|(resolved & root & runtime & b & Hres & Hpre & Hadm & Hloc & E)];
    rewrite E in Hok; [done|].
  change (held rebuild no_rebuild generation follow w resolved runtime (log_effect TakeLock h) = (Ok (Booted r), h')) in Hok. unfold held in Hok.
  apply sbind_ok in Hok as (chosen & h1 & Hsel & Hok).
  apply select_build_ok in Hsel as [[stale ->]|(store_path & merged & pre & -> & Hselected & Hgen & Hlog1)]; [done|].
  apply ensure_booted_ok in Hok as (Hrun & Hv & Hrb & (raw & Hraw & Hcontract) & cmds & argv & Hstop & Hl).
  exists resolved, root, runtime, store_path, raw, argv, (pre ++ cmds). split_and!; try done.
  - by rewrite Hadm.
  - by apply Hselected.
  - intros Hr. split; [by apply Hrun|by apply Hgen].
  - intros Hr. apply elem_of_app. right. by apply Hstop.
  - rewrite Hl, Hlog1. cbn. by rewrite <- !app_assoc.
Qed.
End starts.

(* ------------------------------------------------------------------ *)
(** ** Where the code falls short of its comments *)

(** A boot refused before anything ran still names its build. [launch] writes [running-build] ahead of the launch
    so that a refused boot does not leave it naming a build that never ran; but the declared mounts and the credential
    channels are resolved after that write, so a start refused over a missing mount source, with no program run, leaves
    the record naming the refused build. *)
Theorem refused_mount_leaves_running_build (w : runner_world) (state sandbox_id : bytes) (runtime : Runtime) (store_path : bytes)
    (resources : Resources) (paths : list bytes) (h : host) (f : Failure)
    (Hcontract : require_current_contract (rw_published_schema w store_path) = Ok tt) (Hwritable : rw_record_writable w = true)
    (Hrefused : resolve_declared_mounts w store_path = Err f) :
  launch w state sandbox_id runtime store_path resources paths h =
    (Err (Failed f), mk_host (h_profile h) (Content (store_path ++ newline)) (h_volumes h) (h_log h ++ [WriteRunningBuild store_path])).
Proof.
  unfold launch, answer, slift. rewrite sbind_lift, Hcontract. cbn [map_err]. unfold write_build_record. rewrite Hwritable.
  rewrite (sbind_run _ _ _ tt (mk_host (h_profile h) (Content (store_path ++ newline)) (h_volumes h) (h_log h ++ [WriteRunningBuild store_path]))) by done.
  unfold execute_runner, answer, slift. rewrite sbind_lift, Hrefused. done.
Qed.

(** C0: [start] does not ask the question a session asks. For a VM whose recorded process is alive while the manager
    cannot be reached, the presence judgment is [Indeterminate], which a session refuses because neither reusing nor
    replacing it is safe; [start] reads the same answers as "not running", so with a last build at hand it goes on to
    the launch and overwrites the record of the build the living VM was launched from. *)
Theorem start_boots_over_an_undecided_vm (exists_in_store : bytes -> bool) (to_vec : GenerationRecord -> option bytes) (w : start_world)
    (resolved : Resolved) (root store_path : bytes) (runtime : Runtime) (h : host)
    (Hresolved : sw_resolved w = Ok resolved) (Hpreflight : sw_preflight w = Ok root) (Hadmitted : is_ok (admission (sw_available w) (sw_fleet w)) = true)
    (Hlocate : locate root (rs_name resolved) DEFAULT_TARGET = Ok runtime) (Hlock : sw_lock w = mk_lock_world true true LockTaken)
    (Halive : recorded_pid_liveness (sw_vm_pid w) (sw_test_kill w) = Some true) (Hsilent : sw_unit w = NotRun)
    (Hbuild : last_build exists_in_store (h_profile h) = Some store_path)
    (Hcontract : require_current_contract (rw_published_schema (sw_runner w) store_path) = Ok tt) (Hwritable : rw_record_writable (sw_runner w) = true) :
  vm_presence (sw_vm_pid w) (sw_test_kill w) (sw_unit w) = Indeterminate /\
  h_running_build (snd (perform_start exists_in_store to_vec false true None false w h)) = Content (store_path ++ newline) /\
  WriteRunningBuild store_path ∈ h_log (snd (perform_start exists_in_store to_vec false true None false w h)).
Proof.
  split. { unfold vm_presence. rewrite Halive, Hsilent. done. }
  assert (Hnot : is_running exists_in_store w (log_effect TakeLock h) = false).
  { unfold is_running, discriminate. rewrite Hsilent. cbn [unit_active_state]. apply bool_decide_eq_false.
    unfold classify. destruct (_ || _), (vm_is_alive _ _); try done; cbn; by destruct (bool_decide _). }
  unfold perform_start, answer, slift. rewrite sbind_lift, Hresolved. cbn [map_err]. rewrite sbind_lift, Hpreflight. cbn [map_err].
  rewrite sbind_lift. destruct (admission _ _); [|done]. cbn [map_err]. rewrite sbind_lift, Hlocate. cbn [map_err].
  rewrite Hlock. unfold acquire, lock_answer. cbn [lk_directory lk_open lk_try negb]. rewrite sbind_do, Hnot.
  set (h0 := log_effect TakeLock h) in *.
  assert (Hsel : select_build exists_in_store to_vec w resolved true None false h0 = (Ok (inr (store_path, None)), h0)).
  { unfold select_build, need, answer, slift. rewrite sbind_lift. cbn [h_profile h0 log_effect]. unfold h0. cbn [log_effect h_profile]. by rewrite Hbuild. }
  rewrite (sbind_run _ _ _ _ _ Hsel). unfold ensure_booted. cbn [andb]. set (rs := effective_resources _ _ _).
  set (lw := launch _ _ _ _ _ _ _).
  assert (Hl : exists r cmds, lw h0 = (r, mk_host (h_profile h) (Content (store_path ++ newline)) (h_volumes h) (h_log h ++ [TakeLock; WriteRunningBuild store_path] ++ cmds))).
  { unfold lw, launch, answer, slift. rewrite sbind_lift, Hcontract. cbn [map_err]. unfold write_build_record. rewrite Hwritable.
    set (h2 := mk_host (h_profile h) (Content (store_path ++ newline)) (h_volumes h) (h_log h ++ [TakeLock; WriteRunningBuild store_path])).
    rewrite (sbind_run _ _ _ tt h2) by (unfold h2, h0; cbn; by rewrite <- app_assoc).
    pose proof (frame_execute_runner (fun _ => true) (mk_keeps true true true) (sw_runner w) (sw_state w) store_path runtime (rs_name resolved) rs (rs_workspaces resolved) ltac:(done) h2) as Hf.
    destruct (execute_runner _ _ _ _ _ _ _ h2) as [r h3]. destruct Hf as ((cmds & El & _) & Hp & Hr & Hv). cbn [snd] in *.
    exists r, cmds. f_equal. destruct h3 as [p rb v l]. cbn in *. rewrite (Hp eq_refl), (Hr eq_refl), (Hv eq_refl), El. unfold h2. cbn. by rewrite <- app_assoc. }
  destruct Hl as (r & cmds & Hl).
  rewrite (sbind_run _ _ _ tt h0) by done. rewrite (sbind_run _ _ _ tt h0) by done.
  destruct r as [u|e]; [rewrite (sbind_run _ _ _ _ _ Hl)|rewrite (sbind_run_err _ _ _ _ _ Hl)]; cbn; (split; [done|]);
    apply elem_of_app; right; right; by left.
Qed.

(* ------------------------------------------------------------------ *)
(** ** Witnesses *)

Definition w_exists (p : bytes) : bool := bytes_eqb p (bs "/nix/store/a").
Definition w_render (r : GenerationRecord) : option bytes := Some (store_path_of r).
Definition w_resolved : Resolved := mk_Resolved (bs "box") [bs "/w"] None (mk_Manifest (bs "base") [] None []).
Definition w_build : build_world :=
  mk_build_world (Ok (mk_Evaluated (bs "lock") None [])) (Exited true (bs "/nix/store/a")) 0 false
    (mk_world true true true Generations.Published (fun _ => Some (bs "digest")) Generations.Published Registered Generations.Published) VP_Published.
Definition w_runner : runner_world :=
  mk_runner_world (fun _ => Content (bs "12")) true (fun _ => Ok []) (fun _ => Ok (mk_BuiltContract [] [])) (fun _ => None) None
    (fun p => Ok p) (fun _ => Ok IsDir) CouldNotRun (fun _ => None) (fun _ => None) None 1000 100 true (Some (bs "/bin", bs "viv")) true
    (Exited true []) (Exited true []).
Definition w_start (pid : file) (a : show) (runner : runner_world) : start_world :=
  mk_start_world (Ok w_resolved) (Ok (bs "/run/v")) None None (mk_lock_world true true LockTaken) pid pid (fun _ => K_Ok) a
    w_build calm (bs "/state") None None runner.
Definition w_profile : profile := mk_profile {[bs "1" := bs "/nix/store/a"]} ∅ (Some (current_target 1)).
Definition w_host : host := mk_host w_profile Lifecycle.Missing Lifecycle.Missing [].
Definition w_session (record : BootRecord) (a : show) : session_world :=
  mk_session_world (Ok w_resolved) (Ok (bs "/run/v")) (mk_lock_world true true LockTaken) true record (Content (bs "7")) (fun _ => K_Ok) a
    true true calm Removed Removed (Ok (bs "/run/v")) w_build (bs "/state") None None w_runner record
    (Ok (mk_GuestSession (bs "u") (bs "/h") (bs "/s") (bs "/p"))) (bs "/w/x").
Definition w_boot : BootMetadata := mk_BootMetadata 12 (bs "id") (bs "box") (bs "default") BACKEND [bs "/w"].
Lemma session_never_disturbs_a_live_vm_witness :
  is_ok (fst (ensure_running w_exists w_render (w_session (Ready w_boot) NotRun) w_host)) = true /\
  snd (ensure_running w_exists w_render (w_session (Ready w_boot) NotRun) w_host) <> mk_host w_profile Lifecycle.Missing Lifecycle.Missing [TakeLock; StopJob].
Proof.
  split; [vm_compute; reflexivity|].
  destruct (session_never_disturbs_a_live_vm w_exists w_render (w_session (Ready w_boot) NotRun) w_host) as [[-> | ->] _]; [|discriminate..].
  intros E. vm_compute in E. discriminate E.
Defined.
Lemma start_preserves_a_running_vm_witness :
  let w := w_start (Content (bs "7")) (Ran true (bs "active")) w_runner in
  is_running w_exists w w_host = true /\
  h_running_build (snd (perform_start w_exists w_render false false None false w w_host)) = Lifecycle.Missing.
Proof.
  split; [vm_compute; reflexivity|].
  pose proof (start_preserves_a_running_vm w_exists w_render false None false (w_start (Content (bs "7")) (Ran true (bs "active")) w_runner) w_host ltac:(vm_compute; reflexivity)) as H.
  destruct (perform_start _ _ _ _ _ _ _ _). by destruct H.
Defined.
Lemma start_without_evaluation_witness :
  h_volumes (snd (perform_start w_exists w_render false true None false (w_start Lifecycle.Missing NotRun w_runner) w_host)) = Lifecycle.Missing.
Proof.
  pose proof (start_without_evaluation w_exists w_render false true None false (w_start Lifecycle.Missing NotRun w_runner) w_host (or_introl eq_refl)) as H.
  destruct (perform_start _ _ _ _ _ _ _ _). by destruct H as (_ & _ & H & _).
Defined.
Lemma start_boots_what_was_selected_witness :
  match perform_start w_exists w_render true false None true (w_start Lifecycle.Missing NotRun w_runner) w_host with
  | (Ok (Booted _), h') => h_running_build h' = Content (bs "/nix/store/a" ++ newline)
  | _ => False
  end.
Proof.
  destruct (perform_start w_exists w_render true false None true (w_start Lifecycle.Missing NotRun w_runner) w_host) as [r h'] eqn:E.
  assert (Hr : exists x, r = Ok (Booted x)) by (vm_compute in E; injection E as <- _; by eexists). destruct Hr as [x ->].
  destruct (start_boots_what_was_selected w_exists w_render true false None true (w_start Lifecycle.Missing NotRun w_runner) w_host h' x E)
    as (resolved & root & runtime & store_path & raw & argv & pre & _ & _ & _ & _ & (ev & stdout & _ & [= <-] & -> & _) & _ & _ & -> & _).
  reflexivity.
Defined.
Definition w_refusing : runner_world :=
  mk_runner_world (fun _ => Content (bs "12")) true (fun _ => Ok []) (fun _ => Ok (mk_BuiltContract [mk_BuiltShare (bs "t") (bs "declared") (bs "${GONE}/x")] []))
    (fun _ => None) None (fun p => Ok p) (fun _ => Ok IsDir) CouldNotRun (fun _ => None) (fun _ => None) None 1000 100 true None true CouldNotRun CouldNotRun.
Lemma refused_mount_leaves_running_build_witness :
  h_running_build (snd (launch w_refusing (bs "/state") (bs "box") (for_report (bs "/run/v") (bs "box") (bs "default")) (bs "/nix/store/a") (mk_Resources 4096 1) [] w_host)) =
  Content (bs "/nix/store/a" ++ newline).
Proof.
  rewrite (refused_mount_leaves_running_build w_refusing (bs "/state") (bs "box") _ (bs "/nix/store/a") (mk_Resources 4096 1) [] w_host (diagnosed N_Host "mount-source-unset-variable" Config));
    reflexivity.
Defined.
Lemma start_boots_over_an_undecided_vm_witness :
  h_running_build (snd (perform_start w_exists w_render false true None false (w_start (Content (bs "7")) NotRun w_runner) w_host)) = Content (bs "/nix/store/a" ++ newline).
Proof.
  destruct (start_boots_over_an_undecided_vm w_exists w_render (w_start (Content (bs "7")) NotRun w_runner) w_resolved (bs "/run/v") (bs "/nix/store/a")
    (for_report (bs "/run/v") (bs "box") (bs "default")) w_host) as (_ & H & _); [vm_compute; reflexivity..|exact H].
Defined.
