(* ===== verification/Roots.v ===== *)
(** * Where vivarium keeps things ([src/src/config/roots.rs])

    The four durable roots and the runtime root, resolved from an environment without touching the disk, apart from the
    one question asked about the session's runtime directory.  Variables and paths are bytes. *)
From S2P Require Import Prelude Bytes Paths Ordered Diagnostic Artifact.

Definition Environment : Type := bytes -> option bytes.
Record XdgRoots := mk_XdgRoots { config : bytes; data : bytes; state : bytes; cache : bytes }.

Definition absolute_nonempty (value : option bytes) : option bytes :=
  let* value := value in
  if bool_decide (value = []) then None
  else if is_absolute value then Some value else None.

Section roots.
Context (variable : Environment).

Definition resolve_durable_root (name fallback : string) : result bytes ResolutionError :=
  match absolute_nonempty (variable (bs name)) with
  | Some base => Ok (join base (bs "vivarium"))
  | None =>
      let? home := ok_or (absolute_nonempty (variable (bs "HOME"))) (MissingHome (bs name)) in
      Ok (join (join home (bs fallback)) (bs "vivarium"))
  end.
Definition resolve_xdg_roots : result XdgRoots ResolutionError :=
  let? config := resolve_durable_root "XDG_CONFIG_HOME" ".config" in
  let? data := resolve_durable_root "XDG_DATA_HOME" ".local/share" in
  let? state := resolve_durable_root "XDG_STATE_HOME" ".local/state" in
  let? cache := resolve_durable_root "XDG_CACHE_HOME" ".cache" in
  Ok (mk_XdgRoots config data state cache).

(** [fs::metadata]: what it failed with is not read, or whether this is a directory, its owner and its mode. *)
Record runtime_metadata := mk_runtime_metadata { rm_is_dir : bool; rm_uid : Z; rm_mode : Z }.
Definition resolve_runtime_root (metadata : bytes -> option runtime_metadata) (effective_uid : Z) : result bytes ResolutionError :=
  match variable (bs "XDG_RUNTIME_DIR") with
  | None => Err MissingRuntimeDirectory
  | Some path =>
      let? _ := guard_err (bool_decide (path = [])) MissingRuntimeDirectory in
      let? _ := guard_err (negb (is_absolute path)) (RelativeRuntimeDirectory path) in
      let? m := ok_or (metadata path) (InspectRuntimeDirectory path) in
      let? _ := guard_err (negb (rm_is_dir m)) (RuntimePathNotDirectory path) in
      let? _ := guard_err (negb (rm_uid m =? effective_uid)) (RuntimeDirectoryWrongOwner path effective_uid (rm_uid m)) in
      let? _ := guard_err (negb (Z.land (rm_mode m) 63 =? 0)) (RuntimeDirectoryAccessibleByOthers path (rm_mode m)) in
      Ok (join path (bs "vivarium"))
  end.
End roots.

(** ** Lemmas *)

Lemma absolute_nonempty_some v p : absolute_nonempty v = Some p -> v = Some p /\ is_absolute p = true.
Proof.
  unfold absolute_nonempty. destruct v as [v|]; [|done]. cbn [option_bind mbind].
  destruct (bool_decide _); [done|]. destruct (is_absolute v) eqn:E; [|done]. by intros [= <-].
Qed.
