(* ===== verification/Destroy.v ===== *)
(** * Taking a project away ([src/src/cli/destroy.rs], [src/src/cli/prompt.rs])

    The prompt, the plan of what [viv destroy] removes and spares, and the verb: the lock, the stop, the judgment that
    the VM is dead, the removals, the runtime directory.  A file system is the list of what there is, by components of
    its path, a directory before what it holds; [read_dir] answers in that order.  No directory the verb reads is
    reached through a symbolic link. *)
From S2P Require Import Prelude Bytes Paths Ordered Hybrid Diagnostic Lifecycle Stop Start Workspace Artifact Roots.

(* ------------------------------------------------------------------ *)
(** ** The prompt *)

Record Question := mk_Question { headline : bytes; q_scope : list bytes; q_spared : list bytes }.
(** [BufRead::read_line]: an error, text not being UTF-8 among them, or the line, empty at the end of the input. *)
Inductive answer := A_Error | A_Line (line : bytes).
Definition question_text (p : Palette) (q : Question) : bytes :=
  concat (map (fun line => bs "  " ++ line ++ newline) (q_scope q)) ++
  concat (map (fun line => bs "  " ++ p_label p (bs "kept:") ++ bs " " ++ line ++ newline) (q_spared q)) ++
  p_what p (headline q) ++ bs " " ++ p_label p (bs "[y/N]") ++ bs " ".
Definition ask (a : answer) : option bool :=
  match a with
  | A_Error => None
  | A_Line [] => Some false
  | A_Line line =>
      let said := map to_ascii_lower (trim line) in
      Some (bytes_eqb said (bs "y") || bytes_eqb said (bs "yes"))
  end.

(* ------------------------------------------------------------------ *)
(** ** The plan *)

Record Plan := mk_Plan { remove : list bytes; keep_within : list (bytes * bytes); spared : list bytes }.
Definition new (roots : XdgRoots) (sandbox_id : bytes) (keep_volumes : bool) : Plan :=
  let project_state := join (join (state roots) (bs "projects")) sandbox_id in
  let target_state := join project_state DEFAULT_TARGET in
  let data_target := join (join (join (data roots) (bs "projects")) sandbox_id) DEFAULT_TARGET in
  let records := [join data_target (bs "last-build"); join data_target (bs "running-build")] in
  mk_Plan
    (if keep_volumes then records else records ++ [project_state])
    (if keep_volumes then [(target_state, bs "volumes"); (project_state, DEFAULT_TARGET)] else [])
    ([join data_target (bs "flake.lock"); join (join (cache roots) (bs "flakes")) sandbox_id] ++
     (if keep_volumes then [join target_state (bs "volumes")] else [])).
Definition scope (p : Plan) : list bytes :=
  remove p ++ map (fun '(directory, keep) => directory ++ bs " (except " ++ keep ++ bs ")") (keep_within p).

(* ------------------------------------------------------------------ *)
(** ** The file system *)

Inductive node := NDir | NFile | NLink.
#[export] Instance node_eq_dec : EqDecision node.
Proof. solve_decision. Defined.
Definition path : Type := list Component.
Definition fs : Type := list (path * node).
Definition node_at (f : fs) (p : path) : option node :=
  match List.find (fun e => bool_decide (fst e = p)) f with Some e => Some (snd e) | None => None end.
(** The name of a child of a directory. *)
Definition child_name (p q : path) : option bytes :=
  match last q with
  | Some (Normal name) => if bool_decide (q = p ++ [Normal name]) then Some name else None
  | _ => None
  end.
Definition children (f : fs) (p : path) : list bytes := omap (fun e => child_name p (fst e)) f.
Definition beneath (p : path) (f : fs) : list path :=
  map fst (List.filter (fun e => components_start_with p (fst e)) f).

(** What an operation may fail with besides a missing path. *)
Inductive io_kind := PermissionDenied | OtherError.
Definition removal_failure (k : io_kind) : Failure :=
  diagnosed N_State "teardown-removal" (match k with PermissionDenied => NoPerm | OtherError => IoErr end).
Definition read_failure : Failure := diagnosed N_State "teardown-unreadable" IoErr.

Inductive event := Locked | Unlocked | Laddered (e : effect) | Removed (p : path).
#[export] Instance event_eq_dec : EqDecision event.
Proof. solve_decision. Defined.
Record host := mk_host { h_fs : fs; h_log : list event }.
Definition act (A : Type) : Type := sem host (stop Failure) A.
Definition give_up_with {A} (f : Failure) : act A := sfail (Failed f).
Definition answer_of {A} (r : result A Failure) : act A := slift (map_err Failed r).
Definition note (events : list event) : act unit := fun h => (Ok tt, mk_host (h_fs h) (h_log h ++ events)).
Fixpoint each {A} (f : A -> act unit) (l : list A) : act unit :=
  match l with [] => sret tt | x :: l => f x ;; each f l end.

Section removal.
(** The operations that fail, by name and path. *)
Context (fault : string -> path -> option io_kind).

(** [unlink] or [rmdir] of one path. *)
Definition unlink (p : path) : act unit := fun h =>
  match fault "remove" p with
  | Some k => (Err (Failed (removal_failure k)), h)
  | None => (Ok tt, mk_host (List.filter (fun e => negb (bool_decide (fst e = p))) (h_fs h)) (h_log h ++ [Removed p]))
  end.
(** [remove_dir_all]: what a directory holds goes before it does. *)
Definition remove_dir_all (p : path) : act unit := fun h => each unlink (rev (beneath p (h_fs h))) h.
Definition remove_tree (p : bytes) : act unit := fun h =>
  let p := components p in
  match node_at (h_fs h) p with
  | None => (match fault "remove" p with Some k => Err (Failed (removal_failure k)) | None => Ok tt end, h)
  | Some NDir =>
      match fault "lstat" p with
      | Some _ => (Err (Failed (removal_failure OtherError)), h)     (* [remove_file] of a directory *)
      | None => remove_dir_all p h
      end
  | Some _ => unlink p h
  end.

(** [read_dir], as far as its entries can be read. *)
Definition read_dir (f : fs) (p : bytes) : result (list bytes) Failure :=
  match node_at f (components p), fault "read_dir" (components p) with
  | _, Some _ => Err read_failure
  | None, None => Ok []
  | Some NDir, None => Ok (children f (components p))
  | Some _, None => Err read_failure
  end.
Definition read_entry (p name : bytes) : result bytes Failure :=
  match fault "read entry" (components p ++ [Normal name]) with Some _ => Err read_failure | None => Ok name end.
(** The removals of one carve-out: what is in the directory besides the kept name. *)
Definition prune (f : fs) (carve : bytes * bytes) : result (list bytes) Failure :=
  let '(directory, keep) := carve in
  let? names := read_dir f directory in
  let? names := collect_results (read_entry directory) names in
  Ok (map (join directory) (List.filter (fun name => negb (bytes_eqb name keep)) names)).
Definition removals (p : Plan) (f : fs) : result (list bytes) Failure :=
  let? pruned := collect_results (prune f) (keep_within p) in
  Ok (sort_paths (remove p ++ concat pruned)).

(** Each entry is read and removed before the next is read. *)
Definition clear_entry (r : Runtime) (name : bytes) : act unit :=
  answer_of (let? _ := read_entry (directory r) name in Ok tt) ;;
  if path_eqb (join (directory r) name) (lock_path r) then sret tt
  else remove_tree (join (directory r) name).
Definition clear_runtime (r : Runtime) : act unit := fun h =>
  match read_dir (h_fs h) (directory r) with
  | Ok names => each (clear_entry r) names h
  | Err f => (Err (Failed f), h)
  end.

(** The removals, and the runtime directory last. *)
Definition tear_down (p : Plan) (r : Runtime) : act (list bytes) := fun h =>
  (let! removed := answer_of (removals p (h_fs h)) in
   each remove_tree removed ;;
   clear_runtime r ;;
   sret removed) h.

(* ------------------------------------------------------------------ *)
(** ** The verb *)

(** What the run meets.  The file system is as the removals find it. *)
Record destroy_world := mk_destroy_world {
  dw_sandbox_id : result bytes Failure;      (* [resolve_manifest_for_launch] *)
  dw_runtime_root : result bytes Failure;    (* [resolve_runtime_root] *)
  dw_answer : answer;
  dw_built : bool;
  dw_lock : lock_world;
  dw_boot_json : file; dw_vm_pid : file; dw_kill : Z -> kill_answer; dw_show : show;
  dw_ladder : ladder_world;
  dw_vm_pid_after : file; dw_kill_after : Z -> kill_answer; dw_show_after : show }.
Definition confirm (a : answer) : result bool Failure :=
  ok_or (ask a) (diagnosed N_Host "prompt-unavailable" IoErr).

(** The VM comes down, and is seen to have. *)
Definition bring_down (w : destroy_world) : act unit :=
  if resting (discriminate (dw_boot_json w) (dw_vm_pid w) (dw_built w) (dw_kill w) (dw_show w)) then sret tt
  else
    (let '(r, commands) := stop_ladder false None (dw_ladder w) [] in note (map Laddered commands) ;; slift r) ;;
    if bool_decide (vm_presence (dw_vm_pid_after w) (dw_kill_after w) (dw_show_after w) = Dead) then sret tt
    else give_up_with (diagnosed N_Vm "stop-unconfirmed" Diagnostic.Unavailable).
Definition under_lock {A} (m : act A) : act A := fun h =>
  let '(r, h) := (note [Locked] ;; m) h in (r, mk_host (h_fs h) (h_log h ++ [Unlocked])).
(** The paths removed, or nothing when the answer was no. *)
Definition destroy (roots : XdgRoots) (keep_volumes yes : bool) (w : destroy_world) : act (option (list bytes)) :=
  let! sandbox_id := answer_of (dw_sandbox_id w) in
  let! runtime_root := answer_of (dw_runtime_root w) in
  let! runtime := answer_of (locate runtime_root sandbox_id DEFAULT_TARGET) in
  let plan := new roots sandbox_id keep_volumes in
  let! go := if yes then sret true else answer_of (confirm (dw_answer w)) in
  if negb go then sret None
  else
    answer_of (lock_answer (dw_lock w)) ;;
    under_lock
      (bring_down w ;;
       let! removed := tear_down plan runtime in
       sret (Some removed)).
End removal.
