(* ===== verification/DestroySpec.v ===== *)
(** * DestroySpec: what taking a project away takes

    Exactly the plan goes, what the plan spares stays with everything under it whatever fails, nothing is unlinked
    before the VM is known to be dead, and a second run finds nothing to do. *)
From S2P Require Import Prelude Bytes Paths Ordered Mounts Hybrid Diagnostic Lifecycle Stop Start Workspace Artifact Roots Destroy.

(* ------------------------------------------------------------------ *)
(** ** Files and names *)

#[export] Instance plain_name_dec name : Decision (plain_name name).
Proof. unfold plain_name. apply _. Defined.
(** A file system as one is: below the root a component is a name, and what is in a directory has its directory there. *)
Definition named (c : Component) : bool := match c with Normal name => bool_decide (plain_name name) | _ => false end.
Definition entry_ok (f : fs) (q : path) : bool :=
  forallb named (tail q) && (bool_decide (removelast q = []) || bool_decide (node_at f (removelast q) = Some NDir)).
Definition well_formed (f : fs) : bool := forallb (fun e => entry_ok f (fst e)) f.
Lemma well_formed_entry f q k : well_formed f = true -> (q, k) ∈ f -> entry_ok f q = true.
Proof. unfold well_formed. rewrite forallb_forall. intros H Hin%list_elem_of_In. exact (H _ Hin). Qed.
Lemma well_formed_parent f q c k : well_formed f = true -> (q ++ [c], k) ∈ f -> q = [] \/ node_at f q = Some NDir.
Proof.
  intros H Hin. pose proof (well_formed_entry _ _ _ H Hin) as [_ E]%andb_true_iff. rewrite removelast_last in E.
  by apply orb_true_iff in E as [E%bool_decide_eq_true|E%bool_decide_eq_true]; [left|right].
Qed.
Lemma well_formed_name f q c k : well_formed f = true -> (q ++ [c], k) ∈ f -> q <> [] -> exists name, c = Normal name /\ plain_name name.
Proof.
  intros H Hin Hq. pose proof (well_formed_entry _ _ _ H Hin) as [E _]%andb_true_iff. destruct q as [|x q]; [done|].
  cbn [app tail] in E. rewrite forallb_app in E. apply andb_true_iff in E as [_ E]. cbn in E.
  destruct c; try done. rewrite andb_true_r in E. apply bool_decide_eq_true in E. by eexists.
Qed.

(** What is left of a file system without some of its paths. *)
Definition without (lost : path -> bool) (f : fs) : fs := List.filter (fun e => negb (lost (fst e))) f.
Lemma without_elem lost f e : e ∈ without lost f <-> e ∈ f /\ lost (fst e) = false.
Proof. unfold without. rewrite !list_elem_of_In, filter_In, negb_true_iff. done. Qed.
Lemma without_without a b f : without b (without a f) = without (fun p => a p || b p) f.
Proof.
  induction f as [|e f IH]; [done|]. unfold without in *. cbn [List.filter]. destruct (a (fst e)) eqn:Ea; cbn [negb orb]; [done|].
  cbn [List.filter]. destruct (b (fst e)); cbn [negb]; by rewrite IH.
Qed.
Lemma without_ext a b f : (forall e, e ∈ f -> a (fst e) = b (fst e)) -> without a f = without b f.
Proof.
  intros H. unfold without. apply filter_ext_in. intros e He. rewrite (H e); [done|by apply list_elem_of_In].
Qed.
Lemma without_none a f : (forall e, e ∈ f -> a (fst e) = false) -> without a f = f.
Proof.
  intros H. rewrite (without_ext a (fun _ => false) f H). unfold without. induction f as [|e f IH]; [done|].
  cbn. f_equal. apply IH. intros x Hx. apply H. by right.
Qed.
Lemma node_at_elem f p k : node_at f p = Some k -> (p, k) ∈ f.
Proof.
  unfold node_at. destruct (List.find _ f) as [[q k']|] eqn:E; [|done]. cbn. intros [= <-].
  apply find_some in E as [Hin Hq]. cbn in Hq. apply bool_decide_eq_true in Hq as ->. by apply list_elem_of_In.
Qed.
Lemma node_at_None f p : node_at f p = None <-> forall k, (p, k) ∉ f.
Proof.
  unfold node_at. destruct (List.find _ f) as [[q k']|] eqn:E.
  - apply find_some in E as [Hin Hq]. cbn in Hq. apply bool_decide_eq_true in Hq as ->.
    split; [done|]. intros H. destruct (H k'). by apply list_elem_of_In.
  - split; [|done]. intros _ k Hin. apply list_elem_of_In in Hin. pose proof (find_none _ _ E _ Hin) as Hn. cbn in Hn.
    by apply bool_decide_eq_false in Hn.
Qed.
Lemma node_at_without lost f p : lost p = false -> node_at (without lost f) p = node_at f p.
Proof.
  intros Hp. unfold node_at. enough (E : List.find (fun e => bool_decide (fst e = p)) (without lost f) = List.find (fun e => bool_decide (fst e = p)) f) by by rewrite E.
  induction f as [|[q k] f IH]; [done|]. unfold without in *. cbn [List.filter fst List.find]. destruct (bool_decide (q = p)) eqn:Eq.
  - apply bool_decide_eq_true in Eq as ->. rewrite Hp. cbn [negb List.find fst]. by rewrite bool_decide_eq_true_2.
  - destruct (lost q); cbn [negb]; [done|]. cbn [List.find fst]. by rewrite Eq.
Qed.

Definition under (p q : path) : bool := components_start_with p q.
Lemma under_refl p : under p p = true.
Proof. by apply components_start_with_prefix. Qed.
Lemma under_trans p q r : under p q = true -> under q r = true -> under p r = true.
Proof. unfold under. rewrite !components_start_with_prefix. intros H1 H2. by etrans. Qed.
Lemma under_child p c : under p (p ++ [c]) = true.
Proof. unfold under. apply components_start_with_prefix. by exists [c]. Qed.
(** Whatever lies in something lies in a directory. *)
Lemma under_dir f p q k : well_formed f = true -> p <> [] -> (q, k) ∈ f -> under p q = true -> p <> q -> node_at f p = Some NDir.
Proof.
  intros Hwf Hp Hin Hu Hne. unfold under in Hu. apply components_start_with_prefix in Hu as [l ->]. revert k Hin Hne.
  induction l as [|c l IH] using rev_ind; intros k Hin Hne; [by rewrite app_nil_r in Hne|].
  rewrite app_assoc in Hin. destruct (well_formed_parent _ _ _ _ Hwf Hin) as [Hnil|Hdir]; [apply app_eq_nil in Hnil as [E _]; by destruct Hp|].
  destruct (decide (l = [])) as [->|Hl]; [by rewrite app_nil_r in Hdir|].
  apply node_at_elem in Hdir. apply (IH _ Hdir). intros E. apply Hl. by apply (app_inv_head p); rewrite app_nil_r.
Qed.
(** Dropping whole subtrees leaves a file system. *)
Lemma without_well_formed lost f :
  (forall p q, lost p = true -> under p q = true -> lost q = true) -> well_formed f = true -> well_formed (without lost f) = true.
Proof.
  intros Hlost Hwf. unfold well_formed. apply forallb_forall. intros [q k] [Hin Hl]%list_elem_of_In%without_elem.
  cbn [fst] in Hl |- *. pose proof (well_formed_entry _ _ _ Hwf Hin) as [E1 E2]%andb_true_iff. unfold entry_ok.
  rewrite E1. cbn [andb]. apply orb_true_iff in E2 as [->|E2]; [done|]. rewrite node_at_without; [by rewrite E2, orb_true_r|].
  apply not_true_is_false. intros E. destruct (decide (q = [])) as [->|Hq]; [by cbn in E; congruence|].
  enough (lost q = true) by congruence. apply (Hlost _ _ E). destruct (exists_last Hq) as (q' & c & ->).
  rewrite removelast_last. apply under_child.
Qed.
Definition under_any (l : list path) (q : path) : bool := existsb (fun p => under p q) l.
Lemma under_any_closed l p q : under_any l p = true -> under p q = true -> under_any l q = true.
Proof.
  unfold under_any. rewrite !existsb_exists. intros (x & Hx & Hu) Hq. exists x. split; [done|]. by eapply under_trans.
Qed.

(* ------------------------------------------------------------------ *)
(** ** What a removal does, whether it succeeds or not *)

Definition among (gone : list path) (q : path) : bool := bool_decide (q ∈ gone).
Definition removes {A} (Q : path -> Prop) (m : act A) : Prop :=
  forall h, exists gone, snd (m h) = mk_host (without (among gone) (h_fs h)) (h_log h ++ map Removed gone) /\ Forall Q gone.

Lemma without_nothing f : without (among []) f = f.
Proof. apply without_none. intros e _. apply bool_decide_eq_false. by intros ?%elem_of_nil. Qed.
Lemma without_app a b f : without (among b) (without (among a) f) = without (among (a ++ b)) f.
Proof.
  rewrite without_without. apply without_ext. intros e _. unfold among. apply eq_true_iff_eq.
  rewrite orb_true_iff, !bool_decide_eq_true, elem_of_app. done.
Qed.
Lemma removes_nothing {A} Q (r : result A (stop Failure)) : removes Q (slift r).
Proof. intros [f log]. exists []. unfold slift. cbn [snd h_fs h_log map]. by rewrite without_nothing, app_nil_r. Qed.
Lemma removes_bind {A B} Q (m : act A) (k : A -> act B) : removes Q m -> (forall a, removes Q (k a)) -> removes Q (sbind m k).
Proof.
  intros Hm Hk h. unfold sbind. destruct (Hm h) as (gone & E & Hg). destruct (m h) as [[a|e] h']; cbn in E; subst h'; [|by exists gone].
  destruct (Hk a (mk_host (without (among gone) (h_fs h)) (h_log h ++ map Removed gone))) as (gone' & E & Hg').
  exists (gone ++ gone'). rewrite E. cbn [h_fs h_log]. rewrite without_app, map_app, app_assoc. split; [done|]. by apply Forall_app.
Qed.
Lemma removes_each {A} Q (g : A -> act unit) l : Forall (fun x => removes Q (g x)) l -> removes Q (each g l).
Proof.
  induction l as [|x l IH]; intros H; cbn [each]; [apply removes_nothing|].
  apply Forall_cons in H as [Hx Hl]. apply removes_bind; [done|]. intros _. by apply IH.
Qed.
Lemma removes_impl {A} (P Q : path -> Prop) (m : act A) : (forall q, P q -> Q q) -> removes P m -> removes Q m.
Proof. intros HI H h. destruct (H h) as (gone & E & Hg). exists gone. split; [done|]. by eapply Forall_impl. Qed.
Lemma filter_is_without p (f : fs) : List.filter (fun e => negb (bool_decide (fst e = p))) f = without (among [p]) f.
Proof.
  unfold without. apply filter_ext. intros e. unfold among. f_equal. apply bool_decide_ext. by rewrite list_elem_of_singleton.
Qed.

Section removal.
Context (fault : string -> path -> option io_kind).

Lemma removes_unlink Q p : Q p -> removes Q (unlink fault p).
Proof.
  intros Hp h. unfold unlink. destruct (fault "remove" p) as [k|].
  - exists []. cbn [snd map]. rewrite without_nothing, app_nil_r. by destruct h.
  - exists [p]. cbn [snd map]. rewrite filter_is_without. split; [done|]. by apply Forall_singleton.
Qed.
Lemma beneath_under p f : Forall (fun q => under p q = true) (beneath p f).
Proof.
  unfold beneath. apply Forall_forall. intros q Hq. apply list_elem_of_fmap in Hq as (e & -> & He).
  apply list_elem_of_In, filter_In in He as [_ He]. exact He.
Qed.
Lemma removes_tree p : removes (fun q => under (components p) q = true) (remove_tree fault p).
Proof.
  intros h. unfold remove_tree. destruct (node_at (h_fs h) (components p)) as [[]|].
  - destruct (fault "lstat" (components p)); [apply removes_nothing|]. unfold remove_dir_all.
    apply (removes_each _ (unlink fault)). apply Forall_rev. eapply Forall_impl; [apply beneath_under|].
    intros q Hq. by apply removes_unlink.
  - apply removes_unlink, under_refl.
  - apply removes_unlink, under_refl.
  - apply removes_nothing.
Qed.

(** *** A removal that succeeds takes the whole subtree and nothing else *)

Lemma each_unlink_ok l h h' : each (unlink fault) l h = (Ok tt, h') -> h_fs h' = without (among l) (h_fs h).
Proof.
  revert h. induction l as [|p l IH]; intros h; cbn [each].
  - intros [= <-]. symmetry. apply without_nothing.
  - unfold sbind. unfold unlink at 1. destruct (fault "remove" p); [done|]. intros H. rewrite (IH _ H). cbn [h_fs].
    by rewrite filter_is_without, without_app.
Qed.
Lemma remove_tree_ok p h h' : well_formed (h_fs h) = true -> components p <> [] ->
  remove_tree fault p h = (Ok tt, h') -> h_fs h' = without (under (components p)) (h_fs h).
Proof.
  intros Hwf Hp. set (c := components p) in *. unfold remove_tree. fold c.
  assert (Hleaf : node_at (h_fs h) c <> Some NDir -> without (among [c]) (h_fs h) = without (under c) (h_fs h)).
  { intros Hn. apply without_ext. intros [q k] Hq. unfold among. cbn [fst]. apply eq_true_iff_eq.
    rewrite bool_decide_eq_true, list_elem_of_singleton. split; [intros ->; apply under_refl|].
    intros Hu. destruct (decide (q = c)) as [|Hne]; [done|]. destruct Hn. by eapply under_dir. }
  destruct (node_at (h_fs h) c) as [[]|] eqn:En.
  - destruct (fault "lstat" c); [done|]. intros H%each_unlink_ok. rewrite H. apply without_ext. intros e He. unfold among.
    apply eq_true_iff_eq. rewrite bool_decide_eq_true. rewrite list_elem_of_In, <- in_rev, <- list_elem_of_In.
    unfold beneath. rewrite list_elem_of_fmap. split.
    + intros (e' & E & He'). apply list_elem_of_In, filter_In in He' as [_ Hu]. by rewrite E.
    + intros Hu. exists e. split; [done|]. apply list_elem_of_In, filter_In. by split; [apply list_elem_of_In|].
  - unfold unlink. destruct (fault "remove" c); [done|]. intros [= <-]. cbn [h_fs]. rewrite filter_is_without. by apply Hleaf.
  - unfold unlink. destruct (fault "remove" c); [done|]. intros [= <-]. cbn [h_fs]. rewrite filter_is_without. by apply Hleaf.
  - destruct (fault "remove" c); [done|]. intros [= <-]. rewrite <- Hleaf by done. symmetry. apply without_none.
    intros [q k] Hq. apply bool_decide_eq_false. rewrite list_elem_of_singleton. cbn [fst]. intros ->.
    by apply (proj1 (node_at_None _ _) En k).
Qed.
Lemma well_formed_subtrees l f : well_formed f = true -> well_formed (without (under_any l) f) = true.
Proof. apply without_well_formed. intros p q. apply under_any_closed. Qed.
Lemma under_any_cons p l f : without (under_any l) (without (under p) f) = without (under_any (p :: l)) f.
Proof. by rewrite without_without. Qed.
Lemma each_remove_ok l h h' : well_formed (h_fs h) = true -> Forall (fun p => components p <> []) l ->
  each (remove_tree fault) l h = (Ok tt, h') -> h_fs h' = without (under_any (map components l)) (h_fs h).
Proof.
  revert h. induction l as [|p l IH]; intros h Hwf Hl; cbn [each].
  - intros [= <-]. symmetry. by apply without_none.
  - apply Forall_cons in Hl as [Hp Hl]. intros H. apply sbind_ok in H as ([] & h1 & H1%remove_tree_ok & H2); [|done..].
    cbn [map]. rewrite <- under_any_cons, <- H1. apply IH; [|done|done]. rewrite H1. apply without_well_formed; [|done].
    intros x y. apply under_trans.
Qed.
End removal.

(* ------------------------------------------------------------------ *)
(** ** The plan's reach *)

(** Inside a directory, apart from it and from one name it holds. *)
Definition beside (d : path) (keep : bytes) (q : path) : bool :=
  under d q && negb (bool_decide (q = d)) && negb (under (d ++ [Normal keep]) q).
Definition LOCK : bytes := bs "lock".
Definition carved (l : list (bytes * bytes)) (q : path) : bool := existsb (fun '(d, keep) => beside (components d) keep q) l.
Definition planned (p : Plan) (q : path) : bool := under_any (map components (remove p)) q || carved (keep_within p) q.
(** All that a run may take. *)
Definition taken (p : Plan) (r : Runtime) (q : path) : bool := planned p q || beside (components (directory r)) LOCK q.

Lemma children_elem f d name : name ∈ children f d <-> exists k, (d ++ [Normal name], k) ∈ f.
Proof.
  unfold children. rewrite list_elem_of_omap. split.
  - intros ([q k] & Hin & E). exists k. cbn [fst] in E. unfold child_name in E.
    destruct (last q) as [[]|]; try done. destruct (bool_decide _) eqn:Eb; [|done]. apply bool_decide_eq_true in Eb as Eq.
    injection E as ->. by rewrite <- Eq.
  - intros [k Hin]. exists (d ++ [Normal name], k). split; [done|]. unfold child_name. cbn [fst]. rewrite last_snoc.
    by rewrite bool_decide_eq_true_2.
Qed.
(** Something inside a directory is under one of the directory's entries. *)
Lemma under_an_entry f d q k : well_formed f = true -> d <> [] -> (q, k) ∈ f -> under d q = true -> q <> d ->
  exists name, name ∈ children f d /\ plain_name name /\ under (d ++ [Normal name]) q = true.
Proof.
  intros Hwf Hd Hin Hu Hne. pose proof Hu as Hp. unfold under in Hp. apply components_start_with_prefix in Hp as [[|c l] ->]; [by rewrite app_nil_r in Hne|].
  assert (Hu' : under (d ++ [c]) (d ++ c :: l) = true) by (apply components_start_with_prefix; exists l; by rewrite <- app_assoc).
  assert (Hc : exists k', (d ++ [c], k') ∈ f).
  { destruct (decide (l = [])) as [->|Hl]; [by exists k|]. exists NDir. apply node_at_elem. eapply under_dir; [done| |done|done|].
    - by destruct d.
    - intros E. apply Hl. apply (f_equal length) in E. rewrite !length_app in E. cbn [length] in E. destruct l; [done|cbn [length] in E; lia]. }
  destruct Hc as [k' Hc]. destruct (well_formed_name _ _ _ _ Hwf Hc Hd) as (name & -> & Hn).
  exists name. split; [|by split]. apply children_elem. by exists k'.
Qed.
Lemma child_plain f d name : well_formed f = true -> d <> [] -> name ∈ children f d -> plain_name name.
Proof.
  intros Hwf Hd [k Hin]%children_elem. destruct (well_formed_name _ _ _ _ Hwf Hin Hd) as (n & [= <-] & Hn). done.
Qed.
Lemma under_entry_beside d keep name q : name <> keep -> under (d ++ [Normal name]) q = true -> beside d keep q = true.
Proof.
  intros Hne Hu. unfold beside. rewrite !andb_true_iff, !negb_true_iff, bool_decide_eq_false. split_and!; [by eapply under_trans, Hu; apply under_child| |].
  - intros ->. unfold under in Hu. apply components_start_with_prefix, prefix_length in Hu. rewrite length_app in Hu. cbn in Hu. lia.
  - apply not_true_is_false. intros Hk. unfold under in Hu, Hk. apply components_start_with_prefix in Hu as [l1 E1], Hk as [l2 E2].
    rewrite E1, <- !app_assoc in E2. apply app_inv_head in E2. cbn in E2. congruence.
Qed.
(** Being beside a name is being under an entry of another name. *)
Lemma beside_entry f d keep q k : well_formed f = true -> d <> [] -> (q, k) ∈ f ->
  beside d keep q = true <-> exists name, name ∈ children f d /\ name <> keep /\ under (d ++ [Normal name]) q = true.
Proof.
  intros Hwf Hd Hin. split.
  - unfold beside. rewrite !andb_true_iff, !negb_true_iff, bool_decide_eq_false. intros [[Hu Hne] Hk]. destruct (under_an_entry _ _ _ _ Hwf Hd Hin Hu Hne) as (name & Hc & _ & Hun).
    exists name. split; [done|]. split; [|done]. intros ->. congruence.
  - intros (name & Hc & Hne & Hu). by eapply under_entry_beside.
Qed.
Lemma absolute_components p : is_absolute p = true -> components p <> [].
Proof. intros H. unfold components. by rewrite H. Qed.

Lemma collected_elem {A B E} (g : A -> result B E) l k y : Forall2 (fun x y => g x = Ok y) l k -> y ∈ k <-> exists x, x ∈ l /\ g x = Ok y.
Proof.
  induction 1 as [|x z l k Hx _ IH]; [split; [by intros ?%elem_of_nil|by intros (x & ?%elem_of_nil & _)]|].
  rewrite elem_of_cons, IH. split.
  - intros [->|(x' & Hin & E')]; [exists x; split; [by left|done]|exists x'; split; [by right|done]].
  - intros (x' & [->|Hin]%elem_of_cons & E'); [left; congruence|right; by exists x'].
Qed.

Section reach.
Context (fault : string -> path -> option io_kind).

Lemma read_dir_ok f d names : well_formed f = true -> is_absolute d = true -> read_dir fault f d = Ok names -> names = children f (components d).
Proof.
  intros Hwf Hd. unfold read_dir. destruct (fault _ _), (node_at f (components d)) as [[]|] eqn:En; try done; [by intros [= <-]|].
  intros [= <-]. symmetry. destruct (children f (components d)) as [|name l] eqn:Ec; [done|]. exfalso.
  assert (Hin : name ∈ children f (components d)) by (rewrite Ec; by left). apply children_elem in Hin as [k Hin].
  destruct (well_formed_parent _ _ _ _ Hwf Hin) as [E|E]; [by eapply absolute_components|congruence].
Qed.
Lemma entries_ok d names names' : collect_results (read_entry fault d) names = Ok names' -> names' = names.
Proof.
  intros H%collect_results_ok. induction H as [|x y l l' Hxy _ IH]; [done|]. unfold read_entry in Hxy.
  destruct (fault _ _); [done|]. injection Hxy as ->. by rewrite IH.
Qed.
Lemma prune_ok f d keep l p : well_formed f = true -> is_absolute d = true -> prune fault f (d, keep) = Ok l ->
  p ∈ l <-> exists name, name ∈ children f (components d) /\ name <> keep /\ p = join d name.
Proof.
  intros Hwf Hd H. unfold prune in H. apply rbind_ok in H as (names & E%read_dir_ok & H); [|done..].
  apply rbind_ok in H as (names' & E'%entries_ok & [= <-]). subst names' names. rewrite list_elem_of_fmap.
  setoid_rewrite list_elem_of_In. setoid_rewrite filter_In. setoid_rewrite negb_true_iff. split.
  - intros (name & -> & Hin & Hk). exists name. split; [done|]. split; [|done]. intros ->. by rewrite (proj2 (bytes_eqb_true keep keep) eq_refl) in Hk.
  - intros (name & Hin & Hk & ->). exists name. split; [done|]. split; [done|]. apply not_true_is_false. by intros ?%bytes_eqb_true.
Qed.
Lemma removals_ok p f l x : well_formed f = true -> Forall (fun '(d, _) => is_absolute d = true) (keep_within p) ->
  removals fault p f = Ok l ->
  x ∈ l <-> x ∈ remove p \/ exists d keep name, (d, keep) ∈ keep_within p /\ name ∈ children f (components d) /\ name <> keep /\ x = join d name.
Proof.
  intros Hwf Hd H. unfold removals in H. apply rbind_ok in H as (pruned & Hp%collect_results_ok & [= <-]).
  rewrite (sort_paths_perm _), elem_of_app. apply or_iff_compat_l.
  rewrite list_elem_of_In, in_concat. setoid_rewrite <- list_elem_of_In. split.
  - intros (names & Hn & Hx). apply (collected_elem _ _ _ _ Hp) in Hn as ([d keep] & Hk & E). rewrite Forall_forall in Hd.
    apply (prune_ok _ _ _ _ x Hwf (Hd _ Hk) E) in Hx as (name & ? & ? & ?). by exists d, keep, name.
  - intros (d & keep & name & Hk & Hrest). rewrite Forall_forall in Hd.
    assert (Hc : exists names, names ∈ pruned /\ prune fault f (d, keep) = Ok names).
    { clear -Hp Hk. induction Hp as [|c names l k Hc _ IH]; [by apply elem_of_nil in Hk|].
      apply elem_of_cons in Hk as [<-|Hk]; [exists names; split; [by left|done]|].
      destruct (IH Hk) as (names' & ? & ?). exists names'. split; [by right|done]. }
    destruct Hc as (names & Hn & E). exists names. split; [done|]. apply (prune_ok _ _ _ _ x Hwf (Hd _ Hk) E). by exists name.
Qed.
Lemma removals_planned p f l : well_formed f = true -> Forall (fun '(d, _) => is_absolute d = true) (keep_within p) ->
  removals fault p f = Ok l -> without (under_any (map components l)) f = without (planned p) f.
Proof.
  intros Hwf Hd H. apply without_ext. intros [q k] Hin. cbn [fst]. unfold planned. apply eq_true_iff_eq.
  rewrite orb_true_iff. unfold under_any, carved. rewrite !existsb_exists. setoid_rewrite in_map_iff. setoid_rewrite <- list_elem_of_In.
  rewrite Forall_forall in Hd. split.
  - intros (c & (x & <- & Hx) & Hu). apply (removals_ok p f l _ Hwf) in Hx; [|by apply Forall_forall|done].
    destruct Hx as [Hx|(d & keep & name & Hk & Hc & Hn & ->)]; [left; exists (components x); by split; [exists x|]|].
    right. exists (d, keep). split; [done|]. specialize (Hd _ Hk). cbn in Hd. pose proof (absolute_components _ Hd) as Hne.
    apply (beside_entry _ _ _ _ _ Hwf Hne Hin). exists name. split; [done|]. split; [done|].
    by rewrite <- components_join; [|done|eapply child_plain].
  - intros [(c & (x & <- & Hx) & Hu)|([d keep] & Hk & Hb)].
    + exists (components x). split; [|done]. exists x. split; [done|]. apply (removals_ok p f l _ Hwf); [by apply Forall_forall|done|by left].
    + pose proof (Hd _ Hk) as Hda. cbn in Hda. pose proof (absolute_components _ Hda) as Hne.
      apply (beside_entry _ _ _ _ _ Hwf Hne Hin) in Hb as (name & Hc & Hn & Hu).
      exists (components (join d name)). split; [|rewrite components_join; [done|done|by eapply child_plain]].
      exists (join d name). split; [done|]. apply (removals_ok p f l _ Hwf); [by apply Forall_forall|done|]. right. by exists d, keep, name.
Qed.

(** *** The runtime directory *)

Lemma lock_is_its_name r name : is_absolute (directory r) = true -> plain_name name ->
  path_eqb (join (directory r) name) (lock_path r) = bytes_eqb name LOCK.
Proof.
  intros Hd Hn. unfold path_eqb, lock_path. assert (Hl : plain_name LOCK) by (apply (bool_decide_unpack _); vm_compute; done).
  fold LOCK. rewrite !components_join by done. apply eq_true_iff_eq. rewrite bool_decide_eq_true, bytes_eqb_true. split; [|by intros ->].
  intros E%app_inv_head. by injection E.
Qed.
Definition doomed (r : Runtime) (names : list bytes) : list path :=
  map (fun name => components (directory r) ++ [Normal name]) (List.filter (fun name => negb (bytes_eqb name LOCK)) names).
Lemma clear_entry_ok r name h h' : well_formed (h_fs h) = true -> is_absolute (directory r) = true -> plain_name name ->
  clear_entry fault r name h = (Ok tt, h') -> h_fs h' = without (under_any (doomed r [name])) (h_fs h).
Proof.
  intros Hwf Hd Hn H. unfold clear_entry in H. apply sbind_ok in H as ([] & h1 & E & H).
  unfold answer_of, slift in E. injection E as _ <-. rewrite lock_is_its_name in H by done. unfold doomed. cbn [List.filter].
  destruct (bytes_eqb name LOCK); cbn [negb map].
  - injection H as <-. symmetry. by apply without_none.
  - apply remove_tree_ok in H; [|done|rewrite components_join by done; by destruct (components _)].
    rewrite H, components_join by done. apply without_ext. intros e _. unfold under_any. cbn [existsb]. by rewrite orb_false_r.
Qed.
Lemma doomed_cons r name names f : without (under_any (doomed r names)) (without (under_any (doomed r [name])) f) = without (under_any (doomed r (name :: names))) f.
Proof.
  rewrite without_without. apply without_ext. intros e _. unfold doomed. cbn [List.filter].
  destruct (bytes_eqb name LOCK); cbn [negb map]; [done|]. unfold under_any. cbn [existsb]. by rewrite orb_false_r.
Qed.
Lemma each_clear_ok r names h h' : well_formed (h_fs h) = true -> is_absolute (directory r) = true -> Forall plain_name names ->
  each (clear_entry fault r) names h = (Ok tt, h') -> h_fs h' = without (under_any (doomed r names)) (h_fs h).
Proof.
  revert h. induction names as [|name names IH]; intros h Hwf Hd Hn; cbn [each].
  - intros [= <-]. symmetry. by apply without_none.
  - apply Forall_cons in Hn as [Hn Hns]. intros H. apply sbind_ok in H as ([] & h1 & H1%clear_entry_ok & H2); [|done..].
    rewrite <- doomed_cons, <- H1. apply IH; [|done..]. rewrite H1. by apply well_formed_subtrees.
Qed.
Lemma clear_ok r h h' : well_formed (h_fs h) = true -> is_absolute (directory r) = true ->
  clear_runtime fault r h = (Ok tt, h') -> h_fs h' = without (beside (components (directory r)) LOCK) (h_fs h).
Proof.
  intros Hwf Hd H. unfold clear_runtime in H. destruct (read_dir _ _ _) as [names|] eqn:E; [|done].
  apply read_dir_ok in E; [|done..]. pose proof (absolute_components _ Hd) as Hne.
  assert (Hn : Forall plain_name names) by (apply Forall_forall; intros n; rewrite E; by apply child_plain).
  rewrite (each_clear_ok _ _ _ _ Hwf Hd Hn H). apply without_ext. intros [q k] Hin. cbn [fst]. apply eq_true_iff_eq.
  rewrite (beside_entry _ _ _ _ _ Hwf Hne Hin). unfold under_any, doomed. rewrite existsb_exists.
  setoid_rewrite in_map_iff. setoid_rewrite filter_In. setoid_rewrite <- list_elem_of_In. setoid_rewrite negb_true_iff. rewrite <- E. split.
  - intros (c & (name & <- & Hc & Hk) & Hu). exists name. split; [done|]. split; [|done]. intros ->.
    by rewrite (proj2 (bytes_eqb_true LOCK LOCK) eq_refl) in Hk.
  - intros (name & Hc & Hk & Hu). eexists. split; [|exact Hu]. exists name. split; [done|]. split; [done|].
    apply not_true_is_false. by intros ?%bytes_eqb_true.
Qed.

(** *** The teardown, under one plan *)

Context (p : Plan) (r : Runtime).
Hypothesis Hplan : Forall (fun x => is_absolute x = true) (remove p).
Hypothesis Hcarve : Forall (fun '(d, _) => is_absolute d = true) (keep_within p).
Hypothesis Hdir : is_absolute (directory r) = true.

Lemma removals_absolute f l : removals fault p f = Ok l -> well_formed f = true -> Forall (fun x => is_absolute x = true) l.
Proof.
  intros H Hwf. apply Forall_forall. intros x Hx. apply (removals_ok p f l x Hwf Hcarve H) in Hx as [Hx|(d & keep & name & Hk & _ & _ & ->)].
  - by eapply Forall_forall in Hplan.
  - rewrite Forall_forall in Hcarve. apply is_absolute_join. exact (Hcarve _ Hk).
Qed.
Lemma tear_down_ok h l h' : well_formed (h_fs h) = true -> tear_down fault p r h = (Ok l, h') ->
  removals fault p (h_fs h) = Ok l /\ h_fs h' = without (taken p r) (h_fs h).
Proof.
  intros Hwf H. unfold tear_down in H. apply sbind_ok in H as (l' & h0 & E & H). unfold answer_of, slift in E.
  destruct (removals fault p (h_fs h)) as [removed|] eqn:Er; [|done]. injection E as <- <-.
  apply sbind_ok in H as ([] & h1 & H1 & H). apply sbind_ok in H as ([] & h2 & H2 & H). injection H as <- <-. split; [done|].
  apply each_remove_ok in H1; [|done|eapply Forall_impl; [by eapply removals_absolute|]; intros x; apply absolute_components].
  rewrite (clear_ok r h1 h2); [|rewrite H1; by apply well_formed_subtrees|done|done].
  rewrite H1, (removals_planned _ _ _ Hwf Hcarve Er), without_without. done.
Qed.
Lemma removes_clear_entry name : plain_name name -> removes (fun q => beside (components (directory r)) LOCK q = true) (clear_entry fault r name).
Proof.
  intros Hn. unfold clear_entry. apply removes_bind; [apply removes_nothing|]. intros _. rewrite lock_is_its_name by done.
  destruct (bytes_eqb name LOCK) eqn:E; [apply removes_nothing|]. eapply removes_impl; [|apply removes_tree].
  intros q Hq. cbn beta in Hq. rewrite components_join in Hq by done. eapply under_entry_beside; [|exact Hq]. intros ->.
  by rewrite (proj2 (bytes_eqb_true LOCK LOCK) eq_refl) in E.
Qed.
Lemma removes_plan f l : well_formed f = true -> removals fault p f = Ok l -> removes (fun q => planned p q = true) (each (remove_tree fault) l).
Proof.
  intros Hwf Hl. apply removes_each, Forall_forall. intros x Hx. eapply removes_impl; [|apply removes_tree]. cbn beta. intros q Hq.
  unfold planned, under_any, carved. apply orb_true_iff. rewrite !existsb_exists.
  apply (removals_ok p f l x Hwf Hcarve Hl) in Hx as [Hx|(d & keep & name & Hk & Hc & Hn & ->)].
  - left. exists (components x). split; [by apply in_map, list_elem_of_In|done].
  - right. exists (d, keep). split; [by apply list_elem_of_In|]. rewrite Forall_forall in Hcarve. pose proof (Hcarve _ Hk) as Hd. cbn in Hd.
    eapply under_entry_beside; [exact Hn|]. rewrite <- components_join; [done|done|]. by eapply child_plain, Hc; [|apply absolute_components].
Qed.
(** Whatever happens, only the plan's paths go, and each that goes is recorded. *)
Lemma tear_down_takes h : well_formed (h_fs h) = true -> exists gone,
  snd (tear_down fault p r h) = mk_host (without (among gone) (h_fs h)) (h_log h ++ map Removed gone) /\ Forall (fun q => taken p r q = true) gone.
Proof.
  intros Hwf. assert (Hnone : exists gone, h = mk_host (without (among gone) (h_fs h)) (h_log h ++ map Removed gone) /\ Forall (fun q => taken p r q = true) gone).
  { exists []. cbn [map]. rewrite without_nothing, app_nil_r. by destruct h. }
  unfold tear_down. destruct (removals fault p (h_fs h)) as [l|e] eqn:El; [|exact Hnone].
  change (sbind (answer_of (Ok l)) ?k h) with (k l h). cbn beta.
  destruct (removes_plan _ _ Hwf El h) as (gone & E & Hg). destruct (each (remove_tree fault) l h) as [[[]|e] h1] eqn:E1; cbn [snd] in E.
  2:{ rewrite (sbind_run_err _ _ _ _ _ E1). exists gone. split; [done|]. eapply Forall_impl; [exact Hg|]. intros q Hq. unfold taken. cbn beta in Hq. by rewrite Hq. }
  rewrite (sbind_run _ _ _ _ _ E1). apply each_remove_ok in E1; [|done|eapply Forall_impl; [by eapply removals_absolute|]; intros x; apply absolute_components].
  assert (Hc : exists gone', snd (clear_runtime fault r h1) = mk_host (without (among gone') (h_fs h1)) (h_log h1 ++ map Removed gone') /\ Forall (fun q => taken p r q = true) gone').
  { unfold clear_runtime. destruct (read_dir fault (h_fs h1) (directory r)) as [names|e] eqn:En.
    - apply read_dir_ok in En; [|rewrite E1; by apply well_formed_subtrees|done].
      assert (Hr : removes (fun q => taken p r q = true) (each (clear_entry fault r) names)); [|exact (Hr h1)].
      apply removes_each, Forall_forall. intros name Hn. eapply removes_impl; [|apply removes_clear_entry].
      + intros q Hq. unfold taken. cbn beta in Hq. by rewrite Hq, orb_true_r.
      + rewrite En in Hn. eapply child_plain, Hn; [rewrite E1; by apply well_formed_subtrees|by apply absolute_components].
    - exists []. cbn [snd map]. rewrite without_nothing, app_nil_r. by destruct h1. }
  destruct Hc as (gone' & Ec & Hg'). exists (gone ++ gone'). split.
  - unfold sbind. destruct (clear_runtime fault r h1) as [[[]|] h2]; cbn [snd] in Ec |- *; rewrite Ec, E; cbn [h_fs h_log]; by rewrite without_app, map_app, app_assoc.
  - apply Forall_app. split; [|done]. eapply Forall_impl; [exact Hg|]. intros q Hq. unfold taken. cbn beta in Hq. by rewrite Hq.
Qed.
End reach.

(* ------------------------------------------------------------------ *)
(** ** The verb *)

(** Nothing was up, or the ladder ran and the records read as dead behind it. *)
Definition known_dead (w : destroy_world) : bool :=
  resting (discriminate (dw_boot_json w) (dw_vm_pid w) (dw_built w) (dw_kill w) (dw_show w)) ||
  bool_decide (vm_presence (dw_vm_pid_after w) (dw_kill_after w) (dw_show_after w) = Dead).
Definition agreed (yes : bool) (w : destroy_world) : bool := yes || bool_decide (ask (dw_answer w) = Some true).

Lemma bring_down_run w h : exists commands,
  snd (bring_down w h) = mk_host (h_fs h) (h_log h ++ map Laddered commands) /\
  (fst (bring_down w h) = Ok tt -> known_dead w = true).
Proof.
  unfold bring_down, known_dead. destruct (resting _); [exists []; split; [cbn; by rewrite app_nil_r; destruct h|done]|].
  destruct (stop_ladder false None (dw_ladder w) []) as [r commands]. exists commands. unfold sbind, note, slift.
  destruct r as [rung|e]; [|by split]. destruct (bool_decide _); [by split|]. by split.
Qed.

(** The two ways a run can go: nothing is touched, or the lock was taken with consent and everything is in order. *)
Definition torn (fault : string -> path -> option io_kind) (p : Plan) (w : destroy_world) (yes : bool) (runtime : Runtime)
    (h : host) (r : result (option (list bytes)) (stop Failure)) (h' : host) : Prop :=
  agreed yes w = true /\ lock_answer (dw_lock w) = Ok tt /\
  exists commands, let h1 := mk_host (h_fs h) ((h_log h ++ [Locked]) ++ map Laddered commands) in
    (h' = mk_host (h_fs h1) (h_log h1 ++ [Unlocked]) /\ exists e, r = Err e) \/
    (known_dead w = true /\ exists r1 h2, tear_down fault p runtime h1 = (r1, h2) /\
       h' = mk_host (h_fs h2) (h_log h2 ++ [Unlocked]) /\ r = match r1 with Ok l => Ok (Some l) | Err e => Err e end).
Lemma destroy_cases fault roots keep yes w h r h' : destroy fault roots keep yes w h = (r, h') ->
  (h' = h /\ forall l, r <> Ok (Some l)) \/
  exists id root runtime, dw_sandbox_id w = Ok id /\ dw_runtime_root w = Ok root /\ locate root id DEFAULT_TARGET = Ok runtime /\
    torn fault (Destroy.new roots id keep) w yes runtime h r h'.
Proof.
  assert (Hl : forall A B (x : result A Failure) (k : A -> act B), sbind (answer_of x) k h = match x with Ok a => k a h | Err f => (Err (Failed f), h) end) by by intros A B [].
  unfold destroy. rewrite Hl. destruct (dw_sandbox_id w) as [id|f]; [|by intros [= <- <-]; left].
  rewrite Hl. destruct (dw_runtime_root w) as [root|f]; [|by intros [= <- <-]; left].
  rewrite Hl. destruct (locate root id DEFAULT_TARGET) as [runtime|f] eqn:Hloc; [|by intros [= <- <-]; left].
  cbn zeta.
  assert (Hgo : (if yes then sret true else answer_of (confirm (dw_answer w))) h =
    (match (if yes then Some true else ask (dw_answer w)) with Some go => Ok go | None => Err (Failed (diagnosed N_Host "prompt-unavailable" IoErr)) end, h)).
  { destruct yes; [done|]. unfold answer_of, slift, confirm. by destruct (ask (dw_answer w)). }
  unfold sbind at 1. rewrite Hgo. clear Hgo.
  destruct (if yes then Some true else ask (dw_answer w)) as [[]|] eqn:Ha; [|by intros [= <- <-]; left..].
  cbn [negb]. rewrite Hl. destruct (lock_answer (dw_lock w)) as [[]|f] eqn:Hlock; [|by intros [= <- <-]; left].
  intros H. right. exists id, root, runtime. do 3 (split; [done|]). split.
  { unfold agreed. destruct yes; [done|]. cbn [orb]. by apply bool_decide_eq_true. }
  split; [done|]. clear Hl. unfold under_lock in H. unfold note at 1 in H.
  set (hl := mk_host (h_fs h) (h_log h ++ [Locked])) in *.
  destruct (bring_down_run w hl) as (commands & Eb & Hd). exists commands. cbn zeta.
  unfold sbind in H. fold hl in H. destruct (bring_down w hl) as [[[]|e] h1]; cbn [fst snd] in *; subst h1.
  - right. split; [by apply Hd|]. destruct (tear_down fault _ runtime _) as [r1 h2] eqn:Et. exists r1, h2.
    split; [done|]. destruct r1; injection H as <- <-; by split.
  - left. injection H as <- <-. split; [done|]. by exists e.
Qed.

(** Every path of a plan is absolute when the roots are. *)
Lemma xdg_roots_absolute env roots : resolve_xdg_roots env = Ok roots ->
  is_absolute (config roots) = true /\ is_absolute (data roots) = true /\ is_absolute (state roots) = true /\ is_absolute (cache roots) = true.
Proof.
  assert (Hr : forall name fallback p, resolve_durable_root env name fallback = Ok p -> is_absolute p = true).
  { intros name fallback p. unfold resolve_durable_root. destruct (absolute_nonempty (env (bs name))) as [base|] eqn:E.
    - intros [= <-]. apply absolute_nonempty_some in E as [_ E]. by apply is_absolute_join.
    - destruct (absolute_nonempty (env (bs "HOME"))) as [home|] eqn:Eh; [|done]. intros [= <-].
      apply absolute_nonempty_some in Eh as [_ Eh]. by repeat apply is_absolute_join. }
  unfold resolve_xdg_roots. intros H. inv_ok. split_and!; by eapply Hr.
Qed.
Lemma plan_absolute roots id keep : is_absolute (data roots) = true -> is_absolute (state roots) = true ->
  Forall (fun x => is_absolute x = true) (remove (Destroy.new roots id keep)) /\
  Forall (fun '(d, _) => is_absolute d = true) (keep_within (Destroy.new roots id keep)).
Proof.
  intros Hd Hs. split; destruct keep; cbn [Destroy.new remove keep_within app]; repeat constructor; by repeat apply is_absolute_join.
Qed.
Lemma runtime_absolute root id target runtime : is_absolute root = true -> locate root id target = Ok runtime ->
  runtime = for_report root id target /\ is_absolute (directory runtime) = true.
Proof.
  intros Hr. unfold locate. destruct (108 <=? _)%nat; [done|]. intros [= <-]. split; [done|]. by repeat apply is_absolute_join.
Qed.

Section verb.
Context (fault : string -> path -> option io_kind) (env : Environment) (roots : XdgRoots) (keep yes : bool) (w : destroy_world) (h : host)
  (r : result (option (list bytes)) (stop Failure)) (h' : host).
Hypothesis Hroots : resolve_xdg_roots env = Ok roots.
Hypothesis Hrun_root : forall root, dw_runtime_root w = Ok root -> is_absolute root = true.
Hypothesis Hfs : well_formed (h_fs h) = true.
Hypothesis Hrun : destroy fault roots keep yes w h = (r, h').

(** What one run took, and of what plan. *)
Definition took (gone : list path) (commands : list effect) : Prop :=
  exists id root, dw_sandbox_id w = Ok id /\ dw_runtime_root w = Ok root /\
    h' = mk_host (without (among gone) (h_fs h)) (h_log h ++ Locked :: map Laddered commands ++ map Removed gone ++ [Unlocked]) /\
    Forall (fun q => taken (Destroy.new roots id keep) (for_report root id DEFAULT_TARGET) q = true) gone /\
    (gone <> [] -> known_dead w = true) /\
    forall l, r = Ok (Some l) -> known_dead w = true /\
      removals fault (Destroy.new roots id keep) (h_fs h) = Ok l /\
      h_fs h' = without (taken (Destroy.new roots id keep) (for_report root id DEFAULT_TARGET)) (h_fs h).
Lemma destroy_took : (h' = h /\ forall l, r <> Ok (Some l)) \/
  agreed yes w = true /\ lock_answer (dw_lock w) = Ok tt /\ exists gone commands, took gone commands.
Proof.
  destruct (destroy_cases _ _ _ _ _ _ _ _ Hrun) as [H|(id & root & runtime & Hid & Hroot & Hloc & Hag & Hlock & commands & H)]; [by left|right].
  destruct (runtime_absolute _ _ _ _ (Hrun_root _ Hroot) Hloc) as [-> Hdir].
  destruct (xdg_roots_absolute _ _ Hroots) as (_ & Hdata & Hstate & _). destruct (plan_absolute roots id keep Hdata Hstate) as [Hp Hk].
  split; [done|]. split; [done|]. cbn [h_fs h_log] in H. destruct H as [[Eh [e Er]]|(Hdead & r1 & h2 & Et & Eh & Er)].
  - exists [], commands, id, root. rewrite Eh, Er, without_nothing, <- !app_assoc. by repeat split.
  - destruct (tear_down_takes fault _ _ Hp Hk Hdir (mk_host (h_fs h) ((h_log h ++ [Locked]) ++ map Laddered commands)) Hfs) as (gone & E & Hg).
    rewrite Et in E. cbn [snd h_fs h_log] in E. exists gone, commands, id, root. split; [done|]. split; [done|]. split.
    { rewrite Eh, E. cbn [h_fs h_log]. by rewrite <- !app_assoc. }
    split; [done|]. split; [done|]. intros l El. split; [done|]. rewrite Er in El. destruct r1 as [l1|]; [|done]. injection El as ->.
    rewrite Eh. by apply (tear_down_ok fault) in Et.
Qed.
End verb.

(* ------------------------------------------------------------------ *)
(** ** What the plan spares *)

(** Neither is in the other. *)
Definition apart (a b : bytes) : Prop := overlaps a b = false.
Lemma apart_under a b q : apart a b -> under (components a) q = true -> under (components b) q = true -> False.
Proof.
  unfold apart, overlaps, under. rewrite orb_false_iff. intros [H1 H2] Ha Hb. apply components_start_with_prefix in Ha, Hb.
  apply not_true_iff_false in H1, H2. rewrite path_starts_with_prefix in H1, H2. by destruct (prefix_weak_total _ _ _ Ha Hb).
Qed.
Lemma under_up a n q : is_absolute a = true -> plain_name n -> under (components (join a n)) q = true -> under (components a) q = true.
Proof. intros Ha Hn. rewrite components_join by done. apply under_trans, under_child. Qed.
Lemma under_siblings a m n q : is_absolute a = true -> plain_name m -> plain_name n -> m <> n ->
  under (components (join a m)) q = true -> under (components (join a n)) q = true -> False.
Proof.
  intros Ha Hm Hn Hne H1 H2. rewrite !components_join in * by done. apply (under_entry_beside _ n) in H1; [|done].
  unfold beside in H1. by rewrite H2, andb_false_r in H1.
Qed.
Ltac plain := first [assumption | apply (bool_decide_unpack _); vm_compute; exact I].
Ltac absolute := first [assumption | apply is_absolute_join; absolute].

Section spared.
Context (roots : XdgRoots) (id root : bytes) (keep : bool).
Hypothesis Hdata : is_absolute (data roots) = true.
Hypothesis Hstate : is_absolute (state roots) = true.
Hypothesis Hcache : is_absolute (cache roots) = true.
Hypothesis Hroot : is_absolute root = true.
Hypothesis Hid : plain_name id.
Hypothesis Hds : apart (data roots) (state roots).
Hypothesis Hcd : apart (cache roots) (data roots).
Hypothesis Hcs : apart (cache roots) (state roots).
Hypothesis Hr : apart root (data roots) /\ apart root (state roots) /\ apart root (cache roots).

Definition project_state : bytes := join (join (state roots) (bs "projects")) id.
Definition data_target : bytes := join (join (join (data roots) (bs "projects")) id) DEFAULT_TARGET.
Lemma under_data_target n q : plain_name n -> under (components (join data_target n)) q = true -> under (components (data roots)) q = true.
Proof. intros Hn H. unfold data_target in H. apply under_up in H; [|absolute|plain]. do 3 (apply under_up in H; [|absolute|plain]). done. Qed.
Lemma under_project_state q : under (components project_state) q = true -> under (components (state roots)) q = true.
Proof. intros H. unfold project_state in H. do 2 (apply under_up in H; [|absolute|plain]). done. Qed.
Lemma under_runtime q : under (components (directory (for_report root id DEFAULT_TARGET))) q = true -> under (components root) q = true.
Proof. intros H. do 2 (apply under_up in H; [|absolute|plain]). done. Qed.
Lemma under_cache q : under (components (join (join (cache roots) (bs "flakes")) id)) q = true -> under (components (cache roots)) q = true.
Proof. intros H. do 2 (apply under_up in H; [|absolute|plain]). done. Qed.

(** What a plan may take is in the data records, in the project's state, or in the runtime directory. *)
Lemma planned_where q : planned (Destroy.new roots id keep) q = true ->
  under (components (join data_target (bs "last-build"))) q = true \/ under (components (join data_target (bs "running-build"))) q = true \/
  under (components project_state) q = true /\
    (keep = true -> under (components (join (join project_state DEFAULT_TARGET) (bs "volumes"))) q = false).
Proof.
  unfold planned, under_any, carved. rewrite orb_true_iff. fold project_state.
  destruct keep; cbn [Destroy.new remove keep_within app map existsb]; rewrite ?orb_false_r, ?orb_true_iff.
  - intros [[H|H]|[H|H]]; [by left|by right; left|..]; do 2 right; unfold beside in H; rewrite !andb_true_iff, !negb_true_iff in H;
      destruct H as [[Hu _] Hk]; fold project_state in Hu, Hk.
    + split; [eapply under_up, Hu; [unfold project_state; absolute|plain]|]. intros _. rewrite components_join; [done|unfold project_state; absolute|plain].
    + split; [done|]. intros _. apply not_true_is_false. intros Hv. apply under_up in Hv; [|unfold project_state; absolute|plain].
      rewrite components_join in Hv; [congruence|unfold project_state; absolute|plain].
  - intros [[H|[H|H]]|H]; [by left|by right; left| |done]. do 2 right. by split.
Qed.
Lemma spared_not_taken p q : p ∈ spared (Destroy.new roots id keep) -> under (components p) q = true ->
  taken (Destroy.new roots id keep) (for_report root id DEFAULT_TARGET) q = false.
Proof.
  intros Hp Hu. destruct Hr as (Hrd & Hrs & Hrc). apply not_true_is_false. unfold taken. rewrite orb_true_iff.
  assert (Hwhere : p = join data_target (bs "flake.lock") \/ p = join (join (cache roots) (bs "flakes")) id \/
    keep = true /\ p = join (join project_state DEFAULT_TARGET) (bs "volumes")).
  { cbn [Destroy.new spared] in Hp. destruct keep; cbn [app] in Hp; rewrite !elem_of_cons, elem_of_nil in Hp; naive_solver. }
  intros [H|H].
  - apply planned_where in H. destruct Hwhere as [->|[->|[Hk ->]]], H as [H|[H|[H Hv]]].
    1,2: refine (under_siblings data_target _ _ q _ _ _ _ Hu H); [unfold data_target; absolute|plain|plain|discriminate].
    + eapply (apart_under _ _ q Hds); [eapply under_data_target, Hu; plain|by apply under_project_state].
    + eapply (apart_under _ _ q Hcd); [by apply under_cache|eapply under_data_target, H; plain].
    + eapply (apart_under _ _ q Hcd); [by apply under_cache|eapply under_data_target, H; plain].
    + eapply (apart_under _ _ q Hcs); [by apply under_cache|by apply under_project_state].
    + eapply (apart_under _ _ q Hds); [eapply under_data_target, H; plain|]. apply under_project_state. do 2 (apply under_up in Hu; [|unfold project_state; absolute|plain]). done.
    + eapply (apart_under _ _ q Hds); [eapply under_data_target, H; plain|]. apply under_project_state. do 2 (apply under_up in Hu; [|unfold project_state; absolute|plain]). done.
    + rewrite (Hv Hk) in Hu. done.
  - unfold beside in H. rewrite !andb_true_iff in H. destruct H as [[H _] _]. apply under_runtime in H.
    destruct Hwhere as [->|[->|[_ ->]]].
    + eapply (apart_under _ _ q Hrd); [done|]. eapply under_data_target, Hu; plain.
    + eapply (apart_under _ _ q Hrc); [done|]. by apply under_cache.
    + eapply (apart_under _ _ q Hrs); [done|]. apply under_project_state. do 2 (apply under_up in Hu; [|unfold project_state; absolute|plain]). done.
Qed.
End spared.

(* ------------------------------------------------------------------ *)
(** ** A run that meets no fault *)

Definition no_fault (_ : string) (_ : path) : option io_kind := None.
Definition succeeds {A} (m : act A) : Prop := forall h, exists a h', m h = (Ok a, h').
Lemma succeeds_each {A} (g : A -> act unit) l : (forall x, succeeds (g x)) -> succeeds (each g l).
Proof.
  intros Hg. induction l as [|x l IH]; intros h; cbn [each]; [by do 2 eexists|].
  destruct (Hg x h) as ([] & h1 & E). rewrite (sbind_run _ _ _ _ _ E). apply IH.
Qed.
Lemma succeeds_remove_tree p : succeeds (remove_tree no_fault p).
Proof.
  intros h. unfold remove_tree. destruct (node_at (h_fs h) (components p)) as [[]|]; [|by do 2 eexists..].
  apply succeeds_each. intros q h'. by do 2 eexists.
Qed.
(** A directory that can be read: it is one, or it is not there. *)
Definition readable (f : fs) (d : bytes) : Prop := node_at f (components d) = Some NDir \/ node_at f (components d) = None.
Lemma readable_read fault f d names : read_dir fault f d = Ok names -> readable f d.
Proof. unfold read_dir, readable. destruct (fault _ _), (node_at _ _) as [[]|]; naive_solver. Qed.
Lemma readable_without lost f d : readable f d -> readable (without lost f) d.
Proof.
  unfold readable. intros H. destruct (lost (components d)) eqn:E; [|by rewrite node_at_without].
  right. apply node_at_None. intros k [_ Hl]%without_elem. cbn in Hl. congruence.
Qed.
Lemma read_readable f d : readable f d -> exists names, read_dir no_fault f d = Ok names.
Proof. unfold read_dir, readable. intros [-> | ->]; by eexists. Qed.
Lemma entries_read d names : collect_results (read_entry no_fault d) names = Ok names.
Proof. induction names as [|n names IH]; [done|]. cbn [collect_results]. by rewrite IH. Qed.
Lemma removals_read p f : Forall (fun '(d, _) => readable f d) (keep_within p) -> exists l, removals no_fault p f = Ok l.
Proof.
  intros H. unfold removals. enough (E : exists pruned, collect_results (prune no_fault f) (keep_within p) = Ok pruned) by (destruct E as [? ->]; by eexists).
  induction H as [|[d keep] l Hd _ [pruned IH]]; [by eexists|]. cbn [collect_results prune].
  destruct (read_readable _ _ Hd) as [names ->]. cbn [rbind]. rewrite entries_read. cbn [rbind]. rewrite IH. by eexists.
Qed.
Lemma tear_down_succeeds p r h : well_formed (h_fs h) = true -> Forall (fun x => is_absolute x = true) (remove p) ->
  Forall (fun '(d, _) => is_absolute d = true) (keep_within p) ->
  Forall (fun '(d, _) => readable (h_fs h) d) (keep_within p) -> readable (h_fs h) (directory r) ->
  exists l h', tear_down no_fault p r h = (Ok l, h').
Proof.
  intros Hwf Hp Hk Hread Hdir. unfold tear_down. destruct (removals_read _ _ Hread) as [l El]. rewrite El.
  change (sbind (answer_of (Ok l)) ?k h) with (k l h). cbn beta.
  destruct (succeeds_each (remove_tree no_fault) l succeeds_remove_tree h) as ([] & h1 & E1). rewrite (sbind_run _ _ _ _ _ E1).
  apply each_remove_ok in E1; [|done|eapply Forall_impl; [by eapply removals_absolute|]; intros x; apply absolute_components].
  assert (Hc : exists h2, clear_runtime no_fault r h1 = (Ok tt, h2)).
  { unfold clear_runtime. destruct (read_readable (h_fs h1) (directory r)) as [names ->]; [rewrite E1; by apply readable_without|].
    destruct (succeeds_each (clear_entry no_fault r) names) with (h := h1) as ([] & h2 & E2); [|by exists h2].
    intros name h0. unfold clear_entry. change (sbind (answer_of _) ?k h0) with (k tt h0). cbn beta.
    destruct (path_eqb _ _); [by do 2 eexists|]. apply succeeds_remove_tree. }
  destruct Hc as [h2 E2]. rewrite (sbind_run _ _ _ _ _ E2). by do 2 eexists.
Qed.
(** What a plan may take is closed downwards. *)
Lemma beside_closed d keep p q : beside d keep p = true -> under p q = true -> beside d keep q = true.
Proof.
  unfold beside. rewrite !andb_true_iff, !negb_true_iff, !bool_decide_eq_false. intros [[Hd Hne] Hk] Hq. split_and!; [by eapply under_trans| |].
  - intros ->. apply Hne. unfold under in Hd, Hq. apply components_start_with_prefix in Hd, Hq. by apply (anti_symm prefix).
  - apply not_true_is_false. intros Hu. apply not_true_iff_false in Hk. unfold under in *. rewrite components_start_with_prefix in *.
    destruct (prefix_weak_total _ _ _ Hq Hu) as [Hp|Hp]; [|done]. destruct Hd as [l ->]. apply prefix_app_inv in Hp.
    destruct l as [|c l]; [by rewrite app_nil_r in Hne|]. apply Hk. destruct Hp as [l' E]. destruct l, l'; try done. injection E as ->. done.
Qed.
Lemma taken_closed p r x y : taken p r x = true -> under x y = true -> taken p r y = true.
Proof.
  unfold taken, planned, carved. rewrite !orb_true_iff, !existsb_exists. intros [[H|([d keep] & Hin & H)]|H] Hu.
  - left; left. by eapply under_any_closed.
  - left; right. exists (d, keep). split; [done|]. by eapply beside_closed.
  - right. by eapply beside_closed.
Qed.
(** What a first run could read, a second can. *)
Lemma tear_down_readable fault p r h l h' : well_formed (h_fs h) = true -> Forall (fun x => is_absolute x = true) (remove p) ->
  Forall (fun '(d, _) => is_absolute d = true) (keep_within p) -> is_absolute (directory r) = true ->
  tear_down fault p r h = (Ok l, h') -> Forall (fun '(d, _) => readable (h_fs h') d) (keep_within p) /\ readable (h_fs h') (directory r).
Proof.
  intros Hwf Hp Hk Hd H. destruct (tear_down_ok fault p r Hp Hk Hd _ _ _ Hwf H) as [Hl Hfs]. split.
  - unfold removals in Hl. apply rbind_ok in Hl as (pruned & Hc%collect_results_ok & _). rewrite Hfs. clear -Hc.
    induction Hc as [|[d keep] names k l Hx _ IH]; constructor; [|done]. apply readable_without.
    cbn [prune] in Hx. apply rbind_ok in Hx as (ns & Hx & _). by eapply readable_read.
  - unfold tear_down in H. rewrite Hl in H. change (sbind (answer_of (Ok l)) ?k h) with (k l h) in H. cbn beta in H.
    apply sbind_ok in H as ([] & h1 & H1 & H). apply sbind_ok in H as ([] & h2 & H2 & H). injection H as <-.
    apply each_remove_ok in H1; [|done|eapply Forall_impl; [by eapply removals_absolute|]; intros x; apply absolute_components].
    pose proof H2 as H3. apply clear_ok in H3; [|rewrite H1; by apply well_formed_subtrees|done]. rewrite H3. apply readable_without.
    unfold clear_runtime in H2. destruct (read_dir _ _ _) eqn:E; [|done]. by eapply readable_read.
Qed.
(** A run that is agreed to, beside a VM at rest, is its teardown. *)
Lemma destroy_at_rest fault roots keep yes w h id root runtime : agreed yes w = true -> lock_answer (dw_lock w) = Ok tt ->
  dw_sandbox_id w = Ok id -> dw_runtime_root w = Ok root -> locate root id DEFAULT_TARGET = Ok runtime ->
  resting (discriminate (dw_boot_json w) (dw_vm_pid w) (dw_built w) (dw_kill w) (dw_show w)) = true ->
  forall l h2, tear_down fault (Destroy.new roots id keep) runtime (mk_host (h_fs h) (h_log h ++ [Locked])) = (Ok l, h2) ->
  destroy fault roots keep yes w h = (Ok (Some l), mk_host (h_fs h2) (h_log h2 ++ [Unlocked])).
Proof.
  intros Hag Hlock Hid Hroot Hloc Hrest l h2 Et. unfold destroy. rewrite Hid, Hroot.
  rewrite (sbind_run _ _ _ id h) by done. rewrite (sbind_run _ _ _ root h) by done.
  rewrite (sbind_run _ _ _ runtime h) by (unfold answer_of, slift; by rewrite Hloc). cbn zeta.
  rewrite (sbind_run _ _ _ true h).
  2:{ unfold agreed in Hag. destruct yes; [done|]. cbn [orb] in Hag. apply bool_decide_eq_true in Hag.
      unfold answer_of, slift, confirm. by rewrite Hag. }
  cbn [negb]. rewrite Hlock. rewrite (sbind_run _ _ _ tt h) by done. unfold under_lock. unfold note at 1. unfold sbind at 1.
  unfold bring_down. rewrite Hrest. rewrite (sbind_run _ _ _ tt _) by done. by rewrite (sbind_run _ _ _ _ _ Et).
Qed.
Lemma destroy_finished fault env roots keep yes w h l h' : resolve_xdg_roots env = Ok roots ->
  (forall root, dw_runtime_root w = Ok root -> is_absolute root = true) -> well_formed (h_fs h) = true ->
  destroy fault roots keep yes w h = (Ok (Some l), h') -> exists id root runtime h1 h2,
    dw_sandbox_id w = Ok id /\ dw_runtime_root w = Ok root /\ locate root id DEFAULT_TARGET = Ok runtime /\ h_fs h1 = h_fs h /\
    tear_down fault (Destroy.new roots id keep) runtime h1 = (Ok l, h2) /\ h_fs h' = h_fs h2.
Proof.
  intros Hroots Habs Hwf H. destruct (destroy_cases _ _ _ _ _ _ _ _ H) as [[_ Hn]|(id & root & runtime & Hid & Hroot & Hloc & _ & _ & commands & Hc)]; [by destruct (Hn l)|].
  destruct Hc as [[_ [e He]]|(_ & r1 & h2 & Et & -> & Hr)]; [done|]. exists id, root, runtime, (mk_host (h_fs h) ((h_log h ++ [Locked]) ++ map Laddered commands)), h2.
  do 4 (split; [done|]). destruct r1; [|done]. injection Hr as ->. split; [exact Et|done].
Qed.

(* ------------------------------------------------------------------ *)
(** ** The properties *)

(** C20: When [viv destroy] succeeds, what is left of the file system is what was there, less exactly three things:
    the plan's paths with everything under them, everything in a carved-out directory but the kept name, and everything
    in the runtime directory but the lock.  The paths it reports are that plan, expanded against the directories as
    they were. *)
Theorem destroy_takes_exactly_its_plan fault env roots keep yes w h l h' :
  resolve_xdg_roots env = Ok roots -> (forall root, dw_runtime_root w = Ok root -> is_absolute root = true) ->
  well_formed (h_fs h) = true -> destroy fault roots keep yes w h = (Ok (Some l), h') ->
  exists id root, dw_sandbox_id w = Ok id /\ dw_runtime_root w = Ok root /\
    removals fault (Destroy.new roots id keep) (h_fs h) = Ok l /\
    forall q k, (q, k) ∈ h_fs h' <-> (q, k) ∈ h_fs h /\ taken (Destroy.new roots id keep) (for_report root id DEFAULT_TARGET) q = false.
Proof.
  intros Hroots Habs Hwf H. destruct (destroy_took _ _ _ _ _ _ _ _ _ Hroots Habs Hwf H) as [[_ Hn]|(_ & _ & gone & cmds & id & root & Hid & Hroot & _ & _ & _ & Ht)]; [by destruct (Hn l)|].
  destruct (Ht l eq_refl) as (_ & Hl & Hfs). exists id, root. do 3 (split; [done|]). intros q k. rewrite Hfs. apply without_elem.
Qed.

(** C21: However a run ends - a fault part of the way included - anything it removed was removed after the run was
    agreed to, between taking the lock and letting it go, behind the whole stop ladder, with nothing up or the VM's
    records read as dead, and was the plan's to remove; the log holds each removal, in order. *)
Theorem destroy_removes_only_behind_a_dead_vm fault env roots keep yes w h r h' :
  resolve_xdg_roots env = Ok roots -> (forall root, dw_runtime_root w = Ok root -> is_absolute root = true) ->
  well_formed (h_fs h) = true -> destroy fault roots keep yes w h = (r, h') ->
  h_fs h' <> h_fs h ->
  agreed yes w = true /\ lock_answer (dw_lock w) = Ok tt /\ known_dead w = true /\
  exists id root commands gone, dw_sandbox_id w = Ok id /\ dw_runtime_root w = Ok root /\
    h_log h' = h_log h ++ Locked :: map Laddered commands ++ map Removed gone ++ [Unlocked] /\
    h_fs h' = without (among gone) (h_fs h) /\
    Forall (fun q => taken (Destroy.new roots id keep) (for_report root id DEFAULT_TARGET) q = true) gone.
Proof.
  intros Hroots Habs Hwf H Hne. destruct (destroy_took _ _ _ _ _ _ _ _ _ Hroots Habs Hwf H) as [[-> _]|(Hag & Hlock & gone & cmds & id & root & Hid & Hroot & -> & Hg & Hd & _)]; [done|].
  split; [done|]. split; [done|]. cbn [h_fs h_log] in *. split.
  { apply Hd. intros ->. by rewrite without_nothing in Hne. }
  exists id, root, cmds, gone. by repeat split.
Qed.

(** With the roots apart from one another, everything the plan says it spares - the lockfile's pin, the generated
    tree, the volumes when they are kept - is still there afterwards with all that is under it, however the run ends;
    and so is the lock. *)
Theorem destroy_spares_what_it_says fault env roots keep yes w h r h' id root :
  resolve_xdg_roots env = Ok roots -> dw_sandbox_id w = Ok id -> plain_name id ->
  dw_runtime_root w = Ok root -> is_absolute root = true ->
  apart (data roots) (state roots) -> apart (cache roots) (data roots) -> apart (cache roots) (state roots) ->
  apart root (data roots) /\ apart root (state roots) /\ apart root (cache roots) ->
  well_formed (h_fs h) = true -> destroy fault roots keep yes w h = (r, h') ->
  forall q k p, (q, k) ∈ h_fs h -> p ∈ spared (Destroy.new roots id keep) -> under (components p) q = true -> (q, k) ∈ h_fs h'.
Proof.
  intros Hroots Hid Hname Hroot Habs Hds Hcd Hcs Hr Hwf H q k p Hin Hp Hu.
  assert (Habs' : forall root', dw_runtime_root w = Ok root' -> is_absolute root' = true) by (intros root' E; rewrite Hroot in E; by injection E as <-).
  destruct (destroy_took _ _ _ _ _ _ _ _ _ Hroots Habs' Hwf H) as [[-> _]|(_ & _ & gone & cmds & id' & root' & Hid' & Hroot' & -> & Hg & _ & _)]; [done|].
  rewrite Hid in Hid'. injection Hid' as <-. rewrite Hroot in Hroot'. injection Hroot' as <-.
  destruct (xdg_roots_absolute _ _ Hroots) as (_ & Hdata & Hstate & Hcache).
  pose proof (spared_not_taken roots id root keep Hdata Hstate Hcache Habs Hname Hds Hcd Hcs Hr p q Hp Hu) as Hnt.
  apply without_elem. split; [done|]. apply bool_decide_eq_false. intros Hq. rewrite Forall_forall in Hg. specialize (Hg _ Hq). cbn beta in Hg. cbn [fst] in Hg. by rewrite Hnt in Hg.
Qed.

(** A second [viv destroy] - with the same names, nothing up, and no fault - succeeds and leaves the file system
    as the first left it. *)
Theorem destroy_is_idempotent fault env roots keep yes w h l h' yes2 w2 :
  resolve_xdg_roots env = Ok roots -> (forall root, dw_runtime_root w = Ok root -> is_absolute root = true) ->
  well_formed (h_fs h) = true -> destroy fault roots keep yes w h = (Ok (Some l), h') ->
  dw_sandbox_id w2 = dw_sandbox_id w -> dw_runtime_root w2 = dw_runtime_root w ->
  agreed yes2 w2 = true -> lock_answer (dw_lock w2) = Ok tt ->
  resting (discriminate (dw_boot_json w2) (dw_vm_pid w2) (dw_built w2) (dw_kill w2) (dw_show w2)) = true ->
  exists l2 h2, destroy no_fault roots keep yes2 w2 h' = (Ok (Some l2), h2) /\ h_fs h2 = h_fs h'.
Proof.
  intros Hroots Habs Hwf H Eid Eroot Hag Hlock Hrest.
  destruct (destroy_finished _ _ _ _ _ _ _ _ _ Hroots Habs Hwf H) as (id & root & runtime & h1 & h2 & Hid & Hroot & Hloc & E1 & Et & E2).
  destruct (runtime_absolute _ _ _ _ (Habs _ Hroot) Hloc) as [_ Hdir].
  destruct (xdg_roots_absolute _ _ Hroots) as (_ & Hdata & Hstate & _). destruct (plan_absolute roots id keep Hdata Hstate) as [Hp Hk].
  assert (Hwf1 : well_formed (h_fs h1) = true) by by rewrite E1.
  destruct (tear_down_readable _ _ _ _ _ _ Hwf1 Hp Hk Hdir Et) as [Hread Hrd].
  apply (tear_down_ok fault _ _ Hp Hk Hdir _ _ _ Hwf1) in Et as [_ Et]. rewrite <- E2 in Hread, Hrd, Et.
  assert (Hwf' : well_formed (h_fs h') = true) by (rewrite Et; apply without_well_formed; [by apply taken_closed|done]).
  destruct (tear_down_succeeds (Destroy.new roots id keep) runtime (mk_host (h_fs h') (h_log h' ++ [Locked]))) as (l2 & h3 & E3); [done..|].
  exists l2. eexists. split; [eapply destroy_at_rest; [done|done|by rewrite Eid|by rewrite Eroot|done|done|exact E3]|].
  apply (tear_down_ok no_fault _ _ Hp Hk Hdir) in E3 as [_ E3]; [|done]. cbn [h_fs] in *. rewrite E3, Et, without_without.
  apply without_ext. intros e _. by destruct (taken _ _ _).
Qed.

(** What the plan says it spares is lost when one directory serves as state root and data root, as the environment may
    have it: the lockfile's pin lies inside the tree the plan removes. *)
Theorem shared_root_loses_the_pin fault env roots yes w h l h' id :
  resolve_xdg_roots env = Ok roots -> state roots = data roots ->
  dw_sandbox_id w = Ok id -> plain_name id ->
  (forall root, dw_runtime_root w = Ok root -> is_absolute root = true) ->
  well_formed (h_fs h) = true -> destroy fault roots false yes w h = (Ok (Some l), h') ->
  exists pin, pin ∈ spared (Destroy.new roots id false) /\ forall k, (components pin, k) ∉ h_fs h'.
Proof.
  intros Hroots Hsame Hid Hname Habs Hwf H. destruct (destroy_finished _ _ _ _ _ _ _ _ _ Hroots Habs Hwf H) as (id' & root & runtime & h1 & h2 & Hid' & Hroot & Hloc & E1 & Et & E2).
  rewrite Hid in Hid'. injection Hid' as <-. destruct (runtime_absolute _ _ _ _ (Habs _ Hroot) Hloc) as [_ Hdir].
  destruct (xdg_roots_absolute _ _ Hroots) as (_ & Hdata & Hstate & _). destruct (plan_absolute roots id false Hdata Hstate) as [Hp Hk].
  apply (tear_down_ok fault _ _ Hp Hk Hdir) in Et as [_ Et]; [|by rewrite E1]. exists (join (data_target roots id) (bs "flake.lock")).
  split; [by left|]. intros k. rewrite E2, Et. intros [_ Hn]%without_elem. cbn [fst] in Hn.
  assert (Hu : under (components (project_state roots id)) (components (join (data_target roots id) (bs "flake.lock"))) = true).
  { unfold data_target, project_state. rewrite Hsame. unfold under. apply components_start_with_prefix. rewrite !(components_join _ (bs "flake.lock")), (components_join _ DEFAULT_TARGET); [|absolute|plain|absolute|plain]. eexists [_; _]. by rewrite <- app_assoc. }
  unfold taken, planned, under_any in Hn. cbn [Destroy.new remove app map existsb] in Hn. fold (project_state roots id) in Hn.
  by rewrite Hu, !orb_true_r in Hn.
Qed.

(* ------------------------------------------------------------------ *)
(** ** Witnesses *)

Definition demo_env : Environment := fun name => if bytes_eqb name (bs "HOME") then Some (bs "/h") else None.
Definition demo_roots : XdgRoots :=
  mk_XdgRoots (bs "/h/.config/vivarium") (bs "/h/.local/share/vivarium") (bs "/h/.local/state/vivarium") (bs "/h/.cache/vivarium").
Definition demo_root : bytes := bs "/run/vivarium".
Definition down (names : list string) : path := RootDir :: map (fun n => Normal (bs n)) names.
Definition demo_fs : fs := [
  (down [], NDir); (down ["h"], NDir); (down ["h"; ".local"], NDir); (down ["h"; ".local"; "share"], NDir);
  (down ["h"; ".local"; "share"; "vivarium"], NDir);
  (down ["h"; ".local"; "share"; "vivarium"; "projects"], NDir);
  (down ["h"; ".local"; "share"; "vivarium"; "projects"; "p"], NDir);
  (down ["h"; ".local"; "share"; "vivarium"; "projects"; "p"; "default"], NDir);
  (down ["h"; ".local"; "share"; "vivarium"; "projects"; "p"; "default"; "flake.lock"], NFile);
  (down ["h"; ".local"; "share"; "vivarium"; "projects"; "p"; "default"; "last-build"], NFile);
  (down ["h"; ".local"; "state"], NDir); (down ["h"; ".local"; "state"; "vivarium"], NDir);
  (down ["h"; ".local"; "state"; "vivarium"; "projects"], NDir);
  (down ["h"; ".local"; "state"; "vivarium"; "projects"; "p"], NDir);
  (down ["h"; ".local"; "state"; "vivarium"; "projects"; "p"; "default"], NDir);
  (down ["h"; ".local"; "state"; "vivarium"; "projects"; "p"; "default"; "generation-1"], NLink);
  (down ["h"; ".local"; "state"; "vivarium"; "projects"; "p"; "default"; "volumes"], NDir);
  (down ["h"; ".local"; "state"; "vivarium"; "projects"; "p"; "default"; "volumes"; "default.img"], NFile);
  (down ["run"], NDir); (down ["run"; "vivarium"], NDir); (down ["run"; "vivarium"; "p"], NDir);
  (down ["run"; "vivarium"; "p"; "default"], NDir); (down ["run"; "vivarium"; "p"; "default"; "boot.json"], NFile);
  (down ["run"; "vivarium"; "p"; "default"; "lock"], NFile)]%string.
Definition demo_world : destroy_world :=
  mk_destroy_world (Ok (bs "p")) (Ok demo_root) (A_Line (bs "Yes" ++ newline)) true (mk_lock_world true true LockTaken)
    Missing Missing (fun _ => K_Srch) (Ran true (bs "inactive"))
    (mk_ladder_world R_Absent false (fun _ => false) [] (mk_unit_world Job_NotRun [] false []))
    Missing (fun _ => K_Srch) (Ran true (bs "inactive")).
Definition demo_host : host := mk_host demo_fs [].
Definition demo_end (keep : bool) : result (option (list bytes)) (stop Failure) * host := destroy no_fault demo_roots keep false demo_world demo_host.
Definition demo_gone (keep : bool) : list bytes := match fst (demo_end keep) with Ok (Some l) => l | _ => [] end.
Lemma demo_resolves : resolve_xdg_roots demo_env = Ok demo_roots.
Proof. vm_compute. reflexivity. Qed.
Lemma demo_root_absolute root : dw_runtime_root demo_world = Ok root -> is_absolute root = true.
Proof. intros [= <-]. reflexivity. Qed.
Lemma demo_fs_well_formed : well_formed (h_fs demo_host) = true.
Proof. vm_compute. reflexivity. Qed.
Lemma demo_destroyed keep : destroy no_fault demo_roots keep false demo_world demo_host = (Ok (Some (demo_gone keep)), snd (demo_end keep)).
Proof. destruct keep; vm_compute; reflexivity. Qed.

Definition demo_link : path := down ["h"; ".local"; "state"; "vivarium"; "projects"; "p"; "default"; "generation-1"]%string.
Definition demo_image : path := down ["h"; ".local"; "state"; "vivarium"; "projects"; "p"; "default"; "volumes"; "default.img"]%string.
Definition demo_pin : path := down ["h"; ".local"; "share"; "vivarium"; "projects"; "p"; "default"; "flake.lock"]%string.
Lemma demo_taken q : bool_decide (q ∈ [demo_link; demo_image; demo_pin]) = true ->
  taken (Destroy.new demo_roots (bs "p") true) (for_report demo_root (bs "p") DEFAULT_TARGET) q = bool_decide (q = demo_link).
Proof. intros H%bool_decide_eq_true. rewrite !elem_of_cons, elem_of_nil in H. destruct H as [->|[->|[->|[]]]]; vm_compute; reflexivity. Qed.
Lemma demo_has : (demo_image, NFile) ∈ demo_fs /\ (demo_pin, NFile) ∈ demo_fs.
Proof. split; apply (bool_decide_unpack _); vm_compute; reflexivity. Qed.
Lemma destroy_takes_exactly_its_plan_witness :
  (demo_link, NLink) ∉ h_fs (snd (demo_end true)) /\ (demo_image, NFile) ∈ h_fs (snd (demo_end true)).
Proof.
  destruct (destroy_takes_exactly_its_plan no_fault demo_env demo_roots true false demo_world demo_host _ _
    demo_resolves demo_root_absolute demo_fs_well_formed (demo_destroyed true)) as (id & root & Hid & Hroot & _ & H).
  injection Hid as <-. injection Hroot as <-. split.
  - intros [_ Ht]%H. rewrite demo_taken in Ht by reflexivity. discriminate Ht.
  - apply H. split; [exact (proj1 demo_has)|]. rewrite demo_taken by reflexivity. reflexivity.
Defined.
Lemma demo_fs_changed : h_fs (snd (demo_end true)) <> h_fs demo_host.
Proof. intros E%(f_equal length). vm_compute in E. discriminate E. Qed.
Lemma destroy_removes_only_behind_a_dead_vm_witness : agreed false demo_world = true /\ known_dead demo_world = true.
Proof.
  destruct (destroy_removes_only_behind_a_dead_vm no_fault demo_env demo_roots true false demo_world demo_host _ _
    demo_resolves demo_root_absolute demo_fs_well_formed (demo_destroyed true) demo_fs_changed) as (Ha & _ & Hd & _).
  exact (conj Ha Hd).
Defined.
Lemma demo_roots_apart : apart (data demo_roots) (state demo_roots) /\ apart (cache demo_roots) (data demo_roots) /\
  apart (cache demo_roots) (state demo_roots) /\
  apart demo_root (data demo_roots) /\ apart demo_root (state demo_roots) /\ apart demo_root (cache demo_roots).
Proof. repeat split; vm_compute; reflexivity. Qed.
Lemma demo_id_plain : plain_name (bs "p").
Proof. apply (bool_decide_unpack _). vm_compute. exact I. Qed.
Lemma demo_pin_spared : join (data_target demo_roots (bs "p")) (bs "flake.lock") ∈ spared (Destroy.new demo_roots (bs "p") true) /\
  under (components (join (data_target demo_roots (bs "p")) (bs "flake.lock"))) demo_pin = true.
Proof. split; [by left|vm_compute; reflexivity]. Qed.
Lemma destroy_spares_what_it_says_witness : (demo_pin, NFile) ∈ h_fs (snd (demo_end true)).
Proof.
  destruct demo_roots_apart as (Hds & Hcd & Hcs & Hr).
  exact (destroy_spares_what_it_says no_fault demo_env demo_roots true false demo_world demo_host _ _ (bs "p") demo_root
    demo_resolves eq_refl demo_id_plain eq_refl eq_refl Hds Hcd Hcs Hr demo_fs_well_formed (demo_destroyed true)
    _ _ _ (proj2 demo_has) (proj1 demo_pin_spared) (proj2 demo_pin_spared)).
Defined.
Lemma destroy_is_idempotent_witness : exists l2 h2,
  destroy no_fault demo_roots false true demo_world (snd (demo_end false)) = (Ok (Some l2), h2) /\ h_fs h2 = h_fs (snd (demo_end false)).
Proof.
  exact (destroy_is_idempotent no_fault demo_env demo_roots false false demo_world demo_host _ _ true demo_world
    demo_resolves demo_root_absolute demo_fs_well_formed (demo_destroyed false) eq_refl eq_refl eq_refl eq_refl eq_refl).
Defined.
(** One directory for everything: the environment below, and a run that takes the pin it says it keeps. *)
Definition shared_env : Environment := fun _ => Some (bs "/h").
Definition shared_roots : XdgRoots := mk_XdgRoots (bs "/h/vivarium") (bs "/h/vivarium") (bs "/h/vivarium") (bs "/h/vivarium").
Definition shared_fs : fs := [
  (down [], NDir); (down ["h"], NDir); (down ["h"; "vivarium"], NDir); (down ["h"; "vivarium"; "projects"], NDir);
  (down ["h"; "vivarium"; "projects"; "p"], NDir); (down ["h"; "vivarium"; "projects"; "p"; "default"], NDir);
  (down ["h"; "vivarium"; "projects"; "p"; "default"; "flake.lock"], NFile)]%string.
Definition shared_end : result (option (list bytes)) (stop Failure) * host := destroy no_fault shared_roots false true demo_world (mk_host shared_fs []).
Definition shared_gone : list bytes := match fst shared_end with Ok (Some l) => l | _ => [] end.
Lemma shared_run : resolve_xdg_roots shared_env = Ok shared_roots /\ well_formed shared_fs = true /\
  destroy no_fault shared_roots false true demo_world (mk_host shared_fs []) = (Ok (Some shared_gone), snd shared_end).
Proof. repeat split; vm_compute; reflexivity. Qed.
Lemma shared_root_loses_the_pin_witness : exists pin, pin ∈ spared (Destroy.new shared_roots (bs "p") false) /\
  forall k, (components pin, k) ∉ h_fs (snd shared_end).
Proof.
  destruct shared_run as (Hr & Hwf & Hrun).
  exact (shared_root_loses_the_pin no_fault shared_env shared_roots true demo_world (mk_host shared_fs []) _ _ (bs "p") Hr eq_refl eq_refl demo_id_plain
    demo_root_absolute Hwf Hrun).
Defined.
