(* ===== verification/Registry.v ===== *)
(** * The workspace-owner index ([src/src/config/registry.rs])

    A cache derived from the manifest library: a stamp for each manifest file, and the workspace declarations of those
    that parsed.  It is reused when its stamps are those of the library now, and rebuilt and published otherwise.  The
    cache file is the state; the hasher and serde_json are parameters. *)
From S2P Require Import Prelude Bytes Paths Ordered Workspace Diagnostic Lifecycle Volumes.

Record ManifestStamp := mk_ManifestStamp {
  st_name : bytes; st_path : bytes; modified_seconds : Z; modified_nanos : Z; content_hash : Z }.
Record IndexedManifest := mk_IndexedManifest { im_name : bytes; workspace_sources : list bytes }.
Record WorkspaceIndex := mk_WorkspaceIndex { stamps : list ManifestStamp; indexed : list IndexedManifest }.

(** The derived [Ord] and [Eq]: field by field, a path by its components. *)
Definition path_cmp (a b : bytes) : comparison :=
  if path_eqb a b then Eq else if path_leb a b then Lt else Gt.
Definition then_cmp (a b : comparison) : comparison := match a with Eq => b | c => c end.
Definition stamp_cmp (a b : ManifestStamp) : comparison :=
  then_cmp (ord_cmp (st_name a) (st_name b))
    (then_cmp (path_cmp (st_path a) (st_path b))
      (then_cmp (Z.compare (modified_seconds a) (modified_seconds b))
        (then_cmp (Z.compare (modified_nanos a) (modified_nanos b)) (Z.compare (content_hash a) (content_hash b))))).
Definition stamp_eqb (a b : ManifestStamp) : bool :=
  bytes_eqb (st_name a) (st_name b) && path_eqb (st_path a) (st_path b) &&
  (modified_seconds a =? modified_seconds b) && (modified_nanos a =? modified_nanos b) && (content_hash a =? content_hash b).
Fixpoint stamps_eqb (a b : list ManifestStamp) : bool :=
  match a, b with
  | [], [] => true
  | x :: a, y :: b => stamp_eqb x y && stamps_eqb a b
  | _, _ => false
  end.
Fixpoint insert_stamp (x : ManifestStamp) (l : list ManifestStamp) : list ManifestStamp :=
  match l with
  | [] => [x]
  | y :: l' => match stamp_cmp x y with Gt => y :: insert_stamp x l' | _ => x :: l end
  end.
Definition sort_stamps (l : list ManifestStamp) : list ManifestStamp := fold_right insert_stamp [] l.

(** [ManifestStamp::read]: a file that is gone is no member; any other fault is a failure. *)
Inductive mtime := MtUnknown | MtBeforeEpoch | MtAt (seconds nanos : Z).
Definition source_unreadable : Failure := diagnosed N_State "index-source-unreadable" IoErr.
Definition read_stamp (hash : bytes -> Z) (name path : bytes) (contents : result bytes io_kind) (metadata : result mtime io_kind)
    : result (option ManifestStamp) Failure :=
  match contents with
  | Err NotFoundKind => Ok None
  | Err _ => Err source_unreadable
  | Ok raw =>
      match metadata with
      | Err NotFoundKind => Ok None
      | Err _ => Err source_unreadable
      | Ok (MtAt seconds nanos) => Ok (Some (mk_ManifestStamp name path seconds nanos (hash raw)))
      | Ok MtUnknown | Ok MtBeforeEpoch => Err source_unreadable
      end
  end.

Section index.
Context (from_slice : bytes -> option WorkspaceIndex) (to_vec : WorkspaceIndex -> option bytes).

Definition derive_index (ss : list ManifestStamp) (derive : ManifestStamp -> option (list bytes)) : WorkspaceIndex :=
  let ss := sort_stamps ss in
  mk_WorkspaceIndex ss (omap (fun s => option_map (mk_IndexedManifest (st_name s)) (derive s)) ss).

Definition read_current (cache : file) : result (option WorkspaceIndex) Failure :=
  match cache with
  | Missing => Ok None
  | Unreadable => Err (diagnosed N_State "index-unreadable" IoErr)
  | Content raw => Ok (from_slice raw)
  end.

(** How a publication fares: the cache root, then the staged sibling up to the rename, then the flush behind it. *)
Inductive staging := Staged | FailsBefore (f : Failure) | FailsAfter (f : Failure).
Record publish_world := mk_publish_world { pw_root : result unit Failure; pw_stage : staging }.
Definition publish (w : publish_world) (index : WorkspaceIndex) : sem file Failure unit := fun cache =>
  match pw_root w with
  | Err f => (Err f, cache)
  | Ok _ =>
      match to_vec index with
      | None => (Err (diagnosed N_State "index-encode" IoErr), cache)
      | Some raw =>
          match pw_stage w with
          | Staged => (Ok tt, Content raw)
          | FailsBefore f => (Err f, cache)
          | FailsAfter f => (Err f, Content raw)
          end
      end
  end.
Definition load_or_rebuild (w : publish_world) (ss : list ManifestStamp) (derive : ManifestStamp -> option (list bytes))
    : sem file Failure WorkspaceIndex := fun cache =>
  let ss := sort_stamps ss in
  match read_current cache with
  | Err f => (Err f, cache)
  | Ok current =>
      let rebuild := let index := derive_index ss derive in (publish w index ;; sret index) cache in
      match current with
      | Some index => if stamps_eqb (stamps index) ss then (Ok index, cache) else rebuild
      | None => rebuild
      end
  end.
End index.

(** * Registry: when the workspace-owner index is reused

    A published index is found again as long as the library's stamps are the same, and nothing else is asked of it:
    neither which parser derived it nor what the derivation would give now. *)

(** ** The order of stamps *)

Lemma path_eqb_refl p : path_eqb p p = true.
Proof. apply bool_decide_eq_true. done. Qed.
Lemma path_cmp_antisym a b : path_cmp b a = CompOpp (path_cmp a b).
Proof.
  unfold path_cmp. destruct (path_eqb a b) eqn:E.
  - apply bool_decide_eq_true in E. unfold path_eqb. by rewrite E, bool_decide_true.
  - apply bool_decide_eq_false in E. unfold path_eqb. rewrite bool_decide_false by congruence.
    destruct (components_leb_total (components a) (components b)) as [H|H]; unfold path_leb.
    + rewrite H. destruct (components_leb (components b) (components a)) eqn:H'; [|done].
      by destruct E; apply components_leb_antisym.
    + rewrite H. destruct (components_leb (components a) (components b)) eqn:H'; [|done].
      by destruct E; apply components_leb_antisym.
Qed.
Lemma then_cmp_opp a b : CompOpp (then_cmp a b) = then_cmp (CompOpp a) (CompOpp b).
Proof. by destruct a. Qed.
Lemma stamp_cmp_antisym a b : stamp_cmp b a = CompOpp (stamp_cmp a b).
Proof.
  unfold stamp_cmp. rewrite !then_cmp_opp, <- !Z.compare_antisym, <- path_cmp_antisym, <- ord_cmp_antisym. done.
Qed.

Inductive sorted_stamps : list ManifestStamp -> Prop :=
| ss_nil : sorted_stamps []
| ss_one s : sorted_stamps [s]
| ss_cons s t l : stamp_cmp s t <> Gt -> sorted_stamps (t :: l) -> sorted_stamps (s :: t :: l).
Lemma insert_stamp_sorted s l : sorted_stamps l -> sorted_stamps (insert_stamp s l).
Proof.
  induction 1 as [|t|t u l Htu Hl IH]; cbn [insert_stamp]; [constructor|..].
  - destruct (stamp_cmp s t) eqn:E; repeat constructor; rewrite ?E; try done.
    rewrite stamp_cmp_antisym, E. done.
  - destruct (stamp_cmp s t) eqn:E; [repeat constructor; rewrite ?E; done..|].
    cbn [insert_stamp] in IH. destruct (stamp_cmp s u) eqn:E2; try (constructor; [|exact IH]; rewrite stamp_cmp_antisym, E; done).
    by constructor.
Qed.
Lemma sort_stamps_sorted l : sorted_stamps (sort_stamps l).
Proof. induction l as [|s l IH]; [constructor|]. by apply insert_stamp_sorted. Qed.
Lemma sort_stamps_id l : sorted_stamps l -> sort_stamps l = l.
Proof.
  induction 1 as [|t|t u l Htu Hl IH]; [done..|]. unfold sort_stamps in *. cbn [fold_right] in *. rewrite IH.
  cbn [insert_stamp]. by destruct (stamp_cmp t u).
Qed.
Lemma sort_stamps_twice l : sort_stamps (sort_stamps l) = sort_stamps l.
Proof. apply sort_stamps_id, sort_stamps_sorted. Qed.
Lemma derive_index_sorted ss derive : derive_index (sort_stamps ss) derive = derive_index ss derive.
Proof. unfold derive_index. by rewrite sort_stamps_twice. Qed.
Lemma stamps_eqb_refl l : stamps_eqb l l = true.
Proof.
  induction l as [|s l IH]; [done|]. cbn [stamps_eqb]. rewrite IH. unfold stamp_eqb.
  by rewrite path_eqb_refl, !Z.eqb_refl, (bool_decide_true _ eq_refl : bytes_eqb (st_name s) (st_name s) = true).
Qed.

(** ** Reuse *)

Section index.
Context (from_slice : bytes -> option WorkspaceIndex) (to_vec : WorkspaceIndex -> option bytes).

Lemma publish_ok w i cache u cache' :
  publish to_vec w i cache = (Ok u, cache') -> exists raw, to_vec i = Some raw /\ cache' = Content raw.
Proof.
  unfold publish. destruct (pw_root w); [|done]. destruct (to_vec i) as [raw|]; [|done].
  destruct (pw_stage w); intros [= <-]. by exists raw.
Qed.

(** An index that was loaded or rebuilt once answers every later call over the same library, in whatever order its
    members are enumerated, without deriving anything and without writing: even when publishing would fail, and even
    when the derivation would now answer something else.  The hypothesis on the codec is serde's round trip. *)
Theorem published_index_is_found w ss derive cache index cache' :
  (forall i raw, to_vec i = Some raw -> from_slice raw = Some i) ->
  load_or_rebuild from_slice to_vec w ss derive cache = (Ok index, cache') ->
  stamps_eqb (stamps index) (sort_stamps ss) = true /\
  (forall w' derive' ss', sort_stamps ss' = sort_stamps ss ->
     load_or_rebuild from_slice to_vec w' ss' derive' cache' = (Ok index, cache')) /\
  (cache' = cache \/ index = derive_index ss derive).
Proof.
  intros Hcodec H. unfold load_or_rebuild in H.
  assert (Hfound : stamps_eqb (stamps index) (sort_stamps ss) = true -> read_current from_slice cache' = Ok (Some index) ->
    forall w' derive' ss', sort_stamps ss' = sort_stamps ss ->
      load_or_rebuild from_slice to_vec w' ss' derive' cache' = (Ok index, cache')).
  { intros Heq Hread w' derive' ss' Hss. unfold load_or_rebuild. by rewrite Hread, Hss, Heq. }
  assert (Hbuilt : (publish to_vec w (derive_index (sort_stamps ss) derive) ;; sret (derive_index (sort_stamps ss) derive))
                     cache = (Ok index, cache') ->
            index = derive_index ss derive /\ read_current from_slice cache' = Ok (Some index)).
  { rewrite derive_index_sorted. intros (u & s1 & (raw & Hv & ->)%publish_ok & [= <- <-])%sbind_ok.
    split; [done|]. cbn. by rewrite (Hcodec _ _ Hv). }
  assert (Hend : index = derive_index ss derive /\ read_current from_slice cache' = Ok (Some index) ->
    stamps_eqb (stamps index) (sort_stamps ss) = true /\ read_current from_slice cache' = Ok (Some index) /\
    (cache' = cache \/ index = derive_index ss derive)).
  { intros [-> ?]. split_and!; [apply stamps_eqb_refl|done|by right]. }
  enough (stamps_eqb (stamps index) (sort_stamps ss) = true /\ read_current from_slice cache' = Ok (Some index) /\
    (cache' = cache \/ index = derive_index ss derive)) by naive_solver.
  destruct (read_current from_slice cache) as [[i|]|f] eqn:Hread; [|by apply Hend, Hbuilt|done].
  destruct (stamps_eqb (stamps i) (sort_stamps ss)) eqn:Heq; [|by apply Hend, Hbuilt].
  injection H as <- <-. split_and!; [done|done|by left].
Qed.

(** A cache written by a parser that refused a manifest this parser reads is trusted over the manifest itself: the
    stamps are equal, so the claim the manifest makes now is not even a candidate. *)
Theorem index_trusts_another_parser w w' s ws :
  (forall i raw, to_vec i = Some raw -> from_slice raw = Some i) -> pw_root w = Ok tt -> pw_stage w = Staged ->
  is_Some (to_vec (derive_index [s] (fun _ => None))) ->
  let older := snd (load_or_rebuild from_slice to_vec w [s] (fun _ => None) Missing) in
  load_or_rebuild from_slice to_vec w' [s] (fun _ => Some ws) older = (Ok (mk_WorkspaceIndex [s] []), older) /\
  indexed (derive_index [s] (fun _ => Some ws)) = [mk_IndexedManifest (st_name s) ws].
Proof.
  intros Hcodec Hroot Hstage [raw Hraw].
  assert (Holder : snd (load_or_rebuild from_slice to_vec w [s] (fun _ => None) Missing) = Content raw).
  { unfold load_or_rebuild, publish, sbind. cbn [read_current]. change (sort_stamps [s]) with [s].
    by rewrite Hroot, Hraw, Hstage. }
  cbn zeta. rewrite Holder. split; [|done]. unfold load_or_rebuild. cbn [read_current].
  rewrite (Hcodec _ _ Hraw). cbn [stamps derive_index]. change (sort_stamps [s]) with [s]. by rewrite stamps_eqb_refl.
Qed.
End index.

(** ** Concrete runs *)

Definition demo_stamp (name : string) (hash : Z) : ManifestStamp := mk_ManifestStamp (bs name) (bs ("/c/" ++ name)%string) 1 0 hash.
(** A codec for the indexes of the runs: one byte for each. *)
Definition demo_indexes : list WorkspaceIndex :=
  [mk_WorkspaceIndex [demo_stamp "a" 7; demo_stamp "b" 8] [mk_IndexedManifest (bs "b") [bs "/w"]];
   mk_WorkspaceIndex [demo_stamp "a" 7] []].
#[export] Instance stamp_eq_dec : EqDecision ManifestStamp.
Proof. solve_decision. Defined.
#[export] Instance indexed_eq_dec : EqDecision IndexedManifest.
Proof. solve_decision. Defined.
#[export] Instance index_eq_dec : EqDecision WorkspaceIndex.
Proof. solve_decision. Defined.
Definition demo_to_vec (i : WorkspaceIndex) : option bytes :=
  if decide (i = nth 0 demo_indexes i) then Some [x00] else if decide (i = nth 1 demo_indexes i) then Some [x01] else None.
Definition demo_from_slice (raw : bytes) : option WorkspaceIndex :=
  match raw with [x00] => head demo_indexes | [x01] => last demo_indexes | _ => None end.
Lemma demo_codec i raw : demo_to_vec i = Some raw -> demo_from_slice raw = Some i.
Proof. unfold demo_to_vec. repeat case_decide; intros [= <-]; subst; cbn in *; congruence. Qed.
Definition demo_publish : publish_world := mk_publish_world (Ok tt) Staged.
Definition unbound_root : Failure := diagnosed N_State "cache-root" IoErr.
Definition demo_derive (s : ManifestStamp) : option (list bytes) :=
  if bytes_eqb (st_name s) (bs "b") then Some [bs "/w"] else None.

Lemma published_index_is_found_witness :
  load_or_rebuild demo_from_slice demo_to_vec (mk_publish_world (Err unbound_root) Staged)
    [demo_stamp "a" 7; demo_stamp "b" 8] (fun _ => None) (Content [x00]) = (Ok (nth 0 demo_indexes (mk_WorkspaceIndex [] [])), Content [x00]).
Proof.
  refine (proj1 (proj2 (published_index_is_found demo_from_slice demo_to_vec demo_publish
    [demo_stamp "b" 8; demo_stamp "a" 7] demo_derive Missing _ (Content [x00]) demo_codec _)) _ _ _ _); vm_compute; reflexivity.
Defined.
