(* ===== verification/Binding.v ===== *)
(** * Which manifest a directory belongs to ([src/src/config/resolve.rs], [src/src/cli/mod.rs])

    The one resolution routine in front of every verb: an override by flag or environment, or the unique manifest of
    the library that declares a workspace containing the working directory; then the sandbox name, the declared
    workspaces, and the refusals.  The file system and the environment are a record, the same for the whole run.  The theorems are the second half. *)
From S2P Require Import Prelude Bytes Paths Ordered Ip Allowlist Mounts Workspace Diagnostic Lifecycle Toml Artifact Manifest ManifestSpec Volumes Registry.

Inductive BindingSource := Flag | FromEnvironment | Derived.
Record ResolvedBinding := mk_ResolvedBinding { rb_manifest : bytes; rb_source : BindingSource }.
Definition resolve_binding (flag variable derived : option bytes) : option ResolvedBinding :=
  match flag with
  | Some m => Some (mk_ResolvedBinding m Flag)
  | None =>
      let derived := option_map (fun m => mk_ResolvedBinding m Derived) derived in
      match variable with
      | Some value =>
          if negb (bool_decide (value = [])) && utf8_valid value then Some (mk_ResolvedBinding value FromEnvironment) else derived
      | None => derived
      end
  end.

(** ** Failures *)

Definition resolution_condition (e : ResolutionError) : string :=
  match e with
  | InvalidArtifactName _ => "invalid-name" | ArtifactNotFound _ _ _ _ => "not-found" | ArtifactAmbiguous _ _ _ _ => "ambiguous"
  | InspectArtifact _ => "unreadable" | _ => "unresolvable"
  end.
Definition resolution_failure (e : ResolutionError) : Failure := diagnosed N_Manifest (resolution_condition e) (resolution_code e).
Definition manifest_failure (e : ManifestError) : Failure := diagnosed N_Manifest (condition_of (me_kind e)) (manifest_exit_code e).
Definition unbound : Failure := diagnosed N_State "no-manifest" Config.

Definition MAX_SANDBOX_NAME_BYTES : nat := 48.
Definition validate_sandbox_name (selected : ResolvedArtifact) : result unit Failure :=
  guard_err (negb (length (ra_name selected) <=? MAX_SANDBOX_NAME_BYTES)%nat) (diagnosed N_Manifest "name-too-long" Config).

Record AmbiguousWorkspaceOwner := mk_AmbiguousWorkspaceOwner { aw_cwd : bytes; owners : list (bytes * bytes) }.
Definition ambiguous_workspace_owner (cwd : bytes) (selected : list ResolvedArtifact) : AmbiguousWorkspaceOwner :=
  mk_AmbiguousWorkspaceOwner cwd (map (fun s => (ra_name s, ra_path s)) selected).
Inductive WorkspaceFinding := Undeclared (manifest manifest_path cwd : bytes) | Defect (d : WorkspaceDefect).
Definition undeclared_workspace (selected : ResolvedArtifact) (cwd : bytes) : WorkspaceFinding :=
  Undeclared (ra_name selected) (ra_path selected) cwd.
Definition defect_id (k : WorkspaceDefectKind) : string :=
  match k with
  | W_UnsetVariable _ => "workspace-source-unset-variable" | W_NotAbsolute _ => "workspace-source-not-absolute"
  | W_Missing _ => "workspace-source-missing" | W_Unreadable _ _ => "workspace-source-unreadable"
  | W_NotDirectory _ => "workspace-source-not-directory" | W_GuestOwned _ _ => "workspace-path-unmirrorable"
  | W_Nested _ _ => "workspace-paths-overlap"
  end.
Definition finding_failure (f : WorkspaceFinding) : Failure :=
  match f with
  | Undeclared _ _ _ => diagnosed N_Manifest "workspace-undeclared-directory" Config
  | Defect d => diagnosed N_Host (defect_id (defect_kind d)) Config
  end.
Inductive ResolveFailure := Ambiguous (finding : AmbiguousWorkspaceOwner) | Other (f : Failure).
Definition into_failure (e : ResolveFailure) : Failure :=
  match e with Ambiguous _ => diagnosed N_State "workspace-owner-ambiguous" Config | Other f => f end.

(** The deepest of the workspaces that contain the directory, the last among equals. *)
Definition deeper (best : option bytes) (w : bytes) : option bytes :=
  match best with
  | Some b => if (length (components b) <=? length (components w))%nat then Some w else best
  | None => Some w
  end.
Definition containing_workspace (cwd : bytes) (workspaces : list bytes) : option bytes :=
  fold_left deeper (List.filter (path_starts_with cwd) workspaces) None.

Record ResolvedForLaunch := mk_ResolvedForLaunch {
  rl_binding : ResolvedBinding; rl_selected : ResolvedArtifact; rl_source : bytes; rl_manifest : Manifest.Manifest;
  matched_workspace : option bytes; workspace_paths : list bytes; workspace_refusal : option WorkspaceFinding }.

(** The host a resolution reads. *)
Record library_world := mk_library_world {
  lw_config : bytes;                               (* the config root *)
  lw_project : bytes;                              (* the canonical working directory *)
  lw_listing : library_listing;                    (* [manifests/] *)
  lw_try_exists : bytes -> option bool;
  lw_read : bytes -> result bytes io_kind;
  lw_modified : bytes -> result mtime io_kind;
  lw_hash : bytes -> Z;
  lw_metadata : bytes -> result file_kind fs_error;
  lw_canonicalize : bytes -> result bytes fs_error;
  lw_variable : option bytes;                      (* [VIVARIUM_MANIFEST] *)
  lw_lookup : bytes -> option bytes;
  lw_publish : publish_world }.

Section resolve.
Context {Net : Type} {N : IpNetOps Net} (toml : toml_parser).
Context (from_slice : bytes -> option WorkspaceIndex) (to_vec : WorkspaceIndex -> option bytes) (w : library_world).

Definition resolve_manifest (name : bytes) : result ResolvedArtifact Failure :=
  map_err resolution_failure (resolve_artifact (lw_try_exists w) (lw_config w) ManifestKind name).
Definition unreadable_manifest (k : io_kind) : Failure :=
  diagnosed N_Manifest "unreadable" (match k with PermissionDenied => NoPerm | _ => IoErr end).
Definition read_manifest_file (selected : ResolvedArtifact) : result (bytes * Manifest.Manifest) Failure :=
  let? raw := map_err unreadable_manifest (lw_read w (ra_path selected)) in
  let? source := ok_or (to_str raw) (unreadable_manifest OtherKind) in
  let? manifest := map_err manifest_failure
                     (parse_manifest source (mk_ManifestOrigin (ra_name selected) (ra_path selected) (ra_form selected)) toml) in
  Ok (source, manifest).

(** [library_member] over the library, sorted. *)
Definition member_names : result (list bytes) Failure :=
  match lw_listing w with
  | NoLibrary => Ok []
  | LibraryError => Err (diagnosed N_Manifest "library-unreadable" IoErr)
  | Entries es => Ok (Artifact.dedup (sort_bytes (omap (member_of ManifestKind) es)))
  end.
Definition stamp_step (acc : list ManifestStamp) (name : bytes) : result (list ManifestStamp) Failure :=
  match resolve_artifact (lw_try_exists w) (lw_config w) ManifestKind name with
  | Err _ => Ok acc
  | Ok selected =>
      let path := ra_path selected in
      let? stamp := read_stamp (lw_hash w) name path (lw_read w path) (lw_modified w path) in
      Ok (acc ++ match stamp with Some stamp => [stamp] | None => [] end)
  end.
Definition manifest_stamps : result (list ManifestStamp) Failure :=
  let? names := member_names in fold_err stamp_step names [].
(** The declarations of one manifest, when it resolves and parses. *)
Definition declarations (stamp : ManifestStamp) : option (list bytes) :=
  let* selected := ok (resolve_manifest (st_name stamp)) in
  let* (_, manifest) := ok (read_manifest_file selected) in
  Some (Manifest.workspaces manifest).
Definition workspace_index (publish : bool) : sem file Failure WorkspaceIndex :=
  let! ss := slift manifest_stamps in
  if publish then load_or_rebuild from_slice to_vec (lw_publish w) ss declarations else sret (derive_index ss declarations).

Definition expanded_workspace_sources (sources : list bytes) : list bytes :=
  omap (fun source =>
          let* expanded := ok (expand_source source (lw_lookup w)) in
          Some (match lw_canonicalize w expanded with Ok path => path | Err _ => expanded end)) sources.
(** The directory is inside one of the declared trees. *)
Definition claims (sources : list bytes) : bool :=
  bool_decide (is_Some (containing_workspace (lw_project w) (expanded_workspace_sources sources))).
Definition candidate : Type := (ResolvedArtifact * bytes * Manifest.Manifest)%type.
(** One entry of the index: narrowed by the cached declarations, decided by the current text. *)
Definition owner (m : IndexedManifest) : option candidate :=
  if negb (claims (workspace_sources m)) then None else
  let* selected := ok (resolve_manifest (im_name m)) in
  let* (source, manifest) := ok (read_manifest_file selected) in
  if claims (Manifest.workspaces manifest) then Some (selected, source, manifest) else None.

Definition select_manifest (flag : option bytes) (allow_undeclared : bool)
    : sem file ResolveFailure (ResolvedBinding * candidate) :=
  match resolve_binding flag (lw_variable w) None with
  | Some binding => slift (
      let? selected := map_err Other (resolve_manifest (rb_manifest binding)) in
      let? (source, manifest) := map_err Other (read_manifest_file selected) in
      Ok (binding, (selected, source, manifest)))
  | None =>
      let! index := smap_err Other (workspace_index (negb allow_undeclared)) in
      match omap owner (indexed index) with
      | [] => sfail (Other unbound)
      | [(selected, source, manifest)] =>
          let! binding := slift (ok_or (resolve_binding None (lw_variable w) (Some (ra_name selected))) (Other unbound)) in
          sret (binding, (selected, source, manifest))
      | found => sfail (Ambiguous (ambiguous_workspace_owner (lw_project w) (map (fun c => fst (fst c)) found)))
      end
  end.
Definition resolve_manifest_and_workspace (flag : option bytes) (allow_undeclared : bool)
    : sem file ResolveFailure ResolvedForLaunch :=
  let! (binding, (selected, source, manifest)) := select_manifest flag allow_undeclared in
  let! _ := slift (map_err Other (validate_sandbox_name selected)) in
  let resolved := Workspace.resolve (lw_metadata w) (lw_canonicalize w) (Manifest.workspaces manifest) (lw_lookup w) in
  let paths := match resolved with Ok paths => paths | Err _ => [] end in
  let matched := containing_workspace (lw_project w) paths in
  let refusal := match resolved with
                 | Err d => Some (Defect d)
                 | Ok _ => match matched with None => Some (undeclared_workspace selected (lw_project w)) | Some _ => None end
                 end in
  match refusal with
  | Some finding =>
      if negb allow_undeclared then sfail (Other (finding_failure finding))
      else sret (mk_ResolvedForLaunch binding selected source manifest matched paths refusal)
  | None => sret (mk_ResolvedForLaunch binding selected source manifest matched paths refusal)
  end.
Definition resolve_manifest_for_launch : sem file Failure ResolvedForLaunch :=
  smap_err into_failure (resolve_manifest_and_workspace None false).
Definition resolve_manifest_for_doctor : sem file ResolveFailure ResolvedForLaunch := resolve_manifest_and_workspace None true.
End resolve.

(* ------------------------------------------------------------------ *)
(** * Who owns a directory, and what a launch may rely on *)

(** ** The deepest containing workspace *)

Definition depth (p : bytes) : nat := length (components p).
Lemma deepest_spec l best :
  match fold_left deeper l best with
  | Some m => (m ∈ l \/ best = Some m) /\ (forall q, (q ∈ l \/ best = Some q) -> (depth q <= depth m)%nat)
  | None => l = [] /\ best = None
  end.
Proof.
  revert best. induction l as [|w l IH]; intros best; cbn [fold_left].
  - destruct best as [b|]; [|done]. split; [by right|]. intros q [[]%elem_of_nil| [= ->]]. done.
  - specialize (IH (deeper best w)). destruct (fold_left deeper l (deeper best w)) as [m|].
    2:{ destruct IH as [_ IH]. destruct best; cbn in IH; [case_match|]; done. }
    destruct IH as [Hin Hmax]. unfold deeper in Hin, Hmax. fold depth in *.
    destruct best as [b|]; [destruct (Nat.leb_spec (length (components b)) (length (components w)))|].
    + split; [destruct Hin as [?|[= ->]]; left; rewrite elem_of_cons; auto|]. intros q Hq.
      assert (depth w <= depth m)%nat by (apply Hmax; by right).
      destruct Hq as [[->|Hq]%elem_of_cons|[= ->]]; [done|apply Hmax; by left|unfold depth in *; lia].
    + split; [destruct Hin as [?|[= ->]]; [left; rewrite elem_of_cons; auto|by right]|]. intros q Hq.
      assert (depth b <= depth m)%nat by (apply Hmax; by right).
      destruct Hq as [[->|Hq]%elem_of_cons|[= ->]]; [unfold depth in *; lia|apply Hmax; by left|done].
    + split; [destruct Hin as [?|[= ->]]; left; rewrite elem_of_cons; auto|]. intros q Hq.
      destruct Hq as [[->|Hq]%elem_of_cons|[=]]; [apply Hmax; by right|apply Hmax; by left].
Qed.
Lemma containing_workspace_Some cwd l m :
  containing_workspace cwd l = Some m ->
  m ∈ l /\ path_starts_with cwd m = true /\
  (forall q, q ∈ l -> path_starts_with cwd q = true -> (depth q <= depth m)%nat).
Proof.
  intros H. pose proof (deepest_spec (List.filter (path_starts_with cwd) l) None) as Hs.
  unfold containing_workspace in H. rewrite H in Hs. destruct Hs as [[Hin|[=]] Hmax].
  apply list_elem_of_In, filter_In in Hin as [Hin Hm]. split_and!; [by apply list_elem_of_In|done|].
  intros q Hq Hp. apply Hmax. left. apply list_elem_of_In, filter_In. by rewrite <- list_elem_of_In.
Qed.
Lemma containing_workspace_None cwd l :
  containing_workspace cwd l = None <-> Forall (fun q => path_starts_with cwd q = false) l.
Proof.
  pose proof (deepest_spec (List.filter (path_starts_with cwd) l) None) as Hs. unfold containing_workspace.
  rewrite Forall_forall. destruct (fold_left deeper _ None) as [m|].
  - destruct Hs as [[Hin|[=]] _]. apply list_elem_of_In, filter_In in Hin as [Hin Hm]. split; [done|].
    intros Hall. rewrite Hall in Hm; [done|by apply list_elem_of_In].
  - destruct Hs as [Hnil _]. split; [|done]. intros _ q Hq. apply not_true_is_false. intros Hp.
    assert (Hin : In q (List.filter (path_starts_with cwd) l)) by (apply filter_In; by rewrite <- list_elem_of_In).
    by rewrite Hnil in Hin.
Qed.

(** ** The derived owner *)

Section owner.
Context {Net : Type} {N : IpNetOps Net} (toml : toml_parser).
Context (from_slice : bytes -> option WorkspaceIndex) (to_vec : WorkspaceIndex -> option bytes) (w : library_world).
Local Notation owner := (owner toml w).
Local Notation claims := (claims w).

(** A member of the library whose text, as it is now, parses and declares a tree around the directory. *)
Definition claimant (s : ManifestStamp) : option candidate :=
  let* selected := ok (resolve_manifest w (st_name s)) in
  let* (source, manifest) := ok (read_manifest_file toml w selected) in
  if claims (Manifest.workspaces manifest) then Some (selected, source, manifest) else None.
Definition claimants (ss : list ManifestStamp) : list candidate := omap claimant (sort_stamps ss).

Lemma owner_of_declared s ws : declarations toml w s = Some ws -> owner (mk_IndexedManifest (st_name s) ws) = claimant s.
Proof.
  unfold declarations, claimant, Binding.owner. cbn [im_name workspace_sources].
  destruct (ok (resolve_manifest w (st_name s))) as [sel|]; cbn -[Binding.claims]; [|done].
  destruct (ok (read_manifest_file toml w sel)) as [[src m]|] eqn:E; cbn -[Binding.claims]; [|done].
  intros [= <-]. destruct (claims (Manifest.workspaces m)); [done|done].
Qed.
Lemma undeclared_claims_nothing s : declarations toml w s = None -> claimant s = None.
Proof.
  unfold declarations, claimant. destruct (ok (resolve_manifest w (st_name s))) as [sel|]; cbn; [|done].
  by destruct (ok (read_manifest_file toml w sel)) as [[src m]|].
Qed.
Lemma owners_derived ss : omap owner (indexed (derive_index ss (declarations toml w))) = claimants ss.
Proof.
  unfold derive_index, claimants. cbn [indexed]. induction (sort_stamps ss) as [|s l IH]; [done|]. cbn [omap list_omap].
  destruct (declarations toml w s) as [ws|] eqn:E; cbn [option_map].
  - cbn [omap list_omap]. rewrite (owner_of_declared _ _ E). destruct (claimant s); [f_equal|]; apply IH.
  - rewrite (undeclared_claims_nothing _ E). apply IH.
Qed.

(** A cache that, if it is used at all, holds what deriving it now would give. *)
Definition coherent (ss : list ManifestStamp) (cache : file) : Prop :=
  forall raw index, cache = Content raw -> from_slice raw = Some index ->
    stamps_eqb (stamps index) (sort_stamps ss) = true -> indexed index = indexed (derive_index ss (declarations toml w)).

Lemma workspace_index_ok pub ss cache index cache' :
  manifest_stamps w = Ok ss -> coherent ss cache ->
  workspace_index toml from_slice to_vec w pub cache = (Ok index, cache') ->
  indexed index = indexed (derive_index ss (declarations toml w)).
Proof.
  unfold workspace_index. intros Hs Hc H. rewrite (sbind_run _ _ _ ss cache) in H by (unfold slift; by rewrite Hs).
  destruct pub; [|by injection H as <- <-]. unfold load_or_rebuild in H.
  rewrite derive_index_sorted in H. destruct cache as [| |raw]; cbn [read_current] in H; [|done|].
  - by inv_sok.
  - destruct (from_slice raw) as [i|] eqn:Hf; [|by inv_sok].
    destruct (stamps_eqb (stamps i) (sort_stamps ss)) eqn:Hst; [injection H as <- <-; eauto|by inv_sok].
Qed.

(** What deriving an owner answers: the one claimant, the refusal that there is none, or the refusal that there are
    several, naming each of them and where it is. *)
Definition owner_verdict (found : list candidate) : result (ResolvedBinding * candidate) ResolveFailure :=
  match found with
  | [] => Err (Other unbound)
  | [c] => Ok (mk_ResolvedBinding (ra_name (fst (fst c))) Derived, c)
  | _ => Err (Ambiguous (mk_AmbiguousWorkspaceOwner (lw_project w)
                (map (fun c => (ra_name (fst (fst c)), ra_path (fst (fst c)))) found)))
  end.
Lemma select_derived allow ss cache index cache' :
  resolve_binding None (lw_variable w) None = None -> manifest_stamps w = Ok ss -> coherent ss cache ->
  workspace_index toml from_slice to_vec w (negb allow) cache = (Ok index, cache') ->
  select_manifest toml from_slice to_vec w None allow cache = (owner_verdict (claimants ss), cache').
Proof.
  intros Hb Hs Hc Hi. unfold select_manifest. rewrite Hb. pose proof (workspace_index_ok _ _ _ _ _ Hs Hc Hi) as Hx.
  erewrite sbind_run by (unfold smap_err; rewrite Hi; reflexivity).
  rewrite Hx, owners_derived. destruct (claimants ss) as [|[[sel src] m] [|c2 l]] eqn:E; [done| |].
  - assert (Hd : resolve_binding None (lw_variable w) (Some (ra_name sel)) =
                 Some (mk_ResolvedBinding (ra_name sel) Derived)).
    { revert Hb. unfold resolve_binding. destruct (lw_variable w) as [v|]; [|done]. by case_match. }
    by rewrite Hd.
  - unfold owner_verdict, ambiguous_workspace_owner. by rewrite map_map.
Qed.

(** C18: Which manifest a directory belongs to when neither override names one: the library is searched for the members
    whose text, as it is now, parses and declares a tree around the directory; exactly one gives that manifest, none
    gives exit 78, and several give a refusal naming them all.  A coherent cache never changes the answer: the only
    other outcome is a cache that cannot be read or written, and then only for a verb that publishes it. *)
Theorem derived_owner_is_the_only_claimant allow ss cache :
  resolve_binding None (lw_variable w) None = None -> manifest_stamps w = Ok ss -> coherent ss cache ->
  fst (select_manifest toml from_slice to_vec w None allow cache) = owner_verdict (claimants ss) \/
  (allow = false /\ exists f, fst (load_or_rebuild from_slice to_vec (lw_publish w) ss (declarations toml w) cache) = Err f /\
     fst (select_manifest toml from_slice to_vec w None allow cache) = Err (Other f)).
Proof.
  intros Hb Hs Hc. destruct (workspace_index toml from_slice to_vec w (negb allow) cache) as [[index|f] cache'] eqn:Hi.
  - left. by rewrite (select_derived allow ss cache index cache').
  - right. unfold workspace_index in Hi. rewrite (sbind_run _ _ _ ss cache) in Hi by (unfold slift; by rewrite Hs).
    destruct allow; [done|]. cbn [negb] in Hi. split; [done|]. exists f. rewrite Hi. split; [done|].
    unfold select_manifest. rewrite Hb. rewrite (sbind_run_err _ _ _ (Other f) cache'); [done|].
    unfold smap_err, workspace_index. rewrite (sbind_run _ _ _ ss cache) by (unfold slift; by rewrite Hs). cbn [negb].
    by rewrite Hi.
Qed.

Lemma resolved_name name sel : resolve_manifest w name = Ok sel -> ra_name sel = name.
Proof.
  unfold resolve_manifest. intros (_ & -> & _)%map_err_ok%resolve_artifact_ok. done.
Qed.
Lemma owner_read i sel src m :
  owner i = Some (sel, src, m) -> resolve_manifest w (im_name i) = Ok sel /\ read_manifest_file toml w sel = Ok (src, m).
Proof.
  unfold Binding.owner. destruct (negb _); [done|]. destruct (resolve_manifest w (im_name i)) as [sel'|]; cbn; [|done].
  destruct (read_manifest_file toml w sel') as [[src' m']|] eqn:E; cbn -[Binding.claims]; [|done].
  destruct (Binding.claims _ _); [|done]. by intros [= -> -> ->].
Qed.
Lemma select_manifest_read flag allow cache b sel src m cache' :
  select_manifest toml from_slice to_vec w flag allow cache = (Ok (b, (sel, src, m)), cache') ->
  resolve_manifest w (rb_manifest b) = Ok sel /\ read_manifest_file toml w sel = Ok (src, m).
Proof.
  unfold select_manifest. destruct (resolve_binding flag (lw_variable w) None) as [b'|] eqn:Hb.
  - intros [= H <-]. inv_ok. match goal with x : bytes * Manifest.Manifest |- _ => destruct x end. by inv_ok.
  - intros (index & s1 & _ & H)%sbind_ok. destruct (omap owner (indexed index)) as [|[[sel' src'] m'] [|? ?]] eqn:E; [done| |done].
    assert (Ho : (sel', src', m') ∈ omap owner (indexed index)) by (rewrite E; apply list_elem_of_singleton; done).
    apply list_elem_of_omap in Ho as (i & _ & (Hr & Hm)%owner_read). inv_sok. inv_ok. split; [|done].
    match goal with Hx : resolve_binding None _ (Some _) = Some _ |- _ => revert Hx Hb end.
    unfold resolve_binding. destruct flag; [done|].
    destruct (lw_variable w) as [v|]; [destruct (_ && _); [done|]|]; intros [= <-] _; by rewrite <- (resolved_name _ _ Hr) in Hr.
Qed.

(** What a launching verb may rely on.  Whichever source named the manifest, the one that is handed over resolves,
    reads and parses now; its name keys a sandbox; its workspaces are the resolved set of what it declares, every row
    mountable and no two overlapping; and one of them, the deepest, contains the directory the verb was invoked in.
    Nothing is left to refuse. *)
Theorem launch_resolution_is_declared cache r cache' :
  resolve_manifest_for_launch toml from_slice to_vec w cache = (Ok r, cache') ->
  resolve_manifest w (rb_manifest (rl_binding r)) = Ok (rl_selected r) /\
  read_manifest_file toml w (rl_selected r) = Ok (rl_source r, rl_manifest r) /\
  (length (ra_name (rl_selected r)) <= 48)%nat /\
  (exists rows, Forall2 (mountable (lw_metadata w) (lw_canonicalize w) (lw_lookup w)) (Manifest.workspaces (rl_manifest r)) rows /\
     workspace_paths r ≡ₚ rows /\ disjoint_paths (workspace_paths r)) /\
  (exists m, matched_workspace r = Some m /\ m ∈ workspace_paths r /\ path_starts_with (lw_project w) m = true /\
     forall q, q ∈ workspace_paths r -> path_starts_with (lw_project w) q = true -> (depth q <= depth m)%nat) /\
  workspace_refusal r = None.
Proof.
  unfold resolve_manifest_for_launch, resolve_manifest_and_workspace. intros H. inv_sok.
  match goal with x : ResolvedBinding * candidate |- _ => destruct x as [b [[sel src] m]] end. inv_sok. inv_ok.
  match goal with Hs : select_manifest _ _ _ _ _ _ _ = _ |- _ => apply select_manifest_read in Hs as [Hr Hm] end.
  match goal with Hv : validate_sandbox_name _ = Ok _ |- _ => apply guard_err_ok, negb_false_iff, Nat.leb_le in Hv as Hlen end.
  destruct (Workspace.resolve _ _ _ _) as [paths|d] eqn:Hw in H; [|done].
  destruct (containing_workspace (lw_project w) paths) as [inner|] eqn:Hc in H; [|done]. inv_sok.
  cbn [rl_binding rl_selected rl_source rl_manifest matched_workspace workspace_paths workspace_refusal].
  split_and!; try done.
  - apply resolve_sound in Hw as (rows & Hrows & Hp & Hd & _). eauto.
  - exists inner. by split; [|apply containing_workspace_Some].
Qed.
End owner.

(** ** A concrete library *)

(** Two manifests, one declaring [/w], the other [/v]; the directory is [/w/x]. *)
Definition demo_declaring (tree : string) : Manifest.Manifest :=
  Manifest.mk_Manifest (bs "rust") [] None None None [] [] [bs tree] [] None.
Definition demo_toml : toml_parser := fun text =>
  Ok (document (demo_declaring (if bytes_eqb text (bs "A") then "/w" else "/v"))).
Definition demo_path (name : string) : bytes := bs ("/c/manifests/" ++ name ++ ".toml")%string.
Definition demo_library : library_world := mk_library_world (bs "/c") (bs "/w/x")
  (Entries [Some (mk_library_entry (bs "b.toml") (Some false) false); Some (mk_library_entry (bs "a.toml") (Some false) false)])
  (fun path => Some (bytes_eqb path (demo_path "a") || bytes_eqb path (demo_path "b")))
  (fun path => Ok (if bytes_eqb path (demo_path "a") then bs "A" else bs "B"))
  (fun _ => Ok (MtAt 1 0)) (fun raw => Z.of_nat (length raw)) (fun _ => Ok IsDir) (fun path => Ok path)
  None (fun _ => None) demo_publish.
Definition demo_stamps : list ManifestStamp :=
  [mk_ManifestStamp (bs "a") (demo_path "a") 1 0 1; mk_ManifestStamp (bs "b") (demo_path "b") 1 0 1].
Definition demo_encode (_ : WorkspaceIndex) : option bytes := Some [].
Definition demo_resolved : ResolvedArtifact := mk_ResolvedArtifact ManifestKind (bs "a") Flat (demo_path "a").

Lemma derived_owner_is_the_only_claimant_witness :
  fst (select_manifest (Net := Z * Z) demo_toml (fun _ => None) demo_encode demo_library None true Missing) =
  Ok (mk_ResolvedBinding (bs "a") Derived, (demo_resolved, bs "A", demo_declaring "/w")).
Proof.
  destruct (derived_owner_is_the_only_claimant (Net := Z * Z) demo_toml (fun _ => None) demo_encode demo_library true demo_stamps Missing)
    as [H|[H _]]; [vm_compute; reflexivity|vm_compute; reflexivity|by intros raw i|rewrite H; vm_compute; reflexivity|discriminate H].
Defined.
Definition demo_launch : ResolvedForLaunch := mk_ResolvedForLaunch (mk_ResolvedBinding (bs "a") Derived) demo_resolved (bs "A")
  (demo_declaring "/w") (Some (bs "/w")) [bs "/w"] None.
Lemma launch_resolution_is_declared_witness :
  (length (ra_name demo_resolved) <= 48)%nat /\ workspace_refusal demo_launch = None.
Proof.
  destruct (launch_resolution_is_declared (Net := Z * Z) demo_toml (fun _ => None) demo_encode demo_library Missing demo_launch (Content []))
    as (_ & _ & Hlen & _ & _ & Href); [vm_compute; reflexivity|done].
Defined.
