(* ===== verification/Retention.v ===== *)
(** * Retention: the verbs over retained builds (src/src/cli/generations.rs)

    [prune] with what it selects and what it refuses, and [activate] with [rollback], on the profile of [Generations].
    The locks, the readability of the directories and each removal are answers of the run's world. *)
From stdpp Require Import sorting.
From S2P Require Import Prelude Bytes Diagnostic Generations Lifecycle Start.

(** [select]: the rows a retention argument names; the current one is never a candidate. *)
Definition built_before (threshold : Z) (row : Generation) : bool :=
  match (let* record := gen_record row in parse_rfc3339_utc (built_at record)) with
  | Some built => built <? threshold
  | None => false
  end.
Definition select (rows : list Generation) (keep older_than_seconds : option Z) (now : Z) : list Generation :=
  let candidates := List.filter (fun row => negb (gen_current row)) rows in
  match keep, older_than_seconds with
  | Some keep, None =>
      let newest := map number (take (Z.to_nat keep) (rev rows)) in
      List.filter (fun row => negb (bool_decide (number row ∈ newest))) candidates
  | None, Some age => List.filter (built_before (Z.max 0 (now - age))) candidates
  | _, _ => []
  end.

Section retention.
Context (exists_in_store : bytes -> bool) (from_slice : bytes -> option GenerationRecord).

Record removable := mk_removable { rm_link : bool; rm_record : bool; rm_lock : bool }.
Record retention_world := mk_retention_world {
  rt_lock : result unit Failure;
  rt_links_readable : bool; rt_metadata_readable : bool;
  rt_boot_json : file; rt_vm_pid : file; rt_test_kill : Z -> kill_answer; rt_unit : show;
  rt_running_build : file;
  rt_now : Z;
  rt_removable : Z -> removable;
  rt_current : publication }.
Definition rows_of (w : retention_world) (p : profile) : list Generation :=
  list_generations from_slice (rt_links_readable w) (rt_metadata_readable w) p.
Definition vm_state (w : retention_world) (p : profile) : State :=
  discriminate (rt_boot_json w) (rt_vm_pid w) (bool_decide (is_Some (current_store_path exists_in_store p))) (rt_test_kill w) (rt_unit w).

(** The build the running VM was booted from is among the selected rows. *)
Definition in_use (w : retention_world) (p : profile) (selected : list Generation) : bool :=
  negb (resting (vm_state w p)) &&
  match read_build_record exists_in_store (rt_running_build w) with
  | Some booted => existsb (fun row => bool_decide (gen_store_path row = Some booted)) selected
  | None => false
  end.
Fixpoint unlink_all (w : retention_world) (rows : list Generation) : sem profile Failure unit :=
  match rows with
  | [] => sret tt
  | row :: rows =>
      let r := rt_removable w (number row) in
      smap_err (registry_failure false) (unlink (rm_link r) (rm_record r) (rm_lock r) (number row)) ;;
      unlink_all w rows
  end.
(** The rows unlinked, and how many were kept. *)
Definition prune (keep older_than_seconds : option Z) (w : retention_world) : sem profile Failure (list Generation * nat) :=
  let! _ := slift (rt_lock w) in
  fun p =>
    let rows := rows_of w p in
    let selected := select rows keep older_than_seconds (rt_now w) in
    if in_use w p selected then (Err (diagnosed N_Vm "generation-in-use" TempFail), p)
    else (unlink_all w selected ;; sret (selected, (length rows - length selected)%nat)) p.

(** The number moved to, and the one before. *)
Definition unknown_generation : Failure := diagnosed N_State "unknown-generation" Usage.
Definition retained (w : retention_world) (p : profile) : list Z :=
  map number (List.filter (fun row => bool_decide (is_Some (store_path exists_in_store p (number row)))) (rows_of w p)).
Definition switch_target (n : option Z) (w : retention_world) (p : profile) : result Z Failure :=
  match n with
  | Some n => if bool_decide (n ∈ retained w p) then Ok n else Err unknown_generation
  | None =>
      match current_number p with
      | None => Err unknown_generation
      | Some current => ok_or (List.find (fun n => n <? current) (rev (retained w p))) unknown_generation
      end
  end.
Definition activate (n : option Z) (w : retention_world) : sem profile Failure (Z * option Z) :=
  let! _ := slift (rt_lock w) in
  fun p =>
    let previous := current_number p in
    (let! target := slift (switch_target n w p) in
     smap_err (registry_failure false) (set_current (rt_current w) target) ;;
     sret (target, previous)) p.
End retention.

(** * Retention: what pruning keeps, and where a switch may point *)


(* ------------------------------------------------------------------ *)
(** ** Helpers *)

Section spec.
Context (exists_in_store : bytes -> bool) (from_slice : bytes -> option GenerationRecord).

Lemma rows_elem w p row :
  row ∈ rows_of from_slice w p ->
  number row ∈ numbers (rt_links_readable w) (rt_metadata_readable w) p /\ gen_store_path row = links p !! link (number row) /\
  gen_current row = bool_decide (current_number p = Some (number row)).
Proof.
  unfold rows_of, list_generations. intros H%list_elem_of_In. apply in_map_iff in H as (n & <- & Hn%list_elem_of_In). done.
Qed.
Lemma rows_numbers w p : map number (rows_of from_slice w p) = numbers (rt_links_readable w) (rt_metadata_readable w) p.
Proof. unfold rows_of, list_generations. rewrite map_map. apply map_id. Qed.
Lemma numbers_range lr mr p n : n ∈ numbers lr mr p -> 0 <= n <= u64_max.
Proof.
  intros [(_ & name & ? & _ & Hp)|(_ & name & ? & _ & Hp)]%numbers_elem; [by eapply parse_uint_bound|].
  unfold metadata_number in Hp. destruct (strip_suffix _ name); [|done]. by eapply parse_uint_bound.
Qed.
Lemma dec_inj n m : 0 <= n <= u64_max -> 0 <= m <= u64_max -> dec n = dec m -> n = m.
Proof.
  intros Hn Hm E. destruct (dec_spec n) as (_ & <- & _); [unfold u64_max in *; lia|].
  destruct (dec_spec m) as (_ & <- & _); [unfold u64_max in *; lia|]. by rewrite E.
Qed.
Lemma sorted_NoDup l : StronglySorted Z.lt l -> NoDup l.
Proof.
  induction 1 as [|n l Hl IH Hn]; [by apply NoDup_nil_2|]. apply NoDup_cons. split; [|done].
  intros Hin. rewrite Forall_forall in Hn. specialize (Hn n Hin). lia.
Qed.

(** Two profiles with the same files for one number: its link, its record and its lockfile. *)
Definition same_generation (n : Z) (p q : profile) : Prop :=
  links q !! link n = links p !! link n /\ metadata q !! metadata_name n = metadata p !! metadata_name n /\
  metadata q !! lock_snapshot n = metadata p !! lock_snapshot n.
Lemma metadata_name_inj n m : metadata_name n = metadata_name m -> dec n = dec m.
Proof. unfold metadata_name. apply app_inv_tail. Qed.
Lemma lock_snapshot_inj n m : lock_snapshot n = lock_snapshot m -> dec n = dec m.
Proof. unfold lock_snapshot. apply app_inv_tail. Qed.
Lemma only_same n m p q : only n p q -> dec n <> dec m -> same_generation m p q.
Proof.
  intros [H1 H2] Hne. split_and!.
  - apply H1. intros E. by apply Hne.
  - apply H2; [intros E; by apply Hne; symmetry; apply metadata_name_inj|apply metadata_not_lock].
  - apply H2; [intros E; symmetry in E; by apply metadata_not_lock in E|intros E; by apply Hne; symmetry; apply lock_snapshot_inj].
Qed.

Lemma unlink_all_spec w rows p r p' :
  unlink_all w rows p = (r, p') ->
  current p' = current p /\ (forall m, 0 <= m <= u64_max -> Forall (fun row => 0 <= number row <= u64_max) rows -> m ∉ map number rows -> same_generation m p p') /\
  (r = Ok tt -> Forall (fun row => links p' !! link (number row) = None) rows).
Proof.
  revert p. induction rows as [|row rows IH]; intros p; cbn [unlink_all].
  - intros [= <- <-]. split; [done|]. split; [done|]. intros _. by apply Forall_nil.
  - unfold sbind, smap_err. destruct (unlink _ _ _ (number row) p) as [u q] eqn:E.
    pose proof (unlink_effect _ _ _ _ _ _ _ E) as (Honly & Hcur & Hgone & _). destruct u as [[]|e]; cbn [map_err].
    + intros H. destruct (IH q H) as (Hc & Hs & Hall). split; [congruence|]. split.
      * intros m Hm [Hr Hrs]%Forall_cons Hn. cbn [map] in Hn. apply not_elem_of_cons in Hn as [Hn1 Hn2].
        destruct (Hs m Hm Hrs Hn2) as (H1 & H2 & H3).
        assert (Hne : dec (number row) <> dec m) by (intros E'; by apply Hn1; symmetry; apply dec_inj).
        destruct (only_same _ _ _ _ Honly Hne) as (H4 & H5 & H6). split_and!; congruence.
      * intros ->. specialize (Hall eq_refl). apply Forall_cons. split; [|done].
        destruct (Hgone eq_refl) as (Hg & _). clear -H Hg. revert H. revert q Hg. induction rows as [|row' rows IH]; intros q Hg; cbn [unlink_all]; [by intros [= <-]|].
        unfold sbind, smap_err. destruct (unlink _ _ _ (number row') q) as [u q'] eqn:E. intros H.
        pose proof (unlink_effect _ _ _ _ _ _ _ E) as ([Hl _] & _ & Hgone & _). destruct u as [[]|e]; [|done]. cbn in H. apply (IH q'); [|done].
        destruct (decide (link (number row) = link (number row'))) as [->|Hne]; [by apply Hgone|]. by rewrite Hl.
    + intros [= <- <-]. split; [done|]. split; [|done]. intros m Hm [Hr Hrs]%Forall_cons Hn. cbn [map] in Hn.
      apply not_elem_of_cons in Hn as [Hn1 _]. eapply only_same; [exact Honly|]. intros E'. by apply Hn1; symmetry; apply dec_inj.
Qed.
Lemma select_sub rows keep older now row : row ∈ select rows keep older now -> row ∈ rows /\ gen_current row = false.
Proof.
  unfold select. destruct keep, older; try (by intros ?%not_elem_of_nil);
    rewrite !list_elem_of_In, !List.filter_In; intros [[H1 H2%negb_true_iff] _]; done.
Qed.
Lemma selected_ranges w p keep older now :
  Forall (fun row => 0 <= number row <= u64_max) (select (rows_of from_slice w p) keep older now).
Proof.
  apply Forall_forall. intros row Hrow. apply select_sub in Hrow as [Hrow _]. apply rows_elem in Hrow as [Hn _]. by eapply numbers_range.
Qed.

(* ------------------------------------------------------------------ *)
(** ** [prune] *)


(** What the two retention arguments mean. [--keep n] selects exactly the rows that are not current and have at
    least [n] rows behind them, so the n newest survive with the current one beside them; [--older-than] selects exactly
    the rows that are not current and whose record holds an instant this program writes, before the threshold: an
    unreadable record, or none, is an unknown age and is kept. *)
Theorem select_meaning (w : retention_world) (p : profile) (n : Z) (Hn : 0 <= n) :
  let rows := rows_of from_slice w p in
  (forall i row, rows !! i = Some row ->
     (row ∈ select rows (Some n) None (rt_now w) <-> gen_current row = false /\ (i + Z.to_nat n < length rows)%nat)) /\
  (forall row, row ∈ select rows None (Some n) (rt_now w) <->
     row ∈ rows /\ gen_current row = false /\
     exists record built, gen_record row = Some record /\ parse_rfc3339_utc (built_at record) = Some built /\ built < Z.max 0 (rt_now w - n)).
Proof.
  intros rows. assert (Hnd : NoDup (map number rows)) by (unfold rows; rewrite rows_numbers; apply sorted_NoDup, numbers_sorted).
  split.
  - intros i row Hi. pose proof (lookup_lt_Some _ _ _ Hi) as Hlt.
    assert (Hin : number row ∈ map number (take (Z.to_nat n) (rev rows)) <-> (length rows <= i + Z.to_nat n)%nat).
    { rewrite list_elem_of_In, in_map_iff. split.
      - intros (row' & E & Hrow'%list_elem_of_In). apply list_elem_of_lookup in Hrow' as [j Hj].
        apply lookup_take_Some in Hj as [Hj Hjn]. pose proof (lookup_lt_Some _ _ _ Hj) as Hjl. rewrite length_rev in Hjl.
        rewrite rev_alt in Hj. change (rev_append rows []) with (reverse rows) in Hj. apply reverse_lookup_Some in Hj as [Hj _].
        assert (i = length rows - S j)%nat; [|lia]. eapply NoDup_lookup; [exact Hnd|by rewrite list_lookup_fmap, Hi|].
        rewrite list_lookup_fmap, Hj. cbn. by rewrite E.
      - intros Hle. exists row. split; [done|]. apply list_elem_of_In, list_elem_of_lookup. exists (length rows - S i)%nat.
        apply lookup_take_Some. split; [|lia]. rewrite rev_alt. change (rev_append rows []) with (reverse rows). apply reverse_lookup_Some. split; [|lia].
        replace (length rows - S (length rows - S i))%nat with i by lia. done. }
    unfold select. rewrite list_elem_of_In, !List.filter_In, !negb_true_iff, bool_decide_eq_false, Hin.
    split; [intros [[_ ?] ?]; split; [done|lia]|]. intros [? ?]. split; [split; [|done]|lia].
    apply list_elem_of_In. by eapply list_elem_of_lookup_2.
  - intros row. unfold select. rewrite list_elem_of_In, !List.filter_In, negb_true_iff, <- list_elem_of_In. unfold built_before.
    destruct (gen_record row) as [record|]; cbn [option_bind]; [|naive_solver].
    destruct (parse_rfc3339_utc (built_at record)) as [built|] eqn:E; [|naive_solver].
    rewrite Z.ltb_lt. split; [intros [[? ?] ?]; split_and!; [done..|]; by exists record, built|].
    intros (? & ? & ? & ? & [= <-] & E' & ?). rewrite E in E'. injection E' as <-. done.
Qed.

(* ------------------------------------------------------------------ *)
(** ** [activate] and [rollback] *)

Lemma retained_sorted w p : StronglySorted Z.lt (retained exists_in_store from_slice w p).
Proof.
  unfold retained. pose proof (numbers_sorted (rt_links_readable w) (rt_metadata_readable w) p) as Hs. rewrite <- rows_numbers in Hs.
  induction (rows_of from_slice w p) as [|row rows IH]; [constructor|]. cbn in Hs. inversion Hs as [|? ? Hs' Hall]; subst. cbn.
  destruct (bool_decide _); cbn; [|by apply IH]. constructor; [by apply IH|]. rewrite Forall_forall in Hall |- *.
  intros x Hx. apply Hall. apply list_elem_of_In, in_map_iff in Hx as (g & <- & Hg). apply List.filter_In in Hg as [Hg _].
  apply list_elem_of_In, in_map_iff. by exists g.
Qed.
(** Searching an ascending list from its end finds the greatest element below a bound. *)
Lemma find_rev_sorted (l : list Z) c t x :
  StronglySorted Z.lt l -> List.find (fun n => n <? c) (rev l) = Some t -> x ∈ l -> x < c -> x <= t.
Proof.
  revert t. induction l as [|y l IH] using rev_ind; [done|]. intros t Hs. rewrite rev_app_distr. cbn [rev app List.find].
  intros Hf Hx Hxc. apply StronglySorted_app in Hs as (Hc & Hs1 & _). rewrite elem_of_app, list_elem_of_singleton in Hx.
  destruct (Z.ltb_spec y c); [|destruct Hx as [Hx|Hx]; [by apply IH|lia]].
  injection Hf as <-. destruct Hx as [Hx|Hx]; [|lia].
  assert (Hy : y ∈ [y]) by (by apply list_elem_of_singleton). specialize (Hc x y Hx Hy). lia.
Qed.

(** A switch points [current] at a build that can be booted, and does nothing else. When the verb succeeds the
    number is a retained one whose output still exists, [current] names it, and every link and record is as it was;
    [rollback] lands on the greatest such number below the one current before; and a refusal, an unknown number or
    nothing to step back to, leaves the profile untouched. *)
Theorem activate_spec (n : option Z) (w : retention_world) (p p' : profile) (r : result (Z * option Z) Failure)
    (Hrun : activate exists_in_store from_slice n w p = (r, p')) :
  links p' = links p /\ metadata p' = metadata p /\
  (forall t previous, r = Ok (t, previous) ->
     previous = current_number p /\ current_number p' = Some t /\ is_Some (store_path exists_in_store p' t) /\
     (forall k, n = Some k -> t = k) /\
     (n = None -> exists c, previous = Some c /\ t < c /\ forall m, m ∈ retained exists_in_store from_slice w p -> m < c -> m <= t)) /\
  (r = Err unknown_generation -> p' = p).
Proof.
  unfold activate in Hrun. destruct (rt_lock w) as [u|f] eqn:El; cbn in Hrun.
  2: { injection Hrun as <- <-. by split_and!. }
  destruct (switch_target exists_in_store from_slice n w p) as [t|f] eqn:Et; cbn in Hrun.
  2: { injection Hrun as <- <-. by split_and!. }
  assert (Hret : t ∈ retained exists_in_store from_slice w p).
  { unfold switch_target in Et. destruct n as [k|].
    - case_bool_decide; [by injection Et as <-|done].
    - destruct (current_number p) as [c|]; [|done]. destruct (List.find _ _) as [t'|] eqn:Ef; [|done]. injection Et as <-.
      apply List.find_some in Ef as [Hin _]. by apply list_elem_of_In, in_rev. }
  assert (Hsp : 0 <= t <= u64_max /\ is_Some (store_path exists_in_store p t)).
  { unfold retained in Hret. apply list_elem_of_In, in_map_iff in Hret as (row & <- & Hrow). apply List.filter_In in Hrow as [Hrow%list_elem_of_In Hs].
    apply bool_decide_eq_true in Hs. split; [|done]. apply rows_elem in Hrow as [Hnum _]. by eapply numbers_range. }
  destruct Hsp as [Hrange Hsp].
  unfold sbind, smap_err, set_current, published in Hrun. destruct (rt_current w) as [|e|e]; cbn in Hrun; injection Hrun as <- <-; cbn [links metadata].
  - split; [done|]. split; [done|]. split; [|done]. intros t' previous [= <- <-]. split; [done|]. split.
    { unfold current_number. cbn [current option_bind]. rewrite current_target_file_name by done. cbn [option_bind].
      apply parse_uint_dec; [done|unfold u64_max; lia]. }
    split; [exact Hsp|]. split; [intros k ->; unfold switch_target in Et; case_bool_decide; by simplify_eq|].
    intros ->. unfold switch_target in Et. destruct (current_number p) as [c|]; [|done]. exists c. split; [done|].
    destruct (List.find _ _) as [t'|] eqn:Ef; [|done]. injection Et as ->. pose proof Ef as Ef'. apply List.find_some in Ef' as [_ Hlt%Z.ltb_lt].
    split; [done|]. intros m Hm Hmc. eapply find_rev_sorted; [apply retained_sorted|exact Ef|done|done].
  - by split_and!.
  - split_and!; [done..|]. intros H. by destruct e.
Qed.
End spec.

(* ------------------------------------------------------------------ *)
(** ** Witnesses *)

Definition rt_exists (p : bytes) : bool := true.
Definition rt_from (raw : bytes) : option GenerationRecord := Some (mk_GenerationRecord [] [] [] [] raw).
Definition rt_profile : profile :=
  mk_profile {[bs "1" := bs "/a"; bs "2" := bs "/b"; bs "3" := bs "/c"]} {[bs "1.json" := bs "2000-01-01T00:00:00Z"]} (Some (current_target 3)).
Definition rt_world (a : show) (pid : file) : retention_world :=
  mk_retention_world (Ok tt) true true pid pid (fun _ => K_Ok) a (Content (bs "/a")) 1000000000 (fun _ => mk_removable true true true) Published.
Definition rt_pruned : result (list Generation * nat) Failure * profile := prune rt_exists rt_from (Some 2) None (rt_world NotRun Missing) rt_profile.
Lemma select_meaning_witness :
  forall row, row ∈ select (rows_of rt_from (rt_world NotRun Missing) rt_profile) None (Some 5) 1000000000 -> gen_current row = false.
Proof.
  intros row H. destruct (select_meaning rt_from (rt_world NotRun Missing) rt_profile 5 ltac:(lia)) as [_ Hs].
  destruct (proj1 (Hs row) H) as (_ & Hc & _). exact Hc.
Defined.
Definition rt_switched : result (Z * option Z) Failure * profile := activate rt_exists rt_from None (rt_world NotRun Missing) rt_profile.
Lemma activate_spec_witness : fst rt_switched = Ok (2, Some 3) /\ current_number (snd rt_switched) = Some 2.
Proof.
  assert (E : fst rt_switched = Ok (2, Some 3)) by (vm_compute; reflexivity). split; [exact E|].
  destruct (activate_spec rt_exists rt_from None (rt_world NotRun Missing) rt_profile (snd rt_switched) (fst rt_switched)) as (_ & _ & H & _);
    [apply surjective_pairing|]. by destruct (H 2 (Some 3) E) as (_ & ? & _).
Defined.
