(* ===== verification/Json.v ===== *)
(** * Json: serde_json's values

    A map is the list of its entries, sorted by key ([BTreeMap], the crate's default); parsing and printing are
    parameters of what uses them. *)
From S2P Require Import Prelude Bytes Ordered.

(** A float is named by its value. *)
Inductive Number := PosInt (n : Z) | NegInt (n : Z) | Float (value : Z).
#[global] Instance Number_eq_dec : EqDecision Number.
Proof. solve_decision. Defined.
Definition as_i64 (n : Number) : option Z :=
  match n with PosInt n => if n <=? i64_max then Some n else None | NegInt n => Some n | Float _ => None end.

Inductive Value :=
| VNull | VBool (b : bool) | VNumber (n : Number) | VString (s : bytes) | VArray (l : list Value)
| VObject (fields : list (bytes * Value)).
Definition object : Type := list (bytes * Value).
Definition find_field {A} (o : list (bytes * A)) (key : bytes) : option A :=
  match List.find (fun f => bytes_eqb (fst f) key) o with Some f => Some (snd f) | None => None end.
Definition remove_field {A} (o : list (bytes * A)) (key : bytes) : list (bytes * A) := List.filter (fun f => negb (bytes_eqb (fst f) key)) o.
Definition as_str (v : Value) : option bytes := match v with VString s => Some s | _ => None end.
Definition as_object (v : Value) : option object := match v with VObject o => Some o | _ => None end.
Definition as_array (v : Value) : option (list Value) := match v with VArray l => Some l | _ => None end.
(** [Value::get], and indexing, which gives [Null] where there is nothing. *)
Definition vget (v : Value) (key : bytes) : option Value := let* o := as_object v in find_field o key.
Definition vindex (v : Value) (key : bytes) : Value := default VNull (vget v key).

(** Equality, through the nesting. *)
Fixpoint value_eqb (v w : Value) {struct v} : bool :=
  match v, w with
  | VNull, VNull => true
  | VBool a, VBool b => Bool.eqb a b
  | VNumber a, VNumber b => bool_decide (a = b)
  | VString a, VString b => bytes_eqb a b
  | VArray l, VArray m =>
      (fix go (l m : list Value) : bool :=
         match l, m with
         | [], [] => true
         | a :: l, b :: m => value_eqb a b && go l m
         | _, _ => false
         end) l m
  | VObject l, VObject m =>
      (fix go (l m : object) : bool :=
         match l, m with
         | [], [] => true
         | (k, a) :: l, (k', b) :: m => bytes_eqb k k' && value_eqb a b && go l m
         | _, _ => false
         end) l m
  | _, _ => false
  end.

(** Induction over the nesting. *)
Section value_rect.
Context (P : Value -> Prop).
Context (Hnull : P VNull) (Hbool : forall b, P (VBool b)) (Hnumber : forall n, P (VNumber n)) (Hstring : forall s, P (VString s)).
Context (Harray : forall l, Forall P l -> P (VArray l)) (Hobject : forall o, Forall (fun f => P (snd f)) o -> P (VObject o)).
Fixpoint value_nested_ind (v : Value) : P v :=
  match v with
  | VNull => Hnull | VBool b => Hbool b | VNumber n => Hnumber n | VString s => Hstring s
  | VArray l => Harray l ((fix go l : Forall P l := match l with [] => Forall_nil_2 P | a :: l => Forall_cons_2 P a l (value_nested_ind a) (go l) end) l)
  | VObject o =>
      Hobject o ((fix go (o : object) : Forall (fun f => P (snd f)) o :=
        match o with
        | [] => Forall_nil_2 _
        | f :: o => Forall_cons_2 (fun f => P (snd f)) f o (value_nested_ind (snd f)) (go o)
        end) o)
  end.
End value_rect.
Lemma value_eqb_true v w : value_eqb v w = true <-> v = w.
Proof.
  revert w. induction v as [|b|n|s|l IH|o IH] using value_nested_ind; intros [|b'|n'|s'|l'|o']; cbn [value_eqb]; try (split; discriminate).
  - done.
  - rewrite Bool.eqb_true_iff. split; [by intros ->|by intros [= ->]].
  - rewrite bool_decide_eq_true. split; [by intros ->|by intros [= ->]].
  - rewrite bytes_eqb_true. split; [by intros ->|by intros [= ->]].
  - revert l'. induction IH as [|a l Ha Hl IH]; intros [|b m]; [done|split; discriminate..|].
    rewrite andb_true_iff, Ha. specialize (IH m). split; [intros [-> E%IH]; by injection E as ->|].
    intros [= -> ->]. split; [done|]. by apply IH.
  - revert o'. induction IH as [|[k a] l Ha Hl IH]; intros [|[k' b] m]; [done|split; discriminate..|].
    rewrite !andb_true_iff, bytes_eqb_true, Ha. specialize (IH m). cbn [snd]. split; [intros [[-> ->] E%IH]; by injection E as ->|].
    intros [= -> -> ->]. split; [done|]. by apply IH.
Qed.
#[global] Instance Value_eq_dec : EqDecision Value.
Proof. intros v w. destruct (value_eqb v w) eqn:E; [left; by apply value_eqb_true|right; intros H; apply value_eqb_true in H; congruence]. Defined.

(** ** Objects *)

Lemma bytes_neqb a b : a <> b -> bytes_eqb a b = false.
Proof. by intros H; apply bool_decide_eq_false. Qed.
Lemma bytes_eqb_same a : bytes_eqb a a = true.
Proof. by apply bytes_eqb_true. Qed.
Lemma find_field_Some {A} (o : list (bytes * A)) key v : find_field o key = Some v -> (key, v) ∈ o.
Proof.
  unfold find_field. destruct (List.find _ o) as [[k a]|] eqn:E; [|done]. intros [= <-].
  apply List.find_some in E as [Hin Hk%bytes_eqb_true]. cbn in *. subst k. by apply list_elem_of_In.
Qed.
Lemma find_field_filter {A} (o : list (bytes * A)) (P : bytes -> bool) key :
  find_field (List.filter (fun f => P (fst f)) o) key = if P key then find_field o key else None.
Proof.
  unfold find_field. induction o as [|[k a] o IH]; cbn; [by destruct (P key)|].
  destruct (bytes_eqb k key) eqn:E.
  - apply bytes_eqb_true in E as ->. destruct (P key) eqn:EP; cbn; [by rewrite bytes_eqb_same|]. exact IH.
  - destruct (P k); cbn; [rewrite E|]; exact IH.
Qed.
Lemma find_field_remove {A} (o : list (bytes * A)) key key' :
  find_field (remove_field o key) key' = if bytes_eqb key' key then None else find_field o key'.
Proof. unfold remove_field. rewrite (find_field_filter o (fun k => negb (bytes_eqb k key))). by destruct (bytes_eqb key' key). Qed.
Lemma find_field_in (o : object) f : f ∈ o -> exists v, find_field o (fst f) = Some v.
Proof.
  intros Hf%list_elem_of_In. unfold find_field. destruct (List.find _ o) as [g|] eqn:E; [by eexists|].
  pose proof (List.find_none _ _ E f Hf) as Hn. cbn beta in Hn. by rewrite bytes_eqb_same in Hn.
Qed.
Lemma find_field_map_insert {A} k (v : A) o k' :
  ascending (map fst o) -> find_field (map_insert k v o) k' = if bytes_eqb k k' then Some v else find_field o k'.
Proof.
  unfold find_field. induction o as [|[k0 v0] o IH]; intros Ha; cbn [map_insert].
  - cbn. by destruct (bytes_eqb k k').
  - destruct (ord_cmp k k0) eqn:E; cbn [List.find fst].
    + apply ord_cmp_eq in E as ->. by destruct (bytes_eqb k0 k').
    + by destruct (bytes_eqb k k').
    + destruct (bytes_eqb k0 k') eqn:E0; [|apply IH; by eapply ascending_tail]. apply bytes_eqb_true in E0 as ->.
      rewrite bytes_neqb; [done|]. intros ->. by rewrite (proj2 (ord_cmp_eq k' k') eq_refl) in E.
Qed.
Lemma map_insert_ascending {A} k (v : A) o : ascending (map fst o) -> ascending (map fst (map_insert k v o)).
Proof.
  assert (E : forall l : list (bytes * A), map fst (map_insert k v l) = set_insert k (map fst l)).
  { induction l as [|[k0 v0] l IH]; cbn; [done|]. destruct (ord_cmp k k0) eqn:Ec; cbn; [by apply ord_cmp_eq in Ec as ->|done|by rewrite IH]. }
  intros Ha. rewrite E. by apply set_insert_ascending.
Qed.
