(* ===== verification/Lock.v ===== *)
(** * Lock: what is read of a lockfile (src/src/config/lock.rs)

    A lock is a JSON value; serde_json's parser and printers are parameters.  Shedding
    a retired node, resolving [follows] paths, the composed-lock rule, and the pins of the public root inputs. *)
From S2P Require Import Prelude Bytes Ordered Json.

#[local] Arguments bs : simpl never.

Definition VIVARIUM : bytes := bs "vivarium".
Definition INPUTS : bytes := bs "inputs".
Definition NODES : bytes := bs "nodes".
Definition root_of (lock : Value) : bytes := default (bs "root") (as_str (vindex lock (bs "root"))).

(** The inputs of a node, when it has some. *)
Definition inputs_of (nodes : object) (name : bytes) : option object :=
  let* node := find_field nodes name in let* inputs := vget node INPUTS in as_object inputs.

(** ** [follows] *)

(** One label of a path: the edge, resolved by [again] when it is a path itself. *)
Definition follow_label (nodes : object) (again : list Value -> option bytes) (current : bytes) (label : Value) : option bytes :=
  let* label := as_str label in
  let* node := find_field nodes current in
  let* inputs := vget node INPUTS in
  let* edge := vget inputs label in
  match edge with
  | VString next => Some next
  | VArray path => again path
  | _ => None
  end.
Fixpoint follow_path (nodes : object) (again : list Value -> option bytes) (current : bytes) (path : list Value) : option bytes :=
  match path with
  | [] => Some current
  | label :: path => let* next := follow_label nodes again current label in follow_path nodes again next path
  end.
(** The depths left: 33 at depth 0. *)
Fixpoint follows_left (depths : nat) (nodes : object) (root : bytes) (path : list Value) : option bytes :=
  match depths with
  | O => None
  | S depths => follow_path nodes (follows_left depths nodes root) root path
  end.
Definition resolve_follows (nodes : object) (root : bytes) (path : list Value) (depth : nat) : option bytes :=
  follows_left (33 - depth) nodes root path.
Definition resolve_edge (nodes : object) (root : bytes) (edge : Value) : option bytes :=
  match edge with
  | VString next => Some next
  | VArray path => resolve_follows nodes root path 0
  | _ => None
  end.

(** ** The walk *)

Definition targets (nodes : object) (root : bytes) (name : bytes) : list bytes :=
  match inputs_of nodes name with
  | Some inputs => omap (fun f => resolve_edge nodes root (snd f)) inputs
  | None => []
  end.
(** [queue.pop()] takes the end of the vector, here the head; pushes go in the order of the edges. *)
Fixpoint walk (fuel : nat) (nodes : object) (root : bytes) (queue keep : list bytes) : option (list bytes) :=
  match queue with
  | [] => Some keep
  | name :: queue =>
      match fuel with
      | O => None
      | S fuel =>
          if bool_decide (name ∈ keep) then walk fuel nodes root queue keep
          else walk fuel nodes root (rev (targets nodes root name) ++ queue) (set_insert name keep)
      end
  end.
(** A pop for the start and one for every edge there is. *)
Definition edges (node : bytes * Value) : nat :=
  match (let* inputs := vget (snd node) INPUTS in as_object inputs) with Some inputs => length inputs | None => 0 end.
Definition walk_fuel (nodes : object) : nat := S (fold_right (fun node n => (edges node + n)%nat) 0%nat nodes).
Definition reachable_from (nodes : object) (root start : bytes) : list bytes :=
  default [] (walk (walk_fuel nodes) nodes root [start] []).

(** ** Shedding *)

Section lock.
Context (from_slice : bytes -> option Value) (to_vec_pretty : Value -> option bytes) (to_string : Value -> bytes).

Definition carries (lock : Value) : bool :=
  bool_decide (is_Some (vget (vindex lock NODES) VIVARIUM)) ||
  bool_decide (is_Some (vget (vindex (vindex (vindex lock NODES) (root_of lock)) INPUTS) VIVARIUM)).
Definition carries_vivarium (bytes_ : bytes) : bool :=
  match from_slice bytes_ with Some lock => carries lock | None => false end.

(** The value under a key replaced, in place. *)
Definition update_field (o : object) (key : bytes) (f : Value -> Value) : object :=
  map (fun field => if bytes_eqb (fst field) key then (fst field, f (snd field)) else field) o.
Definition drop_vivarium_input (node : Value) : Value :=
  match node with
  | VObject fields =>
      VObject (update_field fields INPUTS (fun inputs => match inputs with VObject o => VObject (remove_field o VIVARIUM) | v => v end))
  | v => v
  end.
Definition dropped_nodes (root : bytes) (nodes : object) : object :=
  remove_field (update_field nodes root drop_vivarium_input) VIVARIUM.
Definition shed_nodes (root : bytes) (nodes : object) : object :=
  let nodes := dropped_nodes root nodes in
  let keep := reachable_from nodes root root in
  List.filter (fun node => bool_decide (fst node ∈ keep)) nodes.
Definition shed (lock : Value) : option Value :=
  match lock with
  | VObject fields =>
      let* nodes := let* v := find_field fields NODES in as_object v in
      Some (VObject (update_field fields NODES (fun _ => VObject (shed_nodes (root_of lock) nodes))))
  | _ => None
  end.
Definition shed_vivarium (bytes_ : bytes) : option bytes :=
  if negb (carries_vivarium bytes_) then None
  else
    let* lock := from_slice bytes_ in
    let* lock := shed lock in
    let* rendered := to_vec_pretty lock in
    Some (rendered ++ [x0a]).

(** ** The composed lock *)

Inductive ComposedLockDefect := BaselineMissing (name : bytes) | BaselineSplit (root microvm : bytes).
Definition root_input (nodes : object) (root name : bytes) : option bytes :=
  let* node := find_field nodes root in
  let* inputs := vget node INPUTS in
  let* edge := vget inputs name in
  resolve_edge nodes root edge.
Definition validate (lock : Value) : result unit ComposedLockDefect :=
  let root := root_of lock in
  match (let* v := vget lock NODES in as_object v) with
  | None => Ok tt
  | Some nodes =>
      let? nixpkgs := ok_or (root_input nodes root (bs "nixpkgs")) (BaselineMissing (bs "nixpkgs")) in
      let? microvm := ok_or (root_input nodes root (bs "microvm")) (BaselineMissing (bs "microvm")) in
      match (let* node := find_field nodes microvm in let* inputs := vget node INPUTS in vget inputs (bs "nixpkgs")) with
      | Some edge =>
          match resolve_edge nodes root edge with
          | Some label => if bytes_eqb label nixpkgs then Ok tt else Err (BaselineSplit nixpkgs label)
          | None => Ok tt
          end
      | None => Ok tt
      end
  end.
Definition validate_composed (bytes_ : bytes) : result unit ComposedLockDefect :=
  match from_slice bytes_ with Some lock => validate lock | None => Ok tt end.

(** ** Pins *)

Record RootPin := mk_RootPin { display : option bytes; fingerprint : bytes }.
Definition pin_display (locked : Value) : option bytes :=
  match (let* v := vget locked (bs "rev") in as_str v) with
  | Some rev => Some rev
  | None =>
      match (let* v := vget locked (bs "narHash") in as_str v) with
      | Some hash => Some hash
      | None => let* v := vget locked (bs "lastModified") in match v with VNumber n => option_map dec_int (as_i64 n) | _ => None end
      end
  end.
Definition locked_of (nodes : object) (name : bytes) : option Value := let* node := find_field nodes name in vget node (bs "locked").
Definition subtree (nodes : object) (root label : bytes) : bytes :=
  flat_map (fun name => name ++ bs "=" ++ match locked_of nodes name with Some v => to_string v | None => [] end ++ bs ";")
    (reachable_from nodes root label).
Definition root_pin (nodes : object) (root : bytes) (edge : Value) : RootPin :=
  let label := resolve_edge nodes root edge in
  mk_RootPin (let* label := label in let* locked := locked_of nodes label in pin_display locked)
    (match label with Some label => subtree nodes root label | None => [] end).
Definition pins_of (lock : Value) : option (list (bytes * RootPin)) :=
  let root := root_of lock in
  let* nodes := let* v := vget lock NODES in as_object v in
  let* inputs := inputs_of nodes root in
  Some (fold_left (fun pinned f => map_insert (fst f) (root_pin nodes root (snd f)) pinned) inputs []).
Definition pins (bytes_ : bytes) : option (list (bytes * RootPin)) := let* lock := from_slice bytes_ in pins_of lock.
End lock.

(** * Lock: the walk over a lock ends and is exact, and shedding moves no pin *)

#[local] Arguments bs : simpl never.

(* ------------------------------------------------------------------ *)
(** ** Objects *)

Lemma find_field_update (o : object) key f key' :
  find_field (update_field o key f) key' = if bytes_eqb key' key then option_map f (find_field o key') else find_field o key'.
Proof.
  unfold find_field, update_field. induction o as [|[k a] o IH]; cbn; [by destruct (bytes_eqb key' key)|].
  destruct (bytes_eqb k key) eqn:E; cbn; (destruct (bytes_eqb k key') eqn:E'; [|exact IH]).
  - apply bytes_eqb_true in E' as ->. by rewrite E.
  - apply bytes_eqb_true in E' as ->. by rewrite E.
Qed.

(* ------------------------------------------------------------------ *)
(** ** The walk *)

Lemma omap_ext_in {A B} (g h : A -> option B) (l : list A) : (forall x, x ∈ l -> g x = h x) -> omap g l = omap h l.
Proof.
  induction l as [|x l IH]; intros H; cbn [omap list_omap]; [reflexivity|].
  rewrite (H x) by left. destruct (h x); [f_equal|]; apply IH; intros; apply H; by right.
Qed.
Lemma rev_elem {A} (x : A) l : x ∈ rev l <-> x ∈ l.
Proof. by rewrite !list_elem_of_In, <- in_rev. Qed.

Section walk.
Context (nodes : object) (root : bytes).

(** Reachability along the edges of a lock. *)
Inductive reach (start : bytes) : bytes -> Prop :=
| reach_start : reach start start
| reach_edge a b : reach start a -> b ∈ targets nodes root a -> reach start b.

Definition fresh_edges (keep : list bytes) (l : object) : nat :=
  fold_right (fun node n => ((if bool_decide (fst node ∈ keep) then 0 else edges node) + n)%nat) 0%nat l.
Lemma fresh_edges_cons keep node l :
  fresh_edges keep (node :: l) = ((if bool_decide (fst node ∈ keep) then 0 else edges node) + fresh_edges keep l)%nat.
Proof. done. Qed.
Lemma fresh_edges_mono keep keep' l : (forall x, x ∈ keep -> x ∈ keep') -> (fresh_edges keep' l <= fresh_edges keep l)%nat.
Proof.
  intros H. induction l as [|[k v] l IH]; [done|]. rewrite !fresh_edges_cons. cbn [fst].
  destruct (bool_decide_reflect (k ∈ keep)) as [Hk|Hk]; [rewrite bool_decide_true by auto; lia|].
  destruct (bool_decide (k ∈ keep')); lia.
Qed.
(** Taking a name in pays for its edges. *)
Lemma fresh_edges_take keep name l :
  name ∉ keep ->
  (fresh_edges (set_insert name keep) l + match find_field l name with Some node => edges (name, node) | None => 0 end <= fresh_edges keep l)%nat.
Proof.
  intros Hn. induction l as [|[k v] l IH]; [done|].
  unfold find_field in *. rewrite !fresh_edges_cons. cbn [List.find fst].
  assert (Hmono : forall x, x ∈ keep -> x ∈ set_insert name keep) by (intros; apply set_insert_elem; by right).
  destruct (bytes_eqb k name) eqn:E.
  - apply bytes_eqb_true in E as ->. cbn [snd]. rewrite bool_decide_true by (apply set_insert_elem; by left).
    rewrite (bool_decide_false (name ∈ keep)) by done. pose proof (fresh_edges_mono keep _ l Hmono). lia.
  - destruct (bool_decide_reflect (k ∈ keep)) as [Hk|Hk]; [rewrite bool_decide_true by auto; lia|].
    rewrite bool_decide_false; [lia|]. rewrite set_insert_elem. intros [->|?]; [|done]. by rewrite bytes_eqb_same in E.
Qed.
Lemma targets_edges name :
  (length (targets nodes root name) <= match find_field nodes name with Some node => edges (name, node) | None => 0 end)%nat.
Proof.
  unfold targets, inputs_of, edges. destruct (find_field nodes name) as [node|]; [|done]. cbn [option_bind snd].
  destruct (let* inputs := vget node INPUTS in as_object inputs) as [inputs|]; [|done].
  induction inputs as [|f inputs IH]; [done|]. cbn [omap list_omap]. destruct (resolve_edge nodes root (snd f)); cbn [length]; lia.
Qed.
Lemma walk_total fuel queue keep :
  (length queue + fresh_edges keep nodes <= fuel)%nat -> is_Some (walk fuel nodes root queue keep).
Proof.
  revert queue keep. induction fuel as [|fuel IH]; intros [|name queue] keep Hf; try by eexists.
  - cbn in Hf. lia.
  - cbn [walk]. case_bool_decide as Hk; [apply IH; cbn in Hf; lia|]. apply IH. rewrite length_app, length_rev.
    pose proof (fresh_edges_take keep name nodes Hk). pose proof (targets_edges name). cbn in Hf. lia.
Qed.
Lemma walk_spec fuel start queue keep keep' :
  walk fuel nodes root queue keep = Some keep' ->
  ascending keep ->
  (forall x, x ∈ keep \/ x ∈ queue -> reach start x) ->
  (forall a b, a ∈ keep -> b ∈ targets nodes root a -> b ∈ keep \/ b ∈ queue) ->
  (start ∈ keep \/ start ∈ queue) ->
  ascending keep' /\ forall x, x ∈ keep' <-> reach start x.
Proof.
  revert queue keep. induction fuel as [|fuel IH]; intros [|name queue] keep; cbn [walk].
  2: done.
  1,2: intros [= <-] Hasc Hr Hc Hs; split; [done|]; intros x; split; [by intros; apply Hr; left|];
    induction 1 as [|a b _ IHa Hb]; [by destruct Hs as [?|?%elem_of_nil]|]; by destruct (Hc a b IHa Hb) as [?|?%elem_of_nil].
  intros Hw Hasc Hr Hc Hs. case_bool_decide as Hk.
  - eapply IH; [exact Hw|done| | |].
    + intros x [Hx|Hx]; apply Hr; [by left|right; by right].
    + intros a b Ha Hb. destruct (Hc a b Ha Hb) as [?|[->|?]%elem_of_cons]; auto.
    + destruct Hs as [?|[->|?]%elem_of_cons]; auto.
  - eapply IH; [exact Hw|by apply set_insert_ascending| | |].
    + intros x. rewrite set_insert_elem, elem_of_app, rev_elem. intros [[->|Hx]|[Hx|Hx]].
      * apply Hr. right. by left.
      * apply Hr. by left.
      * eapply reach_edge; [|exact Hx]. apply Hr. right. by left.
      * apply Hr. right. by right.
    + intros a b. rewrite !set_insert_elem, elem_of_app, rev_elem. intros [->|Ha] Hb; [by right; left|].
      destruct (Hc a b Ha Hb) as [?|[->|?]%elem_of_cons]; auto.
    + rewrite set_insert_elem, elem_of_app. destruct Hs as [?|[->|?]%elem_of_cons]; auto.
Qed.
Lemma reachable_from_spec start :
  ascending (reachable_from nodes root start) /\ forall x, x ∈ reachable_from nodes root start <-> reach start x.
Proof.
  unfold reachable_from. assert (Hf : fresh_edges [] nodes = pred (walk_fuel nodes)).
  { unfold walk_fuel, fresh_edges. cbn [pred]. induction nodes as [|node l IH]; [done|]. cbn. rewrite bool_decide_false by apply not_elem_of_nil. by rewrite IH. }
  destruct (walk_total (walk_fuel nodes) [start] []) as [keep E].
  { rewrite Hf. unfold walk_fuel. cbn [length pred]. lia. }
  rewrite E. cbn [default]. eapply walk_spec; [exact E|constructor| | |].
  - intros x [Hx%elem_of_nil|Hx%list_elem_of_singleton]; [done|]. subst. constructor.
  - by intros a b ?%elem_of_nil.
  - right. by apply list_elem_of_singleton.
Qed.
End walk.

(** The walk over a lock ends on every input and finds exactly what is reachable. For any nodes, however their edges
    cycle, dangle or are ill-typed, [reachable_from] runs out of queue within one step per edge, and its result is the
    set, ascending and without repetition, of the names reachable from the start along string edges and [follows]
    paths resolved within the depth bound. *)
Theorem walk_is_reachability (nodes : object) (root start : bytes) :
  is_Some (walk (walk_fuel nodes) nodes root [start] []) /\
  ascending (reachable_from nodes root start) /\ (forall x, x ∈ reachable_from nodes root start <-> reach nodes root start x).
Proof.
  split; [|apply reachable_from_spec]. apply walk_total. unfold walk_fuel, fresh_edges. cbn [length].
  assert (H : forall l, (fold_right (fun node n => ((if bool_decide (fst node ∈ ([] : list bytes)) then 0 else edges node) + n)%nat) 0%nat l <=
    fold_right (fun node n => (edges node + n)%nat) 0%nat l)%nat); [|specialize (H nodes); lia].
  induction l as [|node l IH]; cbn; [lia|]. destruct (bool_decide _); lia.
Qed.

(* ------------------------------------------------------------------ *)
(** ** Shedding *)

Lemma ascending_ext l l' : ascending l -> ascending l' -> (forall x, x ∈ l <-> x ∈ l') -> l = l'.
Proof.
  revert l'. induction l as [|x l IH]; intros [|y l'] Ha Ha' H; [done|..].
  - assert (Hy : y ∈ y :: l') by left. by apply H, elem_of_nil in Hy.
  - assert (Hx : x ∈ x :: l) by left. by apply H, elem_of_nil in Hx.
  - assert (x = y) as ->.
    { assert (Hx : x ∈ y :: l') by (apply H; left). assert (Hy : y ∈ x :: l) by (apply H; left).
      apply elem_of_cons in Hx as [?|Hx]; [done|]. apply elem_of_cons in Hy as [?|Hy]; [done|].
      pose proof (ascending_above _ _ _ Ha' Hx) as H1. pose proof (ascending_above _ _ _ Ha Hy) as H2.
      rewrite ord_cmp_antisym, H1 in H2. done. }
    f_equal. apply IH; [by eapply ascending_tail|by eapply ascending_tail|]. intros z. specialize (H z). rewrite !elem_of_cons in H.
    split; intros Hz.
    + destruct (proj1 H (or_intror Hz)) as [->|?]; [|done]. apply ascending_NoDup, NoDup_cons in Ha as [Hn _]. done.
    + destruct (proj2 H (or_intror Hz)) as [->|?]; [|done]. apply ascending_NoDup, NoDup_cons in Ha' as [Hn _]. done.
Qed.

(** The edge a node has under a label. *)
Definition edge_at (nodes : object) (name label : bytes) : option Value := let* inputs := inputs_of nodes name in find_field inputs label.
Lemma follow_label_edge nodes again current label :
  follow_label nodes again current label =
  (let* label := as_str label in let* edge := edge_at nodes current label in
   match edge with VString next => Some next | VArray path => again path | _ => None end).
Proof.
  unfold follow_label, edge_at, inputs_of, vget. destruct (as_str label); [|done]. cbn.
  destruct (find_field nodes current) as [node|]; [|done]. cbn. destruct (as_object node) as [o|]; [|done]. cbn.
  destruct (find_field o INPUTS) as [v|]; [|done]. cbn. by destruct (as_object v).
Qed.
Lemma follows_more d d' nodes root path x : (d <= d')%nat -> follows_left d nodes root path = Some x -> follows_left d' nodes root path = Some x.
Proof.
  revert d' path x. induction d as [|d IH]; [done|]. intros [|d'] path x Hd; [lia|]. cbn [follows_left].
  generalize root at 2 4 as current. revert x. induction path as [|label path IHp]; intros x current; cbn [follow_path]; [done|].
  rewrite !follow_label_edge. destruct (as_str label) as [l|]; [|done]. cbn [option_bind].
  destruct (edge_at nodes current l) as [edge|]; [|done]. cbn [option_bind].
  destruct edge as [| | |next|p|]; try done; cbn [option_bind]; [apply IHp|].
  destruct (follows_left d nodes root p) as [next|] eqn:E; [|done]. rewrite (IH d' p next) by (lia || done). apply IHp.
Qed.

Section shed.
Context (nodes : object) (root : bytes).

(** The retired node is reached only by the root's own edge of that name: what slice 012's locks hold. *)
Definition retired_at_root_only : Prop :=
  root <> VIVARIUM /\
  forall name label edge, edge_at nodes name label = Some edge ->
    (name = root /\ label = VIVARIUM) \/
    match edge with VString s => s <> VIVARIUM | VArray path => VString VIVARIUM ∉ path | _ => True end.
Context (Hclean : retired_at_root_only).
Let dropped : object := dropped_nodes root nodes.
Let kept : list bytes := reachable_from dropped root root.
Let survivors : object := shed_nodes root nodes.

Lemma find_dropped name : name <> VIVARIUM ->
  find_field dropped name = if bytes_eqb name root then option_map drop_vivarium_input (find_field nodes name) else find_field nodes name.
Proof.
  intros Hn. unfold dropped, dropped_nodes. rewrite find_field_remove, bytes_neqb by done. apply find_field_update.
Qed.
Lemma inputs_dropped name : name <> VIVARIUM ->
  inputs_of dropped name = if bytes_eqb name root then option_map (fun o => remove_field o VIVARIUM) (inputs_of nodes name) else inputs_of nodes name.
Proof.
  intros Hn. unfold inputs_of. rewrite find_dropped by done. destruct (bytes_eqb name root); [|done].
  destruct (find_field nodes name) as [node|]; [|done]. cbn. destruct node as [| | | | |fields]; try done. unfold vget. cbn.
  rewrite find_field_update. rewrite bytes_eqb_same.
  destruct (find_field fields INPUTS) as [v|]; [|done]. by destruct v.
Qed.
Lemma edge_dropped name label : name <> VIVARIUM -> label <> VIVARIUM -> edge_at dropped name label = edge_at nodes name label.
Proof.
  intros Hn Hl. unfold edge_at. rewrite inputs_dropped by done. destruct (bytes_eqb name root); [|done].
  destruct (inputs_of nodes name) as [o|]; [|done]. cbn. rewrite find_field_remove. by rewrite bytes_neqb.
Qed.
Lemma locked_dropped name : name <> VIVARIUM -> locked_of dropped name = locked_of nodes name.
Proof.
  intros Hn. unfold locked_of. rewrite find_dropped by done. destruct (bytes_eqb name root); [|done].
  destruct (find_field nodes name) as [node|]; [|done]. cbn. destruct node as [| | | | |fields]; try done. unfold vget. cbn.
  by rewrite find_field_update.
Qed.
Lemma follows_dropped d path : VString VIVARIUM ∉ path ->
  follows_left d dropped root path = follows_left d nodes root path /\ (forall x, follows_left d nodes root path = Some x -> x <> VIVARIUM).
Proof.
  destruct Hclean as [Hroot Hedges]. revert path. induction d as [|d IH]; intros path Hp; [done|]. cbn [follows_left].
  assert (Hgo : forall current, current <> VIVARIUM ->
    follow_path dropped (follows_left d dropped root) current path = follow_path nodes (follows_left d nodes root) current path /\
    (forall x, follow_path nodes (follows_left d nodes root) current path = Some x -> x <> VIVARIUM)); [|by apply Hgo].
  clear -IH Hp Hedges. induction path as [|label path IHp]; intros current Hc; cbn [follow_path]; [by split; [|intros x [= <-]]|].
  apply not_elem_of_cons in Hp as [Hl Hp]. rewrite !follow_label_edge.
  destruct (as_str label) as [l|] eqn:El; [|done]. cbn [option_bind].
  assert (Hlv : l <> VIVARIUM). { intros ->. apply Hl. destruct label; try done. cbn in El. by injection El as ->. }
  rewrite edge_dropped by done. destruct (edge_at nodes current l) as [edge|] eqn:Ee; [|done]. cbn [option_bind].
  destruct (Hedges _ _ _ Ee) as [[_ ?]|He]; [done|]. destruct edge as [| | |next|p|]; try done; cbn [option_bind]; [by apply IHp|].
  destruct (IH p He) as [-> Hx]. destruct (follows_left d nodes root p) as [next|]; [|done]. cbn [option_bind]. apply IHp; [done|by apply Hx].
Qed.
Definition clean_edge (edge : Value) : Prop :=
  match edge with VString s => s <> VIVARIUM | VArray path => VString VIVARIUM ∉ path | _ => True end.
Lemma resolve_dropped edge : clean_edge edge ->
  resolve_edge dropped root edge = resolve_edge nodes root edge /\ (forall x, resolve_edge nodes root edge = Some x -> x <> VIVARIUM).
Proof.
  destruct edge as [|b|n|s|p|f]; intros H; unfold resolve_edge; [by split..| | |by split].
  - split; [done|]. by intros x [= <-].
  - unfold resolve_follows. by apply follows_dropped.
Qed.

Lemma inputs_clean name inputs f : name <> VIVARIUM -> inputs_of nodes name = Some inputs -> NoDup (map fst inputs) -> f ∈ inputs ->
  (name = root /\ fst f = VIVARIUM) \/ clean_edge (snd f).
Proof.
  intros Hn Hi Hnd Hf. destruct Hclean as [_ Hedges]. apply (Hedges name (fst f)). unfold edge_at. rewrite Hi. cbn [option_bind].
  destruct (find_field_in inputs f Hf) as [v Hv]. rewrite Hv. apply find_field_Some in Hv. f_equal.
  apply list_elem_of_lookup in Hf as [i Hf], Hv as [j Hv].
  assert (i = j) as ->; [|rewrite Hf in Hv; destruct f as [k a]; cbn in *; by injection Hv as ->]. eapply NoDup_lookup; [exact Hnd|by rewrite list_lookup_fmap, Hf|by rewrite list_lookup_fmap, Hv].
Qed.
(** serde_json's maps hold each key once. *)
Context (Hkeys : forall name inputs, inputs_of nodes name = Some inputs -> NoDup (map fst inputs)).

Lemma targets_dropped name b : name <> VIVARIUM -> b ∈ targets dropped root name -> b ∈ targets nodes root name /\ b <> VIVARIUM.
Proof.
  intros Hn. unfold targets. rewrite inputs_dropped by done.
  destruct (inputs_of nodes name) as [inputs|] eqn:Ei; [|by destruct (bytes_eqb name root); intros ?%elem_of_nil].
  assert (Hsub : forall l : object, (forall f, f ∈ l -> f ∈ inputs /\ clean_edge (snd f)) -> b ∈ omap (fun f => resolve_edge dropped root (snd f)) l ->
    b ∈ omap (fun f => resolve_edge nodes root (snd f)) inputs /\ b <> VIVARIUM).
  { intros l Hl Hb. apply list_elem_of_omap in Hb as (f & Hf & Hb). destruct (Hl f Hf) as [Hin Hc].
    destruct (resolve_dropped _ Hc) as [Er Hne]. rewrite Er in Hb.
    split; [|exact (Hne b Hb)]. apply list_elem_of_omap. exists f. split; [exact Hin|exact Hb]. }
  destruct (bytes_eqb name root) eqn:En; cbn [option_map]; apply Hsub; intros f Hf.
  - unfold remove_field in Hf. apply list_elem_of_In, List.filter_In in Hf as [Hf%list_elem_of_In Hk].
    split; [done|]. destruct (inputs_clean name inputs f Hn Ei (Hkeys _ _ Ei) Hf) as [[_ Hv]|]; [|done]. by rewrite Hv, bytes_eqb_same in Hk.
  - split; [done|]. destruct (inputs_clean name inputs f Hn Ei (Hkeys _ _ Ei) Hf) as [[-> _]|]; [by rewrite bytes_eqb_same in En|done].
Qed.
Lemma kept_not_retired x : x ∈ kept -> x <> VIVARIUM.
Proof.
  unfold kept. rewrite (proj2 (reachable_from_spec dropped root root)). destruct Hclean as [Hroot _].
  induction 1 as [|a b _ IH Hb]; [done|]. by destruct (targets_dropped a b IH Hb).
Qed.
Lemma kept_closed a b : a ∈ kept -> b ∈ targets dropped root a -> b ∈ kept.
Proof. unfold kept. rewrite !(proj2 (reachable_from_spec dropped root root)). apply reach_edge. Qed.
Lemma root_kept : root ∈ kept.
Proof. unfold kept. rewrite (proj2 (reachable_from_spec dropped root root)). constructor. Qed.

Lemma find_survivors x : find_field survivors x = if bool_decide (x ∈ kept) then find_field dropped x else None.
Proof. exact (find_field_filter dropped (fun n => bool_decide (n ∈ kept)) x). Qed.
Lemma inputs_survivors x : x ∈ kept -> inputs_of survivors x = inputs_of dropped x.
Proof. intros Hx. unfold inputs_of. by rewrite find_survivors, bool_decide_true. Qed.
Lemma follows_survivors d path : (d <= 33)%nat -> follows_left d survivors root path = follows_left d dropped root path.
Proof.
  revert path. induction d as [|d IH]; intros path Hd; [done|]. cbn [follows_left].
  assert (Hgo : forall current, current ∈ kept ->
    follow_path survivors (follows_left d survivors root) current path = follow_path dropped (follows_left d dropped root) current path);
    [|by apply Hgo, root_kept].
  induction path as [|label path IHp]; intros current Hc; cbn [follow_path]; [done|]. rewrite !follow_label_edge.
  destruct (as_str label) as [l|]; [|done]. cbn [option_bind]. unfold edge_at. rewrite inputs_survivors by done.
  destruct (inputs_of dropped current) as [inputs|] eqn:Ei; [|done]. cbn [option_bind].
  destruct (find_field inputs l) as [edge|] eqn:Ee; [|done]. cbn [option_bind]. apply find_field_Some in Ee.
  assert (Hnext : forall next, resolve_edge dropped root edge = Some next -> next ∈ kept).
  { intros next Hn. eapply kept_closed; [exact Hc|]. unfold targets. rewrite Ei. apply list_elem_of_omap. by exists (l, edge). }
  destruct edge as [| | |next|p|]; try done; cbn [option_bind]; [by apply IHp, Hnext|].
  rewrite IH by lia. destruct (follows_left d dropped root p) as [next|] eqn:Ef; [|done]. cbn [option_bind]. apply IHp, Hnext.
  unfold resolve_edge, resolve_follows. eapply follows_more; [|exact Ef]. lia.
Qed.
Lemma resolve_survivors edge : resolve_edge survivors root edge = resolve_edge dropped root edge.
Proof.
  destruct edge as [|b|n|s|p|f]; [reflexivity..| |reflexivity]. unfold resolve_edge, resolve_follows.
  apply follows_survivors. lia.
Qed.
Lemma targets_survivors x : x ∈ kept -> targets survivors root x = targets dropped root x.
Proof.
  intros Hx. unfold targets. rewrite inputs_survivors by exact Hx. destruct (inputs_of dropped x) as [inputs|]; [|reflexivity].
  apply omap_ext_in. intros f _. apply resolve_survivors.
Qed.
Lemma locked_survivors x : x ∈ kept -> locked_of survivors x = locked_of nodes x.
Proof.
  intros Hx. rewrite <- locked_dropped by (by apply kept_not_retired). unfold locked_of. by rewrite find_survivors, bool_decide_true.
Qed.

(** What a kept label reaches is the same in both locks, away from the root. *)
Lemma targets_away x : x <> VIVARIUM -> x <> root -> targets dropped root x = targets nodes root x.
Proof.
  intros Hv Hr. unfold targets. rewrite inputs_dropped by done. rewrite bytes_neqb by done.
  destruct (inputs_of nodes x) as [inputs|] eqn:Ei; [|reflexivity]. pose proof (Hkeys _ _ Ei) as Hnd.
  assert (Hall : forall f, f ∈ inputs -> clean_edge (snd f)).
  { intros f Hf. by destruct (inputs_clean x inputs f Hv Ei Hnd Hf) as [[? _]|]. }
  apply omap_ext_in. intros f Hf. destruct (resolve_dropped (snd f)) as [E _]; [by apply Hall|exact E].
Qed.
Lemma reach_survivors label x :
  label ∈ kept -> ~ reach nodes root label root -> reach survivors root label x <-> reach nodes root label x.
Proof.
  intros Hl Hr. split.
  - enough (reach survivors root label x -> x ∈ kept /\ reach nodes root label x) by tauto.
    induction 1 as [|a b _ [IHk IHr] Hb]; [split; [done|constructor]|]. rewrite targets_survivors in Hb by done.
    split; [by eapply kept_closed|]. eapply reach_edge; [exact IHr|]. rewrite <- targets_away; [done|by apply kept_not_retired|]. by intros ->.
  - enough (reach nodes root label x -> x ∈ kept /\ reach survivors root label x) by tauto.
    induction 1 as [|a b Ha [IHk IHr] Hb]; [split; [done|constructor]|].
    rewrite <- targets_away in Hb; [|by apply kept_not_retired|by intros ->].
    split; [by eapply kept_closed|]. eapply reach_edge; [exact IHr|]. by rewrite targets_survivors.
Qed.
End shed.

(** Shedding the retired node moves no pin. For a lock in which only the root's own edge leads to it: the root keeps
    every other input, each still resolves to the same node, with the same reported pin; and, where that input's own
    subtree does not lead back to the root, with the same fingerprint of everything it reaches. The retired node itself
    is gone, so a lock that was shed has nothing left to shed. *)
Theorem shed_moves_no_pin (to_string : Value -> bytes) (nodes : object) (root : bytes) (inputs : object) (name : bytes) (edge : Value)
    (Hclean : retired_at_root_only nodes root)
    (Hkeys : forall n i, inputs_of nodes n = Some i -> NoDup (map fst i))
    (Hinputs : inputs_of nodes root = Some inputs) (Hedge : find_field inputs name = Some edge) (Hname : name <> VIVARIUM) :
  let survivors := shed_nodes root nodes in
  find_field survivors VIVARIUM = None /\
  inputs_of survivors root = Some (remove_field inputs VIVARIUM) /\ find_field (remove_field inputs VIVARIUM) name = Some edge /\
  resolve_edge survivors root edge = resolve_edge nodes root edge /\
  display (root_pin to_string survivors root edge) = display (root_pin to_string nodes root edge) /\
  ((forall label, resolve_edge nodes root edge = Some label -> ~ reach nodes root label root) ->
     root_pin to_string survivors root edge = root_pin to_string nodes root edge).
Proof.
  cbv zeta. pose proof Hclean as [Hroot Hedges].
  assert (Hce : clean_edge edge).
  { destruct (Hedges root name edge) as [[_ ?]|]; [unfold edge_at; by rewrite Hinputs|done|done]. }
  destruct (resolve_dropped nodes root Hclean edge Hce) as [Er Hne].
  assert (Es : resolve_edge (shed_nodes root nodes) root edge = resolve_edge nodes root edge) by (rewrite (resolve_survivors nodes root); exact Er).
  assert (Hi : inputs_of (shed_nodes root nodes) root = Some (remove_field inputs VIVARIUM)).
  { rewrite (inputs_survivors nodes root) by apply root_kept. rewrite inputs_dropped by done. by rewrite bytes_eqb_same, Hinputs. }
  assert (Hf : find_field (remove_field inputs VIVARIUM) name = Some edge) by (rewrite find_field_remove, bytes_neqb by done; exact Hedge).
  assert (Hkept : forall label, resolve_edge nodes root edge = Some label -> label ∈ reachable_from (dropped_nodes root nodes) root root).
  { intros label Hl. eapply kept_closed; [apply root_kept|]. unfold targets. rewrite inputs_dropped by done. rewrite bytes_eqb_same, Hinputs.
    cbn [option_map]. apply list_elem_of_omap. exists (name, edge). split; [by apply find_field_Some|]. cbn [snd]. by rewrite Er. }
  assert (Hd : display (root_pin to_string (shed_nodes root nodes) root edge) = display (root_pin to_string nodes root edge)).
  { unfold root_pin. rewrite Es. cbn [display]. destruct (resolve_edge nodes root edge) as [label|]; [|reflexivity]. cbn [option_bind].
    rewrite (locked_survivors nodes root Hclean Hkeys) by (by apply Hkept). reflexivity. }
  split; [|split; [exact Hi|split; [exact Hf|split; [exact Es|split; [exact Hd|]]]]].
  - assert (En : find_field (dropped_nodes root nodes) VIVARIUM = None) by (unfold dropped_nodes; by rewrite find_field_remove, bytes_eqb_same).
    rewrite (find_survivors nodes root), En. by destruct (bool_decide _).
  - intros Haway. unfold root_pin in *. rewrite Es in *. cbn [display] in Hd. f_equal; [exact Hd|].
    destruct (resolve_edge nodes root edge) as [label|]; [|reflexivity]. specialize (Hkept label eq_refl). specialize (Haway label eq_refl).
    destruct (reachable_from_spec (shed_nodes root nodes) root label) as [Ha1 Hr1]. destruct (reachable_from_spec nodes root label) as [Ha2 Hr2].
    assert (El : reachable_from (shed_nodes root nodes) root label = reachable_from nodes root label).
    { apply ascending_ext; [exact Ha1|exact Ha2|]. intros x. rewrite Hr1, Hr2. by apply (reach_survivors nodes root Hclean Hkeys). }
    assert (Hin : forall x, x ∈ reachable_from nodes root label -> x ∈ reachable_from (dropped_nodes root nodes) root root).
    { intros x Hx. apply Hr2 in Hx. induction Hx as [|a b Hab IH Hb]; [exact Hkept|].
      apply (kept_closed nodes root a b IH). rewrite targets_away; [exact Hb|done|done|by eapply kept_not_retired|by intros ->]. }
    unfold subtree. rewrite El. rewrite !flat_map_concat_map. f_equal. apply map_ext_in. intros x Hx%list_elem_of_In.
    rewrite (locked_survivors nodes root Hclean Hkeys x) by (by apply Hin). reflexivity.
Qed.

(** Shedding drops a node something else still needs. The retired node is removed by its name, not by who reaches it:
    when a node that is kept has an edge of its own to a node of that name, the edge stays and the node is gone, so the
    migrated lock has an input that resolves to nothing. *)
Theorem shed_drops_a_shared_node (nodes : object) (root name label : bytes)
    (Hkept : name ∈ reachable_from (dropped_nodes root nodes) root root) (Hname : name <> VIVARIUM) (Hroot : name <> root)
    (Hedge : edge_at nodes name label = Some (VString VIVARIUM)) :
  edge_at (shed_nodes root nodes) name label = Some (VString VIVARIUM) /\ find_field (shed_nodes root nodes) VIVARIUM = None /\
  VIVARIUM ∈ reachable_from (dropped_nodes root nodes) root root.
Proof.
  assert (Hi : inputs_of (shed_nodes root nodes) name = inputs_of nodes name).
  { rewrite (inputs_survivors nodes root) by exact Hkept. rewrite inputs_dropped by done. by rewrite bytes_neqb. }
  assert (En : find_field (dropped_nodes root nodes) VIVARIUM = None) by (unfold dropped_nodes; by rewrite find_field_remove, bytes_eqb_same).
  split; [unfold edge_at in *; by rewrite Hi|]. split.
  - rewrite (find_survivors nodes root), En. by destruct (bool_decide _).
  - eapply kept_closed; [exact Hkept|]. unfold targets. unfold edge_at in Hedge. rewrite inputs_dropped by done. rewrite bytes_neqb by done.
    destruct (inputs_of nodes name) as [inputs|]; [|done]. cbn [option_bind] in Hedge. apply list_elem_of_omap.
    exists (label, VString VIVARIUM). split; [by apply find_field_Some|reflexivity].
Qed.

(* ------------------------------------------------------------------ *)
(** ** Witnesses *)

Definition node_ (inputs : object) (rev : string) : Value := VObject [(bs "inputs", VObject inputs); (bs "locked", VObject [(bs "rev", VString (bs rev))])].
Definition lock_sample : object :=
  [(bs "a", node_ [(bs "n", VArray [VString (bs "nixpkgs")])] "ra"); (bs "nixpkgs", node_ [] "rn");
   (bs "root", node_ [(bs "a", VString (bs "a")); (bs "nixpkgs", VString (bs "nixpkgs")); (bs "vivarium", VString (bs "vivarium"))] "r");
   (bs "utils", node_ [] "ru"); (bs "vivarium", node_ [(bs "utils", VString (bs "utils"))] "rv")].
Lemma inputs_in nodes n i : inputs_of nodes n = Some i -> exists v, (n, v) ∈ nodes /\ (let* x := vget v INPUTS in as_object x) = Some i.
Proof. unfold inputs_of. destruct (find_field nodes n) as [v|] eqn:E; [|done]. intros H. exists v. split; [by apply find_field_Some|exact H]. Qed.
Ltac in_cases H := repeat (apply elem_of_cons in H as [H|H]; [|]); [..|by apply elem_of_nil in H].
Lemma lock_sample_keys n i : inputs_of lock_sample n = Some i -> NoDup (map fst i).
Proof.
  intros (v & Hin & Hi)%inputs_in. unfold lock_sample in Hin.
  in_cases Hin; injection Hin as -> ->; vm_compute in Hi; injection Hi as <-; apply (bool_decide_unpack _); vm_compute; exact I.
Qed.
Lemma lock_sample_clean : retired_at_root_only lock_sample (bs "root").
Proof.
  split; [discriminate|]. intros n l e He. unfold edge_at in He. destruct (inputs_of lock_sample n) as [i|] eqn:Ei; [|done]. cbn [option_bind] in He.
  apply inputs_in in Ei as (v & Hin & Hi). apply find_field_Some in He. unfold lock_sample in Hin.
  in_cases Hin; injection Hin as -> ->; vm_compute in Hi; injection Hi as <-; in_cases He; injection He as -> ->;
    first [left; split; reflexivity | right; cbv beta iota; first [discriminate | let Hc := fresh in intros Hc; in_cases Hc; discriminate Hc]].
Qed.
Lemma shed_moves_no_pin_witness :
  root_pin (fun _ => []) (shed_nodes (bs "root") lock_sample) (bs "root") (VString (bs "a")) = mk_RootPin (Some (bs "ra")) (bs "a=;nixpkgs=;") /\
  display (root_pin (fun _ => []) (shed_nodes (bs "root") lock_sample) (bs "root") (VString (bs "a"))) =
  display (root_pin (fun _ => []) lock_sample (bs "root") (VString (bs "a"))).
Proof.
  split; [vm_compute; reflexivity|].
  destruct (shed_moves_no_pin (fun _ => []) lock_sample (bs "root")
    [(bs "a", VString (bs "a")); (bs "nixpkgs", VString (bs "nixpkgs")); (bs "vivarium", VString (bs "vivarium"))] (bs "a") (VString (bs "a"))
    lock_sample_clean lock_sample_keys) as (_ & _ & _ & _ & H & _); [vm_compute; reflexivity..|discriminate|exact H].
Defined.
Definition lock_shared : object :=
  [(bs "a", node_ [(bs "vivarium", VString (bs "vivarium"))] "ra"); (bs "root", node_ [(bs "a", VString (bs "a")); (bs "vivarium", VString (bs "vivarium"))] "r");
   (bs "vivarium", node_ [] "rv")].
Lemma shed_drops_a_shared_node_witness :
  edge_at (shed_nodes (bs "root") lock_shared) (bs "a") (bs "vivarium") = Some (VString (bs "vivarium")) /\
  find_field (shed_nodes (bs "root") lock_shared) (bs "vivarium") = None.
Proof.
  destruct (shed_drops_a_shared_node lock_shared (bs "root") (bs "a") (bs "vivarium")) as (H1 & H2 & _);
    [apply (bool_decide_unpack _); vm_compute; exact I|discriminate|discriminate|vm_compute; reflexivity|]. split; [exact H1|exact H2].
Defined.
