(* ===== verification/Merged.v ===== *)
(** * Merged: what one evaluation report means (src/src/config/merged.rs, the report of src/src/config/evaluate.rs)

    The effective value of every tracked key with its provenance, the content defects and the irreconcilable merges, and
    the configuration rendered in the manifest's own shape.  The theorems are the second half. *)
From S2P Require Import Prelude Bytes Paths Ordered Json Mounts.

(** ** The report *)

Inductive KeyClass := Scalar | ListClass.
#[global] Instance KeyClass_eq_dec : EqDecision KeyClass.
Proof. solve_decision. Defined.
Inductive LayerKind := LK_Image | LK_Piece | LK_Extends | LK_Manifest.
Definition is_shared (k : LayerKind) : bool := match k with LK_Manifest => false | _ => true end.
Record Definition_ := mk_Definition { prio : Z; def_value : Value }.
Record KeyReport := mk_KeyReport { kr_class : KeyClass; kr_ok : bool; kr_value : Value }.
Record LayerReport := mk_LayerReport { layer_name : bytes; layer_kind : LayerKind; defines : list (bytes * Definition_) }.
(** The keys are a [BTreeMap]'s entries, in order. *)
Record Report := mk_Report { keys : list (bytes * KeyReport); layers : list LayerReport }.
Inductive Priority := MkForce | NormalPriority | MkDefault.
Definition priority_label (d : Definition_) : Priority :=
  if prio d <? 100 then MkForce else if prio d <=? 100 then NormalPriority else MkDefault.

(** ** Provenance *)

Record Contributor := mk_Contributor { c_layer : bytes; c_kind : LayerKind; c_priority : Priority; c_value : Value; c_winner : bool }.
Record KeyView := mk_KeyView {
  kv_key : bytes; kv_class : KeyClass; kv_effective : option Value; kv_winner : option bytes; kv_contributors : list Contributor }.
Inductive ConflictKind := Tie | LiteralPath | SessionPath | NonPortableVariable.
Record Conflict := mk_Conflict { cf_kind : ConflictKind; cf_key : bytes; cf_layers : list bytes; cf_evidence : list bytes }.
(** What an irreconcilable merge names: a volume at two mountpoints, or a target mounted twice. *)
Inductive Irreconcilable := VolumeAtTwo (name other mount : bytes) | TargetTwice (target : bytes).
Record Analysis := mk_Analysis { values : list KeyView; conflicts : list Conflict; irreconcilable : list Irreconcilable }.
Definition is_defective (a : Analysis) : bool :=
  negb (length (conflicts a) =? 0)%nat || negb (length (irreconcilable a) =? 0)%nat.

Definition definition_of : Type := (bytes * LayerKind * Definition_)%type.
Definition contributors_of (r : Report) (key : bytes) : list definition_of :=
  omap (fun l => let* d := find_field (defines l) key in Some (layer_name l, layer_kind l, d)) (layers r).
Definition min_prio (ds : list definition_of) : option Z :=
  match ds with [] => None | d :: ds => Some (fold_left (fun m d => Z.min m (prio (snd d))) ds (prio (snd d))) end.
(** [windows(2).all(|pair| pair[0] == pair[1])]. *)
Fixpoint all_agree (vs : list Value) : bool :=
  match vs with
  | a :: ((b :: _) as vs') => bool_decide (a = b) && all_agree vs'
  | _ => true
  end.
Definition tie_layers (entry : KeyReport) (ds : list definition_of) : list bytes :=
  if negb (bool_decide (kr_class entry = Scalar)) || (length ds <? 2)%nat then []
  else match min_prio ds with
       | None => []
       | Some highest =>
           let surviving := List.filter (fun d => prio (snd d) =? highest) ds in
           if (length surviving <? 2)%nat || all_agree (map (fun d => def_value (snd d)) surviving) then []
           else map (fun d => fst (fst d)) surviving
       end.
(** [min_by_key]: the first of the least. *)
Fixpoint first_least (best : definition_of) (ds : list definition_of) : definition_of :=
  match ds with [] => best | d :: ds => first_least (if prio (snd d) <? prio (snd best) then d else best) ds end.
Definition winner_of (ds : list definition_of) : option bytes :=
  match ds with [] => None | d :: ds => Some (fst (fst (first_least d ds))) end.
Definition view_of (key : bytes) (entry : KeyReport) (ds : list definition_of) (tied : bool) : KeyView :=
  let defective := tied || negb (kr_ok entry) in
  let winner := if defective || bool_decide (kr_class entry = ListClass) then None else winner_of ds in
  mk_KeyView key (kr_class entry) (if defective then None else Some (kr_value entry)) winner
    (map (fun d => mk_Contributor (fst (fst d)) (snd (fst d)) (priority_label (snd d)) (def_value (snd d))
                     (bool_decide (winner = Some (fst (fst d))))) ds).

(** ** The conflicts *)

Definition array_items (v : Value) : list Value := default [] (as_array v).
Definition string_field (v : Value) (key : bytes) : option bytes := let* x := vget v key in as_str x.
Definition offending (flagged : bytes -> bool) (d : Definition_) : list bytes :=
  List.filter flagged (omap (fun v => string_field v (bs "source")) (array_items (def_value d))).
(** The layers with an offending source, each with its offences. *)
Definition offences (r : Report) (key : bytes) (shared_only : bool) (flagged : bytes -> bool) : list (bytes * list bytes) :=
  omap (fun l =>
    if shared_only && negb (is_shared (layer_kind l)) then None
    else let* d := find_field (defines l) key in
         match offending flagged d with [] => None | es => Some (layer_name l, es) end) (layers r).
Definition source_conflicts (r : Report) (key : bytes) (kind : ConflictKind) (shared_only : bool) (flagged : bytes -> bool) : list Conflict :=
  match offences r key shared_only flagged with
  | [] => []
  | os => [mk_Conflict kind key (map fst os) (concat (map snd os))]
  end.

Definition PERSONAL_PREFIXES : list bytes := [bs "/home/"; bs "/Users/"; bs "/root/"].
Definition is_personal_path (value : bytes) : bool := existsb (fun prefix => starts_with prefix value) PERSONAL_PREFIXES.
Definition one_of (value : bytes) (l : list bytes) : bool := existsb (bytes_eqb value) l.
Definition is_session_path (value : bytes) : bool :=
  one_of value [bs "/"; bs "/var"; bs "/run"] || starts_with (bs "${XDG_RUNTIME_DIR}") value ||
  existsb (fun root => bytes_eqb value root ||
    match strip_prefix root value with Some rest => starts_with (bs "/") rest | None => false end)
    [bs "/tmp"; bs "/var/tmp"; bs "/run/user"].
Definition PORTABLE_VARIABLES : list bytes :=
  [bs "HOME"; bs "XDG_CONFIG_HOME"; bs "XDG_DATA_HOME"; bs "XDG_STATE_HOME"; bs "XDG_CACHE_HOME"].
(** Each round leaves a shorter rest. *)
Fixpoint references_fuel (fuel : nat) (rest : bytes) : list bytes :=
  match fuel, find_open rest with
  | S fuel, Some (_, after) =>
      match find_byte "}" after with
      | None => []
      | Some (name, rest) => (if is_variable name then [name] else []) ++ references_fuel fuel rest
      end
  | _, _ => []
  end.
Definition variable_references (source : bytes) : list bytes := references_fuel (length source) source.
Definition is_non_portable (source : bytes) : bool :=
  existsb (fun name => negb (one_of name PORTABLE_VARIABLES)) (variable_references source).

Definition MOUNTS : bytes := bs "mounts".
Definition literal_path_conflicts (r : Report) : list Conflict := source_conflicts r MOUNTS LiteralPath true is_personal_path.
Definition session_path_conflicts (r : Report) : list Conflict := source_conflicts r MOUNTS SessionPath false is_session_path.
Definition non_portable_variable_conflicts (r : Report) : list Conflict := source_conflicts r MOUNTS NonPortableVariable true is_non_portable.

(** ** The irreconcilable merges *)

Definition volume_step (acc : list (bytes * bytes) * list Irreconcilable) (v : Value) : list (bytes * bytes) * list Irreconcilable :=
  let '(seen, found) := acc in
  match string_field v (bs "name"), string_field v (bs "mount") with
  | Some name, Some mount =>
      (seen ++ [(name, mount)],
       match find_field seen name with
       | Some other => if bytes_eqb other mount then found else found ++ [VolumeAtTwo name other mount]
       | None => found
       end)
  | _, _ => acc
  end.
Definition duplicate_volume_mounts (r : Report) : list Irreconcilable :=
  match find_field (keys r) (bs "volumes") with
  | None => []
  | Some entry => snd (fold_left volume_step (array_items (kr_value entry)) ([], []))
  end.
Definition target_step (acc : list bytes * list Irreconcilable) (v : Value) : list bytes * list Irreconcilable :=
  let '(seen, found) := acc in
  match string_field v (bs "target") with
  | Some target => (seen ++ [target], if one_of target seen then found ++ [TargetTwice target] else found)
  | None => acc
  end.
Definition duplicate_mount_targets (r : Report) : list Irreconcilable :=
  match find_field (keys r) MOUNTS with
  | None => []
  | Some entry => snd (fold_left target_step (array_items (kr_value entry)) ([], []))
  end.
Definition irreconcilable_merges (r : Report) : list Irreconcilable := duplicate_volume_mounts r ++ duplicate_mount_targets r.

(** ** [analyze] *)

Definition key_step (r : Report) (acc : list KeyView * list Conflict) (k : bytes * KeyReport) : list KeyView * list Conflict :=
  let '(key, entry) := k in
  let ds := contributors_of r key in
  let tie := tie_layers entry ds in
  let tied := negb (length tie =? 0)%nat in
  (fst acc ++ [view_of key entry ds tied], if tied then snd acc ++ [mk_Conflict Tie key tie []] else snd acc).
Definition analyze (r : Report) : Analysis :=
  let '(vs, ties) := fold_left (key_step r) (keys r) ([], []) in
  mk_Analysis vs
    (ties ++ literal_path_conflicts r ++ session_path_conflicts r ++ non_portable_variable_conflicts r)
    (irreconcilable_merges r).

(** ** The rendered configuration *)

Definition split_key (key : bytes) : list bytes := split_on "."%byte key.
(** [insert_at]; [None] is its [unreachable!]. *)
Fixpoint insert_path (segments : list bytes) (v : Value) (o : object) : option object :=
  match segments with
  | [] => Some o
  | [segment] => Some (map_insert segment v o)
  | segment :: rest =>
      let* inner := as_object (default (VObject []) (find_field o segment)) in
      let* inner := insert_path rest v inner in
      Some (map_insert segment (VObject inner) o)
  end.
Definition insert_at (root : object) (key : bytes) (v : Value) : option object := insert_path (split_key key) v root.
Fixpoint insert_views (vs : list KeyView) (root : object) : option object :=
  match vs with
  | [] => Some root
  | view :: vs => let* root := insert_at root (kv_key view) (default VNull (kv_effective view)) in insert_views vs root
  end.
Definition configuration (a : Analysis) : option Value := let* root := insert_views (values a) [] in Some (VObject root).
(** What a dotted key names in a configuration. *)
Fixpoint value_at (segments : list bytes) (v : Value) : option Value :=
  match segments with
  | [] => Some v
  | segment :: rest => let* inner := vget v segment in value_at rest inner
  end.
Definition value_of (a : Analysis) (key : bytes) : option KeyView := List.find (fun v => bytes_eqb (kv_key v) key) (values a).
Definition effective (a : Analysis) (key : bytes) : option Value := let* v := value_of a key in kv_effective v.
(** [with_manifest_workspaces]. *)
Definition with_manifest_workspaces (a : Analysis) (sources : list bytes) (manifest_name : bytes) : Analysis :=
  match sources with
  | [] => a
  | _ =>
      let rows := VArray (map (fun s => VObject [(bs "source", VString s)]) sources) in
      mk_Analysis (values a ++ [mk_KeyView (bs "workspaces") ListClass (Some rows) None
                                  [mk_Contributor manifest_name LK_Manifest NormalPriority rows false]])
        (conflicts a) (irreconcilable a)
  end.

(* ------------------------------------------------------------------ *)
(** * The defects are exactly the ones described, and the rendering loses nothing *)

(* ------------------------------------------------------------------ *)
(** ** Ties *)

Lemma all_agree_spec vs : all_agree vs = true <-> forall a b, a ∈ vs -> b ∈ vs -> a = b.
Proof.
  induction vs as [|a vs IH]; [split; [by intros _ ? ? ?%elem_of_nil|done]|]. destruct vs as [|b vs].
  - split; [|done]. intros _ x y ->%list_elem_of_singleton ->%list_elem_of_singleton. done.
  - change (all_agree (a :: b :: vs)) with (bool_decide (a = b) && all_agree (b :: vs)).
    rewrite andb_true_iff, bool_decide_eq_true, IH. split.
    + intros [-> H] x y [->|Hx]%elem_of_cons [->|Hy]%elem_of_cons; [done|by apply H; [left|]|by apply H; [|left]|by apply H].
    + intros H. split; [apply H; [left|right; left]|]. intros x y Hx Hy. apply H; by right.
Qed.
Lemma min_prio_spec ds m : min_prio ds = Some m -> (exists d, d ∈ ds /\ prio (snd d) = m) /\ forall d, d ∈ ds -> m <= prio (snd d).
Proof.
  destruct ds as [|d ds]; [done|]. cbn [min_prio]. intros [= <-].
  assert (H : forall (l : list definition_of) acc, (fold_left (fun m d => Z.min m (prio (snd d))) l acc <= acc) /\
    (forall x, x ∈ l -> fold_left (fun m d => Z.min m (prio (snd d))) l acc <= prio (snd x)) /\
    (fold_left (fun m d => Z.min m (prio (snd d))) l acc = acc \/ exists x, x ∈ l /\ prio (snd x) = fold_left (fun m d => Z.min m (prio (snd d))) l acc)).
  { clear. induction l as [|y l IH]; intros acc; cbn [fold_left]; [split; [lia|split; [by intros x ?%elem_of_nil|by left]]|].
    destruct (IH (Z.min acc (prio (snd y)))) as (H1 & H2 & H3). split; [lia|]. split.
    - intros x [->|Hx]%elem_of_cons; [lia|by apply H2].
    - destruct H3 as [H3|(x & Hx & H3)]; [|right; exists x; split; [by right|done]]. rewrite H3.
      destruct (Z.min_spec acc (prio (snd y))) as [[_ ->]|[_ ->]]; [by left|right; exists y; split; [by left|done]]. }
  destruct (H ds (prio (snd d))) as (H1 & H2 & H3). split.
  - destruct H3 as [->|(x & Hx & E)]; [exists d; split; [by left|done]|exists x; split; [by right|done]].
  - intros x [->|Hx]%elem_of_cons; [lia|by apply H2].
Qed.
(** Two definitions that no rule separates. *)
Definition tied_pair (ds : list definition_of) (a b : definition_of) : Prop :=
  a ∈ ds /\ b ∈ ds /\ def_value (snd a) <> def_value (snd b) /\
  prio (snd a) = prio (snd b) /\ forall d, d ∈ ds -> prio (snd a) <= prio (snd d).

(** What [tie_layers] reports. *)
Lemma tie_is_a_disagreement' (entry : KeyReport) (ds : list definition_of) :
  (tie_layers entry ds <> [] <-> kr_class entry = Scalar /\ exists a b, tied_pair ds a b) /\
  (forall name, name ∈ tie_layers entry ds -> exists d, d ∈ ds /\ fst (fst d) = name /\ forall d', d' ∈ ds -> prio (snd d) <= prio (snd d')).
Proof.
  unfold tie_layers. case_bool_decide as Hc; cbn [negb orb]; [|split; [split; [intros H; by destruct H|by intros [? _]]|by intros ? ?%elem_of_nil]].
  destruct (Nat.ltb_spec (length ds) 2) as [Hl|Hl].
  { split; [|by intros ? ?%elem_of_nil]. split; [intros H; by destruct H|]. intros (_ & a & b & Ha & Hb & Hne & _). exfalso.
    destruct ds as [|d [|? ?]]; [by apply elem_of_nil in Ha| |cbn in Hl; lia].
    apply list_elem_of_singleton in Ha, Hb. by subst. }
  destruct (min_prio ds) as [m|] eqn:Em; [|destruct ds; [cbn in Hl; lia|done]].
  destruct (min_prio_spec _ _ Em) as [(d0 & Hd0 & Ed0) Hmin].
  set (surviving := List.filter (fun d => prio (snd d) =? m) ds).
  assert (Hs : forall d, d ∈ surviving <-> d ∈ ds /\ prio (snd d) = m).
  { intros d. unfold surviving. rewrite list_elem_of_In, List.filter_In, <- list_elem_of_In, Z.eqb_eq. done. }
  assert (Hpair : (exists a b, tied_pair ds a b) <-> all_agree (map (fun d => def_value (snd d)) surviving) = false).
  { rewrite <- not_true_iff_false, all_agree_spec. split.
    - intros (a & b & Ha & Hb & Hne & Hp & Hle) H. apply Hne. assert (prio (snd a) = m) by (specialize (Hle d0 Hd0); specialize (Hmin a Ha); lia).
      apply H; apply list_elem_of_In, in_map_iff; [exists a|exists b]; (split; [done|]); apply list_elem_of_In, Hs; (split; [done|congruence]).
    - intros H. destruct (decide (Exists (fun a => Exists (fun b => def_value (snd a) <> def_value (snd b)) surviving) surviving)) as [He|He].
      + apply Exists_exists in He as (a & Ha & He). apply Exists_exists in He as (b & Hb & He). apply Hs in Ha as [Ha Ea], Hb as [Hb Eb].
        exists a, b. split_and!; [done..|congruence|]. intros d Hd. rewrite Ea. by apply Hmin.
      + exfalso. apply H. intros x y Hx Hy. apply list_elem_of_In, in_map_iff in Hx as (a & <- & Ha%list_elem_of_In), Hy as (b & <- & Hb%list_elem_of_In).
        destruct (decide (def_value (snd a) = def_value (snd b))) as [|Hne]; [done|]. exfalso. apply He.
        apply Exists_exists. exists a. split; [done|]. apply Exists_exists. by exists b. }
  destruct (Nat.ltb_spec (length surviving) 2) as [Hsl|Hsl]; cbn [orb].
  { split; [|by intros ? ?%elem_of_nil]. split; [intros H; by destruct H|]. intros [_ Hp]. apply Hpair in Hp. exfalso.
    destruct surviving as [|d [|? ?]]; [done..|cbn in Hsl; lia]. }
  destruct (all_agree _) eqn:Ea.
  - split; [|by intros ? ?%elem_of_nil]. split; [intros H; by destruct H|]. intros [_ Hp]. by apply Hpair in Hp.
  - split.
    + split; [intros _; split; [done|by apply Hpair]|]. intros _. destruct surviving; [cbn in Hsl; lia|done].
    + intros name Hn. apply list_elem_of_In, in_map_iff in Hn as (d & <- & Hd%list_elem_of_In). apply Hs in Hd as [Hd Ed].
      exists d. split; [done|]. split; [done|]. intros d' Hd'. rewrite Ed. by apply Hmin.
Qed.
(** A tie is exactly two strongest definitions that disagree. A key is reported tied when, and only when, it resolves by
    priority and two of its definitions hold the strongest priority with different values: never for a list, never when the
    strongest definitions agree, whatever weaker ones say; and the layers named are those of the strongest definitions. *)
Theorem tie_is_a_disagreement (entry : KeyReport) (ds : list definition_of) :
  (tie_layers entry ds <> [] <-> kr_class entry = Scalar /\ exists a b, tied_pair ds a b) /\
  (forall name, name ∈ tie_layers entry ds -> exists d, d ∈ ds /\ fst (fst d) = name /\ forall d', d' ∈ ds -> prio (snd d) <= prio (snd d')).
Proof. apply tie_is_a_disagreement'. Qed.

(* ------------------------------------------------------------------ *)
(** ** The refusal *)

(** A layer the rule binds mounts a flagged source. *)
Definition mounts_flagged (r : Report) (shared_only : bool) (flagged : bytes -> bool) : Prop :=
  exists l d v source, l ∈ layers r /\ (shared_only = true -> is_shared (layer_kind l) = true) /\ find_field (defines l) MOUNTS = Some d /\
    v ∈ array_items (def_value d) /\ string_field v (bs "source") = Some source /\ flagged source = true.
Lemma offending_nil flagged d : offending flagged d = [] <-> forall v s, v ∈ array_items (def_value d) -> string_field v (bs "source") = Some s -> flagged s = false.
Proof.
  unfold offending. split.
  - intros H v s Hv Hs. apply not_true_iff_false. intros Hf.
    assert (Hin : s ∈ List.filter flagged (omap (fun v => string_field v (bs "source")) (array_items (def_value d)))).
    { apply list_elem_of_In, List.filter_In. split; [|done]. apply list_elem_of_In, list_elem_of_omap. by exists v. }
    rewrite H in Hin. by apply elem_of_nil in Hin.
  - intros H. destruct (List.filter _ _) as [|s l] eqn:E; [done|]. exfalso.
    assert (Hin : s ∈ s :: l) by left. rewrite <- E in Hin. apply list_elem_of_In, List.filter_In in Hin as [Hin%list_elem_of_In Hf].
    apply list_elem_of_omap in Hin as (v & Hv & Hs). by rewrite (H v s Hv Hs) in Hf.
Qed.
Lemma source_conflicts_spec r kind shared_only flagged :
  source_conflicts r MOUNTS kind shared_only flagged <> [] <-> mounts_flagged r shared_only flagged.
Proof.
  unfold source_conflicts. transitivity (offences r MOUNTS shared_only flagged <> []).
  { destruct (offences _ _ _ _); [done|]. by split. }
  unfold offences. split.
  - intros H. destruct (omap _ (layers r)) as [|o os] eqn:E; [done|]. assert (Hin : o ∈ o :: os) by left. rewrite <- E in Hin.
    apply list_elem_of_omap in Hin as (l & Hl & Ho). destruct (shared_only && negb (is_shared (layer_kind l))) eqn:Es; [done|].
    destruct (find_field (defines l) MOUNTS) as [d|] eqn:Ed; [|done]. cbn [option_bind] in Ho. destruct (offending flagged d) as [|s es] eqn:Eo; [done|].
    assert (Hs : s ∈ offending flagged d) by (rewrite Eo; left). unfold offending in Hs. apply list_elem_of_In, List.filter_In in Hs as [Hs%list_elem_of_In Hf].
    apply list_elem_of_omap in Hs as (v & Hv & Hs). exists l, d, v, s. split_and!; try done. intros ->. cbn in Es. by apply negb_false_iff.
  - intros (l & d & v & s & Hl & Hsh & Hd & Hv & Hs & Hf) E.
    assert (Hne : offending flagged d <> []).
    { intros Hn. by rewrite (proj1 (offending_nil flagged d) Hn v s Hv Hs) in Hf. }
    destruct (offending flagged d) as [|e es] eqn:Eo; [done|].
    assert (Hin : (layer_name l, e :: es) ∈ omap (fun l0 : LayerReport => if shared_only && negb (is_shared (layer_kind l0)) then None
      else let* d := find_field (defines l0) MOUNTS in match offending flagged d with [] => None | es => Some (layer_name l0, es) end) (layers r)).
    { apply list_elem_of_omap. exists l. split; [done|]. destruct shared_only; [rewrite Hsh by done|]; cbn [andb negb]; rewrite Hd; cbn [option_bind]; by rewrite Eo. }
    rewrite E in Hin. by apply elem_of_nil in Hin.
Qed.

(** Two volumes of one name at two mountpoints, and two mounts of one target. *)
Definition named_mount (v : Value) : option (bytes * bytes) :=
  let* name := string_field v (bs "name") in let* mount := string_field v (bs "mount") in Some (name, mount).
Definition split_volume (items : list Value) : Prop :=
  exists name m1 m2, (name, m1) ∈ omap named_mount items /\ (name, m2) ∈ omap named_mount items /\ m1 <> m2.
Definition repeated_target (items : list Value) : Prop := ~ NoDup (omap (fun v => string_field v (bs "target")) items).

Lemma volume_step_named seen found v :
  volume_step (seen, found) v =
  match named_mount v with
  | Some (name, mount) =>
      (seen ++ [(name, mount)],
       match find_field seen name with
       | Some other => if bytes_eqb other mount then found else found ++ [VolumeAtTwo name other mount]
       | None => found
       end)
  | None => (seen, found)
  end.
Proof. unfold volume_step, named_mount. destruct (string_field v (bs "name")); [|done]. by destruct (string_field v (bs "mount")). Qed.
Lemma volume_fold items seen found :
  fold_left volume_step items (seen, found) =
    (seen ++ omap named_mount items, snd (fold_left volume_step items (seen, found))) /\
  (snd (fold_left volume_step items (seen, found)) = [] <->
     found = [] /\ forall pre name mount post other, omap named_mount items = pre ++ (name, mount) :: post ->
       find_field (seen ++ pre) name = Some other -> other = mount).
Proof.
  revert seen found. induction items as [|v items IH]; intros seen found; cbn [fold_left].
  - cbn. rewrite app_nil_r. split; [done|]. split; [intros ->; split; [done|by intros []]|by intros [-> _]].
  - change (omap named_mount (v :: items)) with (match named_mount v with Some x => x :: omap named_mount items | None => omap named_mount items end).
    rewrite !volume_step_named. destruct (named_mount v) as [[name mount]|]; [|apply IH].
    set (found' := match find_field seen name with Some other => if bytes_eqb other mount then found else found ++ [VolumeAtTwo name other mount] | None => found end).
    destruct (IH (seen ++ [(name, mount)]) found') as [H1 H2]. split; [rewrite H1 at 1; by rewrite <- app_assoc|].
    rewrite H2. split.
    + intros [Hf Hrest]. assert (Hhead : found = [] /\ forall other, find_field seen name = Some other -> other = mount).
      { unfold found' in Hf. destruct (find_field seen name) as [other|]; [|by split].
        destruct (bytes_eqb other mount) eqn:Eo; [apply bytes_eqb_true in Eo; split; [done|by intros ? [= <-]]|by destruct found]. }
      destruct Hhead as [-> Hh]. split; [done|]. intros pre n m post other E Hfind. destruct pre as [|p pre].
      * injection E as <- <- _. rewrite app_nil_r in Hfind. by apply Hh.
      * injection E as <- E. apply (Hrest pre n m post other E). by rewrite <- app_assoc.
    + intros [-> Hall]. split.
      * unfold found'. destruct (find_field seen name) as [other|] eqn:Ef; [|done].
        rewrite (Hall [] name mount (omap named_mount items) other eq_refl) by (by rewrite app_nil_r). by rewrite bytes_eqb_same.
      * intros pre n m post other E Hfind. apply (Hall ((name, mount) :: pre) n m post other); [by rewrite E|]. by rewrite <- app_assoc in Hfind.
Qed.
Lemma find_field_app {A} (l l' : list (bytes * A)) k : find_field (l ++ l') k = match find_field l k with Some v => Some v | None => find_field l' k end.
Proof. unfold find_field. induction l as [|[k0 v] l IH]; cbn; [done|]. by destruct (bytes_eqb k0 k). Qed.
Lemma duplicate_volume_mounts_spec items : snd (fold_left volume_step items ([], [])) <> [] <-> split_volume items.
Proof.
  destruct (volume_fold items [] []) as [_ H]. set (L := omap named_mount items) in *. unfold split_volume. fold L. rewrite H. clear H.
  assert (Hiff : (([] : list Irreconcilable) = [] /\ forall pre name mount post other, L = pre ++ (name, mount) :: post -> find_field ([] ++ pre) name = Some other -> other = mount) <->
    forall name m1 m2, (name, m1) ∈ L -> (name, m2) ∈ L -> m1 = m2).
  { split.
    - intros [_ H]. assert (Hfirst : forall name m, (name, m) ∈ L -> find_field L name = Some m).
      { intros name m Hin. apply list_elem_of_split in Hin as (pre & post & E). rewrite E, find_field_app.
        destruct (find_field pre name) as [other|] eqn:Ef; [by rewrite (H _ _ _ _ _ E Ef)|]. unfold find_field. cbn. by rewrite bytes_eqb_same. }
      intros name m1 m2 H1%Hfirst H2%Hfirst. congruence.
    - intros H. split; [done|]. intros pre name m post other E Hf%find_field_Some. apply (H name).
      + rewrite E. apply elem_of_app. by left.
      + rewrite E. apply elem_of_app. right. left. }
  rewrite Hiff. clear Hiff. split.
  - intros Hn. destruct (decide (Exists (fun a => Exists (fun b => fst a = fst b /\ snd a <> snd b) L) L)) as [He|He].
    + apply Exists_exists in He as ([n m1] & Ha & He). apply Exists_exists in He as ([n' m2] & Hb & [E Hne]). cbn in *. subst n'. by exists n, m1, m2.
    + exfalso. apply Hn. intros n m1 m2 H1 H2. destruct (decide (m1 = m2)) as [|Hne]; [done|]. exfalso. apply He.
      apply Exists_exists. exists (n, m1). split; [done|]. apply Exists_exists. by exists (n, m2).
  - intros (n & m1 & m2 & H1 & H2 & Hne) H. by apply Hne, (H n).
Qed.
Lemma one_of_spec x l : one_of x l = true <-> x ∈ l.
Proof.
  unfold one_of. rewrite existsb_exists. setoid_rewrite bytes_eqb_true. setoid_rewrite <- list_elem_of_In. split; [by intros (y & ? & ->)|intros; by exists x].
Qed.
Lemma target_fold items seen found :
  snd (fold_left target_step items (seen, found)) = [] <->
  found = [] /\ NoDup (omap (fun v => string_field v (bs "target")) items) /\ forall t, t ∈ omap (fun v => string_field v (bs "target")) items -> t ∉ seen.
Proof.
  revert seen found. induction items as [|v items IH]; intros seen found; cbn [fold_left].
  - cbn. split; [intros ->; split; [done|split; [by apply NoDup_nil_2|by intros ? ?%elem_of_nil]]|by intros [-> _]].
  - change (omap ?f (v :: items)) with (match f v with Some x => x :: omap f items | None => omap f items end). cbv beta.
    unfold target_step at 2. destruct (string_field v (bs "target")) as [t|]; [|apply IH]. rewrite IH, NoDup_cons.
    destruct (one_of t seen) eqn:Eo.
    + apply one_of_spec in Eo. split; [intros [H _]; by destruct found|]. intros (_ & _ & H). exfalso. by apply (H t); [left|].
    + assert (Hn : t ∉ seen) by (intros H%one_of_spec; congruence). split.
      * intros (-> & Hnd & H). split; [done|]. split; [split; [|done]; intros Ht; apply (H t Ht), elem_of_app; right; by left|].
        intros u [->|Hu]%elem_of_cons; [done|]. intros Hs. apply (H u Hu), elem_of_app. by left.
      * intros (-> & [Ht Hnd] & H). split; [done|]. split; [done|]. intros u Hu [Hs|Hs%list_elem_of_singleton]%elem_of_app; [|by subst].
        apply (H u); [by right|done].
Qed.

Definition tied_key (r : Report) : Prop :=
  exists key entry a b, (key, entry) ∈ keys r /\ kr_class entry = Scalar /\ tied_pair (contributors_of r key) a b.
Lemma analyze_conflicts r :
  conflicts (analyze r) =
    concat (map (fun k => let tie := tie_layers (snd k) (contributors_of r (fst k)) in
                          if negb (length tie =? 0)%nat then [mk_Conflict Tie (fst k) tie []] else []) (keys r)) ++
    literal_path_conflicts r ++ session_path_conflicts r ++ non_portable_variable_conflicts r.
Proof.
  unfold analyze. assert (H : forall ks vs ties, snd (fold_left (key_step r) ks (vs, ties)) =
    ties ++ concat (map (fun k => let tie := tie_layers (snd k) (contributors_of r (fst k)) in
      if negb (length tie =? 0)%nat then [mk_Conflict Tie (fst k) tie []] else []) ks)).
  { induction ks as [|[key entry] ks IH]; intros vs ties; cbn [fold_left map concat]; [by rewrite app_nil_r|].
    unfold key_step at 2. cbn [fst snd]. rewrite IH. by destruct (negb _); rewrite <- ?app_assoc. }
  specialize (H (keys r) [] []). destruct (fold_left _ _ _) as [vs ties]. cbn [conflicts snd] in *. by rewrite H.
Qed.

(** C17: [config eval] refuses exactly for a named defect. The analysis of a report is defective if and only if a key is
    tied, or a shared layer mounts a personal path, or any layer, the manifest included, mounts a session path, or a shared
    layer mounts through a variable outside the portable set, or the merged volumes put one name at two mountpoints, or two
    merged mounts share a target; the manifest's own personal paths and private variables never count. *)
Theorem refusal_is_exactly_a_defect (r : Report) :
  is_defective (analyze r) = true <->
  tied_key r \/ mounts_flagged r true is_personal_path \/ mounts_flagged r false is_session_path \/ mounts_flagged r true is_non_portable \/
  (exists entry, find_field (keys r) (bs "volumes") = Some entry /\ split_volume (array_items (kr_value entry))) \/
  (exists entry, find_field (keys r) MOUNTS = Some entry /\ repeated_target (array_items (kr_value entry))).
Proof.
  assert (Hd : is_defective (analyze r) = true <-> conflicts (analyze r) <> [] \/ irreconcilable (analyze r) <> []).
  { unfold is_defective. destruct (conflicts (analyze r)), (irreconcilable (analyze r)); cbn; naive_solver. }
  assert (Hc : conflicts (analyze r) <> [] <-> tied_key r \/ mounts_flagged r true is_personal_path \/ mounts_flagged r false is_session_path \/ mounts_flagged r true is_non_portable).
  { rewrite analyze_conflicts. set (ties := concat _).
    assert (Ht : ties <> [] <-> tied_key r).
    { unfold ties, tied_key. split.
      - intros Hne. destruct (concat _) as [|c cs] eqn:E; [done|]. assert (Hin : c ∈ c :: cs) by left. rewrite <- E in Hin.
        apply list_elem_of_In, in_concat in Hin as (l & Hl & Hc). apply in_map_iff in Hl as ([key entry] & <- & Hk%list_elem_of_In). cbn [fst snd] in Hc.
        destruct (tie_layers entry (contributors_of r key)) as [|n ns] eqn:Et; [done|].
        destruct (proj1 (proj1 (tie_is_a_disagreement' entry (contributors_of r key)))) as [Hs (a & b & Hab)]; [by rewrite Et|]. by exists key, entry, a, b.
      - intros (key & entry & a & b & Hk & Hs & Hab) E.
        assert (Hne : tie_layers entry (contributors_of r key) <> []) by (apply tie_is_a_disagreement'; split; [done|by exists a, b]).
        assert (Hin : mk_Conflict Tie key (tie_layers entry (contributors_of r key)) [] ∈ ([] : list Conflict)); [|by apply elem_of_nil in Hin].
        rewrite <- E. apply list_elem_of_In, in_concat. eexists. split; [apply in_map_iff; exists (key, entry); split; [reflexivity|by apply list_elem_of_In]|].
        cbn [fst snd]. destruct (tie_layers entry (contributors_of r key)); [done|]. by left. }
    unfold literal_path_conflicts, session_path_conflicts, non_portable_variable_conflicts.
    rewrite <- Ht, <- (source_conflicts_spec r LiteralPath), <- (source_conflicts_spec r SessionPath), <- (source_conflicts_spec r NonPortableVariable).
    destruct ties, (source_conflicts _ _ LiteralPath _ _), (source_conflicts _ _ SessionPath _ _), (source_conflicts _ _ NonPortableVariable _ _); cbn; naive_solver. }
  assert (Hi : irreconcilable (analyze r) = irreconcilable_merges r) by (unfold analyze; by destruct (fold_left _ _ _)).
  rewrite Hd, Hc, Hi. unfold irreconcilable_merges.
  assert (Hv : duplicate_volume_mounts r <> [] <-> exists entry, find_field (keys r) (bs "volumes") = Some entry /\ split_volume (array_items (kr_value entry))).
  { unfold duplicate_volume_mounts. destruct (find_field (keys r) (bs "volumes")) as [entry|]; [|split; [intros H; by destruct H|by intros (? & ? & _)]].
    rewrite duplicate_volume_mounts_spec. split; [intros H; by exists entry|by intros (? & [= <-] & ?)]. }
  assert (Hm : duplicate_mount_targets r <> [] <-> exists entry, find_field (keys r) MOUNTS = Some entry /\ repeated_target (array_items (kr_value entry))).
  { unfold duplicate_mount_targets. destruct (find_field (keys r) MOUNTS) as [entry|]; [|split; [intros H; by destruct H|by intros (? & ? & _)]].
    rewrite target_fold. unfold repeated_target. split.
    - intros H. exists entry. split; [done|]. intros Hnd. apply H. split; [done|]. split; [done|]. intros ? _. apply not_elem_of_nil.
    - intros (? & [= <-] & H) (_ & Hnd & _). by apply H. }
  rewrite <- Hv, <- Hm. destruct (duplicate_volume_mounts r), (duplicate_mount_targets r); cbn; naive_solver.
Qed.

(* ------------------------------------------------------------------ *)
(** ** The rendered configuration *)

Fixpoint nested_in (p q : list bytes) : bool :=
  match p, q with
  | [], _ => true
  | a :: p, b :: q => bytes_eqb a b && nested_in p q
  | _, _ => false
  end.
Definition object_at (p : list bytes) (o : object) : Prop := match value_at p (VObject o) with Some (VObject _) | None => True | _ => False end.
(** Objects as serde_json keeps them, all the way along a path. *)
Fixpoint sorted_along (p : list bytes) (o : object) : Prop :=
  ascending (map fst o) /\
  match p with
  | [] => True
  | s :: p => match find_field o s with Some (VObject o') => sorted_along p o' | _ => True end
  end.
Lemma value_at_cons s p o : value_at (s :: p) (VObject o) = let* v := find_field o s in value_at p v.
Proof. done. Qed.
Lemma value_at_nil_object p : p <> [] -> value_at p (VObject []) = None.
Proof. by destruct p. Qed.

Lemma nested_in_spec p q : nested_in p q = true <-> exists r, q = p ++ r.
Proof.
  revert q. induction p as [|a p IH]; intros q; cbn [nested_in]; [split; [by intros _; exists q|done]|].
  destruct q as [|b q]; [split; [done|by intros [r ?]]|]. rewrite andb_true_iff, bytes_eqb_true, IH. split.
  - intros [-> [r ->]]. by exists r.
  - intros [r [= -> ->]]. split; [done|by exists r].
Qed.
Lemma sorted_along_nil p : sorted_along p [].
Proof. destruct p; cbn; auto with viv. Qed.
Lemma sorted_along_asc p o : sorted_along p o -> ascending (map fst o).
Proof. destruct p; cbn; tauto. Qed.
Definition passable (p : list bytes) (o : object) : Prop := forall q r, p = q ++ r -> r <> [] -> object_at q o.

(** The object behind a segment: the one there, or a new one. *)
Lemma inner_object s p o : p <> [] -> passable (s :: p) o -> sorted_along (s :: p) o ->
  exists i, as_object (default (VObject []) (find_field o s)) = Some i /\ passable p i /\ sorted_along p i /\
    (find_field o s = Some (VObject i) \/ find_field o s = None /\ i = []).
Proof.
  intros Hp Hpass Hs. pose proof (Hpass [s] p eq_refl Hp) as Hobj. unfold object_at in Hobj. rewrite value_at_cons in Hobj. cbn [value_at] in Hobj.
  destruct (find_field o s) as [w|] eqn:Ef; cbn [option_bind] in Hobj.
  - destruct w as [| | | | |i]; try done. exists i. split; [done|]. split; [|split; [|by left]].
    + intros q r -> Hr. specialize (Hpass (s :: q) r eq_refl Hr). unfold object_at in Hpass. by rewrite value_at_cons, Ef in Hpass.
    + cbn [sorted_along] in Hs. by rewrite Ef in Hs; destruct Hs.
  - exists []. split; [done|]. split; [|split; [apply sorted_along_nil|by right]].
    intros q r _ _. unfold object_at. destruct q; [done|]. by rewrite value_at_nil_object.
Qed.
(** Inserting along a path through objects succeeds, is found again, and changes nothing that neither contains it nor lies
    in it. *)
Record inserted (p : list bytes) (v : Value) (o o' : object) : Prop := {
  in_value : value_at p (VObject o') = Some v;
  in_other : forall q, nested_in p q = false -> nested_in q p = false -> value_at q (VObject o') = value_at q (VObject o);
  in_prefix : forall q, nested_in q p = true -> q <> p -> exists w, value_at q (VObject o') = Some (VObject w);
  in_sorted : forall q, nested_in p q = false -> sorted_along q o -> sorted_along q o' }.
Lemma insert_path_spec p v o :
  p <> [] -> sorted_along p o -> passable p o -> exists o', insert_path p v o = Some o' /\ inserted p v o o'.
Proof.
  revert o. induction p as [|s p IH]; [done|]. intros o _ Hsorted Hpass. pose proof (sorted_along_asc _ _ Hsorted) as Hasc.
  destruct (decide (p = [])) as [->|Hp].
  - exists (map_insert s v o). split; [done|]. split.
    + rewrite value_at_cons, find_field_map_insert by done. by rewrite bytes_eqb_same.
    + intros [|b q]; [done|]. cbn [nested_in]. rewrite andb_true_r. intros Hb _. rewrite !value_at_cons, find_field_map_insert by done. by rewrite Hb.
    + intros [|b q] Hq Hne; [by eexists|]. cbn [nested_in] in Hq. destruct q; [|by rewrite andb_false_r in Hq].
      rewrite andb_true_r in Hq. apply bytes_eqb_true in Hq. by subst.
    + intros [|b q]; [intros _ [Ha _]; split; [by apply map_insert_ascending|done]|].
      cbn [nested_in]. rewrite andb_true_r. intros Hb [_ Hs]. cbn [sorted_along].
      split; [by apply map_insert_ascending|]. by rewrite find_field_map_insert, Hb by done.
  - destruct (inner_object s p o Hp Hpass Hsorted) as (i & Ei & Hpi & Hsi & Hfi). destruct (IH i Hp Hsi Hpi) as (i' & Ein & [Hv Ho Hpre Hso]).
    exists (map_insert s (VObject i') o). split.
    { destruct p as [|s' p]; [done|]. cbn [insert_path]. rewrite Ei. cbn [option_bind]. cbn [insert_path] in Ein. by rewrite Ein. }
    assert (Hval : forall q, value_at (s :: q) (VObject (map_insert s (VObject i') o)) = value_at q (VObject i')).
    { intros q. rewrite value_at_cons, find_field_map_insert by done. by rewrite bytes_eqb_same. }
    assert (Hnot : forall b, bytes_eqb s b = false -> find_field (map_insert s (VObject i') o) b = find_field o b).
    { intros b Hb. by rewrite find_field_map_insert, Hb. }
    split.
    + by rewrite Hval.
    + intros [|b q]; [done|]. cbn [nested_in]. destruct (bytes_eqb s b) eqn:Eb; [|rewrite !value_at_cons, Hnot by done; done].
      apply bytes_eqb_true in Eb as <-. rewrite bytes_eqb_same. cbn [andb]. intros H1 H2. rewrite Hval, Ho by done. rewrite value_at_cons.
      destruct Hfi as [->|[-> ->]]; [done|]. cbn [option_bind]. apply value_at_nil_object. by intros ->.
    + intros [|b q]; [by eexists|]. cbn [nested_in]. intros [Eb%bytes_eqb_true Hq]%andb_true_iff Hne. subst b.
      destruct (Hpre q Hq) as [w Hw]; [by intros ->|]. exists w. by rewrite Hval.
    + intros [|b q]; [intros _ Hs; cbn; split; [|done]; apply map_insert_ascending, (sorted_along_asc _ _ Hs)|].
      cbn [nested_in]. intros Hn [Ha Hs]. cbn [sorted_along]. split; [by apply map_insert_ascending|].
      destruct (bytes_eqb s b) eqn:Eb; [|rewrite (Hnot b Eb); done].
      apply bytes_eqb_true in Eb as <-. rewrite find_field_map_insert, bytes_eqb_same by done. apply Hso; [done|].
      destruct Hfi as [E|[E ->]]; [by rewrite E in Hs|apply sorted_along_nil].
Qed.

Lemma split_on_nonempty c s : split_on c s <> [].
Proof. destruct s as [|b s]; [done|]. cbn. destruct (decide _); [done|]. by destruct (split_on c s). Qed.
(** No tracked key nests inside another. *)
Definition apart (a b : KeyView) : Prop := nested_in (split_key (kv_key a)) (split_key (kv_key b)) = false /\ nested_in (split_key (kv_key b)) (split_key (kv_key a)) = false.
Lemma insert_views_spec vs root :
  ForallOrdPairs apart vs ->
  Forall (fun v => sorted_along (split_key (kv_key v)) root /\ passable (split_key (kv_key v)) root) vs ->
  exists root', insert_views vs root = Some root' /\
    (forall q, Forall (fun v => nested_in (split_key (kv_key v)) q = false /\ nested_in q (split_key (kv_key v)) = false) vs ->
       value_at q (VObject root') = value_at q (VObject root)) /\
    Forall (fun v => value_at (split_key (kv_key v)) (VObject root') = Some (default VNull (kv_effective v))) vs.
Proof.
  intros Hap. revert root. induction Hap as [|view vs Hview Hap IH]; intros root Hok; cbn [insert_views].
  { exists root. split; [done|]. split; [done|by apply Forall_nil]. }
  apply Forall_cons in Hok as [[Hs Hp] Hok]. set (p := split_key (kv_key view)) in *.
  destruct (insert_path_spec p (default VNull (kv_effective view)) root (split_on_nonempty _ _) Hs Hp) as (root1 & E & [Hv Ho Hpre Hso]).
  unfold insert_at. fold p. rewrite E. cbn [option_bind].
  assert (Hok1 : Forall (fun v => sorted_along (split_key (kv_key v)) root1 /\ passable (split_key (kv_key v)) root1) vs).
  { rewrite Forall_forall in Hok, Hview |- *. intros v Hin. destruct (Hok v Hin) as [Hs1 Hp1]. destruct (Hview v Hin) as [Ha Hb]. fold p in Ha, Hb.
    split; [by apply Hso|]. intros q r Eq Hr. unfold object_at. destruct (nested_in q p) eqn:Eqp.
    - destruct (Hpre q Eqp) as [w ->]; [|done]. intros ->. rewrite (proj2 (nested_in_spec p (split_key (kv_key v)))) in Ha; [done|by exists r].
    - rewrite Ho; [by apply (Hp1 q r)| |done]. apply not_true_iff_false. intros [r' ->]%nested_in_spec.
      rewrite (proj2 (nested_in_spec p (split_key (kv_key v)))) in Ha; [done|]. exists (r' ++ r). by rewrite Eq, app_assoc. }
  destruct (IH root1 Hok1) as (root' & E' & Hsame & Hall). exists root'. split; [done|]. split.
  - intros q [[H1 H2] Hq]%Forall_cons. rewrite Hsame by done. by apply Ho.
  - apply Forall_cons. split; [|done]. rewrite Hsame; [done|]. rewrite Forall_forall in Hview |- *. intros v Hin. destruct (Hview v Hin). by split.
Qed.

(** The rendered configuration is the analysis, whole. When no tracked key nests inside another, rendering always
    succeeds - the code's [unreachable!] is never reached - and under each tracked key's dotted path the configuration
    holds that key's effective value, or null for a key that has none. *)
Theorem configuration_holds_every_key (a : Analysis) (Hapart : ForallOrdPairs apart (values a)) :
  exists config, configuration a = Some config /\
  Forall (fun v => value_at (split_key (kv_key v)) config = Some (default VNull (kv_effective v))) (values a).
Proof.
  destruct (insert_views_spec (values a) [] Hapart) as (root & E & _ & Hall).
  - apply Forall_forall. intros v _. split; [apply sorted_along_nil|]. intros q r _ _. unfold object_at. destruct q; [done|]. by rewrite value_at_nil_object.
  - exists (VObject root). split; [|done]. unfold configuration. by rewrite E.
Qed.

(* ------------------------------------------------------------------ *)
(** ** Where the marks go wrong *)

(** The winner is marked by its name: a shadowed layer that shares it is marked too. *)
Theorem shadowed_namesake_is_marked_winner (key name : bytes) (k k' : LayerKind) (d d' : Definition_)
    (Hp : prio d' < prio d) :
  map c_winner (kv_contributors (view_of key (mk_KeyReport Scalar true (def_value d')) [(name, k, d); (name, k', d')] false)) = [true; true] /\
  tie_layers (mk_KeyReport Scalar true (def_value d')) [(name, k, d); (name, k', d')] = [].
Proof.
  split.
  - unfold view_of, winner_of. cbn. destruct (Z.ltb_spec (prio d') (prio d)); [|lia]. cbn. by rewrite !bool_decide_true.
  - unfold tie_layers. cbn -[Z.min]. replace (Z.min (prio d) (prio d')) with (prio d') by lia.
    destruct (Z.eqb_spec (prio d) (prio d')); [lia|]. destruct (Z.eqb_spec (prio d') (prio d')); [done|lia].
Qed.
(** An ancestor of a session directory is told by its text, so a trailing separator hides it. *)
Lemma trailing_separator_hides_a_session_ancestor :
  is_session_path (bs "/run") = true /\ is_session_path (bs "/run/") = false /\ path_eqb (bs "/run/") (bs "/run") = true.
Proof. vm_compute. done. Qed.

(** ** Witnesses *)

Definition demo_report : Report :=
  mk_Report
    [(bs "mounts", mk_KeyReport ListClass true (VArray [VObject [(bs "source", VString (bs "/home/u")); (bs "target", VString (bs "/t"))]]));
     (bs "sandbox.egress.allow", mk_KeyReport ListClass true (VArray [])); (bs "sandbox.egress.mode", mk_KeyReport Scalar true (VString (bs "open")))]
    [mk_LayerReport (bs "base") LK_Image [(bs "sandbox.egress.mode", mk_Definition 1000 (VString (bs "allowlist")))];
     mk_LayerReport (bs "dev") LK_Manifest [(bs "mounts", mk_Definition 100 (VArray [VObject [(bs "source", VString (bs "/home/u"))]]));
       (bs "sandbox.egress.mode", mk_Definition 100 (VString (bs "open")))]].
Lemma demo_apart : ForallOrdPairs apart (values (analyze demo_report)).
Proof.
  change (values (analyze demo_report)) with (ltac:(let v := eval vm_compute in (values (analyze demo_report)) in exact v)).
  repeat constructor.
Qed.
Lemma configuration_holds_every_key_witness :
  exists config, configuration (analyze demo_report) = Some config /\
    value_at [bs "sandbox"; bs "egress"; bs "mode"] config = Some (VString (bs "open")) /\ is_defective (analyze demo_report) = false.
Proof.
  destruct (configuration_holds_every_key (analyze demo_report) demo_apart) as (config & E & H).
  exists config. split; [exact E|]. split; [|vm_compute; reflexivity]. vm_compute in E. injection E as <-. vm_compute. reflexivity.
Defined.
Lemma shadowed_namesake_is_marked_winner_witness :
  map c_winner (kv_contributors (view_of (bs "k") (mk_KeyReport Scalar true (VBool true))
    [(bs "dev", LK_Piece, mk_Definition 1000 VNull); (bs "dev", LK_Manifest, mk_Definition 100 (VBool true))] false)) = [true; true].
Proof. apply (shadowed_namesake_is_marked_winner (bs "k") (bs "dev") LK_Piece LK_Manifest (mk_Definition 1000 VNull) (mk_Definition 100 (VBool true))). cbn. lia. Defined.
