(* ===== verification/Netns.v ===== *)
(** * The namespace pair and its tap ([src/src/net/netns.rs], [src/src/net/tap.rs])

    The argument lists handed to the pinned [unshare], [nsenter] and [ip], the wait for the pair, and the assertion
    over [ip -j link show].  [/proc]'s links are a function; serde_json's parser is a parameter. *)
From S2P Require Import Prelude Bytes Json.

Definition UNSHARE_PAIR : list bytes := [bs "--user"; bs "--net"; bs "--map-root-user"].
Definition NSENTER_JOIN : list bytes := [bs "--preserve-credentials"; bs "--user"; bs "--net"].
Definition create_pair_args (holder : list bytes) : list bytes := UNSHARE_PAIR ++ holder.
Definition enter_pair_args (holder_pid : Z) (program : list bytes) : list bytes :=
  NSENTER_JOIN ++ [bs "--target"; dec holder_pid] ++ program.
Definition holder_program (sleep : bytes) : list bytes := [sleep; bs "infinity"].

(** [read_link]: the link's text, or nothing when it cannot be read. *)
Definition namespace_link (process namespace : bytes) : bytes :=
  bs "/proc/" ++ process ++ bs "/ns/" ++ namespace.
Fixpoint namespaces_distinct (read_link : bytes -> option bytes) (holder_pid : Z) (namespaces : list bytes) : option bool :=
  match namespaces with
  | [] => Some true
  | n :: rest =>
      let* own := read_link (namespace_link (bs "self") n) in
      let* held := read_link (namespace_link (dec holder_pid) n) in
      if bytes_eqb own held then Some false else namespaces_distinct read_link holder_pid rest
  end.
Definition pair_distinct (read_link : bytes -> option bytes) (holder_pid : Z) : option bool :=
  namespaces_distinct read_link holder_pid [bs "user"; bs "net"].

Inductive PairError := HolderExited (holder_pid : Z) | PairTimeout (holder_pid : Z).
(** One round: what [/proc] answers, and whether the timeout has passed.  [None]: still waiting. *)
Fixpoint await_pair (holder_pid : Z) (rounds : list ((bytes -> option bytes) * bool)) : option (result unit PairError) :=
  match rounds with
  | [] => None
  | (read_link, late) :: rounds =>
      match pair_distinct read_link holder_pid with
      | Some true => Some (Ok tt)
      | None => Some (Err (HolderExited holder_pid))
      | Some false => if late : bool then Some (Err (PairTimeout holder_pid)) else await_pair holder_pid rounds
      end
  end.

(** ** The tap *)

Definition setup_sequences (tap gateway_cidr : bytes) : list (list bytes) :=
  [ [bs "link"; bs "set"; bs "lo"; bs "up"];
    [bs "tuntap"; bs "add"; bs "mode"; bs "tap"; bs "name"; tap];
    [bs "addr"; bs "add"; gateway_cidr; bs "dev"; tap];
    [bs "link"; bs "set"; tap; bs "up"] ].

Inductive TapError := Unparsable | TapMissing (tap : bytes) | NotUp (tap : bytes) (flags : list bytes).
Definition link_name (link : Value) : option bytes := let* v := vget link (bs "ifname") in as_str v.
Definition link_flags (link : Value) : list bytes :=
  match (let* v := vget link (bs "flags") in as_array v) with Some flags => omap as_str flags | None => [] end.
(** The carrier, when the tap is there and up. *)
Definition assert_tap_up (from_str : bytes -> option Value) (ip_json tap : bytes) : result bool TapError :=
  let? links := ok_or (from_str ip_json) Unparsable in
  let? links := ok_or (as_array links) Unparsable in
  let? link := ok_or (List.find (fun link => bool_decide (link_name link = Some tap)) links) (TapMissing tap) in
  let flags := link_flags link in
  if negb (existsb (bytes_eqb (bs "UP")) flags) then Err (NotUp tap flags)
  else Ok (negb (existsb (bytes_eqb (bs "NO-CARRIER")) flags)).
