(* ===== verification/Policy.v ===== *)
(** * The confinement profile ([src/src/launch/policy.rs]) and the unit it runs in ([src/src/launch/systemd.rs])

    Every command of a launch is rendered here from the specification, and re-read before anything is spawned.
    [Path::display] is the identity on the UTF-8 paths a decoded specification holds.  The theorems are
    the second half: the rendered commands carry every leg the re-read asks for, the identity translation names every id
    once, and the unit is the one the command line looks for. *)
From S2P Require Import Prelude Bytes Paths Message Diagnostic Lifecycle Mounts Toml Artifact Launch Workspace Ip Allowlist Spec SpecSpec Netns.

Definition SETPRIV_POLICY : list bytes := [bs "--no-new-privs"; bs "--ambient-caps=-all"; bs "--inh-caps=-all"].
Definition SETPRIV_BOUNDING_SET : bytes := bs "--bounding-set=-all".
Definition CAP_SETPCAP : Z := 8.
Definition STAGING_NAMESPACE : list bytes :=
  [bs "--user"; bs "--map-current-user"; bs "--keep-caps"; bs "--mount"; bs "--propagation"; bs "private"].
Definition STAGE_SHARE : bytes := bs "stage-share".
Definition separator : bytes := bs "--".

(** [u64::from_str_radix(_, 16)]. *)
Definition u64_from_hex (s : bytes) : option Z :=
  let digits := match s with b :: s' => if bool_decide (b = "+"%byte) then s' else s | [] => s end in
  if (length digits =? 0)%nat || negb (forallb (fun b => radix_value b <? 16) digits) then None else
  let v := fold_left (fun a b => a * 16 + radix_value b) digits 0 in
  if u64_max <? v then None else Some v.
(** [status] is [/proc/self/status], when it can be read. *)
Definition holds_cap_setpcap (status : option bytes) : bool :=
  match status with
  | None => false
  | Some status =>
      match head (omap (strip_prefix (bs "CapEff:")) (lines status)) with
      | None => false
      | Some value => match u64_from_hex (trim value) with Some capabilities => Z.testbit capabilities CAP_SETPCAP | None => false end
      end
  end.

(** ** Rendering *)

Definition wrapped (setpriv child : bytes) (child_args : list bytes) (drop_bounding_set : bool) : CommandSpec :=
  mk_CommandSpec setpriv
    (SETPRIV_POLICY ++ (if drop_bounding_set then [SETPRIV_BOUNDING_SET] else []) ++ [separator; child] ++ child_args).

(** One identity rule of [virtiofsd]. *)
Inductive translation_rule :=
| MapIds (guest host : Z)
| ForbidGuest (from count : Z)
| SquashHost (from to count : Z).
Definition rule_text (r : translation_rule) : bytes :=
  match r with
  | MapIds guest host => bs "map:" ++ dec guest ++ bs ":" ++ dec host ++ bs ":1"
  | ForbidGuest from count => bs "forbid-guest:" ++ dec from ++ bs ":" ++ dec count
  | SquashHost from to count => bs "squash-host:" ++ dec from ++ bs ":" ++ dec to ++ bs ":" ++ dec count
  end.
Definition translation_rules (guest host overflow id_max : Z) : list translation_rule :=
  [MapIds guest host] ++
  (if 0 <? guest then [ForbidGuest 0 guest] else []) ++
  (if guest <? id_max then [ForbidGuest (guest + 1) (id_max - guest)] else []) ++
  (if 0 <? host then [SquashHost 0 overflow host] else []) ++
  (if host <? id_max then [SquashHost (host + 1) overflow (id_max - host)] else []).
Definition add_translation (flag : bytes) (guest host overflow id_max : Z) : list bytes :=
  flat_map (fun r => [flag; rule_text r]) (translation_rules guest host overflow id_max).

Definition staged (unshare supervisor : bytes) (share : ShareSpec) (stage : bytes) (daemon : CommandSpec) : CommandSpec :=
  mk_CommandSpec unshare
    (STAGING_NAMESPACE ++ [separator; supervisor; STAGE_SHARE; bs "--source"; source share; bs "--stage"; stage] ++
     (if read_only share then [bs "--readonly"] else []) ++ [separator] ++ rendered daemon).

Section profile.
Context {Value : Type} (spec : LaunchSpec Value) (drop_bounding_set : bool).

Definition entered (holder_pid : Z) (inner : CommandSpec) : CommandSpec :=
  mk_CommandSpec (nsenter (backend_programs spec)) (enter_pair_args holder_pid (rendered inner)).
Definition vmm (holder_pid : Z) : CommandSpec :=
  entered holder_pid
    (wrapped (setpriv (backend_programs spec)) (cloud_hypervisor (backend_programs spec))
       [bs "--api-socket"; bs "path=" ++ api_socket (runtime_paths spec); bs "--seccomp"; bs "true"] false).
Definition netns_holder : CommandSpec :=
  mk_CommandSpec (unshare (backend_programs spec)) (create_pair_args (holder_program (sleep (backend_programs spec)))).
Definition in_namespace_ip (holder_pid : Z) (ip_args : list bytes) : CommandSpec :=
  mk_CommandSpec (nsenter (backend_programs spec)) (enter_pair_args holder_pid (ip (backend_programs spec) :: ip_args)).
Definition net_init (holder_pid : Z) : CommandSpec :=
  mk_CommandSpec (nsenter (backend_programs spec))
    (enter_pair_args holder_pid [supervisor (backend_programs spec); bs "net-init"]).
Definition uplink (holder_pid : Z) : CommandSpec :=
  mk_CommandSpec (pasta (backend_programs spec))
    [ bs "--foreground"; bs "--config-net"; bs "--dns-forward"; ip_to_string (dns_forward_address (network spec));
      bs "--netns"; bs "/proc/" ++ dec holder_pid ++ bs "/ns/net"; bs "--userns"; bs "/proc/" ++ dec holder_pid ++ bs "/ns/user" ].
Definition resolver (holder_pid : Z) : CommandSpec :=
  mk_CommandSpec (nsenter (backend_programs spec))
    (enter_pair_args holder_pid
       [supervisor (backend_programs spec); bs "resolver"; bs "--spec"; launch_spec (runtime_paths spec)]).

(** The arguments of a share's daemon, and the daemon in its wrapper. *)
Definition daemon_args (share : ShareSpec) (shared_dir : bytes) : list bytes :=
  let ids := identity_translation spec in
  let budget := descriptor_budget spec in
  [ bs "--socket-path"; socket share; bs "--shared-dir"; shared_dir; bs "--sandbox"; bs "namespace"; bs "--seccomp"; bs "kill";
    bs "--inode-file-handles=never"; bs "--thread-pool-size"; dec (worker_pool_size budget); bs "--cache"; cache share;
    bs "--rlimit-nofile=" ++ dec (limit budget) ] ++
  add_translation (bs "--translate-uid") (guest_uid ids) (host_uid ids) (overflow_uid ids) (id_max ids) ++
  add_translation (bs "--translate-gid") (guest_gid ids) (host_gid ids) (overflow_gid ids) (id_max ids) ++
  (if read_only share then [bs "--readonly"] else []) ++ extra_args share.
Definition served_dir (share : ShareSpec) : bytes := default (source share) (stage_dir share (root (runtime_paths spec))).
Definition daemon (share : ShareSpec) : CommandSpec :=
  wrapped (setpriv (backend_programs spec)) (virtiofsd (backend_programs spec)) (daemon_args share (served_dir share)) drop_bounding_set.
Definition virtiofsd (share : ShareSpec) : CommandSpec :=
  match stage_dir share (root (runtime_paths spec)) with
  | None => daemon share
  | Some stage => staged (unshare (backend_programs spec)) (supervisor (backend_programs spec)) share stage (daemon share)
  end.
Definition share_commands : list CommandSpec := map virtiofsd (shares spec).
End profile.

(** ** The re-read *)

Definition has_arg (a : bytes) (l : list bytes) : bool := existsb (bytes_eqb a) l.
Fixpoint windows2 (l : list bytes) : list (bytes * bytes) :=
  match l with a :: (b :: _) as l' => (a, b) :: windows2 l' | _ => [] end.
Definition arg_value (flag : bytes) (l : list bytes) : option bytes :=
  option_map snd (List.find (fun p => bytes_eqb (fst p) flag) (windows2 l)).
Definition require_pair (l : list bytes) (flag value : bytes) : result unit LaunchError :=
  guard_err (negb (existsb (fun p => bytes_eqb (fst p) flag && (bool_decide (value = []) || bytes_eqb (snd p) value)) (windows2 l)))
            (Policy (bs "mandatory confinement argument missing")).
Definition validate_wrapper (c : CommandSpec) (bounding_set_dropped : bool) : result unit LaunchError :=
  for_each (fun leg => guard_err (negb (has_arg leg (args c))) (Policy (bs "capability/no-new-privileges wrapper incomplete")))
    (SETPRIV_POLICY ++ if bounding_set_dropped then [SETPRIV_BOUNDING_SET] else []).
Definition validate_staging (c : CommandSpec) : result unit LaunchError :=
  if negb (has_arg STAGE_SHARE (args c)) then Ok tt else
  let? _ := for_each (fun leg => guard_err (negb (has_arg leg (args c))) (Policy (bs "share staging namespace incomplete")))
              STAGING_NAMESPACE in
  match arg_value (bs "--stage") (args c), arg_value (bs "--shared-dir") (args c), arg_value (bs "--source") (args c) with
  | Some stage, Some shared_dir, Some source =>
      guard_err (negb (bytes_eqb stage shared_dir) || bytes_eqb stage source)
                (Policy (bs "a staged share must serve its staging directory"))
  | _, _, _ => Err (Policy (bs "share staging arguments incomplete"))
  end.
Definition validate_share_command (bounding_set_dropped : bool) (c : CommandSpec) : result unit LaunchError :=
  let? _ := validate_wrapper c bounding_set_dropped in
  let? _ := validate_staging c in
  let? _ := require_pair (args c) (bs "--sandbox") (bs "namespace") in
  let? _ := require_pair (args c) (bs "--seccomp") (bs "kill") in
  let? _ := require_pair (args c) (bs "--shared-dir") [] in
  let? _ := require_pair (args c) (bs "--socket-path") [] in
  let? _ := guard_err (negb (has_arg (bs "--inode-file-handles=never") (args c)))
                      (Policy (bs "virtiofsd inode handle policy missing")) in
  guard_err (negb (existsb (starts_with (bs "--rlimit-nofile=")) (args c)))
            (Policy (bs "virtiofsd descriptor limit missing")).
Definition validate_shares (commands : list CommandSpec) (bounding_set_dropped : bool) : result unit LaunchError :=
  for_each (validate_share_command bounding_set_dropped) commands.
Definition validate_rendered (vmm : CommandSpec) (commands : list CommandSpec) (bounding_set_dropped : bool) : result unit LaunchError :=
  let? _ := validate_wrapper vmm false in
  let? _ := require_pair (args vmm) (bs "--seccomp") (bs "true") in
  validate_shares commands bounding_set_dropped.

(** ** The transient unit *)

Definition hex_nibble (z : Z) : byte := if z <? 10 then zb (48 + z) else zb (87 + z).
Definition escape_unit_byte (b : byte) : bytes :=
  if is_ascii_alphanumeric b || bool_decide (b = "_"%byte) || bool_decide (b = "-"%byte) then [b]
  else ["x"%byte; hex_nibble (Z.shiftr (bz b) 4); hex_nibble (Z.land (bz b) 15)].
Definition escape_component (value : bytes) : bytes :=
  match flat_map escape_unit_byte value with [] => bs "unnamed" | output => output end.
Definition unit_name {Value} (spec : LaunchSpec Value) : bytes :=
  bs "vivarium-" ++ escape_component (sandbox_id spec) ++ bs "-" ++ escape_component (spec_target spec) ++ bs ".service".
Definition transient_unit {Value} (spec : LaunchSpec Value) : CommandSpec :=
  mk_CommandSpec (systemd_run (backend_programs spec))
    [ bs "--user"; bs "--unit=" ++ unit_name spec; bs "--service-type=exec"; bs "--collect"; bs "--no-block";
      bs "--slice=vivarium.slice"; bs "--property=CollectMode=inactive-or-failed"; bs "--property=KillMode=mixed";
      bs "--property=MemoryAccounting=yes"; bs "--property=IOAccounting=yes";
      bs "--property=CPUWeight=" ++ dec (cpu_weight (resources spec));
      bs "--property=LimitNOFILE=" ++ dec (limit (descriptor_budget spec)); separator;
      supervisor (backend_programs spec); bs "--spec"; launch_spec (runtime_paths spec);
      bs "--ready-socket"; ready_socket (runtime_paths spec) ].

(* ------------------------------------------------------------------ *)
(** * The profile passes its own re-read *)

(* ------------------------------------------------------------------ *)
(** ** Arguments in a list *)

Lemma has_arg_elem a l : has_arg a l = true <-> a ∈ l.
Proof.
  unfold has_arg. rewrite existsb_exists. setoid_rewrite bytes_eqb_true. rewrite list_elem_of_In. naive_solver.
Qed.
Lemma windows2_middle l1 a b l2 : (a, b) ∈ windows2 (l1 ++ a :: b :: l2).
Proof.
  induction l1 as [|x l1 IH]; [by left|]. cbn [app]. destruct (l1 ++ a :: b :: l2) as [|y l] eqn:E; [by destruct l1|].
  change (windows2 (x :: y :: l)) with ((x, y) :: windows2 (y :: l)). by right.
Qed.
Lemma require_pair_middle l1 flag v value l2 : value = [] \/ value = v ->
  require_pair (l1 ++ flag :: v :: l2) flag value = Ok tt.
Proof.
  intros Hv. unfold require_pair. assert (existsb (fun p => bytes_eqb (fst p) flag && (bool_decide (value = []) || bytes_eqb (snd p) value))
    (windows2 (l1 ++ flag :: v :: l2)) = true) as ->; [|done].
  apply existsb_exists. exists (flag, v). split; [apply list_elem_of_In, windows2_middle|]. cbn [fst snd].
  rewrite (proj2 (bytes_eqb_true _ _) eq_refl). destruct Hv as [-> | ->]; [by rewrite bool_decide_true|].
  by rewrite (proj2 (bytes_eqb_true v v) eq_refl), orb_true_r.
Qed.
Lemma arg_value_first l1 flag v l2 : flag ∉ l1 -> arg_value flag (l1 ++ flag :: v :: l2) = Some v.
Proof.
  intros Hn. unfold arg_value. induction l1 as [|x l1 IH].
  - cbn [app windows2 List.find fst]. by rewrite (proj2 (bytes_eqb_true flag flag) eq_refl).
  - cbn [app]. destruct (l1 ++ flag :: v :: l2) as [|y l] eqn:E; [by destruct l1|].
    change (windows2 (x :: y :: l)) with ((x, y) :: windows2 (y :: l)). cbn [List.find fst].
    destruct (bytes_eqb x flag) eqn:Ex; [apply bytes_eqb_true in Ex as ->; destruct Hn; by left|]. apply IH. intros H. apply Hn. by right.
Qed.
(** [H] puts a flag into a list of other flags and of paths known to be absolute. *)
Ltac absent H :=
  repeat (apply elem_of_cons in H as [H|H];
    [first [discriminate H | match goal with Hq : is_absolute _ = true |- _ => rewrite <- H in Hq; discriminate Hq end]|]);
  by apply elem_of_nil in H.

(* ------------------------------------------------------------------ *)
(** ** The re-read *)

Section profile.
Context {Value : Type} (spec : LaunchSpec Value) (drop : bool).

Definition bounding : list bytes := if drop then [SETPRIV_BOUNDING_SET] else [].
(** Everything a daemon's command says, behind what wraps it. *)
Definition daemon_tail (share : ShareSpec) (dir : bytes) : list bytes :=
  SETPRIV_POLICY ++ bounding ++ [separator; Spec.virtiofsd (backend_programs spec)] ++ daemon_args spec share dir.
Lemma wrapper_ok p pre share dir :
  validate_wrapper (mk_CommandSpec p (pre ++ daemon_tail share dir)) drop = Ok tt.
Proof.
  unfold validate_wrapper. apply for_each_ok, Forall_forall. intros leg Hleg. cbn [args].
  assert (has_arg leg (pre ++ daemon_tail share dir) = true) as ->; [|done].
  apply has_arg_elem. unfold daemon_tail, bounding. rewrite !elem_of_app in *. tauto.
Qed.
Lemma share_legs_ok p pre share dir :
  validate_staging (mk_CommandSpec p (pre ++ daemon_tail share dir)) = Ok tt ->
  validate_share_command drop (mk_CommandSpec p (pre ++ daemon_tail share dir)) = Ok tt.
Proof.
  intros Hst. unfold validate_share_command. rewrite wrapper_ok, Hst. cbn [rbind args].
  set (l1 := pre ++ SETPRIV_POLICY ++ bounding ++ [separator; Spec.virtiofsd (backend_programs spec)]).
  assert (Ha : pre ++ daemon_tail share dir = l1 ++ daemon_args spec share dir).
  { unfold l1, daemon_tail. by rewrite <- !app_assoc. }
  assert (Hpair : forall flag v value, (exists a b, daemon_args spec share dir = a ++ flag :: v :: b) -> value = [] \/ value = v ->
    require_pair (l1 ++ daemon_args spec share dir) flag value = Ok tt).
  { intros flag v value (a & b & ->) Hv. rewrite app_assoc. by apply require_pair_middle. }
  rewrite Ha. rewrite (Hpair _ (bs "namespace")), (Hpair _ (bs "kill")), (Hpair (bs "--shared-dir") dir), (Hpair (bs "--socket-path") (socket share)); try tauto.
  2: by exists [], (List.skipn 2 (daemon_args spec share dir)).
  2: by exists (List.firstn 2 (daemon_args spec share dir)), (List.skipn 4 (daemon_args spec share dir)).
  2: by exists (List.firstn 6 (daemon_args spec share dir)), (List.skipn 8 (daemon_args spec share dir)).
  2: by exists (List.firstn 4 (daemon_args spec share dir)), (List.skipn 6 (daemon_args spec share dir)).
  cbn [rbind]. assert (has_arg (bs "--inode-file-handles=never") (l1 ++ daemon_args spec share dir) = true) as ->.
  { apply has_arg_elem, elem_of_app. right. do 8 right. left. }
  cbn [negb guard_err rbind]. assert (existsb (starts_with (bs "--rlimit-nofile=")) (l1 ++ daemon_args spec share dir) = true) as ->; [|done].
  apply existsb_exists. exists (bs "--rlimit-nofile=" ++ dec (limit (descriptor_budget spec))). split.
  - apply list_elem_of_In, elem_of_app. right. do 13 right. left.
  - unfold starts_with. by rewrite strip_prefix_app.
Qed.

(** The words of the staging step stand in a daemon's own command only as a cache mode or an extra argument. *)
Definition staging_words : list bytes := STAGE_SHARE :: STAGING_NAMESPACE.
Lemma staging_word_cases (P : bytes -> Prop) : Forall P staging_words -> forall word, word ∈ staging_words -> P word.
Proof. by rewrite Forall_forall. Qed.
Lemma translation_words word flag g h o m : word ∈ staging_words -> flag ∉ staging_words -> word ∉ add_translation flag g h o m.
Proof.
  intros Hw Hf H. apply list_elem_of_In, in_flat_map in H as (r & _ & [H|[H|[]]]); [by subst|]. subst word. clear Hf. revert Hw.
  unfold staging_words, STAGING_NAMESPACE. rewrite !elem_of_cons, elem_of_nil. destruct r; cbn; intros Hw; decompose [or] Hw; done.
Qed.
Lemma dec_digits_head fuel z acc : exists d r, 0 <= d < 10 /\ dec_digits (S fuel) z acc = digit d :: r.
Proof.
  revert z acc. induction fuel as [|fuel IH]; intros z acc; pose proof (Z.mod_pos_bound z 10 ltac:(lia)); cbn [dec_digits].
  - destruct (z / 10 =? 0); eauto.
  - destruct (z / 10 =? 0); [eauto|]. apply IH.
Qed.
Lemma dec_not_staging word z : word ∈ staging_words -> word <> dec z.
Proof.
  destruct (dec_digits_head 19 z []) as (d & r & Hd & E). unfold dec. rewrite E. pose proof (digit_spec d Hd) as [Hs _].
  unfold staging_words, STAGING_NAMESPACE. rewrite !elem_of_cons, elem_of_nil. intros Hw. decompose [or] Hw; try done; subst word; intros [= H _]; by rewrite <- H in Hs.
Qed.
Lemma daemon_words word share dir : word ∈ staging_words -> is_absolute dir = true -> is_absolute (socket share) = true ->
  is_absolute (Spec.virtiofsd (backend_programs spec)) = true -> word ∈ daemon_tail share dir -> word ∈ extra_args share \/ cache share = word.
Proof.
  intros Hw Hdir Hsock Hprog E. assert (Habs : forall q, is_absolute q = true -> word <> q).
  { intros q Hq ->. unfold staging_words, STAGING_NAMESPACE in Hw. rewrite !elem_of_cons, elem_of_nil in Hw. decompose [or] Hw; by subst. }
  assert (Hdec : forall z, word <> dec z) by (intros z; by apply dec_not_staging).
  assert (Hfixed : forall q, bool_decide (q ∈ staging_words) = false -> word <> q) by (intros q Hq ->; by rewrite bool_decide_true in Hq).
  assert (Hlimit : word <> bs "--rlimit-nofile=" ++ dec (limit (descriptor_budget spec))).
  { intros ->. unfold staging_words, STAGING_NAMESPACE in Hw. rewrite !elem_of_cons, elem_of_nil in Hw. decompose [or] Hw; done. }
  unfold daemon_tail, daemon_args, bounding in E. rewrite !elem_of_app in E. cbv zeta in E.
  assert (Hu : bool_decide (bs "--translate-uid" ∈ staging_words) = false /\ bool_decide (bs "--translate-gid" ∈ staging_words) = false) by (split; vm_compute; reflexivity).
  rewrite !bool_decide_eq_false in Hu.
  destruct E as [E|[E|[E|[E|[E|[E|[E|E]]]]]]]; [..|by left].
  - unfold SETPRIV_POLICY in E. by repeat (apply elem_of_cons in E as [E|E]; [solve [exfalso; refine (Hfixed _ _ E); vm_compute; reflexivity]|]); apply elem_of_nil in E.
  - destruct drop; by repeat (apply elem_of_cons in E as [E|E]; [solve [exfalso; refine (Hfixed _ _ E); vm_compute; reflexivity]|]); apply elem_of_nil in E.
  - repeat (apply elem_of_cons in E as [E|E]; [first [solve [exfalso; refine (Hfixed _ _ E); vm_compute; reflexivity]|by destruct (Habs _ Hprog)]|]); by apply elem_of_nil in E.
  - repeat (apply elem_of_cons in E as [E|E];
      [first [by right|by destruct (Habs _ Hdir)|by destruct (Habs _ Hsock)|by destruct (Hdec _ E)|by destruct (Hlimit E)|solve [exfalso; refine (Hfixed _ _ E); vm_compute; reflexivity]]|]).
    by apply elem_of_nil in E.
  - exfalso. revert E. apply translation_words; tauto.
  - exfalso. revert E. apply translation_words; tauto.
  - destruct (read_only share); by repeat (apply elem_of_cons in E as [E|E]; [solve [exfalso; refine (Hfixed _ _ E); vm_compute; reflexivity]|]); apply elem_of_nil in E.
Qed.
(** An unstaged daemon is not mistaken for a staged one; and one that has the staging step's word is refused, unless it has
    the whole namespace too. *)
Lemma unstaged_ok share p dir : STAGE_SHARE ∉ extra_args share -> cache share <> STAGE_SHARE ->
  is_absolute dir = true -> is_absolute (socket share) = true -> is_absolute (Spec.virtiofsd (backend_programs spec)) = true ->
  validate_staging (mk_CommandSpec p (daemon_tail share dir)) = Ok tt.
Proof.
  intros Hextra Hcache Hdir Hsock Hprog. unfold validate_staging. cbn [args].
  destruct (has_arg STAGE_SHARE (daemon_tail share dir)) eqn:E; [|done]. exfalso. apply has_arg_elem in E.
  destruct (daemon_words STAGE_SHARE share dir) as [H|H]; try done. by left.
Qed.
Lemma smuggled_word_refused share p dir leg : STAGE_SHARE ∈ daemon_tail share dir -> leg ∈ STAGING_NAMESPACE ->
  leg ∉ extra_args share -> cache share <> leg ->
  is_absolute dir = true -> is_absolute (socket share) = true -> is_absolute (Spec.virtiofsd (backend_programs spec)) = true ->
  validate_staging (mk_CommandSpec p (daemon_tail share dir)) <> Ok tt.
Proof.
  intros Hword%has_arg_elem Hleg Hextra Hcache Hdir Hsock Hprog. unfold validate_staging. cbn [args]. rewrite Hword. cbn [negb]. intros H.
  apply rbind_ok in H as ([] & H & _). apply for_each_ok in H. rewrite Forall_forall in H. specialize (H leg Hleg).
  destruct (has_arg leg (daemon_tail share dir)) eqn:E; [|done]. apply has_arg_elem in E.
  destruct (daemon_words leg share dir) as [H1|H1]; try done. by right.
Qed.

(** A staged daemon serves the directory its staging step builds. *)
Lemma staged_ok share stage p : is_absolute stage = true -> is_absolute (source share) = true -> stage <> source share ->
  is_absolute (supervisor (backend_programs spec)) = true -> is_absolute (setpriv (backend_programs spec)) = true ->
  is_absolute (Spec.virtiofsd (backend_programs spec)) = true -> is_absolute (socket share) = true ->
  validate_staging (mk_CommandSpec p
    ((STAGING_NAMESPACE ++ [separator; supervisor (backend_programs spec); STAGE_SHARE; bs "--source"; source share; bs "--stage"; stage] ++
      (if read_only share then [bs "--readonly"] else []) ++ [separator; setpriv (backend_programs spec)]) ++ daemon_tail share stage)) = Ok tt.
Proof.
  intros Hst Hsrc Hne Hsup Hset Hvio Hsock. unfold validate_staging. cbn [args].
  set (ro := if read_only share then [bs "--readonly"] else []).
  set (pre := STAGING_NAMESPACE ++ _ ++ ro ++ _). set (tail := daemon_tail share stage).
  assert (Hmem : forall x, x ∈ pre -> has_arg x (pre ++ tail) = true) by (intros x Hx; apply has_arg_elem, elem_of_app; by left).
  rewrite (Hmem STAGE_SHARE) by (unfold pre; rewrite !elem_of_app; right; left; do 2 right; left). cbn [negb].
  assert (for_each (fun leg => guard_err (negb (has_arg leg (pre ++ tail))) (Policy (bs "share staging namespace incomplete"))) STAGING_NAMESPACE = Ok tt) as ->.
  { apply for_each_ok, Forall_forall. intros leg Hleg. rewrite Hmem; [done|]. unfold pre. apply elem_of_app. by left. }
  assert (Hstage : arg_value (bs "--stage") (pre ++ tail) = Some stage).
  { change (pre ++ tail) with ((STAGING_NAMESPACE ++ [separator; supervisor (backend_programs spec); STAGE_SHARE; bs "--source"; source share]) ++
      bs "--stage" :: stage :: (ro ++ [separator; setpriv (backend_programs spec)]) ++ tail). apply arg_value_first.
    intros H. cbn [app] in H. absent H. }
  assert (Hsource : arg_value (bs "--source") (pre ++ tail) = Some (source share)).
  { change (pre ++ tail) with ((STAGING_NAMESPACE ++ [separator; supervisor (backend_programs spec); STAGE_SHARE]) ++
      bs "--source" :: source share :: ([bs "--stage"; stage] ++ ro ++ [separator; setpriv (backend_programs spec)]) ++ tail). apply arg_value_first.
    intros H. cbn [app] in H. absent H. }
  assert (Hdir : arg_value (bs "--shared-dir") (pre ++ tail) = Some stage).
  { unfold tail, daemon_tail. change (daemon_args spec share stage) with ([bs "--socket-path"; socket share] ++ bs "--shared-dir" :: stage :: List.skipn 4 (daemon_args spec share stage)).
    set (rest := List.skipn 4 _). rewrite !app_assoc. apply arg_value_first. rewrite !elem_of_app. intros H.
    destruct H as [[[[H|H]|H]|H]|H]; [|absent H|unfold bounding in H; destruct drop; absent H|absent H..].
    unfold pre in H. rewrite !elem_of_app in H. destruct H as [H|[H|[H|H]]]; [absent H..| |absent H]. unfold ro in H. destruct (read_only share); absent H. }
  rewrite Hstage, Hsource, Hdir. cbn [rbind guard_err].
  rewrite (proj2 (bytes_eqb_true stage stage) eq_refl). destruct (bytes_eqb stage (source share)) eqn:E; [by apply bytes_eqb_true in E|done].
Qed.
End profile.

(** What a validated specification says of its own paths. *)
Lemma components_root p l : components p = RootDir :: l -> is_absolute p = true.
Proof.
  unfold components. destruct (is_absolute p); [done|]. intros H. exfalso.
  assert (Hno : RootDir ∉ omap piece_component (split_on slash p)).
  { intros (piece & _ & Hp)%list_elem_of_omap. unfold piece_component in Hp. repeat case_match; discriminate. }
  destruct (split_on slash p) as [|piece ps] eqn:E; [done|]. case_bool_decide; [by injection H|].
  cbn [app] in H. apply Hno. rewrite H. by left.
Qed.
Lemma absolute_root p : is_absolute p = true -> exists l, components p = RootDir :: l.
Proof. intros H. unfold components. rewrite H. cbn [app]. eauto. Qed.
Lemma child_absolute root p : child_of root p -> is_absolute root = true -> is_absolute p = true.
Proof. intros [n Hc] Hr. destruct (absolute_root root Hr) as [l Hl]. rewrite Hl in Hc. by eapply components_root. Qed.
Lemma validate_absolute symlink_metadata metadata {Net} {N : IpNetOps Net} {Value} (spec : LaunchSpec Value) u :
  validate symlink_metadata metadata spec = Ok u ->
  is_absolute (root (runtime_paths spec)) = true /\ is_absolute (supervisor (backend_programs spec)) = true.
Proof.
  unfold validate. intros H. inv_ok. split.
  - match goal with Hr : validate_runtime spec = Ok _ |- _ => unfold validate_runtime in Hr end. inv_ok.
    match goal with Hp : require_absolute_resolved (root _) = Ok _ |- _ => by apply require_absolute_resolved_ok in Hp as (Ha & _) end.
  - match goal with Hp : validate_programs spec = Ok _ |- _ => unfold validate_programs in Hp end. inv_ok.
    match goal with Hp : require_absolute_resolved (supervisor _) = Ok _ |- _ => by apply require_absolute_resolved_ok in Hp as (Ha & _) end.
Qed.

Lemma vmm_legs {Value} (spec : LaunchSpec Value) pid :
  validate_wrapper (vmm spec pid) false = Ok tt /\ require_pair (args (vmm spec pid)) (bs "--seccomp") (bs "true") = Ok tt.
Proof.
  set (pre := NSENTER_JOIN ++ [bs "--target"; dec pid; setpriv (backend_programs spec)]).
  set (ch := [separator; cloud_hypervisor (backend_programs spec); bs "--api-socket"; bs "path=" ++ api_socket (runtime_paths spec)]).
  assert (Ha : args (vmm spec pid) = (pre ++ SETPRIV_POLICY ++ ch) ++ bs "--seccomp" :: bs "true" :: []) by done.
  split; [|rewrite Ha; apply require_pair_middle; by right].
  unfold validate_wrapper. apply for_each_ok, Forall_forall. intros leg Hleg.
  assert (has_arg leg (args (vmm spec pid)) = true) as ->; [|done]. apply has_arg_elem. rewrite Ha, !elem_of_app.
  apply elem_of_app in Hleg as [H|H]; [tauto|by apply elem_of_nil in H].
Qed.

Lemma share_passes {Value} (spec : LaunchSpec Value) drop metadata share :
  is_absolute (root (runtime_paths spec)) = true -> is_absolute (supervisor (backend_programs spec)) = true ->
  is_absolute (Spec.virtiofsd (backend_programs spec)) = true -> is_absolute (setpriv (backend_programs spec)) = true ->
  share_ok metadata (root (runtime_paths spec)) share ->
  (stage_dir share (root (runtime_paths spec)) = None -> STAGE_SHARE ∉ extra_args share /\ cache share <> STAGE_SHARE) ->
  validate_share_command drop (Policy.virtiofsd spec drop share) = Ok tt.
Proof.
  intros Hroot Hsup Hv Hs (_ & (Hsrc & _) & _ & Hsock & Hout & Hplan & _) Hclean.
  pose proof (child_absolute _ _ Hsock Hroot) as Hsocka.
  unfold Policy.virtiofsd, daemon, served_dir. destruct (stage_dir share (root (runtime_paths spec))) as [stage|] eqn:Est; cbn [from_option id].
  - unfold stage_dir, is_staged in Est. destruct (mount_plan share) as [plan|] eqn:Ep; [|done].
    case_bool_decide as Hk; [|done]. injection Est as <-. unfold plan_ok in Hplan. rewrite Ep, Hk in Hplan.
    destruct Hplan as (_ & _ & Hstage & _). pose proof (child_absolute _ _ Hstage Hroot) as Hst.
    set (stage := join (root (runtime_paths spec)) (tag share ++ bs ".stage")) in *.
    assert (Hne : stage <> source share).
    { intros E. apply Forall_cons in Hout as [_ Hout]. apply Forall_cons in Hout as [_ Hout]. apply Forall_cons in Hout as [[Hpre _] _].
      rewrite <- E in Hpre. assert (path_starts_with stage (root (runtime_paths spec)) = true); [|congruence].
      apply path_starts_with_prefix. destruct Hstage as [n ->]. by apply prefix_app_r. }
    set (pre := (STAGING_NAMESPACE ++ [separator; supervisor (backend_programs spec); STAGE_SHARE; bs "--source"; source share; bs "--stage"; stage] ++
      (if read_only share then [bs "--readonly"] else []) ++ [separator; setpriv (backend_programs spec)])).
    assert (E : staged (unshare (backend_programs spec)) (supervisor (backend_programs spec)) share stage
                  (wrapped (setpriv (backend_programs spec)) (Spec.virtiofsd (backend_programs spec)) (daemon_args spec share stage) drop)
                = mk_CommandSpec (unshare (backend_programs spec)) (pre ++ daemon_tail spec drop share stage)).
    { unfold staged, pre. f_equal. rewrite <- !app_assoc. by destruct (read_only share). }
    etrans; [exact (f_equal (validate_share_command drop) E)|]. apply share_legs_ok. by apply staged_ok.
  - destruct (Hclean eq_refl). apply (share_legs_ok spec drop _ []). by apply unstaged_ok.
Qed.
(** A share that is served without a staging step although its cache mode or an extra argument is that step's word: the
    re-read takes it for staged.  Validation refuses neither. *)
Definition smuggles {Value} (spec : LaunchSpec Value) (share : ShareSpec) : Prop :=
  stage_dir share (root (runtime_paths spec)) = None /\ (STAGE_SHARE ∈ extra_args share \/ cache share = STAGE_SHARE).

(* ------------------------------------------------------------------ *)
(** ** The identity translation *)

(** What virtiofsd's rules say of one id: the guest side of a mapping, the host side of a mapping, the forbidden guest
    range, the squashed host range. *)
Definition covers_guest (r : translation_rule) (i : Z) : bool :=
  match r with
  | MapIds guest _ => i =? guest
  | ForbidGuest from count => (from <=? i) && (i <? from + count)
  | SquashHost _ _ _ => false
  end.
Definition covers_host (r : translation_rule) (i : Z) : bool :=
  match r with
  | MapIds _ host => i =? host
  | SquashHost from _ count => (from <=? i) && (i <? from + count)
  | ForbidGuest _ _ => false
  end.
Definition times (covers : translation_rule -> Z -> bool) (i : Z) (l : list translation_rule) : nat :=
  length (List.filter (fun r => covers r i) l).
Lemma times_app covers i l m : times covers i (l ++ m) = (times covers i l + times covers i m)%nat.
Proof. unfold times. by rewrite List.filter_app, length_app. Qed.

(** Every id is translated once.  For ids within the table, the rules of a daemon partition both sides: every guest id
    up to the last is covered by exactly one rule - the session's own by the mapping, every other by a refusal - and
    every host id by exactly one, the mapped one or a squash to the overflow id; nothing above the last id is covered,
    and no end of a range leaves the width of a [u32]. *)
Theorem every_id_is_translated_once guest host overflow id_max i :
  0 <= guest <= id_max -> 0 <= host <= id_max -> id_max < 2 ^ 32 -> 0 <= i ->
  let rules := translation_rules guest host overflow id_max in
  times covers_guest i rules = (if (i <=? id_max)%Z then 1 else 0)%nat /\
  times covers_host i rules = (if (i <=? id_max)%Z then 1 else 0)%nat /\
  (i = guest <-> covers_guest (MapIds guest host) i = true) /\
  Forall (fun r => match r with
                   | ForbidGuest from count | SquashHost from _ count => 0 <= from /\ 0 < count /\ from + count <= 2 ^ 32
                   | MapIds _ _ => True end) rules.
Proof.
  intros Hg Hh Hmax Hi. cbn zeta. unfold translation_rules. rewrite !times_app. split_and!.
  - unfold times.
    destruct (0 <? guest) eqn:E1, (guest <? id_max) eqn:E2, (0 <? host), (host <? id_max); cbn [List.filter covers_guest length];
      repeat (match goal with |- context [if ?b then _ else _] => destruct b eqn:?; cbn [length] end); lia.
  - unfold times.
    destruct (0 <? guest), (guest <? id_max), (0 <? host) eqn:E1, (host <? id_max) eqn:E2; cbn [List.filter covers_host length];
      repeat (match goal with |- context [if ?b then _ else _] => destruct b eqn:?; cbn [length] end); lia.
  - cbn. lia.
  - rewrite !Forall_app. split_and!; [by repeat constructor|..].
    all: match goal with |- context [if ?b then _ else _] => destruct b eqn:?; repeat constructor; lia end.
Qed.
Lemma every_id_is_translated_once_witness :
  times covers_guest 1000 (translation_rules 1000 1001 65534 65535) = 1%nat /\
  times covers_host 70000 (translation_rules 1000 1001 65534 65535) = 0%nat.
Proof.
  split.
  - apply (every_id_is_translated_once 1000 1001 65534 65535 1000); lia.
  - apply (every_id_is_translated_once 1000 1001 65534 65535 70000); lia.
Defined.

(* ------------------------------------------------------------------ *)
(** ** The unit *)

Lemma valid_name_unescaped name : valid_artifact_name name = true -> escape_component name = name.
Proof.
  unfold valid_artifact_name. rewrite !andb_true_iff. intros ((((Hne & _) & _) & _) & Hall).
  assert (Hflat : flat_map escape_unit_byte name = name).
  { clear Hne. induction name as [|b name IH]; [done|]. cbn [forallb] in Hall. apply andb_true_iff in Hall as [Hb Hall].
    cbn [flat_map]. rewrite IH by done. unfold escape_unit_byte.
    assert (is_ascii_alphanumeric b || bool_decide (b = "_"%byte) || bool_decide (b = "-"%byte) = true) as ->; [|done].
    apply orb_true_iff in Hb as [Hb| ->]; [|apply orb_true_r].
    assert (is_ascii_alphanumeric b = true) as ->; [|done].
    unfold is_ascii_alphanumeric, is_ascii_alphabetic. unfold valid_edge in Hb. apply orb_true_iff in Hb as [-> | ->]; by rewrite ?orb_true_r. }
  unfold escape_component. rewrite Hflat. destruct name; [done|done].
Qed.

(** The unit a launch creates is the unit the rest of the program looks for.  For valid artifact names the name the
    transient unit is given equals the one [start], [stop] and [status] derive, although one side escapes and the
    other does not; and two sandboxes of one target never share a unit. *)
Theorem unit_names_agree {Value} (spec other : LaunchSpec Value) runtime_root :
  valid_artifact_name (sandbox_id spec) = true -> valid_artifact_name (spec_target spec) = true ->
  valid_artifact_name (sandbox_id other) = true ->
  unit_name spec = unit_ (for_report runtime_root (sandbox_id spec) (spec_target spec)) /\
  (spec_target other = spec_target spec -> unit_name other = unit_name spec -> sandbox_id other = sandbox_id spec).
Proof.
  intros Hs Ht Ho. unfold unit_name, for_report. cbn [unit_]. rewrite (valid_name_unescaped _ Hs), (valid_name_unescaped _ Ht). split; [done|].
  intros Htgt. rewrite Htgt, (valid_name_unescaped _ Ht), (valid_name_unescaped _ Ho). intros H.
  apply app_inv_head in H. by apply app_inv_tail in H.
Qed.
Lemma unit_names_agree_witness : unit_name demo_valid = unit_ (for_report demo_root (bs "p") (bs "t")).
Proof. by apply (unit_names_agree demo_valid demo_valid demo_root). Defined.
