(* ===== verification/Supervisor.v ===== *)
(** * The supervisor ([src/src/launch/supervisor.rs])

    One run brings up the share daemons, the network and the VMM, watches them, ends them and sweeps the runtime
    directory.  What the host answers is a record of functions of what was done so far or of the number of polls slept;
    what the supervisor does is a log. *)
From S2P Require Import Prelude Bytes Paths Message Diagnostic Lifecycle Mounts Launch Workspace Ip Allowlist Nft Spec Json Netns Policy.

Definition STARTUP_POLLS : nat := 400.
Definition POLL_INTERVAL : Z := 25.
Definition GUEST_POWEROFF_TIMEOUT : Z := 6000.
Definition SHUTDOWN_TIMEOUT : Z := 2000.
Definition CMDLINE_LIMIT : nat := 2048.
Definition BACKEND : bytes := bs "cloud-hypervisor".

(** ** The kernel command line *)

Definition mount_parameter (tag value : bytes) : bytes := bs " vivarium.mount." ++ tag ++ bs "=" ++ value.
Definition cmdline_step (cmdline : bytes) (share : ShareSpec) : result bytes LaunchError :=
  match mount_plan share with
  | None => Ok cmdline
  | Some plan =>
      match plan_kind plan, plan_entry plan with
      | (Dir | Tree), _ => Ok (cmdline ++ mount_parameter (tag share) (bs "dir"))
      | File, Some entry => Ok (cmdline ++ mount_parameter (tag share) (bs "file:" ++ entry))
      | File, None => Err (InvalidSpec (bs "a file mount plan lost its entry"))
      end
  end.
Definition compose_cmdline (base boot_identity : bytes) (shares : list ShareSpec) : result bytes LaunchError :=
  let? cmdline := fold_err cmdline_step shares (base ++ bs " vivarium.boot_identity=" ++ boot_identity) in
  if (CMDLINE_LIMIT <=? length cmdline)%nat
  then Err (InvalidSpec (bs "the launch parameters do not fit the guest kernel command line")) else Ok cmdline.

(** ** Children, reports and actions *)

Inductive ChildKind := Virtiofsd (tag : bytes) | Vmm | NetnsHolder | Uplink | Resolver.
#[export] Instance ChildKind_eq_dec : EqDecision ChildKind.
Proof. solve_decision. Defined.
Definition ends_with_guest (k : ChildKind) : bool := match k with Vmm | Virtiofsd _ => true | _ => false end.
Inductive ShutdownReason :=
| VmExit
| ChildFailure (kind : ChildKind) (status : option Z)
| ExplicitStop
| ProcessSignal
| UnitStop.
Inductive LaunchReady := ProcessReady | Failed.

(** What the supervisor did, each logged once it succeeded; a report and a request to the VMM are logged as made. *)
Inductive action :=
| Ran (c : CommandSpec)
| Renamed (from to : bytes)
| PrivateDir (path : bytes)
| OpenedRoot (source : bytes)
| Spawned (kind : ChildKind) (c : CommandSpec)
| AppliedRules (rules : Nftables)
| Wrote (path contents : bytes)
| ConnectedConsole
| AgentAnswered
| CredentialsParked
| Reported (r : LaunchReady)
| Asked (operation : string)
| CancelledTasks
| Killed (kind : ChildKind)
| Reaped (kind : ChildKind).

(** The runtime directory: absent, or its entries, by path. *)
Inductive entry_kind := EntryFile | EntryDir (empty : bool).
Definition rundir : Type := option (list (bytes * entry_kind)).
Record cleanup_faults := mk_cleanup_faults {
  cf_read : option fs_error;               (* opening the directory, other than its absence *)
  cf_next : option (nat * fs_error);       (* reading it, after how many entries *)
  cf_remove : bytes -> option fs_error;    (* removing an entry that is there *)
  cf_lock : option fs_error }.             (* inspecting the lock *)

(** ** The host *)

Record poll_answer := mk_poll_answer { pa_socket : result bool fs_error; pa_cancelled : bool }.
Inductive monitor_branch :=
| OnCancelled
| OnInterrupt (r : result unit fs_error)
| OnTerminate
| OnTask (r : option (result unit LaunchError))    (* a task ended, or panicked *)
| OnSleep.
Record sup_world := mk_sup_world {
  sw_symlink_metadata : list action -> bytes -> result link_kind fs_error;
  sw_metadata : list action -> bytes -> result file_kind fs_error;
  sw_exists : bytes -> result bool fs_error;
  sw_status : list action -> CommandSpec -> result (option Z) fs_error;     (* spawning a helper, its exit code *)
  sw_stdout : bytes;                                                        (* of [ip -j link show] *)
  sw_from_str : bytes -> option Value;
  sw_to_vec : Value -> option bytes;
  sw_metadata_to_vec : BootMetadata -> option bytes;
  sw_rename : bytes -> result unit fs_error;
  sw_private_dir : result unit LaunchError;
  sw_private_write : bytes -> result unit LaunchError;
  sw_open_root : bytes -> result (result file_kind fs_error) fs_error;      (* [open], then [fstat] *)
  sw_spawn : ChildKind -> result Z fs_error;                                (* the pid *)
  sw_proc_status : option bytes;
  sw_await_pair : Z -> result unit PairError;
  sw_apply : Nftables -> result unit NftApplyError;
  sw_uuid : result bytes fs_error;
  sw_console_sink : result unit LaunchError;
  sw_console_connected : bool;
  sw_agent : BootMetadata -> result unit LaunchError;
  sw_credentials : result unit LaunchError;
  sw_listening : bool;                                                      (* the initiator still receives *)
  sw_poll : bytes -> nat -> poll_answer;
  sw_try_wait : nat -> ChildKind -> result (option (option Z)) fs_error;    (* by polls slept *)
  sw_wait : ChildKind -> option fs_error;
  sw_kill : ChildKind -> option fs_error;
  sw_now : nat -> Z;                                                        (* milliseconds, by polls slept *)
  sw_signals : result unit fs_error;
  sw_rounds : list monitor_branch;                                          (* what each round of [monitor] meets *)
  sw_dir : list action -> rundir;
  sw_cleanup : cleanup_faults }.

Record sup_state := mk_sup_state {
  children : list (ChildKind * Z);
  vm_create_now : Value;
  log : list action;
  slept : nat }.
Definition sup : Type -> Type := sem sup_state LaunchError.
Definition record (a : action) : sup unit := fun s =>
  (Ok tt, mk_sup_state (children s) (vm_create_now s) (log s ++ [a]) (slept s)).
Definition sleep_poll : sup unit := fun s =>
  (Ok tt, mk_sup_state (children s) (vm_create_now s) (log s) (S (slept s))).
Definition try_ {A} (operation : string) (r : result A fs_error) : sup A := slift (map_err (Io (bs operation)) r).

(** [Path::with_extension]: what follows the stem of the last component is replaced. *)
Fixpoint trim_tail_fuel (fuel : nat) (p : bytes) : bytes :=
  match fuel with
  | O => p
  | S fuel =>
      match strip_suffix (bs "/") p, strip_suffix (bs "/.") p with
      | Some p', _ | _, Some p' => trim_tail_fuel fuel p'
      | None, None => p
      end
  end.
Definition file_stem (name : bytes) : bytes :=
  match find_byte "." (rev name) with
  | Some (_, before) => if bool_decide (before = []) then name else rev before
  | None => name
  end.
Definition with_extension (p ext : bytes) : bytes :=
  match file_name p with
  | None => p
  | Some name =>
      let p := trim_tail_fuel (length p) p in
      take (length p - length name) p ++ file_stem name ++ bs "." ++ ext
  end.
(** [value[key] = x] where the key is there. *)
Definition vset (v : Value) (key : bytes) (x : Value) : Value :=
  match v with
  | VObject o => VObject (map (fun f => if bytes_eqb (fst f) key then (fst f, x) else f) o)
  | _ => v
  end.

Section supervisor.
Context {Net : Type} {N : IpNetOps Net} (spec : LaunchSpec Value) (w : sup_world).

Definition validate_now : sup unit := fun s =>
  (validate (sw_symlink_metadata w (log s)) (sw_metadata w (log s)) spec, s).
(** [run_checked], and [run_captured]. *)
Definition run_checked (c : CommandSpec) : sup unit := fun s =>
  match sw_status w (log s) c with
  | Err e => (Err (Io (bs "run launch helper") e), s)
  | Ok (Some 0) => record (Ran c) s
  | Ok status => (Err (ChildExit (bs "launch helper") status), s)
  end.
Definition run_captured (c : CommandSpec) : sup bytes := run_checked c ;; sret (sw_stdout w).

(** ** Volumes *)

Definition staging_path (volume : VolumeSpec) : bytes := with_extension (path volume) (bs "img.staging").
Definition truncate_command (volume : VolumeSpec) : CommandSpec :=
  mk_CommandSpec (truncate (backend_programs spec)) [bs "-s"; dec (size_mib volume) ++ bs "M"; staging_path volume].
Definition mkfs_command (volume : VolumeSpec) : CommandSpec :=
  mk_CommandSpec (mkfs_ext4 (backend_programs spec))
    ([bs "-q"; bs "-L"; label volume] ++
     match inode_ratio volume with Some ratio => [bs "-i"; dec ratio] | None => [] end ++ [staging_path volume]).
Definition provision_volume (volume : VolumeSpec) : sup unit :=
  let! there := try_ "inspect volume" (sw_exists w (path volume)) in
  if there : bool then sret tt else
  run_checked (truncate_command volume) ;;
  run_checked (mkfs_command volume) ;;
  try_ "publish volume" (sw_rename w (path volume)) ;;
  record (Renamed (staging_path volume) (path volume)).
Fixpoint sfor_each {A} (f : A -> sup unit) (l : list A) : sup unit :=
  match l with [] => sret tt | x :: l' => f x ;; sfor_each f l' end.
Definition provision_volumes : sup unit := sfor_each provision_volume (volumes spec).

(** ** Shares *)

Definition open_share_root (share : ShareSpec) : sup unit :=
  let! stat := try_ "open share source" (sw_open_root w (source share)) in
  let! kind := try_ "inspect share source" stat in
  let staged := bool_decide (is_Some (stage_dir share (root (runtime_paths spec)))) in
  slift (guard_err (staged && negb (match kind with IsFile => true | _ => false end))
           (InvalidSpec (bs "a staged share source is not a regular file at spawn"))) ;;
  slift (guard_err (negb staged && negb (match kind with IsDir => true | _ => false end))
           (InvalidSpec (bs "share source is not a directory at spawn"))) ;;
  record (OpenedRoot (source share)).
Definition spawn_child (kind : ChildKind) (c : CommandSpec) : sup unit :=
  let! pid := try_ "spawn supervised child" (sw_spawn w kind) in
  fun s => (Ok tt, mk_sup_state (children s ++ [(kind, pid)]) (vm_create_now s) (log s ++ [Spawned kind c]) (slept s)).
Definition child_pid (kind : ChildKind) : sup Z := fun s =>
  (ok_or (option_map snd (List.find (fun c => bool_decide (fst c = kind)) (children s))) Task, s).

(** ** Waiting for a socket *)

Definition relevant (share_tag : option bytes) (kind : ChildKind) : bool :=
  match kind, share_tag with
  | Virtiofsd tag, Some expected => bytes_eqb tag expected
  | Virtiofsd _, None => false
  | _, _ => true
  end.
Fixpoint poll_children (share_tag : option bytes) (tick : nat) (l : list (ChildKind * Z)) : result unit LaunchError :=
  match l with
  | [] => Ok tt
  | (kind, _) :: l =>
      let? status := map_err (Io (bs "poll child")) (sw_try_wait w tick kind) in
      match status with
      | Some status => if relevant share_tag kind then Err (ChildExit (bs "startup child") status) else poll_children share_tag tick l
      | None => poll_children share_tag tick l
      end
  end.
Fixpoint wait_polls (n : nat) (socket : bytes) (share_tag : option bytes) : sup unit :=
  match n with
  | O => sfail (Readiness (bs "backend socket"))
  | S n => fun s =>
      let answer := sw_poll w socket (slept s) in
      match pa_socket answer with
      | Err e => (Err (Io (bs "inspect socket path") e), s)
      | Ok true => (Ok tt, s)
      | Ok false =>
          match poll_children share_tag (slept s) (children s) with
          | Err e => (Err e, s)
          | Ok _ => if pa_cancelled answer then (Err Cancelled, s) else (sleep_poll ;; wait_polls n socket share_tag) s
          end
      end
  end.
Definition wait_for_socket : bytes -> option bytes -> sup unit := wait_polls STARTUP_POLLS.

(** ** The network *)

Definition apply_rules (what : string) (rules : Nftables) : sup unit :=
  slift (map_err (fun _ => Readiness (bs what)) (sw_apply w rules)) ;; record (AppliedRules rules).
Definition is_allowlist : bool := match mode (egress spec) with AllowlistMode => true | Open => false end.
Definition install_filter : sup unit :=
  if negb is_allowlist then sret tt else
  let! allowlist := slift (map_err (fun _ => InvalidSpec (bs "egress allowlist entry is malformed")) (allowlist_parse (allow (egress spec)))) in
  apply_rules "egress ruleset" base_ruleset ;;
  match literal_destinations allowlist with
  | [] => sret tt
  | literals => apply_rules "egress literal destinations" (literal_elements literals)
  end.
Definition bring_up_network (drops : bool) : sup CommandSpec :=
  spawn_child NetnsHolder (netns_holder spec) ;;
  let! holder_pid := child_pid NetnsHolder in
  slift (map_err (fun _ => Readiness (bs "namespace pair")) (sw_await_pair w holder_pid)) ;;
  validate_now ;;
  run_checked (net_init spec holder_pid) ;;
  sfor_each (fun sequence => run_checked (in_namespace_ip spec holder_pid sequence))
    (setup_sequences (tap_name (network spec)) (gateway_cidr (network spec))) ;;
  let! links := run_captured (in_namespace_ip spec holder_pid [bs "-j"; bs "link"; bs "show"]) in
  slift (map_err (fun _ => Readiness (bs "tap device")) (assert_tap_up (sw_from_str w) links (tap_name (network spec)))) ;;
  install_filter ;;
  spawn_child Uplink (uplink spec holder_pid) ;;
  (if is_allowlist then spawn_child Resolver (resolver spec holder_pid) else sret tt) ;;
  sret (vmm spec holder_pid).

(** ** The VMM *)

Definition remote (operation : string) (payload : option bytes) : sup unit :=
  record (Asked operation) ;;
  run_checked (mk_CommandSpec (ch_remote (backend_programs spec))
    ([bs "--api-socket"; api_socket (runtime_paths spec); bs operation] ++ option_list payload)).
Definition prepare_boot_metadata : sup BootMetadata :=
  let! uuid := try_ "read boot identity" (sw_uuid w) in
  let boot_identity := trim uuid in
  slift (map_err (fun _ => InvalidSpec (bs "kernel UUID is malformed")) (validate_boot_identity boot_identity)) ;;
  fun s =>
    let vm := vm_create_now s in
    match (let* payload := vget vm (bs "payload") in let* line := vget payload (bs "cmdline") in as_str line) with
    | None => (Err (InvalidSpec (bs "VM create cmdline is missing")), s)
    | Some base =>
        match compose_cmdline base boot_identity (shares spec) with
        | Err e => (Err e, s)
        | Ok cmdline =>
            let vm := vset vm (bs "payload") (vset (vindex vm (bs "payload")) (bs "cmdline") (VString cmdline)) in
            (Ok (mk_BootMetadata LAUNCH_SCHEMA_VERSION boot_identity (sandbox_id spec) (spec_target spec) BACKEND
                   (canonicalize_set (map source (workspace_shares spec)))),
             mk_sup_state (children s) vm (log s) (slept s))
        end
    end.
Definition private_write (path contents : bytes) : sup unit := slift (sw_private_write w path) ;; record (Wrote path contents).
Definition write_boot_json (metadata : BootMetadata) : sup unit :=
  let! raw := slift (ok_or (sw_metadata_to_vec w metadata) (InvalidSpec (bs "boot metadata cannot be serialized"))) in
  private_write (boot_json (runtime_paths spec)) raw.
Definition write_vm_create_json : sup unit := fun s =>
  (let! raw := slift (ok_or (sw_to_vec w (vm_create_now s)) (InvalidSpec (bs "VM create JSON cannot be serialized"))) in
   private_write (vm_create_json (runtime_paths spec)) raw) s.
Definition write_vmm_pid : sup unit :=
  let! pid := child_pid Vmm in private_write (vm_pid (runtime_paths spec)) (dec pid).

(** ** The launch *)

Definition prepare_runtime : sup unit :=
  validate_now ;; slift (sw_private_dir w) ;; record (PrivateDir (root (runtime_paths spec))).
Definition run_inner : sup unit :=
  provision_volumes ;;
  validate_now ;;
  let drops := holds_cap_setpcap (sw_proc_status w) in
  let commands := share_commands spec drops in
  slift (validate_shares commands drops) ;;
  sfor_each open_share_root (shares spec) ;;
  sfor_each (fun p => spawn_child (Virtiofsd (tag (fst p))) (snd p)) (zip (shares spec) commands) ;;
  sfor_each (fun share => wait_for_socket (socket share) (Some (tag share))) (shares spec) ;;
  let! vmm := bring_up_network drops in
  slift (validate_rendered vmm commands drops) ;;
  spawn_child Vmm vmm ;;
  write_vmm_pid ;;
  wait_for_socket (api_socket (runtime_paths spec)) None ;;
  let! metadata := prepare_boot_metadata in
  write_vm_create_json ;;
  write_boot_json metadata ;;
  remote "create" (Some (vm_create_json (runtime_paths spec))) ;;
  wait_for_socket (console_socket (runtime_paths spec)) None ;;
  slift (sw_console_sink w) ;;
  slift (guard_err (negb (sw_console_connected w)) (Readiness (bs "console connection"))) ;;
  record ConnectedConsole ;;
  remote "boot" None ;;
  slift (sw_agent w metadata) ;;
  record AgentAnswered ;;
  slift (sw_credentials w) ;;
  record CredentialsParked ;;
  record (Reported ProcessReady) ;;
  slift (guard_err (negb (sw_listening w)) (Readiness (bs "initiator readiness channel"))).

(** ** Watching *)

Fixpoint first_exit (tick : nat) (l : list (ChildKind * Z)) : result (option ShutdownReason) LaunchError :=
  match l with
  | [] => Ok None
  | (kind, _) :: l =>
      let? status := map_err (Io (bs "poll child")) (sw_try_wait w tick kind) in
      match status with
      | Some status => Ok (Some (match kind with Vmm => VmExit | _ => ChildFailure kind status end))
      | None => first_exit tick l
      end
  end.
(** [None]: still watching when the rounds given run out. *)
Fixpoint watch (rounds : list monitor_branch) (s : sup_state) : option (result ShutdownReason LaunchError) * sup_state :=
  match rounds with
  | [] => (None, s)
  | branch :: rounds =>
      match first_exit (slept s) (children s) with
      | Err e => (Some (Err e), s)
      | Ok (Some reason) => (Some (Ok reason), s)
      | Ok None =>
          match branch with
          | OnCancelled => (Some (Ok ExplicitStop), s)
          | OnInterrupt (Err e) => (Some (Err (Io (bs "wait for process signal") e)), s)
          | OnInterrupt (Ok _) => (Some (Ok ProcessSignal), s)
          | OnTerminate => (Some (Ok UnitStop), s)
          | OnTask (Some (Ok _)) => (Some (Ok (ChildFailure Vmm None)), s)
          | OnTask _ => (Some (Err Task), s)
          | OnSleep => watch rounds (snd (sleep_poll s))
          end
      end
  end.
Definition monitor (s : sup_state) : option (result ShutdownReason LaunchError) * sup_state :=
  match sw_signals w with
  | Err e => (Some (Err (Io (bs "install signal handler") e)), s)
  | Ok _ => watch (sw_rounds w) s
  end.

(** ** Ending *)

Fixpoint alive_among (tick : nat) (l : list (ChildKind * Z)) : result bool LaunchError :=
  match l with
  | [] => Ok false
  | (kind, _) :: l =>
      if negb (ends_with_guest kind) then alive_among tick l else
      let? status := map_err (Io (bs "poll shutdown")) (sw_try_wait w tick kind) in
      let? rest := alive_among tick l in
      Ok ((match status with None => true | Some _ => false end) || rest)
  end.
Definition guest_children_alive : sup bool := fun s => (alive_among (slept s) (children s), s).
(** The polls of one window: each sleeps at least the interval, so [await_fuel] of them pass its deadline. *)
Fixpoint await_until (fuel : nat) (deadline : Z) : sup unit :=
  match fuel with
  | O => sret tt
  | S fuel =>
      let! alive := guest_children_alive in
      if negb alive then sret tt else
      fun s => if deadline <=? sw_now w (slept s) then (Ok tt, s) else (sleep_poll ;; await_until fuel deadline) s
  end.
Definition await_fuel (budget : Z) : nat := S (S (Z.to_nat (budget / POLL_INTERVAL))).
Definition await_children (budget : Z) : sup unit := fun s =>
  await_until (await_fuel budget) (sw_now w (slept s) + budget) s.
Definition ignoring {A} (m : sup A) : sup unit := fun s => (Ok tt, snd (m s)).
Definition end_child (c : ChildKind * Z) : sup unit := fun s =>
  let kind := fst c in
  match sw_try_wait w (slept s) kind with
  | Err e => (Err (Io (bs "poll shutdown") e), s)
  | Ok status =>
      ((match status with
        | Some _ => sret tt
        | None => match sw_kill w kind with Some e => sfail (Io (bs "kill child") e) | None => record (Killed kind) end
        end) ;;
       match sw_wait w kind with Some e => sfail (Io (bs "reap child") e) | None => record (Reaped kind) end) s
  end.
Definition shutdown_children : sup unit :=
  ignoring (remote "power-button" None) ;;
  await_children GUEST_POWEROFF_TIMEOUT ;;
  let! alive := guest_children_alive in
  (if alive : bool then ignoring (remote "shutdown" None) ;; await_children SHUTDOWN_TIMEOUT else sret tt) ;;
  (fun s => sfor_each end_child (children s) s) ;;
  record CancelledTasks.

(** ** Cleaning *)

Definition allowed_artifacts : list bytes :=
  let r := runtime_paths spec in
  [ launch_spec r; ready_socket r; api_socket r; api_socket r ++ bs ".lock"; console_socket r; control_socket r; console_log r;
    vm_pid r; boot_json r; vm_create_json r; console_log r ++ bs ".1"; console_log r ++ bs ".2" ] ++
  flat_map (fun share => [socket share; socket share ++ bs ".pid"]) (shares spec).
Definition stages : list bytes := omap (fun share => stage_dir share (root (runtime_paths spec))) (shares spec).
Definition lists_path (p : bytes) (l : list bytes) : bool := existsb (path_eqb p) l.
Definition tolerated (p : bytes) : bool :=
  path_eqb p (lock (runtime_paths spec)) || lists_path p allowed_artifacts || lists_path p stages.
Definition find_entry (p : bytes) (entries : list (bytes * entry_kind)) : option (bytes * entry_kind) :=
  List.find (fun e => path_eqb (fst e) p) entries.
Definition drop_entry (p : bytes) (entries : list (bytes * entry_kind)) : list (bytes * entry_kind) :=
  List.filter (fun e => negb (path_eqb (fst e) p)) entries.
Definition removable (dir : bool) (k : entry_kind) : bool :=
  match k with EntryFile => negb dir | EntryDir empty => dir && empty end.
(** [remove_file], or [remove_dir]: what is not there is no failure. *)
Definition remove_one (dir : bool) (what : string) (p : bytes) : sem (list (bytes * entry_kind)) LaunchError unit := fun entries =>
  match find_entry p entries with
  | None => (Ok tt, entries)
  | Some (_, kind) =>
      match cf_remove (sw_cleanup w) p with
      | Some e => (Err (Io (bs what) e), entries)
      | None => if removable dir kind then (Ok tt, drop_entry p entries) else (Err (Io (bs what) (OtherFs [])), entries)
      end
  end.
Fixpoint remove_all (dir : bool) (what : string) (l : list bytes) : sem (list (bytes * entry_kind)) LaunchError unit :=
  match l with [] => sret tt | p :: l => remove_one dir what p ;; remove_all dir what l end.
Definition read_fault (n : nat) : option fs_error :=
  let* (k, e) := cf_next (sw_cleanup w) in if (k =? n)%nat then Some e else None.
Fixpoint scan_from (n : nat) (entries : list (bytes * entry_kind)) : result unit LaunchError :=
  match read_fault n with
  | Some e => Err (Io (bs "read runtime entry") e)
  | None =>
      match entries with
      | [] => Ok tt
      | (p, _) :: entries => if tolerated p then scan_from (S n) entries else Err (UnknownRuntimeArtifact p)
      end
  end.
Definition scan : list (bytes * entry_kind) -> result unit LaunchError := scan_from 0.
Definition cleanup_runtime : sem rundir LaunchError unit := fun d =>
  match d with
  | None => (Ok tt, d)
  | Some entries =>
      match cf_read (sw_cleanup w), scan entries with
      | Some e, _ => (Err (Io (bs "read runtime directory") e), d)
      | None, Err e => (Err e, d)
      | None, Ok _ =>
          let '(r, remaining) := (remove_all false "remove runtime artifact" allowed_artifacts ;;
                             remove_all true "remove share staging directory" stages) entries in
          match r with
          | Err e => (Err e, Some remaining)
          | Ok _ =>
              match cf_lock (sw_cleanup w) with
              | Some e => (Err (Io (bs "inspect startup lock") e), Some remaining)
              | None =>
                  if bool_decide (is_Some (find_entry (lock (runtime_paths spec)) remaining)) then (Ok tt, Some remaining)
                  else match remaining with
                       | [] => (Ok tt, None)
                       | _ => (Err (Io (bs "remove runtime directory") (OtherFs [])), Some remaining)
                       end
              end
          end
      end
  end.

(** ** [run] *)

(** Where a run is: its answer ([None]: still watching), its state, and the runtime directory once it was swept. *)
Record outcome := mk_outcome { out_result : option (result ShutdownReason LaunchError); out_state : sup_state; out_dir : option rundir }.
(** Ends the children and sweeps; both answers are kept. *)
Definition teardown (s : sup_state) : result unit LaunchError * result unit LaunchError * sup_state * rundir :=
  let '(shutdown, s) := shutdown_children s in
  let '(cleanup, d) := cleanup_runtime (sw_dir w (log s)) in
  (shutdown, cleanup, s, d).
(** After a failure: [cleanup.and(Err(error))]. *)
Definition fail_after_cleanup (e : LaunchError) (s : sup_state) : outcome :=
  let '(_, cleanup, s, d) := teardown (snd (record CancelledTasks s)) in
  mk_outcome (Some (match cleanup with Ok _ => Err e | Err e' => Err e' end)) s (Some d).
Definition run : outcome :=
  match prepare_runtime (mk_sup_state [] (vm_create spec) [] 0) with
  | (Err e, s) => mk_outcome (Some (Err e)) (snd (record (Reported Failed) s)) None
  | (Ok _, s) =>
      match run_inner s with
      | (Err e, s) => fail_after_cleanup e (snd (record (Reported Failed) s))
      | (Ok _, s) =>
          match monitor s with
          | (None, s) => mk_outcome None s None
          | (Some (Err e), s) => fail_after_cleanup e s
          | (Some (Ok reason), s) =>
              let s := match reason with VmExit => s | _ => snd (record CancelledTasks s) end in
              let '(shutdown, cleanup, s, d) := teardown s in
              mk_outcome (Some (let? _ := shutdown in let? _ := cleanup in Ok reason)) s (Some d)
          end
      end
  end.
End supervisor.
