(* ===== verification/SupervisorSpec.v ===== *)
(** * SupervisorSpec: the order of a launch, its report, and its end

    A launch goes through one plan of actions, and a launch that fails has gone through a prefix of it: every claim about
    what precedes what is read off the plan. *)
From S2P Require Import Prelude Bytes Paths Message Diagnostic Lifecycle Mounts Launch Workspace Ip Allowlist Nft Spec SpecSpec Json Netns Policy Supervisor.

(* ------------------------------------------------------------------ *)
(** ** Following a plan *)

(** From a state of [P], [m] does the whole [plan] and ends in [Q], or fails within it. *)
Definition follows {A} (P : sup_state -> Prop) (m : sup A) (plan : list action) (Q : A -> sup_state -> Prop) : Prop :=
  forall s, P s -> exists acts, log (snd (m s)) = log s ++ acts /\
    match fst (m s) with Ok a => acts = plan /\ Q a (snd (m s)) | Err _ => acts `prefix_of` plan end.

Lemma follows_ret {A} (P : sup_state -> Prop) (a : A) (Q : A -> sup_state -> Prop) :
  (forall s, P s -> Q a s) -> follows P (sret a) [] Q.
Proof. intros H s Hs. exists []. cbn. rewrite app_nil_r. auto. Qed.
Lemma follows_lift {A} (P : sup_state -> Prop) (r : result A LaunchError) (Q : A -> sup_state -> Prop) :
  (forall a s, r = Ok a -> P s -> Q a s) -> follows P (slift r) [] Q.
Proof. intros H s Hs. exists []. cbn. rewrite app_nil_r. split; [done|]. destruct r; eauto. Qed.
Lemma follows_bind {A B} P (m : sup A) (k : A -> sup B) p q Q R :
  follows P m p Q -> (forall a, follows (Q a) (k a) q R) -> follows P (sbind m k) (p ++ q) R.
Proof.
  intros Hm Hk s Hs. destruct (Hm s Hs) as (acts & Hl & Hr). unfold sbind.
  destruct (m s) as [[a|e] s1]; cbn [fst snd] in *.
  - destruct Hr as [-> Hq]. destruct (Hk a s1 Hq) as (acts & Hl2 & Hr2). exists (p ++ acts). rewrite Hl2, Hl, app_assoc.
    split; [done|]. destruct (fst (k a s1)); [destruct Hr2 as [-> ?]; auto|by apply prefix_app].
  - exists acts. split; [done|]. by apply prefix_app_r.
Qed.
Lemma follows_then {A B} P (m : sup A) (n : sup B) p q Q R :
  follows P m p (fun _ => Q) -> follows Q n q R -> follows P (m ;; n) (p ++ q) R.
Proof. intros Hm Hn. eapply follows_bind; [exact Hm|]. intros a. exact Hn. Qed.
Lemma follows_record P (Q : unit -> sup_state -> Prop) a :
  (forall s, P s -> Q tt (snd (record a s))) -> follows P (record a) [a] Q.
Proof. intros H s Hs. exists [a]. cbn in *. auto. Qed.
Lemma follows_mono {A} (P P' : sup_state -> Prop) (m : sup A) p (Q Q' : A -> sup_state -> Prop) :
  follows P m p Q -> (forall s, P' s -> P s) -> (forall a s, Q a s -> Q' a s) -> follows P' m p Q'.
Proof.
  intros H HP HQ s Hs. destruct (H s (HP s Hs)) as (acts & Hl & Hr). exists acts. split; [done|].
  destruct (fst (m s)); [destruct Hr; auto|done].
Qed.
Lemma follows_at {A} (P : sup_state -> Prop) (m n : sup A) p Q :
  (forall s, P s -> m s = n s) -> follows P n p Q -> follows P m p Q.
Proof. intros H Hn s Hs. rewrite (H s Hs). by apply Hn. Qed.
Lemma follows_for {A} (P : sup_state -> Prop) (f : A -> sup unit) (plan : A -> list action) l :
  (forall x, x ∈ l -> follows P (f x) (plan x) (fun _ => P)) -> follows P (sfor_each f l) (flat_map plan l) (fun _ => P).
Proof.
  induction l as [|x l IH]; intros H; [by apply follows_ret|]. cbn [sfor_each flat_map].
  eapply follows_then; [apply H; by left|]. apply IH. intros y Hy. apply H. by right.
Qed.

Lemma follows_map {A} (P : sup_state -> Prop) (f : A -> sup unit) (g : A -> action) l :
  (forall x, follows P (f x) [g x] (fun _ => P)) -> follows P (sfor_each f l) (map g l) (fun _ => P).
Proof.
  intros H. replace (map g l) with (flat_map (fun x => [g x]) l) by (by induction l as [|x l IH]; [|cbn; rewrite IH]).
  by apply follows_for.
Qed.

(** An element that is not in the first half of a list lies behind it. *)
Lemma split_past {A} (a b pre : list A) x post :
  a ++ b = pre ++ x :: post -> x ∉ a -> exists b1, pre = a ++ b1 /\ b = b1 ++ x :: post.
Proof.
  intros H Hx. destruct (app_eq_inv _ _ _ _ H) as [(k & -> & Hb)|(k & -> & Hb)]; [|eauto].
  destruct k as [|y k]; cbn in Hb; [exists []; rewrite !app_nil_r; by split|].
  injection Hb as -> Hb. destruct Hx. apply elem_of_app. right. by left.
Qed.

Section supervisor.
Context {Net : Type} {N : IpNetOps Net} (spec : LaunchSpec Value) (w : sup_world).

(** The children are those the log says were spawned, under the pids they were given. *)
Definition pid_of (k : ChildKind) : Z := match sw_spawn w k with Ok pid => pid | Err _ => 0 end.
Definition spawned (l : list action) : list (ChildKind * Z) :=
  omap (fun a => match a with Spawned k _ => Some (k, pid_of k) | _ => None end) l.
Definition mirror (vm : Value) (s : sup_state) : Prop := children s = spawned (log s) /\ vm_create_now s = vm.
Lemma spawned_app l m : spawned (l ++ m) = spawned l ++ spawned m.
Proof. apply omap_app. Qed.
Definition holds_child (vm : Value) (k : ChildKind) (s : sup_state) : Prop := mirror vm s /\ k ∈ (children s).*1.

Lemma mirror_record vm a : (forall k c, a <> Spawned k c) -> follows (mirror vm) (record a) [a] (fun _ => mirror vm).
Proof.
  intros Ha. apply follows_record. intros s [Hs Hv]. split; [|done]. cbn. rewrite spawned_app, Hs.
  destruct a; try (by rewrite app_nil_r). by destruct (Ha kind c).
Qed.
Lemma mirror_lift {A} vm (r : result A LaunchError) : follows (mirror vm) (slift r) [] (fun _ => mirror vm).
Proof. by apply follows_lift. Qed.
Lemma follows_run P c :
  (forall s, P s -> P (snd (record (Ran c) s))) -> follows P (run_checked w c) [Ran c] (fun _ => P).
Proof.
  intros H s Hs. unfold run_checked. destruct (sw_status w (log s) c) as [[[| |]|]|e];
    try (exists []; cbn; rewrite app_nil_r; split; [done|apply prefix_nil]). exists [Ran c]. cbn in *. auto.
Qed.
Lemma follows_pure {A} (phi : Prop) (P : sup_state -> Prop) (m : sup A) p Q :
  (phi -> follows P m p Q) -> follows (fun s => phi /\ P s) m p Q.
Proof. intros H s [Hphi Hs]. by apply H. Qed.

Lemma follows_spawn vm k c : follows (mirror vm) (spawn_child w k c) [Spawned k c] (fun _ => holds_child vm k).
Proof.
  intros s Hs. unfold spawn_child, sbind, try_, slift. destruct (sw_spawn w k) as [pid|e] eqn:E; cbn [map_err].
  - exists [Spawned k c]. cbn. split; [done|]. split; [done|]. split.
    + destruct Hs as [Hs Hv]. split; [|done]. cbn. rewrite spawned_app, Hs. cbn. unfold pid_of. by rewrite E.
    + cbn. rewrite fmap_app. apply elem_of_app. right. by left.
  - exists []. cbn. rewrite app_nil_r. split; [done|apply prefix_nil].
Qed.
Lemma follows_child_pid vm k : follows (holds_child vm k) (child_pid k) [] (fun pid s => pid = pid_of k /\ mirror vm s).
Proof.
  intros s [Hm Hk]. exists []. rewrite app_nil_r. split; [done|]. unfold child_pid. cbn [fst snd].
  destruct (List.find _ (children s)) as [[k' pid]|] eqn:E; cbn [option_map ok_or].
  - split; [done|]. split; [|done]. apply find_some in E as [Hin E]. apply bool_decide_eq_true in E. cbn in E. subst k'.
    rewrite (proj1 Hm) in Hin. apply list_elem_of_In, list_elem_of_omap in Hin as (a & _ & Ha). by destruct a; simplify_eq.
  - apply prefix_nil.
Qed.
Lemma follows_wait vm n socket tag : follows (mirror vm) (wait_polls w n socket tag) [] (fun _ => mirror vm).
Proof.
  induction n as [|n IH]; intros s Hs; cbn [wait_polls].
  - exists []. cbn. by rewrite app_nil_r.
  - assert (Hstop : exists acts, log s = log s ++ acts /\ acts `prefix_of` []).
    { exists []. by rewrite app_nil_r. }
    destruct (pa_socket _) as [[]|e]; cbn [fst snd]; [|..|exact Hstop].
    { exists []. by rewrite app_nil_r. }
    destruct (poll_children _ _ _ _); cbn [fst snd]; [|exact Hstop].
    destruct (pa_cancelled _); cbn [fst snd]; [exact Hstop|].
    apply (IH (mk_sup_state (children s) (vm_create_now s) (log s) (S (slept s)))). exact Hs.
Qed.

(** ** The plan *)

Definition holder_pid : Z := pid_of NetnsHolder.
Definition drops : bool := holds_cap_setpcap (sw_proc_status w).
Definition volume_plan (v : VolumeSpec) : list action :=
  match sw_exists w (path v) with
  | Ok true => []
  | _ => [Ran (truncate_command spec v); Ran (mkfs_command spec v); Renamed (staging_path v) (path v)]
  end.
Definition literals : list (AllowEntry Net) :=
  match allowlist_parse (allow (egress spec)) with Ok a => literal_destinations a | Err _ => [] end.
(** The rules an allowlisted guest is filtered by. *)
Definition filter_rules : list Nftables :=
  if is_allowlist spec then base_ruleset :: match literals with [] => [] | l => [literal_elements l] end else [].
Definition namespace_plan : list action :=
  [Spawned NetnsHolder (netns_holder spec); Ran (net_init spec holder_pid)] ++
  map (fun sequence => Ran (in_namespace_ip spec holder_pid sequence))
    (setup_sequences (tap_name (network spec)) (gateway_cidr (network spec)) ++ [[bs "-j"; bs "link"; bs "show"]]).
Definition uplink_plan : list action :=
  Spawned Uplink (uplink spec holder_pid) :: if is_allowlist spec then [Spawned Resolver (resolver spec holder_pid)] else [].
Definition network_plan : list action := namespace_plan ++ map AppliedRules filter_rules ++ uplink_plan.
Definition daemons_plan : list action :=
  map (fun p => Spawned (Virtiofsd (tag (fst p))) (snd p)) (zip (shares spec) (share_commands spec drops)).
Definition roots_plan : list action := map (fun share => OpenedRoot (source share)) (shares spec).

Definition booted_identity : bytes := match sw_uuid w with Ok uuid => trim uuid | Err _ => [] end.
Definition boot_metadata : BootMetadata :=
  mk_BootMetadata LAUNCH_SCHEMA_VERSION booted_identity (sandbox_id spec) (spec_target spec) BACKEND
    (canonicalize_set (map source (workspace_shares spec))).
Definition base_cmdline : option bytes :=
  let* payload := vget (vm_create spec) (bs "payload") in let* line := vget payload (bs "cmdline") in as_str line.
(** The VM that is created: the contract's own, with the composed command line. *)
Definition booted_vm : Value :=
  match base_cmdline with
  | Some base =>
      match compose_cmdline base booted_identity (shares spec) with
      | Ok cmdline => vset (vm_create spec) (bs "payload") (vset (vindex (vm_create spec) (bs "payload")) (bs "cmdline") (VString cmdline))
      | Err _ => vm_create spec
      end
  | None => vm_create spec
  end.
Definition asked (operation : string) (payload : option bytes) : list action :=
  [Asked operation; Ran (mk_CommandSpec (ch_remote (backend_programs spec))
     ([bs "--api-socket"; api_socket (runtime_paths spec); bs operation] ++ option_list payload))].
Definition records_plan : list action :=
  [Wrote (vm_create_json (runtime_paths spec)) (default [] (sw_to_vec w booted_vm));
   Wrote (boot_json (runtime_paths spec)) (default [] (sw_metadata_to_vec w boot_metadata))].
Definition guest_plan : list action :=
  [Spawned Vmm (vmm spec holder_pid); Wrote (vm_pid (runtime_paths spec)) (dec (pid_of Vmm))] ++ records_plan ++
  asked "create" (Some (vm_create_json (runtime_paths spec))) ++ [ConnectedConsole] ++ asked "boot" None ++ [AgentAnswered; CredentialsParked].
(** A share's root, opened, is what its plan says. *)
Definition root_ok (share : ShareSpec) : bool :=
  match sw_open_root w (source share) with
  | Ok (Ok IsFile) => bool_decide (is_Some (stage_dir share (root (runtime_paths spec))))
  | Ok (Ok IsDir) => negb (bool_decide (is_Some (stage_dir share (root (runtime_paths spec)))))
  | _ => false
  end.
Definition commands_ok : bool := is_ok (validate_shares (share_commands spec drops) drops).
Definition checked : bool := commands_ok && forallb root_ok (shares spec).
Definition gate (b : bool) (l : list action) : list action := if b then l else [].
Definition launch_plan : list action :=
  flat_map volume_plan (volumes spec) ++
  gate commands_ok (roots_plan ++
    gate (forallb root_ok (shares spec)) (daemons_plan ++ network_plan ++ guest_plan ++ [Reported ProcessReady])).

(** ** Every stage follows its part *)

Lemma follows_checked vm c : follows (mirror vm) (run_checked w c) [Ran c] (fun _ => mirror vm).
Proof. apply follows_run. intros s [Hs Hv]. split; [|done]. cbn. by rewrite spawned_app, app_nil_r. Qed.
Lemma follows_volume vm v : follows (mirror vm) (provision_volume spec w v) (volume_plan v) (fun _ => mirror vm).
Proof.
  unfold provision_volume, volume_plan, try_. destruct (sw_exists w (path v)) as [[]|e]; cbn [map_err].
  - intros s Hs. cbn. exists []. by rewrite app_nil_r.
  - refine (follows_bind _ _ _ [] _ (fun b s => b = false /\ mirror vm s) _ _ _); [apply follows_lift; naive_solver|].
    intros b. apply follows_pure. intros ->.
    change [Ran (truncate_command spec v); Ran (mkfs_command spec v); Renamed (staging_path v) (path v)]
      with ([Ran (truncate_command spec v)] ++ [Ran (mkfs_command spec v)] ++ [] ++ [Renamed (staging_path v) (path v)]).
    eapply follows_then; [apply follows_checked|]. eapply follows_then; [apply follows_checked|].
    eapply follows_then; [apply mirror_lift|]. by apply mirror_record.
  - intros s Hs. exists []. cbn. rewrite app_nil_r. split; [done|apply prefix_nil].
Qed.

Lemma follows_open_root vm share :
  follows (mirror vm) (open_share_root spec w share) [OpenedRoot (source share)] (fun _ s => root_ok share = true /\ mirror vm s).
Proof.
  unfold open_share_root, root_ok, try_. set (staged := bool_decide (is_Some (stage_dir share _))). clearbody staged.
  intros s Hs. assert (Hno : exists acts, log s = log s ++ acts /\ acts `prefix_of` [OpenedRoot (source share)]).
  { exists []. rewrite app_nil_r. split; [done|apply prefix_nil]. }
  destruct (sw_open_root w (source share)) as [[kind|e]|e]; [|exact Hno..].
  destruct kind, staged; try exact Hno.
  all: destruct (mirror_record vm (OpenedRoot (source share)) ltac:(done) s Hs) as (acts & Hl & Hr); exists acts; split; [exact Hl|].
  all: destruct Hr as [-> Hr]; cbn; split; [done|]; split; [done|exact Hr].
Qed.
Lemma follows_open_roots vm l :
  follows (mirror vm) (sfor_each (open_share_root spec w) l) (map (fun share => OpenedRoot (source share)) l)
    (fun _ s => forallb root_ok l = true /\ mirror vm s).
Proof.
  induction l as [|share l IH]; cbn [sfor_each map forallb]; [by apply follows_ret|].
  refine (follows_bind _ _ _ [_] _ _ _ (follows_open_root vm share) _). intros u. apply follows_pure. intros ->. exact IH.
Qed.
Lemma follows_apply vm what rules : follows (mirror vm) (apply_rules w what rules) [AppliedRules rules] (fun _ => mirror vm).
Proof.
  unfold apply_rules. change [AppliedRules rules] with ([] ++ [AppliedRules rules]).
  eapply follows_then; [apply mirror_lift|]. by apply mirror_record.
Qed.
Lemma follows_filter vm : follows (mirror vm) (install_filter spec w) (map AppliedRules filter_rules) (fun _ => mirror vm).
Proof.
  unfold install_filter, filter_rules, literals. destruct (is_allowlist spec); cbn [negb]; [|by apply follows_ret].
  change (map AppliedRules (base_ruleset :: ?l)) with ([] ++ [AppliedRules base_ruleset] ++ map AppliedRules l).
  refine (follows_bind _ _ _ [] _ (fun a s => allowlist_parse (allow (egress spec)) = Ok a /\ mirror vm s) _ _ _).
  { apply follows_lift. intros a s H%map_err_ok Hs. by split. }
  intros a. apply follows_pure. intros ->. eapply follows_then; [apply follows_apply|].
  destruct (literal_destinations a); [by apply follows_ret|apply follows_apply].
Qed.
Lemma follows_validate vm : follows (mirror vm) (validate_now spec w) [] (fun _ => mirror vm).
Proof. intros s Hs. exists []. cbn. rewrite app_nil_r. split; [done|]. by destruct (validate _ _ _). Qed.
Lemma follows_network vm : follows (mirror vm) (bring_up_network spec w drops) network_plan
  (fun c s => c = Policy.vmm spec holder_pid /\ mirror vm s).
Proof.
  unfold bring_up_network, network_plan, namespace_plan, uplink_plan. rewrite map_app, <- !app_assoc.
  eapply (follows_then _ _ _ [_]); [apply follows_spawn|].
  refine (follows_bind _ _ _ [] _ _ _ (follows_child_pid vm NetnsHolder) _). intros pid. apply follows_pure. intros ->.
  fold holder_pid. eapply (follows_then _ _ _ []); [apply mirror_lift|]. eapply (follows_then _ _ _ []); [apply follows_validate|].
  eapply (follows_then _ _ _ [_]); [apply follows_checked|].
  eapply (follows_then _ _ _ (map _ _)).
  { apply follows_map. intros x. apply follows_checked. }
  refine (follows_bind _ _ _ [_] _ (fun _ => mirror vm) _ _ _).
  { unfold run_captured. eapply (follows_then _ _ _ [_] []); [apply follows_checked|by apply follows_ret]. }
  intros links. eapply (follows_then _ _ _ []); [apply mirror_lift|]. eapply follows_then; [apply follows_filter|].
  eapply (follows_then _ _ _ [_]); [eapply follows_mono; [apply follows_spawn|done|by intros ? ? []]|].
  rewrite <- (app_nil_r (if is_allowlist spec then _ else _)). eapply follows_then; [|by apply follows_ret].
  destruct (is_allowlist spec); [eapply follows_mono; [apply follows_spawn|done|by intros ? ? []]|by apply follows_ret].
Qed.
Lemma follows_metadata : follows (mirror (vm_create spec)) (prepare_boot_metadata spec w) []
  (fun m s => m = boot_metadata /\ mirror booted_vm s).
Proof.
  unfold prepare_boot_metadata. refine (follows_bind _ _ _ [] [] (fun u s => sw_uuid w = Ok u /\ mirror (vm_create spec) s) _ _ _).
  { apply follows_lift. intros u s H%map_err_ok Hs. by split. }
  intros uuid. apply follows_pure. intros Hu. eapply (follows_then _ _ _ [] []); [apply mirror_lift|].
  intros s [Hs Hvm]. exists []. rewrite app_nil_r. unfold boot_metadata, booted_vm, booted_identity, base_cmdline. rewrite Hu, Hvm.
  destruct (let* payload := vget (vm_create spec) (bs "payload") in _) as [base|]; cbn [fst snd]; [|by split].
  destruct (compose_cmdline base (trim uuid) (shares spec)); cbn [fst snd]; by repeat split.
Qed.
Lemma follows_write vm p contents : follows (mirror vm) (private_write w p contents) [Wrote p contents] (fun _ => mirror vm).
Proof.
  unfold private_write. eapply (follows_then _ _ _ []); [apply mirror_lift|]. by apply mirror_record.
Qed.
Lemma follows_encoded vm p (raw : option bytes) e :
  follows (mirror vm) (let! raw := slift (ok_or raw e) in private_write w p raw) [Wrote p (default [] raw)] (fun _ => mirror vm).
Proof.
  refine (follows_bind _ _ _ [] _ (fun x s => raw = Some x /\ mirror vm s) _ _ _).
  { apply follows_lift. intros x s H%ok_or_ok Hs. by split. }
  intros x. apply follows_pure. intros ->. apply follows_write.
Qed.
Lemma follows_vm_record :
  follows (mirror booted_vm) (write_vm_create_json spec w)
    [Wrote (vm_create_json (runtime_paths spec)) (default [] (sw_to_vec w booted_vm))] (fun _ => mirror booted_vm).
Proof. eapply follows_at; [|apply follows_encoded]. intros s [_ Hvm]. unfold write_vm_create_json. by rewrite Hvm. Qed.
Lemma follows_remote vm operation payload :
  follows (mirror vm) (remote spec w operation payload) (asked operation payload) (fun _ => mirror vm).
Proof. unfold remote, asked. eapply (follows_then _ _ _ [_] [_]); [by apply mirror_record|apply follows_checked]. Qed.

Ltac silently tac := eapply (follows_then _ _ _ []); [solve [tac]|].
Lemma follows_guest :
  follows (mirror (vm_create spec))
    (spawn_child w Vmm (Policy.vmm spec holder_pid) ;; write_vmm_pid spec w ;;
     wait_for_socket w (api_socket (runtime_paths spec)) None ;;
     let! metadata := prepare_boot_metadata spec w in
     write_vm_create_json spec w ;;
     write_boot_json spec w metadata ;;
     remote spec w "create" (Some (vm_create_json (runtime_paths spec))) ;;
     wait_for_socket w (console_socket (runtime_paths spec)) None ;;
     slift (sw_console_sink w) ;;
     slift (guard_err (negb (sw_console_connected w)) (Readiness (bs "console connection"))) ;;
     record ConnectedConsole ;;
     remote spec w "boot" None ;;
     slift (sw_agent w metadata) ;;
     record AgentAnswered ;;
     slift (sw_credentials w) ;;
     record CredentialsParked ;;
     record (Reported ProcessReady) ;;
     slift (guard_err (negb (sw_listening w)) (Readiness (bs "initiator readiness channel"))))
    (guest_plan ++ [Reported ProcessReady]) (fun _ => mirror booted_vm).
Proof.
  unfold guest_plan. rewrite <- !app_assoc. eapply (follows_then _ _ _ [_]); [apply follows_spawn|].
  eapply (follows_then _ _ _ [_]).
  { unfold write_vmm_pid. refine (follows_bind _ _ _ [] _ _ _ (follows_child_pid _ Vmm) _). intros pid.
    apply follows_pure. intros ->. apply follows_write. }
  silently ltac:(apply follows_wait). refine (follows_bind _ _ _ [] _ _ _ follows_metadata _).
  intros metadata. apply follows_pure. intros ->.
  eapply (follows_then _ _ _ [_]); [apply follows_vm_record|]. eapply (follows_then _ _ _ [_]); [apply follows_encoded|].
  eapply follows_then; [apply follows_remote|]. silently ltac:(apply follows_wait). do 2 (silently ltac:(apply mirror_lift)).
  eapply (follows_then _ _ _ [_]); [by apply mirror_record|]. eapply follows_then; [apply follows_remote|].
  silently ltac:(apply mirror_lift). eapply (follows_then _ _ _ [_]); [by apply mirror_record|].
  silently ltac:(apply mirror_lift). eapply (follows_then _ _ _ [_]); [by apply mirror_record|].
  eapply (follows_then _ _ _ [_] []); [by apply mirror_record|apply mirror_lift].
Qed.
Lemma follows_launch : follows (mirror (vm_create spec)) (run_inner spec w) launch_plan (fun _ s => checked = true /\ mirror booted_vm s).
Proof.
  unfold run_inner, launch_plan, checked. cbv zeta. fold drops.
  eapply follows_then; [apply follows_for; intros v _; apply follows_volume|].
  silently ltac:(apply follows_validate).
  refine (follows_bind _ _ _ [] (gate commands_ok _) (fun _ s => commands_ok = true /\ mirror (vm_create spec) s) _ _ _).
  { apply follows_lift. intros u s Hu Hs. split; [|done]. unfold commands_ok. by rewrite Hu. }
  intros u. apply follows_pure. intros ->. cbn [gate].
  refine (follows_bind _ _ _ _ (gate (forallb root_ok (shares spec)) _) _ _ (follows_open_roots _ _) _). intros u'. apply follows_pure. intros ->. cbn [gate].
  eapply follows_then; [apply follows_map; intros x; eapply follows_mono; [apply follows_spawn|done|by intros ? ? []]|].
  eapply (follows_then _ _ _ []).
  { replace [] with (flat_map (fun _ : ShareSpec => @nil action) (shares spec)) by (by induction (shares spec)).
    apply follows_for. intros x _. apply follows_wait. }
  unfold network_plan. refine (follows_bind _ _ _ _ _ _ _ (follows_network _) _). intros vmm. apply follows_pure. intros ->.
  silently ltac:(apply mirror_lift). eapply follows_mono; [apply follows_guest|done|]. intros u'' s Hs. by split.
Qed.

(* ------------------------------------------------------------------ *)
(** ** The history of a run *)

(** What ending a run may log. *)
Definition ending (a : action) : bool :=
  match a with Asked _ | Ran _ | Killed _ | Reaped _ | CancelledTasks => true | _ => false end.
(** [m] logs nothing but such actions. *)
Definition only_ends {A} (m : sup A) : Prop :=
  forall s, exists acts, log (snd (m s)) = log s ++ acts /\ Forall (fun a => ending a = true) acts.
Lemma only_ends_silent {A} (m : sup A) : (forall s, log (snd (m s)) = log s) -> only_ends m.
Proof. intros H s. exists []. by rewrite H, app_nil_r. Qed.
Lemma only_ends_record a : ending a = true -> only_ends (record a).
Proof. intros H s. exists [a]. split; [done|]. by constructor. Qed.
Lemma only_ends_bind {A B} (m : sup A) (k : A -> sup B) : only_ends m -> (forall a, only_ends (k a)) -> only_ends (sbind m k).
Proof.
  intros Hm Hk s. destruct (Hm s) as (p & Hp & Fp). unfold sbind. destruct (m s) as [[a|e] s1]; cbn [fst snd] in *; [|eauto].
  destruct (Hk a s1) as (q & Hq & Fq). exists (p ++ q). rewrite Hq, Hp, app_assoc. split; [done|]. by apply Forall_app.
Qed.
Lemma only_ends_let {A} (f : sup_state -> sup A) : (forall x, only_ends (f x)) -> only_ends (fun s => f s s).
Proof. intros H s. by apply H. Qed.
Lemma only_ends_for {A} (f : A -> sup unit) l : (forall x, only_ends (f x)) -> only_ends (sfor_each f l).
Proof. intros H. induction l as [|x l IH]; [by apply only_ends_silent|]. by apply only_ends_bind. Qed.
Lemma only_ends_run c : only_ends (run_checked w c).
Proof.
  intros s. unfold run_checked. destruct (sw_status w (log s) c) as [[[| |]|]|e];
    try (exists []; rewrite app_nil_r; by split). by apply (only_ends_record (Ran c)).
Qed.
Lemma only_ends_remote operation payload : only_ends (remote spec w operation payload).
Proof. apply only_ends_bind; [by apply only_ends_record|]. intros _. apply only_ends_run. Qed.
Lemma only_ends_ignoring {A} (m : sup A) : only_ends m -> only_ends (ignoring m).
Proof. intros H s. exact (H s). Qed.
Lemma await_silent fuel deadline s : log (snd (await_until w fuel deadline s)) = log s.
Proof.
  revert s. induction fuel as [|fuel IH]; intros s; [done|]. cbn [await_until]. unfold sbind, guest_children_alive.
  destruct (alive_among _ _ _) as [alive|]; [|done]. destruct alive; [|done]. cbn [negb]. destruct (_ <=? _); [done|]. apply (IH (mk_sup_state _ _ (log s) _)).
Qed.
Lemma only_ends_end_child c : only_ends (end_child w c).
Proof.
  unfold end_child. intros s. destruct (sw_try_wait w (slept s) (fst c)) as [status|e]; [|exists []; by rewrite app_nil_r].
  revert s. change (only_ends ((match status with Some _ => sret tt | None =>
    match sw_kill w (fst c) with Some e => sfail (Io (bs "kill child") e) | None => record (Killed (fst c)) end end) ;;
    match sw_wait w (fst c) with Some e => sfail (Io (bs "reap child") e) | None => record (Reaped (fst c)) end)).
  apply only_ends_bind; [|intros _]; repeat case_match; (by apply only_ends_silent) || (by apply only_ends_record).
Qed.
Lemma only_ends_shutdown : only_ends (shutdown_children spec w).
Proof.
  unfold shutdown_children. apply only_ends_bind; [apply only_ends_ignoring, only_ends_remote|]. intros _.
  apply only_ends_bind; [apply only_ends_silent; intros s; apply await_silent|]. intros _.
  apply only_ends_bind; [by apply only_ends_silent|]. intros alive.
  apply only_ends_bind; [destruct alive; [|by apply only_ends_silent]|].
  { apply only_ends_bind; [apply only_ends_ignoring, only_ends_remote|]. intros _. apply only_ends_silent. intros s. apply await_silent. }
  intros _. apply only_ends_bind; [|intros _; by apply only_ends_record].
  apply (only_ends_let (fun s => sfor_each (end_child w) (children s))). intros x. apply only_ends_for. apply only_ends_end_child.
Qed.
Lemma watch_log rounds s : log (snd (watch w rounds s)) = log s.
Proof.
  revert s. induction rounds as [|b rounds IH]; intros s; [done|]. cbn [watch].
  destruct (first_exit w (slept s) (children s)) as [[]|]; [done| |done].
  destruct b as [|[]| |[[]|]|]; try done. by rewrite IH.
Qed.
Lemma teardown_log s : exists acts, log (snd (fst (teardown spec w s))) = log s ++ acts /\ Forall (fun a => ending a = true) acts.
Proof.
  destruct (only_ends_shutdown s) as (acts & Hl & Ha). unfold teardown. destruct (shutdown_children spec w s) as [r s1].
  destruct (cleanup_runtime spec w _) as [c d]. cbn [fst snd] in *. eauto.
Qed.
Lemma fail_log e s :
  (exists e', out_result (fail_after_cleanup spec w e s) = Some (Err e')) /\
  exists acts, log (out_state (fail_after_cleanup spec w e s)) = log s ++ acts /\ Forall (fun a => ending a = true) acts.
Proof.
  unfold fail_after_cleanup. destruct (teardown_log (snd (record CancelledTasks s))) as (acts & Hl & Ha).
  destruct (teardown spec w _) as [[[sh cl] s1] d]. cbn [fst snd out_result out_state] in *.
  split; [destruct cl; eauto|]. exists (CancelledTasks :: acts). rewrite Hl. cbn. rewrite <- app_assoc. split; [done|]. by constructor.
Qed.
Definition full_plan : list action := PrivateDir (root (runtime_paths spec)) :: launch_plan.
(** A run that failed before it was ready did a prefix of the plan and said so before it ended anything; any other did
    the whole plan before it ended anything. *)
Lemma history :
  (exists acts ends, acts `prefix_of` full_plan /\ log (out_state (run spec w)) = acts ++ Reported Failed :: ends /\
     Forall (fun a => ending a = true) ends /\ exists e, out_result (run spec w) = Some (Err e)) \/
  (checked = true /\ exists ends, log (out_state (run spec w)) = full_plan ++ ends /\ Forall (fun a => ending a = true) ends).
Proof.
  set (s0 := mk_sup_state [] (vm_create spec) [] 0).
  assert (Hprep : follows (mirror (vm_create spec)) (prepare_runtime spec w) [PrivateDir (root (runtime_paths spec))] (fun _ => mirror (vm_create spec))).
  { unfold prepare_runtime. silently ltac:(apply follows_validate). silently ltac:(apply mirror_lift). by apply mirror_record. }
  destruct (Hprep s0 (conj eq_refl eq_refl)) as (acts & Hl & Hr). unfold run. fold s0.
  destruct (prepare_runtime spec w s0) as [[u|e] s1]; cbn [fst snd] in Hl, Hr.
  2:{ left. exists acts, []. cbn [out_state out_result]. split_and!; [by apply (prefix_app_r acts [_] launch_plan)| |constructor|eauto].
      cbn. by rewrite Hl. }
  destruct Hr as [-> Hr]. destruct (follows_launch s1 Hr) as (acts & Hl2 & Hr2).
  destruct (run_inner spec w s1) as [[v|e] s2]; cbn [fst snd] in Hl2, Hr2.
  2:{ left. destruct (fail_log e (snd (record (Reported Failed) s2))) as [He (ends & Hl3 & Hends)].
      exists (PrivateDir (root (runtime_paths spec)) :: acts), ends. split_and!; [by apply (prefix_app [_])| |done|done].
      rewrite Hl3. cbn. by rewrite Hl2, Hl, <- app_assoc. }
  right. destruct Hr2 as [-> [Hck _]]. split; [exact Hck|]. assert (Hfull : log s2 = full_plan) by (by rewrite Hl2, Hl).
  assert (Hmon : log (snd (monitor w s2)) = full_plan).
  { unfold monitor. destruct (sw_signals w); [by rewrite watch_log|done]. }
  destruct (monitor w s2) as [[[reason|e]|] s3]; cbn [snd] in Hmon.
  - set (s4 := match reason with VmExit => s3 | _ => _ end).
    assert (H4 : exists c, log s4 = full_plan ++ c /\ Forall (fun a => ending a = true) c).
    { destruct reason; try (exists [CancelledTasks]; cbn; rewrite Hmon; split; [done|by repeat constructor]).
      exists []. rewrite app_nil_r. by split. }
    destruct H4 as (c & Hc & Fc), (teardown_log s4) as (ends & Hl3 & Hends). clearbody s4.
    destruct (teardown spec w s4) as [[[sh cl] s5] d]. cbn [fst snd out_state] in *. exists (c ++ ends).
    rewrite Hl3, Hc, app_assoc. split; [done|]. by apply Forall_app.
  - destruct (fail_log e s3) as [_ (ends & Hl3 & Hends)]. exists ends. by rewrite Hl3, Hmon.
  - exists []. cbn [out_state]. by rewrite Hmon, app_nil_r.
Qed.

(** Whatever a run did that is not an ending or a failure report, it did in the order of the plan. *)
Lemma history_split pre a post :
  log (out_state (run spec w)) = pre ++ a :: post -> ending a = false -> a <> Reported Failed ->
  exists rest, full_plan = pre ++ a :: rest.
Proof.
  intros Hl Ha Hf.
  assert (Hgen : forall acts tail rest, full_plan = acts ++ rest -> log (out_state (run spec w)) = acts ++ tail ->
            a ∉ tail -> exists rest, full_plan = pre ++ a :: rest).
  { intros acts tail rest Hfull Hlog Hin. rewrite Hl in Hlog.
    destruct (app_eq_inv _ _ _ _ Hlog) as [(k & Hp & Ht)|(k & Hp & Ht)].
    - destruct Hin. rewrite Ht. apply elem_of_app. right. by left.
    - destruct k as [|b k]; cbn in Ht; [destruct Hin; rewrite <- Ht; by left|]. injection Ht as <- Ht.
      exists (k ++ rest). by rewrite Hfull, Hp, <- app_assoc. }
  assert (Hends : forall ends, Forall (fun a => ending a = true) ends -> a ∉ ends).
  { intros ends H Hin. rewrite Forall_forall in H. specialize (H a Hin). congruence. }
  destruct history as [(acts & ends & [rest Hrest] & Hlog & He & _)|(_ & ends & Hlog & He)].
  - apply (Hgen acts _ rest Hrest Hlog). rewrite elem_of_cons. intros [->|Hin]; [done|by apply (Hends ends)].
  - apply (Hgen full_plan ends []); [by rewrite app_nil_r|done|by apply Hends].
Qed.

(* ------------------------------------------------------------------ *)
(** ** What precedes what *)

Definition applied (l : list action) : list Nftables := omap (fun a => match a with AppliedRules r => Some r | _ => None end) l.
Definition opened (l : list action) : list bytes := omap (fun a => match a with OpenedRoot p => Some p | _ => None end) l.
Definition reports (l : list action) : list LaunchReady := omap (fun a => match a with Reported r => Some r | _ => None end) l.
Definition kinds (l : list action) : list ChildKind := omap (fun a => match a with Spawned k _ => Some k | _ => None end) l.

Lemma omap_none {A B} (f : A -> option B) l : (forall x, x ∈ l -> f x = None) -> omap f l = [].
Proof.
  induction l as [|x l IH]; intros H; [done|]. cbn. rewrite (H x) by (by left). apply IH. intros y Hy. apply H. by right.
Qed.
Lemma elem_of_volumes_plan a : a ∈ flat_map volume_plan (volumes spec) ->
  exists v, v ∈ volumes spec /\ sw_exists w (path v) <> Ok true /\
    a ∈ [Ran (truncate_command spec v); Ran (mkfs_command spec v); Renamed (staging_path v) (path v)].
Proof.
  intros H. apply list_elem_of_In, in_flat_map in H as (v & Hv & Ha). exists v. rewrite <- !list_elem_of_In in *.
  unfold volume_plan in Ha. destruct (sw_exists w (path v)) as [[]|]; [by apply elem_of_nil in Ha|done..].
Qed.
(** The stages before anything is spawned, and those behind them up to the network. *)
Definition unspawned_plan : list action := PrivateDir (root (runtime_paths spec)) :: flat_map volume_plan (volumes spec) ++ roots_plan.
Definition enclosed_plan : list action := unspawned_plan ++ daemons_plan ++ namespace_plan ++ map AppliedRules filter_rules.
Definition open_plan : list action := uplink_plan ++ guest_plan ++ [Reported ProcessReady].
Lemma full_plan_checked : checked = true -> full_plan = enclosed_plan ++ open_plan.
Proof.
  unfold checked. intros [Hc Hr]%andb_true_iff. unfold full_plan, launch_plan, network_plan, enclosed_plan, open_plan, unspawned_plan.
  rewrite Hc, Hr. cbn [gate]. rewrite <- !app_comm_cons, <- !app_assoc. done.
Qed.
Lemma full_plan_unchecked : checked = false -> full_plan `prefix_of` unspawned_plan.
Proof.
  unfold checked, full_plan, launch_plan, unspawned_plan. intros H. apply (prefix_app [_]). destruct commands_ok; cbn [gate andb] in *.
  - rewrite H. cbn [gate]. by rewrite app_nil_r.
  - rewrite app_nil_r. apply prefix_app_r. done.
Qed.
Lemma elem_of_unspawned a : a ∈ unspawned_plan ->
  a = PrivateDir (root (runtime_paths spec)) \/
  (exists v, v ∈ volumes spec /\ sw_exists w (path v) <> Ok true /\
     a ∈ [Ran (truncate_command spec v); Ran (mkfs_command spec v); Renamed (staging_path v) (path v)]) \/
  (exists share, share ∈ shares spec /\ a = OpenedRoot (source share)).
Proof.
  unfold unspawned_plan, roots_plan. rewrite elem_of_cons, elem_of_app, list_elem_of_fmap.
  intros [H|[H%elem_of_volumes_plan|H]]; naive_solver.
Qed.
Lemma elem_of_daemons a : a ∈ daemons_plan ->
  exists share, share ∈ shares spec /\ a = Spawned (Virtiofsd (tag share)) (virtiofsd spec drops share).
Proof.
  unfold daemons_plan. rewrite list_elem_of_fmap. intros ([share c] & -> & H). unfold share_commands in H. cbn [fst snd].
  apply list_elem_of_lookup in H as (i & H). rewrite lookup_zip_with, list_lookup_fmap in H.
  destruct (shares spec !! i) as [sh|] eqn:E; cbn in H; simplify_eq. exists share. split; [|done]. by eapply list_elem_of_lookup_2.
Qed.
Lemma unspawned_no_spawn k c : Spawned k c ∉ unspawned_plan.
Proof.
  intros [[=]|[(v & _ & _ & H)|(? & _ & [=])]]%elem_of_unspawned.
  by repeat (apply elem_of_cons in H as [[=]|H]); apply elem_of_nil in H.
Qed.
(** Nothing is spawned in a run whose checks do not pass. *)
Lemma spawned_checked k c : Spawned k c ∈ full_plan -> checked = true.
Proof.
  intros H. destruct checked eqn:E; [done|]. destruct (unspawned_no_spawn k c).
  destruct (full_plan_unchecked E) as [rest ->]. apply elem_of_app. by left.
Qed.

Lemma applied_app l m : applied (l ++ m) = applied l ++ applied m.
Proof. apply omap_app. Qed.
Lemma applied_none l : (forall r, AppliedRules r ∉ l) -> applied l = [].
Proof. intros H. apply omap_none. intros [] Hx; try done. by destruct (H rules). Qed.
Lemma applied_filter : applied (map AppliedRules filter_rules) = filter_rules.
Proof. induction filter_rules as [|r l IH]; [done|]. cbn. by f_equal. Qed.
Definition behind_filter (k : ChildKind) : bool := match k with Uplink | Resolver | Vmm => true | _ => false end.
Lemma enclosed_spawns k c : Spawned k c ∈ enclosed_plan -> behind_filter k = false.
Proof.
  unfold enclosed_plan. rewrite !elem_of_app. intros [H|[H|[H|H]]].
  - by destruct (unspawned_no_spawn _ _ H).
  - by apply elem_of_daemons in H as (? & _ & [= -> _]).
  - unfold namespace_plan in H. rewrite elem_of_app, list_elem_of_fmap in H. destruct H as [H|(? & [=] & _)].
    rewrite !elem_of_cons, elem_of_nil in H. destruct H as [[= -> _]|[[=]|[]]]. done.
  - apply list_elem_of_fmap in H as (? & [=] & _).
Qed.
Lemma applied_unspawned : applied unspawned_plan = [].
Proof.
  apply applied_none. intros r [[=]|[(v & _ & _ & H)|(? & _ & [=])]]%elem_of_unspawned.
  by repeat (apply elem_of_cons in H as [[=]|H]); apply elem_of_nil in H.
Qed.
Lemma applied_enclosed : applied enclosed_plan = filter_rules.
Proof.
  unfold enclosed_plan. rewrite !applied_app, applied_filter, applied_unspawned, (applied_none daemons_plan), (applied_none namespace_plan); [done|..].
  - intros r H. unfold namespace_plan in H. rewrite elem_of_app, list_elem_of_fmap in H. destruct H as [H|(? & [=] & _)].
    by repeat (apply elem_of_cons in H as [[=]|H]); apply elem_of_nil in H.
  - by intros r (? & _ & [=])%elem_of_daemons.
Qed.
Lemma applied_open : applied open_plan = [].
Proof. unfold open_plan. rewrite applied_app. unfold uplink_plan. by destruct (is_allowlist spec). Qed.
Lemma applied_ends ends : Forall (fun a => ending a = true) ends -> applied ends = [].
Proof. intros H. apply applied_none. intros r Hin. rewrite Forall_forall in H. by specialize (H _ Hin). Qed.
Lemma applied_history : applied (log (out_state (run spec w))) `prefix_of` filter_rules.
Proof.
  assert (Hfull : applied full_plan `prefix_of` filter_rules).
  { destruct checked eqn:E.
    - by rewrite (full_plan_checked E), applied_app, applied_open, applied_enclosed, app_nil_r.
    - destruct (full_plan_unchecked E) as [rest Hr]. pose proof applied_unspawned as H. rewrite Hr, applied_app in H.
      apply app_eq_nil in H as [-> _]. apply prefix_nil. }
  destruct history as [(acts & ends & [rest Hrest] & -> & He & _)|(_ & ends & -> & He)].
  - change (Reported Failed :: ends) with ([Reported Failed] ++ ends). rewrite !applied_app, (applied_ends _ He), !app_nil_r.
    rewrite Hrest, applied_app in Hfull. etrans; [|exact Hfull]. by apply prefix_app_r.
  - by rewrite applied_app, (applied_ends _ He), app_nil_r.
Qed.
(** What is spawned behind the filter, in the plan. *)
Lemma open_split pre k c post : full_plan = pre ++ Spawned k c :: post -> behind_filter k = true ->
  exists b, pre = enclosed_plan ++ b /\ open_plan = b ++ Spawned k c :: post.
Proof.
  intros Hfull Hk. rewrite full_plan_checked in Hfull.
  - apply split_past in Hfull; [done|]. intros Hin%enclosed_spawns. congruence.
  - apply (spawned_checked k c). rewrite Hfull. apply elem_of_app. right. by left.
Qed.

(** C2: No window is open in which a guest packet could cross an unfiltered path.  At any moment of any run, whatever
    fails, the processes that connect the guest - the uplink, the resolver, the VMM - are spawned only when the kernel
    has already taken exactly the rules of the contract: under an allowlist the default-deny ruleset and then the
    elements of every literal destination, otherwise none; no rule is touched afterwards; and without an allowlist
    there is no resolver at all. *)
Theorem guest_runs_behind_its_filter pre k c post :
  log (out_state (run spec w)) = pre ++ Spawned k c :: post -> behind_filter k = true ->
  applied pre = filter_rules /\ applied post = [] /\ (k = Resolver -> is_allowlist spec = true).
Proof.
  intros Hl Hk. destruct (history_split _ _ _ Hl) as [rest Hfull]; [done..|].
  apply open_split in Hfull as (b1 & -> & Hb); [|done].
  assert (Hb1 : applied b1 = []).
  { pose proof applied_open as H. rewrite Hb, applied_app in H. by apply app_eq_nil in H as [H _]. }
  assert (Hpre : applied (enclosed_plan ++ b1) = filter_rules) by (by rewrite applied_app, applied_enclosed, Hb1, app_nil_r).
  split; [done|]. split.
  - pose proof applied_history as Hall. rewrite Hl, (applied_app _ (_ :: _)), Hpre in Hall. destruct Hall as [x Hx].
    rewrite <- app_assoc in Hx. rewrite <- (app_nil_r filter_rules) in Hx at 1. apply app_inv_head in Hx.
    symmetry in Hx. by apply app_eq_nil in Hx as [? _].
  - intros ->. unfold open_plan, uplink_plan in Hb. destruct (is_allowlist spec); [done|]. exfalso.
    assert (Hin : Spawned Resolver c ∈ [Spawned Uplink (uplink spec holder_pid)] ++ guest_plan ++ [Reported ProcessReady]).
    { rewrite Hb. apply elem_of_app. right. by left. }
    clear -Hin. unfold guest_plan, records_plan, asked in Hin. cbn [app] in Hin.
    repeat (apply elem_of_cons in Hin as [Hin|Hin]; [discriminate Hin|]). by apply elem_of_nil in Hin.
Qed.

(** C15: No daemon serves an unchecked tree.  Whenever a share's daemon was spawned, it was spawned with the command the
    confinement profile renders for a share of that tag; the commands of all shares had passed the re-read; and the
    root of every share had been opened and found to be what its plan says, a regular file when it is staged and a
    directory otherwise. *)
Theorem daemons_serve_checked_roots pre t c post :
  log (out_state (run spec w)) = pre ++ Spawned (Virtiofsd t) c :: post ->
  (exists share, share ∈ shares spec /\ tag share = t /\ c = virtiofsd spec drops share) /\
  validate_shares (share_commands spec drops) drops = Ok tt /\
  (forall share, share ∈ shares spec -> root_ok share = true /\ OpenedRoot (source share) ∈ pre).
Proof.
  intros Hl. destruct (history_split _ _ _ Hl) as [rest Hfull]; [done..|].
  assert (Hin : Spawned (Virtiofsd t) c ∈ full_plan) by (rewrite Hfull; apply elem_of_app; right; by left).
  pose proof (spawned_checked _ _ Hin) as Hck. rewrite (full_plan_checked Hck) in Hfull, Hin.
  unfold enclosed_plan in Hfull, Hin. rewrite <- !app_assoc in Hfull.
  apply split_past in Hfull as (b1 & -> & _); [|apply unspawned_no_spawn].
  unfold checked in Hck. apply andb_true_iff in Hck as [Hc Hr]. split_and!.
  - rewrite !elem_of_app in Hin. destruct Hin as [[H|[H|[H|H]]]|H].
    + by destruct (unspawned_no_spawn _ _ H).
    + apply elem_of_daemons in H as (share & Hs & [= -> ->]). eauto.
    + unfold namespace_plan in H. rewrite elem_of_app, list_elem_of_fmap in H. destruct H as [H|(? & [=] & _)].
      exfalso. by repeat (apply elem_of_cons in H as [[=]|H]); apply elem_of_nil in H.
    + by apply list_elem_of_fmap in H as (? & [=] & _).
    + exfalso. unfold open_plan, uplink_plan, guest_plan, records_plan, asked in H. destruct (is_allowlist spec); cbn [app] in H.
      all: repeat (apply elem_of_cons in H as [H|H]; [discriminate H|]); by apply elem_of_nil in H.
  - unfold commands_ok in Hc. by destruct (validate_shares _ _) as [[]|].
  - intros share Hs. split; [by eapply forallb_forall; [|apply list_elem_of_In]|].
    apply elem_of_app. left. unfold unspawned_plan, roots_plan. rewrite elem_of_cons, elem_of_app, list_elem_of_fmap. eauto.
Qed.

Lemma reports_app l m : reports (l ++ m) = reports l ++ reports m.
Proof. apply omap_app. Qed.
Lemma reports_none l : (forall r, Reported r ∉ l) -> reports l = [].
Proof. intros H. apply omap_none. intros [] Hx; try done. by destruct (H r). Qed.
Lemma reports_enclosed : reports enclosed_plan = [].
Proof.
  apply reports_none. intros r. unfold enclosed_plan. rewrite !elem_of_app. intros [H|[H|[H|H]]].
  - apply elem_of_unspawned in H as [[=]|[(v & _ & _ & H)|(? & _ & [=])]].
    by repeat (apply elem_of_cons in H as [[=]|H]); apply elem_of_nil in H.
  - by apply elem_of_daemons in H as (? & _ & [=]).
  - unfold namespace_plan in H. rewrite elem_of_app, list_elem_of_fmap in H. destruct H as [H|(? & [=] & _)].
    by repeat (apply elem_of_cons in H as [[=]|H]); apply elem_of_nil in H.
  - by apply list_elem_of_fmap in H as (? & [=] & _).
Qed.
Lemma reports_guest : reports (uplink_plan ++ guest_plan) = [].
Proof. rewrite reports_app. unfold uplink_plan. by destruct (is_allowlist spec). Qed.
Lemma reports_ends ends : Forall (fun a => ending a = true) ends -> reports ends = [].
Proof. intros H. apply reports_none. intros r Hin. rewrite Forall_forall in H. by specialize (H _ Hin). Qed.

Lemma reports_full : checked = true -> full_plan = (enclosed_plan ++ uplink_plan ++ guest_plan) ++ [Reported ProcessReady].
Proof. intros H. rewrite (full_plan_checked H). unfold open_plan. by rewrite <- !app_assoc. Qed.
Lemma reports_before : reports (enclosed_plan ++ uplink_plan ++ guest_plan) = [].
Proof. by rewrite reports_app, reports_enclosed, reports_guest. Qed.
Lemma reports_elem r l : Reported r ∈ l -> r ∈ reports l.
Proof. intros H. apply list_elem_of_omap. exists (Reported r). by split. Qed.
Lemma ready_checked r : Reported r ∈ full_plan -> checked = true /\ r = ProcessReady.
Proof.
  intros H. destruct checked eqn:E.
  - split; [done|]. apply reports_elem in H. rewrite (reports_full E), reports_app, reports_before in H. by apply list_elem_of_singleton in H.
  - destruct (full_plan_unchecked E) as [rest Hr]. exfalso. pose proof reports_enclosed as Hn. unfold enclosed_plan in Hn.
    rewrite Hr, <- app_assoc, reports_app in Hn. apply app_eq_nil in Hn as [Hn _]. apply reports_elem in H. rewrite Hn in H.
    by apply elem_of_nil in H.
Qed.
Lemma ends_no_report ends r : Forall (fun a => ending a = true) ends -> Reported r ∉ ends.
Proof. intros H Hin%reports_elem. rewrite (reports_ends _ H) in Hin. by apply elem_of_nil in Hin. Qed.

Lemma ready_split pre post : log (out_state (run spec w)) = pre ++ Reported ProcessReady :: post ->
  checked = true /\ pre = enclosed_plan ++ uplink_plan ++ guest_plan.
Proof.
  intros Hl. destruct (history_split _ _ _ Hl) as [rest Hfull]; [done..|].
  destruct (ready_checked ProcessReady) as [Hck _]; [rewrite Hfull; apply elem_of_app; right; by left|]. split; [done|].
  rewrite (reports_full Hck) in Hfull. apply split_past in Hfull as (b & -> & Hb).
  - destruct b as [|x b]; [by rewrite app_nil_r|]. injection Hb as _ Hb. by destruct b.
  - intros Hin%reports_elem. rewrite reports_before in Hin. by apply elem_of_nil in Hin.
Qed.
Lemma failed_split pre post : log (out_state (run spec w)) = pre ++ Reported Failed :: post ->
  pre `prefix_of` full_plan /\ Forall (fun a => ending a = true) post /\ exists e, out_result (run spec w) = Some (Err e).
Proof.
  intros Hl. destruct history as [(acts & ends & Hpre & Hlog & He & Hres)|(_ & ends & Hlog & He)].
  - rewrite Hlog in Hl. apply split_past in Hl as (b & -> & Hb).
    + destruct b as [|x b]; [injection Hb as ->; by rewrite app_nil_r|]. injection Hb as _ Hb.
      destruct (ends_no_report ends Failed He). rewrite Hb. apply elem_of_app. right. by left.
    + intros Hin. destruct Hpre as [rest Hpre]. by destruct (ready_checked Failed) as [_ [=]]; rewrite Hpre; apply elem_of_app; left.
  - exfalso. assert (Hin : Reported Failed ∈ full_plan ++ ends) by (rewrite <- Hlog, Hl; apply elem_of_app; right; by left).
    apply elem_of_app in Hin as [Hin|Hin]; [by destruct (ready_checked _ Hin) as [_ [=]]|by destruct (ends_no_report ends Failed He)].
Qed.
Lemma some_report :
  Reported ProcessReady ∈ log (out_state (run spec w)) \/ Reported Failed ∈ log (out_state (run spec w)).
Proof.
  destruct history as [(acts & ends & _ & -> & _)|(Hck & ends & -> & _)].
  - right. apply elem_of_app. right. by left.
  - left. rewrite (reports_full Hck). apply elem_of_app. left. apply elem_of_app. right. by left.
Qed.

(** What a readiness report means.  A run that got as far as reporting a running guest had done every action of the
    launch before it, in the order of the plan: the volumes, the checks, the daemons, the network, the VMM, the
    records, its creation and boot, the agent's answer and the credentials.  A run that reported a failure had done a
    prefix of the same plan, ends with an error, and reported it, once, before it ended a child or removed a file; and
    every run reports one or the other. *)
Theorem readiness_is_reported_once :
  (forall pre post, log (out_state (run spec w)) = pre ++ Reported ProcessReady :: post ->
     checked = true /\ pre = enclosed_plan ++ uplink_plan ++ guest_plan) /\
  (forall pre post, log (out_state (run spec w)) = pre ++ Reported Failed :: post ->
     pre `prefix_of` full_plan /\ Forall (fun a => ending a = true) post /\ exists e, out_result (run spec w) = Some (Err e)) /\
  (Reported ProcessReady ∈ log (out_state (run spec w)) \/ Reported Failed ∈ log (out_state (run spec w))).
Proof. split_and!; [exact ready_split|exact failed_split|exact some_report]. Qed.
End supervisor.

(* ------------------------------------------------------------------ *)
(** ** Witnesses: one launch, end to end *)

Definition with_vm {V W} (spec : LaunchSpec V) (vm : W) : LaunchSpec W :=
  mk_LaunchSpec W (spec_version spec) (sandbox_id spec) (spec_target spec) (runtime_paths spec) (backend_programs spec)
    (socket_legs spec) (resources spec) (descriptor_budget spec) (identity_translation spec) (guest_session spec)
    (egress spec) (network spec) (shares spec) (volumes spec) vm (landlock_available spec) (console_log_enabled spec).
Definition demo_vm : Value := VObject [(bs "payload", VObject [(bs "cmdline", VString (bs "console=hvc0 root=fstab"))])].
Definition demo_launch : LaunchSpec Value := with_vm demo_valid demo_vm.
Definition demo_link_table : Value :=
  VArray [VObject [(bs "ifname", VString (bs "viv0")); (bs "flags", VArray [VString (bs "UP"); VString (bs "NO-CARRIER")])]].
(** A host on which everything works: the VMM and the share daemons exit at the third poll. *)
Definition demo_try_wait (tick : nat) (k : ChildKind) : result (option (option Z)) fs_error :=
  Ok (if ends_with_guest k && (3 <=? tick)%nat then Some (Some 0) else None).
Definition demo_host : sup_world := {|
  sw_symlink_metadata _ := demo_links; sw_metadata _ := demo_files; sw_exists _ := Ok false; sw_status _ _ := Ok (Some 0);
  sw_stdout := bs "[]"; sw_from_str _ := Some demo_link_table; sw_to_vec _ := Some (bs "{}"); sw_metadata_to_vec _ := Some (bs "{}");
  sw_rename _ := Ok tt; sw_private_dir := Ok tt; sw_private_write _ := Ok tt; sw_open_root p := Ok (demo_files p);
  sw_spawn k := Ok (match k with Vmm => 40 | NetnsHolder => 41 | Uplink => 42 | Resolver => 43 | Virtiofsd _ => 44 end);
  sw_proc_status := None; sw_await_pair _ := Ok tt; sw_apply _ := Ok tt;
  sw_uuid := Ok (bs "0f1e2d3c-4b5a-4978-8695-a4b3c2d1e0ff" ++ [x0a]); sw_console_sink := Ok tt; sw_console_connected := true;
  sw_agent _ := Ok tt; sw_credentials := Ok tt; sw_listening := true; sw_poll _ _ := mk_poll_answer (Ok true) false;
  sw_try_wait := demo_try_wait; sw_wait _ := None; sw_kill _ := None; sw_now n := 25 * Z.of_nat n; sw_signals := Ok tt;
  sw_rounds := repeat OnSleep 8; sw_dir _ := Some []; sw_cleanup := mk_cleanup_faults None None (fun _ => None) None |}.
Definition demo_run : outcome := run (Net := Z * Z) demo_launch demo_host.
(** The log up to its [n]-th action, that action, and what follows. *)
Definition demo_pre (n : nat) : list action := take n (log (out_state demo_run)).
Definition demo_post (n : nat) : list action := drop (S n) (log (out_state demo_run)).
Notation demo_log := (log (out_state (run (Net := Z * Z) demo_launch demo_host))).
Definition demo_mount : ShareSpec := nth 1 (shares demo_launch) (demo_share "x" [] None).
Lemma demo_log_vmm : demo_log = demo_pre 20 ++ Spawned Vmm (Policy.vmm demo_launch 41) :: demo_post 20.
Proof. vm_compute. reflexivity. Qed.
Lemma demo_log_mount : demo_log = demo_pre 8 ++ Spawned (Virtiofsd (bs "mnt0")) (virtiofsd demo_launch false demo_mount) :: demo_post 8.
Proof. vm_compute. reflexivity. Qed.
Lemma demo_log_ready : demo_log = demo_pre 31 ++ Reported ProcessReady :: demo_post 31.
Proof. vm_compute. reflexivity. Qed.
Lemma demo_rules : filter_rules (Net := Z * Z) demo_launch = [base_ruleset].
Proof. vm_compute. reflexivity. Qed.
Lemma guest_runs_behind_its_filter_witness : applied (demo_pre 20) = [base_ruleset] /\ applied (demo_post 20) = [].
Proof.
  destruct (guest_runs_behind_its_filter (Net := Z * Z) demo_launch demo_host _ _ _ _ demo_log_vmm eq_refl) as (Hpre & Hpost & _).
  split; [|exact Hpost]. rewrite Hpre. exact demo_rules.
Defined.
Lemma daemons_serve_checked_roots_witness :
  Forall (fun share => root_ok demo_launch demo_host share = true /\ OpenedRoot (source share) ∈ demo_pre 8) (shares demo_launch).
Proof.
  apply Forall_forall.
  destruct (daemons_serve_checked_roots (Net := Z * Z) demo_launch demo_host _ _ _ _ demo_log_mount) as (_ & _ & H). exact H.
Defined.
Lemma readiness_is_reported_once_witness :
  demo_pre 31 = enclosed_plan (Net := Z * Z) demo_launch demo_host ++ uplink_plan demo_launch demo_host ++ guest_plan demo_launch demo_host.
Proof.
  destruct (readiness_is_reported_once (Net := Z * Z) demo_launch demo_host) as (Hready & _ & _).
  exact (proj2 (Hready _ _ demo_log_ready)).
Defined.
