(* ===== verification/TeardownSpec.v ===== *)
(** * TeardownSpec: how a run ends

    The shutdown ladder ends, in bounded time, with every child reaped; the sweep takes the artifacts of its own launch
    and nothing else; and what a run that ended well leaves behind is what [stop] accepts as a teardown. *)
From S2P Require Import Prelude Bytes Paths Message Diagnostic Lifecycle Mounts Launch Workspace Ip Allowlist Nft Spec SpecSpec Json Netns Policy Supervisor SupervisorSpec Stop.

(* ------------------------------------------------------------------ *)
(** ** The sweep *)

Section teardown.
Context {Net : Type} {N : IpNetOps Net} (spec : LaunchSpec Value) (w : sup_world).

Definition listed (p : bytes) : bool := lists_path p (allowed_artifacts spec) || lists_path p (stages spec).
(** [m] drops entries, all of them named by [l], and when it succeeds all that [l] names. *)
Definition sweeps (l : list bytes) (m : sem (list (bytes * entry_kind)) LaunchError unit) : Prop :=
  forall entries, let '(r, rest) := m entries in
  (forall e, e ∈ rest -> e ∈ entries) /\ (forall e, e ∈ entries -> lists_path (fst e) l = false -> e ∈ rest) /\
  (r = Ok tt -> forall e, e ∈ rest -> lists_path (fst e) l = false).

Lemma elem_of_drop p entries e : e ∈ drop_entry p entries <-> e ∈ entries /\ path_eqb (fst e) p = false.
Proof. unfold drop_entry. rewrite !list_elem_of_In, filter_In, negb_true_iff. done. Qed.
Lemma find_entry_none p entries e : find_entry p entries = None -> e ∈ entries -> path_eqb (fst e) p = false.
Proof. intros H Hin. by eapply find_none in H; [|by apply list_elem_of_In]. Qed.
Lemma lists_path_cons p q l : lists_path p (q :: l) = path_eqb p q || lists_path p l.
Proof. done. Qed.
Lemma lists_path_app p l m : lists_path p (l ++ m) = lists_path p l || lists_path p m.
Proof. apply existsb_app. Qed.
Lemma sweeps_one dir what p : sweeps [p] (remove_one w dir what p).
Proof.
  intros entries. unfold remove_one. destruct (find_entry p entries) as [[q kind]|] eqn:E.
  - destruct (cf_remove _ _); [by split_and!|]. destruct (removable dir kind); [|by split_and!].
    setoid_rewrite elem_of_drop. setoid_rewrite lists_path_cons. setoid_rewrite orb_false_r. split_and!; naive_solver.
  - split_and!; [done..|]. intros _ e He. rewrite lists_path_cons, orb_false_r. by eapply find_entry_none.
Qed.
Lemma sweeps_bind l m a b : sweeps l a -> sweeps m b -> sweeps (l ++ m) (a ;; b).
Proof.
  intros Ha Hb entries. specialize (Ha entries). unfold sbind. destruct (a entries) as [[[]|x] rest].
  - specialize (Hb rest). destruct (b rest) as [r rest']. destruct Ha as (H1 & H2 & H3), Hb as (H4 & H5 & H6).
    setoid_rewrite lists_path_app. setoid_rewrite orb_false_iff. split_and!; naive_solver.
  - destruct Ha as (H1 & H2 & _). setoid_rewrite lists_path_app. setoid_rewrite orb_false_iff. split_and!; naive_solver.
Qed.
Lemma sweeps_all dir what l : sweeps l (remove_all w dir what l).
Proof.
  induction l as [|p l IH]; [by intros entries; split_and!|]. apply (sweeps_bind [p]); [apply sweeps_one|exact IH].
Qed.

Lemma scan_ok n entries : scan_from spec w n entries = Ok tt -> forall e, e ∈ entries -> tolerated spec (fst e) = true.
Proof.
  revert n. induction entries as [|[p k] entries IH]; intros n H e He; [by apply elem_of_nil in He|].
  cbn in H. destruct (read_fault w n); [done|]. destruct (tolerated spec p) eqn:E; [|done].
  apply elem_of_cons in He as [->|He]; [done|by eapply IH].
Qed.

(** What [sweep_takes_only_its_own] states of one directory. *)
Definition swept (entries : list (bytes * entry_kind)) : Prop :=
  let '(r, d) := cleanup_runtime spec w (Some entries) in
  (forall e, e ∈ default [] d -> e ∈ entries) /\
  (forall e, e ∈ entries -> listed (fst e) = false -> e ∈ default [] d) /\
  (forall e, e ∈ entries -> tolerated spec (fst e) = false -> (exists x, r = Err x) /\ d = Some entries) /\
  (r = Ok tt -> forall e, e ∈ default [] d -> path_eqb (fst e) (lock (runtime_paths spec)) = true) /\
  (r = Ok tt -> d = None \/ exists e, e ∈ default [] d).
Lemma cleanup_swept entries : swept entries.
Proof.
  unfold swept, cleanup_runtime. destruct (cf_read (sw_cleanup w)); [by split_and!; eauto|].
  destruct (scan spec w entries) as [[]|x] eqn:Es; [|by split_and!; eauto].
  pose proof (scan_ok _ _ Es) as Htol.
  assert (Hsweep : sweeps (allowed_artifacts spec ++ stages spec)
    (remove_all w false "remove runtime artifact" (allowed_artifacts spec) ;; remove_all w true "remove share staging directory" (stages spec))).
  { apply sweeps_bind; apply sweeps_all. }
  specialize (Hsweep entries). destruct (sbind _ _ entries) as [r rest]. destruct Hsweep as (H1 & H2 & H3).
  setoid_rewrite lists_path_app in H2. setoid_rewrite lists_path_app in H3. fold (listed) in H2.
  assert (Hno : forall e, e ∈ entries -> tolerated spec (fst e) = false -> False) by (intros e He; rewrite (Htol e He); done).
  assert (Hlock : r = Ok tt -> forall e, e ∈ rest -> path_eqb (fst e) (lock (runtime_paths spec)) = true).
  { intros Hr e He. specialize (H3 Hr e He). specialize (Htol e (H1 e He)). unfold tolerated in Htol.
    rewrite <- orb_assoc, H3, orb_false_r in Htol. exact Htol. }
  destruct r as [[]|x]; [|split_and!; try done; naive_solver].
  destruct (cf_lock (sw_cleanup w)); [split_and!; try done; naive_solver|].
  destruct (find_entry _ rest) as [e|] eqn:Ef.
  - rewrite bool_decide_true by eauto. split_and!; try done; [naive_solver..|].
    intros _. right. exists e. apply list_elem_of_In. unfold find_entry in Ef. by apply find_some in Ef as [Ef _].
  - rewrite bool_decide_false by (by intros []). destruct rest as [|e rest]; split_and!; try done; naive_solver.
Qed.
Lemma cleanup_leaves entries : let '(r, d) := cleanup_runtime spec w (Some entries) in
  r = Ok tt -> forall e, e ∈ default [] d -> path_eqb (fst e) (lock (runtime_paths spec)) = true.
Proof. pose proof (cleanup_swept entries) as H. unfold swept in H. destruct (cleanup_runtime _ _ _). tauto. Qed.
(** The sweep takes its own launch's artifacts and nothing else.  Nothing is added, and what no list of the launch
    names is left in place; one entry that neither the launch nor the lock accounts for makes it fail before anything
    is removed; and when it succeeds nothing but the retained lock is left, in a directory that is gone if even that
    is not there. *)
Theorem sweep_takes_only_its_own entries :
  let '(r, d) := cleanup_runtime spec w (Some entries) in
  (forall e, e ∈ default [] d -> e ∈ entries) /\
  (forall e, e ∈ entries -> listed (fst e) = false -> e ∈ default [] d) /\
  (forall e, e ∈ entries -> tolerated spec (fst e) = false -> (exists x, r = Err x) /\ d = Some entries) /\
  (r = Ok tt -> forall e, e ∈ default [] d -> path_eqb (fst e) (lock (runtime_paths spec)) = true) /\
  (r = Ok tt -> d = None \/ exists e, e ∈ default [] d).
Proof. exact (cleanup_swept entries). Qed.
(* ------------------------------------------------------------------ *)
(** ** The ladder *)

Definition reaped (l : list action) : list ChildKind := omap (fun a => match a with Reaped k => Some k | _ => None end) l.
Definition killed (l : list action) : list ChildKind := omap (fun a => match a with Killed k => Some k | _ => None end) l.
(** Every poll sleeps at least the interval. *)
Definition clock_advances : Prop := forall n, sw_now w n + POLL_INTERVAL <= sw_now w (S n).
(** Only the polls of a window are slept in [m]: at most [n]. *)
Definition keeps (n : nat) (s s' : sup_state) : Prop :=
  children s' = children s /\ vm_create_now s' = vm_create_now s /\ (slept s <= slept s' <= slept s + n)%nat.
Lemma keeps_refl s : keeps 0 s s.
Proof. repeat split; lia. Qed.
Lemma keeps_trans n m s s' s'' : keeps n s s' -> keeps m s' s'' -> keeps (n + m) s s''.
Proof. intros (H1 & H2 & H3) (H4 & H5 & H6). split_and!; [congruence..|lia|lia]. Qed.
Lemma keeps_record s a : keeps 0 s (snd (record a s)).
Proof. repeat split; cbn; lia. Qed.

Definition window_closed (deadline : Z) (s : sup_state) : Prop :=
  alive_among w (slept s) (children s) = Ok false \/ deadline <= sw_now w (slept s).
Lemma await_until_spec (Hclock : clock_advances) fuel deadline s :
  deadline - sw_now w (slept s) <= POLL_INTERVAL * (Z.of_nat fuel - 1) ->
  let '(r, s') := await_until w fuel deadline s in
  children s' = children s /\ vm_create_now s' = vm_create_now s /\ log s' = log s /\ (slept s <= slept s')%nat /\
  POLL_INTERVAL * (Z.of_nat (slept s') - Z.of_nat (slept s)) <= Z.max 0 (deadline - sw_now w (slept s) + POLL_INTERVAL - 1) /\
  (r = Ok tt -> window_closed deadline s').
Proof.
  revert s. induction fuel as [|fuel IH]; intros s Hf; cbn [await_until].
  - unfold sret, window_closed. split_and!; try done; unfold POLL_INTERVAL in *; lia.
  - unfold sbind, guest_children_alive. destruct (alive_among w (slept s) (children s)) as [[]|e] eqn:Ea; cbn [negb].
    + destruct (deadline <=? sw_now w (slept s)) eqn:Ed; [split_and!; try done; unfold window_closed, POLL_INTERVAL; lia|].
      cbn. set (s1 := mk_sup_state _ _ _ _). pose proof (Hclock (slept s)) as Hc. specialize (IH s1).
      destruct (await_until w fuel deadline s1) as [r s']. cbn [s1 children vm_create_now log slept] in IH.
      destruct IH as (H1 & H2 & H3 & H4 & H5 & H6); [unfold POLL_INTERVAL in *; lia|].
      split_and!; try done; unfold POLL_INTERVAL in *; lia.
    + split_and!; try done; [unfold POLL_INTERVAL; lia|]. by left.
    + split_and!; try done; unfold POLL_INTERVAL; lia.
Qed.
(** A window closes on a dead guest or on its deadline, never on its fuel, and in as many polls as fit in it. *)
Lemma await_children_spec (Hclock : clock_advances) budget s : 0 <= budget ->
  let '(r, s') := await_children w budget s in
  keeps (Z.to_nat ((budget + POLL_INTERVAL - 1) / POLL_INTERVAL)) s s' /\ log s' = log s /\
  (r = Ok tt -> window_closed (sw_now w (slept s) + budget) s').
Proof.
  intros Hb. unfold await_children. pose proof (await_until_spec Hclock (await_fuel budget) (sw_now w (slept s) + budget) s) as H.
  destruct (await_until _ _ _ _) as [r s']. destruct H as (H1 & H2 & H3 & H4 & H5 & H6).
  - unfold await_fuel, POLL_INTERVAL. pose proof (Z.mul_succ_div_gt budget 25). lia.
  - unfold keeps. split_and!; try done. replace (_ + budget - _) with budget in H5 by lia. unfold POLL_INTERVAL in *.
    enough (Z.of_nat (slept s') - Z.of_nat (slept s) <= (budget + 25 - 1) / 25) by lia. apply Z.div_le_lower_bound; lia.
Qed.

(** Each child, in turn: it is reaped, after it was killed if it was still running. *)
Lemma end_child_spec c s :
  let '(r, s') := end_child w c s in
  keeps 0 s s' /\ exists acts, log s' = log s ++ acts /\
  (r = Ok tt -> reaped acts = [fst c] /\ (forall k, k ∈ killed acts -> k = fst c /\ sw_try_wait w (slept s) k = Ok None)).
Proof.
  unfold end_child. destruct (sw_try_wait w (slept s) (fst c)) as [[status|]|e] eqn:Et.
  - unfold sbind, sret. destruct (sw_wait w (fst c)); cbn; (split; [repeat split; cbn; lia|]).
    + exists []. by rewrite app_nil_r.
    + exists [Reaped (fst c)]. split_and!; try done. intros _. split; [done|]. intros k Hk. by apply elem_of_nil in Hk.
  - unfold sbind. destruct (sw_kill w (fst c)); cbn.
    { split; [apply keeps_refl|]. exists []. by rewrite app_nil_r. }
    destruct (sw_wait w (fst c)); cbn; (split; [repeat split; cbn; lia|]).
    + exists [Killed (fst c)]. by split.
    + exists [Killed (fst c); Reaped (fst c)]. rewrite <- app_assoc. split_and!; try done. intros _. split; [done|].
      intros k Hk. apply list_elem_of_singleton in Hk as ->. done.
  - split; [apply keeps_refl|]. exists []. by rewrite app_nil_r.
Qed.
Lemma reaped_app l m : reaped (l ++ m) = reaped l ++ reaped m.
Proof. apply omap_app. Qed.
Lemma killed_app l m : killed (l ++ m) = killed l ++ killed m.
Proof. apply omap_app. Qed.
Lemma end_children_spec l s :
  let '(r, s') := sfor_each (end_child w) l s in
  keeps 0 s s' /\ exists acts, log s' = log s ++ acts /\
  (r = Ok tt -> reaped acts = l.*1 /\ (forall k, k ∈ killed acts -> sw_try_wait w (slept s) k = Ok None)).
Proof.
  revert s. induction l as [|c l IH]; intros s; cbn [sfor_each].
  - split; [apply keeps_refl|]. exists []. rewrite app_nil_r. split_and!; try done. intros _. split; [done|]. intros k Hk. by apply elem_of_nil in Hk.
  - unfold sbind. pose proof (end_child_spec c s) as H. destruct (end_child w c s) as [[[]|e] s1].
    2:{ destruct H as (H1 & acts & H2 & _). split; [done|]. exists acts. by split. }
    destruct H as (H1 & acts & H2 & H3). specialize (IH s1). destruct (sfor_each (end_child w) l s1) as [r s2].
    destruct IH as (H4 & acts' & H5 & H6). split; [by apply (keeps_trans 0 0 s s1 s2)|]. exists (acts ++ acts').
    split; [by rewrite H5, H2, app_assoc|]. intros Hr. destruct (H3 eq_refl) as [H7 H8], (H6 Hr) as [H9 H10].
    rewrite reaped_app, H7, H9. split; [done|]. intros k. rewrite killed_app, elem_of_app. intros [Hk|Hk]; [by apply H8|].
    replace (slept s) with (slept s1) by (destruct H1 as (_ & _ & H1); lia). by apply H10.
Qed.
Lemma remote_spec operation payload s :
  keeps 0 s (snd (ignoring (remote spec w operation payload) s)) /\
  exists acts, log (snd (ignoring (remote spec w operation payload) s)) = log s ++ Asked operation :: acts /\
    forall a, a ∈ acts -> exists c, a = Ran c.
Proof.
  unfold ignoring, remote, sbind, run_checked. cbn. destruct (sw_status w _ _) as [[[| |]|]|e]; cbn; (split; [repeat split; cbn; lia|]).
  all: try (exists []; split; [done|]; intros a Ha; by apply elem_of_nil in Ha).
  eexists [_]. rewrite <- app_assoc. split; [done|]. intros a Ha. apply list_elem_of_singleton in Ha. eauto.
Qed.
Definition LADDER_POLLS : nat := 320.
(** What the ladder does of a run's [log], from [s]. *)
Definition ladder_from (s s' : sup_state) (r : result unit LaunchError) : Prop :=
  children s' = children s /\ (slept s <= slept s' <= slept s + LADDER_POLLS)%nat /\
  exists acts, log s' = log s ++ Asked "power-button" :: acts /\
    (Asked "shutdown" ∈ acts -> exists n, (slept s <= n)%nat /\ sw_now w (slept s) + GUEST_POWEROFF_TIMEOUT <= sw_now w n /\
                                  alive_among w n (children s) = Ok true) /\
    (r = Ok tt -> reaped acts = (children s).*1 /\ forall k, k ∈ killed acts -> sw_try_wait w (slept s') k = Ok None).
(** Requests and helpers end no child. *)
Definition quiet (acts : list action) : Prop := reaped acts = [] /\ killed acts = [].
Lemma quiet_runs op acts : (forall a, a ∈ acts -> exists c, a = Ran c) ->
  quiet (Asked op :: acts) /\ forall op', Asked op' ∈ Asked op :: acts -> op' = op.
Proof.
  intros H. split; [split; apply omap_none; intros x [->|Hx]%elem_of_cons; [done| |done|]; by destruct (H x Hx) as [c ->]|].
  by intros op' [[=]|[c [=]]%H]%elem_of_cons.
Qed.
Lemma end_children_asks l s op : forall acts, log (snd (sfor_each (end_child w) l s)) = log s ++ acts -> Asked op ∉ acts.
Proof.
  revert s. induction l as [|c l IH]; intros s acts; cbn [sfor_each].
  - intros H. cbn in H. assert (acts = []) as -> by (apply (app_inv_head (log s)); by rewrite app_nil_r). apply not_elem_of_nil.
  - assert (Hone : exists one, log (snd (end_child w c s)) = log s ++ one /\ Asked op ∉ one).
    { unfold end_child. destruct (sw_try_wait w (slept s) (fst c)) as [[|]|]; unfold sbind, sret.
      1: destruct (sw_wait w (fst c)).
      3: destruct (sw_kill w (fst c)); [|destruct (sw_wait w (fst c))].
      all: cbn; eexists; (split; [rewrite <- ?app_assoc; first [reflexivity|symmetry; apply app_nil_r]|]); cbn; rewrite ?elem_of_cons, ?elem_of_nil; naive_solver. }
    destruct Hone as (one & Hl & Hn). unfold sbind. destruct (end_child w c s) as [[[]|e] s1]; cbn [snd] in *; intros H.
    + destruct (only_ends_for (end_child w) l (only_ends_end_child w) s1) as (rest & Hr & _).
      specialize (IH s1 rest Hr). rewrite Hr, Hl, <- app_assoc in H. apply app_inv_head in H as <-. rewrite elem_of_app. naive_solver.
    + rewrite Hl in H. by apply app_inv_head in H as <-.
Qed.

Definition hard_half : sup unit :=
  let! alive := guest_children_alive w in
  if alive : bool then ignoring (remote spec w "shutdown" None) ;; await_children w SHUTDOWN_TIMEOUT else sret tt.
(** An invitation, and its window. *)
Lemma asked_window (Hclock : clock_advances) op budget s : 0 <= budget ->
  let '(r, s') := (ignoring (remote spec w op None) ;; await_children w budget) s in
  keeps (Z.to_nat ((budget + POLL_INTERVAL - 1) / POLL_INTERVAL)) s s' /\
  (exists acts, log s' = log s ++ Asked op :: acts /\ quiet (Asked op :: acts) /\ forall op', Asked op' ∈ Asked op :: acts -> op' = op) /\
  (r = Ok tt -> window_closed (sw_now w (slept s) + budget) s').
Proof.
  intros Hb. destruct (remote_spec op None s) as [Hk0 (acts0 & Hl0 & Hq0)]. unfold sbind.
  destruct (ignoring (remote spec w op None) s) as [r0 s0] eqn:E0.
  assert (r0 = Ok tt) as -> by (unfold ignoring in E0; congruence). cbn [snd] in *.
  pose proof (await_children_spec Hclock budget s0 Hb) as H1.
  destruct (await_children w budget s0) as [r s1]; destruct H1 as (Hk1 & Hl1 & Hw1).
  replace (slept s) with (slept s0) by (destruct Hk0 as (_ & _ & Hk0); lia).
  split; [by apply (keeps_trans 0 _ s s0 s1)|]. split; [|done]. exists acts0. rewrite Hl1. split; [done|]. by apply quiet_runs.
Qed.
Lemma hard_half_spec (Hclock : clock_advances) s :
  let '(r, s') := hard_half s in
  keeps 80 s s' /\ exists acts, log s' = log s ++ acts /\ quiet acts /\
    (Asked "shutdown" ∈ acts -> alive_among w (slept s) (children s) = Ok true).
Proof.
  assert (Hnone : keeps 80 s s /\ exists acts, log s = log s ++ acts /\ quiet acts /\
    (Asked "shutdown" ∈ acts -> alive_among w (slept s) (children s) = Ok true)).
  { split; [repeat split; lia|]. exists []. rewrite app_nil_r. split_and!; [done..|]. intros H. by apply elem_of_nil in H. }
  unfold hard_half. unfold sbind at 1. unfold guest_children_alive.
  destruct (alive_among w (slept s) (children s)) as [[]|e] eqn:Ea; [|exact Hnone..].
  pose proof (asked_window Hclock "shutdown" SHUTDOWN_TIMEOUT s ltac:(done)) as H.
  destruct (sbind _ _ s) as [r s']. destruct H as (Hk & (acts & Hl & Hq & _) & _). split; [exact Hk|]. eauto.
Qed.
Lemma end_all_spec s :
  let '(r, s') := ((fun s => sfor_each (end_child w) (children s) s) ;; record CancelledTasks) s in
  keeps 0 s s' /\ exists acts, log s' = log s ++ acts /\ (forall op, Asked op ∉ acts) /\
    (r = Ok tt -> reaped acts = (children s).*1 /\ forall k, k ∈ killed acts -> sw_try_wait w (slept s) k = Ok None).
Proof.
  pose proof (end_children_spec (children s) s) as H. pose proof (fun op => end_children_asks (children s) s op) as Ha.
  unfold sbind. destruct (sfor_each _ _ s) as [[[]|e] s1]; destruct H as (Hk & acts & Hl & Hr).
  - split; [exact Hk|]. exists (acts ++ [CancelledTasks]). cbn. rewrite Hl, app_assoc. split; [done|]. split.
    + intros op. rewrite elem_of_app, list_elem_of_singleton. intros [H|[=]]. by apply (Ha op acts Hl).
    + intros _. destruct (Hr eq_refl) as [Hr1 Hr2]. rewrite reaped_app, killed_app, !app_nil_r. by split.
  - split; [exact Hk|]. exists acts. split; [done|]. split; [|done]. intros op. by apply Ha.
Qed.
Lemma ladder_parts s : shutdown_children spec w s =
  ((ignoring (remote spec w "power-button" None) ;; await_children w GUEST_POWEROFF_TIMEOUT) ;; hard_half ;;
   (fun s => sfor_each (end_child w) (children s) s) ;; record CancelledTasks) s.
Proof.
  unfold shutdown_children, hard_half, sbind. repeat case_match; simplify_eq; done.
Qed.

(** The parts of the ladder, put together. *)
Lemma ladder_joins s s1 s' r acts1 acts :
  keeps 240 s s1 -> keeps 80 s1 s' -> log s1 = log s ++ Asked "power-button" :: acts1 -> quiet (Asked "power-button" :: acts1) ->
  (forall op, Asked op ∈ Asked "power-button" :: acts1 -> op = "power-button"%string) ->
  log s' = log s1 ++ acts ->
  (Asked "shutdown" ∈ acts -> sw_now w (slept s) + GUEST_POWEROFF_TIMEOUT <= sw_now w (slept s1) /\
                              alive_among w (slept s1) (children s1) = Ok true) ->
  (r = Ok tt -> reaped acts = (children s1).*1 /\ forall k, k ∈ killed acts -> sw_try_wait w (slept s') k = Ok None) ->
  ladder_from s s' r.
Proof.
  intros Hk1 Hk2 Hl1 [Hr1 Hq1] Ho1 Hl Hsh Hok. pose proof (keeps_trans _ _ _ _ _ Hk1 Hk2) as (Hc & _ & Hs). destruct Hk1 as (Hc1 & _ & Hs1).
  split; [done|]. split; [unfold LADDER_POLLS; lia|]. exists (acts1 ++ acts). rewrite Hl, Hl1, <- app_assoc. split; [done|]. split.
  - rewrite elem_of_app. intros [H|H].
    + assert (Asked "shutdown" ∈ Asked "power-button" :: acts1) as [=]%Ho1 by (by right).
    + destruct (Hsh H) as [Hd Ha]. exists (slept s1). rewrite Hc1 in Ha. split_and!; [lia|done..].
  - intros Hr. rewrite reaped_app, killed_app. change (reaped acts1 = []) in Hr1. change (killed acts1 = []) in Hq1.
    rewrite Hr1, Hq1, <- Hc1. exact (Hok Hr).
Qed.
Lemma shutdown_ladder_parts (Hclock : clock_advances) s :
  let '(r, s') := shutdown_children spec w s in ladder_from s s' r.
Proof.
  rewrite ladder_parts. unfold sbind at 1.
  pose proof (asked_window Hclock "power-button" GUEST_POWEROFF_TIMEOUT s ltac:(done)) as H1.
  destruct (sbind (ignoring _) _ s) as [[[]|e] s1]; destruct H1 as (Hk1 & (acts1 & Hl1 & [Hr1 Hq1] & Ho1) & Hw1).
  - pose proof (hard_half_spec Hclock s1) as H2. unfold sbind at 1.
    destruct (hard_half s1) as [[[]|e] s2]; destruct H2 as (Hk2 & acts2 & Hl2 & [Hr2 Hq2] & Hs2).
    all: assert (Hwin : Asked "shutdown" ∈ acts2 -> sw_now w (slept s) + GUEST_POWEROFF_TIMEOUT <= sw_now w (slept s1) /\
      alive_among w (slept s1) (children s1) = Ok true)
      by (intros Ha%Hs2; split; [|done]; destruct (Hw1 eq_refl) as [Hw|Hw]; [congruence|done]).
    + pose proof (end_all_spec s2) as H3. destruct (sbind _ _ s2) as [r s3]. destruct H3 as (Hk3 & acts3 & Hl3 & Ha3 & He3).
      eapply (ladder_joins s s1 s3 r acts1 (acts2 ++ acts3)); try done; [exact (keeps_trans 80 0 _ _ _ Hk2 Hk3)|by rewrite Hl3, Hl2, app_assoc|..].
      * rewrite elem_of_app. intros [H|H]; [by apply Hwin|by destruct (Ha3 _ H)].
      * intros Hr. rewrite reaped_app, killed_app, Hr2, Hq2. replace (children s1) with (children s2) by apply Hk2.
        replace (slept s3) with (slept s2) by (destruct Hk3 as (_ & _ & Hk3); lia). exact (He3 Hr).
    + by eapply (ladder_joins s s1 s2 (Err e) acts1 acts2).
  - eapply (ladder_joins s s1 s1 (Err e) acts1 []); try done; [repeat split; lia|by rewrite app_nil_r|].
    intros H. by apply elem_of_nil in H.
Qed.
(** C4: The shutdown ladder.  It always opens with the ACPI power button, so the guest may unmount its volumes; the
    VMM is destroyed only when the whole window of six seconds has passed and a process that ends with the guest is
    still there; with a clock that advances by a poll's interval it returns within the polls of its two windows,
    whatever the children do - the helper it runs, the reap of a child it has killed and its drain tasks do return here, as
    answers; and when it succeeds every child of the run was reaped, in the order it was spawned, and
    only one that had not exited was killed. *)
Theorem shutdown_ladder_ends (Hclock : clock_advances) s :
  let '(r, s') := shutdown_children spec w s in
  (slept s <= slept s' <= slept s + LADDER_POLLS)%nat /\
  exists acts, log s' = log s ++ Asked "power-button" :: acts /\
    (Asked "shutdown" ∈ acts -> exists n, (slept s <= n)%nat /\ sw_now w (slept s) + GUEST_POWEROFF_TIMEOUT <= sw_now w n /\
                                  alive_among w n (children s) = Ok true) /\
    (r = Ok tt -> reaped acts = (children s).*1 /\ forall k, k ∈ killed acts -> sw_try_wait w (slept s') k = Ok None).
Proof.
  pose proof (shutdown_ladder_parts Hclock s) as H. destruct (shutdown_children spec w s) as [r s']. destruct H as (_ & H1 & H2). by split.
Qed.

(* ------------------------------------------------------------------ *)
(** ** A run that ended well *)

Lemma watch_children rounds s : children (snd (watch w rounds s)) = children s.
Proof.
  revert s. induction rounds as [|b rounds IH]; intros s; [done|]. cbn [watch].
  destruct (first_exit w (slept s) (children s)) as [[]|]; [done| |done].
  destruct b as [|[]| |[[]|]|]; try done. by rewrite IH.
Qed.
Lemma monitor_children s : children (snd (monitor w s)) = children s.
Proof. unfold monitor. destruct (sw_signals w); [apply watch_children|done]. Qed.
Lemma monitor_log s : log (snd (monitor w s)) = log s.
Proof. unfold monitor. destruct (sw_signals w); [apply watch_log|done]. Qed.
Lemma elem_of_spawned k c l : Spawned k c ∈ l -> k ∈ (spawned w l).*1.
Proof.
  intros H. apply list_elem_of_fmap. exists (k, pid_of w k). split; [done|]. apply list_elem_of_omap. by exists (Spawned k c).
Qed.
Lemma reaped_elem k l : k ∈ reaped l -> Reaped k ∈ l.
Proof. intros (a & Ha & H)%list_elem_of_omap. by destruct a; simplify_eq. Qed.
(** What a run that succeeds went through last. *)
Lemma run_ok reason : out_result (run spec w) = Some (Ok reason) ->
  exists s d, children s = spawned w (log s) /\
    shutdown_children spec w s = (Ok tt, out_state (run spec w)) /\
    cleanup_runtime spec w (sw_dir w (log (out_state (run spec w)))) = (Ok tt, d) /\ out_dir (run spec w) = Some d.
Proof.
  unfold run. set (s0 := mk_sup_state [] (vm_create spec) [] 0).
  assert (Hprep : follows (mirror w (vm_create spec)) (prepare_runtime spec w) [PrivateDir (root (runtime_paths spec))] (fun _ => mirror w (vm_create spec))).
  { unfold prepare_runtime. eapply (follows_then _ _ _ []); [apply follows_validate|].
    eapply (follows_then _ _ _ []); [apply mirror_lift|]. by apply mirror_record. }
  destruct (Hprep s0 (conj eq_refl eq_refl)) as (acts & Hl & Hr).
  destruct (prepare_runtime spec w s0) as [[u|e] s1]; [|done]. destruct Hr as [_ Hr].
  destruct (follows_launch spec w s1 Hr) as (acts2 & Hl2 & Hr2).
  assert (Hfail : forall e s, out_result (fail_after_cleanup spec w e s) <> Some (Ok reason)).
  { intros e s H. destruct (fail_log spec w e s) as [[e' He] _]. congruence. }
  destruct (run_inner spec w s1) as [[v|e] s2]; [|by intros H%Hfail]. destruct Hr2 as (_ & _ & Hm & _).
  pose proof (monitor_children s2) as Hc. pose proof (monitor_log s2) as Hlog.
  destruct (monitor w s2) as [[[reason'|e]|] s3]; [|by intros H%Hfail|done]. cbn [snd fst] in *.
  set (s4 := match reason' with VmExit => s3 | _ => _ end).
  assert (H4 : children s4 = spawned w (log s4)).
  { rewrite <- Hc, <- Hlog in Hm. destruct reason'; [exact Hm|..].
    all: change (children s3 = spawned w (log s3 ++ [CancelledTasks])); by rewrite spawned_app, app_nil_r. }
  clearbody s4. unfold teardown. destruct (shutdown_children spec w s4) as [sh s5] eqn:Es.
  destruct (cleanup_runtime spec w (sw_dir w (log s5))) as [cl d] eqn:Ec. cbn [out_result out_state out_dir].
  destruct sh as [[]|]; [|done]. destruct cl as [[]|]; [|done]. eauto 7.
Qed.

(** The directory, as [stop] lists it. *)
Definition listing_of (d : rundir) : dir_listing :=
  match d with None => D_NotFound | Some entries => D_Entries (map (fun e => Some (fst e)) entries) end.
Lemma only_the_lock_counts lock' entries n : (forall e, e ∈ entries -> path_eqb (fst e) lock' = true) ->
  count_residue lock' (map (fun e : bytes * entry_kind => Some (fst e)) entries) n = Ok n.
Proof.
  induction entries as [|e entries IH]; intros H; [done|]. cbn. rewrite H by (by left). apply IH. intros e' He. apply H. by right.
Qed.

(** C3: A run that ends well leaves nothing behind.  When [run] returns a reason, every process it spawned - the share
    daemons, the namespace holder, the uplink, the resolver, the VMM - was reaped by it, the sweep succeeded, and the
    directory it leaves is one [stop] accepts as a complete teardown: it is gone, or holds the retained lock alone. *)
Theorem clean_run_leaves_nothing (Hclock : clock_advances) reason r :
  out_result (run spec w) = Some (Ok reason) ->
  path_eqb (lock (runtime_paths spec)) (lock_path r) = true ->
  (forall k c, Spawned k c ∈ log (out_state (run spec w)) -> Reaped k ∈ log (out_state (run spec w))) /\
  exists d, out_dir (run spec w) = Some d /\ confirm_teardown r (listing_of d) = Ok tt.
Proof.
  intros H Hr. destruct (run_ok reason H) as (s & d & Hc & Hs & Hd & Hout). split.
  - intros k c Hk. assert (Hl : ladder_from s (out_state (run spec w)) (Ok tt)).
    { pose proof (shutdown_ladder_parts Hclock s) as Hl. by rewrite Hs in Hl. }
    destruct Hl as (_ & _ & acts & Hl & _ & He). destruct (He eq_refl) as [He' _]. rewrite Hl in Hk |- *.
    apply elem_of_app. right. right. apply reaped_elem. rewrite He', Hc.
    destruct (only_ends_shutdown spec w s) as (acts' & Hl' & Hends). rewrite Hs in Hl'. cbn [snd] in Hl'. rewrite Hl in Hl'.
    apply app_inv_head in Hl' as <-. apply elem_of_app in Hk as [Hk|Hk]; [by eapply elem_of_spawned|].
    rewrite Forall_forall in Hends. by specialize (Hends _ Hk).
  - exists d. split; [done|]. unfold confirm_teardown. destruct (sw_dir w _) as [entries|]; [|by injection Hd as <-].
    pose proof (cleanup_leaves entries) as Hs'. rewrite Hd in Hs'. specialize (Hs' eq_refl).
    destruct d as [entries'|]; [|done]. cbn [listing_of default] in *. rewrite only_the_lock_counts; [done|].
    intros e He. specialize (Hs' e He). unfold path_eqb in *. apply bool_decide_eq_true in Hs', Hr. apply bool_decide_eq_true. congruence.
Qed.
End teardown.

(* ------------------------------------------------------------------ *)
(** ** Witnesses *)

Lemma demo_clock : clock_advances demo_host.
Proof. intros n. unfold demo_host, sw_now, POLL_INTERVAL. lia. Qed.
Definition demo_running : sup_state := mk_sup_state [(Virtiofsd (bs "store"), 44); (Uplink, 42); (Vmm, 40)] demo_vm [] 0.
(** The guest takes the invitation: it is not destroyed, and only the uplink is killed. *)
Lemma shutdown_ladder_ends_witness :
  (slept (snd (shutdown_children demo_launch demo_host demo_running)) <= 320)%nat /\
  killed (log (snd (shutdown_children demo_launch demo_host demo_running))) = [Uplink].
Proof.
  pose proof (shutdown_ladder_ends demo_launch demo_host demo_clock demo_running) as H.
  split; [|vm_compute; reflexivity]. destruct (shutdown_children demo_launch demo_host demo_running) as [r s'].
  exact (proj2 (proj1 H)).
Defined.
Lemma demo_run_ok : out_result (run (Net := Z * Z) demo_launch demo_host) = Some (Ok (ChildFailure (Virtiofsd (bs "store")) (Some 0))).
Proof. vm_compute. reflexivity. Qed.
Definition demo_runtime : Runtime := mk_Runtime demo_root (bs "vivarium-p-t.service").
Lemma demo_lock : path_eqb (lock (runtime_paths demo_launch)) (lock_path demo_runtime) = true.
Proof. vm_compute. reflexivity. Qed.
Lemma clean_run_leaves_nothing_witness : exists d,
  out_dir (run (Net := Z * Z) demo_launch demo_host) = Some d /\ confirm_teardown demo_runtime (listing_of d) = Ok tt.
Proof.
  exact (proj2 (clean_run_leaves_nothing (Net := Z * Z) demo_launch demo_host demo_clock _ demo_runtime demo_run_ok demo_lock)).
Defined.
