(* ===== verification/ProvisionSpec.v ===== *)
(** * ProvisionSpec: a volume's image is published whole

    An image is built under a staging name in the directory of its volume and renamed into place only once it holds a
    file system; the staging name is none that [volume list] enumerates. *)
From S2P Require Import Prelude Bytes Paths Message Diagnostic Lifecycle Volumes Mounts Launch Workspace Ip Allowlist Nft Spec SpecSpec Json Netns Policy Supervisor SupervisorSpec.

(* ------------------------------------------------------------------ *)
(** ** The staging name *)

Lemma file_name_last p leaf : plain_name leaf -> file_name (p ++ slash :: leaf) = Some leaf.
Proof.
  intros Hp. unfold file_name, components. rewrite split_on_last by apply Hp. rewrite omap_app. cbn [omap list_omap].
  rewrite (piece_component_plain leaf Hp), app_assoc, last_snoc. done.
Qed.
Lemma file_stem_image stem : stem <> [] -> file_stem (stem ++ IMAGE_SUFFIX) = stem.
Proof.
  intros H. unfold file_stem, IMAGE_SUFFIX. rewrite rev_app_distr. change (rev (bs ".img")) with (bs "gmi" ++ ["."%byte]).
  rewrite <- app_assoc. cbn [app].
  rewrite find_byte_app by (apply contains_false; vm_compute; reflexivity).
  rewrite bool_decide_false by (intros E; apply H; rewrite <- (rev_involutive stem), E; done). apply rev_involutive.
Qed.
Lemma suffix_ends p (s s' : bytes) : length s' <> 0%nat -> last s <> last s' -> s <> [] -> strip_suffix s' (p ++ s) = None.
Proof.
  intros Hs' Hl Hs. destruct (strip_suffix s' (p ++ s)) as [r|] eqn:E; [|done]. apply strip_suffix_Some in E. exfalso. apply Hl.
  assert (Hlast : forall a b : bytes, b <> [] -> last (a ++ b) = last b).
  { intros a b Hb. rewrite last_app. destruct (last b) eqn:El; [done|]. by apply last_None in El. }
  rewrite <- (Hlast p s Hs), E. apply Hlast. by destruct s'.
Qed.
Lemma trim_tail_image p : trim_tail_fuel (length (p ++ IMAGE_SUFFIX)) (p ++ IMAGE_SUFFIX) = p ++ IMAGE_SUFFIX.
Proof.
  destruct (length _); [done|]. cbn [trim_tail_fuel]. unfold IMAGE_SUFFIX.
  by rewrite (suffix_ends p (bs ".img") (bs "/")), (suffix_ends p (bs ".img") (bs "/.")).
Qed.
Lemma image_plain stem : slash ∉ stem -> stem <> [] -> plain_name (stem ++ IMAGE_SUFFIX).
Proof.
  intros Hs Hne. destruct stem as [|b stem]; [done|]. split_and!; [done|..].
  - intros H. apply (f_equal length) in H. rewrite length_app in H. cbn in H. lia.
  - intros H. apply (f_equal length) in H. rewrite length_app in H. cbn in H. lia.
  - rewrite elem_of_app. intros [H|H]; [done|]. revert H. apply contains_false. vm_compute. reflexivity.
Qed.

(** An image is staged beside itself: under its own name and one suffix more. *)
Lemma staging_beside v dir stem : path v = dir ++ slash :: stem ++ IMAGE_SUFFIX -> slash ∉ stem -> stem <> [] ->
  staging_path v = path v ++ bs ".staging".
Proof.
  intros Hv Hs Hne. unfold staging_path, with_extension. rewrite Hv at 1.
  rewrite file_name_last by by apply image_plain. rewrite file_stem_image by done.
  assert (Hp : path v = (dir ++ slash :: stem) ++ IMAGE_SUFFIX) by (rewrite Hv, <- app_assoc; done).
  rewrite Hp, trim_tail_image, <- Hp, Hv, length_app. cbn [length].
  replace (length dir + S (length (stem ++ IMAGE_SUFFIX)) - length (stem ++ IMAGE_SUFFIX))%nat with (length (dir ++ [slash])) by (rewrite length_app; cbn; lia).
  change (dir ++ slash :: stem ++ IMAGE_SUFFIX) with (dir ++ [slash] ++ (stem ++ IMAGE_SUFFIX)). rewrite (app_assoc dir), take_app_length.
  rewrite <- !app_assoc. done.
Qed.
Lemma staging_is_no_image v dir stem : path v = dir ++ slash :: stem ++ IMAGE_SUFFIX -> slash ∉ stem -> stem <> [] ->
  is_image (staging_path v) = false.
Proof.
  intros Hv Hs Hne. rewrite (staging_beside v dir stem Hv Hs Hne), Hv. unfold is_image.
  rewrite <- app_assoc. cbn [app]. rewrite file_name_last.
  - rewrite <- app_assoc. change (IMAGE_SUFFIX ++ bs ".staging") with (bs ".img.staging").
    destruct (strip_suffix _ _) as [r|] eqn:E; [|done]. apply strip_suffix_Some in E. exfalso.
    change (bs ".img.staging") with (bs ".img.sta" ++ bs "ging") in E. rewrite app_assoc in E.
    apply app_inj_2 in E as [_ E]; done.
  - destruct (image_plain stem Hs Hne) as (H1 & H2 & H3 & H4). split_and!.
    + by destruct stem.
    + intros H. apply (f_equal length) in H. rewrite !length_app in H. cbn in H. lia.
    + intros H. apply (f_equal length) in H. rewrite !length_app in H. cbn in H. lia.
    + rewrite elem_of_app. intros [H|H]; [done|]. revert H. apply contains_false. vm_compute. reflexivity.
Qed.

(* ------------------------------------------------------------------ *)
(** ** Publishing *)

Section provision.
Context {Net : Type} {N : IpNetOps Net} (spec : LaunchSpec Value) (w : sup_world).

Lemma renames_of_plan l pre from to rest :
  flat_map (volume_plan spec w) l = pre ++ Renamed from to :: rest ->
  exists v pre', v ∈ l /\ sw_exists w (path v) <> Ok true /\ from = staging_path v /\ to = path v /\
    pre = pre' ++ [Ran (truncate_command spec v); Ran (mkfs_command spec v)].
Proof.
  revert pre. induction l as [|v l IH]; intros pre; cbn [flat_map]; [by destruct pre|]. intros H.
  assert (Hlater : forall k, flat_map (volume_plan spec w) l = k ++ Renamed from to :: rest -> pre = volume_plan spec w v ++ k ->
    exists v0 pre', v0 ∈ v :: l /\ sw_exists w (path v0) <> Ok true /\ from = staging_path v0 /\ to = path v0 /\
      pre = pre' ++ [Ran (truncate_command spec v0); Ran (mkfs_command spec v0)]).
  { intros k Hk ->. destruct (IH k Hk) as (v0 & pre' & Hv & He & Hf & Ht & ->). exists v0, (volume_plan spec w v ++ pre').
    rewrite <- app_assoc. split_and!; try done. by right. }
  unfold volume_plan in *. destruct (sw_exists w (path v)) as [[]|e] eqn:E; [by apply (Hlater pre)|..].
  all: destruct pre as [|a [|b [|c pre]]]; cbn in H; simplify_eq/=.
  all: try (exists v, []; split_and!; [by left|congruence|done..]).
  all: by apply (Hlater pre).
Qed.
Definition renames (a : action) : bool := match a with Renamed _ _ => true | _ => false end.
Lemma map_no_rename {A} (g : A -> action) l : (forall x, renames (g x) = false) -> existsb renames (map g l) = false.
Proof. intros H. induction l as [|x l IH]; [done|]. cbn. by rewrite H. Qed.
(** What a launch plans behind its volumes renames no file. *)
Definition late_plan : list action :=
  gate (commands_ok spec w) (roots_plan spec ++
    gate (forallb (root_ok spec w) (shares spec)) (daemons_plan spec w ++ network_plan spec w ++ guest_plan spec w ++ [Reported ProcessReady])).
Lemma renames_first from to : Renamed from to ∉ late_plan.
Proof.
  assert (H : existsb renames late_plan = false).
  { unfold late_plan, roots_plan, daemons_plan, network_plan, namespace_plan, uplink_plan, guest_plan, records_plan, asked.
    destruct (commands_ok spec w), (forallb (root_ok spec w) (shares spec)), (is_allowlist spec); cbn [gate]; [..|done|done|done|done].
    all: rewrite ?existsb_app, ?map_no_rename by done; reflexivity. }
  intros Hin. apply list_elem_of_In in Hin. assert (existsb renames late_plan = true) by (apply existsb_exists; eauto). congruence.
Qed.

End provision.

Lemma demo_log_renamed : demo_log =
  demo_pre 3 ++ Renamed (bs "/var/lib/v/home.img.staging") (bs "/var/lib/v/home.img") :: demo_post 3.
Proof. vm_compute. reflexivity. Qed.
