(* ===== verification/Cmdline.v ===== *)
(** * The kernel command line at the guest (src/nix/mount-bind.sh)

    What the supervisor composes is read twice: the agent looks for the boot identity, and the bind unit looks for the
    plan of each declared mount.  The unit's splitting, its scan and its decoding are modelled here, and the round trip
    is proved for the shares of a validated specification. *)
From S2P Require Import Prelude Bytes Paths Message Frame Process Session Agent AgentSpec Diagnostic Lifecycle Mounts Launch Workspace Ip Allowlist Nft Spec SpecSpec Json Netns Policy Supervisor SupervisorSpec.

(* ------------------------------------------------------------------ *)
(** ** The bind unit *)

(** [read -r -a tokens]: the first line, split on blanks. *)
Fixpoint split_by (sep : byte -> bool) (s : bytes) : list bytes :=
  match s with
  | [] => [[]]
  | b :: s' => if sep b then [] :: split_by sep s' else match split_by sep s' with [] => [[b]] | p :: ps => (b :: p) :: ps end
  end.
Definition is_blank (b : byte) : bool := bool_decide (b = " "%byte) || bool_decide (b = x09).
Definition first_line (s : bytes) : bytes := default [] (head (split_on x0a s)).
Definition read_tokens (s : bytes) : list bytes := filter (fun p => p <> []) (split_by is_blank (first_line s)).

Inductive guest_plan := Unplanned | BindDir | BindEntry (entry : bytes) | Refused (reason : string).
Definition parameter (tag : bytes) : bytes := bs "vivarium.mount." ++ tag ++ bs "=".
(** The scan over the tokens: [None] is the refusal of a second parameter. *)
Fixpoint guest_value (tag : bytes) (tokens : list bytes) (value : bytes) : option bytes :=
  match tokens with
  | [] => Some value
  | token :: tokens =>
      match strip_prefix (parameter tag) token with
      | Some v => if bool_decide (value = []) then guest_value tag tokens v else None
      | None => guest_value tag tokens value
      end
  end.
(** The value of a parameter; the three refusals of an entry are one here. *)
Definition read_plan (value : option bytes) : guest_plan :=
  match value with
  | None => Refused "duplicate-parameter"
  | Some [] => Unplanned
  | Some value =>
      if bytes_eqb value (bs "dir") then BindDir
      else match strip_prefix (bs "file:") value with
           | None => Refused "malformed-kind"
           | Some encoded => match guest_decode_entry encoded with Some entry => BindEntry entry | None => Refused "malformed-entry" end
           end
  end.
Definition guest_mount (cmdline tag : bytes) : guest_plan := read_plan (guest_value tag (read_tokens cmdline) []).

(* ------------------------------------------------------------------ *)
(** ** Splitting *)

Lemma split_by_ne sep s : split_by sep s <> [].
Proof. destruct s as [|b s]; [done|]. cbn. destruct (sep b); [done|]. by destruct (split_by sep s). Qed.
Lemma split_by_app sep a c b : sep c = true -> split_by sep (a ++ c :: b) = split_by sep a ++ split_by sep b.
Proof.
  intros Hc. induction a as [|x a IH]; cbn; [by rewrite Hc|]. destruct (sep x); rewrite IH; [done|].
  destruct (split_by sep a) eqn:E; [by destruct (split_by_ne sep a)|done].
Qed.
Lemma split_by_word sep t : Forall (fun b => sep b = false) t -> split_by sep t = [t].
Proof. induction 1 as [|b t Hb _ IH]; [done|]. cbn. by rewrite Hb, IH. Qed.
Lemma split_ws_by s : split_ws s = split_by is_ascii_whitespace s.
Proof. induction s as [|b s IH]; [done|]. cbn. by rewrite IH. Qed.
(** The words of a line, and of what is appended behind a separator. *)
Definition words (sep : byte -> bool) (s : bytes) : list bytes := filter (fun p => p <> []) (split_by sep s).
Lemma words_app sep a c b : sep c = true -> words sep (a ++ c :: b) = words sep a ++ words sep b.
Proof. intros H. unfold words. by rewrite split_by_app, filter_app. Qed.
Lemma words_word sep t : t <> [] -> Forall (fun b => sep b = false) t -> words sep t = [t].
Proof. intros Hne H. unfold words. rewrite split_by_word by done. by rewrite filter_cons_True. Qed.
Lemma words_append sep base ts : sep " "%byte = true -> Forall (fun t => t <> [] /\ Forall (fun b => sep b = false) t) ts ->
  words sep (base ++ flat_map (fun t => " "%byte :: t) ts) = words sep base ++ ts.
Proof.
  intros Hsp. revert base. induction ts as [|t ts IH]; intros base Hts; [by rewrite !app_nil_r|].
  apply Forall_cons in Hts as [[Hne Ht] Hts]. cbn [flat_map]. cbn [app].
  assert (Hs : words sep (base ++ " "%byte :: t) = words sep base ++ [t]) by (rewrite words_app, (words_word sep t); done).
  replace (base ++ " "%byte :: t ++ flat_map (fun t => " "%byte :: t) ts) with ((base ++ " "%byte :: t) ++ flat_map (fun t => " "%byte :: t) ts)
    by (by rewrite <- app_assoc). rewrite IH by done. by rewrite Hs, <- app_assoc.
Qed.

(** Bytes no splitter cuts at. *)
Definition printable (b : byte) : Prop := 33 <= bz b <= 126.
Lemma printable_no_whitespace b : printable b -> is_ascii_whitespace b = false /\ is_blank b = false /\ b <> x0a.
Proof.
  intros H. assert (Hno : forall c, bz c < 33 -> b <> c) by (intros c Hc ->; unfold printable in H; lia).
  split_and!.
  - unfold is_ascii_whitespace. destruct b; try done; by destruct H as [[] _].
  - unfold is_blank. by rewrite !bool_decide_false by by apply Hno.
  - by apply Hno.
Qed.
Definition plain_word (t : bytes) : Prop := t <> [] /\ Forall printable t.
Lemma read_tokens_words s : x0a ∉ s -> read_tokens s = words is_blank s.
Proof. intros H. unfold read_tokens, first_line. by rewrite split_on_single. Qed.

(** ** What a launch appends *)

Definition share_value (share : ShareSpec) : option bytes :=
  let* plan := mount_plan share in
  match plan_kind plan, plan_entry plan with
  | (Dir | Tree), _ => Some (bs "dir")
  | File, Some entry => Some (bs "file:" ++ entry)
  | File, None => None
  end.
Definition share_token (share : ShareSpec) : option bytes :=
  let* value := share_value share in Some (parameter (tag share) ++ value).
Definition launch_tokens (boot_identity : bytes) (shares : list ShareSpec) : list bytes :=
  (KEY ++ boot_identity) :: omap share_token shares.
Lemma flat_one t : flat_map (fun t : bytes => " "%byte :: t) (option_list (Some t)) = " "%byte :: t.
Proof. unfold option_list. simpl. by rewrite app_nil_r. Qed.
Lemma cmdline_step_token line share line' :
  cmdline_step line share = Ok line' -> line' = line ++ flat_map (fun t => " "%byte :: t) (option_list (share_token share)).
Proof.
  unfold cmdline_step, share_token, share_value. destruct (mount_plan share) as [plan|]; cbn [option_bind].
  2:{ intros [= <-]. by rewrite app_nil_r. }
  destruct (plan_kind plan), (plan_entry plan) as [entry|]; cbn [option_bind]; intros H; try done; injection H as <-.
  all: rewrite flat_one; unfold mount_parameter, parameter; rewrite <- ?app_assoc; done.
Qed.
Lemma fold_cmdline line shares line' : fold_err cmdline_step shares line = Ok line' ->
  line' = line ++ flat_map (fun t => " "%byte :: t) (omap share_token shares).
Proof.
  revert line. induction shares as [|share shares IH]; intros line; cbn [fold_err omap list_omap]; [intros [= <-]; by rewrite app_nil_r|].
  destruct (cmdline_step line share) as [line1|] eqn:E; [|done]. intros H. apply IH in H as ->. apply cmdline_step_token in E as ->.
  rewrite <- app_assoc. f_equal. destruct (share_token share); [by rewrite flat_one|done].
Qed.
Lemma compose_tokens base boot_identity shares line : compose_cmdline base boot_identity shares = Ok line ->
  line = base ++ flat_map (fun t => " "%byte :: t) (launch_tokens boot_identity shares) /\ (length line < CMDLINE_LIMIT)%nat.
Proof.
  unfold compose_cmdline. destruct (fold_err _ _ _) as [line'|] eqn:E; [|done]. cbn [rbind].
  destruct (_ <=? _)%nat eqn:El; [done|]. intros [= ->]. apply fold_cmdline in E as Hl. split; [|apply Nat.leb_gt; exact El].
  rewrite Hl. unfold launch_tokens. cbn [flat_map]. rewrite <- !app_assoc. done.
Qed.

(** ** The words are plain *)

Lemma plain_bytes s : forallb (fun b => (33 <=? bz b) && (bz b <=? 126)) s = true -> Forall printable s.
Proof. intros H. apply Forall_forall. intros b Hb. rewrite forallb_forall in H. specialize (H b (proj1 (list_elem_of_In _ _) Hb)). unfold printable. lia. Qed.
Lemma uuid_printable v : validate_boot_identity v = Ok tt -> Forall printable v.
Proof.
  intros (Hl & Hd & Hh)%validate_boot_identity_ok. apply Forall_lookup. intros i b Hb.
  destruct (decide (i ∈ dash_positions)) as [Hi|Hi].
  - rewrite (Hd i Hi) in Hb. injection Hb as <-. unfold printable. by vm_compute.
  - specialize (Hh i b Hb Hi). unfold printable, is_identity_hex, is_ascii_digit in *. lia.
Qed.
Lemma tag_printable t : share_tag_ok t -> Forall printable t /\ "="%byte ∉ t.
Proof.
  intros [->|(digits & -> & _ & Hd)].
  - split; [by apply plain_bytes|]. apply contains_false. reflexivity.
  - rewrite forallb_forall in Hd. split.
    + apply Forall_app. split; [by apply plain_bytes|]. apply Forall_forall. intros b Hb%list_elem_of_In%Hd.
      unfold printable, is_ascii_digit in *. lia.
    + rewrite elem_of_app. intros [H|H%list_elem_of_In%Hd]; [|done]. revert H. by apply contains_false.
Qed.
Lemma unreserved_printable b : unreserved b = true -> printable b.
Proof. unfold printable. destruct b; vm_compute; intros H; (split; congruence) || discriminate. Qed.
Lemma hex_printable b : is_hex_upper b = true -> printable b.
Proof. unfold printable, is_hex_upper, is_ascii_digit. lia. Qed.
Lemma decoded_printable s t : decode_bytes s = Some t -> Forall printable s.
Proof.
  remember (length s) as n eqn:Hn. revert s t Hn. induction n as [n IH] using lt_wf_ind. intros s t -> H.
  destruct s as [|b s]; [constructor|]. cbn [decode_bytes] in H. case_bool_decide as Hb.
  - destruct s as [|h [|l s]]; try done. destruct (is_hex_upper h) eqn:Eh, (is_hex_upper l) eqn:El; try done.
    cbn [andb] in H. destruct (decode_bytes s) as [r|] eqn:E; [|done]. subst b.
    constructor; [by unfold printable; vm_compute|]. do 2 (constructor; [by apply hex_printable|]).
    eapply (IH (length s)); [cbn; lia|done|exact E].
  - destruct (unreserved b) eqn:Eu; [|done]. destruct (decode_bytes s) as [r|] eqn:E; [|done].
    constructor; [by apply unreserved_printable|]. eapply (IH (length s)); [cbn; lia|done|exact E].
Qed.
Lemma entry_printable e n : guest_decode_entry e = Some n -> Forall printable e.
Proof.
  unfold guest_decode_entry. destruct e as [|b e]; [done|]. destruct (decode_bytes (b :: e)) eqn:E; [|done]. intros _.
  by eapply decoded_printable.
Qed.

(** ** The scan *)

Lemma guest_value_skip tag a b v : Forall (fun t => strip_prefix (parameter tag) t = None) a ->
  guest_value tag (a ++ b) v = guest_value tag b v.
Proof. induction 1 as [|t a Ht _ IH]; [done|]. cbn [app guest_value]. by rewrite Ht. Qed.
Lemma parameter_other t1 t2 v : "="%byte ∉ t1 -> "="%byte ∉ t2 -> t1 <> t2 -> strip_prefix (parameter t1) (parameter t2 ++ v) = None.
Proof.
  intros H1 H2 Hne. destruct (strip_prefix _ _) as [r|] eqn:E; [|done]. apply strip_prefix_Some in E. exfalso. apply Hne.
  unfold parameter in E. rewrite <- !app_assoc in E. apply app_inv_head in E. cbn [app bs String.list_byte_of_string] in E.
  assert (Hs : forall t r : bytes, "="%byte ∉ t -> head (split_on "=" (t ++ "="%byte :: r)) = Some t) by (intros t r' Ht; by rewrite split_on_app_cons).
  apply (f_equal (fun s => head (split_on "=" s))) in E. change (bs "=") with ["="%byte] in E. cbn [app] in E.
  rewrite !Hs in E by done. congruence.
Qed.
Lemma other_tokens t l : share_tag_ok t -> Forall (fun s => share_tag_ok (tag s)) l -> t ∉ map tag l ->
  Forall (fun x => strip_prefix (parameter t) x = None) (omap share_token l).
Proof.
  intros Ht Hl Hn. apply Forall_forall. intros x (s & Hs & Hx)%list_elem_of_omap. unfold share_token in Hx.
  destruct (share_value s) as [v|]; [|done]. injection Hx as <-. rewrite Forall_forall in Hl.
  apply parameter_other; [by apply tag_printable|by apply tag_printable, Hl|]. intros ->. apply Hn. apply list_elem_of_fmap. eauto.
Qed.
Lemma guest_value_app tag a b v : guest_value tag (a ++ b) v = match guest_value tag a v with Some v => guest_value tag b v | None => None end.
Proof.
  revert v. induction a as [|t a IH]; intros v; [done|]. cbn [app guest_value]. destruct (strip_prefix (parameter tag) t); [|apply IH].
  destruct (bool_decide _); [apply IH|done].
Qed.
Lemma value_found l s own : NoDup (map tag l) -> Forall (fun s => share_tag_ok (tag s)) l -> s ∈ l ->
  guest_value (tag s) (omap share_token l) own =
    match share_value s with Some v => if bool_decide (own = []) then Some v else None | None => Some own end.
Proof.
  intros Hnd Hok Hin. apply list_elem_of_split in Hin as (l1 & l2 & ->). rewrite omap_app. cbn [omap list_omap].
  rewrite map_app in Hnd. cbn [map] in Hnd. apply NoDup_app in Hnd as (_ & H1 & H2). apply NoDup_cons in H2 as [H2 _].
  apply Forall_app in Hok as [Hok1 [Hs Hok2]%Forall_cons].
  rewrite guest_value_skip by (apply other_tokens; [done..|]; intros H; apply (H1 _ H); by left).
  assert (Hlast : forall v, guest_value (tag s) (omap share_token l2) v = Some v).
  { intros v. rewrite <- (app_nil_r (omap _ _)). by rewrite guest_value_skip by by apply other_tokens. }
  unfold share_token at 1. destruct (share_value s) as [v|]; cbn [option_bind default]; [|apply Hlast].
  cbn [guest_value]. rewrite strip_prefix_app. case_bool_decide; [apply Hlast|done].
Qed.

(* ------------------------------------------------------------------ *)
(** ** The round trip *)

(** What the guest is to do with a share. *)
Definition intended (share : ShareSpec) : guest_plan :=
  match mount_plan share with
  | None => Unplanned
  | Some plan => match plan_kind plan with Dir | Tree => BindDir | File => match file_name (source share) with Some name => BindEntry name | None => Unplanned end end
  end.
Lemma read_plan_entry entry name : guest_decode_entry entry = Some name -> read_plan (Some (bs "file:" ++ entry)) = BindEntry name.
Proof.
  intros Hd. unfold read_plan. destruct (bs "file:" ++ entry) as [|b v] eqn:E; [done|]. rewrite <- E.
  assert (bytes_eqb (bs "file:" ++ entry) (bs "dir") = false) as -> by done. by rewrite strip_prefix_app, Hd.
Qed.
Lemma intended_value metadata root s : share_ok metadata root s -> read_plan (Some (default [] (share_value s))) = intended s.
Proof.
  intros (_ & _ & _ & _ & _ & Hp & _). unfold share_value, intended, plan_ok in *. destruct (mount_plan s) as [plan|]; [|done].
  destruct Hp as [_ Hp]. cbn [option_bind]. destruct (plan_kind plan); [done| |done].
  destruct Hp as (_ & _ & name & entry & -> & -> & Hd). cbn [option_bind default]. unfold read_plan.
  by apply read_plan_entry.
Qed.
Lemma share_value_printable metadata root s v : share_ok metadata root s -> share_value s = Some v -> Forall printable v.
Proof.
  intros (_ & _ & _ & _ & _ & Hp & _). unfold share_value, plan_ok in *. destruct (mount_plan s) as [plan|]; [|done].
  destruct Hp as [_ Hp]. cbn [option_bind]. destruct (plan_kind plan); [intros [= <-]; by apply plain_bytes| |intros [= <-]; by apply plain_bytes].
  destruct Hp as (_ & _ & name & entry & _ & -> & Hd). intros H. apply (inj Some) in H as <-.
  apply Forall_app. split; [by apply plain_bytes|by eapply entry_printable].
Qed.
Lemma launch_tokens_plain metadata root id l : validate_boot_identity id = Ok tt -> Forall (share_ok metadata root) l ->
  Forall plain_word (launch_tokens id l).
Proof.
  intros Hid Hl. constructor.
  - split; [done|]. apply Forall_app. split; [by apply plain_bytes|by apply uuid_printable].
  - apply Forall_forall. intros x (s & Hs & Hx)%list_elem_of_omap. rewrite Forall_forall in Hl. specialize (Hl s Hs).
    unfold share_token in Hx. destruct (share_value s) as [v|] eqn:Ev; [|done]. apply (inj Some) in Hx as <-. split; [done|].
    apply Forall_app. split; [|by eapply share_value_printable].
    unfold parameter. rewrite !Forall_app. split_and!; [by apply plain_bytes|by apply tag_printable, Hl|by apply plain_bytes].
Qed.

Lemma planned_value metadata root s : share_ok metadata root s -> is_Some (mount_plan s) <-> is_Some (share_value s).
Proof.
  intros (_ & _ & _ & _ & _ & Hp & _). unfold share_value, plan_ok in *. destruct (mount_plan s) as [plan|]; [|by split; intros [? [=]]]. destruct Hp as [_ Hp].
  cbn [option_bind]. destruct (plan_kind plan); [by split| |by split]. destruct Hp as (_ & _ & name & entry & _ & -> & _). by split.
Qed.
(** What a share comes to at the guest over a base line: the base is read first, and nothing behind a line feed at all. *)
Definition mounted_over (base : bytes) (share : ShareSpec) : guest_plan :=
  if bool_decide (x0a ∈ base) then guest_mount base (tag share)
  else if bool_decide (guest_value (tag share) (read_tokens base) [] = Some []) then intended share
  else match mount_plan share with Some _ => Refused "duplicate-parameter" | None => guest_mount base (tag share) end.
Lemma line_fed base more tag : x0a ∈ base -> guest_mount (base ++ more) tag = guest_mount base tag.
Proof.
  intros (a & b & Hb & Ha)%list_elem_of_split_l. unfold guest_mount, read_tokens, first_line. subst base.
  rewrite <- app_assoc. cbn [app]. by rewrite !split_on_app_cons.
Qed.
Lemma appended_identity base id ts : Forall (fun t => t <> [] /\ Forall (fun b => is_ascii_whitespace b = false) t) ts ->
  validate_boot_identity id = Ok tt -> omap (strip_prefix KEY) ts = [id] ->
  parse_boot_identity (base ++ flat_map (fun t => " "%byte :: t) ts) =
    match omap (strip_prefix KEY) (split_ascii_whitespace base) with [] => Ok id | _ => Err Boot_Duplicate end.
Proof.
  intros Hsep Hid Hts. unfold parse_boot_identity, split_ascii_whitespace. rewrite !split_ws_by.
  fold (words is_ascii_whitespace (base ++ flat_map (fun t => " "%byte :: t) ts)) (words is_ascii_whitespace base).
  rewrite words_append, omap_app, Hts by done. destruct (omap (strip_prefix KEY) (words is_ascii_whitespace base)) as [|v [|v' vs]]; cbn [app rbind guard_err]; [|done..].
  by rewrite Hid.
Qed.
(** C5: The launch parameters at the guest.  For a validated specification and a well-formed identity, over whatever base
    command line - validation does not look at it - the line that is composed is under the kernel's bound.  The agent
    reads back exactly this boot's identity, unless the base carries one of its own: then it refuses both.  The bind unit
    reads for every share exactly its plan - none when it has none, a directory bind for a directory or a workspace, and
    for a file the name of the declared source itself, whatever bytes that name holds - unless the base gives that share a
    value of its own, which is refused beside a plan, or holds a line feed, behind which the unit reads nothing. *)
Theorem launch_parameters_reach_the_guest symlink_metadata metadata {Net} {N : IpNetOps Net} {Value} (spec : LaunchSpec Value) base id line :
  validate symlink_metadata metadata spec = Ok tt ->
  validate_boot_identity id = Ok tt ->
  compose_cmdline base id (shares spec) = Ok line ->
  (length line < CMDLINE_LIMIT)%nat /\
  parse_boot_identity line = match omap (strip_prefix KEY) (split_ascii_whitespace base) with [] => Ok id | _ => Err Boot_Duplicate end /\
  forall share, share ∈ shares spec -> guest_mount line (tag share) = mounted_over base share.
Proof.
  intros Hv%validate_validated Hid Hc. destruct Hv as [_ _ _ _ _ _ Htags Hshares _ _ _].
  apply compose_tokens in Hc as [-> Hlen]. split; [done|].
  pose proof (launch_tokens_plain _ _ id _ Hid Hshares) as Hplain. set (ts := launch_tokens id (shares spec)) in *.
  assert (Hsep : forall sep, (forall b, printable b -> sep b = false) -> Forall (fun t => t <> [] /\ Forall (fun b => sep b = false) t) ts).
  { intros sep Hs. eapply Forall_impl; [exact Hplain|]. intros t [Hne Ht]. split; [done|]. by eapply Forall_impl. }
  split.
  - apply appended_identity; [apply Hsep; intros b Hb; by apply printable_no_whitespace|done|].
    unfold ts, launch_tokens. cbn [omap list_omap]. rewrite strip_prefix_app. f_equal. apply omap_none.
    intros t (s & _ & Ht)%list_elem_of_omap. unfold share_token in Ht. destruct (share_value s); [|done]. by apply (inj Some) in Ht as <-.
  - intros s Hs. unfold mounted_over. case_bool_decide as Hnl; [by apply line_fed|]. unfold guest_mount.
    rewrite read_tokens_words, words_append; [|done|by apply Hsep; intros b Hb; apply printable_no_whitespace|].
    2:{ rewrite elem_of_app. intros [H|H]; [done|]. apply list_elem_of_In, in_flat_map in H as (t & Ht & [Hb|Hb]); [done|].
        rewrite Forall_forall in Hplain. apply list_elem_of_In in Ht, Hb. destruct (Hplain t Ht) as [_ Hp]. rewrite Forall_forall in Hp.
        by apply Hp, printable_no_whitespace in Hb as (_ & _ & []). }
    rewrite <- read_tokens_words by done. rewrite guest_value_app.
    assert (Htg : Forall (fun s => share_tag_ok (tag s)) (shares spec)) by (eapply Forall_impl; [exact Hshares|]; by intros ? []).
    rewrite Forall_forall in Hshares. pose proof (planned_value _ _ _ (Hshares s Hs)) as Hplan. pose proof (intended_value _ _ _ (Hshares s Hs)) as Hint.
    assert (Hall : forall own, guest_value (tag s) ts own = match share_value s with Some v => if bool_decide (own = []) then Some v else None | None => Some own end).
    { intros own. change ts with ([KEY ++ id] ++ omap share_token (shares spec)). rewrite guest_value_skip by (by repeat constructor). by apply value_found. }
    destruct (guest_value (tag s) (read_tokens base) []) as [own|]; [rewrite Hall; destruct (decide (own = [])) as [->|Hown]|].
    + rewrite !bool_decide_true by done. rewrite <- Hint. by destruct (share_value s).
    + rewrite !bool_decide_false by congruence. destruct (share_value s) as [v|], (mount_plan s) as [plan|]; try done.
      * by destruct (proj2 Hplan ltac:(by eexists)).
      * by destruct (proj1 Hplan ltac:(by eexists)).
    + by destruct (mount_plan s).
Qed.

Definition demo_base : bytes := bs "console=hvc0 root=fstab panic=-1".
Definition demo_uuid : bytes := bs "0f1e2d3c-4b5a-4978-8695-a4b3c2d1e0ff".
Definition demo_line : bytes := match compose_cmdline demo_base demo_uuid (shares demo_valid) with Ok line => line | Err _ => [] end.
Lemma demo_composed : compose_cmdline demo_base demo_uuid (shares demo_valid) = Ok demo_line.
Proof. vm_compute. reflexivity. Qed.
(** The file mount of the demonstration holds a space in its name. *)
Lemma launch_parameters_reach_the_guest_witness :
  parse_boot_identity demo_line = Ok demo_uuid /\ guest_mount demo_line (bs "mnt1") = BindEntry (bs "a b").
Proof.
  destruct (launch_parameters_reach_the_guest demo_links demo_files demo_valid demo_base demo_uuid demo_line demo_validates) as (_ & Hid & Hm).
  - vm_compute. reflexivity.
  - exact demo_composed.
  - split; [rewrite Hid; reflexivity|].
    etrans; [apply (Hm (demo_share "mnt1" (bs "/data/a b") (Some (mk_MountPlan File (Some (bs "a%20b")) (bs "/etc/ab"))))); right; right; left|].
    vm_compute. reflexivity.
Defined.
