(* ===== verification/Handoff.v ===== *)
(** * The supervisor's process ([src/src/bin/vivarium-supervisor.rs]), and the channel to it
    ([src/src/launch/secure_fs.rs], [src/src/launch/readiness.rs])

    The invocations the binary accepts, the trust rule over the specification it is handed, the run of one supervisor
    with the report it writes, the staging step, and the private-file primitives both sides use.  A file system maps
    the components of a path to what is there; paths are UTF-8. *)
From S2P Require Import Prelude Bytes Paths Message Diagnostic Lifecycle Mounts Launch Workspace Ip Allowlist Nft Spec Json Netns Policy Supervisor.

(* ------------------------------------------------------------------ *)
(** ** secure_fs.rs *)

Definition PRIVATE_DIR_MODE : Z := 448.       (* 0o700 *)
Definition PRIVATE_FILE_MODE : Z := 384.      (* 0o600 *)
Inductive inode_kind := KDir | KFile | KSymlink | KSocket | KOther.
#[export] Instance inode_kind_eq_dec : EqDecision inode_kind.
Proof. solve_decision. Defined.
Record inode := mk_inode { i_kind : inode_kind; i_mode : Z; i_uid : Z; i_contents : bytes }.
Definition fs : Type := list Component -> option inode.
Definition at_ (f : fs) (p : bytes) : option inode := f (components p).
Definition put (f : fs) (p : bytes) (x : option inode) : fs :=
  fun q => if decide (q = components p) then x else f q.

Inductive SocketState := Absent | Socket | Other.

Section secure_fs.
(** What else may fail, by operation and path; the process's umask and uid; what a symbolic link leads to. *)
Context (fault : string -> bytes -> option fs_error) (umask uid : Z) (link_is_dir : bytes -> bool).

Definition io (operation : string) (p : bytes) : sem fs LaunchError unit :=
  slift (match fault operation p with Some e => Err (Io (bs operation) e) | None => Ok tt end).
Definition modify (g : fs -> fs) : sem fs LaunchError unit := fun f => (Ok tt, g f).
(** [create_dir_all], of the directory itself: its ancestors are created the same way. *)
Definition create_dir_all (p : bytes) : sem fs LaunchError unit := fun f =>
  match at_ f p with
  | None => (io "create runtime directory" p ;; modify (fun f => put f p (Some (mk_inode KDir (Z.ldiff 511 umask) uid [])))) f
  | Some i =>
      if bool_decide (i_kind i = KDir) || (bool_decide (i_kind i = KSymlink) && link_is_dir p) then (Ok tt, f)
      else (Err (Io (bs "create runtime directory") (OtherFs [])), f)
  end.
Definition lstat (operation : string) (p : bytes) : sem fs LaunchError inode := fun f =>
  (let! _ := io operation p in
   fun f => (match at_ f p with Some i => Ok i | None => Err (Io (bs operation) NotFound) end, f)) f.
Definition private_dir (p : bytes) : sem fs LaunchError unit :=
  create_dir_all p ;;
  let! metadata := lstat "inspect runtime directory" p in
  slift (guard_err (negb (bool_decide (i_kind metadata = KDir))) (InvalidRuntimePath (bs "runtime root is not a directory"))) ;;
  io "set runtime permissions" p ;;
  modify (fun f => put f p (Some (mk_inode KDir PRIVATE_DIR_MODE (i_uid metadata) (i_contents metadata)))).

(** What opening for a truncating write leaves: a new file has the mode asked for, one that was there keeps its own. *)
Definition open_private (p : bytes) : sem fs LaunchError unit := fun f =>
  match at_ f p with
  | None => (io "create runtime metadata" p ;; modify (fun f => put f p (Some (mk_inode KFile (Z.ldiff PRIVATE_FILE_MODE umask) uid [])))) f
  | Some i =>
      match i_kind i with
      | KFile => (io "create runtime metadata" p ;; modify (fun f => put f p (Some (mk_inode KFile (i_mode i) (i_uid i) [])))) f
      | KSymlink => io "create runtime metadata" p f     (* the write goes through the link *)
      | _ => (Err (Io (bs "create runtime metadata") (OtherFs [])), f)
      end
  end.
Definition private_write (p contents : bytes) : sem fs LaunchError unit :=
  open_private p ;;
  io "write runtime metadata" p ;;
  modify (fun f => match at_ f p with
                   | Some (mk_inode KFile mode uid _) => put f p (Some (mk_inode KFile mode uid contents))
                   | _ => f
                   end).

Definition socket_state (p : bytes) : sem fs LaunchError SocketState := fun f =>
  (io "inspect socket path" p ;;
   fun f => (Ok (match at_ f p with
                 | None => Absent
                 | Some i => if bool_decide (i_kind i = KSocket) then Socket else Other
                 end), f)) f.
End secure_fs.

(* ------------------------------------------------------------------ *)
(** ** readiness.rs *)

Definition SCHEMA_VERSION : Z := 1.
Inductive ReadinessStatus := ProcessReady_ | Failed_.
Record ReadinessReport := mk_ReadinessReport { schema_version : Z; status : ReadinessStatus }.
Inductive ReadinessError := Encode | Decode | UnsupportedSchema (version : Z).
Definition process_ready : ReadinessReport := mk_ReadinessReport SCHEMA_VERSION ProcessReady_.
Definition failed : ReadinessReport := mk_ReadinessReport SCHEMA_VERSION Failed_.

Section readiness.
(** [serde_json::to_vec] and [from_slice] at this type. *)
Context (to_vec : ReadinessReport -> option bytes) (from_slice : bytes -> option ReadinessReport).
Definition encode (r : ReadinessReport) : result bytes ReadinessError := ok_or (to_vec r) Encode.
Definition decode (raw : bytes) : result ReadinessReport ReadinessError :=
  let? report := ok_or (from_slice raw) Decode in
  if schema_version report =? SCHEMA_VERSION then Ok report else Err (UnsupportedSchema (schema_version report)).
End readiness.

(* ------------------------------------------------------------------ *)
(** ** The invocations *)

Inductive SupervisorError :=
| Usage
| UntrustedSpecFile
| SpecPathMismatch
| ReadSpec (source : fs_error)
| InspectPath (what : bytes) (source : fs_error)
| InvalidSpec (source : LaunchError)
| ReportReadiness (source : fs_error)
| EncodeReadiness (source : ReadinessError)
| Supervision (source : LaunchError)
| SupervisionTask
| ReadinessNotReported
| NetInit (source : fs_error)
| ResolverBind (source : fs_error)
| ResolverServe (source : fs_error)
| Stage (stage : bytes) (step : bytes) (source : fs_error)
| StageExec (source : fs_error).
Definition supervisor_exit_code (e : SupervisorError) : ExitKind :=
  match e with
  | InvalidSpec (SchemaSkew _ _) => Diagnostic.Config
  | Usage | UntrustedSpecFile | SpecPathMismatch | InvalidSpec _ => Diagnostic.Usage
  | ReadSpec _ | InspectPath _ _ | ReportReadiness _ | NetInit _ | ResolverBind _ | ResolverServe _ | Stage _ _ _ | StageExec _ => Diagnostic.IoErr
  | EncodeReadiness _ | Supervision _ | SupervisionTask | ReadinessNotReported => Diagnostic.Software
  end.

Record StageRequest := mk_StageRequest { req_source : bytes; req_stage : bytes; req_readonly : bool; req_program : bytes; req_args : list bytes }.
Inductive Invocation :=
| Supervise (spec ready : bytes)
| NetInit_
| Resolver_ (spec : bytes)
| StageShare (request : StageRequest).

Definition next {E} (l : list bytes) (e : E) : result (bytes * list bytes) E :=
  match l with x :: l => Ok (x, l) | [] => Err e end.
(** The [expect] closure: the flag, then its value. *)
Definition expect (flag : string) (l : list bytes) : result (bytes * list bytes) SupervisorError :=
  match l with
  | x :: l => if bytes_eqb x (bs flag) then next l Usage else Err Usage
  | [] => Err Usage
  end.
Definition stage_arguments (tokens : list bytes) : result Invocation SupervisorError :=
  let? (source, tokens) := expect "--source" tokens in
  let? (stage, tokens) := expect "--stage" tokens in
  let? (token, tokens) := next tokens Usage in
  let readonly := bytes_eqb token (bs "--readonly") in
  let? (token, tokens) := if readonly then next tokens Usage else Ok (token, tokens) in
  let? _ := guard_err (negb (bytes_eqb token (bs "--"))) Usage in
  let? (program, tokens) := next tokens Usage in
  let? _ := guard_err (negb (is_absolute source) || negb (is_absolute stage) || negb (is_absolute program)) Usage in
  Ok (StageShare (mk_StageRequest source stage readonly program tokens)).
Definition no_more (l : list bytes) : bool := match l with [] => true | _ => false end.
Definition arguments (argv : list bytes) : result Invocation SupervisorError :=
  let? (first, tokens) := next (List.skipn 1 argv) Usage in
  if bytes_eqb first (bs "net-init") then
    let? _ := guard_err (negb (no_more tokens)) Usage in Ok NetInit_
  else if bytes_eqb first (bs "resolver") then
    let? (spec, tokens) := expect "--spec" tokens in
    let? _ := guard_err (negb (no_more tokens) || negb (is_absolute spec)) Usage in
    Ok (Resolver_ spec)
  else if bytes_eqb first (bs "stage-share") then stage_arguments tokens
  else
    let? _ := guard_err (negb (bytes_eqb first (bs "--spec"))) Usage in
    let? (spec, tokens) := next tokens Usage in
    let? (ready, tokens) := expect "--ready-socket" tokens in
    let? _ := guard_err (negb (no_more tokens) || negb (is_absolute spec) || negb (is_absolute ready)) Usage in
    Ok (Supervise spec ready).

(* ------------------------------------------------------------------ *)
(** ** The trust rule *)

Definition MODE_MASK : Z := 511.              (* 0o777 *)
Definition inspect (fault : string -> bytes -> option fs_error) (what : string) (f : fs) (p : list Component) (name : bytes)
    : result inode SupervisorError :=
  match fault what name with
  | Some e => Err (InspectPath (bs what) e)
  | None => ok_or (f p) (InspectPath (bs what) NotFound)
  end.
Definition validate_metadata (fault : string -> bytes -> option fs_error) (f : fs) (spec ready : bytes) : result unit SupervisorError :=
  let? _ := guard_err (negb (is_absolute spec) || negb (is_absolute ready) || negb (bool_decide (parent spec = parent ready))) UntrustedSpecFile in
  let? spec_metadata := inspect fault "launch specification" f (components spec) spec in
  let? above := ok_or (parent spec) UntrustedSpecFile in
  let? parent_metadata := inspect fault "runtime directory" f above spec in
  guard_err (negb (bool_decide (i_kind spec_metadata = KFile)) ||
             negb (Z.land (i_mode spec_metadata) MODE_MASK =? PRIVATE_FILE_MODE) ||
             negb (Z.land (i_mode parent_metadata) MODE_MASK =? PRIVATE_DIR_MODE) ||
             negb (i_uid spec_metadata =? i_uid parent_metadata)) UntrustedSpecFile.

(* ------------------------------------------------------------------ *)
(** ** One supervisor *)

(** What the process meets: the file system, the bytes of the specification, its parsers, the connection, and what the
    supervision task came to - its outcome, or a panic. *)
Record process_world := mk_process_world {
  pw_fault : string -> bytes -> option fs_error;
  pw_fs : fs;
  pw_read : bytes -> result bytes fs_error;
  pw_connect : result unit fs_error;
  pw_write : result unit fs_error;
  pw_panics : bool }.

Section process.
Context {Net : Type} {N : IpNetOps Net}.
Context (version_of : bytes -> option Z) (decode_spec : bytes -> option (LaunchSpec Value)).
Context (symlink_metadata : bytes -> result link_kind fs_error) (metadata : bytes -> result file_kind fs_error).
Context (to_vec : ReadinessReport -> option bytes).
Context (w : process_world) (host : sup_world).

Definition read_spec (path : bytes) : result (LaunchSpec Value) SupervisorError :=
  let? raw := map_err ReadSpec (pw_read w path) in
  map_err InvalidSpec (from_json symlink_metadata metadata version_of decode_spec raw).
Definition send_ready (report : ReadinessReport) : result bytes SupervisorError :=
  let? encoded := map_err EncodeReadiness (encode to_vec report) in
  let? _ := map_err ReportReadiness (pw_write w) in
  Ok encoded.
Definition join (r : result ShutdownReason LaunchError) : result unit SupervisorError :=
  if pw_panics w then Err SupervisionTask else let? _ := map_err Supervision r in Ok tt.
Definition err_or (r : result unit SupervisorError) (e : SupervisorError) : SupervisorError :=
  match r with Err e' => e' | Ok _ => e end.
(** The one value the readiness channel delivers. *)
Definition first_report (l : list action) : option LaunchReady :=
  head (omap (fun a => match a with Reported r => Some r | _ => None end) l).
(** How a process goes on: [answer] is [None] while supervision lasts; [sent] is what the launcher reads up to its end
    of file, when a connection was made and closed. *)
Record process := mk_process { answer : option (result unit SupervisorError); sent : option bytes }.
Definition stopped (e : SupervisorError) : process := mk_process (Some (Err e)) None.
Definition joined (o : outcome) (k : result unit SupervisorError -> result unit SupervisorError) : option (result unit SupervisorError) :=
  option_map (fun r => k (join r)) (out_result o).
Definition attend (o : outcome) : process :=
  match first_report (log (out_state o)) with
  | Some ProcessReady =>
      match send_ready process_ready with
      | Ok raw => mk_process (joined o (fun r => r)) (Some raw)
      | Err e => mk_process (Some (Err e)) (Some [])
      end
  | Some Failed =>
      mk_process (joined o (fun r => Err (err_or r ReadinessNotReported))) (Some (match send_ready failed with Ok raw => raw | Err _ => [] end))
  | None =>
      let reported := send_ready failed in
      mk_process (joined o (fun r => Err (err_or r (match reported with Err e => e | Ok _ => ReadinessNotReported end))))
                 (Some (match reported with Ok raw => raw | Err _ => [] end))
  end.
Definition run_supervisor (spec_path ready_path : bytes) : process :=
  match
    (let? _ := validate_metadata (pw_fault w) (pw_fs w) spec_path ready_path in
     let? spec := read_spec spec_path in
     let? _ := guard_err (negb (path_eqb (launch_spec (runtime_paths spec)) spec_path) || negb (path_eqb (ready_socket (runtime_paths spec)) ready_path))
                         SpecPathMismatch in
     let? _ := map_err ReportReadiness (pw_connect w) in
     Ok spec)
  with
  | Err e => stopped e
  | Ok spec => attend (run spec host)
  end.

(** ** The resolver's entry point: what it serves, or why it does not *)

Record resolver_service := mk_resolver_service { rs_bind : IpAddr * Z; rs_upstream : IpAddr * Z; rs_allowlist : Allowlist Net; rs_withhold_aaaa : bool }.
Definition run_resolver (bind_result : IpAddr * Z -> result unit fs_error) (serve : resolver_service -> result unit fs_error)
    (spec_path : bytes) : result unit SupervisorError :=
  let? _ := validate_metadata (pw_fault w) (pw_fs w) spec_path spec_path in
  let? spec := read_spec spec_path in
  let? _ := guard_err (negb (path_eqb (launch_spec (runtime_paths spec)) spec_path)) SpecPathMismatch in
  let? allowlist := map_err (fun _ => InvalidSpec (Launch.InvalidSpec (bs "egress allowlist"))) (allowlist_parse (allow (egress spec))) in
  let bind := (gateway_address (network spec), resolver_port (network spec)) in
  let? _ := map_err ResolverBind (bind_result bind) in
  map_err ResolverServe (serve (mk_resolver_service bind (dns_forward_address (network spec), 53) allowlist true)).
End process.

(* ------------------------------------------------------------------ *)
(** ** Staging *)

Inductive stage_action :=
| MakeRoot (path : bytes)
| MountTmpfs (path : bytes)
| CreateEntry (path : bytes)
| BindFile (source entry : bytes)
| SealEntry (entry : bytes)          (* bind, ro, nosuid, nodev, noexec *)
| SealRoot (path : bytes)            (* ro, nosuid, nodev, noexec *)
| Become (program : bytes) (args : list bytes).
Definition step_name (a : stage_action) : bytes :=
  match a with
  | MakeRoot _ => bs "creating the export root"
  | MountTmpfs _ => bs "mounting the export root"
  | CreateEntry _ => bs "creating the entry"
  | BindFile _ _ => bs "binding the declared file"
  | SealEntry _ => bs "sealing the entry read-only"
  | SealRoot _ => bs "sealing the export root"
  | Become _ _ => []
  end.
(** [refuses]: what the kernel answers to a step that fails. *)
Definition stage_step (refuses : stage_action -> option fs_error) (stage : bytes) (a : stage_action) : sem (list stage_action) SupervisorError unit := fun done =>
  match refuses a with Some e => (Err (Stage stage (step_name a) e), done) | None => (Ok tt, done ++ [a]) end.
(** [Ok]: the process has become the program. *)
Definition stage_share (refuses : stage_action -> option fs_error) (request : StageRequest) : sem (list stage_action) SupervisorError unit :=
  let stage := req_stage request in
  let! name := slift (ok_or (file_name (req_source request)) (Stage stage (bs "naming the entry") (OtherFs []))) in
  let entry := Paths.join stage name in
  stage_step refuses stage (MakeRoot stage) ;;
  stage_step refuses stage (MountTmpfs stage) ;;
  stage_step refuses stage (CreateEntry entry) ;;
  stage_step refuses stage (BindFile (req_source request) entry) ;;
  (if req_readonly request then stage_step refuses stage (SealEntry entry) else sret tt) ;;
  stage_step refuses stage (SealRoot stage) ;;
  fun done =>
    let a := Become (req_program request) (req_args request) in
    match refuses a with Some e => (Err (StageExec e), done) | None => (Ok tt, done ++ [a]) end.
