(* ===== verification/Launcher.v ===== *)
(** * The launcher ([src/src/main.rs])

    The private form [start --spec] that hands a rendered specification to its supervisor and waits for its report,
    and the output shape an invocation asks for. *)
From S2P Require Import Prelude Bytes Paths Message Diagnostic Grammar Lifecycle Mounts Launch Workspace Ip Allowlist Nft Spec Json Netns Policy Supervisor Handoff.

Definition READINESS_TIMEOUT : Z := 30000.

Definition requested_output (invocation : Grammar.Invocation) : Output :=
  match invocation with
  | Config _ output | ConfigEval output | ConfigSources output | ManifestList output | ManifestShow _ output
  | Start _ _ _ _ output | Status _ output | Stop _ _ _ output | VolumeList output | VolumePrune _ _ output
  | VolumeTrim _ output | MemoryTrim _ output | Trim output | Destroy _ _ output | GenerationsList output
  | GenerationsPrune _ _ output | GenerationsActivate _ output | GenerationsRollback output | Gc output
  | Update _ output | Doctor _ _ _ output => output
  | StartSpec _ | Exec _ | Shell _ | Help _ | Version => Human
  end.

Inductive StartError :=
| ReadInputSpec (source : fs_error)
| StartInvalidSpec (source : LaunchError)
| PrepareRuntime (source : LaunchError)
| ReadinessPathOccupied
| ReplaceReadinessSocket (source : fs_error)
| BindReadiness (source : fs_error)
| SubmitUnit (source : fs_error)
| UnitRejected
| HandoffTimeout
| AcceptReadiness (source : fs_error)
| ReadReadiness (source : fs_error)
| InvalidReadiness (source : ReadinessError)
| SupervisorFailed.
Definition start_exit_code (e : StartError) : ExitKind :=
  match e with
  | StartInvalidSpec (SchemaSkew _ _) => Diagnostic.Config
  | StartInvalidSpec _ | ReadinessPathOccupied => Diagnostic.Usage
  | ReadInputSpec _ | PrepareRuntime _ | ReplaceReadinessSocket _ | BindReadiness _ | AcceptReadiness _ | ReadReadiness _ => Diagnostic.IoErr
  | SubmitUnit _ | UnitRejected | HandoffTimeout | InvalidReadiness _ | SupervisorFailed => Diagnostic.Software
  end.

(** What the listener meets: the first connection with the time it comes at, if one does, and what is read from it up to
    its end of file, if that comes. *)
Record peer := mk_peer { connects : option (Z * result unit fs_error); streams : option (result bytes fs_error) }.
Record launcher_world := mk_launcher_world {
  lw_fault : string -> bytes -> option fs_error;
  lw_umask : Z;
  lw_uid : Z;
  lw_link_is_dir : bytes -> bool;
  lw_read : bytes -> result bytes fs_error;
  lw_unlink : option fs_error;
  lw_bind : option fs_error;
  lw_submit : CommandSpec -> fs -> result bool fs_error }.

Section launcher.
Context {Net : Type} {N : IpNetOps Net}.
Context (version_of : bytes -> option Z) (decode_spec : bytes -> option (LaunchSpec Value)).
Context (symlink_metadata : bytes -> result link_kind fs_error) (metadata : bytes -> result file_kind fs_error).
Context (from_slice : bytes -> option ReadinessReport) (w : launcher_world).

(** [None]: it has not returned. *)
Definition await_readiness (p : peer) : option (result ReadinessReport StartError) :=
  match connects p with
  | None => Some (Err HandoffTimeout)
  | Some (at_, accepted) =>
      if READINESS_TIMEOUT <=? at_ then Some (Err HandoffTimeout) else
      match accepted with
      | Err e => Some (Err (AcceptReadiness e))
      | Ok _ => option_map (fun r => let? raw := map_err ReadReadiness r in map_err InvalidReadiness (decode from_slice raw)) (streams p)
      end
  end.
Definition clear_readiness_path (p : bytes) : sem fs StartError unit :=
  let! state := smap_err PrepareRuntime (socket_state (lw_fault w) p) in
  match state with
  | Absent => sret tt
  | Socket => fun f => match lw_unlink w with Some e => (Err (ReplaceReadinessSocket e), f) | None => (Ok tt, put f p None) end
  | Other => sfail ReadinessPathOccupied
  end.
(** Binding makes the name, which must be free. *)
Definition bind_readiness (p : bytes) : sem fs StartError unit := fun f =>
  match lw_bind w, at_ f p with
  | Some e, _ => (Err (BindReadiness e), f)
  | None, Some _ => (Err (BindReadiness (OtherFs [])), f)
  | None, None => (Ok tt, put f p (Some (mk_inode KSocket (Z.ldiff 511 (lw_umask w)) (lw_uid w) [])))
  end.
(** Up to the unit: the specification it is started with. *)
Definition prepare_handoff (spec_path : bytes) : sem fs StartError (LaunchSpec Value) :=
  let! raw := slift (map_err ReadInputSpec (lw_read w spec_path)) in
  let! spec := slift (map_err StartInvalidSpec (from_json symlink_metadata metadata version_of decode_spec raw)) in
  smap_err PrepareRuntime (private_dir (lw_fault w) (lw_umask w) (lw_uid w) (lw_link_is_dir w) (root (runtime_paths spec))) ;;
  smap_err PrepareRuntime (private_write (lw_fault w) (lw_umask w) (lw_uid w) (launch_spec (runtime_paths spec)) raw) ;;
  clear_readiness_path (ready_socket (runtime_paths spec)) ;;
  bind_readiness (ready_socket (runtime_paths spec)) ;;
  sret spec.
Definition submit_unit (spec : LaunchSpec Value) : sem fs StartError unit := fun f =>
  match lw_submit w (transient_unit spec) f with
  | Err e => (Err (SubmitUnit e), f)
  | Ok accepted => (guard_err (negb accepted) UnitRejected, f)
  end.
Definition verdict (r : result ReadinessReport StartError) : result unit StartError :=
  let? report := r in match status report with ProcessReady_ => Ok tt | Failed_ => Err SupervisorFailed end.
(** [peer_of] is what the submitted unit makes of the socket. *)
Definition handoff (peer_of : LaunchSpec Value -> fs -> peer) (spec_path : bytes) (f : fs) : option (result unit StartError) * fs :=
  match (let! spec := prepare_handoff spec_path in submit_unit spec ;; sret spec) f with
  | (Err e, f) => (Some (Err e), f)
  | (Ok spec, f) => (option_map verdict (await_readiness (peer_of spec f)), f)
  end.
End launcher.
