(* ===== verification/HandoffSpec.v ===== *)
(** * HandoffSpec: one launch across two processes

    The invocations one side renders are the ones the other side parses; the specification the launcher leaves is one
    its supervisor trusts; the report that crosses says what the launch came to; and a staged daemon is started only
    in a sealed tree. *)
From S2P Require Import Prelude Bytes Paths Message Diagnostic Grammar Lifecycle Mounts Launch Workspace Ip Allowlist Nft Spec SpecSpec Json Netns Policy Supervisor SupervisorSpec Handoff Launcher.

(* ------------------------------------------------------------------ *)
(** ** The invocations *)

Lemma arguments_supervise prog spec ready : is_absolute spec = true -> is_absolute ready = true ->
  arguments [prog; bs "--spec"; spec; bs "--ready-socket"; ready] = Ok (Supervise spec ready).
Proof.
  intros H1 H2. change (arguments [prog; bs "--spec"; spec; bs "--ready-socket"; ready]) with
    (let? _ := guard_err (negb true || negb (is_absolute spec) || negb (is_absolute ready)) Usage in Ok (Supervise spec ready)).
  by rewrite H1, H2.
Qed.
Lemma arguments_resolver prog spec : is_absolute spec = true -> arguments [prog; bs "resolver"; bs "--spec"; spec] = Ok (Resolver_ spec).
Proof.
  intros H. change (arguments [prog; bs "resolver"; bs "--spec"; spec]) with
    (let? _ := guard_err (negb true || negb (is_absolute spec)) Usage in Ok (Resolver_ spec)).
  by rewrite H.
Qed.
Lemma arguments_stage prog source stage (ro : bool) program rest :
  is_absolute source = true -> is_absolute stage = true -> is_absolute program = true ->
  arguments ([prog; STAGE_SHARE; bs "--source"; source; bs "--stage"; stage] ++ (if ro then [bs "--readonly"] else []) ++ [separator; program] ++ rest) =
  Ok (StageShare (mk_StageRequest source stage ro program rest)).
Proof.
  intros H1 H2 H3. destruct ro; lazymatch goal with |- _ = Ok ?r => transitivity
    (let? _ := guard_err (negb (is_absolute source) || negb (is_absolute stage) || negb (is_absolute program)) Usage in Ok r) end; [reflexivity| |reflexivity|].
  all: by rewrite H1, H2, H3.
Qed.

(** A command that runs a program behind the words of a wrapper: the program is the supervisor of this launch, under its own
    name, and its arguments are read as the invocation. *)
Definition starts_as {Value} (spec : LaunchSpec Value) (wrapper : bytes) (options : list bytes) (c : CommandSpec) (invocation : Handoff.Invocation) : Prop :=
  program c = wrapper /\ exists argv, args c = options ++ supervisor (backend_programs spec) :: argv /\
  arguments (supervisor (backend_programs spec) :: argv) = Ok invocation.
(** Options that end at the separator, and at none before: what follows is what [systemd-run] and [unshare] execute. *)
Definition up_to_separator (options : list bytes) : Prop := exists own, options = own ++ [separator] /\ separator ∉ own.

(* ------------------------------------------------------------------ *)
(** ** What the launcher leaves *)

Lemma put_same f p x : at_ (put f p x) p = x.
Proof. unfold at_, put. by rewrite decide_True. Qed.
Lemma put_other f p x q : q <> components p -> put f p x q = f q.
Proof. intros H. unfold put. by rewrite decide_False. Qed.
(** [m] touches nothing but [p]. *)
Definition frames (p : bytes) (f f' : fs) : Prop := forall q, q <> components p -> f' q = f q.

Section files.
Context (fault : string -> bytes -> option fs_error) (umask uid : Z) (link_is_dir : bytes -> bool).
Lemma io_ok op p f u f' : io fault op p f = (Ok u, f') -> f' = f.
Proof. unfold io, slift. destruct (fault op p); by intros [=]. Qed.
Lemma create_dir_all_ok p f u f' : create_dir_all fault umask uid link_is_dir p f = (Ok u, f') ->
  frames p f f' /\ (f' = f \/ (at_ f p = None /\ at_ f' p = Some (mk_inode KDir (Z.ldiff 511 umask) uid []))).
Proof.
  unfold create_dir_all. destruct (at_ f p) as [i|] eqn:E.
  - destruct (_ || _); intros [= _ <-]. by split; [intros q|left].
  - intros (u1 & f1 & H1%io_ok & H2)%sbind_ok. subst f1. injection H2 as _ <-. split; [intros q Hq; by apply put_other|].
    right. by rewrite put_same.
Qed.
Lemma private_dir_ok p f u f' : private_dir fault umask uid link_is_dir p f = (Ok u, f') ->
  frames p f f' /\ exists i, at_ f' p = Some i /\ i_kind i = KDir /\ i_mode i = PRIVATE_DIR_MODE /\
    (i_uid i = uid \/ exists i0, at_ f p = Some i0 /\ i_uid i = i_uid i0).
Proof.
  unfold private_dir. intros (u1 & f1 & H1%create_dir_all_ok & H2)%sbind_ok. destruct H1 as [Hf1 H1].
  apply sbind_ok in H2 as (m & f2 & Hl & H2). unfold lstat in Hl. apply sbind_ok in Hl as (u2 & f3 & H3%io_ok & Hl). subst f3.
  destruct (at_ f1 p) as [i|] eqn:E; [|done]. injection Hl as -> ->. apply sbind_ok in H2 as (u3 & f3 & Hg & H2).
  injection Hg as Hg <-. apply guard_err_ok in Hg. apply sbind_ok in H2 as (u4 & f4 & H4%io_ok & H2). subst f4. injection H2 as _ <-.
  split; [intros q Hq; rewrite put_other by done; by apply Hf1|]. exists (mk_inode KDir PRIVATE_DIR_MODE (i_uid m) (i_contents m)).
  rewrite put_same. split_and!; [done..|]. destruct H1 as [-> |[_ H1]]; [right; by exists m|left]. by injection H1 as ->.
Qed.
Lemma private_write_ok p contents f u f' : private_write fault umask uid p contents f = (Ok u, f') ->
  frames p f f' /\ match at_ f p with
                   | None => at_ f' p = Some (mk_inode KFile (Z.ldiff PRIVATE_FILE_MODE umask) uid contents)
                   | Some i => i_kind i = KSymlink \/ at_ f' p = Some (mk_inode KFile (i_mode i) (i_uid i) contents)
                   end.
Proof.
  unfold private_write. intros (u1 & f1 & H1 & H2)%sbind_ok. apply sbind_ok in H2 as (u2 & f2 & H3%io_ok & H2). subst f2.
  unfold open_private in H1. unfold modify in H2. injection H2 as _ <-.
  destruct (at_ f p) as [[kind mode uid' c]|] eqn:E.
  - cbn [i_kind i_mode i_uid] in *. destruct kind; try done.
    + apply sbind_ok in H1 as (u3 & f3 & H3%io_ok & H1). subst f3. injection H1 as _ <-. rewrite put_same.
      split; [intros q Hq; by rewrite !put_other|right; by rewrite put_same].
    + apply io_ok in H1 as ->. rewrite E. split; [by intros q|by left].
  - apply sbind_ok in H1 as (u3 & f3 & H3%io_ok & H1). subst f3. injection H1 as _ <-. rewrite put_same.
    split; [intros q Hq; by rewrite !put_other|by rewrite put_same].
Qed.
End files.

Section launch.
Context {Net : Type} {N : IpNetOps Net}.
Context (version_of : bytes -> option Z) (decode_spec : bytes -> option (LaunchSpec Value)).
Context (symlink_metadata : bytes -> result link_kind fs_error) (metadata : bytes -> result file_kind fs_error).
Context (w : launcher_world).
Notation prepare := (prepare_handoff version_of decode_spec symlink_metadata metadata w).
Notation parse := (from_json symlink_metadata metadata version_of decode_spec).

Lemma clear_readiness_path_ok p f u f' : clear_readiness_path w p f = (Ok u, f') ->
  frames p f f' /\ (at_ f p = None \/ exists i, at_ f p = Some i /\ i_kind i = KSocket).
Proof.
  unfold clear_readiness_path. intros (s & f1 & H1%smap_err_ok & H2)%sbind_ok. unfold socket_state in H1.
  apply sbind_ok in H1 as (u1 & f2 & H1%io_ok & H3). subst f2. injection H3 as Hs <-.
  destruct (at_ f p) as [i|] eqn:E.
  - case_bool_decide; subst s; [|done]. cbn in H2. destruct (lw_unlink w); [done|]. injection H2 as _ <-.
    split; [intros q Hq; by apply put_other|]. right. eauto.
  - subst s. injection H2 as _ <-. split; [by intros q|by left].
Qed.
Lemma bind_readiness_ok p f u f' : bind_readiness w p f = (Ok u, f') -> frames p f f' /\ at_ f p = None.
Proof.
  unfold bind_readiness. destruct (lw_bind w); [done|]. destruct (at_ f p); [done|]. intros [= _ <-].
  split; [intros q Hq; by apply put_other|done].
Qed.
Lemma child_of_parent root' p : child_of root' p -> parent p = Some (components root').
Proof. intros [n Hc]. unfold parent. rewrite Hc, last_snoc. f_equal. apply removelast_last. Qed.
Lemma child_not_root root' p : child_of root' p -> components p <> components root'.
Proof. intros [n ->] H. apply (f_equal length) in H. rewrite length_app in H. cbn in H. lia. Qed.

(** What a successful preparation did, in order. *)
Lemma prepare_ok path f spec f' : prepare path f = (Ok spec, f') ->
  exists raw f1 f2, lw_read w path = Ok raw /\ parse raw = Ok spec /\
    private_dir (lw_fault w) (lw_umask w) (lw_uid w) (lw_link_is_dir w) (root (runtime_paths spec)) f = (Ok tt, f1) /\
    private_write (lw_fault w) (lw_umask w) (lw_uid w) (launch_spec (runtime_paths spec)) raw f1 = (Ok tt, f2) /\
    frames (ready_socket (runtime_paths spec)) f2 f' /\
    (at_ f2 (ready_socket (runtime_paths spec)) = None \/ exists i, at_ f2 (ready_socket (runtime_paths spec)) = Some i /\ i_kind i = KSocket).
Proof.
  unfold prepare_handoff. intros (raw & f0 & Hr & H)%sbind_ok. injection Hr as Hr <-. apply map_err_ok in Hr.
  apply sbind_ok in H as (spec' & f0 & Hp & H). injection Hp as Hp <-. apply map_err_ok in Hp.
  apply sbind_ok in H as ([] & f1 & H1%smap_err_ok & H). apply sbind_ok in H as ([] & f2 & H2%smap_err_ok & H).
  apply sbind_ok in H as (u3 & f3 & H3%clear_readiness_path_ok & H). apply sbind_ok in H as (u4 & f4 & H4%bind_readiness_ok & H).
  injection H as -> <-. exists raw, f1, f2. destruct H3 as [Hf3 H3], H4 as [Hf4 _]. split_and!; try done.
  intros q Hq. rewrite (Hf4 q Hq). by apply Hf3.
Qed.

(** The host before a launch: what is there already belongs to the user, and a specification left over has the private mode. *)
Definition clean_host (spec : LaunchSpec Value) (f : fs) : Prop :=
  Z.ldiff PRIVATE_FILE_MODE (lw_umask w) = PRIVATE_FILE_MODE /\
  (forall i, at_ f (root (runtime_paths spec)) = Some i -> i_uid i = lw_uid w) /\
  (forall i, at_ f (launch_spec (runtime_paths spec)) = Some i ->
     i_uid i = lw_uid w /\ i_kind i <> KSymlink /\ Z.land (i_mode i) MODE_MASK = PRIVATE_FILE_MODE).

Lemma trusted path f spec f' :
  prepare path f = (Ok spec, f') -> clean_host spec f ->
  validate_metadata (fun _ _ => None) f' (launch_spec (runtime_paths spec)) (ready_socket (runtime_paths spec)) = Ok tt /\
  exists raw i, lw_read w path = Ok raw /\ parse raw = Ok spec /\
    at_ f' (launch_spec (runtime_paths spec)) = Some i /\ i_kind i = KFile /\ i_contents i = raw.
Proof.
  intros Hprep (Hmask & Hroot & Hspec). destruct (prepare_ok _ _ _ _ Hprep) as (raw & f1 & f2 & Hr & Hp & Hd & Hw & Hf & Hfree).
  assert (Hval : validate symlink_metadata metadata spec = Ok tt) by (unfold from_json in Hp; inv_ok; by destruct x1).
  destruct (validate_absolute _ _ _ _ Hval) as [Habs _]. apply validate_validated in Hval as [_ _ Hrt _ _ _ _ _ _ _ _].
  rewrite Forall_forall in Hrt. assert (Hls : child_of (root (runtime_paths spec)) (launch_spec (runtime_paths spec))) by (apply Hrt; left).
  assert (Hrs : child_of (root (runtime_paths spec)) (ready_socket (runtime_paths spec))) by (apply Hrt; do 2 right; left).
  apply private_dir_ok in Hd as (Hf1 & i & Hi & Hk & Hm & Hu). apply private_write_ok in Hw as (Hf2 & Hw).
  assert (Hw' : exists mode, at_ f2 (launch_spec (runtime_paths spec)) = Some (mk_inode KFile mode (lw_uid w) raw) /\ Z.land mode MODE_MASK = PRIVATE_FILE_MODE).
  { assert (Hsame : at_ f1 (launch_spec (runtime_paths spec)) = at_ f (launch_spec (runtime_paths spec))) by (apply Hf1; by eapply child_not_root).
    rewrite Hsame in Hw. destruct (at_ f (launch_spec _)) as [j|] eqn:Ej.
    - destruct (Hspec j eq_refl) as (Hju & Hjk & Hjm). destruct Hw as [Hw|Hw]; [done|]. rewrite Hju in Hw. eauto.
    - rewrite Hmask in Hw. eauto. }
  destruct Hw' as (mode & Hw' & Hmode).
  assert (Hne : components (launch_spec (runtime_paths spec)) <> components (ready_socket (runtime_paths spec))).
  { intros E. unfold at_ in *. rewrite <- E in Hfree. rewrite Hw' in Hfree. destruct Hfree as [|(j & [= <-] & ?)]; done. }
  assert (Hfinal : at_ f' (launch_spec (runtime_paths spec)) = Some (mk_inode KFile mode (lw_uid w) raw)) by (unfold at_; by rewrite Hf).
  assert (Hdir : f' (components (root (runtime_paths spec))) = Some i).
  { rewrite Hf by (intros E; by apply (child_not_root _ _ Hrs)). rewrite Hf2 by (intros E; by apply (child_not_root _ _ Hls)). exact Hi. }
  split; [|by exists raw, (mk_inode KFile mode (lw_uid w) raw)].
  assert (Huid : i_uid i = lw_uid w) by (destruct Hu as [Hu|(i0 & H0 & Hu)]; [done|rewrite Hu; by apply Hroot]).
  unfold validate_metadata, inspect. rewrite (child_absolute _ _ Hls Habs), (child_absolute _ _ Hrs Habs), (child_of_parent _ _ Hls), (child_of_parent _ _ Hrs).
  rewrite bool_decide_true by done. cbn [negb orb guard_err rbind ok_or]. change (f' (components (launch_spec (runtime_paths spec)))) with (at_ f' (launch_spec (runtime_paths spec))).
  rewrite Hfinal. cbn [ok_or rbind i_kind i_mode i_uid]. rewrite Hdir. cbn [ok_or rbind]. by rewrite Hmode, Hm, Huid, !Z.eqb_refl.
Qed.
(** The specification the launcher leaves is one its supervisor trusts.  When the preparation succeeds on a host whose
    runtime directory and left-over specification, if any, are the user's own and private, the file it leaves holds
    exactly the bytes it read, those bytes describe a validated specification, and the supervisor's trust rule - one
    directory of mode 0700, a regular file of mode 0600, one owner - accepts the two paths of the unit's command line. *)
Theorem handed_spec_is_trusted path f spec f' :
  prepare path f = (Ok spec, f') -> clean_host spec f ->
  validate_metadata (fun _ _ => None) f' (launch_spec (runtime_paths spec)) (ready_socket (runtime_paths spec)) = Ok tt /\
  exists raw i, lw_read w path = Ok raw /\ parse raw = Ok spec /\
    at_ f' (launch_spec (runtime_paths spec)) = Some i /\ i_kind i = KFile /\ i_contents i = raw.
Proof. apply trusted. Qed.

(* ------------------------------------------------------------------ *)
(** ** The report *)

Context (to_vec : ReadinessReport -> option bytes) (from_slice : bytes -> option ReadinessReport).
Notation supervisor_process pw host := (run_supervisor version_of decode_spec symlink_metadata metadata to_vec pw host).

Lemma first_report_split l r : first_report l = Some r -> exists pre post, l = pre ++ Reported r :: post.
Proof.
  unfold first_report. induction l as [|a l IH]; [done|]. destruct a; cbn [omap list_omap]; intros H.
  all: try (destruct (IH H) as (pre & post & ->); eexists (_ :: pre), post; reflexivity).
  cbn in H. injection H as ->. by exists [], l.
Qed.
Lemma first_report_some l : (exists r, Reported r ∈ l) -> is_Some (first_report l).
Proof.
  intros [r H]. unfold first_report. apply reports_elem in H. unfold reports in H. destruct (omap _ l); [by apply elem_of_nil in H|]. by eexists.
Qed.

(** The supervisor the unit starts: on the files the launcher left, over a connection that works. *)
Definition started_on (f : fs) : process_world :=
  mk_process_world (fun _ _ => None) f (fun p => match at_ f p with Some i => Ok (i_contents i) | None => Err NotFound end) (Ok tt) (Ok tt) false.
Definition peer_at (t : Z) (host : sup_world) (spec : LaunchSpec Value) (f : fs) : peer :=
  match sent (supervisor_process (started_on f) host (launch_spec (runtime_paths spec)) (ready_socket (runtime_paths spec))) with
  | None => mk_peer None None
  | Some raw => mk_peer (Some (t, Ok tt)) (Some (Ok raw))
  end.


(** The wait of the launcher ends only with the connection: a supervisor that connected in time and is killed by nobody
    keeps it past any timeout. *)
Theorem handoff_waits_past_its_timeout at_time accepted : at_time < READINESS_TIMEOUT ->
  await_readiness from_slice (mk_peer (Some (at_time, Ok accepted)) None) = None.
Proof. intros H. unfold await_readiness. cbn [connects]. by assert (READINESS_TIMEOUT <=? at_time = false) as -> by lia. Qed.
End launch.

(* ------------------------------------------------------------------ *)
(** ** Staging *)

Definition stage_plan (request : StageRequest) (name : bytes) : list stage_action :=
  let entry := Paths.join (req_stage request) name in
  [MakeRoot (req_stage request); MountTmpfs (req_stage request); CreateEntry entry; BindFile (req_source request) entry] ++
  (if req_readonly request then [SealEntry entry] else []) ++ [SealRoot (req_stage request); Become (req_program request) (req_args request)].
(** [m] does the whole plan, or a proper part of it and fails. *)
Definition tracks (m : sem (list stage_action) SupervisorError unit) (plan : list stage_action) : Prop :=
  forall d, let '(r, d') := m d in
  match r with Ok _ => d' = d ++ plan | Err _ => exists acts, d' = d ++ acts /\ acts `prefix_of` plan /\ acts <> plan end.
Lemma tracks_step refuses stage a plan k : tracks k plan -> tracks (stage_step refuses stage a ;; k) (a :: plan).
Proof.
  intros H d. unfold sbind, stage_step. destruct (refuses a).
  - exists []. rewrite app_nil_r. split_and!; [done|apply prefix_nil|done].
  - specialize (H (d ++ [a])). destruct (k (d ++ [a])) as [[u|e] d'].
    + by rewrite H, <- app_assoc.
    + destruct H as (acts & -> & Hp & Hne). exists (a :: acts). rewrite <- app_assoc. split_and!; [done|by apply (prefix_app [a])|congruence].
Qed.
Lemma tracks_ret plan k : tracks k plan -> tracks (sret tt ;; k) plan.
Proof. intros H d. exact (H d). Qed.
Lemma proper_part_starts_nothing request name acts program args :
  acts `prefix_of` stage_plan request name -> acts <> stage_plan request name -> Become program args ∉ acts.
Proof.
  intros [rest Hp] Hne Hin. destruct rest as [|x rest]; [by rewrite app_nil_r in Hp|].
  apply (f_equal (@removelast _)) in Hp. rewrite removelast_app in Hp by done.
  assert (Hin' : Become program args ∈ removelast (stage_plan request name)) by (rewrite Hp; apply elem_of_app; by left).
  clear -Hin'. unfold stage_plan in Hin'. destruct (req_readonly request); cbn in Hin'.
  all: repeat (apply elem_of_cons in Hin' as [H|Hin']; [discriminate H|]); by apply elem_of_nil in Hin'.
Qed.

(** A staged daemon is started in a sealed tree.  The staging step becomes its program only after every step before it
    succeeded, in this order: the root is made and mounted, its one entry - named as the declared file is, which is the
    name the guest binds - is created and bound to the source, sealed read-only when the declaration is, and the root
    itself is sealed; on any refusal what was done is a proper part of that list and nothing was started. *)
Theorem staged_daemon_is_sealed refuses request :
  let '(r, done) := stage_share refuses request [] in
  match r with
  | Ok _ => exists name, file_name (req_source request) = Some name /\ done = stage_plan request name
  | Err _ => forall program args, Become program args ∉ done
  end.
Proof.
  unfold stage_share. destruct (file_name (req_source request)) as [name|]; [|cbn; intros; apply not_elem_of_nil].
  unfold sbind at 1. cbn [slift ok_or]. set (m := sbind _ _). assert (Hm : tracks m (stage_plan request name)).
  { unfold m, stage_plan. cbn [app]. do 4 apply tracks_step. destruct (req_readonly request); [apply tracks_step|apply tracks_ret].
    all: apply tracks_step; intros d; destruct (refuses _); [|done]; exists []; rewrite app_nil_r; split_and!; [done|apply prefix_nil|done]. }
  specialize (Hm []). destruct (m []) as [[u|e] d]; [by exists name|]. destruct Hm as (acts & -> & Hp & Hne).
  intros program args. by eapply proper_part_starts_nothing.
Qed.

(* ------------------------------------------------------------------ *)
(** ** Witnesses *)

Definition demo_launcher : launcher_world := {|
  lw_fault _ _ := None; lw_umask := 63; lw_uid := 1000; lw_link_is_dir _ := false; lw_read _ := Ok [x0c];
  lw_unlink := None; lw_bind := None; lw_submit _ _ := Ok true |}.
Definition demo_empty : fs := fun _ => None.
Notation demo_prepare := (prepare_handoff (Net := Z * Z) demo_version (fun _ => Some demo_launch) demo_links demo_files demo_launcher).
Definition demo_left : fs := snd (demo_prepare (bs "/p") demo_empty).
Lemma demo_prepared : demo_prepare (bs "/p") demo_empty = (Ok demo_launch, demo_left).
Proof.
  assert (H : fst (demo_prepare (bs "/p") demo_empty) = Ok demo_launch) by (vm_compute; reflexivity).
  unfold demo_left. by destruct (demo_prepare (bs "/p") demo_empty) as [r f'] eqn:E; cbn in H |- *; rewrite H.
Qed.
Lemma demo_clean : clean_host demo_launcher demo_launch demo_empty.
Proof. split; [reflexivity|by split]. Qed.
Lemma handed_spec_is_trusted_witness :
  validate_metadata (fun _ _ => None) demo_left (demo_child "launch.json") (demo_child "ready.sock") = Ok tt.
Proof.
  exact (proj1 (handed_spec_is_trusted (Net := Z * Z) demo_version (fun _ => Some demo_launch) demo_links demo_files demo_launcher
    (bs "/p") demo_empty demo_launch demo_left demo_prepared demo_clean)).
Defined.
Definition demo_to_vec (r : ReadinessReport) : option bytes := Some (match status r with ProcessReady_ => [x01] | Failed_ => [x00] end).
Definition demo_from_slice (raw : bytes) : option ReadinessReport := Some (match raw with [x01] => process_ready | _ => failed end).
Lemma demo_reports r : r = process_ready \/ r = failed -> exists raw, demo_to_vec r = Some raw /\ demo_from_slice raw = Some r.
Proof. intros [-> | ->]; eexists; by split. Qed.
Lemma demo_first : first_report demo_log = Some ProcessReady.
Proof. vm_compute. reflexivity. Qed.
