(* ===== verification/Console.v ===== *)
(** * The guest's console on disk ([src/src/launch/console.rs])

    The sink with its rotation, the reader task over a schedule of the branches [select!] takes, and the bounded wait
    for the VMM's socket.  A name leads to an inode and an open file keeps its inode when the name moves.  Paths are
    UTF-8.  A [tokio] file takes a write before it is carried out: the write returns at once, its outcome is the answer of
    the next write or flush of the same file, and the disk here is the one in which what was taken has come to rest. *)
From S2P Require Import Prelude Bytes Paths Mounts Launch.

Definition CONSOLE_ROTATE_BYTES : Z := 4 * 1024 * 1024.
Definition CONSOLE_ROTATE_COUNT : nat := 2.
Definition CONNECT_RETRIES : nat := 200.
Definition BUFFER : Z := 64 * 1024.

Record disk := mk_disk { names : bytes -> option nat; inodes : list bytes }.
Definition set_name (p : bytes) (i : option nat) (d : disk) : disk :=
  mk_disk (fun q => if decide (q = p) then i else names d q) (inodes d).
Definition inode_bytes (d : disk) (i : nat) : bytes := default [] (inodes d !! i).
Definition content (d : disk) (p : bytes) : bytes := match names d p with Some i => inode_bytes d i | None => [] end.
Definition append (i : nat) (bytes : bytes) (d : disk) : disk :=
  mk_disk (names d) (<[i := inode_bytes d i ++ bytes]> (inodes d)).

(** [unreported] is the failure of the write the file has taken last, which no operation has answered yet. *)
Inductive ConsoleSink := File (path : bytes) (file : nat) (written : Z) (unreported : option fs_error) | Drain.

(** What fails of one write's operations: opening, inspecting, the rename to each number, and - behind the write's return -
    the transfer, after so many bytes. *)
Record faults := mk_faults {
  x_open : option fs_error; x_inspect : option fs_error; x_rename : nat -> option fs_error; x_write : option (nat * fs_error) }.
Definition no_faults : faults := mk_faults None None (fun _ => None) None.
Definition io (operation : string) (e : option fs_error) : result unit LaunchError :=
  match e with Some e => Err (Io (bs operation) e) | None => Ok tt end.
Definition act (A : Type) : Type := sem disk LaunchError A.

Definition numbered (path : bytes) (index : nat) : bytes := path ++ bs "." ++ dec (Z.of_nat index).
Section one_write.
Context (x : faults).

(** [create(true).append(true)]: the inode of the name, a new one when there is none. *)
Definition secure_open (path : bytes) : act nat := fun d =>
  match x_open x with
  | Some e => (Err (Io (bs "open console log") e), d)
  | None =>
      match names d path with
      | Some i => (Ok i, d)
      | None => (Ok (length (inodes d)), set_name path (Some (length (inodes d))) (mk_disk (names d) (inodes d ++ [[]])))
      end
  end.
Definition open_ (path : bytes) (enabled : bool) : act ConsoleSink :=
  if negb enabled then sret Drain
  else
    let! file := secure_open path in
    slift (io "inspect console log" (x_inspect x)) ;;
    fun d => (Ok (File path file (Z.of_nat (length (inode_bytes d file))) None), d).
(** [fs::rename]: the target's old inode loses its name. *)
Definition rename (from to : bytes) (index : nat) : act unit := fun d =>
  match names d from with
  | None => (Ok tt, d)
  | Some i =>
      match x_rename x index with
      | Some e => (Err (Io (bs "rotate console log") e), d)
      | None => (Ok tt, set_name from None (set_name to (Some i) d))
      end
  end.
Fixpoint rotate_from (path : bytes) (index : nat) : act unit :=
  match index with
  | O => sret tt
  | S below =>
      rename (match below with O => path | _ => numbered path below end) (numbered path index) index ;;
      rotate_from path below
  end.
Definition rotate (path : bytes) : act unit := rotate_from path CONSOLE_ROTATE_COUNT.
Definition saturating_add (a b : Z) : Z := Z.min (a + b) u64_max.
(** [file.write_all] of one chunk: the outcome of the write before it, or the chunk is taken.  The failure of its own
    transfer is what the next operation answers. *)
Definition write_bytes (file : nat) (unreported : option fs_error) (bytes : bytes) : act (option fs_error) := fun d =>
  match unreported with
  | Some e => (Err (Io (bs "write console log") e), d)
  | None =>
      match x_write x with
      | Some (n, e) => (Ok (Some e), append file (take n bytes) d)
      | None => (Ok None, append file bytes d)
      end
  end.
Definition write_all (sink : ConsoleSink) (bytes : bytes) : act ConsoleSink :=
  match sink with
  | Drain => sret Drain
  | File path file written unreported =>
      let! (file, written, unreported) :=
        (if CONSOLE_ROTATE_BYTES <? saturating_add written (Z.of_nat (length bytes)) then
           slift (io "flush console log" unreported) ;;
           rotate path ;;
           let! file := secure_open path in
           sret (file, 0, None)
         else sret (file, written, unreported)) in
      let! unreported := write_bytes file unreported bytes in
      sret (File path file (saturating_add written (Z.of_nat (length bytes))) unreported)
  end.
End one_write.
Definition flush (sink : ConsoleSink) : result unit LaunchError :=
  match sink with Drain => Ok tt | File _ _ _ unreported => io "flush console log" unreported end.

(** ** The socket *)

(** One attempt: whether it connected, and whether the wait behind it was cancelled. *)
Fixpoint connect_attempts (tries : nat) (attempts : list (bool * bool)) : option (result unit LaunchError) :=
  match tries, attempts with
  | O, _ => Some (Err (Readiness (bs "console socket connection")))
  | S _, [] => None
  | S _, (true, _) :: _ => Some (Ok tt)
  | S _, (false, true) :: _ => Some (Err Cancelled)
  | S tries, (false, false) :: attempts => connect_attempts tries attempts
  end.
Definition connect_bounded (attempts : list (bool * bool)) : option (result unit LaunchError) := connect_attempts CONNECT_RETRIES attempts.

(** ** The reader *)

(** A turn of the loop: cancelled, or what the read gave and what failed of writing it. *)
Inductive turn := T_Cancelled | T_Read (r : result bytes fs_error) (x : faults).
(** How the task ends, or that the schedule ended with it still reading. *)
Inductive ending := Finished (r : result unit LaunchError) | Reading (sink : ConsoleSink).
Record reading := mk_reading { r_disk : disk; r_sent : list bytes; r_end : ending }.
Fixpoint read_loop (turns : list turn) (sink : ConsoleSink) (d : disk) (sent : list bytes) : reading :=
  match turns with
  | [] => mk_reading d sent (Reading sink)
  | T_Cancelled :: _ | T_Read (Ok []) _ :: _ => mk_reading d sent (Finished (flush sink))
  | T_Read (Err e) _ :: _ => mk_reading d sent (Finished (Err (Io (bs "read console") e)))
  | T_Read (Ok bytes) x :: turns =>
      match write_all x sink bytes d with
      | (Ok sink, d) => read_loop turns sink d (sent ++ [bytes])
      | (Err e, d) => mk_reading d sent (Finished (Err e))
      end
  end.
(** The task; [receiver] is whether the acknowledgment still has one. *)
Definition spawn (attempts : list (bool * bool)) (receiver : bool) (turns : list turn) (sink : ConsoleSink) (d : disk) : option reading :=
  match connect_bounded attempts with
  | None => None
  | Some (Err e) => Some (mk_reading d [] (Finished (Err e)))
  | Some (Ok _) =>
      Some (if receiver then read_loop turns sink d []
            else mk_reading d [] (Finished (Err (Readiness (bs "console acknowledgment receiver")))))
  end.

(** * Console: what of the console is on disk

    The files hold, oldest first, an unbroken tail of what was there and what was sent to the subscribers - all of it but
    for the last chunk, whose transfer is confirmed by the flush that ends the task alone; each file is bounded, and
    nothing that came to rest is lost but to a rotation. *)

Lemma numbered_fresh p i : numbered p i <> p.
Proof.
  intros E. apply (f_equal length) in E. unfold numbered in E. rewrite !length_app in E. cbn [length bs String.list_byte_of_string] in E.
  change (length (bs ".")) with 1%nat in E. lia.
Qed.
Lemma numbered_apart p : numbered p 1 <> numbered p 2.
Proof. unfold numbered. intros E%app_inv_head. by vm_compute in E. Qed.

(** The three files, oldest first. *)
Definition log (d : disk) (p : bytes) : bytes := content d (numbered p 2) ++ content d (numbered p 1) ++ content d p.

(** Each of the three names that leads somewhere has an inode of its own. *)
Record sound (d : disk) (p : bytes) : Prop := {
  sound_live : forall q i, q ∈ [p; numbered p 1; numbered p 2] -> names d q = Some i -> (i < length (inodes d))%nat;
  sound_apart : forall q q' i, q ∈ [p; numbered p 1; numbered p 2] -> q' ∈ [p; numbered p 1; numbered p 2] ->
    names d q = Some i -> names d q' = Some i -> q = q' }.
(** The disk under a sink: the sink has the current inode, with its size. *)
Definition laid (d : disk) (p : bytes) (file : nat) (written : Z) : Prop :=
  names d p = Some file /\ written = Z.of_nat (length (inode_bytes d file)) /\ sound d p.
(** No file is longer. *)
Definition fits (m : Z) (d : disk) (p : bytes) : Prop :=
  Z.of_nat (length (content d p)) <= m /\ Z.of_nat (length (content d (numbered p 1))) <= m /\
  Z.of_nat (length (content d (numbered p 2))) <= m.

Lemma append_content i l d q : (i < length (inodes d))%nat -> content (append i l d) q = if decide (names d q = Some i) then content d q ++ l else content d q.
Proof.
  intros Hi. unfold content, append, inode_bytes. cbn [names inodes]. destruct (names d q) as [j|]; [|by rewrite decide_False].
  destruct (decide (Some j = Some i)) as [[= ->]|Hne]; [by rewrite list_lookup_insert_eq|].
  rewrite list_lookup_insert_ne; [done|congruence].
Qed.
Section on_disk.
Context (p : bytes).
Notation p1 := (numbered p 1).
Notation p2 := (numbered p 2).

(** Appending to the current file appends to the log. *)
Lemma append_log d file w l : laid d p file w -> log (append file l d) p = log d p ++ l /\
  laid (append file l d) p file (w + Z.of_nat (length l)).
Proof.
  intros (Hf & Hw & [Hl Ha]). assert (Hlt : (file < length (inodes d))%nat) by (eapply Hl; [by left|done]). split.
  - unfold log. rewrite !append_content by done. rewrite (decide_True (P := names d p = Some file)) by done.
    rewrite !decide_False; [by rewrite <- !app_assoc|..]; intros E.
    + apply (numbered_fresh p 1). eapply Ha; [..|exact E|exact Hf]; set_solver.
    + apply (numbered_fresh p 2). eapply Ha; [..|exact E|exact Hf]; set_solver.
  - split; [done|]. split; [|split; [|exact Ha]].
    + unfold append, inode_bytes. cbn [inodes]. rewrite list_lookup_insert_eq by done. cbn [default from_option id].
      rewrite length_app. unfold inode_bytes in Hw. lia.
    + intros q i Hq E. unfold append. cbn [inodes]. rewrite length_insert. by eapply Hl.
Qed.

Lemma content_set q q' i d : content (set_name q i d) q' = if decide (q' = q) then match i with Some i => inode_bytes d i | None => [] end else content d q'.
Proof. unfold content, set_name. cbn [names]. by destruct (decide (q' = q)). Qed.
Lemma content_named d q i : names d q = Some i -> content d q = inode_bytes d i.
Proof. unfold content. by intros ->. Qed.
Lemma content_unnamed d q : names d q = None -> content d q = [].
Proof. unfold content. by intros ->. Qed.
(** Where the names lead after a rotation, as far as it came. *)
Record moved (d d' : disk) : Prop := {
  moved_inodes : inodes d' = inodes d;
  moved_log : exists lost, log d p = lost ++ log d' p;
  moved_fits : forall m, 0 <= m -> fits m d p -> fits m d' p }.
Lemma moved_refl d : moved d d.
Proof. split; [done|by exists []|done]. Qed.
(** The name of the inode that is renamed away. *)
Definition shift (from to : bytes) (i : nat) (d : disk) : disk := set_name from None (set_name to (Some i) d).
Lemma shift_names from to i d q : from <> to ->
  names (shift from to i d) q = if decide (q = from) then None else if decide (q = to) then Some i else names d q.
Proof. done. Qed.
Lemma shift_content from to i d q : from <> to -> names d from = Some i ->
  content (shift from to i d) q = if decide (q = from) then [] else if decide (q = to) then content d from else content d q.
Proof.
  intros Hne Hi. unfold shift. rewrite content_set. destruct (decide (q = from)); [done|]. rewrite content_set.
  destruct (decide (q = to)); [|done]. by rewrite (content_named _ _ _ Hi).
Qed.
Lemma rename_cases x from to index d r d' : rename x from to index d = (r, d') ->
  (names d from = None /\ r = Ok tt /\ d' = d) \/
  (exists i, names d from = Some i /\ ((d' = d /\ exists e, r = Err e) \/ (r = Ok tt /\ d' = shift from to i d))).
Proof.
  unfold rename. destruct (names d from) as [i|]; [|intros [= <- <-]; by left].
  destruct (x_rename x index); intros [= <- <-]; right; exists i; (split; [done|]); [left; split; [done|by eexists]|by right].
Qed.
Lemma shift_up_older d : names d p1 <> None -> moved d (shift p1 p2 (default O (names d p1)) d).
Proof.
  intros Hn. destruct (names d p1) as [i|] eqn:Ei; [|done]. pose proof (numbered_apart p) as H12. pose proof (numbered_fresh p 1) as H1. pose proof (numbered_fresh p 2) as H2.
  split; [done| |].
  - exists (content d p2). unfold log. rewrite !(shift_content p1 p2 i d) by done.
    repeat case_decide; try congruence. done.
  - intros m Hm Hf. unfold fits in *. rewrite !(shift_content p1 p2 i d) by done.
    repeat case_decide; try congruence. cbn [length]. lia.
Qed.
Lemma shift_up_current d i : names d p = Some i -> names d p1 = None -> moved d (shift p p1 i d).
Proof.
  intros Ei Hn. pose proof (numbered_apart p) as H12. pose proof (numbered_fresh p 1) as H1. pose proof (numbered_fresh p 2) as H2.
  split; [done| |].
  - exists []. unfold log. rewrite !(shift_content p p1 i d) by done.
    repeat case_decide; try congruence. rewrite (content_unnamed _ _ Hn). by rewrite app_nil_r.
  - intros m Hm Hf. unfold fits in *. rewrite !(shift_content p p1 i d) by done.
    repeat case_decide; try congruence. cbn [length]. lia.
Qed.
Lemma moved_trans a b c : moved a b -> moved b c -> moved a c.
Proof.
  intros [Ei [l1 El] Ef] [Ei' [l2 El'] Ef']. split; [by rewrite Ei', Ei| |].
  - exists (l1 ++ l2). by rewrite El, El', app_assoc.
  - intros m Hm H. apply Ef', Ef; done.
Qed.
Lemma shift_sound from to i d : from ∈ [p; p1; p2] -> to ∈ [p; p1; p2] -> from <> to -> names d from = Some i -> sound d p -> sound (shift from to i d) p.
Proof.
  intros Hfrom Hto Hne Hi [Hl Ha]. split.
  - intros q j Hq. rewrite shift_names by done. case_decide; [done|]. case_decide; [intros [= <-]; by eapply Hl, Hi|]. by apply Hl.
  - intros q q' j Hq Hq'. rewrite !shift_names by done.
    repeat case_decide; try done; subst; [|intros [= <-] E|intros E [= <-]|by apply Ha]; [done|..].
    + by destruct (Ha _ _ _ Hfrom Hq' Hi E).
    + by destruct (Ha _ _ _ Hfrom Hq Hi E).
Qed.
Lemma rotate_spec x d file w r d' : laid d p file w -> rotate x p d = (r, d') ->
  moved d d' /\ forall u, r = Ok u -> names d' p = None /\ sound d' p.
Proof.
  intros (Hf & _ & Hs) H. pose proof (numbered_apart p) as H12. pose proof (numbered_fresh p 1) as H1. pose proof (numbered_fresh p 2) as H2.
  assert (Hmem : p ∈ [p; p1; p2] /\ p1 ∈ [p; p1; p2] /\ p2 ∈ [p; p1; p2]) by set_solver.
  assert (Hfirst : exists r1 d1, rename x p1 p2 2 d = (r1, d1) /\ moved d d1 /\
    forall u, r1 = Ok u -> sound d1 p /\ names d1 p = Some file /\ names d1 p1 = None).
  { destruct (rename x p1 p2 2 d) as [r1 d1] eqn:E1. exists r1, d1. split; [done|].
    apply rename_cases in E1 as [(Hn & -> & ->)|(i & Hi & [[-> [e ->]]|[-> ->]])].
    - split; [apply moved_refl|]. intros _ _. done.
    - split; [apply moved_refl|]. done.
    - split; [pose proof (shift_up_older d) as Hm; rewrite Hi in Hm; by apply Hm|]. intros _ _.
      split; [apply shift_sound; naive_solver|]. rewrite !shift_names by done. split; repeat case_decide; try congruence; done. }
  destruct Hfirst as (r1 & d1 & E1 & Hm & Hok). unfold rotate in H. cbn [rotate_from CONSOLE_ROTATE_COUNT] in H.
  destruct r1 as [[]|e]; [rewrite (sbind_run _ _ _ _ _ E1) in H|rewrite (sbind_run_err _ _ _ _ _ E1) in H; injection H as <- <-; done].
  destruct (Hok tt eq_refl) as (Hs1 & Hp1 & Hn1). unfold sbind in H.
  destruct (rename x p p1 1 d1) as [r2 d2] eqn:E2. apply rename_cases in E2 as [(Hn & _)|(i & Hi & [[-> [e ->]]|[-> ->]])]; [congruence|by injection H as <- <-|].
  injection H as <- <-. split; [eapply moved_trans; [exact Hm|by apply shift_up_current]|]. intros _ _.
  split; [|apply shift_sound; naive_solver]. rewrite shift_names by done. by case_decide.
Qed.
(** The name that a rotation freed is opened anew, on an empty file. *)
Lemma reopen_spec x d r d' : names d p = None -> sound d p -> secure_open x p d = (r, d') ->
  (d' = d /\ exists e, r = Err e) \/
  exists file, r = Ok file /\ laid d' p file 0 /\ log d' p = log d p /\ forall m, fits m d p -> fits m d' p.
Proof.
  intros Hn [Hl Ha]. unfold secure_open. destruct (x_open x); [intros [= <- <-]; left; split; [done|by eexists]|]. rewrite Hn.
  set (new := length (inodes d)). set (d1 := mk_disk (names d) (inodes d ++ [[]])). intros [= <- <-]. right. exists new. split; [done|].
  assert (Hsame : forall q, q ∈ [p; p1; p2] -> content (set_name p (Some new) d1) q = content d q).
  { intros q Hq. rewrite content_set. destruct (decide (q = p)) as [->|E].
    - rewrite (content_unnamed _ _ Hn). unfold inode_bytes, d1, new. cbn [inodes]. by rewrite list_lookup_middle.
    - unfold content. cbn [d1 names]. destruct (names d q) as [i|] eqn:Ei; [|done]. unfold inode_bytes, d1. cbn [inodes].
      rewrite lookup_app_l; [done|]. by eapply Hl. }
  assert (Hmem : p ∈ [p; p1; p2] /\ p1 ∈ [p; p1; p2] /\ p2 ∈ [p; p1; p2]) by set_solver. destruct Hmem as (Hm & Hm1 & Hm2).
  unfold laid. split_and!.
  - unfold set_name. cbn [names]. by case_decide.
  - unfold inode_bytes, set_name, d1, new. cbn [inodes]. by rewrite list_lookup_middle.
  - split.
    + intros q i Hq. unfold set_name, d1. cbn [names inodes]. rewrite length_app. cbn [length].
      case_decide; [intros [= <-]; unfold new; lia|]. intros E. pose proof (Hl _ _ Hq E). lia.
    + assert (Hold : forall q i, q ∈ [p; p1; p2] -> names d q = Some i -> i <> new) by (intros q i Hq E; pose proof (Hl _ _ Hq E); unfold new; lia).
      intros q q' i Hq Hq'. unfold set_name, d1. cbn [names]. repeat case_decide; subst; [done|..].
      * intros [= <-] E. by destruct (Hold _ _ Hq' E).
      * intros E [= <-]. by destruct (Hold _ _ Hq E).
      * by apply Ha.
  - unfold log. by rewrite !Hsame.
  - intros m. unfold fits. by rewrite !Hsame.
Qed.
Lemma append_fits m d file w l : laid d p file w -> w + Z.of_nat (length l) <= m -> fits m d p -> fits m (append file l d) p.
Proof.
  intros (Hf & Hw & [Hl Ha]) Hm (H0 & H1 & H2). assert (Hlt : (file < length (inodes d))%nat) by (eapply Hl; [by left|done]).
  unfold fits. rewrite !append_content by done. rewrite (decide_True (P := names d p = Some file)) by done.
  rewrite !decide_False; [split; [|done]|..].
  - rewrite (content_named _ _ _ Hf), length_app. lia.
  - intros E. apply (numbered_fresh p 2). eapply Ha; [..|exact E|exact Hf]; set_solver.
  - intros E. apply (numbered_fresh p 1). eapply Ha; [..|exact E|exact Hf]; set_solver.
Qed.
(** A write behind the choice of its file: what of the chunk came to rest, [wrote], and the sink that took it. *)
Definition kept (m : Z) (d d' : disk) (w : Z) (l wrote : bytes) (r : result ConsoleSink LaunchError) : Prop :=
  (exists lost, log d p ++ wrote = lost ++ log d' p /\ (w + Z.of_nat (length l) <= CONSOLE_ROTATE_BYTES -> lost = [])) /\
  fits m d' p /\
  match r with
  | Ok sink => wrote `prefix_of` l /\ exists file' w' u, sink = File p file' w' u /\
      (u = None -> wrote = l /\ laid d' p file' w' /\ (w + Z.of_nat (length l) <= CONSOLE_ROTATE_BYTES -> w' = w + Z.of_nat (length l)))
  | Err _ => wrote = []
  end.
Lemma write_on x m d file w l r d' : laid d p file w -> fits m d p -> w + Z.of_nat (length l) <= m -> w + Z.of_nat (length l) <= u64_max ->
  (let! u := write_bytes x file None l in sret (File p file (saturating_add w (Z.of_nat (length l))) u)) d = (r, d') ->
  exists wrote, kept m d d' w l wrote r.
Proof.
  intros Hd Hf Hm Hu. unfold sbind, write_bytes. destruct (x_write x) as [[n e]|]; intros [= <- <-].
  - exists (take n l). destruct (append_log d file w (take n l) Hd) as [El _]. split; [by exists []|].
    split; [|split; [apply prefix_take|by eexists _, _, _]]. eapply append_fits; [exact Hd| |done]. rewrite length_take. lia.
  - exists l. destruct (append_log d file w l Hd) as [El Hl]. split; [by exists []|]. split; [by eapply append_fits|]. split; [done|].
    exists file, (w + Z.of_nat (length l)), None. unfold saturating_add. rewrite Z.min_l by done. by split.
Qed.
(** A failure that no operation has answered is the answer of the next write, which takes nothing and touches nothing. *)
Lemma write_unreported x file w e l d : exists err, write_all x (File p file w (Some e)) l d = (Err err, d).
Proof. cbn [write_all]. unfold sbind, slift, io, sret. destruct (_ <? _); by eexists. Qed.
Lemma write_spec x m d file w l r d' : laid d p file w -> CONSOLE_ROTATE_BYTES <= m -> Z.of_nat (length l) <= CONSOLE_ROTATE_BYTES -> fits m d p ->
  write_all x (File p file w None) l d = (r, d') -> exists wrote, kept m d d' w l wrote r.
Proof.
  intros Hd Hm Hl Hf H. cbn [write_all] in H. assert (Hc : CONSOLE_ROTATE_BYTES = 4194304 /\ u64_max = 2 ^ 64 - 1) by done. unfold saturating_add at 1 in H.
  destruct (CONSOLE_ROTATE_BYTES <? _) eqn:E.
  2:{ apply Z.ltb_ge in E. rewrite (sbind_run _ _ _ (file, w, None) d) in H by done. eapply write_on; [done..| | |exact H]; lia. }
  apply Z.ltb_lt in E. assert (Hbig : ~ w + Z.of_nat (length l) <= CONSOLE_ROTATE_BYTES) by lia.
  assert (Hfail : forall d1 e, moved d d1 -> kept m d d1 w l [] (Err e)).
  { intros d1 e [_ [lost El] Hfit]. split; [exists lost; by rewrite app_nil_r|]. split; [apply Hfit; [lia|done]|done]. }
  unfold sbind at 1 in H. unfold sbind at 1 in H. unfold slift, io in H. cbn beta iota in H.
  unfold sbind at 1 in H. destruct (rotate x p d) as [[u|e] d1] eqn:Er.
  2:{ exists []. injection H as <- <-. apply Hfail. by eapply rotate_spec. }
  destruct (rotate_spec _ _ _ _ _ _ Hd Er) as [Hmv Hok]. destruct (Hok u eq_refl) as [Hn Hs].
  unfold sbind at 1 in H. destruct (secure_open x p d1) as [ro d2] eqn:Eo. destruct (reopen_spec _ _ _ _ Hn Hs Eo) as [[-> [e ->]]|(new & -> & Hd2 & El2 & Hf2)].
  { exists []. injection H as <- <-. by apply Hfail. }
  cbn beta iota in H. destruct Hmv as [_ [lost El] Hfit].
  apply (write_on _ m) in H as (wrote & (lost' & El' & Hnil) & Hf' & Hr); [|done|apply Hf2, Hfit; [lia|done]|lia|lia].
  exists wrote. rewrite Hnil in El' by lia. split; [exists lost; split; [by rewrite El, <- El2, <- app_assoc, El'|done]|]. split; [done|].
  destruct r as [sink|e]; [|done]. destruct Hr as (Hp & file' & w' & u' & -> & Hu). split; [done|]. exists file', w', u'. split; [done|].
  intros Hnone. destruct (Hu Hnone) as (-> & Hd' & _). done.
Qed.
End on_disk.

(* ------------------------------------------------------------------ *)
(** ** The reader *)

(** What the reads gave, up to the turn that ends the loop. *)
Fixpoint chunks (turns : list turn) : list bytes :=
  match turns with
  | T_Read (Ok ((_ :: _) as l)) _ :: turns => l :: chunks turns
  | _ => []
  end.
(** A run from a disk: what is on it behind the run, and what the subscribers were sent. *)
Definition tail_of (p : bytes) (m : Z) (d : disk) (w : Z) (turns : list turn) (sent : list bytes) (d' : disk) (e : ending) : Prop :=
  exists lost settled last part,
    sent = settled ++ last /\ (length last <= 1)%nat /\ part `prefix_of` concat last /\
    log d p ++ concat settled ++ part = lost ++ log d' p /\
    sent `prefix_of` chunks turns /\
    ((forall err, e <> Finished (Err err)) -> sent = chunks turns) /\
    (e = Finished (Ok tt) -> part = concat last) /\
    fits m d' p /\
    (w + Z.of_nat (length (concat (chunks turns))) <= CONSOLE_ROTATE_BYTES -> lost = []).
Lemma tail_of_nothing p m d w turns e : fits m d p -> ((forall err, e <> Finished (Err err)) -> [] = chunks turns) -> tail_of p m d w turns [] d e.
Proof.
  intros Hf He. exists [], [], [], []. cbn. rewrite app_nil_r. split_and!; [done|lia|done|done|apply prefix_nil|done|done|done|done].
Qed.
Lemma turn_ends turns sink d sent : chunks turns = [] ->
  r_disk (read_loop turns sink d sent) = d /\ r_sent (read_loop turns sink d sent) = sent /\
  (r_end (read_loop turns sink d sent) = Finished (Ok tt) -> flush sink = Ok tt).
Proof. destruct turns as [|[|[[|b l]|e] x] turns]; cbn [chunks read_loop r_disk r_sent r_end]; intros; split_and!; congruence. Qed.
(** Behind a transfer that failed the task does nothing more, and does not end well. *)
Lemma unreported_ends turns p file w e d sent : let out := read_loop turns (File p file w (Some e)) d sent in
  r_disk out = d /\ r_sent out = sent /\ r_end out <> Finished (Ok tt) /\
  ((forall err, r_end out <> Finished (Err err)) -> turns = []).
Proof.
  destruct turns as [|[|[[|b l]|e'] x] turns]; cbn [read_loop]; try by (split_and!; try done; intros H; by destruct (H _ eq_refl)).
  destruct (write_unreported p x file w e (b :: l) d) as [err ->]. split_and!; try done. intros H. by destruct (H err).
Qed.
Lemma read_loop_tail p m turns : forall d file w sent,
  laid d p file w -> CONSOLE_ROTATE_BYTES <= m -> fits m d p -> Forall (fun l => Z.of_nat (length l) <= BUFFER) (chunks turns) ->
  exists new, r_sent (read_loop turns (File p file w None) d sent) = sent ++ new /\
    tail_of p m d w turns new (r_disk (read_loop turns (File p file w None) d sent)) (r_end (read_loop turns (File p file w None) d sent)).
Proof.
  assert (Hb : BUFFER <= CONSOLE_ROTATE_BYTES) by done.
  induction turns as [|[|[[|b l]|e] x] turns IH]; intros d file w sent Hd Hm Hf Hc; cbn [read_loop].
  1-3: exists []; split; [by rewrite app_nil_r|by apply tail_of_nothing].
  2:{ exists []. split; [by rewrite app_nil_r|]. apply tail_of_nothing; [done|]. cbn [r_end]. intros H. by destruct (H (Io (bs "read console") e)). }
  cbn [chunks] in Hc. apply Forall_cons in Hc as [Hl Hc]. destruct (write_all x (File p file w None) (b :: l) d) as [r d1] eqn:Ew.
  destruct (write_spec p x m d file w (b :: l) r d1 Hd Hm ltac:(lia) Hf Ew) as (wrote & (lost & El & Hlost) & Hf1 & Hr).
  destruct r as [sink|e]; [destruct Hr as (Hp & file' & w' & u & -> & Hu); destruct u as [e|]|].
  - exists [b :: l]. destruct (unreported_ends turns p file' w' e d1 (sent ++ [b :: l])) as (-> & -> & Hbad & Hend). split; [done|].
    exists lost, [], [b :: l], wrote. cbn [concat chunks app]. rewrite app_nil_r. split_and!; [done|cbn; lia|done|done|by apply prefix_cons, prefix_nil| |done|done|].
    + intros H. by rewrite (Hend H).
    + cbn [length] in *. rewrite length_app. intros H. apply Hlost. lia.
  - destruct (Hu eq_refl) as (-> & Hd1 & Hw'). destruct (IH d1 file' w' (sent ++ [b :: l]) Hd1 Hm Hf1 Hc) as (new & Es & lost' & settled & last & part & En & Hlast & Hpart & El' & Hs & Hend & Hok & Hf' & Hlost').
    exists ((b :: l) :: new). split; [rewrite Es, <- app_assoc; done|]. exists (lost ++ lost'), ((b :: l) :: settled), last, part. cbn [chunks]. split_and!; try done.
    + by rewrite En.
    + cbn [concat]. rewrite <- !app_assoc, <- El', !app_assoc, El. by rewrite <- !app_assoc.
    + by apply prefix_cons.
    + intros H. by rewrite (Hend H).
    + cbn [concat]. rewrite length_app. intros H. rewrite Hlost by lia. rewrite Hlost'; [done|]. rewrite Hw' by lia. lia.
  - subst wrote. exists []. split; [by rewrite app_nil_r|]. exists lost, [], [], []. cbn [chunks concat r_disk r_end app] in *. split_and!; try done; [cbn; lia|apply prefix_nil| |].
    + intros H. by destruct (H e).
    + cbn [length] in *. rewrite length_app. intros H. apply Hlost. lia.
Qed.

(* ------------------------------------------------------------------ *)
(** ** The property *)

(** C24: However the console task ends, the three files hold - oldest first, once what the task's file has taken has come to
    rest - an unbroken tail of what they held before followed by what the subscribers were sent, in order, of which at most
    the end of the last chunk is missing; a task that ends well misses nothing of it.  The subscribers were sent the chunks
    read, in order, and all of them unless the task ended with an error.  No file outgrows four MiB, or the largest it
    found, and nothing at all is lost while the current file has room. *)
Theorem console_log_is_an_unbroken_tail p m d file w attempts receiver turns out :
  laid d p file w -> CONSOLE_ROTATE_BYTES <= m -> fits m d p -> Forall (fun l => Z.of_nat (length l) <= BUFFER) (chunks turns) ->
  spawn attempts receiver turns (File p file w None) d = Some out ->
  exists lost settled last part,
    r_sent out = settled ++ last /\ (length last <= 1)%nat /\ part `prefix_of` concat last /\
    log d p ++ concat settled ++ part = lost ++ log (r_disk out) p /\
    r_sent out `prefix_of` chunks turns /\
    ((forall err, r_end out <> Finished (Err err)) -> r_sent out = chunks turns) /\
    (r_end out = Finished (Ok tt) -> part = concat last) /\
    fits m (r_disk out) p /\
    (w + Z.of_nat (length (concat (chunks turns))) <= CONSOLE_ROTATE_BYTES -> lost = []).
Proof.
  intros Hd Hm Hf Hc. unfold spawn. assert (Hnone : forall err, tail_of p m d w turns [] d (Finished (Err err))).
  { intros err. apply tail_of_nothing; [done|]. intros H. by destruct (H err). }
  destruct (connect_bounded attempts) as [[u|e]|]; [|intros [= <-]; apply Hnone|done]. intros [= <-].
  destruct receiver; [|apply Hnone]. destruct (read_loop_tail p m turns d file w [] Hd Hm Hf Hc) as (new & Es & Ht).
  by rewrite Es.
Qed.

(** The wait for the socket ends within its two hundred attempts, five seconds of sleeping at most. *)
Theorem connect_ends attempts : (CONNECT_RETRIES <= length attempts)%nat -> exists r, connect_bounded attempts = Some r.
Proof.
  unfold connect_bounded. generalize CONNECT_RETRIES as n. intros n. revert attempts.
  induction n as [|n IH]; intros [|[[] []] attempts] H; cbn [length connect_attempts] in *; try lia; try by eexists.
  apply IH. lia.
Qed.

(* ------------------------------------------------------------------ *)
(** ** Witness *)

Definition demo_path : bytes := bs "/run/vivarium/console.log".
Definition demo_disk : disk := mk_disk (fun q => if decide (q = demo_path) then Some O else None) [bs "booting "].
Definition demo_turns : list turn := [T_Read (Ok (bs "hello ")) no_faults; T_Read (Ok (bs "world")) no_faults; T_Cancelled].
Definition demo_out : reading := read_loop demo_turns (File demo_path 0 8 None) demo_disk [].
Lemma demo_laid : laid demo_disk demo_path 0 8 /\ fits CONSOLE_ROTATE_BYTES demo_disk demo_path.
Proof.
  split; [split; [done|split; [done|split]]|vm_compute; done].
  - intros q i _ E. unfold demo_disk in *. cbn [names inodes length] in *. destruct (decide (q = demo_path)); [injection E as <-; lia|done].
  - intros q q' i _ _ E E'. unfold demo_disk in *. cbn [names] in *. destruct (decide (q = demo_path)), (decide (q' = demo_path)); congruence.
Qed.
Lemma demo_chunks : Forall (fun l => Z.of_nat (length l) <= BUFFER) (chunks demo_turns).
Proof. repeat constructor; vm_compute; discriminate. Qed.
Lemma demo_spawn : spawn [(false, false); (true, false)] true demo_turns (File demo_path 0 8 None) demo_disk = Some demo_out.
Proof. reflexivity. Qed.
Lemma demo_ends : r_end demo_out = Finished (Ok tt) /\ 8 + Z.of_nat (length (concat (chunks demo_turns))) <= CONSOLE_ROTATE_BYTES.
Proof. split; [by vm_compute|vm_compute; discriminate]. Qed.
Lemma console_log_is_an_unbroken_tail_witness : r_sent demo_out = [bs "hello "; bs "world"] /\
  log demo_disk demo_path ++ concat (r_sent demo_out) = log (r_disk demo_out) demo_path.
Proof.
  destruct (console_log_is_an_unbroken_tail demo_path _ demo_disk 0 8 _ true demo_turns _ (proj1 demo_laid) (Z.le_refl _) (proj2 demo_laid)
    demo_chunks demo_spawn) as (lost & settled & last & part & Es & _ & _ & E & _ & Hall & Hok & _ & Hlost).
  rewrite (Hok (proj1 demo_ends)), (Hlost (proj2 demo_ends)), <- concat_app, <- Es in E. split; [|exact E].
  apply Hall. intros err H. pose proof (proj1 demo_ends). congruence.
Defined.
(** The last chunk sent can be on no disk: its transfer fails behind the write that took it, and a read that fails ends
    the task without the flush that would say so. *)
Definition full_disk : faults := mk_faults None None (fun _ => None) (Some (0%nat, OtherFs (bs "no space left"))).
Theorem sent_chunk_misses_the_disk d : let turns := [T_Read (Ok (bs "hello")) full_disk; T_Read (Err NotFound) no_faults] in
  let out := read_loop turns (File demo_path 0 0 None) d [] in
  r_sent out = [bs "hello"] /\ r_end out = Finished (Err (Io (bs "read console") NotFound)) /\ names (r_disk out) = names d /\
  forall i, inode_bytes (r_disk out) i = inode_bytes d i.
Proof.
  intros turns out. assert (Ed : r_disk out = append 0 [] d) by reflexivity. split_and!; [done|done|by rewrite Ed|]. intros i. rewrite Ed.
  unfold append, inode_bytes. cbn [inodes]. rewrite app_nil_r. destruct (decide (i = O)) as [->|Hne]; [|by rewrite list_lookup_insert_ne].
  destruct (inodes d) as [|f fs]; reflexivity.
Qed.
