(* ===== verification/Reclaim.v ===== *)
(** * Asking a running guest to give memory back ([src/src/cli/trim.rs])

    [viv memory trim], and [viv trim] over both rungs.  The balloon's size is the VMM's state; the charges and the
    backend's answers are arguments.  Sizes are [u64]s of MiB or bytes; their products wrap. *)
From S2P Require Import Prelude Bytes Paths Ordered Message Hybrid HostControl Diagnostic Lifecycle Stop Start Volumes.

Definition MIB : Z := 1024 * 1024.
Definition HEADROOM_FLOOR_BYTES : Z := 512 * 1024 * 1024.
Definition u64 (z : Z) : Z := z mod 2 ^ 64.
Definition saturating_sub (a b : Z) : Z := Z.max 0 (a - b).
(** [u64::div_ceil]. *)
Definition div_ceil (a b : Z) : Z := if a mod b =? 0 then a / b else u64 (a / b + 1).
Definition working_set_mib (total available : Z) : Z := div_ceil (saturating_sub total available) MIB.
Definition headroom_target (working_set : Z) : Z :=
  let floor_mib := HEADROOM_FLOOR_BYTES / MIB in
  let headroom := if floor_mib <? working_set / 4 then working_set / 4 else floor_mib in
  u64 (working_set + headroom).

Record MemoryTrimReading := mk_MemoryTrimReading { target_mib : Z; mt_before : Z; mt_after : Z }.

(** ** Refusals *)

Definition require_running (s : State) : result unit Failure :=
  if bool_decide (s = Running) then Ok tt else Err (diagnosed N_Vm "trim-not-running" TempFail).
Definition boot_record_skew : Failure := diagnosed N_Vm "boot-record-skew" Config.
Definition live_boot (b : BootRecord) : result BootMetadata Failure :=
  match b with
  | Ready boot => Ok boot
  | Skewed _ => Err boot_record_skew
  | R_Absent | R_Unreadable => Err (diagnosed N_Vm "boot-record-unreadable" IoErr)
  end.
Definition control_failure (e : ControlCallError) : Failure :=
  match e with
  | Unreachable => diagnosed N_Vm "control-socket-unavailable" Diagnostic.Unavailable
  | Protocol => diagnosed N_Vm "control-socket-failed" IoErr
  end.
Definition measured_charge (a : show) : result Z Failure :=
  ok_or (fst (unit_memory_and_cgroup a)) (diagnosed N_Host "memory-unreadable" IoErr).

(** The figure asked for, and whether it was raised with a note. *)
Definition derive_target (report : result MemoryReport ControlCallError) (to_mib : option Z) (declared_mib : Z) : result (Z * bool) Failure :=
  match to_mib with
  | Some to =>
      match report with
      | Ok report =>
          let floor := working_set_mib (total_bytes report) (available_bytes report) in
          Ok (if to <? floor then (floor, true) else (to, false))
      | Err _ => Ok (to, false)
      end
  | None =>
      let? report := map_err control_failure report in
      let working_set := working_set_mib (total_bytes report) (available_bytes report) in
      Ok (Z.min (headroom_target working_set) (Z.max declared_mib 1), false)
  end.

(** ** The balloon *)

(** What a resize meets: no API socket, a program that does not run, a refusal, or the new size. *)
Inductive resize_answer := NoSocket | CannotRun | Refused | Resized.
Inductive event := Locked | Unlocked | Asked (mib : Z) (a : resize_answer) | Polled (readings : nat).
#[export] Instance resize_answer_eq_dec : EqDecision resize_answer.
Proof. solve_decision. Defined.
#[export] Instance event_eq_dec : EqDecision event.
Proof. solve_decision. Defined.
Record vm := mk_vm { balloon : Z; vm_log : list event }.
Definition act (A : Type) : Type := sem vm Failure A.
Definition answer_of {A} (r : result A Failure) : act A := slift r.
Definition note (e : event) : act unit := fun v => (Ok tt, mk_vm (balloon v) (vm_log v ++ [e])).
Definition under_lock {A} (m : act A) : act A := fun v =>
  let '(r, v) := (note Locked ;; m) v in (r, mk_vm (balloon v) (vm_log v ++ [Unlocked])).

Definition resize_failure (a : resize_answer) : result unit Failure :=
  match a with
  | NoSocket => Err (diagnosed N_Vm "api-socket-unavailable" Diagnostic.Unavailable)
  | CannotRun => Err (diagnosed N_Vm "balloon-resize-failed" IoErr)
  | Refused => Err (diagnosed N_Vm "balloon-resize-refused" Diagnostic.Unavailable)
  | Resized => Ok tt
  end.
Definition resize_argv (ch_remote api_socket : bytes) (balloon_mib : Z) : list bytes :=
  [ch_remote; bs "--api-socket"; api_socket; bs "resize"; bs "--balloon"; dec balloon_mib ++ bs "M"].
(** The answers, by the size asked for. *)
Definition resize_balloon (resize : Z -> resize_answer) (balloon_mib : Z) : act unit := fun v =>
  let a := resize balloon_mib in
  (resize_failure a,
   mk_vm (match a with Resized => balloon_mib | _ => balloon v end) (vm_log v ++ [Asked balloon_mib a])).

(** The settle loop: for each round, whether the deadline had passed when it began, and the charge read.  The answer is
    how many charges were read. *)
Fixpoint settle (before : Z) (last : option Z) (rounds : list (bool * option Z)) : nat :=
  match rounds with
  | [] => O
  | (true, _) :: _ => O
  | (false, None) :: _ => 1
  | (false, Some now) :: rounds =>
      match last with
      | Some last =>
          if ((now <? before) && (u64 (Z.abs (last - now) * 100) <=? Z.max last 1))%Z then 1
          else S (settle before (Some now) rounds)
      | None => S (settle before (Some now) rounds)
      end
  end%nat.

(** ** The memory rung *)

Record memory_world := mk_memory_world {
  mw_sandbox_id : result bytes Failure;
  mw_runtime_root : result bytes Failure;
  mw_lock : lock_world;
  mw_state : State;                                  (* [discriminate], under the lock *)
  mw_boot : BootRecord;
  mw_charge_before : show;
  mw_declared_mib : result Z Failure;                (* [launch_spec_record(..)?.resources.memory_mib] *)
  mw_report : result MemoryReport ControlCallError;
  mw_resize : Z -> resize_answer;
  mw_rounds : list (bool * option Z);
  mw_charge_after : show }.
Definition memory_rung (to_mib : option Z) (w : memory_world) : act (bytes * MemoryTrimReading) :=
  let! sandbox_id := answer_of (mw_sandbox_id w) in
  let! runtime_root := answer_of (mw_runtime_root w) in
  let! runtime := answer_of (locate runtime_root sandbox_id DEFAULT_TARGET) in
  answer_of (lock_answer (mw_lock w)) ;;
  under_lock
    (answer_of (require_running (mw_state w)) ;;
     answer_of (live_boot (mw_boot w)) ;;
     let! before := answer_of (measured_charge (mw_charge_before w)) in
     let! declared_mib := answer_of (mw_declared_mib w) in
     let! (target, _) := answer_of (derive_target (mw_report w) to_mib declared_mib) in
     let balloon_mib := saturating_sub declared_mib target in
     (if 0 <? balloon_mib then
        resize_balloon (mw_resize w) balloon_mib ;;
        note (Polled (settle before None (mw_rounds w))) ;;
        resize_balloon (mw_resize w) 0
      else sret tt) ;;
     let! after := answer_of (measured_charge (mw_charge_after w)) in
     sret (sandbox_id, mk_MemoryTrimReading target before after)).

(** ** Both rungs *)

(** A sum of [u64]s. *)
Definition trim_total (rows : list TrimRow) : Z := fold_left (fun sum row => u64 (sum + reclaimed row)) rows 0.
Record fanned := mk_fanned { f_printed : list (MemoryTrimReading + Z); f_result : result (bytes * MemoryTrimReading * list TrimRow) Failure }.
(** What the volume rung meets, as [Volumes.trim_rows] takes it. *)
Record volume_world := mk_volume_world {
  vw_survey : result (list Row) Failure;
  vw_admitted : result unit Failure;
  vw_before : stats; vw_after : stats;
  vw_request : list bytes -> result unit Failure }.
Definition volume_rung (name : option bytes) (w : volume_world) : result (list TrimRow) Failure :=
  let? rows := vw_survey w in
  trim_rows rows name (vw_admitted w) (vw_before w) (vw_after w) (vw_request w).
(** The rungs one after the other, whatever the first gives; the human face prints a rung's line as it completes. *)
Definition fan_out (json : bool) (w : memory_world) (vw : volume_world) (v : vm) : fanned * vm :=
  let '(memory, v) := memory_rung None w v in
  let printed_memory := match memory with Ok (_, reading) => if json then [] else [inl reading] | Err _ => [] end in
  let first := match memory with Ok _ => None | Err f => record_failure None f end in
  let volumes := volume_rung None vw in
  let printed_volumes := match volumes with Ok rows => if json then [] else [inr (trim_total rows)] | Err _ => [] end in
  let first := match volumes with Ok _ => first | Err f => record_failure first f end in
  (mk_fanned (printed_memory ++ printed_volumes)
     match first, memory, volumes with
     | Some f, _, _ => Err f
     | None, Ok (sandbox_id, reading), Ok rows => Ok (sandbox_id, reading, rows)
     | None, Err f, _ | None, _, Err f => Err f      (* not reached: a missing rung recorded its failure *)
     end, v).

(** * Reclaim: asking for memory back leaves the guest its room

    Which resizes a rung asks for and in what order, what is left of the balloon however it ends, the target it derives,
    and the two rungs together. *)

Lemma answer_bind {A B} (r : result A Failure) (k : A -> act B) v :
  sbind (answer_of r) k v = match r with Ok a => k a v | Err f => (Err f, v) end.
Proof. by destruct r. Qed.

(* ------------------------------------------------------------------ *)
(** ** The target *)

Definition is_u64 (z : Z) : Prop := 0 <= z < 2 ^ 64.
(** The least number of whole MiB the guest's own working set fits in. *)
Lemma working_set_mib_spec total available : is_u64 total -> is_u64 available ->
  let floor := working_set_mib total available in
  0 <= floor <= 2 ^ 44 /\ total - available <= floor * MIB /\ (0 < floor -> (floor - 1) * MIB < total - available).
Proof.
  unfold is_u64, working_set_mib, div_ceil, saturating_sub, u64, MIB. intros Ht Ha. cbn zeta.
  set (x := Z.max 0 (total - available)). assert (Hx : 0 <= x < 2 ^ 64) by lia.
  pose proof (Z.div_mod x (1024 * 1024) ltac:(lia)) as Hdm. pose proof (Z.mod_pos_bound x (1024 * 1024) ltac:(lia)) as Hm.
  assert (Hd : 0 <= x / (1024 * 1024) < 2 ^ 44) by (split; [apply Z.div_pos; lia|apply Z.div_lt_upper_bound; lia]).
  destruct (x mod (1024 * 1024) =? 0) eqn:E; [lia|]. apply Z.eqb_neq in E. rewrite Z.mod_small by lia. lia.
Qed.
Lemma headroom_target_spec floor : 0 <= floor <= 2 ^ 44 -> headroom_target floor = floor + Z.max (floor / 4) 512.
Proof.
  intros H. unfold headroom_target, u64. change (HEADROOM_FLOOR_BYTES / MIB) with 512.
  assert (0 <= floor / 4 <= 2 ^ 44) by (split; [apply Z.div_pos; lia|apply Z.div_le_upper_bound; lia]).
  destruct (512 <? floor / 4) eqn:E; [apply Z.ltb_lt in E|apply Z.ltb_ge in E]; rewrite Z.mod_small by lia; lia.
Qed.

(* ------------------------------------------------------------------ *)
(** ** The rung *)

(** What the run asked of the balloon. *)
Definition asks (e : event) : bool := match e with Asked _ _ => true | _ => false end.
Definition resizes (v v' : vm) (l : list event) : Prop :=
  exists log, vm_log v' = vm_log v ++ log /\ List.filter asks log = l.

(** The inside of the lock: where a run can be refused before it asks for anything, and what it does otherwise. *)
Definition rung_checks (to_mib : option Z) (w : memory_world) : result (Z * Z * Z) Failure :=
  let? _ := require_running (mw_state w) in
  let? _ := live_boot (mw_boot w) in
  let? before := measured_charge (mw_charge_before w) in
  let? declared := mw_declared_mib w in
  let? (target, _) := derive_target (mw_report w) to_mib declared in
  Ok (before, declared, target).
Definition rung_names (w : memory_world) : result bytes Failure :=
  let? id := mw_sandbox_id w in
  let? root := mw_runtime_root w in
  let? _ := locate root id DEFAULT_TARGET in
  let? _ := lock_answer (mw_lock w) in
  Ok id.
Definition rung_tail (id : bytes) (w : memory_world) (before declared target : Z) : act (bytes * MemoryTrimReading) :=
  (if 0 <? saturating_sub declared target then
     resize_balloon (mw_resize w) (saturating_sub declared target) ;;
     note (Polled (settle before None (mw_rounds w))) ;;
     resize_balloon (mw_resize w) 0
   else sret tt) ;;
  let! after := answer_of (measured_charge (mw_charge_after w)) in
  sret (id, mk_MemoryTrimReading target before after).
Lemma memory_rung_shape to_mib w v : memory_rung to_mib w v =
  match rung_names w with
  | Err f => (Err f, v)
  | Ok id =>
      under_lock (match rung_checks to_mib w with
                  | Err f => sfail f
                  | Ok (before, declared, target) => rung_tail id w before declared target
                  end) v
  end.
Proof.
  unfold memory_rung, rung_names. rewrite answer_bind. destruct (mw_sandbox_id w) as [id|f]; [|done].
  rewrite answer_bind. destruct (mw_runtime_root w) as [root|f]; [|done].
  rewrite answer_bind. cbn [rbind]. destruct (locate root id DEFAULT_TARGET) as [runtime|f]; [|done].
  rewrite answer_bind. cbn [rbind]. destruct (lock_answer (mw_lock w)) as [[]|f]; [|done]. cbn [rbind].
  unfold under_lock. unfold sbind at 1. unfold sbind at 9. unfold note at 1. unfold note at 2. cbn beta iota zeta.
  set (v1 := mk_vm (balloon v) (vm_log v ++ [Locked])).
  unfold rung_checks. rewrite answer_bind. destruct (require_running (mw_state w)) as [[]|f]; [|done].
  rewrite answer_bind. cbn [rbind]. destruct (live_boot (mw_boot w)) as [boot|f]; [|done].
  rewrite answer_bind. cbn [rbind]. destruct (measured_charge (mw_charge_before w)) as [before|f]; [|done].
  rewrite answer_bind. cbn [rbind]. destruct (mw_declared_mib w) as [declared|f]; [|done].
  rewrite answer_bind. cbn [rbind]. destruct (derive_target _ _ _) as [[target raised]|f]; done.
Qed.

(** Everything a run can do behind its checks. *)
Inductive ran (w : memory_world) (v : vm) (id : bytes) (before declared target : Z) : result (bytes * MemoryTrimReading) Failure -> vm -> list event -> Prop :=
| ran_idle (r : result (bytes * MemoryTrimReading) Failure) : declared <= target ->
    (forall x : bytes * MemoryTrimReading, r = Ok x -> x = (id, mk_MemoryTrimReading target before (mt_after (snd x)))) ->
    ran w v id before declared target r v []
| ran_refused f : target < declared -> resize_failure (mw_resize w (saturating_sub declared target)) = Err f ->
    ran w v id before declared target (Err f)
      (mk_vm (balloon v) (vm_log v ++ [Asked (saturating_sub declared target) (mw_resize w (saturating_sub declared target))]))
      [Asked (saturating_sub declared target) (mw_resize w (saturating_sub declared target))]
| ran_stuck f : target < declared -> mw_resize w (saturating_sub declared target) = Resized -> resize_failure (mw_resize w 0) = Err f ->
    ran w v id before declared target (Err f)
      (mk_vm (saturating_sub declared target)
         (vm_log v ++ [Asked (saturating_sub declared target) Resized; Polled (settle before None (mw_rounds w)); Asked 0 (mw_resize w 0)]))
      [Asked (saturating_sub declared target) Resized; Asked 0 (mw_resize w 0)]
| ran_through (r : result (bytes * MemoryTrimReading) Failure) : target < declared -> mw_resize w (saturating_sub declared target) = Resized -> mw_resize w 0 = Resized ->
    (forall x : bytes * MemoryTrimReading, r = Ok x -> x = (id, mk_MemoryTrimReading target before (mt_after (snd x)))) ->
    ran w v id before declared target r
      (mk_vm 0 (vm_log v ++ [Asked (saturating_sub declared target) Resized; Polled (settle before None (mw_rounds w)); Asked 0 Resized]))
      [Asked (saturating_sub declared target) Resized; Asked 0 Resized].
Lemma resized_or_not a : a = Resized \/ exists f, resize_failure a = Err f /\ a <> Resized.
Proof. destruct a; [right|right|right|by left]; by eexists. Qed.
Lemma last_reading id w before target v : exists r,
  sbind (answer_of (measured_charge (mw_charge_after w))) (fun after => sret (id, mk_MemoryTrimReading target before after)) v = (r, v) /\
  forall x : bytes * MemoryTrimReading, r = Ok x -> x = (id, mk_MemoryTrimReading target before (mt_after (snd x))).
Proof. rewrite answer_bind. destruct (measured_charge _); eexists; (split; [reflexivity|]); [by intros x [= <-]|done]. Qed.
Lemma rung_tail_ran id w before declared target v : exists l,
  ran w v id before declared target (fst (rung_tail id w before declared target v)) (snd (rung_tail id w before declared target v)) l.
Proof.
  unfold rung_tail. destruct (0 <? saturating_sub declared target) eqn:E.
  2:{ apply Z.ltb_ge in E. destruct (last_reading id w before target v) as (r & Er & Hr). rewrite (sbind_run _ _ _ tt v) by done.
      rewrite Er. exists []. apply ran_idle; [unfold saturating_sub in E; lia|done]. }
  apply Z.ltb_lt in E. assert (Hlt : target < declared) by (unfold saturating_sub in E; lia).
  set (b := saturating_sub declared target) in *.
  destruct (resized_or_not (mw_resize w b)) as [Ea|(f & Ef & Hne)].
  2:{ exists [Asked b (mw_resize w b)]. set (v1 := mk_vm (balloon v) (vm_log v ++ [Asked b (mw_resize w b)])).
      assert (Er : resize_balloon (mw_resize w) b v = (Err f, v1)) by (unfold resize_balloon; rewrite Ef; by destruct (mw_resize w b)).
      rewrite (sbind_run_err _ _ _ f v1); [by apply ran_refused|]. by rewrite (sbind_run_err _ _ _ _ _ Er). }
  destruct (resized_or_not (mw_resize w 0)) as [E0|(f & Ef & Hne)].
  - set (v3 := mk_vm 0 (vm_log v ++ [Asked b Resized; Polled (settle before None (mw_rounds w)); Asked 0 Resized])).
    destruct (last_reading id w before target v3) as (r & Er & Hr). exists [Asked b Resized; Asked 0 Resized].
    rewrite (sbind_run _ _ _ tt v3); [rewrite Er; by apply ran_through|].
    unfold sbind, resize_balloon, note. rewrite Ea. cbn [resize_failure vm_log balloon]. rewrite E0. cbn [resize_failure].
    unfold v3. by rewrite <- !app_assoc.
  - exists [Asked b Resized; Asked 0 (mw_resize w 0)].
    set (v3 := mk_vm b (vm_log v ++ [Asked b Resized; Polled (settle before None (mw_rounds w)); Asked 0 (mw_resize w 0)])).
    rewrite (sbind_run_err _ _ _ f v3); [by apply ran_stuck|].
    unfold sbind, resize_balloon, note. rewrite Ea. cbn [resize_failure vm_log balloon]. rewrite Ef.
    unfold v3. rewrite <- !app_assoc. by destruct (mw_resize w 0).
Qed.

Lemma ran_resizes w v id before declared target r v' l : ran w v id before declared target r v' l -> resizes v v' l.
Proof. destruct 1; unfold resizes; cbn [vm_log]; [exists []; by rewrite app_nil_r|by eexists..]. Qed.
Lemma resizes_unique v v' l l' : resizes v v' l -> resizes v v' l' -> l = l'.
Proof. intros (log & E & <-) (log' & E' & <-). rewrite E in E'. by apply app_inv_head in E' as ->. Qed.
(** A run of the rung: refused with the VM untouched, or through its checks under the lock. *)
Lemma memory_rung_ran to_mib w v r v' : memory_rung to_mib w v = (r, v') ->
  (exists f, r = Err f /\ balloon v' = balloon v /\ resizes v v' []) \/
  exists id before declared target v1 l, rung_names w = Ok id /\ rung_checks to_mib w = Ok (before, declared, target) /\
    ran w (mk_vm (balloon v) (vm_log v ++ [Locked])) id before declared target r v1 l /\
    v' = mk_vm (balloon v1) (vm_log v1 ++ [Unlocked]) /\ resizes v v' l.
Proof.
  rewrite memory_rung_shape. destruct (rung_names w) as [id|f].
  2:{ intros [= <- <-]. left. exists f. split; [done|]. split; [done|]. exists []. by rewrite app_nil_r. }
  unfold under_lock, note. unfold sbind at 1. cbn beta iota. set (vl := mk_vm (balloon v) (vm_log v ++ [Locked])).
  destruct (rung_checks to_mib w) as [[[before declared] target]|f].
  2:{ intros [= <- <-]. left. exists f. split; [done|]. split; [done|]. exists [Locked; Unlocked]. split; [|done].
      unfold vl. cbn [vm_log]. by rewrite <- app_assoc. }
  intros H. right. destruct (rung_tail_ran id w before declared target vl) as [l Hran].
  destruct (rung_tail id w before declared target vl) as [r1 v1]. injection H as <- <-. cbn [fst snd] in Hran.
  exists id, before, declared, target, v1, l. do 2 (split; [done|]). split; [exact Hran|]. split; [done|].
  destruct (ran_resizes _ _ _ _ _ _ _ _ _ Hran) as (mid & Em & El). exists (Locked :: mid ++ [Unlocked]). cbn [vm_log]. split.
  - rewrite Em. unfold vl. cbn [vm_log]. by rewrite <- !app_assoc.
  - cbn [List.filter asks]. rewrite List.filter_app, El. cbn [List.filter asks]. by rewrite app_nil_r.
Qed.
Lemma rung_checks_ok to_mib w before declared target : rung_checks to_mib w = Ok (before, declared, target) ->
  mw_state w = Running /\ (exists boot, mw_boot w = Ready boot) /\ measured_charge (mw_charge_before w) = Ok before /\
  mw_declared_mib w = Ok declared /\ exists raised, derive_target (mw_report w) to_mib declared = Ok (target, raised).
Proof.
  unfold rung_checks. intros H. apply rbind_ok in H as (u & Hs & H). apply rbind_ok in H as (boot & Hb & H).
  apply rbind_ok in H as (b & Hc & H). apply rbind_ok in H as (d & Hd & H). apply rbind_ok in H as ([t raised] & Ht & H).
  injection H as -> -> ->. unfold require_running in Hs. destruct (bool_decide _) eqn:E; [|done]. apply bool_decide_eq_true in E.
  split; [done|]. split; [unfold live_boot in Hb; destruct (mw_boot w); try done; by eexists|]. do 2 (split; [done|]). by exists raised.
Qed.

(* ------------------------------------------------------------------ *)
(** ** The properties *)


(** C23: No reclaim squeezes what the guest is using.  When the guest answers the memory query, whatever inflation is
    asked for leaves it at least its working set - the memory it has less what the kernel says is available - and the
    target a successful run reports is the larger of what was asked for and that set, or without a figure the set and
    a quarter of it, half a GiB at least, capped by what was declared; none of the arithmetic wraps. *)
Theorem a_reclaim_leaves_the_working_set to_mib w v r v' report declared :
  memory_rung to_mib w v = (r, v') -> mw_report w = Ok report ->
  is_u64 (total_bytes report) -> is_u64 (available_bytes report) -> mw_declared_mib w = Ok declared ->
  let floor := working_set_mib (total_bytes report) (available_bytes report) in
  0 <= floor <= 2 ^ 44 /\ total_bytes report - available_bytes report <= floor * MIB /\
  (forall b a l, resizes v v' l -> Asked b a ∈ l -> 0 < b -> total_bytes report - available_bytes report <= (declared - b) * MIB) /\
  (forall id reading, r = Ok (id, reading) ->
     target_mib reading = match to_mib with Some to => Z.max to floor | None => Z.min (floor + Z.max (floor / 4) 512) (Z.max declared 1) end).
Proof.
  intros H Hrep Ht Ha Hd floor. destruct (working_set_mib_spec _ _ Ht Ha) as (Hf & Hw & _). fold floor in Hf, Hw.
  split; [done|]. split; [done|]. pose proof (headroom_target_spec _ Hf) as Hh.
  apply memory_rung_ran in H as [(f & -> & Hb & Hl)|(id & before & declared' & target & v1 & l & _ & Hc & Hran & -> & Hl)].
  { split; [|done]. intros b a l Hl' Hin. rewrite <- (resizes_unique _ _ _ _ Hl Hl') in Hin. by apply elem_of_nil in Hin. }
  apply rung_checks_ok in Hc as (_ & _ & _ & Hd' & raised & Ht'). rewrite Hd in Hd'. injection Hd' as <-.
  assert (Htarget : target = match to_mib with Some to => Z.max to floor | None => Z.min (floor + Z.max (floor / 4) 512) (Z.max declared 1) end).
  { unfold derive_target in Ht'. rewrite Hrep in Ht'. cbn [map_err rbind] in Ht'. fold floor in Ht'. rewrite Hh in Ht'.
    destruct to_mib as [to|]; [|by injection Ht' as <- _]. destruct (to <? floor) eqn:E; injection Ht' as <- _; lia. }
  split.
  - intros b a l' Hl' Hin Hb. rewrite <- (resizes_unique _ _ _ _ Hl Hl') in Hin.
    assert (Hq : 0 <= floor / 4) by (apply Z.div_pos; lia).
    assert (Hroom : b = saturating_sub declared target /\ target < declared).
    { inversion Hran; subst l; rewrite ?elem_of_cons, elem_of_nil in Hin; [done| | |]; split; try done; naive_solver lia. }
    destruct Hroom as [-> Hlt]. unfold saturating_sub. rewrite Z.max_r by lia. replace (declared - (declared - target)) with target by lia.
    assert (floor <= target) by (rewrite Htarget; destruct to_mib; lia). unfold MIB in *. lia.
  - intros i reading ->. rewrite <- Htarget. by inversion Hran as [r0 _ Hx|f|f|r0 _ _ _ Hx]; subst; injection (Hx _ eq_refl) as _ ->.
Qed.

(** [viv trim] tries the second rung whatever the first gave: the VM is left as the memory rung alone leaves it, the
    exit is the first failure's, a record is given exactly when both rungs succeeded and is what they gave, and the
    human face has printed the rungs that completed, in order, and the machine face nothing. *)
Theorem fan_out_tries_both json w vw v : let memory := memory_rung None w v in let '(out, v') := fan_out json w vw v in
  v' = snd memory /\
  (forall id reading rows, f_result out = Ok (id, reading, rows) <-> fst memory = Ok (id, reading) /\ volume_rung None vw = Ok rows) /\
  (forall f, f_result out = Err f <-> fst memory = Err f \/ is_ok (fst memory) = true /\ volume_rung None vw = Err f) /\
  f_printed out = if json then [] else
    match fst memory with Ok (_, reading) => [inl reading] | Err _ => [] end ++
    match volume_rung None vw with Ok rows => [inr (trim_total rows)] | Err _ => [] end.
Proof.
  unfold fan_out. destruct (memory_rung None w v) as [[[id reading]|f] v'], (volume_rung None vw) as [rows|f']; cbn;
    (split; [done|]); (split; [intros; naive_solver|]); (split; [intros; naive_solver|]); by destruct json.
Qed.

(* ------------------------------------------------------------------ *)
(** ** Witnesses *)

Definition demo_runs : show := Ran true (bs "MemoryCurrent=2147483648" ++ [x0a] ++ bs "ControlGroup=/vm").
Definition demo_world (resize : Z -> resize_answer) : memory_world :=
  mk_memory_world (Ok (bs "p")) (Ok (bs "/run/vivarium")) (mk_lock_world true true LockTaken) Running
    (Ready (mk_BootMetadata 12 (bs "b") (bs "p") (bs "default") (bs "ch") [])) demo_runs (Ok 4096)
    (Ok (mk_MemoryReport (4096 * MIB) (3596 * MIB))) resize [(false, Some 1000); (false, Some 999); (false, Some 1)] demo_runs.
Definition demo_vm : vm := mk_vm 0 [].
Definition obliging (_ : Z) : resize_answer := Resized.
Definition demo_ran : result (bytes * MemoryTrimReading) Failure * vm := memory_rung None (demo_world obliging) demo_vm.
Lemma demo_run : memory_rung None (demo_world obliging) demo_vm =
  (Ok (bs "p", mk_MemoryTrimReading 1012 2147483648 2147483648), snd demo_ran).
Proof. vm_compute. reflexivity. Qed.
Lemma demo_resizes : resizes demo_vm (snd demo_ran) [Asked 3084 Resized; Asked 0 Resized].
Proof. eexists. split; vm_compute; reflexivity. Qed.
Lemma demo_u64 : is_u64 (4096 * MIB) /\ is_u64 (3596 * MIB).
Proof. unfold is_u64, MIB. lia. Qed.
Lemma demo_asked : Asked 3084 Resized ∈ [Asked 3084 Resized; Asked 0 Resized].
Proof. left. Qed.
Lemma a_reclaim_leaves_the_working_set_witness : 4096 * MIB - 3596 * MIB <= (4096 - 3084) * MIB.
Proof.
  destruct (a_reclaim_leaves_the_working_set None (demo_world obliging) demo_vm _ _ _ 4096 demo_run eq_refl
    (proj1 demo_u64) (proj2 demo_u64) eq_refl) as (_ & _ & H & _).
  exact (H 3084 Resized _ demo_resizes demo_asked ltac:(lia)).
Defined.
