(* ===== verification/NixText.v ===== *)
(** * The Nix text the generated flake is written in ([nix_string] of [src/src/config/flake.rs])

    [nix_string] is the escape every rendered value goes through.  The rest is what the rendered text is held to: a
    reader of the fragment of Nix the renderer writes - string, integer and path literals, booleans, lists, attribute
    sets and the module header - with the lexer as a machine over bytes.  It is stricter than Nix: whatever it does not
    know, an interpolation and a raw carriage return among them, it refuses. *)
From S2P Require Import Prelude Bytes.

(** ** [str::replace] and the escape *)

Fixpoint replace_from (pattern by_ : bytes) (skip : nat) (s : bytes) : bytes :=
  match s with
  | [] => []
  | b :: s' =>
      match skip with
      | S skip => replace_from pattern by_ skip s'
      | O =>
          match strip_prefix pattern s with
          | Some _ => by_ ++ replace_from pattern by_ (length pattern - 1) s'
          | None => b :: replace_from pattern by_ O s'
          end
      end
  end.
Definition replace (s pattern by_ : bytes) : bytes := replace_from pattern by_ O s.
Definition quote : byte := x22.
Definition backslash : byte := x5c.
Definition lf : byte := x0a.
Definition cr : byte := x0d.
Definition nix_string (value : bytes) : bytes :=
  let value := replace value [backslash] [backslash; backslash] in
  let value := replace value [quote] [backslash; quote] in
  let value := replace value (bs "${") (backslash :: bs "${") in
  let value := replace value [lf] [backslash; "n"%byte] in
  replace value [cr] [backslash; "r"%byte].

(* ------------------------------------------------------------------ *)
(** ** The lexer *)

Inductive token := K_Str (s : bytes) | K_Id (s : bytes) | K_Int (digits : bytes) | K_Path (p : bytes) | K_Sym (b : byte) | K_Dots (n : nat).
#[export] Instance token_eq_dec : EqDecision token.
Proof. solve_decision. Defined.
(** Where the lexer stands: between tokens, in one, or in a string - behind a backslash or a dollar sign. *)
Inductive lexer_state :=
| M_Free | M_Id (s : bytes) | M_Int (s : bytes) | M_Dots (n : nat) | M_Path (s : bytes)
| M_Str (s : bytes) | M_Esc (s : bytes) | M_Dollar (s : bytes).

Definition id_start (b : byte) : bool := is_ascii_alphabetic b || bool_decide (b = "_"%byte).
Definition id_char (b : byte) : bool :=
  id_start b || is_ascii_digit b || bool_decide (b = "'"%byte) || bool_decide (b = "-"%byte).
Definition path_char (b : byte) : bool :=
  is_ascii_alphanumeric b || existsb (fun c => bool_decide (b = c)) (bs "._-+").
Definition blank (b : byte) : bool := bool_decide (b = " "%byte) || bool_decide (b = lf).
Definition symbol (b : byte) : bool := existsb (fun c => bool_decide (b = c)) (bs "{}[]=;:").

Definition free_step (b : byte) : option (list token * lexer_state) :=
  if blank b then Some ([], M_Free)
  else if bool_decide (b = quote) then Some ([], M_Str [])
  else if id_start b then Some ([], M_Id [b])
  else if is_ascii_digit b then Some ([], M_Int [b])
  else if bool_decide (b = "."%byte) then Some ([], M_Dots 1)
  else if symbol b then Some ([K_Sym b], M_Free)
  else None.
(** The token in hand is over. *)
Definition flush (m : lexer_state) : option (list token) :=
  match m with
  | M_Free => Some []
  | M_Id s => Some [K_Id s]
  | M_Int s => Some [K_Int s]
  | M_Dots n => if bool_decide (n = 1)%nat || bool_decide (n = 3)%nat then Some [K_Dots n] else None
  | M_Path s => if bool_decide (last s = Some "/"%byte) then None else Some [K_Path s]
  | M_Str _ | M_Esc _ | M_Dollar _ => None
  end.
Definition after (m : lexer_state) (b : byte) : option (list token * lexer_state) :=
  let* ts := flush m in
  let* (ts', m) := free_step b in
  Some (ts ++ ts', m).
Definition unescape (b : byte) : byte :=
  if bool_decide (b = "n"%byte) then lf else if bool_decide (b = "r"%byte) then cr
  else if bool_decide (b = "t"%byte) then x09 else b.
(** A byte of a string that is neither escaped nor behind a dollar sign. *)
Definition string_step (s : bytes) (b : byte) : option (list token * lexer_state) :=
  if bool_decide (b = quote) then Some ([K_Str s], M_Free)
  else if bool_decide (b = backslash) then Some ([], M_Esc s)
  else if bool_decide (b = "$"%byte) then Some ([], M_Dollar s)
  else if bool_decide (b = cr) then None
  else Some ([], M_Str (s ++ [b])).
Definition step (m : lexer_state) (b : byte) : option (list token * lexer_state) :=
  match m with
  | M_Free => free_step b
  | M_Id s =>
      if id_char b then Some ([], M_Id (s ++ [b]))
      else if bool_decide (b = ":"%byte) then None else after m b
  | M_Int s =>
      if is_ascii_digit b then Some ([], M_Int (s ++ [b]))
      else if bool_decide (b = "."%byte) then None else after m b
  | M_Dots n =>
      if bool_decide (b = "."%byte) then Some ([], M_Dots (S n))
      else if bool_decide (b = "/"%byte) && bool_decide (n = 1%nat) then Some ([], M_Path (bs "./"))
      else if is_ascii_digit b then None else after m b
  | M_Path s =>
      if path_char b then Some ([], M_Path (s ++ [b]))
      else if bool_decide (b = "/"%byte) then
        (if bool_decide (last s = Some "/"%byte) then None else Some ([], M_Path (s ++ [b])))
      else if bool_decide (b = "$"%byte) then None else after m b
  | M_Str s => string_step s b
  | M_Esc s => Some ([], M_Str (s ++ [unescape b]))
  | M_Dollar s =>
      if bool_decide (b = "{"%byte) then None
      else if bool_decide (b = quote) then Some ([K_Str (s ++ bs "$")], M_Free)
      else if bool_decide (b = backslash) then Some ([], M_Esc (s ++ bs "$"))
      else if bool_decide (b = cr) then None
      else Some ([], M_Str (s ++ bs "$" ++ [b]))
  end.
Fixpoint run (m : lexer_state) (text : bytes) : option (list token * lexer_state) :=
  match text with
  | [] => Some ([], m)
  | b :: text =>
      let* (ts, m) := step m b in
      let* (ts', m) := run m text in
      Some (ts ++ ts', m)
  end.
Definition lex (text : bytes) : option (list token) :=
  let* (ts, m) := run M_Free text in
  let* last := flush m in
  Some (ts ++ last).

(* ------------------------------------------------------------------ *)
(** ** The reader *)

Inductive nix :=
| N_Str (s : bytes) | N_Int (z : Z) | N_Bool (b : bool) | N_Path (p : bytes)
| N_List (l : list nix)
| N_Set (l : list (list bytes * nix)).
Definition binding : Type := (list bytes * nix)%type.
Definition keywords : list bytes := map bs ["if"; "then"; "else"; "assert"; "with"; "let"; "in"; "rec"; "inherit"]%string.
Definition keyword (s : bytes) : bool := bool_decide (s ∈ keywords).

(** No attribute path of a set is, or begins with, another. *)
Definition comparable (p q : list bytes) : bool := bool_decide (p `prefix_of` q) || bool_decide (q `prefix_of` p).
Fixpoint apart (paths : list (list bytes)) : bool :=
  match paths with
  | [] => true
  | p :: paths => forallb (fun q => negb (comparable p q)) paths && apart paths
  end.

Definition attribute (t : token) : option bytes :=
  match t with K_Str s => Some s | K_Id s => if keyword s then None else Some s | _ => None end.
Fixpoint read_path (ts : list token) : option (list bytes * list token) :=
  match ts with
  | t :: ts =>
      let* name := attribute t in
      match ts with
      | K_Dots 1 :: ts => let* (path, ts) := read_path ts in Some (name :: path, ts)
      | _ => Some ([name], ts)
      end
  | [] => None
  end.
Definition expect (t : token) (ts : list token) : option (list token) :=
  match ts with t' :: ts => if bool_decide (t' = t) then Some ts else None | [] => None end.
Definition sym (b : byte) : token := K_Sym b.

Fixpoint read (fuel : nat) (ts : list token) : option (nix * list token) :=
  match fuel, ts with
  | O, _ | _, [] => None
  | S fuel, t :: ts =>
      match t with
      | K_Str s => Some (N_Str s, ts)
      | K_Int digits => Some (N_Int (dec_value digits), ts)
      | K_Path p => Some (N_Path p, ts)
      | K_Id s => if bytes_eqb s (bs "true") then Some (N_Bool true, ts) else if bytes_eqb s (bs "false") then Some (N_Bool false, ts) else None
      | K_Sym b =>
          if bool_decide (b = "["%byte) then let* (l, ts) := read_items fuel ts in Some (N_List l, ts)
          else if bool_decide (b = "{"%byte) then
            (let* (l, ts) := read_bindings fuel ts in
             if apart (map fst l) then Some (N_Set l, ts) else None)
          else None
      | K_Dots _ => None
      end
  end
with read_items (fuel : nat) (ts : list token) : option (list nix * list token) :=
  match fuel with
  | O => None
  | S fuel =>
      match expect (sym "]") ts with
      | Some ts => Some ([], ts)
      | None =>
          let* (e, ts) := read fuel ts in
          let* (l, ts) := read_items fuel ts in
          Some (e :: l, ts)
      end
  end
with read_bindings (fuel : nat) (ts : list token) : option (list binding * list token) :=
  match fuel with
  | O => None
  | S fuel =>
      match expect (sym "}") ts with
      | Some ts => Some ([], ts)
      | None =>
          let* (path, ts) := read_path ts in
          let* ts := expect (sym "=") ts in
          let* (e, ts) := read fuel ts in
          let* ts := expect (sym ";") ts in
          let* (l, ts) := read_bindings fuel ts in
          Some ((path, e) :: l, ts)
      end
  end.
(** A whole text that is one expression. *)
Definition read_tokens (ts : list token) : option nix :=
  match read (length ts) ts with Some (e, []) => Some e | _ => None end.
Definition read_expression (text : bytes) : option nix := lex text ≫= read_tokens.
(** A module: [{ ... }:] and an attribute set. *)
Definition header : list token := [sym "{"; K_Dots 3; sym "}"; sym ":"].
Definition read_module (text : bytes) : option (list binding) :=
  let* ts := lex text in
  let* ts := (if bool_decide (take 4 ts = header) then Some (drop 4 ts) else None) in
  match read_tokens ts with Some (N_Set l) => Some l | _ => None end.

Example reads_a_module :
  read_module (bs "{ ... }: { a.b = [ 1 true ./x/y.nix ]; c = { }; }") =
    Some [([bs "a"; bs "b"], N_List [N_Int 1; N_Bool true; N_Path (bs "./x/y.nix")]); ([bs "c"], N_Set [])].
Proof. vm_compute. reflexivity. Qed.

(* ------------------------------------------------------------------ *)
(** ** Lexing piece by piece *)

Lemma run_app m a b : run m (a ++ b) = (let* (ts, m) := run m a in let* (ts', m) := run m b in Some (ts ++ ts', m)).
Proof.
  revert m. induction a as [|x a IH]; intros m; cbn [app run option_bind].
  - by destruct (run m b) as [[ts' m']|].
  - destruct (step m x) as [[ts m']|]; [|done]. cbn [option_bind]. rewrite IH.
    destruct (run m' a) as [[ts1 m1]|]; [|done]. cbn [option_bind]. destruct (run m1 b) as [[ts2 m2]|]; [|done].
    cbn [option_bind]. by rewrite app_assoc.
Qed.
Lemma run_then m a ts m1 b ts' m2 : run m a = Some (ts, m1) -> run m1 b = Some (ts', m2) -> run m (a ++ b) = Some (ts ++ ts', m2).
Proof. intros Ha Hb. rewrite run_app, Ha. cbn [option_bind]. by rewrite Hb. Qed.

(** A text whose tokens are complete. *)
Definition writes (text : bytes) (ts : list token) : Prop := run M_Free text = Some (ts, M_Free).
Lemma writes_nil : writes [] [].
Proof. done. Qed.
Lemma writes_app a ts b ts' : writes a ts -> writes b ts' -> writes (a ++ b) (ts ++ ts').
Proof. apply run_then. Qed.
Lemma writes_concat {A} (f : A -> bytes) (g : A -> list token) l :
  (forall x, x ∈ l -> writes (f x) (g x)) -> writes (concat (map f l)) (concat (map g l)).
Proof.
  intros H. induction l as [|x l IH]; [done|]. cbn [map concat].
  apply writes_app; [apply H; left|apply IH; intros; apply H; by right].
Qed.
Lemma writes_lex text ts : writes text ts -> lex text = Some ts.
Proof. unfold writes, lex. intros ->. cbn [option_bind flush]. by rewrite app_nil_r. Qed.

(** An identifier. *)
Definition identifier (s : bytes) : bool :=
  match s with [] => false | b :: s => id_start b && forallb id_char s end && negb (keyword s).
Lemma id_chars s acc : forallb id_char s = true -> run (M_Id acc) s = Some ([], M_Id (acc ++ s)).
Proof.
  revert acc. induction s as [|b s IH]; intros acc H; cbn [run forallb] in *; [by rewrite app_nil_r|].
  apply andb_true_iff in H as [Hb H]. cbn [step]. rewrite Hb. cbn [option_bind]. rewrite IH by done. cbn [option_bind].
  by rewrite <- (app_assoc acc).
Qed.
Lemma id_start_free b : id_start b = true -> free_step b = Some ([], M_Id [b]).
Proof. destruct b; try discriminate; reflexivity. Qed.
Lemma run_identifier s : identifier s = true -> run M_Free s = Some ([], M_Id s).
Proof.
  unfold identifier. destruct s as [|b s]; [done|]. rewrite !andb_true_iff. intros [[Hb Hs] _].
  cbn [run step]. rewrite id_start_free by done. cbn [option_bind]. by rewrite id_chars.
Qed.

(** A decimal. *)
Lemma digits_run s acc : forallb is_ascii_digit s = true -> run (M_Int acc) s = Some ([], M_Int (acc ++ s)).
Proof.
  revert acc. induction s as [|b s IH]; intros acc H; cbn [run forallb] in *; [by rewrite app_nil_r|].
  apply andb_true_iff in H as [Hb H]. cbn [step]. rewrite Hb. cbn [option_bind]. rewrite IH by done. cbn [option_bind].
  by rewrite <- (app_assoc acc).
Qed.
Lemma digit_free b : is_ascii_digit b = true -> free_step b = Some ([], M_Int [b]).
Proof. destruct b; try discriminate; reflexivity. Qed.
Lemma run_dec z : 0 <= z < 10 ^ 20 -> run M_Free (dec z) = Some ([], M_Int (dec z)) /\ dec_value (dec z) = z.
Proof.
  intros Hz. destruct (dec_spec z ltac:(lia)) as (Hd & Hv & Hne). split; [|done].
  destruct (dec z) as [|b s]; [done|]. cbn [forallb] in Hd. apply andb_true_iff in Hd as [Hb Hs].
  cbn [run step]. rewrite digit_free by done. cbn [option_bind]. by rewrite digits_run.
Qed.

(** A relative path of non-empty segments. *)
Definition path_segment (s : bytes) : bool := negb (bool_decide (s = [])) && forallb path_char s.
Lemma path_chars s acc : forallb path_char s = true -> run (M_Path acc) s = Some ([], M_Path (acc ++ s)).
Proof.
  revert acc. induction s as [|b s IH]; intros acc H; cbn [run forallb] in *; [by rewrite app_nil_r|].
  apply andb_true_iff in H as [Hb H]. cbn [step]. rewrite Hb. cbn [option_bind]. rewrite IH by done. cbn [option_bind].
  by rewrite <- (app_assoc acc).
Qed.
Lemma path_char_not_slash b : path_char b = true -> b <> "/"%byte.
Proof. intros H ->. discriminate H. Qed.
Lemma run_segments segments acc : segments <> [] -> Forall (fun s => path_segment s = true) segments ->
  let text := join_with "/"%byte segments in
  run (M_Path acc) text = Some ([], M_Path (acc ++ text)) /\ last (acc ++ text) <> Some "/"%byte.
Proof.
  intros Hne H. cbn zeta. revert acc Hne. induction H as [|s segments Hs H IH]; intros acc Hne; [done|].
  unfold path_segment in Hs. apply andb_true_iff in Hs as [Hn Hs]. apply negb_true_iff, bool_decide_eq_false in Hn.
  assert (Hlast : last (acc ++ s) <> Some "/"%byte).
  { destruct (exists_last Hn) as (s' & b & ->). rewrite app_assoc, last_snoc. rewrite forallb_app in Hs.
    apply andb_true_iff in Hs as [_ Hb]. cbn in Hb. rewrite andb_true_r in Hb. intros [= ->]. discriminate Hb. }
  destruct segments as [|s2 segments]; [split; [by apply path_chars|done]|].
  change (join_with "/"%byte (s :: s2 :: segments)) with (s ++ "/"%byte :: join_with "/"%byte (s2 :: segments)).
  destruct (IH (acc ++ s ++ ["/"%byte]) ltac:(done)) as [IHr IHl]. clear IH.
  replace (acc ++ s ++ "/"%byte :: join_with "/"%byte (s2 :: segments))
    with ((acc ++ s ++ ["/"%byte]) ++ join_with "/"%byte (s2 :: segments)) by by rewrite <- !app_assoc.
  split; [|done]. eapply (run_then _ _ [] _ _ []); [by apply path_chars|]. cbn [run step].
  change (path_char "/"%byte) with false. change (bool_decide ("/"%byte = "/"%byte)) with true. cbv iota.
  rewrite bool_decide_eq_false_2 by done. cbn [option_bind]. rewrite <- app_assoc. cbn [app]. rewrite IHr. reflexivity.
Qed.

(* ------------------------------------------------------------------ *)
(** ** The escape *)

(** [nix_string] in one pass. *)
Fixpoint escaped (s : bytes) : bytes :=
  match s with
  | [] => []
  | b :: s' =>
      if bool_decide (b = backslash) then backslash :: backslash :: escaped s'
      else if bool_decide (b = quote) then backslash :: quote :: escaped s'
      else if bool_decide (b = lf) then backslash :: "n"%byte :: escaped s'
      else if bool_decide (b = cr) then backslash :: "r"%byte :: escaped s'
      else if bool_decide (b = "$"%byte) && bool_decide (head s' = Some "{"%byte) then backslash :: b :: escaped s'
      else b :: escaped s'
  end.
Lemma replace_byte c by_ s : replace s [c] by_ = flat_map (fun b => if bool_decide (b = c) then by_ else [b]) s.
Proof.
  unfold replace. induction s as [|b s IH]; [done|]. cbn [replace_from flat_map strip_prefix length Nat.sub].
  destruct (decide (c = b)) as [->|Hn]; [rewrite bool_decide_true by done|rewrite bool_decide_false by congruence]; by rewrite IH.
Qed.
Definition first_two (b : byte) : bytes :=
  if bool_decide (b = backslash) then [backslash; backslash] else if bool_decide (b = quote) then [backslash; quote] else [b].
Definition last_two (b : byte) : bytes :=
  if bool_decide (b = lf) then [backslash; "n"%byte] else if bool_decide (b = cr) then [backslash; "r"%byte] else [b].
Lemma flat_map_compose {A B C} (f : B -> list C) (g : A -> list B) l : flat_map f (flat_map g l) = flat_map (fun x => flat_map f (g x)) l.
Proof. induction l as [|x l IH]; [done|]. cbn [flat_map]. by rewrite flat_map_app, IH. Qed.
Lemma replace_bytes s :
  replace (replace s [backslash] [backslash; backslash]) [quote] [backslash; quote] = flat_map first_two s /\
  replace (replace s [lf] [backslash; "n"%byte]) [cr] [backslash; "r"%byte] = flat_map last_two s.
Proof.
  rewrite !replace_byte, !flat_map_compose. split; apply flat_map_ext; intros b; destruct b; reflexivity.
Qed.
(** The middle step sees the dollar signs and braces of the value, for the first two replacements touch neither. *)
Definition dollars (s : bytes) : bytes := replace s (bs "${") (backslash :: bs "${").
Lemma dollars_cons b s : b <> "$"%byte -> dollars (b :: s) = b :: dollars s.
Proof.
  intros Hb. unfold dollars, replace. cbn [replace_from]. change (bs "${") with ["$"%byte; "{"%byte]. cbn [strip_prefix].
  by rewrite decide_False by congruence.
Qed.
Lemma dollars_dollar s : head s <> Some "{"%byte -> dollars ("$"%byte :: s) = "$"%byte :: dollars s.
Proof.
  intros Hs. unfold dollars, replace. cbn [replace_from]. change (bs "${") with ["$"%byte; "{"%byte]. cbn [strip_prefix].
  rewrite decide_True by done. destruct s as [|c s]; [done|]. cbn in Hs. by rewrite decide_False by congruence.
Qed.
Lemma dollars_open s : dollars ("$"%byte :: "{"%byte :: s) = backslash :: "$"%byte :: "{"%byte :: dollars s.
Proof. reflexivity. Qed.
Lemma head_first_two s : head (flat_map first_two s) = Some "{"%byte <-> head s = Some "{"%byte.
Proof.
  destruct s as [|b s]; [done|]. cbn [flat_map head]. unfold first_two.
  repeat case_decide; subst; cbn; naive_solver.
Qed.
Lemma nix_string_escaped s : nix_string s = escaped s.
Proof.
  unfold nix_string. cbn zeta. rewrite (proj1 (replace_bytes _)), (proj2 (replace_bytes _)).
  fold (dollars (flat_map first_two s)). induction s as [|b s IH]; [done|]. cbn [flat_map escaped].
  destruct (decide (b = "$"%byte)) as [->|Hd].
  - change (first_two "$"%byte) with ["$"%byte]. cbn [app].
    destruct (decide (head s = Some "{"%byte)) as [Hh|Hh].
    + rewrite Hh. destruct s as [|c s]; [done|]. cbn in Hh. injection Hh as ->. rewrite <- IH. cbn [flat_map].
      change (first_two "{"%byte) with ["{"%byte]. cbn [app]. rewrite dollars_open, dollars_cons by done. reflexivity.
    + rewrite dollars_dollar by by rewrite head_first_two. cbn [flat_map]. rewrite IH.
      rewrite (bool_decide_false (head s = _)) by done. rewrite andb_false_r. reflexivity.
  - assert (Hf : dollars (first_two b ++ flat_map first_two s) = first_two b ++ dollars (flat_map first_two s)).
    { destruct (decide (b = backslash)) as [->|H1].
      { change (first_two backslash) with [backslash; backslash]. cbn [app]. by rewrite !dollars_cons by done. }
      destruct (decide (b = quote)) as [->|H2].
      { change (first_two quote) with [backslash; quote]. cbn [app]. by rewrite !dollars_cons by done. }
      unfold first_two at 1 3. rewrite !bool_decide_false by done. cbn [app]. by rewrite dollars_cons. }
    rewrite Hf, flat_map_app, IH. rewrite (bool_decide_false (b = "$"%byte)) by done. cbn [andb]. clear. destruct b; reflexivity.
Qed.

(** Each byte of a value is written as itself or behind a backslash. *)
Lemma escaped_cases b s :
  (exists x, unescape x = b /\ forall s', head s' = head s -> escaped (b :: s') = backslash :: x :: escaped s') \/
  (escaped (b :: s) = b :: escaped s /\ b <> backslash /\ b <> quote /\ b <> cr /\ (b = "$"%byte -> head s <> Some "{"%byte)).
Proof.
  destruct (decide (b = backslash)) as [->|H1]; [left; exists backslash; split; [done|by intros]|].
  destruct (decide (b = quote)) as [->|H2]; [left; exists quote; split; [done|by intros]|].
  destruct (decide (b = lf)) as [->|H3]; [left; exists "n"%byte; split; [done|by intros]|].
  destruct (decide (b = cr)) as [->|H4]; [left; exists "r"%byte; split; [done|by intros]|].
  cbn [escaped]. rewrite (bool_decide_false (b = backslash)), (bool_decide_false (b = quote)), (bool_decide_false (b = lf)), (bool_decide_false (b = cr)) by done.
  destruct (decide (b = "$"%byte /\ head s = Some "{"%byte)) as [[-> Hs]|Hn].
  - left. exists "$"%byte. split; [done|]. intros s' Hs'. rewrite Hs', Hs. done.
  - right. rewrite (proj2 (andb_false_iff _ _)); [naive_solver|]. rewrite !bool_decide_eq_false. destruct (decide (b = "$"%byte)); tauto.
Qed.
Lemma run_esc acc x t : run (M_Str acc) (backslash :: x :: t) = run (M_Str (acc ++ [unescape x])) t.
Proof. cbn [run step]. change (string_step acc backslash) with (Some (@nil token, M_Esc acc)). cbn. by destruct (run _ t) as [[]|]. Qed.
Lemma run_dollar_esc acc x t : run (M_Dollar acc) (backslash :: x :: t) = run (M_Str ((acc ++ bs "$") ++ [unescape x])) t.
Proof. cbn [run]. change (step (M_Dollar acc) backslash) with (Some (@nil token, M_Esc (acc ++ bs "$"))). cbn. by destruct (run _ t) as [[]|]. Qed.

(** Between the quotes the lexer reads the value back, and nothing but the closing quote ends it. *)
Lemma run_escaped s acc : run (M_Str acc) (escaped s ++ [quote]) = Some ([K_Str (acc ++ s)], M_Free).
Proof.
  revert acc. induction s as [s IH] using (induction_ltof1 _ (@length byte)); intros acc. unfold ltof in IH.
  destruct s as [|b s]; [by rewrite app_nil_r|].
  assert (Hnext : forall b acc, run (M_Str (acc ++ [b])) (escaped s ++ [quote]) = Some ([K_Str (acc ++ b :: s)], M_Free)).
  { intros b' acc'. rewrite IH by (cbn; lia). by rewrite <- app_assoc. }
  destruct (escaped_cases b s) as [(x & <- & ->)|(-> & H1 & H2 & H3 & H4)]; [by cbn [app]; rewrite run_esc|done|].
  cbn [app run step]. unfold string_step. rewrite (bool_decide_false (b = quote)), (bool_decide_false (b = backslash)) by done.
  destruct (decide (b = "$"%byte)) as [->|H5].
  2:{ rewrite !bool_decide_false by done. cbn [option_bind]. by rewrite Hnext. }
  rewrite bool_decide_true by done. cbn [option_bind]. clear Hnext. destruct s as [|c s]; [reflexivity|].
  assert (Hnext : forall x, run (M_Str ((acc ++ bs "$") ++ [x])) (escaped s ++ [quote]) = Some ([K_Str (acc ++ "$"%byte :: x :: s)], M_Free)).
  { intros x. rewrite IH by (cbn; lia). by rewrite <- !app_assoc. }
  destruct (escaped_cases c s) as [(x & <- & ->)|(-> & K1 & K2 & K3 & _)]; [by cbn [app]; rewrite run_dollar_esc, Hnext|done|].
  cbn [app run step]. rewrite !bool_decide_false by (cbn in H4; naive_solver). cbn [option_bind]. rewrite app_assoc. by rewrite Hnext.
Qed.
Lemma writes_string s : writes (quote :: nix_string s ++ [quote]) [K_Str s].
Proof. unfold writes. rewrite nix_string_escaped. cbn [run step]. change (free_step quote) with (Some (@nil token, M_Str [])). cbn [option_bind]. by rewrite (run_escaped s []). Qed.

(* ------------------------------------------------------------------ *)
(** ** Tokens that spell an expression *)

Inductive spells_path : list token -> list bytes -> Prop :=
| sp_last t name : attribute t = Some name -> spells_path [t] [name]
| sp_dot t name ts path : attribute t = Some name -> spells_path ts path -> spells_path (t :: K_Dots 1 :: ts) (name :: path).
Inductive spells : list token -> nix -> Prop :=
| sp_str s : spells [K_Str s] (N_Str s)
| sp_int d : spells [K_Int d] (N_Int (dec_value d))
| sp_path p : spells [K_Path p] (N_Path p)
| sp_true : spells [K_Id (bs "true")] (N_Bool true)
| sp_false : spells [K_Id (bs "false")] (N_Bool false)
| sp_list ts l : spells_items ts l -> spells (sym "[" :: ts ++ [sym "]"]) (N_List l)
| sp_set ts l : spells_bindings ts l -> apart (map fst l) = true -> spells (sym "{" :: ts ++ [sym "}"]) (N_Set l)
with spells_items : list token -> list nix -> Prop :=
| sp_no_items : spells_items [] []
| sp_item ts e ts' l : spells ts e -> spells_items ts' l -> spells_items (ts ++ ts') (e :: l)
with spells_bindings : list token -> list binding -> Prop :=
| sp_no_bindings : spells_bindings [] []
| sp_binding tp path te e ts l :
    spells_path tp path -> spells te e -> spells_bindings ts l ->
    spells_bindings (tp ++ sym "=" :: te ++ sym ";" :: ts) ((path, e) :: l).
Scheme spells_rect' := Minimality for spells Sort Prop
  with spells_items_rect' := Minimality for spells_items Sort Prop
  with spells_bindings_rect' := Minimality for spells_bindings Sort Prop.
Combined Scheme spells_mutind from spells_rect', spells_items_rect', spells_bindings_rect'.

Lemma read_path_spelled tp path rest : spells_path tp path ->
  match rest with K_Dots _ :: _ => False | _ => True end -> read_path (tp ++ rest) = Some (path, rest).
Proof.
  induction 1 as [t name Ht|t name ts path Ht Hp IH]; intros Hr; cbn [app read_path]; rewrite Ht; cbn [option_bind].
  - destruct rest as [|[] rest]; done.
  - by rewrite IH.
Qed.
Lemma spells_path_head tp path : spells_path tp path -> exists t ts, tp = t :: ts /\ t <> sym "}".
Proof. intros H. inversion H as [t name Ht|t name ts p Ht]; subst; eexists _, _; (split; [done|]); by intros ->. Qed.
Lemma spells_head ts e : spells ts e -> exists t ts', ts = t :: ts' /\ t <> sym "]".
Proof. inversion 1; subst; eexists _, _; by (split; [done|]). Qed.
Lemma expect_other t t' ts : t <> t' -> expect t' (t :: ts) = None.
Proof. intros H. unfold expect. by rewrite bool_decide_false. Qed.
Lemma expect_this t ts : expect t (t :: ts) = Some ts.
Proof. unfold expect. by rewrite bool_decide_true. Qed.

(** The reader takes exactly the tokens that spell an expression, given as many steps as there are tokens. *)
Lemma read_spelled :
  (forall ts e, spells ts e -> forall fuel rest, (length ts <= fuel)%nat -> read fuel (ts ++ rest) = Some (e, rest)) /\
  (forall ts l, spells_items ts l -> forall fuel rest, (length ts < fuel)%nat -> read_items fuel (ts ++ sym "]" :: rest) = Some (l, rest)) /\
  (forall ts l, spells_bindings ts l -> forall fuel rest, (length ts < fuel)%nat -> read_bindings fuel (ts ++ sym "}" :: rest) = Some (l, rest)).
Proof.
  apply spells_mutind.
  - intros s fuel rest Hf. destruct fuel; [cbn in Hf; lia|done].
  - intros d fuel rest Hf. destruct fuel; [cbn in Hf; lia|done].
  - intros p fuel rest Hf. destruct fuel; [cbn in Hf; lia|done].
  - intros fuel rest Hf. destruct fuel; [cbn in Hf; lia|done].
  - intros fuel rest Hf. destruct fuel; [cbn in Hf; lia|done].
  - intros ts l _ IH fuel rest Hf. cbn [length] in Hf. rewrite length_app in Hf. cbn [length] in Hf.
    destruct fuel as [|fuel]; [lia|]. cbn [read app sym]. rewrite bool_decide_true by done. rewrite <- app_assoc. cbn [app].
    rewrite IH by lia. done.
  - intros ts l _ IH Ha fuel rest Hf. cbn [length] in Hf. rewrite length_app in Hf. cbn [length] in Hf.
    destruct fuel as [|fuel]; [lia|]. cbn [read app sym]. rewrite bool_decide_false, bool_decide_true by done.
    rewrite <- app_assoc. cbn [app]. rewrite IH by lia. cbn [option_bind]. by rewrite Ha.
  - intros fuel rest Hf. destruct fuel; [cbn in Hf; lia|]. cbn [read_items app]. by rewrite expect_this.
  - intros ts e ts' l He IHe _ IHl fuel rest Hf. destruct fuel as [|fuel]; [lia|]. rewrite length_app in Hf.
    destruct (spells_head _ _ He) as (t & u & -> & Ht). cbn [read_items]. cbn [app]. rewrite (expect_other _ _ _ Ht).
    rewrite <- app_assoc. change (t :: u ++ ts' ++ sym "]" :: rest) with ((t :: u) ++ ts' ++ sym "]" :: rest).
    cbn [length] in Hf. rewrite IHe by (cbn [length]; lia). cbn [option_bind]. rewrite IHl by lia. done.
  - intros fuel rest Hf. destruct fuel; [cbn in Hf; lia|]. cbn [read_bindings app]. by rewrite expect_this.
  - intros tp path te e ts l Hp He IHe _ IHl fuel rest Hf. destruct fuel as [|fuel]; [lia|].
    rewrite length_app in Hf. cbn [length] in Hf. rewrite length_app in Hf. cbn [length] in Hf.
    destruct (spells_path_head _ _ Hp) as (t & u & E & Ht). cbn [read_bindings].
    rewrite <- app_assoc. cbn [app]. rewrite <- app_assoc. cbn [app].
    replace (expect (sym "}") (tp ++ sym "=" :: te ++ sym ";" :: ts ++ sym "}" :: rest)) with (@None (list token))
      by (rewrite E; symmetry; by apply expect_other).
    rewrite (read_path_spelled _ _ _ Hp) by done. cbn [option_bind]. rewrite expect_this. cbn [option_bind].
    rewrite IHe by lia. cbn [option_bind]. rewrite expect_this. cbn [option_bind]. by rewrite IHl by lia.
Qed.
Lemma read_tokens_spelled ts e : spells ts e -> read_tokens ts = Some e.
Proof.
  intros H. unfold read_tokens. pose proof (proj1 read_spelled ts e H (length ts) [] ltac:(lia)) as E.
  rewrite app_nil_r in E. by rewrite E.
Qed.
