(* ===== verification/Inputs.v ===== *)
(** * The inputs a generated flake declares ([src/src/config/input.rs], [src/src/config/base.rs])

    [inputs.toml] beside a directory-form artifact declares flake inputs; the selected image may carry a flake of its own,
    the base, which the generated flake takes under the image's name.  The TOML parser, [nix eval] and its JSON report are
    answers.  Of an error the condition, the place and the accepted keys are kept; its sentences are not. *)
From S2P Require Import Prelude Bytes Paths Ordered Spec Diagnostic Lifecycle Volumes Toml Artifact.

Definition ROOT_KEYS : list string := ["inputs"]%string.
Definition DECLARATION_KEYS : list string := ["url"; "flake"]%string.
Definition RESERVED_NAMES : list bytes := [bs "nixpkgs"; bs "microvm"].

Record InputDeclarer := mk_InputDeclarer { d_kind : ArtifactKind; d_name : bytes; d_path : bytes }.
Record FlakeInput := mk_FlakeInput { url : bytes; flake : bool; declarers : list InputDeclarer }.
(** A [BTreeMap]: ascending names. *)
Definition inputs_map : Type := list (bytes * FlakeInput).
Record InputError := mk_InputError { ie_condition : string; ie_locus : Locus; ie_accepted : list string }.

Definition listed (name : bytes) (l : list string) : bool := existsb (fun k => bytes_eqb name (bs k)) l.

(** ** One declaration file *)

Section parse.
Context (parse : toml_parser) (source path : bytes).

Definition input_error {A} (offset : option nat) (condition : string) (accepted : list string) : result A InputError :=
  Err (mk_InputError condition (match offset with Some offset => in_source path source offset | None => Diagnostic.File path end) accepted).
Definition wrong_type {A} (v : spanned) : result A InputError := input_error (Some (start v)) "wrong-type" [].
Definition table (v : spanned) : result detable InputError := match snd v with DTable t => Ok t | _ => wrong_type v end.
Definition string_of (v : spanned) : result bytes InputError := match snd v with DString s => Ok s | _ => wrong_type v end.
Definition boolean (v : spanned) : result bool InputError := match snd v with DBoolean b => Ok b | _ => wrong_type v end.
(** The first key outside a closed set, in the order of the table. *)
Definition known_keys (t : detable) (accepted : list string) : result unit InputError :=
  for_each (fun f => if listed (key_name f) accepted then Ok tt else input_error (Some (key_start f)) "unknown-key" accepted) t.

Definition declaration (declarer : InputDeclarer) (f : field_) : result (bytes * FlakeInput) InputError :=
  let name := key_name f in
  let value := snd f in
  if negb (valid_artifact_name name) then input_error (Some (key_start f)) "invalid-value" []
  else if bool_decide (name ∈ RESERVED_NAMES) then input_error (Some (key_start f)) "reserved-input" []
  else
    let? t := table value in
    let? _ := known_keys t DECLARATION_KEYS in
    match entry t "url" with
    | None => input_error (Some (start value)) "missing-key" []
    | Some url_value =>
        let? url := string_of url_value in
        if bool_decide (url = []) then input_error (Some (start url_value)) "invalid-value" []
        else
          let? flake := match entry t "flake" with Some flag => boolean flag | None => Ok true end in
          Ok (name, mk_FlakeInput url flake [declarer])
    end.
Definition parse_inputs (declarer : InputDeclarer) : result inputs_map InputError :=
  match parse source with
  | Err e => input_error (se_span e) "syntax" []
  | Ok root =>
      let? _ := known_keys root ROOT_KEYS in
      match entry root "inputs" with
      | None => Ok []
      | Some inputs_value =>
          let? inputs := table inputs_value in
          fold_err (fun declarations f =>
            let? (name, input) := declaration declarer f in
            Ok (map_insert name input declarations)) inputs []
      end
  end.
End parse.

(** ** The union *)

Definition find_input (name : bytes) (m : inputs_map) : option FlakeInput :=
  option_map snd (List.find (fun e => bytes_eqb (fst e) name) m).
Definition input_conflict (declaration : FlakeInput) : InputError :=
  mk_InputError "input-conflict"
    (Diagnostic.File match declarers declaration with d :: _ => d_path d | [] => [] end) [].
Definition merge_input (union : inputs_map) (e : bytes * FlakeInput) : result inputs_map InputError :=
  let '(name, declaration) := e in
  match find_input name union with
  | Some existing =>
      if bytes_eqb (url existing) (url declaration) && Bool.eqb (flake existing) (flake declaration) then
        Ok (map_insert name (mk_FlakeInput (url existing) (flake existing) (declarers existing ++ declarers declaration)) union)
      else Err (input_conflict declaration)
  | None => Ok (map_insert name declaration union)
  end.
Definition merge_inputs (union declarations : inputs_map) : result inputs_map InputError := fold_err merge_input declarations union.

(** ** The base flake *)

Definition COLLIDING_INPUT_NAMES : list bytes := [bs "self"; bs "nixpkgs"; bs "microvm"].
Record ImageBase := mk_ImageBase { input_name : bytes; flake_path : bytes; declares_nixpkgs : bool; declares_microvm : bool }.
Record ProbeReport := mk_ProbeReport { explicit : list bytes; implicit : list bytes; outputs_is_function : bool }.
(** What running [nix eval] on the file gives: it could not run, it failed, or its standard output. *)
Inductive probe_output := Cannot (k : io_kind) | Failed | Printed (stdout : bytes).

(** The directory an artifact sits in, as [Path::parent] of its file, up to how its separators are spelled. *)
Definition path_text (cs : list Component) : bytes :=
  let text c := match c with RootDir => [] | CurDir => dot | ParentDir => dotdot | Normal name => name end in
  match cs with [RootDir] => [slash] | _ => join_with slash (map text cs) end.
Definition parent_path (p : bytes) : option bytes := option_map path_text (parent p).

Section base.
Context (from_slice : bytes -> option ProbeReport).

Definition interpret_probe (stdout image_name flake_path : bytes) : result (option ImageBase) Failure :=
  match from_slice stdout with
  | None => Err (diagnosed N_Manifest "base-probe" Diagnostic.Software)
  | Some report =>
      if negb (outputs_is_function report) then Err (diagnosed N_Manifest "base-invalid" Diagnostic.Config)
      else
        let declares name := existsb (bytes_eqb name) (explicit report) || existsb (bytes_eqb name) (implicit report) in
        Ok (Some (mk_ImageBase image_name flake_path (declares (bs "nixpkgs")) (declares (bs "microvm"))))
  end.
Definition probe_selected_image (try_exists : bytes -> result bool io_kind) (nix_eval : bytes -> probe_output) (image : ResolvedArtifact) :
    result (option ImageBase) Failure :=
  if negb (bool_decide (ra_form image = Directory)) then Ok None
  else
    match parent_path (ra_path image) with
    | None => Ok None
    | Some directory =>
        let flake_path := join directory (bs "flake.nix") in
        let? exists_ := map_err (fun k => diagnosed N_Manifest "base-inspect" (channel_code k)) (try_exists flake_path) in
        if negb exists_ then Ok None
        else
          match nix_eval flake_path with
          | Cannot k => Err (diagnosed N_Manifest "base-probe" (match k with PermissionDenied => NoPerm | _ => Diagnostic.Unavailable end))
          | Printed stdout => interpret_probe stdout (ra_name image) flake_path
          | Failed => Err (diagnosed N_Manifest "base-syntax" Diagnostic.Config)
          end
    end.
Definition validate_base_collisions (base : ImageBase) (declared : inputs_map) : result unit Failure :=
  if bool_decide (input_name base ∈ COLLIDING_INPUT_NAMES) then Err (diagnosed N_Manifest "image-base-collision" Diagnostic.Config)
  else match find_input (input_name base) declared with
       | Some _ => Err (diagnosed N_Manifest "image-base-collision" Diagnostic.Config)
       | None => Ok tt
       end.
End base.
