(* ===== verification/Flake.v ===== *)
(** * The generated flake: its composition and its plan ([src/src/config/flake.rs])

    [resolve] reads what a manifest composes, [build] turns it into the ordered entries of a tree.  The file system is
    the answers of a host record.  The texts the crate embeds ([OPTIONS_MODULE], [REPORT_MODULE], the product tree that
    [build.rs] lists) are arguments, as are the JSON functions of the lock. *)
From S2P Require Import Prelude Bytes Paths Ordered Spec Diagnostic Lifecycle Volumes Roots Toml Artifact Manifest Json Lock NixText Inputs.

Definition FLAKE_FILE : bytes := bs "flake.nix".
Definition MANIFEST_SOURCE_FILE : bytes := bs "manifest.toml".
Definition MANIFEST_MODULE_FILE : bytes := bs "manifest-leaf.nix".
Definition LOCK_FILE : bytes := bs "flake.lock".
Definition OPTIONS_MODULE_FILE : bytes := bs "vivarium-options.nix".
Definition REPORT_FILE : bytes := bs "vivarium-report.nix".
Definition REPORT_ATTR : bytes := bs "vivariumReport".
Definition EMBEDDED_TREE_DIRECTORY : bytes := bs "vivarium".

Record BaselineInputs := mk_BaselineInputs { nixpkgs : bytes; microvm : bytes }.
Definition default_baseline : BaselineInputs :=
  mk_BaselineInputs (bs "github:NixOS/nixpkgs/nixos-unstable") (bs "github:astro/microvm.nix").
Definition BASELINE_NIXPKGS_VARIABLE : bytes := bs "VIVARIUM_BASELINE_NIXPKGS".
Definition BASELINE_MICROVM_VARIABLE : bytes := bs "VIVARIUM_BASELINE_MICROVM".
Definition from_environment (variable : bytes -> option bytes) : BaselineInputs :=
  let read name :=
    let* value := variable name in
    let* value := to_str value in
    if bool_decide (trim value = []) then None else Some value in
  mk_BaselineInputs (default (nixpkgs default_baseline) (read BASELINE_NIXPKGS_VARIABLE))
                    (default (microvm default_baseline) (read BASELINE_MICROVM_VARIABLE)).

Record GeneratedFlakePaths := mk_GeneratedFlakePaths { gp_directory : bytes; owned_lock : bytes; override_lock : option bytes }.
Inductive EffectiveLock := Override (path : bytes) | OwnedExisting (path : bytes) | OwnedMissing (path : bytes).
#[export] Instance EffectiveLock_eq_dec : EqDecision EffectiveLock.
Proof. solve_decision. Defined.
Definition lock_path (l : EffectiveLock) : bytes := match l with Override p | OwnedExisting p | OwnedMissing p => p end.
Definition may_persist_created (l : EffectiveLock) : bool := match l with OwnedMissing _ => true | _ => false end.
Record ResolvedExtends := mk_ResolvedExtends { re_directory : bytes; relative_target : bytes; manifest_name : bytes }.
Record ResolvedComposition := mk_ResolvedComposition {
  rc_image : ResolvedArtifact; rc_pieces : list ResolvedArtifact; rc_extends : option ResolvedExtends;
  rc_inputs : inputs_map; rc_paths : GeneratedFlakePaths; rc_lock : EffectiveLock }.
Inductive GeneratedEntry :=
| RenderedFile (destination contents : bytes)
| CopiedFile (source destination : bytes)
| CopiedTree (source destination : bytes).
Definition destination (e : GeneratedEntry) : bytes :=
  match e with RenderedFile d _ | CopiedFile _ d | CopiedTree _ d => d end.
Record GeneratedFlakePlan := mk_GeneratedFlakePlan {
  gf_directory : bytes; entries : list GeneratedEntry; gf_lock : EffectiveLock;
  migrated_lock : option bytes; gf_base : option ImageBase }.

(* ------------------------------------------------------------------ *)
(** ** Resolution *)

(** The file system a preparation reads. *)
Record flake_host := mk_flake_host {
  fh_try_exists : bytes -> result bool io_kind;
  fh_read : bytes -> result bytes io_kind;
  fh_canonicalize : bytes -> result bytes io_kind;
  fh_is_file : bytes -> bool;
  fh_nix_eval : bytes -> probe_output }.
Definition config_fault (condition : string) : Failure := diagnosed N_Manifest condition Diagnostic.Config.
Definition internal_fault (condition : string) : Failure := diagnosed N_Internal condition Diagnostic.Software.
Definition io_fault (n : Namespace) (condition : string) (k : io_kind) : Failure := diagnosed n condition (channel_code k).

Section resolve.
Context (toml : toml_parser) (h : flake_host).

Definition resolve_layer (config_root : bytes) (kind : ArtifactKind) (name : bytes) : result ResolvedArtifact Failure :=
  map_err (fun e =>
    match e with
    | InspectArtifact path =>
        match fh_try_exists h path with Err k => io_fault N_Manifest "artifact-resolution" k | Ok _ => config_fault "artifact-resolution" end
    | _ => config_fault "artifact-resolution"
    end) (resolve_artifact (fun p => ok (fh_try_exists h p)) config_root kind name).
Definition decode_inputs (contents : bytes) : result bytes Failure := ok_or (to_str contents) (config_fault "syntax").
Definition input_failure (e : InputError) : Failure := config_fault (ie_condition e).
(** The declarations beside one artifact join the union. *)
Definition artifact_inputs (union : inputs_map) (a : ResolvedArtifact) : result inputs_map Failure :=
  if negb (bool_decide (ra_form a = Directory)) then Ok union
  else
    let? parent := ok_or (parent_path (ra_path a)) (internal_fault "artifact-parent") in
    let path := join parent (bs "inputs.toml") in
    match fh_read h path with
    | Ok contents =>
        let? source := decode_inputs contents in
        let? declarations := map_err input_failure (parse_inputs toml source path (mk_InputDeclarer (ra_kind a) (ra_name a) path)) in
        map_err input_failure (merge_inputs union declarations)
    | Err NotFoundKind => Ok union
    | Err k => Err (io_fault N_Manifest "inputs-read" k)
    end.

(** [Path::extension]. *)
Definition path_extension (p : bytes) : option bytes :=
  let* name := file_name p in
  match rev (split_on "."%byte name) with
  | _ :: [] | [] => None
  | [_; []] => None
  | ext :: _ => Some ext
  end.
Definition invalid_extends : Failure := config_fault "invalid-value".
Definition extends_io_or_invalid (k : io_kind) : Failure :=
  match k with PermissionDenied => io_fault N_Manifest "extends-inspect" k | _ => invalid_extends end.
Definition resolve_extends (selected : ResolvedArtifact) (value : bytes) : result ResolvedExtends Failure :=
  let? directory := ok_or (parent_path (ra_path selected)) invalid_extends in
  let? canonical_directory := map_err extends_io_or_invalid (fh_canonicalize h directory) in
  let? canonical_target := map_err extends_io_or_invalid (fh_canonicalize h (join directory value)) in
  let is_nix := bool_decide (path_extension value = Some (bs "nix")) in
  if negb is_nix || negb (path_starts_with canonical_target canonical_directory) || negb (fh_is_file h canonical_target)
  then Err invalid_extends
  else Ok (mk_ResolvedExtends directory value (ra_name selected)).

Definition validate_component (component : bytes) : result unit Failure :=
  if bool_decide (component = []) || is_absolute component || negb (length (components component) =? 1)%nat ||
     match components component with CurDir :: _ | ParentDir :: _ => true | _ => false end ||
     contains slash component || contains backslash component
  then Err (config_fault "invalid-value") else Ok tt.

Definition target_paths (roots : XdgRoots) (sandbox_id target : bytes) (selected : ResolvedArtifact) : result GeneratedFlakePaths Failure :=
  let? override_lock :=
    match ra_form selected with
    | Directory => let? parent := ok_or (parent_path (ra_path selected)) (internal_fault "manifest-parent") in Ok (Some (join parent LOCK_FILE))
    | Flat => Ok None
    end in
  Ok (mk_GeneratedFlakePaths
        (join (join (join (cache roots) (bs "flakes")) sandbox_id) target)
        (join (join (join (join (data roots) (bs "projects")) sandbox_id) target) LOCK_FILE)
        override_lock).
Definition probe_lock (path : bytes) : result bool Failure := map_err (io_fault N_Lock "inspect") (fh_try_exists h path).
Definition select_lock (p : GeneratedFlakePaths) : result EffectiveLock Failure :=
  let? overridden :=
    match override_lock p with
    | Some path => let? present := probe_lock path in Ok (if present : bool then Some path else None)
    | None => Ok None
    end in
  match overridden with
  | Some path => Ok (Override path)
  | None =>
      let? present := probe_lock (owned_lock p) in
      Ok (if present : bool then OwnedExisting (owned_lock p) else OwnedMissing (owned_lock p))
  end.

Definition resolve (roots : XdgRoots) (sandbox_id target : bytes) (selected : ResolvedArtifact) (manifest : Manifest) :
    result ResolvedComposition Failure :=
  let? _ := validate_component sandbox_id in
  let? _ := validate_component target in
  let? image := resolve_layer (config roots) Image (image manifest) in
  let? pieces := collect_results (resolve_layer (config roots) Piece) (pieces manifest) in
  let? inputs := fold_err artifact_inputs (image :: pieces) [] in
  let? extends :=
    match extends manifest with
    | Some value => let? e := resolve_extends selected value in Ok (Some e)
    | None => Ok None
    end in
  let? paths := target_paths roots sandbox_id target selected in
  let? effective_lock := select_lock paths in
  Ok (mk_ResolvedComposition image pieces extends inputs paths effective_lock).
End resolve.

(* ------------------------------------------------------------------ *)
(** ** Rendering *)

(** [String::from_utf8_lossy], with the replacement character for each maximal ill-formed part. *)
Definition replacement : bytes := [xef; xbf; xbd].
Definition second_of_three (a b : byte) : bool :=
  bool_decide (a = xe0) && in_range 160 191 b || in_range 225 236 a && continues b ||
  bool_decide (a = xed) && in_range 128 159 b || in_range 238 239 a && continues b.
Definition second_of_four (a b : byte) : bool :=
  bool_decide (a = xf0) && in_range 144 191 b || in_range 241 243 a && continues b ||
  bool_decide (a = xf4) && in_range 128 143 b.
Fixpoint to_string_lossy (s : bytes) : bytes :=
  match s with
  | [] => []
  | a :: s1 =>
      if bz a <? 128 then a :: to_string_lossy s1 else
      match s1 with
      | [] => replacement
      | b :: s2 =>
          if in_range 194 223 a && continues b then a :: b :: to_string_lossy s2
          else if second_of_three a b then
            match s2 with
            | [] => replacement
            | c :: s3 => if continues c then a :: b :: c :: to_string_lossy s3 else replacement ++ to_string_lossy s2
            end
          else if second_of_four a b then
            match s2 with
            | [] => replacement
            | c :: s3 =>
                if continues c then
                  match s3 with
                  | [] => replacement
                  | d :: s4 => if continues d then a :: b :: c :: d :: to_string_lossy s4 else replacement ++ to_string_lossy s3
                  end
                else replacement ++ to_string_lossy s2
            end
          else replacement ++ to_string_lossy s1
      end
  end.

(** Literal text of the templates, with a backtick for each double quote and a vertical bar for each line feed. *)
Definition text (s : string) : bytes :=
  map (fun b => if bool_decide (b = "`"%byte) then quote else if bool_decide (b = "|"%byte) then lf else b) (bs s).
Definition quoted (value : bytes) : bytes := quote :: nix_string value ++ [quote].

Definition render_optional_u32 (name : string) (value : option Z) : bytes :=
  match value with Some value => bs " " ++ bs name ++ bs " = " ++ dec value ++ bs ";" | None => [] end.
Definition render_mount (source target : bytes) (readonly : bool) : bytes :=
  text " { source = " ++ quoted source ++ text "; target = " ++ quoted target ++
  text "; readonly = " ++ (if readonly then bs "true" else bs "false") ++ text "; }".
Definition when (c : bool) (b : bytes) : bytes := if c then b else [].
Definition nonempty {A} (l : list A) : bool := match l with [] => false | _ => true end.
(** The [vivarium] attribute set. *)
Definition render_vivarium (m : Manifest) (workspaces : list bytes) : bytes :=
  when (nonempty (env m))
    (text "    env = {" ++
     concat (map (fun '(name, content) => text " " ++ quoted name ++ text " = " ++ quoted content ++ text ";") (env m)) ++
     text " };|") ++
  when (nonempty (mounts m) || nonempty workspaces)
    (text "    mounts = [" ++
     concat (map (fun mount => render_mount (mt_source mount) (mt_target mount) (mt_readonly mount)) (mounts m)) ++
     concat (map (fun workspace => let path := to_string_lossy workspace in render_mount path path false) workspaces) ++
     text " ];|") ++
  match resources m with
  | Some r =>
      when (bool_decide (is_Some (mem_mib r)) || bool_decide (is_Some (vcpu r)))
        (text "    resources = {" ++ render_optional_u32 "mem_mib" (mem_mib r) ++ render_optional_u32 "vcpu" (vcpu r) ++ text " };|")
  | None => []
  end ++
  when (nonempty (volumes m))
    (text "    volumes = [" ++
     concat (map (fun v => text " { name = " ++ quoted (v_name v) ++ text "; mount = " ++ quoted (v_mount v) ++ text ";" ++
                           render_optional_u32 "size_gib" (v_size_gib v) ++ text " }") (volumes m)) ++
     text " ];|") ++
  match volume m with
  | Some v =>
      text "    volume = {" ++ render_optional_u32 "size_gib" (dv_size_gib v) ++
      when (nonempty (persist v))
        (text " persist = [" ++ concat (map (fun path => text " " ++ quoted path) (persist v)) ++ text " ];") ++
      text " };|"
  | None => []
  end.
Definition render_egress (e : Egress) : bytes :=
  text "  sandbox.egress = {" ++
  match mode e with
  | Some mode => text " mode = `" ++ match mode with Open => bs "open" | AllowlistMode => bs "allowlist" end ++ text "`;"
  | None => []
  end ++
  when (nonempty (allow e))
    (text " allow = [" ++ concat (map (fun allowed => text " " ++ quoted allowed) (allow e)) ++ text " ];") ++
  text " };|".
Definition render_manifest_module (m : Manifest) (workspaces : list bytes) : bytes :=
  let vivarium := render_vivarium m workspaces in
  text "{ ... }:|{|" ++
  when (nonempty vivarium) (text "  vivarium = {|" ++ vivarium ++ text "  };|") ++
  match egress m with
  | Some e => render_egress e
  | None => []
  end ++
  text "}|".

(** The [inputs] block. *)
Definition render_own_inputs (baseline : BaselineInputs) : bytes :=
  text "    nixpkgs.url = " ++ quoted (nixpkgs baseline) ++ text ";|" ++
  text "    microvm.url = " ++ quoted (microvm baseline) ++ text ";|" ++
  text "    microvm.inputs.nixpkgs.follows = `nixpkgs`;|".
Definition render_base_inputs (baseline : BaselineInputs) (base : ImageBase) : bytes :=
  text "    " ++ input_name base ++ text ".url = `path:./images/" ++ input_name base ++ text "`;|" ++
  (if declares_nixpkgs base then text "    nixpkgs.follows = `" ++ input_name base ++ text "/nixpkgs`;|"
   else text "    nixpkgs.url = " ++ quoted (nixpkgs baseline) ++ text ";|") ++
  (if declares_microvm base then text "    microvm.follows = `" ++ input_name base ++ text "/microvm`;|"
   else text "    microvm.url = " ++ quoted (microvm baseline) ++ text ";|" ++
        text "    microvm.inputs.nixpkgs.follows = `nixpkgs`;|").
Definition render_input (e : bytes * FlakeInput) : bytes :=
  text "    " ++ fst e ++ text " = { url = " ++ quoted (url (snd e)) ++ text ";" ++
  (if flake (snd e) then [] else text " flake = false;") ++ text " };|".
Definition render_inputs (inputs : inputs_map) (baseline : BaselineInputs) (base : option ImageBase) : bytes :=
  text "  inputs = {|" ++
  match base with Some base => render_base_inputs baseline base | None => render_own_inputs baseline end ++
  concat (map render_input inputs) ++
  text "  };|".

(** The layers. *)
Definition nix_layer (kind : string) (name module : bytes) : bytes :=
  text "{ name = " ++ quoted name ++ text "; kind = `" ++ bs kind ++ text "`; module = " ++ module ++ text "; }".
Definition nix_import (a : ResolvedArtifact) : bytes :=
  match ra_form a with
  | Flat => text "./" ++ library (ra_kind a) ++ text "/" ++ ra_name a ++ text ".nix"
  | Directory => text "./" ++ library (ra_kind a) ++ text "/" ++ ra_name a ++ text "/default.nix"
  end.
Definition extends_module (e : ResolvedExtends) : bytes :=
  text "./manifests/" ++ manifest_name e ++ text "/" ++ to_string_lossy (relative_target e).
Definition layer_line (layer : bytes) : bytes := text "        " ++ layer ++ text "|".
Definition render_layers (selected : ResolvedArtifact) (c : ResolvedComposition) : bytes :=
  layer_line (nix_layer "image" (ra_name (rc_image c)) (nix_import (rc_image c))) ++
  concat (map (fun piece => layer_line (nix_layer "piece" (ra_name piece) (nix_import piece))) (rc_pieces c)) ++
  match rc_extends c with
  | Some e => layer_line (nix_layer "extends" (manifest_name e) (extends_module e))
  | None => []
  end ++
  layer_line (nix_layer "manifest" (ra_name selected) (text "./" ++ MANIFEST_MODULE_FILE)).

Definition render_flake (selected : ResolvedArtifact) (c : ResolvedComposition) (baseline : BaselineInputs) (base : option ImageBase) : bytes :=
  text "{|  description = `vivarium generated project flake`;|" ++
  render_inputs (rc_inputs c) baseline base ++
  text "  outputs = inputs@{ nixpkgs, microvm, ... }:|    let|" ++
  text "      vivariumInputs = builtins.removeAttrs inputs [ `self` `nixpkgs` `microvm` ];|" ++
  text "      product = system: import ./" ++ EMBEDDED_TREE_DIRECTORY ++ text "/nix { inherit nixpkgs microvm system; };|" ++
  text "      layers = [|" ++ render_layers selected c ++ text "      ];|" ++
  text "      modules = system: [ ./" ++ OPTIONS_MODULE_FILE ++ text " (product system).guestModule ]|" ++
  text "        ++ map (layer: layer.module) layers|" ++
  text "        ++ [ microvm.nixosModules.microvm ];|" ++
  text "      build = system: nixpkgs.lib.nixosSystem { inherit system;|" ++
  text "        specialArgs = { inherit vivariumInputs; } // (product system).guestSpecialArgs;|" ++
  text "        modules = modules system; };|" ++
  text "      launch = system: (product system).mkLaunch { inherit ((build system)) config; };|" ++
  text "      report = system: import ./" ++ REPORT_FILE ++ text " {|" ++
  text "        inherit (nixpkgs) lib;|        pkgs = import nixpkgs { inherit system; };|" ++
  text "        inherit vivariumInputs layers;|" ++
  text "        optionsModule = ./" ++ OPTIONS_MODULE_FILE ++ text ";|" ++
  text "        inherit (build system) config;|      };|" ++
  text "    in {|      nixosConfigurations = { x86_64-linux = build `x86_64-linux`; aarch64-linux = build `aarch64-linux`; };|" ++
  text "      " ++ REPORT_ATTR ++ text " = { x86_64-linux = report `x86_64-linux`; aarch64-linux = report `aarch64-linux`; };|" ++
  text "      launchArguments = { x86_64-linux = (launch `x86_64-linux`).launchArguments; aarch64-linux = (launch `aarch64-linux`).launchArguments; };|" ++
  text "      runner = { x86_64-linux = (launch `x86_64-linux`).runner; aarch64-linux = (launch `aarch64-linux`).runner; };|" ++
  text "    };|}|".

(* ------------------------------------------------------------------ *)
(** ** The plan *)

Definition validate_relative (p : bytes) : result unit Failure :=
  if bool_decide (p = []) || is_absolute p ||
     existsb (fun c => match c with ParentDir | RootDir => true | _ => false end) (components p)
  then Err (internal_fault "generated-path") else Ok tt.

Section plan.
Context (from_slice : bytes -> option Value) (to_vec_pretty : Value -> option bytes).
Context (OPTIONS_MODULE REPORT_MODULE : bytes) (EMBEDDED_TREE : list (bytes * bytes)).
Context (h : flake_host).

Definition read_lock (path : bytes) : result bytes Failure := map_err (io_fault N_Lock "read") (fh_read h path).
(** The entry of the lock in force, and the bytes a migration leaves of the owned one. *)
Definition lock_entries (l : EffectiveLock) : result (list GeneratedEntry * option bytes) Failure :=
  match l with
  | Override path =>
      let? contents := read_lock path in
      if carries_vivarium from_slice contents then Err (diagnosed N_Lock "override-carries-vivarium" Diagnostic.Config)
      else Ok ([CopiedFile path LOCK_FILE], None)
  | OwnedExisting path =>
      let? contents := read_lock path in
      Ok match shed_vivarium from_slice to_vec_pretty contents with
         | Some shed => ([RenderedFile LOCK_FILE shed], Some shed)
         | None => ([CopiedFile path LOCK_FILE], None)
         end
  | OwnedMissing _ => Ok ([], None)
  end.
Definition build (roots : XdgRoots) (selected : ResolvedArtifact) (manifest_source : bytes) (manifest : Manifest)
    (workspaces : list bytes) (c : ResolvedComposition) (baseline : BaselineInputs) (base : option ImageBase) :
    result GeneratedFlakePlan Failure :=
  let fixed :=
    [RenderedFile FLAKE_FILE (render_flake selected c baseline base);
     RenderedFile OPTIONS_MODULE_FILE OPTIONS_MODULE;
     RenderedFile REPORT_FILE REPORT_MODULE;
     RenderedFile MANIFEST_MODULE_FILE (render_manifest_module manifest workspaces);
     RenderedFile MANIFEST_SOURCE_FILE manifest_source;
     CopiedTree (join (config roots) (bs "images")) (bs "images");
     CopiedTree (join (config roots) (bs "pieces")) (bs "pieces")] in
  let embedded := map (fun '(relative, contents) => RenderedFile (join EMBEDDED_TREE_DIRECTORY relative) contents) EMBEDDED_TREE in
  let extends :=
    match rc_extends c with
    | Some e => [CopiedTree (re_directory e) (join (bs "manifests") (manifest_name e))]
    | None => []
    end in
  let? (lock, migrated) := lock_entries (rc_lock c) in
  let entries := fixed ++ embedded ++ extends ++ lock in
  let? _ := for_each (fun e => validate_relative (destination e)) entries in
  Ok (mk_GeneratedFlakePlan (gp_directory (rc_paths c)) entries (rc_lock c) migrated base).
End plan.
