(* ===== verification/FlakeSpec.v ===== *)
(** * The generated flake says what was composed

    The rendered texts are read back with the reader of [NixText]: the manifest module defines exactly the options the
    manifest declares, the inputs block and the layers exactly what was composed. *)
From S2P Require Import Prelude Bytes Paths Ordered Spec Diagnostic Lifecycle Volumes Roots Toml Artifact Manifest Json Lock NixText Inputs Flake.

(* ------------------------------------------------------------------ *)
(** ** Texts of expressions, bindings and items *)

Definition says (t : bytes) (e : nix) : Prop := exists ts, writes t ts /\ spells ts e.
Definition lists (t : bytes) (l : list nix) : Prop := exists ts, writes t ts /\ spells_items ts l.
Definition binds (t : bytes) (l : list binding) : Prop := exists ts, writes t ts /\ spells_bindings ts l.

Lemma lists_nil : lists [] [].
Proof. exists []. split; [done|constructor]. Qed.
Lemma binds_nil : binds [] [].
Proof. exists []. split; [done|constructor]. Qed.
Lemma spells_items_app ts l ts' l' : spells_items ts l -> spells_items ts' l' -> spells_items (ts ++ ts') (l ++ l').
Proof. intros H1 H2. induction H1 as [|u e us k He Hk IH]; [done|]. rewrite <- app_assoc. by apply (sp_item u e (us ++ ts') (k ++ l')). Qed.
Lemma spells_bindings_app ts l ts' l' : spells_bindings ts l -> spells_bindings ts' l' -> spells_bindings (ts ++ ts') (l ++ l').
Proof.
  intros H1 H2. induction H1 as [|tp path te e us k Hp He Hk IH]; [done|].
  rewrite <- app_assoc. cbn [app]. rewrite <- app_assoc. cbn [app]. by constructor.
Qed.
Lemma lists_app a l b l' : lists a l -> lists b l' -> lists (a ++ b) (l ++ l').
Proof. intros (ts & Hw & Hs) (ts' & Hw' & Hs'). exists (ts ++ ts'). split; [by apply writes_app|by apply spells_items_app]. Qed.
Lemma binds_app a l b l' : binds a l -> binds b l' -> binds (a ++ b) (l ++ l').
Proof. intros (ts & Hw & Hs) (ts' & Hw' & Hs'). exists (ts ++ ts'). split; [by apply writes_app|by apply spells_bindings_app]. Qed.
Lemma lists_concat {A} (f : A -> bytes) (g : A -> nix) l : Forall (fun x => lists (f x) [g x]) l -> lists (concat (map f l)) (map g l).
Proof. induction 1 as [|x l Hx H IH]; [exact lists_nil|]. cbn [map concat]. exact (lists_app _ [g x] _ _ Hx IH). Qed.
Lemma binds_concat {A} (f : A -> bytes) (g : A -> binding) l : Forall (fun x => binds (f x) [g x]) l -> binds (concat (map f l)) (map g l).
Proof. induction 1 as [|x l Hx H IH]; [exact binds_nil|]. cbn [map concat]. exact (binds_app _ [g x] _ _ Hx IH). Qed.
Lemma binds_when c t l : binds t l -> binds (when c t) (if c then l else []).
Proof. destruct c; [done|]. intros _. exact binds_nil. Qed.

Lemma says_string s : says (quoted s) (N_Str s).
Proof. exists [K_Str s]. split; [apply writes_string|constructor]. Qed.
Lemma says_item t e : says t e -> lists t [e].
Proof. intros (ts & Hw & Hs). exists ts. split; [done|]. rewrite <- (app_nil_r ts). constructor; [done|constructor]. Qed.
Lemma lists_string_item gap s : writes gap [] -> lists (gap ++ quoted s) [N_Str s].
Proof. intros Hg. apply says_item. exists [K_Str s]. split; [exact (writes_app _ [] _ _ Hg (writes_string s))|constructor]. Qed.

(** A binding: its key with the equals sign, its value, and the rest of the text up to the semicolon. *)
Section bind.
Context (tp : list token) (path : list bytes) (Hp : spells_path tp path).
Lemma bind_tokens t te e : writes t (tp ++ sym "=" :: te ++ [sym ";"]) -> spells te e -> binds t [(path, e)].
Proof.
  intros Hw Hs. eexists. split; [exact Hw|].
  exact (sp_binding tp path te e [] [] Hp Hs sp_no_bindings).
Qed.
Lemma bind_value key v e close : writes key (tp ++ [sym "="]) -> says v e -> writes close [sym ";"] -> binds (key ++ v ++ close) [(path, e)].
Proof.
  intros Hk (te & Hv & Hs) Hc. eapply bind_tokens; [|exact Hs].
  replace (tp ++ sym "=" :: te ++ [sym ";"]) with ((tp ++ [sym "="]) ++ te ++ [sym ";"]) by by rewrite <- app_assoc.
  apply writes_app; [done|by apply writes_app].
Qed.
Lemma bind_set key body l close : writes key (tp ++ [sym "="; sym "{"]) -> binds body l -> apart (map fst l) = true ->
  writes close [sym "}"; sym ";"] -> binds (key ++ body ++ close) [(path, N_Set l)].
Proof.
  intros Hk (tb & Hb & Hs) Ha Hc. eapply bind_tokens; [|by apply sp_set].
  replace (tp ++ sym "=" :: (sym "{" :: tb ++ [sym "}"]) ++ [sym ";"]) with ((tp ++ [sym "="; sym "{"]) ++ tb ++ [sym "}"; sym ";"])
    by (rewrite <- app_assoc; cbn [app]; by rewrite <- app_assoc).
  apply writes_app; [done|by apply writes_app].
Qed.
Lemma bind_list key body l close : writes key (tp ++ [sym "="; sym "["]) -> lists body l ->
  writes close [sym "]"; sym ";"] -> binds (key ++ body ++ close) [(path, N_List l)].
Proof.
  intros Hk (tb & Hb & Hs) Hc. eapply bind_tokens; [|by apply sp_list].
  replace (tp ++ sym "=" :: (sym "[" :: tb ++ [sym "]"]) ++ [sym ";"]) with ((tp ++ [sym "="; sym "["]) ++ tb ++ [sym "]"; sym ";"])
    by (rewrite <- app_assoc; cbn [app]; by rewrite <- app_assoc).
  apply writes_app; [done|by apply writes_app].
Qed.
Lemma bind_int key z : writes key (tp ++ [sym "="]) -> 0 <= z < 10 ^ 20 -> binds (key ++ dec z ++ bs ";") [(path, N_Int z)].
Proof.
  intros Hk Hz. destruct (run_dec z Hz) as [Hd Hv]. rewrite <- Hv at 2. eapply bind_tokens; [|apply sp_int].
  replace (tp ++ sym "=" :: [K_Int (dec z)] ++ [sym ";"]) with ((tp ++ [sym "="]) ++ [K_Int (dec z); sym ";"]) by by rewrite <- app_assoc.
  apply writes_app; [done|]. unfold writes. apply (run_then _ _ [] _ _ _ _ Hd). reflexivity.
Qed.
Lemma bind_bool key (b : bool) : writes key (tp ++ [sym "="]) -> binds (key ++ (if b then bs "true" else bs "false") ++ bs ";") [(path, N_Bool b)].
Proof.
  intros Hk. destruct b; (eapply bind_tokens; [|by constructor]);
    (match goal with |- writes _ (tp ++ sym "=" :: ?x) => replace (tp ++ sym "=" :: x) with ((tp ++ [sym "="]) ++ x) by by rewrite <- app_assoc end;
     apply writes_app; [done|]; reflexivity).
Qed.
End bind.
Lemma set_item open body l close : writes open [sym "{"] -> binds body l -> apart (map fst l) = true -> writes close [sym "}"] ->
  says (open ++ body ++ close) (N_Set l).
Proof.
  intros Ho (tb & Hb & Hs) Ha Hc. exists (sym "{" :: tb ++ [sym "}"]). split; [|by apply sp_set].
  exact (writes_app _ [sym "{"] _ _ Ho (writes_app _ _ _ _ Hb Hc)).
Qed.
(** A bare key. *)
Lemma key_path s : keyword (bs s) = false -> spells_path [K_Id (bs s)] [bs s].
Proof. intros H. constructor. cbn. by rewrite H. Qed.

(* ------------------------------------------------------------------ *)
(** ** The manifest module *)

Definition key (s : string) : list bytes := [bs s].
(** The options a manifest defines. *)
Definition u32_option (name : string) (v : option Z) : list binding := match v with Some z => [(key name, N_Int z)] | None => [] end.
Definition mount_value (source target : bytes) (readonly : bool) : nix :=
  N_Set [(key "source", N_Str source); (key "target", N_Str target); (key "readonly", N_Bool readonly)].
Definition volume_value (v : Volume) : nix :=
  N_Set ([(key "name", N_Str (v_name v)); (key "mount", N_Str (v_mount v))] ++ u32_option "size_gib" (v_size_gib v)).
Definition sandbox_options (m : Manifest) (workspaces : list bytes) : list binding :=
  (if nonempty (env m) then [(key "env", N_Set (map (fun '(name, content) => ([name], N_Str content)) (env m)))] else []) ++
  (if nonempty (mounts m) || nonempty workspaces then
     [(key "mounts", N_List (map (fun x => mount_value (mt_source x) (mt_target x) (mt_readonly x)) (mounts m) ++
                             map (fun w => mount_value (to_string_lossy w) (to_string_lossy w) false) workspaces))] else []) ++
  match resources m with
  | Some r =>
      if bool_decide (is_Some (mem_mib r)) || bool_decide (is_Some (vcpu r)) then
        [(key "resources", N_Set (u32_option "mem_mib" (mem_mib r) ++ u32_option "vcpu" (vcpu r)))] else []
  | None => []
  end ++
  (if nonempty (volumes m) then [(key "volumes", N_List (map volume_value (volumes m)))] else []) ++
  match volume m with
  | Some v =>
      [(key "volume", N_Set (u32_option "size_gib" (dv_size_gib v) ++
                             if nonempty (persist v) then [(key "persist", N_List (map N_Str (persist v)))] else []))]
  | None => []
  end.
Definition egress_options (e : Egress) : list binding :=
  match mode e with Some m => [(key "mode", N_Str match m with Open => bs "open" | AllowlistMode => bs "allowlist" end)] | None => [] end ++
  (if nonempty (allow e) then [(key "allow", N_List (map N_Str (allow e)))] else []).
Definition module_of (m : Manifest) (workspaces : list bytes) : list binding :=
  (if nonempty (sandbox_options m workspaces) then [(key "vivarium", N_Set (sandbox_options m workspaces))] else []) ++
  match egress m with Some e => [([bs "sandbox"; bs "egress"], N_Set (egress_options e))] | None => [] end.

(** What an accepted manifest guarantees of the values that are written bare or as keys. *)
Definition u32_ok (v : option Z) : Prop := forall z, v = Some z -> 0 <= z <= u32_max.
Definition writable (m : Manifest) : Prop :=
  NoDup (map fst (env m)) /\
  (forall r, resources m = Some r -> u32_ok (mem_mib r) /\ u32_ok (vcpu r)) /\
  Forall (fun v => u32_ok (v_size_gib v)) (volumes m) /\
  (forall v, volume m = Some v -> u32_ok (dv_size_gib v)).

Lemma bind_u32 name v : keyword (bs name) = false -> writes (bs " " ++ bs name ++ bs " = ") [K_Id (bs name); sym "="] -> u32_ok v ->
  binds (render_optional_u32 name v) (u32_option name v).
Proof.
  intros Hk Hw Hv. destruct v as [z|]; [|exact binds_nil]. cbn [render_optional_u32 u32_option].
  replace (bs " " ++ bs name ++ bs " = " ++ dec z ++ bs ";") with ((bs " " ++ bs name ++ bs " = ") ++ dec z ++ bs ";") by by rewrite <- !app_assoc.
  apply (bind_int _ _ (key_path name Hk) _ _ Hw). specialize (Hv z eq_refl). unfold u32_max in Hv. lia.
Qed.
Lemma mount_says source target readonly : says (render_mount source target readonly) (mount_value source target readonly).
Proof.
  replace (render_mount source target readonly) with
    (text " {" ++ ((text " source = " ++ quoted source ++ text ";") ++ (text " target = " ++ quoted target ++ text ";") ++
                   (text " readonly = " ++ (if readonly then bs "true" else bs "false") ++ bs ";")) ++ text " }")
    by (unfold render_mount; rewrite <- !app_assoc; reflexivity).
  apply set_item; [reflexivity| |reflexivity..].
  apply (binds_app _ [_]); [by apply (bind_value _ _ (key_path "source" eq_refl)); [|apply says_string|]|].
  apply (binds_app _ [_]); [by apply (bind_value _ _ (key_path "target" eq_refl)); [|apply says_string|]|].
  by apply (bind_bool _ _ (key_path "readonly" eq_refl)).
Qed.
Lemma volume_says v : u32_ok (v_size_gib v) ->
  says (text " { name = " ++ quoted (v_name v) ++ text "; mount = " ++ quoted (v_mount v) ++ text ";" ++
        render_optional_u32 "size_gib" (v_size_gib v) ++ text " }") (volume_value v).
Proof.
  intros Hv.
  replace (text " { name = " ++ quoted (v_name v) ++ text "; mount = " ++ quoted (v_mount v) ++ text ";" ++ render_optional_u32 "size_gib" (v_size_gib v) ++ text " }")
    with (text " {" ++ ((text " name = " ++ quoted (v_name v) ++ text ";") ++ (text " mount = " ++ quoted (v_mount v) ++ text ";") ++
                        render_optional_u32 "size_gib" (v_size_gib v)) ++ text " }")
    by (rewrite <- !app_assoc; reflexivity).
  apply set_item; [reflexivity| |by destruct (v_size_gib v)|reflexivity].
  apply (binds_app _ [_]); [by apply (bind_value _ _ (key_path "name" eq_refl)); [|apply says_string|]|].
  apply (binds_app _ [_]); [by apply (bind_value _ _ (key_path "mount" eq_refl)); [|apply says_string|]|].
  by apply bind_u32.
Qed.
Lemma strings_list gap l : writes gap [] -> lists (concat (map (fun s => gap ++ quoted s) l)) (map N_Str l).
Proof. intros Hg. apply lists_concat. rewrite Forall_forall. intros s _. by apply lists_string_item. Qed.
Lemma apart_singles l : NoDup l -> apart (map (fun x : bytes => [x]) l) = true.
Proof.
  induction 1 as [|x l Hx H IH]; [done|]. cbn [map apart]. rewrite IH, andb_true_r. apply forallb_forall. intros q Hq.
  apply list_elem_of_In, list_elem_of_fmap in Hq as (y & -> & Hy). apply negb_true_iff. unfold comparable.
  apply orb_false_iff. rewrite !bool_decide_eq_false. split; intros Hp; apply prefix_cons_inv_1 in Hp; by subst.
Qed.

(** The parts of the [vivarium] set. *)
Lemma env_binds l : NoDup (map fst l) ->
  binds (text "    env = {" ++
         concat (map (fun '(name, content) => text " " ++ quoted name ++ text " = " ++ quoted content ++ text ";") l) ++ text " };|")
        [(key "env", N_Set (map (fun '(name, content) => ([name], N_Str content)) l))].
Proof.
  intros Hn. apply (bind_set _ _ (key_path "env" eq_refl)); [reflexivity| | |reflexivity].
  - apply binds_concat. apply Forall_forall. intros [name content] _.
    replace (text " " ++ quoted name ++ text " = " ++ quoted content ++ text ";")
      with ((text " " ++ quoted name ++ text " =") ++ (text " " ++ quoted content) ++ text ";") by (rewrite <- !app_assoc; reflexivity).
    apply (bind_value [K_Str name] [name]); [by constructor| | |reflexivity].
    + apply (writes_app (text " ") [] (quoted name ++ text " =") [K_Str name; sym "="]); [reflexivity|].
      apply (writes_app _ [K_Str name] _ [sym "="]); [apply writes_string|reflexivity].
    + exists [K_Str content]. split; [|constructor]. apply (writes_app (text " ") [] (quoted content)); [reflexivity|apply writes_string].
  - rewrite map_map. replace (map _ l) with (map (fun x : bytes => [x]) (map fst l)); [by apply apart_singles|].
    rewrite map_map. apply map_ext. by intros [].
Qed.
Lemma mounts_bind ms ws :
  binds (text "    mounts = [" ++ concat (map (fun mount => render_mount (mt_source mount) (mt_target mount) (mt_readonly mount)) ms) ++
         concat (map (fun w => let path := to_string_lossy w in render_mount path path false) ws) ++ text " ];|")
        [(key "mounts", N_List (map (fun x => mount_value (mt_source x) (mt_target x) (mt_readonly x)) ms ++
                                map (fun w => mount_value (to_string_lossy w) (to_string_lossy w) false) ws))].
Proof.
  rewrite (app_assoc (concat (map _ ms))). apply (bind_list _ _ (key_path "mounts" eq_refl)); [reflexivity| |reflexivity].
  apply lists_app; apply lists_concat, Forall_forall; intros x _; apply says_item, mount_says.
Qed.
Lemma resources_bind r : u32_ok (mem_mib r) -> u32_ok (vcpu r) ->
  binds (text "    resources = {" ++ render_optional_u32 "mem_mib" (mem_mib r) ++ render_optional_u32 "vcpu" (vcpu r) ++ text " };|")
        [(key "resources", N_Set (u32_option "mem_mib" (mem_mib r) ++ u32_option "vcpu" (vcpu r)))].
Proof.
  intros Hm Hv. rewrite (app_assoc (render_optional_u32 _ _)). apply (bind_set _ _ (key_path "resources" eq_refl)); [reflexivity| | |reflexivity].
  - by apply binds_app; apply bind_u32.
  - by destruct (mem_mib r), (vcpu r).
Qed.
Lemma volumes_bind vs : Forall (fun v => u32_ok (v_size_gib v)) vs ->
  binds (text "    volumes = [" ++
         concat (map (fun v => text " { name = " ++ quoted (v_name v) ++ text "; mount = " ++ quoted (v_mount v) ++ text ";" ++
                               render_optional_u32 "size_gib" (v_size_gib v) ++ text " }") vs) ++ text " ];|")
        [(key "volumes", N_List (map volume_value vs))].
Proof.
  intros H. apply (bind_list _ _ (key_path "volumes" eq_refl)); [reflexivity| |reflexivity].
  apply lists_concat. eapply Forall_impl; [exact H|]. intros v Hv. by apply says_item, volume_says.
Qed.
Lemma strings_bind name head tail l : keyword (bs name) = false -> writes head [K_Id (bs name); sym "="; sym "["] -> writes tail [sym "]"; sym ";"] ->
  binds (head ++ concat (map (fun s => text " " ++ quoted s) l) ++ tail) [(key name, N_List (map N_Str l))].
Proof. intros Hk Hh Ht. by apply (bind_list _ _ (key_path name Hk)); [|apply strings_list|]. Qed.
Lemma volume_binds v : u32_ok (dv_size_gib v) ->
  binds (text "    volume = {" ++ render_optional_u32 "size_gib" (dv_size_gib v) ++
         when (nonempty (persist v)) (text " persist = [" ++ concat (map (fun path => text " " ++ quoted path) (persist v)) ++ text " ];") ++ text " };|")
        [(key "volume", N_Set (u32_option "size_gib" (dv_size_gib v) ++
                               if nonempty (persist v) then [(key "persist", N_List (map N_Str (persist v)))] else []))].
Proof.
  intros Hv. rewrite (app_assoc (render_optional_u32 _ _)). apply (bind_set _ _ (key_path "volume" eq_refl)); [reflexivity| | |reflexivity].
  - apply binds_app; [by apply bind_u32|]. apply binds_when. by apply (strings_bind "persist").
  - by destruct (dv_size_gib v), (nonempty (persist v)).
Qed.
Lemma egress_binds e : binds (render_egress e) [([bs "sandbox"; bs "egress"], N_Set (egress_options e))].
Proof.
  unfold render_egress. rewrite (app_assoc (match mode e with Some _ => _ | None => _ end)).
  apply (bind_set [K_Id (bs "sandbox"); K_Dots 1; K_Id (bs "egress")]);
    [apply sp_dot; [reflexivity|by constructor]|reflexivity| | |reflexivity].
  - apply binds_app; [|apply binds_when; by apply (strings_bind "allow")].
    destruct (mode e) as [[]|]; [..|exact binds_nil]; (eapply (bind_tokens _ _ (key_path "mode" eq_refl)); [|constructor]; reflexivity).
  - unfold egress_options. by destruct (mode e), (nonempty (allow e)).
Qed.

Lemma vivarium_binds m ws : writable m -> binds (render_vivarium m ws) (sandbox_options m ws).
Proof.
  intros (Henv & Hres & Hvols & Hvol). unfold render_vivarium, sandbox_options.
  apply binds_app; [by apply binds_when, env_binds|]. apply binds_app; [apply binds_when, mounts_bind|].
  apply binds_app.
  { destruct (resources m) as [r|]; [|exact binds_nil]. destruct (Hres r eq_refl). by apply binds_when, resources_bind. }
  apply binds_app; [by apply binds_when, volumes_bind|].
  destruct (volume m) as [v|]; [by apply volume_binds, Hvol|exact binds_nil].
Qed.
Lemma sandbox_apart m ws : apart (map fst (sandbox_options m ws)) = true.
Proof.
  unfold sandbox_options. rewrite !map_app. destruct (nonempty (env m)), (nonempty (mounts m) || nonempty ws), (nonempty (volumes m)), (volume m);
    (destruct (resources m) as [r|]; [destruct (bool_decide (is_Some (mem_mib r)) || bool_decide (is_Some (vcpu r)))|]); reflexivity.
Qed.
(** The set is written exactly when it has a member. *)
Lemma vivarium_nonempty m ws : writable m -> nonempty (render_vivarium m ws) = nonempty (sandbox_options m ws).
Proof.
  intros Hm. destruct (vivarium_binds m ws Hm) as (ts & Hw & Hs). unfold nonempty at 2.
  destruct (sandbox_options m ws) as [|b l] eqn:E.
  - unfold sandbox_options in E. apply app_eq_nil in E as [E1 E]. apply app_eq_nil in E as [E2 E]. apply app_eq_nil in E as [E3 E].
    apply app_eq_nil in E as [E4 E5]. unfold render_vivarium.
    destruct (nonempty (env m)); [done|]. destruct (nonempty (mounts m) || nonempty ws); [done|].
    destruct (nonempty (volumes m)); [done|]. destruct (volume m); [done|].
    destruct (resources m) as [r|]; [|done]. by destruct (bool_decide (is_Some (mem_mib r)) || bool_decide (is_Some (vcpu r))).
  - destruct (render_vivarium m ws); [|done]. injection Hw as <-. inversion Hs as [|? ? ? ? ? ? Hp He]. by destruct tp.
Qed.
Lemma module_binds m ws : writable m ->
  binds (when (nonempty (render_vivarium m ws)) (text "  vivarium = {|" ++ render_vivarium m ws ++ text "  };|") ++
         match egress m with Some e => render_egress e | None => [] end) (module_of m ws).
Proof.
  intros Hm. unfold module_of. apply binds_app; [|destruct (egress m); [apply egress_binds|exact binds_nil]].
  rewrite vivarium_nonempty by done. apply binds_when.
  apply (bind_set _ _ (key_path "vivarium" eq_refl)); [reflexivity|by apply vivarium_binds|apply sandbox_apart|reflexivity].
Qed.

(** C25: Read as Nix, the rendered leaf module defines exactly the options the manifest declares, with exactly its values:
    whatever bytes a value holds it stays one string literal, nothing undeclared is defined, and no attribute is
    defined twice. *)
Theorem module_says_the_manifest m workspaces : writable m ->
  read_module (render_manifest_module m workspaces) = Some (module_of m workspaces).
Proof.
  intros Hm. destruct (module_binds m workspaces Hm) as (tb & Hw & Hs).
  assert (Ha : apart (map fst (module_of m workspaces)) = true).
  { unfold module_of. by destruct (nonempty (sandbox_options m workspaces)), (egress m). }
  assert (Hlex : writes (render_manifest_module m workspaces) (header ++ (sym "{" :: tb ++ [sym "}"]))).
  { unfold render_manifest_module. cbn zeta.
    rewrite (app_assoc (when _ _) (match egress m with Some _ => _ | None => _ end)).
    apply (writes_app (text "{ ... }:|{|") (header ++ [sym "{"]) _ (tb ++ [sym "}"])); [reflexivity|].
    apply (writes_app _ tb (text "}|") [sym "}"]); [exact Hw|reflexivity]. }
  unfold read_module. rewrite (writes_lex _ _ Hlex). cbn [option_bind]. rewrite bool_decide_true by done. cbn [option_bind].
  rewrite (read_tokens_spelled _ (N_Set (module_of m workspaces))) by (by apply sp_set). done.
Qed.

(* ------------------------------------------------------------------ *)
(** ** The union of declared inputs *)

(** What joining the declarations keeps: ascending names, each valid and none the flake's own. *)
Definition declarable (name : bytes) : Prop := valid_artifact_name name = true /\ name ∉ RESERVED_NAMES.
Definition proper (m : inputs_map) : Prop := ascending (map fst m) /\ Forall (fun e => declarable (fst e)) m.

Lemma map_insert_elem {A} k (v : A) l e : e ∈ map_insert k v l -> e = (k, v) \/ e ∈ l.
Proof.
  induction l as [|[k' v'] l IH]; cbn [map_insert]; [intros H%list_elem_of_singleton; by left|].
  destruct (ord_cmp k k'); rewrite !elem_of_cons; tauto.
Qed.
Lemma proper_nil : proper [].
Proof. split; constructor. Qed.
Lemma proper_insert m name input : proper m -> declarable name -> proper (map_insert name input m).
Proof.
  intros [Ha Hf] Hn. split; [rewrite map_insert_keys; by apply set_insert_ascending|].
  rewrite Forall_forall in *. intros e [->|He]%map_insert_elem; [done|by apply Hf].
Qed.
Lemma fold_err_keeps {A S E} (I : S -> Prop) (f : S -> A -> result S E) l s s' :
  (forall s x s', x ∈ l -> I s -> f s x = Ok s' -> I s') -> I s -> fold_err f l s = Ok s' -> I s'.
Proof.
  revert s. induction l as [|x l IH]; intros s Hf Hs; cbn [fold_err]; [by intros [= <-]|].
  intros (s1 & Hx & H)%rbind_ok. eapply (IH s1); [intros; eapply Hf; [by right|done..]|eapply Hf; [left|done..]|done].
Qed.
Lemma declaration_declares source path d f name input : declaration source path d f = Ok (name, input) -> name = key_name f /\ declarable name.
Proof.
  unfold declaration. destruct (valid_artifact_name (key_name f)) eqn:Ev; cbn [negb]; [|done].
  case_bool_decide as Hr; [done|]. intros (t & _ & H)%rbind_ok. apply rbind_ok in H as (_ & _ & H).
  destruct (entry t "url"); [|done]. apply rbind_ok in H as (u & _ & H). case_bool_decide; [done|].
  apply rbind_ok in H as (fl & _ & H). by injection H as <- <-.
Qed.
Lemma parse_inputs_proper toml source path d m : parse_inputs toml source path d = Ok m -> proper m.
Proof.
  unfold parse_inputs. destruct (toml source) as [root|]; [|done]. intros (_ & _ & H)%rbind_ok.
  destruct (entry root "inputs"); [|injection H as <-; apply proper_nil]. apply rbind_ok in H as (t & _ & H).
  eapply (fold_err_keeps proper); [|apply proper_nil|exact H]. intros u f u' _ Hs ([name input] & Hd & [= <-])%rbind_ok.
  apply proper_insert; [done|]. by eapply declaration_declares.
Qed.
Lemma merge_inputs_proper u d m : proper u -> proper d -> merge_inputs u d = Ok m -> proper m.
Proof.
  intros Hu [_ Hd] H. eapply (fold_err_keeps proper); [|exact Hu|exact H]. intros s [name decl] s' Hx Hs E.
  rewrite Forall_forall in Hd. pose proof (Hd _ Hx) as Hn. cbn [fst] in Hn. unfold merge_input in E.
  destruct (find_input name s) as [existing|]; [|injection E as <-; by apply proper_insert].
  destruct (_ && _); [|done]. injection E as <-. by apply proper_insert.
Qed.
Lemma resolved_inputs_proper toml h roots id target selected manifest c :
  resolve toml h roots id target selected manifest = Ok c -> proper (rc_inputs c).
Proof.
  unfold resolve. intros (_ & _ & H)%rbind_ok. apply rbind_ok in H as (_ & _ & H). apply rbind_ok in H as (im & _ & H).
  apply rbind_ok in H as (ps & _ & H). apply rbind_ok in H as (inputs & Hi & H). apply rbind_ok in H as (ext & _ & H).
  apply rbind_ok in H as (paths & _ & H). apply rbind_ok in H as (lock & _ & H). injection H as <-. cbn [rc_inputs].
  eapply (fold_err_keeps proper); [|apply proper_nil|exact Hi]. intros s a s' _ Hs E. unfold artifact_inputs in E.
  destruct (negb _); [by injection E as <-|]. apply rbind_ok in E as (parent & _ & E).
  destruct (fh_read h _) as [contents|[]]; [|by injection E as <-|done..].
  apply rbind_ok in E as (source & _ & E). apply rbind_ok in E as (d & Hd & E). apply map_err_ok in Hd, E.
  eapply merge_inputs_proper; [exact Hs| |exact E]. by eapply parse_inputs_proper.
Qed.

(* ------------------------------------------------------------------ *)
(** ** The inputs block *)

Definition own_inputs (baseline : BaselineInputs) : list binding :=
  [([bs "nixpkgs"; bs "url"], N_Str (nixpkgs baseline)); ([bs "microvm"; bs "url"], N_Str (microvm baseline));
   ([bs "microvm"; bs "inputs"; bs "nixpkgs"; bs "follows"], N_Str (bs "nixpkgs"))].
Definition base_inputs (baseline : BaselineInputs) (base : ImageBase) : list binding :=
  let name := input_name base in
  [([name; bs "url"], N_Str (bs "path:./images/" ++ name))] ++
  (if declares_nixpkgs base then [([bs "nixpkgs"; bs "follows"], N_Str (name ++ bs "/nixpkgs"))]
   else [([bs "nixpkgs"; bs "url"], N_Str (nixpkgs baseline))]) ++
  (if declares_microvm base then [([bs "microvm"; bs "follows"], N_Str (name ++ bs "/microvm"))]
   else [([bs "microvm"; bs "url"], N_Str (microvm baseline));
         ([bs "microvm"; bs "inputs"; bs "nixpkgs"; bs "follows"], N_Str (bs "nixpkgs"))]).
Definition input_value (i : FlakeInput) : nix :=
  N_Set ([(key "url", N_Str (url i))] ++ if flake i then [] else [(key "flake", N_Bool false)]).
Definition inputs_of (inputs : inputs_map) (baseline : BaselineInputs) (base : option ImageBase) : list binding :=
  match base with Some base => base_inputs baseline base | None => own_inputs baseline end ++
  map (fun e => ([fst e], input_value (snd e))) inputs.

Definition plain_byte (b : byte) : bool := negb (bool_decide (b ∈ [backslash; quote; lf; cr; "$"%byte])).
Lemma escaped_plain s : forallb plain_byte s = true -> nix_string s = s.
Proof.
  rewrite nix_string_escaped. induction s as [|b s IH]; [done|]. cbn [forallb escaped]. intros [Hb Hs]%andb_true_iff.
  unfold plain_byte in Hb. apply negb_true_iff, bool_decide_eq_false in Hb. rewrite !elem_of_cons in Hb.
  rewrite !bool_decide_false by tauto. cbn [andb]. by rewrite IH.
Qed.
Lemma valid_name_bytes (P : byte -> bool) name : (forall b, valid_edge b || bool_decide (b = "-"%byte) = true -> P b = true) ->
  valid_artifact_name name = true -> forallb P name = true.
Proof.
  intros HP. unfold valid_artifact_name. rewrite !andb_true_iff. intros [_ H]. rewrite forallb_forall in *. intros b Hb. by apply HP, H.
Qed.
Lemma valid_name_plain_bytes name : valid_artifact_name name = true -> forallb plain_byte name = true.
Proof. apply valid_name_bytes. intros b. by destruct b. Qed.
(** A string literal written without the escape. *)
Lemma says_plain s : forallb plain_byte s = true -> says (quote :: s ++ [quote]) (N_Str s).
Proof. intros H. rewrite <- (escaped_plain s H) at 1. apply says_string. Qed.

Lemma identifier_key name : identifier name = true -> keyword name = false /\ run M_Free name = Some ([], M_Id name).
Proof.
  intros H. split; [|by apply run_identifier]. unfold identifier in H. apply andb_true_iff in H as [_ H]. by apply negb_true_iff in H.
Qed.
Lemma bare_path name : identifier name = true -> spells_path [K_Id name] [name].
Proof. intros [Hk _]%identifier_key. constructor. cbn. by rewrite Hk. Qed.
Lemma dotted_path name : identifier name = true -> spells_path [K_Id name; K_Dots 1; K_Id (bs "url")] [name; bs "url"].
Proof. intros [Hk _]%identifier_key. apply sp_dot; [cbn; by rewrite Hk|by apply (key_path "url")]. Qed.
(** What may follow an identifier. *)
Lemma writes_identifier gap name rest ts : identifier name = true -> writes gap [] -> run (M_Id name) rest = Some (ts, M_Free) ->
  writes (gap ++ name ++ rest) ts.
Proof.
  intros [_ Hr]%identifier_key Hg Hrest. apply (writes_app gap [] _ _ Hg). unfold writes. exact (run_then _ _ [] _ _ _ _ Hr Hrest).
Qed.

Lemma input_binds e : identifier (fst e) = true -> binds (render_input e) [([fst e], input_value (snd e))].
Proof.
  destruct e as [name i]. cbn [fst snd]. intros Hn. unfold render_input. cbn [fst snd].
  replace (text "    " ++ name ++ text " = { url = " ++ quoted (url i) ++ text ";" ++ (if flake i then [] else text " flake = false;") ++ text " };|")
    with ((text "    " ++ name ++ text " = {") ++ ((text " url = " ++ quoted (url i) ++ text ";") ++ (if flake i then [] else text " flake = false;")) ++ text " };|")
    by (rewrite <- !app_assoc; reflexivity).
  apply (bind_set [K_Id name] [name] (bare_path _ Hn)); [by apply writes_identifier| | |reflexivity].
  - apply (binds_app _ [_]); [by apply (bind_value _ _ (key_path "url" eq_refl)); [|apply says_string|]|].
    destruct (flake i); [exact binds_nil|]. exact (bind_bool _ _ (key_path "flake" eq_refl) (text " flake = ") false eq_refl).
  - by destruct (flake i).
Qed.
Lemma url_binds tp path head s : spells_path tp path -> writes head (tp ++ [sym "="]) -> binds (head ++ quoted s ++ text ";|") [(path, N_Str s)].
Proof. intros Hp Hh. by apply (bind_value _ _ Hp); [|apply says_string|]. Qed.
Ltac dotted := repeat first [apply sp_dot; [reflexivity|] | by constructor].
Lemma own_microvm_binds baseline :
  binds (text "    microvm.url = " ++ quoted (microvm baseline) ++ text ";|" ++ text "    microvm.inputs.nixpkgs.follows = `nixpkgs`;|")
        [([bs "microvm"; bs "url"], N_Str (microvm baseline)); ([bs "microvm"; bs "inputs"; bs "nixpkgs"; bs "follows"], N_Str (bs "nixpkgs"))].
Proof.
  rewrite (app_assoc (quoted _)), (app_assoc (text "    microvm.url = ")). apply (binds_app _ [_]).
  - apply (url_binds [K_Id (bs "microvm"); K_Dots 1; K_Id (bs "url")]); [dotted|reflexivity].
  - eapply (bind_tokens [K_Id (bs "microvm"); K_Dots 1; K_Id (bs "inputs"); K_Dots 1; K_Id (bs "nixpkgs"); K_Dots 1; K_Id (bs "follows")]);
      [dotted| |constructor]. reflexivity.
Qed.
Lemma own_nixpkgs_binds baseline : binds (text "    nixpkgs.url = " ++ quoted (nixpkgs baseline) ++ text ";|") [([bs "nixpkgs"; bs "url"], N_Str (nixpkgs baseline))].
Proof. apply (url_binds [K_Id (bs "nixpkgs"); K_Dots 1; K_Id (bs "url")]); [dotted|reflexivity]. Qed.
Lemma own_binds baseline : binds (render_own_inputs baseline) (own_inputs baseline).
Proof.
  unfold render_own_inputs, own_inputs. rewrite (app_assoc (quoted (nixpkgs _))), (app_assoc (text "    nixpkgs.url = ")).
  apply (binds_app _ [_]); [apply own_nixpkgs_binds|apply own_microvm_binds].
Qed.
Lemma follows_binds tp path head name tail : spells_path tp path -> writes head (tp ++ [sym "="]) ->
  forallb plain_byte (name ++ tail) = true ->
  binds (head ++ quote :: name ++ tail ++ quote :: text ";|") [(path, N_Str (name ++ tail))].
Proof.
  intros Hp Hh Hn. replace (quote :: name ++ tail ++ quote :: text ";|") with ((quote :: (name ++ tail) ++ [quote]) ++ text ";|")
    by (cbn [app]; by rewrite <- !app_assoc).
  by apply (bind_value _ _ Hp); [|apply says_plain|].
Qed.
Lemma base_binds baseline base : valid_artifact_name (input_name base) = true -> identifier (input_name base) = true ->
  binds (render_base_inputs baseline base) (base_inputs baseline base).
Proof.
  intros Hv Hi. pose proof (valid_name_plain_bytes _ Hv) as Hu. unfold render_base_inputs, base_inputs. cbn zeta.
  set (name := input_name base) in *.
  assert (E : forall rest, text "    " ++ name ++ text ".url = `path:./images/" ++ name ++ text "`;|" ++ rest =
                           ((text "    " ++ name ++ text ".url = ") ++ quote :: bs "path:./images/" ++ name ++ quote :: text ";|") ++ rest).
  { intros rest. repeat first [rewrite <- app_assoc | progress cbn [app]]. reflexivity. }
  rewrite E. clear E.
  apply (binds_app _ [_]).
  { apply (follows_binds _ _ _ (bs "path:./images/") name (dotted_path _ Hi)).
    - by apply writes_identifier.
    - rewrite forallb_app. by rewrite Hu. }
  apply binds_app.
  - destruct (declares_nixpkgs base); [|apply own_nixpkgs_binds].
    apply (follows_binds [K_Id (bs "nixpkgs"); K_Dots 1; K_Id (bs "follows")] _ (text "    nixpkgs.follows = ") name (bs "/nixpkgs"));
      [dotted|reflexivity|rewrite forallb_app; by rewrite Hu].
  - destruct (declares_microvm base); [|apply own_microvm_binds].
    apply (follows_binds [K_Id (bs "microvm"); K_Dots 1; K_Id (bs "follows")] _ (text "    microvm.follows = ") name (bs "/microvm"));
      [dotted|reflexivity|rewrite forallb_app; by rewrite Hu].
Qed.

(** No two definitions of the block meet. *)
Lemma apart_app a b : apart (a ++ b) = true <->
  apart a = true /\ apart b = true /\ (forall p q, p ∈ a -> q ∈ b -> comparable p q = false).
Proof.
  induction a as [|p a IH]; cbn [app apart].
  { split; [intros H; split; [done|]; split; [done|]; intros p q Hp; by apply elem_of_nil in Hp|by intros (_ & H & _)]. }
  rewrite forallb_app, !andb_true_iff, IH, !forallb_forall. split.
  - intros [[Ha Hb] (H1 & H2 & H3)]. split; [done|]. split; [done|]. intros x q [->|Hx]%elem_of_cons Hq; [|by apply H3].
    apply negb_true_iff, Hb. by apply list_elem_of_In.
  - intros [[Ha H1] (H2 & H3)]. split; [split; [done|]|split; [done|split; [done|]]].
    + intros q Hq. apply negb_true_iff, H3; [left|by apply list_elem_of_In].
    + intros x q Hx Hq. apply H3; [by right|done].
Qed.
Lemma comparable_heads x y p q : x <> y -> comparable (x :: p) (y :: q) = false.
Proof. intros H. unfold comparable. apply orb_false_iff. rewrite !bool_decide_eq_false. split; intros E; apply prefix_cons_inv_1 in E; by subst. Qed.
Definition collides (base : ImageBase) (inputs : inputs_map) : Prop :=
  input_name base ∈ COLLIDING_INPUT_NAMES \/ input_name base ∈ map fst inputs.
Lemma validated_base base inputs : validate_base_collisions base inputs = Ok tt -> ~ collides base inputs.
Proof.
  unfold validate_base_collisions, collides. case_bool_decide as Hc; [done|]. destruct (find_input _ _) eqn:E; [done|]. intros _ [H|H]; [done|].
  apply list_elem_of_fmap in H as (e & Hn & He). unfold find_input in E. destruct (List.find _ inputs) eqn:Ef; [done|].
  apply list_elem_of_In in He. pose proof (List.find_none _ _ Ef e He) as Hx. cbn beta in Hx. rewrite Hn in Hx. by rewrite (proj2 (bytes_eqb_true _ _)) in Hx.
Qed.
Lemma head_of_base baseline base p : p ∈ map fst (match base with Some base => base_inputs baseline base | None => own_inputs baseline end) ->
  exists x rest, p = x :: rest /\ (x ∈ RESERVED_NAMES \/ exists b, base = Some b /\ x = input_name b).
Proof.
  assert (Hn : bs "nixpkgs" ∈ RESERVED_NAMES) by left. assert (Hm : bs "microvm" ∈ RESERVED_NAMES) by (right; left).
  destruct base as [base|]; [|cbn; rewrite !elem_of_cons, elem_of_nil; intros [->|[->|[->|[]]]]; eexists _, _; eauto].
  unfold base_inputs. destruct (declares_nixpkgs base), (declares_microvm base); cbn; rewrite !elem_of_cons, elem_of_nil;
    intros H; repeat destruct H as [->|H]; try done; eexists _, _; eauto 6.
Qed.
Lemma inputs_apart inputs baseline base : proper inputs -> (forall b, base = Some b -> ~ collides b inputs) ->
  apart (map fst (inputs_of inputs baseline base)) = true.
Proof.
  intros [Ha Hf] Hb. unfold inputs_of. rewrite map_app. apply apart_app. split; [|split].
  - destruct base as [base|]; [|reflexivity]. specialize (Hb base eq_refl). unfold collides, COLLIDING_INPUT_NAMES in Hb.
    rewrite !elem_of_cons in Hb. unfold base_inputs.
    assert (H1 : input_name base <> bs "nixpkgs") by tauto. assert (H2 : input_name base <> bs "microvm") by tauto.
    destruct (declares_nixpkgs base), (declares_microvm base); cbn [map fst app apart forallb andb]; rewrite !comparable_heads by done; reflexivity.
  - rewrite map_map. replace (map _ inputs) with (map (fun x : bytes => [x]) (map fst inputs)) by by rewrite map_map.
    by apply apart_singles, ascending_NoDup.
  - intros p q Hp Hq. destruct (head_of_base _ _ _ Hp) as (x & rest & -> & Hx). rewrite map_map in Hq.
    apply list_elem_of_fmap in Hq as (e & -> & He). cbn [fst]. apply comparable_heads. intros ->.
    destruct Hx as [Hx|(b & -> & Hx)].
    + rewrite Forall_forall in Hf. by destruct (Hf _ He).
    + apply (Hb b eq_refl). right. rewrite <- Hx. apply list_elem_of_fmap. by exists e.
Qed.

(** Read as Nix, the block of a resolved composition defines the two baselines - its own references, or followed out of
    the base - the base, and each declared input with the reference and the kind its artifacts gave it, and no two of
    the definitions meet; provided the names are identifiers, which the artifact grammar alone does not make them. *)
Theorem inputs_block_says_the_composition toml h roots id target selected manifest c baseline base :
  resolve toml h roots id target selected manifest = Ok c ->
  (forall b, base = Some b -> valid_artifact_name (input_name b) = true /\ validate_base_collisions b (rc_inputs c) = Ok tt) ->
  (forall name, name ∈ map fst (rc_inputs c) \/ (exists b, base = Some b /\ name = input_name b) -> identifier name = true) ->
  read_expression (bs "{" ++ render_inputs (rc_inputs c) baseline base ++ bs "}") =
    Some (N_Set [([bs "inputs"], N_Set (inputs_of (rc_inputs c) baseline base))]).
Proof.
  intros Hr Hb Hi. pose proof (resolved_inputs_proper _ _ _ _ _ _ _ _ Hr) as Hp.
  assert (Hblock : binds (render_inputs (rc_inputs c) baseline base) [([bs "inputs"], N_Set (inputs_of (rc_inputs c) baseline base))]).
  { unfold render_inputs. rewrite (app_assoc (match base with Some _ => _ | None => _ end)).
    apply (bind_set _ _ (key_path "inputs" eq_refl)); [reflexivity| | |reflexivity].
    - apply binds_app.
      + destruct base as [b|]; [|apply own_binds]. apply base_binds; [by apply (Hb b)|]. apply Hi. right. by exists b.
      + apply binds_concat, Forall_forall. intros e He. apply input_binds, Hi. left. apply list_elem_of_fmap. by exists e.
    - apply inputs_apart; [done|]. intros b ->. by apply validated_base, (Hb b). }
  destruct (set_item (bs "{") _ _ (bs "}") eq_refl Hblock eq_refl eq_refl) as (ts & Hw & Hs).
  unfold read_expression. rewrite (writes_lex _ _ Hw). cbn. by apply read_tokens_spelled.
Qed.

(* ------------------------------------------------------------------ *)
(** ** The layers *)

Definition import_path (a : ResolvedArtifact) : list bytes :=
  match ra_form a with
  | Flat => [library (ra_kind a); ra_name a ++ bs ".nix"]
  | Directory => [library (ra_kind a); ra_name a; bs "default.nix"]
  end.
Definition relative (segments : list bytes) : bytes := bs "./" ++ join_with slash segments.
Definition layer_value (kind : string) (name module : bytes) : nix :=
  N_Set [(key "name", N_Str name); (key "kind", N_Str (bs kind)); (key "module", N_Path module)].
Definition layers_of (selected : ResolvedArtifact) (c : ResolvedComposition) : list nix :=
  [layer_value "image" (ra_name (rc_image c)) (nix_import (rc_image c))] ++
  map (fun p => layer_value "piece" (ra_name p) (nix_import p)) (rc_pieces c) ++
  match rc_extends c with Some e => [layer_value "extends" (manifest_name e) (extends_module e)] | None => [] end ++
  [layer_value "manifest" (ra_name selected) (bs "./" ++ MANIFEST_MODULE_FILE)].

Lemma bind_relative tp path head segments : spells_path tp path -> writes head (tp ++ [sym "="]) -> segments <> [] ->
  Forall (fun s => path_segment s = true) segments ->
  binds (head ++ relative segments ++ bs ";") [(path, N_Path (relative segments))].
Proof.
  intros Hp Hh Hne Hs. destruct (run_segments segments (bs "./") Hne Hs) as [Hr Hl].
  eapply (bind_tokens _ _ Hp); [|constructor].
  replace (tp ++ sym "=" :: [K_Path (relative segments)] ++ [sym ";"]) with ((tp ++ [sym "="]) ++ [K_Path (relative segments); sym ";"]) by by rewrite <- app_assoc.
  apply writes_app; [done|]. unfold writes, relative. rewrite <- app_assoc. apply (run_then _ _ [] (M_Path (bs "./"))); [reflexivity|].
  apply (run_then _ _ [] _ _ _ _ Hr).
  change (bs ";") with [";"%byte]. cbn [run step]. change (path_char ";"%byte) with false. change (bool_decide (";"%byte = "/"%byte)) with false.
  change (bool_decide (";"%byte = "$"%byte)) with false. cbv iota. unfold after. cbn [flush].
  rewrite bool_decide_false by exact Hl. reflexivity.
Qed.
Lemma layer_says kind name segments : forallb plain_byte (bs kind) = true -> segments <> [] -> Forall (fun s => path_segment s = true) segments ->
  lists (layer_line (nix_layer kind name (relative segments))) [layer_value kind name (relative segments)].
Proof.
  intros Hk Hne Hs. unfold layer_line, nix_layer.
  assert (E : text "        " ++ (text "{ name = " ++ quoted name ++ text "; kind = `" ++ bs kind ++ text "`; module = " ++ relative segments ++ text "; }") ++ text "|" =
    text "        {" ++ ((text " name = " ++ quoted name ++ text ";") ++ (text " kind = " ++ (quote :: bs kind ++ [quote]) ++ text ";") ++
                         (text " module = " ++ relative segments ++ bs ";")) ++ text " }|").
  { rewrite <- !app_assoc. cbn [app]. rewrite <- !app_assoc. reflexivity. }
  rewrite E. clear E. apply says_item, set_item; [reflexivity| |reflexivity..].
  apply (binds_app _ [_]); [by apply (bind_value _ _ (key_path "name" eq_refl)); [|apply says_string|]|].
  apply (binds_app _ [_]); [by apply (bind_value _ _ (key_path "kind" eq_refl)); [|apply says_plain|]|].
  by apply (bind_relative _ _ _ _ (key_path "module" eq_refl)).
Qed.
Lemma valid_name_segment name tail : valid_artifact_name name = true -> forallb path_char tail = true -> path_segment (name ++ tail) = true.
Proof.
  intros Hv Ht. unfold path_segment. rewrite forallb_app, Ht, andb_true_r. apply andb_true_iff. split.
  - apply negb_true_iff, bool_decide_eq_false. intros [-> _]%app_eq_nil. discriminate Hv.
  - eapply valid_name_bytes; [|exact Hv]. intros b. by destruct b.
Qed.
Lemma import_relative a : valid_artifact_name (ra_name a) = true ->
  nix_import a = relative (import_path a) /\ Forall (fun s => path_segment s = true) (import_path a) /\ import_path a <> [].
Proof.
  intros Hv. pose proof (valid_name_segment (ra_name a) [] Hv eq_refl) as H1. rewrite app_nil_r in H1.
  pose proof (valid_name_segment (ra_name a) (bs ".nix") Hv eq_refl) as H2.
  unfold nix_import, import_path, relative. destruct (ra_form a), (ra_kind a); cbn [join_with library]; repeat split; try done; repeat constructor; try done.
Qed.
Lemma resolved_layers toml h roots id target selected manifest c : resolve toml h roots id target selected manifest = Ok c ->
  valid_artifact_name (ra_name (rc_image c)) = true /\ Forall (fun p => valid_artifact_name (ra_name p) = true) (rc_pieces c) /\
  (forall e, rc_extends c = Some e -> manifest_name e = ra_name selected /\ extends manifest = Some (relative_target e)).
Proof.
  unfold resolve. intros (_ & _ & H)%rbind_ok. apply rbind_ok in H as (_ & _ & H). apply rbind_ok in H as (im & Him & H).
  apply rbind_ok in H as (ps & Hps & H). apply rbind_ok in H as (inputs & _ & H). apply rbind_ok in H as (ext & He & H).
  apply rbind_ok in H as (paths & _ & H). apply rbind_ok in H as (lock & _ & H). injection H as <-. cbn [rc_image rc_pieces rc_extends].
  assert (Hl : forall kind name a, resolve_layer h (config roots) kind name = Ok a -> valid_artifact_name (ra_name a) = true).
  { unfold resolve_layer. intros kind name a (Hv & Hsel & _)%map_err_ok%resolve_artifact_ok. by rewrite Hsel. }
  split; [by eapply Hl|]. split.
  - apply collect_results_ok in Hps. clear - Hps Hl. induction Hps; constructor; [by eapply Hl|done].
  - intros e ->. destruct (extends manifest) as [v|]; [|done]. apply rbind_ok in He as (e' & He & [= <-]). unfold resolve_extends in He.
    apply rbind_ok in He as (d & _ & He). apply rbind_ok in He as (cd & _ & He). apply rbind_ok in He as (ct & _ & He).
    destruct (_ || _); [done|]. by injection He as <-.
Qed.
(** A relative file whose segments need no quoting in a path literal. *)
Definition bare_path_text (p : bytes) : Prop :=
  exists segments, p = join_with slash segments /\ segments <> [] /\ Forall (fun s => path_segment s = true) segments.

(** Read as Nix, the layers are the image, the pieces in their order, the extension and the manifest itself, each with
    its kind and the file of its own library; provided the extension's file is one a bare path can name. *)
Theorem layers_say_the_composition toml h roots id target selected manifest c :
  resolve toml h roots id target selected manifest = Ok c -> valid_artifact_name (ra_name selected) = true ->
  (forall e, rc_extends c = Some e -> bare_path_text (to_string_lossy (relative_target e))) ->
  read_expression (bs "[" ++ render_layers selected c ++ bs "]") = Some (N_List (layers_of selected c)).
Proof.
  intros Hr Hsel Hext. destruct (resolved_layers _ _ _ _ _ _ _ _ Hr) as (Him & Hps & He).
  assert (Hl : lists (render_layers selected c) (layers_of selected c)).
  { unfold render_layers, layers_of. apply (lists_app _ [_]).
    { destruct (import_relative _ Him) as (-> & Hs & Hne). by apply layer_says. }
    apply lists_app.
    { apply lists_concat. eapply Forall_impl; [exact Hps|]. intros p Hp. destruct (import_relative _ Hp) as (-> & Hs & Hne). by apply layer_says. }
    apply lists_app.
    { destruct (rc_extends c) as [e|] eqn:E; [|exact lists_nil]. destruct (He e eq_refl) as [Hn _].
      destruct (Hext e eq_refl) as (segments & Hseg & Hne & Hs).
      assert (Hm : extends_module e = relative ([bs "manifests"; manifest_name e] ++ segments)).
      { unfold extends_module, relative. rewrite Hseg. destruct segments as [|s segments]; [done|]. cbn [app join_with].
        reflexivity. }
      rewrite Hm. apply layer_says; [done..|]. apply Forall_app. split; [|done]. constructor; [done|]. constructor; [|done].
      rewrite Hn, <- (app_nil_r (ra_name selected)). by apply valid_name_segment. }
    apply (layer_says "manifest" (ra_name selected) [MANIFEST_MODULE_FILE]); [done..|]. by constructor. }
  destruct Hl as (ts & Hw & Hs). unfold read_expression.
  assert (Hlex : writes (bs "[" ++ render_layers selected c ++ bs "]") (sym "[" :: ts ++ [sym "]"])).
  { apply (writes_app (bs "[") [sym "["] _ (ts ++ [sym "]"])); [reflexivity|]. by apply (writes_app _ ts (bs "]") [sym "]"]). }
  rewrite (writes_lex _ _ Hlex). cbn [mbind option_bind]. by apply read_tokens_spelled, sp_list.
Qed.

(* ------------------------------------------------------------------ *)
(** ** The plan *)

Section plan.
Context (from_slice : bytes -> option Value) (to_vec_pretty : Value -> option bytes).
Context (OPTIONS_MODULE REPORT_MODULE : bytes) (EMBEDDED_TREE : list (bytes * bytes)) (h : flake_host).

Lemma validate_relative_ok p : validate_relative p = Ok tt ->
  p <> [] /\ is_absolute p = false /\ Forall (fun c => c <> ParentDir /\ c <> RootDir) (components p).
Proof.
  unfold validate_relative. destruct (_ || _) eqn:E; [done|]. intros _. apply orb_false_iff in E as [E E3].
  apply orb_false_iff in E as [E1 E2]. apply bool_decide_eq_false in E1. split; [done|]. split; [done|].
  apply Forall_forall. intros c Hc. apply not_true_iff_false in E3. split; intros ->; apply E3, existsb_exists; by (eexists; split; [apply list_elem_of_In, Hc|]).
Qed.
(** What is joined below a plain directory is never the lock file. *)
Lemma under_is_not_lock d p : plain_name d -> d <> LOCK_FILE -> is_absolute (join d p) = false -> path_eqb (join d p) LOCK_FILE = false.
Proof.
  intros Hd Hne Ha. assert (Hrel : is_absolute d = false) by by apply is_absolute_plain. unfold join in *.
  destruct (is_absolute p) eqn:Ep; [congruence|]. destruct Hd as (Hd0 & Hd1 & Hd2 & Hs).
  destruct (last d) as [x|] eqn:El; [|by apply last_None in El]. destruct (decide (x = slash)) as [->|Hx].
  { apply last_Some in El as [l ->]. exfalso. apply Hs. apply elem_of_app. right. by left. }
  apply bool_decide_eq_false. unfold components. rewrite Ha, (split_on_app_cons slash d p Hs).
  change (is_absolute LOCK_FILE) with false. cbv iota. rewrite bool_decide_false by done. cbn [app omap list_omap].
  rewrite piece_component_plain by done. intros E. injection E as E _. by apply Hne.
Qed.

Definition is_lock (e : GeneratedEntry) : bool := path_eqb (destination e) LOCK_FILE.
Lemma joined_no_lock {A} (f : A -> GeneratedEntry) (d : bytes) (l : list A) : plain_name d -> d <> LOCK_FILE ->
  (forall x, exists r, destination (f x) = join d r) -> Forall (fun e => validate_relative (destination e) = Ok tt) (map f l) ->
  List.filter is_lock (map f l) = [].
Proof.
  intros Hd Hne Hf. induction l as [|x l IH]; [done|]. cbn [map]. intros [Hv Hl]%Forall_cons. cbn [List.filter]. unfold is_lock at 1.
  destruct (validate_relative_ok _ Hv) as (_ & Ha & _). destruct (Hf x) as [r Hr]. rewrite Hr in *. rewrite under_is_not_lock by done. by apply IH.
Qed.
Lemma lock_entries_ok l es migrated : lock_entries from_slice to_vec_pretty h l = Ok (es, migrated) ->
  List.filter is_lock es =
    match l, migrated with
    | OwnedMissing _, _ => []
    | OwnedExisting _, Some shed => [RenderedFile LOCK_FILE shed]
    | OwnedExisting path, None | Override path, _ => [CopiedFile path LOCK_FILE]
    end /\
  match l with
  | OwnedMissing _ => migrated = None
  | OwnedExisting path => exists contents, fh_read h path = Ok contents /\ migrated = shed_vivarium from_slice to_vec_pretty contents
  | Override path => migrated = None /\ exists contents, fh_read h path = Ok contents /\ carries_vivarium from_slice contents = false
  end.
Proof.
  unfold lock_entries, read_lock. destruct l as [path|path|path].
  - intros (contents & Hc%map_err_ok & H)%rbind_ok. destruct (carries_vivarium from_slice contents) eqn:E; [done|].
    injection H as <- <-. split; [done|]. split; [done|]. by exists contents.
  - intros (contents & Hc%map_err_ok & H)%rbind_ok. destruct (shed_vivarium from_slice to_vec_pretty contents) as [shed|] eqn:E;
      injection H as <- <-; (split; [done|]; by exists contents).
  - by intros [= <- <-].
Qed.

(** A plan stays inside its tree and carries the lock in force: the team's file as it stands, and only one without the
    retired node; the owned pin as it stands, or - when it still has that node - the text the migration makes of it,
    which is then kept for the durable copy too; and no lock at all where none is in force, so that Nix makes one. *)
Theorem plan_carries_the_lock_in_force roots selected manifest_source manifest workspaces c baseline base plan :
  build from_slice to_vec_pretty OPTIONS_MODULE REPORT_MODULE EMBEDDED_TREE h roots selected manifest_source manifest workspaces c baseline base = Ok plan ->
  gf_directory plan = gp_directory (rc_paths c) /\ gf_lock plan = rc_lock c /\
  Forall (fun e => is_absolute (destination e) = false /\ Forall (fun x => x <> ParentDir /\ x <> RootDir) (components (destination e))) (entries plan) /\
  List.filter is_lock (entries plan) =
    match rc_lock c, migrated_lock plan with
    | OwnedMissing _, _ => []
    | OwnedExisting _, Some shed => [RenderedFile LOCK_FILE shed]
    | OwnedExisting path, None | Override path, _ => [CopiedFile path LOCK_FILE]
    end /\
  match rc_lock c with
  | OwnedMissing _ => migrated_lock plan = None
  | OwnedExisting path => exists contents, fh_read h path = Ok contents /\ migrated_lock plan = shed_vivarium from_slice to_vec_pretty contents
  | Override path => migrated_lock plan = None /\ exists contents, fh_read h path = Ok contents /\ carries_vivarium from_slice contents = false
  end.
Proof.
  unfold build. cbv zeta. intros ([lock migrated] & Hlock & H)%rbind_ok. apply rbind_ok in H as ([] & Hall & [= <-]).
  cbn [gf_directory gf_lock entries migrated_lock]. apply for_each_ok in Hall. split; [done|]. split; [done|].
  split. { eapply Forall_impl; [exact Hall|]. cbn beta. intros e He. by destruct (validate_relative_ok _ He) as (_ & ? & ?). }
  destruct (lock_entries_ok _ _ _ Hlock) as [Hf Hm]. split; [|exact Hm]. rewrite <- Hf.
  rewrite !Forall_app in Hall. destruct Hall as (_ & Hemb & Hext & _).
  set (emb := map _ EMBEDDED_TREE) in *. set (ext := match rc_extends c with Some _ => _ | None => _ end) in *.
  change (List.filter is_lock (emb ++ ext ++ lock) = List.filter is_lock lock).
  assert (Hemb0 : List.filter is_lock emb = []).
  { apply (joined_no_lock _ EMBEDDED_TREE_DIRECTORY EMBEDDED_TREE); [by apply valid_name_plain|done|by intros [r b]; exists r|done]. }
  assert (Hext0 : List.filter is_lock ext = []).
  { subst ext. destruct (rc_extends c) as [e|]; [|done].
    apply (joined_no_lock (fun e => CopiedTree (re_directory e) (join (bs "manifests") (manifest_name e))) (bs "manifests") [e]);
      [by apply valid_name_plain|done|by intros x; exists (manifest_name x)|done]. }
  by rewrite !List.filter_app, Hemb0, Hext0.
Qed.
End plan.

(* ------------------------------------------------------------------ *)
(** ** Instances *)

Definition demo_roots : XdgRoots := mk_XdgRoots (bs "/c") (bs "/d") (bs "/s") (bs "/k").
Definition demo_manifest : Manifest :=
  mk_Manifest (bs "dev") [bs "tools"] (Some (bs "x/host.nix")) (Some (mk_Resources (Some 512) None))
    (Some (mk_Egress (Some AllowlistMode) [bs "example.org"]))
    [(bs "A", bs "${B}\" ++ [quote; lf; cr] ++ bs "$$"); (bs "PATH_", bs "$\{x}")]
    [mk_Mount (bs "~/a b") (bs "/a") true] [bs "~/w"] [mk_Volume (bs "v") (bs "/v") (Some 3)]
    (Some (mk_DefaultVolume None [bs "/var/lib"; bs "/p"])).
Definition demo_directory (name : string) : list bytes :=
  map bs ["/c/images/dev/default.nix"; "/c/pieces/tools.nix"; name]%string.
(** Two of the files an artifact name may stand for exist, and one lock at most. *)
Definition demo_flake_host (lock : string) : flake_host :=
  mk_flake_host (fun p => Ok (bool_decide (p ∈ demo_directory lock)))
    (fun p => if bytes_eqb p (bs "/c/images/dev/inputs.toml") then Ok (bs "...") else if bytes_eqb p (bs lock) then Ok (bs "{}") else Err NotFoundKind)
    (fun p => Ok p) (fun _ => true) (fun _ => Failed).
(** A parser that answers one declared input. *)
Definition demo_toml (name : string) : toml_parser := fun _ =>
  Ok [((0%nat, bs "inputs"), (0%nat, DTable [((0%nat, bs name), (0%nat, DTable
        [((0%nat, bs "flake"), (0%nat, DBoolean false)); ((0%nat, bs "url"), (0%nat, DString (bs "github:a/b")))]))]))].
Definition demo_selected : ResolvedArtifact := mk_ResolvedArtifact ManifestKind (bs "m") Directory (bs "/c/manifests/m/default.toml").
Definition demo_resolve (name : string) (manifest : Manifest) : result ResolvedComposition Failure :=
  resolve (demo_toml name) (demo_flake_host "/d/projects/m/default/flake.lock") demo_roots (bs "m") (bs "default") demo_selected manifest.
Definition demo_input : FlakeInput := mk_FlakeInput (bs "github:a/b") false [mk_InputDeclarer Image (bs "dev") (bs "/c/images/dev/inputs.toml")].
Definition demo_composition (name : string) (value : bytes) : ResolvedComposition :=
  mk_ResolvedComposition (mk_ResolvedArtifact Image (bs "dev") Directory (bs "/c/images/dev/default.nix"))
    [mk_ResolvedArtifact Piece (bs "tools") Flat (bs "/c/pieces/tools.nix")]
    (Some (mk_ResolvedExtends (bs "/c/manifests/m") value (bs "m")))
    [(bs name, demo_input)]
    (mk_GeneratedFlakePaths (bs "/k/flakes/m/default") (bs "/d/projects/m/default/flake.lock") (Some (bs "/c/manifests/m/flake.lock")))
    (OwnedExisting (bs "/d/projects/m/default/flake.lock")).
Lemma demo_resolved : demo_resolve "assets" demo_manifest = Ok (demo_composition "assets" (bs "x/host.nix")).
Proof. vm_compute. reflexivity. Qed.
Lemma demo_base_validated : validate_base_collisions (mk_ImageBase (bs "dev") (bs "/c/images/dev/flake.nix") true false) (rc_inputs (demo_composition "assets" (bs "x/host.nix"))) = Ok tt.
Proof. vm_compute. reflexivity. Qed.

Lemma module_says_the_manifest_witness :
  read_module (render_manifest_module demo_manifest [bs "/home/u/w"]) = Some (module_of demo_manifest [bs "/home/u/w"]).
Proof.
  apply module_says_the_manifest. split; [|split; [|split]].
  - cbn. repeat constructor; rewrite ?elem_of_cons, ?elem_of_nil; naive_solver.
  - intros r [= <-]. by split; intros z; [intros [= <-]|].
  - constructor; [|constructor]. by intros z [= <-].
  - intros v [= <-]. done.
Defined.
Lemma inputs_block_says_the_composition_witness :
  let base := mk_ImageBase (bs "dev") (bs "/c/images/dev/flake.nix") true false in
  let c := demo_composition "assets" (bs "x/host.nix") in
  read_expression (bs "{" ++ render_inputs (rc_inputs c) default_baseline (Some base) ++ bs "}") =
    Some (N_Set [([bs "inputs"], N_Set (inputs_of (rc_inputs c) default_baseline (Some base)))]).
Proof.
  cbv zeta. eapply inputs_block_says_the_composition; [exact demo_resolved| |].
  - intros b [= <-]. split; [reflexivity|exact demo_base_validated].
  - intros name [H|(b & [= <-] & ->)]; [|reflexivity]. apply list_elem_of_singleton in H as ->. reflexivity.
Defined.
Lemma demo_extension_bare : bare_path_text (to_string_lossy (bs "x/host.nix")).
Proof. exists [bs "x"; bs "host.nix"]. split; [vm_compute; reflexivity|]. split; [done|]. by repeat constructor. Qed.
Lemma layers_say_the_composition_witness :
  let c := demo_composition "assets" (bs "x/host.nix") in
  read_expression (bs "[" ++ render_layers demo_selected c ++ bs "]") = Some (N_List (layers_of demo_selected c)).
Proof.
  cbv zeta. eapply layers_say_the_composition; [exact demo_resolved|reflexivity|]. intros e [= <-]. exact demo_extension_bare.
Defined.

(** The artifact grammar admits names that are no Nix attribute: one that begins with a digit, one that is a keyword.
    Declared as an input they are accepted, and the block they are written bare into is no expression. *)
Theorem accepted_input_name_breaks_the_flake :
  Forall (fun name => exists c, demo_resolve name demo_manifest = Ok c /\
            read_expression (bs "{" ++ render_inputs (rc_inputs c) default_baseline None ++ bs "}") = None)
         ["3d-assets"; "in"]%string.
Proof. repeat constructor; eexists; (split; [vm_compute; reflexivity|vm_compute; reflexivity]). Qed.
(** An extension whose file name has a blank is accepted too, and its layer is no expression: the path ends at the
    blank. *)
Theorem accepted_extension_breaks_the_flake :
  exists manifest c, demo_resolve "assets" manifest = Ok c /\ option_map relative_target (rc_extends c) = Some (bs "my host.nix") /\
    read_expression (bs "[" ++ render_layers demo_selected c ++ bs "]") = None.
Proof.
  exists (mk_Manifest (bs "dev") [bs "tools"] (Some (bs "my host.nix")) None None [] [] [] [] None). eexists.
  split; [vm_compute; reflexivity|]. split; vm_compute; reflexivity.
Qed.

Definition demo_build : result GeneratedFlakePlan Failure :=
  build (fun _ => Some (VObject [])) (fun _ => None) (bs "{ }") (bs "{ }") [(bs "nix/default.nix", bs "{ }")]
    (demo_flake_host "/d/projects/m/default/flake.lock") demo_roots demo_selected (bs "...") demo_manifest []
    (demo_composition "assets" (bs "x/host.nix")) default_baseline None.
Lemma demo_builds : exists plan, demo_build = Ok plan.
Proof. eexists. vm_compute. reflexivity. Qed.
Lemma plan_carries_the_lock_in_force_witness : exists plan, demo_build = Ok plan /\
  List.filter is_lock (entries plan) = [CopiedFile (bs "/d/projects/m/default/flake.lock") LOCK_FILE].
Proof.
  destruct demo_builds as [plan Hp]. exists plan. split; [exact Hp|].
  destruct (plan_carries_the_lock_in_force _ _ _ _ _ _ _ _ _ _ _ _ _ _ _ Hp) as (_ & _ & _ & Hf & contents & Hc & Hm).
  rewrite Hf, Hm. vm_compute in Hc. injection Hc as <-. reflexivity.
Defined.
