(* ===== verification/Materialize.v ===== *)
(** * Publishing the generated tree and its pin ([src/src/config/materialize.rs], [src/src/config/atomic.rs])

    The directories involved hold the destination, the owned lock and the staged siblings of both: the disk is a map from
    those paths to trees, with every state it went through.  What an operation fails with is an oracle by operation and
    path; what another process has put somewhere by the time of a rename is [rival]; what a failing removal leaves is
    [remains].  The copied libraries are trees of answers.  The file mode a umask leaves is not followed. *)
From S2P Require Import Prelude Bytes Paths Ordered Spec Diagnostic Lifecycle Volumes Roots Toml Artifact Manifest Json Lock NixText Inputs Flake.

Inductive tree :=
| T_Dir (entries : list (bytes * tree))
| T_File (contents : bytes)
| T_Link (target : bytes).
(** A tree to copy, with what reading each part of it answers. *)
Inductive source :=
| S_Dir (listing : result (list (result (bytes * source) io_kind)) io_kind)
| S_File (contents : result bytes io_kind)
| S_Link (target : result bytes io_kind)
| S_Special
| S_Unreadable (k : io_kind).

(** ** Trees *)

Fixpoint set_entry (name : bytes) (t : tree) (l : list (bytes * tree)) : list (bytes * tree) :=
  match l with
  | [] => [(name, t)]
  | (name', t') :: l => if bytes_eqb name name' then (name, t) :: l else (name', t') :: set_entry name t l
  end.
Fixpoint get_entry (name : bytes) (l : list (bytes * tree)) : option tree :=
  match l with [] => None | (name', t) :: l => if bytes_eqb name name' then Some t else get_entry name l end.
Fixpoint tree_get (p : list bytes) (t : tree) : option tree :=
  match p with
  | [] => Some t
  | name :: p => match t with T_Dir l => let* t := get_entry name l in tree_get p t | _ => None end
  end.
(** What is put at a path whose directories are there already. *)
Fixpoint tree_put (p : list bytes) (new : tree) (t : tree) : option tree :=
  match p with
  | [] => Some new
  | name :: p =>
      match t with
      | T_Dir l =>
          match p with
          | [] => Some (T_Dir (set_entry name new l))
          | _ => let* child := get_entry name l in let* child := tree_put p new child in Some (T_Dir (set_entry name child l))
          end
      | _ => None
      end
  end.
(** [create_dir_all] below a directory. *)
Fixpoint tree_mkdirs (p : list bytes) (t : tree) : option tree :=
  match p with
  | [] => match t with T_Dir _ => Some t | _ => None end
  | name :: p =>
      match t with
      | T_Dir l => let* child := tree_mkdirs p (default (T_Dir []) (get_entry name l)) in Some (T_Dir (set_entry name child l))
      | _ => None
      end
  end.
Definition names_of (p : bytes) : list bytes := omap (fun c => match c with Normal name => Some name | _ => None end) (components p).

(** ** The disk *)

Record disk := mk_disk { at_path : bytes -> option tree; past : list (bytes -> option tree); next_id : Z }.
Definition act (A : Type) : Type := sem disk Failure A.
Definition set_path (p : bytes) (t : option tree) (s : bytes -> option tree) : bytes -> option tree :=
  fun q => if decide (q = p) then t else s q.
(** Every change of the disk is one state of its past. *)
Definition become (s : bytes -> option tree) : act unit := fun d => (Ok tt, mk_disk s (past d ++ [s]) (next_id d)).
Definition put (p : bytes) (t : option tree) : act unit := fun d => become (set_path p t (at_path d)) d.
Definition look (p : bytes) : act (option tree) := fun d => (Ok (at_path d p), d).
Definition answer_of {A} (r : result A Failure) : act A := slift r.
Fixpoint each {A} (f : A -> act unit) (l : list A) : act unit :=
  match l with [] => sret tt | x :: l => f x ;; each f l end.
(** The action of a closure whose failure is cleaned up after. *)
Definition guarded {A} (m : act A) (cleanup : act unit) : act A := fun d =>
  match m d with
  | (Ok a, d) => (Ok a, d)
  | (Err e, d) => (Err e, snd (cleanup d))
  end.

Section disk.
Context (fault : string -> bytes -> option io_kind) (rival : bytes -> option tree) (remains : bytes -> option tree).
Context (source_at : bytes -> source) (pid : Z).

Definition check (operation : string) (p : bytes) (n : Namespace) (condition : string) : act unit :=
  match fault operation p with Some k => answer_of (Err (io_fault n condition k)) | None => sret tt end.
Definition store_check (operation : string) (p : bytes) (condition : string) : act unit := check operation p N_Store condition.
Definition lock_check (operation : string) (p : bytes) (condition : string) : act unit := check operation p N_Lock condition.

(** ** [atomic.rs] *)

Definition MAX_TEMP_ATTEMPTS : nat := 64.
Definition unique_path (parent stem suffix : bytes) (id : Z) : bytes :=
  join parent (bs "." ++ stem ++ bs ".vivarium-" ++ dec pid ++ bs "-" ++ dec id ++ bs "." ++ suffix).
Definition take_id : act Z := fun d => (Ok (next_id d), mk_disk (at_path d) (past d) ((next_id d + 1) mod 2 ^ 64)).
Fixpoint create_temp (operation : string) (new : tree) (parent stem suffix : bytes) (n : Namespace) (condition : string) (attempts : nat) : act bytes :=
  match attempts with
  | O => sfail (diagnosed n "temporary-collision" IoErr)
  | S attempts =>
      let! id := take_id in
      let path := unique_path parent stem suffix id in
      let! taken := look path in
      match taken with
      | Some _ => create_temp operation new parent stem suffix n condition attempts
      | None => check operation path n condition ;; put path (Some new) ;; sret path
      end
  end.
Definition create_temp_directory (parent : bytes) : act bytes :=
  create_temp "create_dir" (T_Dir []) parent (bs "flake") (bs "tmp") N_Store "create-temporary" MAX_TEMP_ATTEMPTS.
Definition create_temp_file (parent stem : bytes) : act bytes :=
  create_temp "create_new" (T_File []) parent stem (bs "new") N_Lock "persist-temporary" MAX_TEMP_ATTEMPTS.
Definition sync_directory (p : bytes) (n : Namespace) (condition : string) : act unit := check "sync_all" p n condition.
Definition remove_file_if_exists (p : bytes) : act unit :=
  match fault "remove_file" p with Some _ => sret tt | None => put p None end.
(** [remove_dir_all]: when it fails something may be left. *)
Definition remove_dir_all (p : bytes) : act (option io_kind) :=
  match fault "remove_dir_all" p with
  | Some k => put p (remains p) ;; sret (Some k)
  | None => put p None ;; sret None
  end.

(** ** The staged tree *)

(** A change of the tree staged at [temporary]; where it cannot be made, a file is in the way. *)
Definition stage (temporary : bytes) (condition : string) (f : tree -> option tree) : act unit :=
  let! t := look temporary in
  match t ≫= f with
  | Some t => put temporary (Some t)
  | None => sfail (io_fault N_Store condition OtherKind)
  end.
Definition inside (temporary : bytes) (p : list bytes) : bytes := fold_left join p temporary.
(** [File::create]: a directory cannot be opened for writing, and no name of a plan is a link. *)
Definition create_file (p : list bytes) (t : tree) : option tree :=
  match tree_get p t with Some (T_Dir _) | Some (T_Link _) => None | _ => tree_put p (T_File []) t end.
Definition write_file (temporary : bytes) (p : list bytes) (contents : bytes) (keep_mode : bool) : act unit :=
  store_check "create_dir_all" (inside temporary p) "write-parent" ;;
  stage temporary "write-parent" (tree_mkdirs (removelast p)) ;;
  store_check "create" (inside temporary p) "write-file" ;;
  stage temporary "write-file" (create_file p) ;;
  store_check "write_all" (inside temporary p) "write-file" ;;
  stage temporary "write-file" (tree_put p (T_File contents)) ;;
  (if keep_mode then store_check "set_permissions" (inside temporary p) "copy-permissions" else sret tt) ;;
  store_check "sync_all" (inside temporary p) "write-sync".
Definition create_dir (temporary : bytes) (p : list bytes) : act unit :=
  let! t := look temporary in
  match t ≫= tree_get p with
  | Some _ => sfail (io_fault N_Store "copy-create-directory" OtherKind)
  | None =>
      store_check "create_dir" (inside temporary p) "copy-create-directory" ;;
      stage temporary "copy-create-directory" (tree_put p (T_Dir []))
  end.
Definition unsupported_type : Failure := diagnosed N_Store "unsupported-file-type" IoErr.
Definition copy_file (temporary : bytes) (s : source) (p : list bytes) : act unit :=
  match s with
  | S_File contents =>
      let! contents := answer_of (map_err (io_fault N_Store "copy-read") contents) in
      write_file temporary p contents true
  | S_Unreadable k => sfail (io_fault N_Store "copy-inspect" k)
  | _ => sfail unsupported_type
  end.
(** One entry of a copied directory, and the directory. *)
Fixpoint copy_entry (temporary : bytes) (s : source) (p : list bytes) : act unit :=
  match s with
  | S_Dir listing =>
      create_dir temporary p ;;
      (match listing with
       | Err k => sfail (io_fault N_Store "copy-read-directory" k)
       | Ok entries =>
           (fix go (entries : list (result (bytes * source) io_kind)) : act unit :=
              match entries with
              | [] => sret tt
              | Err k :: _ => sfail (io_fault N_Store "copy-read-directory" k)
              | Ok (name, child) :: entries => copy_entry temporary child (p ++ [name]) ;; go entries
              end) entries
       end) ;;
      store_check "set_permissions" (inside temporary p) "copy-permissions"
  | S_File _ => copy_file temporary s p
  | S_Link target =>
      let! target := answer_of (map_err (io_fault N_Store "copy-read-link") target) in
      store_check "symlink" (inside temporary p) "copy-create-link" ;;
      stage temporary "copy-create-link" (fun t => match tree_get p t with Some _ => None | None => tree_put p (T_Link target) t end)
  | S_Special => sfail unsupported_type
  | S_Unreadable k => sfail (io_fault N_Store "copy-inspect" k)
  end.
Definition copy_tree (temporary : bytes) (s : source) (p : list bytes) : act unit :=
  match s with
  | S_Unreadable NotFoundKind => create_dir temporary p
  | S_Dir _ | S_Unreadable _ => copy_entry temporary s p
  | _ => sfail unsupported_type
  end.
Definition apply_entry (temporary : bytes) (e : GeneratedEntry) : act unit :=
  if negb (path_starts_with (join temporary (destination e)) temporary) then answer_of (Err (internal_fault "generated-path"))
  else
    let p := names_of (destination e) in
    match e with
    | RenderedFile _ contents => write_file temporary p contents false
    | CopiedFile from _ => copy_file temporary (source_at from) p
    | CopiedTree from _ => copy_tree temporary (source_at from) p
    end.
(** The directories of the tree, each behind those it holds. *)
Fixpoint sync_tree (directory : bytes) (t : tree) : act unit :=
  match t with
  | T_Dir l =>
      store_check "read_dir" directory "sync-read-directory" ;;
      (fix go (l : list (bytes * tree)) : act unit :=
         match l with
         | [] => sret tt
         | (name, child) :: l =>
             store_check "read entry" (join directory name) "sync-read-directory" ;;
             store_check "lstat" (join directory name) "sync-inspect" ;;
             (match child with T_Dir _ => sync_tree (join directory name) child | _ => sret tt end) ;;
             go l
         end) l ;;
      sync_directory directory N_Store "sync-directory"
  | _ => sfail (io_fault N_Store "sync-read-directory" OtherKind)
  end.

(* ------------------------------------------------------------------ *)
(** ** Publishing *)

(** What another process has put at a path by the time it is renamed over. *)
Definition interference (p : bytes) : act unit :=
  match rival p with Some t => put p (Some t) | None => sret tt end.
Definition move (from to : bytes) (s : bytes -> option tree) : bytes -> option tree := set_path to (s from) (set_path from None s).
Definition swap (a b : bytes) (s : bytes -> option tree) : bytes -> option tree := set_path b (s a) (set_path a (s b) s).
Definition exchange_and_cleanup (temporary destination : bytes) : act unit :=
  store_check "exchange" destination "publish-exchange" ;;
  let! old := look destination in
  match old with
  | None => sfail (io_fault N_Store "publish-exchange" NotFoundKind)
  | Some _ =>
      (fun d => become (swap temporary destination (at_path d)) d) ;;
      let! failed := remove_dir_all temporary in
      match failed with Some k => sfail (io_fault N_Store "cleanup-stale" k) | None => sret tt end
  end.
(** [rename] of a directory: only nothing or an empty directory is replaced. *)
Definition rename_or_exchange (temporary destination : bytes) : act unit :=
  let! old := look destination in
  match old with
  | None | Some (T_Dir []) => (fun d => become (move temporary destination (at_path d)) d)
  | Some (T_Dir _) => exchange_and_cleanup temporary destination
  | Some _ => sfail (io_fault N_Store "publish" OtherKind)
  end.
Definition publish_directory (temporary destination : bytes) : act unit :=
  store_check "try_exists" destination "publish-inspect" ;;
  let! before := look destination in
  match before with
  | Some _ => exchange_and_cleanup temporary destination
  | None =>
      interference destination ;;
      store_check "rename" destination "publish" ;;
      rename_or_exchange temporary destination
  end ;;
  let! parent := answer_of (ok_or (parent_path destination) (internal_fault "generated-parent")) in
  sync_directory parent N_Store "publish-directory-sync".

(** The bytes are written to a staged sibling and flushed. *)
Definition write_staged (temporary contents : bytes) (write_condition sync_condition : string) : act unit :=
  lock_check "write_all" temporary write_condition ;;
  put temporary (Some (T_File contents)) ;;
  lock_check "sync_all" temporary sync_condition.
Definition rewrite_owned_lock (owned contents : bytes) : act unit :=
  let! parent := answer_of (ok_or (parent_path owned) (internal_fault "lock-parent")) in
  let! temporary := create_temp_file parent (bs "flake.lock") in
  guarded
    (write_staged temporary contents "migrate-write" "migrate-sync" ;;
     lock_check "rename" owned "migrate-install" ;;
     (fun d => become (move temporary owned (at_path d)) d))
    (let! left_ := look temporary in match left_ with Some _ => remove_file_if_exists temporary | None => sret tt end).

Record PreparedFlake := mk_PreparedFlake { pf_directory : bytes; pf_lock : EffectiveLock; shed_vivarium_ : bool; pf_base : option ImageBase }.
Definition publish (plan : GeneratedFlakePlan) : act PreparedFlake :=
  let! parent := answer_of (ok_or (parent_path (gf_directory plan)) (internal_fault "generated-parent")) in
  store_check "create_dir_all" parent "create-parent" ;;
  let! temporary := create_temp_directory parent in
  guarded
    (each (apply_entry temporary) (entries plan) ;;
     let! staged := look temporary in
     sync_tree temporary (default (T_Dir []) staged) ;;
     publish_directory temporary (gf_directory plan) ;;
     match migrated_lock plan with Some contents => rewrite_owned_lock (lock_path (gf_lock plan)) contents | None => sret tt end ;;
     sret (mk_PreparedFlake (gf_directory plan) (gf_lock plan) (bool_decide (is_Some (migrated_lock plan))) (gf_base plan)))
    (let! left_ := look temporary in
     match left_ with Some _ => remove_dir_all temporary ;; sret tt | None => sret tt end).

(* ------------------------------------------------------------------ *)
(** ** The pin *)

Context (from_slice : bytes -> option Value).
Definition composed_lock_failure (contents : bytes) : result unit Failure :=
  match validate_composed from_slice contents with
  | Ok _ => Ok tt
  | Err (BaselineMissing _) => Err (diagnosed N_Lock "baseline-missing" Diagnostic.Config)
  | Err (BaselineSplit _ _) => Err (diagnosed N_Lock "baseline-split" Diagnostic.Config)
  end.
Definition read_file (p : bytes) (t : option tree) (condition : string) : act bytes :=
  lock_check "read" p condition ;;
  match t with
  | Some (T_File contents) => sret contents
  | Some _ => sfail (io_fault N_Lock condition OtherKind)
  | None => sfail (io_fault N_Lock condition NotFoundKind)
  end.
(** [rename] that replaces nothing: a pin that is there already wins. *)
Definition install_first_pin (owned temporary contents parent : bytes) : act EffectiveLock :=
  lock_check "rename" owned "persist-publish" ;;
  let! winner := look owned in
  match winner with
  | None =>
      (fun d => become (move temporary owned (at_path d)) d) ;;
      sync_directory parent N_Lock "persist-directory-sync" ;;
      sret (OwnedExisting owned)
  | Some _ =>
      let! theirs := read_file owned winner "winner-read" in
      remove_file_if_exists temporary ;;
      if bytes_eqb theirs contents then sret (OwnedExisting owned)
      else sfail (diagnosed N_Lock "first-pin-race" TempFail)
  end.
Definition persist_created_lock (prepared : PreparedFlake) : act EffectiveLock :=
  match pf_lock prepared with
  | OwnedMissing owned =>
      let generated := join (pf_directory prepared) LOCK_FILE in
      let! tree_ := look (pf_directory prepared) in
      let! contents := read_file generated (tree_ ≫= tree_get [LOCK_FILE]) "generated-read" in
      answer_of (composed_lock_failure contents) ;;
      let! parent := answer_of (ok_or (parent_path owned) (internal_fault "lock-parent")) in
      lock_check "create_dir_all" parent "persist-parent" ;;
      let! temporary := create_temp_file parent LOCK_FILE in
      guarded
        (write_staged temporary contents "persist-write" "persist-sync" ;;
         interference owned ;;
         install_first_pin owned temporary contents parent)
        (remove_file_if_exists temporary)
  | _ => sfail (internal_fault "lock-persist-contract")
  end.
Definition persist_updated_lock (owned staged : bytes) : act unit :=
  let! parent := answer_of (ok_or (parent_path owned) (internal_fault "lock-parent")) in
  let! candidate := look staged in
  match candidate with
  | None => sfail (io_fault N_Lock "update-open" NotFoundKind)
  | Some _ =>
      lock_check "open" staged "update-open" ;;
      lock_check "sync_all" staged "update-sync" ;;
      lock_check "rename" owned "update-publish" ;;
      (fun d => become (move staged owned (at_path d)) d) ;;
      sync_directory parent N_Lock "update-directory-sync"
  end.

(* ------------------------------------------------------------------ *)
(** ** The preparations *)

Context (toml : toml_parser) (to_vec_pretty : Value -> option bytes) (probe_report : bytes -> option ProbeReport).
Context (OPTIONS_MODULE REPORT_MODULE : bytes) (EMBEDDED_TREE : list (bytes * bytes)) (h : flake_host).

Definition probed (c : ResolvedComposition) : result (option ImageBase) Failure :=
  let? base := probe_selected_image probe_report (fh_try_exists h) (fh_nix_eval h) (rc_image c) in
  let? _ := match base with Some base => validate_base_collisions base (rc_inputs c) | None => Ok tt end in
  Ok base.
Definition plan_of (roots : XdgRoots) (selected : ResolvedArtifact) (manifest_source : bytes) (manifest : Manifest) (workspaces : list bytes)
    (c : ResolvedComposition) (baseline : BaselineInputs) (base : option ImageBase) : result GeneratedFlakePlan Failure :=
  build from_slice to_vec_pretty OPTIONS_MODULE REPORT_MODULE EMBEDDED_TREE h roots selected manifest_source manifest workspaces c baseline base.
Definition prepare_generated_flake (roots : XdgRoots) (sandbox_id target : bytes) (selected : ResolvedArtifact) (manifest_source : bytes)
    (manifest : Manifest) (workspaces : list bytes) (baseline : BaselineInputs) : act PreparedFlake :=
  let! c := answer_of (resolve toml h roots sandbox_id target selected manifest) in
  let! base := answer_of (probed c) in
  let! plan := answer_of (plan_of roots selected manifest_source manifest workspaces c baseline base) in
  publish plan.
Definition resolve_update_inputs (roots : XdgRoots) (sandbox_id target : bytes) (selected : ResolvedArtifact) (manifest : Manifest) :
    result (list bytes * option ImageBase) Failure :=
  let? c := resolve toml h roots sandbox_id target selected manifest in
  let? base := probed c in
  Ok (map fst (rc_inputs c), base).

Record UpdatePreparation := mk_UpdatePreparation {
  up_directory : bytes; staged_reference : option bytes; up_lock : EffectiveLock; up_base : option ImageBase; declared : list bytes }.
Definition prepare_update_tree (roots : XdgRoots) (sandbox_id target : bytes) (selected : ResolvedArtifact) (manifest_source : bytes)
    (manifest : Manifest) (workspaces : list bytes) (baseline : BaselineInputs) : act UpdatePreparation :=
  let! c := answer_of (resolve toml h roots sandbox_id target selected manifest) in
  match rc_lock c with
  | Override _ => sfail (diagnosed N_Lock "override-in-force" Diagnostic.Config)
  | _ =>
      let! base := answer_of (probed c) in
      let! plan := answer_of (plan_of roots selected manifest_source manifest workspaces c baseline base) in
      let! parent := answer_of (ok_or (parent_path (gf_directory plan)) (internal_fault "generated-parent")) in
      store_check "create_dir_all" parent "create-parent" ;;
      let! temporary := create_temp_directory parent in
      guarded (each (apply_entry temporary) (entries plan)) (remove_dir_all temporary ;; sret tt) ;;
      sret (mk_UpdatePreparation temporary
              (if may_persist_created (gf_lock plan) then None else Some (join temporary LOCK_FILE))
              (gf_lock plan) (gf_base plan) (map fst (rc_inputs c)))
  end.
(** [Drop for UpdatePreparation]. *)
Definition drop_preparation (u : UpdatePreparation) : act unit := remove_dir_all (up_directory u) ;; sret tt.
End disk.
