(* ===== verification/MaterializeSpec.v ===== *)
(** * Publication is all or nothing

    Whatever fails and whoever interferes, a reader of the generated directory finds the tree that was there, the rival's,
    or the complete new one; the pin is replaced only as the plan says, and a first pin never replaces another.
    A manifest with an extension never gets a tree at all. *)
From S2P Require Import Prelude Bytes Paths Ordered Spec Diagnostic Lifecycle Volumes Roots Toml Artifact Manifest Json Lock NixText Inputs Flake Materialize.

Section disk.
Context (fault : string -> bytes -> option io_kind) (rival : bytes -> option tree) (remains : bytes -> option tree).
Context (source_at : bytes -> source) (pid : Z).

(* ------------------------------------------------------------------ *)
(** ** What an action touches *)

(** The states an action goes through, the last one included. *)
Definition through (d d' : disk) (P : (bytes -> option tree) -> Prop) : Prop :=
  exists l, past d' = past d ++ l /\ Forall P l /\ P (at_path d').
(** All of them stand in a preorder to the first. *)
Definition along {A} (R : relation (bytes -> option tree)) (m : act A) : Prop :=
  forall d r d', m d = (r, d') -> through d d' (R (at_path d)).
(** Nothing changes outside a set of paths. *)
Definition outside (Q : bytes -> Prop) : relation (bytes -> option tree) := fun s s' => forall q, ~ Q q -> s' q = s q.
#[local] Instance outside_preorder Q : PreOrder (outside Q).
Proof. split; [by intros s q|]. intros s s1 s2 H1 H2 q Hq. by rewrite H2, H1. Qed.
Notation touches Q := (along (outside Q)).

Section along.
Context (R : relation (bytes -> option tree)) `{!PreOrder R}.
Lemma along_nothing {A} (r : result A Failure) : along R (slift r).
Proof. intros d r' d' [= <- <-]. exists []. rewrite app_nil_r. split; [done|]. split; [constructor|reflexivity]. Qed.
Lemma along_ret {A} (a : A) : along R (sret a).
Proof. exact (along_nothing (Ok a)). Qed.
Lemma along_fail {A} (e : Failure) : along (A:=A) R (sfail e).
Proof. exact (along_nothing (Err e)). Qed.
Lemma along_look p : along R (look p).
Proof. intros d r' d' [= <- <-]. exists []. rewrite app_nil_r. split; [done|]. split; [constructor|reflexivity]. Qed.
Lemma along_two d d1 d2 : through d d1 (R (at_path d)) -> through d1 d2 (R (at_path d1)) -> through d d2 (R (at_path d)).
Proof.
  intros (l1 & P1 & F1 & L1) (l2 & P2 & F2 & L2). exists (l1 ++ l2). split; [by rewrite P2, P1, app_assoc|].
  split; [|by etrans]. apply Forall_app. split; [done|]. eapply Forall_impl; [exact F2|]. intros s Hs. by etrans.
Qed.
Lemma along_bind {A B} (m : act A) (k : A -> act B) : along R m -> (forall a, along R (k a)) -> along R (sbind m k).
Proof.
  intros Hm Hk d r d' H. unfold sbind in H. destruct (m d) as [[a|e] d1] eqn:E; [|injection H as <- <-; by eapply Hm].
  eapply along_two; [by eapply Hm|by eapply Hk].
Qed.
Lemma along_each {A} (f : A -> act unit) l : (forall x, along R (f x)) -> along R (each f l).
Proof. intros Hf. induction l as [|x l IH]; [apply along_ret|]. by apply along_bind. Qed.
Lemma along_put p t : (forall s, R s (set_path p t s)) -> along R (put p t).
Proof.
  intros H d r d' [= <- <-]. eexists. split; [done|]. split; [constructor; [apply H|constructor]|apply H].
Qed.
Lemma along_guarded {A} (m : act A) c : along R m -> along R c -> along R (guarded m c).
Proof.
  intros Hm Hc d r d' H. unfold guarded in H. destruct (m d) as [[a|e] d1] eqn:E; injection H as <- <-; [by eapply Hm|].
  destruct (c d1) as [r2 d2] eqn:E2. eapply along_two; [by eapply Hm|by eapply Hc].
Qed.
End along.
Lemma outside_put (Q : bytes -> Prop) p t : Q p -> forall s, outside Q s (set_path p t s).
Proof. intros HQ s q Hq. unfold set_path. by destruct (decide (q = p)) as [->|]. Qed.

Notation check := (Materialize.check fault).
Notation stage := Materialize.stage.
Notation write_file := (Materialize.write_file fault).
Notation create_dir := (Materialize.create_dir fault).
Notation copy_entry := (Materialize.copy_entry fault).
Notation apply_entry := (Materialize.apply_entry fault source_at).
Notation sync_tree := (Materialize.sync_tree fault).
Notation unique_path := (Materialize.unique_path pid).
Notation remove_dir_all := (Materialize.remove_dir_all fault remains).
Notation remove_file_if_exists := (Materialize.remove_file_if_exists fault).

Section staging.
Context (R : relation (bytes -> option tree)) `{!PreOrder R}.
Lemma along_check operation p n condition : along R (check operation p n condition).
Proof. unfold Materialize.check. destruct (fault operation p); [by apply along_nothing|by apply along_ret]. Qed.
Ltac frame :=
  repeat match goal with
  | |- along _ (sbind _ _) => apply along_bind; [done| |intros ?]
  | |- along _ (sret _) => by apply along_ret
  | |- along _ (sfail _) => by apply along_fail
  | |- along _ (answer_of _) => by apply along_nothing
  | |- along _ (slift _) => by apply along_nothing
  | |- along _ (look _) => by apply along_look
  | |- along _ (put _ _) => apply along_put
  | |- along _ (check _ _ _ _) => apply along_check
  | |- along _ (store_check _ _ _ _) => apply along_check
  | |- along _ (lock_check _ _ _ _) => apply along_check
  | |- along _ (sync_directory _ _ _ _) => apply along_check
  | |- along _ (match ?x with _ => _ end) => destruct x
  end.
Lemma along_remove_dir_all p : (forall s t, R s (set_path p t s)) -> along R (remove_dir_all p).
Proof. intros HR. unfold Materialize.remove_dir_all. frame; done. Qed.
Lemma along_remove_file p : (forall s, R s (set_path p None s)) -> along R (remove_file_if_exists p).
Proof. intros HR. unfold Materialize.remove_file_if_exists. frame; done. Qed.
Lemma along_write_staged temporary contents w y : (forall s t, R s (set_path temporary (Some t) s)) -> along R (write_staged fault temporary contents w y).
Proof. intros HR. unfold write_staged. frame; done. Qed.
Lemma along_sync_tree : forall t directory, along R (sync_tree directory t).
Proof.
  fix IH 1. intros [l|contents|target] directory; cbn [Materialize.sync_tree]; [|by apply along_fail..].
  apply along_bind; [done|apply along_check|]. intros _. apply along_bind; [done| |intros _; apply along_check].
  induction l as [|[name child] l IHl]; [by apply along_ret|].
  apply along_bind; [done|apply along_check|]. intros _. apply along_bind; [done|apply along_check|]. intros _.
  apply along_bind; [done| |intros _; exact IHl]. pose proof (IH child (join directory name)) as Hc.
  destruct child; [exact Hc|by apply along_ret..].
Qed.

(** Work on the staged tree, at some of its paths and below them. *)
Inductive edit (p : list bytes) : (tree -> option tree) -> Prop :=
| edit_parents : edit p (tree_mkdirs (removelast p))
| edit_create : edit p (create_file p)
| edit_put t : edit p (tree_put p t)
| edit_link target : edit p (fun t => match tree_get p t with Some _ => None | None => tree_put p (T_Link target) t end).
Context (temporary : bytes) (F : list bytes -> Prop) (HF : forall p name, F p -> F (p ++ [name])).
Context (HR : forall p f s t t', F p -> edit p f -> s temporary = Some t -> f t = Some t' -> R s (set_path temporary (Some t') s)).
Lemma along_stage p condition f : F p -> edit p f -> along R (stage temporary condition f).
Proof.
  intros Hp He d r d' H. unfold Materialize.stage, sbind, look in H.
  destruct (at_path d temporary) as [t|] eqn:Et; cbn [mbind option_bind] in H; [|by eapply (along_fail R)].
  destruct (f t) as [t'|] eqn:Ef; [|by eapply (along_fail R)]. injection H as <- <-. pose proof (HR _ _ _ _ _ Hp He Et Ef) as Hs.
  eexists. split; [done|]. split; [constructor; [exact Hs|constructor]|exact Hs].
Qed.
Ltac staging := frame; try (eapply along_stage; [eassumption|constructor]).
Lemma along_write_file p contents keep : F p -> along R (write_file temporary p contents keep).
Proof. intros Hp. unfold Materialize.write_file. staging. Qed.
Lemma along_create_dir p : F p -> along R (create_dir temporary p).
Proof. intros Hp. unfold Materialize.create_dir. staging. Qed.
Lemma along_copy_entry : forall s p, F p -> along R (copy_entry temporary s p).
Proof.
  fix IH 1. intros [[entries|k]|contents|target| |k] p Hp; cbn [Materialize.copy_entry].
  - apply along_bind; [done|by apply along_create_dir|]. intros _. apply along_bind; [done| |intros _; apply along_check].
    induction entries as [|[[name child]|k] entries IHl]; [by apply along_ret| |by apply along_fail].
    apply along_bind; [done|apply IH; by apply HF|]. intros _. exact IHl.
  - apply along_bind; [done|by apply along_create_dir|]. intros _. frame.
  - unfold copy_file. frame; by apply along_write_file.
  - staging.
  - frame.
  - frame.
Qed.
Lemma along_apply_entry e : F (names_of (destination e)) -> along R (apply_entry temporary e).
Proof.
  intros Hp. unfold Materialize.apply_entry. destruct (negb _); [by apply along_nothing|]. destruct e as [d contents|from d|from d].
  - by apply along_write_file.
  - unfold copy_file. frame; by apply along_write_file.
  - unfold copy_tree. frame; first [by apply along_copy_entry|by apply along_create_dir].
Qed.
End staging.

(** A staged sibling is a fresh name that nothing else uses. *)
Definition staged (q : bytes) : Prop := exists parent stem suffix id, suffix ∈ [bs "tmp"; bs "new"] /\ q = unique_path parent stem suffix id.
Lemma create_temp_ok operation new parent stem suffix n condition attempts d r d' : suffix ∈ [bs "tmp"; bs "new"] ->
  create_temp fault pid operation new parent stem suffix n condition attempts d = (r, d') ->
  through d d' (fun s => forall q, ~ staged q -> s q = at_path d q) /\
  forall p, r = Ok p -> staged p /\ at_path d p = None /\ at_path d' p = Some new.
Proof.
  intros Hsuffix. revert d. induction attempts as [|attempts IH]; intros d; cbn [create_temp].
  - intros [= <- <-]. split; [exists []; rewrite app_nil_r; by repeat split|done].
  - unfold sbind, take_id, look. cbn [at_path]. set (p := unique_path parent stem suffix (next_id d)).
    assert (Hp : staged p) by (exists parent, stem, suffix, (next_id d); by split).
    destruct (at_path d p) eqn:E; [exact (IH (mk_disk _ _ _))|]. unfold Materialize.check. destruct (fault operation p).
    + intros [= <- <-]. split; [exists []; cbn; rewrite app_nil_r; by repeat split|done].
    + unfold sret, put, become. intros [= <- <-]. cbn [at_path past]. split.
      * eexists. split; [done|]. assert (Hq : forall q, ~ staged q -> set_path p (Some new) (at_path d) q = at_path d q).
        { intros q Hq. unfold set_path. by destruct (decide (q = p)) as [->|]. }
        by repeat constructor.
      * intros p' [= <-]. split; [done|]. split; [done|]. unfold set_path. by rewrite decide_True.
Qed.

(* ------------------------------------------------------------------ *)
(** ** The switch of directories *)

Lemma through_refl d P : P (at_path d) -> through d d P.
Proof. exists []. rewrite app_nil_r. by repeat split. Qed.
Lemma through_step d s0 d' P : P s0 -> through (mk_disk s0 (past d ++ [s0]) (next_id d)) d' P -> through d d' P.
Proof. intros Hs (l & E & F & L). exists (s0 :: l). split; [rewrite E; cbn [past]; by rewrite <- app_assoc|]. split; [by constructor|done]. Qed.
Lemma through_trans d1 d2 d3 P : through d1 d2 P -> through d2 d3 P -> through d1 d3 P.
Proof.
  intros (l1 & E1 & F1 & L1) (l2 & E2 & F2 & L2). exists (l1 ++ l2). split; [by rewrite E2, E1, app_assoc|].
  split; [by apply Forall_app|done].
Qed.
Lemma through_impl d d' (P Q : (bytes -> option tree) -> Prop) : (forall s, P s -> Q s) -> through d d' P -> through d d' Q.
Proof. intros H (l & E & F & L). exists l. split; [done|]. split; [by eapply Forall_impl|by apply H]. Qed.
Lemma check_run operation p n condition d : Materialize.check fault operation p n condition d = (Ok tt, d) \/
  exists k, Materialize.check fault operation p n condition d = (Err (io_fault n condition k), d).
Proof. unfold Materialize.check. destruct (fault operation p) as [k|]; [right; by exists k|by left]. Qed.

Lemma sbind_split {A B} (m : act A) (k : A -> act B) d r d' : sbind m k d = (r, d') ->
  (exists a d1, m d = (Ok a, d1) /\ k a d1 = (r, d')) \/ (exists e, m d = (Err e, d') /\ r = Err e).
Proof. unfold sbind. destruct (m d) as [[a|e] d1]; [left; by exists a, d1|intros [= <- <-]; right; by exists e]. Qed.

Lemma check_then {A} operation p n condition (k : act A) d r d' :
  (Materialize.check fault operation p n condition ;; k) d = (r, d') -> k d = (r, d') \/ (d' = d /\ exists e, r = Err e).
Proof.
  unfold sbind. destruct (check_run operation p n condition d) as [E|[io E]]; rewrite E; [by left|].
  intros [= <- <-]. right. split; [done|by eexists].
Qed.

(** What a destination may show, from [before], of a new tree. *)
Definition shows (before : option tree) (destination : bytes) (t : tree) (s : bytes -> option tree) : Prop :=
  s destination = before \/ (before = None /\ s destination = rival destination) \/ s destination = Some t.
Definition apart_from (d : disk) (temporary destination : bytes) (s : bytes -> option tree) : Prop :=
  forall q, q <> temporary -> q <> destination -> s q = at_path d q.

Section switch.
Context (temporary destination : bytes) (Hne : temporary <> destination).
Lemma exchange_ok d r d' t : at_path d temporary = Some t -> exchange_and_cleanup fault remains temporary destination d = (r, d') ->
  through d d' (fun s => apart_from d temporary destination s /\ (s destination = at_path d destination \/ s destination = Some t)) /\
  (r = Ok tt -> at_path d' destination = Some t).
Proof.
  intros Ht. unfold exchange_and_cleanup, sbind. destruct (check_run "exchange" destination N_Store "publish-exchange" d) as [E|[k E]]; unfold store_check; rewrite E.
  2:{ intros [= <- <-]. split; [|done]. apply through_refl. split; [by intros q|by left]. }
  unfold look. destruct (at_path d destination) as [old|] eqn:Ed.
  2:{ intros [= <- <-]. split; [|done]. apply through_refl. split; [by intros q|by left]. }
  unfold become, Materialize.remove_dir_all. set (s1 := swap temporary destination (at_path d)).
  assert (H1 : s1 destination = Some t /\ apart_from d temporary destination s1).
  { subst s1. unfold swap, set_path. split; [by rewrite decide_True|]. intros q H1 H2. by rewrite !decide_False by done. }
  assert (Hput : forall x, set_path temporary x s1 destination = Some t /\ apart_from d temporary destination (set_path temporary x s1)).
  { intros x. unfold set_path. rewrite decide_False by done. split; [apply H1|]. intros q Hq1 Hq2. rewrite decide_False by done. by apply H1. }
  destruct (fault "remove_dir_all" temporary); unfold sbind, put, become, sret, sfail; cbn [at_path past]; intros [= <- <-];
    (split; [|intros _; apply Hput]); apply (through_step _ s1); try (split; [apply H1|right; apply H1]);
    eapply through_step; cbn [past]; try apply through_refl; cbn [at_path]; (split; [apply Hput|right; apply Hput]).
Qed.

(** How a switch may end. *)
Definition switched (d d' : disk) (r : result unit Failure) (t : tree) : Prop :=
  through d d' (fun s => apart_from d temporary destination s /\ shows (at_path d destination) destination t s) /\
  (r = Ok tt -> at_path d' destination = Some t).
Lemma switched_stuck d r t : r <> Ok tt -> switched d d r t.
Proof. intros Hr. split; [|done]. apply through_refl. split; [by intros q|by left]. Qed.
Lemma rename_ok d r d' t : at_path d temporary = Some t -> rename_or_exchange fault remains temporary destination d = (r, d') ->
  through d d' (fun s => apart_from d temporary destination s /\ (s destination = at_path d destination \/ s destination = Some t)) /\
  (r = Ok tt -> at_path d' destination = Some t).
Proof.
  intros Ht. unfold rename_or_exchange, sbind, look.
  assert (Hmove : become (move temporary destination (at_path d)) d = (r, d') ->
    through d d' (fun s => apart_from d temporary destination s /\ (s destination = at_path d destination \/ s destination = Some t)) /\
    (r = Ok tt -> at_path d' destination = Some t)).
  { assert (Hd : move temporary destination (at_path d) destination = Some t) by (unfold move, set_path; by rewrite decide_True).
    assert (Ha : apart_from d temporary destination (move temporary destination (at_path d))).
    { intros q H1 H2. unfold move, set_path. by rewrite !decide_False by done. }
    intros [= <- <-]. split; [|done]. apply (through_step _ (move temporary destination (at_path d))); [by split; [|right]|].
    apply through_refl. by split; [|right]. }
  assert (Hstuck : (Err (io_fault N_Store "publish" OtherKind), d) = (r, d') ->
    through d d' (fun s => apart_from d temporary destination s /\ (s destination = at_path d destination \/ s destination = Some t)) /\
    (r = Ok tt -> at_path d' destination = Some t)).
  { intros [= <- <-]. split; [|done]. apply through_refl. split; [by intros q|by left]. }
  destruct (at_path d destination) as [[[|e l]|contents|target]|] eqn:E; [exact Hmove| |exact Hstuck|exact Hstuck|exact Hmove].
  rewrite <- E. by apply exchange_ok.
Qed.
Lemma switched_end d d2 r d' t : switched d d2 (Ok tt) t ->
  (let! parent := answer_of (ok_or (parent_path destination) (internal_fault "generated-parent")) in
   sync_directory fault parent N_Store "publish-directory-sync") d2 = (r, d') -> switched d d' r t.
Proof.
  intros [Hs Hd] H2. assert (d' = d2) as ->; [|split; [done|intros _; by apply Hd]].
  unfold sync_directory, sbind, answer_of, slift in H2. destruct (ok_or _ _) as [parent|e]; [|congruence].
  destruct (check_run "sync_all" parent N_Store "publish-directory-sync" d2) as [E2|[k2 E2]]; rewrite E2 in H2; congruence.
Qed.
Lemma switched_within d r d' t : through d d' (fun s => apart_from d temporary destination s /\ (s destination = at_path d destination \/ s destination = Some t)) /\
  (r = Ok tt -> at_path d' destination = Some t) -> switched d d' r t.
Proof.
  intros [Hth Hok]. split; [|done]. eapply through_impl; [|exact Hth]. intros s [Ha [Hs|Hs]]; (split; [done|]); [by left|by right; right].
Qed.
(** A switch after whatever has happened to the destination in between. *)
Lemma rival_switch d r d' t : at_path d temporary = Some t -> at_path d destination = None ->
  (interference rival destination ;; Materialize.check fault "rename" destination N_Store "publish" ;; rename_or_exchange fault remains temporary destination) d = (r, d') ->
  switched d d' r t.
Proof.
  intros Ht Hd H. unfold interference, sbind at 1 in H. destruct (rival destination) as [other|] eqn:Er.
  - unfold put, become in H. set (s1 := set_path destination (Some other) (at_path d)) in H. set (d1 := mk_disk s1 _ _) in H.
    assert (H1 : s1 destination = Some other) by (unfold s1, set_path; by rewrite decide_True).
    assert (Ha1 : apart_from d temporary destination s1) by (intros q Hq1 Hq2; unfold s1, set_path; by rewrite decide_False).
    assert (Hs1 : shows (at_path d destination) destination t s1) by (right; left; by rewrite H1).
    apply check_then in H as [H|[-> [e ->]]].
    + assert (Ht1 : at_path d1 temporary = Some t) by (cbn; unfold s1, set_path; by rewrite decide_False).
      destruct (rename_ok _ _ _ _ Ht1 H) as [Hth Hok]. split; [|done]. apply (through_step _ s1); [by split|].
      eapply through_impl; [|exact Hth]. intros s [Ha Hs]. split.
      * intros q Hq1 Hq2. rewrite Ha by done. by apply Ha1.
      * destruct Hs as [Hs|Hs]; [right; left; split; [done|]; rewrite Hs, Er; exact H1|by right; right].
    + split; [|done]. apply (through_step _ s1); [by split|]. by apply through_refl.
  - cbn [sret] in H. unfold sret in H. apply check_then in H as [H|[-> [e ->]]].
    + by apply switched_within, rename_ok.
    + by apply switched_stuck.
Qed.
Lemma publish_directory_ok d r d' t : at_path d temporary = Some t ->
  publish_directory fault rival remains temporary destination d = (r, d') -> switched d d' r t.
Proof.
  intros Ht H. unfold publish_directory, store_check in H.
  apply check_then in H as [H|[-> [e ->]]]; [|by apply switched_stuck].
  apply sbind_split in H as [(before & d2 & [= <- <-] & H)|(e & [=] & _)].
  apply sbind_split in H as [([] & d2 & H1 & H)|(e & H1 & ->)]; [eapply switched_end; [|exact H]|];
    (destruct (at_path d destination) eqn:Eold; [by eapply switched_within, exchange_ok|by eapply rival_switch]).
Qed.
End switch.

(* ------------------------------------------------------------------ *)
(** ** Staging, then one step *)

(** A property of a state that changes at some paths do not affect. *)
Definition stable (Q : bytes -> Prop) (P : (bytes -> option tree) -> Prop) : Prop :=
  forall s s', (forall q, ~ Q q -> s' q = s q) -> P s -> P s'.
Lemma through_stable {A} Q P (m : act A) d r d' : touches Q m -> stable Q P -> P (at_path d) -> m d = (r, d') -> through d d' P.
Proof.
  intros Hm Hs Hd H. destruct (Hm _ _ _ H) as (l & E & F & L). exists l. split; [done|].
  split; [eapply Forall_impl; [exact F|]; cbn; intros s Hq; by eapply Hs|by eapply Hs].
Qed.
Lemma guarded_split {A} (m : act A) c d r d' : guarded m c d = (r, d') ->
  (exists a, m d = (Ok a, d') /\ r = Ok a) \/ (exists e d1, m d = (Err e, d1) /\ r = Err e /\ c d1 = (fst (c d1), d')).
Proof.
  unfold guarded. destruct (m d) as [[a|e] d1]; intros [= <- <-]; [left; by exists a|right; exists e, d1].
  split; [done|]. split; [done|]. by destruct (c d1).
Qed.
Lemma write_staged_ok temporary contents w y d r d' : write_staged fault temporary contents w y d = (r, d') ->
  through d d' (fun s => forall q, q <> temporary -> s q = at_path d q) /\
  (r = Ok tt -> at_path d' temporary = Some (T_File contents)).
Proof.
  intros H. split.
  - assert (Ht : touches (eq temporary) (write_staged fault temporary contents w y)) by (apply along_write_staged; [tc_solve|intros s t; by apply outside_put]).
    eapply through_impl; [|by eapply Ht]. cbn. intros s Hs q Hq. apply Hs. congruence.
  - intros ->. unfold write_staged in H. apply check_then in H as [H|[_ [e [=]]]]. unfold sbind at 1, put, become in H.
    destruct (check_run "sync_all" temporary N_Lock y (mk_disk (set_path temporary (Some (T_File contents)) (at_path d))
      (past d ++ [set_path temporary (Some (T_File contents)) (at_path d)]) (next_id d))) as [E|[k E]]; unfold lock_check in H; rewrite E in H; [|done].
    injection H as <-. cbn. unfold set_path. by rewrite decide_True.
Qed.
(** A file installed by one rename out of a staged sibling. *)
Definition file_step (owned contents : bytes) (d : disk) (s : bytes -> option tree) : Prop :=
  (forall q, ~ staged q -> q <> owned -> s q = at_path d q) /\ (s owned = at_path d owned \/ s owned = Some (T_File contents)).
Lemma file_step_stable owned contents d : ~ staged owned -> stable staged (file_step owned contents d).
Proof. intros Ho s s' Hs [H1 H2]. split; [intros q Hq Hne; rewrite Hs by done; by apply H1|by rewrite Hs]. Qed.
Lemma file_step_start owned contents d : file_step owned contents d (at_path d).
Proof. split; [done|by left]. Qed.
Lemma move_step temporary owned contents d : staged temporary -> ~ staged owned -> at_path d temporary = Some (T_File contents) ->
  move temporary owned (at_path d) owned = Some (T_File contents) /\ file_step owned contents d (move temporary owned (at_path d)).
Proof.
  intros Ht Ho Hd. assert (Hm : move temporary owned (at_path d) owned = Some (T_File contents)) by (unfold move, set_path; by rewrite decide_True).
  split; [done|]. split; [|by right]. intros q Hq Hne. unfold move, set_path. rewrite decide_False by done.
  destruct (decide (q = temporary)) as [->|]; [done|reflexivity].
Qed.
Lemma along_cleanup_file temporary : staged temporary ->
  touches staged (let! left_ := look temporary in match left_ with Some _ => remove_file_if_exists temporary | None => sret tt end).
Proof.
  intros Ht. apply along_bind; [tc_solve|apply along_look; tc_solve|]. intros []; [|apply along_ret; tc_solve].
  apply along_remove_file; [tc_solve|]. by apply outside_put.
Qed.
Lemma rewrite_owned_lock_ok owned contents d r d' : ~ staged owned -> rewrite_owned_lock fault pid owned contents d = (r, d') ->
  through d d' (file_step owned contents d) /\ (r = Ok tt -> at_path d' owned = Some (T_File contents)).
Proof.
  intros Ho H. unfold rewrite_owned_lock in H.
  apply sbind_split in H as [(parent & d1 & H1 & H)|(e & H1 & ->)]; unfold answer_of, slift in H1; injection H1 as Hpar <-.
  2:{ split; [apply through_refl, file_step_start|done]. }
  apply sbind_split in H as [(temporary & d1 & H1 & H)|(e & H1 & ->)];
    (destruct (create_temp_ok _ _ _ _ _ _ _ _ _ _ _ (ltac:(right; left)) H1) as [Hc Htemp]).
  2:{ split; [|done]. eapply through_impl; [|exact Hc]. cbn. intros s Hs. split; [intros q Hq _; by apply Hs|left; by apply Hs]. }
  assert (Hd1 : through d d1 (file_step owned contents d)).
  { eapply through_impl; [|exact Hc]. cbn. intros s Hs. split; [intros q Hq _; by apply Hs|left; by apply Hs]. }
  destruct (Htemp temporary eq_refl) as (Hst & _ & Hnew). assert (Hne : owned <> temporary) by congruence.
  pose proof (file_step_stable owned contents d Ho) as Hstable. destruct Hd1 as (l1 & E1 & F1 & L1).
  assert (Hbody : forall r2 d2, (write_staged fault temporary contents "migrate-write" "migrate-sync" ;;
       lock_check fault "rename" owned "migrate-install" ;; (fun d => become (move temporary owned (at_path d)) d)) d1 = (r2, d2) ->
     through d1 d2 (file_step owned contents d) /\ (r2 = Ok tt -> at_path d2 owned = Some (T_File contents))).
  { intros r2 d2 Hb. apply sbind_split in Hb as [([] & d3 & Hw & Hb)|(e & Hw & ->)]; destruct (write_staged_ok _ _ _ _ _ _ _ Hw) as [Hth Hok].
    2:{ split; [|done]. eapply through_impl; [|exact Hth]. intros s Hs. eapply Hstable; [|exact L1]. intros q Hq. apply Hs. congruence. }
    assert (L3 : file_step owned contents d (at_path d3) /\ through d1 d3 (file_step owned contents d)).
    { split; [destruct Hth as (_ & _ & _ & Hs)|eapply through_impl; [|exact Hth]; intros s Hs];
        (eapply Hstable; [|exact L1]; intros q Hq; apply Hs; congruence). }
    destruct L3 as [L3 T3]. unfold lock_check in Hb. apply check_then in Hb as [Hb|[-> [e ->]]]; [|by split].
    specialize (Hok eq_refl). destruct (move_step temporary owned contents d3 Hst Ho Hok) as [Hm Hstep].
    assert (Hs3 : file_step owned contents d (move temporary owned (at_path d3))).
    { destruct Hstep as [G1 _]. split; [intros q Hq Hqo; rewrite G1 by done; by apply L3|by right]. }
    injection Hb as <- <-. split; [|done]. eapply through_trans; [exact T3|]. eapply through_step; [exact Hs3|]. by apply through_refl. }
  apply guarded_split in H as [([] & H & ->)|(e & d2 & H & -> & Hclean)]; destruct (Hbody _ _ H) as [Hth Hok].
  - split; [|done]. eapply through_trans; [|exact Hth]. by exists l1.
  - split; [|done]. eapply through_trans; [by exists l1|]. eapply through_trans; [exact Hth|].
    eapply (through_stable staged); [|exact Hstable| |exact Hclean]; [apply along_cleanup_file; exact Hst|by destruct Hth as (_ & _ & _ & ?)].
Qed.

(* ------------------------------------------------------------------ *)
(** ** Publication *)

(** What every entry of a plan makes of an empty tree. *)
Definition complete (es : list GeneratedEntry) (t : tree) : Prop :=
  exists temporary d0 d1, at_path d0 temporary = Some (T_Dir []) /\ each (apply_entry temporary) es d0 = (Ok tt, d1) /\ at_path d1 temporary = Some t.
(** What the disk may show, from [d] on, of a plan being published. *)
Definition published (plan : GeneratedFlakePlan) (d : disk) (s : bytes -> option tree) : Prop :=
  let destination := gf_directory plan in
  let owned := lock_path (gf_lock plan) in
  (forall q, ~ staged q -> q <> destination -> q <> owned -> s q = at_path d q) /\
  (s owned = at_path d owned /\ (s destination = at_path d destination \/ at_path d destination = None /\ s destination = rival destination) \/
   exists t, complete (entries plan) t /\ s destination = Some t /\
     (s owned = at_path d owned \/ exists contents, migrated_lock plan = Some contents /\ s owned = Some (T_File contents))).
(** The staged tree, and nothing else, is worked on. *)
Definition works_on (temporary : bytes) : relation (bytes -> option tree) := fun s s' =>
  (forall q, q <> temporary -> s' q = s q) /\ (is_Some (s temporary) -> is_Some (s' temporary)).
#[local] Instance works_on_preorder temporary : PreOrder (works_on temporary).
Proof. split; [by intros s|]. intros s s1 s2 [H1 P1] [H2 P2]. split; [intros q Hq; by rewrite H2, H1|auto]. Qed.
Lemma works_on_put temporary s t : works_on temporary s (set_path temporary (Some t) s).
Proof. split; [intros q Hq; unfold set_path; by rewrite decide_False|]. intros _. exists t. unfold set_path. by rewrite decide_True. Qed.

Section publish.
Context (plan : GeneratedFlakePlan).
Notation destination := (gf_directory plan).
Notation owned := (lock_path (gf_lock plan)).
Context (Hdest : ~ staged destination) (Howned : ~ staged owned) (Hne : destination <> owned).

Lemma published_stable d : stable staged (published plan d).
Proof.
  intros s s' Hs [H1 H2]. split; [intros q Hq Hd Ho; rewrite Hs by done; by apply H1|]. by rewrite !Hs by done.
Qed.
Lemma published_start d : published plan d (at_path d).
Proof. split; [done|]. left. split; [done|by left]. Qed.
(** The body of [publish], over a temporary directory just made. *)
Definition publish_body (temporary : bytes) : act PreparedFlake :=
  each (apply_entry temporary) (entries plan) ;;
  let! staged := look temporary in
  sync_tree temporary (default (T_Dir []) staged) ;;
  publish_directory fault rival remains temporary destination ;;
  match migrated_lock plan with Some contents => rewrite_owned_lock fault pid owned contents | None => sret tt end ;;
  sret (mk_PreparedFlake destination (gf_lock plan) (bool_decide (is_Some (migrated_lock plan))) (gf_base plan)).
Definition done_with (d' : disk) : Prop := exists t, complete (entries plan) t /\ at_path d' destination = Some t /\
  forall contents, migrated_lock plan = Some contents -> at_path d' owned = Some (T_File contents).

(** The migration, after the switch. *)
Lemma migration_ok d d1 r d' t : complete (entries plan) t -> published plan d (at_path d1) -> at_path d1 destination = Some t -> at_path d1 owned = at_path d owned ->
  match migrated_lock plan with Some contents => rewrite_owned_lock fault pid owned contents | None => sret tt end d1 = (r, d') ->
  through d1 d' (published plan d) /\ (r = Ok tt -> done_with d').
Proof.
  intros Hc [Hp _] Ht Ho H. destruct (migrated_lock plan) as [contents|] eqn:Em.
  - destruct (rewrite_owned_lock_ok _ _ _ _ _ Howned H) as [Hth Hok]. split.
    + eapply through_impl; [|exact Hth]. intros s [G1 G2]. split; [intros q Hq Hqd Hqo; rewrite G1 by done; by apply Hp|].
      right. exists t. split; [done|]. split; [by rewrite G1|]. destruct G2 as [->|G2]; [by left|right; by exists contents].
    + intros ->. specialize (Hok eq_refl). destruct Hth as (_ & _ & _ & [G1 _]). exists t. split; [done|]. split; [by rewrite G1|].
      intros c Hm. rewrite Em in Hm. by injection Hm as <-.
  - injection H as <- <-. split; [|intros _; exists t; split; [done|split; [done|]]; intros c Hm; congruence].
    apply through_refl. split; [done|]. right. exists t. split; [done|]. split; [done|by left].
Qed.
(** The switch, seen from the start. *)
Lemma switch_ok temporary d0 d r d' t : staged temporary -> complete (entries plan) t -> published plan d0 (at_path d) ->
  at_path d destination = at_path d0 destination -> at_path d owned = at_path d0 owned -> at_path d temporary = Some t ->
  publish_directory fault rival remains temporary destination d = (r, d') ->
  through d d' (published plan d0) /\ (r = Ok tt -> at_path d' destination = Some t /\ at_path d' owned = at_path d0 owned).
Proof.
  intros Hst Hc [Hp _] Hd0 Ho0 Ht H. assert (Htd : temporary <> destination) by congruence. assert (Hto : owned <> temporary) by congruence.
  destruct (publish_directory_ok _ _ Htd _ _ _ _ Ht H) as [Hth Hok]. split.
  - eapply through_impl; [|exact Hth]. intros s [Ha Hs]. split.
    + intros q Hq Hqd Hqo. rewrite Ha by congruence. by apply Hp.
    + assert (Hso : s owned = at_path d0 owned) by (rewrite Ha by congruence; done). rewrite Hd0 in Hs.
      destruct Hs as [Hs|[Hs|Hs]]; [left; split; [done|by left]|left; split; [done|by right]|right]. exists t. split; [done|]. split; [done|by left].
  - intros ->. split; [by apply Hok|]. destruct Hth as (_ & _ & _ & [Ha _]). rewrite Ha by congruence. done.
Qed.
Lemma publish_body_ok temporary d0 d r d' : staged temporary -> at_path d temporary = Some (T_Dir []) -> published plan d0 (at_path d) ->
  at_path d destination = at_path d0 destination -> at_path d owned = at_path d0 owned ->
  publish_body temporary d = (r, d') -> through d d' (published plan d0) /\ (forall p, r = Ok p -> done_with d').
Proof.
  intros Hst Hempty Hp Hd0 Ho0 H. unfold publish_body in H. assert (Htd : temporary <> destination) by congruence.
  pose proof (published_stable d0) as Hstable.
  assert (Hworks : forall A (m : act A) d r d', along (works_on temporary) m -> m d = (r, d') -> published plan d0 (at_path d) ->
            through d d' (published plan d0)).
  { intros A m d2 r2 d3 Hm Hm2 Hp2. eapply through_impl; [|exact (Hm _ _ _ Hm2)]. intros s [Hs _]. eapply Hstable; [|exact Hp2].
    intros q Hq. apply Hs. congruence. }
  assert (Hentries : along (works_on temporary) (each (apply_entry temporary) (entries plan))).
  { apply along_each; [tc_solve|]. intros e. apply (along_apply_entry _ temporary (fun _ => True)); [done| |done].
    intros p f s t t' _ _ _ _. apply works_on_put. }
  apply sbind_split in H as [([] & d1 & H1 & H)|(e & H1 & ->)]; pose proof (Hworks _ _ _ _ _ Hentries H1 Hp) as T1; [|by split].
  destruct (Hentries _ _ _ H1) as (_ & _ & _ & [Hframe Hsome]). destruct (Hsome ltac:(by rewrite Hempty)) as [t Ht].
  assert (Hc : complete (entries plan) t) by by exists temporary, d, d1.
  unfold sbind at 1, look in H. rewrite Ht in H. cbn [default from_option] in H.
  assert (Hsync : along (works_on temporary) (sync_tree temporary t)) by (apply along_sync_tree; tc_solve).
  assert (P1 : published plan d0 (at_path d1)) by by destruct T1 as (_ & _ & _ & ?).
  assert (Hdd1 : at_path d1 destination = at_path d0 destination) by by rewrite Hframe.
  assert (Hod1 : at_path d1 owned = at_path d0 owned) by (rewrite Hframe by congruence; done).
  apply sbind_split in H as [([] & d2 & H2 & H)|(e & H2 & ->)]; pose proof (Hworks _ _ _ _ _ Hsync H2 P1) as T2; [|by split; [eapply through_trans|]].
  assert (E2 : at_path d2 = at_path d1).
  { assert (Hq : along eq (sync_tree temporary t)) by (apply along_sync_tree; tc_solve). by destruct (Hq _ _ _ H2) as (_ & _ & _ & ->). }
  rewrite <- E2 in P1, Hdd1, Hod1, Ht.
  apply sbind_split in H as [([] & d3 & H3 & H)|(e & H3 & ->)]; destruct (switch_ok _ _ _ _ _ _ Hst Hc P1 Hdd1 Hod1 Ht H3) as [T3 Hok].
  2:{ split; [|done]. eapply through_trans; [exact T1|]. by eapply through_trans. }
  destruct (Hok eq_refl) as [Hnew Hold]. assert (P3 : published plan d0 (at_path d3)) by by destruct T3 as (_ & _ & _ & ?).
  apply sbind_split in H as [([] & d4 & H4 & H)|(e & H4 & ->)]; destruct (migration_ok _ _ _ _ _ Hc P3 Hnew Hold H4) as [T4 Hdone].
  - injection H as <- <-. split; [|intros _ _; by apply Hdone]. eapply through_trans; [exact T1|]. eapply through_trans; [exact T2|]. by eapply through_trans.
  - split; [|done]. eapply through_trans; [exact T1|]. eapply through_trans; [exact T2|]. by eapply through_trans.
Qed.

(** C26: However it ends, and at every moment in between, a publication shows at its destination what was there, what a rival
    put where nothing was, or the complete new tree; the owned lock is what it was until the tree is in place and then at
    most the migrated text; nothing else but staged siblings is touched.  When it succeeds both are in place. *)
Theorem publication_is_all_or_nothing d r d' : publish fault rival remains source_at pid plan d = (r, d') ->
  through d d' (published plan d) /\ (forall p, r = Ok p -> done_with d').
Proof.
  intros H. unfold publish in H. assert (Hstart : through d d (published plan d)) by apply through_refl, published_start.
  apply sbind_split in H as [(parent & d1 & H1 & H)|(e & H1 & ->)]; injection H1 as _ <-; [|by split].
  unfold store_check in H. apply check_then in H as [H|[-> [e ->]]]; [|by split].
  apply sbind_split in H as [(temporary & d1 & H1 & H)|(e & H1 & ->)];
    destruct (create_temp_ok _ _ _ _ _ _ _ _ _ _ _ (ltac:(left)) H1) as [Hc Htemp].
  2:{ split; [|done]. eapply through_impl; [|exact Hc]. intros s Hs. eapply published_stable; [exact Hs|apply published_start]. }
  destruct (Htemp temporary eq_refl) as (Hst & _ & Hempty).
  assert (T1 : through d d1 (published plan d)).
  { eapply through_impl; [|exact Hc]. intros s Hs. eapply published_stable; [exact Hs|apply published_start]. }
  pose proof T1 as (_ & _ & _ & P1). destruct Hc as (_ & _ & _ & Hc).
  assert (Hbody : forall r2 d2, publish_body temporary d1 = (r2, d2) -> through d1 d2 (published plan d) /\ (forall p, r2 = Ok p -> done_with d2)).
  { intros r2 d2 Hb. eapply publish_body_ok; [exact Hst|exact Hempty|exact P1| | |exact Hb]; by apply Hc. }
  apply guarded_split in H as [(p & H & ->)|(e & d2 & H & -> & Hclean)]; destruct (Hbody _ _ H) as [T2 Hok].
  - split; [by eapply through_trans|]. intros _ _. by eapply Hok.
  - split; [|done]. eapply through_trans; [exact T1|]. eapply through_trans; [exact T2|].
    eapply (through_stable staged); [|exact (published_stable d)| |exact Hclean]; [|by destruct T2 as (_ & _ & _ & ?)].
    apply along_bind; [tc_solve|apply along_look; tc_solve|]. intros []; [|apply along_ret; tc_solve].
    apply along_bind; [tc_solve| |intros _; apply along_ret; tc_solve]. apply along_remove_dir_all; [tc_solve|].
    intros s x. by apply outside_put.
Qed.
End publish.

(* ------------------------------------------------------------------ *)
(** ** What the complete tree holds *)

Lemma get_set_entry name name' t l : get_entry name' (set_entry name t l) = if bytes_eqb name' name then Some t else get_entry name' l.
Proof.
  induction l as [|[n x] l IH]; cbn [set_entry get_entry]; [by destruct (bytes_eqb name' name)|].
  destruct (bytes_eqb name n) eqn:E1; cbn [get_entry].
  - apply bytes_eqb_true in E1 as ->. by destruct (bytes_eqb name' n).
  - rewrite IH. destruct (bytes_eqb name' n) eqn:E2; [|done]. apply bytes_eqb_true in E2 as ->.
    destruct (bytes_eqb n name) eqn:E3; [|done]. apply bytes_eqb_true in E3 as ->. by rewrite (proj2 (bytes_eqb_true _ _)) in E1.
Qed.
Lemma tree_put_same p new t t' : tree_put p new t = Some t' -> tree_get p t' = Some new.
Proof.
  revert t t'. induction p as [|name p IH]; intros t t'; cbn [tree_put]; [by intros [= ->]|].
  destruct t as [l| |]; [|done..]. destruct p as [|n p].
  - intros [= <-]. cbn [tree_get]. by rewrite get_set_entry, (proj2 (bytes_eqb_true _ _)).
  - destruct (get_entry name l) as [child|]; [|done]. cbn [option_bind]. destruct (tree_put (n :: p) new child) as [child'|] eqn:E; [|done].
    intros [= <-]. apply IH in E. change (tree_get (name :: n :: p) (T_Dir (set_entry name child' l)))
      with (get_entry name (set_entry name child' l) ≫= tree_get (n :: p)). by rewrite get_set_entry, (proj2 (bytes_eqb_true _ _)).
Qed.
Lemma tree_put_other p new t t' q contents : tree_put p new t = Some t' -> ~ p `prefix_of` q ->
  tree_get q t = Some (T_File contents) -> tree_get q t' = Some (T_File contents).
Proof.
  revert t t' q. induction p as [|name p IH]; intros t t' q; [intros _ Hq; by destruct Hq; apply prefix_nil|].
  cbn [tree_put]. destruct t as [l| |]; [|done..]. intros Hput Hq. destruct q as [|n q]; [done|].
  change (tree_get (n :: q) (T_Dir l)) with (get_entry n l ≫= tree_get q).
  assert (Hset : forall x, (n = name -> forall y, get_entry name l = Some y -> tree_get q y = Some (T_File contents) -> tree_get q x = Some (T_File contents)) ->
    get_entry n l ≫= tree_get q = Some (T_File contents) -> tree_get (n :: q) (T_Dir (set_entry name x l)) = Some (T_File contents)).
  { intros x Hx H. change (get_entry n (set_entry name x l) ≫= tree_get q = Some (T_File contents)). rewrite get_set_entry.
    destruct (bytes_eqb n name) eqn:E; [|done]. apply bytes_eqb_true in E as ->. destruct (get_entry name l) as [y|] eqn:Ey; [|done]. by apply (Hx eq_refl y). }
  destruct p as [|n2 p].
  - injection Hput as <-. apply Hset. intros ->. exfalso. apply Hq. apply prefix_cons, prefix_nil.
  - destruct (get_entry name l) as [child|] eqn:Ec; [|done]. cbn [option_bind] in Hput.
    destruct (tree_put (n2 :: p) new child) as [child'|] eqn:E; [|done]. injection Hput as <-. apply Hset.
    intros -> y [= <-] Hy. eapply IH; [exact E| |exact Hy]. intros Hp. apply Hq. by apply prefix_cons.
Qed.
Lemma mkdirs_other p t t' q contents : tree_mkdirs p t = Some t' -> tree_get q t = Some (T_File contents) -> tree_get q t' = Some (T_File contents).
Proof.
  revert t t' q. induction p as [|name p IH]; intros t t' q; cbn [tree_mkdirs]; [by destruct t; intros [= ->]|].
  destruct t as [l| |]; [|done..]. destruct (tree_mkdirs p _) as [child|] eqn:E; [|done]. intros [= <-]. destruct q as [|n q]; [done|].
  change (get_entry n l ≫= tree_get q = Some (T_File contents) -> get_entry n (set_entry name child l) ≫= tree_get q = Some (T_File contents)).
  rewrite get_set_entry. destruct (bytes_eqb n name) eqn:En; [|done]. apply bytes_eqb_true in En as ->.
  destruct (get_entry name l) as [y|] eqn:Ey; [|done]. cbn [mbind option_bind default from_option] in *. by apply IH.
Qed.
(** What a file at [q] keeps while other paths are worked on. *)
Definition keeps_file (temporary : bytes) (q : list bytes) : relation (bytes -> option tree) := fun s s' =>
  forall contents, s temporary ≫= tree_get q = Some (T_File contents) -> s' temporary ≫= tree_get q = Some (T_File contents).
#[local] Instance keeps_file_preorder temporary q : PreOrder (keeps_file temporary q).
Proof. split; [by intros s c|]. intros s s1 s2 H1 H2 c Hc. by apply H2, H1. Qed.
Lemma edit_keeps temporary q p f s t t' : ~ p `prefix_of` q -> edit p f -> s temporary = Some t -> f t = Some t' ->
  keeps_file temporary q s (set_path temporary (Some t') s).
Proof.
  intros Hq He Ht Hf contents. unfold set_path. rewrite decide_True by done. rewrite Ht. cbn [mbind option_bind]. intros H.
  destruct He as [| |new|target]; [by eapply mkdirs_other|..|]; try by eapply tree_put_other.
  - unfold create_file in Hf. destruct (tree_get p t) as [[]|]; try done; by eapply tree_put_other.
  - destruct (tree_get p t); [done|]. by eapply tree_put_other.
Qed.
Lemma check_end operation p n condition d d' : Materialize.check fault operation p n condition d = (Ok tt, d') -> d' = d.
Proof. destruct (check_run operation p n condition d) as [E|[k E]]; rewrite E; congruence. Qed.
Lemma write_file_holds temporary p contents keep d d' : write_file temporary p contents keep d = (Ok tt, d') ->
  at_path d' temporary ≫= tree_get p = Some (T_File contents).
Proof.
  unfold Materialize.write_file, store_check. intros H.
  apply check_then in H as [H|[_ [e [=]]]]. apply sbind_ok in H as ([] & d1 & _ & H). apply check_then in H as [H|[_ [e [=]]]].
  apply sbind_ok in H as ([] & d2 & _ & H). apply check_then in H as [H|[_ [e [=]]]]. apply sbind_ok in H as ([] & d3 & Hput & H).
  assert (d' = d3) as ->.
  { apply sbind_ok in H as ([] & d4 & Hk & H). apply check_end in H as ->. destruct keep; [by apply check_end in Hk|by injection Hk]. }
  unfold Materialize.stage, sbind, look in Hput. destruct (at_path d2 temporary) as [t|]; [|done]. cbn [mbind option_bind] in Hput.
  destruct (tree_put p (T_File contents) t) as [t'|] eqn:E; [|done]. injection Hput as <-. cbn [at_path]. unfold set_path.
  rewrite decide_True by done. cbn. by eapply tree_put_same.
Qed.

(** The complete tree holds every rendered file, byte for byte, that no later entry covers. *)
Theorem complete_holds es t before destination_ contents after_ : complete es t -> es = before ++ RenderedFile destination_ contents :: after_ ->
  Forall (fun e => ~ names_of (destination e) `prefix_of` names_of destination_) after_ ->
  tree_get (names_of destination_) t = Some (T_File contents).
Proof.
  intros (temporary & d0 & d1 & _ & H & Ht) -> Hafter.
  assert (Happ : forall l1 l2 d d', each (apply_entry temporary) (l1 ++ l2) d = (Ok tt, d') -> exists d2, each (apply_entry temporary) l2 d2 = (Ok tt, d')).
  { induction l1 as [|x l1 IH]; intros l2 d d' Hl; [by exists d|]. cbn [app each] in Hl. apply sbind_ok in Hl as ([] & d2 & _ & Hl). by eapply IH. }
  destruct (Happ _ _ _ _ H) as [d2 H2]. cbn [each] in H2. apply sbind_ok in H2 as ([] & d3 & Hw & Hrest).
  assert (Hfile : at_path d3 temporary ≫= tree_get (names_of destination_) = Some (T_File contents)).
  { unfold Materialize.apply_entry in Hw. destruct (negb _); [done|]. by eapply write_file_holds. }
  assert (Halong : along (keeps_file temporary (names_of destination_)) (each (apply_entry temporary) after_)).
  { clear - Hafter. induction Hafter as [|e l He Hl IH]; [apply along_ret; tc_solve|]. apply along_bind; [tc_solve| |intros _; exact IH].
    apply (along_apply_entry _ temporary (fun p => ~ p `prefix_of` names_of destination_)).
    - intros p name Hp Hq. apply Hp. etrans; [|exact Hq]. by exists [name].
    - intros p f s x x' Hp. by apply edit_keeps.
    - exact He. }
  destruct (Halong _ _ _ Hrest) as (_ & _ & _ & Hk). specialize (Hk _ Hfile). by rewrite Ht in Hk.
Qed.

(* ------------------------------------------------------------------ *)
(** ** A copied directory whose parent nobody made *)

(** The staged tree has nothing of that name. *)
Definition lacking (temporary x : bytes) (s : bytes -> option tree) : Prop := exists l, s temporary = Some (T_Dir l) /\ get_entry x l = None.
Definition keeps_lacking (temporary x : bytes) : relation (bytes -> option tree) := fun s s' => lacking temporary x s -> lacking temporary x s'.
#[local] Instance keeps_lacking_preorder temporary x : PreOrder (keeps_lacking temporary x).
Proof. split; [by intros s H|]. intros s s1 s2 H1 H2 H. by apply H2, H1. Qed.
Lemma lacking_set temporary x y child l s : y <> x -> get_entry x l = None ->
  lacking temporary x (set_path temporary (Some (T_Dir (set_entry y child l))) s).
Proof.
  intros Hy Hx. exists (set_entry y child l). unfold set_path. rewrite decide_True by done. split; [done|]. rewrite get_set_entry.
  destruct (bytes_eqb x y) eqn:E; [|done]. apply bytes_eqb_true in E. congruence.
Qed.
Lemma put_root y rest new l t : tree_put (y :: rest) new (T_Dir l) = Some t -> exists child, t = T_Dir (set_entry y child l).
Proof.
  cbn [tree_put]. destruct rest; [intros [= <-]; by eexists|]. destruct (get_entry y l) as [c|]; [|done]. cbn [option_bind].
  destruct (tree_put _ new c) as [c'|]; [|done]. intros [= <-]. by exists c'.
Qed.
Lemma mkdirs_root y rest l t : tree_mkdirs (removelast (y :: rest)) (T_Dir l) = Some t -> t = T_Dir l \/ exists child, t = T_Dir (set_entry y child l).
Proof.
  destruct rest as [|z rest]; [cbn; intros [= <-]; by left|]. change (removelast (y :: z :: rest)) with (y :: removelast (z :: rest)). cbn [tree_mkdirs].
  destruct (tree_mkdirs _ _) as [c|]; [|done]. intros [= <-]. right. by exists c.
Qed.
Lemma edit_lacking temporary x y rest f s t t' : y <> x -> edit (y :: rest) f -> s temporary = Some t -> f t = Some t' ->
  keeps_lacking temporary x s (set_path temporary (Some t') s).
Proof.
  intros Hy He Ht Hf (l & Hl & Hx). rewrite Ht in Hl. injection Hl as ->.
  assert (Hput : forall new, tree_put (y :: rest) new (T_Dir l) = Some t' -> lacking temporary x (set_path temporary (Some t') s)).
  { intros new H. apply put_root in H as [child ->]. by apply lacking_set. }
  destruct He as [| |new|target].
  - apply mkdirs_root in Hf as [->|[child ->]]; [|by apply lacking_set]. exists l. unfold set_path. by rewrite decide_True.
  - unfold create_file in Hf. destruct (tree_get _ _) as [[]|]; try done; by eapply Hput.
  - by eapply Hput.
  - destruct (tree_get _ _); [done|]. by eapply Hput.
Qed.
Definition apart_names (x : bytes) (p : list bytes) : Prop := exists y rest, p = y :: rest /\ y <> x.
Lemma apply_entry_lacking temporary x e : apart_names x (names_of (destination e)) -> along (keeps_lacking temporary x) (apply_entry temporary e).
Proof.
  intros He. apply (along_apply_entry _ temporary (apart_names x)); [| |done].
  - intros p name (y & rest & -> & Hy). by exists y, (rest ++ [name]).
  - intros p f s t t' (y & rest & -> & Hy). by apply edit_lacking.
Qed.
Lemma apply_all_lacking temporary x es : Forall (fun e => apart_names x (names_of (destination e))) es ->
  along (keeps_lacking temporary x) (each (apply_entry temporary) es).
Proof.
  induction 1 as [|e es He _ IH]; [apply along_ret; tc_solve|]. cbn [each]. apply along_bind; [tc_solve|by apply apply_entry_lacking|by intros _].
Qed.
Lemma create_dir_lacking temporary x name d : lacking temporary x (at_path d) -> exists e, create_dir temporary [x; name] d = (Err e, d).
Proof.
  intros (l & Hl & Hx). unfold Materialize.create_dir. unfold sbind at 1, look at 1. rewrite Hl. cbn [mbind option_bind tree_get]. rewrite Hx. cbn [option_bind].
  unfold store_check. unfold sbind at 1.
  match goal with |- context [Materialize.check _ ?o ?p ?n ?c ?dd] => destruct (check_run o p n c dd) as [E|[k E]] end; rewrite E; [|by eexists].
  unfold Materialize.stage, sbind, look. rewrite Hl. cbn [mbind option_bind tree_put]. rewrite Hx. by eexists.
Qed.
Lemma copy_tree_lacking temporary x name s d : lacking temporary x (at_path d) -> exists e, copy_tree fault temporary s [x; name] d = (Err e, d).
Proof.
  intros Hl. unfold copy_tree. destruct (create_dir_lacking temporary x name d Hl) as [e E].
  destruct s as [listing| | | |[]]; try by eexists.
  cbn [Materialize.copy_entry]. rewrite (sbind_run_err _ _ _ _ _ E). by eexists.
Qed.
Lemma each_app_run {A} (f : A -> act unit) a b d :
  each f (a ++ b) d = match each f a d with (Ok _, d1) => each f b d1 | (Err e, d1) => (Err e, d1) end.
Proof.
  revert d. induction a as [|x a IH]; intros d; [done|]. cbn [app each]. unfold sbind. destruct (f x d) as [[u|e] d1]; [apply IH|done].
Qed.
(** The copy of a directory below one that no entry before it makes fails, whatever it holds. *)
Lemma nested_tree_fails temporary x name before source destination_ after d : at_path d temporary = Some (T_Dir []) ->
  Forall (fun e => apart_names x (names_of (destination e))) before -> names_of destination_ = [x; name] ->
  exists e, fst (each (apply_entry temporary) (before ++ CopiedTree source destination_ :: after) d) = Err e.
Proof.
  intros Hd Hbefore Hn. rewrite each_app_run. destruct (each (apply_entry temporary) before d) as [[[]|e] d1] eqn:E; [|by eexists].
  destruct (apply_all_lacking temporary x before Hbefore _ _ _ E) as (_ & _ & _ & Hk). specialize (Hk ltac:(by exists [])).
  cbn [each]. unfold sbind at 1, Materialize.apply_entry at 1. destruct (negb _); [by eexists|]. cbn [destination]. rewrite Hn.
  destruct (copy_tree_lacking temporary x name (source_at source) d1 Hk) as [e ->]. by eexists.
Qed.

Lemma fails_bind {A B} (m : act A) (k : A -> act B) d : (forall a d1, m d = (Ok a, d1) -> exists e, fst (k a d1) = Err e) -> exists e, fst (sbind m k d) = Err e.
Proof. intros H. unfold sbind. destruct (m d) as [[a|e] d1]; [by apply H|by eexists]. Qed.
Lemma fails_first {A B} (m : act A) (k : A -> act B) d : (exists e, fst (m d) = Err e) -> exists e, fst (sbind m k d) = Err e.
Proof. intros [e H]. unfold sbind. destruct (m d) as [[a|e'] d1]; [done|by eexists]. Qed.
Lemma fails_guarded {A} (m : act A) c d : (exists e, fst (m d) = Err e) -> exists e, fst (guarded m c d) = Err e.
Proof. intros [e H]. unfold guarded. destruct (m d) as [[a|e'] d1]; [done|by eexists]. Qed.
Lemma answer_ok {A} (r : result A Failure) d a d1 : answer_of r d = (Ok a, d1) -> r = Ok a /\ d = d1.
Proof. by intros [= -> ->]. Qed.
Section extended.
Context (from_slice : bytes -> option Value) (toml : toml_parser) (to_vec_pretty : Value -> option bytes) (probe_report : bytes -> option ProbeReport).
Context (OPTIONS_MODULE REPORT_MODULE : bytes) (EMBEDDED_TREE : list (bytes * bytes)) (h : flake_host).
Context (roots : XdgRoots) (selected : ResolvedArtifact) (sandbox_id target manifest_source value : bytes) (manifest : Manifest) (workspaces : list bytes)
        (baseline : BaselineInputs).
Notation MANIFESTS := (bs "manifests").
Context (Hname : names_of (join MANIFESTS (ra_name selected)) = [MANIFESTS; ra_name selected])
        (Hembedded : Forall (fun '(relative, _) => apart_names MANIFESTS (names_of (join EMBEDDED_TREE_DIRECTORY relative))) EMBEDDED_TREE)
        (Hextends : extends manifest = Some value).

Lemma resolved_extension c : resolve toml h roots sandbox_id target selected manifest = Ok c ->
  exists e, rc_extends c = Some e /\ manifest_name e = ra_name selected.
Proof.
  unfold resolve. rewrite Hextends. intros H. inv_ok. cbn [rc_extends]. eexists. split; [done|].
  match goal with E : resolve_extends _ _ _ = Ok _ |- _ => revert E end. unfold resolve_extends. intros E. inv_ok. by case_match; simplify_eq.
Qed.
Lemma plan_has_extension c base plan : resolve toml h roots sandbox_id target selected manifest = Ok c ->
  plan_of from_slice to_vec_pretty OPTIONS_MODULE REPORT_MODULE EMBEDDED_TREE h roots selected manifest_source manifest workspaces c baseline base = Ok plan ->
  exists before source after, entries plan = before ++ CopiedTree source (join MANIFESTS (ra_name selected)) :: after /\
    Forall (fun e => apart_names MANIFESTS (names_of (destination e))) before.
Proof.
  intros (e & He & Hm)%resolved_extension. unfold plan_of, build. rewrite He. destruct (lock_entries _ _ _ _) as [[lock migrated]|f]; [cbn [rbind]|done].
  destruct (for_each _ _) as [u|f]; [|done]. intros H. injection H as <-. cbn [entries]. rewrite Hm.
  match goal with |- context [?e1 :: ?e2 :: ?e3 :: ?e4 :: ?e5 :: ?e6 :: ?e7 :: map ?f ?l ++ _] =>
    exists ([e1; e2; e3; e4; e5; e6; e7] ++ map f l), (re_directory e), lock end.
  split; [by rewrite <- !app_assoc|]. apply Forall_app. split.
  - repeat (apply Forall_cons_2; [cbn [destination]; eexists _, _; split; [vm_compute; reflexivity|done]|]). apply Forall_nil_2.
  - apply Forall_map. eapply Forall_impl; [exact Hembedded|]. by intros [relative contents].
Qed.
Lemma extension_unapplied c base plan temporary d : resolve toml h roots sandbox_id target selected manifest = Ok c ->
  plan_of from_slice to_vec_pretty OPTIONS_MODULE REPORT_MODULE EMBEDDED_TREE h roots selected manifest_source manifest workspaces c baseline base = Ok plan ->
  at_path d temporary = Some (T_Dir []) -> exists e, fst (each (apply_entry temporary) (entries plan) d) = Err e.
Proof.
  intros Hc Hp Hd. destruct (plan_has_extension _ _ _ Hc Hp) as (before & source & after & -> & Hb). by eapply nested_tree_fails.
Qed.
(** C33: No manifest with an extension can be prepared. The plan copies the manifest's directory to [manifests/<name>] of
    the staged tree, the copy makes that directory alone, and nothing makes [manifests] before it; so whatever the host
    holds and whatever fails, neither the tree of a start nor that of an update is ever complete. *)
Theorem extended_manifest_is_never_prepared (d : disk) :
  (exists e, fst (prepare_generated_flake fault rival remains source_at pid from_slice toml to_vec_pretty probe_report OPTIONS_MODULE REPORT_MODULE EMBEDDED_TREE
     h roots sandbox_id target selected manifest_source manifest workspaces baseline d) = Err e) /\
  (exists e, fst (prepare_update_tree fault remains source_at pid from_slice toml to_vec_pretty probe_report OPTIONS_MODULE REPORT_MODULE EMBEDDED_TREE
     h roots sandbox_id target selected manifest_source manifest workspaces baseline d) = Err e).
Proof.
  split.
  - unfold prepare_generated_flake. apply fails_bind. intros c d1 [Hc <-]%answer_ok. apply fails_bind. intros base d1 _. apply fails_bind. intros plan d2 [Hp <-]%answer_ok.
    unfold publish. apply fails_bind. intros parent d2 _. apply fails_bind. intros _ d3 _. apply fails_bind. intros temporary d4 [_ Htemp]%create_temp_ok; [|left].
    apply fails_guarded, fails_first. destruct (Htemp _ eq_refl) as (_ & _ & Hd). by eapply extension_unapplied.
  - unfold prepare_update_tree. apply fails_bind. intros c d1 [Hc <-]%answer_ok. destruct (rc_lock c); [by eexists| |];
    (apply fails_bind; intros base d1 _; apply fails_bind; intros plan d2 [Hp <-]%answer_ok; apply fails_bind; intros parent d2 _; apply fails_bind; intros _ d3 _;
     apply fails_bind; intros temporary d4 [_ Htemp]%create_temp_ok; [|left]; apply fails_first, fails_guarded;
     destruct (Htemp _ eq_refl) as (_ & _ & Hd); by eapply extension_unapplied).
Qed.
End extended.

(* ------------------------------------------------------------------ *)
(** ** The first pin *)

Section pin.
Context (from_slice : bytes -> option Value) (prepared : PreparedFlake) (owned : bytes).
Context (Howned : ~ staged owned) (Hmissing : pf_lock prepared = OwnedMissing owned).

Definition generated (d : disk) (contents : bytes) : Prop := at_path d (pf_directory prepared) ≫= tree_get [LOCK_FILE] = Some (T_File contents).
(** What the disk may show while a first pin is installed. *)
Definition pinning (d : disk) (s : bytes -> option tree) : Prop :=
  (forall q, ~ staged q -> q <> owned -> s q = at_path d q) /\
  (s owned = at_path d owned \/ (is_Some (rival owned) /\ s owned = rival owned) \/
   (at_path d owned = None /\ rival owned = None /\
    exists contents, generated d contents /\ composed_lock_failure from_slice contents = Ok tt /\ s owned = Some (T_File contents))).
Lemma pinning_stable d : stable staged (pinning d).
Proof. intros s s' Hs [H1 H2]. split; [intros q Hq Ho; rewrite Hs by done; by apply H1|]. by rewrite !Hs by done. Qed.
Lemma pinning_start d : pinning d (at_path d).
Proof. split; [done|by left]. Qed.
(** What is in force when the installation succeeds. *)
Definition pinned (d d' : disk) : Prop :=
  exists contents, generated d contents /\ composed_lock_failure from_slice contents = Ok tt /\ at_path d' owned = Some (T_File contents).

Lemma read_file_ok p t condition d contents d' : read_file fault p t condition d = (Ok contents, d') -> d' = d /\ t = Some (T_File contents).
Proof.
  unfold read_file, lock_check. intros [H|[_ [e [=]]]]%check_then. destruct t as [[|c|]|]; [done| |done..]. by injection H as <- <-.
Qed.
Lemma read_file_same p t condition d r d' : read_file fault p t condition d = (r, d') -> d' = d.
Proof. unfold read_file, lock_check. intros [H|[-> _]]%check_then; [|done]. destruct t as [[|c|]|]; by injection H as _ <-. Qed.
Lemma install_first_pin_ok temporary contents parent d0 d r d' : staged temporary -> pinning d0 (at_path d) -> at_path d temporary = Some (T_File contents) ->
  generated d0 contents -> composed_lock_failure from_slice contents = Ok tt ->
  (at_path d owned = None -> at_path d0 owned = None /\ rival owned = None) ->
  install_first_pin fault owned temporary contents parent d = (r, d') ->
  through d d' (pinning d0) /\ (forall l, r = Ok l -> l = OwnedExisting owned /\ pinned d0 d').
Proof.
  intros Hst Hp Ht Hg Hv Hnone H. unfold install_first_pin, lock_check in H. assert (Hrefl : through d d (pinning d0)) by by apply through_refl.
  apply check_then in H as [H|[-> [e ->]]]; [|by split].
  unfold sbind at 1, look in H. destruct (at_path d owned) as [winner|] eqn:Eo.
  - apply sbind_split in H as [(theirs & d1 & H1 & H)|(e & H1 & ->)]; [|by apply read_file_same in H1 as ->].
    apply read_file_ok in H1 as [-> Hw]. injection Hw as ->.
    assert (Hrm : touches staged (remove_file_if_exists temporary)) by (apply along_remove_file; [tc_solve|by apply outside_put]).
    apply sbind_split in H as [([] & d2 & H2 & H)|(e & H2 & ->)];
      pose proof (through_stable _ _ _ _ _ _ Hrm (pinning_stable d0) Hp H2) as T2; [|by split].
    destruct (Hrm _ _ _ H2) as (_ & _ & _ & Hframe).
    destruct (bytes_eqb theirs contents) eqn:Eb; injection H as <- <-; [|by split]. split; [done|]. intros l [= <-]. split; [done|].
    exists contents. apply bytes_eqb_true in Eb as ->. split; [done|]. split; [done|]. by rewrite Hframe.
  - destruct (Hnone eq_refl) as [Hd0 Hr0]. destruct (move_step temporary owned contents d Hst Howned Ht) as [Hm [Hf _]].
    assert (Hs : pinning d0 (move temporary owned (at_path d))).
    { destruct Hp as [Hp _]. split; [intros q Hq Hqo; rewrite Hf by done; by apply Hp|]. right. right. split; [done|]. split; [done|]. by exists contents. }
    unfold sbind at 1, become in H. set (d1 := mk_disk _ _ _) in H.
    assert (T1 : through d d1 (pinning d0)) by (eapply through_step; [exact Hs|]; by apply through_refl).
    unfold sync_directory in H. apply check_then in H as [H|[-> [e ->]]]; [|by split].
    injection H as <- <-. split; [done|]. intros l [= <-]. split; [done|]. by exists contents.
Qed.

(** The closure: the staged bytes, whatever a rival does meanwhile, and the installation. *)
Lemma pin_closure_ok temporary contents parent d0 d r d' : staged temporary -> pinning d0 (at_path d) -> at_path d owned = at_path d0 owned ->
  generated d0 contents -> composed_lock_failure from_slice contents = Ok tt ->
  (write_staged fault temporary contents "persist-write" "persist-sync" ;; interference rival owned ;;
   install_first_pin fault owned temporary contents parent) d = (r, d') ->
  through d d' (pinning d0) /\ (forall l, r = Ok l -> l = OwnedExisting owned /\ pinned d0 d').
Proof.
  intros Hst Hp Ho Hg Hv H. assert (Hne : owned <> temporary) by congruence.
  assert (Hw : forall r1 d1, write_staged fault temporary contents "persist-write" "persist-sync" d = (r1, d1) -> through d d1 (pinning d0)).
  { intros r1 d1 Hw. destruct (write_staged_ok _ _ _ _ _ _ _ Hw) as [Hth _]. eapply through_impl; [|exact Hth].
    intros s Hs. eapply pinning_stable; [|exact Hp]. intros q Hq. apply Hs. congruence. }
  apply sbind_split in H as [([] & d1 & H1 & H)|(e & H1 & ->)]; pose proof (Hw _ _ H1) as T1; [|by split].
  destruct (write_staged_ok _ _ _ _ _ _ _ H1) as [(_ & _ & _ & Hframe) Hok]. specialize (Hok eq_refl).
  pose proof T1 as (_ & _ & _ & P1). unfold sbind at 1, interference in H. destruct (rival owned) as [other|] eqn:Er.
  - unfold put, become in H. set (s2 := set_path owned (Some other) (at_path d1)) in H. set (d2 := mk_disk s2 _ _) in H.
    assert (Hs2o : s2 owned = Some other) by (unfold s2, set_path; by rewrite decide_True).
    assert (P2 : pinning d0 s2).
    { destruct P1 as [P1 _]. split; [intros q Hq Hqo; unfold s2, set_path; rewrite decide_False by done; by apply P1|].
      right. left. by rewrite Er, Hs2o. }
    assert (Ht2 : at_path d2 temporary = Some (T_File contents)) by (cbn; unfold s2, set_path; by rewrite decide_False by congruence).
    destruct (install_first_pin_ok _ _ _ d0 d2 _ _ Hst P2 Ht2 Hg Hv ltac:(cbn; congruence) H) as [T2 Hok2].
    split; [|done]. eapply through_trans; [exact T1|]. by eapply through_step.
  - destruct (install_first_pin_ok _ _ _ _ _ _ _ Hst P1 Hok Hg Hv ltac:(rewrite Hframe, Ho by done; done) H) as [T2 Hok2].
    split; [|done]. by eapply through_trans.
Qed.

(** A first pin replaces no other: at every moment the owned lock is what it was, what a rival installed, or - where
    there was none - the generated lock, and that only after the composed check passed.  Success says the pin in force is
    the generated one, checked; a different one that won is a race. *)
Theorem first_pin_replaces_nothing d r d' : persist_created_lock fault rival pid from_slice prepared d = (r, d') ->
  through d d' (pinning d) /\ (forall l, r = Ok l -> l = OwnedExisting owned /\ pinned d d').
Proof.
  intros H. unfold persist_created_lock in H. rewrite Hmissing in H. assert (Hstart : through d d (pinning d)) by apply through_refl, pinning_start.
  unfold sbind at 1, look in H. apply sbind_split in H as [(contents & d1 & H1 & H)|(e & H1 & ->)]; [|by apply read_file_same in H1 as ->].
  apply read_file_ok in H1 as [-> Hg].
  apply sbind_split in H as [([] & d1 & H1 & H)|(e & H1 & ->)]; injection H1 as Hv <-; [|by split].
  apply sbind_split in H as [(parent & d1 & H1 & H)|(e & H1 & ->)]; injection H1 as _ <-; [|by split].
  unfold lock_check at 1 in H. apply check_then in H as [H|[-> [e ->]]]; [|by split].
  apply sbind_split in H as [(temporary & d1 & H1 & H)|(e & H1 & ->)];
    destruct (create_temp_ok _ _ _ _ _ _ _ _ _ _ _ (ltac:(right; left)) H1) as [Hc Htemp];
    (assert (T1 : through d _ (pinning d)) by (eapply through_impl; [|exact Hc]; intros s Hs; eapply pinning_stable; [exact Hs|apply pinning_start])); [|by split].
  destruct (Htemp temporary eq_refl) as (Hst & _ & _). pose proof T1 as (_ & _ & _ & P1). destruct Hc as (_ & _ & _ & Hc).
  apply guarded_split in H as [(l & H & ->)|(e & d2 & H & -> & Hclean)];
    destruct (pin_closure_ok _ _ _ _ _ _ _ Hst P1 (Hc owned Howned) Hg ltac:(by destruct (composed_lock_failure from_slice contents) as [[]|]) H) as [T2 Hok].
  - split; [by eapply through_trans|]. intros l' [= <-]. by apply Hok.
  - split; [|done]. eapply through_trans; [exact T1|]. eapply through_trans; [exact T2|].
    eapply (through_stable staged); [|exact (pinning_stable d)| |exact Hclean]; [|by destruct T2 as (_ & _ & _ & ?)].
    apply along_remove_file; [tc_solve|by apply outside_put].
Qed.
End pin.
End disk.

(* ------------------------------------------------------------------ *)
(** ** Instances *)

Lemma last_join p x b : is_absolute x = false -> last x = Some b -> last (join p x) = Some b.
Proof.
  intros Ha Hx. unfold join. rewrite Ha. destruct (last p) as [y|]; [|done].
  destruct (decide (y = slash)); rewrite last_app; [by rewrite Hx|]. destruct x as [|c x]; [done|]. by rewrite last_cons_cons, Hx.
Qed.
Lemma staged_last pid q : staged pid q -> last q = Some "p"%byte \/ last q = Some "w"%byte.
Proof.
  intros (parent & stem & suffix & id & Hs & ->). unfold unique_path.
  assert (Hl : forall b, last suffix = Some b -> last (join parent (bs "." ++ stem ++ bs ".vivarium-" ++ dec pid ++ bs "-" ++ dec id ++ bs "." ++ suffix)) = Some b).
  { intros b Hb. apply last_join; [done|]. rewrite !last_app, Hb. done. }
  rewrite !elem_of_cons, elem_of_nil in Hs. destruct Hs as [->|[->|[]]]; [left|right]; by apply Hl.
Qed.

(** The paths of a target, and the lock it is pinned by. *)
Lemma target_paths_last roots sandbox_id target selected paths : is_absolute target = false -> last target = Some "t"%byte ->
  target_paths roots sandbox_id target selected = Ok paths -> last (owned_lock paths) = Some "k"%byte /\ last (gp_directory paths) = Some "t"%byte.
Proof. intros Ha Hl H. unfold target_paths in H. inv_ok. cbn [owned_lock gp_directory]. split; by apply last_join. Qed.
Lemma select_owned h paths l : select_lock h paths = Ok l -> (exists p, l = Override p) \/ lock_path l = owned_lock paths.
Proof.
  unfold select_lock. intros H. destruct (match override_lock paths with Some _ => _ | None => _ end) as [[p|]|e]; [|cbn in H|done].
  - injection H as <-. left. by exists p.
  - destruct (probe_lock h (owned_lock paths)) as [[]|e]; [| |done]; injection H as <-; by right.
Qed.
Lemma plan_paths from_slice to_vec_pretty OPTIONS REPORT TREE h roots selected source manifest workspaces c baseline base plan :
  plan_of from_slice to_vec_pretty OPTIONS REPORT TREE h roots selected source manifest workspaces c baseline base = Ok plan ->
  gf_lock plan = rc_lock c /\ gf_directory plan = gp_directory (rc_paths c).
Proof.
  unfold plan_of, build. intros H. destruct (lock_entries _ _ _ (rc_lock c)) as [[lock migrated]|e]; [cbn [rbind] in H|done].
  destruct (for_each _ _) as [u|e]; [|done]. by injection H as <-.
Qed.
Lemma resolved_paths toml h roots sandbox_id target selected manifest c : resolve toml h roots sandbox_id target selected manifest = Ok c ->
  target_paths roots sandbox_id target selected = Ok (rc_paths c) /\ select_lock h (rc_paths c) = Ok (rc_lock c).
Proof. unfold resolve. intros H. inv_ok. cbn [rc_lock rc_paths]. done. Qed.

Definition no_faults (_ : string) (_ : bytes) : option io_kind := None.
Definition nobody (_ : bytes) : option tree := None.
Definition demo_library (_ : bytes) : source := S_Dir (Ok [Ok (bs "dev.nix", S_File (Ok (bs "{ }")))]).
Definition demo_owned : bytes := bs "/d/p/flake.lock".
Definition demo_destination : bytes := bs "/k/flakes/p/default".
Definition demo_plan : GeneratedFlakePlan :=
  mk_GeneratedFlakePlan demo_destination
    [RenderedFile (bs "flake.nix") (bs "{ }"); CopiedTree (bs "/c/images") (bs "images"); RenderedFile (bs "vivarium/nix/default.nix") (bs "x");
     RenderedFile LOCK_FILE (bs "new")]
    (OwnedExisting demo_owned) (Some (bs "new")) None.
Definition demo_names (p : bytes) : option tree :=
  if bytes_eqb p demo_owned then Some (T_File (bs "old")) else if bytes_eqb p demo_destination then Some (T_Dir [(bs "flake.nix", T_File (bs "old"))]) else None.
Definition demo_publish : result PreparedFlake Failure * disk :=
  publish no_faults nobody nobody demo_library 7 demo_plan (mk_disk demo_names [] 0).
Lemma demo_not_staged : ~ staged 7 demo_destination /\ ~ staged 7 demo_owned /\ demo_destination <> demo_owned.
Proof. split_and!; [intros [H|H]%staged_last; discriminate H|intros [H|H]%staged_last; discriminate H|done]. Qed.
Lemma demo_published : fst demo_publish = Ok (mk_PreparedFlake demo_destination (OwnedExisting demo_owned) true None).
Proof. vm_compute. reflexivity. Qed.
Lemma publication_is_all_or_nothing_witness :
  through (mk_disk demo_names [] 0) (snd demo_publish) (published no_faults nobody demo_library 7 demo_plan (mk_disk demo_names [] 0)) /\
  at_path (snd demo_publish) demo_owned = Some (T_File (bs "new")).
Proof.
  destruct demo_not_staged as (H1 & H2 & H3).
  destruct (publication_is_all_or_nothing no_faults nobody nobody demo_library 7 demo_plan H1 H2 H3 (mk_disk demo_names [] 0)
    (fst demo_publish) (snd demo_publish) (surjective_pairing _)) as [Hth Hok].
  split; [exact Hth|]. destruct (Hok _ demo_published) as (t & _ & _ & Hm). by apply Hm.
Defined.

Definition demo_prepared : PreparedFlake := mk_PreparedFlake demo_destination (OwnedMissing demo_owned) false None.
Definition demo_built (p : bytes) : option tree := if bytes_eqb p demo_destination then Some (T_Dir [(LOCK_FILE, T_File (bs "{}"))]) else None.
(** A rival installs the very same pin first. *)
Definition demo_rival (p : bytes) : option tree := if bytes_eqb p demo_owned then Some (T_File (bs "{}")) else None.
Definition demo_persist : result EffectiveLock Failure * disk :=
  persist_created_lock no_faults demo_rival 7 (fun _ => None) demo_prepared (mk_disk demo_built [] 0).
Lemma demo_persisted : fst demo_persist = Ok (OwnedExisting demo_owned).
Proof. vm_compute. reflexivity. Qed.
Lemma first_pin_replaces_nothing_witness : at_path (snd demo_persist) demo_owned = Some (T_File (bs "{}")).
Proof.
  destruct (first_pin_replaces_nothing no_faults demo_rival 7 (fun _ => None) demo_prepared demo_owned (proj1 (proj2 demo_not_staged)) eq_refl
    (mk_disk demo_built [] 0) (fst demo_persist) (snd demo_persist) (surjective_pairing _)) as [_ Hok].
  destruct (Hok _ demo_persisted) as [_ (contents & Hg & _ & ->)]. vm_compute in Hg. by injection Hg as <-.
Defined.
Definition demo_staged : disk := mk_disk (fun p => if bytes_eqb p (bs "/k/x") then Some (T_Dir []) else None) [] 0.
Lemma demo_applied : let run := each (apply_entry no_faults demo_library (bs "/k/x")) (entries demo_plan) demo_staged in
  is_ok (fst run) && bool_decide (is_Some (at_path (snd run) (bs "/k/x"))) = true.
Proof. vm_compute. reflexivity. Qed.
Lemma demo_complete : exists t, complete no_faults demo_library (entries demo_plan) t.
Proof.
  pose proof demo_applied as H. cbv zeta in H. unfold complete.
  destruct (each (apply_entry no_faults demo_library (bs "/k/x")) (entries demo_plan) demo_staged) as [[[]|e] d1] eqn:E; [|discriminate H].
  cbn [fst snd is_ok andb] in H. apply bool_decide_eq_true in H as [t Ht]. exists t, (bs "/k/x"), demo_staged, d1.
  split; [reflexivity|]. split; [exact E|exact Ht].
Qed.
Lemma complete_holds_witness : exists t, complete no_faults demo_library (entries demo_plan) t /\
  tree_get [bs "vivarium"; bs "nix"; bs "default.nix"] t = Some (T_File (bs "x")).
Proof.
  destruct demo_complete as [t Hc]. exists t. split; [exact Hc|].
  apply (complete_holds no_faults demo_library (entries demo_plan) t
    [RenderedFile (bs "flake.nix") (bs "{ }"); CopiedTree (bs "/c/images") (bs "images")]
    (bs "vivarium/nix/default.nix") (bs "x") [RenderedFile LOCK_FILE (bs "new")] Hc eq_refl).
  constructor; [|constructor]. intros Hp. apply (bool_decide_eq_true_2 _) in Hp. vm_compute in Hp. discriminate Hp.
Defined.
(** A manifest that names one extension, over an empty disk and with no fault. *)
Definition demo_extended : Manifest := mk_Manifest (bs "dev") [] (Some (bs "host.nix")) None None [] [] [] [] None.
Definition demo_extended_host : flake_host :=
  mk_flake_host (fun _ => Ok true) (fun _ => Err NotFoundKind) (fun p => Ok p) (fun _ => true) (fun _ => Printed []).
Lemma extended_manifest_is_never_prepared_witness :
  let selected := mk_ResolvedArtifact ManifestKind (bs "m") Directory (bs "/c/manifests/m/default.toml") in
  exists e, fst (prepare_generated_flake no_faults nobody nobody demo_library 7 (fun _ => None) (fun _ => Ok []) (fun _ => None) (fun _ => None) [] []
    [(bs "nix/default.nix", bs "x")] demo_extended_host (mk_XdgRoots (bs "/c") (bs "/d") (bs "/s") (bs "/k")) (bs "m") (bs "default") selected [] demo_extended []
    default_baseline (mk_disk nobody [] 0)) = Err e.
Proof.
  intros selected.
  destruct (extended_manifest_is_never_prepared no_faults nobody nobody demo_library 7 (fun _ => None) (fun _ => Ok []) (fun _ => None) (fun _ => None) [] []
    [(bs "nix/default.nix", bs "x")] demo_extended_host (mk_XdgRoots (bs "/c") (bs "/d") (bs "/s") (bs "/k")) selected (bs "m") (bs "default") [] (bs "host.nix")
    demo_extended [] default_baseline ltac:(vm_compute; reflexivity)
    ltac:(apply Forall_cons_2; [eexists _, _; split; [vm_compute; reflexivity|discriminate]|apply Forall_nil_2]) eq_refl (mk_disk nobody [] 0)) as [H _].
  exact H.
Defined.
