(* ===== verification/Doctor.v ===== *)
(** * The probe catalog ([src/src/doctor/], [src/src/cli/doctor.rs], [preflight] of [src/src/cli/lifecycle.rs])

    One list of probes and its two readers: [viv doctor], which runs them all, and the preflight in front of a launch,
    which runs the hard ones.  What a probe reads of the host is a record, the same during one run; what the one probe
    that writes does is kept as effects.  Of a message, what it is about is kept (a version, what a lint found, the names
    of the retained directories); its sentences are not.  What programs print is UTF-8. *)
From S2P Require Import Prelude Bytes Paths Ordered Ip Allowlist Message Mounts Launch Workspace Spec AgentSource Inputs Diagnostic Lifecycle Roots Toml Artifact Manifest Json Volumes Registry Binding.

Inductive Category := C_Tooling | C_Virtualization | C_Permissions | C_Disk | C_Capacity | C_Config | C_Network.
Definition category_str (c : Category) : string :=
  match c with
  | C_Tooling => "tooling" | C_Virtualization => "virtualization" | C_Permissions => "permissions" | C_Disk => "disk"
  | C_Capacity => "capacity" | C_Config => "config" | C_Network => "network"
  end.
Inductive Scope_ := S_Host | S_Project | S_Network.
Definition scope_str (s : Scope_) : string := match s with S_Host => "host" | S_Project => "project" | S_Network => "network" end.
Inductive Severity := Hard | Soft.
#[global] Instance Severity_eq_dec : EqDecision Severity.
Proof. solve_decision. Defined.
Definition severity_str (s : Severity) : string := match s with Hard => "hard" | Soft => "soft" end.
Inductive Status := Pass | Warn | Fail_ | Skipped.
#[global] Instance Status_eq_dec : EqDecision Status.
Proof. solve_decision. Defined.
Definition status_str (s : Status) : string :=
  match s with Pass => "pass" | Warn => "warn" | Fail_ => "fail" | Skipped => "skipped" end.

Record Probe := mk_Probe {
  p_id : string; p_category : Category; p_scope : Scope_; p_severity : Severity; p_code : option ExitKind }.

(** The catalog, its titles left out. *)
Definition CATALOG : list Probe := [
  mk_Probe "nix-present" C_Tooling S_Host Hard (Some Unavailable);
  mk_Probe "nix-version" C_Tooling S_Host Hard (Some Unavailable);
  mk_Probe "nix-flakes-enabled" C_Tooling S_Host Hard (Some Diagnostic.Config);
  mk_Probe "kvm-device-present" C_Virtualization S_Host Hard (Some Unavailable);
  mk_Probe "kvm-device-accessible" C_Permissions S_Host Hard (Some NoPerm);
  mk_Probe "hardware-virt-available" C_Virtualization S_Host Hard (Some Unavailable);
  mk_Probe "host-userns-available" C_Permissions S_Host Hard (Some Unavailable);
  mk_Probe "runtime-dir-usable" C_Permissions S_Host Hard (Some NoPerm);
  mk_Probe "nix-store-disk-space" C_Disk S_Host Soft None;
  mk_Probe "state-dir-free-space" C_Disk S_Host Soft None;
  mk_Probe "host-memory-headroom" C_Capacity S_Host Soft None;
  mk_Probe "host-cgroup2-delegation" C_Permissions S_Host Soft None;
  mk_Probe "host-fd-limit-sufficient" C_Permissions S_Host Soft None;
  mk_Probe "kernel-version-supported" C_Virtualization S_Host Soft None;
  mk_Probe "host-landlock-available" C_Virtualization S_Host Soft None;
  mk_Probe "state-dir-writable" C_Permissions S_Host Soft None;
  mk_Probe "state-manifest-orphans" C_Config S_Host Soft None;
  mk_Probe "cache-dir-writable" C_Permissions S_Host Soft None;
  mk_Probe "data-dir-writable" C_Permissions S_Host Soft None;
  mk_Probe "store-roots-intact" C_Disk S_Host Soft None;
  mk_Probe "host-linger" C_Permissions S_Host Soft None;
  mk_Probe "config-parses" C_Config S_Project Soft None;
  mk_Probe "manifest-resolves" C_Config S_Project Soft None;
  mk_Probe "working-directory-declared" C_Config S_Project Soft None;
  mk_Probe "shared-layer-paths-portable" C_Config S_Project Soft None;
  mk_Probe "manifest-no-inline-secret" C_Config S_Project Soft None;
  mk_Probe "mount-source-not-session-dir" C_Config S_Project Soft None;
  mk_Probe "lock-covers-declared-inputs" C_Config S_Project Soft None;
  mk_Probe "agent-source-usable" C_Config S_Project Soft None;
  mk_Probe "nix-version-currency" C_Network S_Network Soft None;
  mk_Probe "substituter-reachability" C_Network S_Network Soft None;
  mk_Probe "egress-allowlist-dns" C_Network S_Network Soft None].

Record Finding := mk_Finding { f_probe : Probe; f_status : Status; f_quotes : list bytes; f_reason : option string }.
Definition pass (p : Probe) (quotes : list bytes) : Finding := mk_Finding p Pass quotes None.
Definition tripped (p : Probe) (quotes : list bytes) : Finding :=
  mk_Finding p (match p_severity p with Hard => Fail_ | Soft => Warn end) quotes None.
Definition skipped (p : Probe) (reason : string) (quotes : list bytes) : Finding := mk_Finding p Skipped quotes (Some reason).

(** What a run does to the host. *)
Inductive probe_effect := CreateDir (p : bytes) | WriteFlake (p : bytes) | RunMetadata (p : bytes) | RemoveTree (p : bytes).
Definition probed : Type := (Finding * list probe_effect)%type.
Definition quiet (f : Finding) : probed := (f, []).

(** ** Versions and texts *)

(** [str::find] of a needle, as what is before and what is after it. *)
Fixpoint find_str (needle s : bytes) : option (bytes * bytes) :=
  match strip_prefix needle s with
  | Some rest => Some ([], rest)
  | None =>
      match s with
      | [] => None
      | b :: s' => let* (before, after) := find_str needle s' in Some (b :: before, after)
      end
  end.
Definition contains_str (needle s : bytes) : bool := bool_decide (is_Some (find_str needle s)).
Definition trim_start (s : bytes) : bytes := trim_with strip_prefix (length s) s.
Definition parse_u64 (s : bytes) : option Z := parse_uint u64_max s.

Definition pair_leb (a b : Z * Z) : bool := (fst a <? fst b) || ((fst a =? fst b) && (snd a <=? snd b)).
Definition triple : Type := (Z * Z * Z)%type.
Definition triple_leb (a b : triple) : bool :=
  let '(a1, a2, a3) := a in let '(b1, b2, b3) := b in
  (a1 <? b1) || ((a1 =? b1) && pair_leb (a2, a3) (b2, b3)).

Definition NIX_FLOOR : Z * Z := (2, 34).
Definition KERNEL_FLOOR : Z * Z := (5, 13).
(** [split(['.', '-'])]. *)
Definition version_parts (version : bytes) : list bytes :=
  split_on "."%byte (map (fun b => if bool_decide (b = "-"%byte) then "."%byte else b) version).
Definition version_at_least (version : bytes) (floor : Z * Z) : option bool :=
  let* major := version_parts version !! 0%nat in
  let* major := parse_u64 major in
  let* minor := version_parts version !! 1%nat in
  let* minor := parse_u64 minor in
  Some (pair_leb floor (major, minor)).

Definition cpu_virtualization_flag (cpuinfo : bytes) : bool :=
  existsb (fun line => existsb (fun flag => bytes_eqb flag (bs "vmx") || bytes_eqb flag (bs "svm")) (split_whitespace line))
    (List.filter (fun line => starts_with (bs "flags") line || starts_with (bs "Features") line) (lines cpuinfo)).

(* ------------------------------------------------------------------ *)
(** ** What the host answers *)

(** [symlink_metadata]: absence covers [NotFound] and [NotADirectory]. *)
Inductive occupancy := Occupied | Absent_ | Uninspectable.
(** One entry of a [projects] directory: its name, and whether it is a directory through links. *)
Record project_entry := mk_project_entry { pe_name : bytes; pe_is_dir : bool }.
Inductive projects_listing := NoProjects | ProjectsError | ProjectEntries (l : list (option project_entry)).
(** A directory of the runtime root: its name, and the [vm.pid] of each target below when they can be listed. *)
Record runtime_entry := mk_runtime_entry { re_name : bytes; re_targets : option (list file) }.

Record host_world := mk_host_world {
  hw_uid : Z;
  hw_nix_version : run_answer;                     (* [nix --version] *)
  hw_config_json : run_answer;                     (* [nix config show --json] *)
  hw_config_plain : run_answer;                    (* [nix config show experimental-features] *)
  hw_temp_dir : bytes;
  hw_token : nat -> bytes;                         (* the attempt's random token, or the process id *)
  hw_create_dir : bytes -> bool;                   (* [DirBuilder::create], exclusive, mode 0o700 *)
  hw_write_flake : bytes -> bool;
  hw_flake_metadata : bytes -> run_answer;         (* [nix flake metadata path:...] *)
  hw_exists : bytes -> bool;                       (* [Path::exists] *)
  hw_kvm_access : bool;                            (* [access] of [/dev/kvm], read and write *)
  hw_read : bytes -> file;
  hw_occupancy : list Component -> occupancy;
  hw_is_dir : list Component -> bool;
  hw_access : list Component -> bool;              (* write and search permission *)
  hw_statvfs : bytes -> option (Z * Z);            (* [f_bavail], [f_frsize] *)
  hw_metadata : bytes -> option runtime_metadata;
  hw_manifests : library_listing;
  hw_projects : bytes -> projects_listing;
  hw_runtime : bytes -> option (list runtime_entry);
  hw_requisites : bytes -> run_answer;             (* [nix-store --query --requisites] *)
  hw_linger : run_answer }.                        (* [loginctl show-user] *)

(** What the bound project contributes. *)
Record ProjectInputs := mk_ProjectInputs {
  pi_manifest : bytes; pi_artifact : result ResolvedArtifact Failure; pi_parsed : result Manifest.Manifest Failure;
  pi_refusal : option WorkspaceFinding; pi_lock_path : option bytes }.
Record Inputs := mk_Inputs {
  in_variable : Roots.Environment; in_roots : XdgRoots; in_project : option ProjectInputs;
  in_ambiguity : option AmbiguousWorkspaceOwner; in_online : bool; in_runtime_root : option bytes }.
Definition bound_manifest (i : Inputs) : option Manifest.Manifest :=
  let* project := in_project i in ok (pi_parsed project).

Definition u64_wrap (z : Z) : Z := z mod 2 ^ 64.

(* ------------------------------------------------------------------ *)
(** ** The host probes ([doctor/host.rs]) *)

Section host.
Context (from_slice : bytes -> option Value) (w : host_world).

Definition nix_version_output : option bytes :=
  match hw_nix_version w with
  | Exited true stdout => last (split_whitespace stdout)
  | _ => None
  end.
Definition nix_present (p : Probe) : Finding :=
  match nix_version_output with Some version => pass p [version] | None => tripped p [] end.
Definition nix_version (p : Probe) : Finding :=
  match nix_version_output with
  | None => skipped p "not-applicable" []
  | Some version =>
      match version_at_least version NIX_FLOOR with
      | Some true => pass p [version]
      | Some false => tripped p [version]
      | None => skipped p "not-applicable" [version]
      end
  end.

Inductive Reading := NotSpawned | Refused | Features (l : list bytes).
Definition nix_experimental_features_json : Reading :=
  match hw_config_json w with
  | CouldNotRun => NotSpawned
  | Exited false _ => Refused
  | Exited true stdout =>
      match (let* report := from_slice stdout in
             let* feature := vget report (bs "experimental-features") in
             let* value := vget feature (bs "value") in
             let* value := as_array value in Some (omap as_str value)) with
      | Some features => Features features
      | None => Refused
      end
  end.
Definition nix_experimental_features_plain : Reading :=
  match hw_config_plain w with
  | CouldNotRun => NotSpawned
  | Exited false _ => Refused
  | Exited true stdout => Features (split_whitespace stdout)
  end.
(** The two readings in order, the first that gives features last: whether [nix] ran, and what it said. *)
Fixpoint read_features (spawned : bool) (l : list Reading) : bool * option (list bytes) :=
  match l with
  | [] => (spawned, None)
  | NotSpawned :: l => read_features spawned l
  | Refused :: l => read_features true l
  | Features fs :: _ => (true, Some fs)
  end.

(** At most eight names are tried; a name that is occupied is refused, never adopted. *)
Fixpoint create_private_probe_directory (attempts : nat) (n : nat) : option bytes :=
  match attempts with
  | O => None
  | S attempts =>
      let candidate := join (hw_temp_dir w) (bs "viv-flake-probe-" ++ hw_token w n) in
      if hw_create_dir w candidate then Some candidate else create_private_probe_directory attempts (S n)
  end.
Definition nix_reads_a_flake : bool * list probe_effect :=
  match create_private_probe_directory 8 0 with
  | None => (false, [])
  | Some directory =>
      let flake := join directory (bs "flake.nix") in
      let '(outcome, ran) :=
        if hw_write_flake w flake then
          (match hw_flake_metadata w directory with Exited true _ => true | _ => false end, [RunMetadata directory])
        else (false, []) in
      (outcome, [CreateDir directory; WriteFlake flake] ++ ran ++ [RemoveTree directory])
  end.
Definition nix_flakes_enabled (p : Probe) : probed :=
  let '(spawned, features) := read_features false [nix_experimental_features_json; nix_experimental_features_plain] in
  if negb spawned then quiet (skipped p "not-applicable" []) else
  let enabled (name : string) := existsb (bytes_eqb (bs name)) (default [] features) in
  if enabled "nix-command"%string && enabled "flakes"%string then quiet (pass p [])
  else
    let '(reads, effects) := nix_reads_a_flake in
    ((if reads then pass p [] else tripped p (default [] features)), effects).

Definition kvm_device_present (p : Probe) : Finding := if hw_exists w (bs "/dev/kvm") then pass p [] else tripped p [].
Definition kvm_device_accessible (p : Probe) : Finding :=
  if negb (hw_exists w (bs "/dev/kvm")) then skipped p "not-applicable" []
  else if hw_kvm_access w then pass p [] else tripped p [].
Definition hardware_virt_available (p : Probe) : Finding :=
  match read_text (hw_read w (bs "/proc/cpuinfo")) with
  | None => skipped p "not-applicable" []
  | Some cpuinfo => if cpu_virtualization_flag cpuinfo then pass p [] else tripped p []
  end.
Definition says_zero (f : option bytes) : bool :=
  match f with Some text => bytes_eqb (trim text) (bs "0") | None => false end.
Definition host_userns_available (p : Probe) : Finding :=
  if says_zero (read_text (hw_read w (bs "/proc/sys/kernel/unprivileged_userns_clone"))) then tripped p [] else
  match read_text (hw_read w (bs "/proc/sys/user/max_user_namespaces")) with
  | Some ceiling => if bytes_eqb (trim ceiling) (bs "0") then tripped p [] else pass p [trim ceiling]
  | None => skipped p "not-applicable" []
  end.

(** [Path::ancestors]: the path, then each parent. *)
Fixpoint parents_of (r : list Component) : list (list Component) :=
  match r with [] => [] | _ :: r' => rev r :: parents_of r' end.
Definition ancestors (p : bytes) : list (list Component) :=
  parents_of (rev (components p)) ++ (if is_absolute p then [] else [[]]).
(** Whether entries can be created at [root]: what decides is the first ancestor that is there. *)
Fixpoint judged_target (root : list Component) (l : list (list Component)) : result (list Component) (list Component) :=
  match l with
  | [] => Ok root
  | a :: l =>
      match hw_occupancy w a with
      | Occupied => Ok a
      | Absent_ => judged_target root l
      | Uninspectable => Err a
      end
  end.
Definition directory_admits_creation (root : bytes) : result (list Component) (list Component) :=
  let? target := judged_target (components root) (ancestors root) in
  if negb (hw_is_dir w target) then Err target
  else if hw_access w target then Ok target else Err target.
Definition runtime_dir_usable (i : Inputs) (p : Probe) : Finding :=
  match resolve_runtime_root (in_variable i) (hw_metadata w) (hw_uid w) with
  | Err _ => tripped p []
  | Ok root => match directory_admits_creation root with Ok _ => pass p [root] | Err _ => tripped p [] end
  end.

(** ** The soft ones *)

Definition GIB : Z := 1024 * 1024 * 1024.
Definition STORE_FLOOR_BYTES : Z := 10 * GIB.
Definition STATE_FLOOR_BYTES : Z := 5 * GIB.
Definition LARGE_WORKSPACE_DESCRIPTORS : Z := 100000.
Definition free_bytes (path : bytes) : option Z :=
  let* (bavail, frsize) := hw_statvfs w path in Some (u64_wrap (bavail * frsize)).
Definition nix_store_disk_space (p : Probe) : Finding :=
  match free_bytes (bs "/nix/store") with
  | Some free => if free <? STORE_FLOOR_BYTES then tripped p [] else pass p []
  | None => skipped p "not-applicable" []
  end.
(** What the declared volumes could still claim; [size_gib] is a [u32]. *)
Definition declared_claim (m : Manifest.Manifest) : Z :=
  fold_left (fun acc v => u64_wrap (acc + default 0 (Manifest.v_size_gib v) * GIB)) (Manifest.volumes m) 0.
Definition state_dir_free_space (i : Inputs) (p : Probe) : Finding :=
  match free_bytes (Roots.state (in_roots i)) with
  | None => skipped p "not-applicable" []
  | Some free =>
      let claim := match bound_manifest i with
                   | None => STATE_FLOOR_BYTES
                   | Some m => Z.max (declared_claim m) STATE_FLOOR_BYTES
                   end in
      if free <? claim then tripped p [] else pass p []
  end.
Definition bound_ceiling (i : Inputs) : Z :=
  match (let* m := bound_manifest i in let* r := Manifest.resources m in Manifest.mem_mib r) with
  | Some mib => mib * 1024 * 1024
  | None => 0
  end.
Definition host_memory_headroom (i : Inputs) (p : Probe) : Finding :=
  match (let* meminfo := read_text (hw_read w (bs "/proc/meminfo")) in available_memory_bytes meminfo) with
  | None => skipped p "not-applicable" []
  | Some available => if available <? Z.max MEMORY_RESERVE_BYTES (bound_ceiling i) then tripped p [] else pass p []
  end.
Definition controllers_path : bytes :=
  bs "/sys/fs/cgroup/user.slice/user-" ++ dec (hw_uid w) ++ bs ".slice/user@" ++ dec (hw_uid w) ++ bs ".service/cgroup.controllers".
Definition host_cgroup2_delegation (p : Probe) : Finding :=
  match read_text (hw_read w controllers_path) with
  | Some controllers =>
      let has (name : string) := existsb (bytes_eqb (bs name)) (split_whitespace controllers) in
      if has "memory"%string && has "cpu"%string then pass p [trim controllers] else tripped p [trim controllers]
  | None => tripped p []
  end.
(** [doctor/descriptors.rs]: the declared limit and what it leaves a guest. *)
Definition descriptor_check (b : DescriptorBudget) : result (Z * Z * Z * Z) LaunchError :=
  let? allowance := guest_allowance b in Ok (limit b, PINNED_FIXED_RESERVE, effective_worker_count b, allowance).
Definition host_fd_limit_sufficient (p : Probe) : Finding :=
  match descriptor_check default_budget with
  | Ok (declared, _, _, allowance) =>
      if allowance <? LARGE_WORKSPACE_DESCRIPTORS then tripped p [dec allowance; dec LARGE_WORKSPACE_DESCRIPTORS]
      else pass p [dec allowance; dec declared]
  | Err _ => tripped p []
  end.
Definition kernel_version_supported (p : Probe) : Finding :=
  match read_text (hw_read w (bs "/proc/sys/kernel/osrelease")) with
  | None => skipped p "not-applicable" []
  | Some release =>
      let release := trim release in
      match version_at_least release KERNEL_FLOOR with
      | Some true => pass p [release]
      | Some false => tripped p [release]
      | None => skipped p "not-applicable" [release]
      end
  end.
Definition host_landlock_available (p : Probe) : Finding :=
  match read_text (hw_read w (bs "/sys/kernel/security/lsm")) with
  | None => skipped p "not-applicable" []
  | Some lsm =>
      if existsb (fun name => bytes_eqb (trim name) (bs "landlock")) (split_on ","%byte lsm) then pass p [] else tripped p [trim lsm]
  end.
Definition directory_writable (root : bytes) (name : string) (p : Probe) : Finding :=
  match directory_admits_creation root with
  | Ok target => if bool_decide (target = components root) then pass p [root] else pass p [bs name]
  | Err _ => tripped p [bs name]
  end.

(** [entry(name).or_default().push(path)] of a [BTreeMap]. *)
Fixpoint map_push {A} (k : bytes) (v : A) (l : list (bytes * list A)) : list (bytes * list A) :=
  match l with
  | [] => [(k, [v])]
  | (k', vs) :: l' =>
      match ord_cmp k k' with
      | Lt => (k, [v]) :: l
      | Eq => (k', vs ++ [v]) :: l'
      | Gt => (k', vs) :: map_push k v l'
      end
  end.
Definition orphan_step (manifests : list bytes) (projects : bytes) (retained : list (bytes * list bytes)) (e : option project_entry) :
    result (list (bytes * list bytes)) bytes :=
  match e with
  | None => Err projects
  | Some e =>
      Ok (if negb (pe_is_dir e) then retained
          else match to_str (pe_name e) with
               | None => retained
               | Some name => if bool_decide (name ∈ manifests) then retained else map_push name (join projects (pe_name e)) retained
               end)
  end.
Definition orphans_under (manifests : list bytes) (retained : list (bytes * list bytes)) (root : bytes) :
    result (list (bytes * list bytes)) bytes :=
  let projects := join root (bs "projects") in
  match hw_projects w projects with
  | NoProjects => Ok retained
  | ProjectsError => Err projects
  | ProjectEntries es => fold_err (orphan_step manifests projects) es retained
  end.
Definition manifest_orphans (roots : XdgRoots) : result (list (bytes * list bytes)) bytes :=
  match artifact_names (Roots.config roots) ManifestKind (hw_manifests w) with
  | Err _ => Err (join (Roots.config roots) (library ManifestKind))
  | Ok names => fold_err (orphans_under names) [Roots.state roots; Roots.data roots] []
  end.
Definition state_manifest_orphans (i : Inputs) (p : Probe) : Finding :=
  match manifest_orphans (in_roots i) with
  | Err why => skipped p "not-applicable" [why]
  | Ok [] => pass p []
  | Ok orphans => tripped p (concat (map (fun o => fst o :: snd o) orphans))
  end.

(** One name for each live [vm.pid]. *)
Definition running_target (name : bytes) (vm_pid : file) : option bytes :=
  let* raw := read_text vm_pid in
  let* pid := parse_uint u32_max (trim raw) in
  if hw_exists w (bs "/proc/" ++ dec pid) then to_str name else None.
Definition running_projects (runtime_root : bytes) : list bytes :=
  match hw_runtime w runtime_root with
  | None => []
  | Some entries => concat (map (fun e => omap (running_target (re_name e)) (default [] (re_targets e))) entries)
  end.
Definition running_now (i : Inputs) : list bytes :=
  match in_runtime_root i with Some root => running_projects root | None => [] end.
Definition running_build_path (i : Inputs) (sandbox_id : bytes) : bytes :=
  join (join (join (join (Roots.state (in_roots i)) (bs "projects")) sandbox_id) (bs "default")) (bs "running-build").
(** The paths of a listing that are gone, at most three of them. *)
Definition missing_of (requisites : bytes) : list bytes :=
  take 3 (List.filter (fun path => negb (bool_decide (path = [])) && negb (hw_exists w path)) (lines requisites)).
Fixpoint check_closures (i : Inputs) (p : Probe) (total : nat) (running : list bytes) : Finding :=
  match running with
  | [] => pass p [dec (Z.of_nat total)]
  | sandbox_id :: running =>
      match read_text (hw_read w (running_build_path i sandbox_id)) with
      | None => check_closures i p total running
      | Some store_path =>
          match hw_requisites w (trim store_path) with
          | CouldNotRun => skipped p "not-applicable" []
          | Exited false _ => tripped p [sandbox_id; trim store_path]
          | Exited true requisites =>
              match missing_of requisites with
              | [] => check_closures i p total running
              | (first :: _) as missing => tripped p [sandbox_id; dec (Z.of_nat (length missing)); first]
              end
          end
      end
  end.
Definition store_roots_intact (i : Inputs) (p : Probe) : Finding :=
  match running_now i with
  | [] => pass p []
  | running => check_closures i p (length running) running
  end.
Definition host_linger (i : Inputs) (p : Probe) : Finding :=
  match running_now i with
  | [] => pass p []
  | running =>
      match hw_linger w with
      | CouldNotRun => skipped p "not-applicable" []
      | Exited success stdout =>
          if success && bytes_eqb (trim stdout) (bs "Linger=yes") then pass p [] else tripped p [dec (Z.of_nat (length running))]
      end
  end.

(** [host::run]: the probe an id names. *)
Definition host_probe (i : Inputs) (id : string) : option (Probe -> probed) :=
  let reads (f : Probe -> Finding) := Some (fun p => quiet (f p)) in
  if String.eqb id "nix-present" then reads nix_present
  else if String.eqb id "nix-version" then reads nix_version
  else if String.eqb id "nix-flakes-enabled" then Some nix_flakes_enabled
  else if String.eqb id "kvm-device-present" then reads kvm_device_present
  else if String.eqb id "kvm-device-accessible" then reads kvm_device_accessible
  else if String.eqb id "hardware-virt-available" then reads hardware_virt_available
  else if String.eqb id "host-userns-available" then reads host_userns_available
  else if String.eqb id "runtime-dir-usable" then reads (runtime_dir_usable i)
  else if String.eqb id "nix-store-disk-space" then reads nix_store_disk_space
  else if String.eqb id "state-dir-free-space" then reads (state_dir_free_space i)
  else if String.eqb id "host-memory-headroom" then reads (host_memory_headroom i)
  else if String.eqb id "host-cgroup2-delegation" then reads host_cgroup2_delegation
  else if String.eqb id "host-fd-limit-sufficient" then reads host_fd_limit_sufficient
  else if String.eqb id "kernel-version-supported" then reads kernel_version_supported
  else if String.eqb id "host-landlock-available" then reads host_landlock_available
  else if String.eqb id "state-dir-writable" then reads (directory_writable (Roots.state (in_roots i)) "state")
  else if String.eqb id "state-manifest-orphans" then reads (state_manifest_orphans i)
  else if String.eqb id "cache-dir-writable" then reads (directory_writable (Roots.cache (in_roots i)) "cache")
  else if String.eqb id "data-dir-writable" then reads (directory_writable (Roots.data (in_roots i)) "data")
  else if String.eqb id "store-roots-intact" then reads (store_roots_intact i)
  else if String.eqb id "host-linger" then reads (host_linger i)
  else None.
Definition run_host (i : Inputs) (p : Probe) : probed :=
  match host_probe i (p_id p) with Some f => f p | None => quiet (skipped p "not-applicable" []) end.
End host.

(* ------------------------------------------------------------------ *)
(** ** The lints ([doctor/project.rs]) *)

(** [chars().take_while(...)] of a path literal. *)
Definition literal_ends (b : byte) : bool := bool_decide (b ∈ [x22; "'"%byte; " "%byte; x09]).
Fixpoint take_literal (s : bytes) : bytes :=
  match s with [] => [] | b :: s' => if literal_ends b then [] else b :: take_literal s' end.
Definition is_comment (line : bytes) : bool := starts_with (bs "#") (trim_start line).
Definition PERSONAL_MARKERS : list bytes := [bs "/home/"; bs "/Users/"].
Fixpoint first_marker (markers : list bytes) (line : bytes) : option bytes :=
  match markers with
  | [] => None
  | m :: markers =>
      match find_str m line with
      | Some (_, after) => Some (take_literal (m ++ after))
      | None => first_marker markers line
      end
  end.
Fixpoint lint_lines (n : nat) (l : list bytes) : option (nat * bytes) :=
  match l with
  | [] => None
  | line :: l =>
      if is_comment line then lint_lines (S n) l
      else match first_marker PERSONAL_MARKERS line with
           | Some literal => Some (n, literal)
           | None => lint_lines (S n) l
           end
  end.
Definition personal_path_lint (text : bytes) : option (nat * bytes) := lint_lines 1 (lines text).

Definition TOKEN_PREFIXES : list bytes :=
  map bs ["ghp_"; "gho_"; "ghu_"; "ghs_"; "github_pat_"; "glpat-"; "sk-"; "xoxb-"; "xoxp-"; "AKIA"; "-----BEGIN"]%string.
Definition SECRET_KEYS : list bytes := map bs ["token"; "secret"; "password"; "passwd"; "api_key"; "apikey"]%string.
Inductive secret_reason := KnownPrefix | SecretShaped.
(** A name of [env] is ASCII. *)
Definition secret_entry (e : bytes * bytes) : option (bytes * secret_reason) :=
  let '(key, value) := e in
  if existsb (fun prefix => starts_with prefix value) TOKEN_PREFIXES then Some (key, KnownPrefix)
  else if existsb (fun name => contains_str name (map to_ascii_lower key)) SECRET_KEYS && (16 <=? length value)%nat
       then Some (key, SecretShaped)
       else None.
Fixpoint first_secret (l : list (bytes * bytes)) : option (bytes * secret_reason) :=
  match l with
  | [] => None
  | e :: l => match secret_entry e with Some found => Some found | None => first_secret l end
  end.
Definition inline_secret_lint (m : Manifest.Manifest) : option (bytes * secret_reason) := first_secret (env m).

(** A marker with its trailing slashes off, beside itself. *)
Definition SESSION_MARKERS : list (bytes * bytes) :=
  [(bs "/tmp/", bs "/tmp"); (bs "/var/tmp/", bs "/var/tmp"); (bs "${XDG_RUNTIME_DIR}", bs "${XDG_RUNTIME_DIR}")].
Definition session_dir_lint (source : bytes) : option bytes :=
  option_map fst (List.find (fun m => starts_with (fst m) source || bytes_eqb source (snd m)) SESSION_MARKERS).

Definition credential_name (id : CredentialId) : bytes := match id with Ssh => bs "ssh" | Gpg => bs "gpg" end.
Definition push_new (id : CredentialId) (l : list CredentialId) : list CredentialId := if bool_decide (id ∈ l) then l else l ++ [id].
Definition scan_ids (scan : bytes) (declared : list CredentialId) : list CredentialId :=
  fold_left (fun l id => if contains_str ([x22] ++ credential_name id ++ [x22]) scan then push_new id l else l) [Ssh; Gpg] declared.
Fixpoint agents_lines (l : list bytes) (collecting : bool) (declared : list CredentialId) : list CredentialId :=
  match l with
  | [] => declared
  | raw :: l =>
      let line := trim_start raw in
      if starts_with (bs "#") line then agents_lines l collecting declared else
      match (if collecting then Some line
             else let* (_, after) := find_str (bs "credentials.agents") line in Some (bs "credentials.agents" ++ after)) with
      | None => agents_lines l collecting declared
      | Some segment =>
          match find_byte "]"%byte segment with
          | None => agents_lines l true (scan_ids segment declared)
          | Some (scan, _) => agents_lines l false (scan_ids scan declared)
          end
      end
  end.
Definition declared_agents_lint (text : bytes) : list CredentialId := agents_lines (lines text) false [].

(** ** The project probes *)

Section project.
Context (toml : toml_parser) (from_slice : bytes -> option Value) (w : host_world) (try_exists : bytes -> option bool).
(** [agent_source::resolve_and_check], with the host it reads. *)
Context (resolve_agent : CredentialId -> result ResolvedAgentSource AgentSourceDefect).

Definition working_directory_declared (project : ProjectInputs) (p : Probe) : Finding :=
  match pi_refusal project with None => pass p [] | Some _ => tripped p [] end.
Definition config_parses (project : ProjectInputs) (p : Probe) : Finding :=
  match pi_parsed project with Ok _ => pass p [pi_manifest project] | Err _ => tripped p [] end.
Definition manifest_resolves (project : ProjectInputs) (p : Probe) : Finding :=
  match pi_artifact project with Ok a => pass p [pi_manifest project; ra_path a] | Err _ => tripped p [] end.
Definition shared_artifacts (project : ProjectInputs) (i : Inputs) : list ResolvedArtifact :=
  match pi_parsed project with
  | Err _ => []
  | Ok manifest =>
      let resolve kind name := ok (resolve_artifact try_exists (Roots.config (in_roots i)) kind name) in
      option_list (resolve Image (Manifest.image manifest)) ++ omap (resolve Piece) (Manifest.pieces manifest)
  end.
Fixpoint lint_artifacts (p : Probe) (l : list ResolvedArtifact) : Finding :=
  match l with
  | [] => pass p []
  | artifact :: l =>
      match (let* text := read_text (hw_read w (ra_path artifact)) in personal_path_lint text) with
      | Some (line, found) => tripped p [ra_path artifact; dec (Z.of_nat line); found]
      | None => lint_artifacts p l
      end
  end.
Definition shared_layer_paths (project : ProjectInputs) (i : Inputs) (p : Probe) : Finding :=
  lint_artifacts p (shared_artifacts project i).
Definition manifest_no_inline_secret (project : ProjectInputs) (p : Probe) : Finding :=
  match pi_parsed project with
  | Err _ => skipped p "not-applicable" []
  | Ok manifest => match inline_secret_lint manifest with Some (key, _) => tripped p [key] | None => pass p [] end
  end.
Definition mount_sources (project : ProjectInputs) (p : Probe) : Finding :=
  match pi_parsed project with
  | Err _ => skipped p "not-applicable" []
  | Ok manifest =>
      match List.find (fun m => bool_decide (is_Some (session_dir_lint (mt_source m)))) (Manifest.mounts manifest) with
      | Some m => tripped p (mt_source m :: option_list (session_dir_lint (mt_source m)))
      | None => pass p []
      end
  end.

Definition inputs_toml_names (text : bytes) : list bytes :=
  match toml text with
  | Err _ => []
  | Ok document =>
      match entry document "inputs" with
      | Some (_, DTable table) => set_extend (map key_name table) []
      | _ => []
      end
  end.
Definition declared_input_names (project : ProjectInputs) (i : Inputs) : list bytes :=
  let directories := omap (fun a => match ra_form a with Directory => parent (ra_path a) | Flat => None end) (shared_artifacts project i) in
  fold_left (fun names directory =>
    match read_text (hw_read w (Inputs.path_text (directory ++ [Normal (bs "inputs.toml")]))) with
    | None => names
    | Some text => set_extend (inputs_toml_names text) names
    end) directories [].
Definition lock_node_names (lock_text : bytes) : list bytes :=
  match (let* value := from_slice lock_text in let* nodes := vget value (bs "nodes") in as_object nodes) with
  | Some nodes => set_extend (map fst nodes) []
  | None => []
  end.
Definition lock_covers_inputs (project : ProjectInputs) (i : Inputs) (p : Probe) : Finding :=
  match declared_input_names project i with
  | [] => pass p []
  | declared =>
      match pi_lock_path project with
      | None => skipped p "not-applicable" []
      | Some lock =>
          match read_text (hw_read w lock) with
          | None => skipped p "not-applicable" [lock]
          | Some text =>
              match List.filter (fun name => negb (bool_decide (name ∈ lock_node_names text))) declared with
              | [] => pass p [dec (Z.of_nat (length declared))]
              | first :: _ => tripped p [lock; first]
              end
          end
      end
  end.

(** The layers that may declare a channel: the shared ones, and the module [extends] names. *)
Definition declaring_texts (project : ProjectInputs) (i : Inputs) : list bytes :=
  omap (fun a => read_text (hw_read w (ra_path a))) (shared_artifacts project i) ++
  match pi_parsed project, pi_artifact project with
  | Ok manifest, Ok artifact =>
      option_list (let* extends := Manifest.extends manifest in
                   let* directory := parent (ra_path artifact) in
                   read_text (hw_read w (join (Inputs.path_text directory) extends)))
  | _, _ => []
  end.
Definition declared_channels (project : ProjectInputs) (i : Inputs) : list CredentialId :=
  fold_left (fun declared text => fold_left (fun l id => push_new id l) (declared_agents_lint text) declared)
    (declaring_texts project i) [].
Definition agent_source_usable (project : ProjectInputs) (i : Inputs) (p : Probe) : Finding :=
  match declared_channels project i with
  | [] => skipped p "not-applicable" []
  | declared =>
      match List.find (fun id => negb (is_ok (resolve_agent id))) declared with
      | Some id => tripped p [credential_name id]
      | None => pass p []
      end
  end.

Definition project_probe (project : ProjectInputs) (i : Inputs) (id : string) : option (Probe -> Finding) :=
  if String.eqb id "config-parses" then Some (config_parses project)
  else if String.eqb id "manifest-resolves" then Some (manifest_resolves project)
  else if String.eqb id "working-directory-declared" then Some (working_directory_declared project)
  else if String.eqb id "shared-layer-paths-portable" then Some (shared_layer_paths project i)
  else if String.eqb id "manifest-no-inline-secret" then Some (manifest_no_inline_secret project)
  else if String.eqb id "mount-source-not-session-dir" then Some (mount_sources project)
  else if String.eqb id "lock-covers-declared-inputs" then Some (lock_covers_inputs project i)
  else if String.eqb id "agent-source-usable" then Some (agent_source_usable project i)
  else None.
Definition run_project (project : ProjectInputs) (i : Inputs) (p : Probe) : Finding :=
  match project_probe project i (p_id p) with Some f => f p | None => skipped p "not-applicable" [] end.
End project.

(* ------------------------------------------------------------------ *)
(** ** The network probes ([doctor/network.rs]) *)

Definition parse_triple (tag : bytes) : option triple :=
  match split_on "."%byte tag with
  | [major; minor] =>
      let* major := parse_u64 major in let* minor := parse_u64 minor in Some (major, minor, 0)
  | [major; minor; patch] =>
      let* major := parse_u64 major in let* minor := parse_u64 minor in let* patch := parse_u64 patch in Some (major, minor, patch)
  | _ => None
  end.
(** [split(needle).nth(1)]. *)
Definition second_piece (needle line : bytes) : option bytes :=
  let* (_, after) := find_str needle line in
  Some (match find_str needle after with Some (before, _) => before | None => after end).
Definition stable_tag (line : bytes) : option triple :=
  let* tag := second_piece (bs "refs/tags/") line in
  if contains "^"%byte tag then None else parse_triple tag.
Definition later (best : option triple) (t : triple) : option triple :=
  match best with Some b => if triple_leb b t then Some t else best | None => Some t end.
Definition latest_stable_tag (listing : bytes) : option triple := fold_left later (omap stable_tag (lines listing)) None.
(** [host:port] of a substituter's URL. *)
Definition connect_authority (substituter : bytes) : option bytes :=
  let* (scheme, rest) := find_str (bs "://") substituter in
  let* port := (if bytes_eqb scheme (bs "https") then Some 443 else if bytes_eqb scheme (bs "http") then Some 80 else None) in
  let authority := default [] (head (split_on "/"%byte rest)) in
  if bool_decide (authority = []) then None
  else Some (if contains ":"%byte authority then authority else authority ++ bs ":" ++ dec port).

Record network_world := mk_network_world {
  nw_tags : run_answer;                            (* [git ls-remote --tags] *)
  nw_substituters : run_answer;                    (* [nix config show substituters] *)
  nw_reachable : bytes -> bool;                    (* an address of the authority accepts a connection in time *)
  nw_resolves : bytes -> bool }.                   (* [to_socket_addrs] answers *)

Section network.
Context {Net : Type} {N : IpNetOps Net} (w : host_world) (n : network_world).

(** [nix --version] as this file reads it: its success is not asked for. *)
Definition installed_nix_version : option triple :=
  match hw_nix_version w with
  | CouldNotRun => None
  | Exited _ stdout => let* word := last (split_whitespace stdout) in parse_triple word
  end.
Definition nix_version_currency (p : Probe) : Finding :=
  match nw_tags n with
  | Exited true tags =>
      match latest_stable_tag tags with
      | None => skipped p "not-applicable" []
      | Some latest =>
          match installed_nix_version with
          | None => skipped p "not-applicable" []
          | Some installed => if triple_leb latest installed then pass p [] else tripped p []
          end
      end
  | _ => skipped p "not-applicable" []
  end.
Definition unreachable_of (substituters : list bytes) : list bytes :=
  List.filter (fun s => match connect_authority s with Some authority => negb (nw_reachable n authority) | None => false end) substituters.
Definition substituter_reachability (p : Probe) : Finding :=
  match nw_substituters n with
  | CouldNotRun => skipped p "not-applicable" []
  | Exited _ configured =>
      match unreachable_of (split_whitespace configured) with
      | [] => pass p []
      | unreachable => tripped p unreachable
      end
  end.
(** The entries that name a single host. *)
Definition single_hosts (allow : list bytes) : list bytes :=
  List.filter (fun entry => negb (contains "*"%byte entry) && negb (bool_decide (is_Some (ip_from_str entry))) &&
                            negb (bool_decide (is_Some (net_from_str entry)))) allow.
Definition egress_allowlist_dns (i : Inputs) (p : Probe) : Finding :=
  match in_project i with
  | None => skipped p "no-manifest-bound" []
  | Some project =>
      match pi_parsed project with
      | Err _ => skipped p "not-applicable" []
      | Ok manifest =>
          match Manifest.egress manifest with
          | None => skipped p "not-applicable" []
          | Some e =>
              match Manifest.mode e with
              | Some Manifest.AllowlistMode =>
                  match List.filter (fun name => negb (nw_resolves n (name ++ bs ":443"))) (single_hosts (Manifest.allow e)) with
                  | [] => pass p []
                  | unresolved => tripped p unresolved
                  end
              | _ => skipped p "not-applicable" []
              end
          end
      end
  end.
Definition run_network (i : Inputs) (p : Probe) : Finding :=
  if String.eqb (p_id p) "nix-version-currency" then nix_version_currency p
  else if String.eqb (p_id p) "substituter-reachability" then substituter_reachability p
  else if String.eqb (p_id p) "egress-allowlist-dns" then egress_allowlist_dns i p
  else skipped p "not-applicable" [].
End network.

(* ------------------------------------------------------------------ *)
(** ** The two readers of the catalog ([doctor/mod.rs], [cli/doctor.rs], [cli/lifecycle.rs]) *)

Section catalog.
Context {Net : Type} {N : IpNetOps Net} (toml : toml_parser) (from_slice : bytes -> option Value).
Context (w : host_world) (n : network_world) (try_exists : bytes -> option bool)
  (resolve_agent : CredentialId -> result ResolvedAgentSource AgentSourceDefect).

(** Ambiguity answers two probes before the skip of the project scope. *)
Definition answers_ambiguity (p : Probe) : bool :=
  String.eqb (p_id p) "manifest-resolves" || String.eqb (p_id p) "working-directory-declared".
Definition dispatch (i : Inputs) (p : Probe) : probed :=
  match p_scope p with
  | S_Host => run_host from_slice w i p
  | S_Project =>
      quiet (if bool_decide (is_Some (in_ambiguity i)) && answers_ambiguity p then tripped p []
             else match in_project i with
                  | None => skipped p "no-manifest-bound" []
                  | Some project => run_project toml from_slice w try_exists resolve_agent project i p
                  end)
  | S_Network => quiet (if in_online i then run_network w n i p else skipped p "offline-mode" [])
  end.
Definition run_catalog (i : Inputs) : list probed := map (dispatch i) CATALOG.
Definition run (i : Inputs) : list Finding := map fst (run_catalog i).
Definition hard (p : Probe) : bool := bool_decide (p_severity p = Hard).
Definition is_failure (f : Finding) : bool := bool_decide (f_status f = Fail_).
Definition first_hard_failure (i : Inputs) : option Finding :=
  List.find is_failure (map (fun p => fst (dispatch i p)) (List.filter hard CATALOG)).

(** [exit_code] of [cli/doctor.rs]. *)
Definition exit_code (findings : list Finding) (strict : bool) : ExitKind :=
  match List.find (fun f => is_failure f && hard (f_probe f)) findings with
  | Some failed => default Software (p_code (f_probe failed))
  | None => if strict && existsb (fun f => bool_decide (f_status f = Warn)) findings then DoctorStrict else Success
  end.

(** [preflight] of [cli/lifecycle.rs]. *)
Definition preflight_inputs (variable : Roots.Environment) (roots : XdgRoots) : Inputs := mk_Inputs variable roots None None false None.
Definition preflight (variable : Roots.Environment) (roots : XdgRoots) : result bytes Failure :=
  match first_hard_failure (preflight_inputs variable roots) with
  | Some finding => Err (diagnosed N_Host (p_id (f_probe finding)) (default Software (p_code (f_probe finding))))
  | None => map_err resolution_failure (resolve_runtime_root variable (hw_metadata w) (hw_uid w))
  end.

(** *** [gather] *)

Context (index_of : bytes -> option WorkspaceIndex) (index_text : WorkspaceIndex -> option bytes) (l : library_world).

Definition gather_project (roots : XdgRoots) (name : bytes) (refusal : option WorkspaceFinding) : ProjectInputs :=
  let artifact := resolve_manifest l name in
  let parsed := let? selected := artifact in let? (_, manifest) := read_manifest_file toml l selected in Ok manifest in
  let lock_path :=
    let* selected := ok artifact in
    let path := join (join (join (join (Roots.data roots) (bs "projects")) (ra_name selected)) DEFAULT_TARGET) (bs "flake.lock") in
    if hw_exists w path then Some path else None in
  mk_ProjectInputs name artifact parsed refusal lock_path.
Definition gather (variable : Roots.Environment) (roots : XdgRoots) (online : bool) (cache : file) : Inputs * file :=
  let '(resolution, cache') := resolve_manifest_for_doctor toml index_of index_text l cache in
  let ambiguity := match resolution with Err (Ambiguous finding) => Some finding | _ => None end in
  let project :=
    match resolution with
    | Ok resolved => Some (gather_project roots (rb_manifest (rl_binding resolved)) (workspace_refusal resolved))
    | Err _ =>
        option_map (fun binding => gather_project roots (rb_manifest binding) None) (resolve_binding None (lw_variable l) None)
    end in
  (mk_Inputs variable roots project ambiguity online (ok (resolve_runtime_root variable (hw_metadata w) (hw_uid w))), cache').

(** What the verb says on standard error about the project scope. *)
Inductive doctor_note := OwnerAmbiguous | NoOwner.
Inductive doctor_report := Listed (probes : list Probe) | Reported (findings : list Finding) (note : option doctor_note).
Definition command (variable : Roots.Environment) (roots : XdgRoots) (strict list_ online : bool) (cache : file) :
    doctor_report * ExitKind * file * list probe_effect :=
  if list_ then (Listed CATALOG, Success, cache, [])
  else
    let '(inputs, cache') := gather variable roots online cache in
    let ran := run_catalog inputs in
    let findings := map fst ran in
    let note :=
      if bool_decide (is_Some (in_ambiguity inputs)) then Some OwnerAmbiguous
      else match in_project inputs with None => Some NoOwner | Some _ => None end in
    (Reported findings note, exit_code findings strict, cache', concat (map snd ran)).
End catalog.
