(* ===== verification/DoctorSpec.v ===== *)
(** * DoctorSpec: the report and the guard judge the same host, and neither changes it

    The preflight refuses exactly on what [viv doctor] reports as its first failure, with the same code; a run leaves
    the host as it was; an ambiguous owner is reported; the orphans are exactly the directories without a manifest; and
    how the textual lints stand to the judgments of an evaluation. *)
From S2P Require Import Prelude Bytes Paths Ordered Ip Allowlist Message Mounts Launch Workspace Spec AgentSource Inputs Diagnostic Lifecycle Roots Toml Artifact Manifest ManifestSpec Json Merged Volumes Registry Binding Doctor.

(* ------------------------------------------------------------------ *)
(** ** Findings *)

(** A finding is about its probe, and trips as the probe's severity says. *)
Definition about (p : Probe) (f : Finding) : Prop :=
  f_probe f = p /\ (f_status f = Fail_ -> p_severity p = Hard) /\ (f_status f = Warn -> p_severity p = Soft).
Lemma about_pass p q : about p (pass p q).
Proof. done. Qed.
Lemma about_skipped p r q : about p (skipped p r q).
Proof. done. Qed.
Lemma about_tripped p q : about p (tripped p q).
Proof. unfold about, tripped. cbn. by destruct (p_severity p). Qed.
#[export] Hint Resolve about_pass about_skipped about_tripped : viv.

Ltac about_cases := repeat case_match; simplify_eq; cbn [fst]; auto with viv.

Section findings.
Context {Net : Type} {N : IpNetOps Net} (toml : toml_parser) (from_slice : bytes -> option Value).
Context (w : host_world) (n : network_world) (try_exists : bytes -> option bool)
  (resolve_agent : CredentialId -> result ResolvedAgentSource AgentSourceDefect).

Lemma check_closures_about i p total l : about p (check_closures w i p total l).
Proof. induction l as [|x l IH]; cbn [check_closures]; about_cases. Qed.
Lemma lint_artifacts_about p l : about p (lint_artifacts w p l).
Proof. induction l as [|x l IH]; cbn [lint_artifacts]; about_cases. Qed.
Hint Resolve check_closures_about lint_artifacts_about : viv.

Lemma host_about i p : about p (fst (run_host from_slice w i p)).
Proof.
  unfold run_host, host_probe.
  repeat match goal with |- context [if String.eqb ?a ?b then _ else _] => destruct (String.eqb a b) end; cbn [fst quiet];
    unfold nix_present, nix_version, nix_flakes_enabled, nix_reads_a_flake, kvm_device_present, kvm_device_accessible,
      hardware_virt_available, host_userns_available, runtime_dir_usable, nix_store_disk_space, state_dir_free_space,
      host_memory_headroom, host_cgroup2_delegation, host_fd_limit_sufficient, kernel_version_supported, host_landlock_available,
      directory_writable, state_manifest_orphans, store_roots_intact, host_linger, quiet; about_cases.
Qed.
Lemma project_about project i p : about p (run_project toml from_slice w try_exists resolve_agent project i p).
Proof.
  unfold run_project, project_probe.
  repeat match goal with |- context [if String.eqb ?a ?b then _ else _] => destruct (String.eqb a b) end;
    unfold config_parses, manifest_resolves, working_directory_declared, shared_layer_paths, manifest_no_inline_secret, mount_sources,
      lock_covers_inputs, agent_source_usable; about_cases.
Qed.
Lemma network_about i p : about p (run_network w n i p).
Proof. unfold run_network, nix_version_currency, substituter_reachability, egress_allowlist_dns. about_cases. Qed.
Lemma dispatch_about i p : about p (fst (dispatch toml from_slice w n try_exists resolve_agent i p)).
Proof.
  unfold dispatch. destruct (p_scope p); cbn [fst quiet].
  - apply host_about.
  - destruct (_ && _); [auto with viv|]. destruct (in_project i); [apply project_about|auto with viv].
  - destruct (in_online i); [apply network_about|auto with viv].
Qed.
End findings.

(* ------------------------------------------------------------------ *)
(** ** The report and the guard *)

Lemma find_app_filter {A} (f g : A -> bool) l : (forall x, x ∈ l -> f x = true -> g x = true) -> List.find f l = List.find f (List.filter g l).
Proof.
  induction l as [|x l IH]; intros H; [done|]. cbn. rewrite IH by (intros y Hy; apply H; by right).
  destruct (f x) eqn:E; [by rewrite (H x) by (left || done); cbn; rewrite E|]. destruct (g x); cbn; by rewrite ?E.
Qed.
Lemma find_none_all {A} (f : A -> bool) l x : List.find f l = None -> x ∈ l -> f x = false.
Proof. intros H Hx. eapply find_none; [exact H|by apply list_elem_of_In]. Qed.

Section catalog.
Context {Net : Type} {N : IpNetOps Net} (toml : toml_parser) (from_slice : bytes -> option Value).
Context (w : host_world) (n : network_world) (try_exists : bytes -> option bool)
  (resolve_agent : CredentialId -> result ResolvedAgentSource AgentSourceDefect).
Notation dispatch := (dispatch toml from_slice w n try_exists resolve_agent).
Notation run := (run toml from_slice w n try_exists resolve_agent).
Notation run_catalog := (run_catalog toml from_slice w n try_exists resolve_agent).
Notation preflight := (preflight toml from_slice w n try_exists resolve_agent).
Notation first_hard_failure := (first_hard_failure toml from_slice w n try_exists resolve_agent).

(** A hard probe reads the host and the environment, and nothing of the project. *)
Lemma hard_dispatch i i' : in_variable i = in_variable i' ->
  Forall (fun p => p_severity p = Hard -> dispatch i p = dispatch i' p) CATALOG.
Proof.
  intros H. unfold CATALOG. repeat (apply Forall_cons; split); [..|by apply Forall_nil]; intros Hs; try discriminate Hs; try reflexivity.
  unfold Doctor.dispatch, run_host, host_probe. cbn [p_scope p_id String.eqb Ascii.eqb Bool.eqb]. unfold runtime_dir_usable. by rewrite H.
Qed.
Lemma failure_is_hard i p : is_failure (fst (dispatch i p)) = true -> hard p = true.
Proof.
  unfold is_failure, hard. rewrite !bool_decide_eq_true. apply dispatch_about.
Qed.
(** The first failure of a report is the first hard failure. *)
Lemma first_failure i : List.find is_failure (run i) = first_hard_failure i.
Proof.
  unfold Doctor.run, Doctor.run_catalog, Doctor.first_hard_failure. rewrite map_map. induction CATALOG as [|p l IH]; [done|]. cbn [map List.filter List.find].
  destruct (is_failure (fst (dispatch i p))) eqn:E.
  - rewrite (failure_is_hard _ _ E). cbn [map List.find]. by rewrite E.
  - rewrite IH. destruct (hard p); [cbn [map List.find]; by rewrite E|done].
Qed.
Lemma first_hard_failure_reads i i' : in_variable i = in_variable i' -> first_hard_failure i = first_hard_failure i'.
Proof.
  intros H%hard_dispatch. unfold Doctor.first_hard_failure. induction H as [|p l Hp Hl IH]; [done|]. cbn [List.filter].
  destruct (hard p) eqn:E; [|exact IH]. unfold hard in E. rewrite bool_decide_eq_true in E. cbn [map List.find]. rewrite (Hp E).
  by destruct (is_failure _).
Qed.
(** [exit_code] in terms of the first failure. *)
Lemma exit_code_run i strict :
  exit_code (run i) strict =
    match List.find is_failure (run i) with
    | Some f => default Software (p_code (f_probe f))
    | None => if strict && existsb (fun f => bool_decide (f_status f = Warn)) (run i) then DoctorStrict else Success
    end.
Proof.
  assert (List.find (fun f => is_failure f && hard (f_probe f)) (run i) = List.find is_failure (run i)) as H; [|unfold exit_code; by rewrite H].
  unfold Doctor.run, Doctor.run_catalog. rewrite map_map. induction CATALOG as [|p l IH]; [done|]. cbn [map List.find].
  destruct (is_failure (fst (dispatch i p))) eqn:E; [|exact IH]. destruct (dispatch_about toml from_slice w n try_exists resolve_agent i p) as (-> & _).
  by rewrite (failure_is_hard _ _ E).
Qed.
(** What a failing probe is. *)
Lemma failure_in_catalog i f : List.find is_failure (run i) = Some f ->
  f_probe f ∈ CATALOG /\ p_severity (f_probe f) = Hard /\ f_status f = Fail_ /\ f ∈ run i.
Proof.
  intros H. apply find_some in H as [Hin Hf]. apply list_elem_of_In in Hin. split_and!; [..|done].
  all: unfold Doctor.run, Doctor.run_catalog in Hin; rewrite map_map in Hin; apply list_elem_of_fmap in Hin as (p & -> & Hp).
  all: destruct (dispatch_about toml from_slice w n try_exists resolve_agent i p) as (Hpr & Hh & _); rewrite ?Hpr.
  - done.
  - apply Hh. unfold is_failure in Hf. by rewrite bool_decide_eq_true in Hf.
  - unfold is_failure in Hf. by rewrite bool_decide_eq_true in Hf.
Qed.
(** The codes of the hard probes. *)
Lemma hard_codes : Forall (fun p => p_severity p = Hard -> exists k, p_code p = Some k /\ k ∈ [Unavailable; Diagnostic.Config; NoPerm]) CATALOG.
Proof. unfold CATALOG. repeat (apply Forall_cons; split); [..|by apply Forall_nil]; intros Hs; try discriminate Hs; eexists; (split; [reflexivity|set_solver]). Qed.
Definition runtime_probe : Probe := mk_Probe "runtime-dir-usable" C_Permissions S_Host Hard (Some NoPerm).
Lemma dispatch_runtime i : dispatch i runtime_probe = quiet (runtime_dir_usable w i runtime_probe).
Proof.
  unfold Doctor.dispatch, run_host, host_probe, runtime_probe. cbn [p_scope p_id String.eqb Ascii.eqb Bool.eqb]. reflexivity.
Qed.
Lemma runtime_probe_hard : runtime_probe ∈ List.filter hard CATALOG.
Proof. apply list_elem_of_In, filter_In. split; [|reflexivity]. do 7 right. by left. Qed.
Lemma hard_unfailed i p : first_hard_failure i = None -> p ∈ List.filter hard CATALOG -> is_failure (fst (dispatch i p)) = false.
Proof.
  unfold Doctor.first_hard_failure. generalize (List.filter hard CATALOG). intros l H Hp. eapply find_none; [exact H|].
  apply (in_map (fun p => fst (dispatch i p))). by apply list_elem_of_In.
Qed.
Lemma runtime_usable_resolves i : is_failure (runtime_dir_usable w i runtime_probe) = false ->
  exists root, resolve_runtime_root (in_variable i) (hw_metadata w) (hw_uid w) = Ok root.
Proof. unfold runtime_dir_usable. destruct (resolve_runtime_root _ _ _) as [root|]; [intros _; by exists root|intros H; discriminate H]. Qed.
(** [runtime-dir-usable] has read the root the preflight hands on. *)
Lemma runtime_root_resolves i : first_hard_failure i = None -> exists root, resolve_runtime_root (in_variable i) (hw_metadata w) (hw_uid w) = Ok root.
Proof.
  intros H. pose proof (hard_unfailed i runtime_probe H runtime_probe_hard) as Hp. rewrite dispatch_runtime in Hp.
  exact (runtime_usable_resolves i Hp).
Qed.

(** The guard and the report cannot disagree. Whatever project, network or owner [viv doctor] looked at, on the
    same host and environment: the preflight of a launch refuses exactly when the report holds a failure, naming under
    [host.] the first failing probe of the report, with the very code the report exits with, which is 69, 77 or 78; and
    when it lets the launch through, it hands on the runtime root, no finding of the report is a failure, and the report
    exits with 0 - or with 1, only under [--strict] and only over a warning. *)
Theorem preflight_is_the_report (variable : Roots.Environment) (roots : XdgRoots) (i : Doctor.Inputs) (strict : bool)
    (Hsame : in_variable i = variable) :
  match preflight variable roots with
  | Err f =>
      exists finding, List.find is_failure (run i) = Some finding /\ f = diagnosed N_Host (p_id (f_probe finding)) (exit_code (run i) strict) /\
        p_severity (f_probe finding) = Hard /\ exit_code (run i) strict ∈ [Unavailable; Diagnostic.Config; NoPerm]
  | Ok root =>
      resolve_runtime_root variable (hw_metadata w) (hw_uid w) = Ok root /\ Forall (fun f => f_status f <> Fail_) (run i) /\
      (exit_code (run i) strict = DoctorStrict <-> strict = true /\ Exists (fun f => f_status f = Warn) (run i)) /\
      (exit_code (run i) strict = Success \/ exit_code (run i) strict = DoctorStrict)
  end.
Proof.
  subst variable. rewrite exit_code_run. unfold Doctor.preflight.
  rewrite (first_hard_failure_reads (preflight_inputs (in_variable i) roots) i eq_refl), <- first_failure.
  destruct (List.find is_failure (run i)) as [f|] eqn:E.
  - destruct (failure_in_catalog i f E) as (Hin & Hh & _). exists f. split_and!; [done..|].
    destruct (proj1 (Forall_forall _ _) hard_codes _ Hin Hh) as (k & -> & Hk). exact Hk.
  - pose proof E as Hn. rewrite first_failure in Hn. destruct (runtime_root_resolves i Hn) as [root Hroot]. rewrite Hroot. cbn [map_err].
    split; [done|]. split; [|split].
    + apply Forall_forall. intros f Hf Hs. pose proof (find_none_all _ _ f E Hf) as Hfail. unfold is_failure in Hfail. by rewrite bool_decide_eq_false in Hfail.
    + destruct strict; cbn [andb]; [|split; [done|by intros [? _]]].
      destruct (existsb _ _) eqn:Ew; split; try done; [intros _|intros [_ Hw]].
      * split; [done|]. apply existsb_exists in Ew as (f & Hf & Hs). apply Exists_exists. exists f. split; [by apply list_elem_of_In|]. by rewrite bool_decide_eq_true in Hs.
      * apply Exists_exists in Hw as (f & Hf & Hs). assert (existsb (fun f => bool_decide (f_status f = Warn)) (run i) = true); [|congruence].
        apply existsb_exists. exists f. split; [by apply list_elem_of_In|]. by rewrite bool_decide_eq_true.
    + destruct (_ && _); auto.
Qed.
End catalog.

(* ------------------------------------------------------------------ *)
(** ** What a run leaves behind *)

Section effects.
Context {Net : Type} {N : IpNetOps Net} (toml : toml_parser) (from_slice : bytes -> option Value).
Context (w : host_world) (n : network_world) (try_exists : bytes -> option bool)
  (resolve_agent : CredentialId -> result ResolvedAgentSource AgentSourceDefect).
Context (index_of : bytes -> option WorkspaceIndex) (index_text : WorkspaceIndex -> option bytes) (l : library_world).
Notation run_catalog := (run_catalog toml from_slice w n try_exists resolve_agent).

(** The directory the flake probe works in is one this run created, under one of the eight names it drew. *)
Lemma private_directory attempts k d : create_private_probe_directory w attempts k = Some d ->
  hw_create_dir w d = true /\ exists j, (k <= j < k + attempts)%nat /\ d = join (hw_temp_dir w) (bs "viv-flake-probe-" ++ hw_token w j).
Proof.
  revert k. induction attempts as [|attempts IH]; intros k; [done|]. cbn [create_private_probe_directory].
  set (c := join _ _). destruct (hw_create_dir w c) eqn:E; [intros H; injection H as <-; split; [done|]; exists k; split; [lia|done]|].
  intros (H & j & Hj & ->)%IH. split; [done|]. exists j. split; [lia|done].
Qed.
Definition confined (effects : list probe_effect) : Prop :=
  effects = [] \/
  exists d ran, hw_create_dir w d = true /\ (exists j, (j < 8)%nat /\ d = join (hw_temp_dir w) (bs "viv-flake-probe-" ++ hw_token w j)) /\
    effects = [CreateDir d; WriteFlake (join d (bs "flake.nix"))] ++ ran ++ [RemoveTree d] /\ (ran = [] \/ ran = [RunMetadata d]).
Lemma flakes_confined p : confined (snd (nix_flakes_enabled from_slice w p)).
Proof.
  unfold nix_flakes_enabled. destruct (read_features _ _) as [spawned features]. destruct (negb spawned); [by left|].
  destruct (_ && _); [by left|]. unfold nix_reads_a_flake.
  destruct (create_private_probe_directory w 8 0) as [d|] eqn:E; [|by left]. apply private_directory in E as (Hc & j & Hj & Hd).
  right. exists d. destruct (hw_write_flake w _); cbn [snd]; [exists [RunMetadata d]|exists []];
    (split; [done|]; split; [by exists j; split; [lia|]|]; split; [done|]; by (left + right)).
Qed.
Definition writes (p : Probe) : bool := String.eqb (p_id p) "nix-flakes-enabled".
Lemma host_quiet i p : writes p = false -> snd (run_host from_slice w i p) = [].
Proof.
  unfold writes, run_host, host_probe. intros H. rewrite H.
  repeat match goal with |- context [if String.eqb ?a ?b then _ else _] => destruct (String.eqb a b) end; reflexivity.
Qed.
Lemma dispatch_quiet i p : writes p = false -> snd (dispatch toml from_slice w n try_exists resolve_agent i p) = [].
Proof. intros H. unfold dispatch. destruct (p_scope p); [by apply host_quiet|reflexivity..]. Qed.
Lemma dispatch_flakes i p : writes p = true -> p_scope p = S_Host ->
  dispatch toml from_slice w n try_exists resolve_agent i p = nix_flakes_enabled from_slice w p.
Proof.
  unfold writes, dispatch, run_host, host_probe. intros Hw ->. apply String.eqb_eq in Hw. rewrite Hw.
  cbn [String.eqb Ascii.eqb Bool.eqb]. reflexivity.
Qed.
Lemma quiet_effects i ps : Forall (fun p => writes p = false) ps -> concat (map snd (map (dispatch toml from_slice w n try_exists resolve_agent i) ps)) = [].
Proof. induction 1 as [|p ps Hp Hps IH]; [done|]. cbn [map concat]. by rewrite dispatch_quiet. Qed.
Lemma catalog_split : exists before p after, CATALOG = before ++ p :: after /\ writes p = true /\ p_scope p = S_Host /\
  Forall (fun p => writes p = false) (before ++ after).
Proof.
  exists (take 2 CATALOG), (mk_Probe "nix-flakes-enabled" C_Tooling S_Host Hard (Some Diagnostic.Config)), (drop 3 CATALOG).
  split_and!; [reflexivity..|]. cbn [take drop app CATALOG]. repeat (apply Forall_cons; split); [reflexivity..|by apply Forall_nil].
Qed.
Lemma catalog_confined i : confined (concat (map snd (run_catalog i))).
Proof.
  destruct catalog_split as (before & p & after & E & Hw & Hs & [Hb Ha]%Forall_app). unfold Doctor.run_catalog. rewrite E, !map_app, concat_app.
  cbn [map concat]. rewrite !quiet_effects, app_nil_l, app_nil_r by done. rewrite dispatch_flakes by done. apply flakes_confined.
Qed.

(** Resolving for the doctor derives the index in memory. *)
Lemma doctor_keeps_cache cache : snd (resolve_manifest_for_doctor toml index_of index_text l cache) = cache.
Proof.
  unfold resolve_manifest_for_doctor, resolve_manifest_and_workspace, select_manifest, workspace_index, smap_err, sbind, slift, sret, sfail. cbn [negb].
  repeat case_match; simplify_eq; done.
Qed.
End effects.

(* ------------------------------------------------------------------ *)
(** ** An ambiguous owner *)

Section ambiguity.
Context {Net : Type} {N : IpNetOps Net} (toml : toml_parser) (from_slice : bytes -> option Value).
Context (w : host_world) (n : network_world) (try_exists : bytes -> option bool)
  (resolve_agent : CredentialId -> result ResolvedAgentSource AgentSourceDefect).
Context (index_of : bytes -> option WorkspaceIndex) (index_text : WorkspaceIndex -> option bytes) (l : library_world).
Notation gather := (gather toml w index_of index_text l).
Notation command := (command toml from_slice w n try_exists resolve_agent index_of index_text l).

(** Two claimants are only ever found where no override was given. *)
Lemma ambiguous_has_no_override cache finding cache' :
  resolve_manifest_for_doctor toml index_of index_text l cache = (Err (Ambiguous finding), cache') ->
  resolve_binding None (lw_variable l) None = None.
Proof.
  unfold resolve_manifest_for_doctor, resolve_manifest_and_workspace, select_manifest, sbind, slift, sret, sfail. cbn [negb].
  destruct (resolve_binding None (lw_variable l) None) as [b|]; [|done]. intros H. exfalso.
  destruct (resolve_manifest l (rb_manifest b)) as [s|]; [|done]. cbn in H. destruct (read_manifest_file toml l s) as [[src m]|]; [|done].
  cbn in H. destruct (validate_sandbox_name s); [|done]. cbn in H. repeat case_match; simplify_eq.
Qed.

(** C27: [viv doctor] changes nothing. Whatever is found, the index of owners is not written, and all a run does to the
    host is at most this: create one directory of its own, under one of eight names drawn for it and only if nothing was
    there, write one file in it, run [nix flake metadata] on it, and remove it; [--list] does nothing at all. *)
Theorem doctor_changes_nothing variable roots strict list_ online cache report k cache' effects
    (Hrun : command variable roots strict list_ online cache = (report, k, cache', effects)) :
  cache' = cache /\ confined w effects /\ (list_ = true -> effects = [] /\ k = Success).
Proof.
  unfold Doctor.command in Hrun. destruct list_.
  - injection Hrun as <- <- <- <-. split; [done|]. split; [by left|done].
  - pose proof (doctor_keeps_cache toml index_of index_text l cache) as Hkeep. unfold Doctor.gather in Hrun.
    destruct (resolve_manifest_for_doctor toml index_of index_text l cache) as [res c]. cbn [snd] in Hkeep. subst c.
    injection Hrun as <- <- <- <-. split; [done|]. split; [apply catalog_confined|done].
Qed.

Lemma project_is_soft : Forall (fun p => p_scope p = S_Project -> p_severity p = Soft) CATALOG.
Proof. unfold CATALOG. repeat (apply Forall_cons; split); [..|by apply Forall_nil]; intros Hs; (discriminate Hs || reflexivity). Qed.
Lemma owned_findings (findings : list Finding) p : p ∈ CATALOG -> p_scope p = S_Project ->
  (if answers_ambiguity p then tripped p [] else skipped p "no-manifest-bound" []) ∈ findings ->
  let owned := ["manifest-resolves"; "working-directory-declared"]%string in
  (p_id p ∈ owned -> mk_Finding p Warn [] None ∈ findings) /\ (p_id p ∉ owned -> skipped p "no-manifest-bound" [] ∈ findings).
Proof.
  intros Hp Hs H. cbn zeta. assert (Hsev : tripped p [] = mk_Finding p Warn [] None).
  { unfold tripped. by rewrite (proj1 (Forall_forall _ _) project_is_soft p Hp Hs). }
  unfold answers_ambiguity in H. destruct (String.eqb_spec (p_id p) "manifest-resolves"), (String.eqb_spec (p_id p) "working-directory-declared");
    cbn [orb] in H; rewrite ?Hsev in H; (split; [intros Ho|intros Ho]); try exact H; exfalso; set_solver.
Qed.

(** An ambiguous owner is reported, not skipped over. When two manifests claim the working directory, the two probes
    about ownership warn, every other probe of the project scope says that no manifest is bound, the note names the
    ambiguity, and under [--strict] the run does not exit with 0. *)
Theorem ambiguity_is_reported variable roots strict online cache finding cache0
    (Hambiguous : resolve_manifest_for_doctor toml index_of index_text l cache = (Err (Ambiguous finding), cache0)) :
  exists i findings k cache' effects,
    gather variable roots online cache = (i, cache') /\ in_ambiguity i = Some finding /\ in_project i = None /\
    command variable roots strict false online cache = (Reported findings (Some OwnerAmbiguous), k, cache', effects) /\
    (forall p, p ∈ CATALOG -> p_scope p = S_Project ->
       let owned := ["manifest-resolves"; "working-directory-declared"]%string in
       (p_id p ∈ owned -> mk_Finding p Warn [] None ∈ findings) /\ (p_id p ∉ owned -> skipped p "no-manifest-bound" [] ∈ findings)) /\
    (strict = true -> k <> Success).
Proof.
  pose proof (ambiguous_has_no_override cache finding cache0 Hambiguous) as Hnone.
  unfold Doctor.command, Doctor.gather. rewrite Hambiguous, Hnone. cbn [option_map].
  set (i := mk_Inputs variable roots None (Some finding) online _). set (findings := map fst (run_catalog toml from_slice w n try_exists resolve_agent i)).
  assert (Hall : forall p, p ∈ CATALOG -> p_scope p = S_Project ->
    (if answers_ambiguity p then tripped p [] else skipped p "no-manifest-bound" []) ∈ findings).
  { intros p Hp Hs. unfold findings, Doctor.run_catalog. rewrite map_map. apply list_elem_of_In, in_map_iff. exists p. split; [|by apply list_elem_of_In].
    unfold dispatch. rewrite Hs. cbn [fst quiet]. by destruct (answers_ambiguity p). }
  exists i, findings, (exit_code findings strict), cache0, (concat (map snd (run_catalog toml from_slice w n try_exists resolve_agent i))).
  split_and!; [done..|intros p Hp Hs; exact (owned_findings findings p Hp Hs (Hall p Hp Hs))|]. intros ->. change findings with (run toml from_slice w n try_exists resolve_agent i). rewrite exit_code_run.
  destruct (List.find is_failure _) as [f|] eqn:E.
  - destruct (failure_in_catalog toml from_slice w n try_exists resolve_agent i f E) as (Hin & Hh & _).
    destruct (proj1 (Forall_forall _ _) hard_codes _ Hin Hh) as (k & -> & Hk). cbn. intros ->. set_solver.
  - assert (existsb (fun f => bool_decide (f_status f = Warn)) (run toml from_slice w n try_exists resolve_agent i) = true) as ->; [|done].
    apply existsb_exists. exists (tripped (mk_Probe "manifest-resolves" C_Config S_Project Soft None) []). split; [|reflexivity].
    apply list_elem_of_In. apply (Hall (mk_Probe "manifest-resolves" C_Config S_Project Soft None)); [|reflexivity].
    unfold CATALOG. do 22 right. by left.
Qed.
End ambiguity.

(* ------------------------------------------------------------------ *)
(** ** Orphans *)

Definition retains (l : list (bytes * list bytes)) (name path : bytes) : Prop := exists ps, (name, ps) ∈ l /\ path ∈ ps.
Lemma retains_nil name path : ~ retains [] name path.
Proof. intros (ps & H & _). by apply elem_of_nil in H. Qed.
Lemma retains_cons n ps l name path : retains ((n, ps) :: l) name path <-> (name = n /\ path ∈ ps) \/ retains l name path.
Proof.
  unfold retains. split.
  - intros (ps' & [[= -> ->]|H]%elem_of_cons & Hp); [by left|right; eauto].
  - intros [[-> Hp]|(ps' & H & Hp)]; [exists ps; split; [by left|done]|exists ps'; split; [by right|done]].
Qed.
Lemma map_push_retains k v l name path : retains (map_push k v l) name path <-> (name = k /\ path = v) \/ retains l name path.
Proof.
  induction l as [|[k' vs] l IH]; cbn [map_push].
  - rewrite retains_cons, list_elem_of_singleton. naive_solver.
  - destruct (ord_cmp k k') eqn:E; rewrite !retains_cons.
    + apply ord_cmp_eq in E as ->. rewrite elem_of_app, list_elem_of_singleton. naive_solver.
    + rewrite list_elem_of_singleton. naive_solver.
    + rewrite IH. naive_solver.
Qed.
Lemma map_push_keys {A} k (v : A) l : map fst (map_push k v l) = set_insert k (map fst l).
Proof.
  induction l as [|[k' vs] l IH]; [done|]. cbn [map_push map fst set_insert].
  destruct (ord_cmp k k') eqn:E; cbn [map fst]; [|done|by rewrite IH]. done.
Qed.
(** Ascending names, each with a place. *)
Definition tidy (l : list (bytes * list bytes)) : Prop := ascending (map fst l) /\ Forall (fun o => snd o <> []) l.
Lemma map_push_tidy k v l : tidy l -> tidy (map_push k v l).
Proof.
  intros [Ha Hf]. split; [rewrite map_push_keys; by apply set_insert_ascending|]. clear Ha.
  induction Hf as [|[k' vs] l Hx Hl IH]; cbn [map_push]; [by repeat constructor|]. destruct (ord_cmp k k'); repeat constructor; try done.
  cbn. by destruct vs.
Qed.

Section orphans.
Context (w : host_world).

Definition is_orphan (names : list bytes) (projects name path : bytes) (e : option project_entry) : Prop :=
  exists x, e = Some x /\ pe_is_dir x = true /\ pe_name x = name /\ utf8_valid name = true /\ name ∉ names /\ path = join projects name.
Lemma orphan_step_spec names projects s e s' : orphan_step names projects s e = Ok s' ->
  (forall name path, retains s' name path <-> retains s name path \/ is_orphan names projects name path e) /\
  (tidy s -> tidy s').
Proof.
  unfold orphan_step. destruct e as [x|]; [|done]. intros H. injection H as <-. unfold is_orphan, to_str.
  destruct (pe_is_dir x) eqn:Ed; cbn [negb]; [|split; [naive_solver congruence|done]].
  destruct (utf8_valid (pe_name x)) eqn:Eu; [|split; [naive_solver congruence|done]]. case_bool_decide as Hin; [split; [naive_solver|done]|].
  split; [|apply map_push_tidy].
  intros name path. rewrite map_push_retains. naive_solver.
Qed.
Lemma orphans_fold names projects es s s' : fold_err (orphan_step names projects) es s = Ok s' ->
  (forall name path, retains s' name path <-> retains s name path \/ Exists (is_orphan names projects name path) es) /\
  (tidy s -> tidy s').
Proof.
  revert s. induction es as [|e es IH]; intros s; cbn [fold_err].
  - intros H. injection H as <-. split; [|done]. intros. rewrite Exists_nil. naive_solver.
  - intros (s1 & H1%orphan_step_spec & [H2 H2']%IH)%rbind_ok. destruct H1 as [H1 H1']. split; [|auto].
    intros name path. rewrite H2, H1, Exists_cons. naive_solver.
Qed.
(** A retained directory of one durable root without a manifest. *)
Definition orphan_at (names : list bytes) (root name path : bytes) : Prop :=
  exists es, hw_projects w (join root (bs "projects")) = ProjectEntries es /\ Exists (is_orphan names (join root (bs "projects")) name path) es.
Lemma orphans_under_spec names s root s' : orphans_under w names s root = Ok s' ->
  (forall name path, retains s' name path <-> retains s name path \/ orphan_at names root name path) /\
  (tidy s -> tidy s').
Proof.
  unfold orphans_under, orphan_at. destruct (hw_projects w _) as [| |es]; [|done|].
  - intros H. injection H as <-. split; [|done]. naive_solver.
  - intros [H Ha]%orphans_fold. split; [|done]. intros name path. rewrite H. naive_solver.
Qed.

(** The orphans a report names are exactly the directories retained under the two durable roots whose name is no
    manifest of the library, each with every place it is retained in, in ascending order of names; and the probe passes
    exactly when there is none. *)
Theorem orphans_are_exact (i : Doctor.Inputs) (p : Probe) (names : list bytes) (orphans : list (bytes * list bytes))
    (Hnames : artifact_names (Roots.config (in_roots i)) ManifestKind (hw_manifests w) = Ok names)
    (Hread : manifest_orphans w (in_roots i) = Ok orphans) :
  let there name path := orphan_at names (Roots.state (in_roots i)) name path \/ orphan_at names (Roots.data (in_roots i)) name path in
  (forall name path, retains orphans name path <-> there name path) /\ ascending (map fst orphans) /\
  (f_status (state_manifest_orphans w i p) = Pass <-> forall name path, ~ there name path).
Proof.
  cbn zeta. pose proof Hread as H. unfold manifest_orphans in H. rewrite Hnames in H. cbn [fold_err] in H.
  apply rbind_ok in H as (s1 & [H1 A1]%orphans_under_spec & H). apply rbind_ok in H as (s2 & [H2 A2]%orphans_under_spec & H).
  injection H as ->. destruct (A2 (A1 (conj asc_nil (Forall_nil_2 _)))) as [Hasc Hne].
  assert (Hspec : forall name path, retains orphans name path <->
      orphan_at names (Roots.state (in_roots i)) name path \/ orphan_at names (Roots.data (in_roots i)) name path).
  { intros name path. rewrite H2, H1. pose proof (retains_nil name path). tauto. }
  split_and!; [done..|]. unfold state_manifest_orphans. rewrite Hread. setoid_rewrite <- Hspec. destruct orphans as [|[name ps] orphans].
  - split; [intros _ name path; apply retains_nil|done].
  - split; [unfold tripped; by destruct (p_severity p)|]. intros Hno. exfalso. inversion Hne as [|? ? Hps _]. destruct ps as [|path ps]; [done|].
    apply (Hno name path). apply retains_cons. left. split; [done|by left].
Qed.
End orphans.

(* ------------------------------------------------------------------ *)
(** ** The lints and the judgments of an evaluation *)

Lemma strip_then_slash p v : match strip_prefix p v with Some rest => starts_with (bs "/") rest | None => false end = starts_with (p ++ bs "/") v.
Proof.
  apply Bool.eq_iff_eq_true. rewrite starts_with_true. destruct (strip_prefix p v) as [rest|] eqn:E.
  - apply strip_prefix_Some in E as ->. rewrite starts_with_true. split; intros [r Hr].
    + exists r. by rewrite Hr, app_assoc.
    + exists r. rewrite <- app_assoc in Hr. by apply app_inv_head in Hr.
  - split; [done|]. intros [r ->]. rewrite <- app_assoc, strip_prefix_app in E. discriminate E.
Qed.
(** What the lint lets through of the sources an evaluation refuses. *)
Definition unwarned_session_path (value : bytes) : bool :=
  one_of value [bs "/"; bs "/var"; bs "/run"] || bytes_eqb value (bs "/run/user") || starts_with (bs "/run/user/") value.
Lemma exact_is_prefix p v : bytes_eqb v p = true -> starts_with p v = true.
Proof. unfold bytes_eqb. rewrite bool_decide_eq_true. intros ->. apply starts_with_true. exists []. by rewrite app_nil_r. Qed.
(** The session lint never warns about a source an evaluation would let pass; an evaluation refuses, beyond what the lint
    warns about, [/run/user] and what is under it, and the three ancestors. *)
Theorem session_lint_agrees value :
  is_session_path value = bool_decide (is_Some (session_dir_lint value)) || unwarned_session_path value.
Proof.
  unfold is_session_path, session_dir_lint, unwarned_session_path, SESSION_MARKERS. cbn [existsb List.find fst snd]. rewrite !strip_then_slash.
  change (bs "/tmp" ++ bs "/") with (bs "/tmp/"). change (bs "/var/tmp" ++ bs "/") with (bs "/var/tmp/").
  change (bs "/run/user" ++ bs "/") with (bs "/run/user/").
  pose proof (exact_is_prefix (bs "${XDG_RUNTIME_DIR}") value) as Hx. revert Hx.
  generalize (one_of value [bs "/"; bs "/var"; bs "/run"]). intros a.
  generalize (bytes_eqb value (bs "/tmp")), (starts_with (bs "/tmp/") value), (bytes_eqb value (bs "/var/tmp")), (starts_with (bs "/var/tmp/") value).
  generalize (bytes_eqb value (bs "/run/user")), (starts_with (bs "/run/user/") value).
  generalize (starts_with (bs "${XDG_RUNTIME_DIR}") value), (bytes_eqb value (bs "${XDG_RUNTIME_DIR}")).
  intros [] [] r1 r2 t1 t2 v1 v2 Hx; [..|discriminate (Hx eq_refl)|]; by destruct a, r1, r2, t1, t2, v1, v2.
Qed.

Lemma find_str_unfold needle s : find_str needle s =
  match strip_prefix needle s with
  | Some rest => Some ([], rest)
  | None => match s with [] => None | b :: s' => let* (before, after) := find_str needle s' in Some (b :: before, after) end
  end.
Proof. by destruct s. Qed.
Lemma find_str_found needle a b : is_Some (find_str needle (a ++ needle ++ b)).
Proof.
  induction a as [|c a IH]; rewrite find_str_unfold.
  - cbn [app]. rewrite strip_prefix_app. by eexists.
  - destruct (strip_prefix needle _); [by eexists|]. cbn [app]. destruct IH as [[before after] ->]. by eexists.
Qed.
Lemma lint_finds n l line : line ∈ l -> is_comment line = false -> is_Some (first_marker PERSONAL_MARKERS line) -> is_Some (lint_lines n l).
Proof.
  intros Hin Hc Hm. revert n. induction l as [|x l IH]; intros n; [by apply elem_of_nil in Hin|]. cbn [lint_lines].
  apply elem_of_cons in Hin as [<-|Hin].
  - rewrite Hc. destruct Hm as [literal ->]. by eexists.
  - destruct (is_comment x); [by apply IH|]. destruct (first_marker _ x); [by eexists|by apply IH].
Qed.
(** A personal path an evaluation would refuse in a shared layer is warned about wherever it is written on a line that is
    not a comment, unless it is under [/root]. *)
Theorem personal_lint_finds_literals text before value after
    (Hline : before ++ value ++ after ∈ lines text) (Hcode : is_comment (before ++ value ++ after) = false)
    (Hpersonal : is_personal_path value = true) (Hroot : starts_with (bs "/root/") value = false) :
  is_Some (personal_path_lint text).
Proof.
  apply (lint_finds 1 _ _ Hline Hcode). unfold is_personal_path, PERSONAL_PREFIXES in Hpersonal. cbn [existsb] in Hpersonal.
  rewrite Hroot, !orb_false_r in Hpersonal. unfold PERSONAL_MARKERS. cbn [first_marker]. apply orb_true_iff in Hpersonal as [H|H].
  - apply starts_with_true in H as [r ->]. rewrite <- app_assoc. destruct (find_str_found (bs "/home/") before (r ++ after)) as [[x y] ->]. by eexists.
  - apply starts_with_true in H as [r ->]. rewrite <- app_assoc. destruct (find_str (bs "/home/") _) as [[x y]|]; [by eexists|].
    destruct (find_str_found (bs "/Users/") before (r ++ after)) as [[x y] ->]. by eexists.
Qed.
(** ... which the lint does not know, and the evaluation refuses. *)
Theorem root_home_is_not_linted :
  is_personal_path (bs "/root/.ssh") = true /\ personal_path_lint (bs "vivarium.mounts.k.source = /root/.ssh;" ++ newline) = None.
Proof. split; vm_compute; reflexivity. Qed.
(** A runtime directory spelled out is refused at evaluation and passes the lint. *)
Theorem spelled_runtime_dir_is_not_linted :
  is_session_path (bs "/run/user/1000/bus") = true /\ session_dir_lint (bs "/run/user/1000/bus") = None.
Proof. split; vm_compute; reflexivity. Qed.

(** One figure: when the headroom probe passes, the admission gate over the same reading does not refuse. *)
Theorem headroom_agrees_with_admission w i p fleet
    (Hpass : f_status (host_memory_headroom w i p) = Pass) :
  is_ok (admission (let* meminfo := read_text (hw_read w (bs "/proc/meminfo")) in available_memory_bytes meminfo) fleet) = true.
Proof.
  unfold host_memory_headroom in Hpass. destruct (option_bind _ _ _ _) as [available|]; [|done].
  destruct (available <? Z.max MEMORY_RESERVE_BYTES (bound_ceiling i)) eqn:E; [exfalso; revert Hpass; unfold tripped; by destruct (p_severity p)|].
  apply Z.ltb_ge in E. unfold admission. rewrite bool_decide_false; [by destruct fleet|]. unfold admit_.
  replace (available <? MEMORY_RESERVE_BYTES) with false by (symmetry; apply Z.ltb_ge; lia). done.
Qed.
(** The declared budget of this version leaves a share more than a large workspace can pin. *)
Theorem declared_budget_suffices p : f_status (host_fd_limit_sufficient p) = Pass.
Proof. reflexivity. Qed.

(* ------------------------------------------------------------------ *)
(** ** Concrete runs *)

(** A host whose [nix] is too old and names no features, with a private runtime directory and one orphan. *)
Definition demo_host : host_world := mk_host_world 1000
  (Exited true (bs "nix (Nix) 2.18.1" ++ newline)) (Exited false []) (Exited true newline)
  (bs "/tmp") (fun n => dec (Z.of_nat n)) (fun p => bytes_eqb p (bs "/tmp/viv-flake-probe-1")) (fun _ => true) (fun _ => Exited true [])
  (fun _ => true) true (fun _ => Missing) (fun _ => Occupied) (fun _ => true) (fun _ => true) (fun _ => None)
  (fun _ => Some (mk_runtime_metadata true 1000 448))
  (Entries [Some (mk_library_entry (bs "a.toml") (Some false) false)])
  (fun _ => ProjectEntries [Some (mk_project_entry (bs "gone") true); Some (mk_project_entry (bs "a") true)])
  (fun _ => None) (fun _ => CouldNotRun) CouldNotRun.
Definition demo_network : network_world := mk_network_world CouldNotRun CouldNotRun (fun _ => false) (fun _ => false).
Definition demo_agent (id : CredentialId) : result ResolvedAgentSource AgentSourceDefect := Err (AS_Unset []).
Definition demo_variable (name : bytes) : option bytes := if bytes_eqb name (bs "XDG_RUNTIME_DIR") then Some (bs "/run/user/1000") else None.
Definition demo_roots : XdgRoots := mk_XdgRoots (bs "/c") (bs "/d") (bs "/s") (bs "/k").
Definition demo_inputs : Doctor.Inputs := mk_Inputs demo_variable demo_roots None None true None.
Definition demo_no_toml : toml_parser := fun _ => Err (mk_syntax_error None []).
(** Both manifests declare the tree the working directory is in. *)
Definition demo_claimants : toml_parser := fun _ => Ok (document (demo_declaring "/w")).
Definition demo_finding : AmbiguousWorkspaceOwner :=
  mk_AmbiguousWorkspaceOwner (bs "/w/x") [(bs "a", demo_path "a"); (bs "b", demo_path "b")].

Lemma preflight_is_the_report_witness :
  preflight (Net := Z * Z) demo_no_toml (fun _ => None) demo_host demo_network (fun _ => None) demo_agent demo_variable demo_roots =
    Err (diagnosed N_Host "nix-version" Unavailable).
Proof.
  pose proof (preflight_is_the_report (Net := Z * Z) demo_no_toml (fun _ => None) demo_host demo_network (fun _ => None) demo_agent
    demo_variable demo_roots demo_inputs true eq_refl) as H.
  destruct (preflight _ _ _ _ _ _ _ _) as [root|f] eqn:E.
  - exfalso. destruct H as (_ & _ & _ & Hx). vm_compute in Hx. by destruct Hx.
  - destruct H as (finding & Hf & -> & _). vm_compute in Hf. injection Hf as <-. vm_compute. reflexivity.
Defined.
Lemma doctor_changes_nothing_witness :
  confined demo_host [CreateDir (bs "/tmp/viv-flake-probe-1"); WriteFlake (bs "/tmp/viv-flake-probe-1/flake.nix");
    RunMetadata (bs "/tmp/viv-flake-probe-1"); RemoveTree (bs "/tmp/viv-flake-probe-1")].
Proof.
  destruct (command (Net := Z * Z) demo_claimants (fun _ => None) demo_host demo_network (fun _ => None) demo_agent (fun _ => None)
    demo_encode demo_library demo_variable demo_roots false false true Missing) as [[[report k] cache'] effects] eqn:E.
  pose proof (doctor_changes_nothing (Net := Z * Z) demo_claimants (fun _ => None) demo_host demo_network (fun _ => None) demo_agent (fun _ => None)
    demo_encode demo_library demo_variable demo_roots false false true Missing report k cache' effects E) as (_ & H & _).
  apply (f_equal snd) in E. vm_compute in E. subst effects. exact H.
Defined.
Lemma ambiguity_is_reported_witness :
  exists findings k cache' effects,
    command (Net := Z * Z) demo_claimants (fun _ => None) demo_host demo_network (fun _ => None) demo_agent (fun _ => None)
      demo_encode demo_library demo_variable demo_roots true false true Missing = (Reported findings (Some OwnerAmbiguous), k, cache', effects) /\
    k <> Success.
Proof.
  destruct (ambiguity_is_reported (Net := Z * Z) demo_claimants (fun _ => None) demo_host demo_network (fun _ => None) demo_agent (fun _ => None)
    demo_encode demo_library demo_variable demo_roots true true Missing demo_finding Missing) as (i & findings & k & cache' & effects & _ & _ & _ & H & _ & Hk);
    [vm_compute; reflexivity|].
  exists findings, k, cache', effects. split; [exact H|by apply Hk].
Defined.
Lemma orphans_are_exact_witness :
  retains [(bs "gone", [bs "/s/projects/gone"; bs "/d/projects/gone"])] (bs "gone") (bs "/d/projects/gone") /\
  f_status (state_manifest_orphans demo_host demo_inputs (mk_Probe "state-manifest-orphans" C_Config S_Host Soft None)) = Warn.
Proof.
  destruct (orphans_are_exact demo_host demo_inputs (mk_Probe "state-manifest-orphans" C_Config S_Host Soft None) [bs "a"]
    [(bs "gone", [bs "/s/projects/gone"; bs "/d/projects/gone"])]) as (H & _); [vm_compute; reflexivity..|].
  split; [|vm_compute; reflexivity]. apply H. right. eexists. split; [reflexivity|]. apply Exists_cons_hd. eexists. split; [reflexivity|].
  split_and!; try reflexivity. apply (bool_decide_unpack _). vm_compute. exact I.
Defined.
Lemma personal_lint_finds_literals_witness : is_Some (personal_path_lint (bs "source = /home/alice/x;" ++ newline)).
Proof.
  apply (personal_lint_finds_literals _ (bs "source = ") (bs "/home/alice/x") (bs ";")); [|vm_compute; reflexivity..].
  apply (bool_decide_unpack _). vm_compute. exact I.
Defined.
Lemma headroom_agrees_with_admission_witness :
  f_status (host_memory_headroom demo_host demo_inputs (mk_Probe "host-memory-headroom" C_Capacity S_Host Soft None)) = Skipped /\
  is_ok (admission (available_memory_bytes (bs "MemAvailable: 4194304 kB")) None) = true.
Proof.
  split; [vm_compute; reflexivity|].
  apply (headroom_agrees_with_admission (mk_host_world 1000 CouldNotRun CouldNotRun CouldNotRun [] (fun _ => []) (fun _ => false) (fun _ => false)
    (fun _ => CouldNotRun) (fun _ => false) false (fun _ => Content (bs "MemAvailable: 4194304 kB")) (fun _ => Absent_) (fun _ => false) (fun _ => false)
    (fun _ => None) (fun _ => None) NoLibrary (fun _ => NoProjects) (fun _ => None) (fun _ => CouldNotRun) CouldNotRun)
    demo_inputs (mk_Probe "host-memory-headroom" C_Capacity S_Host Soft None) None).
  vm_compute. reflexivity.
Defined.
