(* ===== verification/Exec.v ===== *)
(** * Running a command in the guest ([src/src/cli/session.rs])

    [viv exec] and [viv shell]: the environment that crosses, the terminal, the race between the session and a
    terminating signal, and what the process exits with.  The session itself is [HostControl]'s, the VM under it
    [Start]'s.  Names and values are bytes; what the terminal does is kept as a log. *)
From S2P Require Import Prelude Bytes Paths Grammar Message Frame Hybrid HostControl Process Spec Diagnostic Lifecycle Stop Start DemoCodec SessionSpec HostSessionSpec StartSpec.

Definition ALLOWLIST : list bytes := map bs ["TERM"; "COLORTERM"; "NO_COLOR"; "FORCE_COLOR"; "LANG"]%string.
Definition ALLOWLIST_PREFIX : bytes := bs "LC_".
Definition allowed (name : bytes) : bool := starts_with ALLOWLIST_PREFIX name || bool_decide (name ∈ ALLOWLIST).

Notation host_env := (list (bytes * bytes)).
Definition variable (name : string) (value : bytes) : EnvironmentVariable := mk_EnvironmentVariable (bs name) value.
Definition pair_ (name value : bytes) : EnvironmentVariable := mk_EnvironmentVariable name value.
Definition guest_defaults (defaults : GuestSession) : list EnvironmentVariable :=
  [variable "PATH" (session_path defaults); variable "HOME" (home defaults); variable "USER" (user defaults);
   variable "LOGNAME" (user defaults); variable "SHELL" (shell defaults)].
Definition offered (host : host_env) : list EnvironmentVariable :=
  omap (fun '(name, value) => if allowed name then Some (pair_ name value) else None) host.
(** [--env KEY] copies the host's value, when there is one. *)
Definition named (host : host_env) (e : bytes * option bytes) : option EnvironmentVariable :=
  let '(name, value) := e in
  match value with
  | Some value => Some (pair_ name value)
  | None => let* (_, found) := List.find (fun c => bytes_eqb (fst c) name) host in Some (pair_ name found)
  end.
Definition guest_environment (defaults : GuestSession) (host : host_env) (requested : list (bytes * option bytes)) : list EnvironmentVariable :=
  guest_defaults defaults ++ offered host ++ omap (named host) requested.

(** ** The end of a session *)

(** The four signals that are watched. *)
Inductive Terminating := Interrupt | Quit_ | Hangup | Terminate.
Definition recv_status (s : Terminating) : Z :=
  match s with Interrupt => 128 + 2 | Quit_ => 128 + 3 | Hangup => 128 + 1 | Terminate => 128 + 15 end.

Definition refuse (e : SessionError) : Failure :=
  match e with
  | NotListening => diagnosed N_Vm "control-socket-unavailable" Diagnostic.Unavailable
  | S_Identity => diagnosed N_Vm "boot-identity-mismatch" Diagnostic.Unavailable
  | Transport _ => diagnosed N_Vm "control-socket-failed" IoErr
  end.
Definition refused (code : bytes) : Failure :=
  if bytes_eqb code (bs "spawn") then diagnosed N_Guest "spawn-failed" Diagnostic.Unavailable
  else if bytes_eqb code (bs "authorization") then diagnosed N_Guest "unauthorized" Diagnostic.Unavailable
  else diagnosed N_Guest "protocol-fault" Software.
Definition conclude (o : SessionOutcome) : result ExitKind Failure :=
  match o with
  | Exited status => Ok (GuestStatus status)
  | Refused code => Err (refused code)
  | Lost _ => Err (diagnosed N_Vm "session-transport-lost" IoErr)
  end.

(** ** The verb *)

Inductive terminal_action := EnterRaw | Restore_.
Record exec_world := mk_exec_world {
  xw_sessions : session_world;                     (* what [ensure_running] reads *)
  xw_host : host_env;
  xw_enter : bool;                                 (* there is a terminal and it could be put in raw mode *)
  xw_window : option TerminalSize;
  xw_winch : bool;                                 (* window changes can be watched *)
  xw_late : bool;                                  (* the connect outlived its five seconds *)
  xw_socket : result chan io_error;
  xw_stdout : writer; xw_stderr : writer;
  xw_events : list host_event;                     (* what the session's branches find ready *)
  xw_signal : option Terminating }.                (* a watched signal that came before the session ended *)
(** The answer is [None] while the session runs. *)
Record ran := mk_ran { x_answer : option (result ExitKind (stop Failure)); x_terminal : list terminal_action; x_host : host }.

Section exec.
Context {W : WireCodec} (exists_in_store : bytes -> bool) (to_vec_pretty : Generations.GenerationRecord -> option bytes).

Definition start_request (mode : SessionMode) (requested : Grammar.GuestCommand) (host : host_env) (p : Prepared) : StartRequest :=
  mk_StartRequest mode (Grammar.argv requested) (guest_environment (pr_session p) host (Grammar.env requested))
    (pr_workspace_cwd p) (Grammar.pty requested).
Definition session_answer (r : result SessionOutcome (stop SessionError)) : option (result ExitKind (stop Failure)) :=
  match r with
  | Ok o => Some (map_err Failed (conclude o))
  | Err (Failed e) => Some (Err (Failed (refuse e)))
  | Err Blocks => None
  end.
Definition run (mode : SessionMode) (requested : Grammar.GuestCommand) (w : exec_world) (h : host) : ran :=
  match ensure_running exists_in_store to_vec_pretty (xw_sessions w) h with
  | (Err e, h') => mk_ran (match e with Blocks => None | e => Some (Err e) end) [] h'
  | (Ok p, h') =>
      let raw := Grammar.pty requested && xw_enter w in
      let entered := if raw then [EnterRaw] else [] in
      let restored := if raw then [Restore_] else [] in
      match xw_signal w with
      | Some s => mk_ran (Some (Ok (GuestStatus (recv_status s)))) (entered ++ restored) h'
      | None =>
          match session_run (xw_late w) (xw_socket w) (HostControl.mk_BootMetadata (Lifecycle.bm_boot_identity (pr_boot p)))
                  (start_request mode requested (xw_host w) p) (if raw then xw_window w else None) true (raw && xw_winch w)
                  (xw_stdout w) (xw_stderr w) (xw_events w) with
          | None => mk_ran None entered h'
          | Some (r, _) =>
              match session_answer r with
              | None => mk_ran None entered h'
              | Some a => mk_ran (Some a) (entered ++ restored) h'
              end
          end
      end
  end.
End exec.

(* ------------------------------------------------------------------ *)
(** ** What crosses *)

Definition first_of {A} (a b : option A) : option A := match a with Some _ => a | None => b end.
(** The value a caller, the host and the image give a name, strongest first. *)
Definition asked_value (host : host_env) (n : bytes) (e : bytes * option bytes) : option bytes :=
  if bool_decide (fst e = n) then first_of (snd e) (option_map snd (List.find (fun c => bytes_eqb (fst c) n) host)) else None.
Definition host_value (host : host_env) (n : bytes) : option bytes :=
  if allowed n then option_map snd (last (filter (fun e => fst e = n) host)) else None.
Definition image_value (defaults : GuestSession) (n : bytes) : option bytes :=
  option_map ev_value (last (filter (fun v => ev_name v = n) (guest_defaults defaults))).
Definition crossing (defaults : GuestSession) (host : host_env) (requested : list (bytes * option bytes)) (n : bytes) : option bytes :=
  first_of (last (omap (asked_value host n) requested)) (first_of (host_value host n) (image_value defaults n)).

Definition valued (n : bytes) (l : list EnvironmentVariable) : option bytes := option_map ev_value (last (filter (fun v => ev_name v = n) l)).
Lemma valued_app n a b : valued n (a ++ b) = first_of (valued n b) (valued n a).
Proof. unfold valued. rewrite filter_app, last_app. by destruct (last (filter _ b)). Qed.
Lemma valued_one n m v : valued n [pair_ m v] = if decide (m = n) then Some v else None.
Proof. unfold valued. rewrite filter_cons. cbn [ev_name pair_]. by destruct (decide (m = n)). Qed.
Lemma offered_cons m v host : offered ((m, v) :: host) = (if allowed m then [pair_ m v] else []) ++ offered host.
Proof. unfold offered. cbn. by destruct (allowed m). Qed.
Lemma valued_offered host n : valued n (offered host) = host_value host n.
Proof.
  induction host as [|[m v] host IH]; [unfold host_value; by destruct (allowed n)|]. rewrite offered_cons, valued_app, IH. unfold host_value.
  rewrite filter_cons. cbn [fst]. destruct (decide (m = n)) as [->|Hn].
  - destruct (allowed n); [|done]. rewrite valued_one, decide_True, last_cons by done. by destruct (last _).
  - destruct (allowed m); [rewrite valued_one, decide_False by done|change (valued n []) with (@None bytes)]; by destruct (if allowed n then _ else _).
Qed.
Lemma named_cons host e requested : omap (named host) (e :: requested) = option_list (named host e) ++ omap (named host) requested.
Proof. cbn. by destruct (named host e). Qed.
Lemma asked_cons host n e requested : last (omap (asked_value host n) (e :: requested)) = first_of (last (omap (asked_value host n) requested)) (asked_value host n e).
Proof. cbn. destruct (asked_value host n e); [rewrite last_cons|]; by destruct (last _). Qed.
Lemma valued_named_one host n e : valued n (option_list (named host e)) = asked_value host n e.
Proof.
  destruct e as [m v]. unfold asked_value. cbn [fst snd].
  assert (Hone : forall x : option bytes, valued n (option_list (option_map (pair_ m) x)) = if bool_decide (m = n) then x else None).
  { intros [x|]; [|by destruct (bool_decide _)]. change (option_list (option_map (pair_ m) (Some x))) with [pair_ m x]. rewrite valued_one.
    case_bool_decide; [by rewrite decide_True|by rewrite decide_False]. }
  assert (Hn : named host (m, v) = option_map (pair_ m) (first_of v (option_map snd (List.find (fun c => bytes_eqb (fst c) m) host)))).
  { destruct v as [v|]; [done|]. cbn. by destruct (List.find _ host) as [[x y]|]. }
  rewrite Hn, Hone. case_bool_decide; [by subst m|done].
Qed.
Lemma valued_named host requested n : valued n (omap (named host) requested) = last (omap (asked_value host n) requested).
Proof. induction requested as [|e requested IH]; [done|]. by rewrite named_cons, valued_app, IH, valued_named_one, asked_cons. Qed.
Lemma first_of_assoc {A} (a b c : option A) : first_of (first_of a b) c = first_of a (first_of b c).
Proof. by destruct a. Qed.
Lemma guest_environment_values defaults host requested n : valued n (guest_environment defaults host requested) = crossing defaults host requested n.
Proof.
  unfold guest_environment, crossing. rewrite !valued_app, valued_named, valued_offered. unfold image_value. fold (valued n (guest_defaults defaults)).
  apply first_of_assoc.
Qed.
Lemma asked_value_source host n requested v : last (omap (asked_value host n) requested) = Some v ->
  (n, Some v) ∈ requested \/ ((n, None) ∈ requested /\ (n, v) ∈ host).
Proof.
  intros H%last_Some_elem_of%list_elem_of_omap. destruct H as ([m x] & Hin & Hv). unfold asked_value in Hv. cbn [fst snd] in Hv.
  case_bool_decide; [subst|done]. destruct x as [x|]; cbn [first_of] in Hv; [injection Hv as ->; by left|]. right. split; [done|].
  destruct (List.find _ host) as [[a b]|] eqn:E; [|done]. injection Hv as <-. apply find_some in E as [E1 E2]. apply bool_decide_eq_true in E2 as <-.
  by apply list_elem_of_In.
Qed.

Section theorems.
Context {W : WireCodec} (exists_in_store : bytes -> bool) (to_vec_pretty : Generations.GenerationRecord -> option bytes).


(** What a finished session read off the agent: output, and then the status. *)
Definition agent_exited (r0 : reader) (n : Z) : Prop :=
  exists outs r1 r2 st, arrives r0 outs r1 /\ Forall is_stream outs /\ read_agent_frame r1 = (Ok (A_Exit st), r2) /\ n = status st.
Lemma session_run_exited late socket m start size input resize out err events n c :
  session_run late socket m start size input resize out err events = Some (Ok (Exited n), c) ->
  exists c0, on_connection late socket (fun _ => Failed NotListening) (open_session m start size) = (Ok tt, Some c0) /\ agent_exited (ch_in c0) n.
Proof.
  unfold session_run. destruct (on_connection _ _ _ _) as [[[]|e] [c0|]]; try done.
  destruct (session_loop events _) as [[s|r s]|] eqn:E; try done. intros H. injection H as Hr <-. destruct r as [o|x]; [|done]. injection Hr as ->.
  exists c0. split; [done|]. destruct (session_loop_forwards events _ _ _ [] _ _ _ (session_state_forwards c0 input resize out err) E) as (outs & r1 & He & Ha & Hs & _).
  destruct (read_agent_frame r1) as [f r2] eqn:Er. cbn [fst] in He. inversion He; subst. by exists outs, r1, r2, st.
Qed.
Lemma conclude_ok o k : conclude o = Ok k -> exists n, o = Exited n /\ k = GuestStatus n.
Proof. destruct o; cbn; [intros [= <-]; by eexists|done..]. Qed.
Lemma session_answer_code r f : session_answer r = Some (Err (Failed f)) -> failure_code f ∈ [Diagnostic.Unavailable; IoErr; Software].
Proof.
  destruct r as [o|[e|]]; cbn; [| |done].
  - destruct o as [n|code|x]; cbn; [done| |]; intros H; injection H as <-; [|set_solver].
    unfold refused. repeat (destruct (bytes_eqb _ _); [cbn; set_solver|]). cbn. set_solver.
  - destruct e; cbn; intros H; injection H as <-; cbn; set_solver.
Qed.

(** C29: The exit contract of a session, and its terminal. A status is reported only as the very one the agent's first
    frame that is not output carries, or as 128 plus the signal that ended the wait; a session that fails says so with
    69, 70 or 74 and never with a status; the host behind it is the one [ensure_running] left. The terminal is raw only
    for a session that asked for one, and whatever way the run answers it is restored. *)
Theorem session_exit_contract (mode : SessionMode) (requested : Grammar.GuestCommand) (w : exec_world) (h : host) (a : result ExitKind (Hybrid.stop Failure))
    (Hrun : x_answer (run exists_in_store to_vec_pretty mode requested w h) = Some a) :
  let '(e, h') := ensure_running exists_in_store to_vec_pretty (xw_sessions w) h in
  let r := run exists_in_store to_vec_pretty mode requested w h in
  x_host r = h' /\ (x_terminal r = [] \/ (x_terminal r = [EnterRaw; Restore_] /\ Grammar.pty requested = true)) /\
  match e with
  | Err f => a = Err f
  | Ok p =>
      match a with
      | Ok k =>
          (exists s, xw_signal w = Some s /\ k = GuestStatus (recv_status s)) \/
          (xw_signal w = None /\ exists size c n,
             on_connection (xw_late w) (xw_socket w) (fun _ => Failed NotListening)
               (open_session (HostControl.mk_BootMetadata (Lifecycle.bm_boot_identity (pr_boot p)))
                 (start_request mode requested (xw_host w) p) size) = (Ok tt, Some c) /\
             agent_exited (ch_in c) n /\ k = GuestStatus n)
      | Err (Failed f) => failure_code f ∈ [Diagnostic.Unavailable; IoErr; Software]
      | Err Blocks => False
      end
  end.
Proof.
  unfold run in *. destruct (ensure_running _ _ _ _) as [[p|e] h']; cbn zeta in *.
  - assert (Hterm : forall b : bool, (b = true -> Grammar.pty requested = true) ->
      (if b then [EnterRaw] else []) ++ (if b then [Restore_] else []) = [] \/
      ((if b then [EnterRaw] else []) ++ (if b then [Restore_] else []) = [EnterRaw; Restore_] /\ Grammar.pty requested = true)).
    { intros [] Hb; [right; split; [done|by apply Hb]|by left]. }
    assert (Hraw : Grammar.pty requested && xw_enter w = true -> Grammar.pty requested = true) by (intros H; by apply andb_true_iff in H as [? _]).
    revert Hraw Hrun. generalize (Grammar.pty requested && xw_enter w). intros raw Hraw. destruct (xw_signal w) as [s|].
    + cbn [x_answer x_host x_terminal]. intros H. injection H as <-. split; [done|]. split; [by apply Hterm|]. left. by exists s.
    + destruct (session_run _ _ _ _ _ _ _ _ _ _) as [[r c]|] eqn:Es; [|done]. destruct (session_answer r) as [a'|] eqn:Ea; [|done].
      cbn [x_answer x_host x_terminal]. intros H. injection H as ->. split; [done|]. split; [by apply Hterm|]. destruct a as [k|[f|]].
      * right. split; [done|]. destruct r as [o|[x|]]; cbn in Ea; [|done..]. injection Ea as Ea. apply map_err_ok, conclude_ok in Ea as (n & -> & ->).
        apply session_run_exited in Es as (c0 & Hc & Hx). by eexists _, c0, n.
      * by apply session_answer_code in Ea.
      * destruct r as [o|[x|]]; cbn in Ea; [destruct o; discriminate Ea|discriminate Ea..].
  - cbn [x_answer x_host x_terminal] in *. split; [done|]. split; [by left|]. destruct e; [by injection Hrun as <-|done].
Qed.
End theorems.

(* ------------------------------------------------------------------ *)
(** ** A concrete run *)

(** A running VM whose agent prints and exits with 3. *)
Definition demo_boot : Lifecycle.BootMetadata :=
  Lifecycle.mk_BootMetadata 12 (HostControl.bm_boot_identity demo_boot_metadata) (bs "box") (bs "default") BACKEND [bs "/w"].
Definition demo_agent_answers : chan :=
  mk_chan (mk_reader (bs "OK 1" ++ x0a :: demo_greeting ++ framed TAG_STDOUT (bs "hi") ++
    framed TAG_EXIT (default [] (@to_vec _ (@wc_exit demo_codec) (mk_ExitStatus 3)))) None) false (mk_writer [] None true) [].
Definition demo_exec : exec_world :=
  mk_exec_world (w_session (Ready demo_boot) NotRun) [(bs "TERM", bs "xterm"); (bs "AWS_SECRET", bs "s")] true (Some (mk_TerminalSize 24 80)) true
    false (Ok demo_agent_answers) (mk_writer [] None true) (mk_writer [] None true) [AgentArrives; AgentArrives] None.
Definition demo_command : Grammar.GuestCommand := Grammar.mk_Session [bs "true"] true [].
Lemma session_exit_contract_witness :
  x_terminal (run (W := demo_codec) w_exists w_render Exec demo_command demo_exec w_host) = [EnterRaw; Restore_] /\
  exists c, agent_exited (W := demo_codec) (ch_in c) 3.
Proof.
  pose proof (session_exit_contract (W := demo_codec) w_exists w_render Exec demo_command demo_exec w_host (Ok (GuestStatus 3))
    ltac:(vm_compute; reflexivity)) as H.
  destruct (ensure_running w_exists w_render (xw_sessions demo_exec) w_host) as [[p|e] h'].
  - destruct H as (_ & _ & [(s & Hs & _)|(_ & size & c & n & _ & Ha & Hn)]); [discriminate Hs|]. injection Hn as <-.
    split; [vm_compute; reflexivity|by exists c].
  - destruct H as (_ & _ & H). discriminate H.
Defined.
