(* ===== verification/Attach.v ===== *)
(** * Following the console of a launch ([src/src/cli/attach.rs])

    [viv start --attach]: the follower of the capture [Console] writes, the stream that ends with the VM, and what the
    attached start exits with.  Each operation of the follower sees the disk as it is then: a poll runs against the
    observations its operations make, one per operation, and the writer moves between any two of them.  What a failing
    write of a chunk put out before it failed is not counted.  The second half has what a follower forwards and when a
    stream ends. *)
From S2P Require Import Prelude Bytes Paths Launch Diagnostic Lifecycle Stop Volumes Generations Start Exec Console.

(** [std::io::ErrorKind], as far as it is told apart. *)
Inductive stream_error := PathNotFound | BrokenPipe | OtherError.
Definition READ_BUFFER : nat := Z.to_nat (64 * 1024).
Definition STABLE_EOF_POLLS : Z := 3.

(** What one operation meets: the disk, what the operation fails with, and what writing (or flushing) to standard output
    fails with behind it. *)
Record observation := mk_observation { o_disk : disk; o_fault : option stream_error; o_sink : option stream_error }.
(** An open generation: its inode, and how far it was read. *)
Record Opened := mk_Opened { op_inode : nat; op_offset : nat }.
Definition Follower : Type := option Opened.

(** [Follower::resuming]: the disk at the open and at the seek. *)
Definition resuming (path : bytes) (at_open at_seek : observation) (identified : bool) : Follower :=
  match o_fault at_open, names (o_disk at_open) path with
  | None, Some i =>
      match o_fault at_seek with
      | None => if identified then Some (mk_Opened i (length (inode_bytes (o_disk at_seek) i))) else None
      | Some _ => None
      end
  | _, _ => None
  end.

(** Where a poll is between two operations: it opens the path, reads a generation, or compares its identity with the
    path's. *)
Inductive phase := Opening | Reading (o : Opened) | Checking (o : Opened).
Definition phase_of (f : Follower) : phase := match f with Some o => Reading o | None => Opening end.
(** A poll that ended leaves the follower, what it forwarded and the observations not used; one whose observations ran out
    is still at work. *)
Inductive polled :=
| Polled (f : Follower) (forwarded : bytes) (rest : list observation)
| PollError (k : stream_error) (forwarded : bytes)
| Working (p : phase) (forwarded : bytes).
Definition settle_poll (x : observation) (f : Follower) (forwarded : bytes) (rest : list observation) : polled :=
  match forwarded, o_sink x with
  | _ :: _, Some k => PollError k forwarded
  | _, _ => Polled f forwarded rest
  end.
Section poll.
Context (path : bytes).
Fixpoint poll (obs : list observation) (p : phase) (forwarded : bytes) : polled :=
  match obs with
  | [] => Working p forwarded
  | x :: obs =>
      match p with
      | Opening =>
          match o_fault x with
          | Some PathNotFound => settle_poll x None forwarded obs
          | Some k => PollError k forwarded
          | None =>
              match names (o_disk x) path with
              | None => settle_poll x None forwarded obs
              | Some i => poll obs (Reading (mk_Opened i 0)) forwarded
              end
          end
      | Reading o =>
          match o_fault x with
          | Some k => PollError k forwarded
          | None =>
              let chunk := take READ_BUFFER (drop (op_offset o) (inode_bytes (o_disk x) (op_inode o))) in
              match chunk with
              | [] => poll obs (Checking o) forwarded
              | _ :: _ =>
                  match o_sink x with
                  | Some k => PollError k forwarded
                  | None => poll obs (Reading (mk_Opened (op_inode o) (op_offset o + length chunk))) (forwarded ++ chunk)
                  end
              end
          end
      | Checking o =>
          match o_fault x with
          | Some PathNotFound => settle_poll x None forwarded obs
          | Some k => PollError k forwarded
          | None =>
              match names (o_disk x) path with
              | Some i => if decide (i = op_inode o) then settle_poll x (Some o) forwarded obs else poll obs Opening forwarded
              | None => settle_poll x None forwarded obs
              end
          end
      end
  end.
End poll.

(** ** The stream *)

Inductive StreamEnd := Ended | Detached.
(** One turn: what the poll's operations meet, whether the boot has concluded, what the VM is read as, whether the caller
    cancelled, and what a drain behind it meets. *)
Record turn := mk_turn { u_poll : list observation; u_booted : bool; u_state : State; u_cancelled : bool; u_drain : list observation }.
(** A stream that ended with its result, or still streaming; what reached standard output. *)
Record streamed := mk_streamed { s_end : option (result StreamEnd stream_error); s_out : bytes }.
Definition forwarded_of (r : polled) : bytes := match r with Polled _ b _ | PollError _ b | Working _ b => b end.
Definition occupied (s : State) : bool := bool_decide (s ∈ [Lifecycle.Running; Starting; Stopping]).
Fixpoint stream (path : bytes) (turns : list turn) (f : Follower) (quiet : Z) (out : bytes) : streamed :=
  match turns with
  | [] => mk_streamed None out
  | t :: turns =>
      match poll path (u_poll t) (phase_of f) [] with
      | Working _ b => mk_streamed None (out ++ b)
      | PollError k b => mk_streamed (Some (Err k)) (out ++ b)
      | Polled f b _ =>
          let out := out ++ b in
          let quiet :=
            match b with
            | _ :: _ => 0
            | [] => if u_booted t then (if occupied (u_state t) then 0 else quiet + 1) else quiet
            end in
          if bool_decide (b = []) && u_booted t && negb (occupied (u_state t)) && (STABLE_EOF_POLLS <=? quiet) then
            match poll path (u_drain t) (phase_of f) [] with
            | Working _ b => mk_streamed None (out ++ b)
            | PollError k b => mk_streamed (Some (Err k)) (out ++ b)
            | Polled _ b _ => mk_streamed (Some (Ok Ended)) (out ++ b)
            end
          else if u_cancelled t then
            match poll path (u_drain t) (phase_of f) [] with
            | Working _ b => mk_streamed None (out ++ b)
            | r => mk_streamed (Some (Ok Detached)) (out ++ forwarded_of r)
            end
          else stream path turns f quiet out
      end
  end.

(** ** The attached start *)

Definition signal_exit (s : Terminating) : ExitKind :=
  if recv_status s =? 128 + 2 then Diagnostic.Success else GuestStatus (recv_status s).
(** [None] is a task that did not end in an answer of its own. *)
Definition stream_exit (joined : option (result StreamEnd stream_error)) : result ExitKind Failure :=
  match joined with
  | Some (Ok _) => Ok Diagnostic.Success
  | Some (Err BrokenPipe) => Ok Diagnostic.Success
  | Some (Err _) => Err (diagnosed N_Vm "console-stream" IoErr)
  | None => Err (diagnosed N_Internal "console-stream-task" Software)
  end.
(** What the attached start waits for: the stream's own end, or a signal first. *)
Inductive race := Streamed (joined : option (result StreamEnd stream_error)) | Signalled (s : Terminating).
Section attached.
Context (exists_in_store : bytes -> bool) (to_vec_pretty : GenerationRecord -> option bytes).
(** [spawned] is whether the observer filled its slot, [pending] a signal that arrived during the boot. *)
Definition start_attached (rebuild no_rebuild : bool) (generation : option Z) (spawned : bool) (pending : option Terminating) (r : race)
    (w : start_world) (h : host) : result ExitKind (Hybrid.stop Failure) * host :=
  match perform_start exists_in_store to_vec_pretty rebuild no_rebuild generation true w h with
  | (Err e, h') => (Err e, h')
  | (Ok (AlreadyRunning _), h') =>
      (Ok (match pending with Some s => signal_exit s | None => Diagnostic.Success end), h')
  | (Ok (Booted _), h') =>
      (if negb spawned then Ok Diagnostic.Success
       else map_err Hybrid.Failed (match r with Streamed joined => stream_exit joined | Signalled s => Ok (signal_exit s) end), h')
  end.
End attached.

(* ------------------------------------------------------------------ *)
(** * A capture that is rotated under its follower *)

(** What the sink does between two polls, without a fault. *)
Fixpoint writes (ls : list bytes) (sink : ConsoleSink) (d : disk) : result ConsoleSink LaunchError * disk :=
  match ls with
  | [] => (Ok sink, d)
  | l :: ls =>
      match write_all no_faults sink l d with
      | (Ok sink, d) => writes ls sink d
      | (Err e, d) => (Err e, d)
      end
  end.
(** Polls that meet one disk and no fault. *)
Definition calm (n : nat) (d : disk) : list observation := repeat (mk_observation d None None) n.
Definition current (d : disk) (file : nat) : Opened := mk_Opened file (length (inode_bytes d file)).

Lemma inode_bytes_append i j l d : (i < length (inodes d))%nat ->
  inode_bytes (append i l d) j = if decide (j = i) then inode_bytes d i ++ l else inode_bytes d j.
Proof.
  intros Hi. unfold append, inode_bytes at 1. cbn [inodes]. case_decide as E.
  - subst j. by rewrite list_lookup_insert_eq.
  - by rewrite list_lookup_insert_ne.
Qed.
Lemma laid_live d p file w : laid d p file w -> (file < length (inodes d))%nat.
Proof. intros (Hf & _ & [Hl _]). eapply Hl; [by left|done]. Qed.

Lemma rename_calm from to index d : exists d', rename no_faults from to index d = (Ok tt, d').
Proof. unfold rename. destruct (names d from); by eexists. Qed.
Lemma rotate_calm p d : exists d', rotate no_faults p d = (Ok tt, d').
Proof.
  unfold rotate. cbn [rotate_from CONSOLE_ROTATE_COUNT]. destruct (rename_calm (numbered p 1) (numbered p 2) 2 d) as [d1 E1].
  rewrite (sbind_run _ _ _ _ _ E1). destruct (rename_calm p (numbered p 1) 1 d1) as [d2 E2]. rewrite (sbind_run _ _ _ _ _ E2). by eexists.
Qed.
(** One write of a sound sink: onto the file, or onto a new one that the name leads to. *)
Definition wrote (d d' : disk) (file file' : nat) (w : Z) (l : bytes) : Prop :=
  (file' = file /\ w + Z.of_nat (length l) <= CONSOLE_ROTATE_BYTES /\ inode_bytes d' file = inode_bytes d file ++ l /\
   forall j, j <> file -> inode_bytes d' j = inode_bytes d j) \/
  (file' <> file /\ CONSOLE_ROTATE_BYTES < w + Z.of_nat (length l) /\ inode_bytes d' file = inode_bytes d file /\
   inode_bytes d' file' = l).
Lemma write_one p d file w l : laid d p file w -> w + Z.of_nat (length l) <= u64_max ->
  exists file' w' d', write_all no_faults (File p file w None) l d = (Ok (File p file' w' None), d') /\ laid d' p file' w' /\ wrote d d' file file' w l.
Proof.
  intros Hd Hu. pose proof (laid_live _ _ _ _ Hd) as Hlt. pose proof Hd as (_ & Hw & _). cbn [write_all].
  assert (Hsat : saturating_add w (Z.of_nat (length l)) = w + Z.of_nat (length l)) by (unfold saturating_add; lia). rewrite Hsat.
  destruct (CONSOLE_ROTATE_BYTES <? _) eqn:E.
  - apply Z.ltb_lt in E. destruct (rotate_calm p d) as [d1 Er]. destruct (rotate_spec _ _ _ _ _ _ _ Hd Er) as [[Hi _ _] Hok].
    destruct (Hok tt eq_refl) as [Hn Hs]. destruct (secure_open no_faults p d1) as [ro d2] eqn:Eo. pose proof Eo as Eo'.
    unfold secure_open in Eo'. cbn [x_open no_faults] in Eo'. rewrite Hn in Eo'. injection Eo' as Hro Hd2.
    destruct (reopen_spec _ _ _ _ _ Hn Hs Eo) as [[_ [e ->]]|(new & -> & Hl2 & _ & _)]; [done|]. injection Hro as <-.
    assert (H2 : (length (inodes d1) < length (inodes d2))%nat) by exact (laid_live _ _ _ _ Hl2).
    destruct (append_log p d2 _ 0 l Hl2) as [_ Hl3]. exists (length (inodes d1)), (Z.of_nat (length l)), (append (length (inodes d1)) l d2).
    split_and!; [|exact Hl3|right; rewrite Hi in *; split_and!].
    + unfold sbind, slift, io, sret. cbn beta iota. rewrite Er, Eo. cbn. unfold saturating_add. do 3 f_equal. lia.
    + lia.
    + done.
    + rewrite inode_bytes_append by done. rewrite decide_False by lia. unfold inode_bytes. rewrite <- Hd2. cbn [inodes set_name].
      by rewrite lookup_app_l by lia.
    + rewrite inode_bytes_append by done. rewrite decide_True by done. destruct Hl2 as (_ & Hz & _).
      destruct (inode_bytes d2 (length (inodes d))); [done|cbn [length] in Hz; lia].
  - apply Z.ltb_ge in E. destruct (append_log p d file w l Hd) as [_ Hl2]. exists file, (w + Z.of_nat (length l)), (append file l d).
    split_and!; [|exact Hl2|left; split_and!; [done|done|..]].
    + unfold sbind, sret, write_bytes. cbn [x_write no_faults]. by rewrite Hsat.
    + rewrite inode_bytes_append by done. by rewrite decide_True.
    + intros j Hj. rewrite inode_bytes_append by done. by rewrite decide_False.
Qed.
Notation total ls := (Z.of_nat (length (concat ls))).
Lemma total_cons l (ls : list bytes) : total (l :: ls) = Z.of_nat (length l) + total ls.
Proof. cbn [concat]. rewrite length_app. lia. Qed.
Lemma writes_cons l ls sink d sink' d' : write_all no_faults sink l d = (Ok sink', d') -> writes (l :: ls) sink d = writes ls sink' d'.
Proof. cbn [writes]. by intros ->. Qed.
(** Writes that do not fill the file stay in it. *)
Lemma writes_in_place p ls : forall d file w, laid d p file w -> w + total ls <= CONSOLE_ROTATE_BYTES ->
  exists w' d', writes ls (File p file w None) d = (Ok (File p file w' None), d') /\ laid d' p file w' /\
    inode_bytes d' file = inode_bytes d file ++ concat ls /\ forall j, j <> file -> inode_bytes d' j = inode_bytes d j.
Proof.
  assert (Hc : CONSOLE_ROTATE_BYTES <= u64_max) by (by vm_compute). induction ls as [|l ls IH]; intros d file w Hd Ht.
  - exists w, d. cbn [writes concat]. by rewrite app_nil_r.
  - rewrite total_cons in Ht. destruct (write_one p d file w l Hd ltac:(lia)) as (file' & w1 & d1 & Ew & Hd1 & [(-> & _ & Eb & Ho)|(_ & Hbig & _)]); [|lia].
    assert (Hw1 : w1 = w + Z.of_nat (length l)).
    { destruct Hd as (_ & -> & _), Hd1 as (_ & -> & _). rewrite Eb, length_app. lia. }
    destruct (IH d1 file w1 Hd1 ltac:(lia)) as (w' & d' & E & Hd' & Eb' & Ho'). exists w', d'. rewrite (writes_cons _ _ _ _ _ _ Ew). split_and!; [done|done|..].
    + by rewrite Eb', Eb, <- app_assoc.
    + intros j Hj. by rewrite Ho', Ho.
Qed.
(** Writes that fill less than a whole file rotate it once at most. *)
Definition handed_off (d d' : disk) (file file' : nat) (l : bytes) : Prop :=
  (file' = file /\ inode_bytes d' file = inode_bytes d file ++ l) \/
  (file' <> file /\ exists a, l = a ++ inode_bytes d' file' /\ inode_bytes d' file = inode_bytes d file ++ a).
Lemma writes_hand_off p ls : forall d file w, laid d p file w -> w + total ls <= u64_max -> total ls <= CONSOLE_ROTATE_BYTES ->
  exists file' w' d', writes ls (File p file w None) d = (Ok (File p file' w' None), d') /\ laid d' p file' w' /\ handed_off d d' file file' (concat ls).
Proof.
  induction ls as [|l ls IH]; intros d file w Hd Hu Ht.
  - exists file, w, d. cbn [writes concat]. split_and!; [done|done|]. left. by rewrite app_nil_r.
  - rewrite total_cons in Ht, Hu. destruct (write_one p d file w l Hd ltac:(lia)) as (file1 & w1 & d1 & Ew & Hd1 & [(-> & _ & Eb & _)|(Hne & _ & Eb & El)]).
    + assert (Hw1 : w1 = w + Z.of_nat (length l)).
      { destruct Hd as (_ & -> & _), Hd1 as (_ & -> & _). rewrite Eb, length_app. lia. }
      destruct (IH d1 file w1 Hd1 ltac:(lia) ltac:(lia)) as (file' & w' & d' & E & Hd' & Hh). exists file', w', d'.
      rewrite (writes_cons _ _ _ _ _ _ Ew). split_and!; [done|done|]. cbn [concat]. destruct Hh as [[-> Eb']|(Hne & a & Ea & Eb')].
      * left. split; [done|]. by rewrite Eb', Eb, <- app_assoc.
      * right. split; [done|]. exists (l ++ a). by rewrite Ea, Eb', Eb, <- !app_assoc.
    + assert (Hw1 : w1 = Z.of_nat (length l)) by (destruct Hd1 as (_ & -> & _); by rewrite El).
      destruct (writes_in_place p ls d1 file1 w1 Hd1 ltac:(lia)) as (w' & d' & E & Hd' & Eb' & Ho). exists file1, w', d'.
      rewrite (writes_cons _ _ _ _ _ _ Ew). split_and!; [done|done|]. right. split; [done|]. exists []. cbn [concat]. split.
      * by rewrite Eb', El.
      * by rewrite Ho, Eb, app_nil_r.
Qed.

Lemma read_buffer_positive : (1 <= READ_BUFFER)%nat.
Proof. unfold READ_BUFFER. lia. Qed.
Lemma calm_S n d : calm (S n) d = mk_observation d None None :: calm n d.
Proof. done. Qed.
Section calm_poll.
Context (p : bytes) (d : disk).
(** A generation is read to its end. *)
Lemma calm_read i m : forall off fwd, (length (drop off (inode_bytes d i)) <= m)%nat ->
  exists k, (k <= S m)%nat /\ forall n, poll p (calm (k + n) d) (Reading (mk_Opened i off)) fwd =
    poll p (calm n d) (Checking (mk_Opened i (off + length (drop off (inode_bytes d i))))) (fwd ++ drop off (inode_bytes d i)).
Proof.
  induction m as [|m IH]; intros off fwd Hm.
  - exists 1%nat. split; [lia|]. intros n. destruct (drop off (inode_bytes d i)) as [|b l] eqn:E; [|cbn [length] in Hm; lia].
    cbn [Nat.add length]. rewrite calm_S. cbn [poll o_fault o_disk op_offset op_inode]. rewrite E, take_nil, Nat.add_0_r, app_nil_r. done.
  - destruct (drop off (inode_bytes d i)) as [|b l] eqn:E.
    + exists 1%nat. split; [lia|]. intros n.
      cbn [Nat.add length]. rewrite calm_S. cbn [poll o_fault o_disk op_offset op_inode]. rewrite E, take_nil, Nat.add_0_r, app_nil_r. done.
    + pose proof read_buffer_positive as Hr. set (chunk := take READ_BUFFER (b :: l)). assert (Hc : chunk = b :: take (READ_BUFFER - 1) l).
      { unfold chunk. destruct READ_BUFFER; [lia|]. cbn [take Nat.sub]. by rewrite Nat.sub_0_r. }
      assert (Hd : drop (off + length chunk) (inode_bytes d i) = drop READ_BUFFER (b :: l)).
      { rewrite <- drop_drop, E. unfold chunk. rewrite length_take. destruct (decide (READ_BUFFER <= length (b :: l))%nat); [by rewrite Nat.min_l|].
        rewrite Nat.min_r by lia. rewrite drop_all, drop_ge by lia. done. }
      destruct (IH (off + length chunk)%nat (fwd ++ chunk)) as (k & Hk & Hp).
      { rewrite Hd, length_drop. lia. }
      exists (S k). split; [lia|]. intros n. cbn [Nat.add]. rewrite calm_S. cbn [poll o_fault o_disk o_sink op_offset op_inode]. rewrite E.
      fold chunk. rewrite Hc at 1. rewrite Hp, Hd, <- app_assoc. unfold chunk. rewrite take_drop, <- Nat.add_assoc, <- length_app, take_drop. done.
Qed.
Lemma calm_current file n fwd off : names d p = Some file ->
  poll p (calm (S n) d) (Checking (mk_Opened file off)) fwd = Polled (Some (mk_Opened file off)) fwd (calm n d).
Proof. intros H. rewrite calm_S. cbn [poll o_fault o_disk op_inode]. rewrite H, decide_True by done. by destruct fwd. Qed.
(** What is left of the generation that is current. *)
Lemma calm_poll_current file off n : names d p = Some file -> (off <= length (inode_bytes d file))%nat ->
  (length (drop off (inode_bytes d file)) + 2 <= n)%nat -> forall fwd, exists rest,
  poll p (calm n d) (Reading (mk_Opened file off)) fwd = Polled (Some (current d file)) (fwd ++ drop off (inode_bytes d file)) rest.
Proof.
  intros Hf Ho Hn fwd. destruct (calm_read file _ off fwd (Nat.le_refl _)) as (k & Hk & Hp).
  replace n with (k + S (n - k - 1))%nat by lia. rewrite Hp, calm_current by done. eexists.
  replace (off + length (drop off (inode_bytes d file)))%nat with (length (inode_bytes d file)) by (rewrite length_drop; lia). done.
Qed.
(** What is left of a generation that was renamed, and the whole of the one that replaced it. *)
Lemma calm_poll_rotated i file off n : names d p = Some file -> i <> file -> (off <= length (inode_bytes d i))%nat ->
  (length (drop off (inode_bytes d i)) + length (inode_bytes d file) + 5 <= n)%nat -> forall fwd, exists rest,
  poll p (calm n d) (Reading (mk_Opened i off)) fwd =
    Polled (Some (current d file)) (fwd ++ drop off (inode_bytes d i) ++ inode_bytes d file) rest.
Proof.
  intros Hf Hi Ho Hn fwd. destruct (calm_read i _ off fwd (Nat.le_refl _)) as (k & Hk & Hp).
  replace n with (k + S (S (n - k - 2)))%nat by lia. rewrite Hp, !calm_S. cbn [poll o_fault o_disk op_inode]. rewrite Hf, decide_False by congruence.
  destruct (calm_poll_current file 0 (n - k - 2) Hf ltac:(lia)) with (fwd := fwd ++ drop off (inode_bytes d i)) as [rest E]; [rewrite drop_0; lia|].
  exists rest. cbn beta iota. rewrite E, drop_0. by rewrite <- app_assoc.
Qed.
End calm_poll.

(** The writer and its follower in turn: the sink writes, then a poll sees the disk it left. *)
Fixpoint follow (p : bytes) (n : nat) (rounds : list (list bytes)) (sink : ConsoleSink) (d : disk) (f : Follower) : option bytes :=
  match rounds with
  | [] => Some []
  | ls :: rounds =>
      match writes ls sink d with
      | (Err _, _) => None
      | (Ok sink, d) =>
          match poll p (calm n d) (phase_of f) [] with
          | Polled f b _ => option_map (app b) (follow p n rounds sink d f)
          | _ => None
          end
      end
  end.
(** A follower that has seen all there is: at the end of the file, or before a file that is still empty. *)
Definition level (d : disk) (file : nat) (f : Follower) : Prop :=
  f = Some (current d file) \/ (f = None /\ inode_bytes d file = []).
Lemma level_poll p d d' file file' w' f l n : laid d' p file' w' -> level d file f -> Z.of_nat (length l) <= CONSOLE_ROTATE_BYTES ->
  handed_off d d' file file' l -> (f = None -> file' = file) -> (length l + 6 <= n)%nat ->
  exists rest, poll p (calm n d') (phase_of f) [] = Polled (Some (current d' file')) l rest.
Proof.
  intros (Hn & _) Hf Hl Hh Hsame Hlen. destruct Hf as [->|[-> He]]; cbn [phase_of].
  - unfold current at 1. destruct Hh as [[-> Eb]|(Hne & a & -> & Eb)].
    + destruct (calm_poll_current p d' file (length (inode_bytes d file)) n Hn) with (fwd := @nil byte) as [rest E];
        [rewrite Eb, ?length_app, ?drop_app_length; lia..|].
      exists rest. by rewrite E, Eb, drop_app_length.
    + rewrite length_app in Hlen. destruct (calm_poll_rotated p d' file file' (length (inode_bytes d file)) n Hn) with (fwd := @nil byte) as [rest E];
        [congruence|rewrite Eb, ?length_app, ?drop_app_length; lia..|].
      exists rest. by rewrite E, Eb, drop_app_length.
  - destruct Hh as [[-> Eb]|(Hne & _)]; [|by destruct Hne; apply Hsame]. rewrite He in Eb. cbn [app] in Eb.
    destruct n as [|n]; [lia|]. rewrite calm_S. cbn [poll o_fault o_disk]. rewrite Hn.
    destruct (calm_poll_current p d' file 0 n Hn) with (fwd := @nil byte) as [rest E]; [rewrite ?drop_0, ?Eb; lia..|].
    exists rest. by rewrite E, drop_0, Eb.
Qed.
Lemma handed_off_size p d d' file file' w w' l : laid d p file w -> laid d' p file' w' -> handed_off d d' file file' l -> w' <= w + Z.of_nat (length l).
Proof.
  intros (_ & -> & _) (_ & -> & _) [[-> ->]|(_ & a & -> & _)]; rewrite length_app; lia.
Qed.

(** C30: A follower forwards what the sink writes. A poll that begins at the end of the capture, or before a capture that is
    still empty, and during which the sink stands still ends and forwards exactly what was written since, in order, once,
    whether the sink rotated in between or not, as long as less than a whole file is written between two polls; so the
    stream over any number of such rounds is everything written. *)
Theorem follower_forwards_what_is_written (p : bytes) (rounds : list (list bytes)) (n : nat) (d : disk) (file : nat) (w : Z) (f : Follower)
    (Hd : laid d p file w) (Hf : level d file f)
    (Hround : Forall (fun ls => total ls <= CONSOLE_ROTATE_BYTES /\ (length (concat ls) + 6 <= n)%nat) rounds)
    (Hwidth : w + total (concat rounds) <= u64_max) :
  follow p n rounds (File p file w None) d f = Some (concat (concat rounds)).
Proof.
  revert d file w f Hd Hf Hwidth. induction Hround as [|ls rounds [Ht Hn] _ IH]; intros d file w f Hd Hf Hu; [done|].
  cbn [concat] in Hu. rewrite concat_app, length_app in Hu.
  destruct (writes_hand_off p ls d file w Hd ltac:(lia) Ht) as (file' & w' & d' & Ew & Hd' & Hh). cbn [follow]. rewrite Ew.
  assert (Hsame : f = None -> file' = file).
  { intros ->. destruct Hf as [?|[_ He]]; [done|]. pose proof Hd as (_ & Hw & _). rewrite He in Hw. cbn [length] in Hw.
    destruct (writes_in_place p ls d file w Hd ltac:(lia)) as (w2 & d2 & E2 & _). rewrite Ew in E2. by injection E2. }
  destruct (level_poll p d d' file file' w' f (concat ls) n Hd' Hf Ht Hh Hsame Hn) as [rest E]. rewrite E.
  pose proof (handed_off_size _ _ _ _ _ _ _ _ Hd Hd' Hh). rewrite (IH d' file' w'); [|done|by left|lia].
  cbn [concat option_map]. by rewrite concat_app.
Qed.

(** What the writer appends between the read that finds the end and the look at the name goes unseen when it rotates
    there too. *)
Theorem handoff_window_loses (p : bytes) (d : disk) (file : nat) (w : Z) (a b : bytes) (n : nat)
    (Hd : laid d p file w) (Ha : w + Z.of_nat (length a) <= CONSOLE_ROTATE_BYTES)
    (Hb : CONSOLE_ROTATE_BYTES < w + Z.of_nat (length a) + Z.of_nat (length b)) (Hfit : Z.of_nat (length b) <= CONSOLE_ROTATE_BYTES)
    (Hn : (length b + 6 <= n)%nat) :
  exists file' w' d' rest, writes [a; b] (File p file w None) d = (Ok (File p file' w' None), d') /\
    inode_bytes d' file = inode_bytes d file ++ a /\
    poll p (mk_observation d None None :: calm n d') (phase_of (Some (current d file))) [] = Polled (Some (current d' file')) b rest.
Proof.
  assert (Hc : 2 * CONSOLE_ROTATE_BYTES <= u64_max) by (by vm_compute).
  destruct (write_one p d file w a Hd ltac:(lia)) as (file1 & w1 & d1 & E1 & Hd1 & [(-> & _ & Ea & _)|(_ & Hbig & _)]); [|lia].
  assert (Hw1 : w1 = w + Z.of_nat (length a)).
  { destruct Hd as (_ & -> & _), Hd1 as (_ & -> & _). rewrite Ea, length_app. lia. }
  destruct (write_one p d1 file w1 b Hd1 ltac:(lia)) as (file' & w' & d' & E2 & Hd' & [(_ & Hsmall & _)|(Hne & _ & Eb & El)]); [lia|].
  exists file', w', d'. pose proof Hd' as (Hp & _).
  assert (Hpoll : exists rest, poll p (mk_observation d None None :: calm n d') (phase_of (Some (current d file))) [] = Polled (Some (current d' file')) b rest).
  { cbn [phase_of poll o_fault o_disk current op_offset op_inode]. rewrite drop_all, take_nil. destruct n as [|n]; [lia|]. rewrite calm_S.
    cbn [poll o_fault o_disk op_inode]. rewrite Hp, decide_False by done. destruct n as [|n]; [lia|]. rewrite calm_S. cbn [poll o_fault o_disk]. rewrite Hp.
    destruct (calm_poll_current p d' file' 0 n Hp) with (fwd := @nil byte) as [rest E]; [rewrite ?drop_0, ?El; lia..|].
    exists rest. by rewrite E, drop_0, El. }
  destruct Hpoll as [rest E]. exists rest. split; [|split; [by rewrite Eb, Ea|exact E]].
  by rewrite (writes_cons _ _ _ _ _ _ E1), (writes_cons _ _ _ _ _ _ E2).
Qed.

(* ------------------------------------------------------------------ *)
(** ** How a stream ends *)

(** The polls of some turns, which all ended: what they forwarded and the follower behind them. *)
Fixpoint followed (path : bytes) (turns : list turn) (f : Follower) : option (bytes * Follower) :=
  match turns with
  | [] => Some ([], f)
  | t :: turns =>
      match poll path (u_poll t) (phase_of f) [] with
      | Polled f b _ => option_map (fun '(b', f) => (b ++ b', f)) (followed path turns f)
      | _ => None
      end
  end.
Definition gone (t : turn) : Prop := u_booted t = true /\ occupied (u_state t) = false.
Definition unoccupied (t : turn) : Prop := u_booted t = true -> occupied (u_state t) = false.
Definition seen_gone (turns : list turn) : Z := Z.of_nat (length (filter (fun t => u_booted t = true) turns)).
(** The turns a stream ends with: some that forwarded, then a run in which nothing came and no boot was seen occupied. *)
Definition settled (path : bytes) (turns : list turn) (f : Follower) (quiet : Z) (b : bytes) (f' : Follower) (enough : Z) : Prop :=
  exists pre run f1, turns = pre ++ run /\ followed path pre f = Some (b, f1) /\ followed path run f1 = Some ([], f') /\
    Forall unoccupied run /\ enough <= (if decide (pre = []) then quiet else 0) + seen_gone run.

Lemma settled_more path t turns f f1 rest quiet b f' : poll path (u_poll t) (phase_of f) [] = Polled f1 [] rest -> unoccupied t ->
  settled path turns f1 (if u_booted t then quiet + 1 else quiet) b f' STABLE_EOF_POLLS ->
  settled path (t :: turns) f quiet b f' STABLE_EOF_POLLS.
Proof.
  intros Hp Ht (pre & run & f2 & -> & Hpre & Hrun & Hf & Hn). destruct pre as [|u pre].
  - cbn [followed] in Hpre. injection Hpre as <- <-. exists [], (t :: run), f. split_and!; [done|done| |by constructor|].
    + cbn [followed]. rewrite Hp, Hrun. done.
    + rewrite decide_True in Hn |- * by done. unfold seen_gone in *. rewrite filter_cons. destruct (u_booted t); [rewrite decide_True by done|rewrite decide_False by done]; cbn [length]; lia.
  - exists (t :: u :: pre), run, f2. rewrite decide_False in Hn by done. rewrite decide_False by done. split_and!; [done| |done..].
    change (followed path (t :: u :: pre) f) with (match poll path (u_poll t) (phase_of f) [] with
      | Polled f b _ => option_map (fun '(b', f) => (b ++ b', f)) (followed path (u :: pre) f) | _ => None end).
    by rewrite Hp, Hpre.
Qed.
Lemma settled_anew path t turns f f1 rest quiet b0 b f' : poll path (u_poll t) (phase_of f) [] = Polled f1 b0 rest ->
  settled path turns f1 0 b f' STABLE_EOF_POLLS -> settled path (t :: turns) f quiet (b0 ++ b) f' STABLE_EOF_POLLS.
Proof.
  intros Hp (pre & run & f2 & -> & Hpre & Hrun & Hf & Hn). exists (t :: pre), run, f2. rewrite decide_False by done. split_and!; [done| |done..|].
  - cbn [followed]. by rewrite Hp, Hpre.
  - by destruct (decide _).
Qed.
Lemma stream_settled path turns : forall f quiet out0 out, 0 <= quiet -> stream path turns f quiet out0 = mk_streamed (Some (Ok Ended)) out ->
  exists seen last later b f' drained f'' rest, turns = seen ++ last :: later /\ Forall (fun t => u_cancelled t = false) seen /\ gone last /\
    settled path (seen ++ [last]) f quiet b f' STABLE_EOF_POLLS /\
    poll path (u_drain last) (phase_of f') [] = Polled f'' drained rest /\ out = out0 ++ b ++ drained.
Proof.
  induction turns as [|t turns IH]; intros f quiet out0 out Hq; [done|]. cbn [stream].
  destruct (poll path (u_poll t) (phase_of f) []) as [f1 b0 rest0|k b0|ph b0] eqn:Hp; [|done..]. cbn zeta.
  assert (Hgo : forall quiet', 0 <= quiet' -> u_cancelled t = false -> stream path turns f1 quiet' (out0 ++ b0) = mk_streamed (Some (Ok Ended)) out ->
    (forall later' b f', settled path later' f1 quiet' b f' STABLE_EOF_POLLS -> settled path (t :: later') f quiet (b0 ++ b) f' STABLE_EOF_POLLS) ->
    exists seen last later b f' drained f'' rest, t :: turns = seen ++ last :: later /\ Forall (fun t => u_cancelled t = false) seen /\ gone last /\
    settled path (seen ++ [last]) f quiet b f' STABLE_EOF_POLLS /\
    poll path (u_drain last) (phase_of f') [] = Polled f'' drained rest /\ out = out0 ++ b ++ drained).
  { intros quiet' Hq' Hc Hs Hset. destruct (IH _ _ _ _ Hq' Hs) as (seen & last & later & b & f' & drained & f'' & rest & -> & Hseen & Hlast & Hst & Hd & ->).
    exists (t :: seen), last, later, (b0 ++ b), f', drained, f'', rest. split_and!; [done|by constructor|done|by apply Hset|done|by rewrite <- !app_assoc]. }
  destruct b0 as [|x b0].
  - rewrite bool_decide_true, andb_true_l by done. destruct (u_booted t) eqn:Hb; cbn [andb].
    + destruct (occupied (u_state t)) eqn:Ho; cbn [negb andb].
      * destruct (u_cancelled t) eqn:Hc; [by destruct (poll path (u_drain t) (phase_of f1) []); intros H; discriminate H|]. intros H. eapply Hgo; [|done|exact H|]; [done|].
        intros later' b f' Hset. eapply settled_anew; [exact Hp|done].
      * assert (Hun : unoccupied t) by (intros _; exact Ho). destruct (STABLE_EOF_POLLS <=? quiet + 1) eqn:E.
        -- destruct (poll path (u_drain t) (phase_of f1) []) as [f2 b2 rest2| |] eqn:Hd; [|done..]. intros H. injection H as <-.
           apply Z.leb_le in E. exists [], t, turns, [], f1, b2, f2, rest2. split_and!; [done|constructor|done| |done|by rewrite !app_nil_r].
           exists [], [t], f. cbn [followed]. rewrite Hp. split_and!; [done..|by constructor|]. rewrite decide_True by done. unfold seen_gone.
           rewrite filter_cons, decide_True by done. cbn [length filter]. change (length (filter _ [])) with 0%nat. lia.
        -- destruct (u_cancelled t) eqn:Hc; [by destruct (poll path (u_drain t) (phase_of f1) []); intros H; discriminate H|]. intros H. eapply Hgo; [|done|exact H|]; [lia|].
           intros later' b f' Hset. eapply settled_more; [exact Hp|done|]. by rewrite Hb.
    + destruct (u_cancelled t) eqn:Hc; [by destruct (poll path (u_drain t) (phase_of f1) []); intros H; discriminate H|]. intros H. eapply Hgo; [|done|exact H|]; [done|].
      intros later' b f' Hset. eapply settled_more; [exact Hp|unfold unoccupied; by rewrite Hb|]. by rewrite Hb.
  - rewrite bool_decide_false by done. cbn [andb]. destruct (u_cancelled t) eqn:Hc; [by destruct (poll path (u_drain t) (phase_of f1) []); intros H; discriminate H|]. intros H. eapply Hgo; [|done|exact H|]; [done|].
    intros later' b f' Hset. eapply settled_anew; [exact Hp|done].
Qed.

(** C31: A stream is called ended only on evidence. It ended behind a turn in which the boot had concluded and the VM was
    neither running, starting nor stopping, which closes a run of turns in which nothing was forwarded, at least three of
    them behind the boot's conclusion, and in none of those was the VM seen in one of these states; the caller had not
    cancelled before it. What reached standard output is all that was forwarded and a last drain. *)
Theorem stream_ends_on_evidence (path : bytes) (turns : list turn) (f : Follower) (out : bytes)
    (Hend : stream path turns f 0 [] = mk_streamed (Some (Ok Ended)) out) :
  exists pre run t later b f1 f2 drained f3 rest,
    turns = pre ++ run ++ t :: later /\ Forall (fun t => u_cancelled t = false) (pre ++ run) /\
    followed path pre f = Some (b, f1) /\ followed path (run ++ [t]) f1 = Some ([], f2) /\
    gone t /\ Forall unoccupied (run ++ [t]) /\ STABLE_EOF_POLLS <= seen_gone (run ++ [t]) /\
    poll path (u_drain t) (phase_of f2) [] = Polled f3 drained rest /\ out = b ++ drained.
Proof.
  apply stream_settled in Hend as (seen & t & later & b & f2 & drained & f3 & rest & -> & Hc & Ht & Hs & Hd & ->); [|done].
  destruct Hs as (pre & run & f1 & E & Hpre & Hrun & Hun & Hn). destruct run as [|t' run _] using rev_ind.
  { exfalso. change (seen_gone []) with 0 in Hn. unfold STABLE_EOF_POLLS in Hn. destruct (decide _); lia. }
  rewrite app_assoc in E. apply app_inj_tail in E as [-> ->].
  exists pre, run, t', later, b, f1, f2, drained, f3, rest. rewrite <- app_assoc. split_and!; [done..| |done|done].
  by destruct (decide _).
Qed.
Lemma stream_counts path t turns f f1 rest quiet out : poll path (u_poll t) (phase_of f) [] = Polled f1 [] rest -> gone t -> u_cancelled t = false ->
  quiet + 1 < STABLE_EOF_POLLS -> stream path (t :: turns) f quiet out = stream path turns f1 (quiet + 1) out.
Proof.
  intros Hp [Hb Ho] Hc Hq. cbn [stream]. rewrite Hp, Hb, Ho, Hc, (proj2 (Z.leb_gt _ _) Hq), andb_false_r. by rewrite app_nil_r.
Qed.
(** A VM that is gone and a capture that is quiet end the stream with the third poll. *)
Theorem gone_vm_ends_the_stream (path : bytes) (t1 t2 t3 : turn) (later : list turn) (f f' f3 : Follower) (out drained : bytes) (rest : list observation)
    (Hpolls : followed path [t1; t2; t3] f = Some ([], f')) (Hgone : Forall gone [t1; t2; t3])
    (Hc : Forall (fun t => u_cancelled t = false) [t1; t2]) (Hd : poll path (u_drain t3) (phase_of f') [] = Polled f3 drained rest) :
  stream path (t1 :: t2 :: t3 :: later) f 0 out = mk_streamed (Some (Ok Ended)) (out ++ drained).
Proof.
  cbn [followed] in Hpolls. destruct (poll path (u_poll t1) _ _) as [f1 b1 r1| |] eqn:E1; [|done..].
  destruct (poll path (u_poll t2) _ _) as [f2 b2 r2| |] eqn:E2; [|done..]. destruct (poll path (u_poll t3) _ _) as [f4 b3 r3| |] eqn:E3; [|done..].
  cbn [option_map] in Hpolls. injection Hpolls as Hb <-. apply app_eq_nil in Hb as [-> [-> [-> _]%app_eq_nil]%app_eq_nil].
  apply Forall_cons in Hgone as [H1 [H2 [[Hb Ho] _]%Forall_cons]%Forall_cons]. apply Forall_cons in Hc as [C1 [C2 _]%Forall_cons].
  rewrite (stream_counts _ _ _ _ _ _ _ _ E1 H1 C1) by done. rewrite (stream_counts _ _ _ _ _ _ _ _ E2 H2 C2) by done.
  cbn [stream]. rewrite E3, Hb, Ho, app_nil_r. cbn [bool_decide andb negb]. rewrite bool_decide_true by done. cbn. by rewrite Hd.
Qed.

(** The attached start leaves the host as the start alone does, fails where it fails, and reports a signal as 128 plus its
    number but for [SIGINT], which detaches. *)
Theorem attached_start_contract exists_in_store to_vec_pretty (rebuild no_rebuild : bool) (generation : option Z) (spawned : bool)
    (pending : option Terminating) (r : race) (w : start_world) (h : host) :
  let '(e, h') := perform_start exists_in_store to_vec_pretty rebuild no_rebuild generation true w h in
  let '(a, h2) := start_attached exists_in_store to_vec_pretty rebuild no_rebuild generation spawned pending r w h in
  h2 = h' /\
  match e, a with
  | Err f, a => a = Err f
  | Ok _, Ok k => k = Diagnostic.Success \/ exists s, (pending = Some s \/ r = Signalled s) /\ s <> Interrupt /\ k = GuestStatus (recv_status s)
  | Ok o, Err f => exists x, f = Hybrid.Failed x /\ (failure_code x = IoErr \/ failure_code x = Software) /\ exists j, r = Streamed j
  end.
Proof.
  assert (Hsig : forall s, signal_exit s = Diagnostic.Success \/ (s <> Interrupt /\ signal_exit s = GuestStatus (recv_status s))) by (intros []; auto).
  unfold start_attached. destruct (perform_start _ _ _ _ _ _ _ _) as [[[n|x]|e] h']; [..|done]; (split; [done|]).
  - destruct pending as [s|]; [|by left]. destruct (Hsig s) as [->|[Hn ->]]; [by left|right]. exists s. auto.
  - destruct (negb spawned); [by left|]. destruct r as [j|s]; cbn [map_err].
    + destruct j as [[e|[]]|]; cbn; eauto 10.
    + destruct (Hsig s) as [->|[Hn ->]]; [by left|right]. exists s. auto.
Qed.

(* ------------------------------------------------------------------ *)
(** ** Concrete runs *)

(** A capture that was just established. *)
Definition capture_log : bytes := bs "console.log".
Definition capture_disk : disk := mk_disk (fun q => if decide (q = capture_log) then Some O else None) [[]].
Lemma capture_laid : laid capture_disk capture_log 0 0.
Proof.
  split; [done|]. split; [done|]. split.
  - intros q i _. cbn. case_decide; [intros [= <-]; lia|done].
  - intros q q' i _ _. cbn. by repeat case_decide; subst.
Qed.
(** A whole file, and then a byte that rotates it. *)
Definition demo_rounds : list (list bytes) := [[repeat x61 (Z.to_nat CONSOLE_ROTATE_BYTES)]; [[x62]]].
Lemma follower_forwards_what_is_written_witness :
  follow capture_log (Z.to_nat (CONSOLE_ROTATE_BYTES + 6)) demo_rounds (File capture_log 0 0 None) capture_disk None =
  Some (repeat x61 (Z.to_nat CONSOLE_ROTATE_BYTES) ++ [x62]).
Proof.
  pose proof (follower_forwards_what_is_written capture_log demo_rounds (Z.to_nat (CONSOLE_ROTATE_BYTES + 6)) capture_disk 0 0 None capture_laid
    ltac:(right; split; reflexivity)) as H.
  assert (Hc : 0 < CONSOLE_ROTATE_BYTES /\ CONSOLE_ROTATE_BYTES + 1 <= u64_max) by (vm_compute; split; [reflexivity|discriminate]).
  rewrite H; clear H; unfold demo_rounds; cbn [concat app]; revert Hc; generalize CONSOLE_ROTATE_BYTES; intros c Hc.
  - done.
  - apply Forall_cons_2; [|apply Forall_cons_2; [|apply Forall_nil_2]]; cbn [concat]; rewrite ?app_nil_r, ?repeat_length; cbn [length]; lia.
  - rewrite length_app, repeat_length. cbn [length]. lia.
Defined.

(** A capture that was removed behind its last bytes, under a VM that is gone. *)
Definition demo_polls (l : list observation) (s : State) : turn := mk_turn l true s false (calm 1 (mk_disk (fun _ => None) [])).
Definition demo_turns : list turn :=
  let last := mk_disk (names capture_disk) [bs "bye"] in
  let away := mk_disk (fun _ => None) [bs "bye"] in
  [demo_polls (calm 4 last) Stopping; demo_polls (calm 2 away) Absent; demo_polls (calm 1 away) Absent; demo_polls (calm 1 away) Absent].
Lemma stream_ends_on_evidence_witness :
  stream capture_log demo_turns None 0 [] = mk_streamed (Some (Ok Ended)) (bs "bye") /\
  exists pre run, pre ++ run = demo_turns /\ STABLE_EOF_POLLS <= seen_gone run.
Proof.
  assert (E : stream capture_log demo_turns None 0 [] = mk_streamed (Some (Ok Ended)) (bs "bye")) by (vm_compute; reflexivity).
  split; [exact E|]. destruct (stream_ends_on_evidence _ _ _ _ E) as (pre & run & t & later & b & f1 & f2 & dr & f3 & rest & Et & _ & Hp & Hr & _ & _ & Hn & _).
  exists pre, (run ++ t :: later). split; [by rewrite Et|]. unfold seen_gone in *. change (t :: later) with ([t] ++ later). rewrite app_assoc, filter_app, length_app. lia.
Defined.

Lemma handoff_window_loses_witness :
  let a := [x61] in let b := repeat x62 (Z.to_nat CONSOLE_ROTATE_BYTES) in
  exists file' w' d' rest, writes [a; b] (File capture_log 0 0 None) capture_disk = (Ok (File capture_log file' w' None), d') /\
    inode_bytes d' 0 = a /\
    poll capture_log (mk_observation capture_disk None None :: calm (length b + 6) d') (phase_of (Some (current capture_disk 0))) [] =
      Polled (Some (current d' file')) b rest.
Proof.
  cbn zeta. assert (Hc : 0 < CONSOLE_ROTATE_BYTES) by (vm_compute; reflexivity).
  apply (handoff_window_loses capture_log capture_disk 0 0 [x61] (repeat x62 (Z.to_nat CONSOLE_ROTATE_BYTES)) _ capture_laid);
    rewrite ?repeat_length; cbn [length]; revert Hc; generalize CONSOLE_ROTATE_BYTES; intros; lia.
Defined.
