(* ===== verification/Update.v ===== *)
(** * Moving a pin ([src/src/cli/update.rs])

    [viv update]: everything that refuses without writing refuses first, then the target lock, the private tree, Nix
    against it with its output staged beside the owned lock, the composed rule over what it made, and one rename.  The
    disk is [Materialize]'s; what Nix does is the run's world.  [flake_failure] keeps the error it is given.  The matched
    messages are ASCII, and no other letter lowers to one of theirs. *)
From S2P Require Import Prelude Bytes Paths Ordered Spec Diagnostic Lifecycle Stop Volumes Start Roots Toml Artifact Manifest Json Binding Lock NixText Inputs Flake FlakeSpec Materialize MaterializeSpec.

Definition BASELINE_NAMES : list bytes := [bs "nixpkgs"; bs "microvm"].

(** ** What is asked for *)

(** [Failure]: a usage answer names the input that is not known and those that are. *)
Inductive update_failure := UnknownInput (name : bytes) (known : list bytes) | Diagnosed (f : Failure).
Definition known_names (declared : list bytes) (base : option ImageBase) : list bytes :=
  BASELINE_NAMES ++ declared ++ option_list (option_map input_name base).
(** The input that owns the node: the base's, for a baseline the base declares. *)
Definition owner_of (base : option ImageBase) (name : bytes) : bytes :=
  match base with
  | Some base =>
      if (bytes_eqb name (bs "nixpkgs") && declares_nixpkgs base) || (bytes_eqb name (bs "microvm") && declares_microvm base)
      then input_name base else name
  | None => name
  end.
Definition push_new (l : list bytes) (name : bytes) : list bytes := if bool_decide (name ∈ l) then l else l ++ [name].
Definition requested_names (inputs declared : list bytes) (base : option ImageBase) : result (list bytes * list bytes) update_failure :=
  match List.find (fun name => negb (bool_decide (name ∈ known_names declared base))) inputs with
  | Some unknown => Err (UnknownInput unknown (known_names declared base))
  | None => Ok (fold_left (fun '(requested, translated) name => (push_new requested name, push_new translated (owner_of base name))) inputs ([], []))
  end.

(** ** The rows *)

Notation pinned := (list (bytes * RootPin)).
Record row := mk_row { row_name : bytes; row_before : option bytes; row_after : option bytes; changed : bool }.
Definition human (r : row) : list bytes :=
  [row_name r; default (bs "-") (row_before r); default (bs "-") (row_after r); if changed r then bs "moved" else bs "unchanged"].
Definition pin_row (before : pinned) (name : bytes) (pin : RootPin) : row :=
  let previous := find_field before name in
  mk_row name (let* prior := previous in display prior) (display pin) (negb (bool_decide (option_map fingerprint previous = Some (fingerprint pin)))).
Definition derive_rows (before after : pinned) (requested : list bytes) : list row :=
  let requested := match requested with [] => map fst after | _ => requested end in
  omap (fun '(name, pin) =>
          let r := pin_row before name pin in
          if negb (bool_decide (name ∈ requested)) && negb (changed r) then None else Some r) after.

(** ** The run *)

(** Nix did not start, or it ended with what it left at the staged path. *)
Inductive nix_run := NotStarted (denied : bool) | Ended (success : bool) (stderr : bytes) (produced : option bytes).
Record update_world := mk_update_world {
  uw_resolved : result ResolvedForLaunch Failure;  (* [resolve_manifest_for_launch] *)
  uw_before : flake_host;                          (* what is read before the lock *)
  uw_after : flake_host;                           (* and under it *)
  uw_runtime_root : result bytes Failure;
  uw_lock : lock_world;
  uw_variable : bytes -> option bytes;
  uw_nix : option tree -> list bytes -> option bytes -> nix_run }.
Record updated := mk_updated { ud_rows : list row; ud_lock : bytes; ud_created : bool; ud_base_note : option bytes }.

Definition unreachable (stderr : bytes) : bool :=
  let lowered := map to_ascii_lower stderr in
  is_infix (bs "unable to download") lowered || is_infix (bs "couldn't resolve host") lowered || is_infix (bs "cannot fetch") lowered.
Definition nix_failure (stderr : bytes) : Failure :=
  if unreachable stderr then diagnosed N_Store "input-unreachable" Diagnostic.Unavailable else diagnosed N_Store "update-failed" Diagnostic.Software.
(** The action, and then the other whatever it answered. *)
Definition behind {A} (m : act A) (after : act unit) : act A := fun d => let '(r, d) := m d in (r, snd (after d)).

Section update.
Context (fault : string -> bytes -> option io_kind) (remains : bytes -> option tree) (source_at : bytes -> source) (pid : Z).
Context (from_slice : bytes -> option Value) (to_string : Value -> bytes) (toml : toml_parser).
Context (to_vec_pretty : Value -> option bytes) (probe_report : bytes -> option ProbeReport).
Context (OPTIONS_MODULE REPORT_MODULE : bytes) (EMBEDDED_TREE : list (bytes * bytes)) (roots : XdgRoots).

Definition read_lock (p : bytes) (t : option tree) : act bytes :=
  match fault "read" p, t with
  | None, Some (T_File contents) => sret contents
  | _, _ => sfail (diagnosed N_Lock "update-read" IoErr)
  end.
(** [read_pins]: an undecodable lock in force has no pins. *)
Definition read_pins (u : UpdatePreparation) : act pinned :=
  match staged_reference u with
  | None => sret []
  | Some path =>
      let! tree := look (up_directory u) in
      let! contents := read_lock path (tree ≫= tree_get [LOCK_FILE]) in
      sret (default [] (pins from_slice to_string contents))
  end.
Definition run_update (w : update_world) (u : UpdatePreparation) (requested translated : list bytes) (staged owned : bytes) (before : pinned) : act (list row) :=
  let! tree := look (up_directory u) in
  match uw_nix w tree translated (staged_reference u) with
  | NotStarted denied => sfail (diagnosed N_Store "update-unavailable" (if denied then NoPerm else Diagnostic.Unavailable))
  | Ended success stderr produced =>
      match produced with Some contents => put staged (Some (T_File contents)) | None => sret tt end ;;
      if negb success then sfail (nix_failure stderr)
      else
        let! candidate := look staged in
        let! contents := read_lock staged candidate in
        answer_of (composed_lock_failure from_slice contents) ;;
        let! after := answer_of (ok_or (pins from_slice to_string contents) (diagnosed N_Lock "update-undecodable" Diagnostic.Software)) in
        persist_updated_lock fault owned staged ;;
        sret (derive_rows before after requested)
  end.
(** [notes_for]: the base whose own lock holds pins. *)
Definition base_note (w : update_world) (u : UpdatePreparation) : option bytes :=
  let* base := up_base u in
  if fh_is_file (uw_after w) (join (default [] (parent_path (flake_path base))) LOCK_FILE) then Some (input_name base) else None.
Definition staged_lock (parent : bytes) : bytes := join parent (bs "flake.lock.update-" ++ dec pid).
(** What is done with the private tree. *)
Definition apply_update (w : update_world) (inputs : list bytes) (u : UpdatePreparation) : act updated :=
  match requested_names inputs (declared u) (up_base u) with
  | Err _ => sfail (diagnosed N_Manifest "input-set-changed" TempFail)
  | Ok (requested, translated) =>
      let! before := read_pins u in
      let owned := Flake.lock_path (up_lock u) in
      let! parent := answer_of (ok_or (parent_path owned) (diagnosed N_Lock "lock-parent" Diagnostic.Software)) in
      match fault "create_dir_all" parent with
      | Some _ => sfail (diagnosed N_Lock "persist-parent" IoErr)
      | None =>
          let staged := staged_lock parent in
          let! rows := guarded (run_update w u requested translated staged owned before) (remove_file_if_exists fault staged) in
          sret (mk_updated rows owned (may_persist_created (up_lock u)) (base_note w u))
      end
  end.
Definition refuse_override (w : update_world) (sandbox_id : bytes) (selected : ResolvedArtifact) : result unit Failure :=
  let? paths := target_paths roots sandbox_id DEFAULT_TARGET selected in
  let? selected_lock := select_lock (uw_before w) paths in
  match selected_lock with
  | Override _ => Err (diagnosed N_Lock "override-in-force" Diagnostic.Config)
  | _ => Ok tt
  end.
(** What is refused before anything is written, the lock's file included. *)
Definition precheck (w : update_world) (inputs : list bytes) (r : ResolvedForLaunch) : result unit update_failure :=
  let selected := rl_selected r in
  let? _ := map_err Diagnosed (refuse_override w (ra_name selected) selected) in
  let? (declared, base) := map_err Diagnosed (resolve_update_inputs toml probe_report (uw_before w) roots (ra_name selected) DEFAULT_TARGET selected (rl_manifest r)) in
  let? _ := requested_names inputs declared base in
  Ok tt.
Definition take_lock (w : update_world) (sandbox_id : bytes) : result unit Failure :=
  let? runtime_root := uw_runtime_root w in
  let? _ := locate runtime_root sandbox_id DEFAULT_TARGET in
  lock_answer (uw_lock w).
Definition prepare (w : update_world) (r : ResolvedForLaunch) : act UpdatePreparation :=
  prepare_update_tree fault remains source_at pid from_slice toml to_vec_pretty probe_report OPTIONS_MODULE REPORT_MODULE EMBEDDED_TREE
    (uw_after w) roots (ra_name (rl_selected r)) DEFAULT_TARGET (rl_selected r) (rl_source r) (rl_manifest r) (workspace_paths r)
    (from_environment (uw_variable w)).
Definition run (w : update_world) (inputs : list bytes) : sem disk update_failure updated :=
  let! r := slift (map_err Diagnosed (uw_resolved w)) in
  slift (precheck w inputs r) ;;
  slift (map_err Diagnosed (take_lock w (ra_name (rl_selected r)))) ;;
  smap_err Diagnosed
    (let! u := prepare w r in
     behind (apply_update w inputs u) (drop_preparation fault remains u)).
End update.

(* ------------------------------------------------------------------ *)
(** * The pin is what it was, or a whole new one that passed the composed rule *)

Section theorems.
Context (fault : string -> bytes -> option io_kind) (remains : bytes -> option tree) (source_at : bytes -> source) (pid : Z) (Hpid : 0 <= pid <= u32_max).
Context (from_slice : bytes -> option Value) (to_string : Value -> bytes) (toml : toml_parser).
Context (to_vec_pretty : Value -> option bytes) (probe_report : bytes -> option ProbeReport).
Context (OPTIONS_MODULE REPORT_MODULE : bytes) (EMBEDDED_TREE : list (bytes * bytes)) (roots : XdgRoots).
Notation prepare := (Update.prepare fault remains source_at pid from_slice toml to_vec_pretty probe_report OPTIONS_MODULE REPORT_MODULE EMBEDDED_TREE roots).
Notation run_update := (run_update fault from_slice to_string).
Notation apply_update := (apply_update fault pid from_slice to_string).
Notation run := (run fault remains source_at pid from_slice to_string toml to_vec_pretty probe_report OPTIONS_MODULE REPORT_MODULE EMBEDDED_TREE roots).
Notation staged := (MaterializeSpec.staged pid).
Notation touches Q := (along (outside Q)).
#[local] Existing Instance outside_preorder.

(** ** The names of the files involved *)

Lemma last_digits l : l <> [] -> forallb is_ascii_digit l = true -> exists b, last l = Some b /\ is_ascii_digit b = true.
Proof.
  intros Hl Hd. destruct (last l) as [b|] eqn:E; [|by apply last_None in E]. exists b. split; [done|].
  apply (proj1 (forallb_forall _ _) Hd), list_elem_of_In. by apply last_Some_elem_of.
Qed.
Lemma staged_lock_last parent : exists b, last (staged_lock pid parent) = Some b /\ is_ascii_digit b = true.
Proof.
  destruct (dec_spec pid ltac:(unfold u32_max in Hpid; lia)) as (Hd & _ & Hl). destruct (last_digits _ Hl Hd) as (b & Hb & Hdb). exists b. split; [|done].
  apply last_join; [done|]. by rewrite last_app, Hb.
Qed.
Lemma names_apart sandbox_id selected paths parent : target_paths roots sandbox_id DEFAULT_TARGET selected = Ok paths ->
  ~ staged (owned_lock paths) /\ ~ staged (staged_lock pid parent) /\ owned_lock paths <> staged_lock pid parent.
Proof.
  intros [H _]%target_paths_last; [|done..]. destruct (staged_lock_last parent) as (b & Hb & Hd).
  split_and!; [intros [E|E]%staged_last; congruence|intros [E|E]%staged_last; rewrite Hb in E; injection E as ->; done|].
  intros E. rewrite E, Hb in H. injection H as ->. done.
Qed.

(** ** The private tree *)

Lemma touches_create_temp operation new parent stem suffix n condition : suffix ∈ [bs "tmp"; bs "new"] ->
  touches staged (create_temp fault pid operation new parent stem suffix n condition MAX_TEMP_ATTEMPTS).
Proof. intros Hs d r d' H. by apply create_temp_ok in H as [H _]. Qed.
Lemma staging_touches temporary es : staged temporary -> touches staged (each (apply_entry fault source_at temporary) es).
Proof.
  intros Ht. apply along_each; [tc_solve|]. intros e. apply (along_apply_entry fault source_at _ temporary (fun _ => True)); [done| |done].
  intros p f s t t' _ _ _ _. by apply outside_put.
Qed.
Lemma removal_touches temporary : staged temporary -> touches staged (remove_dir_all fault remains temporary ;; sret tt).
Proof.
  intros Ht. apply along_bind; [tc_solve| |intros _; by apply along_ret; tc_solve].
  apply along_remove_dir_all; [tc_solve|]. intros s t. by apply outside_put.
Qed.
(** The preparation writes to its own directory alone, and the lock it is for is the owned one. *)
Lemma prepare_spec w r d res d' : prepare w r d = (res, d') ->
  through d d' (outside staged (at_path d)) /\
  forall u, res = Ok u -> staged (up_directory u) /\ exists paths, target_paths roots (ra_name (rl_selected r)) DEFAULT_TARGET (rl_selected r) = Ok paths /\
    Flake.lock_path (up_lock u) = owned_lock paths.
Proof.
  assert (Hrefl : forall d, through d d (outside staged (at_path d))) by (intros ?; by apply through_refl).
  unfold Update.prepare, prepare_update_tree. intros H.
  apply sbind_split in H as [(c & d1 & H1 & H)|(e & H1 & ->)]; injection H1 as Hc <-; [|by split].
  destruct (resolved_paths _ _ _ _ _ _ _ _ Hc) as [Hpaths Hlock]. set (paths := rc_paths c) in *.
  destruct (rc_lock c) as [o|o|o] eqn:Elock; [by injection H as <- <-| |].
  all: assert (Howned : o = owned_lock paths) by (by destruct (select_owned _ _ _ Hlock) as [[p Hp]|Hp]).
  all: apply sbind_split in H as [(base & d1 & H1 & H)|(e & H1 & ->)]; injection H1 as _ <-; [|by split].
  all: apply sbind_split in H as [(plan & d1 & H1 & H)|(e & H1 & ->)]; injection H1 as Hplan <-; [|by split].
  all: assert (Hgf : gf_lock plan = rc_lock c) by (by eapply plan_paths).
  all: apply sbind_split in H as [(parent & d1 & H1 & H)|(e & H1 & ->)]; injection H1 as _ <-; [|by split].
  all: unfold store_check in H; apply check_then in H as [H|[-> [e ->]]]; [|by split].
  all: apply sbind_split in H as [(temporary & d1 & H1 & H)|(e & H1 & ->)];
    destruct (create_temp_ok _ _ _ _ _ _ _ _ _ _ _ _ _ (ltac:(left)) H1) as [Hcreate Htemp]; [|by split].
  all: destruct (Htemp temporary eq_refl) as (Hst & _ & _).
  all: assert (Hg : touches staged (guarded (each (apply_entry fault source_at temporary) (entries plan)) (remove_dir_all fault remains temporary ;; sret tt)))
    by (apply along_guarded; [tc_solve|by apply staging_touches|by apply removal_touches]).
  all: apply sbind_split in H as [([] & d2 & H2 & H)|(e & H2 & ->)]; pose proof (Hg _ _ _ H2) as T2;
    pose proof (along_two (outside staged) _ _ _ Hcreate T2) as T; [|by split].
  all: injection H as <- <-; split; [exact T|]; intros u [= <-]; cbn [up_directory up_lock]; split; [done|]; exists paths; split; [done|].
  all: by rewrite Hgf, Elock.
Qed.

(** ** The pin *)

Definition candidate (contents : bytes) (after : pinned) : Prop :=
  composed_lock_failure from_slice contents = Ok tt /\ pins from_slice to_string contents = Some after.
Section replaced.
Context (owned sibling : bytes) (Howned : ~ staged owned) (Hsibling : ~ staged sibling) (Hapart : owned <> sibling).
(** Where the run works. *)
Definition working (q : bytes) : Prop := staged q \/ q = sibling.
(** What a state of the disk may show of it. *)
Definition update_step (d : disk) (s : bytes -> option tree) : Prop :=
  (forall q, ~ working q -> q <> owned -> s q = at_path d q) /\
  (s owned = at_path d owned \/ exists contents after, candidate contents after /\ s owned = Some (T_File contents)).
Lemma owned_not_working : ~ working owned.
Proof. unfold working. tauto. Qed.
Lemma update_step_start d : update_step d (at_path d).
Proof. split; [done|by left]. Qed.
Lemma update_step_stable d : stable working (update_step d).
Proof. intros s s' Hs [H1 H2]. split; [intros q Hq Hne; rewrite Hs by done; by apply H1|]. by rewrite !Hs by apply owned_not_working. Qed.
Lemma outside_wider d d' : through d d' (outside staged (at_path d)) -> through d d' (outside working (at_path d)).
Proof. intros H. eapply through_impl; [|exact H]. intros s Hs q Hq. apply Hs. intros E. apply Hq. by left. Qed.
Lemma outside_steps d0 d d' : update_step d0 (at_path d) -> through d d' (outside working (at_path d)) -> through d d' (update_step d0).
Proof. intros H0 H. eapply through_impl; [|exact H]. intros s Hs. eapply update_step_stable; [exact Hs|done]. Qed.

Lemma read_lock_same p t d r d' : read_lock fault p t d = (r, d') -> d' = d /\ forall contents, r = Ok contents -> t = Some (T_File contents).
Proof. unfold read_lock. destruct (fault "read" p), t as [[|c|]|]; intros [= <- <-]; (split; [done|]); try done; by intros ? [= <-]. Qed.
Lemma persist_updated_spec d r d' : persist_updated_lock fault owned sibling d = (r, d') ->
  (d' = d /\ exists e, r = Err e) \/
  (past d' = past d ++ [at_path d'] /\ at_path d' = move sibling owned (at_path d) /\ (r = Ok tt \/ exists k, r = Err (io_fault N_Lock "update-directory-sync" k))).
Proof.
  unfold persist_updated_lock. intros H. apply sbind_split in H as [(parent & d1 & H1 & H)|(e & H1 & ->)]; injection H1 as _ <-; [|left; split; [done|by eexists]].
  unfold sbind at 1, look in H. destruct (at_path d sibling); [|injection H as <- <-; left; split; [done|by eexists]].
  unfold lock_check in H. do 3 (apply check_then in H as [H|[-> [e ->]]]; [|left; split; [done|by eexists]]).
  right. unfold sbind at 1, become in H. unfold sync_directory in H. match type of H with Materialize.check _ ?o ?p ?n ?c ?dd = _ => destruct (check_run fault o p n c dd) as [E|[k E]] end;
    rewrite E in H; injection H as <- <-; cbn [past at_path]; (split; [done|]); (split; [done|]); [by left|right; by eexists].
Qed.
Lemma move_owned s contents : s sibling = Some (T_File contents) -> move sibling owned s owned = Some (T_File contents).
Proof. intros Hs. unfold move, set_path. by rewrite decide_True. Qed.
Lemma persist_step d0 d r d' contents after : update_step d0 (at_path d) -> candidate contents after -> at_path d sibling = Some (T_File contents) ->
  persist_updated_lock fault owned sibling d = (r, d') ->
  through d d' (update_step d0) /\
  match r with
  | Ok _ => at_path d' owned = Some (T_File contents)
  | Err e => at_path d' owned = at_path d owned \/ exists k, e = io_fault N_Lock "update-directory-sync" k
  end.
Proof.
  intros H0 Hc Hs H. apply persist_updated_spec in H as [[-> [e ->]]|(Hp & Ha & Hr)]; [split; [by apply through_refl|by left]|].
  assert (Hstep : update_step d0 (at_path d')).
  { rewrite Ha. destruct H0 as [H0 _]. split.
    - intros q Hq Hne. unfold move, set_path. rewrite decide_False by done. destruct (decide (q = sibling)) as [->|]; [by destruct Hq; right|by apply H0].
    - right. exists contents, after. split; [done|]. by apply move_owned. }
  split; [exists [at_path d']; split; [done|]; split; [by apply Forall_singleton|done]|].
  destruct Hr as [->|[k ->]]; [rewrite Ha; by apply move_owned|right; by exists k].
Qed.
(** The run of Nix and what follows it. *)
Definition replaced (d' : disk) (r : result (list row) Failure) (d : disk) (before : pinned) (requested : list bytes) : Prop :=
  match r with
  | Ok rows => exists contents after, candidate contents after /\ at_path d' owned = Some (T_File contents) /\ rows = derive_rows before after requested
  | Err e => at_path d' owned = at_path d owned \/ exists k, e = io_fault N_Lock "update-directory-sync" k
  end.
Lemma run_update_ok w u requested translated before d0 d r d' : update_step d0 (at_path d) ->
  run_update w u requested translated sibling owned before d = (r, d') -> through d d' (update_step d0) /\ replaced d' r d before requested.
Proof.
  intros H0 H. unfold Update.run_update in H. unfold sbind at 1, look at 1 in H. destruct (uw_nix _ _ _ _) as [denied|success stderr produced].
  { injection H as <- <-. split; [by apply through_refl|by left]. }
  assert (Hput : forall r1 d1, (match produced with Some contents => put sibling (Some (T_File contents)) | None => sret tt end) d = (r1, d1) ->
    through d d1 (outside working (at_path d))).
  { intros r1 d1 E. destruct produced as [contents|]; [|injection E as <- <-; by apply through_refl].
    assert (Ht : touches working (put sibling (Some (T_File contents)))) by (apply along_put; apply outside_put; by right). by eapply Ht. }
  apply sbind_split in H as [([] & d1 & H1 & H)|(e & H1 & ->)]; [|by destruct produced].
  pose proof (Hput _ _ H1) as T1. pose proof (outside_steps _ _ _ H0 T1) as S1. pose proof T1 as (_ & _ & _ & L1). pose proof S1 as (_ & _ & _ & P1).
  assert (Hsame : at_path d1 owned = at_path d owned) by apply L1, owned_not_working. clear Hput H1.
  destruct success; cbn [negb] in H; [|injection H as <- <-; split; [done|by left]].
  unfold sbind at 1, look at 1 in H.
  apply sbind_split in H as [(contents & d2 & H1 & H)|(e & H1 & ->)]; apply read_lock_same in H1 as [-> Hr]; [|split; [done|by left]].
  specialize (Hr contents eq_refl).
  apply sbind_split in H as [([] & d2 & H1 & H)|(e & H1 & ->)]; injection H1 as Hv <-; [|split; [done|by left]].
  apply sbind_split in H as [(after & d2 & H1 & H)|(e & H1 & ->)]; injection H1 as Hpins <-; [|split; [done|by left]].
  assert (Hc : candidate contents after) by (split; [done|]; by destruct (pins from_slice to_string contents) as [a|]; [injection Hpins as ->|]).
  apply sbind_split in H as [([] & d2 & H1 & H)|(e & H1 & ->)]; destruct (persist_step _ _ _ _ _ _ P1 Hc Hr H1) as [T2 Hend].
  - injection H as <- <-. split; [by eapply through_trans|]. exists contents, after. done.
  - split; [by eapply through_trans|]. unfold replaced; rewrite <- Hsame. exact Hend.
Qed.

(** Nothing is left beside the lock, unless its removal failed. *)
Definition no_residue (d d' : disk) : Prop :=
  at_path d' sibling = None \/ at_path d' sibling = at_path d sibling \/ is_Some (fault "remove_file" sibling).
Lemma run_update_moves w u requested translated before d rows d' :
  run_update w u requested translated sibling owned before d = (Ok rows, d') -> at_path d' sibling = None.
Proof.
  intros H. unfold Update.run_update in H. inv_sok. case_match; [done|].
  assert (Hm : forall d1, persist_updated_lock fault owned sibling d1 = (Ok tt, d') -> at_path d' sibling = None).
  { intros d1 [[_ [e [=]]]|(_ & -> & _)]%persist_updated_spec. unfold move, set_path. by rewrite decide_False, decide_True by done. }
  inv_sok. destruct success; cbn [negb] in *; [|done]. inv_sok. repeat match goal with x : unit |- _ => destruct x end. by eapply Hm.
Qed.
Lemma read_pins_same u d r d' : read_pins fault from_slice to_string u d = (r, d') -> d' = d.
Proof.
  unfold read_pins. destruct (staged_reference u); [|by intros [= _ <-]]. unfold sbind at 1, look.
  intros [(c & d1 & H1 & H)|(e & H1 & _)]%sbind_split; apply read_lock_same in H1 as [-> _]; [by injection H as _ <-|done].
Qed.
Lemma requested_spec inputs declared_ base requested translated : requested_names inputs declared_ base = Ok (requested, translated) ->
  requested = fold_left push_new inputs [] /\ translated = fold_left (fun l name => push_new l (owner_of base name)) inputs [].
Proof.
  unfold requested_names. destruct (List.find _ _); [done|]. intros H. injection H as H.
  assert (Hf : forall l a b, fold_left (fun '(requested, translated) name => (push_new requested name, push_new translated (owner_of base name))) l (a, b) =
    (fold_left push_new l a, fold_left (fun l name => push_new l (owner_of base name)) l b)).
  { induction l as [|x l IH]; intros a b; [done|]. cbn [fold_left]. apply IH. }
  rewrite Hf in H. by injection H as <- <-.
Qed.
(** How an update ends. *)
Definition update_end (d d' : disk) (inputs : list bytes) (r : result updated Failure) : Prop :=
  match r with
  | Ok a => ud_lock a = owned /\ exists before contents after, candidate contents after /\ at_path d' owned = Some (T_File contents) /\
      ud_rows a = derive_rows before after (fold_left push_new inputs [])
  | Err e => at_path d' owned = at_path d owned \/ exists k, e = io_fault N_Lock "update-directory-sync" k
  end.
Lemma apply_update_ok w inputs u parent d0 d r d' : Flake.lock_path (up_lock u) = owned -> parent_path owned = Some parent -> staged_lock pid parent = sibling ->
  update_step d0 (at_path d) -> apply_update w inputs u d = (r, d') ->
  through d d' (update_step d0) /\ update_end d d' inputs r /\ no_residue d d'.
Proof.
  intros Ho Hparent Hsib H0 H. unfold Update.apply_update in H.
  assert (Hrefl : forall e, r = Err e -> d' = d -> through d d' (update_step d0) /\ update_end d d' inputs r /\ no_residue d d').
  { intros e -> ->. split; [by apply through_refl|]. split; [by left|right; by left]. }
  destruct (requested_names _ _ _) as [[requested translated]|e] eqn:Er; [|injection H as <- <-; by eapply Hrefl].
  apply requested_spec in Er as [-> _].
  apply sbind_split in H as [(before & d1 & H1 & H)|(e & H1 & ->)]; apply read_pins_same in H1 as ->; [|by eapply Hrefl].
  rewrite Ho, Hparent in H. unfold sbind at 1, answer_of, slift, ok_or in H. cbn beta iota in H.
  destruct (fault "create_dir_all" parent); [injection H as <- <-; by eapply Hrefl|]. rewrite Hsib in H.
  apply sbind_split in H as [(rows & d1 & H1 & H)|(e & H1 & ->)]; apply guarded_split in H1 as [(a & H1 & Ha)|(e2 & d2 & H1 & Ha & Hclean)]; try discriminate Ha;
    injection Ha as ->; destruct (run_update_ok _ _ _ _ _ _ _ _ _ H0 H1) as [T Hend].
  - injection H as <- <-. split; [done|]. split.
    + destruct Hend as (contents & after & Hc & Hp & ->). split; [done|]. by exists before, contents, after.
    + left. by eapply run_update_moves.
  - assert (Hrm : touches (eq sibling) (remove_file_if_exists fault sibling)) by (apply along_remove_file; [tc_solve|by apply outside_put]).
    pose proof T as (_ & _ & _ & P1). pose proof (Hrm _ _ _ Hclean) as T2. pose proof T2 as (_ & _ & _ & Hf).
    split; [|split].
    + eapply through_trans; [exact T|]. apply outside_steps; [done|]. eapply through_impl; [|exact T2]. intros s Hs q Hq. apply Hs. intros <-. apply Hq. by right.
    + destruct Hend as [Hend|Hend]; [left; by rewrite Hf|by right].
    + unfold remove_file_if_exists in Hclean. destruct (fault "remove_file" sibling) eqn:Ef; [right; right; by rewrite Ef|].
      left. injection Hclean as <-. cbn. unfold set_path. by rewrite decide_True.
Qed.
End replaced.

Lemma drop_touches u : staged (up_directory u) -> touches staged (drop_preparation fault remains u).
Proof. intros Hu. by apply removal_touches. Qed.
Lemma target_owned sandbox_id selected paths paths' : target_paths roots sandbox_id DEFAULT_TARGET selected = Ok paths ->
  target_paths roots sandbox_id DEFAULT_TARGET selected = Ok paths' -> paths = paths'.
Proof. intros -> H. by injection H. Qed.

(** C32: An update moves the pin whole or not at all. At every moment of it the owned lock is what it was, or a candidate
    that passed the composed rule and reads back; nothing else changes but the private tree and the sibling Nix writes
    to. Success says such a candidate is in force and reports its rows, for the names that were asked for; a failure left
    the lock as it was, but for the one whose last flush of the directory failed behind the rename; and the sibling is
    gone or as it was, unless removing it failed. *)
Theorem update_replaces_the_pin_whole (w : update_world) (inputs : list bytes) (r : ResolvedForLaunch) (paths : GeneratedFlakePaths)
    (parent : bytes) (d : disk) (res : result updated update_failure) (d' : disk)
    (Hr : uw_resolved w = Ok r) (Hpaths : target_paths roots (ra_name (rl_selected r)) DEFAULT_TARGET (rl_selected r) = Ok paths)
    (Hparent : parent_path (owned_lock paths) = Some parent) (Hrun : run w inputs d = (res, d')) :
  through d d' (update_step (owned_lock paths) (staged_lock pid parent) d) /\
  match res with
  | Ok a => update_end (owned_lock paths) d d' inputs (Ok a)
  | Err (Diagnosed e) => update_end (owned_lock paths) d d' inputs (Err e)
  | Err (UnknownInput _ _) => d' = d
  end /\
  no_residue (staged_lock pid parent) d d'.
Proof.
  destruct (names_apart _ _ _ parent Hpaths) as (Ho & Hs & Hne). set (owned := owned_lock paths) in *. set (sibling := staged_lock pid parent) in *.
  assert (R1 : through d d (update_step owned sibling d)) by apply through_refl, update_step_start.
  assert (R2 : no_residue sibling d d) by (right; by left).
  unfold Update.run in Hrun. rewrite Hr in Hrun. unfold sbind at 1, slift at 1 in Hrun. cbn [map_err] in Hrun.
  unfold sbind at 1, slift at 1 in Hrun. destruct (precheck _ _ _ _ _ _) as [[]|e]; [|injection Hrun as <- <-; destruct e; split; [done| |done|]; (split; [by try left|done])].
  unfold sbind at 1, slift at 1 in Hrun. destruct (take_lock _ _) as [[]|e]; cbn [map_err] in Hrun; [|injection Hrun as <- <-; split; [done|]; split; [by left|done]].
  unfold smap_err in Hrun. destruct (sbind _ _ d) as [res0 d0] eqn:E. injection Hrun as <- <-.
  apply sbind_split in E as [(u & d1 & E1 & E)|(e & E1 & ->)]; destruct (prepare_spec _ _ _ _ _ E1) as [T1 Hu];
    pose proof (outside_wider sibling _ _ T1) as W1; pose proof (outside_steps owned sibling Ho Hne _ _ _ (update_step_start owned sibling d) W1) as S1;
    pose proof T1 as (_ & _ & _ & L1); pose proof S1 as (_ & _ & _ & P1).
  2:{ cbn [map_err]. split; [done|]. split; [left; by apply L1|right; left; by apply L1]. }
  destruct (Hu u eq_refl) as (Hst & paths' & Hp' & Hlock). pose proof (target_owned _ _ _ _ Hpaths Hp') as <-.
  unfold behind in E. destruct (apply_update w inputs u d1) as [r2 d2] eqn:E2. injection E as <- Hd0.
  destruct (apply_update_ok owned sibling Ho Hne w inputs u parent d d1 r2 d2 Hlock Hparent eq_refl P1 E2) as (T2 & Hend & Hres).
  pose proof (drop_touches u Hst) as Hdrop. destruct (drop_preparation fault remains u d2) as [rd d3] eqn:E3. cbn [snd] in Hd0. subst d3.
  pose proof (Hdrop _ _ _ E3) as T3. pose proof T3 as (_ & _ & _ & L3). pose proof T2 as (_ & _ & _ & P2).
  assert (Ho3 : at_path d0 owned = at_path d2 owned) by by apply L3. assert (Hs3 : at_path d0 sibling = at_path d2 sibling) by by apply L3.
  assert (Ho1 : at_path d1 owned = at_path d owned) by by apply L1. assert (Hs1 : at_path d1 sibling = at_path d sibling) by by apply L1.
  split; [|split].
  - eapply through_trans; [exact S1|]. eapply through_trans; [exact T2|]. apply outside_steps; [done..|by apply outside_wider].
  - destruct r2 as [a|e]; cbn [map_err update_end] in *; rewrite Ho3; [done|]. by rewrite <- Ho1.
  - unfold no_residue in *. rewrite Hs3, <- Hs1. exact Hres.
Qed.
(** ** What is refused first, and what is reported *)

Lemma requested_unknown inputs declared_ base :
  match requested_names inputs declared_ base with
  | Err e => exists name, e = UnknownInput name (known_names declared_ base) /\ name ∈ inputs /\ name ∉ known_names declared_ base
  | Ok _ => forall name, name ∈ inputs -> name ∈ known_names declared_ base
  end.
Proof.
  unfold requested_names. destruct (List.find _ inputs) as [name|] eqn:E.
  - exists name. apply find_some in E as [Hin Hb]. split; [done|]. split; [by apply list_elem_of_In|]. by case_bool_decide.
  - intros name Hin%list_elem_of_In. apply (find_none _ _ E), negb_false_iff in Hin. by apply bool_decide_eq_true in Hin.
Qed.
(** An unknown name is a usage answer and nothing else. Where the project resolves and its own pin is in force, the
    run answers with the usage refusal exactly when a name is neither a baseline, a declared input nor the base, however
    contended the lock and whatever Nix would say, and nothing was written; a team's lock is refused before that, with
    nothing written either. *)
Theorem unknown_input_is_refused_first (w : update_world) (inputs : list bytes) (r : ResolvedForLaunch) (d : disk) (Hr : uw_resolved w = Ok r) :
  let selected := rl_selected r in
  (forall f, refuse_override roots w (ra_name selected) selected = Err f -> run w inputs d = (Err (Diagnosed f), d)) /\
  (forall declared_ base, refuse_override roots w (ra_name selected) selected = Ok tt ->
     resolve_update_inputs toml probe_report (uw_before w) roots (ra_name selected) DEFAULT_TARGET selected (rl_manifest r) = Ok (declared_, base) ->
     ((exists name known, fst (run w inputs d) = Err (UnknownInput name known)) <-> exists name, name ∈ inputs /\ name ∉ known_names declared_ base) /\
     (forall name known, fst (run w inputs d) = Err (UnknownInput name known) ->
        name ∈ inputs /\ known = known_names declared_ base /\ name ∉ known /\ snd (run w inputs d) = d)).
Proof.
  intros selected.
  assert (Hrun : forall e, precheck toml probe_report roots w inputs r = Err e -> run w inputs d = (Err e, d)).
  { intros e He. unfold Update.run. rewrite Hr. unfold sbind at 1, slift at 1. cbn [map_err]. unfold sbind at 1, slift at 1. by rewrite He. }
  split.
  - intros f Hf. apply Hrun. unfold precheck. fold selected. by rewrite Hf.
  - intros declared_ base Hf Hres. pose proof (requested_unknown inputs declared_ base) as Hq.
    assert (Hp : precheck toml probe_report roots w inputs r = (let? _ := requested_names inputs declared_ base in Ok tt)).
    { unfold precheck. fold selected. rewrite Hf, Hres. cbn [map_err rbind]. by destruct (requested_names _ _ _). }
    destruct (requested_names inputs declared_ base) as [[q t]|e]; cbn [rbind] in Hp.
    + assert (Hno : forall name known, fst (run w inputs d) <> Err (UnknownInput name known)).
      { intros name known. unfold Update.run. rewrite Hr. unfold sbind at 1, slift at 1. cbn [map_err]. unfold sbind at 1, slift at 1. rewrite Hp.
        unfold sbind at 1, slift at 1. destruct (take_lock _ _); cbn [map_err fst]; [|congruence]. unfold smap_err. destruct (sbind _ _ d) as [[done_|f_] d1]; cbn; congruence. }
      split; [|by intros name known E; destruct (Hno name known)]. split; [by intros (name & known & E); destruct (Hno name known)|].
      intros (name & Hin & Hn). by destruct Hn; apply Hq.
    + destruct Hq as (name & -> & Hin & Hn). rewrite (Hrun _ Hp). cbn [fst snd]. split; [|by intros ? ? [= <- <-]].
      split; [intros _; by exists name|intros _; by do 2 eexists].
Qed.
End theorems.

(** The rows: one for each name of the new lock that was asked for, every one when none was, and for each that moved. *)
Theorem rows_are_exact (before after : pinned) (requested : list bytes) (r : row) :
  r ∈ derive_rows before after requested <->
  exists name pin, (name, pin) ∈ after /\ r = pin_row before name pin /\
    (requested = [] \/ name ∈ requested \/ option_map fingerprint (find_field before name) <> Some (fingerprint pin)).
Proof.
  unfold derive_rows. rewrite list_elem_of_omap. split.
  - intros ([name pin] & Hin & Hr). exists name, pin. split; [done|]. cbv zeta in Hr. destruct (negb (bool_decide _) && _) eqn:E; [done|]. injection Hr as <-. split; [done|].
    apply andb_false_iff in E as [E|E]; apply negb_false_iff in E.
    + apply bool_decide_eq_true in E. destruct requested; [by left|right; by left].
    + right; right. cbn [pin_row changed] in E. by apply negb_true_iff, bool_decide_eq_false in E.
  - intros (name & pin & Hin & -> & H). exists (name, pin). split; [done|]. cbv zeta. replace (negb (bool_decide _) && _) with false; [done|].
    symmetry. apply andb_false_iff. destruct H as [->|[H|H]]; [left|left|right]; apply negb_false_iff.
    + apply bool_decide_eq_true, list_elem_of_fmap. by exists (name, pin).
    + apply bool_decide_eq_true. destruct requested; [by apply elem_of_nil in H|done].
    + cbn [pin_row changed]. by apply negb_true_iff, bool_decide_eq_false.
Qed.

(* ------------------------------------------------------------------ *)
(** ** A concrete run *)

Definition demo_lock : bytes := bs "/d/projects/m/default/flake.lock".
Definition demo_node (inputs : object) (rev : string) : Value := VObject [(bs "inputs", VObject inputs); (bs "locked", VObject [(bs "rev", VString (bs rev))])].
Definition demo_moved : Value :=
  VObject [(bs "nodes", VObject [(bs "microvm", demo_node [] "m1"); (bs "nixpkgs", demo_node [] "n2");
                                 (bs "root", demo_node [(bs "microvm", VString (bs "microvm")); (bs "nixpkgs", VString (bs "nixpkgs"))] "r")]);
           (bs "root", VString (bs "root"))].
Definition demo_sources (p : bytes) : source := if bytes_eqb p demo_lock then S_File (Ok (bs "{}")) else demo_library p.
Definition demo_plain : Manifest.Manifest := mk_Manifest (bs "dev") [bs "tools"] None None None [] [] [bs "~/w"] [] None.
Definition demo_from_slice (text : bytes) : option Value := Some (if bytes_eqb text (bs "new") then demo_moved else VObject []).
Definition demo_update_world (try : try_lock) : update_world :=
  mk_update_world (Ok (mk_ResolvedForLaunch (mk_ResolvedBinding (bs "m") Derived) demo_selected (bs "...") demo_plain None [] None))
    (demo_flake_host "/d/projects/m/default/flake.lock") (demo_flake_host "/d/projects/m/default/flake.lock") (Ok (bs "/run/u"))
    (mk_lock_world true true try) (fun _ => None) (fun _ _ _ => Ended true [] (Some (bs "new"))).
Definition demo_state : disk := mk_disk (fun p => if bytes_eqb p demo_lock then Some (T_File (bs "{}")) else None) [] 0.
Notation demo_run try inputs :=
  (run no_faults nobody demo_sources 7 demo_from_slice (fun _ => []) (demo_toml "assets") (fun _ => None) (fun _ => None)
    (bs "{ }") (bs "{ }") [(bs "nix/default.nix", bs "{ }")] demo_roots (demo_update_world try) inputs demo_state).
Definition demo_rows : list row := [mk_row (bs "microvm") None (Some (bs "m1")) true; mk_row (bs "nixpkgs") None (Some (bs "n2")) true].
Lemma demo_updates : fst (demo_run LockTaken [bs "nixpkgs"]) = Ok (mk_updated demo_rows demo_lock false None).
Proof. vm_compute. reflexivity. Qed.
Lemma update_replaces_the_pin_whole_witness :
  exists before contents after, at_path (snd (demo_run LockTaken [bs "nixpkgs"])) demo_lock = Some (T_File contents) /\
    candidate demo_from_slice (fun _ => []) contents after /\ demo_rows = derive_rows before after (fold_left push_new [bs "nixpkgs"] []).
Proof.
  pose proof demo_updates as Hok. destruct (demo_run LockTaken [bs "nixpkgs"]) as [res d'] eqn:E. cbn [fst snd] in *.
  destruct (update_replaces_the_pin_whole no_faults nobody demo_sources 7 ltac:(unfold u32_max; lia) demo_from_slice (fun _ => []) (demo_toml "assets") (fun _ => None) (fun _ => None)
    (bs "{ }") (bs "{ }") [(bs "nix/default.nix", bs "{ }")] demo_roots (demo_update_world LockTaken) [bs "nixpkgs"]
    (mk_ResolvedForLaunch (mk_ResolvedBinding (bs "m") Derived) demo_selected (bs "...") demo_plain None [] None)
    (mk_GeneratedFlakePaths (bs "/k/flakes/m/default") demo_lock (Some (bs "/c/manifests/m/flake.lock"))) (bs "/d/projects/m/default")
    demo_state res d' eq_refl ltac:(vm_compute; reflexivity) ltac:(vm_compute; reflexivity) E) as (_ & Hend & _).
  rewrite Hok in Hend. destruct Hend as (_ & before & contents & after & Hc & Hp & Hrows). exists before, contents, after.
  split; [exact Hp|]. split; [exact Hc|exact Hrows].
Defined.
(** A typing slip is answered as one, however contended the lock. *)
Lemma unknown_input_is_refused_first_witness : exists name known,
  fst (demo_run LockHeld [bs "nixpkgs"; bs "nixpkg"]) = Err (UnknownInput name known) /\ snd (demo_run LockHeld [bs "nixpkgs"; bs "nixpkg"]) = demo_state.
Proof.
  destruct (unknown_input_is_refused_first no_faults nobody demo_sources 7 demo_from_slice (fun _ => []) (demo_toml "assets") (fun _ => None) (fun _ => None)
    (bs "{ }") (bs "{ }") [(bs "nix/default.nix", bs "{ }")] demo_roots (demo_update_world LockHeld) [bs "nixpkgs"; bs "nixpkg"] _ demo_state eq_refl) as [_ H].
  destruct (H [bs "assets"] None ltac:(vm_compute; reflexivity) ltac:(vm_compute; reflexivity)) as [Hiff Hs].
  destruct (proj2 Hiff) as (name & known & E); [exists (bs "nixpkg"); split; [by right; left|by apply (bool_decide_unpack _); vm_compute]|].
  exists name, known. split; [exact E|]. by destruct (Hs _ _ E) as (_ & _ & _ & Hd).
Defined.
