(* ===== verification/Evaluate.v ===== *)
(** * Evaluating a manifest ([src/src/cli/mod.rs], [src/src/config/evaluate.rs])

    The one road from a resolved manifest to an answer of the merge: the tree is published, the lock in force is checked
    before Nix reads it, Nix evaluates the report, a first pin is installed, and the report is analysed.  Its readers are
    [viv config eval], [viv config sources] and the evaluating half of [viv start].  The disk is [Materialize]'s; what Nix
    answers, and what it and other commands leave at the published tree, is the run's world.  Printed notes are data or
    left out; the matched messages of Nix are ASCII. *)
From S2P Require Import Prelude Bytes Paths Ordered Message Spec Diagnostic Lifecycle Stop Volumes Start Roots Toml Artifact Manifest Ip Allowlist Json Binding Lock NixText Inputs Flake FlakeSpec Materialize MaterializeSpec Update Merged.

(** ** Running Nix *)

(** [nix eval] could not be run, or ended. *)
Inductive nix_eval := NixAbsent (k : io_kind) | NixEnded (success : bool) (stdout stderr : bytes).
(** The published tree is a cache other commands share: one can publish it anew before each of the steps that touch it. *)
Inductive moment := M_Check | M_Evaluation | M_Lock | M_Snapshot.
Record evaluate_world := mk_evaluate_world {
  vw_host : flake_host;
  vw_variable : bytes -> option bytes;
  vw_nix : option tree -> bool -> nix_eval;         (* over the published tree, with or without [--no-update-lock-file] *)
  vw_left : option tree -> option tree;             (* the tree behind an evaluation that may create a lock *)
  vw_meanwhile : moment -> option (option tree);    (* what another command publishes there just before *)
  vw_report : bytes -> option Report }.             (* serde_json *)
Record Evaluated := mk_Evaluated {
  el_binding : ResolvedBinding; el_manifest : Manifest.Manifest; el_created : option bytes; el_analysis : Analysis;
  el_directory : bytes; el_snapshot : bytes }.

Definition names_a_missing_lock_node (stderr : bytes) : bool :=
  let lowered := map to_ascii_lower stderr in
  is_infix (bs "lock file") lowered && (is_infix (bs "does not have") lowered || is_infix (bs "must be updated") lowered).
(** [EvaluationError] as the failure it becomes. *)
Definition nix_absent (k : io_kind) : Failure :=
  match k with
  | NotFoundKind => diagnosed N_Host "nix-missing" Diagnostic.Unavailable
  | PermissionDenied => diagnosed N_Host "nix-not-permitted" NoPerm
  | OtherKind => diagnosed N_Host "nix-unusable" Diagnostic.Unavailable
  end.
Definition nix_failed (stderr : bytes) : Failure :=
  if names_a_missing_lock_node stderr then diagnosed N_Lock "missing-node" Diagnostic.Config
  else diagnosed N_Store "evaluation-failed" Diagnostic.Software.

Definition put_when (b : bool) (p : bytes) (t : option tree) : act unit := if b then put p t else sret tt.
Definition report (w : evaluate_world) (prepared : PreparedFlake) : act Report :=
  let creates := may_persist_created (pf_lock prepared) in
  let! tree := look (pf_directory prepared) in
  match vw_nix w tree (negb creates) with
  | NixAbsent k => sfail (nix_absent k)
  | NixEnded success stdout stderr =>
      put_when creates (pf_directory prepared) (vw_left w tree) ;;
      if success then answer_of (ok_or (vw_report w stdout) (diagnosed N_Internal "report-undecodable" Diagnostic.Software))
      else sfail (nix_failed stderr)
  end.

(** ** The one road *)

Section evaluate.
Context (fault : string -> bytes -> option io_kind) (rival remains : bytes -> option tree) (source_at : bytes -> source) (pid : Z).
Context (from_slice : bytes -> option Value) (toml : toml_parser) (to_vec_pretty : Value -> option bytes) (probe_report : bytes -> option ProbeReport).
Context (OPTIONS_MODULE REPORT_MODULE : bytes) (EMBEDDED_TREE : list (bytes * bytes)) (roots : XdgRoots).

Definition persist_first_pin (prepared : PreparedFlake) : act EffectiveLock :=
  if negb (may_persist_created (pf_lock prepared)) then sret (pf_lock prepared)
  else persist_created_lock fault rival pid from_slice prepared.
Definition read_staged_lock (directory : bytes) : act bytes :=
  let! tree := look directory in
  match fault "read" (join directory LOCK_FILE), tree ≫= tree_get [LOCK_FILE] with
  | None, Some (T_File contents) => sret contents
  | _, _ => sfail (diagnosed N_State "generation-lock-snapshot" IoErr)
  end.
(** The composed rule over a lock that is in force already. *)
Definition check_in_force (prepared : PreparedFlake) : act unit :=
  if may_persist_created (pf_lock prepared) then sret tt
  else let! staged := read_staged_lock (pf_directory prepared) in answer_of (composed_lock_failure from_slice staged).
Definition interpose (w : evaluate_world) (m : moment) (directory : bytes) : act unit :=
  match vw_meanwhile w m with Some t => put directory t | None => sret tt end.
(** What follows the preparation. *)
Definition evaluate_prepared (w : evaluate_world) (r : ResolvedForLaunch) (prepared : PreparedFlake) : act Evaluated :=
  interpose w M_Check (pf_directory prepared) ;;
  check_in_force prepared ;;
  interpose w M_Evaluation (pf_directory prepared) ;;
  let! report := report w prepared in
  let created := may_persist_created (pf_lock prepared) in
  interpose w M_Lock (pf_directory prepared) ;;
  let! lock := persist_first_pin prepared in
  let analysis := with_manifest_workspaces (analyze report) (Manifest.workspaces (rl_manifest r)) (ra_name (rl_selected r)) in
  interpose w M_Snapshot (pf_directory prepared) ;;
  let! snapshot := read_staged_lock (pf_directory prepared) in
  sret (mk_Evaluated (rl_binding r) (rl_manifest r) (if created then Some (Flake.lock_path lock) else None) analysis (pf_directory prepared) snapshot).
Definition evaluate_resolved (w : evaluate_world) (r : ResolvedForLaunch) : act Evaluated :=
  let! prepared :=
    prepare_generated_flake fault rival remains source_at pid from_slice toml to_vec_pretty probe_report OPTIONS_MODULE REPORT_MODULE EMBEDDED_TREE
      (vw_host w) roots (ra_name (rl_selected r)) DEFAULT_TARGET (rl_selected r) (rl_source r) (rl_manifest r) (workspace_paths r)
      (from_environment (vw_variable w)) in
  evaluate_prepared w r prepared.
Definition evaluate_binding (resolved : result ResolvedForLaunch Failure) (w : evaluate_world) : act Evaluated :=
  let! r := answer_of resolved in evaluate_resolved w r.

(** ** The readers *)

Definition conflict_id (k : ConflictKind) : string :=
  match k with
  | Tie => "equal-priority-tie" | LiteralPath => "literal-path" | SessionPath => "session-path"
  | NonPortableVariable => "non-portable-variable"
  end.
(** The first defect alone. *)
Definition defect_failure (a : Analysis) : option Failure :=
  match conflicts a, irreconcilable a with
  | c :: _, _ => Some (diagnosed N_Merge (conflict_id (cf_kind c)) DataErr)
  | [], _ :: _ => Some (diagnosed N_Merge "irreconcilable" DataErr)
  | [], [] => None
  end.
Definition refuse_defects (e : Evaluated) : result Evaluated Failure :=
  match defect_failure (el_analysis e) with Some f => Err f | None => Ok e end.
Definition config_eval (resolved : result ResolvedForLaunch Failure) (w : evaluate_world) : act Evaluated :=
  let! e := evaluate_binding resolved w in answer_of (refuse_defects e).
Definition config_sources (resolved : result ResolvedForLaunch Failure) (w : evaluate_world) : act Evaluated := evaluate_binding resolved w.

(** ** What a launch takes from the merge *)

Definition as_u64 (v : Value) : option Z := match v with VNumber (PosInt n) => Some n | _ => None end.
Definition u32_of (n : Z) : option Z := if n <=? u32_max then Some n else None.
Definition kind_str (k : LayerKind) : bytes :=
  match k with LK_Image => bs "image" | LK_Piece => bs "piece" | LK_Extends => bs "extends" | LK_Manifest => bs "manifest" end.
(** [Option::max]: none is the least. *)
Definition option_max (a b : option Z) : option Z :=
  match a, b with Some a, Some b => Some (Z.max a b) | Some a, None => Some a | None, b => b end.
Definition declared_size (item : Value) : option Z := let* v := vget item (bs "size_gib") in let* n := as_u64 v in u32_of n.
Fixpoint raise_ceiling (name : bytes) (size : option Z) (declared : list DeclaredVolume) : option (list DeclaredVolume) :=
  match declared with
  | [] => None
  | v :: declared =>
      if bytes_eqb (Volumes.v_name v) name
      then Some (mk_DeclaredVolume (Volumes.v_name v) (Volumes.v_mount v) (v_declared_by v) (v_kind v) (option_max (Volumes.v_size_gib v) size) :: declared)
      else option_map (cons v) (raise_ceiling name size declared)
  end.
Definition volume_item (c : Contributor) (declared : list DeclaredVolume) (item : Value) : list DeclaredVolume :=
  match (let* v := vget item (bs "name") in as_str v) with
  | None => declared
  | Some name =>
      let size := declared_size item in
      match raise_ceiling name size declared with
      | Some declared => declared
      | None => declared ++ [mk_DeclaredVolume name (default [] (let* v := vget item (bs "mount") in as_str v)) (c_layer c) (kind_str (c_kind c)) size]
      end
  end.
Definition volume_contributor (declared : list DeclaredVolume) (c : Contributor) : list DeclaredVolume :=
  match as_array (c_value c) with Some items => fold_left (volume_item c) items declared | None => declared end.
Definition merged_volumes (a : Analysis) : list DeclaredVolume :=
  match value_of a (bs "volumes") with Some view => fold_left volume_contributor (kv_contributors view) [] | None => [] end.
Definition merged_credentials (a : Analysis) : list CredentialId :=
  default [] (let* v := effective a (bs "credentials.agents") in let* ids := as_array v in
              Some (omap (fun v => let* id := as_str v in ok (credential_from_str id)) ids)).
Definition merged_resources (a : Analysis) : option DeclaredResources :=
  let read key := let* v := effective a (bs key) in let* n := as_u64 v in u32_of n in
  match read "resources.mem_mib"%string, read "resources.vcpu"%string with
  | None, None => None
  | mem_mib, vcpu => Some (mk_DeclaredResources mem_mib vcpu)
  end.
Record LaunchInputs := mk_LaunchInputs {
  li_directory : bytes; li_resources : option DeclaredResources; li_volumes : list DeclaredVolume; li_snapshot : bytes }.
(** [sockets] is [resolve_declared_agent_sockets]. *)
Definition launch_inputs (sockets : list CredentialId -> result unit Failure) (e : Evaluated) : result LaunchInputs Failure :=
  let? _ := refuse_defects e in
  let? _ := sockets (merged_credentials (el_analysis e)) in
  Ok (mk_LaunchInputs (el_directory e) (merged_resources (el_analysis e)) (merged_volumes (el_analysis e)) (el_snapshot e)).
Definition evaluate_resolved_for_launch (sockets : list CredentialId -> result unit Failure) (w : evaluate_world) (r : ResolvedForLaunch) : act LaunchInputs :=
  let! e := evaluate_resolved w r in answer_of (launch_inputs sockets e).
End evaluate.

(** ** The verbs that only read *)

Definition config_binding (roots : XdgRoots) (h : flake_host) (resolved : result ResolvedForLaunch Failure) :
    result (ResolvedBinding * GeneratedFlakePaths * EffectiveLock) Failure :=
  let? r := resolved in
  let? paths := target_paths roots (ra_name (rl_selected r)) DEFAULT_TARGET (rl_selected r) in
  let? lock := select_lock h paths in
  Ok (rl_binding r, paths, lock).
Section library.
Context {Net : Type} {N : IpNetOps Net} (toml : toml_parser) (w : library_world).
Definition manifest_show (name : bytes) : result (bytes * ResolvedArtifact * Manifest.Manifest) Failure :=
  let? selected := resolve_manifest w name in
  let? (_, manifest) := read_manifest_file toml w selected in
  Ok (name, selected, manifest).
(** A library that cannot be listed has no rows. *)
Definition manifest_list : result (list (bytes * ResolvedArtifact * Manifest.Manifest)) Failure :=
  let names := match lw_listing w with Entries es => Artifact.dedup (sort_bytes (omap (member_of ManifestKind) es)) | _ => [] end in
  collect_results manifest_show names.
End library.

(* ------------------------------------------------------------------ *)
(** * What a launch takes is what the readers show *)

Lemma defect_failure_spec a : defect_failure a = None <-> is_defective a = false.
Proof.
  unfold defect_failure, is_defective. destruct (conflicts a), (irreconcilable a); cbn; by split.
Qed.

(** ** The volumes of a merge *)

(** What a contributor lists, and the name of each. *)
Notation listed := (Contributor * Value)%type.
Definition items_of (c : Contributor) : list listed := map (pair c) (default [] (as_array (c_value c))).
Definition volume_items (a : Analysis) : list listed :=
  match value_of a (bs "volumes") with Some view => flat_map items_of (kv_contributors view) | None => [] end.
Definition item_name (i : listed) : option bytes := let* v := vget (snd i) (bs "name") in as_str v.
Definition named_items (name : bytes) (l : list listed) : list listed := List.filter (fun i => bool_decide (item_name i = Some name)) l.
(** The declaration of a name: the place and the layer of the first, the largest ceiling of all. *)
Definition declared_volume (name : bytes) (l : list listed) : option DeclaredVolume :=
  match named_items name l with
  | [] => None
  | i :: rest =>
      Some (mk_DeclaredVolume name (default [] (let* v := vget (snd i) (bs "mount") in as_str v)) (c_layer (fst i)) (kind_str (c_kind (fst i)))
              (fold_left (fun m i => option_max m (declared_size (snd i))) rest (declared_size (snd i))))
  end.
Definition find_volume (name : bytes) (l : list DeclaredVolume) : option DeclaredVolume := List.find (fun v => bytes_eqb (Volumes.v_name v) name) l.

Lemma volume_items_fold a : merged_volumes a = fold_left (fun d i => volume_item (fst i) d (snd i)) (volume_items a) [].
Proof.
  unfold merged_volumes, volume_items. destruct (value_of a (bs "volumes")) as [view|]; [|done].
  generalize (@nil DeclaredVolume). induction (kv_contributors view) as [|c cs IH]; intros d; [done|].
  cbn [fold_left flat_map]. rewrite fold_left_app, IH. f_equal. unfold volume_contributor, items_of.
  destruct (as_array (c_value c)) as [items|]; [cbn [default from_option]|done]. revert d. induction items as [|i items IHi]; intros d; [done|]. cbn [map fold_left]. apply IHi.
Qed.
Lemma raise_ceiling_spec name size d :
  match raise_ceiling name size d with
  | None => find_volume name d = None
  | Some d' => map Volumes.v_name d' = map Volumes.v_name d /\ exists v, find_volume name d = Some v /\
      find_volume name d' = Some (mk_DeclaredVolume (Volumes.v_name v) (Volumes.v_mount v) (v_declared_by v) (v_kind v) (option_max (Volumes.v_size_gib v) size)) /\
      forall other, other <> name -> find_volume other d' = find_volume other d
  end.
Proof.
  induction d as [|v d IH]; [done|]. cbn [raise_ceiling]. unfold find_volume in *. cbn [List.find]. destruct (bytes_eqb (Volumes.v_name v) name) eqn:E.
  - split; [done|]. exists v. cbn [List.find Volumes.v_name]. rewrite E. split; [done|]. split; [done|]. intros other Ho. apply bytes_eqb_true in E.
    destruct (bytes_eqb (Volumes.v_name v) other) eqn:E2; [|done]. apply bytes_eqb_true in E2. congruence.
  - destruct (raise_ceiling name size d) as [d'|]; cbn [option_map]; [|done]. destruct IH as (Hn & x & H1 & H2 & H3).
    split; [cbn [map]; by rewrite Hn|]. exists x. cbn [List.find]. rewrite E. split; [done|]. split; [done|].
    intros other Ho. destruct (bytes_eqb _ other); [done|by apply H3].
Qed.
Lemma find_volume_app name d v : find_volume name (d ++ [v]) =
  match find_volume name d with Some x => Some x | None => if bytes_eqb (Volumes.v_name v) name then Some v else None end.
Proof. unfold find_volume. induction d as [|x d IH]; [done|]. cbn [app List.find]. destruct (bytes_eqb (Volumes.v_name x) name); [done|exact IH]. Qed.
Lemma find_volume_none name d : find_volume name d = None <-> name ∉ map Volumes.v_name d.
Proof.
  unfold find_volume. induction d as [|v d IH]; [split; [intros _; apply not_elem_of_nil|done]|]. cbn [List.find map]. rewrite elem_of_cons.
  destruct (bytes_eqb (Volumes.v_name v) name) eqn:E.
  - apply bytes_eqb_true in E. split; [done|]. intros H. destruct H. by left.
  - rewrite IH. split; [|tauto]. intros H [->|H1]; [|done]. by rewrite (proj2 (bytes_eqb_true _ _)) in E.
Qed.
(** What one listed item does to the declarations. *)
Definition fresh_volume (name : bytes) (i : listed) : DeclaredVolume :=
  mk_DeclaredVolume name (default [] (let* v := vget (snd i) (bs "mount") in as_str v)) (c_layer (fst i)) (kind_str (c_kind (fst i))) (declared_size (snd i)).
Definition raised (i : listed) (v : DeclaredVolume) : DeclaredVolume :=
  mk_DeclaredVolume (Volumes.v_name v) (Volumes.v_mount v) (v_declared_by v) (v_kind v) (option_max (Volumes.v_size_gib v) (declared_size (snd i))).
Lemma volume_item_find d i name : find_volume name (volume_item (fst i) d (snd i)) =
  if bool_decide (item_name i = Some name)
  then Some (match find_volume name d with Some v => raised i v | None => fresh_volume name i end) else find_volume name d.
Proof.
  unfold volume_item. change (let* v := vget (snd i) (bs "name") in as_str v) with (item_name i). destruct (item_name i) as [n|]; [|done].
  pose proof (raise_ceiling_spec n (declared_size (snd i)) d) as H. destruct (raise_ceiling n (declared_size (snd i)) d) as [d'|].
  - destruct H as (_ & v & H1 & H2 & H3). destruct (decide (n = name)) as [->|Hn].
    + rewrite bool_decide_true by done. by rewrite H1.
    + rewrite bool_decide_false by congruence. apply H3. congruence.
  - rewrite find_volume_app. cbn [Volumes.v_name]. destruct (decide (n = name)) as [->|Hn].
    + rewrite bool_decide_true by done. by rewrite H, (proj2 (bytes_eqb_true _ _)).
    + rewrite bool_decide_false by congruence. destruct (find_volume name d); [done|]. destruct (bytes_eqb n name) eqn:E; [|done]. apply bytes_eqb_true in E. done.
Qed.
Lemma volume_item_names d i : NoDup (map Volumes.v_name d) -> NoDup (map Volumes.v_name (volume_item (fst i) d (snd i))).
Proof.
  unfold volume_item. destruct (let* v := vget (snd i) (bs "name") in as_str v) as [n|]; [|done]. intros Hd.
  pose proof (raise_ceiling_spec n (declared_size (snd i)) d) as H. destruct (raise_ceiling n (declared_size (snd i)) d) as [d'|]; [by destruct H as [-> _]|].
  rewrite map_app. apply NoDup_app. split_and!; [done| |apply NoDup_singleton]. intros x Hx Hx2%list_elem_of_singleton. subst. by apply find_volume_none in H.
Qed.
(** C35: The declarations of a merge: one for every name a contributor lists, with the mountpoint and the layer of the first
    that does and the largest ceiling any asks for. *)
Theorem volumes_are_declared_once a :
  NoDup (map Volumes.v_name (merged_volumes a)) /\ forall name, find_volume name (merged_volumes a) = declared_volume name (volume_items a).
Proof.
  rewrite volume_items_fold. induction (volume_items a) as [|i l [IH1 IH2]] using rev_ind; [split; [apply NoDup_nil_2|done]|].
  rewrite fold_left_app. cbn [fold_left]. split; [by apply volume_item_names|]. intros name. rewrite volume_item_find, IH2.
  unfold declared_volume, named_items. rewrite List.filter_app. cbn [List.filter].
  case_bool_decide as E; [|by rewrite app_nil_r]. destruct (List.filter _ l) as [|j rest]; [done|]. cbn [app]. by rewrite fold_left_app.
Qed.

(* ------------------------------------------------------------------ *)
(** * The lock an evaluation is pinned by *)

Section pinned.
Context (fault : string -> bytes -> option io_kind) (rival remains : bytes -> option tree) (source_at : bytes -> source) (pid : Z).
Context (from_slice : bytes -> option Value) (toml : toml_parser) (to_vec_pretty : Value -> option bytes) (probe_report : bytes -> option ProbeReport).
Context (OPTIONS_MODULE REPORT_MODULE : bytes) (EMBEDDED_TREE : list (bytes * bytes)) (roots : XdgRoots).
Notation read_staged_lock := (Evaluate.read_staged_lock fault).
Notation persist_first_pin := (Evaluate.persist_first_pin fault rival pid from_slice).
Notation evaluate_prepared := (Evaluate.evaluate_prepared fault rival pid from_slice).
Notation evaluate_resolved :=
  (Evaluate.evaluate_resolved fault rival remains source_at pid from_slice toml to_vec_pretty probe_report OPTIONS_MODULE REPORT_MODULE EMBEDDED_TREE roots).

(** What a tree retains as its lock. *)
Definition retains (d : disk) (directory contents : bytes) : Prop := at_path d directory ≫= tree_get [LOCK_FILE] = Some (T_File contents).
Lemma read_staged_lock_ok directory d r d' : read_staged_lock directory d = (r, d') -> d' = d /\ forall contents, r = Ok contents -> retains d directory contents.
Proof.
  unfold Evaluate.read_staged_lock, sbind, look, retains. destruct (fault "read" _); [by intros [= <- <-]|].
  destruct (at_path d directory ≫= tree_get [LOCK_FILE]) as [[| |]|]; intros [= <- <-]; (split; [done|]); by intros ? [= <-].
Qed.
Lemma check_in_force_ok prepared d r d' : check_in_force fault from_slice prepared d = (r, d') -> d' = d /\
  (r = Ok tt -> may_persist_created (pf_lock prepared) = false ->
   exists contents, retains d (pf_directory prepared) contents /\ composed_lock_failure from_slice contents = Ok tt).
Proof.
  unfold check_in_force. destruct (may_persist_created _); [by intros [= <- <-]|]. intros H.
  apply sbind_split in H as [(staged & d1 & H1 & H)|(e & H1 & ->)]; apply read_staged_lock_ok in H1 as [-> H1]; [|done].
  injection H as <- <-. split; [done|]. intros H _. exists staged. split; [by apply H1|done].
Qed.
Lemma interpose_ok w m directory d r d' : interpose w m directory d = (r, d') -> r = Ok tt /\
  (vw_meanwhile w m = None -> d' = d) /\ forall q, q <> directory -> at_path d' q = at_path d q.
Proof.
  unfold interpose, put, become, sret. destruct (vw_meanwhile w m); intros [= <- <-]; (split; [done|]; split; [done|]); [|done].
  intros q Hq. cbn [at_path]. unfold set_path. by rewrite decide_False.
Qed.
(** Nix writes to the published tree alone, and to that only where it may create a lock. *)
Lemma report_ok w prepared d r d' : report w prepared d = (r, d') ->
  at_path d' (pf_directory prepared) =
    (if may_persist_created (pf_lock prepared) && negb (match vw_nix w (at_path d (pf_directory prepared)) false with NixAbsent _ => true | _ => false end)
     then vw_left w (at_path d (pf_directory prepared)) else at_path d (pf_directory prepared)) /\
  (forall q, q <> pf_directory prepared -> at_path d' q = at_path d q) /\
  forall a, r = Ok a -> exists out err,
    vw_nix w (at_path d (pf_directory prepared)) (negb (may_persist_created (pf_lock prepared))) = NixEnded true out err /\ vw_report w out = Some a.
Proof.
  unfold report, sbind at 1, look. destruct (may_persist_created _) eqn:Em; cbn [negb andb put_when].
  - destruct (vw_nix w _ _) as [k|success out err]; [by intros [= <- <-]|]. unfold sbind, put, become. intros H.
    assert (Hd : d' = mk_disk (set_path (pf_directory prepared) (vw_left w (at_path d (pf_directory prepared))) (at_path d))
      (past d ++ [set_path (pf_directory prepared) (vw_left w (at_path d (pf_directory prepared))) (at_path d)]) (next_id d)) by (destruct success; by injection H).
    rewrite Hd. cbn [at_path negb]. unfold set_path. split; [by rewrite decide_True|]. split; [intros q Hq; by rewrite decide_False|].
    intros a ->. destruct success; [|done]. exists out, err. split; [done|]. injection H as H _. by destruct (vw_report w out); [injection H as ->|].
  - destruct (vw_nix w _ _) as [k|success out err]; [by intros [= <- <-]|]. unfold sbind, sret. intros H.
    assert (Hd : d' = d) by (destruct success; by injection H). rewrite Hd. split; [done|]. split; [done|].
    intros a ->. destruct success; [|done]. exists out, err. split; [done|]. injection H as H _. by destruct (vw_report w out); [injection H as ->|].
Qed.
Lemma prepared_paths h selected sandbox_id target source manifest workspaces baseline d prepared d' :
  prepare_generated_flake fault rival remains source_at pid from_slice toml to_vec_pretty probe_report OPTIONS_MODULE REPORT_MODULE EMBEDDED_TREE h roots
    sandbox_id target selected source manifest workspaces baseline d = (Ok prepared, d') ->
  exists paths, target_paths roots sandbox_id target selected = Ok paths /\ pf_directory prepared = gp_directory paths /\
    forall owned, pf_lock prepared = OwnedMissing owned -> owned = owned_lock paths.
Proof.
  unfold prepare_generated_flake. intros H.
  apply sbind_split in H as [(c & d1 & H1 & H)|(e & H1 & [=])]. injection H1 as Hc <-. destruct (resolved_paths _ _ _ _ _ _ _ _ Hc) as [Hpaths Hlock].
  apply sbind_split in H as [(base & d1 & H1 & H)|(e & H1 & [=])]. injection H1 as _ <-.
  apply sbind_split in H as [(plan & d1 & H1 & H)|(e & H1 & [=])]. injection H1 as Hplan <-. destruct (plan_paths _ _ _ _ _ _ _ _ _ _ _ _ _ _ _ Hplan) as [Hl Hd].
  assert (Hp : pf_directory prepared = gf_directory plan /\ pf_lock prepared = gf_lock plan).
  { unfold publish in H. apply sbind_split in H as [(parent & d1 & _ & H)|(e & _ & [=])]. apply sbind_split in H as [(u & d2 & _ & H)|(e & _ & [=])].
    apply sbind_split in H as [(t & d3 & _ & H)|(e & _ & [=])]. apply guarded_split in H as [(p & H & [= <-])|(e & d4 & _ & [=] & _)].
    apply sbind_split in H as [(u1 & d4 & _ & H)|(e & _ & [=])]. apply sbind_split in H as [(u2 & d5 & _ & H)|(e & _ & [=])].
    apply sbind_split in H as [(u3 & d6 & _ & H)|(e & _ & [=])]. apply sbind_split in H as [(u4 & d7 & _ & H)|(e & _ & [=])].
    apply sbind_split in H as [(u5 & d8 & _ & H)|(e & _ & [=])]. by injection H as <- _. }
  destruct Hp as [Hpd Hpl]. exists (rc_paths c). split; [done|]. split; [congruence|]. intros owned Ho. rewrite Hpl, Hl in Ho.
  destruct (select_owned _ _ _ Hlock) as [[p Hp]|Hp]; [congruence|]. by rewrite Ho in Hp.
Qed.
(** The lock a tree holds. *)
Definition holds (t : option tree) (contents : bytes) : Prop := t ≫= tree_get [LOCK_FILE] = Some (T_File contents).
(** What stands of an evaluation behind its published tree: the tree Nix read, and the lock that is in force or created. *)
Definition locked_by (w : evaluate_world) (creates : option bytes) (tree : option tree) (d' : disk) (snapshot : bytes) : Prop :=
  match creates with
  | Some owned => exists pinned, at_path d' owned = Some (T_File pinned) /\ composed_lock_failure from_slice pinned = Ok tt /\
      (vw_meanwhile w M_Lock = None -> holds (vw_left w tree) pinned) /\ (vw_meanwhile w M_Snapshot = None -> snapshot = pinned)
  | None => exists checked, composed_lock_failure from_slice checked = Ok tt /\
      (vw_meanwhile w M_Evaluation = None -> holds tree checked /\
        (vw_meanwhile w M_Lock = None -> vw_meanwhile w M_Snapshot = None -> snapshot = checked))
  end.
Lemma evaluate_prepared_ok w r prepared d e d' :
  (forall owned, pf_lock prepared = OwnedMissing owned -> ~ staged pid owned /\ owned <> pf_directory prepared /\ ~ staged pid (pf_directory prepared)) ->
  evaluate_prepared w r prepared d = (Ok e, d') ->
  el_directory e = pf_directory prepared /\ retains d' (el_directory e) (el_snapshot e) /\
  (forall p, el_created e = Some p -> pf_lock prepared = OwnedMissing p) /\
  exists tree out err a, vw_nix w tree (bool_decide (el_created e = None)) = NixEnded true out err /\ vw_report w out = Some a /\
    el_analysis e = with_manifest_workspaces (analyze a) (Manifest.workspaces (rl_manifest r)) (ra_name (rl_selected r)) /\
    locked_by w (el_created e) tree d' (el_snapshot e).
Proof.
  intros Hpaths H. unfold Evaluate.evaluate_prepared in H.
  apply sbind_split in H as [(u0 & d0 & Hi0 & H)|(x & _ & [=])]. apply sbind_split in H as [([] & d1 & H0 & H)|(x & _ & [=])].
  destruct (check_in_force_ok _ _ _ _ H0) as [-> Hforce]. specialize (Hforce eq_refl).
  apply sbind_split in H as [(u1 & d2 & Hi1 & H)|(x & _ & [=])]. apply interpose_ok in Hi1 as (_ & Hq1 & _).
  apply sbind_split in H as [(a & d3 & H1 & H)|(x & _ & [=])]. apply report_ok in H1 as (Hafter & Hframe & Hans). destruct (Hans a eq_refl) as (out & err & Hnix & Ha).
  apply sbind_split in H as [(u2 & d4 & Hi2 & H)|(x & _ & [=])]. apply interpose_ok in Hi2 as (_ & Hq2 & Hf2).
  apply sbind_split in H as [(lock & d5 & H2 & H)|(x & _ & [=])].
  apply sbind_split in H as [(u3 & d6 & Hi3 & H)|(x & _ & [=])]. apply interpose_ok in Hi3 as (_ & Hq3 & Hf3).
  apply sbind_split in H as [(snapshot & d7 & H3 & H)|(x & _ & [=])]. apply read_staged_lock_ok in H3 as [-> Hr]. specialize (Hr _ eq_refl).
  injection H as <- <-. cbn [el_directory el_snapshot el_created el_analysis]. split; [done|]. split; [done|].
  unfold Evaluate.persist_first_pin in H2. destruct (may_persist_created (pf_lock prepared)) eqn:Emay; cbn [negb andb] in *.
  - destruct (pf_lock prepared) as [o|o|owned] eqn:Elock; [done..|]. destruct (Hpaths owned eq_refl) as (Hso & Hne & Hsd).
    destruct (first_pin_replaces_nothing _ _ _ _ _ _ Hso Elock _ _ _ H2) as [(_ & _ & _ & Hpin & _) Hpinned].
    destruct (Hpinned lock eq_refl) as [-> (contents & Hg & Hv & Ho)]. split; [by intros p [= <-]|].
    exists (at_path d2 (pf_directory prepared)), out, err, a. split; [by rewrite bool_decide_false|]. split; [done|]. split; [done|].
    exists contents. split; [by rewrite Hf3 by done|]. split; [done|]. split.
    + intros Hm. rewrite (Hq2 Hm) in Hg. unfold holds. rewrite <- Hg. unfold generated. rewrite Hafter, Hnix. done.
    + intros Hm. unfold retains in Hr. rewrite (Hq3 Hm), Hpin in Hr by congruence. unfold generated in Hg. rewrite Hg in Hr. by injection Hr.
  - injection H2 as <- <-. split; [done|]. destruct (Hforce eq_refl) as (contents & Hg & Hv).
    exists (at_path d2 (pf_directory prepared)), out, err, a. split; [by rewrite bool_decide_true|]. split; [done|]. split; [done|].
    exists contents. split; [done|]. intros Hm1. rewrite (Hq1 Hm1) in *. split; [exact Hg|]. intros Hm2 Hm3. rewrite (Hq3 Hm3), (Hq2 Hm2) in Hr.
    unfold retains in *. rewrite Hafter in Hr. congruence.
Qed.
(** C34: The lock an evaluation retains.  It is what the published tree holds at the last read.  A pin it creates is the target's
    owned lock and passed the composed rule; it is the lock Nix left, and what is retained, as far as no other command
    publishes the tree before it is installed, and before the last read.  A lock in force passed the rule before Nix ran;
    as long as no other command publishes the tree behind that check it is what Nix read and what is retained. *)
Theorem evaluated_under_the_lock_it_retains w r d e d' : evaluate_resolved w r d = (Ok e, d') ->
  retains d' (el_directory e) (el_snapshot e) /\
  exists paths tree out err a, target_paths roots (ra_name (rl_selected r)) DEFAULT_TARGET (rl_selected r) = Ok paths /\
    el_directory e = gp_directory paths /\ (forall p, el_created e = Some p -> p = owned_lock paths) /\
    vw_nix w tree (bool_decide (el_created e = None)) = NixEnded true out err /\ vw_report w out = Some a /\
    el_analysis e = with_manifest_workspaces (analyze a) (Manifest.workspaces (rl_manifest r)) (ra_name (rl_selected r)) /\
    locked_by w (el_created e) tree d' (el_snapshot e).
Proof.
  intros H. unfold Evaluate.evaluate_resolved in H. apply sbind_split in H as [(prepared & d1 & Hp & H)|(e1 & _ & [=])].
  destruct (prepared_paths _ _ _ _ _ _ _ _ _ _ _ Hp) as (paths & Hpaths & Hdir & Howned).
  destruct (target_paths_last _ _ _ _ _ (eq_refl : is_absolute DEFAULT_TARGET = false) eq_refl Hpaths) as [Hk Ht].
  destruct (evaluate_prepared_ok _ _ _ _ _ _ (ltac:(intros owned ->%Howned; rewrite Hdir; split_and!;
    [intros [E|E]%staged_last; congruence|congruence|intros [E|E]%staged_last; congruence])) H) as (Hd & Hr & Hc & tree & out & err & a & Hrest).
  split; [done|]. exists paths, tree, out, err, a. split; [done|]. split; [congruence|]. split; [|done]. intros p Hcr. by apply Howned, Hc.
Qed.
(** An evaluation Nix refuses, or whose answer cannot be read, installs no pin: nothing but the published tree changes. *)
Theorem refused_evaluation_pins_nothing w r prepared d :
  (forall tree b, match vw_nix w tree b with NixEnded true out _ => vw_report w out = None | _ => True end) ->
  exists f, fst (evaluate_prepared w r prepared d) = Err f /\ forall q, q <> pf_directory prepared -> at_path (snd (evaluate_prepared w r prepared d)) q = at_path d q.
Proof.
  intros Hnix. destruct (evaluate_prepared w r prepared d) as [res d'] eqn:H. cbn [fst snd]. unfold Evaluate.evaluate_prepared in H.
  apply sbind_split in H as [(u0 & d0 & Hi0 & H)|(e & Hi0 & ->)]; apply interpose_ok in Hi0 as (Hu0 & _ & Hf0); [|done].
  apply sbind_split in H as [([] & d1 & H0 & H)|(e & H0 & ->)]; destruct (check_in_force_ok _ _ _ _ H0) as [-> _]; [|by exists e].
  apply sbind_split in H as [(u1 & d2 & Hi1 & H)|(e & Hi1 & ->)]; apply interpose_ok in Hi1 as (Hu1 & _ & Hf1); [|done].
  apply sbind_split in H as [(a & d3 & H1 & H)|(e & H1 & ->)]; apply report_ok in H1 as (_ & Hframe & Hans).
  - exfalso. destruct (Hans a eq_refl) as (out & err & En & Er). specialize (Hnix (at_path d2 (pf_directory prepared)) (negb (may_persist_created (pf_lock prepared)))).
    rewrite En in Hnix. congruence.
  - exists e. split; [done|]. intros q Hq. by rewrite Hframe, Hf1, Hf0.
Qed.
End pinned.

(* ------------------------------------------------------------------ *)
(** * The readers and the launch agree *)

Section readers.
Context (fault : string -> bytes -> option io_kind) (rival remains : bytes -> option tree) (source_at : bytes -> source) (pid : Z).
Context (from_slice : bytes -> option Value) (toml : toml_parser) (to_vec_pretty : Value -> option bytes) (probe_report : bytes -> option ProbeReport).
Context (OPTIONS_MODULE REPORT_MODULE : bytes) (EMBEDDED_TREE : list (bytes * bytes)) (roots : XdgRoots).
Notation config_eval :=
  (Evaluate.config_eval fault rival remains source_at pid from_slice toml to_vec_pretty probe_report OPTIONS_MODULE REPORT_MODULE EMBEDDED_TREE roots).
Notation config_sources :=
  (Evaluate.config_sources fault rival remains source_at pid from_slice toml to_vec_pretty probe_report OPTIONS_MODULE REPORT_MODULE EMBEDDED_TREE roots).
Notation evaluate_resolved_for_launch :=
  (Evaluate.evaluate_resolved_for_launch fault rival remains source_at pid from_slice toml to_vec_pretty probe_report OPTIONS_MODULE REPORT_MODULE EMBEDDED_TREE
    roots).

Lemma refuse_defects_ok e e' : refuse_defects e = Ok e' <-> e' = e /\ is_defective (el_analysis e) = false.
Proof.
  unfold refuse_defects. rewrite <- defect_failure_spec. destruct (defect_failure (el_analysis e)); [by split; [|intros []]|].
  split; [by intros [= <-]|by intros [-> _]].
Qed.
Lemma option_max_bound a b m : (forall n, a = Some n -> n <= m) -> (forall n, b = Some n -> n <= m) -> forall n, option_max a b = Some n -> n <= m.
Proof.
  intros Ha Hb n. destruct a as [a|], b as [b|]; cbn [option_max]; intros [= <-]; [|by apply Ha|by apply Hb].
  specialize (Ha _ eq_refl). specialize (Hb _ eq_refl). lia.
Qed.
Lemma u32_of_bound v n : (let* n := as_u64 v in u32_of n) = Some n -> n <= u32_max.
Proof. destruct (as_u64 v) as [x|]; [|done]. cbn. unfold u32_of. destruct (x <=? u32_max) eqn:E; [|done]. intros [= <-]. by apply Z.leb_le. Qed.
Lemma declared_size_bound item n : declared_size item = Some n -> n <= u32_max.
Proof. unfold declared_size. destruct (vget item (bs "size_gib")) as [v|]; [|done]. apply u32_of_bound. Qed.
Lemma merged_volume_bound a name v n : find_volume name (merged_volumes a) = Some v -> Volumes.v_size_gib v = Some n -> n <= u32_max.
Proof.
  rewrite (proj2 (volumes_are_declared_once a)). unfold declared_volume. destruct (named_items name (volume_items a)) as [|i rest]; [done|].
  intros [= <-]. cbn [Volumes.v_size_gib]. assert (Hi : forall n, declared_size (snd i) = Some n -> n <= u32_max) by apply declared_size_bound.
  revert Hi. generalize (declared_size (snd i)). induction rest as [|j rest IH]; intros o Ho; cbn [fold_left]; [apply Ho|].
  apply IH. apply option_max_bound; [done|apply declared_size_bound].
Qed.
Lemma merged_resources_bound a r n : merged_resources a = Some r -> d_mem_mib r = Some n \/ d_vcpu r = Some n -> n <= u32_max.
Proof.
  unfold merged_resources. cbv zeta beta.
  assert (Hread : forall key n, (let* v := effective a (bs key) in let* n := as_u64 v in u32_of n) = Some n -> n <= u32_max)
    by (intros key m; destruct (effective a (bs key)) as [v|]; [apply u32_of_bound|done]).
  pose proof (Hread "resources.mem_mib"%string) as H1. pose proof (Hread "resources.vcpu"%string) as H2.
  destruct (let* v := effective a (bs "resources.mem_mib") in _) as [mem|], (let* v := effective a (bs "resources.vcpu") in _) as [cpu|];
    intros [= <-]; cbn [d_mem_mib d_vcpu]; (intros [[= <-]|[= <-]]; first [by apply H1|by apply H2]).
Qed.
(** Over one disk the readers and a launch see one answer.  [viv config sources] shows it whatever it holds; [viv config
    eval] refuses a defective one; and a launch goes on from exactly an answer [viv config eval] shows, from that tree and
    that lock, with sizes that fit their width. *)
Theorem readers_and_launch_agree sockets w r d :
  let sources := config_sources (Ok r) w d in
  config_eval (Ok r) w d = (rbind (fst sources) refuse_defects, snd sources) /\
  (forall e, fst (config_eval (Ok r) w d) = Ok e <-> fst sources = Ok e /\ is_defective (el_analysis e) = false) /\
  forall i, fst (evaluate_resolved_for_launch sockets w r d) = Ok i ->
    exists e, fst (config_eval (Ok r) w d) = Ok e /\ li_directory i = el_directory e /\ li_snapshot i = el_snapshot e /\
      sockets (merged_credentials (el_analysis e)) = Ok tt /\
      (forall name, find_volume name (li_volumes i) = declared_volume name (volume_items (el_analysis e))) /\
      (forall name v n, find_volume name (li_volumes i) = Some v -> Volumes.v_size_gib v = Some n -> n <= u32_max) /\
      (forall c n, li_resources i = Some c -> d_mem_mib c = Some n \/ d_vcpu c = Some n -> n <= u32_max).
Proof.
  cbv zeta. assert (Heval : config_eval (Ok r) w d = (rbind (fst (config_sources (Ok r) w d)) refuse_defects, snd (config_sources (Ok r) w d))).
  { unfold Evaluate.config_eval, Evaluate.config_sources. unfold sbind at 1. destruct (evaluate_binding _ _ _ _ _ _ _ _ _ _ _ _ _ _ _ d) as [[e|f] d']; [|done].
    unfold answer_of. done. }
  rewrite Heval. cbn [fst]. split; [done|].
  assert (Hiff : forall e, rbind (fst (config_sources (Ok r) w d)) refuse_defects = Ok e <-> fst (config_sources (Ok r) w d) = Ok e /\ is_defective (el_analysis e) = false).
  { intros e. destruct (fst (config_sources (Ok r) w d)) as [x|f]; cbn [rbind]; [|by split; [|intros []]]. rewrite refuse_defects_ok.
    split; [by intros [-> ?]|]. by intros [[= ->] ?]. }
  split; [exact Hiff|]. intros i Hi. unfold Evaluate.evaluate_resolved_for_launch in Hi. unfold sbind at 1 in Hi.
  assert (Hsrc : config_sources (Ok r) w d =
    evaluate_resolved fault rival remains source_at pid from_slice toml to_vec_pretty probe_report OPTIONS_MODULE REPORT_MODULE EMBEDDED_TREE roots w r d) by done.
  rewrite <- Hsrc in Hi. destruct (config_sources (Ok r) w d) as [[e|f] d']; [|done]. cbn [fst] in *.
  unfold answer_of, launch_inputs in Hi. destruct (refuse_defects e) as [e'|f] eqn:Er; cbn [rbind] in Hi; [|done].
  apply refuse_defects_ok in Er as [-> Hd]. destruct (sockets (merged_credentials (el_analysis e))) as [[]|f] eqn:Es; cbn [rbind] in Hi; [|done].
  injection Hi as <-. exists e. cbn [li_directory li_snapshot li_volumes li_resources rbind]. split; [by apply refuse_defects_ok|].
  split_and!; [done|done|done|apply volumes_are_declared_once|intros name v n; by apply merged_volume_bound|intros c n; by apply merged_resources_bound].
Qed.
End readers.

(* ------------------------------------------------------------------ *)
(** * Concrete runs *)

(** A report of no key; one layer's volumes over another's. *)
Definition demo_row (name : string) : Value := VObject [(bs "mount", VString (bs "/data")); (bs "name", VString (bs name))].
Definition demo_report : Report :=
  mk_Report [(bs "volumes", mk_KeyReport ListClass true (VArray [demo_row "kept"]))]
    [mk_LayerReport (bs "base") Merged.LK_Extends [(bs "volumes", mk_Definition 1000 (VArray [demo_row "shadowed"]))];
     mk_LayerReport (bs "m") Merged.LK_Manifest [(bs "volumes", mk_Definition 100 (VArray [demo_row "kept"]))]].
(** A first evaluation: there is no lock, and Nix leaves one. *)
Definition demo_first : ResolvedForLaunch := mk_ResolvedForLaunch (mk_ResolvedBinding (bs "m") Derived) demo_selected (bs "...") demo_plain None [] None.
Definition demo_evaluate_world (republished : option (option tree)) : evaluate_world :=
  mk_evaluate_world (demo_flake_host "/nowhere") (fun _ => None) (fun _ _ => NixEnded true [] [])
    (fun _ => Some (T_Dir [(LOCK_FILE, T_File (bs "new"))])) (fun m => match m with M_Snapshot => republished | _ => None end) (fun _ => Some demo_report).
Notation demo_evaluate republished :=
  (evaluate_resolved no_faults nobody nobody demo_sources 7 demo_from_slice (demo_toml "assets") (fun _ => None) (fun _ => None)
    (bs "{ }") (bs "{ }") [(bs "nix/default.nix", bs "{ }")] demo_roots (demo_evaluate_world republished) demo_first (mk_disk nobody [] 0)).
Definition demo_answer (snapshot : string) : Evaluated :=
  mk_Evaluated (mk_ResolvedBinding (bs "m") Derived) demo_plain (Some demo_lock) (with_manifest_workspaces (analyze demo_report) [bs "~/w"] (bs "m"))
    (bs "/k/flakes/m/default") (bs snapshot).
Lemma demo_evaluated : fst (demo_evaluate None) = Ok (demo_answer "new").
Proof. vm_compute. reflexivity. Qed.
Lemma evaluated_under_the_lock_it_retains_witness : at_path (snd (demo_evaluate None)) demo_lock = Some (T_File (bs "new")).
Proof.
  pose proof demo_evaluated as Hok. destruct (demo_evaluate None) as [res d'] eqn:E. cbn [fst snd] in *. subst res.
  destruct (evaluated_under_the_lock_it_retains no_faults nobody nobody demo_sources 7 demo_from_slice (demo_toml "assets") (fun _ => None) (fun _ => None)
    (bs "{ }") (bs "{ }") [(bs "nix/default.nix", bs "{ }")] demo_roots (demo_evaluate_world None) demo_first (mk_disk nobody [] 0) (demo_answer "new") d' E)
    as (_ & paths & tree & out & err & a & _ & _ & _ & _ & _ & _ & pinned & Hp & _ & _ & Hs).
  change (Some (T_File (bs "new"))) with (Some (T_File (el_snapshot (demo_answer "new")))). by rewrite (Hs eq_refl).
Defined.
(** What is retained is read after the evaluation, not when the tree was published: another command's publication in
    between is what the generation retains, here a lock this evaluation never saw and the composed rule was never put to. *)
Theorem snapshot_can_be_anothers : exists republished, fst (demo_evaluate republished) = Ok (demo_answer "other") /\
  at_path (snd (demo_evaluate republished)) demo_lock = Some (T_File (bs "new")).
Proof. exists (Some (Some (T_Dir [(LOCK_FILE, T_File (bs "other"))]))). vm_compute. done. Qed.
(** A volume list that a stronger one replaces is still declared: the merge has one volume, and two are recorded. *)
Theorem shadowed_volume_is_recorded : let a := analyze demo_report in
  is_defective a = false /\ effective a (bs "volumes") = Some (VArray [demo_row "kept"]) /\ map Volumes.v_name (merged_volumes a) = [bs "shadowed"; bs "kept"].
Proof. vm_compute. done. Qed.
