(* ===== verification/Render.v ===== *)
(** * The presentation layer ([src/src/ui/], [src/src/cli/render.rs])

    The face an invocation speaks through, the layout of tables, and the spelling of every result: one JSON record on one
    line, or text a palette decorates.  What the [console] crate makes of a span, how wide it measures a text, and the
    printer of serde_json are parameters; paths and names are UTF-8, so they are printed as they are.  The sentences of a
    finding of [viv doctor] are parameters too. *)
From S2P Require Import Prelude Bytes Paths Ordered Message Ip Allowlist Spec Diagnostic Grammar Lifecycle Roots Toml Artifact Manifest Json Volumes Merged Binding Generations Reclaim Doctor.

(* ------------------------------------------------------------------ *)
(** ** Color *)

(** Present with a non-empty value. *)
Definition set (variable : bytes -> option bytes) (name : string) : bool :=
  match variable (bs name) with Some value => negb (bool_decide (value = [])) | None => false end.
Definition colors_enabled (is_tty : bool) (variable : bytes -> option bytes) : bool :=
  if set variable "NO_COLOR" then false else if set variable "FORCE_COLOR" then true else is_tty.

(** The roles a span may have, each as what applying its style does. *)
Record Palette := mk_Palette {
  pl_error : bytes -> bytes; pl_id : bytes -> bytes; pl_what : bytes -> bytes; pl_locus : bytes -> bytes; pl_label : bytes -> bytes;
  pl_hint : bytes -> bytes; pl_accent : bytes -> bytes; pl_good : bytes -> bytes; pl_warn : bytes -> bytes }.
Definition unstyled (s : bytes) : bytes := s.
Definition plain : Palette := mk_Palette unstyled unstyled unstyled unstyled unstyled unstyled unstyled unstyled unstyled.
(** The slots of a diagnostic, out of the roles. *)
Definition diagnostic_palette (p : Palette) : Diagnostic.Palette :=
  Diagnostic.mk_Palette (pl_error p) (pl_id p) (pl_what p) (pl_locus p) (pl_label p) (pl_hint p).
Definition palette_resolve (colored : Palette) (enabled : bool) : Palette := if enabled then colored else plain.

(* ------------------------------------------------------------------ *)
(** ** The face *)

(** The levels in their order. *)
Definition level_rank (v : Verbosity) : Z := match v with Quiet => 0 | Normal => 1 | Verbose => 2 | Debug => 3 | Trace => 4 end.
Record Ui := mk_Ui { animate : bool; ui_verbosity : Verbosity; palette : Palette; palette_out : Palette; gutter : bool }.
Definition ui_resolve (colored : Palette) (stdout_is_tty stderr_is_tty : bool) (variable : bytes -> option bytes) (v : Verbosity)
    (machine_output : bool) : Ui :=
  mk_Ui (stderr_is_tty && (1 <=? level_rank v) && negb machine_output) v
    (palette_resolve colored (colors_enabled stderr_is_tty variable)) (palette_resolve colored (colors_enabled stdout_is_tty variable)) false.
(** What reaches standard error: a text, or a mark of the frame of a long command. *)
Inductive shown_mark := Printed (s : bytes) | FrameOpened (title : bytes) | FrameClosed (message : bytes) | FrameCancelled | StepClosed (message : bytes)
  | SpinnerShown (title : bytes) | SpinnerErased.
Definition with_gutter (u : Ui) (b : bool) : Ui := mk_Ui (animate u) (ui_verbosity u) (palette u) (palette_out u) b.
Definition trim_end (s : bytes) : bytes := trim_with strip_suffix (length s) s.
Definition warn (u : Ui) (message : bytes) : list shown_mark :=
  if 0 <? level_rank (ui_verbosity u) then [Printed (pl_warn (palette u) message ++ newline)] else [].
Definition note (u : Ui) (notes : bytes) : Ui * list shown_mark :=
  if bool_decide (notes = []) || (level_rank (ui_verbosity u) =? 0) then (u, [])
  else if animate u && gutter u then (with_gutter u false, [FrameClosed (trim_end notes)])
  else (u, [Printed notes]).
Definition intro (u : Ui) (title : bytes) : Ui * list shown_mark := if animate u then (with_gutter u true, [FrameOpened title]) else (u, []).
Definition outro (u : Ui) (message : bytes) : Ui * list shown_mark := if animate u then (with_gutter u false, [FrameClosed message]) else (u, []).
Definition cancel (u : Ui) : Ui * list shown_mark := if animate u && gutter u then (with_gutter u false, [FrameCancelled]) else (u, []).
(** One step: its opening, the lines of a child it passes on, and its end. *)
Definition step_open (u : Ui) (title : bytes) : list shown_mark := if animate u then [SpinnerShown title] else [].
Definition step_line (u : Ui) (line : bytes) : list shown_mark :=
  if level_rank (ui_verbosity u) <? 2 then [] else [Printed (pl_label (palette u) line ++ newline)].
Definition step_done (u : Ui) (message : bytes) : list shown_mark := if animate u then [SpinnerErased; StepClosed message] else [].
Definition step_drop (u : Ui) : list shown_mark := if animate u then [SpinnerErased] else [].

(* ------------------------------------------------------------------ *)
(** ** Layout *)

Definition spaces (n : nat) : bytes := repeat " "%byte n.
(** [{:<width$}] counts characters. *)
Definition chars (s : bytes) : nat := length (List.filter starts_char s).
Definition pad (width : nat) (s : bytes) : bytes := s ++ spaces (width - chars s).
Definition list_max_nat (l : list nat) : nat := foldr Nat.max 0%nat l.

Section layout.
Context (measure_text_width : bytes -> nat).
(** One cell against the widths so far; [None] is an index out of bounds. *)
Definition widen (widths : option (list nat)) (index : nat) (width : nat) : option (list nat) :=
  let* widths := widths in
  if (index =? length widths)%nat then Some (widths ++ [width])
  else let* w := widths !! index in Some (if (w <? width)%nat then <[index := width]> widths else widths).
Definition widen_row (widths : option (list nat)) (row : list bytes) : option (list nat) :=
  fold_left (fun ws '(index, cell) => widen ws index (measure_text_width cell)) (zip (seq 0 (length row)) row) widths.
Definition column_widths (rows : list (list bytes)) : option (list nat) := fold_left widen_row rows (Some []).
(** The cells of one row; the last is not padded. *)
Fixpoint row_line (widths : list nat) (first : bool) (row : list bytes) {struct row} : option bytes :=
  match row with
  | [] => Some []
  | cell :: rest =>
      let lead := if first then [] else bs "  " in
      match rest with
      | [] => Some (lead ++ cell)
      | _ :: _ =>
          match widths with
          | [] => None
          | w :: widths => let* rest := row_line widths false rest in Some (lead ++ cell ++ spaces (w - measure_text_width cell) ++ rest)
          end
      end
  end.
Fixpoint row_lines (widths : list nat) (rows : list (list bytes)) {struct rows} : option bytes :=
  match rows with
  | [] => Some []
  | row :: rows => let* line := row_line widths true row in let* rest := row_lines widths rows in Some (trim_end line ++ newline ++ rest)
  end.
Definition columns (rows : list (list bytes)) : option bytes := let* widths := column_widths rows in row_lines widths rows.
End layout.

(** Label and value; a label is ASCII, so its length is its characters. *)
Definition record (p : Palette) (rows : list (bytes * bytes)) : bytes :=
  let width := list_max_nat (map (fun r => length (fst r)) rows) in
  concat (map (fun r => pl_label p (pad width (fst r)) ++ bs "  " ++ snd r ++ newline) rows).

(** A state as one glyph and its word. *)
Definition state_view (p : Palette) (s : bytes) : bytes :=
  let style :=
    if bytes_eqb s (bs "running") then pl_good p
    else if bytes_eqb s (bs "failed") then pl_error p
    else if bytes_eqb s (bs "starting") || bytes_eqb s (bs "stopping") then pl_warn p
    else if bytes_eqb s (bs "built") then pl_accent p else pl_label p in
  style (bs "●") ++ bs " " ++ s.
Definition GIB : Z := 1024 * 1024 * 1024.
Definition human_bytes (count : Z) : bytes :=
  if GIB <=? count then
    let tenths := count / (GIB / 10) in
    if tenths mod 10 =? 0 then dec (tenths / 10) ++ bs " GiB" else dec (tenths / 10) ++ bs "." ++ dec (tenths mod 10) ++ bs " GiB"
  else if MIB <=? count then dec (count / MIB) ++ bs " MiB"
  else dec count ++ bs " B".
Definition duration (seconds : Z) : bytes :=
  let hours := seconds / 3600 in let minutes := seconds mod 3600 / 60 in let rest := seconds mod 60 in
  if 0 <? hours then dec hours ++ bs "h " ++ dec minutes ++ bs "m"
  else if 0 <? minutes then dec minutes ++ bs "m " ++ dec rest ++ bs "s" else dec rest ++ bs "s".

(* ------------------------------------------------------------------ *)
(** ** Help *)

Definition usage_text (u : usage) : bytes :=
  match u with
  | TOP_USAGE => bs "viv <config|manifest|start|status|shell|exec|stop|trim|generations|memory|volume|destroy|gc|update|doctor> [options]"
  | CONFIG_USAGE => bs "viv config [--manifest <name>] [--json]"
  | CONFIG_EVAL_USAGE => bs "viv config eval [--json]"
  | CONFIG_SOURCES_USAGE => bs "viv config sources [--json]"
  | MANIFEST_USAGE => bs "viv manifest <list|show <name>> [--json]"
  | START_USAGE => bs "viv start [--rebuild|--no-rebuild] [--generation <n>] [--attach] [--json]"
  | STATUS_USAGE => bs "viv status [--json] [-g|--global]"
  | SHELL_USAGE => bs "viv shell"
  | EXEC_USAGE => bs "viv exec [-t|--tty] [-T|--no-tty] [--env KEY[=VAL]]... -- <command> [args...]"
  | STOP_USAGE => bs "viv stop [--all] [--force] [-t|--timeout <secs>] [--json]"
  | TRIM_USAGE => bs "viv trim [--json]"
  | MEMORY_USAGE => bs "viv memory trim [--to <MiB>] [--json]"
  | VOLUME_USAGE => bs "viv volume <list|trim|prune> [options]"
  | VOLUME_LIST_USAGE => bs "viv volume list [--json]"
  | VOLUME_TRIM_USAGE => bs "viv volume trim [<name>] [--json]"
  | VOLUME_PRUNE_USAGE => bs "viv volume prune [-n|--dry-run] [-f|--yes] [--json]"
  | DESTROY_USAGE => bs "viv destroy [-f|--yes] [--keep-volumes] [--json]"
  | GENERATIONS_USAGE => bs "viv generations <list|activate|rollback|prune> [options]"
  | GENERATIONS_LIST_USAGE => bs "viv generations list [--json]"
  | GENERATIONS_ACTIVATE_USAGE => bs "viv generations activate <n> [--json]"
  | GENERATIONS_ROLLBACK_USAGE => bs "viv generations rollback [--json]"
  | GENERATIONS_PRUNE_USAGE => bs "viv generations prune (--keep <n> | --older-than <dur>) [--json]"
  | GC_USAGE => bs "viv gc [--json]"
  | UPDATE_USAGE => bs "viv update [<input>...] [--json]"
  | DOCTOR_USAGE => bs "viv doctor [--json] [--strict] [--list] [--online]"
  end.
(** A verb, its usage and one line about it. *)
Definition COMMANDS : list (bytes * usage * bytes) := [
  (bs "config", CONFIG_USAGE, bs "show the binding, its paths, and the merged configuration");
  (bs "manifest", MANIFEST_USAGE, bs "list and show the manifest library");
  (bs "start", START_USAGE, bs "evaluate, build, and boot this project's VM");
  (bs "status", STATUS_USAGE, bs "report what the VM is doing");
  (bs "shell", SHELL_USAGE, bs "open a shell inside the guest");
  (bs "exec", EXEC_USAGE, bs "run one command inside the guest");
  (bs "stop", STOP_USAGE, bs "bring the VM down");
  (bs "trim", TRIM_USAGE, bs "reclaim guest memory and volume space in one invocation");
  (bs "generations", GENERATIONS_USAGE, bs "list, switch, and prune retained builds");
  (bs "memory", MEMORY_USAGE, bs "reclaim memory the VM holds but no longer needs");
  (bs "volume", VOLUME_USAGE, bs "list, trim, and prune this project's volumes");
  (bs "destroy", DESTROY_USAGE, bs "remove the VM and its state");
  (bs "gc", GC_USAGE, bs "collect unreferenced build outputs");
  (bs "update", UPDATE_USAGE, bs "re-resolve pinned build inputs and rewrite the lockfile");
  (bs "doctor", DOCTOR_USAGE, bs "diagnose the host and project setup")].
Definition GLOBAL_FLAGS : list (bytes * bytes) := [
  (bs "-v, --verbose", bs "more stderr detail; stackable"); (bs "-q, --quiet", bs "suppress progress; errors still print");
  (bs "-h, --help", bs "this summary, or one command's usage"); (bs "--version", bs "the version")].
Definition help_summary (p : Palette) : bytes :=
  pl_accent p (bs "viv") ++ bs " — each project in its own microVM" ++ newline ++ newline ++
  pl_label p (bs "usage:") ++ bs " viv <command> [options]" ++ newline ++ newline ++
  pl_label p (bs "commands:") ++ newline ++
  concat (map (fun '(name, _, blurb) => bs "  " ++ pl_accent p (pad 12 name) ++ bs " " ++ blurb ++ newline) COMMANDS) ++
  newline ++ pl_label p (bs "global flags:") ++ newline ++
  concat (map (fun '(flag, blurb) => bs "  " ++ pl_accent p (pad 14 flag) ++ bs " " ++ blurb ++ newline) GLOBAL_FLAGS) ++
  newline ++ bs "run `viv <command> --help` for one command's flags; `--json` on a data command emits one machine record on stdout" ++ newline.
Definition help_human (p : Palette) (verb : option bytes) : bytes :=
  match (let* requested := verb in List.find (fun '(name, _, _) => bytes_eqb name requested) COMMANDS) with
  | Some (name, u, blurb) => pl_accent p name ++ bs " — " ++ blurb ++ newline ++ newline ++ pl_label p (bs "usage:") ++ bs " " ++ usage_text u ++ newline
  | None => help_summary p
  end.

(* ------------------------------------------------------------------ *)
(** ** The records *)

(** [json!] of an object: the entries by their names, in order. *)
Definition obj (fields : list (string * Value)) : Value := VObject (fold_left (fun o f => map_insert (bs (fst f)) (snd f) o) fields []).
Definition str (s : bytes) : Value := VString s.
Definition num (n : Z) : Value := VNumber (PosInt n).
Definition nullable {A} (f : A -> Value) (a : option A) : Value := match a with Some a => f a | None => VNull end.
Definition strs (l : list bytes) : Value := VArray (map VString l).
(** An [f64]; one that is not finite has no JSON number. *)
Inductive f64 := Finite (value : Z) | NonFinite.
Definition float (x : f64) : Value := match x with Finite v => VNumber (Float v) | NonFinite => VNull end.
(** The marks of a status. *)
Record RuntimeReadings := mk_RuntimeReadings {
  mem_used_bytes : option Z; disk_allocated_bytes : option Z; disk_virtual_bytes : option Z; sessions : option Z; pressure_some_avg60 : option f64 }.
Record StatusReport := mk_StatusReport {
  sr_manifest : option bytes; sr_state : State; sr_reason : option bytes; sr_stale : bool; sr_store_path : option bytes; sr_generation : option Z;
  sr_uptime_seconds : option Z; sr_resources : option Lifecycle.Resources; sr_runtime : RuntimeReadings; sr_record_skew : option Z }.

Definition source_str (s : BindingSource) : bytes := match s with Flag => bs "flag" | FromEnvironment => bs "env" | Derived => bs "derived" end.
Definition layer_str (k : LayerKind) : bytes :=
  match k with LK_Image => bs "image" | LK_Piece => bs "piece" | LK_Extends => bs "extends" | LK_Manifest => bs "manifest" end.
Definition priority_str (p : Priority) : bytes := match p with MkForce => bs "mkForce" | NormalPriority => bs "normal" | MkDefault => bs "mkDefault" end.
Definition conflict_str (k : ConflictKind) : bytes :=
  match k with Tie => bs "tie" | LiteralPath => bs "literal-path" | SessionPath => bs "session-path" | NonPortableVariable => bs "non-portable-variable" end.
Definition egress_mode (m : EgressMode) : bytes := match m with Open => bs "open" | AllowlistMode => bs "allowlist" end.

Definition binding_json (b : ResolvedBinding) (r : XdgRoots) (flake lock : bytes) : Value :=
  obj [("manifest", str (rb_manifest b)); ("source", str (source_str (rb_source b)));
       ("paths", obj [("config", str (config r)); ("state", str (state r)); ("data", str (data r)); ("cache", str (cache r));
                      ("flake", str flake); ("lock", str lock)])]%string.
(** [configuration] has no answer where its [unreachable!] is reached. *)
Definition config_eval_json (b : ResolvedBinding) (m : Manifest.Manifest) (a : Analysis) : option Value :=
  let* merged := configuration a in
  Some (obj [("manifest", str (rb_manifest b)); ("image", str (Manifest.image m)); ("pieces", strs (Manifest.pieces m)); ("config", merged)]%string).
Definition contributor_json (c : Contributor) : Value :=
  obj [("layer", str (c_layer c)); ("kind", str (layer_str (c_kind c))); ("priority", str (priority_str (c_priority c)));
       ("value", c_value c); ("winner", VBool (c_winner c))]%string.
Definition view_json (v : KeyView) : Value :=
  obj [("effective", default VNull (kv_effective v)); ("winner", nullable str (kv_winner v));
       ("contributors", VArray (map contributor_json (kv_contributors v)))]%string.
Definition conflict_json (c : Conflict) : Value :=
  obj [("kind", str (conflict_str (cf_kind c))); ("key", str (cf_key c)); ("layers", strs (cf_layers c))]%string.
Definition config_sources_json (b : ResolvedBinding) (m : Manifest.Manifest) (a : Analysis) : Value :=
  let values := fold_left (fun o v => map_insert (kv_key v) (view_json v) o) (values a) [] in
  obj [("manifest", str (rb_manifest b)); ("image", str (Manifest.image m)); ("pieces", strs (Manifest.pieces m));
       ("values", VObject values); ("conflicts", VArray (map conflict_json (conflicts a)))]%string.
Definition library_row : Type := (bytes * ResolvedArtifact * Manifest.Manifest)%type.
Definition manifest_list_json (rows : list library_row) : Value :=
  obj [("manifests", VArray (map (fun '(name, selected, m) =>
         obj [("name", str name); ("path", str (ra_path selected)); ("image", str (Manifest.image m)); ("pieces", strs (Manifest.pieces m))]%string) rows))]%string.
Definition resources_json (r : option Manifest.Resources) : Value :=
  obj [("mem_mib", nullable num (let* r := r in Manifest.mem_mib r)); ("vcpu", nullable num (let* r := r in Manifest.vcpu r))]%string.
Definition egress_json (e : option Egress) : Value :=
  obj [("mode", nullable (fun m => str (egress_mode m)) (let* e := e in Manifest.mode e)); ("allow", strs (default [] (option_map Manifest.allow e)))]%string.
Definition manifest_show_json (name : bytes) (selected : ResolvedArtifact) (m : Manifest.Manifest) : Value :=
  obj [("manifest", str name); ("path", str (ra_path selected)); ("image", str (Manifest.image m)); ("pieces", strs (Manifest.pieces m));
       ("resources", resources_json (Manifest.resources m)); ("egress", egress_json (Manifest.egress m)); ("extends", nullable str (Manifest.extends m))]%string.

Definition wrapped (name : string) (rows : list Value) : Value := obj [(name, VArray rows)].
Definition volume_list_json : list Value -> Value := wrapped "volumes".
Definition generations_list_json : list Value -> Value := wrapped "generations".
Definition stop_all_json : list Value -> Value := wrapped "projects".
Definition volume_prune_json (rows : list Value) (reclaimed_bytes : Z) : Value := obj [("volumes", VArray rows); ("reclaimed_bytes", num reclaimed_bytes)]%string.
Definition generations_prune_json (rows : list Value) (kept : Z) : Value := obj [("generations", VArray rows); ("kept", num kept)]%string.
Definition generations_switch_json (action : bytes) (current : Z) (previous : option Z) : Value :=
  obj [("action", str action); ("current", num current); ("previous", nullable num previous)]%string.
Definition update_json (manifest lock : bytes) (rows : list Value) : Value :=
  obj [("manifest", str manifest); ("lock", str lock); ("inputs", VArray rows)]%string.
Definition gc_json (summary : option bytes) : Value := obj [("summary", nullable str summary)]%string.

Definition runtime_json (r : RuntimeReadings) : Value :=
  obj [("mem_used_bytes", nullable num (mem_used_bytes r)); ("disk_allocated_bytes", nullable num (disk_allocated_bytes r));
       ("disk_virtual_bytes", nullable num (disk_virtual_bytes r)); ("sessions", nullable num (sessions r));
       ("pressure_some_avg60", nullable float (pressure_some_avg60 r))]%string.
Definition ceiling_json (r : option Lifecycle.Resources) : Value :=
  nullable (fun r => obj [("mem_mib", num (Lifecycle.mem_mib r)); ("vcpu", num (Lifecycle.vcpu r))]%string) r.
Definition status_json (r : StatusReport) : Value :=
  obj [("manifest", nullable str (sr_manifest r)); ("state", str (state_str (sr_state r))); ("reason", nullable str (sr_reason r));
       ("stale", VBool (sr_stale r)); ("generation", nullable num (sr_generation r)); ("store_path", nullable str (sr_store_path r));
       ("uptime_seconds", nullable num (sr_uptime_seconds r)); ("resources", ceiling_json (sr_resources r));
       ("record_schema_skew", nullable (fun theirs => obj [("record", num theirs); ("binary", num LAUNCH_SCHEMA_VERSION)]%string) (sr_record_skew r));
       ("runtime", runtime_json (sr_runtime r))]%string.
Definition stop_row (manifest state : bytes) (rung : option bytes) : Value :=
  obj [("manifest", str manifest); ("state", str state); ("rung", nullable str rung)]%string.
(** The sum is a [u64]; [None] is its overflow. *)
Definition reclaimed_of (row : Value) : option Z := match vindex row (bs "reclaimed_bytes") with VNumber (PosInt n) => Some n | _ => None end.
Definition u64_sum (l : list Z) : option Z := fold_left (fun acc n => let* acc := acc in if acc + n <=? u64_max then Some (acc + n) else None) l (Some 0).
Definition volume_trim_record (rows : list Value) : option Value :=
  let* reclaimed := u64_sum (omap reclaimed_of rows) in
  Some (obj [("volumes", VArray rows); ("reclaimed_bytes", num reclaimed)]%string).
Definition memory_fields (r : MemoryTrimReading) : list (string * Value) :=
  [("target_mib", num (target_mib r)); ("mem_used_before_bytes", num (mt_before r)); ("mem_used_after_bytes", num (mt_after r));
   ("reclaimed_bytes", num (saturating_sub (mt_before r) (mt_after r)))]%string.
Definition memory_trim_record (r : MemoryTrimReading) : Value := obj (memory_fields r).
Definition memory_trim_json (manifest : bytes) (r : MemoryTrimReading) : Value := obj (("manifest"%string, str manifest) :: memory_fields r).
Definition trim_json (manifest : bytes) (memory : MemoryTrimReading) (volume_rows : list Value) : option Value :=
  let* disk := volume_trim_record volume_rows in
  Some (obj [("manifest", str manifest); ("memory", memory_trim_record memory); ("disk", disk)]%string).
Definition destroy_json (manifest : bytes) (removed spared : list bytes) (volumes_kept : bool) : Value :=
  obj [("manifest", str manifest); ("removed", strs removed); ("spared", strs spared); ("volumes_kept", VBool volumes_kept)]%string.
Definition fleet_json (projects : list Value) (host : Value) : Value := obj [("projects", VArray projects); ("host", host)]%string.

(** The rows of the volume and generation verbs. *)
Definition volume_row_json (r : Row) : Value :=
  obj [("name", str (r_name r)); ("mount", nullable str (r_mount r)); ("declared_by", nullable str (declared_by r)); ("orphan", VBool (is_orphan r));
       ("allocated_bytes", num (r_allocated r)); ("virtual_bytes", nullable num (r_virtual r))]%string.
Definition volume_row_human (r : Row) : list bytes :=
  [r_name r; default (bs "-") (r_mount r); default (bs "-") (declared_by r); if is_orphan r then bs "orphan" else bs "-"; dec (r_allocated r);
   match r_virtual r with Some n => dec n | None => bs "-" end].
Definition tab : bytes := [x09].
Definition trim_row_json (r : TrimRow) : Value :=
  obj [("name", str (tr_name r)); ("allocated_before_bytes", num (Volumes.before r)); ("allocated_after_bytes", num (Volumes.after r));
       ("reclaimed_bytes", num (saturating_sub (Volumes.before r) (Volumes.after r)))]%string.
Definition trim_row_human (r : TrimRow) : bytes :=
  tr_name r ++ tab ++ dec (Volumes.before r) ++ tab ++ dec (Volumes.after r) ++ tab ++ dec (saturating_sub (Volumes.before r) (Volumes.after r)).
Definition prune_row_json (r : Row) : Value :=
  obj [("name", str (r_name r)); ("mount", nullable str (r_mount r)); ("allocated_bytes", num (r_allocated r))]%string.
Definition prune_row_human (r : Row) : bytes := r_name r ++ tab ++ default (bs "-") (r_mount r) ++ tab ++ dec (r_allocated r).
Definition generation_row_json (sandbox_id : bytes) (g : Generation) : Value :=
  obj [("number", num (Generations.number g)); ("current", VBool (gen_current g)); ("store_path", nullable str (gen_store_path g));
       ("manifest", str (match gen_record g with Some r => Generations.manifest r | None => sandbox_id end));
       ("lock_digest", nullable str (option_map Generations.lock_digest (gen_record g)));
       ("backend", nullable str (option_map Generations.backend (gen_record g)));
       ("built_at", nullable str (option_map Generations.built_at (gen_record g)))]%string.
Definition generation_row_human (g : Generation) : list bytes :=
  [dec (Generations.number g); if gen_current g then bs "current" else bs "-"; default (bs "-") (option_map Generations.built_at (gen_record g));
   default (bs "-") (option_map Generations.lock_digest (gen_record g)); default (bs "-") (gen_store_path g)].

(* ------------------------------------------------------------------ *)
(** ** The texts *)

Section views.
Context (to_string : Value -> bytes) (measure_text_width : bytes -> nat).
Notation columns := (Render.columns measure_text_width).

(** Machine output is one value and one newline. *)
Definition line (v : Value) : bytes := to_string v ++ newline.

Definition binding_human (b : ResolvedBinding) (r : XdgRoots) (flake lock : bytes) (p : Palette) : bytes :=
  record p [(bs "manifest", pl_accent p (rb_manifest b)); (bs "source", source_str (rb_source b)); (bs "config", config r); (bs "state", state r);
            (bs "data", data r); (bs "cache", cache r); (bs "flake", flake); (bs "lock", lock)].

(** *** The merged configuration *)

(** A value worth printing. *)
Definition present (v : Value) : option Value := match v with VNull => None | VArray [] => None | v => Some v end.
Definition scalar (v : Value) : bytes := to_string v.
Definition assigned (width : nat) (key : bytes) (v : Value) : bytes := pad width key ++ bs " = " ++ scalar v ++ newline.
Definition table (rendered : bytes) (name : bytes) (entries : list (bytes * option Value)) : bytes :=
  let present := omap (fun '(key, value) => let* v := value in let* v := present v in Some (key, v)) entries in
  match present with
  | [] => rendered
  | _ =>
      let width := list_max_nat (map (fun e => length (fst e)) present) in
      rendered ++ (match rendered with [] => [] | _ => newline end) ++ bs "[" ++ name ++ bs "]" ++ newline ++
      concat (map (fun '(key, v) => assigned width key v) present)
  end.
Definition table_of (name : bytes) (fields : list string) (width : nat) (rendered : bytes) (element : Value) : bytes :=
  rendered ++ (match rendered with [] => [] | _ => newline end) ++ bs "[[" ++ name ++ bs "]]" ++ newline ++
  concat (omap (fun field => let* v := vget element (bs field) in let* v := present v in Some (assigned width (bs field) v)) fields).
Definition array_of_tables (rendered : bytes) (name : bytes) (value : option Value) (fields : list string) : bytes :=
  match (let* v := value in as_array v) with
  | None => rendered
  | Some elements => fold_left (table_of name fields (list_max_nat (map String.length fields))) elements rendered
  end.
Definition config_eval_human (a : Analysis) : bytes :=
  let entry key name := (bs key, effective a (bs name)) in
  let env := omap (fun v => let* name := strip_prefix (bs "env.") (kv_key v) in Some (name, kv_effective v)) (values a) in
  let rendered := table [] (bs "credentials") [entry "agents" "credentials.agents"]%string in
  let rendered := table rendered (bs "resources") [entry "mem_mib" "resources.mem_mib"; entry "vcpu" "resources.vcpu"]%string in
  let rendered := table rendered (bs "sandbox.egress") [entry "mode" "sandbox.egress.mode"; entry "allow" "sandbox.egress.allow"]%string in
  let rendered := table rendered (bs "env") env in
  let rendered := array_of_tables rendered (bs "workspaces") (effective a (bs "workspaces")) ["source"%string] in
  let rendered := array_of_tables rendered (bs "mounts") (effective a (bs "mounts")) ["source"; "target"; "readonly"]%string in
  let rendered := array_of_tables rendered (bs "volumes") (effective a (bs "volumes")) ["name"; "mount"; "size_gib"]%string in
  table rendered (bs "volume") [entry "size_gib" "volume.size_gib"; entry "persist" "volume.persist"]%string.
Definition standing (class : KeyClass) (winner : bool) : bytes :=
  match class with ListClass => bs "(merged)" | Scalar => if winner then bs "(winner)" else bs "(shadowed)" end.
Definition contributor_columns (c : Contributor) : bytes :=
  bs "  " ++ pad 16 (c_layer c) ++ bs " " ++ pad 9 (layer_str (c_kind c)) ++ bs " " ++ pad 10 (priority_str (c_priority c)) ++ bs " ".
Definition view_block (v : KeyView) : bytes :=
  match kv_contributors v with
  | [] => []
  | cs =>
      kv_key v ++ bs " = " ++ (match kv_effective v with Some e => scalar e | None => bs "(no value)" end) ++ newline ++
      concat (map (fun c => contributor_columns c ++ pad 12 (scalar (c_value c)) ++ bs " " ++ standing (kv_class v) (c_winner c) ++ newline) cs) ++ newline
  end.
Definition config_sources_human (a : Analysis) : bytes := concat (map view_block (values a)).
Definition tie_note (a : Analysis) (c : Conflict) : bytes :=
  match cf_kind c with
  | Tie =>
      bs "[tie] " ++ cf_key c ++ bs "   (equal priority — evaluation will fail)" ++ newline ++
      match Merged.value_of a (cf_key c) with
      | Some v => concat (map (fun c => contributor_columns c ++ scalar (c_value c) ++ newline) (kv_contributors v))
      | None => []
      end ++
      bs "  hint: a shared piece should propose with mkDefault so your manifest can" ++ newline ++
      bs "        decide; failing that, drop one piece or override through extends" ++ newline
  | _ => []
  end.
Definition tie_notes (a : Analysis) : bytes := concat (map (tie_note a) (conflicts a)).

(** *** Lists *)

Definition manifest_list_human (rows : list library_row) (p : Palette) : option bytes :=
  columns (map (fun '(name, _, m) =>
    [pl_accent p name; Manifest.image m] ++ match Manifest.pieces m with [] => [] | pieces => [pl_label p (join_comma pieces)] end) rows).
Definition accent_first (p : Palette) (row : list bytes) : list bytes := match row with [] => [] | cell :: row => pl_accent p cell :: row end.
Definition volume_list_human (rows : list (list bytes)) (p : Palette) : option bytes := columns (map (accent_first p) rows).
Definition generations_list_human : list (list bytes) -> Palette -> option bytes := volume_list_human.
Definition each_line (rows : list bytes) : bytes := concat (map (fun row => row ++ newline) rows).
Definition volume_prune_human (rows : list bytes) (reclaimed_bytes : Z) : bytes := each_line rows ++ bs "reclaimed" ++ tab ++ dec reclaimed_bytes ++ newline.
Definition generations_prune_human (rows : list (list bytes)) (kept : Z) : option bytes :=
  let* rendered := columns rows in Some (rendered ++ bs "kept" ++ tab ++ dec kept ++ newline).
Definition generations_switch_human (current : Z) (previous : option Z) : bytes :=
  match previous with
  | Some previous => if previous =? current then bs "current: generation " ++ dec current ++ newline
                     else bs "current: generation " ++ dec previous ++ bs " -> generation " ++ dec current ++ newline
  | None => bs "current: generation " ++ dec current ++ newline
  end.
Definition update_human (rows : list (list bytes)) (lock : bytes) (p : Palette) : option bytes :=
  let* rendered := volume_list_human rows p in Some (rendered ++ bs "lock" ++ tab ++ lock ++ newline).
Definition gc_human (summary : option bytes) : bytes := default (bs "collected") summary ++ newline.
Definition volume_trim_human (rows : list bytes) (reclaimed_bytes : Z) : bytes :=
  each_line rows ++ bs "reclaimed " ++ human_bytes reclaimed_bytes ++ bs " of image allocation" ++ newline.
Definition memory_trim_line (r : MemoryTrimReading) : bytes :=
  bs "reclaimed " ++ human_bytes (saturating_sub (mt_before r) (mt_after r)) ++ bs " of host memory (sandbox scope charge " ++ human_bytes (mt_before r) ++
  bs " -> " ++ human_bytes (mt_after r) ++ bs ", target " ++ dec (target_mib r) ++ bs " MiB)" ++ newline.
(** [{:?}] of a list of strings. *)
Context (debug_strings : list bytes -> bytes).
Definition manifest_show_human (name : bytes) (selected : ResolvedArtifact) (m : Manifest.Manifest) : bytes :=
  let number label n := match n with Some n => bs label ++ bs " = " ++ dec n ++ newline | None => [] end in
  bs "manifest: " ++ name ++ newline ++ bs "path: " ++ ra_path selected ++ newline ++ bs "image: " ++ Manifest.image m ++ newline ++
  match Manifest.pieces m with [] => [] | pieces => bs "pieces: " ++ join_comma pieces ++ newline end ++
  match Manifest.extends m with Some extends => bs "extends: " ++ extends ++ newline | None => [] end ++
  match Manifest.resources m with
  | Some r => newline ++ bs "[resources]" ++ newline ++ number "mem_mib"%string (Manifest.mem_mib r) ++ number "vcpu"%string (Manifest.vcpu r)
  | None => []
  end ++
  match Manifest.egress m with
  | Some e =>
      newline ++ bs "[egress]" ++ newline ++
      match Manifest.mode e with Some mode => bs "mode = " ++ [quote] ++ egress_mode mode ++ [quote] ++ newline | None => [] end ++
      match Manifest.allow e with [] => [] | allow => bs "allow = " ++ debug_strings allow ++ newline end
  | None => []
  end.

(** *** Status *)

(** [mib * 1024 * 1024] is a [u64] product, which wraps in a release build. *)
Definition mib_bytes (mib : Z) : Z := mib * 1024 * 1024 mod 2 ^ 64.
Definition status_rows (r : StatusReport) (p : Palette) : list (bytes * bytes) :=
  let run := sr_runtime r in
  let row {A} (label : string) (f : A -> bytes) (a : option A) := match a with Some a => [(bs label, f a)] | None => [] end in
  row "manifest"%string (pl_accent p) (sr_manifest r) ++ [(bs "state", state_view p (state_str (sr_state r)))] ++ row "reason"%string unstyled (sr_reason r) ++
  row "record"%string (fun theirs => bs "launch schema " ++ dec theirs ++ bs "; this viv speaks " ++ dec LAUNCH_SCHEMA_VERSION ++
    bs ". `viv stop`, then `viv start`, reboots it under this version") (sr_record_skew r) ++
  row "build"%string unstyled (sr_store_path r) ++ row "uptime"%string duration (sr_uptime_seconds r) ++
  (if bool_decide (is_Some (sr_resources r)) || bool_decide (is_Some (mem_used_bytes run))
   then [(bs "memory", match mem_used_bytes run with Some n => human_bytes n | None => bs "-" end ++ bs " used / " ++
           match sr_resources r with Some c => human_bytes (mib_bytes (Lifecycle.mem_mib c)) | None => bs "-" end ++ bs " ceiling")] else []) ++
  row "vcpu"%string (fun c => dec (Lifecycle.vcpu c)) (sr_resources r) ++ row "sessions"%string dec (sessions run) ++
  [(bs "disk", match disk_allocated_bytes run, disk_virtual_bytes run with
               | Some allocated, Some apparent => human_bytes allocated ++ bs " allocated / " ++ human_bytes apparent ++ bs " virtual"
               | _, _ => bs "-"
               end)].
Definition status_human (r : StatusReport) (p : Palette) : bytes :=
  record p (status_rows r p) ++
  if sr_stale r then newline ++ pl_warn p (bs "!") ++ bs " this VM is stale: a newer build exists. `viv start --rebuild` replaces it" ++ newline else [].
Definition fleet_human (rows : list (list bytes)) (host_line : bytes) (p : Palette) : option bytes :=
  let* table :=
    match rows with
    | header :: ((_ :: _) as rows) =>
        let* rendered := columns (map (pl_label p) header :: map (accent_first p) rows) in Some (rendered ++ newline)
    | _ => Some []
    end in
  Some (table ++ host_line ++ newline).
End views.

(** *** Diagnosis *)

#[global] Instance Category_eq_dec : EqDecision Category.
Proof. solve_decision. Defined.
Section doctor.
Context (message_of : Finding -> bytes) (hint_of : Finding -> option bytes) (title_of : Probe -> bytes) (measure_text_width : bytes -> nat).

(** Each category once, in the order of its first finding. *)
Definition push_category (l : list Category) (c : Category) : list Category := if bool_decide (c ∈ l) then l else l ++ [c].
Definition categories (findings : list Finding) : list Category := fold_left push_category (map (fun f => p_category (f_probe f)) findings) [].
Definition of_category (findings : list Finding) (c : Category) : list Finding := List.filter (fun f => bool_decide (p_category (f_probe f) = c)) findings.
Definition doctor_message (f : Finding) : bytes :=
  if bool_decide (f_status f = Skipped) && bool_decide (message_of f = []) then
    match f_reason f with
    | Some reason =>
        if String.eqb reason "no-manifest-bound" then bs "no manifest declares this workspace"
        else if String.eqb reason "offline-mode" then bs "offline - run with `--online`" else bs reason
    | None => []
    end
  else message_of f.
Definition status_style (p : Palette) (s : Status) : bytes -> bytes :=
  match s with Pass => pl_good p | Doctor.Warn => pl_warn p | Fail_ => pl_error p | Skipped => pl_label p end.
Definition finding_lines (p : Palette) (id_width : nat) (f : Finding) : bytes :=
  bs "  " ++ status_style p (f_status f) (pad 9 (bs "[" ++ bs (status_str (f_status f)) ++ bs "]")) ++ bs "  " ++ pad id_width (bs (p_id (f_probe f))) ++
  bs "  " ++ doctor_message f ++ newline ++
  match hint_of f with Some hint => spaces 17 ++ pl_label p (bs "hint:") ++ bs " " ++ hint ++ newline | None => [] end.
Definition category_block (p : Palette) (id_width : nat) (findings : list Finding) (c : Category) : bytes :=
  pl_label p (bs (category_str c)) ++ newline ++ concat (map (finding_lines p id_width) (of_category findings c)).
Definition blocks (l : list bytes) : bytes := match l with [] => [] | first :: rest => first ++ concat (map (fun b => newline ++ b) rest) end.
Definition count (findings : list Finding) (s : Status) : Z := Z.of_nat (length (List.filter (fun f => bool_decide (f_status f = s)) findings)).
Definition doctor_summary (findings : list Finding) (c : ExitKind) : bytes :=
  newline ++ dec (count findings Pass) ++ bs " pass - " ++ dec (count findings Doctor.Warn) ++ bs " warn - " ++ dec (count findings Fail_) ++ bs " fail - " ++
  dec (count findings Skipped) ++ bs " skipped -> exit " ++ dec (code c) ++ newline.
Definition doctor_human (findings : list Finding) (c : ExitKind) (p : Palette) : bytes :=
  let id_width := list_max_nat (map (fun f => String.length (p_id (f_probe f))) findings) in
  blocks (map (category_block p id_width findings) (categories findings)) ++ doctor_summary findings c.

Definition check_json (f : Finding) : Value :=
  obj ([("id", str (bs (p_id (f_probe f)))); ("category", str (bs (category_str (p_category (f_probe f)))));
        ("scope", str (bs (scope_str (p_scope (f_probe f))))); ("severity", str (bs (severity_str (p_severity (f_probe f)))));
        ("status", str (bs (status_str (f_status f))))]%string ++
       (match message_of f with [] => [] | message => [("message"%string, str message)] end) ++
       (match hint_of f with Some hint => [("hint"%string, str hint)] | None => [] end) ++
       (match f_reason f with Some reason => [("reason"%string, str (bs reason))] | None => [] end)).
Definition hard_failure (f : Finding) : bool := bool_decide (f_status f = Fail_) && hard (f_probe f).
Definition overall (findings : list Finding) : string :=
  if existsb hard_failure findings then "fail" else if 0 <? count findings Doctor.Warn then "warn" else "pass".
Definition hard_failures (findings : list Finding) : Z := Z.of_nat (length (List.filter hard_failure findings)).
Definition doctor_json (findings : list Finding) : Value :=
  obj [("status", str (bs (overall findings))); ("checks", VArray (map check_json findings));
       ("summary", obj [("total", num (Z.of_nat (length findings))); ("passed", num (count findings Pass)); ("warned", num (count findings Doctor.Warn));
                        ("failed", num (count findings Fail_)); ("skipped", num (count findings Skipped)); ("hard_failures", num (hard_failures findings))]);
       ("schema_version", str (bs "1"))]%string.
Definition doctor_list_human (p : Palette) : option bytes :=
  columns measure_text_width (map (fun probe =>
    [pl_accent p (bs (p_id probe)); bs (category_str (p_category probe)); bs (scope_str (p_scope probe)); bs (severity_str (p_severity probe)); title_of probe]) CATALOG).
Definition doctor_list_json : Value :=
  obj [("checks", VArray (map (fun probe =>
    obj [("id", str (bs (p_id probe))); ("category", str (bs (category_str (p_category probe)))); ("scope", str (bs (scope_str (p_scope probe))));
         ("severity", str (bs (severity_str (p_severity probe)))); ("title", str (title_of probe))]%string) CATALOG))]%string.
End doctor.

(* ------------------------------------------------------------------ *)
(** * Tables *)

Section tables.
Context (measure : bytes -> nat).
Notation column_widths := (Render.column_widths measure).

(** What [ws] is to rows seen so far: no shorter than any, each width the largest of its column. *)
Definition maxima (rows : list (list bytes)) (ws : list nat) : Prop :=
  (forall row, row ∈ rows -> (length row <= length ws)%nat) /\
  forall i w, ws !! i = Some w ->
    (forall row cell, row ∈ rows -> row !! i = Some cell -> (measure cell <= w)%nat) /\
    exists row cell, row ∈ rows /\ row !! i = Some cell /\ measure cell = w.
(** A row's line: each cell but the last filled to its column. *)
Fixpoint laid_out (ws : list nat) (row : list bytes) {struct row} : bytes :=
  match row, ws with
  | [], _ => []
  | [cell], _ => cell
  | cell :: rest, w :: ws => cell ++ spaces (w - measure cell) ++ bs "  " ++ laid_out ws rest
  | _, [] => []
  end.

Lemma widen_row_from row k ws : (k <= length row)%nat -> (k <= length ws)%nat -> exists ws',
    fold_left (fun ws '(index, cell) => widen ws index (measure cell)) (zip (seq k (length row - k)) (drop k row)) (Some ws) = Some ws' /\
    length ws' = Nat.max (length ws) (length row) /\
    forall i, ws' !! i = match row !! i with
                         | Some cell => if (k <=? i)%nat then Some (match ws !! i with Some w => Nat.max w (measure cell) | None => measure cell end) else ws !! i
                         | None => ws !! i
                         end.
Proof.
  intros Hk Hw. remember (length row - k)%nat as n eqn:En. revert k ws Hk En Hw. induction n as [|n IH]; intros k ws Hk En Hw.
  - exists ws. assert (k = length row) as -> by lia. rewrite drop_all. split; [done|]. split; [lia|]. intros i.
    destruct (row !! i) as [cell|] eqn:E; [|done]. apply lookup_lt_Some in E. destruct (Nat.leb_spec (length row) i); [lia|done].
  - destruct (lookup_lt_is_Some_2 row k ltac:(lia)) as [cell Hcell]. rewrite (drop_S _ _ _ Hcell). cbn [seq zip zip_with fold_left].
    unfold widen at 2. cbn [mbind option_bind].
    assert (Hstep : exists ws1, (if (k =? length ws)%nat then Some (ws ++ [measure cell])
        else let* w := ws !! k in Some (if (w <? measure cell)%nat then <[k := measure cell]> ws else ws)) = Some ws1 /\
        length ws1 = Nat.max (length ws) (S k) /\
        forall i, ws1 !! i = if (i =? k)%nat then Some (match ws !! k with Some w => Nat.max w (measure cell) | None => measure cell end) else ws !! i).
    { destruct (Nat.eqb_spec k (length ws)) as [->|Hne].
      - exists (ws ++ [measure cell]). split; [done|]. rewrite length_app. split; [cbn; lia|]. intros i.
        destruct (Nat.eqb_spec i (length ws)) as [->|Hi]; [by rewrite list_lookup_middle, (lookup_ge_None_2 ws)|].
        destruct (decide (i < length ws)%nat); [by rewrite lookup_app_l|]. rewrite (lookup_ge_None_2 ws) by lia.
        apply lookup_ge_None_2. rewrite length_app. cbn. lia.
      - destruct (lookup_lt_is_Some_2 ws k ltac:(lia)) as [w Hw1]. rewrite Hw1. cbn [mbind option_bind].
        exists (if (w <? measure cell)%nat then <[k:=measure cell]> ws else ws). split; [done|]. split; [destruct (w <? _)%nat; rewrite ?length_insert; lia|].
        intros i. destruct (Nat.ltb_spec w (measure cell)), (Nat.eqb_spec i k) as [->|Hi].
        + rewrite list_lookup_insert_eq by lia. f_equal. lia.
        + by rewrite list_lookup_insert_ne by done.
        + rewrite Hw1. f_equal. lia.
        + done. }
    destruct Hstep as (ws1 & -> & Hl1 & Hi1). destruct (IH (S k) ws1 ltac:(lia) ltac:(lia) ltac:(lia)) as (ws' & Hfold & Hl & Hi).
    exists ws'. split; [exact Hfold|]. split; [rewrite Hl, Hl1; lia|]. intros i. rewrite Hi, Hi1.
    destruct (Nat.eqb_spec i k) as [->|Hne].
    + rewrite Hcell, Nat.leb_refl. destruct (Nat.leb_spec (S k) k); [lia|done].
    + destruct (row !! i) as [c|]; [|done]. destruct (Nat.leb_spec k i), (Nat.leb_spec (S k) i); [done|lia|lia|done].
Qed.

Lemma widen_row_ok row ws : exists ws', widen_row measure (Some ws) row = Some ws' /\ length ws' = Nat.max (length ws) (length row) /\
  forall i, ws' !! i = match row !! i with
                       | Some cell => Some (match ws !! i with Some w => Nat.max w (measure cell) | None => measure cell end)
                       | None => ws !! i
                       end.
Proof.
  destruct (widen_row_from row 0 ws ltac:(lia) ltac:(lia)) as (ws' & H & Hl & Hi). rewrite Nat.sub_0_r, drop_0 in H.
  exists ws'. split; [exact H|]. split; [exact Hl|]. intros i. rewrite Hi. by destruct (row !! i).
Qed.
Lemma maxima_row rows ws row ws' : maxima rows ws -> length ws' = Nat.max (length ws) (length row) ->
  (forall i, ws' !! i = match row !! i with
                        | Some cell => Some (match ws !! i with Some w => Nat.max w (measure cell) | None => measure cell end)
                        | None => ws !! i
                        end) -> maxima (rows ++ [row]) ws'.
Proof.
  intros [Hl Hm] Hl' Hi. split.
  - intros r [Hr| ->%list_elem_of_singleton]%elem_of_app; [specialize (Hl r Hr)|]; lia.
  - intros i w Hw. rewrite Hi in Hw. assert (Hin : row ∈ rows ++ [row]) by (apply elem_of_app; right; by apply list_elem_of_singleton).
    assert (Hold : forall r, r ∈ rows -> r ∈ rows ++ [row]) by (intros r Hr; apply elem_of_app; by left).
    destruct (row !! i) as [cell|] eqn:Ec, (ws !! i) as [w0|] eqn:Ew; injection Hw as <- || done.
    + destruct (Hm i w0 Ew) as [Hup (r0 & c0 & Hr0 & Hc0 & He0)]. split.
      * intros r c [Hr| ->%list_elem_of_singleton]%elem_of_app Hc; [specialize (Hup r c Hr Hc); lia|]. rewrite Ec in Hc. injection Hc as <-. lia.
      * destruct (Nat.max_spec w0 (measure cell)) as [[_ ->]|[_ ->]]; [by exists row, cell|exists r0, c0; by auto].
    + split; [|by exists row, cell]. intros r c [Hr| ->%list_elem_of_singleton]%elem_of_app Hc; [|rewrite Ec in Hc; by injection Hc as <-].
      specialize (Hl r Hr). apply lookup_lt_Some in Hc. apply lookup_ge_None_1 in Ew. lia.
    + destruct (Hm i w0 Ew) as [Hup (r0 & c0 & Hr0 & Hc0 & He0)]. split; [|exists r0, c0; by auto].
      intros r c [Hr| ->%list_elem_of_singleton]%elem_of_app Hc; [by apply (Hup r c)|congruence].
Qed.
Lemma column_widths_ok rows : exists ws, column_widths rows = Some ws /\ maxima rows ws.
Proof.
  unfold Render.column_widths. induction rows as [|row rows IH] using rev_ind.
  - exists []. split; [done|]. split; [by intros row ?%elem_of_nil|done].
  - destruct IH as (ws & Hf & Hm). rewrite fold_left_app, Hf. destruct (widen_row_ok row ws) as (ws' & H & Hl & Hi). exists ws'. split; [exact H|by eapply maxima_row].
Qed.
Lemma row_line_next w ws first cell next rest : row_line measure (w :: ws) first (cell :: next :: rest) =
  let* rest := row_line measure ws false (next :: rest) in Some ((if first then [] else bs "  ") ++ cell ++ spaces (w - measure cell) ++ rest).
Proof. done. Qed.
Lemma row_line_ok first row ws : (length row <= length ws)%nat -> row <> [] ->
  row_line measure ws first row = Some ((if first then [] else bs "  ") ++ laid_out ws row).
Proof.
  revert first ws. induction row as [|cell rest IH]; intros first ws Hl Hne; [done|]. destruct ws as [|w ws]; [cbn in Hl; lia|].
  destruct rest as [|next rest]; [done|]. rewrite row_line_next, IH by (cbn in *; (lia || done)). done.
Qed.
Lemma row_line_total row ws : (length row <= length ws)%nat -> row_line measure ws true row = Some (laid_out ws row).
Proof. intros Hl. destruct row as [|cell row]; [done|]. by rewrite row_line_ok. Qed.
Lemma row_lines_ok ws rows : (forall row, row ∈ rows -> (length row <= length ws)%nat) ->
  row_lines measure ws rows = Some (concat (map (fun row => trim_end (laid_out ws row) ++ newline) rows)).
Proof.
  induction rows as [|row rows IH]; intros Hl; [done|]. cbn [row_lines map concat]. rewrite row_line_total by (apply Hl; by left). cbn [mbind option_bind].
  rewrite IH by (intros r Hr; apply Hl; by right). cbn [mbind option_bind]. by rewrite <- app_assoc.
Qed.
(** A table is always laid out, no width is ever missing: its columns are as wide as their widest cell, and each line is
    the row's cells filled to their columns, two spaces apart, with nothing at its end. *)
Theorem tables_fit_their_columns rows : exists ws, maxima rows ws /\
  columns measure rows = Some (concat (map (fun row => trim_end (laid_out ws row) ++ newline) rows)).
Proof.
  destruct (column_widths_ok rows) as (ws & Hw & Hm). exists ws. split; [exact Hm|]. unfold columns. rewrite Hw. cbn [mbind option_bind].
  apply row_lines_ok. apply Hm.
Qed.
End tables.

(* ------------------------------------------------------------------ *)
(** * A palette changes no text *)

Section color.
Context (p : Palette) (measure : bytes -> nat).
Definition role (style : bytes -> bytes) : Prop :=
  style ∈ [pl_error p; pl_id p; pl_what p; pl_locus p; pl_label p; pl_hint p; pl_accent p; pl_good p; pl_warn p].
(** [x] is [y] with spans of it styled. *)
Inductive reads : bytes -> bytes -> Prop :=
| reads_same x : reads x x
| reads_styled style x : role style -> reads (style x) x
| reads_app x x' y y' : reads x x' -> reads y y' -> reads (x ++ y) (x' ++ y').
(** The text ends in a visible ASCII character. *)
Definition ends_visible (x : bytes) : Prop := exists b, last x = Some b /\ 33 <= bz b <= 126.

Lemma reads_concat {A} (f g : A -> bytes) l : (forall a, a ∈ l -> reads (f a) (g a)) -> reads (concat (map f l)) (concat (map g l)).
Proof.
  induction l as [|a l IH]; intros H; [apply reads_same|]. cbn [map concat]. apply reads_app; [apply H; by left|]. apply IH. intros x Hx. apply H. by right.
Qed.
Lemma reads_tail x x' y : reads x x' -> reads (x ++ y) (x' ++ y).
Proof. intros H. apply reads_app; [exact H|apply reads_same]. Qed.
Lemma reads_lead x y y' : reads y y' -> reads (x ++ y) (x ++ y').
Proof. intros H. apply reads_app; [apply reads_same|exact H]. Qed.

Lemma strip_any_none strip ps s : (forall q, q ∈ ps -> strip q s = None) -> strip_any strip ps s = None.
Proof.
  induction ps as [|q ps IH]; intros H; [done|]. cbn [strip_any]. rewrite H by by left. apply IH. intros x Hx. apply H. by right.
Qed.
Lemma whitespace_ends : Forall (fun q => match last q with Some b => negb ((33 <=? bz b) && (bz b <=? 126)) | None => false end = true) whitespace_chars.
Proof. apply (bool_decide_unpack _). vm_compute. exact I. Qed.
Lemma trim_end_visible x : ends_visible x -> trim_end x = x.
Proof.
  intros (b & Hb & Hv). unfold trim_end. destruct (length x); [done|]. cbn [trim_with]. rewrite strip_any_none; [done|].
  intros q Hq. destruct (strip_suffix q x) as [r|] eqn:E; [|done]. apply strip_suffix_Some in E as ->.
  pose proof whitespace_ends as Hw. rewrite Forall_forall in Hw. specialize (Hw q Hq). rewrite last_app in Hb. destruct (last q) as [c|]; [|done].
  injection Hb as ->. apply negb_true_iff, andb_false_iff in Hw as [Hw|Hw]; apply Z.leb_gt in Hw; lia.
Qed.
Lemma ends_visible_app x y : ends_visible y -> ends_visible (x ++ y).
Proof. intros (b & Hb & Hv). exists b. by rewrite last_app, Hb. Qed.
Lemma laid_out_ends ws row cell : (length row <= length ws)%nat -> last row = Some cell -> ends_visible cell -> ends_visible (laid_out measure ws row).
Proof.
  revert ws. induction row as [|c rest IH]; intros ws Hl Hlast Hv; [done|]. destruct ws as [|w ws]; [cbn in Hl; lia|]. destruct rest as [|next rest]; [by injection Hlast as ->|].
  cbn [laid_out]. do 3 apply ends_visible_app. apply IH; [cbn in *; lia|done|done].
Qed.

Context (Hmeasure : forall x y, reads x y -> measure x = measure y).
Context (Hends : forall style x, role style -> ends_visible x -> ends_visible (style x)).

Lemma widen_row_same ws row row' : Forall2 reads row row' -> widen_row measure ws row = widen_row measure ws row'.
Proof.
  unfold widen_row. intros H. rewrite (Forall2_length _ _ _ H). generalize (length row') as n. intros n. generalize 0%nat as k. revert ws n.
  induction H as [|c c' row row' Hc H IH]; intros ws n k; [done|]. destruct n as [|n]; [done|]. cbn [seq zip zip_with fold_left]. rewrite (Hmeasure _ _ Hc). apply IH.
Qed.
Lemma column_widths_same rows rows' : Forall2 (Forall2 reads) rows rows' -> column_widths measure rows = column_widths measure rows'.
Proof.
  unfold column_widths. generalize (Some (@nil nat)). intros ws H. revert ws. induction H as [|r r' rows rows' Hr H IH]; intros ws; [done|].
  cbn [fold_left]. rewrite (widen_row_same _ _ _ Hr). apply IH.
Qed.
Lemma laid_out_reads ws row row' : Forall2 reads row row' -> reads (laid_out measure ws row) (laid_out measure ws row').
Proof.
  intros H. revert ws. induction H as [|c c' row row' Hc H IH]; intros ws; [apply reads_same|]. destruct H as [|d d' row row' Hd H]; [by destruct ws|].
  destruct ws as [|w ws]; [apply reads_same|]. cbn [laid_out]. rewrite (Hmeasure _ _ Hc). apply reads_app; [done|]. do 2 apply reads_lead. apply IH.
Qed.
(** A cell's style leaves a table's text as it is, where its lines end in something to see. *)
Definition closed (row : list bytes) : Prop := forall cell, last row = Some cell -> ends_visible cell.
Lemma columns_reads rows rows' : Forall2 (Forall2 reads) rows rows' -> Forall closed rows -> Forall closed rows' ->
  exists x y, columns measure rows = Some x /\ columns measure rows' = Some y /\ reads x y.
Proof.
  intros H Hc Hc'. destruct (column_widths_ok measure rows) as (ws & Hw & [Hl _]). pose proof Hw as Hw'. rewrite (column_widths_same _ _ H) in Hw'.
  assert (Hl' : forall row, row ∈ rows' -> (length row <= length ws)%nat).
  { destruct (column_widths_ok measure rows') as (ws' & Hws & [Hl2 _]). rewrite Hw' in Hws. by injection Hws as <-. }
  unfold columns. rewrite Hw, Hw'. cbn [mbind option_bind]. rewrite !row_lines_ok by done. do 2 eexists. split; [done|]. split; [done|]. clear Hw Hw'.
  assert (Hline : forall row, (length row <= length ws)%nat -> closed row -> trim_end (laid_out measure ws row) = laid_out measure ws row).
  { intros row Hr Hcl. destruct (last row) as [cell|] eqn:E; [apply trim_end_visible; eapply laid_out_ends; [done|done|by apply Hcl]|].
    apply last_None in E as ->. done. }
  induction H as [|r r' rows rows' Hr H IH]; [apply reads_same|]. cbn [map concat]. apply Forall_cons_1 in Hc as [Hc1 Hc]. apply Forall_cons_1 in Hc' as [Hc1' Hc'].
  rewrite !Hline by (done || (apply Hl; by left) || (apply Hl'; by left)).
  apply reads_app; [apply reads_tail; by apply laid_out_reads|]. apply IH; first [done|by intros row Hin; apply Hl; right|by intros row Hin; apply Hl'; right].
Qed.

(** ** The views *)

Lemma role_of style : style ∈ [pl_error p; pl_id p; pl_what p; pl_locus p; pl_label p; pl_hint p; pl_accent p; pl_good p; pl_warn p] -> role style.
Proof. done. Qed.
Ltac reading :=
  repeat first [apply reads_same | apply reads_styled; apply role_of; rewrite !elem_of_cons; tauto | apply reads_app].

Lemma record_reads rows rows' : Forall2 (fun r r' => fst r = fst r' /\ reads (snd r) (snd r')) rows rows' -> reads (record p rows) (record plain rows').
Proof.
  intros H. unfold record. replace (map (fun r => length (fst r)) rows) with (map (fun r => length (fst r)) rows')
    by (induction H as [|r r' rows rows' [E _] _ IH]; [done|cbn [map]; by rewrite E, IH]).
  generalize (list_max_nat (map (fun r => length (fst r)) rows')). intros width. induction H as [|[l x] [l' x'] rows rows' [E Hx] _ IH]; [apply reads_same|].
  cbn [fst snd] in *. subst l'. cbn [map concat fst snd]. apply reads_app; [|done]. apply reads_app; [reading|]. apply reads_lead. by apply reads_tail.
Qed.
Lemma state_view_reads s : reads (state_view p s) (state_view plain s).
Proof. unfold state_view. repeat destruct (bytes_eqb _ _); cbn [orb]; reading. Qed.
Lemma status_rows_read r : Forall2 (fun x y => fst x = fst y /\ reads (snd x) (snd y)) (status_rows r p) (status_rows r plain).
Proof.
  assert (Hrow : forall {A} (label : bytes) (f g : A -> bytes) a, (forall a, reads (f a) (g a)) ->
    Forall2 (fun x y => fst x = fst y /\ reads (snd x) (snd y)) (match a with Some a => [(label, f a)] | None => [] end) (match a with Some a => [(label, g a)] | None => [] end)).
  { intros A label f g [a|] Hfg; [|apply Forall2_nil_2]. apply Forall2_cons_2; [split; [done|apply Hfg]|apply Forall2_nil_2]. }
  assert (Hone : forall l : list (bytes * bytes), Forall2 (fun x y => fst x = fst y /\ reads (snd x) (snd y)) l l).
  { intros l. induction l as [|x l IH]; [apply Forall2_nil_2|apply Forall2_cons_2; [split; [done|apply reads_same]|done]]. }
  unfold status_rows. cbv zeta. repeat apply Forall2_app; first [apply Hone|apply Hrow; intros a; reading|idtac].
  apply Forall2_cons_2; [split; [done|apply state_view_reads]|apply Forall2_nil_2].
Qed.
Lemma status_reads r : reads (status_human r p) (status_human r plain).
Proof. unfold status_human. apply reads_app; [apply record_reads, status_rows_read|]. destruct (sr_stale r); reading. Qed.
Lemma binding_reads b r flake lock : reads (binding_human b r flake lock p) (binding_human b r flake lock plain).
Proof. apply record_reads. apply Forall2_cons_2; [split; [done|cbn [snd]; reading]|]. repeat (apply Forall2_cons_2; [split; [done|apply reads_same]|]). apply Forall2_nil_2. Qed.
Lemma help_reads verb : reads (help_human p verb) (help_human plain verb).
Proof.
  unfold help_human. destruct (let* requested := verb in _) as [[[name u] blurb]|]; [reading|]. unfold help_summary.
  repeat first [apply reads_same|apply reads_styled; apply role_of; rewrite !elem_of_cons; tauto|
    apply reads_concat; first [intros [[name u] blurb] _|intros [flag blurb] _]|apply reads_app].
Qed.
Lemma doctor_reads message_of hint_of findings c : reads (doctor_human message_of hint_of findings c p) (doctor_human message_of hint_of findings c plain).
Proof.
  unfold doctor_human. apply reads_app; [|apply reads_same]. generalize (list_max_nat (map (fun f => String.length (p_id (f_probe f))) findings)). intros width.
  assert (Hb : forall cat, reads (category_block message_of hint_of p width findings cat) (category_block message_of hint_of plain width findings cat)).
  { intros cat. unfold category_block. apply reads_app; [reading|]. apply reads_lead, reads_concat. intros f _. unfold finding_lines.
    apply reads_lead, reads_app; [destruct (f_status f); cbn [status_style]; reading|]. do 4 apply reads_lead. destruct (hint_of f); reading. }
  destruct (categories findings) as [|cat cats]; [apply reads_same|]. cbn [map blocks]. apply reads_app; [apply Hb|]. rewrite !map_map.
  apply reads_concat. intros x _. by apply reads_lead.
Qed.
Lemma accent_first_reads row : Forall2 reads (accent_first p row) (accent_first plain row).
Proof.
  assert (Hsame : forall l : list bytes, Forall2 reads l l) by (intros l; induction l; [apply Forall2_nil_2|apply Forall2_cons_2; [apply reads_same|done]]).
  destruct row as [|cell row]; [apply Forall2_nil_2|]. apply Forall2_cons_2; [reading|apply Hsame].
Qed.
Lemma accent_first_closed row : closed row -> closed (accent_first p row) /\ closed (accent_first plain row).
Proof.
  intros Hc. destruct row as [|cell [|next row]]; [done| |done]. split; intros x [= <-].
  - apply Hends; [apply role_of; rewrite !elem_of_cons; tauto|by apply Hc].
  - by apply Hc.
Qed.
Lemma volume_list_reads rows : Forall closed rows ->
  exists x y, volume_list_human measure rows p = Some x /\ volume_list_human measure rows plain = Some y /\ reads x y.
Proof.
  intros Hc. apply columns_reads.
  - clear Hc. induction rows as [|row rows IH]; [apply Forall2_nil_2|]. apply Forall2_cons_2; [apply accent_first_reads|done].
  - rewrite Forall_map. eapply Forall_impl; [exact Hc|]. intros row Hr. by apply accent_first_closed.
  - rewrite Forall_map. eapply Forall_impl; [exact Hc|]. intros row Hr. by apply accent_first_closed.
Qed.
Lemma label_closed header : closed header -> closed (map (pl_label p) header).
Proof.
  intros Hc cell. rewrite fmap_last. destruct (last header) as [x|] eqn:E; [|done]. intros [= <-].
  apply Hends; [apply role_of; rewrite !elem_of_cons; tauto|by apply Hc].
Qed.
Lemma fleet_reads rows host_line : Forall closed rows ->
  exists x y, fleet_human measure rows host_line p = Some x /\ fleet_human measure rows host_line plain = Some y /\ reads x y.
Proof.
  intros Hc. unfold fleet_human. destruct rows as [|header [|row rows]]; [by do 2 eexists; do 2 (split; [done|]); apply reads_same..|].
  apply Forall_cons_1 in Hc as [Hh Hc].
  assert (Hplain : map (pl_label plain) header = header) by (induction header as [|x l IH]; [done|cbn [map]; f_equal; apply IH; intros c Hl; apply Hh; destruct l; [done|exact Hl]]).
  destruct (columns_reads (map (pl_label p) header :: map (accent_first p) (row :: rows)) (map (pl_label plain) header :: map (accent_first plain) (row :: rows)))
    as (x & y & -> & -> & Hr).
  - apply Forall2_cons_2; [|generalize (row :: rows) as l; intros l; induction l; [apply Forall2_nil_2|apply Forall2_cons_2; [apply accent_first_reads|done]]].
    clear. induction header; [apply Forall2_nil_2|apply Forall2_cons_2; [reading|done]].
  - apply Forall_cons_2; [by apply label_closed|]. rewrite Forall_map. eapply Forall_impl; [exact Hc|]. intros r Hr. by apply accent_first_closed.
  - apply Forall_cons_2; [by rewrite Hplain|]. rewrite Forall_map. eapply Forall_impl; [exact Hc|]. intros r Hr. by apply accent_first_closed.
  - cbn [mbind option_bind]. do 2 eexists. split; [done|]. split; [done|]. by apply reads_tail, reads_tail.
Qed.
(** A name of an artifact ends in something to see, and so do names in a row. *)
Lemma valid_name_ends name : valid_artifact_name name = true -> ends_visible name.
Proof.
  unfold valid_artifact_name. rewrite !andb_true_iff. intros ((_ & Hl) & _). destruct (last name) as [b|] eqn:E; [|done]. exists b. split; [done|].
  unfold valid_edge, is_ascii_lowercase, is_ascii_digit in Hl. lia.
Qed.
Lemma join_comma_ends l : l <> [] -> Forall ends_visible l -> ends_visible (join_comma l).
Proof.
  induction l as [|x l IH]; [done|]. intros _ [Hx Hl]%Forall_cons. destruct l as [|y l]; [done|]. cbn [join_comma]. do 2 apply ends_visible_app. by apply IH.
Qed.
Definition named_row (row : library_row) : Prop :=
  valid_artifact_name (Manifest.image (snd row)) = true /\ Forall (fun q => valid_artifact_name q = true) (Manifest.pieces (snd row)).
Lemma manifest_list_reads rows : Forall named_row rows ->
  exists x y, manifest_list_human measure rows p = Some x /\ manifest_list_human measure rows plain = Some y /\ reads x y.
Proof.
  intros Hr. unfold manifest_list_human.
  assert (Hpieces : forall l, l <> [] -> Forall (fun q => valid_artifact_name q = true) l -> ends_visible (join_comma l)).
  { intros l Hne Hl. apply join_comma_ends; [done|]. eapply Forall_impl; [exact Hl|]. exact valid_name_ends. }
  apply columns_reads.
  - clear Hr. induction rows as [|[[name artifact] m] rows IH]; [apply Forall2_nil_2|]. apply Forall2_cons_2; [|done]. apply Forall2_cons_2; [reading|].
    apply Forall2_cons_2; [reading|]. destruct (Manifest.pieces m); [apply Forall2_nil_2|apply Forall2_cons_2; [reading|apply Forall2_nil_2]].
  - rewrite Forall_map. eapply Forall_impl; [exact Hr|]. intros [[name artifact] m] [Hi Hp] cell. cbn [snd] in *.
    destruct (Manifest.pieces m) as [|q qs]; cbn [app last]; intros [= <-]; [by apply valid_name_ends|].
    apply Hends; [apply role_of; rewrite !elem_of_cons; tauto|]. by apply (Hpieces (q :: qs)).
  - rewrite Forall_map. eapply Forall_impl; [exact Hr|]. intros [[name artifact] m] [Hi Hp] cell. cbn [snd] in *.
    destruct (Manifest.pieces m) as [|q qs]; cbn [app last]; intros [= <-]; [by apply valid_name_ends|]. by apply (Hpieces (q :: qs)).
Qed.
Lemma update_reads rows lock : Forall closed rows ->
  exists x y, update_human measure rows lock p = Some x /\ update_human measure rows lock plain = Some y /\ reads x y.
Proof.
  intros Hc. destruct (volume_list_reads rows Hc) as (x & y & Hx & Hy & Hr). unfold update_human. rewrite Hx, Hy. cbn [mbind option_bind].
  do 2 eexists. split; [done|]. split; [done|]. by apply reads_tail.
Qed.
Lemma doctor_list_reads title_of : Forall (fun probe => ends_visible (title_of probe)) CATALOG ->
  exists x y, doctor_list_human title_of measure p = Some x /\ doctor_list_human title_of measure plain = Some y /\ reads x y.
Proof.
  intros Hc. unfold doctor_list_human. apply columns_reads.
  - generalize CATALOG as l. intros l. induction l as [|probe l IH]; [apply Forall2_nil_2|]. apply Forall2_cons_2; [|done].
    apply Forall2_cons_2; [reading|]. repeat (apply Forall2_cons_2; [apply reads_same|]). apply Forall2_nil_2.
  - rewrite Forall_map. eapply Forall_impl; [exact Hc|]. by intros probe Hp cell [= <-].
  - rewrite Forall_map. eapply Forall_impl; [exact Hc|]. by intros probe Hp cell [= <-].
Qed.
Lemma diagnostic_reads d : reads (Diagnostic.render (diagnostic_palette p) d) (Diagnostic.render (diagnostic_palette plain) d).
Proof.
  assert (Hrest : forall rest : list bytes, reads (concat (map (fun line => newline ++ bs "        " ++ pl_hint p line) rest))
    (concat (map (fun line => newline ++ bs "        " ++ pl_hint plain line) rest))) by (intros rest; apply reads_concat; intros line _; reading).
  unfold Diagnostic.render, diagnostic_palette. cbn [Diagnostic.p_error Diagnostic.p_id Diagnostic.p_what Diagnostic.p_locus Diagnostic.p_label Diagnostic.p_hint].
  repeat (apply reads_app; [solve [reading]|]). apply reads_app; [case_bool_decide; reading|].
  destruct (hint d) as [h|]; [|apply reads_same]. destruct (lines h) as [|first rest]; [apply reads_same|].
  repeat (apply reads_app; [solve [reading]|]). apply Hrest.
Qed.
(** C38: Color changes no text.  Every text a palette is given to - the help, the records of a binding and of a status, the
    report of the doctor and its catalogue, the lists of manifests, volumes and generations, an update, the fleet, and a
    diagnostic - reads, its spans put back, as the plain one does, byte for byte.  For a table that is so where each line
    ends in something to see: then its columns stand where they stood. *)
Theorem color_changes_no_text :
  (forall verb, reads (help_human p verb) (help_human plain verb)) /\
  (forall b r flake lock, reads (binding_human b r flake lock p) (binding_human b r flake lock plain)) /\
  (forall r, reads (status_human r p) (status_human r plain)) /\
  (forall message_of hint_of findings c, reads (doctor_human message_of hint_of findings c p) (doctor_human message_of hint_of findings c plain)) /\
  (forall rows, Forall closed rows -> exists x y, volume_list_human measure rows p = Some x /\ volume_list_human measure rows plain = Some y /\ reads x y) /\
  (forall rows host_line, Forall closed rows ->
    exists x y, fleet_human measure rows host_line p = Some x /\ fleet_human measure rows host_line plain = Some y /\ reads x y) /\
  (forall rows, Forall closed rows -> exists x y, generations_list_human measure rows p = Some x /\ generations_list_human measure rows plain = Some y /\ reads x y) /\
  (forall rows lock, Forall closed rows -> exists x y, update_human measure rows lock p = Some x /\ update_human measure rows lock plain = Some y /\ reads x y) /\
  (forall rows, Forall named_row rows -> exists x y, manifest_list_human measure rows p = Some x /\ manifest_list_human measure rows plain = Some y /\ reads x y) /\
  (forall title_of, Forall (fun probe => ends_visible (title_of probe)) CATALOG ->
    exists x y, doctor_list_human title_of measure p = Some x /\ doctor_list_human title_of measure plain = Some y /\ reads x y) /\
  (forall d, reads (Diagnostic.render (diagnostic_palette p) d) (Diagnostic.render (diagnostic_palette plain) d)).
Proof.
  split; [exact help_reads|]. split; [exact binding_reads|]. split; [exact status_reads|]. split; [exact doctor_reads|].
  split; [exact volume_list_reads|]. split; [exact fleet_reads|]. split; [exact volume_list_reads|]. split; [exact update_reads|].
  split; [exact manifest_list_reads|]. split; [exact doctor_list_reads|exact diagnostic_reads].
Qed.
End color.

(* ------------------------------------------------------------------ *)
(** * The report of [viv doctor] *)

Lemma push_category_in l c x : x ∈ push_category l c <-> x ∈ l \/ x = c.
Proof.
  unfold push_category. case_bool_decide as E; [|rewrite elem_of_app, list_elem_of_singleton; done]. split; [by left|]. by intros [?| ->].
Qed.
Lemma categories_spec cs : NoDup (fold_left push_category cs []) /\ forall x, x ∈ fold_left push_category cs [] <-> x ∈ cs.
Proof.
  induction cs as [|c cs [Hn Hi]] using rev_ind; [split; [apply NoDup_nil_2|done]|]. rewrite fold_left_app. cbn [fold_left]. split.
  - unfold push_category. case_bool_decide as E; [done|]. apply NoDup_app. split_and!; [done| |apply NoDup_singleton].
    intros x Hx ->%list_elem_of_singleton. done.
  - intros x. by rewrite push_category_in, Hi, elem_of_app, list_elem_of_singleton.
Qed.
Lemma blocks_are_all (findings : list Finding) cs : NoDup cs -> (forall f, f ∈ findings -> p_category (f_probe f) ∈ cs) ->
  concat (map (of_category findings) cs) ≡ₚ findings.
Proof.
  intros Hn. revert findings. induction cs as [|c cs IH]; intros findings Hin.
  - destruct findings as [|f findings]; [done|]. exfalso. eapply not_elem_of_nil. apply (Hin f). by left.
  - apply NoDup_cons in Hn as [Hc Hn]. cbn [map concat].
    set (rest := List.filter (fun f => negb (bool_decide (p_category (f_probe f) = c))) findings).
    assert (Hsplit : findings ≡ₚ of_category findings c ++ rest).
    { unfold of_category, rest. clear. induction findings as [|f l IH]; [done|]. cbn [List.filter]. destruct (bool_decide _); cbn [negb app];
        [by rewrite IH at 1|rewrite IH at 1; apply Permutation_middle]. }
    assert (Hsame : map (of_category findings) cs = map (of_category rest) cs).
    { apply map_ext_in. intros d Hd%list_elem_of_In. unfold of_category, rest. clear -Hd Hc. induction findings as [|f l IH]; [done|]. cbn [List.filter].
      destruct (bool_decide_reflect (p_category (f_probe f) = c)) as [E|E]; cbn [negb]; [|cbn [List.filter]; by rewrite IH].
      rewrite bool_decide_false by congruence. exact IH. }
    rewrite Hsame. rewrite (IH Hn rest); [by symmetry|]. intros f Hf. unfold rest in Hf. apply list_elem_of_In, List.filter_In in Hf as [Hf Hne].
    apply negb_true_iff, bool_decide_eq_false in Hne. apply list_elem_of_In, Hin in Hf. by apply elem_of_cons in Hf as [?|?].
Qed.
Lemma count_positive findings s : (0 <? count findings s) = existsb (fun f => bool_decide (f_status f = s)) findings.
Proof.
  unfold count. induction findings as [|f l IH]; [done|]. cbn [List.filter existsb]. destruct (bool_decide (f_status f = s)); [|exact IH].
  apply Z.ltb_lt. cbn [length]. lia.
Qed.
Lemma counts_are_whole findings :
  count findings Pass + count findings Doctor.Warn + count findings Fail_ + count findings Skipped = Z.of_nat (length findings).
Proof.
  unfold count. induction findings as [|f l IH]; [done|]. cbn [List.filter].
  repeat case_bool_decide; cbn [length]; first [congruence|lia|destruct (f_status f); congruence].
Qed.
(** The report of [viv doctor] is whole and agrees with its exit: every finding stands in it once, under its own category
    and no category twice; the counts make up the whole; and the overall word of the record is the exit - a hard failure
    exits with the code of one that failed, a warning with success unless the run is strict, and anything else with
    success. *)
Theorem doctor_report_is_whole findings strict :
  NoDup (categories findings) /\ concat (map (of_category findings) (categories findings)) ≡ₚ findings /\
  count findings Pass + count findings Doctor.Warn + count findings Fail_ + count findings Skipped = Z.of_nat (length findings) /\
  (overall findings = "fail"%string <-> hard_failures findings <> 0) /\
  (if String.eqb (overall findings) "fail"
   then exists f, f ∈ findings /\ hard_failure f = true /\ exit_code findings strict = default Software (p_code (f_probe f))
   else exit_code findings strict = if String.eqb (overall findings) "warn" && strict then DoctorStrict else Success).
Proof.
  destruct (categories_spec (map (fun f => p_category (f_probe f)) findings)) as [Hn Hi]. split; [exact Hn|]. split.
  { apply blocks_are_all; [exact Hn|]. intros f Hf. apply Hi, list_elem_of_fmap. by exists f. }
  split; [apply counts_are_whole|]. assert (Hhard : existsb hard_failure findings = negb (hard_failures findings =? 0)).
  { unfold hard_failures. induction findings as [|f l IH]; [done|]. cbn [existsb List.filter]. destruct (hard_failure f) eqn:E.
    - symmetry. apply negb_true_iff, Z.eqb_neq. cbn [length]. lia.
    - apply IH; by destruct (categories_spec (map (fun f => p_category (f_probe f)) l)). }
  unfold overall, exit_code. rewrite Hhard, count_positive. split.
  { destruct (Z.eqb_spec (hard_failures findings) 0) as [E|E]; cbn [negb]; [|by split].
    match goal with |- context [if ?b then _ else _] => destruct b end; (split; [intros H; discriminate H|intros H; by destruct H]). }
  destruct (List.find _ findings) as [f|] eqn:E.
  - apply List.find_some in E as [Hf Hb]. assert (Hex : existsb hard_failure findings = true) by (apply List.existsb_exists; by exists f).
    rewrite Hhard in Hex. rewrite Hex. cbn [String.eqb Ascii.eqb Bool.eqb]. exists f. split; [by apply list_elem_of_In|]. by split.
  - assert (Hex : existsb hard_failure findings = false).
    { apply not_true_iff_false. intros (f & Hf & Hb)%List.existsb_exists. pose proof (List.find_none _ _ E f Hf) as Hfail. unfold hard_failure in Hb. cbn beta in Hfail. unfold is_failure in Hfail. congruence. }
    rewrite Hhard in Hex. rewrite Hex. generalize (existsb (fun f => bool_decide (f_status f = Doctor.Warn)) findings). intros warned. by destruct warned, strict.
Qed.

(* ------------------------------------------------------------------ *)
(** * Help *)

Definition verbs : list bytes := map (fun '(name, _, _) => name) COMMANDS.
Definition all_tty : Streams := mk_Streams true true true.
(** A form of each verb that needs nothing. *)
Definition shortest (verb : bytes) : list bytes :=
  if bytes_eqb verb (bs "exec") then [bs "--"; bs "true"]
  else if bytes_eqb verb (bs "memory") then [bs "trim"]
  else if bytes_eqb verb (bs "manifest") || bytes_eqb verb (bs "volume") || bytes_eqb verb (bs "generations") then [bs "list"] else [].
(** Help and dispatch do not drift: a verb has a line in the summary exactly when some invocation of it is accepted, and
    the usage line names the same verbs. *)
Theorem help_lists_every_verb :
  (forall verb, verb ∈ verbs <-> exists rest streams i, Grammar.dispatch verb rest streams = Ok i) /\
  (exists inner, usage_text TOP_USAGE = bs "viv <" ++ inner ++ bs "> [options]" /\ split_on "|"%byte inner ≡ₚ verbs).
Proof.
  split.
  - intros verb. split.
    + assert (Hall : Forall (fun v => is_ok (Grammar.dispatch v (shortest v) all_tty) = true) verbs) by (apply (bool_decide_unpack _); vm_compute; exact I).
      intros Hv. rewrite Forall_forall in Hall. specialize (Hall verb Hv). destruct (Grammar.dispatch verb (shortest verb) all_tty) as [i|e] eqn:E; [|done].
      by exists (shortest verb), all_tty, i.
    + intros (rest & streams & i & H). unfold Grammar.dispatch, tok in H. unfold verbs, COMMANDS. cbn [map].
      repeat match goal with
             | H : (if bytes_eqb verb ?x then _ else _) = _ |- _ =>
                 destruct (bytes_eqb verb x) eqn:E; [apply bytes_eqb_true in E as ->; rewrite !elem_of_cons; tauto|clear E]
             end.
      done.
  - exists (bs "config|manifest|start|status|shell|exec|stop|trim|generations|memory|volume|destroy|gc|update|doctor"). split; [done|].
    apply (bool_decide_unpack _). vm_compute. exact I.
Qed.

(* ------------------------------------------------------------------ *)
(** * The face *)

Inductive ui_call := Warned (message : bytes) | Noted (notes : bytes) | Intro (title : bytes) | Outro (message : bytes) | Cancelled
  | StepOpened (title : bytes) | StepLine (line : bytes) | StepDone (message : bytes) | StepDropped.
Definition ui_step (u : Ui) (c : ui_call) : Ui * list shown_mark :=
  match c with
  | Warned m => (u, warn u m) | Noted n => note u n | Intro t => intro u t | Outro m => outro u m | Cancelled => cancel u
  | StepOpened t => (u, step_open u t) | StepLine l => (u, step_line u l) | StepDone m => (u, step_done u m) | StepDropped => (u, step_drop u)
  end.
Fixpoint ui_run (u : Ui) (calls : list ui_call) : Ui * list shown_mark :=
  match calls with
  | [] => (u, [])
  | c :: calls => let '(u, marks) := ui_step u c in let '(u, rest) := ui_run u calls in (u, marks ++ rest)
  end.
Definition is_text (m : shown_mark) : bool := match m with Printed _ => true | _ => false end.
(** Whether a frame is left open: [open_] is whether one was before. *)
Definition frame_step (open_ : bool) (m : shown_mark) : bool := match m with FrameOpened _ => true | FrameClosed _ | FrameCancelled => false | _ => open_ end.
Definition frame_open (open_ : bool) (marks : list shown_mark) : bool := fold_left frame_step marks open_.

Lemma ui_step_spec u c : let '(u', marks) := ui_step u c in
  animate u' = animate u /\ ui_verbosity u' = ui_verbosity u /\ gutter u' = frame_open (gutter u) marks /\
  (animate u = false -> forallb is_text marks = true) /\ (ui_verbosity u = Quiet -> animate u = false -> marks = []).
Proof.
  destruct u as [[] v p po []], c as [m|[|b n]|t|m| |t|l|m|]; unfold ui_step, warn, note, intro, outro, cancel, step_open, step_line, step_done, step_drop; cbn; destruct v; cbn; split_and!; done.
Qed.
Lemma ui_run_spec u calls : let '(u', marks) := ui_run u calls in
  animate u' = animate u /\ ui_verbosity u' = ui_verbosity u /\ gutter u' = frame_open (gutter u) marks /\
  (animate u = false -> forallb is_text marks = true) /\ (ui_verbosity u = Quiet -> animate u = false -> marks = []).
Proof.
  revert u. induction calls as [|c calls IH]; intros u; [cbn; split_and!; done|]. cbn [ui_run]. pose proof (ui_step_spec u c) as Hs.
  destruct (ui_step u c) as [u1 m1]. destruct Hs as (Ha & Hv & Hg & Ht & Hq). specialize (IH u1). destruct (ui_run u1 calls) as [u2 m2].
  destruct IH as (Ha2 & Hv2 & Hg2 & Ht2 & Hq2). split; [congruence|]. split; [congruence|]. split; [|split].
  - unfold frame_open in *. by rewrite fold_left_app, <- Hg.
  - intros H. rewrite forallb_app, Ht by done. apply Ht2. congruence.
  - intros H1 H2. rewrite (Hq H1 H2). apply Hq2; congruence.
Qed.
(** A face keeps its frame: whatever is said through it, a frame is open exactly when the last of its marks opened one; a
    face that does not animate - a pipe, machine output, [-q] - prints text alone, and at [-q] nothing at all. *)
Theorem face_keeps_its_frame u calls : let '(u', marks) := ui_run u calls in
  animate u' = animate u /\ gutter u' = frame_open (gutter u) marks /\
  (animate u = false -> forallb is_text marks = true) /\ (ui_verbosity u = Quiet -> animate u = false -> marks = []).
Proof. pose proof (ui_run_spec u calls) as H. destruct (ui_run u calls) as [u' marks]. tauto. Qed.
(** What [resolve] decides, stream by stream. *)
Theorem resolved_face colored stdout stderr variable v machine : let u := ui_resolve colored stdout stderr variable v machine in
  (animate u = true <-> stderr = true /\ v <> Quiet /\ machine = false) /\ gutter u = false /\
  palette u = (if colors_enabled stderr variable then colored else plain) /\ palette_out u = (if colors_enabled stdout variable then colored else plain).
Proof. cbn. split; [|by split]. destruct stderr, v, machine; cbn; (split; [done|]); naive_solver. Qed.

(* ------------------------------------------------------------------ *)
(** * The record of a status *)

Definition object_keys (v : Value) : list bytes := match v with VObject o => map fst o | _ => [] end.
Lemma status_fields r :
  vindex (status_json r) (bs "manifest") = nullable str (sr_manifest r) /\ vindex (status_json r) (bs "state") = str (state_str (sr_state r)) /\
  vindex (status_json r) (bs "reason") = nullable str (sr_reason r) /\ vindex (status_json r) (bs "stale") = VBool (sr_stale r) /\
  vindex (status_json r) (bs "store_path") = nullable str (sr_store_path r) /\ vindex (status_json r) (bs "generation") = nullable num (sr_generation r) /\
  vindex (status_json r) (bs "uptime_seconds") = nullable num (sr_uptime_seconds r) /\ vindex (status_json r) (bs "resources") = ceiling_json (sr_resources r) /\
  vindex (vindex (status_json r) (bs "record_schema_skew")) (bs "record") = nullable num (sr_record_skew r) /\
  vindex (status_json r) (bs "runtime") = runtime_json (sr_runtime r).
Proof. split_and!; try reflexivity. destruct r as [m s rs st sp g u rc rt [theirs|]]; reflexivity. Qed.
Lemma runtime_fields r :
  vindex (runtime_json r) (bs "mem_used_bytes") = nullable num (mem_used_bytes r) /\
  vindex (runtime_json r) (bs "disk_allocated_bytes") = nullable num (disk_allocated_bytes r) /\
  vindex (runtime_json r) (bs "disk_virtual_bytes") = nullable num (disk_virtual_bytes r) /\
  vindex (runtime_json r) (bs "sessions") = nullable num (sessions r) /\
  vindex (runtime_json r) (bs "pressure_some_avg60") = nullable float (pressure_some_avg60 r).
Proof. split_and!; reflexivity. Qed.
Lemma nullable_inj {A} (f : A -> Value) a b : (forall x y, f x = f y -> x = y) -> (forall x, f x <> VNull) -> nullable f a = nullable f b -> a = b.
Proof.
  intros Hf Hn. destruct a as [a|], b as [b|]; cbn; intros H; [by f_equal; apply Hf|by apply Hn in H|by symmetry in H; apply Hn in H|done].
Qed.
Lemma num_inj x y : num x = num y -> x = y.
Proof. by intros [= ->]. Qed.
Lemma str_inj x y : str x = str y -> x = y.
Proof. by intros [= ->]. Qed.
Lemma nullable_num a b : nullable num a = nullable num b -> a = b.
Proof. apply nullable_inj; [apply num_inj|intros x H; discriminate H]. Qed.
Lemma nullable_str a b : nullable str a = nullable str b -> a = b.
Proof. apply nullable_inj; [apply str_inj|intros x H; discriminate H]. Qed.
Lemma ceiling_inj a b : ceiling_json a = ceiling_json b -> a = b.
Proof.
  apply nullable_inj; [|intros x H; discriminate H]. intros [m v] [m' v'] H. pose proof (f_equal (fun v => vindex v (bs "mem_mib")) H) as H1. pose proof (f_equal (fun v => vindex v (bs "vcpu")) H) as H2.
  vm_compute in H1, H2. by injection H1 as ->; injection H2 as ->.
Qed.
Definition finite (r : RuntimeReadings) : bool := match pressure_some_avg60 r with Some NonFinite => false | _ => true end.
Lemma runtime_inj r r' : finite r = true -> finite r' = true -> runtime_json r = runtime_json r' -> r = r'.
Proof.
  intros Hf Hf' H. destruct (runtime_fields r) as (A1 & A2 & A3 & A4 & A5), (runtime_fields r') as (B1 & B2 & B3 & B4 & B5).
  rewrite H in A1, A2, A3, A4, A5. rewrite A1 in B1. rewrite A2 in B2. rewrite A3 in B3. rewrite A4 in B4. rewrite A5 in B5.
  apply nullable_num in B1, B2, B3, B4. destruct r as [m a d s x], r' as [m' a' d' s' x']. cbn in *. subst. f_equal.
  destruct x as [[v|]|], x' as [[v'|]|]; cbn in *; try done; by injection B5 as ->.
Qed.
Lemma state_str_inj s s' : state_str s = state_str s' -> s = s'.
Proof. by destruct s, s'. Qed.
(** The record of a status keeps its shape and loses nothing: its keys are the same in every state, each there once, and
    two reports with one record are the same report. *)
Theorem status_record_is_faithful r :
  object_keys (status_json r) =
    map bs ["generation"; "manifest"; "reason"; "record_schema_skew"; "resources"; "runtime"; "stale"; "state"; "store_path"; "uptime_seconds"]%string /\
  object_keys (vindex (status_json r) (bs "runtime")) =
    map bs ["disk_allocated_bytes"; "disk_virtual_bytes"; "mem_used_bytes"; "pressure_some_avg60"; "sessions"]%string /\
  forall r', finite (sr_runtime r) = true -> finite (sr_runtime r') = true -> status_json r = status_json r' -> r = r'.
Proof.
  split; [reflexivity|]. split; [reflexivity|]. intros r' Hf Hf' H.
  destruct (status_fields r) as (A1 & A2 & A3 & A4 & A5 & A6 & A7 & A8 & A9 & A10), (status_fields r') as (B1 & B2 & B3 & B4 & B5 & B6 & B7 & B8 & B9 & B10).
  rewrite H in *. rewrite A1 in B1. rewrite A2 in B2. rewrite A3 in B3. rewrite A4 in B4. rewrite A5 in B5. rewrite A6 in B6. rewrite A7 in B7. rewrite A8 in B8.
  rewrite A9 in B9. rewrite A10 in B10. apply nullable_str in B1, B3, B5. apply nullable_num in B6, B7, B9. apply ceiling_inj in B8.
  apply (runtime_inj _ _ Hf Hf') in B10. apply str_inj, state_str_inj in B2. injection B4 as B4. destruct r, r'. cbn in *. by subst.
Qed.

(* ------------------------------------------------------------------ *)
(** * A palette that marks its spans *)

(** An escape no terminal shows, and a width that does not count it. *)
Definition marked (s : bytes) : bytes := x1b :: s.
Definition marking : Palette := mk_Palette marked marked marked marked marked marked marked marked marked.
Definition shown_width (s : bytes) : nat := length (List.filter (fun b => negb (bool_decide (b = x1b))) s).
Lemma marking_role style : role marking style -> style = marked.
Proof. unfold role. rewrite !elem_of_cons, elem_of_nil. cbn. tauto. Qed.
Lemma shown_width_reads x y : reads marking x y -> shown_width x = shown_width y.
Proof.
  induction 1 as [x|style x Hs%marking_role|x x' y y' _ IH1 _ IH2]; [done|by subst|]. unfold shown_width in *. by rewrite !List.filter_app, !length_app, IH1, IH2.
Qed.
Lemma marked_ends style x : role marking style -> ends_visible x -> ends_visible (style x).
Proof. intros ->%marking_role (b & Hb & Hv). exists b. split; [|done]. unfold marked. destruct x as [|c x]; [discriminate Hb|exact Hb]. Qed.
Definition demo_volumes : list (list bytes) := [[bs "home"; bs "/home"; bs "12"]; [bs "cache"; bs "/var/cache"; bs "4"]].
Lemma color_changes_no_text_witness :
  exists x y, volume_list_human shown_width demo_volumes marking = Some x /\ volume_list_human shown_width demo_volumes plain = Some y /\ reads marking x y /\ x <> y.
Proof.
  destruct (color_changes_no_text marking shown_width shown_width_reads marked_ends) as (_ & _ & _ & _ & H & _).
  destruct (H demo_volumes) as (x & y & Hx & Hy & Hr).
  - apply Forall_cons_2; [|apply Forall_cons_2; [|apply Forall_nil_2]]; intros cell E; injection E as <-; [exists "2"%byte|exists "4"%byte]; (split; [reflexivity|vm_compute; split; discriminate]).
  - exists x, y. split; [exact Hx|]. split; [exact Hy|]. split; [exact Hr|]. intros ->. rewrite <- Hy in Hx. vm_compute in Hx. discriminate Hx.
Defined.
