(* ===== verification/Status.v ===== *)
(** * Status and fleet ([src/src/cli/lifecycle.rs], the status verb; [src/src/cli/fleet.rs])

    What a project's VM is doing as a report, and the same reading for every manifest of the library.  What the host says
    of one sandbox is a record, the same during one run; serde_json and the parsing of a float are parameters.  The one
    write on the way, of the rebuildable index, is [Registry]'s. *)
From S2P Require Import Prelude Bytes Paths Ordered Message Hybrid HostControl Ip Allowlist Mounts Workspace Launch AgentSource Spec Diagnostic Lifecycle Stop Start Roots Toml Artifact Manifest Json Volumes Generations Registry Merged Binding Grammar Reclaim Doctor Render.

(** ** What the host says *)

Record sandbox_reading := mk_sandbox_reading {
  sb_state_is_dir : bool; sb_runtime_is_dir : bool;     (* [is_dir] of the two directories *)
  sb_boot_json : file; sb_vm_pid : file; sb_launch_spec : file; sb_running_build : file;
  sb_unit : show; sb_unit_memory : show;                (* the two questions to the service manager *)
  sb_boot_age : option Z;                               (* whole seconds since the boot record was written *)
  sb_profile : profile; sb_volumes : volume_dir;
  sb_sessions : BootMetadata -> option Z }.             (* [HostControl.session_count] over its control socket *)
Record status_world := mk_status_world {
  st_sandbox : bytes -> sandbox_reading;
  st_kill : Z -> kill_answer;
  st_exists_in_store : bytes -> bool;
  st_stat : stats;
  st_pressure : bytes -> option bytes;                  (* a [memory.pressure] file *)
  st_host_pressure : option bytes; st_meminfo : option bytes; st_parallelism : option Z;
  st_exists : bytes -> bool }.                          (* [Path::exists] *)

Section status.
Context (envelope : bytes -> option Z) (decode : bytes -> option BootMetadata) (from_str : bytes -> option Value) (parse_f64 : bytes -> option f64) (w : status_world).

Definition parse_pressure_some_avg60 (pressure : bytes) : option f64 :=
  let* line := List.find (starts_with (bs "some")) (lines pressure) in
  let* token := head (omap (strip_prefix (bs "avg60=")) (split_whitespace line)) in
  parse_f64 token.
Definition scope_pressure_some_avg60 (cgroup : bytes) : option f64 :=
  let* text := st_pressure w (bs "/sys/fs/cgroup" ++ cgroup ++ bs "/memory.pressure") in parse_pressure_some_avg60 text.
Definition host_pressure_some_avg60 : option f64 := let* text := st_host_pressure w in parse_pressure_some_avg60 text.

Definition u64_value (v : Value) : option Z := match v with VNumber (PosInt n) => Some n | _ => None end.
Definition declared_resources (launch_spec : file) : option Lifecycle.Resources :=
  let* raw := read_text launch_spec in
  let* value := from_str raw in
  let resources := vindex value (bs "resources") in
  let* mem_mib := u64_value (vindex resources (bs "memoryMiB")) in
  let* vcpu := u64_value (vindex resources (bs "vcpus")) in
  Some (Lifecycle.mk_Resources mem_mib vcpu).
Definition recorded (s : sandbox_reading) : option bytes := last_build (st_exists_in_store w) (sb_profile s).
Definition launched (s : sandbox_reading) : option bytes := read_build_record (st_exists_in_store w) (sb_running_build s).
Definition state_of (s : sandbox_reading) : State :=
  discriminate (sb_boot_json s) (sb_vm_pid s) (bool_decide (is_Some (recorded s))) (st_kill w) (sb_unit s).
(** [matches!(state, Running | Stopping)]. *)
Definition is_up (s : State) : bool := match s with Running | Stopping => true | _ => false end.
Definition record_of (s : sandbox_reading) (running : bool) : BootRecord := if running then read_boot_record envelope decode (sb_boot_json s) else R_Absent.
Definition is_stale (s : sandbox_reading) (state : State) : bool :=
  match state with
  | Running => match launched s, recorded s with Some launched, Some current => negb (bytes_eqb current launched) | _, _ => false end
  | _ => false
  end.
Definition when {A} (b : bool) (a : option A) : option A := if b then a else None.
Definition runtime_readings (s : sandbox_reading) (running : bool) (r : BootRecord) : RuntimeReadings :=
  let disk := ok (disk_totals (sb_volumes s) (st_stat w)) in
  let '(mem_used_bytes, cgroup) := if running then unit_memory_and_cgroup (sb_unit_memory s) else (None, None) in
  let sessions := match r with Ready boot => when running (sb_sessions s boot) | _ => None end in
  mk_RuntimeReadings mem_used_bytes (option_map fst disk) (option_map snd disk) sessions (let* cgroup := cgroup in scope_pressure_some_avg60 cgroup).

(** ** The report of one project *)

Definition status_report (binding : bytes) (s : sandbox_reading) : StatusReport :=
  let state := state_of s in
  let running := is_up state in
  let r := record_of s running in
  mk_StatusReport (Some binding) state (if bool_decide (state = StFailed) then Some (bs "crashed") else None) (is_stale s state) (recorded s)
    (current_number (sb_profile s)) (when running (sb_boot_age s)) (when running (declared_resources (sb_launch_spec s))) (runtime_readings s running r)
    (match r with Skewed theirs => Some theirs | _ => None end).
Definition status (resolved : result ResolvedForLaunch Failure) (runtime_root : result bytes Failure) : result StatusReport Failure :=
  let? resolved := resolved in
  let? runtime_root := runtime_root in
  let sandbox_id := ra_name (rl_selected resolved) in
  let? _ := locate runtime_root sandbox_id DEFAULT_TARGET in
  Ok (status_report (rb_manifest (rl_binding resolved)) (st_sandbox w sandbox_id)).

(** ** The fleet *)

Record FleetRow := mk_FleetRow {
  fr_manifest : bytes; fr_workspaces : list bytes; fr_path_missing : list bytes; fr_state : State; fr_stale : bool; fr_generation : option Z;
  fr_uptime_seconds : option Z; fr_resources : option Lifecycle.Resources; fr_readings : RuntimeReadings }.
Record HostReadings := mk_HostReadings { mem_available_bytes : option Z; mem_total_bytes : option Z; host_pressure : option f64 }.

Section fleet.
Context {Net : Type} {N : IpNetOps Net} (toml : toml_parser) (l : library_world).
Definition declared_of (m : Manifest.Manifest) : option DeclaredResources :=
  option_map (fun r => mk_DeclaredResources (Manifest.mem_mib r) (Manifest.vcpu r)) (Manifest.resources m).
(** The ceiling a resting manifest declares, resolved on this host. *)
Definition resting_resources (sandbox_id : bytes) : option Lifecycle.Resources :=
  let* selected := ok (resolve_manifest l sandbox_id) in
  let* (_, manifest) := ok (read_manifest_file toml l selected) in
  Some (effective_resources (declared_of manifest) (st_meminfo w) (st_parallelism w)).
Definition fleet_row (im : IndexedManifest) : option FleetRow :=
  let sandbox_id := im_name im in
  let s := st_sandbox w sandbox_id in
  if negb (sb_state_is_dir s) && negb (sb_runtime_is_dir s) then None
  else
    let state := state_of s in
    let running := is_up state in
    let workspaces := expanded_workspace_sources l (workspace_sources im) in
    Some (mk_FleetRow sandbox_id workspaces (List.filter (fun path => negb (st_exists w path)) workspaces) state (is_stale s state)
            (current_number (sb_profile s)) (when running (sb_boot_age s))
            (if running then declared_resources (sb_launch_spec s) else resting_resources sandbox_id)
            (runtime_readings s running (record_of s running))).
Definition host_memory : option Z * option Z :=
  (let* text := st_meminfo w in available_memory_bytes text, let* text := st_meminfo w in total_memory_bytes text).
Definition host_readings : HostReadings := mk_HostReadings (fst host_memory) (snd host_memory) host_pressure_some_avg60.
Definition missing_workspaces (rows : list FleetRow) : list (bytes * bytes) := flat_map (fun r => map (pair (fr_manifest r)) (fr_path_missing r)) rows.
Definition missing_note (missing : list (bytes * bytes)) : bytes :=
  match missing with
  | [] => []
  | _ =>
      let one := (length missing =? 1)%nat in
      bs "warning: " ++ dec (Z.of_nat (length missing)) ++ bs " declared workspace director" ++ (if one then bs "y" else bs "ies") ++ bs " no longer exist" ++
      (if one then bs "s" else []) ++ bs ":" ++ newline ++
      concat (map (fun '(manifest, path) => bs "           " ++ manifest ++ bs "  →  " ++ path ++ newline) missing) ++
      bs "         It may just be on an unmounted filesystem, so vivarium will not" ++ newline ++
      bs "         remove or rewrite the manifest on its own." ++ newline
  end.
Definition row_json (r : FleetRow) : Value :=
  obj [("manifest", str (fr_manifest r)); ("workspaces", strs (fr_workspaces r)); ("path_missing", strs (fr_path_missing r));
       ("state", str (state_str (fr_state r))); ("stale", VBool (fr_stale r)); ("generation", nullable num (fr_generation r));
       ("uptime_seconds", nullable num (fr_uptime_seconds r)); ("resources", ceiling_json (fr_resources r)); ("runtime", runtime_json (fr_readings r))]%string.
Definition host_json (h : HostReadings) : Value :=
  obj [("mem_available_bytes", nullable num (mem_available_bytes h)); ("mem_total_bytes", nullable num (mem_total_bytes h));
       ("pressure_some_avg60", nullable float (host_pressure h))]%string.
Definition dash : bytes := bs "-".
Definition shown {A} (f : A -> bytes) (a : option A) : bytes := match a with Some a => f a | None => dash end.
Definition FLEET_HEADER : list bytes := map bs ["PROJECT"; "STATE"; "MEM (used/ceiling)"; "VCPU"; "DISK (alloc/virtual)"; "SESS"; "UP"]%string.
Definition row_human (r : FleetRow) : list bytes :=
  [fr_manifest r; state_str (fr_state r);
   shown human_bytes (mem_used_bytes (fr_readings r)) ++ bs " / " ++ shown (fun c => human_bytes (mib_bytes (Lifecycle.mem_mib c))) (fr_resources r);
   shown (fun c => dec (Lifecycle.vcpu c)) (fr_resources r);
   match disk_allocated_bytes (fr_readings r), disk_virtual_bytes (fr_readings r) with
   | Some allocated, Some apparent => human_bytes allocated ++ bs " / " ++ human_bytes apparent
   | _, _ => bs "- / -"
   end;
   shown dec (sessions (fr_readings r)); shown duration (fr_uptime_seconds r)] ++
  if near_ceiling (mem_used_bytes (fr_readings r)) (option_map Lifecycle.mem_mib (fr_resources r)) then [bs "(near ceiling)"] else [].
Definition rows_human (rows : list FleetRow) : list (list bytes) := match rows with [] => [] | _ => FLEET_HEADER :: map row_human rows end.
(** [{pressure}] of a float. *)
Context (show_f64 : f64 -> bytes).
Definition host_line (h : HostReadings) : bytes :=
  let memory :=
    match mem_available_bytes h, mem_total_bytes h with
    | Some available, Some total => human_bytes available ++ bs " available of " ++ human_bytes total
    | _, _ => bs "memory reading unavailable"
    end in
  match host_pressure h with
  | Some pressure => bs "host: " ++ memory ++ bs " - memory pressure (60s): " ++ show_f64 pressure ++ bs "%"
  | None => bs "host: " ++ memory
  end.
(** What [viv status -g] prints, and its note; [None] would be a table that cannot be laid out. *)
Definition fleet_report (to_string : Value -> bytes) (measure_text_width : bytes -> nat) (index : result WorkspaceIndex Failure) (runtime_root : result bytes Failure)
    (p : Palette) (output : Output) : result (option bytes * bytes) Failure :=
  let? index := index in
  let? _ := runtime_root in
  let rows := omap fleet_row (indexed index) in
  let stdout :=
    match output with
    | Json => Some (line to_string (fleet_json (map row_json rows) (host_json host_readings)))
    | Human => fleet_human measure_text_width (rows_human rows) (host_line host_readings) p
    end in
  Ok (stdout, missing_note (missing_workspaces rows)).
End fleet.

(** The note that suggests a trim. *)
Definition trim_suggestion_line (manifest : bytes) : bytes :=
  bs "`" ++ manifest ++ bs "` is near its memory ceiling while host memory is low; `viv memory trim` reclaims cached guest memory" ++ newline.
Definition trim_suggestion (fleet : option FleetUse) (manifest : bytes) (used ceiling_mib : option Z) : bytes :=
  if negb (near_ceiling used ceiling_mib) then []
  else match fleet with
       | None => []
       | Some fleet =>
           match admit_ (fst host_memory) (measured_bytes fleet) with Proceed => [] | _ => trim_suggestion_line manifest end
       end.
End status.

(* ------------------------------------------------------------------ *)
(** * What a status may say *)

Section status_spec.
Context (envelope : bytes -> option Z) (decode : bytes -> option BootMetadata) (from_str : bytes -> option Value) (parse_f64 : bytes -> option f64) (w : status_world).
Notation status_report := (Status.status_report envelope decode from_str parse_f64 w).
Notation status := (Status.status envelope decode from_str parse_f64 w).

Lemma when_false {A} b (a : option A) : b = false -> when b a = None.
Proof. by intros ->. Qed.
Lemma is_stale_spec s state : is_stale w s state = true <-> state = Running /\ exists a b, launched w s = Some a /\ recorded w s = Some b /\ a <> b.
Proof.
  unfold is_stale. destruct state; try (split; [done|by intros [E _]]). destruct (launched w s) as [a|]; [|split; [done|by intros (_ & a & b & E & _)]].
  destruct (recorded w s) as [b|]; [|split; [done|by intros (_ & a' & b & _ & E & _)]]. rewrite negb_true_iff. unfold bytes_eqb. rewrite bool_decide_eq_false. split.
  - intros H. split; [done|]. exists a, b. by split_and!; [..|congruence].
  - intros (_ & a' & b' & [= ->] & [= ->] & H). congruence.
Qed.
Lemma skew_spec s running theirs : record_of envelope decode s running = Skewed theirs ->
  running = true /\ exists raw, sb_boot_json s = Content raw /\ envelope raw = Some theirs /\ theirs <> LAUNCH_SCHEMA_VERSION.
Proof.
  unfold record_of, read_boot_record. destruct running; [|done]. destruct (sb_boot_json s) as [| |raw]; [done..|]. destruct (envelope raw) as [t|] eqn:E; [|done].
  destruct (Z.eqb_spec t LAUNCH_SCHEMA_VERSION); [by destruct (decode raw)|]. intros [= ->]. split; [done|]. by exists raw.
Qed.
(** Totals over what was measured, image by image. *)
Notation sum l := (foldr Z.add 0 l).
Lemma totals_from stat images acc total : fold_err (total_step stat) images acc = Ok total <->
  exists measured, Forall2 (fun image m => stat image = Ok m) images measured /\
    total = (fst acc + 512 * sum (map fst measured), snd acc + sum (map snd measured)).
Proof.
  revert acc. induction images as [|image images IH]; intros acc; cbn [fold_err].
  - split; [intros [= <-]; exists []; split; [apply Forall2_nil_2|destruct acc; cbn; f_equal; lia]|].
    intros (m & ->%Forall2_nil_inv_l & ->). destruct acc; cbn. do 2 f_equal; lia.
  - unfold total_step at 1. destruct (stat image) as [[blocks len]|k] eqn:E; cbn [map_err rbind].
    + rewrite IH. split.
      * intros (m & Hm & ->). exists ((blocks, len) :: m). split; [by apply Forall2_cons_2|]. cbn. f_equal; lia.
      * intros (m & Hm & ->). apply Forall2_cons_inv_l in Hm as ([b' l'] & m' & Hh & Hm & ->). rewrite E in Hh. injection Hh as <- <-.
        exists m'. split; [done|]. cbn. f_equal; lia.
    + split; [done|]. intros (m & Hm & _). apply Forall2_cons_inv_l in Hm as (h & m' & Hh & _ & _). congruence.
Qed.
Lemma totals_spec dir stat total : disk_totals dir stat = Ok total <->
  exists images measured, images_in dir = Ok images /\ Forall2 (fun image m => stat image = Ok m) images measured /\
    total = (512 * sum (map fst measured), sum (map snd measured)).
Proof.
  unfold disk_totals. destruct (images_in dir) as [images|f]; cbn [rbind]; [|split; [done|by intros (? & ? & ? & _)]].
  rewrite totals_from. cbn [fst snd]. split.
  - intros (m & Hm & ->). by exists images, m.
  - intros (images' & m & [= ->] & Hm & ->). by exists m.
Qed.
(** The records a supervisor leaves, and what the unit of the VM says. *)
Definition has_records (s : sandbox_reading) : bool := exists_ (sb_boot_json s) || exists_ (sb_vm_pid s).
Lemma failed_spec records build alive u :
  classify records build alive u = StFailed <-> records = true /\ transitional u = false /\ (alive && settled_running u) = false.
Proof.
  unfold transitional, settled_running, classify. rewrite (unit_is_cons u "activating" ["deactivating"]%string).
  destruct (unit_is u ["activating"]%string), (unit_is u ["deactivating"]%string),
    (unit_is u ["active"; "reloading"; "refreshing"]%string), records, build, alive; cbn; naive_solver.
Qed.
Lemma running_spec records build alive u :
  classify records build alive u = Running <-> records = true /\ transitional u = false /\ (alive && settled_running u) = true.
Proof.
  unfold transitional, settled_running, classify. rewrite (unit_is_cons u "activating" ["deactivating"]%string).
  destruct (unit_is u ["activating"]%string), (unit_is u ["deactivating"]%string),
    (unit_is u ["active"; "reloading"; "refreshing"]%string), records, build, alive; cbn; naive_solver.
Qed.
(** C37: A status claims nothing it did not read.  It says [running] exactly where the supervisor left records, the recorded
    process lives and the unit is settled and running, and [failed], with a cause, exactly where there are records, no
    transition, and not both of these.  Uptime, ceiling, memory, sessions, pressure and a version skew stand only beside a
    VM that is up; the disk stands in every state, as the sums over the images, both or neither.  A stale VM is a running
    one launched from a build that is not the one now recorded, both known; sessions are only ever asked of an agent this
    binary speaks to, and a record of another version is named only where there is one. *)
Theorem status_claims_what_it_read binding s : let r := status_report binding s in
  let settled := vm_is_alive (sb_vm_pid s) (st_kill w) && settled_running (unit_active_state (sb_unit s)) in
  let resting := transitional (unit_active_state (sb_unit s)) = false in
  (sr_state r = Running <-> has_records s = true /\ resting /\ settled = true) /\
  (sr_state r = StFailed <-> has_records s = true /\ resting /\ settled = false) /\
  (sr_reason r = Some (bs "crashed") <-> sr_state r = StFailed) /\
  (is_up (sr_state r) = false ->
   sr_uptime_seconds r = None /\ sr_resources r = None /\ sr_record_skew r = None /\ mem_used_bytes (sr_runtime r) = None /\ sessions (sr_runtime r) = None /\
   pressure_some_avg60 (sr_runtime r) = None) /\
  (forall allocated apparent,
   disk_allocated_bytes (sr_runtime r) = Some allocated /\ disk_virtual_bytes (sr_runtime r) = Some apparent <->
   exists images measured, images_in (sb_volumes s) = Ok images /\ Forall2 (fun image m => st_stat w image = Ok m) images measured /\
     allocated = 512 * sum (map fst measured) /\ apparent = sum (map snd measured)) /\
  (is_Some (disk_allocated_bytes (sr_runtime r)) <-> is_Some (disk_virtual_bytes (sr_runtime r))) /\
  (sr_stale r = true <-> sr_state r = Running /\ exists a b, launched w s = Some a /\ sr_store_path r = Some b /\ a <> b) /\
  (is_Some (sessions (sr_runtime r)) -> exists boot, read_boot_record envelope decode (sb_boot_json s) = Ready boot /\ sessions (sr_runtime r) = sb_sessions s boot) /\
  (is_Some (sr_record_skew r) -> exists raw theirs, sb_boot_json s = Content raw /\ envelope raw = Some theirs /\ theirs <> LAUNCH_SCHEMA_VERSION /\ sr_record_skew r = Some theirs).
Proof.
  cbv zeta. split; [apply running_spec|]. split; [apply failed_spec|]. unfold Status.status_report.
  cbn [sr_reason sr_state sr_uptime_seconds sr_resources sr_record_skew sr_runtime sr_stale sr_store_path].
  generalize (state_of w s). intros state. split; [|split; [|split; [|split; [|split; [apply is_stale_spec|split]]]]].
  - case_bool_decide as E; [by split|]. split; [intros H; discriminate H|intros H; by destruct E].
  - intros Hup. unfold record_of, runtime_readings. by rewrite Hup.
  - intros allocated apparent. unfold runtime_readings. destruct (if is_up state then _ else _) as [used cgroup]. cbn [disk_allocated_bytes disk_virtual_bytes].
    pose proof (totals_spec (sb_volumes s) (st_stat w) (allocated, apparent)) as Ht. destruct (disk_totals _ _) as [[a v]|f]; cbn [ok option_map fst snd].
    + split; [intros [[= ->] [= ->]]; destruct (proj1 Ht eq_refl) as (i & m & H1 & H2 & [= -> ->]); by exists i, m|].
      intros (i & m & H1 & H2 & -> & ->). assert (E : Ok (a, v) = Ok (E := Failure) (512 * sum (map fst m), sum (map snd m))) by (apply Ht; by exists i, m).
      by injection E as -> ->.
    + split; [by intros [? _]|]. intros (i & m & H1 & H2 & -> & ->). assert (E : Err f = Ok (512 * sum (map fst m), sum (map snd m))) by (apply Ht; by exists i, m). done.
  - unfold runtime_readings. destruct (if is_up state then _ else _) as [used cgroup]. cbn [disk_allocated_bytes disk_virtual_bytes].
    destruct (ok _) as [[a v]|]; cbn; split; intros [? E]; done.
  - unfold runtime_readings. destruct (if is_up state then _ else _) as [used cgroup]. cbn [sessions]. unfold record_of.
    destruct (is_up state); [|by intros [x E]]. destruct (read_boot_record envelope decode (sb_boot_json s)) as [| |t|boot]; try (by intros [x E]). intros _. by exists boot.
  - destruct (record_of envelope decode s (is_up state)) as [| |t|boot] eqn:E; try (by intros [x Hx]). intros _.
    destruct (skew_spec _ _ _ E) as (_ & raw & H1 & H2 & H3). by exists raw, t.
Qed.
(** A living VM whose unit cannot be asked is reported as crashed. *)
Theorem unasked_unit_reads_as_crashed binding s : has_records s = true -> vm_is_alive (sb_vm_pid s) (st_kill w) = true -> sb_unit s = NotRun ->
  sr_state (status_report binding s) = StFailed /\ sr_reason (status_report binding s) = Some (bs "crashed").
Proof.
  intros Hr Ha Hu. assert (Hs : state_of w s = StFailed) by (apply failed_spec; rewrite Hu, Ha; done).
  unfold Status.status_report. cbn [sr_state sr_reason]. by rewrite Hs.
Qed.
End status_spec.

(* ------------------------------------------------------------------ *)
(** * What a fleet says *)

Section fleet_spec.
Context (envelope : bytes -> option Z) (decode : bytes -> option BootMetadata) (from_str : bytes -> option Value) (parse_f64 : bytes -> option f64) (w : status_world).
Context {Net : Type} {N : IpNetOps Net} (toml : toml_parser) (l : library_world) (show_f64 : f64 -> bytes).
Notation status_report := (Status.status_report envelope decode from_str parse_f64 w).
Notation fleet_row := (Status.fleet_row envelope decode from_str parse_f64 w toml l).
Notation fleet_report := (Status.fleet_report envelope decode from_str parse_f64 w toml l show_f64).

(** A manifest has been a sandbox: something of it is retained, or left in the runtime directory. *)
Definition is_sandbox (im : IndexedManifest) : bool := sb_state_is_dir (st_sandbox w (im_name im)) || sb_runtime_is_dir (st_sandbox w (im_name im)).
Lemma fleet_row_spec im : fleet_row im =
  if is_sandbox im
  then let r := status_report (im_name im) (st_sandbox w (im_name im)) in
       let workspaces := expanded_workspace_sources l (workspace_sources im) in
       Some (mk_FleetRow (im_name im) workspaces (List.filter (fun path => negb (st_exists w path)) workspaces) (sr_state r) (sr_stale r) (sr_generation r)
               (sr_uptime_seconds r) (if is_up (sr_state r) then sr_resources r else resting_resources w toml l (im_name im)) (sr_runtime r))
  else None.
Proof.
  unfold Status.fleet_row, is_sandbox. destruct (sb_state_is_dir _), (sb_runtime_is_dir _); try done; cbn [orb negb andb]; cbv zeta; unfold Status.status_report;
    cbn [sr_state sr_stale sr_generation sr_uptime_seconds sr_resources sr_runtime]; do 2 f_equal; by destruct (is_up _).
Qed.
(** C36: The fleet is the manifests that have been sandboxes, in the order of the index, and each row says what [viv status]
    says of that project: the two reports cannot disagree.  Only the ceiling of a resting project is the fleet's own, and
    nothing a row reads can fail the whole: the index and the runtime root alone do. *)
Theorem fleet_says_what_status_says to_string measure index root p output :
  (forall index, omap fleet_row (indexed index) = omap fleet_row (List.filter is_sandbox (indexed index)) /\
    map fr_manifest (omap fleet_row (indexed index)) = map im_name (List.filter is_sandbox (indexed index))) /\
  (forall im row, fleet_row im = Some row -> let r := status_report (im_name im) (st_sandbox w (im_name im)) in
    sr_manifest r = Some (fr_manifest row) /\ fr_state row = sr_state r /\ fr_stale row = sr_stale r /\ fr_generation row = sr_generation r /\
    fr_uptime_seconds row = sr_uptime_seconds r /\ fr_readings row = sr_runtime r /\ (is_up (sr_state r) = true -> fr_resources row = sr_resources r)) /\
  (forall f, fleet_report to_string measure index root p output = Err f <-> index = Err f \/ (is_ok index = true /\ root = Err f)).
Proof.
  split; [|split].
  - intros [ss ims]. cbn [indexed]. induction ims as [|im ims [IH1 IH2]]; [done|]. cbn [List.filter]. pose proof (fleet_row_spec im) as Hrow.
    destruct (is_sandbox im) eqn:E; cbv zeta in Hrow; cbn [omap list_omap map]; rewrite Hrow; [|by rewrite <- IH1]. split; [by rewrite IH1|]. cbn [map fr_manifest]. by rewrite IH2.
  - intros im row. rewrite fleet_row_spec. destruct (is_sandbox im); [|done]. cbv zeta. intros [= <-].
    cbn [fr_manifest fr_state fr_stale fr_generation fr_uptime_seconds fr_readings fr_resources]. split_and!; try done.
    unfold Status.status_report. cbn [sr_state sr_resources]. by intros ->.
  - intros f. unfold Status.fleet_report. destruct index as [index|e]; cbn [rbind is_ok]; [|split; [intros [= ->]; by left|intros [E|[E _]]; [by injection E as ->|done]]].
    destruct root as [root|e]; cbn [rbind]; [split; [done|intros [E|[_ E]]; done]|]. split; [intros [= ->]; by right|intros [E|[_ E]]; [done|by injection E as ->]].
Qed.

(** ** The note and the table *)

(** A declaration is named exactly when its directory is gone, with the manifest that declares it; there is no note where
    nothing is missing. *)
Theorem missing_directories_are_named index : let rows := omap fleet_row (indexed index) in
  (forall manifest path, (manifest, path) ∈ missing_workspaces rows <->
    exists im, im ∈ indexed index /\ is_sandbox im = true /\ manifest = im_name im /\ path ∈ expanded_workspace_sources l (workspace_sources im) /\ st_exists w path = false) /\
  (missing_note (missing_workspaces rows) = [] <-> missing_workspaces rows = []).
Proof.
  cbv zeta. split.
  - intros manifest path. unfold missing_workspaces. rewrite list_elem_of_In, in_flat_map. split.
    + intros (row & (im & Him & Hrow)%list_elem_of_In%list_elem_of_omap & Hin). rewrite fleet_row_spec in Hrow. destruct (is_sandbox im) eqn:E; [|done].
      cbv zeta in Hrow. injection Hrow as <-. cbn [fr_manifest fr_path_missing] in Hin. apply in_map_iff in Hin as (q & [= <- <-] & [Hq Hn]%List.filter_In).
      exists im. split_and!; [done..|by apply list_elem_of_In|by apply negb_true_iff].
    + intros (im & Him & E & -> & Hp & Hn). eexists. split.
      * apply list_elem_of_In, list_elem_of_omap. exists im. split; [done|]. rewrite fleet_row_spec, E. reflexivity.
      * cbn [fr_manifest fr_path_missing]. apply in_map_iff. exists path. split; [done|]. apply List.filter_In. split; [by apply list_elem_of_In|by rewrite Hn].
  - by destruct (missing_workspaces _).
Qed.
Lemma duration_ends seconds : ends_visible (duration seconds).
Proof.
  assert (Hm : ends_visible (bs "m")) by (exists "m"%byte; split; [done|vm_compute; by split]). assert (Hs : ends_visible (bs "s")) by (exists "s"%byte; split; [done|vm_compute; by split]).
  unfold duration. destruct (0 <? _); [by do 3 apply ends_visible_app|]. destruct (0 <? _); [by do 3 apply ends_visible_app|by apply ends_visible_app].
Qed.
Lemma rows_closed rows : Forall closed (rows_human rows).
Proof.
  assert (Hv : forall c b, last c = Some b -> 33 <= bz b <= 126 -> ends_visible c) by (intros c b H1 H2; by exists b).
  destruct rows as [|row rows]; [apply Forall_nil_2|]. unfold rows_human. apply Forall_cons_2.
  - intros cell [= <-]. eapply Hv; [reflexivity|vm_compute; by split].
  - rewrite Forall_map. apply Forall_true. intros r cell. unfold row_human. destruct (near_ceiling _ _).
    + cbn [app last]. intros [= <-]. eapply Hv; [reflexivity|vm_compute; by split].
    + cbn [app last]. intros [= <-]. destruct (fr_uptime_seconds r) as [n|]; cbn [shown]; [apply duration_ends|]. eapply Hv; [reflexivity|vm_compute; by split].
Qed.
(** The fleet's text is the same with and without color, whatever the readings. *)
Theorem fleet_reads_without_color p measure rows host_line :
  (forall x y, reads p x y -> measure x = measure y) -> (forall style x, role p style -> ends_visible x -> ends_visible (style x)) ->
  exists x y, fleet_human measure (rows_human rows) host_line p = Some x /\ fleet_human measure (rows_human rows) host_line plain = Some y /\ reads p x y.
Proof. intros H1 H2. by apply fleet_reads; [..|apply rows_closed]. Qed.
(** A trim is suggested exactly near the ceiling and where admission, over the same fleet and the same reading, would not
    simply proceed: a fleet that cannot be measured suggests nothing. *)
Theorem trim_is_suggested_under_pressure fleet manifest used ceiling_mib :
  trim_suggestion w fleet manifest used ceiling_mib <> [] <->
  near_ceiling used ceiling_mib = true /\ exists f, fleet = Some f /\ admit_ (fst (host_memory w)) (measured_bytes f) <> Proceed.
Proof.
  unfold trim_suggestion. destruct (near_ceiling used ceiling_mib); cbn [negb]; [|split; [by intros []|by intros [E _]]].
  destruct fleet as [f|]; [|split; [by intros []|by intros (_ & f & E & _)]].
  destruct (admit_ _ _) eqn:E; (split; [intros H; split; [done|]; exists f; (split; [done|]); rewrite E; try done; by destruct H|]);
    first [intros _ H; discriminate H|intros (_ & g & [= <-] & H); by destruct H].
Qed.
End fleet_spec.
(** A ceiling read back from a launch specification is multiplied without a bound: from [2^44] MiB on it shows as nothing,
    where the near-ceiling test, which saturates, still takes it for the largest. *)
Theorem huge_ceiling_shows_as_nothing : human_bytes (mib_bytes (2 ^ 44)) = bs "0 B" /\ saturating_mul (2 ^ 44) (1024 * 1024) = u64_max.
Proof. by vm_compute. Qed.
