(* ===== verification/Main.v ===== *)
(** * The process ([src/src/main.rs], [run] and [Failure] of [src/src/cli/mod.rs])

    From the command line and the streams to the two texts and the exit: what is answered before anything can fail, the
    context, the arm each invocation is sent to, and how a result or a failure is delivered.  What a verb does is its own
    part; here it is an answer with what it said through the face meanwhile.  The sentences of a usage error are a
    parameter. *)
From S2P Require Import Prelude Bytes Diagnostic Grammar Render.

(** ** Failures *)

Inductive CliFailure := F_Usage (message : bytes) (shown : option bytes) | F_Diagnosed (d : Diagnostic.Diagnostic) (c : ExitKind).
Definition failure_exit (f : CliFailure) : ExitKind := match f with F_Usage _ _ => Usage | F_Diagnosed _ c => c end.
Definition render_failure (f : CliFailure) (output : Output) (p : Palette) : bytes :=
  match f with
  | F_Usage message shown =>
      pl_error p (bs "viv:") ++ bs " " ++ message ++ newline ++
      match shown with Some usage => pl_label p (bs "usage:") ++ bs " " ++ usage ++ newline | None => [] end
  | F_Diagnosed d c => if is_json output then to_json d (code c) ++ newline else Diagnostic.render (diagnostic_palette p) d ++ newline
  end.

Definition diagnosed (n : Namespace) (condition what : bytes) (where_ : Locus) (why : bytes) (c : ExitKind) : CliFailure :=
  F_Diagnosed (Diagnostic.new (mk_DiagnosticId n condition) what where_ why) c.
Definition with_hint (f : CliFailure) (h : bytes) : CliFailure :=
  match f with F_Diagnosed d c => F_Diagnosed (Diagnostic.with_hint h d) c | usage => usage end.

(** ** The verbs *)

Record Success_ := mk_Success { su_stdout : bytes; su_notes : bytes }.
Definition plain_success (stdout : bytes) : Success_ := mk_Success stdout [].
(** What a verb answers, and what it said meanwhile. *)
Record answer (A : Type) := mk_answer { an_result : result A CliFailure; an_calls : list ui_call }.
Arguments mk_answer {A} an_result an_calls. Arguments an_result {A}. Arguments an_calls {A}.
Record surface := mk_surface {
  sf_version : bytes;
  sf_roots : result unit bytes;                                              (* the four roots, or why not *)
  sf_directory : result unit bytes;                                          (* the working directory *)
  sf_handoff : bytes -> result unit (bytes * list bytes * ExitKind);         (* an error, its causes, its category *)
  sf_doctor : bool -> bool -> bool -> Output -> answer (Success_ * ExitKind);
  sf_status : bool -> Output -> answer Success_;
  sf_stop : bool -> bool -> option Z -> Output -> answer Success_;
  sf_destroy : bool -> bool -> Output -> answer Success_;
  sf_memory_trim : option Z -> Output -> answer Success_;
  sf_volume_trim : option bytes -> Output -> answer Success_;
  sf_trim : Output -> answer Success_;
  sf_start_attached : bool -> bool -> option Z -> answer ExitKind;
  sf_session : GuestCommand -> bool -> answer ExitKind;                      (* whether it is a shell *)
  sf_config : option bytes -> Output -> answer Success_;
  sf_config_eval : Output -> answer Success_;
  sf_config_sources : Output -> answer Success_;
  sf_manifest_list : Output -> answer Success_;
  sf_manifest_show : bytes -> Output -> answer Success_;
  sf_start : bool -> bool -> option Z -> answer Success_;
  sf_volume_list : Output -> answer Success_;
  sf_volume_prune : bool -> bool -> Output -> answer Success_;
  sf_generations_list : Output -> answer Success_;
  sf_generations_prune : option Z -> option Z -> Output -> answer Success_;
  sf_generations_activate : option Z -> Output -> answer Success_;
  sf_gc : Output -> answer Success_;
  sf_update : list bytes -> Output -> answer Success_ }.

Section main.
Context (message_text : message -> bytes) (sf : surface) (colored : Palette) (variable : bytes -> option bytes).

(** What the host says of itself before any verb. *)
Definition context : result unit CliFailure :=
  match sf_roots sf with
  | Err message => Err (F_Usage message None)
  | Ok _ =>
      match sf_directory sf with
      | Err message => Err (F_Usage (bs "cannot read the current directory: " ++ message) None)
      | Ok _ => Ok tt
      end
  end.
Definition misdispatched : CliFailure :=
  diagnosed N_Internal (bs "misdispatched") (bs "`viv start --attach` reached the synchronous dispatch surface") (Named (bs "command surface"))
    (bs "the attached form returns when the console stream ends, which only the async dispatch arm can express") Software.
(** The synchronous surface. *)
Definition run (i : Invocation) : answer Success_ :=
  match i with
  | Config manifest output => sf_config sf manifest output
  | ConfigEval output => sf_config_eval sf output
  | ConfigSources output => sf_config_sources sf output
  | ManifestList output => sf_manifest_list sf output
  | ManifestShow name output => sf_manifest_show sf name output
  | Start rebuild no_rebuild generation false _ => sf_start sf rebuild no_rebuild generation
  | Start _ _ _ true _ => mk_answer (Err misdispatched) []
  | VolumeList output => sf_volume_list sf output
  | VolumePrune dry_run yes output => sf_volume_prune sf dry_run yes output
  | GenerationsList output => sf_generations_list sf output
  | GenerationsPrune keep older output => sf_generations_prune sf keep older output
  | GenerationsActivate number output => sf_generations_activate sf (Some number) output
  | GenerationsRollback output => sf_generations_activate sf None output
  | Gc output => sf_gc sf output
  | Update inputs output => sf_update sf inputs output
  | StartSpec _ | Exec _ | Shell _ | Status _ _ | Stop _ _ _ _ | Destroy _ _ _ | MemoryTrim _ _ | VolumeTrim _ _ | Trim _ | Help _ | Version
  | Doctor _ _ _ _ => mk_answer (Ok (plain_success [])) []
  end.
Definition agent_readers (i : Invocation) : option (answer Success_ * Output) :=
  match i with
  | Status global output => Some (sf_status sf global output, output)
  | Stop all force timeout output => Some (sf_stop sf all force timeout output, output)
  | Destroy keep_volumes yes output => Some (sf_destroy sf keep_volumes yes output, output)
  | MemoryTrim to output => Some (sf_memory_trim sf to output, output)
  | VolumeTrim name output => Some (sf_volume_trim sf name output, output)
  | Trim output => Some (sf_trim sf output, output)
  | _ => None
  end.
Definition requested_output (i : Invocation) : Output :=
  match i with
  | Config _ output | ConfigEval output | ConfigSources output | ManifestList output | ManifestShow _ output | Start _ _ _ _ output | Status _ output
  | Stop _ _ _ output | VolumeList output | VolumePrune _ _ output | VolumeTrim _ output | MemoryTrim _ output | Trim output | Destroy _ _ output
  | GenerationsList output | GenerationsPrune _ _ output | GenerationsActivate _ output | GenerationsRollback output | Gc output | Update _ output
  | Doctor _ _ _ output => output
  | StartSpec _ | Exec _ | Shell _ | Help _ | Version => Human
  end.

(** ** The process *)

Record outcome := mk_outcome { o_stdout : bytes; o_stderr : list shown_mark; o_exit : ExitKind }.
Definition fail (f : CliFailure) (output : Output) (p : Palette) (before : list shown_mark) : outcome :=
  mk_outcome [] (before ++ [Printed (render_failure f output p)]) (failure_exit f).
Definition deliver (s : Success_) (u : Ui) (before : list shown_mark) (c : ExitKind) : outcome :=
  mk_outcome (su_stdout s) (before ++ snd (note u (su_notes s))) c.
(** A verb that answers a result, with or without ending a frame in front of its failure. *)
Definition delivered (ends_frame : bool) (a : answer Success_) (output : Output) (p : Palette) (u : Ui) : outcome :=
  let '(u, marks) := ui_run u (an_calls a) in
  match an_result a with
  | Ok s => deliver s u marks Success
  | Err f => fail f output p (marks ++ if ends_frame then snd (cancel u) else [])
  end.
(** A verb that answers its exit. *)
Definition exited (ends_frame : bool) (a : answer ExitKind) (output : Output) (p : Palette) (u : Ui) : outcome :=
  let '(u, marks) := ui_run u (an_calls a) in
  match an_result a with
  | Ok c => mk_outcome [] marks c
  | Err f => fail f output p (marks ++ if ends_frame then snd (cancel u) else [])
  end.
Definition report_handoff (message : bytes) (causes : list bytes) : list shown_mark :=
  Printed (bs "viv: " ++ message ++ newline) :: map (fun cause => Printed (bs "  caused by: " ++ cause ++ newline)) causes.
Definition with_context (i : Invocation) (p : Palette) (u : Ui) : outcome :=
  let output := requested_output i in
  match i with
  | Doctor strict list_ online output =>
      let a := sf_doctor sf strict list_ online output in
      let '(u, marks) := ui_run u (an_calls a) in
      match an_result a with Ok (s, c) => deliver s u marks c | Err f => fail f output p marks end
  | _ =>
      match agent_readers i with
      | Some (a, output) => delivered false a output p u
      | None =>
          match i with
          | Start rebuild no_rebuild generation true output => exited true (sf_start_attached sf rebuild no_rebuild generation) output p u
          | Exec requested => exited false (sf_session sf requested false) output p u
          | Shell requested => exited false (sf_session sf requested true) output p u
          | _ => delivered true (run i) output p u
          end
      end
  end.
Definition main (args : list bytes) (streams : Streams) : outcome :=
  let stderr_palette := palette_resolve colored (colors_enabled (stderr_is_tty streams) variable) in
  match parse args streams with
  | Err e => fail (F_Usage (message_text (msg e)) (Some (usage_text (Grammar.shown e)))) Human stderr_palette []
  | Ok (mk_Parsed i v) =>
      match i with
      | Help verb => mk_outcome (help_human (palette_resolve colored (colors_enabled (stdout_is_tty streams) variable)) verb) [] Success
      | Version => mk_outcome (bs "viv " ++ sf_version sf ++ newline) [] Success
      | StartSpec spec =>
          match sf_handoff sf spec with
          | Ok _ => mk_outcome [] [] Success
          | Err (message, causes, c) => mk_outcome [] (report_handoff message causes) c
          end
      | _ =>
          let output := requested_output i in
          let u := ui_resolve colored (stdout_is_tty streams) (stderr_is_tty streams) variable v (is_json output) in
          match context with
          | Err f => fail f output stderr_palette []
          | Ok _ => with_context i stderr_palette u
          end
      end
  end.
End main.

(* ------------------------------------------------------------------ *)
(** * No verb is skipped *)

(** Every verb of the surface satisfies [P], [Q] or [R], by what it answers. *)
Definition every_verb (sf : surface) (P : answer Success_ -> Prop) (Q : answer ExitKind -> Prop) (R : answer (Success_ * ExitKind) -> Prop) : Prop :=
  (forall a b c d, R (sf_doctor sf a b c d)) /\ (forall a b, P (sf_status sf a b)) /\ (forall a b c d, P (sf_stop sf a b c d)) /\
  (forall a b c, P (sf_destroy sf a b c)) /\ (forall a b, P (sf_memory_trim sf a b)) /\ (forall a b, P (sf_volume_trim sf a b)) /\ (forall a, P (sf_trim sf a)) /\
  (forall a b, Q (sf_session sf a b)) /\ (forall a b, P (sf_config sf a b)) /\ (forall a, P (sf_config_eval sf a)) /\ (forall a, P (sf_config_sources sf a)) /\
  (forall a, P (sf_manifest_list sf a)) /\ (forall a b, P (sf_manifest_show sf a b)) /\ (forall a, P (sf_volume_list sf a)) /\
  (forall a b c, P (sf_volume_prune sf a b c)) /\ (forall a, P (sf_generations_list sf a)) /\ (forall a b c, P (sf_generations_prune sf a b c)) /\
  (forall a b, P (sf_generations_activate sf a b)) /\ (forall a, P (sf_gc sf a)) /\ (forall a b, P (sf_update sf a b)).
(** What is answered without a verb. *)
Definition answered_first (i : Invocation) : bool := match i with Help _ | Version | StartSpec _ => true | _ => false end.

(** A verb that opens no frame, and the calls that leave one open: a note with a text closes it. *)
Definition opens_no_frame (calls : list ui_call) : bool := forallb (fun c => match c with Intro _ => false | _ => true end) calls.
Fixpoint left_open (open_ : bool) (calls : list ui_call) : bool :=
  match calls with
  | [] => open_
  | c :: calls =>
      left_open (match c with Intro _ => true | Outro _ | Cancelled => false | Noted n => open_ && bool_decide (n = []) | _ => open_ end) calls
  end.
Lemma opens_no_frame_closed calls : opens_no_frame calls = true -> left_open false calls = false.
Proof. induction calls as [|c calls IH]; [done|]. unfold opens_no_frame in *. cbn. intros [Hc H]%andb_true_iff. destruct c; try done; by apply IH. Qed.
(** What a face that is not quiet does with its calls. *)
Definition face_ok (u : Ui) : Prop := animate u = true -> ui_verbosity u <> Quiet.
Lemma step_left_open u c b : face_ok u -> (gutter u = true -> animate u = true /\ b = true) -> let u' := fst (ui_step u c) in
  face_ok u' /\ (gutter u' = true -> animate u' = true /\ left_open b [c] = true).
Proof.
  unfold face_ok. destruct u as [[] v p po []], c as [m|[|x n]|t|m| |t|l|m|], v;
    unfold ui_step, warn, note, intro, outro, cancel, step_open, step_line, step_done, step_drop; cbn; intros Hf Hg;
    repeat match goal with H : true = true -> _ |- _ => specialize (H eq_refl) end; split; try done; try tauto; intros; try done; destruct Hg as [? ->]; done.
Qed.
Lemma run_left_open u calls b : face_ok u -> (gutter u = true -> animate u = true /\ b = true) ->
  gutter (fst (ui_run u calls)) = true -> left_open b calls = true.
Proof.
  revert u b. induction calls as [|c calls IH]; intros u b Hf Hg; [cbn; by intros [_ ?]%Hg|]. cbn [ui_run]. pose proof (step_left_open u c b Hf Hg) as Hs.
  destruct (ui_step u c) as [u1 m1]. destruct Hs as [Hf1 Hg1]. specialize (IH u1 _ Hf1 Hg1). destruct (ui_run u1 calls). exact IH.
Qed.

Section spec.
Context (message_text : message -> bytes) (sf : surface) (colored : Palette) (variable : bytes -> option bytes).
Notation main := (Main.main message_text sf colored variable).

Lemma delivered_err b a output p u f : an_result a = Err f -> o_exit (delivered b a output p u) = failure_exit f /\ o_stdout (delivered b a output p u) = [].
Proof. intros H. unfold delivered. destruct (ui_run u (an_calls a)). by rewrite H. Qed.
Lemma exited_err b a output p u f : an_result a = Err f -> o_exit (exited b a output p u) = failure_exit f /\ o_stdout (exited b a output p u) = [].
Proof. intros H. unfold exited. destruct (ui_run u (an_calls a)). by rewrite H. Qed.
(** Every invocation is its verb's: where all verbs refuse, none but help, the version and the private handoff ends
    otherwise than as that refusal, with nothing on standard output.  No arm answers an empty success in a verb's stead. *)
Theorem no_verb_is_skipped f args streams i v : Main.context sf = Ok tt ->
  every_verb sf (fun a => an_result a = Err f) (fun a => an_result a = Err f) (fun a => an_result a = Err f) ->
  (forall a b c, an_result (sf_start sf a b c) = Err f) -> (forall a b c, an_result (sf_start_attached sf a b c) = Err f) ->
  parse args streams = Ok (mk_Parsed i v) -> answered_first i = false ->
  o_exit (main args streams) = failure_exit f /\ o_stdout (main args streams) = [].
Proof.
  intros Hc (H1 & H2 & H3 & H4 & H5 & H6 & H7 & H8 & H9 & H10 & H11 & H12 & H13 & H14 & H15 & H16 & H17 & H18 & H19 & H20) Hs Ha Hp Hi.
  unfold Main.main. rewrite Hp, Hc. cbv zeta. destruct i as [| | | | |? ? ? []| | | | | | | | | | | | | | | | | | | |]; try done; unfold with_context;
    cbn [agent_readers run requested_output]; try (apply delivered_err; done); try (apply exited_err; done).
  destruct (ui_run _ _). by rewrite H1.
Qed.

(** A frame that is open belongs to the face, and each way to end it. *)
Lemma frame_open_printed b marks s : frame_open b (marks ++ [Printed s]) = frame_open b marks.
Proof. unfold frame_open. by rewrite fold_left_app. Qed.
Lemma run_frame u calls : gutter u = false -> frame_open false (snd (ui_run u calls)) = gutter (fst (ui_run u calls)).
Proof. intros Hg. pose proof (ui_run_spec u calls) as H. destruct (ui_run u calls). cbn. rewrite <- Hg. symmetry. apply H. Qed.
Lemma call_frame u calls c : gutter u = false ->
  frame_open false (snd (ui_run u calls) ++ snd (ui_step (fst (ui_run u calls)) c)) = gutter (fst (ui_step (fst (ui_run u calls)) c)).
Proof.
  intros Hg. pose proof (run_frame u calls Hg) as H. destruct (ui_run u calls) as [u' marks]. cbn [fst snd] in *. unfold frame_open in *.
  rewrite fold_left_app, H. pose proof (ui_step_spec u' c) as Hs. destruct (ui_step u' c). symmetry. apply Hs.
Qed.
Lemma run_closed u calls : face_ok u -> gutter u = false -> left_open false calls = false -> gutter (fst (ui_run u calls)) = false.
Proof. intros Hf Hg Hc. apply not_true_is_false. intros H. pose proof (run_left_open u calls false Hf ltac:(congruence) H). congruence. Qed.
Lemma run_snoc u calls c : fst (ui_run u (calls ++ [c])) = fst (ui_step (fst (ui_run u calls)) c).
Proof.
  revert u. induction calls as [|x calls IH]; intros u; cbn; [by destruct (ui_step u c)|]. destruct (ui_step u x) as [u1 m1]. specialize (IH u1).
  destruct (ui_run u1 (calls ++ [c])), (ui_run u1 calls). exact IH.
Qed.
Lemma step_framed u c : (gutter u = true -> animate u = true) -> gutter (fst (ui_step u c)) = true -> animate (fst (ui_step u c)) = true.
Proof.
  destruct u as [[] v p po []], c as [m|[|x n]|t|m| |t|l|m|], v;
    unfold ui_step, warn, note, intro, outro, cancel, step_open, step_line, step_done, step_drop; cbn; auto.
Qed.
Lemma run_framed u calls : (gutter u = true -> animate u = true) -> gutter (fst (ui_run u calls)) = true -> animate (fst (ui_run u calls)) = true.
Proof.
  revert u. induction calls as [|c calls IH]; intros u Hu; [exact Hu|]. cbn [ui_run]. pose proof (step_framed u c Hu) as H1.
  destruct (ui_step u c) as [u1 m1]. specialize (IH u1 H1). destruct (ui_run u1 calls). exact IH.
Qed.
Lemma cancelled u calls : gutter u = false -> gutter (fst (cancel (fst (ui_run u calls)))) = false.
Proof.
  intros Hg. pose proof (run_framed u calls ltac:(congruence)) as Hi. destruct (fst (ui_run u calls)) as [a v p po []]; [|by destruct a].
  specialize (Hi eq_refl). cbn in Hi. by subst.
Qed.
(** How each delivery ends a frame. *)
Lemma delivered_ends b a output p u : face_ok u -> gutter u = false ->
  match an_result a with Ok s => left_open false (an_calls a ++ [Noted (su_notes s)]) = false | Err _ => b = false -> left_open false (an_calls a) = false end ->
  frame_open false (o_stderr (delivered b a output p u)) = false.
Proof.
  intros Hf Hg Ha. unfold delivered. destruct (an_result a) as [s|f].
  - pose proof (call_frame u (an_calls a) (Noted (su_notes s)) Hg) as H. apply (run_closed u) in Ha; [|done..]. rewrite run_snoc in Ha.
    destruct (ui_run u (an_calls a)) as [u' marks]. cbn [fst snd ui_step deliver o_stderr] in *. congruence.
  - destruct b.
    + pose proof (call_frame u (an_calls a) Cancelled Hg) as H. pose proof (cancelled u (an_calls a) Hg) as Hc.
      destruct (ui_run u (an_calls a)) as [u' marks]. cbn [fst snd ui_step fail o_stderr] in *. rewrite frame_open_printed. congruence.
    + pose proof (run_frame u (an_calls a) Hg) as H. pose proof (run_closed u (an_calls a) Hf Hg (Ha eq_refl)) as Hc.
      destruct (ui_run u (an_calls a)) as [u' marks]. cbn [fst snd fail o_stderr] in *. rewrite frame_open_printed, app_nil_r. congruence.
Qed.
Lemma exited_ends b a output p u : face_ok u -> gutter u = false ->
  (b = false \/ (exists c, an_result a = Ok c) -> left_open false (an_calls a) = false) -> frame_open false (o_stderr (exited b a output p u)) = false.
Proof.
  intros Hf Hg Ha. unfold exited. destruct (an_result a) as [c|f] eqn:E; [|destruct b].
  - pose proof (run_frame u (an_calls a) Hg) as H. pose proof (run_closed u (an_calls a) Hf Hg (Ha (or_intror (ex_intro _ c eq_refl)))) as Hc.
    destruct (ui_run u (an_calls a)). cbn in *. congruence.
  - pose proof (call_frame u (an_calls a) Cancelled Hg) as H. pose proof (cancelled u (an_calls a) Hg) as Hc.
    destruct (ui_run u (an_calls a)) as [u' marks]. cbn [fst snd ui_step fail o_stderr] in *. rewrite frame_open_printed. congruence.
  - pose proof (run_frame u (an_calls a) Hg) as H. pose proof (run_closed u (an_calls a) Hf Hg (Ha (or_introl eq_refl))) as Hc.
    destruct (ui_run u (an_calls a)) as [u' marks]. cbn [fst snd fail o_stderr] in *. rewrite frame_open_printed, app_nil_r. congruence.
Qed.
Lemma resolved_face_ok sout serr v machine : let u := ui_resolve colored sout serr variable v machine in face_ok u /\ gutter u = false.
Proof. split; [|done]. unfold face_ok. cbn. by destruct serr, v, machine. Qed.
Lemma left_open_snoc b calls n : left_open b calls = false -> left_open b (calls ++ [Noted n]) = false.
Proof. revert b. induction calls as [|c calls IH]; intros b; cbn; [by intros ->|apply IH]. Qed.
Lemma quiet_delivery b a output p u : face_ok u -> gutter u = false -> opens_no_frame (an_calls a) = true ->
  frame_open false (o_stderr (delivered b a output p u)) = false.
Proof. intros Hf Hg Ha%opens_no_frame_closed. apply delivered_ends; [done..|]. destruct (an_result a); [by apply left_open_snoc|done]. Qed.
Lemma with_context_ends i p u : face_ok u -> gutter u = false ->
  every_verb sf (fun a => opens_no_frame (an_calls a) = true) (fun a => opens_no_frame (an_calls a) = true) (fun a => opens_no_frame (an_calls a) = true) ->
  (forall a b c s, an_result (sf_start sf a b c) = Ok s -> left_open false (an_calls (sf_start sf a b c) ++ [Noted (su_notes s)]) = false) ->
  (forall a b c k, an_result (sf_start_attached sf a b c) = Ok k -> left_open false (an_calls (sf_start_attached sf a b c)) = false) ->
  frame_open false (o_stderr (with_context sf i p u)) = false.
Proof.
  intros Hf Hg (H1 & H2 & H3 & H4 & H5 & H6 & H7 & H8 & H9 & H10 & H11 & H12 & H13 & H14 & H15 & H16 & H17 & H18 & H19 & H20) Hs Ha.
  destruct i as [| | | | |rebuild no_rebuild generation [] output| | | | | | | | | | | | | | | | | |strict listed online output| |];
    unfold with_context; cbn [agent_readers run requested_output];
    try (by apply quiet_delivery); try (apply exited_ends; [done..|]; intros _; by apply opens_no_frame_closed).
  - apply exited_ends; [done..|]. intros [?|[k Hk]]; [done|by eapply Ha].
  - apply delivered_ends; [done..|]. destruct (an_result _) as [s|f] eqn:E; [by apply Hs|done].
  - pose proof (quiet_delivery false (mk_answer (match an_result (sf_doctor sf strict listed online output) with Ok (s, _) => Ok s | Err f => Err f end)
      (an_calls (sf_doctor sf strict listed online output))) output p u Hf Hg (H1 strict listed online output)) as H.
    unfold delivered in H. cbn [an_calls an_result] in H. destruct (ui_run u _) as [u' marks].
    destruct (an_result _) as [[s c]|f]; [done|]. by rewrite app_nil_r in H.
Qed.
(** C39: No frame is left hanging: where only [start] opens one, and a start that succeeds ends its own or has a note that does,
    whatever the command line and the streams are, and however the verb ends, the last mark on standard error leaves no
    frame open - in particular a failure is never printed inside one. *)
Theorem no_frame_is_left_open args streams :
  every_verb sf (fun a => opens_no_frame (an_calls a) = true) (fun a => opens_no_frame (an_calls a) = true) (fun a => opens_no_frame (an_calls a) = true) ->
  (forall a b c s, an_result (sf_start sf a b c) = Ok s -> left_open false (an_calls (sf_start sf a b c) ++ [Noted (su_notes s)]) = false) ->
  (forall a b c k, an_result (sf_start_attached sf a b c) = Ok k -> left_open false (an_calls (sf_start_attached sf a b c)) = false) ->
  frame_open false (o_stderr (main args streams)) = false.
Proof.
  intros Hv Hs Ha. unfold Main.main. destruct (parse args streams) as [[i v]|e]; [|done]. cbv zeta.
  destruct (resolved_face_ok (stdout_is_tty streams) (stderr_is_tty streams) v (is_json (requested_output i))) as [Hf Hg].
  destruct i; try done; try (destruct (Main.context sf); [by apply with_context_ends|done]).
  destruct (sf_handoff sf spec) as [|[[message causes] c]]; [done|]. cbn. unfold report_handoff, frame_open. cbn. by induction causes.
Qed.
End spec.

(* ------------------------------------------------------------------ *)
(** * The theorems at work *)

Definition refusal : CliFailure := diagnosed N_State (bs "no-manifest") (bs "nothing is bound here") (Named (bs "project")) (bs "no manifest names it") Diagnostic.Config.
(** Every verb refuses; a start opened its frame before. *)
Definition refusing : surface :=
  let no A (calls : list ui_call) : answer A := mk_answer (Err refusal) calls in
  mk_surface (bs "1") (Ok tt) (Ok tt) (fun _ => Ok tt) (fun _ _ _ _ => no _ []) (fun _ _ => no _ []) (fun _ _ _ _ => no _ []) (fun _ _ _ => no _ [])
    (fun _ _ => no _ []) (fun _ _ => no _ []) (fun _ => no _ []) (fun _ _ _ => no _ [Intro (bs "vm")]) (fun _ _ => no _ []) (fun _ _ => no _ [])
    (fun _ => no _ []) (fun _ => no _ []) (fun _ => no _ []) (fun _ _ => no _ []) (fun _ _ _ => no _ [Intro (bs "vm")]) (fun _ => no _ [])
    (fun _ _ _ => no _ []) (fun _ => no _ []) (fun _ _ _ => no _ []) (fun _ _ => no _ []) (fun _ => no _ []) (fun _ _ => no _ []).
Definition terminal : Streams := mk_Streams true true true.
Lemma no_verb_is_skipped_witness :
  let args := [bs "viv"; bs "trim"] in
  parse args terminal = Ok (mk_Parsed (Trim Human) Normal) /\
  o_exit (main (fun _ => []) refusing plain (fun _ => None) args terminal) = Diagnostic.Config /\
  o_stdout (main (fun _ => []) refusing plain (fun _ => None) args terminal) = [].
Proof.
  split; [reflexivity|].
  apply (no_verb_is_skipped (fun _ => []) refusing plain (fun _ => None) refusal [bs "viv"; bs "trim"] terminal (Trim Human) Normal);
    [reflexivity|unfold every_verb; split_and!; reflexivity|reflexivity..].
Defined.
Lemma no_frame_is_left_open_witness :
  let out := main (fun _ => []) refusing plain (fun _ => None) [bs "viv"; bs "start"] terminal in
  existsb (fun m => match m with FrameOpened _ => true | _ => false end) (o_stderr out) = true /\ frame_open false (o_stderr out) = false.
Proof.
  split; [vm_compute; reflexivity|].
  apply (no_frame_is_left_open (fun _ => []) refusing plain (fun _ => None)); [unfold every_verb; split_and!; reflexivity|discriminate..].
Defined.
